(* ===== verification/_CoqProject ===== *)
-Q . S2P
Prelude.v
RustStr.v
IndexModel.v
Bitset.v
Uri.v
SdbModel.v
ProtoWire.v
SdbParser.v
SdbSymbols.v
SdbNormalize.v
UnionFind.v
SdbGroups.v
SdbProfile.v
Md5.v
Locator.v
StoreFormat.v
SegReader.v
SegSafe.v
SegWriter.v
SegExample.v
SegScan.v
SegLayout.v
SegTables.v
SegPostings.v
SegDict.v
SegValid.v
SegRound.v
SegRefine.v
WorkspaceState.v
FileSystem.v
Durable.v
StoreWrites.v
Snapshot.v
StoreExample.v
StorePublish.v
StoreSafe.v
StoreTheorems.v
Search.v
SearchScore.v
SearchExact.v
Targets.v
EngineState.v
SymbolEncoding.v
Identifiers.v
Materialize.v
IngestPostings.v
IngestData.v
Ingest.v
IngestWalk.v
IngestPublish.v
Orchestrator.v
SymbolQueries.v
Outline.v
References.v
Rename.v
CallHierarchy.v
IndexView.v
QueryExample.v
QueryView.v
QueryCursor.v
ReferencesExact.v
RenameSafe.v
CallsExact.v
OutlineExact.v
PcCodec.v
PcPayloads.v
PcPayloadsOk.v
PcBoundary.v
LspDocuments.v
BuildScheduler.v
LspTransport.v
LspSurface.v
LspServer.v
LspServeExact.v
BspModel.v
BspClient.v
BspSession.v
LspDiagnostics.v
LspTokens.v
