(* ===== verification/Prelude.v ===== *)
(** * scala3-bsp-semantic-ls: verification library

    ** The program

    A language server for Scala 3 that answers workspace-wide questions (references, rename, call
    hierarchy, outlines, workspace symbols) from the SemanticDB files the compiler writes, with a
    build server for compilation and a presentation compiler for the buffers being typed. Its
    crates are modelled in the order data flows through them.

    - [ls-semanticdb] finds the [.semanticdb] files of a target ([locator.rs]), checks that they
      describe the current source ([md5.rs]), decodes their protobuf bytes ([wire.rs],
      [parser.rs]), reads symbols by the SemanticDB grammar ([symbols.rs]), normalizes documents
      ([normalize.rs]), groups the symbols one rename must touch ([groups.rs]) and computes for
      each group whether renaming it is safe ([profile.rs], [batch.rs]).
    - [ls-index-model] holds the data they exchange: positions, flags, symbol kinds, target
      bitsets, unsafe reasons, URIs.
    - [ls-store] writes the result as an immutable segment of fifteen files ([writer.rs]), maps
      and validates it ([reader.rs]), answers the queries, commits generations of segments with
      their workspace state ([durable.rs], [manifest.rs], [workspace_state.rs], [snapshot.rs])
      and ranks workspace symbols ([search.rs]).
    - [ls-engine] ingests the files of a workspace into the store ([ingest.rs], [state.rs],
      [symbol_encoding.rs], [targets.rs]) and answers the queries ([orchestrator.rs],
      [references.rs], [highlight.rs], [rename.rs], [call_hierarchy.rs]).
    - [ls-pc-abi] is the binary boundary to the presentation compiler: the flat buffers
      ([codec.rs]), the payloads ([payloads.rs]), the struct layout and its checksum ([abi.rs],
      [canary.rs]) and the ownership of buffers ([memory.rs]).
    - [ls-bsp] is the client of the build server: framing and JSON-RPC ([wire.rs], [jsonrpc.rs]),
      the session ([session.rs]), discovery, flags and the project model.
    - [ls-server] is the front end: the transport ([jsonrpc.rs]), the loop and its threads
      ([server.rs], [lifecycle.rs], [capabilities.rs]), the open buffers ([documents.rs]), the
      build scheduler, the diagnostics of both compilers and the semantic tokens.

    They meet as a pipeline: located bytes, decoded messages, normalized documents, groups with
    profiles, segment input, files, a committed snapshot, queries on its reader, answers of the
    loop. The build server's project model gives the targets the ingest walks, its diagnostics
    meet those of the presentation compiler in one layer.

    ** Files and what they model

    Each model file has the operations of its source in the source's order and names; what
    follows it holds its lemmas and theorems.

    - [Prelude]: results, machine integers with their wrap-around ([wrapU], [wrapS] and the casts
      [as_*]), bytes, lists indexed by [Z] ([zget], [zset], [slice]), lexicographic orders, a
      stable sort, the removal of repetitions, the tactics [inv_bind], [zcase], [zify_bools] and
      the hint database [rust]. [RustStr]: strings as lists of Unicode scalars, UTF-8 both ways,
      numbers in text, trimming.
    - [IndexModel] ([text.rs], [flags.rs], [symbol.rs], [unsafe_reason.rs], [groups.rs],
      [semantics.rs], [error.rs]), [Bitset] ([bitset.rs]), [Uri] ([uri.rs]).
    - [SdbModel] ([model.rs], [error.rs]), [ProtoWire] ([wire.rs]), [SdbParser] ([parser.rs]),
      [SdbSymbols] ([symbols.rs]), [SdbNormalize] ([normalize.rs]), [UnionFind] and [SdbGroups]
      ([groups.rs]), [SdbProfile] ([profile.rs], [batch.rs]), [Md5] ([md5.rs]), [Locator]
      ([locator.rs]).
    - [StoreFormat] ([format.rs], [data.rs], [error.rs], [wire.rs]); [SegReader] ([reader.rs])
      with its theorems in [SegSafe] (validation) and [SegScan] (queries); [SegWriter]
      ([writer.rs]) with the theory of reading back bytes and the closed form of its layout in
      [SegLayout] and [SegTables], its acceptance by the reader in [SegPostings], [SegDict] and
      [SegValid], the round trip in [SegRound] and the refinement in [SegRefine]; [SegExample]
      is the segment of the witnesses.
    - [WorkspaceState] ([workspace_state.rs]); [FileSystem], the file system the store runs on;
      [Durable] ([durable.rs], [manifest.rs] and the publications of [writer.rs] and
      [workspace_state.rs]); [Snapshot] ([snapshot.rs]) with its theory in [StoreWrites] (paths
      and what a publication writes), [StorePublish] (recoverability) and [StoreSafe] (crashes,
      the janitor), its properties in [StoreTheorems] and the store of the witnesses in
      [StoreExample].
    - [Search] ([search.rs]) with [SearchScore] (the fuzzy score) and [SearchExact] (the index of
      a segment and the ranked query).
    - [Targets] ([targets.rs]), [EngineState] ([state.rs]), [SymbolEncoding] ([hash.rs],
      [symbol_encoding.rs]), [Identifiers] ([identifiers.rs]). The ingest ([ingest.rs]) is
      [Materialize] (documents to segment input, with [IngestPostings] and [IngestData]) and
      [Ingest] (the walk and the publication, with [IngestWalk] and [IngestPublish]).
    - The queries: [Orchestrator] ([orchestrator.rs], [overlay.rs]), [SymbolQueries], [Outline],
      [References] ([references.rs], [highlight.rs]), [Rename] ([rename.rs]), [CallHierarchy]
      ([call_hierarchy.rs]). [IndexView] is the interface their theorems are proved against: an
      opened segment as lists with the reader's scans as functions of them. [QueryView] has the
      shared lemmas, [QueryExample] the workspace of the witnesses; [QueryCursor],
      [ReferencesExact], [RenameSafe], [CallsExact] and [OutlineExact] the theorems.
    - [PcCodec] ([codec.rs]), [PcPayloads] ([payloads.rs]) with [PcPayloadsOk], [PcBoundary]
      ([abi.rs], [canary.rs], [memory.rs]).
    - [LspDocuments] ([documents.rs]), [BuildScheduler] ([build_scheduler.rs]), [LspTransport]
      ([jsonrpc.rs]), [LspSurface] ([capabilities.rs], [lifecycle.rs]), [LspServer] ([server.rs])
      with [LspServeExact], [LspDiagnostics] ([diagnostics.rs], [pc_diagnostics.rs]),
      [LspTokens] ([pc_lsp.rs] and the token handlers of [services.rs]).
    - [BspModel] ([errors.rs], [semanticdb.rs], [model.rs], [loader.rs], [discovery.rs]),
      [BspClient] ([wire.rs], [jsonrpc.rs]), [BspSession] ([session.rs]) over the interface
      [BspSession.Rpc].

    ** How code is rendered

    Integers are [Z] with every cast written out; an expression that can leave its width is
    wrapped or, where the code checks it, an error. A [Result] is [result]; an index or an
    [unwrap] that Rust checks is a [Panic] value ([SdbModel.Stop], [StoreFormat.SegStop]) or
    [None], and the theorems say when it does not occur. Effects on disk run in [FileSystem.io],
    a computation over the files with a log of the operations it made; a query of the engine is
    an [Orchestrator.query] or, where it heals the index, an [Orchestrator.act]. Hash maps and
    sets are [gmap] and [gset]; where their iteration order could show, it is an argument.
    Threads are step functions on one state whose events are the steps of each thread, the
    clock's and what the environment answers ([BuildScheduler], [LspServer], [BspClient],
    [LspDiagnostics]); a theorem about them holds of every sequence of events. A critical section
    is one step.

    Recursion that is not structural takes fuel computed from its input: [skip_fuel] and
    [loop_fuel] from the bytes left (every step of the wire reader consumes one), [uf_fuel] from
    the size of the forest (a path has no repetition), the binary search from the number of
    symbols (the interval shrinks), the directory walk from the tree it walks, the closures of
    [Targets] and [BspModel] from the number of targets (each enters the queue once), the fuzzy
    match of [SymbolQueries] from the square of the name's length (a restart moves its anchor on), the climb of [CallHierarchy] from
    the number of entries (an owner starts earlier), the tree of [Outline] from the number of
    nodes, [round_down] from the offset, the header loops from the length of the stream (a line
    is not empty), the line table of [LspTokens] from the length of the text (a line is not
    empty but for the last). In each case a theorem shows that the result is reached, as
    [parse_text_documents_total], [union_find_equivalence_closure], [find_symbol_exact],
    [target_closures_exact], [fuzzy_matches_exact], [outline_exact], [Utf16Lines_exact].

    ** Parameters

    Code the sources only call is an argument: the checksum [crc32c] (no law is needed of it);
    [serde_json] as [to_json]/[from_json] with its round trip, or as the class [SerdeJson] and
    [Deserialize] with no law; the Unicode tables of [char] ([CharTables], with laws on ASCII
    only, or that lowercase stays a scalar; the lowercase table of a whole string);
    [Debug] of strings ([DebugStr]); the platform's messages and refused calls ([io_message],
    [denied]); the iteration order of a hash map ([into_iter], any permutation); the
    [line-index] crate ([LineIndexOps], with its documented laws [LineIndexOk], which a scan of
    the text satisfies); the clock; the JSON of the [lsp-types] structs. The traits of the program
    are classes: the dirty-buffer overlay, the handlers and the bootstrap of the server loop; the
    compile service and the presentation compiler are arguments. The system allocator and what the other side of the presentation-compiler
    boundary does are arguments of [PcBoundary]. [ascii_tables], [StoreExample], [SegExample],
    [QueryExample] and [scan_index] instantiate them.

    The crash model of [FileSystem] is what the store's protocol relies on: directory operations
    reach the disk in order, a directory sync flushes those before it, a rename is atomic, the
    removal of a tree is not, and a file that was written but not synced may hold anything
    after a crash. A failing call leaves the files as they were. Paths are compared as the
    strings the code builds: the root is not empty and does not end in a slash.

    ** What the theorems show

    - Decoding: the parser terminates, never panics, and computes exactly what the bytes encode;
      [encode_parse_roundtrip]; [read_varint_exact] gives every error of a varint.
    - Symbols: [split_last_inverts_grammar] and the owner chain; normalization keeps exactly the
      occurrences it should; the locator never leaves its root and inverts its own paths.
    - Groups: the union-find computes the equivalence closure and the groups are the classes of
      the alias relation; the profile of a group is exact, and a group called safe has only
      editable occurrences.
    - Segments: opening never panics whatever the bytes, and makes every accessor total; the
      scans with block skipping are filters, symbol-at-position is the best covering occurrence,
      the binary search is exact; the writer refuses exactly the inputs it says, what it writes
      opens and reads back, and the queries of the file are the queries of its input.
    - Store: a publication is exact; after a crash at any point recovery finds the old pair or
      the new one; in every reachable state of readers, publications, janitor runs and crashes
      the held snapshots stay on disk. Two examples show where the code breaks its promise.
    - Search: the score is the largest number of hump hits over subsequence embeddings, its tiers
      hold up to their bounds; the index holds exactly the fields of the segment's rows, and the
      query returns the best of exactly the matching rows in a deterministic order.
    - Ingest: the walk visits exactly the files of the targets, materialization loses no
      occurrence, the data is accepted exactly when its spans can be packed, and an ingest
      publishes what it materialized or leaves the store as it was.
    - Queries: the cursor is resolved by a fresh source only; references are exactly the
      occurrences of the group that may refer to the definition; a rename edits nothing but a safe
      group in fresh documents; incoming calls are the references under their enclosing
      definition; the outline is the tree of the definitions.
    - Presentation compiler: every payload reads back, no buffer makes a decoder panic or leave a
      Rust type, and a changed struct layout changes the canary (up to the padding it does not
      see).
    - Server: the store's text is the client's after any edits; framing reads back whatever the
      chunks cut; every message is handled once, in order, and every request answered once; no
      scheduled build is lost; the diagnostics shown are the build's and then the overlay's;
      tokens read back from their deltas, and a client that follows the answers holds the
      current stream.
    - Build server: a caller gets the reply to its own id, none is lost and none waits past its
      deadline; a session is closed once and then silent; the project model holds exactly the
      Scala 3 targets, each source under its first owner, with exact reverse closures.

    ** Not modelled

    The locks of the store (its operations are sequential under them; an [Arc] is the snapshot it
    points to), memory maps (a mapped file is its bytes), logging. Of [ls-bsp], the child
    process of a session and the callbacks of [client.rs]. Of [ls-server], the request handlers
    of [services.rs] but for the semantic tokens, and [pc.rs], [pc_convert.rs], [pc_overlay.rs],
    [formatting.rs], [convert.rs], [workspace_uris.rs], [bootstrap.rs]: they translate between
    JSON, the engine and the presentation compiler, whose two sides are modelled; [doctor.rs],
    [store_dump.rs], [cli.rs], [logging.rs] and [main.rs] are reports and input/output. The JVM
    embedding, the test kit and the benchmarks are foreign-function glue, test code and
    measurement. *)

From Stdlib Require Import ZArith Lia Sorting.Sorted Sorting.Permutation.
From Stdlib Require Export Strings.Byte.
From stdpp Require Export base list numbers gmap strings.


Open Scope Z_scope.

(** ** Fallible code: Rust's [Result] *)

Inductive result (E A : Type) : Type :=
| Ok (a : A)
| Err (e : E).
Arguments Ok {E A} a.
Arguments Err {E A} e.

#[global] Instance result_ret (E : Type) : MRet (result E) := λ A a, Ok a.
#[global] Instance result_bind (E : Type) : MBind (result E) :=
  λ A B f m, match m with Ok a => f a | Err e => Err e end.
#[global] Instance result_fmap (E : Type) : FMap (result E) :=
  λ A B f m, match m with Ok a => Ok (f a) | Err e => Err e end.

(** [opt.ok_or(e)?] *)
Definition ok_or {E A : Type} (o : option A) (e : E) : result E A :=
  match o with Some a => Ok a | None => Err e end.

(** [if !cond { return Err(e) }] *)
Definition ensure {E : Type} (b : bool) (e : E) : result E unit :=
  if b then Ok tt else Err e.

Definition is_ok {E A : Type} (r : result E A) : bool :=
  match r with Ok _ => true | Err _ => false end.

(** [for x in l { f(x)?; }] *)
Fixpoint for_each {E A : Type} (f : A → result E unit) (l : list A) : result E unit :=
  match l with
  | [] => Ok tt
  | x :: l => _ ← f x; for_each f l
  end.

(** [for x in l { s = f(s, x)?; }] *)
Fixpoint fold_r {E A S : Type} (f : S → A → result E S) (s : S) (l : list A) : result E S :=
  match l with
  | [] => Ok s
  | x :: l => s' ← f s x; fold_r f s' l
  end.

(** ** Machine integers

    A [w]-bit integer is a [Z]; [as_uN]/[as_iN] are Rust's [as] casts. *)

Definition wrapU (w z : Z) : Z := z mod 2 ^ w.
Definition wrapS (w z : Z) : Z := (z + 2 ^ (w - 1)) mod 2 ^ w - 2 ^ (w - 1).

Definition as_u8 : Z → Z := wrapU 8.
Definition as_u16 : Z → Z := wrapU 16.
Definition as_u32 : Z → Z := wrapU 32.
Definition as_u64 : Z → Z := wrapU 64.
Definition as_usize : Z → Z := wrapU 64.
Definition as_i32 : Z → Z := wrapS 32.
Definition as_i64 : Z → Z := wrapS 64.

Definition inU (w z : Z) : Prop := 0 ≤ z < 2 ^ w.
Definition inS (w z : Z) : Prop := - 2 ^ (w - 1) ≤ z < 2 ^ (w - 1).
#[global] Instance inU_dec w z : Decision (inU w z).
Proof. unfold inU. apply _. Defined.
#[global] Instance inS_dec w z : Decision (inS w z).
Proof. unfold inS. apply _. Defined.

Definition i32_min : Z := - 2 ^ 31.
Definition i32_max : Z := 2 ^ 31 - 1.
Definition u32_max : Z := 2 ^ 32 - 1.

(** ** Bytes and little-endian integers *)

Abbreviation bytes := (list byte).

Definition byte_val (b : byte) : Z := Z.of_N (Byte.to_N b).
Definition byte_of (z : Z) : byte := default x00 (Byte.of_N (Z.to_N (z mod 256))).

(** [to_le_bytes] of an [n]-byte integer. *)
Fixpoint le_bytes (n : nat) (z : Z) : bytes :=
  match n with
  | O => []
  | S n => byte_of z :: le_bytes n (z / 256)
  end.

(** [uN::from_le_bytes]. *)
Fixpoint le_val (bs : bytes) : Z :=
  match bs with
  | [] => 0
  | b :: bs => byte_val b + 256 * le_val bs
  end.

(** ** Slices and indices *)

Definition zlen {A : Type} (l : list A) : Z := Z.of_nat (length l).

(** [b.get(off..off + len)]. *)
Definition slice {A : Type} (b : list A) (off len : Z) : option (list A) :=
  if (0 <=? off) && (0 <=? len) && (off + len <=? zlen b)
  then Some (take (Z.to_nat len) (drop (Z.to_nat off) b))
  else None.

(** [l.get(i)] for an integer index. *)
Definition zget {A : Type} (l : list A) (i : Z) : option A :=
  if 0 <=? i then l !! Z.to_nat i else None.

(** [l[i] = x], or [None] where Rust panics. *)
Definition zset {A : Type} (l : list A) (i : Z) (x : A) : option (list A) :=
  if (0 <=? i) && (i <? zlen l) then Some (<[Z.to_nat i := x]> l) else None.

(** [l.chunks(n)] for [n > 0]; the fuel is the length of [l]. *)
Fixpoint chunks_aux {A : Type} (fuel n : nat) (l : list A) : list (list A) :=
  match fuel, l with
  | O, _ | _, [] => []
  | S fuel, _ => take n l :: chunks_aux fuel n (drop n l)
  end.
Definition chunks {A : Type} (n : nat) (l : list A) : list (list A) :=
  chunks_aux (length l) n l.

(** [x.div_ceil(y)] *)
Definition div_ceil (x y : Z) : Z := (x + y - 1) / y.

(** ** Orders

    [Ord::cmp] on slices is lexicographic. *)

Fixpoint lex_cmp (a b : list Z) : comparison :=
  match a, b with
  | [], [] => Eq
  | [], _ :: _ => Lt
  | _ :: _, [] => Gt
  | x :: a, y :: b => match x ?= y with Eq => lex_cmp a b | c => c end
  end.
Definition lex_leb (a b : list Z) : bool :=
  match lex_cmp a b with Gt => false | _ => true end.
Definition lex_ltb (a b : list Z) : bool :=
  match lex_cmp a b with Lt => true | _ => false end.

Definition bytes_cmp (a b : bytes) : comparison := lex_cmp (byte_val <$> a) (byte_val <$> b).

(** [slice::sort_by]: a stable sort. [leb x y] says [cmp(x, y) != Greater]. The
    result of a stable sort is unique, so insertion sort is its model. *)
Fixpoint insert_by {A : Type} (leb : A → A → bool) (x : A) (l : list A) : list A :=
  match l with
  | [] => [x]
  | y :: l' => if leb x y then x :: l else y :: insert_by leb x l'
  end.
Fixpoint sort_by {A : Type} (leb : A → A → bool) (l : list A) : list A :=
  match l with
  | [] => []
  | x :: l => insert_by leb x (sort_by leb l)
  end.

(** [l.iter().any(f)] and [l.iter().all(f)] are [existsb] and [forallb]. *)

(** ** Tactics *)

(** Splits every [&&] of a true hypothesis and reflects integer comparisons. *)
Ltac zify_bools :=
  repeat match goal with
  | H : (_ && _)%bool = true |- _ => apply andb_true_iff in H; destruct H
  | H : (_ || _)%bool = false |- _ => apply orb_false_iff in H; destruct H
  | H : negb _ = true |- _ => apply negb_true_iff in H
  | H : negb _ = false |- _ => apply negb_false_iff in H
  | H : (_ <=? _) = true |- _ => apply Z.leb_le in H
  | H : (_ <=? _) = false |- _ => apply Z.leb_gt in H
  | H : (_ <? _) = true |- _ => apply Z.ltb_lt in H
  | H : (_ <? _) = false |- _ => apply Z.ltb_ge in H
  | H : (_ =? _) = true |- _ => apply Z.eqb_eq in H
  | H : (_ =? _) = false |- _ => apply Z.eqb_neq in H
  end.

(** Case analysis on the boolean comparison of integers in the goal. *)
Ltac zcase :=
  match goal with
  | |- context [?a <=? ?b] => destruct (Z.leb_spec a b)
  | |- context [?a <? ?b] => destruct (Z.ltb_spec a b)
  | |- context [?a =? ?b] => destruct (Z.eqb_spec a b)
  end.

(** Inverts a monadic computation that returned. *)
Ltac inv_bind_step :=
  match goal with
  | H : (match ?m with Ok _ => _ | Err _ => _ end) = Ok _ |- _ =>
      let E := fresh "E" in destruct m eqn:E; [|discriminate H]
  | H : (?m ≫= _) = Ok _ |- _ =>
      let E := fresh "E" in
      destruct m eqn:E; cbn [mbind result_bind] in H; [|discriminate H]
  | H : (?f <$> ?m) = Ok _ |- _ =>
      let E := fresh "E" in
      destruct m eqn:E; cbn [fmap result_fmap] in H; [|discriminate H]
  | H : Ok _ = Ok _ |- _ => injection H; clear H; intros; subst
  | H : Err _ = Ok _ |- _ => discriminate H
  | H : Some _ = Some _ |- _ => injection H; clear H; intros; subst
  | H : ensure ?b _ = Ok _ |- _ =>
      let E := fresh "E" in
      unfold ensure in H; destruct b eqn:E; [clear H|discriminate H]
  | H : ok_or ?o _ = Ok _ |- _ =>
      let E := fresh "E" in
      unfold ok_or in H; destruct o eqn:E; [|discriminate H]
  | u : unit |- _ => destruct u
  end.
Ltac inv_bind := repeat inv_bind_step.

Create HintDb rust.

(** ** Lemmas: results and loops *)

Lemma bind_Ok {E A B : Type} (m : result E A) (f : A → result E B) (b : B) :
  (m ≫= f) = Ok b ↔ ∃ a, m = Ok a ∧ f a = Ok b.
Proof. destruct m; cbn; split; [eauto|by intros (?&[=->]&?)|done|by intros (?&?&?)]. Qed.

Lemma ensure_Ok {E : Type} (b : bool) (e : E) (u : unit) : ensure b e = Ok u ↔ b = true.
Proof. destruct u, b; cbn; naive_solver. Qed.

Lemma for_each_Ok {E A : Type} (f : A → result E unit) (l : list A) (u : unit) :
  for_each f l = Ok u ↔ Forall (λ x, f x = Ok tt) l.
Proof.
  destruct u. induction l as [|x l IH]; cbn; [by split|].
  rewrite Forall_cons, <- IH. destruct (f x) as [[]|e]; cbn; [by split; [|intros [_ ?]]|].
  by split; [|intros [? _]].
Qed.

Lemma for_each_total {E A : Type} (f : A → result E unit) (l : list A) :
  (∀ x, x ∈ l → f x = Ok tt) → for_each f l = Ok tt.
Proof. intros H. apply for_each_Ok. by apply Forall_forall. Qed.

Lemma fold_r_app {E A S : Type} (f : S → A → result E S) (s : S) (l k : list A) :
  fold_r f s (l ++ k) = s' ← fold_r f s l; fold_r f s' k.
Proof.
  revert s. induction l as [|x l IH]; intros s; cbn; [done|].
  destruct (f s x); cbn; [apply IH|done].
Qed.

(** An invariant of a fallible fold. *)
Lemma fold_r_invariant {E A S : Type} (P : list A → S → Prop) (f : S → A → result E S) s l s' :
  P [] s →
  (∀ done x t t', P done t → f t x = Ok t' → P (done ++ [x]) t') →
  fold_r f s l = Ok s' → P l s'.
Proof.
  intros H0 Hstep. cut (∀ done s, P done s → fold_r f s l = Ok s' → P (done ++ l) s').
  { intros H. by apply (H [] s). }
  clear H0 s. induction l as [|x l IH]; intros done s Hs; cbn; intros Hf.
  - inv_bind. by rewrite app_nil_r.
  - inv_bind. rewrite cons_middle, app_assoc. eapply IH; [|done]. by eapply Hstep.
Qed.

(** ** Lemmas: machine integers *)

Lemma wrapU_range w z : 0 ≤ w → inU w (wrapU w z).
Proof. intros Hw. unfold inU, wrapU. apply Z.mod_pos_bound. by apply Z.pow_pos_nonneg. Qed.

Lemma wrapU_id w z : inU w z → wrapU w z = z.
Proof. intros H. by apply Z.mod_small. Qed.

Lemma wrapS_range w z : 0 < w → inS w (wrapS w z).
Proof.
  intros Hw. unfold inS, wrapS.
  replace (2 ^ w) with (2 * 2 ^ (w - 1)) by (rewrite <- Z.pow_succ_r by lia; f_equal; lia).
  assert (0 < 2 ^ (w - 1)) by (apply Z.pow_pos_nonneg; lia).
  pose proof (Z.mod_pos_bound (z + 2 ^ (w - 1)) (2 * 2 ^ (w - 1))). lia.
Qed.

Lemma wrapS_id w z : 0 < w → inS w z → wrapS w z = z.
Proof.
  intros Hw H. unfold inS, wrapS in *.
  replace (2 ^ w) with (2 * 2 ^ (w - 1)) by (rewrite <- Z.pow_succ_r by lia; f_equal; lia).
  rewrite Z.mod_small; lia.
Qed.

(** A cast to unsigned and back to signed loses nothing. *)
Lemma wrapS_wrapU w z : 0 < w → wrapS w (wrapU w z) = wrapS w z.
Proof.
  intros Hw. unfold wrapS, wrapU. by rewrite Z.add_mod_idemp_l by (apply Z.pow_nonzero; lia).
Qed.

Lemma wrapU_wrapS w z : 0 < w → wrapU w (wrapS w z) = wrapU w z.
Proof.
  intros Hw. unfold wrapS, wrapU.
  rewrite Zminus_mod_idemp_l. f_equal. lia.
Qed.

#[export] Hint Resolve wrapU_range wrapS_range : rust.

(** ** Lemmas: bytes and little-endian integers *)

Lemma byte_val_range b : 0 ≤ byte_val b < 256.
Proof. unfold byte_val. pose proof (Byte.to_N_bounded b). lia. Qed.

Lemma byte_val_of z : byte_val (byte_of z) = z mod 256.
Proof.
  unfold byte_val, byte_of.
  pose proof (Z.mod_pos_bound z 256).
  destruct (Byte.of_N (Z.to_N (z mod 256))) as [b|] eqn:E; cbn.
  - apply Byte.to_of_N in E. rewrite E. rewrite Z2N.id; lia.
  - apply Byte.of_N_None_iff in E. lia.
Qed.

Lemma byte_of_val b : byte_of (byte_val b) = b.
Proof.
  unfold byte_of, byte_val.
  rewrite Z.mod_small by (pose proof (Byte.to_N_bounded b); lia).
  by rewrite N2Z.id, Byte.of_to_N.
Qed.

Lemma byte_val_inj b1 b2 : byte_val b1 = byte_val b2 → b1 = b2.
Proof. intros H. by rewrite <- (byte_of_val b1), H, byte_of_val. Qed.

#[global] Instance byte_eq_dec : EqDecision byte.
Proof. intros a b. destruct (Byte.byte_eq_dec a b); [by left|by right]. Defined.
#[global] Program Instance byte_countable : Countable byte :=
  inj_countable Byte.to_N Byte.of_N _.
Next Obligation. intros b. apply Byte.of_to_N. Qed.

Lemma length_le_bytes n z : length (le_bytes n z) = n.
Proof. revert z. induction n; intros z; cbn; auto. Qed.

Lemma le_val_range bs : 0 ≤ le_val bs < 256 ^ zlen bs.
Proof.
  unfold zlen. induction bs as [|b bs IH]; cbn [le_val length]; [cbn; lia|].
  rewrite Nat2Z.inj_succ, Z.pow_succ_r by lia.
  pose proof (byte_val_range b). lia.
Qed.

Lemma le_val_le_bytes n z : le_val (le_bytes n z) = z mod 256 ^ Z.of_nat n.
Proof.
  revert z. induction n as [|n IH]; intros z; cbn [le_bytes le_val].
  - by rewrite Z.mod_1_r.
  - rewrite IH, byte_val_of, Nat2Z.inj_succ, Z.pow_succ_r by lia.
    rewrite Z.rem_mul_r by lia. lia.
Qed.

Lemma le_bytes_le_val bs : le_bytes (length bs) (le_val bs) = bs.
Proof.
  induction bs as [|b bs IH]; cbn [le_bytes le_val length]; [done|].
  pose proof (byte_val_range b) as Hb.
  f_equal.
  - apply byte_val_inj. rewrite byte_val_of.
    rewrite Z.mul_comm, Z_mod_plus_full. apply Z.mod_small. lia.
  - rewrite Z.mul_comm, Z_div_plus_full by lia.
    rewrite (Z.div_small (byte_val b)) by lia. by rewrite Z.add_0_l.
Qed.

(** ** Lemmas: slices *)

Lemma zlen_nil {A : Type} : zlen (@nil A) = 0.
Proof. done. Qed.
Lemma zlen_cons {A : Type} (x : A) l : zlen (x :: l) = 1 + zlen l.
Proof. unfold zlen. cbn [length]. lia. Qed.
Lemma zlen_app {A : Type} (l k : list A) : zlen (l ++ k) = zlen l + zlen k.
Proof. unfold zlen. rewrite length_app. lia. Qed.
Lemma zlen_nonneg {A : Type} (l : list A) : 0 ≤ zlen l.
Proof. unfold zlen. lia. Qed.
Lemma zlen_le_bytes n z : zlen (le_bytes n z) = Z.of_nat n.
Proof. unfold zlen. by rewrite length_le_bytes. Qed.
Lemma zlen_fmap {A B : Type} (f : A → B) l : zlen (f <$> l) = zlen l.
Proof. unfold zlen. by rewrite length_fmap. Qed.

Create Rewrite HintDb zlen.
#[export] Hint Rewrite @zlen_nil @zlen_cons @zlen_app zlen_le_bytes @zlen_fmap : zlen.

Lemma slice_Some {A : Type} (b s : list A) off len :
  slice b off len = Some s ↔
  ∃ pre post, b = pre ++ s ++ post ∧ zlen pre = off ∧ zlen s = len.
Proof.
  unfold slice, zlen. split.
  - intros H. destruct (_ && _) eqn:E; [|done]. zify_bools. injection H as <-.
    exists (take (Z.to_nat off) b), (drop (Z.to_nat len) (drop (Z.to_nat off) b)).
    rewrite !take_drop, !length_take, !length_drop. split; [done|]. lia.
  - intros (pre & post & -> & <- & <-). rewrite !length_app.
    destruct (_ && _) eqn:E.
    + rewrite !Nat2Z.id, drop_app_length, take_app_length. done.
    + exfalso. apply andb_false_iff in E as [E|E]; [apply andb_false_iff in E as [E|E]|];
        zify_bools; lia.
Qed.

Lemma slice_is_Some {A : Type} (b : list A) off len :
  is_Some (slice b off len) ↔ 0 ≤ off ∧ 0 ≤ len ∧ off + len ≤ zlen b.
Proof.
  unfold slice. destruct (_ && _) eqn:E.
  - zify_bools. split; [lia|]. intros _. by eexists.
  - split; [intros [? ?]; done|]. intros H. exfalso.
    apply andb_false_iff in E as [E|E]; [apply andb_false_iff in E as [E|E]|]; zify_bools; lia.
Qed.

Lemma slice_app_l {A : Type} (pre s post : list A) off len :
  zlen pre = off → zlen s = len → slice (pre ++ s ++ post) off len = Some s.
Proof. intros H1 H2. apply slice_Some. eauto. Qed.

(** Reading inside the middle of a concatenation. *)
Lemma slice_shift {A : Type} (pre b post : list A) off len :
  0 ≤ off → 0 ≤ len → off + len ≤ zlen b →
  slice (pre ++ b ++ post) (zlen pre + off) len = slice b off len.
Proof.
  intros H1 H2 H3.
  destruct (slice b off len) as [s|] eqn:E.
  - apply slice_Some in E as (p & q & -> & <- & <-).
    apply slice_Some. exists (pre ++ p), (q ++ post).
    rewrite zlen_app, <- !app_assoc. done.
  - assert (is_Some (slice b off len)) as [? ?] by (by apply slice_is_Some). congruence.
Qed.

Lemma slice_length {A : Type} (b s : list A) off len :
  slice b off len = Some s → zlen s = len.
Proof. intros (?&?&_&_&?)%slice_Some. done. Qed.

Lemma zget_Some_lt {A : Type} (l : list A) i x : zget l i = Some x → 0 ≤ i < zlen l.
Proof.
  unfold zget, zlen. intros H. destruct (0 <=? i) eqn:E; [|done]. zify_bools.
  apply lookup_lt_Some in H. lia.
Qed.

Lemma zget_is_Some {A : Type} (l : list A) i : 0 ≤ i < zlen l → is_Some (zget l i).
Proof.
  unfold zget, zlen. intros H. destruct (0 <=? i) eqn:E; zify_bools; [|lia].
  apply lookup_lt_is_Some. lia.
Qed.

Lemma zget_elem_of {A : Type} (l : list A) i x : zget l i = Some x → x ∈ l.
Proof.
  unfold zget. intros H. destruct (0 <=? i); [|done]. by eapply list_elem_of_lookup_2.
Qed.

Lemma elem_of_zget {A : Type} (l : list A) x : x ∈ l → ∃ i, zget l i = Some x.
Proof.
  intros [i Hi]%list_elem_of_lookup. exists (Z.of_nat i). unfold zget.
  rewrite Nat2Z.id. destruct (0 <=? Z.of_nat i) eqn:E; zify_bools; [done|lia].
Qed.

Lemma zget_of_nat {A : Type} (l : list A) (i : nat) : zget l (Z.of_nat i) = l !! i.
Proof.
  unfold zget. rewrite Nat2Z.id. destruct (0 <=? Z.of_nat i) eqn:E; zify_bools; [done|lia].
Qed.

Lemma zget_app_l {A : Type} (l k : list A) i : i < zlen l → zget (l ++ k) i = zget l i.
Proof.
  unfold zget, zlen. intros H. destruct (0 <=? i) eqn:E; [|done]. zify_bools.
  apply lookup_app_l. lia.
Qed.

Lemma zget_app_r {A : Type} (l k : list A) i :
  zlen l ≤ i → zget (l ++ k) i = zget k (i - zlen l).
Proof.
  unfold zget, zlen. intros H.
  destruct (0 <=? i) eqn:E; zify_bools; [|lia].
  destruct (0 <=? i - _) eqn:E'; zify_bools; [|lia].
  rewrite lookup_app_r by lia. f_equal. lia.
Qed.

Lemma zset_zget {A : Type} (l l' : list A) i j x :
  zset l i x = Some l' → zget l' j = if decide (i = j) then Some x else zget l j.
Proof.
  unfold zset, zget, zlen. intros H. destruct (_ && _) eqn:E; [|done]. zify_bools.
  injection H as <-. destruct (0 <=? j) eqn:E'; zify_bools.
  - case_decide as Hd; subst.
    + apply list_lookup_insert_eq. lia.
    + apply list_lookup_insert_ne. lia.
  - case_decide; [lia|done].
Qed.

Lemma zset_is_Some {A : Type} (l : list A) i x : 0 ≤ i < zlen l → is_Some (zset l i x).
Proof.
  intros H. unfold zset. destruct (_ && _) eqn:E; [by eexists|].
  apply andb_false_iff in E as [E|E]; zify_bools; lia.
Qed.

Lemma zset_zlen {A : Type} (l l' : list A) i x : zset l i x = Some l' → zlen l' = zlen l.
Proof.
  unfold zset, zlen. destruct (_ && _); [|done]. intros [= <-]. by rewrite length_insert.
Qed.

(** ** Lemmas: chunks *)

Lemma concat_chunks_aux {A : Type} fuel n (l : list A) :
  (0 < n)%nat → (length l ≤ fuel)%nat → concat (chunks_aux fuel n l) = l.
Proof.
  intros Hn. revert l. induction fuel as [|fuel IH]; intros l Hl; cbn.
  - destruct l; [done|cbn in Hl; lia].
  - destruct l as [|x l]; [done|].
    cbn [concat]. rewrite IH, take_drop; [done|].
    rewrite length_drop. cbn [length] in *. lia.
Qed.

Lemma concat_chunks {A : Type} n (l : list A) : (0 < n)%nat → concat (chunks n l) = l.
Proof. intros Hn. by apply concat_chunks_aux. Qed.

Lemma chunks_aux_bound {A : Type} fuel n (l c : list A) :
  (0 < n)%nat → c ∈ chunks_aux fuel n l → (0 < length c ≤ n)%nat.
Proof.
  intros Hn. revert l. induction fuel as [|fuel IH]; intros l; cbn; [by intros ?%elem_of_nil|].
  destruct l as [|x l]; [by intros ?%elem_of_nil|].
  intros [->|H]%elem_of_cons; [|by eapply IH].
  rewrite length_take. cbn [length]. lia.
Qed.

Lemma chunks_bound {A : Type} n (l c : list A) :
  (0 < n)%nat → c ∈ chunks n l → (0 < length c ≤ n)%nat.
Proof. apply chunks_aux_bound. Qed.

(** ** Lemmas: orders *)

Lemma lex_cmp_refl a : lex_cmp a a = Eq.
Proof. induction a as [|x a IH]; cbn; [done|]. by rewrite Z.compare_refl. Qed.

Lemma lex_cmp_eq a b : lex_cmp a b = Eq ↔ a = b.
Proof.
  split; [|intros ->; apply lex_cmp_refl].
  revert b. induction a as [|x a IH]; intros [|y b]; cbn; try done.
  destruct (Z.compare_spec x y) as [->| |]; try done. intros H. f_equal. by apply IH.
Qed.

Lemma lex_cmp_antisym a b : lex_cmp b a = CompOpp (lex_cmp a b).
Proof.
  revert b. induction a as [|x a IH]; intros [|y b]; cbn; try done.
  rewrite (Z.compare_antisym x y). destruct (x ?= y); cbn; auto.
Qed.

Lemma lex_cmp_lt_trans a b c : lex_cmp a b = Lt → lex_cmp b c = Lt → lex_cmp a c = Lt.
Proof.
  revert b c. induction a as [|x a IH]; intros [|y b] [|z c]; cbn; try done.
  destruct (Z.compare_spec x y), (Z.compare_spec y z), (Z.compare_spec x z);
    subst; try done; try lia. apply IH.
Qed.

Lemma lex_leb_refl a : lex_leb a a = true.
Proof. unfold lex_leb. by rewrite lex_cmp_refl. Qed.

Lemma lex_leb_total a b : lex_leb a b = true ∨ lex_leb b a = true.
Proof.
  unfold lex_leb. rewrite (lex_cmp_antisym a b). destruct (lex_cmp a b); cbn; auto.
Qed.

Lemma lex_leb_trans a b c : lex_leb a b = true → lex_leb b c = true → lex_leb a c = true.
Proof.
  unfold lex_leb. intros H1 H2.
  destruct (lex_cmp a b) eqn:E1; [apply lex_cmp_eq in E1 as ->; done| |done].
  destruct (lex_cmp b c) eqn:E2; [apply lex_cmp_eq in E2 as ->; by rewrite E1| |done].
  by rewrite (lex_cmp_lt_trans a b c).
Qed.

Lemma lex_leb_antisym a b : lex_leb a b = true → lex_leb b a = true → a = b.
Proof.
  unfold lex_leb. rewrite (lex_cmp_antisym a b). intros H1 H2. apply lex_cmp_eq.
  by destruct (lex_cmp a b).
Qed.

Lemma lex_ltb_leb a b : lex_ltb a b = negb (lex_leb b a).
Proof.
  unfold lex_ltb, lex_leb. rewrite (lex_cmp_antisym a b). by destruct (lex_cmp a b).
Qed.

Lemma fmap_byte_val_inj (a b : bytes) : byte_val <$> a = byte_val <$> b → a = b.
Proof. apply list_fmap_eq_inj. intros x y. apply byte_val_inj. Qed.

Lemma bytes_cmp_eq a b : bytes_cmp a b = Eq ↔ a = b.
Proof.
  unfold bytes_cmp. rewrite lex_cmp_eq. split; [apply fmap_byte_val_inj|by intros ->].
Qed.

(** ** Lemmas: the stable sort *)

Section sort_by.
Context {A : Type} (leb : A → A → bool).

Lemma insert_by_perm x l : insert_by leb x l ≡ₚ x :: l.
Proof.
  induction l as [|y l IH]; cbn; [done|]. destruct (leb x y); [done|].
  rewrite IH. by constructor.
Qed.

Lemma sort_by_perm l : sort_by leb l ≡ₚ l.
Proof. induction l as [|x l IH]; cbn; [done|]. by rewrite insert_by_perm, IH. Qed.

Lemma elem_of_sort_by x l : x ∈ sort_by leb l ↔ x ∈ l.
Proof. by rewrite sort_by_perm. Qed.

Lemma length_sort_by l : length (sort_by leb l) = length l.
Proof. apply Permutation_length, sort_by_perm. Qed.

Lemma zlen_sort_by l : zlen (sort_by leb l) = zlen l.
Proof. unfold zlen. by rewrite length_sort_by. Qed.

Context (leb_total : ∀ x y, leb x y = true ∨ leb y x = true).
Context (leb_trans : ∀ x y z, leb x y = true → leb y z = true → leb x z = true).

Lemma insert_by_sorted x l :
  StronglySorted (λ a b, leb a b = true) l →
  StronglySorted (λ a b, leb a b = true) (insert_by leb x l).
Proof.
  induction 1 as [|y l Hs IH Hy]; cbn; [by repeat constructor|].
  destruct (leb x y) eqn:E.
  - constructor; [by constructor|]. constructor; [done|].
    eapply Forall_impl; [exact Hy|]. cbn. eauto.
  - constructor; [done|]. rewrite insert_by_perm. constructor; [|done].
    destruct (leb_total x y); congruence.
Qed.

(** The output is sorted. *)
Lemma sort_by_sorted l : StronglySorted (λ a b, leb a b = true) (sort_by leb l).
Proof. induction l; cbn; [constructor|]. by apply insert_by_sorted. Qed.

(** A sorted list is its own sort. *)
Lemma sort_by_id l : StronglySorted (λ a b, leb a b = true) l → sort_by leb l = l.
Proof.
  induction 1 as [|y l Hs IH Hy]; cbn; [done|]. rewrite IH.
  destruct l as [|z l]; cbn; [done|]. apply Forall_cons in Hy as [-> _]. done.
Qed.

(** Stability: the elements that compare equal keep their order. *)
Lemma insert_by_filter x l (P : A → bool) :
  (∀ a b, P a = true → P b = true → leb a b = true) →
  List.filter P (insert_by leb x l) = List.filter P (x :: l).
Proof.
  intros HP. induction l as [|y l IH]; cbn; [done|].
  destruct (leb x y) eqn:E; cbn; [done|]. rewrite IH. cbn.
  destruct (P x) eqn:Ex, (P y) eqn:Ey; try done.
  rewrite (HP x y) in E; done.
Qed.

Lemma sort_by_stable l (P : A → bool) :
  (∀ a b, P a = true → P b = true → leb a b = true) →
  List.filter P (sort_by leb l) = List.filter P l.
Proof.
  intros HP. induction l as [|x l IH]; cbn [sort_by]; [done|].
  rewrite insert_by_filter by done. cbn. by rewrite IH.
Qed.
End sort_by.

(** Two neighbours of a sorted list are in order. *)
Lemma StronglySorted_lookup {A : Type} (R : A → A → Prop) (l : list A) i j x y :
  StronglySorted R l → (i < j)%nat → l !! i = Some x → l !! j = Some y → R x y.
Proof.
  intros Hs. revert i j. induction Hs as [|z l Hs IH Hz]; intros i j Hij Hi Hj; [done|].
  destruct j as [|j]; [lia|]. destruct i as [|i]; cbn in *.
  - injection Hi as ->. rewrite Forall_forall in Hz. apply Hz.
    by eapply list_elem_of_lookup_2.
  - eapply IH; [|done..]. lia.
Qed.

(** ** Lemmas: integer ranges *)

Lemma elem_of_seqZ_0 n x : x ∈ seqZ 0 n ↔ 0 ≤ x < n.
Proof. rewrite elem_of_seqZ. lia. Qed.

Lemma zlen_seqZ m n : 0 ≤ n → zlen (seqZ m n) = n.
Proof. intros H. unfold zlen. rewrite length_seqZ. lia. Qed.

Lemma zget_seqZ n i : 0 ≤ i < n → zget (seqZ 0 n) i = Some i.
Proof.
  intros H. unfold zget. destruct (0 <=? i) eqn:E; zify_bools; [|lia].
  apply lookup_seqZ. lia.
Qed.

Lemma seqZ_snoc n : 0 ≤ n → seqZ 0 (n + 1) = seqZ 0 n ++ [n].
Proof.
  intros H. rewrite seqZ_app by lia. f_equal.
Qed.

(** Testing a bit after masking with one bit. *)
Lemma land_pow2_testbit x n : 0 ≤ n → (Z.land x (2 ^ n) =? 0) = negb (Z.testbit x n).
Proof.
  intros Hn. destruct (Z.testbit x n) eqn:E; cbn.
  - apply Z.eqb_neq. intros H. assert (Z.testbit (Z.land x (2 ^ n)) n = false).
    { rewrite H. apply Z.bits_0. }
    rewrite Z.land_spec, Z.pow2_bits_true, E in H0 by done. done.
  - apply Z.eqb_eq. apply Z.bits_inj'. intros m Hm.
    rewrite Z.land_spec, Z.bits_0, Z.pow2_bits_eqb by done.
    destruct (Z.eqb_spec n m) as [->|]; [by rewrite E|]. apply andb_false_r.
Qed.

(** An integer with no bit at or above [w] is a [w]-bit integer. *)
Lemma inU_of_bits w z : 0 ≤ w → (∀ i, w ≤ i → Z.testbit z i = false) → inU w z.
Proof.
  intros Hw Hz. unfold inU.
  assert (z = z mod 2 ^ w) as ->.
  { apply Z.bits_inj'. intros i Hi. destruct (Z.lt_ge_cases i w).
    - by rewrite Z.mod_pow2_bits_low.
    - by rewrite Hz, Z.mod_pow2_bits_high by lia. }
  apply Z.mod_pos_bound. by apply Z.pow_pos_nonneg.
Qed.

Lemma testbit_inU w z i : inU w z → w ≤ i → 0 ≤ w → Z.testbit z i = false.
Proof.
  intros Hz Hi Hw. rewrite <- (Z.mod_small z (2 ^ w)) by done. by apply Z.mod_pow2_bits_high.
Qed.

Lemma inU_land_l w a b : 0 ≤ w → inU w a → inU w (Z.land a b).
Proof.
  intros Hw Ha. apply inU_of_bits; [done|]. intros i Hi.
  by rewrite Z.land_spec, (testbit_inU w a).
Qed.

Lemma inU_lor w a b : 0 ≤ w → inU w a → inU w b → inU w (Z.lor a b).
Proof.
  intros Hw Ha Hb. apply inU_of_bits; [done|]. intros i Hi.
  by rewrite Z.lor_spec, (testbit_inU w a), (testbit_inU w b).
Qed.

Lemma inU_shiftl1 w n : 0 ≤ n < w → inU w (Z.shiftl 1 n).
Proof.
  intros Hn. rewrite Z.shiftl_1_l. split; [by apply Z.pow_nonneg|].
  apply Z.pow_lt_mono_r; lia.
Qed.

(** Two fields that do not overlap: [or] is addition. *)
Lemma lor_shiftl_add a b n : 0 ≤ n → 0 ≤ b < 2 ^ n → Z.lor (Z.shiftl a n) b = a * 2 ^ n + b.
Proof.
  intros Hn Hb. rewrite <- Z.shiftl_mul_pow2, <- Z.add_lor_land by done.
  cut (Z.land (Z.shiftl a n) b = 0); [lia|].
  apply Z.bits_inj'. intros m Hm. rewrite Z.land_spec, Z.bits_0, Z.shiftl_spec by done.
  destruct (Z.ltb_spec m n).
  - by rewrite Z.testbit_neg_r by lia.
  - rewrite <- (Z.mod_small b (2 ^ n)), Z.mod_pow2_bits_high by lia. apply andb_false_r.
Qed.

(** ** Elements of related lists *)

Lemma Forall2_elem_of_l {A B : Type} (R : A → B → Prop) l k x : Forall2 R l k → x ∈ l → ∃ y, y ∈ k ∧ R x y.
Proof.
  intros H [i Hi]%list_elem_of_lookup. destruct (Forall2_lookup_l _ _ _ _ _ H Hi) as (y & Hy & Hr).
  exists y. split; [by eapply list_elem_of_lookup_2|done].
Qed.
Lemma Forall2_elem_of_r {A B : Type} (R : A → B → Prop) l k y : Forall2 R l k → y ∈ k → ∃ x, x ∈ l ∧ R x y.
Proof.
  intros H [i Hi]%list_elem_of_lookup. destruct (Forall2_lookup_r _ _ _ _ _ H Hi) as (x & Hx & Hr).
  exists x. split; [by eapply list_elem_of_lookup_2|done].
Qed.

Lemma sorted_fmap {A B : Type} (f : A → B) (R : A → A → Prop) (R' : B → B → Prop) l :
  (∀ x y, R x y → R' (f x) (f y)) → StronglySorted R l → StronglySorted R' (f <$> l).
Proof.
  intros Hf Hs. induction Hs as [|x l Hs IH Hx]; cbn [fmap list_fmap]; constructor; [done|].
  apply Forall_fmap. eapply Forall_impl; [exact Hx|]. intros y. apply Hf.
Qed.

(** ** The last element *)

Lemma zget_snoc {A : Type} (l : list A) x i y :
  zget (l ++ [x]) i = Some y ↔ zget l i = Some y ∨ (i = zlen l ∧ y = x).
Proof.
  destruct (decide (i < zlen l)) as [Hlt|Hge].
  - rewrite zget_app_l by done. split; [by left|]. intros [?|[-> _]]; [done|lia].
  - rewrite zget_app_r by lia. split.
    + intros H. right. pose proof (zget_Some_lt _ _ _ H) as Hi. change (zlen [x]) with 1 in Hi.
      assert (i = zlen l) as -> by lia. rewrite Z.sub_diag in H. change (zget [x] 0) with (Some x) in H. by injection H.
    + intros [H|[-> ->]]; [apply zget_Some_lt in H; lia|]. by rewrite Z.sub_diag.
Qed.

Lemma filter_snoc {A : Type} (P : A → bool) l x : List.filter P (l ++ [x]) = List.filter P l ++ (if P x then [x] else []).
Proof. rewrite List.filter_app. cbn. by destruct (P x). Qed.

(** ** Removing repetitions *)

(** [Vec::dedup_by]: an element like the last one kept is dropped. *)
Fixpoint dedup_after {A : Type} (same : A → A → bool) (kept : A) (l : list A) : list A :=
  match l with
  | [] => []
  | x :: l => if same x kept then dedup_after same kept l else x :: dedup_after same x l
  end.
Definition dedup_by {A : Type} (same : A → A → bool) (l : list A) : list A :=
  match l with [] => [] | x :: l => x :: dedup_after same x l end.

(** Of a sorted list, the removal of neighbours keeps each element once. *)
Section dedup.
Context {A : Type} (leb same : A → A → bool) (P : A → Prop).
Context (Hsame : ∀ x y, P x → P y → same x y = true ↔ x = y).
Context (Hanti : ∀ x y, P x → P y → leb x y = true → leb y x = true → x = y).

Lemma dedup_after_sorted kept l :
  Forall P (kept :: l) → StronglySorted (λ x y, leb x y = true) (kept :: l) →
  NoDup (kept :: dedup_after same kept l) ∧ StronglySorted (λ x y, leb x y = true) (kept :: dedup_after same kept l) ∧
  ∀ x, x ∈ kept :: dedup_after same kept l ↔ x ∈ kept :: l.
Proof.
  revert kept. induction l as [|y l IH]; intros kept HP Hs.
  { split_and!; [apply NoDup_singleton|done|done]. }
  apply Forall_cons in HP as [HPk HPl]. pose proof HPl as [HPy HPl']%Forall_cons. apply StronglySorted_inv in Hs as [Hs Hle].
  pose proof Hle as [Hky Hle']%Forall_cons. pose proof Hs as [Hs' Hyl]%StronglySorted_inv. cbn. destruct (same y kept) eqn:E.
  - apply Hsame in E as ->; [|done..]. destruct (IH kept) as (H1 & H2 & H3); [by constructor..|]. split_and!; [done..|].
    intros x. rewrite H3, !elem_of_cons. tauto.
  - assert (y ≠ kept) as Hne by (intros ->; rewrite (proj2 (Hsame kept kept HPk HPk)) in E; done).
    destruct (IH y HPl Hs) as (H1 & H2 & H3). split_and!.
    + constructor; [|done]. rewrite H3. intros [->|Hin]%elem_of_cons; [done|]. apply Hne.
      rewrite Forall_forall in Hle'. rewrite Forall_forall in Hyl. apply Hanti; [done|done|by apply Hyl|done].
    + constructor; [done|]. apply Forall_forall. intros x Hx%H3. rewrite Forall_forall in Hle. by apply Hle.
    + intros x. rewrite (elem_of_cons _ x kept), H3. by rewrite (elem_of_cons (y :: l) x kept).
Qed.

Lemma dedup_by_sorted l :
  Forall P l → StronglySorted (λ x y, leb x y = true) l →
  NoDup (dedup_by same l) ∧ StronglySorted (λ x y, leb x y = true) (dedup_by same l) ∧ ∀ x, x ∈ dedup_by same l ↔ x ∈ l.
Proof. destruct l as [|x l]; [intros; split_and!; [constructor|constructor|done]|apply dedup_after_sorted]. Qed.

Context (Htotal : ∀ x y, leb x y = true ∨ leb y x = true) (Htrans : ∀ x y z, leb x y = true → leb y z = true → leb x z = true).

Lemma dedup_sort l : Forall P l →
  NoDup (dedup_by same (sort_by leb l)) ∧ StronglySorted (λ x y, leb x y = true) (dedup_by same (sort_by leb l)) ∧
  ∀ x, x ∈ dedup_by same (sort_by leb l) ↔ x ∈ l.
Proof.
  intros HP. destruct (dedup_by_sorted (sort_by leb l)) as (H1 & H2 & H3).
  - apply Forall_forall. intros x Hx%elem_of_sort_by. rewrite Forall_forall in HP. by apply HP.
  - by apply sort_by_sorted.
  - split_and!; [done..|]. intros x. by rewrite H3, elem_of_sort_by.
Qed.
End dedup.
