(* ===== verification/RustStr.v ===== *)
(** * Rust strings

    A Rust [char] is a Unicode scalar value, here a [Z]; a [String]/[&str] is the
    list of its chars. Its bytes are its UTF-8 encoding ([as_bytes]); the strict and
    the lossy decoders of the standard library ([String::from_utf8],
    [String::from_utf8_lossy]) are [from_utf8] and [from_utf8_lossy]. The Unicode
    tables behind [char::is_alphabetic] and its relatives are the class [CharTables];
    what the code needs of them on ASCII is [CharTablesOk], and [ascii_tables] is an
    instance. *)

From S2P Require Import Prelude.
From Stdlib Require Ascii String.
Export (notations) Stdlib.Strings.Ascii.

Open Scope Z_scope.

Abbreviation char := Z (only parsing).
Abbreviation rstr := (list Z) (only parsing).

(** A string literal of the source. *)
Fixpoint lit (s : string) : list Z :=
  match s with
  | EmptyString => []
  | String c s => Z.of_N (Ascii.N_of_ascii c) :: lit s
  end.

(** The char literal of an ASCII character. *)
Definition ch (c : Ascii.ascii) : Z := Z.of_N (Ascii.N_of_ascii c).
Arguments ch c%_char.

Definition is_scalar (c : Z) : Prop := 0 ≤ c < 55296 ∨ 57344 ≤ c < 1114112.
#[global] Instance is_scalar_dec c : Decision (is_scalar c).
Proof. unfold is_scalar. apply _. Defined.
Definition wf_str (s : list Z) : Prop := Forall is_scalar s.
#[global] Instance wf_str_dec s : Decision (wf_str s).
Proof. unfold wf_str. apply _. Defined.

(** ** UTF-8 *)

(** The code units of one char. *)
Definition utf8_units (c : Z) : list Z :=
  if c <? 128 then [c]
  else if c <? 2048 then [192 + c / 64; 128 + c mod 64]
  else if c <? 65536 then [224 + c / 4096; 128 + c / 64 mod 64; 128 + c mod 64]
  else [240 + c / 262144; 128 + c / 4096 mod 64; 128 + c / 64 mod 64; 128 + c mod 64].

(** [str::as_bytes] *)
Definition str_units (s : list Z) : list Z := concat (utf8_units <$> s).
Definition as_bytes (s : list Z) : bytes := byte_of <$> str_units s.
(** [str::len] is the number of bytes. *)
Definition str_len (s : list Z) : Z := zlen (as_bytes s).

Definition is_cont (u : Z) : bool := (128 <=? u) && (u <=? 191).

(** One step of the standard library's decoder: the char decoded, or [None] for an
    invalid sequence, and how many units it spans. Past the end a unit reads as 0. *)
Definition utf8_step (b0 : Z) (rest : list Z) : option Z * nat :=
  let b1 := default 0 (rest !! 0%nat) in
  let b2 := default 0 (rest !! 1%nat) in
  let b3 := default 0 (rest !! 2%nat) in
  if b0 <? 128 then (Some b0, 1%nat)
  else if (194 <=? b0) && (b0 <=? 223) then
    if is_cont b1 then (Some ((b0 - 192) * 64 + (b1 - 128)), 2%nat) else (None, 1%nat)
  else if (224 <=? b0) && (b0 <=? 239) then
    if is_cont b1 && ((negb (b0 =? 224)) || (160 <=? b1)) && ((negb (b0 =? 237)) || (b1 <=? 159)) then
      if is_cont b2 then
        (Some ((b0 - 224) * 4096 + (b1 - 128) * 64 + (b2 - 128)), 3%nat)
      else (None, 2%nat)
    else (None, 1%nat)
  else if (240 <=? b0) && (b0 <=? 244) then
    if is_cont b1 && ((negb (b0 =? 240)) || (144 <=? b1)) && ((negb (b0 =? 244)) || (b1 <=? 143)) then
      if is_cont b2 then
        if is_cont b3 then
          (Some ((b0 - 240) * 262144 + (b1 - 128) * 4096 + (b2 - 128) * 64 + (b3 - 128)), 4%nat)
        else (None, 3%nat)
      else (None, 2%nat)
    else (None, 1%nat)
  else (None, 1%nat).

Fixpoint decode_strict (fuel : nat) (u : list Z) : option (list Z) :=
  match fuel, u with
  | _, [] => Some []
  | O, _ => None
  | S fuel, b0 :: rest =>
      match utf8_step b0 rest with
      | (Some c, n) => cons c <$> decode_strict fuel (drop n u)
      | (None, _) => None
      end
  end.

Fixpoint decode_lossy (fuel : nat) (u : list Z) : list Z :=
  match fuel, u with
  | _, [] => []
  | O, _ => []
  | S fuel, b0 :: rest =>
      match utf8_step b0 rest with
      | (Some c, n) => c :: decode_lossy fuel (drop n u)
      | (None, n) => 65533 :: decode_lossy fuel (drop n u)
      end
  end.

(** [String::from_utf8] / [std::str::from_utf8] *)
Definition from_utf8 (b : bytes) : option (list Z) :=
  decode_strict (length b) (byte_val <$> b).
(** [String::from_utf8_lossy] *)
Definition from_utf8_lossy (b : bytes) : list Z :=
  decode_lossy (length b) (byte_val <$> b).

(** [str::cmp] compares bytes. *)
Definition str_cmp (a b : list Z) : comparison := bytes_cmp (as_bytes a) (as_bytes b).
Definition str_leb (a b : list Z) : bool :=
  match str_cmp a b with Gt => false | _ => true end.

(** ** String operations *)

Definition str_eqb (a b : list Z) : bool := bool_decide (a = b).

Fixpoint strip_prefix (p s : list Z) : option (list Z) :=
  match p, s with
  | [], _ => Some s
  | x :: p, y :: s => if x =? y then strip_prefix p s else None
  | _ :: _, [] => None
  end.
Definition starts_with (p s : list Z) : bool :=
  match strip_prefix p s with Some _ => true | None => false end.
Definition strip_suffix (p s : list Z) : option (list Z) :=
  (λ r, rev r) <$> strip_prefix (rev p) (rev s).
Definition ends_with (p s : list Z) : bool :=
  match strip_suffix p s with Some _ => true | None => false end.

(** [s.split(c)] *)
Fixpoint split_on (c : Z) (s : list Z) : list (list Z) :=
  match s with
  | [] => [[]]
  | x :: s =>
      if x =? c then [] :: split_on c s
      else match split_on c s with
           | [] => [[x]]
           | y :: l => (x :: y) :: l
           end
  end.

(** [l.join(sep)] *)
Fixpoint join (sep : list Z) (l : list (list Z)) : list Z :=
  match l with
  | [] => []
  | [x] => x
  | x :: l => x ++ sep ++ join sep l
  end.

(** Decimal digits of a non-negative integer ([format!] of an unsigned). *)
Fixpoint digits_aux (fuel : nat) (n : Z) (acc : list Z) : list Z :=
  match fuel with
  | O => acc
  | S fuel =>
      let acc := (48 + n mod 10) :: acc in
      if n <? 10 then acc else digits_aux fuel (n / 10) acc
  end.
Definition show_u (n : Z) : list Z := digits_aux (S (Z.to_nat (Z.log2 n))) n [].
Definition show_i (n : Z) : list Z := if n <? 0 then ch "-" :: show_u (- n) else show_u n.

(** ** Character classes *)

Class CharTables := {
  is_alphabetic : Z → bool;
  is_numeric : Z → bool;
  is_uppercase : Z → bool;
  (** the first char of [c.to_lowercase()] *)
  to_lowercase1 : Z → Z;
}.

Definition is_alphanumeric `{CharTables} (c : Z) : bool := is_alphabetic c || is_numeric c.

Definition ascii_upper (c : Z) : bool := (65 <=? c) && (c <=? 90).
Definition ascii_lower (c : Z) : bool := (97 <=? c) && (c <=? 122).
Definition ascii_digit (c : Z) : bool := (48 <=? c) && (c <=? 57).
Definition ascii_alpha (c : Z) : bool := ascii_upper c || ascii_lower c.
Definition ascii_alphanumeric (c : Z) : bool := ascii_alpha c || ascii_digit c.
Definition ascii_to_lowercase (c : Z) : Z := if ascii_upper c then c + 32 else c.

(** Documented behaviour of the tables on ASCII. *)
Class CharTablesOk `{CharTables} : Prop := {
  is_alphabetic_ascii c : 0 ≤ c < 128 → is_alphabetic c = ascii_alpha c;
  is_numeric_ascii c : 0 ≤ c < 128 → is_numeric c = ascii_digit c;
  is_uppercase_ascii c : 0 ≤ c < 128 → is_uppercase c = ascii_upper c;
  to_lowercase1_ascii c : 0 ≤ c < 128 → to_lowercase1 c = ascii_to_lowercase c;
}.

Definition ascii_tables : CharTables := {|
  is_alphabetic := ascii_alpha;
  is_numeric := ascii_digit;
  is_uppercase := ascii_upper;
  to_lowercase1 := ascii_to_lowercase;
|}.

Lemma ascii_tables_ok : @CharTablesOk ascii_tables.
Proof. by split. Qed.

(** [str::parse::<u64>] and [parse::<usize>]: an optional [+], then digits, without overflow. *)
Fixpoint parse_digits (acc : Z) (s : list Z) : option Z :=
  match s with
  | [] => Some acc
  | c :: s =>
      if (48 <=? c) && (c <=? 57) then
        let acc := 10 * acc + (c - 48) in
        if acc <? 2 ^ 64 then parse_digits acc s else None
      else None
  end.
Definition parse_u64 (s : list Z) : option Z :=
  match s with
  | [] => None
  | c :: rest =>
      if c =? ch "+" then match rest with [] => None | _ => parse_digits 0 rest end
      else parse_digits 0 s
  end.

(** [char::is_whitespace]: the White_Space property. *)
Definition is_whitespace (c : Z) : bool :=
  ((9 <=? c) && (c <=? 13)) || (c =? 32) || (c =? 133) || (c =? 160) || (c =? 5760) || ((8192 <=? c) && (c <=? 8202)) ||
  (c =? 8232) || (c =? 8233) || (c =? 8239) || (c =? 8287) || (c =? 12288).
Fixpoint trim_start (s : list Z) : list Z :=
  match s with c :: rest => if is_whitespace c then trim_start rest else s | [] => [] end.

(** [str::trim], [str::trim_end_matches] of a set of chars, [str::split_once] of a char. *)
Definition trim_end (s : list Z) : list Z := rev (trim_start (rev s)).
Definition trim (s : list Z) : list Z := trim_end (trim_start s).
Fixpoint drop_while (f : Z → bool) (s : list Z) : list Z :=
  match s with c :: rest => if f c then drop_while f rest else s | [] => [] end.
Definition trim_end_matches (f : Z → bool) (s : list Z) : list Z := rev (drop_while f (rev s)).
Fixpoint split_once (c : Z) (s : list Z) : option (list Z * list Z) :=
  match s with
  | [] => None
  | x :: s => if x =? c then Some ([], s) else '(a, b) ← split_once c s; Some (x :: a, b)
  end.

(** [str::eq_ignore_ascii_case] *)
Definition eq_ignore_ascii_case (a b : list Z) : bool :=
  str_eqb (ascii_to_lowercase <$> a) (ascii_to_lowercase <$> b).

(** ** Lemmas: UTF-8 *)

Lemma utf8_units_range c u : is_scalar c → u ∈ utf8_units c → 0 ≤ u < 256.
Proof.
  intros Hc. unfold utf8_units, is_scalar in *.
  repeat zcase; rewrite ?elem_of_cons, elem_of_nil; intros Hu;
    destruct_or?; subst; try done; Z.to_euclidean_division_equations; lia.
Qed.

Lemma utf8_units_length c : (0 < length (utf8_units c) ≤ 4)%nat.
Proof. unfold utf8_units. repeat zcase; cbn; lia. Qed.

Lemma utf8_step_units c u0 rest tail :
  is_scalar c → utf8_units c = u0 :: rest →
  utf8_step u0 (rest ++ tail) = (Some c, length (utf8_units c)).
Proof.
  intros Hc. unfold utf8_units, is_scalar in *.
  pose proof (Z.div_mod c 64). pose proof (Z.mod_pos_bound c 64).
  pose proof (Z.div_mod (c / 64) 64). pose proof (Z.mod_pos_bound (c / 64) 64).
  pose proof (Z.div_mod (c / 4096) 64). pose proof (Z.mod_pos_bound (c / 4096) 64).
  assert (c / 64 / 64 = c / 4096) by (by rewrite Z.div_div by lia).
  assert (c / 4096 / 64 = c / 262144) by (by rewrite Z.div_div by lia).
  repeat zcase; intros [= <- <-]; unfold utf8_step, is_cont; cbn [app lookup list_lookup from_option id length];
    repeat (zcase; cbn [andb orb negb]; try lia); f_equal; f_equal; lia.
Qed.

Lemma utf8_units_inv c : ∃ u0 rest, utf8_units c = u0 :: rest.
Proof. unfold utf8_units. repeat zcase; eauto. Qed.

Lemma as_bytes_nil : as_bytes [] = [].
Proof. done. Qed.
Lemma as_bytes_app s t : as_bytes (s ++ t) = as_bytes s ++ as_bytes t.
Proof. unfold as_bytes, str_units. by rewrite fmap_app, concat_app, fmap_app. Qed.

Lemma str_units_range s : wf_str s → Forall (λ u, 0 ≤ u < 256) (str_units s).
Proof.
  unfold str_units. induction 1 as [|c s Hc Hs IH]; cbn; [done|].
  apply Forall_app. split; [|done]. apply Forall_forall. intros u. by apply utf8_units_range.
Qed.

Lemma byte_val_as_bytes s : wf_str s → byte_val <$> as_bytes s = str_units s.
Proof.
  intros Hs%str_units_range. unfold as_bytes. rewrite <- list_fmap_compose.
  induction Hs as [|u l Hu Hl IH]; cbn; [done|].
  rewrite byte_val_of, Z.mod_small by done. by f_equal.
Qed.

(** The decoders undo the encoder. *)
Lemma decode_strict_units s fuel :
  wf_str s → (length (str_units s) ≤ fuel)%nat → decode_strict fuel (str_units s) = Some s.
Proof.
  intros Hs. revert fuel. unfold str_units. induction Hs as [|c s Hc Hs IH]; intros fuel; cbn.
  { by destruct fuel. }
  destruct (utf8_units_inv c) as (u0 & rest & E).
  rewrite E. cbn. rewrite length_app. intros Hf. destruct fuel as [|fuel]; cbn; [lia|].
  rewrite (utf8_step_units c) by done. rewrite E. cbn.
  rewrite drop_app_length, IH; [done|lia].
Qed.

Lemma decode_lossy_units s fuel :
  wf_str s → (length (str_units s) ≤ fuel)%nat → decode_lossy fuel (str_units s) = s.
Proof.
  intros Hs. revert fuel. unfold str_units. induction Hs as [|c s Hc Hs IH]; intros fuel; cbn.
  { by destruct fuel. }
  destruct (utf8_units_inv c) as (u0 & rest & E).
  rewrite E. cbn. rewrite length_app. intros Hf. destruct fuel as [|fuel]; cbn; [lia|].
  rewrite (utf8_step_units c) by done. rewrite E. cbn.
  rewrite drop_app_length, IH; [done|lia].
Qed.

Lemma from_utf8_as_bytes s : wf_str s → from_utf8 (as_bytes s) = Some s.
Proof.
  intros Hs. unfold from_utf8. rewrite byte_val_as_bytes by done.
  apply decode_strict_units; [done|]. unfold as_bytes. by rewrite length_fmap.
Qed.

Lemma from_utf8_lossy_as_bytes s : wf_str s → from_utf8_lossy (as_bytes s) = s.
Proof.
  intros Hs. unfold from_utf8_lossy. rewrite byte_val_as_bytes by done.
  apply decode_lossy_units; [done|]. unfold as_bytes. by rewrite length_fmap.
Qed.

Lemma as_bytes_inj s t : wf_str s → wf_str t → as_bytes s = as_bytes t → s = t.
Proof.
  intros Hs Ht E. apply from_utf8_as_bytes in Hs, Ht. congruence.
Qed.

(** What the strict decoder accepts is the encoding of what it returns. *)
Lemma utf8_step_Some u0 rest c n :
  Forall (λ u, 0 ≤ u < 256) (u0 :: rest) → utf8_step u0 rest = (Some c, n) →
  is_scalar c ∧ utf8_units c ++ drop n (u0 :: rest) = u0 :: rest.
Proof.
  intros Hr. unfold utf8_step, is_cont.
  destruct rest as [|u1 [|u2 [|u3 rest]]]; cbn [lookup list_lookup from_option id];
    repeat (zcase; cbn [andb orb negb]; try (intros; discriminate); try lia);
    intros [= <- <-]; cbn [drop];
    repeat match goal with H : Forall _ (_ :: _) |- _ => apply Forall_cons in H as [? ?] end;
    (split; [unfold is_scalar; lia|]);
    unfold utf8_units; repeat (zcase; try lia); cbn [app];
    repeat f_equal; Z.to_euclidean_division_equations; lia.
Qed.

Lemma decode_strict_sound fuel u s :
  Forall (λ x, 0 ≤ x < 256) u → decode_strict fuel u = Some s → wf_str s ∧ str_units s = u.
Proof.
  revert u s. induction fuel as [|fuel IH]; intros u s Hu; destruct u as [|u0 rest]; cbn.
  - intros [= <-]. by split; [constructor|].
  - done.
  - intros [= <-]. by split; [constructor|].
  - destruct (utf8_step u0 rest) as [[c|] n] eqn:E; [|done].
    destruct (decode_strict fuel (drop n (u0 :: rest))) as [s'|] eqn:E'; [|done].
    intros [= <-]. apply utf8_step_Some in E as [Hc E]; [|done].
    apply IH in E' as [Hs' E']; [|by apply Forall_drop].
    split; [by constructor|]. unfold str_units in *. cbn. by rewrite E'.
Qed.

Lemma from_utf8_sound b s : from_utf8 b = Some s → wf_str s ∧ as_bytes s = b.
Proof.
  unfold from_utf8. intros [Hs E]%decode_strict_sound.
  - split; [done|]. unfold as_bytes. rewrite E, <- list_fmap_compose.
    clear E Hs. induction b as [|x b IH]; cbn; [done|]. by rewrite byte_of_val, IH.
  - apply Forall_fmap, Forall_true. intros x. apply byte_val_range.
Qed.

(** ** Lemmas: string operations *)

Lemma strip_prefix_Some p s r : strip_prefix p s = Some r ↔ s = p ++ r.
Proof.
  revert s. induction p as [|x p IH]; intros s; cbn; [naive_solver|].
  destruct s as [|y s]; [naive_solver|].
  destruct (Z.eqb_spec x y) as [->|]; [rewrite IH|]; naive_solver.
Qed.

Lemma starts_with_true p s : starts_with p s = true ↔ ∃ r, s = p ++ r.
Proof.
  unfold starts_with. split.
  - destruct (strip_prefix p s) as [r|] eqn:E; [|done]. apply strip_prefix_Some in E. eauto.
  - intros [r E%strip_prefix_Some]. by rewrite E.
Qed.

Lemma strip_suffix_Some p s r : strip_suffix p s = Some r ↔ s = r ++ p.
Proof.
  unfold strip_suffix. rewrite fmap_Some. split.
  - intros (x & E%strip_prefix_Some & ->).
    rewrite <- (rev_involutive s), E, rev_app_distr, rev_involutive. done.
  - intros ->. exists (rev r). split; [|by rewrite rev_involutive].
    apply strip_prefix_Some. by rewrite rev_app_distr.
Qed.

Lemma ends_with_true p s : ends_with p s = true ↔ ∃ r, s = r ++ p.
Proof.
  unfold ends_with. split.
  - destruct (strip_suffix p s) as [r|] eqn:E; [|done]. apply strip_suffix_Some in E. eauto.
  - intros [r E%strip_suffix_Some]. by rewrite E.
Qed.

Lemma str_eqb_true a b : str_eqb a b = true ↔ a = b.
Proof. unfold str_eqb. by rewrite bool_decide_eq_true. Qed.

Lemma str_leb_refl a : str_leb a a = true.
Proof. apply lex_leb_refl. Qed.
Lemma str_leb_total a b : str_leb a b = true ∨ str_leb b a = true.
Proof. apply lex_leb_total. Qed.
Lemma str_leb_trans a b c : str_leb a b = true → str_leb b c = true → str_leb a c = true.
Proof. apply lex_leb_trans. Qed.

(** ** Lemmas: decimal numbers *)

Definition dec_step (v c : Z) : Z := 10 * v + (c - 48).
Definition digit (c : Z) : Prop := 48 ≤ c ≤ 57.

Lemma digits_value fuel n acc :
  0 ≤ n < 2 ^ Z.of_nat fuel → foldl dec_step 0 (digits_aux fuel n acc) = foldl dec_step n acc.
Proof.
  revert n acc. induction fuel as [|fuel IH]; intros n acc Hn; [cbn in Hn; replace n with 0 by lia; done|].
  rewrite Nat2Z.inj_succ, Z.pow_succ_r in Hn by lia. cbn [digits_aux].
  pose proof (Z.div_mod n 10). pose proof (Z.mod_pos_bound n 10).
  destruct (Z.ltb_spec n 10).
  - cbn [foldl]. f_equal. unfold dec_step. rewrite Z.mod_small by lia. lia.
  - rewrite IH by (split; [apply Z.div_pos; lia|apply Z.div_lt_upper_bound; lia]).
    cbn [foldl]. f_equal. unfold dec_step. lia.
Qed.

Lemma digits_digit fuel n acc : Forall digit acc → Forall digit (digits_aux fuel n acc).
Proof.
  revert n acc. induction fuel as [|fuel IH]; intros n acc H; [done|]. cbn [digits_aux].
  pose proof (Z.mod_pos_bound n 10). assert (Forall digit ((48 + n mod 10) :: acc)) by (constructor; [unfold digit; lia|done]).
  destruct (n <? 10); [done|by apply IH].
Qed.

Lemma digits_nonempty fuel n acc : acc ≠ [] ∨ fuel ≠ O → digits_aux fuel n acc ≠ [].
Proof.
  revert n acc. induction fuel as [|fuel IH]; intros n acc H; cbn [digits_aux]; [destruct H; done|].
  destruct (n <? 10); [done|]. apply IH. by left.
Qed.

Lemma show_u_value n : 0 ≤ n → foldl dec_step 0 (show_u n) = n.
Proof.
  intros Hn. unfold show_u. rewrite digits_value; [done|]. split; [done|].
  rewrite Nat2Z.inj_succ, Z2Nat.id by apply Z.log2_nonneg.
  destruct (decide (n = 0)) as [->|]; [done|]. apply Z.log2_spec. lia.
Qed.
Lemma show_u_digits n : Forall digit (show_u n).
Proof. by apply digits_digit. Qed.
Lemma show_u_nonempty n : show_u n ≠ [].
Proof. apply digits_nonempty. by right. Qed.
Lemma show_u_inj a b : 0 ≤ a → 0 ≤ b → show_u a = show_u b → a = b.
Proof. intros Ha Hb E. by rewrite <- (show_u_value a), <- (show_u_value b), E. Qed.

Lemma dec_step_mono v l : 0 ≤ v → Forall digit l → v ≤ foldl dec_step v l.
Proof.
  intros Hv Hl. revert v Hv. induction Hl as [|x l Hx _ IH]; intros v Hv; cbn [foldl]; [done|].
  unfold digit in Hx. specialize (IH (dec_step v x)). unfold dec_step in *. lia.
Qed.

Lemma parse_digits_value acc s :
  0 ≤ acc → Forall digit s → foldl dec_step acc s < 2 ^ 64 → parse_digits acc s = Some (foldl dec_step acc s).
Proof.
  revert acc. induction s as [|c s IH]; intros acc Ha Hs Hlt; cbn [parse_digits foldl] in *; [done|].
  apply Forall_cons in Hs as [Hc Hs]. unfold digit in Hc. destruct (Z.leb_spec 48 c), (Z.leb_spec c 57); try lia. cbn [andb].
  destruct (Z.ltb_spec (10 * acc + (c - 48)) (2 ^ 64)); [apply IH; [unfold dec_step; lia|done|done]|].
  assert (0 ≤ dec_step acc c) as H0' by (unfold dec_step; lia). pose proof (dec_step_mono (dec_step acc c) s H0' Hs).
  change (10 * acc + (c - 48)) with (dec_step acc c) in *. lia.
Qed.

Lemma parse_u64_show d : inU 64 d → parse_u64 (show_u d) = Some d.
Proof.
  intros Hd. pose proof (show_u_digits d) as Hdig. pose proof (show_u_value d ltac:(unfold inU in Hd; lia)) as Hv.
  destruct (show_u d) as [|c s] eqn:E; [by destruct (show_u_nonempty d)|]. unfold parse_u64.
  assert ((c =? ch "+") = false) as ->.
  { apply Forall_cons in Hdig as [Hc _]. unfold digit in Hc. apply Z.eqb_neq. assert (ch "+" = 43) as -> by done. lia. }
  rewrite parse_digits_value; [by rewrite Hv|lia|done|rewrite Hv; apply Hd].
Qed.
