(* ===== verification/IndexModel.v ===== *)
(** * Index model (crate [ls-index-model])

    Positions, spans and their packed encoding ([text.rs]), occurrence roles and
    flags ([flags.rs]), symbol keys, kinds and property bits ([symbol.rs]), the
    rename-safety reasons and profile ([unsafe_reason.rs], [groups.rs]), the
    normalized document ([semantics.rs]) and the typed errors ([error.rs]). *)

From S2P Require Import Prelude RustStr.

Open Scope Z_scope.

(** ** Positions and spans ([text.rs]) *)

Record Pos := mkPos { pos_line : Z; pos_character : Z }.

Record Span := mkSpan { start_line : Z; start_char : Z; end_line : Z; end_char : Z }.
#[global] Instance Span_eq_dec : EqDecision Span.
Proof. solve_decision. Defined.

Record Loc := mkLoc { loc_uri : list Z; loc_span : Span }.

Definition CHAR_BITS : Z := 12.
Definition CHAR_MASK : Z := Z.shiftl 1 CHAR_BITS - 1.
Definition LINE_MAX : Z := Z.shiftl 1 20 - 1.

(** The derived [Ord] of [Pos]: lexicographic. *)
Definition Pos_le (a b : Pos) : bool :=
  (pos_line a <? pos_line b) ||
  ((pos_line a =? pos_line b) && (pos_character a <=? pos_character b)).

(** [Span::contains] *)
Definition span_contains (s : Span) (line character : Z) : bool :=
  let after_start :=
    (start_line s <? line) || ((line =? start_line s) && (start_char s <=? character)) in
  let before_end :=
    (line <? end_line s) || ((line =? end_line s) && (character <=? end_char s)) in
  after_start && before_end.

(** [Span::pack] *)
Definition pack (line character : Z) : Z :=
  let l := if line <? LINE_MAX then line else LINE_MAX in
  let c := if character <? CHAR_MASK then character else CHAR_MASK in
  Z.lor (Z.shiftl l CHAR_BITS) c.

Definition unpack_line (packed : Z) : Z := Z.shiftr packed CHAR_BITS.
Definition unpack_char (packed : Z) : Z := Z.land packed CHAR_MASK.

(** ** Roles and flags ([flags.rs]) *)

Inductive Role := Reference | Definition_.
#[global] Instance Role_eq_dec : EqDecision Role.
Proof. solve_decision. Defined.

Definition OCC_DEFINITION : Z := Z.shiftl 1 0.
Definition OCC_EDITABLE : Z := Z.shiftl 1 1.
Definition OCC_GENERATED : Z := Z.shiftl 1 2.
Definition OCC_READONLY : Z := Z.shiftl 1 3.
Definition OCC_SYNTHETIC : Z := Z.shiftl 1 4.

(** [occ_flags::has] *)
Definition has (flags bit : Z) : bool := negb (Z.land flags bit =? 0).

(** ** Symbols ([symbol.rs]) *)

(** A document id is a [u64] newtype ([ids.rs]). *)
Record SymbolKey := mkKey { semantic_symbol : list Z; local_doc : option Z }.
#[global] Instance SymbolKey_eq_dec : EqDecision SymbolKey.
Proof. solve_decision. Defined.
#[global] Program Instance SymbolKey_countable : Countable SymbolKey :=
  inj_countable' (λ k, (semantic_symbol k, local_doc k)) (λ p, mkKey p.1 p.2) _.
Next Obligation. by intros []. Qed.

Definition key_global (sym : list Z) : SymbolKey := mkKey sym None.
Definition key_local (sym : list Z) (doc : Z) : SymbolKey := mkKey sym (Some doc).
Definition key_is_local (k : SymbolKey) : bool :=
  match local_doc k with Some _ => true | None => false end.

Inductive SymKind :=
| UnknownKind | LocalValue | LocalVariable | Method | Constructor | Macro | Type_
| Parameter_ | SelfParameter | TypeParameter | Object_ | Package | PackageObject
| Class_ | Trait | Interface | Field.
#[global] Instance SymKind_eq_dec : EqDecision SymKind.
Proof. solve_decision. Defined.

(** [SymKind::code] *)
Definition code (k : SymKind) : Z :=
  match k with
  | UnknownKind => 0
  | LocalValue => 19
  | LocalVariable => 20
  | Method => 3
  | Constructor => 21
  | Macro => 6
  | Type_ => 7
  | Parameter_ => 8
  | SelfParameter => 17
  | TypeParameter => 9
  | Object_ => 10
  | Package => 11
  | PackageObject => 12
  | Class_ => 13
  | Trait => 14
  | Interface => 18
  | Field => 15
  end.

(** [SymKind::from_code] *)
Definition from_code (c : Z) : SymKind :=
  match c with
  | 19 => LocalValue
  | 20 => LocalVariable
  | 3 => Method
  | 21 => Constructor
  | 6 => Macro
  | 7 => Type_
  | 8 => Parameter_
  | 17 => SelfParameter
  | 9 => TypeParameter
  | 10 => Object_
  | 11 => Package
  | 12 => PackageObject
  | 13 => Class_
  | 14 => Trait
  | 18 => Interface
  | 15 => Field
  | _ => UnknownKind
  end.

(** [sym_props::OPAQUE] *)
Definition PROP_OPAQUE : Z := 2097152.

(** ** Rename safety ([unsafe_reason.rs], [groups.rs]) *)

Definition EXTERNAL : Z := Z.shiftl 1 0.
Definition GENERATED_OCCURRENCE : Z := Z.shiftl 1 1.
Definition READONLY_OCCURRENCE : Z := Z.shiftl 1 2.
Definition OVERRIDE_FAMILY : Z := Z.shiftl 1 3.
Definition SYNTHETIC_ONLY : Z := Z.shiftl 1 4.
Definition PC_ONLY : Z := Z.shiftl 1 5.
Definition SHARED_SOURCE_DISAGREEMENT : Z := Z.shiftl 1 6.
Definition UNSUPPORTED_SYMBOL_FAMILY : Z := Z.shiftl 1 7.
Definition DEPENDENCY_SOURCE : Z := Z.shiftl 1 8.
Definition OPAQUE_TYPE : Z := Z.shiftl 1 9.

(** [unsafe_reason::explain]: one message per set reason, in bit order. *)
Definition explain (mask : Z) : list (list Z) :=
  (if has mask EXTERNAL then [lit "symbol is defined outside the workspace"] else []) ++
  (if has mask GENERATED_OCCURRENCE then [lit "symbol has occurrences in generated sources"] else []) ++
  (if has mask READONLY_OCCURRENCE then [lit "symbol has occurrences in readonly sources"] else []) ++
  (if has mask OVERRIDE_FAMILY then [lit "symbol participates in an override family that cannot be renamed safely"] else []) ++
  (if has mask SYNTHETIC_ONLY then [lit "symbol only has synthetic occurrences"] else []) ++
  (if has mask PC_ONLY then [lit "symbol is provided by a PC-only plugin and is not present in fresh SemanticDB"] else []) ++
  (if has mask SHARED_SOURCE_DISAGREEMENT then [lit "targets sharing this source disagree on the rename group"] else []) ++
  (if has mask UNSUPPORTED_SYMBOL_FAMILY then [lit "symbol family (e.g. apply/unapply, exported symbol) is not safely renameable"] else []) ++
  (if has mask DEPENDENCY_SOURCE then [lit "symbol has occurrences in dependency sources"] else []) ++
  (if has mask OPAQUE_TYPE then [lit "opaque type rename is not supported (conservative policy)"] else []).

Record RenameProfile := mkRenameProfile {
  is_local_group : bool;
  is_external : bool;
  has_generated_occurrences : bool;
  has_readonly_occurrences : bool;
  has_override_family : bool;
  has_companion : bool;
  editable_occurrence_count : Z;
  unsafe_reason_mask : Z;
}.
#[global] Instance RenameProfile_eq_dec : EqDecision RenameProfile.
Proof. solve_decision. Defined.

(** [RenameProfile::is_safe], [RenameProfile::empty] *)
Definition is_safe (p : RenameProfile) : bool := unsafe_reason_mask p =? 0.
Definition profile_empty : RenameProfile :=
  mkRenameProfile false false false false false false 0 0.

(** ** Normalized documents ([semantics.rs]) *)

Record SymbolInfo := mkSymbolInfo {
  si_key : SymbolKey;
  si_display_name : list Z;
  si_owner_name : option (list Z);
  si_package_name : option (list Z);
  si_kind : SymKind;
  si_properties : Z;
  si_overridden_symbols : list (list Z);
}.

Record Occurrence := mkOccurrence {
  occ_key : SymbolKey;
  occ_span : Span;
  occ_role : Role;
  occ_synthetic : bool;
}.

(** [Occurrence::new] *)
Definition Occurrence_new (key : SymbolKey) (span : Span) (role : Role) : Occurrence :=
  mkOccurrence key span role false.

Record NormalizedDocument := mkNormalizedDocument {
  nd_uri : list Z;
  nd_md5 : list Z;
  nd_schema_version : Z;
  nd_language : list Z;
  nd_symbols : list SymbolInfo;
  nd_occurrences : list Occurrence;
}.

(** ** Typed errors ([error.rs]) *)

Inductive LsError :=
| IndexUnavailable (target : list Z)
| StaleIndex (uri : list Z)
| CompileFailed (target : list Z)
| RenameRejected (reasons : list (list Z))
| PcOnlySymbol
| NoSymbolAtCursor (uri : list Z) (line character : Z)
| NotIndexed (uri : list Z)
| NoSemanticdb (uri : list Z).

(** [LsError::message], the [Display] text. *)
Definition message (e : LsError) : list Z :=
  match e with
  | IndexUnavailable target =>
      lit "target " ++ target ++
      lit " has no SemanticDB output; workspace symbol, references and rename are disabled for it"
  | StaleIndex uri =>
      lit "index for " ++ uri ++ lit " is stale (md5 mismatch) and could not be refreshed"
  | CompileFailed target =>
      lit "buildTarget/compile failed for " ++ target ++
      lit "; rename requires a fresh successful compile"
  | RenameRejected reasons =>
      lit "rename rejected:" ++ concat ((λ r, [10] ++ lit "  - " ++ r) <$> reasons)
  | PcOnlySymbol =>
      lit "This symbol is provided by a PC-only plugin and is not present in fresh SemanticDB. " ++
      lit "Workspace-wide references and cross-file rename are unavailable for this symbol."
  | NoSymbolAtCursor uri line character =>
      lit "no symbol occurrence at " ++ uri ++ lit ":" ++ show_u line ++ lit ":" ++ show_u character
  | NotIndexed uri => uri ++ lit " is not part of any indexed build target"
  | NoSemanticdb uri =>
      uri ++ lit " has no SemanticDB output; every source must be compiled with -Xsemanticdb"
  end.

(** ** Lemmas: the packed encoding *)

(** Saturation is a minimum, and the two fields do not overlap. *)
Lemma pack_eq line character :
  0 ≤ line → 0 ≤ character →
  pack line character = Z.min line LINE_MAX * 4096 + Z.min character CHAR_MASK.
Proof.
  intros Hl Hc. unfold pack. change CHAR_BITS with 12.
  assert (0 ≤ Z.min character CHAR_MASK < 4096) by (change CHAR_MASK with 4095; lia).
  replace (if line <? LINE_MAX then line else LINE_MAX) with (Z.min line LINE_MAX) by (zcase; lia).
  replace (if character <? CHAR_MASK then character else CHAR_MASK)
    with (Z.min character CHAR_MASK) by (zcase; lia).
  by rewrite lor_shiftl_add by lia.
Qed.

Lemma unpack_line_eq p : unpack_line p = p / 4096.
Proof. unfold unpack_line, CHAR_BITS. by rewrite Z.shiftr_div_pow2. Qed.
Lemma unpack_char_eq p : unpack_char p = p mod 4096.
Proof. unfold unpack_char, CHAR_MASK, CHAR_BITS. by apply (Z.land_ones p 12). Qed.

Lemma CHAR_MASK_eq : CHAR_MASK = 4095.
Proof. done. Qed.
Lemma LINE_MAX_eq : LINE_MAX = 1048575.
Proof. done. Qed.

Lemma pack_range line character : 0 ≤ line → 0 ≤ character → inU 32 (pack line character).
Proof.
  intros Hl Hc. rewrite pack_eq by done. unfold inU. rewrite CHAR_MASK_eq, LINE_MAX_eq. lia.
Qed.

Lemma unpack_pack line character :
  0 ≤ line → 0 ≤ character →
  unpack_line (pack line character) = Z.min line LINE_MAX ∧
  unpack_char (pack line character) = Z.min character CHAR_MASK.
Proof.
  intros Hl Hc. rewrite pack_eq, unpack_line_eq, unpack_char_eq by done.
  rewrite CHAR_MASK_eq, LINE_MAX_eq. Z.to_euclidean_division_equations. lia.
Qed.

Lemma pack_unpack p : inU 32 p → pack (unpack_line p) (unpack_char p) = p.
Proof.
  intros Hp. unfold inU in Hp. rewrite unpack_line_eq, unpack_char_eq.
  rewrite pack_eq, CHAR_MASK_eq, LINE_MAX_eq by (Z.to_euclidean_division_equations; lia).
  Z.to_euclidean_division_equations; lia.
Qed.

Lemma pack_le l c l' c' :
  0 ≤ l ≤ LINE_MAX → 0 ≤ c ≤ CHAR_MASK → 0 ≤ l' ≤ LINE_MAX → 0 ≤ c' ≤ CHAR_MASK →
  (pack l c <=? pack l' c') = Pos_le (mkPos l c) (mkPos l' c').
Proof.
  intros. rewrite !pack_eq by lia. rewrite !Z.min_l by lia. rewrite CHAR_MASK_eq in *.
  unfold Pos_le. cbn. repeat zcase; cbn; lia.
Qed.

Lemma span_contains_Pos_le s l c :
  span_contains s l c =
  Pos_le (mkPos (start_line s) (start_char s)) (mkPos l c) &&
  Pos_le (mkPos l c) (mkPos (end_line s) (end_char s)).
Proof.
  unfold span_contains, Pos_le. cbn. by rewrite (Z.eqb_sym l (start_line s)).
Qed.

(** ** Lemmas: flags, kinds and reasons *)

Lemma has_testbit flags n : 0 ≤ n → has flags (Z.shiftl 1 n) = Z.testbit flags n.
Proof.
  intros Hn. unfold has. rewrite Z.shiftl_1_l, land_pow2_testbit by done. apply negb_involutive.
Qed.

Lemma from_code_code k : from_code (code k) = k.
Proof. by destruct k. Qed.

Lemma has_bit_pow mask n : 0 ≤ n → has mask (2 ^ n) = Z.testbit mask n.
Proof. intros Hn. rewrite <- Z.shiftl_1_l. by apply has_testbit. Qed.

Lemma zlen_if {A : Type} (b : bool) (x : A) : zlen (if b then [x] else []) = Z.b2z b.
Proof. by destruct b. Qed.
Lemma zlen_filter_cons {A : Type} (P : A → bool) x l :
  zlen (List.filter P (x :: l)) = Z.b2z (P x) + zlen (List.filter P l).
Proof. cbn. destruct (P x); [by rewrite zlen_cons|done]. Qed.

(** [explain] has one message per set reason bit. *)
Lemma length_explain mask :
  zlen (explain mask) = zlen (List.filter (Z.testbit mask) (seqZ 0 10)).
Proof.
  unfold explain, EXTERNAL, GENERATED_OCCURRENCE, READONLY_OCCURRENCE, OVERRIDE_FAMILY,
    SYNTHETIC_ONLY, PC_ONLY, SHARED_SOURCE_DISAGREEMENT, UNSUPPORTED_SYMBOL_FAMILY,
    DEPENDENCY_SOURCE, OPAQUE_TYPE.
  rewrite !has_testbit by done.
  rewrite !zlen_app, !zlen_if.
  change (seqZ 0 10) with [0; 1; 2; 3; 4; 5; 6; 7; 8; 9].
  do 10 rewrite zlen_filter_cons. change (zlen (List.filter (Z.testbit mask) [])) with 0. lia.
Qed.

(** ** Properties *)

Definition span_in_range (s : Span) : Prop :=
  0 ≤ start_line s ≤ LINE_MAX ∧ 0 ≤ end_line s ≤ LINE_MAX ∧
  0 ≤ start_char s ≤ CHAR_MASK ∧ 0 ≤ end_char s ≤ CHAR_MASK.

(** The packed encoding is faithful: a packed position is a [u32] whose fields
    are the saturated line and character, every [u32] is the packing of its own
    fields, and on coordinates that fit, comparing packed positions decides exactly
    the end-inclusive hit test [Span::contains]. *)
Theorem packed_positions_faithful :
  (∀ line character, 0 ≤ line → 0 ≤ character →
     inU 32 (pack line character) ∧
     unpack_line (pack line character) = Z.min line LINE_MAX ∧
     unpack_char (pack line character) = Z.min character CHAR_MASK) ∧
  (∀ p, inU 32 p → pack (unpack_line p) (unpack_char p) = p) ∧
  (∀ s line character, span_in_range s → 0 ≤ line ≤ LINE_MAX → 0 ≤ character ≤ CHAR_MASK →
     (pack (start_line s) (start_char s) <=? pack line character) &&
     (pack line character <=? pack (end_line s) (end_char s)) = span_contains s line character).
Proof.
  split; [|split].
  - intros line character Hl Hc. split; [by apply pack_range|]. by apply unpack_pack.
  - apply pack_unpack.
  - intros s line character (?&?&?&?) Hl Hc. by rewrite !pack_le, span_contains_Pos_le by done.
Qed.

Lemma packed_positions_faithful_witness :
  unpack_line (pack 1234 5000) = 1234 ∧ unpack_char (pack 3 5000) = CHAR_MASK ∧
  span_contains (mkSpan 2 4 2 10) 2 10 = true.
Proof.
  destruct packed_positions_faithful as (H1 & _ & H3).
  split; [apply H1; lia|]. split; [apply (H1 3 5000); lia|].
  rewrite <- H3; [reflexivity|..]; repeat split; vm_compute; discriminate.
Defined.

(** The rename gate and its explanation agree: over the ten reason bits, a profile
    is safe exactly when [explain] has nothing to say, and otherwise [explain] gives
    one message per set bit. *)
Theorem safe_iff_nothing_to_explain p :
  inU 10 (unsafe_reason_mask p) →
  (is_safe p = true ↔ explain (unsafe_reason_mask p) = []) ∧
  zlen (explain (unsafe_reason_mask p)) =
    zlen (List.filter (Z.testbit (unsafe_reason_mask p)) (seqZ 0 10)).
Proof.
  intros Hm. split; [|apply length_explain].
  unfold is_safe. rewrite Z.eqb_eq. set (mask := unsafe_reason_mask p) in *. split.
  - intros ->. reflexivity.
  - intros E. pose proof (length_explain mask) as Hl. rewrite E in Hl.
    destruct (List.filter _ _) as [|x l] eqn:Ef; [|unfold zlen in Hl; cbn in Hl; lia].
    apply Z.bits_inj'. intros i Hi. rewrite Z.bits_0.
    destruct (Z.lt_ge_cases i 10); [|apply (testbit_inU 10); done || lia].
    destruct (Z.testbit mask i) eqn:Ei; [|done].
    assert (In i (List.filter (Z.testbit mask) (seqZ 0 10))) as Hin.
    { apply filter_In. split; [|done]. apply list_elem_of_In, elem_of_seqZ_0. lia. }
    rewrite Ef in Hin. done.
Qed.

Lemma safe_iff_nothing_to_explain_witness :
  explain (unsafe_reason_mask profile_empty) = [] ∧
  zlen (explain (Z.lor EXTERNAL OVERRIDE_FAMILY)) = 2.
Proof.
  split.
  - apply (safe_iff_nothing_to_explain profile_empty); [split; [vm_compute; discriminate|reflexivity]|].
    reflexivity.
  - pose proof (proj2 (safe_iff_nothing_to_explain
      (mkRenameProfile false true false false true false 0 (Z.lor EXTERNAL OVERRIDE_FAMILY))
      ltac:(split; [vm_compute; discriminate|reflexivity]))) as H.
    cbn [unsafe_reason_mask] in H. rewrite H. reflexivity.
Defined.
