(* ===== verification/Bitset.v ===== *)
(** * Target bitsets (crate [ls-index-model], [bitset.rs])

    An exact membership set over snapshot target ordinals, as a list of [u64] words.
    Operations that index the word array return [None] where the Rust code would
    panic; [bitset_wf] is the invariant under which they never do. *)

From S2P Require Import Prelude.

Open Scope Z_scope.

Record TargetBitset := mkBitset { words : list Z; size : Z }.

(** [u64::trailing_zeros], [u64::count_ones] *)
Definition set_bits (w : Z) : list Z := List.filter (Z.testbit w) (seqZ 0 64).
Definition trailing_zeros (w : Z) : Z :=
  match set_bits w with k :: _ => k | [] => 64 end.
Definition count_ones (w : Z) : Z := zlen (set_bits w).

Strategy expand [set_bits trailing_zeros count_ones].

(** [word_count] *)
Definition word_count (size : Z) : Z := Z.shiftr (size + 63) 6.

(** [TargetBitset::empty] *)
Definition bitset_empty (size : Z) : TargetBitset :=
  mkBitset (replicate (Z.to_nat (word_count size)) 0) size.

(** The loop body of [TargetBitset::of]; [None] is the assertion or an index panic. *)
Definition bitset_set (size : Z) (words : list Z) (o : Z) : option (list Z) :=
  if o <? size then
    w ← zget words (Z.shiftr o 6);
    zset words (Z.shiftr o 6) (Z.lor w (Z.shiftl 1 (Z.land o 63)))
  else None.

Fixpoint bitset_set_all (size : Z) (words : list Z) (ords : list Z) : option (list Z) :=
  match ords with
  | [] => Some words
  | o :: ords => words' ← bitset_set size words o; bitset_set_all size words' ords
  end.

(** [TargetBitset::of] *)
Definition bitset_of (size : Z) (ords : list Z) : option TargetBitset :=
  let words_len := Z.max (word_count size) 1 in
  words ← bitset_set_all size (replicate (Z.to_nat words_len) 0) ords;
  Some (mkBitset words size).

(** [Vec::resize(n, 0)] *)
Definition vec_resize (n : Z) (l : list Z) : list Z :=
  take (Z.to_nat n) l ++ replicate (Z.to_nat n - length l) 0.

(** [TargetBitset::from_words] *)
Definition bitset_from_words (size : Z) (words : list Z) : TargetBitset :=
  let n := word_count size in
  let words := vec_resize n words in
  let words :=
    if 0 <? n then
      let used := size - (n - 1) * 64 in
      if used <? 64 then
        alter (λ w, Z.land w (Z.shiftl 1 used - 1)) (Z.to_nat (n - 1)) words
      else words
    else words in
  mkBitset words size.

(** [TargetBitset::all] *)
Definition bitset_all (size : Z) : option TargetBitset := bitset_of size (seqZ 0 size).

(** [TargetBitset::contains] *)
Definition bitset_contains (b : TargetBitset) (target_ord : Z) : option bool :=
  if target_ord <? size b then
    w ← zget (words b) (Z.shiftr target_ord 6);
    Some (negb (Z.land w (Z.shiftl 1 (Z.land target_ord 63)) =? 0))
  else Some false.

(** [TargetBitset::intersects_words] *)
Fixpoint any_common_bit (a b : list Z) : bool :=
  match a, b with
  | x :: a, y :: b => negb (Z.land x y =? 0) || any_common_bit a b
  | _, _ => false
  end.
Definition intersects_words (b : TargetBitset) (other : list Z) : bool :=
  any_common_bit (words b) other.

(** [TargetBitset::intersects] *)
Definition intersects (a b : TargetBitset) : bool := intersects_words a (words b).

(** [TargetBitset::cardinality] *)
Definition cardinality (b : TargetBitset) : Z := foldr Z.add 0 (count_ones <$> words b).

(** The inner iterator of [TargetBitset::iter]: it clears the lowest set bit until
    the word is zero. A 64-bit word has at most 64 set bits. *)
Fixpoint iter_word (fuel : nat) (base w : Z) : list Z :=
  match fuel with
  | O => []
  | S fuel =>
      if w =? 0 then []
      else (base + trailing_zeros w) :: iter_word fuel base (Z.land w (w - 1))
  end.

(** [TargetBitset::iter] *)
Definition bitset_iter (b : TargetBitset) : list Z :=
  concat (imap (λ wi w, iter_word 64 (Z.of_nat wi * 64) w) (words b)).

(** ** The invariant *)

Definition bit_at (ws : list Z) (o : Z) : bool :=
  match zget ws (Z.shiftr o 6) with Some w => Z.testbit w (Z.land o 63) | None => false end.

Record bitset_wf (b : TargetBitset) : Prop := {
  wf_size : 0 ≤ size b;
  wf_words : Forall (inU 64) (words b);
  wf_count : word_count (size b) ≤ zlen (words b);
  wf_bits o : 0 ≤ o → bit_at (words b) o = true → o < size b;
}.

(** ** Lemmas: words and bits *)

Lemma shiftr6 o : Z.shiftr o 6 = o / 64.
Proof. by rewrite Z.shiftr_div_pow2. Qed.
Lemma land63 o : Z.land o 63 = o mod 64.
Proof. by apply (Z.land_ones o 6). Qed.
Lemma word_count_eq n : word_count n = (n + 63) / 64.
Proof. apply shiftr6. Qed.

Lemma bit_at_split ws i b :
  0 ≤ b < 64 → bit_at ws (64 * i + b) = match zget ws i with Some w => Z.testbit w b | None => false end.
Proof.
  intros Hb. unfold bit_at. rewrite shiftr6, land63.
  replace ((64 * i + b) / 64) with i by (Z.to_euclidean_division_equations; lia).
  by replace ((64 * i + b) mod 64) with b by (Z.to_euclidean_division_equations; lia).
Qed.

Lemma elem_of_filter_bool {A : Type} (P : A → bool) (l : list A) x :
  x ∈ List.filter P l ↔ P x = true ∧ x ∈ l.
Proof. rewrite !list_elem_of_In, filter_In. tauto. Qed.

Lemma elem_of_set_bits w k : k ∈ set_bits w ↔ 0 ≤ k < 64 ∧ Z.testbit w k = true.
Proof. unfold set_bits. rewrite elem_of_filter_bool, elem_of_seqZ_0. tauto. Qed.

Lemma set_bits_nil w : inU 64 w → set_bits w = [] → w = 0.
Proof.
  intros Hw E. apply Z.bits_inj'. intros k Hk. rewrite Z.bits_0.
  destruct (Z.lt_ge_cases k 64); [|by apply (testbit_inU 64)].
  destruct (Z.testbit w k) eqn:Ek; [|done].
  assert (k ∈ set_bits w) as Hin by (apply elem_of_set_bits; split; [lia|done]).
  rewrite E in Hin. by apply elem_of_nil in Hin.
Qed.

Lemma odd_pred_testbit m j :
  Z.odd m = true → 0 ≤ j → Z.testbit (m - 1) (Z.succ j) = Z.testbit m (Z.succ j).
Proof.
  intros Hodd Hj. apply Z.odd_spec in Hodd as [q ->].
  replace (2 * q + 1 - 1) with (2 * q) by lia.
  by rewrite Z.testbit_even_succ, Z.testbit_odd_succ by lia.
Qed.

(** Clearing the lowest set bit. *)
Lemma land_pred_testbit w k :
  0 < w → 0 ≤ k → (∀ i, 0 ≤ i < k → Z.testbit w i = false) → Z.testbit w k = true →
  ∀ i, 0 ≤ i → Z.testbit (Z.land w (w - 1)) i = Z.testbit w i && negb (i =? k).
Proof.
  intros Hw Hk Hlow Hbit.
  assert (w mod 2 ^ k = 0) as Hmod.
  { apply Z.bits_inj'. intros i Hi. rewrite Z.bits_0.
    destruct (Z.lt_ge_cases i k).
    - rewrite Z.mod_pow2_bits_low by lia. apply Hlow. lia.
    - by apply Z.mod_pow2_bits_high. }
  assert (0 < 2 ^ k) by (by apply Z.pow_pos_nonneg).
  set (m := w / 2 ^ k).
  assert (w = 2 ^ k * m) as Ew by (unfold m; apply Z_div_exact_full_2; lia).
  assert (Z.odd m = true) as Hodd.
  { rewrite <- Z.bit0_odd. unfold m. rewrite Z.div_pow2_bits by lia. by rewrite Z.add_0_l. }
  assert ((w - 1) / 2 ^ k = m - 1) as Ediv.
  { symmetry. apply Z.div_unique_pos with (r := 2 ^ k - 1); lia. }
  intros i Hi. rewrite Z.land_spec.
  destruct (Z.lt_ge_cases i k) as [Hik|Hik].
  { by rewrite Hlow by lia. }
  replace i with ((i - k) + k) by lia.
  rewrite <- !Z.div_pow2_bits by lia. fold m. rewrite Ediv.
  destruct (Z.eqb_spec (i - k + k) k) as [E|E].
  - replace (i - k) with 0 by lia. rewrite !Z.bit0_odd, Z.odd_sub, Hodd. done.
  - replace (i - k) with (Z.succ (i - k - 1)) by lia.
    rewrite odd_pred_testbit by (done || lia). rewrite andb_diag. cbn. by rewrite andb_true_r.
Qed.

Lemma filter_none {A : Type} (P : A → bool) (l : list A) :
  (∀ x, x ∈ l → P x = false) → List.filter P l = [].
Proof.
  induction l as [|x l IH]; cbn; intros H; [done|].
  rewrite H by set_solver. apply IH. set_solver.
Qed.

Lemma filter_ext_elem {A : Type} (P Q : A → bool) (l : list A) :
  (∀ x, x ∈ l → P x = Q x) → List.filter P l = List.filter Q l.
Proof.
  induction l as [|x l IH]; cbn; intros H; [done|].
  rewrite H, IH by set_solver. done.
Qed.

(** Splitting the scan of a word at its lowest set bit. *)
Lemma filter_seqZ_split (P : Z → bool) lo k hi :
  lo ≤ k < hi → (∀ i, lo ≤ i < k → P i = false) →
  List.filter P (seqZ lo (hi - lo)) =
  (if P k then [k] else []) ++ List.filter P (seqZ (k + 1) (hi - (k + 1))).
Proof.
  intros Hk Hlow.
  replace (hi - lo) with ((k - lo) + (1 + (hi - (k + 1)))) by lia.
  rewrite seqZ_app, List.filter_app by lia.
  rewrite (filter_none P (seqZ lo (k - lo)))
    by (intros x Hx%elem_of_seqZ; apply Hlow; lia).
  replace (lo + (k - lo)) with k by lia.
  rewrite seqZ_cons by lia. cbn [app List.filter].
  replace (Z.succ k) with (k + 1) by lia.
  replace (Z.pred (1 + (hi - (k + 1)))) with (hi - (k + 1)) by lia.
  by destruct (P k).
Qed.

Lemma filter_head {A : Type} (P : A → bool) (l : list A) k r :
  List.filter P l = k :: r →
  ∃ pre post, l = pre ++ k :: post ∧ (∀ x, x ∈ pre → P x = false) ∧ P k = true.
Proof.
  induction l as [|x l IH]; cbn; [done|]. destruct (P x) eqn:E.
  - intros [= -> _]. exists [], l. split; [done|]. split; [by intros ? ?%elem_of_nil|done].
  - intros (pre & post & -> & Hpre & Hk)%IH. exists (x :: pre), post.
    split; [done|]. split; [|done]. intros y [->|?]%elem_of_cons; auto.
Qed.

Lemma filter_seqZ_head (P : Z → bool) n k r :
  List.filter P (seqZ 0 n) = k :: r →
  0 ≤ k < n ∧ P k = true ∧ ∀ i, 0 ≤ i < k → P i = false.
Proof.
  intros E. destruct (filter_head _ _ _ _ E) as (pre & post & Epre & Hpre & Hk).
  assert (seqZ 0 n !! length pre = Some k) as Hlk.
  { rewrite Epre. by rewrite list_lookup_middle. }
  apply lookup_seqZ in Hlk as [Ek Hlt]. split; [lia|]. split; [done|].
  intros i Hi. apply Hpre.
  assert (seqZ 0 n !! Z.to_nat i = Some i) as Hl by (apply lookup_seqZ; lia).
  rewrite Epre, lookup_app_l in Hl by lia. by eapply list_elem_of_lookup_2.
Qed.

Lemma trailing_zeros_spec w :
  inU 64 w → w ≠ 0 →
  0 ≤ trailing_zeros w < 64 ∧ Z.testbit w (trailing_zeros w) = true ∧
  ∀ i, 0 ≤ i < trailing_zeros w → Z.testbit w i = false.
Proof.
  intros Hw Hnz. unfold trailing_zeros.
  destruct (set_bits w) as [|k r] eqn:E; [by apply set_bits_nil in E|].
  unfold set_bits in E. by apply filter_seqZ_head in E.
Qed.

Lemma iter_word_from fuel base w lo :
  inU 64 w → 0 ≤ lo ≤ 64 → (∀ i, 0 ≤ i < lo → Z.testbit w i = false) →
  64 - lo ≤ Z.of_nat fuel →
  iter_word fuel base w = (λ b, base + b) <$> List.filter (Z.testbit w) (seqZ lo (64 - lo)).
Proof.
  revert w lo. induction fuel as [|fuel IH]; intros w lo Hw Hlo Hlow Hf; cbn [iter_word].
  { rewrite seqZ_nil by lia. done. }
  destruct (Z.eqb_spec w 0) as [->|Hnz].
  { rewrite filter_none; [done|]. intros x _. apply Z.testbit_0_l. }
  destruct (trailing_zeros_spec w Hw Hnz) as (Hk & Hb & Hbelow).
  generalize dependent (trailing_zeros w). intros k Hk Hb Hbelow.
  assert (lo ≤ k). { destruct (Z.lt_ge_cases k lo); [|done]. rewrite Hlow in Hb; [done|lia]. }
  rewrite (filter_seqZ_split _ lo k 64) by (lia || (intros; apply Hbelow; lia)).
  rewrite Hb. cbn [app fmap list_fmap]. f_equal.
  assert (0 < w) by (unfold inU in Hw; lia).
  pose proof (land_pred_testbit w k ltac:(done) ltac:(lia) Hbelow Hb) as Hclr.
  rewrite (IH _ (k + 1)); [| |lia| |lia].
  - f_equal. apply filter_ext_elem. intros x Hx%elem_of_seqZ.
    rewrite Hclr by lia. destruct (Z.eqb_spec x k); [lia|]. apply andb_true_r.
  - by apply inU_land_l.
  - intros i Hi. rewrite Hclr by lia. destruct (Z.eqb_spec i k); [apply andb_false_r|].
    rewrite Hbelow by lia. done.
Qed.

#[global] Arguments iter_word : simpl never.
#[global] Arguments set_bits : simpl never.

Lemma iter_word_spec base w :
  inU 64 w → iter_word 64 base w = (λ b, base + b) <$> set_bits w.
Proof. intros Hw. apply (iter_word_from 64 base w 0); try lia; done. Qed.

(** The members of a word array, as one ascending list. *)
Definition word_members (ws : list Z) : list Z :=
  List.filter (bit_at ws) (seqZ 0 (64 * zlen ws)).

Lemma seqZ_offset base n : (λ b, base + b) <$> seqZ 0 n = seqZ base n.
Proof. rewrite fmap_add_seqZ. f_equal. lia. Qed.

Lemma filter_fmap_shift (P : Z → bool) base l :
  List.filter P ((λ b, base + b) <$> l) = (λ b, base + b) <$> List.filter (λ b, P (base + b)) l.
Proof. induction l as [|x l IH]; cbn; [done|]. destruct (P (base + x)); cbn; by rewrite IH. Qed.

Lemma bit_at_app_l ws w o : 0 ≤ o < 64 * zlen ws → bit_at (ws ++ [w]) o = bit_at ws o.
Proof.
  intros Ho. unfold bit_at. rewrite shiftr6, zget_app_l; [done|].
  apply Z.div_lt_upper_bound; lia.
Qed.

Lemma bit_at_app_r ws w b : 0 ≤ b < 64 → bit_at (ws ++ [w]) (64 * zlen ws + b) = Z.testbit w b.
Proof.
  intros Hb. rewrite bit_at_split by done. rewrite zget_app_r by lia.
  by rewrite Z.sub_diag.
Qed.

Lemma word_members_snoc ws w :
  word_members (ws ++ [w]) = word_members ws ++ ((λ b, 64 * zlen ws + b) <$> set_bits w).
Proof.
  unfold word_members. pose proof (zlen_nonneg ws).
  rewrite zlen_app. replace (64 * (zlen ws + zlen [w])) with (64 * zlen ws + 64) by (rewrite zlen_cons, zlen_nil; lia).
  rewrite seqZ_app, List.filter_app by lia. f_equal.
  - apply filter_ext_elem. intros x Hx%elem_of_seqZ. apply bit_at_app_l. lia.
  - rewrite Z.add_0_l, <- (seqZ_offset (64 * zlen ws)), filter_fmap_shift. f_equal. unfold set_bits.
    apply filter_ext_elem. intros x Hx%elem_of_seqZ. apply bit_at_app_r. lia.
Qed.

Lemma iter_words ws sz :
  Forall (inU 64) ws → bitset_iter (mkBitset ws sz) = word_members ws.
Proof.
  intros Hws. unfold bitset_iter. cbn [words].
  induction ws as [|w ws IH] using rev_ind; [done|].
  apply Forall_app in Hws as [Hws Hw]. apply Forall_cons in Hw as [Hw _].
  rewrite word_members_snoc, imap_app, concat_app, IH by done. f_equal.
  cbn. rewrite app_nil_r, iter_word_spec by done.
  apply list_fmap_ext. intros _ x _. unfold zlen. lia.
Qed.

Lemma cardinality_words ws sz : cardinality (mkBitset ws sz) = zlen (word_members ws).
Proof.
  unfold cardinality. cbn [words]. induction ws as [|w ws IH] using rev_ind; [done|].
  rewrite word_members_snoc, zlen_app, zlen_fmap, <- IH, fmap_app, foldr_app.
  cbn. unfold count_ones. clear IH. induction ws as [|x ws IH]; cbn; lia.
Qed.

Lemma any_common_bit_true a b :
  Forall (inU 64) a → any_common_bit a b = true ↔ ∃ o, 0 ≤ o ∧ bit_at a o = true ∧ bit_at b o = true.
Proof.
  intros Ha. revert b. induction Ha as [|x a Hx Ha IH]; intros [|y b]; cbn [any_common_bit].
  1,2,3: split; [done|]; intros (o & Ho & H1 & H2); revert H1 H2; unfold bit_at, zget;
    rewrite shiftr6; destruct (0 <=? o / 64); cbn; try done; by rewrite lookup_nil.
  rewrite orb_true_iff, IH. split.
  - intros [H|(o & Ho & H1 & H2)].
    + apply negb_true_iff, Z.eqb_neq in H.
      assert (∃ k, 0 ≤ k < 64 ∧ Z.testbit (Z.land x y) k = true) as (k & Hk & Hb).
      { destruct (set_bits (Z.land x y)) as [|k r] eqn:E.
        - exfalso. apply H. apply set_bits_nil; [by apply inU_land_l|done].
        - exists k. apply elem_of_set_bits. rewrite E. set_solver. }
      rewrite Z.land_spec in Hb. apply andb_true_iff in Hb as [H1 H2].
      exists k. split; [lia|]. replace k with (64 * 0 + k) by lia.
      by rewrite !bit_at_split by lia.
    + exists (o + 64). split; [lia|]. revert H1 H2. unfold bit_at, zget.
      rewrite !shiftr6, !land63.
      replace ((o + 64) / 64) with (o / 64 + 1) by (Z.to_euclidean_division_equations; lia).
      replace ((o + 64) mod 64) with (o mod 64) by (Z.to_euclidean_division_equations; lia).
      assert (0 ≤ o / 64) by (by apply Z.div_pos).
      destruct (Z.leb_spec 0 (o / 64)), (Z.leb_spec 0 (o / 64 + 1)); try lia.
      replace (Z.to_nat (o / 64 + 1)) with (S (Z.to_nat (o / 64))) by lia. done.
  - intros (o & Ho & H1 & H2). destruct (Z.lt_ge_cases o 64).
    + left. replace o with (64 * 0 + o) in H1, H2 by lia.
      rewrite bit_at_split in H1, H2 by lia.
      change (Z.testbit x o = true) in H1. change (Z.testbit y o = true) in H2.
      apply negb_true_iff, Z.eqb_neq. intros E.
      assert (Z.testbit (Z.land x y) o = false) as E' by (rewrite E; apply Z.bits_0).
      rewrite Z.land_spec, H1, H2 in E'. done.
    + right. exists (o - 64). split; [lia|]. revert H1 H2. unfold bit_at, zget.
      rewrite !shiftr6, !land63.
      replace ((o - 64) / 64) with (o / 64 - 1) by (Z.to_euclidean_division_equations; lia).
      replace ((o - 64) mod 64) with (o mod 64) by (Z.to_euclidean_division_equations; lia).
      assert (1 ≤ o / 64) by (apply Z.div_le_lower_bound; lia).
      destruct (Z.leb_spec 0 (o / 64)), (Z.leb_spec 0 (o / 64 - 1)); try lia.
      replace (Z.to_nat (o / 64)) with (S (Z.to_nat (o / 64 - 1))) by lia. done.
Qed.

(** ** Lemmas: the constructors *)

Lemma word_count_mul n : 0 ≤ n → 64 * (word_count n - 1) < n ≤ 64 * word_count n ∨ (n = 0 ∧ word_count n = 0).
Proof. rewrite word_count_eq. intros Hn. Z.to_euclidean_division_equations. lia. Qed.

Lemma bit_at_replicate n o : bit_at (replicate n 0) o = false.
Proof.
  unfold bit_at, zget. destruct (_ <=? _); [|done].
  destruct (replicate n 0 !! _) as [w|] eqn:E; [|done].
  apply lookup_replicate in E as [-> _]. apply Z.bits_0.
Qed.

(** One iteration of [of] sets exactly one bit. *)
Lemma bitset_set_spec sz ws o :
  0 ≤ o < sz → sz ≤ 64 * zlen ws → Forall (inU 64) ws →
  ∃ ws', bitset_set sz ws o = Some ws' ∧ zlen ws' = zlen ws ∧ Forall (inU 64) ws' ∧
    ∀ i, 0 ≤ i → bit_at ws' i = (i =? o) || bit_at ws i.
Proof.
  intros Ho Hsz Hws. unfold bitset_set.
  destruct (Z.ltb_spec o sz); [|lia].
  assert (0 ≤ Z.shiftr o 6 < zlen ws) as Hi.
  { rewrite shiftr6. split; [apply Z.div_pos; lia|apply Z.div_lt_upper_bound; lia]. }
  destruct (zget_is_Some ws (Z.shiftr o 6) Hi) as [w Ew]. rewrite Ew. cbn.
  destruct (zset_is_Some ws (Z.shiftr o 6) (Z.lor w (Z.shiftl 1 (Z.land o 63))) Hi) as [ws' E'].
  assert (0 ≤ Z.land o 63 < 64) as Hb by (rewrite land63; apply Z.mod_pos_bound; lia).
  assert (inU 64 w) by (rewrite Forall_forall in Hws; by apply Hws, (zget_elem_of _ _ _ Ew)).
  exists ws'. split; [done|]. split; [by eapply zset_zlen|]. split.
  - unfold zset in E'. destruct (_ && _); [|done]. injection E' as <-.
    apply Forall_insert; [done|]. apply inU_lor; [done..|]. by apply inU_shiftl1.
  - intros i Hi0. unfold bit_at. rewrite (zset_zget _ _ _ _ _ E').
    case_decide as Hd.
    + rewrite <- Hd, Ew, Z.lor_spec, Z.shiftl_1_l, Z.pow2_bits_eqb by lia.
      rewrite orb_comm. f_equal. rewrite !shiftr6, !land63 in *.
      repeat zcase; try done; exfalso; Z.to_euclidean_division_equations; lia.
    + destruct (Z.eqb_spec i o) as [->|]; [done|]. done.
Qed.

Lemma bitset_set_all_spec sz ords ws :
  Forall (λ o, 0 ≤ o < sz) ords → sz ≤ 64 * zlen ws → Forall (inU 64) ws →
  ∃ ws', bitset_set_all sz ws ords = Some ws' ∧ zlen ws' = zlen ws ∧ Forall (inU 64) ws' ∧
    ∀ i, 0 ≤ i → bit_at ws' i = bool_decide (i ∈ ords) || bit_at ws i.
Proof.
  intros Hords. revert ws. induction Hords as [|o ords Ho Hords IH]; intros ws Hsz Hws; cbn.
  { exists ws. repeat split; try done. }
  destruct (bitset_set_spec sz ws o Ho Hsz Hws) as (ws1 & -> & Hl1 & Hw1 & Hb1). cbn.
  destruct (IH ws1) as (ws2 & -> & Hl2 & Hw2 & Hb2); [lia|done|].
  exists ws2. split; [done|]. split; [lia|]. split; [done|].
  intros i Hi. rewrite Hb2, Hb1 by done. rewrite orb_assoc. f_equal.
  destruct (Z.eqb_spec i o) as [->|]; repeat case_bool_decide; set_solver.
Qed.

Lemma bitset_wf_intro ws sz :
  0 ≤ sz → Forall (inU 64) ws → word_count sz ≤ zlen ws →
  (∀ o, 0 ≤ o → bit_at ws o = true → o < sz) → bitset_wf (mkBitset ws sz).
Proof. by split. Qed.

Lemma bitset_of_spec sz ords :
  0 ≤ sz → Forall (λ o, 0 ≤ o < sz) ords →
  ∃ b, bitset_of sz ords = Some b ∧ bitset_wf b ∧ size b = sz ∧
    ∀ i, 0 ≤ i → bit_at (words b) i = bool_decide (i ∈ ords).
Proof.
  intros Hsz Hords. unfold bitset_of. pose proof (word_count_mul sz Hsz).
  destruct (bitset_set_all_spec sz ords (replicate (Z.to_nat (Z.max (word_count sz) 1)) 0))
    as (ws & -> & Hl & Hw & Hb); [done| | |].
  { unfold zlen. rewrite length_replicate. lia. }
  { apply Forall_replicate. unfold inU; lia. }
  unfold zlen in Hl. rewrite length_replicate in Hl.
  exists (mkBitset ws sz). split; [done|]. cbn.
  assert (∀ i, 0 ≤ i → bit_at ws i = bool_decide (i ∈ ords)) as Hb'.
  { intros i Hi. by rewrite Hb, bit_at_replicate, orb_false_r. }
  split; [|done]. apply bitset_wf_intro; [done|done|unfold zlen; lia|].
  intros o Ho. rewrite Hb' by done. intros ?%bool_decide_eq_true.
  rewrite Forall_forall in Hords. by apply Hords.
Qed.

Lemma bit_at_take ws n o :
  0 ≤ o < 64 * Z.of_nat n → bit_at (take n ws ++ replicate (n - length ws) 0) o = bit_at ws o.
Proof.
  intros Ho. unfold bit_at, zget. rewrite shiftr6.
  assert (0 ≤ o / 64 < Z.of_nat n).
  { split; [apply Z.div_pos; lia|apply Z.div_lt_upper_bound; lia]. }
  destruct (0 <=? o / 64); [|done].
  destruct (decide (Z.to_nat (o / 64) < length ws)%nat).
  - rewrite lookup_app_l by (rewrite length_take; lia). by rewrite lookup_take_lt by lia.
  - rewrite (lookup_ge_None_2 ws) by lia. rewrite lookup_app_r by (rewrite length_take; lia).
    destruct (replicate _ _ !! _) as [w|] eqn:E; [|done].
    apply lookup_replicate in E as [-> _]. apply Z.bits_0.
Qed.

Lemma bit_at_mask ws j m o :
  0 ≤ o → 0 ≤ j → 0 ≤ m ≤ 64 →
  bit_at (alter (λ w, Z.land w (Z.shiftl 1 m - 1)) (Z.to_nat j) ws) o =
  bit_at ws o && ((negb (o / 64 =? j)) || (o mod 64 <? m)).
Proof.
  intros Ho Hj Hm. unfold bit_at, zget. rewrite shiftr6, land63.
  assert (0 ≤ o / 64) by (by apply Z.div_pos).
  assert (0 ≤ o mod 64 < 64) by (by apply Z.mod_pos_bound).
  destruct (Z.leb_spec 0 (o / 64)); [|lia].
  rewrite list_lookup_alter. case_decide as Hd.
  - destruct (Z.eqb_spec (o / 64) j); [|lia]. cbn [negb orb].
    rewrite ?Hd. destruct (ws !! Z.to_nat (o / 64)) as [w|]; cbn; [|done].
    rewrite Z.land_spec. f_equal. rewrite Z.shiftl_1_l. replace (2 ^ m - 1) with (Z.ones m) by (rewrite Z.ones_equiv; lia).
    rewrite Z.testbit_ones_nonneg by lia. done.
  - destruct (Z.eqb_spec (o / 64) j); [lia|]. cbn [negb orb]. by rewrite andb_true_r.
Qed.

Lemma vec_resize_words n ws :
  Forall (inU 64) ws → Forall (inU 64) (vec_resize n ws).
Proof.
  intros H. unfold vec_resize. apply Forall_app. split; [by apply Forall_take|].
  apply Forall_replicate. unfold inU; lia.
Qed.

Lemma zlen_vec_resize n ws : 0 ≤ n → zlen (vec_resize n ws) = n.
Proof. intros H. unfold vec_resize, zlen. rewrite length_app, length_take, length_replicate. lia. Qed.

Lemma bit_at_beyond ws o : 64 * zlen ws ≤ o → bit_at ws o = false.
Proof.
  intros H. unfold bit_at, zget. rewrite shiftr6. destruct (0 <=? o / 64); [|done].
  rewrite lookup_ge_None_2; [done|]. assert (zlen ws ≤ o / 64) by (apply Z.div_le_lower_bound; lia).
  unfold zlen in *. lia.
Qed.

Lemma bitset_from_words_spec sz ws :
  0 ≤ sz → Forall (inU 64) ws →
  bitset_wf (bitset_from_words sz ws) ∧
  ∀ i, 0 ≤ i → bit_at (words (bitset_from_words sz ws)) i = bit_at ws i && (i <? sz).
Proof.
  intros Hsz Hws. unfold bitset_from_words.
  pose proof (word_count_mul sz Hsz) as Hn. set (n := word_count sz) in *.
  assert (0 ≤ n) as Hn0 by lia.
  pose proof (vec_resize_words n ws Hws) as Hw.
  pose proof (zlen_vec_resize n ws Hn0) as Hl.
  assert (∀ i, 0 ≤ i < 64 * n → bit_at (vec_resize n ws) i = bit_at ws i) as Hb.
  { intros i Hi. apply bit_at_take. lia. }
  assert (∀ ws', Forall (inU 64) ws' → zlen ws' = n →
    (∀ i, 0 ≤ i → bit_at ws' i = bit_at ws i && (i <? sz)) →
    bitset_wf (mkBitset ws' sz) ∧
    ∀ i, 0 ≤ i → bit_at (words (mkBitset ws' sz)) i = bit_at ws i && (i <? sz)) as Hdone.
  { intros ws' ? ? Hbits. split; [|done]. apply bitset_wf_intro; [done|done|lia|].
    intros o Ho. rewrite Hbits by done. intros ?. zify_bools. lia. }
  assert (∀ i, 0 ≤ i → i < 64 * n → sz = 64 * n →
    bit_at (vec_resize n ws) i = bit_at ws i && (i <? sz)) as Hfull.
  { intros i Hi Hi' E. rewrite Hb by lia. destruct (Z.ltb_spec i sz); [by rewrite andb_true_r|lia]. }
  apply Hdone.
  - repeat zcase; [|done|done]. apply Forall_alter; [done|].
    intros w _ Hw'. by apply inU_land_l.
  - repeat zcase; [|done|done]. unfold zlen. by rewrite length_alter.
  - intros i Hi. destruct (Z.ltb_spec 0 n) as [Hp|Hp].
    + destruct (Z.ltb_spec (sz - (n - 1) * 64) 64).
      * rewrite bit_at_mask by lia. destruct (Z.lt_ge_cases i (64 * n)) as [Hin|Hout].
        -- rewrite Hb by lia. f_equal. repeat zcase; cbn; try done;
             exfalso; Z.to_euclidean_division_equations; lia.
        -- rewrite (bit_at_beyond (vec_resize n ws)) by lia.
           destruct (Z.ltb_spec i sz); [lia|]. by rewrite andb_false_r.
      * destruct (Z.lt_ge_cases i (64 * n)); [by apply Hfull; lia|].
        rewrite (bit_at_beyond (vec_resize n ws)) by lia.
        destruct (Z.ltb_spec i sz); [lia|]. by rewrite andb_false_r.
    + rewrite (bit_at_beyond (vec_resize n ws)) by lia.
      destruct (Z.ltb_spec i sz); [lia|]. by rewrite andb_false_r.
Qed.

(** ** Lemmas: the views of a well-formed bitset *)

Lemma bit_at_bounds b o : bitset_wf b → bit_at (words b) o = true → 0 ≤ o → o < size b ∧ o < 64 * zlen (words b).
Proof.
  intros Hwf Hb Ho. split; [by eapply wf_bits|].
  destruct (Z.lt_ge_cases o (64 * zlen (words b))); [done|]. by rewrite bit_at_beyond in Hb.
Qed.

Lemma bitset_iter_wf b :
  bitset_wf b → bitset_iter b = List.filter (bit_at (words b)) (seqZ 0 (size b)).
Proof.
  intros Hwf. destruct b as [ws sz]. rewrite iter_words by (by destruct Hwf).
  unfold word_members. cbn [words size].
  pose proof (wf_count _ Hwf) as Hc. pose proof (wf_size _ Hwf) as Hs. cbn in Hc, Hs.
  pose proof (word_count_mul sz Hs).
  replace (64 * zlen ws) with (sz + (64 * zlen ws - sz)) by lia.
  rewrite seqZ_app, List.filter_app by lia.
  rewrite (filter_none _ (seqZ (0 + sz) _)); [by rewrite app_nil_r|].
  intros x Hx%elem_of_seqZ. destruct (bit_at ws x) eqn:E; [|done].
  apply (wf_bits _ Hwf) in E; cbn in *; lia.
Qed.

Lemma elem_of_bitset_iter b o :
  bitset_wf b → o ∈ bitset_iter b ↔ 0 ≤ o ∧ bit_at (words b) o = true.
Proof.
  intros Hwf. rewrite bitset_iter_wf, elem_of_filter_bool, elem_of_seqZ_0 by done.
  split; [naive_solver lia|]. intros [Ho Hb]. split; [done|].
  split; [done|]. by apply (wf_bits _ Hwf).
Qed.

Lemma bitset_contains_bit b o :
  bitset_wf b → 0 ≤ o → bitset_contains b o = Some (bit_at (words b) o).
Proof.
  intros Hwf Ho. unfold bitset_contains.
  destruct (Z.ltb_spec o (size b)) as [Hlt|Hge].
  - assert (0 ≤ Z.shiftr o 6 < zlen (words b)) as Hi.
    { pose proof (wf_count _ Hwf) as Hc. pose proof (word_count_mul _ (wf_size _ Hwf)).
      rewrite shiftr6. split; [apply Z.div_pos; lia|apply Z.div_lt_upper_bound; lia]. }
    destruct (zget_is_Some _ _ Hi) as [w Ew]. unfold bit_at. rewrite Ew. cbn. f_equal.
    rewrite Z.shiftl_1_l, land_pow2_testbit; [apply negb_involutive|].
    rewrite land63. by apply Z.mod_pos_bound.
  - f_equal. symmetry. destruct (bit_at (words b) o) eqn:E; [|done].
    apply (wf_bits _ Hwf) in E; lia.
Qed.

(** [of] rejects an ordinal at or past the size (the assertion of the code). *)
Lemma bitset_set_all_reject sz ords ws : Exists (λ o, sz ≤ o) ords → bitset_set_all sz ws ords = None.
Proof.
  intros H. revert ws. induction H as [o ords Ho|o ords _ IH]; intros ws; cbn; unfold bitset_set.
  - by destruct (Z.ltb_spec o sz); [lia|].
  - destruct (o <? sz); cbn; [|done]. destruct (zget ws _); cbn; [|done].
    destruct (zset ws _ _); cbn; auto.
Qed.

(** ** Properties *)

(** Every constructed bitset is well formed and holds exactly the ordinals it was
    built from: [TargetBitset::of] panics exactly when an ordinal is not below the
    size, and [from_words] keeps the bits of its input below the size and no other. *)
Theorem bitset_constructors_exact sz ords ws :
  0 ≤ sz → Forall (λ o, 0 ≤ o) ords → Forall (inU 64) ws →
  (bitset_of sz ords = None ↔ ∃ o, o ∈ ords ∧ sz ≤ o) ∧
  (∀ b, bitset_of sz ords = Some b →
     bitset_wf b ∧ ∀ o, 0 ≤ o → bitset_contains b o = Some (bool_decide (o ∈ ords))) ∧
  bitset_wf (bitset_from_words sz ws) ∧
  ∀ o, 0 ≤ o → bitset_contains (bitset_from_words sz ws) o = Some (bit_at ws o && (o <? sz)).
Proof.
  intros Hsz Hords Hws.
  destruct (bitset_from_words_spec sz ws Hsz Hws) as [Hwf Hbits].
  assert (∀ o, 0 ≤ o → bitset_contains (bitset_from_words sz ws) o = Some (bit_at ws o && (o <? sz)))
    by (intros o Ho; rewrite bitset_contains_bit, Hbits by done; done).
  destruct (decide (Forall (λ o, 0 ≤ o < sz) ords)) as [Hin|Hout].
  - destruct (bitset_of_spec sz ords Hsz Hin) as (b & Hb & Hbwf & Hbs & Hbb).
    rewrite Hb. split; [|split; [|done]].
    + split; [done|]. intros (o & Ho & Hle). rewrite Forall_forall in Hin.
      specialize (Hin o Ho). lia.
    + intros b' [= <-]. split; [done|]. intros o Ho. by rewrite bitset_contains_bit, Hbb.
  - assert (Exists (λ o, sz ≤ o) ords) as Hex.
    { apply not_Forall_Exists in Hout; [|apply _]. rewrite Exists_exists in Hout |- *.
      destruct Hout as (o & Ho & Hn). exists o. rewrite Forall_forall in Hords.
      specialize (Hords o Ho). cbn in Hn. split; [done|lia]. }
    unfold bitset_of. rewrite bitset_set_all_reject by done. cbn.
    split; [|split; [done|done]]. split; [|done]. intros _. by apply Exists_exists in Hex.
Qed.

Lemma bitset_constructors_exact_witness :
  bitset_of 130 [0; 64; 129] ≠ None ∧ bitset_of 4 [4] = None ∧
  bitset_contains (bitset_from_words 1 [2 ^ 64 - 1]) 0 = Some true.
Proof.
  pose proof (bitset_constructors_exact 4 [4] [2 ^ 64 - 1]) as H.
  split; [vm_compute; discriminate|].
  split; [|reflexivity].
  apply H; [lia|repeat constructor; lia|repeat constructor; lia|].
  exists 4. split; [set_solver|lia].
Defined.

(** The four views of a well-formed bitset agree: [contains] never indexes out of
    range and answers membership in the enumeration of [iter], [iter] is strictly
    ascending, [cardinality] counts it, and [intersects] holds exactly when two
    bitsets share a member. *)
Theorem bitset_views_agree a b :
  bitset_wf a → bitset_wf b →
  (∀ o, 0 ≤ o → bitset_contains a o = Some (bool_decide (o ∈ bitset_iter a))) ∧
  bitset_iter a = List.filter (λ o, bool_decide (bitset_contains a o = Some true)) (seqZ 0 (size a)) ∧
  cardinality a = zlen (bitset_iter a) ∧
  (intersects a b = true ↔ ∃ o, o ∈ bitset_iter a ∧ o ∈ bitset_iter b).
Proof.
  intros Ha Hb.
  assert (∀ o, 0 ≤ o → bitset_contains a o = Some (bool_decide (o ∈ bitset_iter a))) as Hc.
  { intros o Ho. rewrite bitset_contains_bit by done. f_equal.
    destruct (bit_at (words a) o) eqn:E; symmetry.
    - apply bool_decide_eq_true. by apply elem_of_bitset_iter.
    - apply bool_decide_eq_false. intros Hin%elem_of_bitset_iter; [|done]. naive_solver congruence. }
  split; [done|]. split; [|split].
  - rewrite bitset_iter_wf at 1 by done. apply filter_ext_elem.
    intros x Hx%elem_of_seqZ_0. rewrite bitset_contains_bit by (done || lia).
    by destruct (bit_at (words a) x).
  - destruct a as [ws sz]. rewrite cardinality_words, iter_words; [done|by destruct Ha].
  - unfold intersects, intersects_words. rewrite any_common_bit_true by (by destruct Ha).
    setoid_rewrite elem_of_bitset_iter; [|done..]. naive_solver.
Qed.

Lemma bitset_views_agree_witness :
  ∃ a, bitset_of 200 [3; 64; 199; 3] = Some a ∧ bitset_iter a = [3; 64; 199] ∧
    cardinality a = zlen (bitset_iter a).
Proof.
  destruct (bitset_of 200 [3; 64; 199; 3]) as [a|] eqn:E; [|exfalso; vm_compute in E; discriminate].
  exists a. split; [reflexivity|]. split; [vm_compute in E; injection E as <-; vm_compute; reflexivity|].
  apply (bitset_views_agree a a).
  - destruct (bitset_of_spec 200 [3; 64; 199; 3]) as (a' & E' & Hwf & _);
      [lia|repeat constructor; lia|]. congruence.
  - destruct (bitset_of_spec 200 [3; 64; 199; 3]) as (a' & E' & Hwf & _);
      [lia|repeat constructor; lia|]. congruence.
Defined.
