(* ===== verification/Uri.v ===== *)
(** * [file://] URIs and paths (crate [ls-index-model], [uri.rs])

    A path is the string Rust holds (the code only ever sees UTF-8 paths);
    [std::path::Path::components] and the [PathBuf] that [normalize] builds by pushing
    and popping components are modelled as lists of components. *)

From S2P Require Import Prelude RustStr.

Open Scope Z_scope.

(** ** [std::path] *)

Inductive Component :=
| RootDir
| CurDir
| ParentDir
| Normal (s : list Z).
#[global] Instance Component_eq_dec : EqDecision Component.
Proof. solve_decision. Defined.

Definition component_of (seg : list Z) : Component :=
  if str_eqb seg (lit "..") then ParentDir else Normal seg.

(** [Path::components]: empty and [.] segments are skipped, except a leading [.] of a
    relative path. *)
Definition path_components (p : list Z) : list Component :=
  let segs := split_on (ch "/") p in
  let keep := List.filter (λ s, negb (str_eqb s []) && negb (str_eqb s (lit "."))) segs in
  let body := component_of <$> keep in
  if starts_with (lit "/") p then RootDir :: body
  else match segs with
       | first :: _ => if str_eqb first (lit ".") then CurDir :: body else body
       | [] => body
       end.

Definition component_str (c : Component) : list Z :=
  match c with
  | RootDir => lit "/"
  | CurDir => lit "."
  | ParentDir => lit ".."
  | Normal s => s
  end.

(** The string of a [PathBuf] built by pushing components. *)
Definition path_str (l : list Component) : list Z :=
  match l with
  | RootDir :: l => lit "/" ++ join (lit "/") (component_str <$> l)
  | _ => join (lit "/") (component_str <$> l)
  end.

(** [PathBuf::pop]: the root has no parent. *)
Definition path_pop (l : list Component) : list Component :=
  match rev l with
  | RootDir :: _ | [] => l
  | _ :: r => rev r
  end.

(** [PathBuf::push] of a component: the root replaces the buffer. *)
Definition path_push (l : list Component) (c : Component) : list Component :=
  match c with RootDir => [RootDir] | _ => l ++ [c] end.

(** ** The functions of [uri.rs] *)

(** [normalize] *)
Definition normalize_step (out : list Component) (comp : Component) : list Component :=
  match comp with
  | ParentDir => path_pop out
  | CurDir => out
  | other => path_push out other
  end.
Definition normalize_components (l : list Component) : list Component :=
  foldl normalize_step [] l.
Definition normalize (path : list Z) : list Z :=
  path_str (normalize_components (path_components path)).

(** [is_unreserved] *)
Definition is_unreserved (b : Z) : bool :=
  ascii_alphanumeric b || existsb (Z.eqb b) (lit "-_.~/").

(** [HEX[n]] *)
Definition HEX (n : Z) : Z := if n <? 10 then 48 + n else 55 + n.

Definition encode_byte (b : byte) : list Z :=
  let v := byte_val b in
  if is_unreserved v then [v]
  else [ch "%"; HEX (Z.shiftr v 4); HEX (Z.land v 15)].

(** [path_to_uri] *)
Definition path_to_uri (path : list Z) : list Z :=
  lit "file://" ++ concat (encode_byte <$> as_bytes path).

Inductive UriError :=
| NotFileUri | NonEmptyAuthority | NoPath | TruncatedEscape | BadEscape | BadUtf8.

(** [hex_val] *)
Definition hex_val (b : Z) : option Z :=
  if (48 <=? b) && (b <=? 57) then Some (b - 48)
  else if (97 <=? b) && (b <=? 102) then Some (b - 97 + 10)
  else if (65 <=? b) && (b <=? 70) then Some (b - 65 + 10)
  else None.

(** [percent_decode] over the bytes of its argument. *)
Fixpoint percent_decode (bs : bytes) : result UriError bytes :=
  match bs with
  | [] => Ok []
  | b :: rest =>
      if byte_val b =? 37 then
        match rest with
        | h :: l :: rest' =>
            hi ← ok_or (hex_val (byte_val h)) BadEscape;
            lo ← ok_or (hex_val (byte_val l)) BadEscape;
            out ← percent_decode rest';
            Ok (byte_of (Z.lor (Z.shiftl hi 4) lo) :: out)
        | _ => Err TruncatedEscape
        end
      else out ← percent_decode rest; Ok (b :: out)
  end.

(** [str::find] of a char: its index in chars (0 exactly when it is 0 in bytes). *)
Fixpoint find_char (c : Z) (s : list Z) : option nat :=
  match s with
  | [] => None
  | x :: s => if x =? c then Some 0%nat else S <$> find_char c s
  end.

(** [uri_to_path] *)
Definition uri_to_path (uri : list Z) : result UriError (list Z) :=
  rest ← ok_or (strip_prefix (lit "file:") uri) NotFileUri;
  path_part ←
    match strip_prefix (lit "//") rest with
    | Some after_authority =>
        match find_char (ch "/") after_authority with
        | Some O => Ok after_authority
        | Some _ => Err NonEmptyAuthority
        | None => Err NoPath
        end
    | None => if starts_with (lit "/") rest then Ok rest else Err NoPath
    end;
  decoded ← percent_decode (as_bytes path_part);
  ok_or (from_utf8 decoded) BadUtf8.

(** [has_nonempty_authority] *)
Definition has_nonempty_authority (uri : list Z) : bool :=
  match strip_prefix (lit "file://") uri with
  | Some rest =>
      match split_on (ch "/") rest with
      | authority :: _ => negb (str_eqb authority [])
      | [] => false
      end
  | None => false
  end.

(** [normalize_uri] *)
Definition normalize_uri (uri : list Z) : list Z :=
  if has_nonempty_authority uri then uri
  else match uri_to_path uri with
       | Ok path => path_to_uri (normalize path)
       | Err _ => uri
       end.

(** ** Lemmas: percent encoding *)

Lemma hex_val_HEX n : 0 ≤ n < 16 → hex_val (HEX n) = Some n.
Proof.
  intros Hn. unfold hex_val, HEX. destruct (Z.ltb_spec n 10).
  - destruct (Z.leb_spec 48 (48 + n)), (Z.leb_spec (48 + n) 57); cbn; try lia. f_equal. lia.
  - destruct (Z.leb_spec 48 (55 + n)), (Z.leb_spec (55 + n) 57); cbn; try lia.
    destruct (Z.leb_spec 97 (55 + n)); cbn; try lia.
    destruct (Z.leb_spec 65 (55 + n)), (Z.leb_spec (55 + n) 70); cbn; try lia. f_equal. lia.
Qed.

Lemma HEX_ascii n : 0 ≤ n < 16 → 0 ≤ HEX n < 128.
Proof. unfold HEX. zcase; lia. Qed.

Lemma is_unreserved_ascii b : 0 ≤ b → is_unreserved b = true → b < 128 ∧ b ≠ 37.
Proof.
  intros Hb. unfold is_unreserved, ascii_alphanumeric, ascii_alpha, ascii_upper, ascii_lower, ascii_digit.
  intros H. destruct (Z.lt_ge_cases b 128) as [|Hge].
  - split; [done|]. intros ->. done.
  - exfalso. cbn in H. repeat match type of H with context [?a <=? ?b] => destruct (Z.leb_spec a b); try lia end.
    repeat match type of H with context [b =? ?c] => destruct (Z.eqb_spec b c); try lia end.
Qed.

Definition ascii_str (s : list Z) : Prop := Forall (λ c, 0 ≤ c < 128) s.

Lemma as_bytes_ascii s : ascii_str s → as_bytes s = byte_of <$> s.
Proof.
  unfold as_bytes, str_units. intros Hs. f_equal. induction Hs as [|c s Hc Hs IH]; cbn; [done|].
  unfold utf8_units at 1. destruct (Z.ltb_spec c 128); [|lia]. cbn. f_equal. exact IH.
Qed.

Lemma encode_byte_ascii b : ascii_str (encode_byte b).
Proof.
  unfold encode_byte. pose proof (byte_val_range b).
  destruct (is_unreserved _) eqn:E.
  - apply is_unreserved_ascii in E; [|lia]. apply Forall_cons. split; [lia|constructor].
  - assert (0 ≤ Z.shiftr (byte_val b) 4 < 16)
      by (rewrite Z.shiftr_div_pow2 by lia; Z.to_euclidean_division_equations; lia).
    assert (0 ≤ Z.land (byte_val b) 15 < 16)
      by (rewrite (Z.land_ones _ 4) by lia; apply Z.mod_pos_bound; lia).
    apply Forall_cons. split; [by vm_compute|].
    apply Forall_cons. split; [by apply HEX_ascii|].
    apply Forall_cons. split; [by apply HEX_ascii|constructor].
Qed.

Lemma ascii_str_concat l : Forall ascii_str l → ascii_str (concat l).
Proof. intros H. by apply Forall_concat. Qed.

Lemma encode_bytes_ascii bs : ascii_str (concat (encode_byte <$> bs)).
Proof. apply ascii_str_concat, Forall_fmap, Forall_true. intros. apply encode_byte_ascii. Qed.

Lemma percent_decode_encode_byte b rest :
  percent_decode ((byte_of <$> encode_byte b) ++ rest) =
  out ← percent_decode rest; Ok (b :: out).
Proof.
  unfold encode_byte. pose proof (byte_val_range b) as Hb.
  destruct (is_unreserved (byte_val b)) eqn:E.
  - apply is_unreserved_ascii in E as [? ?]; [|lia]. cbn [fmap list_fmap app percent_decode].
    rewrite byte_val_of, Z.mod_small, byte_of_val by lia.
    by destruct (Z.eqb_spec (byte_val b) 37).
  - set (hi := Z.shiftr (byte_val b) 4). set (lo := Z.land (byte_val b) 15).
    assert (0 ≤ hi < 16 ∧ 0 ≤ lo < 16 ∧ hi * 16 + lo = byte_val b) as (Hhi & Hlo & Heq).
    { unfold hi, lo. rewrite Z.shiftr_div_pow2, (Z.land_ones _ 4) by lia.
      change (2 ^ 4) with 16. Z.to_euclidean_division_equations. lia. }
    pose proof (HEX_ascii hi Hhi). pose proof (HEX_ascii lo Hlo).
    cbn [fmap list_fmap app percent_decode].
    rewrite !byte_val_of, (Z.mod_small (HEX hi)), (Z.mod_small (HEX lo)) by lia.
    rewrite !hex_val_HEX by done.
    change (ch "%" mod 256 =? 37) with true. cbn [ok_or mbind result_bind].
    assert (byte_of (Z.lor (Z.shiftl hi 4) lo) = b) as ->; [|done].
    rewrite lor_shiftl_add by lia. change (2 ^ 4) with 16. by rewrite Heq, byte_of_val.
Qed.

Lemma percent_decode_encode bs :
  percent_decode (byte_of <$> concat (encode_byte <$> bs)) = Ok bs.
Proof.
  induction bs as [|b bs IH]; [done|].
  cbn [fmap list_fmap concat]. rewrite fmap_app, percent_decode_encode_byte.
  cbn [fmap list_fmap] in IH. rewrite IH. done.
Qed.

Lemma find_char_head c s : find_char c (c :: s) = Some 0%nat.
Proof. cbn. by rewrite Z.eqb_refl. Qed.

(** Decoding a URI whose path part is [s], in either accepted spelling. *)
Lemma uri_to_path_authority s :
  uri_to_path (lit "file://" ++ ch "/" :: s) =
  (decoded ← percent_decode (as_bytes (ch "/" :: s)); ok_or (from_utf8 decoded) BadUtf8).
Proof.
  unfold uri_to_path. change (lit "file://") with (lit "file:" ++ lit "//").
  rewrite <- app_assoc, (proj2 (strip_prefix_Some _ _ _) eq_refl). cbn [ok_or mbind result_bind].
  by rewrite (proj2 (strip_prefix_Some _ _ _) eq_refl), find_char_head.
Qed.

Lemma path_to_uri_absolute p :
  path_to_uri (ch "/" :: p) = lit "file://" ++ ch "/" :: concat (encode_byte <$> as_bytes p).
Proof. unfold path_to_uri. change (ch "/" :: p) with ([ch "/"] ++ p). rewrite as_bytes_app. done. Qed.

Lemma uri_to_path_path_to_uri p :
  wf_str (ch "/" :: p) → uri_to_path (path_to_uri (ch "/" :: p)) = Ok (ch "/" :: p).
Proof.
  intros Hp. rewrite path_to_uri_absolute, uri_to_path_authority.
  assert (ch "/" :: concat (encode_byte <$> as_bytes p) =
          concat (encode_byte <$> as_bytes (ch "/" :: p))) as ->.
  { change (ch "/" :: p) with ([ch "/"] ++ p). by rewrite as_bytes_app. }
  rewrite as_bytes_ascii by apply encode_bytes_ascii.
  rewrite percent_decode_encode. cbn [mbind result_bind]. by rewrite from_utf8_as_bytes.
Qed.

(** ** Lemmas: path normalization *)

Definition good_segment (s : list Z) : Prop :=
  s ≠ [] ∧ s ≠ lit "." ∧ s ≠ lit ".." ∧ (ch "/" ∉ s) ∧ wf_str s.

(** A normalized absolute path: the root and ordinary segments. *)
Definition normal_abs (l : list Component) : Prop :=
  ∃ segs, l = (RootDir :: (Normal <$> segs)) ∧ Forall good_segment segs.

Lemma slash_scalar : is_scalar (ch "/").
Proof. refine (bool_decide_unpack _ _). vm_compute. exact I. Qed.

Lemma split_on_no_sep c s x : x ∈ split_on c s → c ∉ x.
Proof.
  revert x. induction s as [|y s IH]; intros x; cbn.
  { intros ->%list_elem_of_singleton. apply not_elem_of_nil. }
  destruct (Z.eqb_spec y c) as [->|Hne].
  - intros [->|H]%elem_of_cons; [apply not_elem_of_nil|by apply IH].
  - destruct (split_on c s) as [|z l].
    + intros ->%list_elem_of_singleton. rewrite list_elem_of_singleton. congruence.
    + intros [->|H]%elem_of_cons; [|apply IH; set_solver].
      rewrite not_elem_of_cons. split; [congruence|]. apply IH. set_solver.
Qed.

Lemma split_on_wf c s x : wf_str s → x ∈ split_on c s → wf_str x.
Proof.
  intros Hs. revert x. induction Hs as [|y s Hy Hs IH]; intros x; cbn.
  { intros ->%list_elem_of_singleton. constructor. }
  destruct (Z.eqb_spec y c) as [->|Hne].
  - intros [->|H]%elem_of_cons; [constructor|by apply IH].
  - destruct (split_on c s) as [|z l].
    + intros ->%list_elem_of_singleton. apply Forall_cons. split; [done|constructor].
    + intros [->|H]%elem_of_cons; [|apply IH; set_solver].
      constructor; [done|]. apply IH. set_solver.
Qed.

Lemma split_on_app_sep c s t : c ∉ s → split_on c (s ++ c :: t) = s :: split_on c t.
Proof.
  induction s as [|x s IH]; cbn; [by rewrite Z.eqb_refl|].
  rewrite not_elem_of_cons. intros [Hne Hs]. destruct (Z.eqb_spec x c); [congruence|].
  by rewrite IH.
Qed.

Lemma split_on_none c s : c ∉ s → split_on c s = [s].
Proof.
  induction s as [|x s IH]; cbn; [done|].
  rewrite not_elem_of_cons. intros [Hne Hs]. destruct (Z.eqb_spec x c); [congruence|].
  by rewrite IH.
Qed.

Lemma split_on_join c segs :
  segs ≠ [] → Forall (λ s, c ∉ s) segs → split_on c (join [c] segs) = segs.
Proof.
  intros Hne Hs. induction Hs as [|s segs Hs Hsegs IH]; [done|].
  destruct segs as [|t segs]; cbn [join]; [by apply split_on_none|].
  change ([c] ++ ?r) with (c :: r). rewrite split_on_app_sep by done. f_equal. by apply IH.
Qed.

Lemma path_components_absolute p :
  path_components (ch "/" :: p) =
  RootDir :: (component_of <$>
    List.filter (λ s, negb (str_eqb s []) && negb (str_eqb s (lit "."))) (split_on (ch "/") p)).
Proof. reflexivity. Qed.

Lemma normalize_step_normal l c :
  normal_abs l →
  (c = ParentDir ∨ ∃ s, c = Normal s ∧ good_segment s) →
  normal_abs (normalize_step l c).
Proof.
  intros (segs & -> & Hs) [->|(s & -> & Hg)]; cbn [normalize_step].
  - unfold path_pop. cbn [rev]. destruct segs as [|x segs _] using rev_ind; cbn.
    { by exists []. }
    rewrite fmap_app, rev_app_distr. cbn. exists segs.
    rewrite rev_app_distr, rev_involutive. cbn. split; [done|].
    by apply Forall_app in Hs as [? _].
  - exists (segs ++ [s]). cbn. rewrite fmap_app. split; [done|].
    apply Forall_app. split; [done|]. by constructor.
Qed.

Lemma normalize_components_abs p :
  wf_str p → normal_abs (normalize_components (path_components (ch "/" :: p))).
Proof.
  intros Hwf. rewrite path_components_absolute. unfold normalize_components. cbn [foldl].
  assert (Forall (λ s, (s ≠ [] ∧ s ≠ lit ".") ∧ (ch "/" ∉ s) ∧ wf_str s)
    (List.filter (λ s, negb (str_eqb s []) && negb (str_eqb s (lit "."))) (split_on (ch "/") p))) as H.
  { apply Forall_forall. intros s Hin%list_elem_of_In. apply filter_In in Hin as [Hin Hb].
    apply list_elem_of_In in Hin. apply andb_true_iff in Hb as [Hb1 Hb2].
    apply negb_true_iff in Hb1, Hb2.
    assert (∀ t, str_eqb s t = false → s ≠ t) as Hd.
    { intros t Ht ->. by rewrite (proj2 (str_eqb_true t t)) in Ht. }
    split; [split; by apply Hd|]. split; [by eapply split_on_no_sep|by eapply split_on_wf]. }
  revert H. generalize (List.filter (λ s, negb (str_eqb s []) && negb (str_eqb s (lit "."))) (split_on (ch "/") p)).
  intros l Hl. assert (normal_abs (normalize_step [] RootDir)) as H0 by (by exists []).
  revert H0. generalize (normalize_step [] RootDir).
  induction Hl as [|s l ((Hs1 & Hs2) & Hs3 & Hs4) Hl IH]; intros out Hout; cbn; [done|].
  apply IH, normalize_step_normal; [done|]. unfold component_of.
  destruct (str_eqb s (lit "..")) eqn:E; [by left|]. right. exists s. split; [done|].
  repeat split; try done. intros ->. by rewrite (proj2 (str_eqb_true _ _) eq_refl) in E.
Qed.

Lemma normal_abs_fixpoint l : normal_abs l → normalize_components l = l.
Proof.
  intros (segs & -> & _). unfold normalize_components. cbn [foldl].
  change (RootDir :: (Normal <$> segs)) with ([RootDir] ++ (Normal <$> segs)).
  change (normalize_step [] RootDir) with [RootDir]. generalize [RootDir].
  induction segs as [|s segs IH]; intros out; cbn; [by rewrite app_nil_r|].
  rewrite IH. by rewrite <- app_assoc.
Qed.

Lemma component_str_normals (segs : list (list Z)) : component_str <$> (Normal <$> segs) = segs.
Proof. rewrite <- list_fmap_compose. apply list_fmap_id. Qed.

Lemma path_components_path_str l : normal_abs l → path_components (path_str l) = l.
Proof.
  intros (segs & -> & Hs). cbn [path_str]. rewrite component_str_normals.
  change (lit "/" ++ join (lit "/") segs) with (ch "/" :: join [ch "/"] segs).
  rewrite path_components_absolute. f_equal.
  destruct segs as [|s0 segs0]; [reflexivity|].
  rewrite split_on_join; [|done|eapply Forall_impl; [exact Hs|]; intros s (?&?&?&?&?); done].
  induction Hs as [|s segs (H1&H2&H3&H4&H5) Hsegs IH]; [done|]. cbn [List.filter].
  assert (∀ t, s ≠ t → str_eqb s t = false) as Hf.
  { intros t Ht. destruct (str_eqb s t) eqn:E; [|done]. by apply str_eqb_true in E. }
  rewrite !Hf by done. cbn [negb andb fmap list_fmap]. rewrite IH. unfold component_of.
  by rewrite Hf.
Qed.

Lemma path_str_normal_abs l :
  normal_abs l → ∃ p, path_str l = ch "/" :: p ∧ wf_str (ch "/" :: p).
Proof.
  intros (segs & -> & Hs). cbn [path_str]. rewrite component_str_normals.
  exists (join (lit "/") segs). split; [done|]. apply Forall_cons. split; [exact slash_scalar|].
  induction Hs as [|s segs (?&?&?&?&?) Hsegs IH]; cbn; [constructor|].
  destruct segs; [done|]. apply Forall_app. split; [done|]. apply Forall_cons. split; [exact slash_scalar|done].
Qed.

Lemma uri_to_path_absolute u p :
  uri_to_path u = Ok p → ∃ p', p = ch "/" :: p' ∧ wf_str p.
Proof.
  unfold uri_to_path. intros H.
  destruct (strip_prefix (lit "file:") u) as [rest|]; cbn [ok_or mbind result_bind] in H; [|done].
  assert (∀ q, (decoded ← percent_decode (as_bytes (ch "/" :: q)); ok_or (from_utf8 decoded) BadUtf8) = Ok p →
    ∃ p', p = ch "/" :: p' ∧ wf_str p) as Hq.
  { intros q Hd. change (ch "/" :: q) with ([ch "/"] ++ q) in Hd. rewrite as_bytes_app in Hd.
    change (as_bytes [ch "/"]) with [x2f] in Hd. cbn [app percent_decode] in Hd.
    change (byte_val x2f =? 37) with false in Hd. cbn iota in Hd.
    destruct (percent_decode (as_bytes q)) as [out|]; cbn [mbind result_bind] in Hd; [|done].
    unfold ok_or in Hd. destruct (from_utf8 (x2f :: out)) as [s|] eqn:E; [|done].
    injection Hd as ->. pose proof (from_utf8_sound _ _ E) as [Hwf _].
    split_and?. unfold from_utf8 in E. cbn in E.
    change (utf8_step (byte_val x2f) (byte_val <$> out)) with (Some 47, 1%nat) in E. cbn in E.
    destruct (decode_strict _ _) as [r|]; [|done]. cbn in E. injection E as <-.
    by exists r. }
  destruct (strip_prefix (lit "//") rest) as [aft|].
  - destruct aft as [|x aft]; [done|]. cbn [find_char] in H.
    destruct (Z.eqb_spec x (ch "/")) as [->|]; [by eapply Hq|].
    destruct (find_char (ch "/") aft); cbn in H; done.
  - destruct (starts_with (lit "/") rest) eqn:E; [|done].
    apply starts_with_true in E as [r ->]. by apply (Hq r).
Qed.

(** ** Properties *)

(** [path_to_uri] and [uri_to_path] are inverse on absolute paths: every absolute
    path survives the round trip, so distinct paths have distinct URIs, and the
    single-slash spelling of a URI decodes to the same path as the three-slash one. *)
Theorem uri_path_roundtrip p :
  wf_str (ch "/" :: p) →
  uri_to_path (path_to_uri (ch "/" :: p)) = Ok (ch "/" :: p) ∧
  (∀ q, wf_str (ch "/" :: q) → path_to_uri (ch "/" :: p) = path_to_uri (ch "/" :: q) → p = q) ∧
  (∀ s, uri_to_path (lit "file:" ++ ch "/" :: s) = uri_to_path (lit "file:///" ++ s) ∨
        ∃ t, s = ch "/" :: t).
Proof.
  intros Hp. split; [by apply uri_to_path_path_to_uri|]. split.
  - intros q Hq E. apply uri_to_path_path_to_uri in Hp, Hq. rewrite E, Hq in Hp. congruence.
  - intros [|x s].
    + by left.
    + destruct (Z.eqb_spec x (ch "/")) as [->|Hne]; [right; by exists s|left].
      change (lit "file:///" ++ x :: s) with (lit "file://" ++ ch "/" :: x :: s).
      rewrite uri_to_path_authority. unfold uri_to_path.
      rewrite (proj2 (strip_prefix_Some _ _ _) eq_refl). cbn [ok_or mbind result_bind].
      change (lit "//") with [ch "/"; ch "/"]. cbn [strip_prefix]. rewrite Z.eqb_refl.
      destruct (Z.eqb_spec (ch "/") x); [congruence|]. reflexivity.
Qed.

Lemma uri_path_roundtrip_witness :
  path_to_uri (lit "/tmp/ws with space/A B.scala") = lit "file:///tmp/ws%20with%20space/A%20B.scala" ∧
  uri_to_path (path_to_uri (lit "/tmp/ws with space/A B.scala")) = Ok (lit "/tmp/ws with space/A B.scala").
Proof.
  split; [reflexivity|].
  apply (uri_path_roundtrip (lit "tmp/ws with space/A B.scala")).
  refine (bool_decide_unpack _ _). vm_compute. exact I.
Defined.

(** [normalize_uri] is idempotent, so a document is keyed by one spelling: a URI it
    rewrites becomes the URI of an absolute path with no [.] or [..] segment, and any
    two URIs whose paths have the same normal form get the same key. *)
Theorem normalize_uri_canonical u :
  normalize_uri (normalize_uri u) = normalize_uri u ∧
  (∀ p, uri_to_path u = Ok p → has_nonempty_authority u = false →
     uri_to_path (normalize_uri u) = Ok (normalize p) ∧
     normal_abs (path_components (normalize p))) ∧
  (∀ v p q, uri_to_path u = Ok p → uri_to_path v = Ok q →
     has_nonempty_authority u = false → has_nonempty_authority v = false →
     normalize p = normalize q → normalize_uri u = normalize_uri v).
Proof.
  assert (∀ w p, uri_to_path w = Ok p →
    normal_abs (normalize_components (path_components p)) ∧
    uri_to_path (path_to_uri (normalize p)) = Ok (normalize p) ∧
    has_nonempty_authority (path_to_uri (normalize p)) = false) as Hkey.
  { intros w p (p' & -> & Hwf)%uri_to_path_absolute.
    assert (wf_str p') by (by apply Forall_cons in Hwf as [_ ?]).
    pose proof (normalize_components_abs p' ltac:(done)) as Hn. split; [done|].
    unfold normalize. destruct (path_str_normal_abs _ Hn) as (q & -> & Hq).
    split; [by apply uri_to_path_path_to_uri|].
    rewrite path_to_uri_absolute. unfold has_nonempty_authority.
    rewrite (proj2 (strip_prefix_Some _ _ _) eq_refl). cbn [split_on]. by rewrite Z.eqb_refl. }
  split; [|split].
  - unfold normalize_uri at 2 3. destruct (has_nonempty_authority u) eqn:Ea.
    + unfold normalize_uri. by rewrite Ea.
    + destruct (uri_to_path u) as [p|e] eqn:E.
      * destruct (Hkey _ _ E) as (Hn & Hrt & Ha). unfold normalize_uri.
        rewrite Ha, Hrt. unfold normalize at 1.
        unfold normalize at 1. rewrite path_components_path_str by done.
        by rewrite (normal_abs_fixpoint _ Hn).
      * unfold normalize_uri. by rewrite Ea, E.
  - intros p E Ea. destruct (Hkey _ _ E) as (Hn & Hrt & Ha). unfold normalize_uri.
    rewrite Ea, E. split; [done|]. unfold normalize. by rewrite path_components_path_str.
  - intros v p q Eu Ev Hu Hv E. unfold normalize_uri. by rewrite Hu, Hv, Eu, Ev, E.
Qed.

Lemma normalize_uri_canonical_witness :
  normalize_uri (lit "file:/tmp/a/../a/./B.scala") = lit "file:///tmp/a/B.scala" ∧
  normalize_uri (lit "file:/tmp/a/../a/./B.scala") = normalize_uri (lit "file:///tmp//a/B.scala").
Proof.
  split; [reflexivity|].
  apply (normalize_uri_canonical (lit "file:/tmp/a/../a/./B.scala"))
    with (p := lit "/tmp/a/../a/./B.scala") (q := lit "/tmp//a/B.scala"); reflexivity.
Defined.
