(* ===== verification/SdbModel.v ===== *)
(** The SemanticDB messages as decoded from the wire, before any normalization, and the
    crate's error type: [ls-semanticdb/src/model.rs] and [ls-semanticdb/src/error.rs]. *)

From S2P Require Import Prelude RustStr.

(** [mod sdb_role] *)
Definition UNKNOWN_ROLE : Z := 0.
Definition REFERENCE : Z := 1.
Definition DEFINITION : Z := 2.

(** [mod sdb_language] *)
Definition UNKNOWN : Z := 0.
Definition SCALA : Z := 1.
Definition JAVA : Z := 2.
Definition PROTOBUF : Z := 3.

(** [sdb_language::name] *)
Definition language_name (code : Z) : list Z :=
  if code =? SCALA then lit "scala"
  else if code =? JAVA then lit "java"
  else if code =? PROTOBUF then lit "protobuf"
  else lit "unknown".

Record SdbRange := {
  start_line : Z;
  start_character : Z;
  end_line : Z;
  end_character : Z
}.
#[global] Instance SdbRange_eq_dec : EqDecision SdbRange.
Proof. solve_decision. Defined.

Record SdbSymbolInfo := {
  si_symbol : list Z;
  kind_code : Z;
  properties : Z;
  si_display_name : list Z;
  overridden_symbols : list (list Z)
}.
#[global] Instance SdbSymbolInfo_eq_dec : EqDecision SdbSymbolInfo.
Proof. solve_decision. Defined.

Record SdbOccurrence := {
  so_range : option SdbRange;
  so_symbol : list Z;
  role_code : Z
}.
#[global] Instance SdbOccurrence_eq_dec : EqDecision SdbOccurrence.
Proof. solve_decision. Defined.

Record SdbDocument := {
  sd_schema : Z;
  sd_uri : list Z;
  sd_text : list Z;
  sd_md5 : list Z;
  language_code : Z;
  sd_symbols : list SdbSymbolInfo;
  sd_occurrences : list SdbOccurrence
}.
#[global] Instance SdbDocument_eq_dec : EqDecision SdbDocument.
Proof. solve_decision. Defined.

Record SdbDocuments := { documents : list SdbDocument }.

Inductive SemanticdbError :=
| Parse (message : list Z)
| Io (message : list Z)
| InvalidPath (message : list Z).
#[global] Instance SemanticdbError_eq_dec : EqDecision SemanticdbError.
Proof. solve_decision. Defined.

(** [impl Display for SemanticdbError] *)
Definition sdb_error_display (e : SemanticdbError) : list Z :=
  match e with
  | Parse m => lit "semanticdb parse error: " ++ m
  | Io m => lit "semanticdb io error: " ++ m
  | InvalidPath m => lit "semanticdb invalid path: " ++ m
  end.

(** How a decoding call can stop short: with the crate's error, with a Rust panic (an
    index out of bounds), or because the fuel of the model was too small. The latter two
    are shown never to happen. *)
Inductive Stop :=
| Failed (e : SemanticdbError)
| Panic
| OutOfFuel.
