(* ===== verification/ProtoWire.v ===== *)
(** The protobuf wire reader: [ls-semanticdb/src/wire.rs].

    A reader is a window [pos, end) over the payload. Every operation takes the reader and
    returns the value read with the advanced reader, or the error; an index that Rust
    bounds-checks is an access that may [Panic]. *)

From S2P Require Import Prelude RustStr SdbModel.

Record ProtoReader := {
  r_bytes : bytes;
  r_pos : Z;
  r_end : Z
}.

Definition with_pos (r : ProtoReader) (pos : Z) : ProtoReader :=
  {| r_bytes := r_bytes r; r_pos := pos; r_end := r_end r |}.

(** [ProtoReader::new] *)
Definition reader_new (b : bytes) : ProtoReader :=
  {| r_bytes := b; r_pos := 0; r_end := zlen b |}.

(** [ProtoReader::slice] *)
Definition reader_slice (b : bytes) (start end_ : Z) : ProtoReader :=
  {| r_bytes := b; r_pos := start; r_end := end_ |}.

Definition has_remaining (r : ProtoReader) : bool := r_pos r <? r_end r.

(** [ProtoReader::fail] *)
Definition fail {A : Type} (r : ProtoReader) (message : list Z) : result Stop A :=
  Err (Failed (Parse (message ++ lit " (at byte offset " ++ show_u (r_pos r) ++ lit ")"))).

(** [self.bytes[self.pos]] *)
Definition byte_at (r : ProtoReader) : result Stop Z :=
  match zget (r_bytes r) (r_pos r) with
  | Some b => Ok (byte_val b)
  | None => Err Panic
  end.

(** The loop of [read_varint]. The shift grows by 7, so the bound on it is met after ten
    iterations and eleven steps of fuel are enough. *)
Fixpoint read_varint_loop (fuel : nat) (shift res : Z) (r : ProtoReader)
    : result Stop (Z * ProtoReader) :=
  match fuel with
  | O => Err OutOfFuel
  | S fuel =>
      if 64 <=? shift then fail r (lit "malformed varint (more than 10 bytes)")
      else if r_end r <=? r_pos r then fail r (lit "truncated varint")
      else
        b ← byte_at r;
        let r := with_pos r (r_pos r + 1) in
        let res := Z.lor res (as_u64 (Z.shiftl (Z.land b 127) shift)) in
        if Z.land b 128 =? 0 then Ok (res, r)
        else read_varint_loop fuel (shift + 7) res r
  end.

Definition read_varint (r : ProtoReader) : result Stop (Z * ProtoReader) :=
  read_varint_loop 11 0 0 r.

Definition read_int32 (r : ProtoReader) : result Stop (Z * ProtoReader) :=
  '(v, r) ← read_varint r; Ok (as_i32 v, r).

Definition read_tag (r : ProtoReader) : result Stop (Z * ProtoReader) :=
  '(raw, r) ← read_varint r;
  if (raw =? 0) || (i32_max <? raw)
  then fail r (lit "tag out of range: " ++ show_u raw)
  else
    let tag := as_u32 raw in
    if Z.shiftr tag 3 =? 0 then fail r (lit "field number 0 is invalid")
    else Ok (tag, r).

(** Returns the offset and the length of the payload. *)
Definition read_length_delimited_slice (r : ProtoReader) : result Stop ((Z * Z) * ProtoReader) :=
  '(len, r) ← read_varint r;
  if as_u64 (r_end r - r_pos r) <? len
  then fail r (lit "truncated length-delimited field (declared " ++ show_u len ++ lit " bytes)")
  else
    let off := r_pos r in
    let len := as_usize len in
    Ok ((off, len), with_pos r (r_pos r + len)).

Definition read_string (r : ProtoReader) : result Stop (list Z * ProtoReader) :=
  '((off, len), r) ← read_length_delimited_slice r;
  match slice (r_bytes r) off len with
  | Some bs => Ok (from_utf8_lossy bs, r)
  | None => Err Panic
  end.

Definition read_message (r : ProtoReader) : result Stop (ProtoReader * ProtoReader) :=
  '((off, len), r) ← read_length_delimited_slice r;
  Ok (reader_slice (r_bytes r) off (off + len), r).

Definition skip_bytes (r : ProtoReader) (n : Z) : result Stop ProtoReader :=
  if r_end r - r_pos r <? n
  then fail r (lit "truncated field (" ++ show_u n ++ lit " bytes expected)")
  else Ok (with_pos r (r_pos r + n)).

(** [skip_field] and the loop of its group case. *)
Fixpoint skip_field (fuel : nat) (wire_type field_number : Z) (r : ProtoReader)
    : result Stop ProtoReader :=
  match fuel with
  | O => Err OutOfFuel
  | S fuel =>
      if wire_type =? 0 then '(_, r) ← read_varint r; Ok r
      else if wire_type =? 1 then skip_bytes r 8
      else if wire_type =? 2 then '(_, r) ← read_length_delimited_slice r; Ok r
      else if wire_type =? 3 then skip_group fuel field_number r
      else if wire_type =? 4 then fail r (lit "unexpected end-group tag")
      else if wire_type =? 5 then skip_bytes r 4
      else fail r (lit "unsupported wire type " ++ show_u wire_type)
  end
with skip_group (fuel : nat) (field_number : Z) (r : ProtoReader) : result Stop ProtoReader :=
  match fuel with
  | O => Err OutOfFuel
  | S fuel =>
      '(tag, r) ← read_tag r;
      let wt := Z.land tag 7 in
      let field := Z.shiftr tag 3 in
      if wt =? 4 then
        if negb (field =? field_number)
        then fail r (lit "mismatched end-group for field " ++ show_u field_number)
        else Ok r
      else r ← skip_field fuel wt field r; skip_group fuel field_number r
  end.

(** Every group iteration reads a tag of at least one byte, so this fuel is enough. *)
Definition skip_fuel (r : ProtoReader) : nat := 2 * Z.to_nat (r_end r - r_pos r) + 2.
Definition skip (wire_type field_number : Z) (r : ProtoReader) : result Stop ProtoReader :=
  skip_field (skip_fuel r) wire_type field_number r.

(** ** Windows

    What a reader can still see, and the well-formedness every operation preserves. *)

Definition window (r : ProtoReader) : bytes :=
  take (Z.to_nat (r_end r - r_pos r)) (drop (Z.to_nat (r_pos r)) (r_bytes r)).

Definition reader_wf (r : ProtoReader) : Prop :=
  0 ≤ r_pos r ≤ r_end r ∧ r_end r ≤ zlen (r_bytes r) ∧ inU 64 (zlen (r_bytes r)).

Definition advance (r : ProtoReader) (n : Z) : ProtoReader := with_pos r (r_pos r + n).

(** Little-endian base-128 value of a varint's bytes, the continuation bits dropped. *)
Fixpoint val128 (bs : bytes) : Z :=
  match bs with
  | [] => 0
  | b :: bs => byte_val b mod 128 + 128 * val128 bs
  end.

(** The leading bytes of a payload that announce another byte. *)
Fixpoint continuation (w : bytes) : bytes :=
  match w with
  | b :: w => if 128 <=? byte_val b then b :: continuation w else []
  | [] => []
  end.

(** What a decoding step may end in: an advanced reader, or the parse error. *)
Definition parse_safe {A : Type} (P : A → Prop) (m : result Stop A) : Prop :=
  match m with
  | Ok x => P x
  | Err (Failed (Parse _)) => True
  | Err _ => False
  end.

(** [r'] is [r] advanced by at least [n] bytes. *)
Definition advanced (n : Z) (r r' : ProtoReader) : Prop :=
  ∃ k, n ≤ k ∧ k ≤ zlen (window r) ∧ r' = advance r k.

Lemma zlen_window r : reader_wf r → zlen (window r) = r_end r - r_pos r.
Proof.
  intros (?&?&?). unfold window, zlen in *. rewrite length_take, length_drop. lia.
Qed.

Lemma advance_0 r : advance r 0 = r.
Proof. destruct r. unfold advance, with_pos. cbn. by rewrite Z.add_0_r. Qed.

Lemma advance_advance r n m : advance (advance r n) m = advance r (n + m).
Proof. unfold advance, with_pos. cbn. f_equal. lia. Qed.

Lemma advance_wf r n : reader_wf r → 0 ≤ n ≤ zlen (window r) → reader_wf (advance r n).
Proof.
  intros Hwf Hn. rewrite zlen_window in Hn by done. destruct Hwf as (?&?&?).
  unfold reader_wf, advance, with_pos. cbn. split_and!; lia || done.
Qed.

Lemma window_advance r n :
  reader_wf r → 0 ≤ n ≤ zlen (window r) → window (advance r n) = drop (Z.to_nat n) (window r).
Proof.
  intros Hwf Hn. rewrite zlen_window in Hn by done. destruct Hwf as (?&?&?).
  unfold window, advance, with_pos. cbn.
  rewrite skipn_firstn_comm, drop_drop. f_equal; [lia|]. f_equal. lia.
Qed.

Lemma has_remaining_window r :
  reader_wf r → has_remaining r = match window r with [] => false | _ => true end.
Proof.
  intros Hwf. unfold has_remaining. pose proof (zlen_window _ Hwf) as Hl.
  destruct (window r); unfold zlen in Hl; cbn in Hl.
  - apply Z.ltb_ge. lia.
  - apply Z.ltb_lt. lia.
Qed.

Lemma byte_at_window r b w : reader_wf r → window r = b :: w → byte_at r = Ok (byte_val b).
Proof.
  intros (?&?&?) Hw. unfold byte_at, zget. destruct (0 <=? r_pos r) eqn:E; zify_bools; [|lia].
  assert (r_bytes r !! Z.to_nat (r_pos r) = Some b) as ->; [|done].
  pose proof (f_equal (λ l, l !! O) Hw) as Hh. unfold window in Hh. cbn in Hh.
  rewrite lookup_take in Hh. case_decide; [|done].
  rewrite lookup_drop in Hh. by rewrite Nat.add_0_r in Hh.
Qed.

Lemma window_cons_advance r b w :
  reader_wf r → window r = b :: w → reader_wf (advance r 1) ∧ window (advance r 1) = w.
Proof.
  intros Hwf Hw. assert (0 ≤ 1 ≤ zlen (window r)) by (rewrite Hw, zlen_cons; unfold zlen; lia).
  split; [by apply advance_wf|]. rewrite window_advance, Hw by done. done.
Qed.

Lemma window_app_advance r a w :
  reader_wf r → window r = a ++ w →
  reader_wf (advance r (zlen a)) ∧ window (advance r (zlen a)) = w.
Proof.
  intros Hwf Hw. assert (0 ≤ zlen a ≤ zlen (window r)) by (rewrite Hw, zlen_app; unfold zlen; lia).
  split; [by apply advance_wf|]. rewrite window_advance, Hw by done.
  unfold zlen. by rewrite Nat2Z.id, drop_app_length.
Qed.

Lemma window_nil_end r : reader_wf r → window r = [] → r_end r = r_pos r.
Proof. intros Hwf Hw. pose proof (zlen_window r Hwf) as H. rewrite Hw in H. unfold zlen in H. cbn in H. lia. Qed.

Lemma window_cons_end r b w : reader_wf r → window r = b :: w → r_pos r < r_end r.
Proof.
  intros Hwf Hw. pose proof (zlen_window r Hwf) as H. rewrite Hw, zlen_cons in H.
  pose proof (zlen_nonneg w). lia.
Qed.

Lemma advanced_trans n m r r1 r2 :
  reader_wf r → 0 ≤ n → 0 ≤ m → advanced n r r1 → advanced m r1 r2 → advanced (n + m) r r2.
Proof.
  intros Hwf Hn Hm (k & Hk & Hk' & ->) (j & Hj & Hj' & ->). exists (k + j).
  rewrite window_advance in Hj' by (done || lia). unfold zlen in Hj'. rewrite length_drop in Hj'.
  unfold zlen in *. rewrite advance_advance. split_and!; [lia|lia|done].
Qed.

Lemma advanced_weaken n m r r' : n ≤ m → advanced m r r' → advanced n r r'.
Proof. intros H (k & ? & ? & ->). exists k. split_and!; [lia|lia|done]. Qed.

Lemma advanced_wf n r r' : 0 ≤ n → reader_wf r → advanced n r r' → reader_wf r'.
Proof. intros Hn Hwf (k & ? & ? & ->). apply advance_wf; [done|lia]. Qed.

Lemma advanced_0 r : reader_wf r → advanced 0 r r.
Proof. intros Hwf. exists 0. rewrite advance_0. pose proof (zlen_nonneg (window r)). split_and!; lia || done. Qed.

Lemma parse_safe_bind {A B : Type} P (Q : B → Prop) (m : result Stop A) f :
  parse_safe P m → (∀ x, P x → parse_safe Q (f x)) → parse_safe Q (m ≫= f).
Proof. destruct m as [x|e]; cbn; [auto|]. by destruct e as [[]| |]. Qed.

Lemma parse_safe_mono {A : Type} (P Q : A → Prop) m :
  (∀ x, P x → Q x) → parse_safe P m → parse_safe Q m.
Proof. intros H. destruct m as [x|[[]| |]]; cbn; auto. Qed.

(** ** Varints *)

Lemma varint_step_value b shift res :
  0 ≤ b < 256 → 0 ≤ shift ≤ 63 → 0 ≤ res < 2 ^ shift →
  let res' := Z.lor res (as_u64 (Z.shiftl (Z.land b 127) shift)) in
  (∀ v, (res' + 2 ^ (shift + 7) * v) mod 2 ^ 64 = (res + 2 ^ shift * (b mod 128 + 128 * v)) mod 2 ^ 64) ∧
  inU 64 res' ∧ (shift ≤ 56 → 0 ≤ res' < 2 ^ (shift + 7)).
Proof.
  intros Hb Hs Hr res'.
  assert (Z.land b 127 = b mod 128) as El by (change 127 with (Z.ones 7); by rewrite Z.land_ones by lia).
  pose proof (Z.mod_pos_bound b 128 ltac:(lia)) as Hx. set (x := b mod 128) in *.
  assert (as_u64 (Z.shiftl x shift) = Z.shiftl (x mod 2 ^ (64 - shift)) shift) as Es.
  { unfold as_u64, wrapU. rewrite !Z.shiftl_mul_pow2 by lia.
    replace (2 ^ 64) with (2 ^ (64 - shift) * 2 ^ shift) by (rewrite <- Z.pow_add_r by lia; f_equal; lia).
    apply Z.mul_mod_distr_r; apply Z.pow_nonzero; lia. }
  assert (res' = (x mod 2 ^ (64 - shift)) * 2 ^ shift + res) as E.
  { unfold res'. rewrite El, Es, Z.lor_comm. apply lor_shiftl_add; lia. }
  pose proof (Z.mod_pos_bound x (2 ^ (64 - shift)) ltac:(apply Z.pow_pos_nonneg; lia)) as Hy.
  assert (2 ^ 64 = 2 ^ (64 - shift) * 2 ^ shift) as E64 by (rewrite <- Z.pow_add_r by lia; f_equal; lia).
  assert (2 ^ (shift + 7) = 128 * 2 ^ shift) as E7.
  { rewrite Z.pow_add_r by lia. lia. }
  split_and!.
  - intros v. rewrite E, E7.
    assert (x = 2 ^ (64 - shift) * (x / 2 ^ (64 - shift)) + x mod 2 ^ (64 - shift)) as Hd.
    { apply Z.div_mod. apply Z.pow_nonzero; lia. }
    generalize dependent (x / 2 ^ (64 - shift)). intros q Hd.
    rewrite E64. rewrite Hd at 2.
    replace (res + 2 ^ shift * (2 ^ (64 - shift) * q + x mod 2 ^ (64 - shift) + 128 * v)) with
      (x mod 2 ^ (64 - shift) * 2 ^ shift + res + 128 * 2 ^ shift * v + q * (2 ^ (64 - shift) * 2 ^ shift)) by ring.
    by rewrite Z_mod_plus_full.
  - unfold inU. rewrite E, E64. nia.
  - intros Hsh. rewrite E, E7. rewrite Z.mod_small; [nia|].
    assert (2 ^ 8 ≤ 2 ^ (64 - shift)) by (apply Z.pow_le_mono_r; lia). lia.
Qed.

Lemma high_bit b : 0 ≤ b < 256 → (Z.land b 128 =? 0) = (b <? 128).
Proof.
  intros Hb. assert (Z.land b 128 = if b <? 128 then 0 else 128) as ->; [|by destruct (b <? 128)].
  assert (∀ n : nat, (n < 256)%nat →
    Z.land (Z.of_nat n) 128 = if Z.of_nat n <? 128 then 0 else 128) as H.
  { intros n Hn. assert (Forall (λ n, Z.land (Z.of_nat n) 128 = if Z.of_nat n <? 128 then 0 else 128) (seq 0 256)) as Hf.
    { refine (bool_decide_unpack _ _). vm_compute. exact I. }
    rewrite Forall_forall in Hf. apply Hf, elem_of_seq. lia. }
  specialize (H (Z.to_nat b)). rewrite Z2Nat.id in H by lia. apply H. lia.
Qed.

(** The first [n] iterations of the loop, on a window of any contents. *)
Lemma read_varint_loop_spec n fuel i res r :
  reader_wf r → fuel = S n → 0 ≤ i → i + Z.of_nat n = 10 → 0 ≤ res → (i ≤ 9 → res < 2 ^ (7 * i)) →
  let c := continuation (window r) in
  let k := zlen c in
  read_varint_loop fuel (7 * i) res r =
    if Z.of_nat n <=? k then fail (advance r (Z.of_nat n)) (lit "malformed varint (more than 10 bytes)")
    else if zlen (window r) =? k then fail (advance r k) (lit "truncated varint")
    else Ok ((res + 2 ^ (7 * i) * val128 (take (S (length c)) (window r))) mod 2 ^ 64, advance r (k + 1)).
Proof.
  revert fuel i res r. induction n as [|n IH]; intros fuel i res r Hwf -> Hi Hn H0 Hres c k.
  { cbn [read_varint_loop]. destruct (Z.leb_spec 64 (7 * i)); [|lia].
    destruct (Z.leb_spec (Z.of_nat 0) k); [|unfold k, zlen in *; lia].
    by rewrite advance_0. }
  set (fuel' := S n). cbn [read_varint_loop]. subst fuel'.
  destruct (Z.leb_spec 64 (7 * i)); [lia|].
  destruct (window r) as [|b w] eqn:Hw.
  { pose proof (window_nil_end r Hwf Hw). destruct (Z.leb_spec (r_end r) (r_pos r)); [|lia].
    subst c k. cbn [continuation]. rewrite zlen_nil. destruct (Z.leb_spec (Z.of_nat (S n)) 0); [lia|].
    cbn. by rewrite advance_0. }
  pose proof (window_cons_end r b w Hwf Hw). destruct (Z.leb_spec (r_end r) (r_pos r)); [lia|].
  rewrite (byte_at_window r b w Hwf Hw). cbn [mbind result_bind].
  pose proof (byte_val_range b) as Hb. rewrite high_bit by done.
  destruct (window_cons_advance r b w Hwf Hw) as [Hwf1 Hw1].
  destruct (varint_step_value (byte_val b) (7 * i) res) as (Hval & Hu & Hlt); [done|lia|split; [done|apply Hres; lia]|].
  set (res' := Z.lor res _) in *. fold (advance r 1). subst c k. cbn [continuation].
  destruct (Z.ltb_spec (byte_val b) 128); destruct (Z.leb_spec 128 (byte_val b)); try lia.
  - rewrite zlen_nil, zlen_cons. pose proof (zlen_nonneg w).
    destruct (Z.leb_spec (Z.of_nat (S n)) 0); [lia|].
    destruct (Z.eqb_spec (1 + zlen w) 0); [lia|].
    change (take (S (length (@nil byte))) (b :: w)) with [b]. cbn [val128].
    rewrite <- Hval. rewrite Z.mul_0_r, Z.add_0_r, Z.mod_small by done. done.
  - replace (7 * i + 7) with (7 * (i + 1)) by lia.
    rewrite (IH (S n) (i + 1) res' (advance r 1)); [|done|done|lia|lia|apply Hu|].
    2:{ intros Hi9. replace (7 * (i + 1)) with (7 * i + 7) by lia. apply Hlt. lia. }
    rewrite Hw1, !zlen_cons, advance_advance, (advance_advance r 1 (zlen _)).
    cbn [length take val128]. set (c := continuation w).
    destruct (Z.leb_spec (Z.of_nat n) (zlen c)), (Z.leb_spec (Z.of_nat (S n)) (1 + zlen c)); try lia.
    + by replace (1 + Z.of_nat n) with (Z.of_nat (S n)) by lia.
    + destruct (Z.eqb_spec (zlen w) (zlen c)), (Z.eqb_spec (1 + zlen w) (1 + zlen c)); try lia; [done|].
      rewrite advance_advance. f_equal. f_equal.
      * rewrite <- Hval. f_equal. f_equal. f_equal. f_equal. lia.
      * f_equal. lia.
Qed.

Lemma continuation_length w : zlen (continuation w) ≤ zlen w.
Proof.
  induction w as [|b w IH]; cbn [continuation]; [done|].
  destruct (128 <=? byte_val b); rewrite ?zlen_cons, ?zlen_nil; [lia|].
  pose proof (zlen_nonneg w). lia.
Qed.

Lemma read_varint_cases r :
  reader_wf r →
  let c := continuation (window r) in
  read_varint r =
    if 10 <=? zlen c then fail (advance r 10) (lit "malformed varint (more than 10 bytes)")
    else if zlen (window r) =? zlen c then fail (advance r (zlen c)) (lit "truncated varint")
    else Ok (val128 (take (S (length c)) (window r)) mod 2 ^ 64, advance r (zlen c + 1)).
Proof.
  intros Hwf c. unfold read_varint. change 0 with (7 * 0) at 1.
  rewrite (read_varint_loop_spec 10 11 0 0 r) by (done || lia).
  fold c. change (Z.of_nat 10) with 10. change (2 ^ (7 * 0)) with 1.
  by rewrite Z.mul_1_l, Z.add_0_l.
Qed.

Lemma fail_safe {A : Type} P r m : @parse_safe A P (fail r m).
Proof. exact I. Qed.

Lemma read_varint_safe r :
  reader_wf r → parse_safe (λ '(v, r'), inU 64 v ∧ advanced 1 r r') (read_varint r).
Proof.
  intros Hwf. rewrite read_varint_cases by done. cbn zeta. set (c := continuation (window r)).
  pose proof (continuation_length (window r)) as Hl. fold c in Hl.
  destruct (Z.leb_spec 10 (zlen c)); [apply fail_safe|].
  destruct (Z.eqb_spec (zlen (window r)) (zlen c)); [apply fail_safe|].
  cbn. split; [by apply wrapU_range|]. exists (zlen c + 1). pose proof (zlen_nonneg c).
  split_and!; lia || done.
Qed.

Lemma read_int32_safe r :
  reader_wf r → parse_safe (λ '(v, r'), inS 32 v ∧ advanced 1 r r') (read_int32 r).
Proof.
  intros Hwf. eapply parse_safe_bind; [by apply read_varint_safe|]. intros [v r'] [_ Ha].
  split; [by apply wrapS_range|done].
Qed.

Lemma read_tag_safe r :
  reader_wf r → parse_safe (λ '(t, r'), inU 31 t ∧ 1 ≤ Z.shiftr t 3 ∧ advanced 1 r r') (read_tag r).
Proof.
  intros Hwf. eapply parse_safe_bind; [by apply read_varint_safe|]. intros [v r'] [Hv Ha].
  destruct (_ || _) eqn:E; [exact I|]. zify_bools. unfold i32_max, inU in *.
  assert (as_u32 v = v) as -> by (apply wrapU_id; unfold inU; lia).
  destruct (Z.eqb_spec (Z.shiftr v 3) 0); [exact I|]. cbn. split_and!; [lia|lia| |done].
  pose proof (Z.shiftr_nonneg v 3). lia.
Qed.

Lemma read_length_delimited_safe r :
  reader_wf r →
  parse_safe (λ '((off, len), r'),
    1 ≤ off - r_pos r ∧ 0 ≤ len ∧ off + len ≤ r_end r ∧
    r' = advance r (off + len - r_pos r)) (read_length_delimited_slice r).
Proof.
  intros Hwf. eapply parse_safe_bind; [by apply read_varint_safe|]. intros [len r'] [Hv Ha].
  pose proof (advanced_wf 1 _ _ ltac:(lia) Hwf Ha) as Hwf'. destruct Ha as (k & Hk & Hk' & ->).
  rewrite zlen_window in Hk' by done. destruct Hwf as (?&?&Hu). destruct Hwf' as (Hp&?&_).
  cbn [r_bytes r_pos r_end advance with_pos] in *. unfold inU in *.
  assert (as_u64 (r_end r - (r_pos r + k)) = r_end r - (r_pos r + k)) as ->.
  { apply wrapU_id. unfold inU. lia. }
  destruct (Z.ltb_spec (r_end r - (r_pos r + k)) len); [exact I|].
  assert (as_usize len = len) as -> by (by apply wrapU_id).
  cbn. split_and!; [lia|lia|lia|]. unfold advance, with_pos. cbn. f_equal. lia.
Qed.

Lemma read_string_safe r :
  reader_wf r → parse_safe (λ '(_, r'), advanced 1 r r') (read_string r).
Proof.
  intros Hwf. eapply parse_safe_bind; [by apply read_length_delimited_safe|].
  intros [[off len] r'] (Ho1 & Ho2 & Ho3 & ->). pose proof (zlen_window r Hwf) as Hl.
  destruct Hwf as (?&?&Hu). cbn [r_bytes advance with_pos].
  assert (is_Some (slice (r_bytes r) off len)) as [bs ->] by (apply slice_is_Some; lia).
  exists (off + len - r_pos r). rewrite Hl. split_and!; lia || done.
Qed.

Lemma read_message_safe r :
  reader_wf r →
  parse_safe (λ '(m, r'), reader_wf m ∧ zlen (window m) ≤ zlen (window r) - 1 ∧ advanced 1 r r') (read_message r).
Proof.
  intros Hwf. eapply parse_safe_bind; [by apply read_length_delimited_safe|].
  intros [[off len] r'] (Ho1 & Ho2 & Ho3 & ->). pose proof (zlen_window r Hwf) as Hl.
  assert (reader_wf (reader_slice (r_bytes r) off (off + len))) as Hm.
  { destruct Hwf as (?&?&Hu). unfold reader_wf, reader_slice. cbn. split_and!; lia || done. }
  cbn [parse_safe r_bytes advance with_pos]. split_and!; [done| |].
  - rewrite zlen_window by done. cbn. lia.
  - exists (off + len - r_pos r). rewrite Hl. split_and!; lia || done.
Qed.

Lemma skip_bytes_safe r n :
  reader_wf r → 0 ≤ n → parse_safe (λ r', advanced 0 r r') (skip_bytes r n).
Proof.
  intros Hwf Hn. unfold skip_bytes. destruct (Z.ltb_spec (r_end r - r_pos r) n); [exact I|].
  exists n. rewrite zlen_window by done. split_and!; lia || done.
Qed.

(** Enough fuel: skipping a field never runs out, whatever the payload holds. *)
Lemma skip_safe fuel :
  (∀ r wt fn, reader_wf r → 2 * zlen (window r) + 2 ≤ Z.of_nat fuel →
     parse_safe (λ r', advanced 0 r r') (skip_field fuel wt fn r)) ∧
  (∀ r fn, reader_wf r → 2 * zlen (window r) + 1 ≤ Z.of_nat fuel →
     parse_safe (λ r', advanced 0 r r') (skip_group fuel fn r)).
Proof.
  induction fuel as [|fuel [IHf IHg]]; split; intros r; try (pose proof (zlen_nonneg (window r))).
  1-2: lia.
  - intros wt fn Hwf Hfuel. cbn [skip_field]. repeat case_match; try exact I.
    + eapply parse_safe_bind; [by apply read_varint_safe|]. intros [v r'] [_ Ha].
      by eapply advanced_weaken, Ha.
    + by apply skip_bytes_safe.
    + eapply parse_safe_bind; [by apply read_length_delimited_safe|].
      intros [[off len] r'] (Ho1 & Ho2 & Ho3 & ->). pose proof (zlen_window r Hwf).
      exists (off + len - r_pos r). split_and!; lia || done.
    + apply IHg; [done|lia].
    + by apply skip_bytes_safe.
  - intros fn Hwf Hfuel. cbn [skip_group].
    eapply parse_safe_bind; [by apply read_tag_safe|]. intros [tag r1] (Ht & _ & Ha).
    pose proof (advanced_wf 1 _ _ ltac:(lia) Hwf Ha) as Hwf1.
    assert (zlen (window r1) ≤ zlen (window r) - 1) as Hl1.
    { rewrite !zlen_window by done. destruct Ha as (k & ? & ? & ->). cbn. lia. }
    cbn zeta. destruct (Z.land tag 7 =? 4).
    { destruct (negb _); [exact I|]. by eapply advanced_weaken, Ha. }
    eapply parse_safe_bind; [apply IHf; [done|lia]|]. intros r2 Ha2.
    pose proof (advanced_wf 0 _ _ ltac:(lia) Hwf1 Ha2) as Hwf2.
    assert (zlen (window r2) ≤ zlen (window r1)) as Hl2.
    { rewrite !zlen_window by done. destruct Ha2 as (k & ? & ? & ->). cbn. lia. }
    eapply parse_safe_mono; [|apply IHg; [done|lia]]. intros r3 Ha3.
    eapply advanced_weaken; [|eapply (advanced_trans 1 0); [..|eapply (advanced_trans 0 0)]]; eauto; lia.
Qed.

Lemma skip_is_safe r wt fn :
  reader_wf r → parse_safe (λ r', advanced 0 r r') (skip wt fn r).
Proof.
  intros Hwf. apply skip_safe; [done|]. rewrite zlen_window by done. unfold skip_fuel.
  destruct Hwf as (?&?&?). lia.
Qed.

(** ** Properties *)

(** [read_varint] on every payload. With [c] the leading bytes that announce another
    one: ten or more of them are malformed, a payload that ends in them is truncated (the
    error names the offset reached), and otherwise the value is the base-128 number of
    those bytes and the next one with the bits above 63 dropped, and exactly these bytes
    are consumed. *)
Theorem read_varint_exact r :
  reader_wf r →
  let c := continuation (window r) in
  read_varint r =
    if 10 <=? zlen c then fail (advance r 10) (lit "malformed varint (more than 10 bytes)")
    else if zlen (window r) =? zlen c then fail (advance r (zlen c)) (lit "truncated varint")
    else Ok (val128 (take (S (length c)) (window r)) mod 2 ^ 64, advance r (zlen c + 1)).
Proof. apply read_varint_cases. Qed.

Lemma read_varint_exact_witness :
  let r := reader_new [xac; x02; xff] in
  reader_wf r ∧ read_varint r = Ok (300, advance r 2) ∧
  read_varint (advance r 2) = fail (advance r 3) (lit "truncated varint").
Proof.
  intros r. assert (reader_wf r) as Hwf.
  { split_and!; cbv; repeat split; discriminate || reflexivity. }
  assert (reader_wf (advance r 2)) as Hwf2.
  { split_and!; cbv; repeat split; discriminate || reflexivity. }
  split_and!; [done|..].
  - pose proof (read_varint_exact r Hwf) as H. vm_compute in H. exact H.
  - pose proof (read_varint_exact (advance r 2) Hwf2) as H. vm_compute in H. exact H.
Defined.
