(* ===== verification/SdbParser.v ===== *)
(** The decoder of the SemanticDB root message: [ls-semanticdb/src/parser.rs].

    The four [parse_*] loops are translated over the shared loop [fields_loop]; what a
    payload means is given separately, as a relation between protobuf-encoded bytes and
    messages, and the decoder is shown to compute it. *)

From S2P Require Import Prelude RustStr SdbModel ProtoWire.

Definition WIRE_VARINT : Z := 0.
Definition WIRE_LEN : Z := 2.

(** Field numbers ([mod f]). *)
Definition DOCUMENTS : Z := 1.
Definition TD_SCHEMA : Z := 1.
Definition TD_URI : Z := 2.
Definition TD_TEXT : Z := 3.
Definition TD_SYMBOLS : Z := 5.
Definition TD_OCCURRENCES : Z := 6.
Definition TD_LANGUAGE : Z := 10.
Definition TD_MD5 : Z := 11.
Definition SI_SYMBOL : Z := 1.
Definition SI_KIND : Z := 3.
Definition SI_PROPERTIES : Z := 4.
Definition SI_DISPLAY_NAME : Z := 5.
Definition SI_OVERRIDDEN_SYMBOLS : Z := 19.
Definition SO_RANGE : Z := 1.
Definition SO_SYMBOL : Z := 2.
Definition SO_ROLE : Z := 3.
Definition R_START_LINE : Z := 1.
Definition R_START_CHARACTER : Z := 2.
Definition R_END_LINE : Z := 3.
Definition R_END_CHARACTER : Z := 4.

(** The pattern [(f, w)] of the [match] on [(field, wire)]. *)
Definition is_field (field wire f w : Z) : bool := (field =? f) && (wire =? w).

(** [while r.has_remaining() { let tag = r.read_tag()?; match (tag >> 3, tag & 7) {..} }].
    Each iteration reads a tag, so the remaining length bounds the iterations. *)
Fixpoint fields_loop {S : Type}
    (body : Z → Z → S → ProtoReader → result Stop (S * ProtoReader))
    (fuel : nat) (s : S) (r : ProtoReader) : result Stop S :=
  match fuel with
  | O => Err OutOfFuel
  | Datatypes.S fuel =>
      if has_remaining r then
        '(tag, r) ← read_tag r;
        '(s, r) ← body (Z.shiftr tag 3) (Z.land tag 7) s r;
        fields_loop body fuel s r
      else Ok s
  end.

Definition loop_fuel (r : ProtoReader) : nat := S (Z.to_nat (r_end r - r_pos r)).

Definition range_default : SdbRange :=
  {| start_line := 0; start_character := 0; end_line := 0; end_character := 0 |}.

(** The body of the loop of [parse_range]. *)
Definition range_body (field wire : Z) (s : SdbRange) (r : ProtoReader)
    : result Stop (SdbRange * ProtoReader) :=
  if is_field field wire R_START_LINE WIRE_VARINT then
    '(v, r) ← read_int32 r;
    Ok ({| start_line := v; start_character := start_character s;
           end_line := end_line s; end_character := end_character s |}, r)
  else if is_field field wire R_START_CHARACTER WIRE_VARINT then
    '(v, r) ← read_int32 r;
    Ok ({| start_line := start_line s; start_character := v;
           end_line := end_line s; end_character := end_character s |}, r)
  else if is_field field wire R_END_LINE WIRE_VARINT then
    '(v, r) ← read_int32 r;
    Ok ({| start_line := start_line s; start_character := start_character s;
           end_line := v; end_character := end_character s |}, r)
  else if is_field field wire R_END_CHARACTER WIRE_VARINT then
    '(v, r) ← read_int32 r;
    Ok ({| start_line := start_line s; start_character := start_character s;
           end_line := end_line s; end_character := v |}, r)
  else r ← skip wire field r; Ok (s, r).

Definition parse_range (r : ProtoReader) : result Stop SdbRange :=
  fields_loop range_body (loop_fuel r) range_default r.

Definition occurrence_default : SdbOccurrence :=
  {| so_range := None; so_symbol := []; role_code := 0 |}.

Definition occurrence_body (field wire : Z) (s : SdbOccurrence) (r : ProtoReader)
    : result Stop (SdbOccurrence * ProtoReader) :=
  if is_field field wire SO_RANGE WIRE_LEN then
    '(m, r) ← read_message r;
    range ← parse_range m;
    Ok ({| so_range := Some range; so_symbol := so_symbol s; role_code := role_code s |}, r)
  else if is_field field wire SO_SYMBOL WIRE_LEN then
    '(v, r) ← read_string r;
    Ok ({| so_range := so_range s; so_symbol := v; role_code := role_code s |}, r)
  else if is_field field wire SO_ROLE WIRE_VARINT then
    '(v, r) ← read_int32 r;
    Ok ({| so_range := so_range s; so_symbol := so_symbol s; role_code := v |}, r)
  else r ← skip wire field r; Ok (s, r).

Definition parse_occurrence (r : ProtoReader) : result Stop SdbOccurrence :=
  fields_loop occurrence_body (loop_fuel r) occurrence_default r.

Definition symbol_info_default : SdbSymbolInfo :=
  {| si_symbol := []; kind_code := 0; properties := 0; si_display_name := [];
     overridden_symbols := [] |}.

Definition symbol_info_body (field wire : Z) (s : SdbSymbolInfo) (r : ProtoReader)
    : result Stop (SdbSymbolInfo * ProtoReader) :=
  if is_field field wire SI_SYMBOL WIRE_LEN then
    '(v, r) ← read_string r;
    Ok ({| si_symbol := v; kind_code := kind_code s; properties := properties s;
           si_display_name := si_display_name s; overridden_symbols := overridden_symbols s |}, r)
  else if is_field field wire SI_KIND WIRE_VARINT then
    '(v, r) ← read_int32 r;
    Ok ({| si_symbol := si_symbol s; kind_code := v; properties := properties s;
           si_display_name := si_display_name s; overridden_symbols := overridden_symbols s |}, r)
  else if is_field field wire SI_PROPERTIES WIRE_VARINT then
    '(v, r) ← read_int32 r;
    Ok ({| si_symbol := si_symbol s; kind_code := kind_code s; properties := v;
           si_display_name := si_display_name s; overridden_symbols := overridden_symbols s |}, r)
  else if is_field field wire SI_DISPLAY_NAME WIRE_LEN then
    '(v, r) ← read_string r;
    Ok ({| si_symbol := si_symbol s; kind_code := kind_code s; properties := properties s;
           si_display_name := v; overridden_symbols := overridden_symbols s |}, r)
  else if is_field field wire SI_OVERRIDDEN_SYMBOLS WIRE_LEN then
    '(v, r) ← read_string r;
    Ok ({| si_symbol := si_symbol s; kind_code := kind_code s; properties := properties s;
           si_display_name := si_display_name s;
           overridden_symbols := overridden_symbols s ++ [v] |}, r)
  else r ← skip wire field r; Ok (s, r).

Definition parse_symbol_info (r : ProtoReader) : result Stop SdbSymbolInfo :=
  fields_loop symbol_info_body (loop_fuel r) symbol_info_default r.

Definition document_default : SdbDocument :=
  {| sd_schema := 0; sd_uri := []; sd_text := []; sd_md5 := []; language_code := 0;
     sd_symbols := []; sd_occurrences := [] |}.

(** The assignments of the arms of [parse_document]. *)
Definition set_schema (d : SdbDocument) (v : Z) : SdbDocument :=
  {| sd_schema := v; sd_uri := sd_uri d; sd_text := sd_text d; sd_md5 := sd_md5 d;
     language_code := language_code d; sd_symbols := sd_symbols d;
     sd_occurrences := sd_occurrences d |}.
Definition set_uri (d : SdbDocument) (v : list Z) : SdbDocument :=
  {| sd_schema := sd_schema d; sd_uri := v; sd_text := sd_text d; sd_md5 := sd_md5 d;
     language_code := language_code d; sd_symbols := sd_symbols d;
     sd_occurrences := sd_occurrences d |}.
Definition set_text (d : SdbDocument) (v : list Z) : SdbDocument :=
  {| sd_schema := sd_schema d; sd_uri := sd_uri d; sd_text := v; sd_md5 := sd_md5 d;
     language_code := language_code d; sd_symbols := sd_symbols d;
     sd_occurrences := sd_occurrences d |}.
Definition set_md5 (d : SdbDocument) (v : list Z) : SdbDocument :=
  {| sd_schema := sd_schema d; sd_uri := sd_uri d; sd_text := sd_text d; sd_md5 := v;
     language_code := language_code d; sd_symbols := sd_symbols d;
     sd_occurrences := sd_occurrences d |}.
Definition set_language (d : SdbDocument) (v : Z) : SdbDocument :=
  {| sd_schema := sd_schema d; sd_uri := sd_uri d; sd_text := sd_text d; sd_md5 := sd_md5 d;
     language_code := v; sd_symbols := sd_symbols d; sd_occurrences := sd_occurrences d |}.
Definition push_symbol (d : SdbDocument) (v : SdbSymbolInfo) : SdbDocument :=
  {| sd_schema := sd_schema d; sd_uri := sd_uri d; sd_text := sd_text d; sd_md5 := sd_md5 d;
     language_code := language_code d; sd_symbols := sd_symbols d ++ [v];
     sd_occurrences := sd_occurrences d |}.
Definition push_occurrence (d : SdbDocument) (v : SdbOccurrence) : SdbDocument :=
  {| sd_schema := sd_schema d; sd_uri := sd_uri d; sd_text := sd_text d; sd_md5 := sd_md5 d;
     language_code := language_code d; sd_symbols := sd_symbols d;
     sd_occurrences := sd_occurrences d ++ [v] |}.

Definition document_body (field wire : Z) (s : SdbDocument) (r : ProtoReader)
    : result Stop (SdbDocument * ProtoReader) :=
  if is_field field wire TD_SCHEMA WIRE_VARINT then
    '(v, r) ← read_int32 r; Ok (set_schema s v, r)
  else if is_field field wire TD_URI WIRE_LEN then
    '(v, r) ← read_string r; Ok (set_uri s v, r)
  else if is_field field wire TD_TEXT WIRE_LEN then
    '(v, r) ← read_string r; Ok (set_text s v, r)
  else if is_field field wire TD_MD5 WIRE_LEN then
    '(v, r) ← read_string r; Ok (set_md5 s v, r)
  else if is_field field wire TD_LANGUAGE WIRE_VARINT then
    '(v, r) ← read_int32 r; Ok (set_language s v, r)
  else if is_field field wire TD_SYMBOLS WIRE_LEN then
    '(m, r) ← read_message r; v ← parse_symbol_info m; Ok (push_symbol s v, r)
  else if is_field field wire TD_OCCURRENCES WIRE_LEN then
    '(m, r) ← read_message r; v ← parse_occurrence m; Ok (push_occurrence s v, r)
  else r ← skip wire field r; Ok (s, r).

Definition parse_document (r : ProtoReader) : result Stop SdbDocument :=
  fields_loop document_body (loop_fuel r) document_default r.

Definition documents_body (field wire : Z) (docs : list SdbDocument) (r : ProtoReader)
    : result Stop (list SdbDocument * ProtoReader) :=
  if is_field field wire DOCUMENTS WIRE_LEN then
    '(m, r) ← read_message r; d ← parse_document m; Ok (docs ++ [d], r)
  else r ← skip wire field r; Ok (docs, r).

(** [parse_text_documents] *)
Definition parse_text_documents (b : bytes) : result Stop SdbDocuments :=
  docs ← fields_loop documents_body (loop_fuel (reader_new b)) [] (reader_new b);
  Ok {| documents := docs |}.

(** [parse_file], over the reading of the file. *)
Definition parse_file (read : list Z → result (list Z) bytes) (path : list Z)
    : result Stop SdbDocuments :=
  match read path with
  | Ok b => parse_text_documents b
  | Err e => Err (Failed (Io e))
  end.

(** ** What a payload means

    The protobuf encoding of fields: a field number and a value of one of the wire types;
    a legacy group holds fields and ends with its own end-group tag. *)

#[warnings="-register-all"]
Inductive wval :=
| WVarint (v : Z)
| WFixed64 (bs : bytes)
| WLen (payload : bytes)
| WGroup (fields : list (Z * wval))
| WFixed32 (bs : bytes).

Definition wtype (v : wval) : Z :=
  match v with
  | WVarint _ => 0 | WFixed64 _ => 1 | WLen _ => 2 | WGroup _ => 3 | WFixed32 _ => 5
  end.

Fixpoint enc_varint_aux (fuel : nat) (v : Z) : bytes :=
  match fuel with
  | O => []
  | S fuel => if v <? 128 then [byte_of v]
              else byte_of (v mod 128 + 128) :: enc_varint_aux fuel (v / 128)
  end.
Definition enc_varint (v : Z) : bytes := enc_varint_aux 10 v.
Definition enc_tag (n wt : Z) : bytes := enc_varint (8 * n + wt).

Fixpoint enc_val (n : Z) (v : wval) : bytes :=
  match v with
  | WVarint x => enc_varint x
  | WFixed64 bs | WFixed32 bs => bs
  | WLen p => enc_varint (zlen p) ++ p
  | WGroup fs =>
      flat_map (λ f, match f with (m, w) => enc_tag m (wtype w) ++ enc_val m w end) fs ++
      enc_tag n 4
  end.
Definition enc_field (f : Z * wval) : bytes := enc_tag f.1 (wtype f.2) ++ enc_val f.1 f.2.
Definition enc_fields (fs : list (Z * wval)) : bytes := flat_map enc_field fs.

Definition field_number_ok (n : Z) : Prop := 1 ≤ n < 2 ^ 28.

Fixpoint wf_val (v : wval) : Prop :=
  match v with
  | WVarint x => inU 64 x
  | WFixed64 bs => zlen bs = 8
  | WLen p => inU 64 (zlen p)
  | WGroup fs =>
      (fix wf_fields (fs : list (Z * wval)) : Prop :=
         match fs with
         | [] => True
         | (m, w) :: fs => field_number_ok m ∧ wf_val w ∧ wf_fields fs
         end) fs
  | WFixed32 bs => zlen bs = 4
  end.
Definition wf_field (f : Z * wval) : Prop := field_number_ok f.1 ∧ wf_val f.2.

(** The effect of the fields of a message, one after the other. *)
Inductive fold_fields {S : Type} (step : S → Z → wval → S → Prop) : S → list (Z * wval) → S → Prop :=
| fold_nil s : fold_fields step s [] s
| fold_cons s s1 s2 n v fs :
    step s n v s1 → fold_fields step s1 fs s2 → fold_fields step s ((n, v) :: fs) s2.

(** A message with initial value [s0], whose fields have the effect [step]. *)
Inductive message {S : Type} (s0 : S) (step : S → Z → wval → S → Prop) : bytes → S → Prop :=
| message_intro fs s : Forall wf_field fs → fold_fields step s0 fs s → message s0 step (enc_fields fs) s.

Inductive range_step : SdbRange → Z → wval → SdbRange → Prop :=
| rs_start_line s v : range_step s R_START_LINE (WVarint v)
    {| start_line := as_i32 v; start_character := start_character s;
       end_line := end_line s; end_character := end_character s |}
| rs_start_character s v : range_step s R_START_CHARACTER (WVarint v)
    {| start_line := start_line s; start_character := as_i32 v;
       end_line := end_line s; end_character := end_character s |}
| rs_end_line s v : range_step s R_END_LINE (WVarint v)
    {| start_line := start_line s; start_character := start_character s;
       end_line := as_i32 v; end_character := end_character s |}
| rs_end_character s v : range_step s R_END_CHARACTER (WVarint v)
    {| start_line := start_line s; start_character := start_character s;
       end_line := end_line s; end_character := as_i32 v |}
| rs_unknown s n v :
    (n, wtype v) ∉ [(R_START_LINE, 0); (R_START_CHARACTER, 0); (R_END_LINE, 0); (R_END_CHARACTER, 0)] →
    range_step s n v s.

Inductive occurrence_step : SdbOccurrence → Z → wval → SdbOccurrence → Prop :=
| os_range s p x : message range_default range_step p x →
    occurrence_step s SO_RANGE (WLen p)
      {| so_range := Some x; so_symbol := so_symbol s; role_code := role_code s |}
| os_symbol s p : occurrence_step s SO_SYMBOL (WLen p)
    {| so_range := so_range s; so_symbol := from_utf8_lossy p; role_code := role_code s |}
| os_role s v : occurrence_step s SO_ROLE (WVarint v)
    {| so_range := so_range s; so_symbol := so_symbol s; role_code := as_i32 v |}
| os_unknown s n v :
    (n, wtype v) ∉ [(SO_RANGE, 2); (SO_SYMBOL, 2); (SO_ROLE, 0)] → occurrence_step s n v s.

Inductive symbol_info_step : SdbSymbolInfo → Z → wval → SdbSymbolInfo → Prop :=
| ss_symbol s p : symbol_info_step s SI_SYMBOL (WLen p)
    {| si_symbol := from_utf8_lossy p; kind_code := kind_code s; properties := properties s;
       si_display_name := si_display_name s; overridden_symbols := overridden_symbols s |}
| ss_kind s v : symbol_info_step s SI_KIND (WVarint v)
    {| si_symbol := si_symbol s; kind_code := as_i32 v; properties := properties s;
       si_display_name := si_display_name s; overridden_symbols := overridden_symbols s |}
| ss_properties s v : symbol_info_step s SI_PROPERTIES (WVarint v)
    {| si_symbol := si_symbol s; kind_code := kind_code s; properties := as_i32 v;
       si_display_name := si_display_name s; overridden_symbols := overridden_symbols s |}
| ss_display_name s p : symbol_info_step s SI_DISPLAY_NAME (WLen p)
    {| si_symbol := si_symbol s; kind_code := kind_code s; properties := properties s;
       si_display_name := from_utf8_lossy p; overridden_symbols := overridden_symbols s |}
| ss_overridden s p : symbol_info_step s SI_OVERRIDDEN_SYMBOLS (WLen p)
    {| si_symbol := si_symbol s; kind_code := kind_code s; properties := properties s;
       si_display_name := si_display_name s;
       overridden_symbols := overridden_symbols s ++ [from_utf8_lossy p] |}
| ss_unknown s n v :
    (n, wtype v) ∉ [(SI_SYMBOL, 2); (SI_KIND, 0); (SI_PROPERTIES, 0); (SI_DISPLAY_NAME, 2);
                    (SI_OVERRIDDEN_SYMBOLS, 2)] → symbol_info_step s n v s.

Inductive document_step : SdbDocument → Z → wval → SdbDocument → Prop :=
| ds_schema s v : document_step s TD_SCHEMA (WVarint v) (set_schema s (as_i32 v))
| ds_uri s p : document_step s TD_URI (WLen p) (set_uri s (from_utf8_lossy p))
| ds_text s p : document_step s TD_TEXT (WLen p) (set_text s (from_utf8_lossy p))
| ds_md5 s p : document_step s TD_MD5 (WLen p) (set_md5 s (from_utf8_lossy p))
| ds_language s v : document_step s TD_LANGUAGE (WVarint v) (set_language s (as_i32 v))
| ds_symbol s p x : message symbol_info_default symbol_info_step p x →
    document_step s TD_SYMBOLS (WLen p) (push_symbol s x)
| ds_occurrence s p x : message occurrence_default occurrence_step p x →
    document_step s TD_OCCURRENCES (WLen p) (push_occurrence s x)
| ds_unknown s n v :
    (n, wtype v) ∉ [(TD_SCHEMA, 0); (TD_URI, 2); (TD_TEXT, 2); (TD_MD5, 2); (TD_LANGUAGE, 0);
                    (TD_SYMBOLS, 2); (TD_OCCURRENCES, 2)] → document_step s n v s.

Inductive documents_step : list SdbDocument → Z → wval → list SdbDocument → Prop :=
| dss_document s p x : message document_default document_step p x →
    documents_step s DOCUMENTS (WLen p) (s ++ [x])
| dss_unknown s n v : (n, wtype v) ∉ [(DOCUMENTS, 2)] → documents_step s n v s.

(** [b] is a protobuf encoding of [d] under the schema: fields in any order, the last one
    of a scalar field counts, repeated ones accumulate, and any others are ignored. *)
Definition encodes (b : bytes) (d : SdbDocuments) : Prop :=
  message [] documents_step b (documents d).

(** ** Lemmas: safety of the loops *)

Lemma fields_loop_safe {S : Type} (body : Z → Z → S → ProtoReader → result Stop (S * ProtoReader)) :
  (∀ f w s r, reader_wf r → parse_safe (λ '(_, r'), advanced 0 r r') (body f w s r)) →
  ∀ fuel s r, reader_wf r → zlen (window r) < Z.of_nat fuel →
  parse_safe (λ _, True) (fields_loop body fuel s r).
Proof.
  intros Hbody. induction fuel as [|fuel IH]; intros s r Hwf Hf.
  { pose proof (zlen_nonneg (window r)). lia. }
  cbn [fields_loop]. destruct (has_remaining r); [|exact I].
  eapply parse_safe_bind; [by apply read_tag_safe|]. intros [tag r1] (_ & _ & Ha).
  pose proof (advanced_wf 1 _ _ ltac:(lia) Hwf Ha) as Hwf1.
  eapply parse_safe_bind; [by apply Hbody|]. intros [s2 r2] Ha2.
  pose proof (advanced_wf 0 _ _ ltac:(lia) Hwf1 Ha2) as Hwf2.
  apply IH; [done|]. rewrite zlen_window in * by done.
  destruct Ha as (k & ? & ? & ->), Ha2 as (j & ? & ? & ->). cbn. lia.
Qed.

Lemma loop_fuel_window r : reader_wf r → zlen (window r) < Z.of_nat (loop_fuel r).
Proof. intros Hwf. rewrite zlen_window by done. unfold loop_fuel. destruct Hwf. lia. Qed.

Lemma read_bind_safe {A B : Type} (m : result Stop (A * ProtoReader)) (f : A → B) P r :
  parse_safe P m → (∀ x r', P (x, r') → advanced 1 r r') →
  parse_safe (λ '(_, r'), advanced 0 r r') ('(v, r) ← m; Ok (f v, r)).
Proof.
  intros Hm Hp. eapply parse_safe_bind; [exact Hm|]. intros [x r'] H.
  eapply (advanced_weaken 0 1); [lia|]. by eapply Hp.
Qed.

Lemma int32_bind_safe {B : Type} (f : Z → B) r :
  reader_wf r → parse_safe (λ '(_, r'), advanced 0 r r') ('(v, r) ← read_int32 r; Ok (f v, r)).
Proof. intros Hwf. eapply read_bind_safe; [by apply read_int32_safe|]. by intros x r' [_ ?]. Qed.

Lemma string_bind_safe {B : Type} (f : list Z → B) r :
  reader_wf r → parse_safe (λ '(_, r'), advanced 0 r r') ('(v, r) ← read_string r; Ok (f v, r)).
Proof. intros Hwf. by eapply read_bind_safe; [by apply read_string_safe|]. Qed.

Lemma skip_bind_safe {B : Type} (b : B) w f r :
  reader_wf r → parse_safe (λ '(_, r'), advanced 0 r r') (r ← skip w f r; Ok (b, r)).
Proof. intros Hwf. by eapply parse_safe_bind; [by apply skip_is_safe|]. Qed.

Lemma message_bind_safe {A B : Type} (parse : ProtoReader → result Stop A) (f : A → B) r :
  (∀ m, reader_wf m → parse_safe (λ _, True) (parse m)) → reader_wf r →
  parse_safe (λ '(_, r'), advanced 0 r r')
    ('(m, r) ← read_message r; v ← parse m; Ok (f v, r)).
Proof.
  intros Hp Hwf. eapply parse_safe_bind; [by apply read_message_safe|].
  intros [m r'] (Hm & _ & Ha). eapply parse_safe_bind; [by apply Hp|].
  intros x _. by eapply (advanced_weaken 0 1); [lia|].
Qed.

(** Every arm of a loop body reads a value and stores it, or skips. *)
Ltac body_safe :=
  repeat case_match;
  first [ by eapply skip_bind_safe
        | by eapply (int32_bind_safe (λ v, _))
        | by eapply (string_bind_safe (λ v, _))
        | by eapply (message_bind_safe _ (λ v, _)); eauto with rust ].

Lemma parse_range_safe r : reader_wf r → parse_safe (λ _, True) (parse_range r).
Proof.
  intros Hwf. apply fields_loop_safe; [|done|by apply loop_fuel_window]. clear.
  intros f w s r Hwf. unfold range_body. body_safe.
Qed.
#[export] Hint Resolve parse_range_safe : rust.

Lemma parse_occurrence_safe r : reader_wf r → parse_safe (λ _, True) (parse_occurrence r).
Proof.
  intros Hwf. apply fields_loop_safe; [|done|by apply loop_fuel_window]. clear.
  intros f w s r Hwf. unfold occurrence_body. body_safe.
Qed.
#[export] Hint Resolve parse_occurrence_safe : rust.

Lemma parse_symbol_info_safe r : reader_wf r → parse_safe (λ _, True) (parse_symbol_info r).
Proof.
  intros Hwf. apply fields_loop_safe; [|done|by apply loop_fuel_window]. clear.
  intros f w s r Hwf. unfold symbol_info_body. body_safe.
Qed.
#[export] Hint Resolve parse_symbol_info_safe : rust.

Lemma parse_document_safe r : reader_wf r → parse_safe (λ _, True) (parse_document r).
Proof.
  intros Hwf. apply fields_loop_safe; [|done|by apply loop_fuel_window]. clear.
  intros f w s r Hwf. unfold document_body. body_safe.
Qed.
#[export] Hint Resolve parse_document_safe : rust.

Lemma reader_new_wf b : inU 64 (zlen b) → reader_wf (reader_new b) ∧ window (reader_new b) = b.
Proof.
  intros Hb. pose proof (zlen_nonneg b). split.
  - unfold reader_wf, reader_new. cbn. split_and!; lia || done.
  - unfold window, reader_new. cbn. rewrite drop_0. apply take_ge. unfold zlen. lia.
Qed.

Lemma parse_text_documents_safe b :
  inU 64 (zlen b) → parse_safe (λ _, True) (parse_text_documents b).
Proof.
  intros Hb. destruct (reader_new_wf b Hb) as [Hwf _]. unfold parse_text_documents.
  eapply parse_safe_bind; [|done].
  apply fields_loop_safe; [|done|by apply loop_fuel_window]. clear.
  intros f w s r Hwf. unfold documents_body. body_safe.
Qed.

(** ** Lemmas: the encoding *)

Lemma enc_varint_aux_spec fuel v rest :
  (0 < fuel)%nat → 0 ≤ v < 2 ^ (7 * Z.of_nat fuel) →
  let e := enc_varint_aux fuel v in
  S (length (continuation (e ++ rest))) = length e ∧ val128 e = v ∧ (length e ≤ fuel)%nat.
Proof.
  revert v. induction fuel as [|fuel IH]; intros v Hf Hv; [lia|]. cbn [enc_varint_aux].
  destruct (Z.ltb_spec v 128) as [Hlt|Hge].
  - cbn [app continuation val128 length]. rewrite byte_val_of, (Z.mod_small v 256) by lia.
    destruct (Z.leb_spec 128 v); [lia|]. rewrite Z.mod_small by lia. cbn. split_and!; lia.
  - pose proof (Z.mod_pos_bound v 128 ltac:(lia)).
    assert (byte_val (byte_of (v mod 128 + 128)) = v mod 128 + 128) as Eb.
    { rewrite byte_val_of. apply Z.mod_small. lia. }
    destruct fuel as [|fuel]; [cbn in Hv; lia|].
    destruct (IH (v / 128)) as (IH1 & IH2 & IH3); [lia| |].
    { split; [apply Z.div_pos; lia|]. apply Z.div_lt_upper_bound; [lia|].
      replace (128 * 2 ^ (7 * Z.of_nat (S fuel))) with (2 ^ (7 * Z.of_nat (S (S fuel)))); [lia|].
      change 128 with (2 ^ 7). rewrite <- Z.pow_add_r by lia. f_equal. lia. }
    set (e := enc_varint_aux (S fuel) (v / 128)) in *. cbn [app continuation val128 length].
    rewrite Eb. destruct (Z.leb_spec 128 (v mod 128 + 128)); [|lia]. cbn [length].
    split_and!; [lia| |lia]. rewrite IH2.
    rewrite <- Z.add_mod_idemp_r, Z.mod_same, Z.add_0_r, Z.mod_mod by lia.
    pose proof (Z.div_mod v 128). lia.
Qed.

Lemma read_varint_enc r v rest :
  reader_wf r → inU 64 v → window r = enc_varint v ++ rest →
  read_varint r = Ok (v, advance r (zlen (enc_varint v))).
Proof.
  intros Hwf Hv Hw. rewrite read_varint_cases by done. cbn zeta. rewrite Hw.
  destruct (enc_varint_aux_spec 10 v rest) as (H1 & H2 & H3); [lia|unfold inU in Hv; cbn; lia|].
  fold (enc_varint v) in *. unfold zlen. rewrite length_app.
  destruct (Z.leb_spec 10 (Z.of_nat (length (continuation (enc_varint v ++ rest))))); [lia|].
  destruct (Z.eqb_spec (Z.of_nat (length (enc_varint v) + length rest))
    (Z.of_nat (length (continuation (enc_varint v ++ rest))))); [lia|].
  rewrite H1, take_app_length, H2, Z.mod_small by done. f_equal. f_equal. f_equal. lia.
Qed.

Lemma read_tag_enc r n wt rest :
  reader_wf r → field_number_ok n → 0 ≤ wt < 8 → window r = enc_tag n wt ++ rest →
  ∃ tag, read_tag r = Ok (tag, advance r (zlen (enc_tag n wt))) ∧
         Z.shiftr tag 3 = n ∧ Z.land tag 7 = wt.
Proof.
  unfold field_number_ok. intros Hwf Hn Hwt Hw. exists (8 * n + wt).
  assert (Z.shiftr (8 * n + wt) 3 = n) as Hs.
  { rewrite Z.shiftr_div_pow2 by lia. change (2 ^ 3) with 8. rewrite Z.mul_comm, Z.div_add_l by lia.
    rewrite Z.div_small; lia. }
  unfold read_tag. rewrite (read_varint_enc r (8 * n + wt) rest) by (done || unfold inU; lia).
  cbn [mbind result_bind]. unfold i32_max.
  destruct (Z.eqb_spec (8 * n + wt) 0); [lia|].
  destruct (Z.ltb_spec (2 ^ 31 - 1) (8 * n + wt)); [lia|]. cbn [orb].
  assert (as_u32 (8 * n + wt) = 8 * n + wt) as -> by (apply wrapU_id; unfold inU; lia).
  rewrite Hs. destruct (Z.eqb_spec n 0); [lia|]. split_and!; [done|done|].
  change 7 with (Z.ones 3). rewrite Z.land_ones by lia. change (2 ^ 3) with 8.
  rewrite <- Z.add_mod_idemp_l, Z.mul_comm, Z_mod_mult by lia. by apply Z.mod_small.
Qed.

Lemma read_length_delimited_enc r p rest :
  reader_wf r → inU 64 (zlen p) → window r = enc_varint (zlen p) ++ p ++ rest →
  read_length_delimited_slice r =
    Ok ((r_pos r + zlen (enc_varint (zlen p)), zlen p), advance r (zlen (enc_varint (zlen p) ++ p))).
Proof.
  intros Hwf Hp Hw. unfold read_length_delimited_slice.
  rewrite (read_varint_enc r (zlen p) (p ++ rest)) by done. cbn [mbind result_bind].
  pose proof (window_app_advance r _ _ Hwf Hw) as [Hwf1 Hw1].
  pose proof (zlen_window _ Hwf1) as Hl. rewrite Hw1, zlen_app in Hl.
  set (r1 := advance r _) in *. pose proof (zlen_nonneg rest).
  assert (inU 64 (r_end r1 - r_pos r1)) as Hu.
  { destruct Hwf1 as (?&?&?). unfold inU in *. lia. }
  assert (as_u64 (r_end r1 - r_pos r1) = r_end r1 - r_pos r1) as -> by (by apply wrapU_id).
  destruct (Z.ltb_spec (r_end r1 - r_pos r1) (zlen p)); [lia|].
  assert (as_usize (zlen p) = zlen p) as -> by (by apply wrapU_id).
  fold (advance r1 (zlen p)). subst r1. rewrite advance_advance, zlen_app. done.
Qed.

Lemma window_bytes r :
  reader_wf r → ∃ pre post, r_bytes r = pre ++ window r ++ post ∧ zlen pre = r_pos r.
Proof.
  intros (?&?&?). exists (take (Z.to_nat (r_pos r)) (r_bytes r)).
  exists (drop (Z.to_nat (r_end r - r_pos r)) (drop (Z.to_nat (r_pos r)) (r_bytes r))).
  unfold window. rewrite take_drop, take_drop. split; [done|].
  unfold zlen in *. rewrite length_take. lia.
Qed.

Lemma payload_slice r h p rest :
  reader_wf r → window r = h ++ p ++ rest →
  slice (r_bytes r) (r_pos r + zlen h) (zlen p) = Some p.
Proof.
  intros Hwf Hw. destruct (window_bytes r Hwf) as (pre & post & -> & <-). rewrite Hw.
  apply slice_Some. exists (pre ++ h), (rest ++ post). rewrite zlen_app, <- !app_assoc. done.
Qed.

Lemma read_string_enc r p rest :
  reader_wf r → inU 64 (zlen p) → window r = enc_varint (zlen p) ++ p ++ rest →
  read_string r = Ok (from_utf8_lossy p, advance r (zlen (enc_varint (zlen p) ++ p))).
Proof.
  intros Hwf Hp Hw. unfold read_string. rewrite (read_length_delimited_enc r p rest) by done.
  cbn [mbind result_bind r_bytes advance with_pos]. by rewrite (payload_slice r _ p rest).
Qed.

Lemma read_message_enc r p rest :
  reader_wf r → inU 64 (zlen p) → window r = enc_varint (zlen p) ++ p ++ rest →
  ∃ m, read_message r = Ok (m, advance r (zlen (enc_varint (zlen p) ++ p))) ∧
       reader_wf m ∧ window m = p.
Proof.
  intros Hwf Hp Hw. unfold read_message. rewrite (read_length_delimited_enc r p rest) by done.
  cbn [mbind result_bind r_bytes advance with_pos]. eexists. split; [done|].
  pose proof (payload_slice r _ p rest Hwf Hw) as Hs.
  assert (is_Some (slice (r_bytes r) (r_pos r + zlen (enc_varint (zlen p))) (zlen p))) as Hi by eauto.
  apply slice_is_Some in Hi. destruct Hwf as (?&?&?). split.
  - unfold reader_wf, reader_slice. cbn [r_pos r_end r_bytes]. split_and!; lia || done.
  - unfold window, reader_slice. cbn [r_pos r_end r_bytes]. rewrite Z.add_simpl_l. unfold slice in Hs.
    destruct (_ && _); [|done]. by injection Hs.
Qed.

Lemma read_int32_enc r v rest :
  reader_wf r → inU 64 v → window r = enc_varint v ++ rest →
  read_int32 r = Ok (as_i32 v, advance r (zlen (enc_varint v))).
Proof. intros Hwf Hv Hw. unfold read_int32. by rewrite (read_varint_enc r v rest). Qed.

(** ** Lemmas: fields are skipped and decoded *)

(** Induction over wire values, the fields of a group included. *)
Fixpoint wval_rect' (P : wval → Prop)
    (Hv : ∀ v, P (WVarint v)) (H64 : ∀ bs, P (WFixed64 bs)) (Hl : ∀ p, P (WLen p))
    (Hg : ∀ fs, Forall (λ f, P f.2) fs → P (WGroup fs)) (H32 : ∀ bs, P (WFixed32 bs)) (v : wval) : P v :=
  match v with
  | WVarint v => Hv v
  | WFixed64 bs => H64 bs
  | WLen p => Hl p
  | WGroup fs =>
      Hg fs ((fix go (fs : list (Z * wval)) : Forall (λ f, P f.2) fs :=
        match fs with
        | [] => Forall_nil_2 _
        | (m, w) :: fs =>
            Forall_cons_2 (λ f, P f.2) (m, w) fs (wval_rect' P Hv H64 Hl Hg H32 w) (go fs)
        end) fs)
  | WFixed32 bs => H32 bs
  end.

Lemma enc_val_group n fs : enc_val n (WGroup fs) = enc_fields fs ++ enc_tag n 4.
Proof.
  change (enc_val n (WGroup fs)) with (flat_map (λ f, match f with (m, w) =>
    enc_tag m (wtype w) ++ enc_val m w end) fs ++ enc_tag n 4).
  f_equal. apply flat_map_ext. by intros [m w].
Qed.

Lemma wf_val_group fs : wf_val (WGroup fs) ↔ Forall wf_field fs.
Proof.
  induction fs as [|[m w] fs IH]; cbn; [by split|]. rewrite Forall_cons. unfold wf_field at 1.
  cbn in *. rewrite IH. naive_solver.
Qed.

Lemma wtype_range v : 0 ≤ wtype v < 8 ∧ wtype v ≠ 4.
Proof. destruct v; cbn; lia. Qed.

Lemma enc_field_cons f fs : enc_fields (f :: fs) = enc_tag f.1 (wtype f.2) ++ enc_val f.1 f.2 ++ enc_fields fs.
Proof. unfold enc_fields. cbn [flat_map]. unfold enc_field at 1. by rewrite <- app_assoc. Qed.

Lemma skip_bytes_enc r bs rest :
  reader_wf r → window r = bs ++ rest → skip_bytes r (zlen bs) = Ok (advance r (zlen bs)).
Proof.
  intros Hwf Hw. pose proof (zlen_window r Hwf) as Hl. rewrite Hw, zlen_app in Hl.
  unfold skip_bytes. pose proof (zlen_nonneg rest).
  destruct (Z.ltb_spec (r_end r - r_pos r) (zlen bs)); [lia|done].
Qed.

Lemma advance_app r (a b : bytes) : advance (advance r (zlen a)) (zlen b) = advance r (zlen (a ++ b)).
Proof. by rewrite advance_advance, zlen_app. Qed.

(** The loop over the fields of a group, for fields that are each skipped exactly. *)
Lemma skip_group_enc fs :
  Forall wf_field fs →
  Forall (λ f, ∀ fuel fn r rest, field_number_ok fn → reader_wf r → window r = enc_val fn f.2 ++ rest →
    2 * zlen (window r) + 2 ≤ Z.of_nat fuel →
    skip_field fuel (wtype f.2) fn r = Ok (advance r (zlen (enc_val fn f.2)))) fs →
  ∀ fuel fn r rest, field_number_ok fn → reader_wf r →
    window r = (enc_fields fs ++ enc_tag fn 4) ++ rest →
    2 * zlen (window r) + 1 ≤ Z.of_nat fuel →
    skip_group fuel fn r = Ok (advance r (zlen (enc_fields fs ++ enc_tag fn 4))).
Proof.
  intros Hfs Hsk. induction Hfs as [|[n v] fs [Hn Hv] Hfs IH]; intros fuel fn r rest Hfn Hwf Hw Hfuel.
  all: pose proof (zlen_nonneg (window r)); destruct fuel as [|fuel]; [lia|]; cbn [skip_group].
  - cbn [enc_fields flat_map app] in *.
    destruct (read_tag_enc r fn 4 rest) as (tag & -> & Hs & Hl); [done|done|lia|done|].
    cbn [mbind result_bind]. by rewrite Hs, Hl, !Z.eqb_refl.
  - inversion Hsk as [|? ? Hsk1 Hsk2]; subst. cbn [fst snd] in *.
    rewrite enc_field_cons in Hw |- *. cbn [fst snd] in *. rewrite <- !app_assoc in Hw.
    destruct (wtype_range v) as [Hwt Hwt4].
    destruct (read_tag_enc r n (wtype v) _ Hwf Hn Hwt Hw) as (tag & -> & Hs & Hl).
    cbn [mbind result_bind]. rewrite Hs, Hl. destruct (Z.eqb_spec (wtype v) 4); [done|].
    destruct (window_app_advance r _ _ Hwf Hw) as [Hwf1 Hw1].
    set (r1 := advance r _) in *.
    assert (zlen (window r1) < zlen (window r)) as Hlt.
    { rewrite Hw, Hw1, !zlen_app. unfold enc_tag, enc_varint.
      destruct (enc_varint_aux_spec 10 (8 * n + wtype v) []) as (Hlen & _); [lia|unfold field_number_ok in Hn; cbn; lia|].
      unfold zlen. lia. }
    rewrite (Hsk1 fuel n r1 _ Hn Hwf1 Hw1) by lia. cbn [mbind result_bind].
    destruct (window_app_advance r1 _ _ Hwf1 Hw1) as [Hwf2 Hw2].
    rewrite (IH Hsk2 fuel fn _ rest Hfn Hwf2); [| |].
    + subst r1. rewrite !advance_app, <- !app_assoc. done.
    + by rewrite Hw2, <- !app_assoc.
    + rewrite Hw2. rewrite Hw1, !zlen_app in Hlt. rewrite !zlen_app in *.
      pose proof (zlen_nonneg (enc_val n v)). lia.
Qed.

Lemma skip_field_enc v :
  wf_val v → ∀ fuel fn r rest, field_number_ok fn → reader_wf r → window r = enc_val fn v ++ rest →
  2 * zlen (window r) + 2 ≤ Z.of_nat fuel →
  skip_field fuel (wtype v) fn r = Ok (advance r (zlen (enc_val fn v))).
Proof.
  induction v as [x|bs|p|fs IH|bs] using wval_rect'; intros Hv fuel fn r rest Hfn Hwf Hw Hfuel.
  all: pose proof (zlen_nonneg (window r)); destruct fuel as [|fuel]; [lia|].
  - change (wtype (WVarint x)) with 0. cbn [skip_field Z.eqb].
    by rewrite (read_varint_enc r x rest).
  - change (wtype (WFixed64 bs)) with 1. cbn [skip_field Z.eqb Pos.eqb].
    cbn [wf_val enc_val] in *. rewrite <- Hv. by eapply skip_bytes_enc.
  - change (wtype (WLen p)) with 2. cbn [skip_field Z.eqb Pos.eqb enc_val] in *.
    by rewrite (read_length_delimited_enc r p rest) by (done || by rewrite Hw, <- app_assoc).
  - change (wtype (WGroup fs)) with 3. cbn [skip_field Z.eqb Pos.eqb].
    rewrite enc_val_group in Hw |- *. apply wf_val_group in Hv.
    apply skip_group_enc with rest; try done; [|lia].
    eapply Forall_impl; [apply Forall_and; split; [exact IH|exact Hv]|].
    intros [m w] [Hf [Hm Hwf']]. by apply Hf.
  - change (wtype (WFixed32 bs)) with 5. cbn [skip_field Z.eqb Pos.eqb].
    cbn [wf_val enc_val] in *. rewrite <- Hv. by eapply skip_bytes_enc.
Qed.

Lemma skip_enc v n r rest :
  wf_field (n, v) → reader_wf r → window r = enc_val n v ++ rest →
  skip (wtype v) n r = Ok (advance r (zlen (enc_val n v))).
Proof.
  intros [Hn Hv] Hwf Hw. eapply skip_field_enc; try done. rewrite zlen_window by done.
  unfold skip_fuel. destruct Hwf. lia.
Qed.

(** A body that realises the effect of one field realises the effect of a message. *)
Definition decodes {S : Type} (step : S → Z → wval → S → Prop)
    (body : Z → Z → S → ProtoReader → result Stop (S * ProtoReader)) : Prop :=
  ∀ s n v s' r rest, step s n v s' → wf_field (n, v) → reader_wf r →
    window r = enc_val n v ++ rest →
    body n (wtype v) s r = Ok (s', advance r (zlen (enc_val n v))).

Lemma fields_loop_enc {S : Type} step (body : Z → Z → S → ProtoReader → result Stop (S * ProtoReader)) fs s s' :
  decodes step body → Forall wf_field fs → fold_fields step s fs s' →
  ∀ fuel r, reader_wf r → window r = enc_fields fs → (length fs < fuel)%nat →
  fields_loop body fuel s r = Ok s'.
Proof.
  intros Hb Hfs Hfold. induction Hfold as [s|s s1 s2 n v fs Hstep Hfold IH]; intros fuel r Hwf Hw Hfuel.
  all: destruct fuel as [|fuel]; [lia|]; cbn [fields_loop]; rewrite has_remaining_window by done.
  - by rewrite Hw.
  - apply Forall_cons in Hfs as [Hf Hfs]. rewrite enc_field_cons in Hw. cbn [fst snd] in Hw.
    destruct (wtype_range v) as [Hwt _]. pose proof Hf as [Hn _]. cbn in Hn.
    destruct (read_tag_enc r n (wtype v) _ Hwf Hn Hwt Hw) as (tag & -> & Hs & Hl).
    destruct (window_app_advance r _ _ Hwf Hw) as [Hwf1 Hw1].
    assert (∃ b w, window r = b :: w) as (b & w & ->).
    { rewrite Hw. unfold enc_tag, enc_varint. cbn [enc_varint_aux].
      destruct (_ <? 128); eexists _, _; reflexivity. }
    cbn [mbind result_bind]. rewrite Hs, Hl.
    rewrite (Hb s n v s1 _ _ Hstep Hf Hwf1 Hw1). cbn [mbind result_bind].
    destruct (window_app_advance _ _ _ Hwf1 Hw1) as [Hwf2 Hw2].
    apply IH; try done. cbn [length] in Hfuel. lia.
Qed.

Lemma length_enc_fields fs : (length fs ≤ length (enc_fields fs))%nat.
Proof.
  induction fs as [|[n v] fs IH]; [done|]. rewrite enc_field_cons. cbn [length fst snd].
  rewrite length_app. unfold enc_tag, enc_varint at 1. cbn [enc_varint_aux].
  destruct (_ <? 128); cbn [length]; rewrite length_app; lia.
Qed.

Lemma message_decoded {S : Type} (s0 : S) step body p s r :
  decodes step body → message s0 step p s → reader_wf r → window r = p →
  fields_loop body (loop_fuel r) s0 r = Ok s.
Proof.
  intros Hb [fs s' Hfs Hfold] Hwf Hw. eapply fields_loop_enc; try done.
  pose proof (length_enc_fields fs). pose proof (loop_fuel_window r Hwf) as Hl.
  rewrite Hw in Hl. unfold zlen in Hl. lia.
Qed.

(** Decides which arm of a body a field takes. *)
Ltac field_arm :=
  unfold is_field;
  repeat match goal with
  | |- context [(?n =? ?a) && (?w =? ?b)] =>
      first [ change ((n =? a) && (w =? b)) with true; cbn iota
            | change ((n =? a) && (w =? b)) with false; cbn iota ]
  end.

(** An unknown field takes none of the arms. *)
Lemma is_field_unknown n v f w (l : list (Z * Z)) :
  (n, wtype v) ∉ l → (f, w) ∈ l → is_field n (wtype v) f w = false.
Proof.
  intros Hn Hin. unfold is_field. apply andb_false_iff.
  destruct (Z.eqb_spec n f), (Z.eqb_spec (wtype v) w); subst; auto. by destruct Hn.
Qed.

Ltac skip_arm :=
  match goal with
  | H : (_, _) ∉ ?l |- _ =>
      repeat match goal with
      | |- context [is_field ?n (wtype ?v) ?f ?w] =>
          rewrite (is_field_unknown n v f w _ H)
            by (repeat first [apply list_elem_of_here | apply list_elem_of_further])
      end
  end;
  erewrite skip_enc by done; reflexivity.

Lemma range_decodes : decodes range_step range_body.
Proof.
  intros s n v s' r rest Hstep [Hn Hv] Hwf Hw. cbn [snd] in Hv. unfold range_body.
  destruct Hstep; [field_arm; by rewrite (read_int32_enc r v rest)..|skip_arm].
Qed.

Lemma message_in_field {S T : Type} (s0 : S) step body p s r rest (k : S → T) :
  decodes step body → message s0 step p s → inU 64 (zlen p) → reader_wf r →
  window r = enc_varint (zlen p) ++ p ++ rest →
  ('(m, r) ← read_message r; v ← fields_loop body (loop_fuel m) s0 m; Ok (k v, r)) =
  Ok (k s, advance r (zlen (enc_varint (zlen p) ++ p))).
Proof.
  intros Hb Hm Hp Hwf Hw. destruct (read_message_enc r p rest Hwf Hp Hw) as (m & -> & Hwm & Hwm').
  cbn [mbind result_bind]. by rewrite (message_decoded s0 step body p s m).
Qed.

Lemma occurrence_decodes : decodes occurrence_step occurrence_body.
Proof.
  intros s n v s' r rest Hstep [Hn Hv] Hwf Hw. cbn [snd] in Hv. unfold occurrence_body.
  destruct Hstep as [s p x Hm|s p|s v|s n v Hu]; [..|skip_arm];
    cbn [enc_val] in Hw |- *; rewrite <- ?app_assoc in Hw; field_arm.
  - exact (message_in_field _ _ _ p x r rest (λ x, Build_SdbOccurrence (Some x) _ _)
      range_decodes Hm Hv Hwf Hw).
  - by rewrite (read_string_enc r p rest).
  - by rewrite (read_int32_enc r v rest).
Qed.

Lemma symbol_info_decodes : decodes symbol_info_step symbol_info_body.
Proof.
  intros s n v s' r rest Hstep [Hn Hv] Hwf Hw. cbn [snd] in Hv. unfold symbol_info_body.
  destruct Hstep; [..|skip_arm]; cbn [enc_val] in Hw |- *; rewrite <- ?app_assoc in Hw; field_arm.
  all: first [by rewrite (read_string_enc r p rest) | by rewrite (read_int32_enc r v rest)].
Qed.

Lemma document_decodes : decodes document_step document_body.
Proof.
  intros s n v s' r rest Hstep [Hn Hv] Hwf Hw. cbn [snd] in Hv. unfold document_body.
  destruct Hstep as [s v|s p|s p|s p|s v|s p x Hm|s p x Hm|s n v Hu]; [..|skip_arm];
    cbn [enc_val] in Hw |- *; rewrite <- ?app_assoc in Hw; field_arm.
  all: try first [by rewrite (read_string_enc r p rest) | by rewrite (read_int32_enc r v rest)].
  - exact (message_in_field _ _ _ p x r rest (push_symbol s) symbol_info_decodes Hm Hv Hwf Hw).
  - exact (message_in_field _ _ _ p x r rest (push_occurrence s) occurrence_decodes Hm Hv Hwf Hw).
Qed.

Lemma documents_decodes : decodes documents_step documents_body.
Proof.
  intros s n v s' r rest Hstep [Hn Hv] Hwf Hw. cbn [snd] in Hv. unfold documents_body.
  destruct Hstep as [s p x Hm|s n v Hu]; [|skip_arm];
    cbn [enc_val] in Hw |- *; rewrite <- ?app_assoc in Hw; field_arm.
  exact (message_in_field _ _ _ p x r rest (λ x, s ++ [x]) document_decodes Hm Hv Hwf Hw).
Qed.

(** ** A canonical encoder *)

Definition enc_int (n z : Z) : Z * wval := (n, WVarint (wrapU 64 z)).
Definition enc_str (n : Z) (s : list Z) : Z * wval := (n, WLen (as_bytes s)).

Definition encode_range (x : SdbRange) : bytes :=
  enc_fields [enc_int R_START_LINE (start_line x); enc_int R_START_CHARACTER (start_character x);
              enc_int R_END_LINE (end_line x); enc_int R_END_CHARACTER (end_character x)].
Definition encode_occurrence (o : SdbOccurrence) : bytes :=
  enc_fields (match so_range o with Some x => [(SO_RANGE, WLen (encode_range x))] | None => [] end ++
              [enc_str SO_SYMBOL (so_symbol o); enc_int SO_ROLE (role_code o)]).
Definition encode_symbol_info (s : SdbSymbolInfo) : bytes :=
  enc_fields ([enc_str SI_SYMBOL (si_symbol s); enc_int SI_KIND (kind_code s);
               enc_int SI_PROPERTIES (properties s); enc_str SI_DISPLAY_NAME (si_display_name s)] ++
              (enc_str SI_OVERRIDDEN_SYMBOLS <$> overridden_symbols s)).
Definition encode_document (d : SdbDocument) : bytes :=
  enc_fields ([enc_int TD_SCHEMA (sd_schema d); enc_str TD_URI (sd_uri d); enc_str TD_TEXT (sd_text d)] ++
              ((λ s, (TD_SYMBOLS, WLen (encode_symbol_info s))) <$> sd_symbols d) ++
              ((λ o, (TD_OCCURRENCES, WLen (encode_occurrence o))) <$> sd_occurrences d) ++
              [enc_int TD_LANGUAGE (language_code d); enc_str TD_MD5 (sd_md5 d)]).
Definition encode_documents (d : SdbDocuments) : bytes :=
  enc_fields ((λ x, (DOCUMENTS, WLen (encode_document x))) <$> documents d).

(** What the model's types leave open: [i32] fields, valid strings. *)
Definition wf_sdb_range (x : SdbRange) : Prop :=
  inS 32 (start_line x) ∧ inS 32 (start_character x) ∧ inS 32 (end_line x) ∧ inS 32 (end_character x).
Definition wf_sdb_occurrence (o : SdbOccurrence) : Prop :=
  match so_range o with Some x => wf_sdb_range x | None => True end ∧
  wf_str (so_symbol o) ∧ inS 32 (role_code o).
Definition wf_sdb_symbol (s : SdbSymbolInfo) : Prop :=
  wf_str (si_symbol s) ∧ inS 32 (kind_code s) ∧ inS 32 (properties s) ∧
  wf_str (si_display_name s) ∧ Forall wf_str (overridden_symbols s).
Definition wf_sdb_document (d : SdbDocument) : Prop :=
  inS 32 (sd_schema d) ∧ wf_str (sd_uri d) ∧ wf_str (sd_text d) ∧ wf_str (sd_md5 d) ∧
  inS 32 (language_code d) ∧ Forall wf_sdb_symbol (sd_symbols d) ∧
  Forall wf_sdb_occurrence (sd_occurrences d).

Lemma as_i32_wrap z : inS 32 z → as_i32 (wrapU 64 z) = z.
Proof.
  intros Hz. rewrite <- (wrapS_id 32 z) at 2 by (lia || done). unfold as_i32, wrapS, wrapU. f_equal.
  rewrite <- (Z.add_mod_idemp_l z (2 ^ (32 - 1)) (2 ^ 32)), <- (Z.add_mod_idemp_l (z mod 2 ^ 64)) by lia.
  f_equal. f_equal. symmetry. change (2 ^ 64) with (2 ^ 32 * 2 ^ 32).
  rewrite Z.rem_mul_r by lia. rewrite Z.mul_comm, Z_mod_plus_full. by rewrite Z.mod_mod by lia.
Qed.

Lemma payload_le n p fs : (n, WLen p) ∈ fs → zlen p ≤ zlen (enc_fields fs).
Proof.
  induction fs as [|[m w] fs IH]; [by intros ?%not_elem_of_nil|].
  rewrite enc_field_cons, !zlen_app. cbn [fst snd]. pose proof (zlen_nonneg (enc_tag m (wtype w))).
  intros [[= <- <-]|H1]%elem_of_cons.
  - cbn [enc_val]. rewrite zlen_app. pose proof (zlen_nonneg (enc_varint (zlen p))).
    pose proof (zlen_nonneg (enc_fields fs)). lia.
  - specialize (IH H1). pose proof (zlen_nonneg (enc_val m w)). lia.
Qed.

Lemma payload_fits n p fs : inU 64 (zlen (enc_fields fs)) → (n, WLen p) ∈ fs → inU 64 (zlen p).
Proof. intros Hl Hin%payload_le. unfold inU in *. pose proof (zlen_nonneg p). lia. Qed.

(** A field list is well formed when its numbers are and its encoding is short enough. *)
Lemma fields_wf fs :
  inU 64 (zlen (enc_fields fs)) →
  Forall (λ f, field_number_ok f.1 ∧ match f.2 with WLen _ => True | v => wf_val v end) fs →
  Forall wf_field fs.
Proof.
  intros Hl H. apply Forall_forall. intros [n v] Hin. rewrite Forall_forall in H.
  destruct (H _ Hin) as [Hn Hv]. split; [done|]. cbn in *. destruct v as [|?|p| |]; try done.
  apply payload_le in Hin. cbn. unfold inU in *. pose proof (zlen_nonneg p). lia.
Qed.

Ltac field_ok :=
  repeat (apply Forall_cons; split; [split; [cbv; split; [discriminate|reflexivity]|
    first [done | apply wrapU_range; lia | exact I]]|]); try apply Forall_nil_2.

Lemma fold_fields_app {S : Type} (step : S → Z → wval → S → Prop) s fs s1 gs s2 :
  fold_fields step s fs s1 → fold_fields step s1 gs s2 → fold_fields step s (fs ++ gs) s2.
Proof.
  intros H1 H2. induction H1 as [|s s1' s2' n v fs Hs Hf IH]; cbn; [done|].
  econstructor; [done|]. by apply IH.
Qed.

(** One repeated field: every element is pushed in order. *)
Lemma fold_fields_repeated {S A : Type} (step : S → Z → wval → S → Prop)
    (push : S → A → S) (f : A → Z * wval) (P : A → Prop) l s :
  (∀ s x, P x → step s (f x).1 (f x).2 (push s x)) → Forall P l →
  fold_fields step s (f <$> l) (foldl push s l).
Proof.
  intros Hstep Hl. revert s. induction Hl as [|x l Hx Hl IH]; intros s; cbn; [constructor|].
  specialize (Hstep s x Hx). destruct (f x) as [n v]. econstructor; [exact Hstep|apply IH].
Qed.

Ltac fold_int := econstructor; [constructor|].

Lemma encode_range_message x :
  wf_sdb_range x → inU 64 (zlen (encode_range x)) →
  message range_default range_step (encode_range x) x.
Proof.
  intros (H1 & H2 & H3 & H4) Hl. apply message_intro; [by apply fields_wf; [|field_ok]|].
  do 4 fold_int. cbn [start_line start_character end_line end_character].
  rewrite !as_i32_wrap by done. destruct x. constructor.
Qed.

Lemma fold_string {S : Type} (step : S → Z → wval → S → Prop) n (f : list Z → S) t s fs s' :
  wf_str t → (∀ p, step s n (WLen p) (f (from_utf8_lossy p))) →
  fold_fields step (f t) fs s' → fold_fields step s (enc_str n t :: fs) s'.
Proof.
  intros Ht Hs Hf. econstructor; [apply Hs|]. by rewrite from_utf8_lossy_as_bytes.
Qed.

Lemma fold_integer {S : Type} (step : S → Z → wval → S → Prop) n (f : Z → S) z s fs s' :
  inS 32 z → (∀ v, step s n (WVarint v) (f (as_i32 v))) →
  fold_fields step (f z) fs s' → fold_fields step s (enc_int n z :: fs) s'.
Proof. intros Hz Hs Hf. econstructor; [apply Hs|]. by rewrite as_i32_wrap. Qed.

Lemma encode_occurrence_message o :
  wf_sdb_occurrence o → inU 64 (zlen (encode_occurrence o)) →
  message occurrence_default occurrence_step (encode_occurrence o) o.
Proof.
  destruct o as [x sym role]. intros (Hx & Hs & Hr) Hl. cbn in Hx, Hs, Hr.
  assert (∀ s, fold_fields occurrence_step s [enc_str SO_SYMBOL sym; enc_int SO_ROLE role]
    {| so_range := so_range s; so_symbol := sym; role_code := role |}) as Hrest.
  { intros s. eapply (fold_string _ _ (λ t, Build_SdbOccurrence _ t _)); [done|constructor|].
    eapply (fold_integer _ _ (λ z, Build_SdbOccurrence _ _ z)); [done|constructor|]. constructor. }
  unfold encode_occurrence in *. cbn [so_range so_symbol role_code] in *. destruct x as [x|].
  - apply message_intro; [by apply fields_wf; [|field_ok]|].
    apply (fold_cons _ _ (Build_SdbOccurrence (Some x) [] 0)); [|exact (Hrest _)].
    apply (os_range occurrence_default), encode_range_message; [done|].
    eapply payload_fits; [exact Hl|apply list_elem_of_here].
  - apply message_intro; [by apply fields_wf; [|field_ok]|]. apply Hrest.
Qed.

Lemma encode_symbol_info_message s :
  wf_sdb_symbol s → inU 64 (zlen (encode_symbol_info s)) →
  message symbol_info_default symbol_info_step (encode_symbol_info s) s.
Proof.
  destruct s as [sym kind props name over]. intros (H1 & H2 & H3 & H4 & H5) Hl. cbn in H1, H2, H3, H4, H5.
  apply message_intro.
  - apply fields_wf; [done|]. cbn [app overridden_symbols]. field_ok. apply Forall_fmap, Forall_true.
    intros x. cbv. split; [split; [discriminate|reflexivity]|exact I].
  - cbn [app si_symbol kind_code properties si_display_name overridden_symbols].
    eapply (fold_string _ _ (λ t, Build_SdbSymbolInfo t _ _ _ _)); [done|constructor|].
    eapply (fold_integer _ _ (λ t, Build_SdbSymbolInfo _ t _ _ _)); [done|constructor|].
    eapply (fold_integer _ _ (λ t, Build_SdbSymbolInfo _ _ t _ _)); [done|constructor|].
    eapply (fold_string _ _ (λ t, Build_SdbSymbolInfo _ _ _ t _)); [done|constructor|].
    assert (∀ l s, foldl (λ s t, Build_SdbSymbolInfo (si_symbol s) (kind_code s) (properties s)
        (si_display_name s) (overridden_symbols s ++ [t])) s l =
      Build_SdbSymbolInfo (si_symbol s) (kind_code s) (properties s) (si_display_name s)
        (overridden_symbols s ++ l)) as Hfold.
    { intros l. induction l as [|t l IH]; intros s; cbn; [destruct s; cbn; by rewrite app_nil_r|].
      rewrite IH. cbn. by rewrite <- app_assoc. }
    pose proof (Hfold over (Build_SdbSymbolInfo sym kind props name [])) as E. cbn in E. rewrite <- E.
    eapply fold_fields_repeated; [|exact H5]. intros s x Hx. cbn.
    rewrite <- (from_utf8_lossy_as_bytes x) at 2 by done. constructor.
Qed.

Lemma foldl_push_symbol l d :
  foldl push_symbol d l =
  {| sd_schema := sd_schema d; sd_uri := sd_uri d; sd_text := sd_text d; sd_md5 := sd_md5 d;
     language_code := language_code d; sd_symbols := sd_symbols d ++ l;
     sd_occurrences := sd_occurrences d |}.
Proof.
  revert d. induction l as [|x l IH]; intros d; cbn; [destruct d; cbn; by rewrite app_nil_r|].
  rewrite IH. cbn. by rewrite <- app_assoc.
Qed.

Lemma foldl_push_occurrence l d :
  foldl push_occurrence d l =
  {| sd_schema := sd_schema d; sd_uri := sd_uri d; sd_text := sd_text d; sd_md5 := sd_md5 d;
     language_code := language_code d; sd_symbols := sd_symbols d;
     sd_occurrences := sd_occurrences d ++ l |}.
Proof.
  revert d. induction l as [|x l IH]; intros d; cbn; [destruct d; cbn; by rewrite app_nil_r|].
  rewrite IH. cbn. by rewrite <- app_assoc.
Qed.

(** The embedded messages of a field list that fits are themselves encodings. *)
Lemma payloads_fit {A : Type} n (enc : A → bytes) (P : A → Prop) fs l :
  inU 64 (zlen (enc_fields fs)) → (∀ x, x ∈ l → (n, WLen (enc x)) ∈ fs) → Forall P l →
  Forall (λ x, P x ∧ inU 64 (zlen (enc x))) l.
Proof.
  intros Hl Hin H. rewrite Forall_forall in *. intros x Hx. split; [by apply H|].
  eapply payload_fits; [exact Hl|by apply Hin].
Qed.

Lemma encode_document_message d :
  wf_sdb_document d → inU 64 (zlen (encode_document d)) →
  message document_default document_step (encode_document d) d.
Proof.
  intros (H1 & H2 & H3 & H4 & H5 & H6 & H7) Hl. unfold encode_document in Hl.
  eapply (payloads_fit TD_SYMBOLS encode_symbol_info) in H6; [|exact Hl|set_solver].
  eapply (payloads_fit TD_OCCURRENCES encode_occurrence) in H7; [|exact Hl|set_solver].
  apply message_intro.
  - apply fields_wf; [done|]. cbn [app]. field_ok. apply Forall_app. split; [|apply Forall_app; split].
    + apply Forall_fmap, Forall_true. intros x. cbv. split; [split; [discriminate|reflexivity]|exact I].
    + apply Forall_fmap, Forall_true. intros x. cbv. split; [split; [discriminate|reflexivity]|exact I].
    + field_ok.
  - cbn [app].
    eapply (fold_integer _ _ (set_schema _)); [done|constructor|].
    eapply (fold_string _ _ (set_uri _)); [done|constructor|].
    eapply (fold_string _ _ (set_text _)); [done|constructor|].
    eapply fold_fields_app.
    { eapply (fold_fields_repeated _ push_symbol); [|exact H6]. intros s x [Hx Hfit].
      constructor. by apply encode_symbol_info_message. }
    eapply fold_fields_app.
    { eapply (fold_fields_repeated _ push_occurrence); [|exact H7]. intros s x [Hx Hfit].
      constructor. by apply encode_occurrence_message. }
    rewrite foldl_push_symbol, foldl_push_occurrence. cbn.
    eapply (fold_integer _ _ (set_language _)); [done|constructor|].
    eapply (fold_string _ _ (set_md5 _)); [done|constructor|]. cbn. destruct d. constructor.
Qed.

Lemma encode_documents_encodes d :
  Forall wf_sdb_document (documents d) → inU 64 (zlen (encode_documents d)) →
  encodes (encode_documents d) d.
Proof.
  intros H Hl. unfold encode_documents in *.
  eapply (payloads_fit DOCUMENTS encode_document) in H; [|exact Hl|set_solver].
  apply message_intro.
  - apply fields_wf; [done|]. apply Forall_fmap, Forall_true. intros x. cbv.
    split; [split; [discriminate|reflexivity]|exact I].
  - assert (∀ l s, foldl (λ s (x : SdbDocument), s ++ [x]) s l = s ++ l) as Hfold.
    { intros l. induction l as [|x l IH]; intros s; cbn; [by rewrite app_nil_r|].
      rewrite IH. by rewrite <- app_assoc. }
    enough (fold_fields documents_step [] ((λ x, (DOCUMENTS, WLen (encode_document x))) <$> documents d)
      (foldl (λ s (x : SdbDocument), s ++ [x]) [] (documents d))) as Hf by by rewrite Hfold in Hf.
    eapply (fold_fields_repeated documents_step (λ s x, s ++ [x])); [|exact H].
    intros s x [Hx Hfit]. constructor. by apply encode_document_message.
Qed.

Lemma encodes_parsed b d : inU 64 (zlen b) → encodes b d → parse_text_documents b = Ok d.
Proof.
  intros Hb Hd. destruct (reader_new_wf b Hb) as [Hwf Hw]. unfold parse_text_documents.
  rewrite (message_decoded [] documents_step documents_body b (documents d)); try done;
    [by destruct d|exact documents_decodes].
Qed.

(** ** Properties *)

(** The decoder is total: on any byte string it returns either a document list or a
    parse error. It never indexes out of bounds, and its loops and the recursion through
    nested groups terminate within a number of steps linear in the payload. *)
Theorem parse_text_documents_total b :
  inU 64 (zlen b) →
  (∃ d, parse_text_documents b = Ok d) ∨
  (∃ m, parse_text_documents b = Err (Failed (Parse m))).
Proof.
  intros Hb. pose proof (parse_text_documents_safe b Hb) as H.
  destruct (parse_text_documents b) as [d|[[m|m|m]| |]]; cbn in H; eauto; done.
Qed.

Lemma parse_text_documents_total_witness :
  inU 64 (zlen [x0b; x0c; x0a; x01]) ∧
  ((∃ d, parse_text_documents [x0b; x0c; x0a; x01] = Ok d) ∨
   (∃ m, parse_text_documents [x0b; x0c; x0a; x01] = Err (Failed (Parse m)))).
Proof.
  split; [cbv; split; [discriminate|reflexivity]|].
  apply (parse_text_documents_total [x0b; x0c; x0a; x01]). cbv. split; [discriminate|reflexivity].
Defined.



(** Encoding then decoding is the identity on every well-formed document list. *)
Theorem encode_parse_roundtrip d :
  Forall wf_sdb_document (documents d) → inU 64 (zlen (encode_documents d)) →
  parse_text_documents (encode_documents d) = Ok d.
Proof. intros Hd Hl. apply encodes_parsed; [done|]. by apply encode_documents_encodes. Qed.

Lemma encode_parse_roundtrip_witness :
  let d := {| documents := [{| sd_schema := 4; sd_uri := lit "a.scala"; sd_text := []; sd_md5 := lit "D4";
      language_code := 1;
      sd_symbols := [{| si_symbol := lit "p/A#"; kind_code := 13; properties := -1;
                        si_display_name := [955]; overridden_symbols := [lit "x#"; lit "y#"] |}];
      sd_occurrences := [{| so_range := Some {| start_line := 0; start_character := 6; end_line := 0;
                              end_character := 300 |};
                            so_symbol := lit "p/A#"; role_code := DEFINITION |}] |}] |} in
  parse_text_documents (encode_documents d) = Ok d.
Proof.
  intros d. apply (encode_parse_roundtrip d).
  - repeat (apply Forall_cons; split); try apply Forall_nil_2. unfold wf_sdb_document, d. cbn.
    split_and!; try (refine (bool_decide_unpack _ _); vm_compute; exact I);
      repeat (apply Forall_cons; split); try apply Forall_nil_2; unfold wf_sdb_symbol, wf_sdb_occurrence,
      wf_sdb_range; cbn; split_and!; try (refine (bool_decide_unpack _ _); vm_compute; exact I);
      repeat (apply Forall_cons; split); try apply Forall_nil_2;
      refine (bool_decide_unpack _ _); vm_compute; exact I.
  - refine (bool_decide_unpack _ _). vm_compute. exact I.
Defined.
