(* ===== verification/SdbSymbols.v ===== *)
(** The SemanticDB symbol grammar: [ls-semanticdb/src/symbols.rs].

    A symbol is its list of [char]s, as the functions of that file index them. *)

From S2P Require Import Prelude RustStr.

Definition ROOT_PACKAGE : list Z := lit "_root_/".
Definition EMPTY_PACKAGE : list Z := lit "_empty_/".
Definition CONSTRUCTOR_NAME : list Z := lit "<init>".

Inductive Descriptor :=
| D_Term (name : list Z)
| D_Method (name disambiguator : list Z)
| D_Type (name : list Z)
| D_Package (name : list Z)
| D_Parameter (name : list Z)
| D_TypeParameter (name : list Z).
#[global] Instance Descriptor_eq_dec : EqDecision Descriptor.
Proof. solve_decision. Defined.

(** [Descriptor::name] *)
Definition descriptor_name (d : Descriptor) : list Z :=
  match d with
  | D_Term n | D_Type n | D_Package n | D_Parameter n | D_TypeParameter n | D_Method n _ => n
  end.

Definition is_name_boundary (c : Z) : bool :=
  existsb (Z.eqb c) [ch "/"; ch "."; ch "#"; ch "("; ch ")"; ch "["; ch "]"; ch "`"].

#[global] Arguments is_name_boundary : simpl never.

Definition is_local (symbol : list Z) : bool :=
  (5 <? zlen symbol) && starts_with (lit "local") symbol && negb (existsb is_name_boundary symbol).

Definition is_empty (s : list Z) : bool := match s with [] => true | _ => false end.

Definition is_global (symbol : list Z) : bool := negb (is_empty symbol) && negb (is_local symbol).

Definition is_package (symbol : list Z) : bool := ends_with (lit "/") symbol.

Section symbols.
Context `{CharTables}.

Definition is_java_id_start (c : Z) : bool := is_alphabetic c || (c =? ch "_") || (c =? ch "$").
Definition is_java_id_part (c : Z) : bool := is_java_id_start c || is_numeric c.

Definition encode_name (name : list Z) : list Z :=
  match name with
  | [] => lit "``"
  | head :: _ =>
      let plain := is_java_id_start head && forallb is_java_id_part name in
      if plain then name else lit "`" ++ name ++ lit "`"
  end.
End symbols.

(** [last_index_of(chars, target, from)] with [k = from + 1] positions left to look at. *)
Fixpoint last_index_of (chars : list Z) (target : Z) (k : nat) : option nat :=
  match k with
  | O => None
  | S i => if decide (chars !! i = Some target) then Some i else last_index_of chars target i
  end.

(** The loop [while i >= 0 && !is_name_boundary(chars[i]) { i -= 1 }], started with
    [k = i + 1]; the result is the final [i + 1]. *)
Fixpoint name_start (chars : list Z) (k : nat) : nat :=
  match k with
  | O => O
  | S i => match chars !! i with
           | Some c => if is_name_boundary c then S i else name_start chars i
           | None => S i
           end
  end.

(** [chars[a..b]] for [a <= b <= chars.len()]. *)
Definition sub (chars : list Z) (a b : nat) : list Z := take (b - a) (drop a chars).

(** [read_name_backwards(chars, end_idx)] with [k = end_idx + 1]. *)
Definition read_name_backwards (chars : list Z) (k : nat) : option (nat * list Z) :=
  match k with
  | O => None
  | S end_ =>
      if decide (chars !! end_ = Some (ch "`")) then
        match last_index_of chars (ch "`") end_ with
        | Some open => Some (open, sub chars (S open) end_)
        | None => None
        end
      else
        let start := name_start chars k in
        if Nat.eqb start k then None else Some (start, sub chars start k)
  end.

(** The arms of [split_last] for a parameter and a type parameter: the name must be
    preceded by the opening bracket. *)
Definition bracketed (chars : list Z) (open : Z) (mk : list Z → Descriptor) (k : nat)
    : option (list Z * Descriptor) :=
  match read_name_backwards chars k with
  | Some (S start, name) =>
      if decide (chars !! start = Some open) then Some (take start chars, mk name) else None
  | Some (O, _) | None => None
  end.

Definition named (chars : list Z) (mk : list Z → Descriptor) (k : nat)
    : option (list Z * Descriptor) :=
  '(start, name) ← read_name_backwards chars k; Some (take start chars, mk name).

Definition split_last (symbol : list Z) : option (list Z * Descriptor) :=
  if is_empty symbol || is_local symbol then None
  else
    let chars := symbol in
    let n := length chars in
    match chars !! (n - 1)%nat with
    | Some c =>
        if c =? ch "/" then named chars D_Package (n - 1)
        else if c =? ch "#" then named chars D_Type (n - 1)
        else if c =? ch "." then
          if Nat.leb 2 n && bool_decide (chars !! (n - 2)%nat = Some (ch ")")) then
            open ← last_index_of chars (ch "(") (n - 1);
            named chars (λ name, D_Method name (sub chars open (n - 1))) open
          else named chars D_Term (n - 1)
        else if c =? ch ")" then bracketed chars (ch "(") D_Parameter (n - 1)
        else if c =? ch "]" then bracketed chars (ch "[") D_TypeParameter (n - 1)
        else None
    | None => None
    end.

Definition descriptor_of (symbol : list Z) : option Descriptor := snd <$> split_last symbol.

Definition display_name (symbol : list Z) : option (list Z) := descriptor_name <$> descriptor_of symbol.

Definition owner (symbol : list Z) : option (list Z) :=
  '(o, _) ← split_last symbol; if is_empty o then None else Some o.

(** The loop of [owner_chain], which pushes inner symbols first; [acc] is reversed by
    construction. An owner is a strict prefix, so the length is enough fuel. *)
Fixpoint owner_chain_loop (fuel : nat) (cur : list Z) (acc : list (list Z)) : list (list Z) :=
  match fuel with
  | O => acc
  | S fuel =>
      if is_empty cur then acc
      else
        let acc := cur :: acc in
        match split_last cur with
        | Some (owner_prefix, _) => owner_chain_loop fuel owner_prefix acc
        | None => acc
        end
  end.

Definition owner_chain (symbol : list Z) : list (list Z) :=
  if is_empty symbol then []
  else if is_local symbol then [symbol]
  else owner_chain_loop (length symbol) symbol [].

(** [&chain[..chain.len().saturating_sub(1)]] *)
Definition enclosing (symbol : list Z) : list (list Z) :=
  let chain := owner_chain symbol in take (length chain - 1) chain.

Fixpoint take_while {A : Type} (f : A → bool) (l : list A) : list A :=
  match l with
  | [] => []
  | x :: l => if f x then x :: take_while f l else []
  end.

Definition package_name (symbol : list Z) : option (list Z) :=
  let names :=
    List.filter (λ n, negb (str_eqb n (lit "_root_")) && negb (str_eqb n (lit "_empty_")))
      (omap display_name (take_while is_package (enclosing symbol))) in
  match names with [] => None | _ => Some (join (lit ".") names) end.

Definition owner_name (symbol : list Z) : option (list Z) :=
  s ← List.find (λ s, negb (is_package s)) (rev (enclosing symbol)); display_name s.

Definition companion `{CharTables} (symbol : list Z) : option (list Z) :=
  '(owner_prefix, d) ← split_last symbol;
  match d with
  | D_Type name => Some (owner_prefix ++ encode_name name ++ lit ".")
  | D_Term name => Some (owner_prefix ++ encode_name name ++ lit "#")
  | _ => None
  end.

Definition is_companion_pair `{CharTables} (a b : list Z) : bool := bool_decide (companion a = Some b).

Definition is_constructor (symbol : list Z) : bool :=
  match descriptor_of symbol with
  | Some (D_Method name _) => str_eqb name CONSTRUCTOR_NAME
  | _ => false
  end.

(** [name.chars().count() > 2 && name.ends_with("_=")] *)
Definition setter_name (name : list Z) : bool := (2 <? zlen name) && ends_with (lit "_=") name.

Definition is_setter (symbol : list Z) : bool :=
  match descriptor_of symbol with
  | Some (D_Method name _) => setter_name name
  | _ => false
  end.

(** [truncate(len - 2)] of a name that ends in the two ASCII characters. *)
Definition drop_setter_suffix (name : list Z) : list Z := take (length name - 2) name.

Definition setter_target_name (symbol : list Z) : option (list Z) :=
  match descriptor_of symbol with
  | Some (D_Method name _) => if setter_name name then Some (drop_setter_suffix name) else None
  | _ => None
  end.

Definition enclosing_top_level (symbol : list Z) : option (list Z) :=
  List.find (λ s, negb (is_package s) && negb (is_local s)) (owner_chain symbol).

(** ** The grammar

    [print o d] is the symbol of descriptor [d] under the owner [o]. *)

Definition print `{CharTables} (o : list Z) (d : Descriptor) : list Z :=
  o ++ match d with
       | D_Term n => encode_name n ++ lit "."
       | D_Method n dis => encode_name n ++ dis ++ lit "."
       | D_Type n => encode_name n ++ lit "#"
       | D_Package n => encode_name n ++ lit "/"
       | D_Parameter n => lit "(" ++ encode_name n ++ lit ")"
       | D_TypeParameter n => lit "[" ++ encode_name n ++ lit "]"
       end.

(** The names and disambiguators the grammar can express: a backticked name holds no
    backtick, and a disambiguator is parenthesized without a nested opening. *)
Definition wf_descriptor (d : Descriptor) : Prop :=
  (ch "`" ∉ descriptor_name d) ∧
  match d with
  | D_Method _ dis => ∃ s, dis = lit "(" ++ s ++ lit ")" ∧ ch "(" ∉ s
  | _ => True
  end.

(** An owner is empty or ends in a boundary character. *)
Definition boundary_end (o : list Z) : Prop :=
  o = [] ∨ ∃ o' c, o = o' ++ [c] ∧ is_name_boundary c = true.

(** The symbol of a path of descriptors, from the outermost. *)
Definition render `{CharTables} (ds : list Descriptor) : list Z := foldl print [] ds.

(** ** Lemmas: reading backwards *)

Lemma sub_app (a b c : list Z) : sub (a ++ b ++ c) (length a) (length a + length b) = b.
Proof.
  unfold sub. rewrite drop_app_length. replace (length a + length b - length a)%nat with (length b) by lia.
  by rewrite take_app_length.
Qed.

Lemma list_lookup_middle' (a b : list Z) (x : Z) l n :
  l = a ++ x :: b → n = length a → l !! n = Some x.
Proof. intros -> ->. by apply list_lookup_middle. Qed.

Lemma last_index_of_app pre x mid rest :
  x ∉ mid → last_index_of (pre ++ x :: mid ++ rest) x (S (length pre + length mid)) = Some (length pre).
Proof.
  revert rest. induction mid as [|y mid IH] using rev_ind; intros rest Hx.
  - cbn [length]. rewrite Nat.add_0_r. cbn [last_index_of].
    rewrite decide_True; [done|]. by apply list_lookup_middle.
  - rewrite not_elem_of_app, list_elem_of_singleton in Hx. destruct Hx as [Hx Hy].
    rewrite length_app. cbn [length last_index_of].
    replace (length pre + (length mid + 1))%nat with (S (length pre + length mid)) by lia.
    rewrite decide_False.
    + rewrite <- app_assoc. by apply IH.
    + rewrite (list_lookup_middle' (pre ++ x :: mid) rest y); [congruence| |].
      * by rewrite <- !app_assoc.
      * rewrite length_app. cbn. lia.
Qed.

Lemma name_start_app o n rest :
  boundary_end o → Forall (λ c, is_name_boundary c = false) n →
  name_start (o ++ n ++ rest) (length o + length n) = length o.
Proof.
  intros Ho Hn. revert rest. induction n as [|c n IH] using rev_ind; intros rest.
  - cbn [length]. rewrite Nat.add_0_r. destruct Ho as [->|(o' & c & -> & Hc)]; [done|].
    rewrite length_app. cbn [length]. rewrite Nat.add_1_r. cbn [name_start].
    rewrite (list_lookup_middle' o' ([] ++ rest) c) by (done || by rewrite <- !app_assoc). by rewrite Hc.
  - apply Forall_app in Hn as [Hn Hc]. apply Forall_cons in Hc as [Hc _].
    rewrite length_app. cbn [length].
    replace (length o + (length n + 1))%nat with (S (length o + length n)) by lia. cbn [name_start].
    rewrite (list_lookup_middle' (o ++ n) rest c) by
      (rewrite ?length_app; done || by rewrite <- !app_assoc).
    rewrite Hc, <- app_assoc. by apply IH.
Qed.

Lemma last_index_of_Some chars t k i :
  last_index_of chars t k = Some i →
  (i < k)%nat ∧ chars !! i = Some t ∧ ∀ j, (i < j < k)%nat → chars !! j ≠ Some t.
Proof.
  induction k as [|k IH]; cbn; [done|]. case_decide as Hd.
  - intros [= <-]. split_and!; [lia|done|]. lia.
  - intros H. destruct (IH H) as (? & ? & Hj). split_and!; [lia|done|]. intros j Hjk.
    destruct (decide (j = k)) as [->|]; [done|]. apply Hj. lia.
Qed.

Lemma name_start_spec chars k :
  (name_start chars k ≤ k)%nat ∧
  ∀ j c, (name_start chars k ≤ j < k)%nat → chars !! j = Some c → is_name_boundary c = false.
Proof.
  induction k as [|k IH]; cbn; [split; [lia|intros; lia]|].
  destruct (chars !! k) as [c|] eqn:E; [|split; [lia|intros; lia]].
  destruct (is_name_boundary c) eqn:Ec; [split; [lia|intros; lia]|].
  destruct IH as [IH1 IH2]. split; [lia|]. intros j c' Hj Hc'.
  destruct (decide (j = k)) as [->|]; [congruence|]. apply (IH2 j); [lia|done].
Qed.

Lemma drop_sub (l : list Z) (a b : nat) : (a ≤ b)%nat → drop a l = sub l a b ++ drop b l.
Proof.
  intros Hab. unfold sub. rewrite <- (take_drop (b - a) (drop a l)) at 1. f_equal.
  rewrite drop_drop. f_equal. lia.
Qed.

Lemma take_sub_drop (l : list Z) (a b : nat) :
  (a ≤ b)%nat → l = take a l ++ sub l a b ++ drop b l.
Proof.
  intros Hab. rewrite <- (take_drop a l) at 1. f_equal. by apply drop_sub.
Qed.

Lemma elem_of_sub (l : list Z) a b x :
  x ∈ sub l a b → ∃ j, (a ≤ j < b)%nat ∧ l !! j = Some x.
Proof.
  intros [j Hj]%list_elem_of_lookup. unfold sub in Hj. rewrite lookup_take in Hj.
  case_decide; [|done]. rewrite lookup_drop in Hj. exists (a + j)%nat. split; [lia|done].
Qed.

(** A name as it may be spelled: plain without boundaries, or backticked. *)
Definition spelled (enc name : list Z) : Prop :=
  (enc = name ∧ name ≠ [] ∧ Forall (λ c, is_name_boundary c = false) name) ∨
  (enc = lit "`" ++ name ++ lit "`" ∧ ch "`" ∉ name).

Lemma sub_cons (l : list Z) a b x : l !! a = Some x → (a < b)%nat → sub l a b = x :: sub l (S a) b.
Proof.
  intros Hx Hab. unfold sub. rewrite (drop_S l x a Hx).
  replace (b - a)%nat with (S (b - S a)) by lia. done.
Qed.

Lemma sub_snoc (l : list Z) a b x : l !! b = Some x → (a ≤ b)%nat → sub l a (S b) = sub l a b ++ [x].
Proof.
  intros Hx Hab. unfold sub. replace (S b - a)%nat with (S (b - a)) by lia.
  apply take_S_r. rewrite lookup_drop. by replace (a + (b - a))%nat with b by lia.
Qed.

Lemma read_name_backwards_sound chars k start name :
  (k ≤ length chars)%nat → read_name_backwards chars k = Some (start, name) →
  (start < k)%nat ∧ spelled (sub chars start k) name.
Proof.
  intros Hk. destruct k as [|end_]; cbn [read_name_backwards]; [done|]. case_decide as Hd.
  - destruct (last_index_of chars (ch "`") end_) as [open|] eqn:E; [|done]. intros [= -> <-].
    apply last_index_of_Some in E as (Hlt & Ho & Hno). split; [lia|]. right. split.
    + rewrite (sub_snoc _ _ _ _ Hd) by lia. rewrite (sub_cons _ _ _ _ Ho) by lia. done.
    + intros (j & Hj & Hjc)%elem_of_sub. by apply (Hno j); [lia|].
  - destruct (name_start_spec chars (S end_)) as [H1 H2]. revert H1 H2.
    generalize (name_start chars (S end_)). intros st H1 H2.
    destruct (Nat.eqb_spec st (S end_)) as [|Hne]; [done|]. intros [= <- <-]. split; [lia|]. left. split; [done|]. split.
    + intros H%(f_equal length). unfold sub in H. rewrite length_take, length_drop in H.
      cbn [length] in H. lia.
    + apply Forall_forall. intros c (j & Hj & Hjc)%elem_of_sub. by apply (H2 j).
Qed.

(** ** Lemmas: the grammar *)

Section grammar.
Context `{CharTables, !CharTablesOk}.

Lemma id_part_not_boundary c : is_java_id_part c = true → is_name_boundary c = false.
Proof.
  intros Hc. destruct (is_name_boundary c) eqn:E; [|done]. exfalso.
  unfold is_name_boundary in E. apply existsb_exists in E as (x & Hx & ->%Z.eqb_eq).
  unfold is_java_id_part, is_java_id_start in Hc.
  repeat (destruct Hx as [<-|Hx]; [rewrite is_alphabetic_ascii, is_numeric_ascii in Hc
    by (split; [vm_compute; discriminate|reflexivity]); vm_compute in Hc; discriminate|]).
  destruct Hx.
Qed.

Lemma encode_name_spelled n : ch "`" ∉ n → spelled (encode_name n) n.
Proof.
  intros Hn. unfold encode_name. destruct n as [|c n]; [by right|].
  destruct (_ && _) eqn:E; [|by right]. left. apply andb_true_iff in E as [_ E].
  split; [done|]. split; [done|]. apply Forall_forall. intros x Hx.
  apply id_part_not_boundary. rewrite forallb_forall in E. by apply E, list_elem_of_In.
Qed.

Lemma spelled_nonempty enc n : spelled enc n → enc ≠ [].
Proof. by intros [(-> & ? & _)|(-> & _)]. Qed.

Lemma read_spelled o enc n rest :
  boundary_end o → spelled enc n →
  read_name_backwards (o ++ enc ++ rest) (length o + length enc) = Some (length o, n).
Proof.
  intros Ho Hs. pose proof (spelled_nonempty _ _ Hs) as Hne.
  destruct Hs as [(-> & _ & Hb)|(-> & Hn)].
  - destruct n as [|c n _] using rev_ind; [done|]. pose proof (name_start_app o _ rest Ho Hb) as Hst.
    rewrite length_app in *. cbn [length] in *.
    replace (length o + (length n + 1))%nat with (S (length o + length n)) in * by lia.
    cbn [read_name_backwards].
    rewrite (list_lookup_middle' (o ++ n) rest c) by
      (rewrite ?length_app; done || by rewrite <- !app_assoc).
    apply Forall_app in Hb as [_ Hc]. apply Forall_cons in Hc as [Hc _].
    rewrite decide_False by (intros [= ->]; done).
    rewrite Hst. destruct (Nat.eqb_spec (length o) (S (length o + length n))); [lia|].
    f_equal. f_equal. pose proof (sub_app o (n ++ [c]) rest) as Hsub. rewrite length_app in Hsub.
    cbn [length] in Hsub. by replace (length o + (length n + 1))%nat with (S (length o + length n)) in Hsub by lia.
  - change (lit "`" ++ n ++ lit "`") with (ch "`" :: n ++ [ch "`"]). cbn [length app].
    rewrite length_app. cbn [length].
    replace (length o + S (length n + 1))%nat with (S (S (length o + length n))) by lia.
    cbn [read_name_backwards]. rewrite decide_True.
    2:{ apply (list_lookup_middle' (o ++ ch "`" :: n) rest); [by rewrite <- ?app_assoc; cbn; rewrite <- ?app_assoc|].
        rewrite length_app. cbn. lia. }
    rewrite <- ?app_assoc. rewrite last_index_of_app by done. f_equal. f_equal.
    pose proof (sub_app (o ++ [ch "`"]) n ([ch "`"] ++ rest)) as Hsub.
    rewrite length_app, <- app_assoc in Hsub. cbn in Hsub.
    replace (length o + 1)%nat with (S (length o)) in Hsub by lia. exact Hsub.
Qed.

Lemma print_boundary o d : ∃ p c, print o d = p ++ [c] ∧ is_name_boundary c = true.
Proof.
  unfold print. destruct d; eexists; eexists; (split; [rewrite ?app_assoc; reflexivity|reflexivity]).
Qed.

Lemma print_not_local o d : is_empty (print o d) || is_local (print o d) = false.
Proof.
  destruct (print_boundary o d) as (p & c & -> & Hc). apply orb_false_iff. split; [by destruct p|].
  unfold is_local. rewrite existsb_app. cbn. rewrite Hc, orb_true_r. cbn. apply andb_false_r.
Qed.

Lemma named_spelled o enc n rest mk :
  boundary_end o → spelled enc n →
  named (o ++ enc ++ rest) mk (length o + length enc) = Some (o, mk n).
Proof.
  intros Ho Hs. unfold named. rewrite (read_spelled o enc n) by done. cbn.
  by rewrite take_app_length.
Qed.

Lemma bracketed_spelled o b enc n rest mk :
  is_name_boundary b = true → spelled enc n →
  bracketed (o ++ b :: enc ++ rest) b mk (S (length o + length enc)) = Some (o, mk n).
Proof.
  intros Hb Hs. unfold bracketed.
  assert (boundary_end (o ++ [b])) as Hbe by (right; eauto).
  pose proof (read_spelled (o ++ [b]) enc n rest Hbe Hs) as Hr.
  rewrite <- app_assoc, length_app in Hr. cbn in Hr.
  replace (length o + 1 + length enc)%nat with (S (length o + length enc)) in Hr by lia.
  rewrite Hr. replace (length o + 1)%nat with (S (length o)) by lia.
  rewrite decide_True by by apply list_lookup_middle.
  by rewrite take_app_length.
Qed.

Lemma lookup_last (l : list Z) c : (l ++ [c]) !! (length (l ++ [c]) - 1)%nat = Some c.
Proof.
  apply list_lookup_middle. rewrite length_app. cbn. lia.
Qed.

(** The arm [split_last] takes is decided by the last character. *)
Lemma split_last_snoc p c :
  is_empty (p ++ [c]) || is_local (p ++ [c]) = false →
  split_last (p ++ [c]) =
    if c =? ch "/" then named (p ++ [c]) D_Package (length p)
    else if c =? ch "#" then named (p ++ [c]) D_Type (length p)
    else if c =? ch "." then
      if Nat.leb 2 (S (length p)) && bool_decide ((p ++ [c]) !! (length p - 1)%nat = Some (ch ")")) then
        open ← last_index_of (p ++ [c]) (ch "(") (length p);
        named (p ++ [c]) (λ name, D_Method name (sub (p ++ [c]) open (length p))) open
      else named (p ++ [c]) D_Term (length p)
    else if c =? ch ")" then bracketed (p ++ [c]) (ch "(") D_Parameter (length p)
    else if c =? ch "]" then bracketed (p ++ [c]) (ch "[") D_TypeParameter (length p)
    else None.
Proof.
  intros Hl. unfold split_last. rewrite Hl, lookup_last, !length_app. cbn [length].
  replace (length p + 1 - 1)%nat with (length p) by lia.
  replace (length p + 1 - 2)%nat with (length p - 1)%nat by lia.
  by replace (length p + 1)%nat with (S (length p)) by lia.
Qed.

Lemma spelled_last enc n : spelled enc n → ∃ e c, enc = e ++ [c] ∧ c ≠ ch ")".
Proof.
  intros [(-> & Hne & Hb)|(-> & _)].
  - destruct n as [|c n _] using rev_ind; [done|]. exists n, c. split; [done|].
    apply Forall_app in Hb as [_ Hc]. apply Forall_cons in Hc as [Hc _]. intros ->. done.
  - exists (ch "`" :: n), (ch "`"). done.
Qed.

Lemma split_last_print o d :
  wf_descriptor d → boundary_end o → split_last (print o d) = Some (o, d).
Proof.
  intros [Hn Hd] Ho. pose proof (print_not_local o d) as Hnl.
  pose proof (encode_name_spelled _ Hn) as Hs. unfold print in *.
  destruct d as [n|n dis|n|n|n|n]; cbn [descriptor_name] in *; set (enc := encode_name n) in *.
  - destruct (spelled_last _ _ Hs) as (e & c & He & Hc).
    change (lit ".") with [ch "."] in *. rewrite app_assoc in Hnl |- *. rewrite split_last_snoc by done.
    cbn [Z.eqb Pos.eqb]. change (ch "." =? ch "/") with false. change (ch "." =? ch "#") with false.
    change (ch "." =? ch ".") with true. cbn iota. rewrite bool_decide_eq_false_2, andb_false_r.
    + rewrite <- app_assoc, length_app. by apply named_spelled.
    + rewrite He, (list_lookup_middle' (o ++ e) [ch "."] c); [congruence| |].
      * by rewrite <- !app_assoc.
      * rewrite !length_app. cbn. lia.
  - destruct Hd as (s & -> & Hno). change (lit ".") with [ch "."] in *.
    rewrite !app_assoc in Hnl |- *. rewrite split_last_snoc by done.
    change (ch "." =? ch "/") with false. change (ch "." =? ch "#") with false.
    change (ch "." =? ch ".") with true. cbn iota.
    set (p := ((o ++ enc) ++ lit "(") ++ s) in *.
    change (lit ")") with [ch ")"]. rewrite bool_decide_eq_true_2.
    2:{ apply (list_lookup_middle' p [ch "."]); [by rewrite <- !app_assoc|].
        rewrite length_app. cbn. lia. }
    destruct (Nat.leb_spec 2 (S (length (p ++ [ch ")"])))) as [_|Hlen].
    2:{ rewrite length_app in Hlen. cbn in Hlen. pose proof (spelled_nonempty _ _ Hs).
        subst p. rewrite !length_app in Hlen. cbn in Hlen. lia. }
    cbn [andb].
    assert ((p ++ [ch ")"]) ++ [ch "."] = (o ++ enc) ++ ch "(" :: (s ++ [ch ")"]) ++ [ch "."]) as Ep.
    { subst p. change (lit "(") with [ch "("]. rewrite <- !app_assoc. done. }
    assert (length (p ++ [ch ")"]) = S (length (o ++ enc) + length (s ++ [ch ")"]))) as El.
    { subst p. rewrite !length_app. cbn. lia. }
    rewrite El, Ep, last_index_of_app.
    2:{ rewrite not_elem_of_app, list_elem_of_singleton. split; [done|]. done. }
    cbn [mbind option_bind]. rewrite (length_app o enc), <- (app_assoc o enc).
    rewrite (named_spelled o enc n) by done. f_equal. f_equal. f_equal.
    pose proof (sub_app (o ++ enc) (ch "(" :: s ++ [ch ")"]) [ch "."]) as Hsub.
    cbn [length] in Hsub. rewrite (length_app o enc), <- (app_assoc o enc) in Hsub.
    replace (length o + length enc + S (length (s ++ [ch ")"])))%nat
      with (S (length o + length enc + length (s ++ [ch ")"]))) in Hsub by lia.
    etransitivity; [|exact Hsub]. reflexivity.
  - change (lit "#") with [ch "#"] in *. rewrite app_assoc in Hnl |- *. rewrite split_last_snoc by done.
    change (ch "#" =? ch "/") with false. change (ch "#" =? ch "#") with true. cbn iota.
    rewrite <- app_assoc, length_app. by apply named_spelled.
  - change (lit "/") with [ch "/"] in *. rewrite app_assoc in Hnl |- *. rewrite split_last_snoc by done.
    change (ch "/" =? ch "/") with true. cbn iota.
    rewrite <- app_assoc, length_app. by apply named_spelled.
  - change (lit ")") with [ch ")"] in *. rewrite !app_assoc in Hnl |- *. rewrite split_last_snoc by done.
    change (ch ")" =? ch "/") with false. change (ch ")" =? ch "#") with false.
    change (ch ")" =? ch ".") with false. change (ch ")" =? ch ")") with true. cbn iota.
    rewrite !length_app, <- !app_assoc. change (length (lit "(")) with 1%nat.
    replace (length o + 1 + length enc)%nat with (S (length o + length enc)) by lia.
    by apply (bracketed_spelled o (ch "(") enc n [ch ")"]).
  - change (lit "]") with [ch "]"] in *. rewrite !app_assoc in Hnl |- *. rewrite split_last_snoc by done.
    change (ch "]" =? ch "/") with false. change (ch "]" =? ch "#") with false.
    change (ch "]" =? ch ".") with false. change (ch "]" =? ch ")") with false.
    change (ch "]" =? ch "]") with true. cbn iota.
    rewrite !length_app, <- !app_assoc. change (length (lit "[")) with 1%nat.
    replace (length o + 1 + length enc)%nat with (S (length o + length enc)) by lia.
    by apply (bracketed_spelled o (ch "[") enc n [ch "]"]).
Qed.
End grammar.

(** ** Lemmas: soundness of [split_last] *)

(** The descriptor's suffix of a symbol, with its name spelled [enc]. *)
Definition descriptor_suffix (enc : list Z) (d : Descriptor) : list Z :=
  match d with
  | D_Term _ => enc ++ lit "."
  | D_Method _ dis => enc ++ dis ++ lit "."
  | D_Type _ => enc ++ lit "#"
  | D_Package _ => enc ++ lit "/"
  | D_Parameter _ => lit "(" ++ enc ++ lit ")"
  | D_TypeParameter _ => lit "[" ++ enc ++ lit "]"
  end.

Lemma named_sound chars mk k o d :
  (k ≤ length chars)%nat → named chars mk k = Some (o, d) →
  ∃ enc name, spelled enc name ∧ d = mk name ∧ chars = o ++ enc ++ drop k chars.
Proof.
  intros Hk. unfold named.
  destruct (read_name_backwards chars k) as [[start name]|] eqn:E; cbn; [|done]. intros [= <- <-].
  apply read_name_backwards_sound in E as [Hlt Hs]; [|done].
  exists (sub chars start k), name. split; [done|]. split; [done|].
  by rewrite <- take_sub_drop by lia.
Qed.

Lemma bracketed_sound chars b mk k o d :
  (k ≤ length chars)%nat → bracketed chars b mk k = Some (o, d) →
  ∃ enc name, spelled enc name ∧ d = mk name ∧ chars = o ++ [b] ++ enc ++ drop k chars.
Proof.
  intros Hk. unfold bracketed.
  destruct (read_name_backwards chars k) as [[[|start] name]|] eqn:E; [done| |done].
  case_decide as Hb; [|done]. intros [= <- <-].
  apply read_name_backwards_sound in E as [Hlt Hs]; [|done].
  exists (sub chars (S start) k), name. split; [done|]. split; [done|].
  rewrite (take_sub_drop chars start k) at 1 by lia.
  by rewrite (sub_cons _ _ _ _ Hb) by lia.
Qed.

Lemma split_last_sound s o d :
  split_last s = Some (o, d) →
  is_local s = false ∧ ∃ enc, spelled enc (descriptor_name d) ∧ s = o ++ descriptor_suffix enc d.
Proof.
  intros H. destruct (is_empty s || is_local s) eqn:Hl; [unfold split_last in H; by rewrite Hl in H|].
  pose proof Hl as [_ Hloc]%orb_false_iff. split; [done|].
  destruct s as [|c p _] using rev_ind; [done|]. rewrite split_last_snoc in H by done.
  assert (drop (length p) (p ++ [c]) = [c]) as Hdrop by apply drop_app_length.
  assert (length p ≤ length (p ++ [c]))%nat as Hlen by (rewrite length_app; lia).
  destruct (Z.eqb_spec c (ch "/")) as [->|].
  { apply named_sound in H as (enc & name & Hs & -> & E); [|done]. rewrite Hdrop in E. by exists enc. }
  destruct (Z.eqb_spec c (ch "#")) as [->|].
  { apply named_sound in H as (enc & name & Hs & -> & E); [|done]. rewrite Hdrop in E. by exists enc. }
  destruct (Z.eqb_spec c (ch ".")) as [->|].
  { destruct (_ && _) eqn:Em.
    - destruct (last_index_of (p ++ [ch "."]) (ch "(") (length p)) as [open|] eqn:Eo; [|done].
      cbn [mbind option_bind] in H. apply last_index_of_Some in Eo as (Hop & Hoc & _).
      apply named_sound in H as (enc & name & Hs & -> & E); [|lia]. exists enc. split; [done|].
      cbn [descriptor_suffix]. rewrite E at 1. f_equal. f_equal.
      rewrite (drop_sub _ open (length p)) by lia. by rewrite Hdrop.
    - apply named_sound in H as (enc & name & Hs & -> & E); [|done]. rewrite Hdrop in E. by exists enc. }
  destruct (Z.eqb_spec c (ch ")")) as [->|].
  { apply bracketed_sound in H as (enc & name & Hs & -> & E); [|done]. rewrite Hdrop in E. by exists enc. }
  destruct (Z.eqb_spec c (ch "]")) as [->|]; [|done].
  apply bracketed_sound in H as (enc & name & Hs & -> & E); [|done]. rewrite Hdrop in E. by exists enc.
Qed.

Lemma split_last_shorter s o d : split_last s = Some (o, d) → (length o < length s)%nat.
Proof.
  intros (_ & enc & Hs & ->)%split_last_sound. rewrite length_app.
  assert (0 < length enc)%nat.
  { destruct enc; [by destruct (spelled_nonempty _ _ Hs)|cbn; lia]. }
  destruct d; cbn [descriptor_suffix]; rewrite !length_app; lia.
Qed.

(** ** Lemmas: symbols along a path *)

Definition is_package_descriptor (d : Descriptor) : bool :=
  match d with D_Package _ => true | _ => false end.

(** The symbols of the prefixes of a path, under the owner [o]. *)
Fixpoint symbols_along `{CharTables} (o : list Z) (ds : list Descriptor) : list (list Z) :=
  match ds with
  | [] => []
  | d :: ds => print o d :: symbols_along (print o d) ds
  end.

Section paths.
Context `{CharTables, !CharTablesOk}.

Lemma render_snoc ds d : render (ds ++ [d]) = print (render ds) d.
Proof. unfold render. by rewrite foldl_app. Qed.

Lemma render_boundary ds : boundary_end (render ds).
Proof.
  destruct ds as [|d ds _] using rev_ind; [by left|]. rewrite render_snoc. right. apply print_boundary.
Qed.

Lemma print_boundary_end o d : boundary_end (print o d).
Proof. right. apply print_boundary. Qed.

Lemma symbols_along_app o ds ds' :
  symbols_along o (ds ++ ds') = symbols_along o ds ++ symbols_along (foldl print o ds) ds'.
Proof. revert o. induction ds as [|d ds IH]; intros o; cbn; [done|]. by rewrite IH. Qed.

Lemma length_symbols_along o ds : length (symbols_along o ds) = length ds.
Proof. revert o. induction ds as [|d ds IH]; intros o; cbn; [done|]. by rewrite IH. Qed.

Lemma owner_chain_loop_render ds fuel acc :
  Forall wf_descriptor ds → (length (render ds) ≤ fuel)%nat →
  owner_chain_loop fuel (render ds) acc = symbols_along [] ds ++ acc.
Proof.
  intros Hds. revert fuel acc. induction ds as [|d ds IH] using rev_ind; intros fuel acc Hf.
  { by destruct fuel. }
  apply Forall_app in Hds as [Hds Hd]. apply Forall_cons in Hd as [Hd _].
  pose proof (split_last_print (render ds) d Hd (render_boundary ds)) as Hs.
  pose proof (split_last_shorter _ _ _ Hs) as Hlt.
  rewrite render_snoc in *. destruct fuel as [|fuel]; [lia|]. cbn [owner_chain_loop].
  pose proof (print_not_local (render ds) d) as [-> _]%orb_false_iff. rewrite Hs.
  rewrite IH by (done || lia). rewrite symbols_along_app, <- app_assoc. done.
Qed.

Lemma owner_chain_render ds :
  Forall wf_descriptor ds → owner_chain (render ds) = symbols_along [] ds.
Proof.
  intros Hds. destruct ds as [|d ds _] using rev_ind; [done|]. unfold owner_chain.
  pose proof (print_not_local (render ds) d) as [He Hl]%orb_false_iff.
  rewrite render_snoc, He, Hl, <- render_snoc. rewrite owner_chain_loop_render by done.
  apply app_nil_r.
Qed.

Lemma enclosing_render ds d :
  Forall wf_descriptor (ds ++ [d]) → enclosing (render (ds ++ [d])) = symbols_along [] ds.
Proof.
  intros Hds. unfold enclosing. rewrite owner_chain_render, length_symbols_along, symbols_along_app by done.
  rewrite length_app. cbn [length]. rewrite Nat.add_sub.
  rewrite <- (length_symbols_along [] ds). by apply take_app_length.
Qed.

(** What the accessors say of a symbol of the path. *)
Definition describes (s : list Z) (d : Descriptor) : Prop :=
  is_package s = is_package_descriptor d ∧ display_name s = Some (descriptor_name d) ∧
  is_local s = false.

Lemma print_describes o d : wf_descriptor d → boundary_end o → describes (print o d) d.
Proof.
  intros Hd Ho. pose proof (print_not_local o d) as [_ Hl]%orb_false_iff. split_and!; [|..|done].
  - unfold is_package, ends_with, strip_suffix, print.
    destruct d; rewrite ?rev_app_distr; cbn; reflexivity.
  - unfold display_name, descriptor_of. by rewrite split_last_print.
Qed.

Lemma symbols_along_describe o ds :
  Forall wf_descriptor ds → boundary_end o → Forall2 describes (symbols_along o ds) ds.
Proof.
  intros Hds. revert o. induction Hds as [|d ds Hd Hds IH]; intros o Ho; cbn; constructor.
  - by apply print_describes.
  - apply IH, print_boundary_end.
Qed.

Lemma leading_package_names ss ds :
  Forall2 describes ss ds →
  omap display_name (take_while is_package ss) = descriptor_name <$> take_while is_package_descriptor ds.
Proof.
  induction 1 as [|s d ss ds (Hp & Hn & _) Hf IH]; cbn; [done|]. rewrite Hp.
  destruct (is_package_descriptor d); cbn; [|done]. by rewrite Hn, IH.
Qed.

Lemma Forall2_describes_rev ss ds : Forall2 describes ss ds → Forall2 describes (rev ss) (rev ds).
Proof.
  induction 1 as [|s d ss ds Hsd Hf IH]; cbn; [constructor|].
  apply Forall2_app; [done|]. by constructor.
Qed.

Lemma find_non_package ss ds :
  Forall2 describes ss ds →
  (s ← List.find (λ s, negb (is_package s)) ss; display_name s) =
  descriptor_name <$> List.find (λ d, negb (is_package_descriptor d)) ds.
Proof.
  induction 1 as [|s d ss ds (Hp & Hn & _) Hf IH]; cbn; [done|]. rewrite Hp.
  by destruct (is_package_descriptor d).
Qed.

Lemma find_top_level ps d o rest :
  Forall wf_descriptor (ps ++ [d]) → boundary_end o → Forall (λ p, is_package_descriptor p = true) ps →
  is_package_descriptor d = false →
  List.find (λ s, negb (is_package s) && negb (is_local s)) (symbols_along o (ps ++ d :: rest)) =
  Some (foldl print o (ps ++ [d])).
Proof.
  intros Hwf Ho Hps Hd. revert o Ho. induction Hps as [|p ps Hp Hps IH]; intros o Ho; cbn.
  - apply Forall_cons in Hwf as [Hwf _]. destruct (print_describes o d Hwf Ho) as (H1 & _ & H3).
    by rewrite H1, Hd, H3.
  - apply Forall_cons in Hwf as [Hwf Hwf']. destruct (print_describes o p Hwf Ho) as (H1 & _ & H3).
    rewrite H1, Hp. cbn. apply IH; [done|]. apply print_boundary_end.
Qed.
End paths.

(** ** Properties *)

(** [split_last] is the inverse of the symbol grammar. Splitting the symbol of any
    descriptor under any owner gives them back, names that contain descriptor characters
    included; and whatever it splits is global and is the owner followed by the
    descriptor's suffix, its name plain without boundary characters or backticked. *)
Theorem split_last_inverts_grammar `{CharTables, !CharTablesOk} :
  (∀ o d, wf_descriptor d → boundary_end o → split_last (print o d) = Some (o, d)) ∧
  (∀ s o d, split_last s = Some (o, d) →
     is_local s = false ∧ ∃ enc, spelled enc (descriptor_name d) ∧ s = o ++ descriptor_suffix enc d).
Proof. split; [apply split_last_print|apply split_last_sound]. Qed.

Lemma split_last_inverts_grammar_witness :
  split_last (lit "a/`b.c#`#f(+1).") = Some (lit "a/`b.c#`#", D_Method (lit "f") (lit "(+1)")).
Proof.
  destruct (@split_last_inverts_grammar ascii_tables ascii_tables_ok) as [H _].
  apply (H (lit "a/`b.c#`#") (D_Method (lit "f") (lit "(+1)"))).
  - split; [refine (bool_decide_unpack _ _); vm_compute; exact I|]. exists (lit "+1").
    split; [reflexivity|]. refine (bool_decide_unpack _ _). vm_compute. exact I.
  - right. exists (lit "a/`b.c#`"), (ch "#"). split; reflexivity.
Defined.

(** Along the symbol of a path of descriptors, [owner_chain] terminates with exactly
    the symbols of its prefixes, outermost first; the package name is the dotted names of
    the leading packages that strictly enclose it without the root and empty packages
    ([None] when there are none); the owner name is the name of the innermost enclosing
    declaration that is not a package; and the first such declaration on the path is the
    enclosing top-level symbol. *)
Theorem owner_chain_of_path `{CharTables, !CharTablesOk} ds d :
  Forall wf_descriptor (ds ++ [d]) →
  let symbol := render (ds ++ [d]) in
  owner_chain symbol = symbols_along [] (ds ++ [d]) ∧
  package_name symbol =
    (let names := List.filter (λ n, negb (str_eqb n (lit "_root_")) && negb (str_eqb n (lit "_empty_")))
                    (descriptor_name <$> take_while is_package_descriptor ds) in
     match names with [] => None | _ => Some (join (lit ".") names) end) ∧
  owner_name symbol =
    descriptor_name <$> List.find (λ d, negb (is_package_descriptor d)) (rev ds) ∧
  (∀ ps e rest, ds ++ [d] = ps ++ e :: rest → Forall (λ p, is_package_descriptor p = true) ps →
     is_package_descriptor e = false → enclosing_top_level symbol = Some (render (ps ++ [e]))).
Proof.
  intros Hwf symbol. pose proof Hwf as [Hds _]%Forall_app.
  assert (Forall2 describes (symbols_along [] ds) ds) as Hdesc by (apply symbols_along_describe; [done|by left]).
  subst symbol. split_and!.
  - by apply owner_chain_render.
  - unfold package_name. rewrite enclosing_render by done. by rewrite (leading_package_names _ _ Hdesc).
  - unfold owner_name. rewrite enclosing_render by done.
    by apply find_non_package, Forall2_describes_rev.
  - intros ps e rest E Hps He. unfold enclosing_top_level. rewrite owner_chain_render by done.
    rewrite E in Hwf |- *. apply find_top_level; [|by left|done|done].
    rewrite cons_middle, app_assoc in Hwf. by apply Forall_app in Hwf as [? _].
Qed.

Lemma owner_chain_of_path_witness :
  owner_chain (lit "a/b/C#f().") = [lit "a/"; lit "a/b/"; lit "a/b/C#"; lit "a/b/C#f()."] ∧
  package_name (lit "a/b/C#f().") = Some (lit "a.b") ∧ owner_name (lit "a/b/C#f().") = Some (lit "C").
Proof.
  destruct (@owner_chain_of_path ascii_tables ascii_tables_ok
    [D_Package (lit "a"); D_Package (lit "b"); D_Type (lit "C")] (D_Method (lit "f") (lit "()"))) as (H1 & H2 & H3 & _).
  - repeat (apply Forall_cons; split); try apply Forall_nil_2;
      (split; [refine (bool_decide_unpack _ _); vm_compute; exact I|]); try exact I.
    exists []. split; [reflexivity|apply not_elem_of_nil].
  - split; [exact H1|]. split; [exact H2|exact H3].
Defined.

(** Companions pair up: [X#] and [X.] are each other's companion whatever the name,
    no other descriptor has one; and on methods the recognisers read the decoded name:
    [<init>] is a constructor, and a setter [x_=] names its target [x]. *)
Theorem companions_and_accessors `{CharTables, !CharTablesOk} o n :
  ch "`" ∉ n → boundary_end o →
  companion (print o (D_Type n)) = Some (print o (D_Term n)) ∧
  companion (print o (D_Term n)) = Some (print o (D_Type n)) ∧
  is_companion_pair (print o (D_Type n)) (print o (D_Term n)) = true ∧
  companion (print o (D_Package n)) = None ∧
  ∀ s, ch "(" ∉ s → let m := print o (D_Method n (lit "(" ++ s ++ lit ")")) in
    companion m = None ∧
    (is_constructor m = true ↔ n = CONSTRUCTOR_NAME) ∧
    (∀ x, setter_target_name m = Some x ↔ x ≠ [] ∧ n = x ++ lit "_=") ∧
    (is_setter m = true ↔ ∃ x, setter_target_name m = Some x).
Proof.
  intros Hn Ho.
  assert (∀ d, descriptor_name d = n → (∀ dis, d ≠ D_Method n dis) → split_last (print o d) = Some (o, d)) as Hd.
  { intros d Hdn Hne. apply split_last_print; [|done]. split; [by rewrite Hdn|].
    destruct d; try exact I. cbn in Hdn. subst. by destruct (Hne disambiguator). }
  assert (companion (print o (D_Type n)) = Some (print o (D_Term n))) as HT.
  { unfold companion. by rewrite Hd by done. }
  split_and!; [done|..].
  - unfold companion. by rewrite Hd by done.
  - unfold is_companion_pair. rewrite HT. by apply bool_decide_eq_true_2.
  - unfold companion. by rewrite Hd by done.
  - intros s Hs m. assert (split_last m = Some (o, D_Method n (lit "(" ++ s ++ lit ")"))) as Hm.
    { apply split_last_print; [|done]. split; [done|]. by exists s. }
    assert (∀ x, (if setter_name n then Some (drop_setter_suffix n) else None) = Some x ↔
                 x ≠ [] ∧ n = x ++ lit "_=") as Hset.
    { intros x. unfold setter_name, drop_setter_suffix. split.
      - destruct (_ && _) eqn:E; [|done]. intros [= <-]. apply andb_true_iff in E as [El [r ->]%ends_with_true].
        rewrite length_app. change (length (lit "_=")) with 2%nat. rewrite Nat.add_sub, take_app_length.
        zify_bools. rewrite zlen_app in El. change (zlen (lit "_=")) with 2 in El.
        split; [|done]. by intros ->.
      - intros [Hx ->]. rewrite (proj2 (ends_with_true (lit "_=") _)) by eauto.
        rewrite zlen_app, length_app. change (zlen (lit "_=")) with 2. change (length (lit "_=")) with 2%nat.
        rewrite Nat.add_sub, take_app_length. destruct (Z.ltb_spec 2 (zlen x + 2)); [done|].
        destruct x; [done|]. rewrite zlen_cons in *. pose proof (zlen_nonneg x). lia. }
    unfold companion, is_constructor, is_setter, setter_target_name, descriptor_of. rewrite Hm. cbn.
    split_and!; [done| |exact Hset|].
    + unfold str_eqb. by rewrite bool_decide_eq_true.
    + destruct (setter_name n); split; try done; [intros _; by eexists|by intros [? ?]].
Qed.

Lemma companions_and_accessors_witness :
  @companion ascii_tables (lit "p/`a b`#") = Some (lit "p/`a b`.") ∧
  setter_target_name (lit "p/C#`x_=`().") = Some (lit "x").
Proof.
  assert (boundary_end (lit "p/")) as Hp by (right; exists (lit "p"), (ch "/"); split; reflexivity).
  assert (boundary_end (lit "p/C#")) as Hc by (right; exists (lit "p/C"), (ch "#"); split; reflexivity).
  split.
  - destruct (@companions_and_accessors ascii_tables ascii_tables_ok (lit "p/") (lit "a b")) as [HT _].
    + refine (bool_decide_unpack _ _). vm_compute. exact I.
    + exact Hp.
    + vm_compute in HT |- *. exact HT.
  - destruct (@companions_and_accessors ascii_tables ascii_tables_ok (lit "p/C#") (lit "x_=")) as (_&_&_&_&H).
    + refine (bool_decide_unpack _ _). vm_compute. exact I.
    + exact Hc.
    + destruct (H [] ltac:(apply not_elem_of_nil)) as (_ & _ & Hset & _).
      pose proof (proj2 (Hset (lit "x")) ltac:(split; [discriminate|reflexivity])) as Hx.
      vm_compute in Hx |- *. exact Hx.
Defined.
