(* ===== verification/SdbNormalize.v ===== *)
(** Normalization of a raw document: [ls-semanticdb/src/normalize.rs]. *)

From S2P Require Import Prelude RustStr SdbModel IndexModel SdbSymbols.

Definition key_of (sym : list Z) (doc_id : Z) : SymbolKey :=
  if is_local sym then key_local sym doc_id else key_global sym.

Definition role_of (code : Z) : option Role :=
  if code =? SdbModel.REFERENCE then Some Reference
  else if code =? SdbModel.DEFINITION then Some Definition_
  else None.

(** The closure of the symbols' [map]. *)
Definition normalize_symbol (doc_id : Z) (s : SdbSymbolInfo) : SymbolInfo :=
  let display :=
    if negb (is_empty (SdbModel.si_display_name s)) then SdbModel.si_display_name s
    else default (si_symbol s) (display_name (si_symbol s)) in
  {| si_key := key_of (si_symbol s) doc_id;
     IndexModel.si_display_name := display;
     si_owner_name := owner_name (si_symbol s);
     si_package_name := package_name (si_symbol s);
     si_kind := from_code (kind_code s);
     si_properties := as_u32 (properties s);
     si_overridden_symbols := overridden_symbols s |}.

(** The closure of the occurrences' [filter_map]. *)
Definition normalize_occurrence (doc_id : Z) (o : SdbOccurrence) : option Occurrence :=
  match so_range o, role_of (role_code o) with
  | Some r, Some role =>
      if negb (is_empty (so_symbol o)) then
        Some (Occurrence_new (key_of (so_symbol o) doc_id)
          (mkSpan (as_u32 (SdbModel.start_line r)) (as_u32 (SdbModel.start_character r))
                  (as_u32 (SdbModel.end_line r)) (as_u32 (SdbModel.end_character r)))
          role)
      else None
  | _, _ => None
  end.

Definition normalize (doc : SdbDocument) (doc_id : Z) : NormalizedDocument :=
  {| nd_uri := sd_uri doc;
     nd_md5 := sd_md5 doc;
     nd_schema_version := sd_schema doc;
     nd_language := language_name (language_code doc);
     nd_symbols := normalize_symbol doc_id <$> sd_symbols doc;
     nd_occurrences := omap (normalize_occurrence doc_id) (sd_occurrences doc) |}.

(** ** Lemmas *)

Lemma key_of_local sym d : key_is_local (key_of sym d) = is_local sym.
Proof. unfold key_of. by destruct (is_local sym). Qed.

Lemma key_of_symbol sym d : semantic_symbol (key_of sym d) = sym.
Proof. unfold key_of. by destruct (is_local sym). Qed.

Lemma key_of_eq s s' d d' : key_of s d = key_of s' d' ↔ s = s' ∧ (is_local s = true → d = d').
Proof.
  unfold key_of. split.
  - destruct (is_local s) eqn:E, (is_local s') eqn:E'; intros [=]; subst; try congruence; done.
  - intros [-> H]. destruct (is_local s'); [by rewrite H|done].
Qed.

(** ** Properties *)

(** What ingest keeps of a document. An occurrence is kept, in order and with its
    exact role, iff it has a range, a non-empty symbol and a known role; every declared
    symbol is kept. A key identifies a symbol across documents exactly for globals: keys
    of two documents coincide iff the symbols do and the symbol is global or the document
    is the same. Coordinates that are not negative are kept unchanged. *)
Theorem normalize_keeps_exact_occurrences doc id :
  (∀ o, o ∈ nd_occurrences (normalize doc id) ↔
     ∃ raw, raw ∈ sd_occurrences doc ∧ normalize_occurrence id raw = Some o) ∧
  (∀ raw, is_Some (normalize_occurrence id raw) ↔
     is_Some (so_range raw) ∧ so_symbol raw ≠ [] ∧
     (role_code raw = SdbModel.REFERENCE ∨ role_code raw = SdbModel.DEFINITION)) ∧
  (∀ raw o r, normalize_occurrence id raw = Some o → so_range raw = Some r →
     inU 31 (SdbModel.start_line r) → inU 31 (SdbModel.end_line r) →
     start_line (occ_span o) = SdbModel.start_line r ∧ end_line (occ_span o) = SdbModel.end_line r ∧
     occ_key o = key_of (so_symbol raw) id ∧
     (occ_role o = Definition_ ↔ role_code raw = SdbModel.DEFINITION)) ∧
  length (nd_symbols (normalize doc id)) = length (sd_symbols doc) ∧
  (∀ s s' id', key_of s id = key_of s' id' ↔ s = s' ∧ (is_local s = true → id = id')).
Proof.
  split_and!.
  - intros o. cbn. rewrite list_elem_of_omap. done.
  - intros raw. unfold normalize_occurrence, role_of.
    destruct (so_range raw) as [r|]; [|split; [by intros []|by intros [[] _]]].
    destruct (Z.eqb_spec (role_code raw) SdbModel.REFERENCE) as [->|]; [|destruct
      (Z.eqb_spec (role_code raw) SdbModel.DEFINITION) as [->|]].
    3: { split; [by intros []|naive_solver]. }
    all: destruct (so_symbol raw); cbn; (split; [try (by intros []); intros _|naive_solver]).
    all: split_and!; eauto; done.
  - intros raw o r H Hr Hs He. unfold normalize_occurrence in H. rewrite Hr in H.
    destruct (role_of (role_code raw)) as [role|] eqn:Erole; [|done].
    destruct (negb _); [|done]. injection H as <-. cbn.
    unfold as_u32, inU in *. rewrite !wrapU_id by (unfold inU; lia). split_and!; [done|done|done|].
    unfold role_of in Erole. destruct (Z.eqb_spec (role_code raw) SdbModel.REFERENCE) as [E|];
      [injection Erole as <-; split; [done|rewrite E; done]|].
    destruct (Z.eqb_spec (role_code raw) SdbModel.DEFINITION) as [E|]; [|done].
    by injection Erole as <-.
  - cbn. apply length_fmap.
  - intros. apply key_of_eq.
Qed.

Lemma normalize_keeps_exact_occurrences_witness :
  let r := {| SdbModel.start_line := 3; start_character := 1; SdbModel.end_line := 3; end_character := 4 |} in
  let raw := {| so_range := Some r; so_symbol := lit "local1"; role_code := 2 |} in
  let doc := {| sd_schema := 4; sd_uri := []; sd_text := []; sd_md5 := []; language_code := 1; sd_symbols := [];
                sd_occurrences := [raw; {| so_range := None; so_symbol := lit "a/"; role_code := 1 |}] |} in
  nd_occurrences (normalize doc 7) = [Occurrence_new (key_local (lit "local1") 7) (mkSpan 3 1 3 4) Definition_] ∧
  key_of (lit "local1") 7 ≠ key_of (lit "local1") 8.
Proof.
  intros r raw doc. destruct (normalize_keeps_exact_occurrences doc 7) as (_ & _ & H & _ & Hk).
  split; [reflexivity|]. intros E%Hk. destruct E as [_ E]. specialize (E eq_refl). discriminate.
Defined.
