(* ===== verification/UnionFind.v ===== *)
(** The union-find of the alias-group builder: [struct UnionFind] of
    [ls-semanticdb/src/groups.rs], with path compression and union by rank, and the
    interface the builder is verified against. *)

From stdpp Require Import relations.
From S2P Require Import Prelude.

(** ** The interface: disjoint sets

    [None] is a Rust panic (an index out of bounds). A set is known by its root. *)

Class DisjointSets (T : Type) := {
  ds_new : nat → T;
  ds_find : T → nat → option (nat * T);
  ds_union : T → nat → nat → option T;
}.

(** The promise: on [n] elements, [ds_root] is a total function to representatives; a
    find answers it and changes no representative's set; a union merges two sets and
    leaves the others alone. *)
Class DisjointSetsOk (T : Type) `{DisjointSets T} := {
  ds_wf : T → nat → Prop;
  ds_root : T → nat → nat → Prop;
  ds_root_fun t n i r r' : ds_wf t n → ds_root t i r → ds_root t i r' → r = r';
  ds_root_total t n i : ds_wf t n → (i < n)%nat → ∃ r, ds_root t i r ∧ (r < n)%nat;
  ds_new_ok n : ds_wf (ds_new n) n ∧ ∀ i, (i < n)%nat → ds_root (ds_new n) i i;
  ds_find_ok t n i : ds_wf t n → (i < n)%nat →
    ∃ r t', ds_find t i = Some (r, t') ∧ ds_root t i r ∧ ds_wf t' n ∧
            ∀ x y, ds_root t' x y ↔ ds_root t x y;
  ds_union_ok t n a b : ds_wf t n → (a < n)%nat → (b < n)%nat →
    ∃ t', ds_union t a b = Some t' ∧ ds_wf t' n ∧
          ∀ x y, (x < n)%nat → (y < n)%nat →
            ((∃ r, ds_root t' x r ∧ ds_root t' y r) ↔
             (∃ r, ds_root t x r ∧ ds_root t y r) ∨
             (∃ ra rb, ds_root t a ra ∧ ds_root t b rb ∧
                ((ds_root t x ra ∧ ds_root t y rb) ∨ (ds_root t x rb ∧ ds_root t y ra))));
}.

(** ** The implementation *)

Record UnionFind := { parent : list nat; rank : list nat }.

(** [UnionFind::new] *)
Definition uf_new (size : nat) : UnionFind :=
  {| parent := seq 0 size; rank := replicate size O |}.

(** [while self.parent[root] != root { root = self.parent[root] }] *)
Fixpoint find_root (fuel : nat) (parent : list nat) (root : nat) : option nat :=
  match fuel with
  | O => None
  | S fuel =>
      p ← parent !! root;
      if Nat.eqb p root then Some root else find_root fuel parent p
  end.

(** [while self.parent[cur] != root { .. self.parent[cur] = root; cur = next }] *)
Fixpoint compress (fuel : nat) (parent : list nat) (root cur : nat) : option (list nat) :=
  match fuel with
  | O => None
  | S fuel =>
      next ← parent !! cur;
      if Nat.eqb next root then Some parent
      else compress fuel (<[cur := root]> parent) root next
  end.

(** Ranks grow along the parents, so the highest rank bounds both loops. *)
Definition uf_fuel (uf : UnionFind) : nat := S (max_list (rank uf)).

(** [UnionFind::find] *)
Definition uf_find (uf : UnionFind) (i : nat) : option (nat * UnionFind) :=
  root ← find_root (uf_fuel uf) (parent uf) i;
  parent' ← compress (uf_fuel uf) (parent uf) root i;
  Some (root, {| parent := parent'; rank := rank uf |}).

(** [UnionFind::union] *)
Definition uf_union (uf : UnionFind) (a b : nat) : option UnionFind :=
  '(ra, uf) ← uf_find uf a;
  '(rb, uf) ← uf_find uf b;
  if Nat.eqb ra rb then Some uf
  else
    rank_a ← rank uf !! ra;
    rank_b ← rank uf !! rb;
    Some match Nat.compare rank_a rank_b with
         | Lt => {| parent := <[ra := rb]> (parent uf); rank := rank uf |}
         | Gt => {| parent := <[rb := ra]> (parent uf); rank := rank uf |}
         | Eq => {| parent := <[rb := ra]> (parent uf); rank := <[ra := S rank_a]> (rank uf) |}
         end.

#[global] Instance uf_disjoint_sets : DisjointSets UnionFind :=
  {| ds_new := uf_new; ds_find := uf_find; ds_union := uf_union |}.

(** ** Well-formedness *)

(** Parents are in range, and ranks grow strictly towards the root. *)
Definition uf_wf (uf : UnionFind) (n : nat) : Prop :=
  length (parent uf) = n ∧ length (rank uf) = n ∧
  ∀ i p, parent uf !! i = Some p →
    (p < n)%nat ∧ (p ≠ i → ∀ k l, rank uf !! i = Some k → rank uf !! p = Some l → (k < l)%nat).

(** The root of an element, in a parent array. *)
Inductive root_of (parent : list nat) : nat → nat → Prop :=
| root_here r : parent !! r = Some r → root_of parent r r
| root_up i p r : parent !! i = Some p → p ≠ i → root_of parent p r → root_of parent i r.

Lemma root_of_fun par i r r' : root_of par i r → root_of par i r' → r = r'.
Proof.
  intros H. revert r'. induction H as [r Hr|i p r Hi Hne H IH]; intros r' H'.
  - destruct H'; [done|congruence].
  - destruct H' as [r' Hr'|i p' r' Hi' Hne' H']; [congruence|]. apply IH. congruence.
Qed.

Lemma root_of_root par i r : root_of par i r → par !! r = Some r.
Proof. by induction 1. Qed.

(** ** Lemmas: the loops *)

Section loops.
Variables (par ranks : list nat) (n : nat).
Hypothesis Hwf : uf_wf {| parent := par; rank := ranks |} n.

Lemma parent_lookup i : (i < n)%nat → ∃ p, par !! i = Some p ∧ (p < n)%nat.
Proof.
  destruct Hwf as (Hp & Hr & H). cbn in *. intros Hi.
  destruct (lookup_lt_is_Some_2 par i) as [p E]; [lia|]. exists p. split; [done|]. by apply (H i).
Qed.

Lemma rank_lookup i : (i < n)%nat → ∃ k, ranks !! i = Some k ∧ (k ≤ max_list ranks)%nat.
Proof.
  destruct Hwf as (Hp & Hr & H). cbn in *. intros Hi.
  destruct (lookup_lt_is_Some_2 ranks i) as [k E]; [lia|]. exists k. split; [done|].
  apply max_list_elem_of_le. by eapply list_elem_of_lookup_2.
Qed.

Lemma find_root_ok fuel i k :
  (i < n)%nat → ranks !! i = Some k → (max_list ranks < k + fuel)%nat →
  ∃ r, find_root fuel par i = Some r ∧ root_of par i r ∧ (r < n)%nat.
Proof.
  revert i k. induction fuel as [|fuel IH]; intros i k Hi Hk Hf.
  { destruct (rank_lookup i Hi) as (k' & E & Hle). rewrite Hk in E. injection E as ->. lia. }
  cbn [find_root]. destruct (parent_lookup i Hi) as (p & Ep & Hp). rewrite Ep. cbn.
  destruct (Nat.eqb_spec p i) as [->|Hne]; [exists i; split_and!; [done|by apply root_here|done]|].
  destruct (rank_lookup p Hp) as (l & El & _).
  destruct Hwf as (_ & _ & Hr). destruct (Hr i p Ep) as [_ Hlt].
  specialize (Hlt Hne k l Hk El). destruct (IH p l Hp El) as (r & E & Hroot & Hrn); [lia|].
  exists r. split_and!; [done|by eapply root_up|done].
Qed.
End loops.

Lemma uf_wf_fuel uf n i : uf_wf uf n → (i < n)%nat →
  ∃ r, find_root (uf_fuel uf) (parent uf) i = Some r ∧ root_of (parent uf) i r ∧ (r < n)%nat.
Proof.
  destruct uf as [par ranks]. intros Hwf Hi. destruct (rank_lookup _ _ _ Hwf i Hi) as (k & Ek & _).
  eapply (find_root_ok par ranks n Hwf); [done|exact Ek|]. unfold uf_fuel. cbn. lia.
Qed.

(** Pointing an element at its root changes nobody's root. *)
Lemma shortcut_root par cur p root :
  par !! cur = Some p → p ≠ cur → root_of par p root →
  ∀ x y, root_of (<[cur := root]> par) x y ↔ root_of par x y.
Proof.
  intros Hcur Hne Hroot. pose proof (root_of_root _ _ _ Hroot) as Hrr.
  assert (root ≠ cur) as Hrc by (intros ->; congruence).
  assert (root_of (<[cur:=root]> par) root root) as Hrr'.
  { apply root_here. by rewrite list_lookup_insert_ne. }
  assert (root_of par cur root) as Hcr by (by eapply root_up).
  intros x y. split.
  - induction 1 as [r Hr|i q r Hi Hiq H IH].
    + destruct (decide (cur = r)) as [->|Hcr'].
      * rewrite list_lookup_insert_eq in Hr by (by eapply lookup_lt_Some). by injection Hr.
      * rewrite list_lookup_insert_ne in Hr by done. by apply root_here.
    + destruct (decide (cur = i)) as [->|Hci].
      * rewrite list_lookup_insert_eq in Hi by (by eapply lookup_lt_Some). injection Hi as <-.
        pose proof (root_of_fun _ _ _ _ IH (root_here _ _ Hrr)) as ->. done.
      * rewrite list_lookup_insert_ne in Hi by done. by eapply root_up.
  - induction 1 as [r Hr|i q r Hi Hiq H IH].
    + apply root_here. destruct (decide (cur = r)) as [->|]; [congruence|].
      by rewrite list_lookup_insert_ne.
    + destruct (decide (cur = i)) as [->|Hci].
      * assert (r = root) as -> by (eapply root_of_fun; [by eapply root_up|done]).
        eapply root_up; [|exact Hrc|exact Hrr'].
        by rewrite list_lookup_insert_eq by (by eapply lookup_lt_Some).
      * eapply root_up; [|exact Hiq|exact IH]. by rewrite list_lookup_insert_ne.
Qed.

(** Ranks are smaller than the root's, away from the root. *)
Lemma rank_below_root uf n i r k l :
  uf_wf uf n → root_of (parent uf) i r → i ≠ r →
  rank uf !! i = Some k → rank uf !! r = Some l → (k < l)%nat.
Proof.
  intros Hwf Hroot. revert k. induction Hroot as [r Hr|i p r Hi Hne H IH]; intros k Hir Hk Hl; [done|].
  destruct Hwf as (Hlp & Hlr & Hr). destruct (Hr i p Hi) as [Hp Hlt].
  destruct (lookup_lt_is_Some_2 (rank uf) p) as [m Em]; [lia|].
  specialize (Hlt Hne k m Hk Em). destruct (decide (p = r)) as [->|Hpr].
  - assert (m = l) by congruence. lia.
  - specialize (IH m Hpr Em Hl). lia.
Qed.

Lemma shortcut_wf uf n cur p root :
  uf_wf uf n → parent uf !! cur = Some p → p ≠ cur → root_of (parent uf) p root → (root < n)%nat →
  uf_wf {| parent := <[cur := root]> (parent uf); rank := rank uf |} n.
Proof.
  intros Hwf Hcur Hne Hroot Hn. pose proof Hwf as (Hlp & Hlr & Hr).
  split_and!; cbn; [by rewrite length_insert|done|]. intros i q Hi.
  destruct (decide (cur = i)) as [->|Hci].
  - rewrite list_lookup_insert_eq in Hi by (by eapply lookup_lt_Some). injection Hi as <-.
    split; [done|]. intros Hri k l Hk Hl. eapply rank_below_root; [done| |by apply not_eq_sym|done|done].
    by eapply root_up.
  - rewrite list_lookup_insert_ne in Hi by done. by apply Hr.
Qed.

Lemma compress_ok fuel uf n cur root k :
  uf_wf uf n → (cur < n)%nat → (root < n)%nat → root_of (parent uf) cur root →
  rank uf !! cur = Some k → (max_list (rank uf) < k + fuel)%nat →
  ∃ par', compress fuel (parent uf) root cur = Some par' ∧
    uf_wf {| parent := par'; rank := rank uf |} n ∧
    ∀ x y, root_of par' x y ↔ root_of (parent uf) x y.
Proof.
  revert uf cur k. induction fuel as [|fuel IH]; intros [par ranks] cur k Hwf Hcur Hrn Hroot Hk Hf.
  { cbn in *. destruct (rank_lookup _ _ _ Hwf cur Hcur) as (k' & E & Hle). rewrite Hk in E. injection E as ->. lia. }
  cbn [compress parent rank] in *. destruct (parent_lookup _ _ _ Hwf cur Hcur) as (p & Ep & Hp). rewrite Ep. cbn.
  destruct (Nat.eqb_spec p root) as [->|Hne]; [by exists par|].
  assert (p ≠ cur) as Hpc.
  { intros ->. destruct Hroot as [r Hr|i q r Hi Hiq H]; congruence. }
  assert (root_of par p root) as Hpr.
  { destruct Hroot as [r Hr|i q r Hi Hiq H]; congruence. }
  destruct (rank_lookup _ _ _ Hwf p Hp) as (l & El & _).
  assert (k < l)%nat as Hkl.
  { destruct Hwf as (_ & _ & Hr). by apply (Hr cur p Ep). }
  pose proof (shortcut_wf _ _ _ _ _ Hwf Ep Hpc Hpr Hrn) as Hwf'. cbn in Hwf'.
  destruct (IH {| parent := <[cur:=root]> par; rank := ranks |} p l) as (par' & E & Hwf'' & Hsame);
    cbn; try done; [by apply (shortcut_root par cur p root)|lia|].
  exists par'. split_and!; [done|done|]. intros x y. rewrite Hsame. cbn. by eapply shortcut_root.
Qed.

Lemma uf_find_ok uf n i :
  uf_wf uf n → (i < n)%nat →
  ∃ r uf', uf_find uf i = Some (r, uf') ∧ root_of (parent uf) i r ∧ (r < n)%nat ∧
    uf_wf uf' n ∧ rank uf' = rank uf ∧
    ∀ x y, root_of (parent uf') x y ↔ root_of (parent uf) x y.
Proof.
  intros Hwf Hi. destruct (uf_wf_fuel uf n i Hwf Hi) as (r & E & Hr & Hrn).
  unfold uf_find. rewrite E. cbn [mbind option_bind]. destruct uf as [par ranks].
  destruct (rank_lookup _ _ _ Hwf i Hi) as (k & Ek & _).
  destruct (compress_ok (uf_fuel {| parent := par; rank := ranks |}) _ n i r k Hwf Hi Hrn Hr Ek)
    as (par' & E' & Hwf' & Hsame); [unfold uf_fuel; cbn; lia|].
  rewrite E'. by exists r, {| parent := par'; rank := ranks |}.
Qed.

(** ** Lemmas: linking two roots *)

Lemma link_root par a b :
  par !! a = Some a → par !! b = Some b → a ≠ b →
  ∀ x y, root_of (<[a := b]> par) x y ↔ (root_of par x y ∧ y ≠ a) ∨ (root_of par x a ∧ y = b).
Proof.
  intros Ha Hb Hne x y. split.
  - induction 1 as [r Hr|i q r Hi Hiq H IH].
    + left. destruct (decide (a = r)) as [->|Har].
      * rewrite list_lookup_insert_eq in Hr by (by eapply lookup_lt_Some). congruence.
      * rewrite list_lookup_insert_ne in Hr by done. split; [by apply root_here|congruence].
    + destruct (decide (a = i)) as [->|Hai].
      * rewrite list_lookup_insert_eq in Hi by (by eapply lookup_lt_Some). injection Hi as <-.
        right. split; [by apply root_here|]. destruct IH as [[H1 H2]|[H1 H2]]; [|done].
        by eapply root_of_fun; [exact H1|apply root_here].
      * rewrite list_lookup_insert_ne in Hi by done.
        destruct IH as [[H1 H2]|[H1 H2]]; [left|right]; (split; [|done]); by eapply root_up.
  - assert (root_of (<[a := b]> par) b b) as Hbb.
    { apply root_here. by rewrite list_lookup_insert_ne by done. }
    intros [[H Hy]|[H ->]].
    + induction H as [r Hr|i q r Hi Hiq H IH].
      * apply root_here. by rewrite list_lookup_insert_ne by done.
      * destruct (decide (a = i)) as [->|Hai]; [congruence|].
        eapply root_up; [by rewrite list_lookup_insert_ne|done|by apply IH].
    + remember a as r eqn:Er in H. induction H as [r Hr|i q r Hi Hiq H IH]; subst.
      * eapply root_up; [|exact (not_eq_sym Hne)|exact Hbb].
        by rewrite list_lookup_insert_eq by (by eapply lookup_lt_Some).
      * destruct (decide (a = i)) as [->|Hai]; [congruence|].
        eapply root_up; [by rewrite list_lookup_insert_ne|done|by apply IH].
Qed.

(** What linking the roots of [a] and [b] does to the classes. *)
Lemma link_classes par a b ra rb :
  root_of par a ra → root_of par b rb → ra ≠ rb →
  ∀ x y, (∃ r, root_of (<[ra := rb]> par) x r ∧ root_of (<[ra := rb]> par) y r) ↔
    (∃ r, root_of par x r ∧ root_of par y r) ∨
    (∃ ra rb, root_of par a ra ∧ root_of par b rb ∧
       ((root_of par x ra ∧ root_of par y rb) ∨ (root_of par x rb ∧ root_of par y ra))).
Proof.
  intros Ha Hb Hne x y.
  pose proof (link_root par ra rb (root_of_root _ _ _ Ha) (root_of_root _ _ _ Hb) Hne) as H. split.
  - intros (r & Hx & Hy). apply H in Hx, Hy.
    destruct Hx as [[Hx Hxr]|[Hx ->]], Hy as [[Hy Hyr]|[Hy Hyr]]; try subst r.
    + left. by exists r.
    + right. exists ra, rb. split_and!; [done|done|]. by right.
    + right. exists ra, rb. split_and!; [done|done|]. by left.
    + left. by exists ra.
  - assert (∀ z r, root_of par z r → r = ra → root_of (<[ra := rb]> par) z rb) as Hto.
    { intros z r Hz ->. apply H. by right. }
    assert (∀ z, root_of par z rb → root_of (<[ra := rb]> par) z rb) as Hrb.
    { intros z Hz. apply H. left. split; [done|congruence]. }
    intros [(r & Hx & Hy)|(ra' & rb' & Ha' & Hb' & Hxy)].
    + destruct (decide (r = ra)) as [->|Hr]; [exists rb; split; by eapply Hto|].
      exists r. split; apply H; by left.
    + assert (ra' = ra) as -> by (by eapply root_of_fun).
      assert (rb' = rb) as -> by (by eapply root_of_fun).
      exists rb. destruct Hxy as [[Hx Hy]|[Hx Hy]]; eauto.
Qed.

Lemma link_wf uf n a b ranks' :
  uf_wf uf n → (b < n)%nat → a ≠ b → parent uf !! a = Some a → parent uf !! b = Some b →
  length ranks' = n →
  (∀ i k, i ≠ b → rank uf !! i = Some k → ranks' !! i = Some k) →
  (∀ k l, rank uf !! b = Some k → ranks' !! b = Some l → (k ≤ l)%nat) →
  (∀ k l, rank uf !! a = Some k → ranks' !! b = Some l → (k < l)%nat) →
  uf_wf {| parent := <[a := b]> (parent uf); rank := ranks' |} n.
Proof.
  intros (Hlp & Hlr & Hr) Hbn Hab Ha Hb Hl Hother Hbk Hak.
  split_and!; cbn; [by rewrite length_insert|done|]. intros i p Hi.
  destruct (decide (a = i)) as [->|Hai].
  - rewrite list_lookup_insert_eq in Hi by (by eapply lookup_lt_Some). injection Hi as <-.
    split; [done|]. intros _ k l Hk Hlb. apply (Hak k l); [|done].
    destruct (lookup_lt_is_Some_2 (rank uf) i) as [k' E].
    { apply lookup_lt_Some in Ha. lia. }
    rewrite (Hother i k' Hab E) in Hk. congruence.
  - rewrite list_lookup_insert_ne in Hi by done. destruct (Hr i p Hi) as [Hp Hlt].
    split; [done|]. intros Hpi k l Hk Hlp'.
    assert (i ≠ b) as Hib by congruence.
    destruct (lookup_lt_is_Some_2 (rank uf) i) as [k' E]; [apply lookup_lt_Some in Hi; lia|].
    destruct (lookup_lt_is_Some_2 (rank uf) p) as [l' E']; [lia|].
    rewrite (Hother i k' Hib E) in Hk. injection Hk as <-.
    specialize (Hlt Hpi k' l' E E'). destruct (decide (p = b)) as [->|Hpb].
    + specialize (Hbk l' l E' Hlp'). lia.
    + rewrite (Hother p l' Hpb E') in Hlp'. injection Hlp' as <-. done.
Qed.

Lemma uf_union_ok uf n a b :
  uf_wf uf n → (a < n)%nat → (b < n)%nat →
  ∃ uf', uf_union uf a b = Some uf' ∧ uf_wf uf' n ∧
    ∀ x y, (∃ r, root_of (parent uf') x r ∧ root_of (parent uf') y r) ↔
      (∃ r, root_of (parent uf) x r ∧ root_of (parent uf) y r) ∨
      (∃ ra rb, root_of (parent uf) a ra ∧ root_of (parent uf) b rb ∧
         ((root_of (parent uf) x ra ∧ root_of (parent uf) y rb) ∨
          (root_of (parent uf) x rb ∧ root_of (parent uf) y ra))).
Proof.
  intros Hwf Ha Hb. unfold uf_union.
  destruct (uf_find_ok uf n a Hwf Ha) as (ra & uf1 & -> & Hra & Hran & Hwf1 & Hrk1 & Hs1).
  cbn [mbind option_bind].
  destruct (uf_find_ok uf1 n b Hwf1 Hb) as (rb & uf2 & -> & Hrb & Hrbn & Hwf2 & Hrk2 & Hs2).
  cbn [mbind option_bind].
  assert (∀ x y, root_of (parent uf2) x y ↔ root_of (parent uf) x y) as Hs by (intros; by rewrite Hs2, Hs1).
  apply Hs1 in Hrb.
  destruct (Nat.eqb_spec ra rb) as [->|Hne].
  { exists uf2. split_and!; [done|done|]. intros x y. setoid_rewrite Hs. split; [by left|].
    intros [?|(ra' & rb' & Ha' & Hb' & Hxy)]; [done|].
    assert (ra' = rb) as -> by (by eapply root_of_fun).
    assert (rb' = rb) as -> by (by eapply root_of_fun). exists rb. tauto. }
  apply Hs in Hra as Hra2. apply Hs in Hrb as Hrb2.
  destruct uf2 as [par ranks]. destruct (rank_lookup _ _ _ Hwf2 ra Hran) as (ka & Eka & _).
  destruct (rank_lookup _ _ _ Hwf2 rb Hrbn) as (kb & Ekb & _). cbn [rank parent] in *.
  rewrite Eka. cbn [mbind option_bind]. rewrite Ekb. cbn [mbind option_bind].
  pose proof (root_of_root _ _ _ Hra2) as Hpa. pose proof (root_of_root _ _ _ Hrb2) as Hpb.
  pose proof Hwf2 as (Hlp & Hlr & _). cbn in Hlp, Hlr.
  assert (∀ x y, (∃ ra rb, root_of par a ra ∧ root_of par b rb ∧
       ((root_of par x ra ∧ root_of par y rb) ∨ (root_of par x rb ∧ root_of par y ra))) ↔
     (∃ ra rb, root_of par b ra ∧ root_of par a rb ∧
       ((root_of par x ra ∧ root_of par y rb) ∨ (root_of par x rb ∧ root_of par y ra)))) as Hsym.
  { intros x y. split; intros (r & r' & ? & ? & ?); exists r', r; tauto. }
  destruct (Nat.compare_spec ka kb) as [->|Hlt|Hgt]; eexists; (split; [reflexivity|]); split;
    try (intros x y; cbn [parent]; setoid_rewrite <- Hs).
  - apply (link_wf {| parent := par; rank := ranks |} n rb ra); cbn; try done; [by rewrite length_insert|..].
    + intros i k Hi Hk. by rewrite list_lookup_insert_ne.
    + intros k l Hk Hl. rewrite list_lookup_insert_eq in Hl by lia. injection Hl as <-.
      rewrite Eka in Hk. injection Hk as <-. lia.
    + intros k l Hk Hl. rewrite list_lookup_insert_eq in Hl by lia. injection Hl as <-.
      rewrite Ekb in Hk. injection Hk as <-. lia.
  - rewrite Hsym. by eapply link_classes.
  - apply (link_wf {| parent := par; rank := ranks |} n ra rb); cbn; try done; intros k l Hk Hl; simplify_eq; lia.
  - by eapply link_classes.
  - apply (link_wf {| parent := par; rank := ranks |} n rb ra); cbn; try done; intros k l Hk Hl; simplify_eq; lia.
  - rewrite Hsym. by eapply link_classes.
Qed.

#[global] Program Instance uf_disjoint_sets_ok : DisjointSetsOk UnionFind := {|
  ds_wf := uf_wf;
  ds_root uf := root_of (parent uf);
|}.
Next Obligation. intros t n i r r' _. apply root_of_fun. Qed.
Next Obligation.
  intros t n i Hwf Hi. destruct (uf_wf_fuel t n i Hwf Hi) as (r & _ & ? & ?). eauto.
Qed.
Next Obligation.
  intros n. assert (∀ i, (i < n)%nat → seq 0 n !! i = Some i) as Hs.
  { intros i Hi. by apply lookup_seq. }
  split.
  - split_and!; cbn; [by rewrite length_seq|by rewrite length_replicate|]. intros i p Hp.
    apply lookup_seq in Hp as [-> Hp]. cbn. split; [done|]. done.
  - intros i Hi. apply root_here. by apply Hs.
Qed.
Next Obligation.
  intros t n i Hwf Hi. destruct (uf_find_ok t n i Hwf Hi) as (r & t' & ? & ? & _ & ? & _ & ?).
  exists r, t'. done.
Qed.
Next Obligation.
  intros t n a b Hwf Ha Hb. destruct (uf_union_ok t n a b Hwf Ha Hb) as (t' & E & Hwf' & H).
  exists t'. split; [exact E|]. split; [exact Hwf'|]. intros x y _ _. apply H.
Qed.

(** ** Lemmas: a sequence of unions builds the equivalence closure *)

(** [for (a, b) in es { uf.union(a, b) }] *)
Fixpoint union_all {T} `{DisjointSets T} (t : T) (es : list (nat * nat)) : option T :=
  match es with
  | [] => Some t
  | (a, b) :: es => t ← ds_union t a b; union_all t es
  end.

Definition ds_same {T} `{DisjointSetsOk T} (t : T) (x y : nat) : Prop :=
  ∃ r, ds_root t x r ∧ ds_root t y r.

Lemma rtsc_snoc (es : list (nat * nat)) a b x y :
  rtsc (λ u v, (u, v) ∈ es ++ [(a, b)]) x y ↔
  rtsc (λ u v, (u, v) ∈ es) x y ∨
  (rtsc (λ u v, (u, v) ∈ es) x a ∧ rtsc (λ u v, (u, v) ∈ es) y b) ∨
  (rtsc (λ u v, (u, v) ∈ es) x b ∧ rtsc (λ u v, (u, v) ∈ es) y a).
Proof.
  set (R := λ u v, (u, v) ∈ es). set (R' := λ u v, (u, v) ∈ es ++ [(a, b)]).
  assert (∀ u v, rtsc R u v → rtsc R v u) as Hsym by (intros; by apply rtc_sc_symmetric || by symmetry).
  split.
  - induction 1 as [x|x z y [Hz|Hz] _ IH].
    + left. reflexivity.
    + unfold R' in Hz. rewrite elem_of_app, list_elem_of_singleton in Hz. destruct Hz as [Hz|[= -> ->]].
      * assert (rtsc R x z) by (by apply rtc_once; left).
        destruct IH as [IH|[[IH1 IH2]|[IH1 IH2]]]; [left|right; left|right; right];
          try split; try done; by etrans.
      * destruct IH as [IH|[[IH1 IH2]|[IH1 IH2]]].
        -- right. left. split; [apply rtc_refl|]. by apply Hsym.
        -- left. trans b; [|by apply Hsym]. by apply Hsym.
        -- left. by apply Hsym.
    + unfold R' in Hz. rewrite elem_of_app, list_elem_of_singleton in Hz. destruct Hz as [Hz|[= -> ->]].
      * assert (rtsc R x z) by (by apply rtc_once; right).
        destruct IH as [IH|[[IH1 IH2]|[IH1 IH2]]]; [left|right; left|right; right];
          try split; try done; by etrans.
      * destruct IH as [IH|[[IH1 IH2]|[IH1 IH2]]].
        -- right. right. split; [apply rtc_refl|]. by apply Hsym.
        -- left. by apply Hsym.
        -- left. trans a; [|by apply Hsym]. by apply Hsym.
  - assert (∀ u v, rtsc R u v → rtsc R' u v) as Hsub.
    { intros u v. apply rtc_subrel. intros p q [H|H]; [left|right]; unfold R', R in *; set_solver. }
    assert (rtsc R' a b) as Hab by (apply rtc_once; left; unfold R'; set_solver).
    assert (rtsc R' b a) as Hba by (apply rtc_once; right; unfold R'; set_solver).
    intros [H|[[H1 H2]|[H1 H2]]]; [by apply Hsub| |].
    + trans a; [by apply Hsub|]. trans b; [done|]. by apply Hsub, Hsym.
    + trans b; [by apply Hsub|]. trans a; [done|]. by apply Hsub, Hsym.
Qed.

Section closure.
Context {T : Type} `{DisjointSetsOk T}.

Lemma union_all_snoc t es a b :
  union_all t (es ++ [(a, b)]) = t' ← union_all t es; ds_union t' a b.
Proof.
  revert t. induction es as [|[u v] es IH]; intros t; cbn.
  - by destruct (ds_union t a b).
  - destruct (ds_union t u v); cbn; [apply IH|done].
Qed.

Lemma union_all_app t es es' :
  union_all t (es ++ es') = t' ← union_all t es; union_all t' es'.
Proof.
  revert t. induction es as [|[u v] es IH]; intros t; cbn; [done|].
  destruct (ds_union t u v); cbn; [apply IH|done].
Qed.

Lemma ds_same_sym t x y : ds_same t x y → ds_same t y x.
Proof. intros (r & ? & ?). by exists r. Qed.

Lemma union_all_closure n es :
  Forall (λ e, e.1 < n ∧ e.2 < n)%nat es →
  ∃ t, union_all (ds_new n) es = Some t ∧ ds_wf t n ∧
    ∀ x y, (x < n)%nat → (y < n)%nat → (ds_same t x y ↔ rtsc (λ a b, (a, b) ∈ es) x y).
Proof.
  intros Hes. destruct (ds_new_ok n) as [Hwf0 Hroot0].
  induction es as [|[a b] es IH] using rev_ind.
  - exists (ds_new n). split_and!; [done|done|]. intros x y Hx Hy. split.
    + intros (r & Hxr & Hyr).
      rewrite (ds_root_fun _ _ _ _ _ Hwf0 (Hroot0 x Hx) Hxr), (ds_root_fun _ _ _ _ _ Hwf0 (Hroot0 y Hy) Hyr).
      apply rtc_refl.
    + intros Hr. assert (x = y) as ->; [|exists y; split; by apply Hroot0].
      destruct Hr as [|x z y [Hz|Hz] _]; [done|by apply not_elem_of_nil in Hz..].
  - apply Forall_app in Hes as [Hes Hab]. apply Forall_cons in Hab as [[Ha Hb] _]. cbn in Ha, Hb.
    destruct (IH Hes) as (t & Et & Hwf & Hsame).
    destruct (ds_union_ok t n a b Hwf Ha Hb) as (t' & Et' & Hwf' & Hsame').
    exists t'. rewrite union_all_snoc, Et. split_and!; [done|done|]. intros x y Hx Hy.
    unfold ds_same at 1. rewrite Hsame', rtsc_snoc, <- !Hsame by done.
    fold (ds_same t x y). split.
    + intros [?|(ra & rb & Hra & Hrb & [[H1 H2]|[H1 H2]])]; [by left|right; left|right; right];
        split; by eexists.
    + intros [?|[[(r & H1 & H2) (r' & H3 & H4)]|[(r & H1 & H2) (r' & H3 & H4)]]]; [by left|right..].
      * exists r, r'. split_and!; try done. by left.
      * exists r', r. split_and!; try done. by right.
Qed.
End closure.

(** ** Properties *)

(** The union-find computes the equivalence closure of the unions made: any sequence
    of unions on [n] fresh elements returns (no index is out of bounds and both loops of
    every [find] end), and afterwards two elements have the same representative exactly
    when a chain of unions connects them; asking for representatives terminates too and
    never changes them, although it rewrites the parent links. *)
Theorem union_find_equivalence_closure n es :
  Forall (λ e, e.1 < n ∧ e.2 < n)%nat es →
  ∃ uf, union_all (uf_new n) es = Some uf ∧
    ∀ x y, (x < n)%nat → (y < n)%nat →
      ∃ rx ry uf1 uf2, uf_find uf x = Some (rx, uf1) ∧ uf_find uf1 y = Some (ry, uf2) ∧
        (rx = ry ↔ rtsc (λ a b, (a, b) ∈ es) x y) ∧
        ∀ z r, root_of (parent uf2) z r ↔ root_of (parent uf) z r.
Proof.
  intros Hes. destruct (union_all_closure (T := UnionFind) n es Hes) as (uf & E & Hwf & Hsame).
  exists uf. split; [exact E|]. intros x y Hx Hy.
  destruct (uf_find_ok uf n x Hwf Hx) as (rx & uf1 & E1 & Hrx & _ & Hwf1 & _ & Hs1).
  destruct (uf_find_ok uf1 n y Hwf1 Hy) as (ry & uf2 & E2 & Hry & _ & _ & _ & Hs2).
  exists rx, ry, uf1, uf2. split_and!; [done|done| |].
  - rewrite <- (Hsame x y Hx Hy). apply Hs1 in Hry. split.
    + intros ->. by exists ry.
    + intros (r & Hxr & Hyr). cbn in Hxr, Hyr.
      by rewrite (root_of_fun _ _ _ _ Hrx Hxr), (root_of_fun _ _ _ _ Hry Hyr).
  - intros z r. by rewrite Hs2, Hs1.
Qed.

Lemma union_find_equivalence_closure_witness :
  ∃ uf, union_all (uf_new 5) [(0, 1); (2, 3); (1, 2)]%nat = Some uf ∧
    option_map fst (uf_find uf 3) = option_map fst (uf_find uf 0) ∧
    option_map fst (uf_find uf 4) ≠ option_map fst (uf_find uf 0).
Proof.
  destruct (union_find_equivalence_closure 5 [(0, 1); (2, 3); (1, 2)]%nat) as (uf & E & _).
  - repeat (apply Forall_cons; split; [cbn; lia|]). apply Forall_nil_2.
  - exists uf. split; [exact E|]. vm_compute in E. injection E as <-. vm_compute.
    split; [reflexivity|discriminate].
Defined.
