(* ===== verification/SdbGroups.v ===== *)
(** Exact alias groups of an ingest batch: [ls-semanticdb/src/groups.rs].

    [build] is translated stage by stage over the disjoint-set interface of [UnionFind];
    the hash maps and sets are finite maps and sets (their iteration order is never
    observed except through the sorted list of keys). *)

From stdpp Require Import relations fin_sets.
From S2P Require Import Prelude RustStr SdbModel IndexModel SdbSymbols SdbNormalize UnionFind.

Record AliasGroups := {
  ref_groups : list (gset SymbolKey);
  ref_group_index : gmap SymbolKey nat;
  rename_groups : list (gset SymbolKey);
  rename_group_index : gmap SymbolKey nat;
  rename_group_semantic_mask : list Z
}.

(** [AliasGroups::ref_group_of], [AliasGroups::rename_group_of] *)
Definition ref_group_of (g : AliasGroups) (key : SymbolKey) : option nat := ref_group_index g !! key.
Definition rename_group_of (g : AliasGroups) (key : SymbolKey) : option nat := rename_group_index g !! key.

Definition ord_val (k : SymbolKey) : Z :=
  match local_doc k with Some d => as_i64 d | None => -1 end.

(** The comparison of the [sort_by]. *)
Definition key_leb (a b : SymbolKey) : bool :=
  match str_cmp (semantic_symbol a) (semantic_symbol b) with
  | Lt => true
  | Gt => false
  | Eq => ord_val a <=? ord_val b
  end.

(** ** Stage 1: the key universe *)

(** First-wins [entry(..).or_insert_with(..)]. *)
Definition or_insert (m : gmap SymbolKey SymbolInfo) (s : SymbolInfo) : gmap SymbolKey SymbolInfo :=
  match m !! si_key s with Some _ => m | None => <[si_key s := s]> m end.

Definition scan_document (st : gset SymbolKey * gmap SymbolKey SymbolInfo) (doc : NormalizedDocument)
    : gset SymbolKey * gmap SymbolKey SymbolInfo :=
  let '(key_set, info_by_key) :=
    foldl (λ '(ks, m) s, ({[si_key s]} ∪ ks, or_insert m s)) st (nd_symbols doc) in
  (foldl (λ ks o, {[occ_key o]} ∪ ks) key_set (nd_occurrences doc), info_by_key).

Definition scan_documents (docs : list NormalizedDocument)
    : gset SymbolKey * gmap SymbolKey SymbolInfo :=
  foldl scan_document (∅, ∅) docs.

(** The class symbol a constructor implies. *)
Definition implied_key (key : SymbolKey) : option SymbolKey :=
  if negb (key_is_local key) && is_constructor (semantic_symbol key) then
    '(owner, _) ← split_last (semantic_symbol key);
    if ends_with (lit "#") owner then Some (key_global owner) else None
  else None.

Definition key_universe (docs : list NormalizedDocument) : gset SymbolKey :=
  let key_set := (scan_documents docs).1 in
  list_to_set (omap implied_key (elements key_set)) ∪ key_set.

Definition sorted_keys (docs : list NormalizedDocument) : list SymbolKey :=
  sort_by key_leb (elements (key_universe docs)).

(** [keys.iter().enumerate().map(|(i, k)| (k, i)).collect()] *)
Definition index_map (keys : list SymbolKey) : gmap SymbolKey nat :=
  list_to_map (reverse (zip keys (seq 0 (length keys)))).

(** [descriptor_split] *)
Definition descriptor_split (sym : list Z) : option (list Z * list Z) :=
  '(owner, _) ← split_last sym; Some (owner, drop (length owner) sym).

(** [candidates.dedup()]: runs of equal elements collapse. *)
Fixpoint dedup {A : Type} `{EqDecision A} (l : list A) : list A :=
  match l with
  | [] => []
  | x :: l => x :: match l with
                   | [] => []
                   | y :: _ => if decide (x = y) then drop 1 (dedup l) else dedup l
                   end
  end.

Section build.
Context `{CharTables} {T : Type} `{DisjointSets T}.

(** ** Stage 2: the merge policy *)

Definition union_with_global (index_of : gmap SymbolKey nat) (uf : T) (from : nat) (to_symbol : list Z)
    : option T :=
  match index_of !! key_global to_symbol with
  | Some to => ds_union uf from to
  | None => Some uf
  end.

(** The body of the loop over [keys] of stage 2. *)
Definition merge_key (index_of : gmap SymbolKey nat) (uf : T) (i : nat) (key : SymbolKey) : option T :=
  if key_is_local key then Some uf
  else
    match split_last (semantic_symbol key) with
    | Some (owner, D_Method name _) =>
        if str_eqb name CONSTRUCTOR_NAME then
          if ends_with (lit "#") owner then union_with_global index_of uf i owner else Some uf
        else if str_eqb name (lit "apply") || str_eqb name (lit "unapply") then
          if ends_with (lit ".") owner then
            match companion owner with
            | Some cls =>
                match index_of !! key_global cls with
                | Some _ => union_with_global index_of uf i cls
                | None => Some uf
                end
            | None => Some uf
            end
          else Some uf
        else if setter_name name then
          let base := encode_name (drop_setter_suffix name) in
          uf ← union_with_global index_of uf i (owner ++ base ++ lit "().");
          union_with_global index_of uf i (owner ++ base ++ lit ".")
        else Some uf
    | Some (owner, D_Type name) =>
        union_with_global index_of uf i (owner ++ encode_name name ++ lit ".")
    | _ => Some uf
    end.

(** ** Stage 2b: export forwarders *)

Definition defined_keys (docs : list NormalizedDocument) : gset SymbolKey :=
  list_to_set (occ_key <$> filter (λ o, occ_role o = Definition_) (concat (nd_occurrences <$> docs))).

Definition is_method (info_by_key : gmap SymbolKey SymbolInfo) (k : SymbolKey) : bool :=
  bool_decide (si_kind <$> info_by_key !! k = Some Method).

Definition index_method (info_by_key : gmap SymbolKey SymbolInfo) (defined : gset SymbolKey)
    (m : gmap (list Z) (list SymbolKey)) (k : SymbolKey) : gmap (list Z) (list SymbolKey) :=
  if key_is_local k || negb (bool_decide (k ∈ defined)) then m
  else if negb (is_method info_by_key k) then m
  else match descriptor_split (semantic_symbol k) with
       | Some (_, desc) => <[desc := default [] (m !! desc) ++ [k]]> m
       | None => m
       end.

Definition defined_method_by_descriptor (info_by_key : gmap SymbolKey SymbolInfo)
    (defined : gset SymbolKey) (keys : list SymbolKey) : gmap (list Z) (list SymbolKey) :=
  foldl (index_method info_by_key defined) ∅ keys.

(** The methods with a definition that a definition-less one may forward to. *)
Definition forward_candidates (by_descriptor : gmap (list Z) (list SymbolKey)) (owner desc : list Z)
    : list SymbolKey :=
  dedup (List.filter (λ orig,
    match descriptor_split (semantic_symbol orig) with
    | Some (o, _) => negb (str_eqb o owner)
    | None => false
    end) (default [] (by_descriptor !! desc))).

(** The body of the loop of stage 2b. *)
Definition forward_key (info_by_key : gmap SymbolKey SymbolInfo) (defined : gset SymbolKey)
    (by_descriptor : gmap (list Z) (list SymbolKey)) (index_of : gmap SymbolKey nat)
    (st : gset SymbolKey * T) (i : nat) (key : SymbolKey) : option (gset SymbolKey * T) :=
  let '(forwarder_keys, uf) := st in
  if key_is_local key then Some st
  else if negb (is_method info_by_key key) || bool_decide (key ∈ defined) then Some st
  else
    match descriptor_split (semantic_symbol key) with
    | Some (owner, desc) =>
        match forward_candidates by_descriptor owner desc with
        | [orig] =>
            j ← index_of !! orig;
            uf ← ds_union uf i j;
            Some ({[key]} ∪ forwarder_keys, uf)
        | _ => Some st
        end
    | None => Some st
    end.

(** ** Stage 3: assembling the groups *)

Definition assemble_key (st : list nat * gmap nat (list SymbolKey) * T) (i : nat) (key : SymbolKey)
    : option (list nat * gmap nat (list SymbolKey) * T) :=
  let '(order, buckets, uf) := st in
  '(root, uf) ← ds_find uf i;
  let order := match buckets !! root with Some _ => order | None => order ++ [root] end in
  Some (order, <[root := default [] (buckets !! root) ++ [key]]> buckets, uf).

(** [for (i, key) in keys.iter().enumerate() { st = f(st, i, key) }] *)
Fixpoint for_enumerate {S A : Type} (f : S → nat → A → option S) (st : S) (i : nat) (keys : list A)
    : option S :=
  match keys with
  | [] => Some st
  | k :: keys => st ← f st i k; for_enumerate f st (Datatypes.S i) keys
  end.

Definition index_groups (groups : list (gset SymbolKey)) : gmap SymbolKey nat :=
  foldl (λ m '(gi, g), set_fold (λ k m, <[k := gi]> m) m g) ∅ (zip (seq 0 (length groups)) groups).

(** ** Stage 4: the semantic mask *)

Definition overridden_targets (info_by_key : gmap SymbolKey SymbolInfo) : gset SymbolKey :=
  list_to_set (key_global <$> concat ((λ p, si_overridden_symbols p.2) <$> map_to_list info_by_key)).

Definition any_key (f : SymbolKey → bool) (g : gset SymbolKey) : bool := existsb f (elements g).

Definition semantic_mask (info_by_key : gmap SymbolKey SymbolInfo) (forwarder_keys : gset SymbolKey)
    (g : gset SymbolKey) : Z :=
  let targets := overridden_targets info_by_key in
  let mask := 0 in
  let override_flagged := any_key (λ k,
    match info_by_key !! k with Some i => negb (bool_decide (si_overridden_symbols i = [])) | None => false end
    || bool_decide (k ∈ targets)) g in
  let mask := if override_flagged then Z.lor mask OVERRIDE_FAMILY else mask in
  let mask := if any_key (λ k, bool_decide (k ∈ forwarder_keys)) g
              then Z.lor mask UNSUPPORTED_SYMBOL_FAMILY else mask in
  let mask := if any_key (λ k,
                match info_by_key !! k with
                | Some i => negb (Z.land (si_properties i) PROP_OPAQUE =? 0) | None => false end) g
              then Z.lor mask OPAQUE_TYPE else mask in
  mask.

(** [build]; [None] would be a panic. *)
Definition build_with (docs : list NormalizedDocument) : option AliasGroups :=
  let info_by_key := (scan_documents docs).2 in
  let keys := sorted_keys docs in
  let index_of := index_map keys in
  let uf := ds_new (length keys) in
  uf ← for_enumerate (merge_key index_of) uf 0 keys;
  let defined := defined_keys docs in
  let by_descriptor := defined_method_by_descriptor info_by_key defined keys in
  '(forwarder_keys, uf) ←
    for_enumerate (forward_key info_by_key defined by_descriptor index_of) (∅, uf) 0 keys;
  '(order, buckets, _) ← for_enumerate assemble_key ([], ∅, uf) 0 keys;
  let groups := (λ r, list_to_set (default [] (buckets !! r))) <$> order in
  let group_index := index_groups groups in
  Some {| ref_groups := groups; ref_group_index := group_index;
          rename_groups := groups; rename_group_index := group_index;
          rename_group_semantic_mask := semantic_mask info_by_key forwarder_keys <$> groups |}.
End build.

(** [groups::build] *)
Definition build `{CharTables} (docs : list NormalizedDocument) : option AliasGroups :=
  build_with (T := UnionFind) docs.

(** ** The alias relation

    What makes two keys aliases, read off the merge policy. *)

(** The symbols the policy unions a global key with. *)
Definition merge_targets `{CharTables} (symbol : list Z) : list (list Z) :=
  match split_last symbol with
  | Some (owner, D_Method name _) =>
      if str_eqb name CONSTRUCTOR_NAME then
        if ends_with (lit "#") owner then [owner] else []
      else if str_eqb name (lit "apply") || str_eqb name (lit "unapply") then
        if ends_with (lit ".") owner then option_list (companion owner) else []
      else if setter_name name then
        let base := encode_name (drop_setter_suffix name) in
        [owner ++ base ++ lit "()."; owner ++ base ++ lit "."]
      else []
  | Some (owner, D_Type name) => [owner ++ encode_name name ++ lit "."]
  | _ => []
  end.

(** A method of the batch with a definition and the descriptor [desc]. *)
Definition defined_method (docs : list NormalizedDocument) (owner desc : list Z) (k : SymbolKey) : Prop :=
  k ∈ key_universe docs ∧ key_is_local k = false ∧ k ∈ defined_keys docs ∧
  is_method (scan_documents docs).2 k = true ∧ descriptor_split (semantic_symbol k) = Some (owner, desc).

(** [k] is a definition-less method, and [orig] the only method with a definition that
    has its descriptor under another owner. *)
Definition forwards_to (docs : list NormalizedDocument) (k orig : SymbolKey) : Prop :=
  key_is_local k = false ∧ is_method (scan_documents docs).2 k = true ∧ (k ∉ defined_keys docs) ∧
  ∃ owner desc, descriptor_split (semantic_symbol k) = Some (owner, desc) ∧
    ∀ k', (∃ owner', owner' ≠ owner ∧ defined_method docs owner' desc k') ↔ k' = orig.

Definition alias_edge `{CharTables} (docs : list NormalizedDocument) (k k' : SymbolKey) : Prop :=
  k ∈ key_universe docs ∧ k' ∈ key_universe docs ∧
  ((key_is_local k = false ∧ ∃ t, k' = key_global t ∧ (t ∈ merge_targets (semantic_symbol k))) ∨
   forwards_to docs k k').

(** ** Lemmas: keys and indices *)

Lemma sorted_keys_perm docs : Permutation (sorted_keys docs) (elements (key_universe docs)).
Proof. apply sort_by_perm. Qed.

Lemma sorted_keys_NoDup docs : NoDup (sorted_keys docs).
Proof. rewrite sorted_keys_perm. apply NoDup_elements. Qed.

Lemma elem_of_sorted_keys docs k : k ∈ sorted_keys docs ↔ k ∈ key_universe docs.
Proof. rewrite sorted_keys_perm. apply elem_of_elements. Qed.

Lemma index_map_spec keys k i : NoDup keys → index_map keys !! k = Some i ↔ keys !! i = Some k.
Proof.
  intros Hnd. unfold index_map.
  assert (reverse (zip keys (seq 0 (length keys))) ≡ₚ zip keys (seq 0 (length keys))) as Hp
    by apply reverse_Permutation.
  rewrite <- elem_of_list_to_map.
  - rewrite Hp, list_elem_of_lookup. split.
    + intros [j Hj]. rewrite lookup_zip_with in Hj.
      destruct (keys !! j) as [k'|] eqn:E; cbn in Hj; [|done].
      destruct (seq 0 (length keys) !! j) as [i'|] eqn:E'; cbn in Hj; [|done].
      apply lookup_seq in E' as [-> _]. injection Hj as <- <-. done.
    + intros Hi. exists i. rewrite lookup_zip_with, Hi. cbn.
      assert (seq 0 (length keys) !! i = Some i) as ->; [|done].
      apply lookup_seq. apply lookup_lt_Some in Hi. lia.
  - rewrite Hp, fst_zip by (by rewrite length_seq). done.
Qed.

Lemma dedup_NoDup {A : Type} `{EqDecision A} (l : list A) : NoDup l → dedup l = l.
Proof.
  induction 1 as [|x l Hx Hl IH]; [done|]. cbn [dedup]. f_equal.
  destruct l as [|y l]; [done|]. rewrite decide_False by set_solver. done.
Qed.

(** ** Lemmas: the loops are sequences of unions *)

(** The pairs [E i k] of every key, in order. *)
Fixpoint enum_edges {A : Type} (E : nat → A → list (nat * nat)) (i : nat) (keys : list A)
    : list (nat * nat) :=
  match keys with
  | [] => []
  | k :: keys => E i k ++ enum_edges E (S i) keys
  end.

Lemma elem_of_enum_edges {A : Type} (E : nat → A → list (nat * nat)) i0 keys e :
  e ∈ enum_edges E i0 keys ↔ ∃ i k, keys !! i = Some k ∧ e ∈ E (i0 + i)%nat k.
Proof.
  revert i0. induction keys as [|k keys IH]; intros i0; cbn.
  - split; [by intros ?%not_elem_of_nil|]. intros (i & k & ? & _). by rewrite lookup_nil in *.
  - rewrite elem_of_app, IH. split.
    + intros [H|(i & k' & Hk & He)]; [exists O, k; by rewrite Nat.add_0_r|].
      exists (S i), k'. by rewrite Nat.add_succ_r.
    + intros ([|i] & k' & Hk & He); cbn in Hk.
      * left. injection Hk as <-. by rewrite Nat.add_0_r in He.
      * right. exists i, k'. by rewrite Nat.add_succ_r in He.
Qed.

Section loops.
Context `{CharTables} {T : Type} `{!DisjointSets T}.

Definition merge_edges (index_of : gmap SymbolKey nat) (i : nat) (key : SymbolKey) : list (nat * nat) :=
  if key_is_local key then []
  else omap (λ t, (λ j, (i, j)) <$> index_of !! key_global t) (merge_targets (semantic_symbol key)).

Lemma union_with_global_edges index_of (uf : T) i t :
  union_with_global index_of uf i t =
  union_all uf (omap (λ t, (λ j, (i, j)) <$> index_of !! key_global t) [t]).
Proof.
  unfold union_with_global. cbn. destruct (index_of !! key_global t); cbn; [|done].
  by destruct (ds_union uf i n).
Qed.

Lemma merge_key_edges index_of (uf : T) i key :
  merge_key index_of uf i key = union_all uf (merge_edges index_of i key).
Proof.
  unfold merge_key, merge_edges, merge_targets. destruct (key_is_local key); [done|].
  destruct (split_last (semantic_symbol key)) as [[owner [n|n dis|n|n|n|n]]|]; try done.
  - destruct (str_eqb n CONSTRUCTOR_NAME).
    { destruct (ends_with (lit "#") owner); [apply union_with_global_edges|done]. }
    destruct (str_eqb n (lit "apply") || str_eqb n (lit "unapply")).
    { destruct (ends_with (lit ".") owner); [|done]. destruct (companion owner) as [cls|]; [|done].
      transitivity (union_with_global index_of uf i cls); [|apply union_with_global_edges].
      unfold union_with_global. by destruct (index_of !! key_global cls). }
    destruct (setter_name n); [|done].
    rewrite union_with_global_edges.
    change (omap ?f [?a; ?b]) with (omap f ([a] ++ [b])). rewrite omap_app, union_all_app.
    destruct (union_all uf _); [|done]. cbn [mbind option_bind]. apply union_with_global_edges.
  - apply union_with_global_edges.
Qed.

Lemma for_enumerate_edges {A : Type} (f : T → nat → A → option T) E i keys (uf : T) :
  (∀ uf i k, f uf i k = union_all uf (E i k)) →
  for_enumerate f uf i keys = union_all uf (enum_edges E i keys).
Proof.
  intros Hf. revert i uf. induction keys as [|k keys IH]; intros i uf; cbn; [done|].
  rewrite Hf, union_all_app. destruct (union_all uf (E i k)); cbn; [apply IH|done].
Qed.
End loops.

(** ** Lemmas: forwarders *)

Lemma by_descriptor_spec info defined keys desc :
  default [] (defined_method_by_descriptor info defined keys !! desc) =
  List.filter (λ k, negb (key_is_local k) && bool_decide (k ∈ defined) && is_method info k &&
    match descriptor_split (semantic_symbol k) with Some (_, d) => str_eqb d desc | None => false end) keys.
Proof.
  unfold defined_method_by_descriptor.
  induction keys as [|k keys IH] using rev_ind; [cbn [foldl List.filter]; by rewrite lookup_empty|].
  rewrite foldl_app, List.filter_app. cbn [foldl List.filter]. rewrite <- IH.
  set (m := foldl _ _ keys). unfold index_method.
  destruct (key_is_local k); cbn; [by rewrite app_nil_r|].
  destruct (bool_decide (k ∈ defined)); cbn; [|by rewrite app_nil_r].
  destruct (is_method info k); cbn; [|by rewrite app_nil_r].
  destruct (descriptor_split (semantic_symbol k)) as [[o d]|]; cbn; [|by rewrite app_nil_r].
  destruct (str_eqb d desc) eqn:E.
  - apply str_eqb_true in E as ->. by rewrite lookup_insert_eq.
  - rewrite lookup_insert_ne, app_nil_r; [done|]. intros ->.
    by rewrite (proj2 (str_eqb_true desc desc) eq_refl) in E.
Qed.

Lemma NoDup_filter_b {A : Type} (f : A → bool) l : NoDup l → NoDup (List.filter f l).
Proof.
  induction 1 as [|x l Hx Hl IH]; cbn; [constructor|]. destruct (f x); [|done].
  constructor; [|done]. intros Hin. apply Hx.
  apply list_elem_of_In, filter_In in Hin as [Hin _]. by apply list_elem_of_In.
Qed.

Lemma elem_of_filter_b {A : Type} (f : A → bool) l x : x ∈ List.filter f l ↔ x ∈ l ∧ f x = true.
Proof. by rewrite !list_elem_of_In, filter_In. Qed.

Lemma singleton_unique {A : Type} (l : list A) x : NoDup l → l = [x] ↔ ∀ y, y ∈ l ↔ y = x.
Proof.
  intros Hnd. split; [intros -> y; by rewrite list_elem_of_singleton|]. intros Hl.
  assert (x ∈ l) as Hx by (by apply Hl). destruct l as [|a [|b l]]; [by apply not_elem_of_nil in Hx|..].
  - f_equal. by apply Hl, list_elem_of_singleton.
  - exfalso. assert (a = x) by (apply Hl; set_solver). assert (b = x) by (apply Hl; set_solver). subst.
    inversion_clear Hnd. set_solver.
Qed.

Section forward.
Context (docs : list NormalizedDocument).
Let info := (scan_documents docs).2.
Let keys := sorted_keys docs.
Let defined := defined_keys docs.
Let by_descriptor := defined_method_by_descriptor info defined keys.

Lemma elem_of_candidates owner desc k :
  k ∈ forward_candidates by_descriptor owner desc ↔
  ∃ owner', owner' ≠ owner ∧ defined_method docs owner' desc k.
Proof.
  unfold forward_candidates, by_descriptor. rewrite by_descriptor_spec, dedup_NoDup.
  2:{ apply NoDup_filter_b, NoDup_filter_b, sorted_keys_NoDup. }
  rewrite !elem_of_filter_b, !andb_true_iff. unfold defined_method.
  rewrite bool_decide_eq_true, negb_true_iff. fold info defined. unfold keys. rewrite elem_of_sorted_keys.
  split.
  - intros [(Hk & ((Hl & Hd) & Hm) & Hs) Ho].
    destruct (descriptor_split (semantic_symbol k)) as [[o d]|]; [|done].
    apply str_eqb_true in Hs as ->. exists o. split; [|done]. intros ->.
    by rewrite (proj2 (str_eqb_true owner owner) eq_refl) in Ho.
  - intros (o & Hne & Hk & Hl & Hd & Hm & ->). rewrite (proj2 (str_eqb_true desc desc) eq_refl).
    split; [done|]. apply negb_true_iff. destruct (str_eqb o owner) eqn:E; [|done].
    by apply str_eqb_true in E.
Qed.

Lemma candidates_NoDup owner desc : NoDup (forward_candidates by_descriptor owner desc).
Proof.
  unfold forward_candidates, by_descriptor. rewrite by_descriptor_spec, dedup_NoDup;
    apply NoDup_filter_b, NoDup_filter_b, sorted_keys_NoDup.
Qed.

(** The key a definition-less method forwards to. *)
Definition forward_target (key : SymbolKey) : option SymbolKey :=
  if key_is_local key then None
  else if negb (is_method info key) || bool_decide (key ∈ defined) then None
  else match descriptor_split (semantic_symbol key) with
       | Some (owner, desc) =>
           match forward_candidates by_descriptor owner desc with [orig] => Some orig | _ => None end
       | None => None
       end.

Lemma forward_target_spec k orig : forward_target k = Some orig ↔ forwards_to docs k orig.
Proof.
  unfold forward_target, forwards_to. fold info defined.
  destruct (key_is_local k); [naive_solver|]. destruct (is_method info k); cbn; [|naive_solver].
  case_bool_decide as Hd; [naive_solver|].
  destruct (descriptor_split (semantic_symbol k)) as [[owner desc]|]; [|naive_solver].
  transitivity (forward_candidates by_descriptor owner desc = [orig]).
  { split; [|by intros ->]. by destruct (forward_candidates by_descriptor owner desc) as [|? [|]]; intros [=->]. }
  rewrite singleton_unique by apply candidates_NoDup. setoid_rewrite elem_of_candidates. split.
  - intros Hu. split_and!; try done. by exists owner, desc.
  - by intros (_ & _ & _ & o & d & [= <- <-] & Hu).
Qed.

Lemma forward_target_universe k orig : forward_target k = Some orig → orig ∈ key_universe docs.
Proof.
  intros (_ & _ & _ & o & d & _ & Hu)%forward_target_spec.
  by destruct (proj2 (Hu orig) eq_refl) as (o' & _ & ? & _).
Qed.

Definition forward_edges (index_of : gmap SymbolKey nat) (i : nat) (key : SymbolKey) : list (nat * nat) :=
  match forward_target key with
  | Some orig => match index_of !! orig with Some j => [(i, j)] | None => [] end
  | None => []
  end.

Lemma forward_key_edges {T : Type} `{DisjointSets T} (uf : T) fk i key :
  forward_key info defined by_descriptor (index_map keys) (fk, uf) i key =
  uf ← union_all uf (forward_edges (index_map keys) i key);
  Some (match forward_target key with Some _ => {[key]} ∪ fk | None => fk end, uf).
Proof.
  unfold forward_edges. pose proof (forward_target_universe key) as Hu. revert Hu.
  unfold forward_key, forward_target.
  destruct (key_is_local key); [done|]. destruct (negb (is_method info key) || _); [done|].
  destruct (descriptor_split (semantic_symbol key)) as [[owner desc]|]; [|done].
  destruct (forward_candidates by_descriptor owner desc) as [|orig [|]]; [done| |done].
  intros Hu. specialize (Hu orig eq_refl). apply elem_of_sorted_keys, list_elem_of_lookup in Hu as [j Hj].
  pose proof (proj2 (index_map_spec keys orig j (sorted_keys_NoDup docs)) Hj) as ->. cbn.
  by destruct (ds_union uf i j).
Qed.

Lemma forward_loop_edges {T : Type} `{DisjointSets T} ks (uf : T) fk i :
  for_enumerate (forward_key info defined by_descriptor (index_map keys)) (fk, uf) i ks =
  uf ← union_all uf (enum_edges (forward_edges (index_map keys)) i ks);
  Some (list_to_set (filter (λ k, is_Some (forward_target k)) ks) ∪ fk, uf).
Proof.
  revert uf fk i. induction ks as [|k ks IH]; intros uf fk i; cbn [for_enumerate enum_edges union_all].
  { cbn. f_equal. f_equal. set_solver. }
  rewrite forward_key_edges, union_all_app.
  destruct (union_all uf (forward_edges (index_map keys) i k)) as [uf'|]; cbn [mbind option_bind]; [|done].
  rewrite IH. destruct (union_all uf' _); cbn [mbind option_bind]; [|done]. f_equal. f_equal.
  rewrite filter_cons. destruct (forward_target k) as [o|] eqn:E.
  - rewrite decide_True by done. cbn. set_solver.
  - rewrite decide_False by (by intros [? [=]]). set_solver.
Qed.
End forward.

(** ** Lemmas: the classes of the key indices are the classes of the alias relation *)

Section edges.
Context `{CharTables} (docs : list NormalizedDocument).
Let keys := sorted_keys docs.

Definition all_edges : list (nat * nat) :=
  enum_edges (merge_edges (index_map keys)) 0 keys ++
  enum_edges (forward_edges docs (index_map keys)) 0 keys.

Lemma elem_of_all_edges i j :
  (i, j) ∈ all_edges ↔ ∃ k k', keys !! i = Some k ∧ keys !! j = Some k' ∧ alias_edge docs k k'.
Proof.
  unfold all_edges. rewrite elem_of_app, !elem_of_enum_edges. cbn.
  pose proof (sorted_keys_NoDup docs) as Hnd. fold keys in Hnd.
  assert (∀ i k, keys !! i = Some k → k ∈ key_universe docs) as Huniv.
  { intros a k Hk. apply elem_of_sorted_keys. by eapply list_elem_of_lookup_2. }
  unfold alias_edge. split.
  - intros [(a & k & Hk & He)|(a & k & Hk & He)].
    + unfold merge_edges in He. destruct (key_is_local k) eqn:El; [by apply not_elem_of_nil in He|].
      apply list_elem_of_omap in He as (t & Ht & Hj).
      destruct (index_map keys !! key_global t) as [j'|] eqn:Ej; [|done]. injection Hj as <- <-.
      apply index_map_spec in Ej; [|done]. exists k, (key_global t). split_and!; eauto.
    + unfold forward_edges in He. destruct (forward_target docs k) as [orig|] eqn:Ef;
        [|by apply not_elem_of_nil in He].
      destruct (index_map keys !! orig) as [j'|] eqn:Ej; [|by apply not_elem_of_nil in He].
      apply list_elem_of_singleton in He as [= -> ->].
      apply index_map_spec in Ej; [|done]. apply forward_target_spec in Ef.
      exists k, orig. split_and!; eauto.
  - intros (k & k' & Hk & Hk' & _ & _ & [(El & t & -> & Ht)|Hf]).
    + left. exists i, k. split; [done|]. unfold merge_edges. rewrite El.
      apply list_elem_of_omap. exists t. split; [done|]. apply index_map_spec in Hk'; [|done]. by rewrite Hk'.
    + right. exists i, k. split; [done|]. unfold forward_edges.
      apply forward_target_spec in Hf. rewrite Hf. apply index_map_spec in Hk'; [|done]. rewrite Hk'.
      by apply list_elem_of_singleton.
Qed.

Lemma all_edges_bounded : Forall (λ e, e.1 < length keys ∧ e.2 < length keys)%nat all_edges.
Proof.
  apply Forall_forall. intros [i j] (k & k' & Hi & Hj & _)%elem_of_all_edges. cbn.
  split; by eapply lookup_lt_Some.
Qed.

Lemma rtsc_all_edges i j k k' :
  keys !! i = Some k → keys !! j = Some k' →
  rtsc (λ a b, (a, b) ∈ all_edges) i j ↔ rtsc (alias_edge docs) k k'.
Proof.
  intros Hi Hj. split.
  - intros Hr. revert k Hi. induction Hr as [i|i m j Hm Hr IH]; intros k Hi.
    + assert (k = k') as -> by congruence. apply rtc_refl.
    + assert (∃ km, keys !! m = Some km ∧ sc (alias_edge docs) k km) as (km & Hkm & Hs).
      { destruct Hm as [(a & b & Ha & Hb & He)%elem_of_all_edges|(a & b & Ha & Hb & He)%elem_of_all_edges].
        - exists b. split; [done|]. left. congruence.
        - exists a. split; [done|]. right. congruence. }
      eapply rtc_l; [exact Hs|]. by apply IH.
  - intros Hr. revert i Hi. induction Hr as [k|k km k' Hm Hr IH]; intros i Hi.
    + assert (i = j) as -> by (by eapply NoDup_lookup; [apply (sorted_keys_NoDup docs)|..]).
      apply rtc_refl.
    + assert (km ∈ key_universe docs) as Hu by (destruct Hm as [(?&?&_)|(?&?&_)]; done).
      apply elem_of_sorted_keys, list_elem_of_lookup in Hu as [m Hkm].
      eapply rtc_l; [|by apply IH].
      destruct Hm as [He|He]; [left|right]; apply elem_of_all_edges; eauto.
Qed.
End edges.

(** ** Lemmas: assembling *)

Section assemble.
Context {T : Type} `{DisjointSetsOk T} (keys : list SymbolKey) (uf0 : T).
Hypothesis Hwf0 : ds_wf uf0 (length keys).

(** After the first [m] keys. *)
Definition assembled (m : nat) (st : list nat * gmap nat (list SymbolKey) * T) : Prop :=
  let '(order, buckets, uf) := st in
  ds_wf uf (length keys) ∧ (∀ x y, ds_root uf x y ↔ ds_root uf0 x y) ∧
  NoDup order ∧ (∀ r, r ∈ order ↔ is_Some (buckets !! r)) ∧
  (∀ r k, k ∈ default [] (buckets !! r) ↔ ∃ i, (i < m)%nat ∧ keys !! i = Some k ∧ ds_root uf0 i r) ∧
  (∀ p q r r', (p < q)%nat → order !! p = Some r → order !! q = Some r' →
     ∃ i, (i < m)%nat ∧ ds_root uf0 i r ∧ ∀ j, (j < m)%nat → ds_root uf0 j r' → (i < j)%nat) ∧
  (∀ r, is_Some (buckets !! r) → ∃ i, (i < m)%nat ∧ ds_root uf0 i r).

Lemma assemble_key_ok m st k :
  assembled m st → keys !! m = Some k →
  ∃ st', assemble_key st m k = Some st' ∧ assembled (S m) st'.
Proof.
  destruct st as [[order buckets] uf]. intros (Hwf & Hs & Hnd & Ho & Hb & Hord & Hne) Hk.
  pose proof (lookup_lt_Some _ _ _ Hk) as Hm.
  destruct (ds_find_ok uf _ m Hwf Hm) as (r & uf' & E & Hr & Hwf' & Hs'). unfold assemble_key. rewrite E.
  cbn [mbind option_bind]. apply Hs in Hr.
  assert (∀ r', ds_root uf0 m r' → r' = r) as Hfun.
  { intros r' Hr'. exact (ds_root_fun _ _ _ _ _ Hwf0 Hr' Hr). }
  eexists. split; [reflexivity|]. unfold assembled.
  assert (∀ r', r' ∈ match buckets !! r with Some _ => order | None => order ++ [r] end ↔ r' = r ∨ r' ∈ order) as Hin.
  { intros r'. destruct (buckets !! r) eqn:Er; [|set_solver].
    split; [by right|]. intros [->|]; [|done]. apply Ho. by eexists. }
  split_and!; try done.
  - intros x y. by rewrite Hs', Hs.
  - destruct (buckets !! r) eqn:Er; [done|]. apply NoDup_app. split_and!; [done| |apply NoDup_singleton].
    intros x Hx ->%list_elem_of_singleton. apply Ho in Hx. rewrite Er in Hx. by destruct Hx.
  - intros r'. rewrite Hin, Ho. destruct (decide (r = r')) as [->|].
    + rewrite lookup_insert_eq. naive_solver.
    + rewrite lookup_insert_ne by done. naive_solver.
  - intros r' k'. destruct (decide (r = r')) as [<-|Hrr].
    + rewrite lookup_insert_eq. cbn [default]. cbn [from_option id].
      rewrite elem_of_app, Hb, list_elem_of_singleton. split.
      * intros [(i & Hi & ? & ?)| ->]; [exists i|exists m]; split_and!; try done; lia.
      * intros (i & Hi & Hki & Hri). destruct (decide (i = m)) as [->|]; [right; congruence|].
        left. exists i. split_and!; [lia|done|done].
    + rewrite lookup_insert_ne, Hb by done. split.
      * intros (i & Hi & ? & ?). exists i. split_and!; [lia|done|done].
      * intros (i & Hi & Hki & Hri). exists i. split_and!; [|done|done].
        destruct (decide (i = m)) as [->|]; [|lia]. by rewrite (Hfun _ Hri) in Hrr.
  - intros p q r1 r2 Hpq Hp Hq.
    assert ((order !! p = Some r1 ∧ order !! q = Some r2) ∨
            (r1 ∈ order ∧ r2 = r ∧ buckets !! r = None)) as [[Hp' Hq']|(Hp' & -> & Er)].
    { destruct (buckets !! r) eqn:Er; [by left|].
      apply lookup_app_Some in Hp as [Hp|[Hlp Hp]].
      - apply lookup_app_Some in Hq as [Hq|[Hlq Hq]]; [by left|right].
        split_and!; [by eapply list_elem_of_lookup_2| |done].
        destruct (q - length order)%nat; [by injection Hq|done].
      - apply lookup_lt_Some in Hq. rewrite length_app in Hq. cbn in Hq. lia. }
    + destruct (Hord p q r1 r2 Hpq Hp' Hq') as (i & Hi & Hri & Hj). exists i. split_and!; [lia|done|].
      intros j Hjm Hrj. destruct (decide (j = m)) as [->|]; [lia|]. apply Hj; [lia|done].
    + apply Ho in Hp'. destruct (Hne _ Hp') as (i & Hi & Hri). exists i. split_and!; [lia|done|].
      intros j Hjm Hrj. destruct (decide (j = m)) as [->|]; [lia|]. exfalso.
      destruct (lookup_lt_is_Some_2 keys j) as [kj Hkj]; [lia|].
      assert (kj ∈ default [] (buckets !! r)) as Hx by (apply Hb; exists j; split_and!; [lia|done|done]).
      rewrite Er in Hx. by apply not_elem_of_nil in Hx.
  - intros r' Hr'. destruct (decide (r = r')) as [<-|]; [exists m; split; [lia|done]|].
    rewrite lookup_insert_ne in Hr' by done. destruct (Hne _ Hr') as (i & ? & ?). exists i. split; [lia|done].
Qed.

Lemma assemble_loop_ok m st ks :
  assembled m st → (m ≤ length keys)%nat → drop m keys = ks →
  ∃ st', for_enumerate assemble_key st m ks = Some st' ∧ assembled (length keys) st'.
Proof.
  revert m st. induction ks as [|k ks IH]; intros m st Hst Hm Hd; cbn.
  - exists st. split; [done|]. apply (f_equal length) in Hd. rewrite length_drop in Hd. cbn in Hd.
    by replace (length keys) with m by lia.
  - assert (keys !! m = Some k) as Hk.
    { rewrite <- (Nat.add_0_r m), <- lookup_drop, Hd. done. }
    destruct (assemble_key_ok m st k Hst Hk) as (st' & -> & Hst'). cbn [mbind option_bind].
    apply IH; [done|by apply lookup_lt_Some in Hk|].
    by rewrite (drop_S keys k m Hk) in Hd; injection Hd.
Qed.

Lemma assembled_empty : assembled 0 ([], ∅, uf0).
Proof.
  split_and!; try done.
  - constructor.
  - intros r. rewrite lookup_empty. split; [by intros ?%not_elem_of_nil|by intros []].
  - intros r k. rewrite lookup_empty. split; [by intros ?%not_elem_of_nil|]. intros (i & ? & _). lia.
  - intros r. rewrite lookup_empty. by intros [].
Qed.
End assemble.

(** ** Lemmas: the group index *)

Lemma set_fold_insert (m : gmap SymbolKey nat) (g : gset SymbolKey) gi k :
  set_fold (λ k m, <[k := gi]> m) m g !! k = if decide (k ∈ g) then Some gi else m !! k.
Proof.
  refine (set_fold_ind_L (λ (r : gmap SymbolKey nat) X, r !! k = if decide (k ∈ X) then Some gi else m !! k)
    (λ k m, <[k := gi]> m) m _ _ g).
  - by rewrite decide_False by set_solver.
  - intros x X r Hx Hr. destruct (decide (x = k)) as [->|Hne].
    + rewrite lookup_insert_eq, decide_True by set_solver. done.
    + rewrite lookup_insert_ne, Hr by done. destruct (decide (k ∈ X)).
      * by rewrite decide_True by set_solver.
      * by rewrite decide_False by set_solver.
Qed.

Lemma index_groups_spec groups k gi :
  (∀ p q g h, groups !! p = Some g → groups !! q = Some h → k ∈ g → k ∈ h → p = q) →
  index_groups groups !! k = Some gi ↔ ∃ g, groups !! gi = Some g ∧ k ∈ g.
Proof.
  unfold index_groups. induction groups as [|g groups IH] using rev_ind; intros Hd.
  { cbn. rewrite lookup_empty. split; [done|]. by intros (g & ? & _). }
  rewrite length_app, seq_app, zip_with_app by by rewrite length_seq. cbn.
  rewrite foldl_app. cbn. rewrite set_fold_insert. case_decide as Hk.
  - split.
    + intros [= <-]. exists g. split; [by apply list_lookup_middle|done].
    + intros (h & Hh & Hkh). f_equal. symmetry. eapply Hd; [exact Hh| |exact Hkh|exact Hk].
      by apply list_lookup_middle.
  - rewrite IH.
    + split; intros (h & Hh & Hkh); exists h; (split; [|done]).
      * by apply lookup_app_l_Some.
      * apply lookup_app_Some in Hh as [|[_ Hh]]; [done|].
        destruct (gi - length groups)%nat; [by injection Hh as ->|done].
    + intros p q g' h Hp Hq. apply Hd; by apply lookup_app_l_Some.
Qed.

(** ** Lemmas: the order of keys *)

Lemma key_leb_total a b : key_leb a b = true ∨ key_leb b a = true.
Proof.
  unfold key_leb, str_cmp, bytes_cmp.
  rewrite (lex_cmp_antisym (byte_val <$> as_bytes (semantic_symbol a))).
  destruct (lex_cmp _ _); cbn; [|by left|by right].
  destruct (Z.leb_spec (ord_val a) (ord_val b)), (Z.leb_spec (ord_val b) (ord_val a)); auto; lia.
Qed.

Lemma key_leb_trans a b c : key_leb a b = true → key_leb b c = true → key_leb a c = true.
Proof.
  unfold key_leb, str_cmp, bytes_cmp.
  set (x := byte_val <$> as_bytes (semantic_symbol a)). set (y := byte_val <$> as_bytes (semantic_symbol b)).
  set (z := byte_val <$> as_bytes (semantic_symbol c)). clearbody x y z.
  destruct (lex_cmp x y) eqn:E1; [apply lex_cmp_eq in E1 as ->| |done].
  - destruct (lex_cmp y z); try done. rewrite !Z.leb_le. lia.
  - destruct (lex_cmp y z) eqn:E2; [apply lex_cmp_eq in E2 as <-; by rewrite E1| |done].
    by rewrite (lex_cmp_lt_trans x y z).
Qed.

Lemma sorted_keys_lookup docs i j a b :
  (i < j)%nat → sorted_keys docs !! i = Some a → sorted_keys docs !! j = Some b → key_leb a b = true.
Proof.
  apply (StronglySorted_lookup (λ a b, key_leb a b = true)). apply sort_by_sorted.
  - apply key_leb_total.
  - apply key_leb_trans.
Qed.

(** ** Lemmas: the key universe *)

Lemma scan_symbols_spec (ks : gset SymbolKey) m l k :
  k ∈ (foldl (λ '(ks, m) s, ({[si_key s]} ∪ ks, or_insert m s)) (ks, m) l).1 ↔
  k ∈ ks ∨ ∃ s, s ∈ l ∧ si_key s = k.
Proof.
  revert ks m. induction l as [|s l IH]; intros ks m; cbn.
  - split; [by left|]. intros [?|(s & ?%not_elem_of_nil & _)]; done.
  - rewrite IH, elem_of_union, elem_of_singleton. split.
    + intros [[->|?]|(s' & ? & ?)]; [right; exists s|by left|right; exists s']; set_solver.
    + intros [?|(s' & [->|?]%elem_of_cons & <-)]; [by left; right|by left; left|right; by exists s'].
Qed.

Lemma scan_occurrences_spec ks l k :
  k ∈ foldl (λ (ks : gset SymbolKey) o, {[occ_key o]} ∪ ks) ks l ↔ k ∈ ks ∨ ∃ o, o ∈ l ∧ occ_key o = k.
Proof.
  revert ks. induction l as [|o l IH]; intros ks; cbn.
  - split; [by left|]. intros [?|(s & ?%not_elem_of_nil & _)]; done.
  - rewrite IH, elem_of_union, elem_of_singleton. split.
    + intros [[->|?]|(s' & ? & ?)]; [right; exists o|by left|right; exists s']; set_solver.
    + intros [?|(s' & [->|?]%elem_of_cons & <-)]; [by left; right|by left; left|right; by exists s'].
Qed.

(** [k] is declared by a symbol or occurs in a document. *)
Definition mentioned (docs : list NormalizedDocument) (k : SymbolKey) : Prop :=
  ∃ doc, doc ∈ docs ∧ ((∃ s, s ∈ nd_symbols doc ∧ si_key s = k) ∨
                       (∃ o, o ∈ nd_occurrences doc ∧ occ_key o = k)).

Lemma scan_documents_spec docs k : k ∈ (scan_documents docs).1 ↔ mentioned docs k.
Proof.
  unfold scan_documents, mentioned.
  assert (∀ st : gset SymbolKey * gmap SymbolKey SymbolInfo, k ∈ (foldl scan_document st docs).1 ↔ k ∈ st.1 ∨
    ∃ doc, doc ∈ docs ∧ ((∃ s, s ∈ nd_symbols doc ∧ si_key s = k) ∨
                         (∃ o, o ∈ nd_occurrences doc ∧ occ_key o = k))) as ->.
  2:{ cbn. set_solver. }
  induction docs as [|doc docs IH]; intros [ks m]; cbn [foldl].
  - split; [by left|]. intros [?|(s & ?%not_elem_of_nil & _)]; done.
  - rewrite IH. unfold scan_document.
    pose proof (scan_symbols_spec ks m (nd_symbols doc) k) as Hs.
    destruct (foldl _ (ks, m) (nd_symbols doc)) as [ks' m']. cbn [fst] in *.
    rewrite scan_occurrences_spec, Hs. setoid_rewrite elem_of_cons. naive_solver.
Qed.

Lemma key_universe_spec docs k :
  k ∈ key_universe docs ↔ mentioned docs k ∨ ∃ c, mentioned docs c ∧ implied_key c = Some k.
Proof.
  unfold key_universe. rewrite elem_of_union, elem_of_list_to_set, list_elem_of_omap.
  setoid_rewrite elem_of_elements. setoid_rewrite scan_documents_spec. naive_solver.
Qed.

(** ** Lemmas: the whole build *)

Definition group_sets (order : list nat) (buckets : gmap nat (list SymbolKey)) : list (gset SymbolKey) :=
  (λ r, list_to_set (default [] (buckets !! r))) <$> order.

Section assembled_groups.
Context `{CharTables} {T : Type} `{DisjointSetsOk T} (docs : list NormalizedDocument) (uf0 : T).
Let keys := sorted_keys docs.
Hypothesis Hwf0 : ds_wf uf0 (length keys).
Variables (order : list nat) (buckets : gmap nat (list SymbolKey)) (uf : T).
Hypothesis Hst : assembled keys uf0 (length keys) (order, buckets, uf).

Lemma elem_of_group gi g k :
  group_sets order buckets !! gi = Some g →
  (k ∈ g ↔ ∃ i r, order !! gi = Some r ∧ keys !! i = Some k ∧ ds_root uf0 i r).
Proof.
  destruct Hst as (_ & _ & _ & _ & Hb & _ & _). unfold group_sets. rewrite list_lookup_fmap.
  destruct (order !! gi) as [r|] eqn:Er; [|done]. cbn. intros [= <-].
  rewrite elem_of_list_to_set, Hb. split.
  - intros (i & _ & ? & ?). by exists i, r.
  - intros (i & r' & [= <-] & Hk & Hr). exists i. split_and!; [by eapply lookup_lt_Some|done|done].
Qed.

Lemma group_index_spec k gi :
  index_groups (group_sets order buckets) !! k = Some gi ↔
  ∃ i r, order !! gi = Some r ∧ keys !! i = Some k ∧ ds_root uf0 i r.
Proof.
  rewrite index_groups_spec.
  - split.
    + intros (g & Hg & Hk). by apply (elem_of_group gi g k Hg).
    + intros (i & r & Hr & Hk & Hroot).
      assert (∃ g, group_sets order buckets !! gi = Some g) as [g Hg].
      { unfold group_sets. rewrite list_lookup_fmap, Hr. by eexists. }
      exists g. split; [done|]. apply (elem_of_group gi g k Hg). by exists i, r.
  - intros p q g h Hg Hh Hkg Hkh.
    apply (elem_of_group p g k Hg) in Hkg as (i & r & Hr & Hi & Hroot).
    apply (elem_of_group q h k Hh) in Hkh as (j & r' & Hr' & Hj & Hroot').
    assert (i = j) as -> by (by eapply NoDup_lookup; [apply (sorted_keys_NoDup docs)|..]).
    assert (r = r') as -> by (exact (ds_root_fun _ _ _ _ _ Hwf0 Hroot Hroot')).
    destruct Hst as (_ & _ & Hnd & _). by eapply NoDup_lookup.
Qed.

Lemma group_of_root i k r :
  keys !! i = Some k → ds_root uf0 i r →
  ∃ gi, order !! gi = Some r ∧ index_groups (group_sets order buckets) !! k = Some gi.
Proof.
  intros Hi Hr. pose proof Hst as (_ & _ & _ & Ho & Hb & _ & _).
  assert (k ∈ default [] (buckets !! r)) as Hk.
  { apply Hb. exists i. split_and!; [by eapply lookup_lt_Some|done|done]. }
  assert (r ∈ order) as [gi Hgi]%list_elem_of_lookup.
  { apply Ho. destruct (buckets !! r); [by eexists|by apply not_elem_of_nil in Hk]. }
  exists gi. split; [done|]. apply group_index_spec. by exists i, r.
Qed.

Lemma same_group_same_root i j k k' :
  keys !! i = Some k → keys !! j = Some k' →
  index_groups (group_sets order buckets) !! k = index_groups (group_sets order buckets) !! k' ↔
  ds_same uf0 i j.
Proof.
  intros Hi Hj.
  destruct (ds_root_total _ _ i Hwf0) as (r & Hr & _); [by eapply lookup_lt_Some|].
  destruct (ds_root_total _ _ j Hwf0) as (r' & Hr' & _); [by eapply lookup_lt_Some|].
  destruct (group_of_root i k r Hi Hr) as (gi & Ho & ->).
  destruct (group_of_root j k' r' Hj Hr') as (gj & Ho' & ->). split.
  - intros [= ->]. exists r. split; [done|]. congruence.
  - intros (s & Hs & Hs').
    rewrite (ds_root_fun _ _ _ _ _ Hwf0 Hr Hs) in Ho. rewrite (ds_root_fun _ _ _ _ _ Hwf0 Hr' Hs') in Ho'.
    f_equal. destruct Hst as (_ & _ & Hnd & _). by eapply NoDup_lookup.
Qed.

Lemma groups_ordered gi gj g h :
  (gi < gj)%nat → group_sets order buckets !! gi = Some g → group_sets order buckets !! gj = Some h →
  ∃ k, k ∈ g ∧ ∀ k', k' ∈ h → key_leb k k' = true.
Proof.
  intros Hlt Hg Hh. pose proof Hst as (_ & _ & _ & _ & _ & Hord & _).
  assert (∀ p x, group_sets order buckets !! p = Some x → ∃ r, order !! p = Some r) as Hor.
  { intros p x Hx. unfold group_sets in Hx. rewrite list_lookup_fmap in Hx.
    destruct (order !! p); [by eexists|done]. }
  destruct (Hor _ _ Hg) as [r Hr]. destruct (Hor _ _ Hh) as [r' Hr'].
  destruct (Hord gi gj r r' Hlt Hr Hr') as (i & Hi & Hri & Hj).
  destruct (lookup_lt_is_Some_2 keys i Hi) as [k Hk]. exists k. split.
  - apply (elem_of_group gi g k Hg). by exists i, r.
  - intros k' (j & r'' & Ho & Hkj & Hrj)%(elem_of_group gj h k' Hh).
    assert (r'' = r') as -> by congruence.
    eapply sorted_keys_lookup; [|exact Hk|exact Hkj]. apply Hj; [by eapply lookup_lt_Some|done].
Qed.

Lemma index_domain k : is_Some (index_groups (group_sets order buckets) !! k) ↔ k ∈ key_universe docs.
Proof.
  rewrite <- elem_of_sorted_keys. split.
  - intros [gi (i & r & _ & Hi & _)%group_index_spec]. by eapply list_elem_of_lookup_2.
  - intros [i Hi]%list_elem_of_lookup.
    destruct (ds_root_total _ _ i Hwf0) as (r & Hr & _); [by eapply lookup_lt_Some|].
    destruct (group_of_root i k r Hi Hr) as (gi & _ & ->). by eexists.
Qed.
End assembled_groups.

Lemma build_with_ok `{CharTables} {T : Type} `{DisjointSetsOk T} docs :
  ∃ (uf0 uf : T) order buckets,
    ds_wf uf0 (length (sorted_keys docs)) ∧
    (∀ x y, (x < length (sorted_keys docs))%nat → (y < length (sorted_keys docs))%nat →
       ds_same uf0 x y ↔ rtsc (λ a b, (a, b) ∈ all_edges docs) x y) ∧
    assembled (sorted_keys docs) uf0 (length (sorted_keys docs)) (order, buckets, uf) ∧
    let groups := group_sets order buckets in
    build_with (T := T) docs = Some
      {| ref_groups := groups; ref_group_index := index_groups groups;
         rename_groups := groups; rename_group_index := index_groups groups;
         rename_group_semantic_mask :=
           semantic_mask (scan_documents docs).2
             (list_to_set (filter (λ k, is_Some (forward_target docs k)) (sorted_keys docs)))
           <$> groups |}.
Proof.
  destruct (union_all_closure (T := T) (length (sorted_keys docs)) (all_edges docs))
    as (uf0 & E & Hwf0 & Hsame); [apply all_edges_bounded|].
  unfold all_edges in E. rewrite union_all_app in E.
  destruct (union_all (ds_new _) (enum_edges (merge_edges _) 0 _)) as [uf1|] eqn:E1; [|done].
  cbn [mbind option_bind] in E.
  destruct (assemble_loop_ok (sorted_keys docs) uf0 Hwf0 0 ([], ∅, uf0) (sorted_keys docs))
    as ([[order buckets] uf] & Ea & Hst); [by apply assembled_empty|lia|done|].
  exists uf0, uf, order, buckets. split_and!; [done|done|done|]. cbn zeta. unfold build_with.
  rewrite (for_enumerate_edges _ (merge_edges (index_map (sorted_keys docs)))) by (intros; apply merge_key_edges).
  rewrite E1. cbn [mbind option_bind]. rewrite forward_loop_edges, E. cbn [mbind option_bind].
  rewrite Ea. cbn [mbind option_bind]. by rewrite union_empty_r_L.
Qed.

(** The groups of a batch: built, with equal indexes over the key universe. *)
Lemma build_shape `{CharTables} docs :
  ∃ g, build docs = Some g ∧ ref_groups g = rename_groups g ∧ ref_group_index g = rename_group_index g ∧
    ∀ k, is_Some (rename_group_index g !! k) ↔ k ∈ key_universe docs.
Proof.
  destruct (build_with_ok (T := UnionFind) docs) as (uf0 & uf & order & buckets & Hwf0 & _ & Hst & E).
  eexists. split; [exact E|]. split_and!; [done|done|]. intros k. by apply (index_domain docs uf0 Hwf0 order buckets uf Hst).
Qed.

(** ** Lemmas: the semantic mask *)

Lemma any_key_true f g : any_key f g = true ↔ ∃ k, k ∈ g ∧ f k = true.
Proof.
  unfold any_key. rewrite existsb_exists. setoid_rewrite <- list_elem_of_In. by setoid_rewrite elem_of_elements.
Qed.

(** Setting a reason bit. *)
Lemma has_lor_if mask (b : bool) i j :
  0 ≤ i → 0 ≤ j →
  has (if b then Z.lor mask (Z.shiftl 1 i) else mask) (Z.shiftl 1 j) =
  has mask (Z.shiftl 1 j) || (b && (i =? j)).
Proof.
  intros Hi Hj. rewrite !has_testbit by done. destruct b; [|by rewrite orb_false_r].
  rewrite Z.lor_spec, Z.shiftl_1_l, Z.pow2_bits_eqb by done. done.
Qed.

Lemma semantic_mask_bits info fwd g j :
  0 ≤ j → has (semantic_mask info fwd g) (Z.shiftl 1 j) =
  any_key (λ k, match info !! k with Some i => negb (bool_decide (si_overridden_symbols i = [])) | None => false end
            || bool_decide (k ∈ overridden_targets info)) g && (3 =? j)
  || any_key (λ k, bool_decide (k ∈ fwd)) g && (7 =? j)
  || any_key (λ k, match info !! k with
                   | Some i => negb (Z.land (si_properties i) PROP_OPAQUE =? 0) | None => false end) g && (9 =? j).
Proof.
  intros Hj. unfold semantic_mask, OVERRIDE_FAMILY, UNSUPPORTED_SYMBOL_FAMILY, OPAQUE_TYPE.
  rewrite !has_lor_if by lia. replace (has 0 (Z.shiftl 1 j)) with false; [done|].
  rewrite has_testbit by done. by rewrite Z.bits_0.
Qed.

(** [k] is overridden by a symbol of the batch. *)
Lemma elem_of_overridden_targets info k :
  k ∈ overridden_targets info ↔
  ∃ k' i sym, info !! k' = Some i ∧ sym ∈ si_overridden_symbols i ∧ k = key_global sym.
Proof.
  unfold overridden_targets. rewrite elem_of_list_to_set, list_elem_of_fmap. split.
  - intros (sym & -> & (l & Hs & Hl)%list_elem_of_In%in_concat).
    apply list_elem_of_In, list_elem_of_fmap in Hs as ([k' i] & -> & Hi%elem_of_map_to_list).
    exists k', i, sym. split_and!; [done|by apply list_elem_of_In|done].
  - intros (k' & i & sym & Hi & Hs & ->). exists sym. split; [done|].
    apply list_elem_of_In, in_concat. exists (si_overridden_symbols i). split; [|by apply list_elem_of_In].
    apply list_elem_of_In, list_elem_of_fmap. exists (k', i). split; [done|]. by apply elem_of_map_to_list.
Qed.

(** ** Properties *)

(** C22. Alias groups are exactly the alias classes of the batch. [build] never panics, on
    any documents; the groups partition the key universe (the mentioned keys and the
    classes implied by constructors), the index sends each key to its group; two keys
    share a group if and only if a chain of alias edges (companions, constructors,
    [apply]/[unapply], setters, export forwarders) connects them; and the groups come
    ordered by their minimal members, so the result is deterministic. *)
Theorem alias_groups_are_alias_classes `{CharTables} docs :
  ∃ g, build docs = Some g ∧
    ref_groups g = rename_groups g ∧ ref_group_index g = rename_group_index g ∧
    (∀ k, is_Some (rename_group_of g k) ↔
       mentioned docs k ∨ ∃ c, mentioned docs c ∧ implied_key c = Some k) ∧
    (∀ k gi, rename_group_of g k = Some gi ↔ ∃ grp, rename_groups g !! gi = Some grp ∧ k ∈ grp) ∧
    (∀ k k', k ∈ key_universe docs → k' ∈ key_universe docs →
       (rename_group_of g k = rename_group_of g k' ↔ rtsc (alias_edge docs) k k')) ∧
    (∀ gi gj grp grp', (gi < gj)%nat → rename_groups g !! gi = Some grp → rename_groups g !! gj = Some grp' →
       ∃ k, k ∈ grp ∧ ∀ k', k' ∈ grp' → key_leb k k' = true).
Proof.
  destruct (build_with_ok (T := UnionFind) docs) as (uf0 & uf & order & buckets & Hwf0 & Hsame & Hst & E).
  eexists. split; [exact E|]. cbn [ref_groups rename_groups ref_group_index rename_group_index].
  unfold rename_group_of. cbn [rename_group_index].
  split_and!; [done|done|..].
  - intros k. by rewrite (index_domain docs uf0 Hwf0 order buckets uf Hst), key_universe_spec.
  - intros k gi. rewrite (group_index_spec docs uf0 Hwf0 order buckets uf Hst). split.
    + intros (i & r & Hr & Hk & Hroot).
      exists (list_to_set (default [] (buckets !! r))). unfold group_sets. rewrite list_lookup_fmap, Hr.
      split; [done|]. apply (elem_of_group docs uf0 order buckets uf Hst gi); [|by exists i, r].
      unfold group_sets. by rewrite list_lookup_fmap, Hr.
    + intros (grp & Hg & Hk). by apply (elem_of_group docs uf0 order buckets uf Hst gi grp k Hg).
  - intros k k' [i Hi]%elem_of_sorted_keys%list_elem_of_lookup [j Hj]%elem_of_sorted_keys%list_elem_of_lookup.
    rewrite (same_group_same_root docs uf0 Hwf0 order buckets uf Hst i j k k' Hi Hj).
    rewrite Hsame by by eapply lookup_lt_Some. by apply rtsc_all_edges.
  - intros gi gj grp grp'. apply (groups_ordered docs uf0 order buckets uf Hst).
Qed.

Definition example_doc : NormalizedDocument :=
  let span := mkSpan 0 0 0 1 in
  let occ s := Occurrence_new (key_global (lit s)) span Definition_ in
  {| nd_uri := lit "a.scala"; nd_md5 := []; nd_schema_version := 4; nd_language := lit "scala";
     nd_symbols := [mkSymbolInfo (key_global (lit "C#")) [] None None Class_ PROP_OPAQUE []];
     nd_occurrences := [occ "C#"; occ "C."; occ "D#"] |}.

Lemma alias_groups_are_alias_classes_witness :
  ∃ g, @build ascii_tables [example_doc] = Some g ∧
    rename_group_of g (key_global (lit "C#")) = rename_group_of g (key_global (lit "C.")) ∧
    rename_group_of g (key_global (lit "C#")) ≠ rename_group_of g (key_global (lit "D#")).
Proof.
  destruct (@alias_groups_are_alias_classes ascii_tables [example_doc]) as (g & E & _).
  exists g. split; [exact E|].
  assert ((λ g, bool_decide (rename_group_of g (key_global (lit "C#")) = rename_group_of g (key_global (lit "C.")) ∧
    rename_group_of g (key_global (lit "C#")) ≠ rename_group_of g (key_global (lit "D#")))) <$>
    @build ascii_tables [example_doc] = Some true) as Hc by (vm_compute; reflexivity).
  rewrite E in Hc. injection Hc as Hc. exact (proj1 (bool_decide_eq_true _) Hc).
Defined.

(** The semantic reasons of a group are exact: it is an override family iff a member
    overrides something or is overridden in the batch, unsupported iff a member is an
    export forwarder, opaque iff a member is an opaque type, and no other bit is set. *)
Theorem semantic_mask_exact `{CharTables} docs g :
  build docs = Some g →
  let info := (scan_documents docs).2 in
  ∀ gi grp mask, rename_groups g !! gi = Some grp → rename_group_semantic_mask g !! gi = Some mask →
    (has mask OVERRIDE_FAMILY = true ↔
       ∃ k, k ∈ grp ∧ ((∃ i, info !! k = Some i ∧ si_overridden_symbols i ≠ []) ∨
         ∃ k' i sym, info !! k' = Some i ∧ sym ∈ si_overridden_symbols i ∧ k = key_global sym)) ∧
    (has mask UNSUPPORTED_SYMBOL_FAMILY = true ↔ ∃ k orig, k ∈ grp ∧ forwards_to docs k orig) ∧
    (has mask OPAQUE_TYPE = true ↔
       ∃ k i, k ∈ grp ∧ info !! k = Some i ∧ Z.land (si_properties i) PROP_OPAQUE ≠ 0) ∧
    (∀ j, 0 ≤ j → has mask (Z.shiftl 1 j) = true → j = 3 ∨ j = 7 ∨ j = 9).
Proof.
  destruct (build_with_ok (T := UnionFind) docs) as (uf0 & uf & order & buckets & Hwf0 & _ & Hst & E).
  unfold build. rewrite E. intros [= <-]. set (info := (scan_documents docs).2).
  cbn zeta. intros gi grp mask. cbn [rename_groups rename_group_semantic_mask].
  intros Hg. rewrite list_lookup_fmap, Hg. cbn [fmap option_fmap option_map]. intros [= <-].
  assert (∀ k, k ∈ grp → k ∈ sorted_keys docs) as Hin.
  { intros k (i & r & _ & Hi & _)%(elem_of_group docs uf0 order buckets uf Hst gi grp k Hg).
    by eapply list_elem_of_lookup_2. }
  unfold OVERRIDE_FAMILY, UNSUPPORTED_SYMBOL_FAMILY, OPAQUE_TYPE. rewrite !semantic_mask_bits by done.
  cbn [Z.eqb Pos.eqb]. rewrite !andb_false_r, !andb_true_r, !orb_false_r. cbn [orb].
  rewrite !any_key_true. split_and!.
  - setoid_rewrite orb_true_iff. setoid_rewrite bool_decide_eq_true. setoid_rewrite elem_of_overridden_targets.
    split; intros (k & Hk & Ho); exists k; (split; [done|]); destruct Ho as [Ho|Ho]; [left|by right|left|by right].
    + destruct (info !! k) as [i|]; [|done]. exists i. split; [done|].
      apply negb_true_iff, bool_decide_eq_false in Ho. done.
    + destruct Ho as (i & -> & Ho). by apply negb_true_iff, bool_decide_eq_false.
  - setoid_rewrite bool_decide_eq_true. setoid_rewrite elem_of_list_to_set.
    setoid_rewrite list_elem_of_filter. split.
    + intros (k & Hk & [orig Ho] & _). exists k, orig. split; [done|]. by apply forward_target_spec.
    + intros (k & orig & Hk & Ho%forward_target_spec). exists k. split_and!; [done|by eexists|by apply Hin].
  - split.
    + intros (k & Hk & Ho). destruct (info !! k) as [i|] eqn:Ei; [|done]. exists k, i. split_and!; [done|done|].
      apply negb_true_iff, Z.eqb_neq in Ho. done.
    + intros (k & i & Hk & Hi & Ho). exists k. rewrite Hi. split; [done|]. by apply negb_true_iff, Z.eqb_neq.
  - intros j Hj. rewrite semantic_mask_bits by done.
    destruct (Z.eqb_spec 3 j), (Z.eqb_spec 7 j), (Z.eqb_spec 9 j); rewrite ?andb_false_r; cbn; intros; auto; try done.
    all: lia.
Qed.

Lemma semantic_mask_exact_witness :
  ∃ g grp mask, @build ascii_tables [example_doc] = Some g ∧
    rename_groups g !! 0%nat = Some grp ∧ rename_group_semantic_mask g !! 0%nat = Some mask ∧
    ∃ k i, k ∈ grp ∧ (scan_documents [example_doc]).2 !! k = Some i ∧ Z.land (si_properties i) PROP_OPAQUE ≠ 0.
Proof.
  destruct (@build ascii_tables [example_doc]) as [g|] eqn:E.
  2:{ exfalso. assert (bool_decide (is_Some (@build ascii_tables [example_doc])) = true) as Hs by (vm_compute; reflexivity).
      rewrite E in Hs. discriminate Hs. }
  assert ((λ g, bool_decide (is_Some (rename_groups g !! 0%nat)) &&
     bool_decide (rename_group_semantic_mask g !! 0%nat = Some OPAQUE_TYPE)) <$>
     @build ascii_tables [example_doc] = Some true) as Hc by (vm_compute; reflexivity).
  rewrite E in Hc. injection Hc as [Hg Hm]%andb_true_iff.
  apply bool_decide_eq_true in Hm. apply bool_decide_eq_true in Hg as [grp Hg].
  exists g, grp, OPAQUE_TYPE. split; [reflexivity|]. split; [exact Hg|]. split; [exact Hm|].
  destruct (@semantic_mask_exact ascii_tables [example_doc] g E 0%nat grp OPAQUE_TYPE Hg Hm) as (_ & _ & (H9 & _) & _).
  exact (H9 eq_refl).
Defined.
