(* ===== verification/SdbProfile.v ===== *)
(** Rename-safety profiles and the assembled ingest batch:
    [ls-semanticdb/src/profile.rs] and [ls-semanticdb/src/batch.rs]. *)

From stdpp Require Import relations fin_sets.
From S2P Require Import Prelude RustStr SdbModel IndexModel SdbSymbols SdbNormalize UnionFind SdbGroups.

Record DocFacts := {
  generated : bool;
  readonly : bool;
  is_dependency_source : bool
}.

(** [DocFacts::editable], [DocFacts::workspace_source] *)
Definition editable (f : DocFacts) : bool :=
  negb (generated f) && negb (readonly f) && negb (is_dependency_source f).
Definition workspace_source : DocFacts :=
  {| generated := false; readonly := false; is_dependency_source := false |}.

(** The per-group vectors of the first pass of [build_profiles]. *)
Record ProfileVectors := {
  v_has_definition : list bool;
  v_has_generated : list bool;
  v_has_readonly : list bool;
  v_has_dependency : list bool;
  v_editable_count : list Z;
  v_defined_global_keys : gset SymbolKey
}.

Definition vectors_new (n : nat) : ProfileVectors :=
  {| v_has_definition := replicate n false; v_has_generated := replicate n false;
     v_has_readonly := replicate n false; v_has_dependency := replicate n false;
     v_editable_count := replicate n 0; v_defined_global_keys := ∅ |}.

(** [if cond { v[i] = f(v[i]) }]; [None] is an index out of bounds. *)
Definition update_if {A : Type} (cond : bool) (f : A → A) (v : list A) (i : nat) : option (list A) :=
  if cond then x ← v !! i; Some (<[i := f x]> v) else Some v.

Definition facts_of (doc_facts : gmap (list Z) DocFacts) (doc : NormalizedDocument) : DocFacts :=
  default workspace_source (doc_facts !! nd_uri doc).

(** The body of the loop over the occurrences of a document. *)
Definition count_occurrence (index : gmap SymbolKey nat) (facts : DocFacts)
    (v : ProfileVectors) (occ : Occurrence) : option ProfileVectors :=
  let is_def := bool_decide (occ_role occ = Definition_) in
  let keys := if is_def && negb (key_is_local (occ_key occ))
              then {[occ_key occ]} ∪ v_defined_global_keys v else v_defined_global_keys v in
  match index !! occ_key occ with
  | Some gi =>
      d ← update_if is_def (λ _, true) (v_has_definition v) gi;
      g ← update_if (generated facts) (λ _, true) (v_has_generated v) gi;
      r ← update_if (readonly facts) (λ _, true) (v_has_readonly v) gi;
      s ← update_if (is_dependency_source facts) (λ _, true) (v_has_dependency v) gi;
      e ← update_if (editable facts) (λ c, as_u32 (c + 1)) (v_editable_count v) gi;
      Some {| v_has_definition := d; v_has_generated := g; v_has_readonly := r;
              v_has_dependency := s; v_editable_count := e; v_defined_global_keys := keys |}
  | None =>
      Some {| v_has_definition := v_has_definition v; v_has_generated := v_has_generated v;
              v_has_readonly := v_has_readonly v; v_has_dependency := v_has_dependency v;
              v_editable_count := v_editable_count v; v_defined_global_keys := keys |}
  end.

Fixpoint foldM {S A : Type} (f : S → A → option S) (s : S) (l : list A) : option S :=
  match l with
  | [] => Some s
  | x :: l => s ← f s x; foldM f s l
  end.

Definition count_document (index : gmap SymbolKey nat) (doc_facts : gmap (list Z) DocFacts)
    (v : ProfileVectors) (doc : NormalizedDocument) : option ProfileVectors :=
  foldM (count_occurrence index (facts_of doc_facts doc)) v (nd_occurrences doc).

Definition owner_defined_in_workspace (defined : gset SymbolKey) (group : gset SymbolKey) : bool :=
  any_key (λ k, negb (key_is_local k) &&
    match split_last (semantic_symbol k) with
    | Some (owner, _) => bool_decide (key_global owner ∈ defined)
    | None => false
    end) group.

Definition group_has_companion `{CharTables} (group : gset SymbolKey) : bool :=
  any_key (λ k, negb (key_is_local k) && ends_with (lit "#") (semantic_symbol k) &&
    match companion (semantic_symbol k) with
    | Some c => bool_decide (key_global c ∈ group)
    | None => false
    end) group.

(** The closure that builds the profile of group [gi]. *)
Definition group_profile `{CharTables} (v : ProfileVectors) (semantic_masks : list Z)
    (gi : nat) (group : gset SymbolKey) : option RenameProfile :=
  has_definition ← v_has_definition v !! gi;
  has_generated ← v_has_generated v !! gi;
  has_readonly ← v_has_readonly v !! gi;
  has_dependency ← v_has_dependency v !! gi;
  editable_count ← v_editable_count v !! gi;
  semantic_mask ← semantic_masks !! gi;
  let is_local := negb (bool_decide (group = ∅)) && forallb key_is_local (elements group) in
  let synthetic_only := negb is_local && negb has_definition &&
                        owner_defined_in_workspace (v_defined_global_keys v) group in
  let is_external := negb has_definition && negb synthetic_only in
  let mask := semantic_mask in
  let mask := if is_external then Z.lor mask EXTERNAL else mask in
  let mask := if synthetic_only then Z.lor mask SYNTHETIC_ONLY else mask in
  let mask := if (has_generated : bool) then Z.lor mask GENERATED_OCCURRENCE else mask in
  let mask := if (has_readonly : bool) then Z.lor mask READONLY_OCCURRENCE else mask in
  let mask := if (has_dependency : bool) then Z.lor mask DEPENDENCY_SOURCE else mask in
  Some {| is_local_group := is_local;
          is_external := is_external;
          has_generated_occurrences := has_generated;
          has_readonly_occurrences := has_readonly;
          has_override_family := negb (Z.land semantic_mask OVERRIDE_FAMILY =? 0);
          has_companion := group_has_companion group;
          editable_occurrence_count := editable_count;
          unsafe_reason_mask := mask |}.

Fixpoint map_enumerate {A B : Type} (f : nat → A → option B) (i : nat) (l : list A) : option (list B) :=
  match l with
  | [] => Some []
  | x :: l => y ← f i x; ys ← map_enumerate f (S i) l; Some (y :: ys)
  end.

Definition build_profiles `{CharTables} (docs : list NormalizedDocument) (groups : AliasGroups)
    (doc_facts : gmap (list Z) DocFacts) : option (list RenameProfile) :=
  let n := length (rename_groups groups) in
  v ← foldM (count_document (rename_group_index groups) doc_facts) (vectors_new n) docs;
  map_enumerate (group_profile v (rename_group_semantic_mask groups)) 0 (rename_groups groups).

(** ** The batch ([batch.rs]) *)

Record SemanticBatch := {
  b_documents : list NormalizedDocument;
  b_groups : AliasGroups;
  b_rename_profiles : list RenameProfile
}.

(** [SemanticBatch::assemble_with_facts], [SemanticBatch::assemble] *)
Definition assemble_with_facts `{CharTables} (docs : list NormalizedDocument)
    (doc_facts : gmap (list Z) DocFacts) : option SemanticBatch :=
  groups ← build docs;
  profiles ← build_profiles docs groups doc_facts;
  Some {| b_documents := docs; b_groups := groups; b_rename_profiles := profiles |}.
Definition assemble `{CharTables} (docs : list NormalizedDocument) : option SemanticBatch :=
  assemble_with_facts docs ∅.

(** [SemanticBatch::rename_profile_of] *)
Definition rename_profile_of (b : SemanticBatch) (key : SymbolKey) : option RenameProfile :=
  gi ← rename_group_of (b_groups b) key; b_rename_profiles b !! gi.

(** ** Lemmas: the first pass *)

(** The occurrences of the batch with the facts of their documents. *)
Definition batch_occurrences (doc_facts : gmap (list Z) DocFacts) (docs : list NormalizedDocument)
    : list (DocFacts * Occurrence) :=
  concat ((λ doc, (λ o, (facts_of doc_facts doc, o)) <$> nd_occurrences doc) <$> docs).

Lemma foldM_app {S A : Type} (f : S → A → option S) s l k :
  foldM f s (l ++ k) = s ← foldM f s l; foldM f s k.
Proof.
  revert s. induction l as [|x l IH]; intros s; cbn; [done|]. by destruct (f s x); cbn.
Qed.

Lemma count_documents_flat index doc_facts docs v :
  foldM (count_document index doc_facts) v docs =
  foldM (λ v p, count_occurrence index p.1 v p.2) v (batch_occurrences doc_facts docs).
Proof.
  revert v. induction docs as [|doc docs IH]; intros v; cbn; [done|].
  unfold batch_occurrences. cbn. rewrite foldM_app.
  assert (∀ f l v, foldM (count_occurrence index f) v l =
    foldM (λ v p, count_occurrence index p.1 v p.2) v ((λ o, (f, o)) <$> l)) as Hf.
  { intros f l. induction l as [|o l IHl]; intros w; cbn; [done|].
    by destruct (count_occurrence index f w o); cbn. }
  rewrite <- Hf. fold (count_document index doc_facts v doc).
  destruct (count_document index doc_facts v doc); cbn; [apply IH|done].
Qed.

(** An occurrence counted for group [gi]. *)
Definition in_group (index : gmap SymbolKey nat) (gi : nat) (p : DocFacts * Occurrence) : bool :=
  bool_decide (index !! occ_key p.2 = Some gi).

Definition hit (index : gmap SymbolKey nat) (P : DocFacts * Occurrence → bool)
    (l : list (DocFacts * Occurrence)) (gi : nat) : bool :=
  existsb (λ p, in_group index gi p && P p) l.

Definition is_definition (p : DocFacts * Occurrence) : bool := bool_decide (occ_role p.2 = Definition_).

Definition editable_in (index : gmap SymbolKey nat) (l : list (DocFacts * Occurrence)) (gi : nat) : Z :=
  zlen (List.filter (λ p, in_group index gi p && editable p.1) l).

(** The vectors after the occurrences [l]. *)
Definition vectors_of (index : gmap SymbolKey nat) (n : nat) (l : list (DocFacts * Occurrence))
    : ProfileVectors :=
  {| v_has_definition := hit index is_definition l <$> seq 0 n;
     v_has_generated := hit index (λ p, generated p.1) l <$> seq 0 n;
     v_has_readonly := hit index (λ p, readonly p.1) l <$> seq 0 n;
     v_has_dependency := hit index (λ p, is_dependency_source p.1) l <$> seq 0 n;
     v_editable_count := (λ gi, as_u32 (editable_in index l gi)) <$> seq 0 n;
     v_defined_global_keys :=
       list_to_set (occ_key ∘ snd <$>
         List.filter (λ p, is_definition p && negb (key_is_local (occ_key p.2))) l) |}.

Lemma update_if_seq {A : Type} (cond : bool) (f : A → A) (g h : nat → A) n gi :
  (gi < n)%nat → (∀ j, j ≠ gi → h j = g j) → h gi = (if cond then f (g gi) else g gi) →
  update_if cond f (g <$> seq 0 n) gi = Some (h <$> seq 0 n).
Proof.
  intros Hgi Hne Heq. unfold update_if.
  assert ((g <$> seq 0 n) !! gi = Some (g gi)) as Hl.
  { rewrite list_lookup_fmap. rewrite (proj2 (lookup_seq 0 n gi gi)) by lia. done. }
  assert (∀ v, v = (if cond then <[gi := f (g gi)]> (g <$> seq 0 n) else g <$> seq 0 n) → v = h <$> seq 0 n) as H.
  { intros v ->. apply list_eq. intros j. destruct (decide (j < n)%nat) as [Hj|Hj].
    - rewrite list_lookup_fmap. rewrite (proj2 (lookup_seq 0 n j j)) by lia. cbn.
      destruct (decide (j = gi)) as [->|Hjg].
      + rewrite Heq. destruct cond; [|by rewrite Hl]. rewrite list_lookup_insert_eq; [done|].
        by rewrite length_fmap, length_seq.
      + rewrite (Hne j Hjg). destruct cond; [rewrite list_lookup_insert_ne by done|];
          rewrite list_lookup_fmap, (proj2 (lookup_seq 0 n j j)) by lia; done.
    - rewrite !lookup_ge_None_2; [done| |]; destruct cond;
        rewrite ?length_insert, ?length_fmap, ?length_seq; lia. }
  destruct cond; [rewrite Hl; cbn; f_equal; by apply H|f_equal; by apply H].
Qed.

Lemma hit_snoc index P l p gi : hit index P (l ++ [p]) gi = hit index P l gi || (in_group index gi p && P p).
Proof. unfold hit. rewrite existsb_app. cbn. by rewrite orb_false_r. Qed.

Lemma count_occurrence_ok index n l p :
  (∀ k gi, index !! k = Some gi → (gi < n)%nat) →
  count_occurrence index p.1 (vectors_of index n l) p.2 = Some (vectors_of index n (l ++ [p])).
Proof.
  intros Hn. unfold count_occurrence. fold (is_definition p).
  assert ((if is_definition p && negb (key_is_local (occ_key p.2))
           then {[occ_key p.2]} ∪ v_defined_global_keys (vectors_of index n l)
           else v_defined_global_keys (vectors_of index n l)) =
          v_defined_global_keys (vectors_of index n (l ++ [p]))) as ->.
  { cbn. rewrite List.filter_app, fmap_app, list_to_set_app_L. cbn [List.filter].
    destruct (_ && _); cbn; set_solver. }
  destruct (index !! occ_key p.2) as [gi|] eqn:Ei.
  - pose proof (Hn _ _ Ei) as Hgi.
    assert (∀ j, in_group index j p = bool_decide (j = gi)) as Hin.
    { intros j. unfold in_group. rewrite Ei. apply bool_decide_ext. split; [by intros [= ->]|by intros ->]. }
    assert (∀ P, update_if (P p) (λ _, true) (hit index P l <$> seq 0 n) gi =
                 Some (hit index P (l ++ [p]) <$> seq 0 n)) as Hhit.
    { intros P. apply update_if_seq; [done|..].
      - intros j Hj. by rewrite hit_snoc, Hin, bool_decide_eq_false_2, orb_false_r by done.
      - rewrite hit_snoc, Hin, bool_decide_eq_true_2 by done.
        destruct (P p); cbn; [apply orb_true_r|apply orb_false_r]. }
    cbn [vectors_of v_has_definition v_has_generated v_has_readonly v_has_dependency v_editable_count].
    rewrite (Hhit is_definition). cbn [mbind option_bind].
    rewrite (Hhit (λ p, generated p.1)). cbn [mbind option_bind].
    rewrite (Hhit (λ p, readonly p.1)). cbn [mbind option_bind].
    rewrite (Hhit (λ p, is_dependency_source p.1)). cbn [mbind option_bind].
    rewrite (update_if_seq _ _ _ (λ gi, as_u32 (editable_in index (l ++ [p]) gi))); [done|done|..].
    + intros j Hj. unfold editable_in. rewrite List.filter_app. cbn [List.filter].
      by rewrite Hin, bool_decide_eq_false_2, app_nil_r by done.
    + unfold editable_in. rewrite List.filter_app. cbn [List.filter].
      rewrite Hin, bool_decide_eq_true_2 by done. cbn [andb]. destruct (editable p.1); [|by rewrite app_nil_r].
      rewrite zlen_app. unfold as_u32, wrapU. by rewrite Z.add_mod_idemp_l by done.
  - assert (∀ j, in_group index j p = false) as Hin.
    { intros j. unfold in_group. rewrite Ei. by apply bool_decide_eq_false_2. }
    f_equal. unfold vectors_of. cbn. f_equal; apply list_fmap_ext; intros _ j _.
    1-4: by rewrite hit_snoc, Hin, orb_false_r.
    unfold editable_in. rewrite List.filter_app. cbn [List.filter]. by rewrite Hin, app_nil_r.
Qed.

Lemma count_ok index doc_facts docs n :
  (∀ k gi, index !! k = Some gi → (gi < n)%nat) →
  foldM (count_document index doc_facts) (vectors_new n) docs =
  Some (vectors_of index n (batch_occurrences doc_facts docs)).
Proof.
  intros Hn. rewrite count_documents_flat.
  assert (vectors_new n = vectors_of index n []) as ->.
  { unfold vectors_new, vectors_of, hit, editable_in. cbn.
    assert (∀ A (x : A), replicate n x = (λ _, x) <$> seq 0 n) as Hr.
    { intros A x. apply list_eq. intros j. rewrite list_lookup_fmap. destruct (decide (j < n)%nat).
      - rewrite lookup_replicate_2 by done. by rewrite (proj2 (lookup_seq 0 n j j)) by lia.
      - rewrite lookup_ge_None_2 by (rewrite length_replicate; lia).
        by rewrite lookup_ge_None_2 by (rewrite length_seq; lia). }
    by rewrite !Hr. }
  induction (batch_occurrences doc_facts docs) as [|p l IH] using rev_ind; [done|].
  rewrite foldM_app, IH. cbn. by rewrite count_occurrence_ok.
Qed.

(** ** Lemmas: the second pass *)

Lemma map_enumerate_ok {A B : Type} (f : nat → A → option B) i l :
  (∀ j x, l !! j = Some x → is_Some (f (i + j)%nat x)) →
  ∃ l', map_enumerate f i l = Some l' ∧ length l' = length l ∧
    ∀ j x, l !! j = Some x → l' !! j = f (i + j)%nat x.
Proof.
  revert i. induction l as [|x l IH]; intros i Hf; cbn; [by exists []|].
  destruct (Hf O x eq_refl) as [y Hy]. rewrite Nat.add_0_r in Hy. rewrite Hy. cbn.
  destruct (IH (S i)) as (l' & -> & Hlen & Hl').
  { intros j z Hz. rewrite Nat.add_succ_l, <- Nat.add_succ_r. by apply (Hf (S j)). }
  exists (y :: l'). split_and!; [done|cbn; lia|]. intros [|j] z Hz.
  - injection Hz as <-. by rewrite Nat.add_0_r.
  - change (l !! j = Some z) in Hz. change ((y :: l') !! S j) with (l' !! j).
    rewrite (Hl' j z Hz). f_equal. lia.
Qed.

(** Some occurrence of group [gi] satisfies [P] with the facts of its document. *)
Definition some_occurrence (docs : list NormalizedDocument) (doc_facts : gmap (list Z) DocFacts)
    (grp : gset SymbolKey) (P : DocFacts → Occurrence → Prop) : Prop :=
  ∃ doc o, doc ∈ docs ∧ o ∈ nd_occurrences doc ∧ occ_key o ∈ grp ∧ P (facts_of doc_facts doc) o.

Lemma elem_of_batch_occurrences doc_facts docs p :
  p ∈ batch_occurrences doc_facts docs ↔
  ∃ doc o, doc ∈ docs ∧ o ∈ nd_occurrences doc ∧ p = (facts_of doc_facts doc, o).
Proof.
  unfold batch_occurrences. rewrite list_elem_of_In, in_concat. split.
  - intros (l & Hl & Hp). apply list_elem_of_In, list_elem_of_fmap in Hl as (doc & -> & Hd).
    apply list_elem_of_In, list_elem_of_fmap in Hp as (o & -> & Ho). by exists doc, o.
  - intros (doc & o & Hd & Ho & ->). exists ((λ o, (facts_of doc_facts doc, o)) <$> nd_occurrences doc).
    rewrite <- !list_elem_of_In, !list_elem_of_fmap. split; [by exists doc|by exists o].
Qed.

Lemma hit_true index doc_facts docs (grp : gset SymbolKey) gi (P : DocFacts → Occurrence → bool) :
  (∀ k, index !! k = Some gi ↔ k ∈ grp) →
  hit index (λ p, P p.1 p.2) (batch_occurrences doc_facts docs) gi = true ↔
  some_occurrence docs doc_facts grp (λ f o, P f o = true).
Proof.
  intros Hgrp. unfold hit. rewrite existsb_exists. setoid_rewrite <- list_elem_of_In.
  setoid_rewrite elem_of_batch_occurrences. setoid_rewrite andb_true_iff. unfold in_group, some_occurrence.
  setoid_rewrite bool_decide_eq_true. split.
  - intros (p & (doc & o & Hd & Ho & ->) & Hi & HP). cbn in *. exists doc, o. split_and!; try done. by apply Hgrp.
  - intros (doc & o & Hd & Ho & Hk & HP). exists (facts_of doc_facts doc, o). split_and!; eauto. by apply Hgrp.
Qed.

Lemma forallb_elements f (g : gset SymbolKey) : forallb f (elements g) = true ↔ ∀ k, k ∈ g → f k = true.
Proof.
  rewrite forallb_forall. setoid_rewrite <- list_elem_of_In. by setoid_rewrite elem_of_elements.
Qed.

(** What the groups of a batch are to the builder of profiles. *)
Definition groups_indexed (g : AliasGroups) : Prop :=
  (∀ k gi, rename_group_index g !! k = Some gi ↔ ∃ grp, rename_groups g !! gi = Some grp ∧ k ∈ grp) ∧
  length (rename_group_semantic_mask g) = length (rename_groups g) ∧
  ∀ gi grp, rename_groups g !! gi = Some grp → ∃ k, k ∈ grp.

Lemma build_groups_indexed `{CharTables} docs g : build docs = Some g → groups_indexed g.
Proof.
  destruct (build_with_ok (T := UnionFind) docs) as (uf0 & uf & order & buckets & Hwf0 & _ & Hst & E).
  unfold build. rewrite E. intros [= <-]. unfold groups_indexed. cbn.
  assert (∀ gi grp, group_sets order buckets !! gi = Some grp →
    ∀ k, k ∈ grp ↔ index_groups (group_sets order buckets) !! k = Some gi) as Hg.
  { intros gi grp Hg k. rewrite (group_index_spec docs uf0 Hwf0 order buckets uf Hst).
    by rewrite (elem_of_group docs uf0 order buckets uf Hst gi grp k Hg). }
  split_and!.
  - intros k gi. split.
    + intros Hk. pose proof Hk as (i & r & Hr & _)%(group_index_spec docs uf0 Hwf0 order buckets uf Hst).
      assert (∃ grp, group_sets order buckets !! gi = Some grp) as [grp Hgrp].
      { unfold group_sets. rewrite list_lookup_fmap, Hr. by eexists. }
      exists grp. split; [done|]. by apply (Hg gi grp Hgrp).
    + intros (grp & Hgrp & Hk). by apply (Hg gi grp Hgrp).
  - by rewrite length_fmap.
  - intros gi grp Hgrp. pose proof Hst as (_ & _ & _ & Ho & Hb & _ & Hne).
    assert (∃ r, order !! gi = Some r) as [r Hr].
    { unfold group_sets in Hgrp. rewrite list_lookup_fmap in Hgrp. destruct (order !! gi); [by eexists|done]. }
    assert (is_Some (buckets !! r)) as Hs by (apply Ho; by eapply list_elem_of_lookup_2).
    destruct (Hne r Hs) as (i & Hi & Hri). destruct (lookup_lt_is_Some_2 _ _ Hi) as [k Hk].
    exists k. apply (elem_of_group docs uf0 order buckets uf Hst gi grp k Hgrp). by exists i, r.
Qed.

(** The group has no definition of its own, but a member's owner is defined in the batch. *)
Definition owner_defined (docs : list NormalizedDocument) (grp : gset SymbolKey) : Prop :=
  ∃ k owner d, k ∈ grp ∧ key_is_local k = false ∧ split_last (semantic_symbol k) = Some (owner, d) ∧
    key_global owner ∈ defined_keys docs.

Lemma elem_of_defined_keys docs k :
  k ∈ defined_keys docs ↔ ∃ doc o, doc ∈ docs ∧ o ∈ nd_occurrences doc ∧ occ_role o = Definition_ ∧ occ_key o = k.
Proof.
  unfold defined_keys. rewrite elem_of_list_to_set, list_elem_of_fmap. split.
  - intros (o & -> & Ho). apply list_elem_of_filter in Ho as [Hr Ho].
    apply list_elem_of_In, in_concat in Ho as (l & Hl & Ho).
    apply list_elem_of_In, list_elem_of_fmap in Hl as (doc & -> & Hd).
    exists doc, o. split_and!; try done. by apply list_elem_of_In.
  - intros (doc & o & Hd & Ho & Hr & <-). exists o. split; [done|]. apply list_elem_of_filter. split; [done|].
    apply list_elem_of_In, in_concat. exists (nd_occurrences doc). split; [|by apply list_elem_of_In].
    apply list_elem_of_In, list_elem_of_fmap. by exists doc.
Qed.

Lemma owner_defined_spec index n doc_facts docs grp :
  owner_defined_in_workspace (v_defined_global_keys (vectors_of index n (batch_occurrences doc_facts docs))) grp = true ↔
  owner_defined docs grp.
Proof.
  unfold owner_defined_in_workspace, owner_defined. rewrite any_key_true.
  assert (∀ owner, key_global owner ∈ v_defined_global_keys (vectors_of index n (batch_occurrences doc_facts docs)) ↔
                   key_global owner ∈ defined_keys docs) as Hd.
  { intros owner. cbn. rewrite elem_of_list_to_set, list_elem_of_fmap, elem_of_defined_keys. split.
    - intros (p & Hp & [Hin Hb%andb_true_iff]%elem_of_filter_b).
      apply elem_of_batch_occurrences in Hin as (doc & o & ? & ? & ->). exists doc, o. cbn in *.
      destruct Hb as [Hb _]. by apply bool_decide_eq_true in Hb.
    - intros (doc & o & Hdoc & Ho & Hr & Hk). exists (facts_of doc_facts doc, o). cbn. split; [done|].
      apply elem_of_filter_b. rewrite elem_of_batch_occurrences. split; [by exists doc, o|].
      cbn. rewrite Hk. unfold is_definition. cbn. by rewrite bool_decide_eq_true_2. }
  split.
  - intros (k & Hk & Hb%andb_true_iff). destruct Hb as [Hl%negb_true_iff Hb].
    destruct (split_last (semantic_symbol k)) as [[owner d]|] eqn:E; [|done].
    exists k, owner, d. split_and!; try done. by apply Hd, bool_decide_eq_true in Hb || apply Hd; apply bool_decide_eq_true in Hb.
  - intros (k & owner & d & Hk & Hl & E & Ho). exists k. split; [done|]. rewrite Hl, E. cbn.
    apply bool_decide_eq_true. by apply Hd.
Qed.

(** The profile of group [gi] in terms of the occurrences of the batch. *)
Lemma group_profile_ok `{CharTables} docs g doc_facts gi grp m :
  groups_indexed g → rename_groups g !! gi = Some grp → rename_group_semantic_mask g !! gi = Some m →
  let n := length (rename_groups g) in
  let occs := batch_occurrences doc_facts docs in
  let v := vectors_of (rename_group_index g) n occs in
  let h P := hit (rename_group_index g) P occs gi in
  let is_local := forallb key_is_local (elements grp) in
  let synthetic := negb is_local && negb (h is_definition) && owner_defined_in_workspace (v_defined_global_keys v) grp in
  let external := negb (h is_definition) && negb synthetic in
  ∃ p, group_profile v (rename_group_semantic_mask g) gi grp = Some p ∧
    is_local_group p = is_local ∧ is_external p = external ∧
    has_generated_occurrences p = h (λ p, generated p.1) ∧
    has_readonly_occurrences p = h (λ p, readonly p.1) ∧
    editable_occurrence_count p = as_u32 (editable_in (rename_group_index g) occs gi) ∧
    ∀ j, 0 ≤ j → Z.testbit (unsafe_reason_mask p) j = Z.testbit m j || external && (0 =? j) ||
      synthetic && (4 =? j) || h (λ p, generated p.1) && (1 =? j) || h (λ p, readonly p.1) && (2 =? j) ||
      h (λ p, is_dependency_source p.1) && (8 =? j).
Proof.
  intros (Hidx & Hlen & Hne) Hg Hm n occs v h is_local synthetic external.
  assert (∀ A (f : nat → A), (f <$> seq 0 n) !! gi = Some (f gi)) as Hseq.
  { intros A f. rewrite list_lookup_fmap. rewrite (proj2 (lookup_seq 0 n gi gi)); [done|].
    apply lookup_lt_Some in Hg. subst n. lia. }
  unfold group_profile. subst v. cbn [vectors_of v_has_definition v_has_generated v_has_readonly
    v_has_dependency v_editable_count].
  repeat (rewrite Hseq; cbn [mbind option_bind]). rewrite Hm. cbn [mbind option_bind].
  assert (negb (bool_decide (grp = ∅)) = true) as ->.
  { destruct (Hne gi grp Hg) as [k Hk]. apply negb_true_iff, bool_decide_eq_false. set_solver. }
  cbn [andb]. fold occs h is_local synthetic external. eexists. split; [reflexivity|]. cbn.
  split_and!; try done. intros j Hj.
  assert (∀ b x i, 0 ≤ i → Z.testbit (if b : bool then Z.lor x (Z.shiftl 1 i) else x) j =
    Z.testbit x j || b && (i =? j)) as Hbit.
  { intros b x i Hi. destruct b; [|by rewrite orb_false_r].
    by rewrite Z.lor_spec, Z.shiftl_1_l, Z.pow2_bits_eqb by done. }
  unfold EXTERNAL, SYNTHETIC_ONLY, GENERATED_OCCURRENCE, READONLY_OCCURRENCE, DEPENDENCY_SOURCE.
  by rewrite !Hbit by done.
Qed.

(** The profiles of a batch exist, and each is its group's. *)
Lemma build_profiles_ok `{CharTables} docs g doc_facts :
  groups_indexed g →
  ∃ ps, build_profiles docs g doc_facts = Some ps ∧ length ps = length (rename_groups g) ∧
    ∀ gi grp, rename_groups g !! gi = Some grp →
      ps !! gi = group_profile (vectors_of (rename_group_index g) (length (rename_groups g))
        (batch_occurrences doc_facts docs)) (rename_group_semantic_mask g) gi grp.
Proof.
  intros Hg. pose proof Hg as (Hidx & Hlen & Hne). unfold build_profiles.
  rewrite count_ok.
  2:{ intros k gi (grp & Hgrp & _)%Hidx. by eapply lookup_lt_Some. }
  cbn [mbind option_bind]. apply map_enumerate_ok. intros gi grp Hgrp. cbn.
  destruct (lookup_lt_is_Some_2 (rename_group_semantic_mask g) gi) as [m Hm].
  { rewrite Hlen. by eapply lookup_lt_Some. }
  destruct (group_profile_ok docs g doc_facts gi grp m Hg Hgrp Hm) as (p & -> & _). by eexists.
Qed.

Lemma group_index_iff g gi grp :
  groups_indexed g → rename_groups g !! gi = Some grp →
  ∀ k, rename_group_index g !! k = Some gi ↔ k ∈ grp.
Proof.
  intros (Hidx & _) Hg k. rewrite Hidx. split; [|by exists grp]. intros (grp' & Hg' & Hk). congruence.
Qed.

Lemma not_true_iff (b : bool) (P : Prop) : (b = true ↔ P) → (negb b = true ↔ ¬ P).
Proof. intros H. rewrite <- H. destruct b; naive_solver. Qed.

Lemma and_true_iff (a b : bool) (P Q : Prop) :
  (a = true ↔ P) → (b = true ↔ Q) → (a && b = true ↔ P ∧ Q).
Proof. intros H1 H2. by rewrite andb_true_iff, H1, H2. Qed.

Section decided.
Context `{CharTables} (docs : list NormalizedDocument) (g : AliasGroups) (doc_facts : gmap (list Z) DocFacts).
Context (gi : nat) (grp : gset SymbolKey) (Hg : groups_indexed g) (Hgrp : rename_groups g !! gi = Some grp).
Let occs := batch_occurrences doc_facts docs.
Let h P := hit (rename_group_index g) P occs gi.

Lemma defined_decided :
  h is_definition = true ↔ some_occurrence docs doc_facts grp (λ _ o, occ_role o = Definition_).
Proof.
  unfold h, occs.
  etransitivity; [exact (hit_true _ _ _ grp gi (λ _ o, bool_decide (occ_role o = Definition_))
    (group_index_iff g gi grp Hg Hgrp))|].
  unfold some_occurrence. by setoid_rewrite bool_decide_eq_true.
Qed.

Lemma fact_decided (P : DocFacts → bool) :
  h (λ p, P p.1) = true ↔ some_occurrence docs doc_facts grp (λ f _, P f = true).
Proof.
  unfold h, occs. apply (hit_true _ _ _ grp gi (λ f _, P f)). by apply group_index_iff.
Qed.
End decided.

(** ** Properties *)

(** C28. Every group's rename profile is exact. With the alias groups of the batch,
    profiles are computed for all groups without panic; group by group the profile says
    whether the members are all local, whether an occurrence lies in a generated or
    readonly document, how many occurrences are editable (as a [u32]), and it is external
    iff no member is defined in the batch and it is not synthetic-only, that is, a
    definition-less global group one of whose owners is defined in the batch. *)
Theorem rename_profiles_exact `{CharTables} docs g doc_facts :
  build docs = Some g →
  ∃ ps, build_profiles docs g doc_facts = Some ps ∧ length ps = length (rename_groups g) ∧
  ∀ gi grp p, rename_groups g !! gi = Some grp → ps !! gi = Some p →
    let defined := some_occurrence docs doc_facts grp (λ _ o, occ_role o = Definition_) in
    let all_local := ∀ k, k ∈ grp → key_is_local k = true in
    let synthetic := ¬ all_local ∧ ¬ defined ∧ owner_defined docs grp in
    (is_local_group p = true ↔ all_local) ∧
    (is_external p = true ↔ ¬ defined ∧ ¬ synthetic) ∧
    (has (unsafe_reason_mask p) SYNTHETIC_ONLY = true ↔ synthetic) ∧
    (has_generated_occurrences p = true ↔ some_occurrence docs doc_facts grp (λ f _, generated f = true)) ∧
    (has_readonly_occurrences p = true ↔ some_occurrence docs doc_facts grp (λ f _, readonly f = true)) ∧
    editable_occurrence_count p = as_u32 (zlen (List.filter
      (λ q, bool_decide (occ_key q.2 ∈ grp) && editable q.1) (batch_occurrences doc_facts docs))).
Proof.
  intros Hb. pose proof (build_groups_indexed docs g Hb) as Hg.
  destruct (build_profiles_ok docs g doc_facts Hg) as (ps & E & Hlen & Hps).
  exists ps. split_and!; [done|done|]. intros gi grp p Hgrp Hp. cbn zeta.
  rewrite (Hps gi grp Hgrp) in Hp. pose proof Hg as (_ & Hml & _).
  destruct (lookup_lt_is_Some_2 (rename_group_semantic_mask g) gi) as [m Hm].
  { rewrite Hml. by eapply lookup_lt_Some. }
  destruct (group_profile_ok docs g doc_facts gi grp m Hg Hgrp Hm)
    as (p' & Hp' & Hl & He & Hgen & Hro & Hed & Hbits).
  rewrite Hp in Hp'. injection Hp' as <-.
  pose proof (defined_decided docs g doc_facts gi grp Hg Hgrp) as Hdef.
  pose proof (forallb_elements key_is_local grp) as Hloc.
  pose proof (owner_defined_spec (rename_group_index g) (length (rename_groups g)) doc_facts docs grp) as Hown.
  pose proof (and_true_iff _ _ _ _ (and_true_iff _ _ _ _ (not_true_iff _ _ Hloc) (not_true_iff _ _ Hdef)) Hown) as Hsyn.
  rewrite Logic.and_assoc in Hsyn. split_and!.
  - by rewrite Hl.
  - rewrite He. apply and_true_iff; by apply not_true_iff.
  - rewrite <- Hsyn. unfold SYNTHETIC_ONLY. rewrite has_testbit by done. rewrite Hbits by done.
    destruct (build_with_ok (T := UnionFind) docs) as (uf0 & uf & order & buckets & _ & _ & _ & Eb).
    unfold build in Hb. rewrite Eb in Hb. injection Hb as <-. cbn in Hm.
    rewrite list_lookup_fmap in Hm. cbn in Hgrp. rewrite Hgrp in Hm. injection Hm as <-.
    rewrite <- (has_testbit _ 4), semantic_mask_bits by done.
    cbn [Z.eqb Pos.eqb]. by rewrite !andb_false_r, !andb_true_r, !orb_false_r.
  - rewrite Hgen. by apply (fact_decided docs g doc_facts gi grp Hg Hgrp generated).
  - rewrite Hro. by apply (fact_decided docs g doc_facts gi grp Hg Hgrp readonly).
  - rewrite Hed. f_equal. unfold editable_in. f_equal. apply filter_ext. intros q. f_equal.
    unfold in_group. apply bool_decide_ext. by apply group_index_iff.
Qed.

Definition example_facts : gmap (list Z) DocFacts :=
  {[ lit "a.scala" := {| generated := true; readonly := false; is_dependency_source := false |} ]}.

Lemma rename_profiles_exact_witness :
  ∃ g ps p, @build ascii_tables [example_doc] = Some g ∧
    @build_profiles ascii_tables [example_doc] g example_facts = Some ps ∧ ps !! 0%nat = Some p ∧
    editable_occurrence_count p = 0.
Proof.
  destruct (@build ascii_tables [example_doc]) as [g|] eqn:E.
  2:{ exfalso. assert (bool_decide (is_Some (@build ascii_tables [example_doc])) = true) as Hs by (vm_compute; reflexivity).
      rewrite E in Hs. discriminate Hs. }
  destruct (@rename_profiles_exact ascii_tables [example_doc] g example_facts E) as (ps & Eps & Hlen & Hps).
  assert ((λ g, bool_decide (is_Some (rename_groups g !! 0%nat))) <$> @build ascii_tables [example_doc] = Some true)
    as Hc by (vm_compute; reflexivity).
  rewrite E in Hc. injection Hc as Hg. apply bool_decide_eq_true in Hg as [grp Hg].
  destruct (lookup_lt_is_Some_2 ps 0%nat) as [p Hp].
  { rewrite Hlen. exact (lookup_lt_Some _ _ _ Hg). }
  exists g, ps, p. split; [reflexivity|]. split; [exact Eps|]. split; [exact Hp|].
  destruct (Hps 0%nat grp p Hg Hp) as (_ & _ & _ & _ & _ & ->).
  assert (∀ X : DocFacts * Occurrence → bool, List.filter (λ q, X q && editable q.1)
    (batch_occurrences example_facts [example_doc]) = []) as ->; [|reflexivity].
  intros X. replace (batch_occurrences example_facts [example_doc]) with
    ((λ o, ({| generated := true; readonly := false; is_dependency_source := false |}, o)) <$> nd_occurrences example_doc)
    by (vm_compute; reflexivity).
  cbn. by rewrite !andb_false_r.
Defined.

(** C24. The rename gate is sound and complete: a group is safe to rename iff none of its
    reasons holds, and then its definition is in the batch and every one of its
    occurrences lies in a document an edit may touch. *)
Theorem safe_groups_are_editable `{CharTables} docs g doc_facts :
  build docs = Some g →
  ∃ ps, build_profiles docs g doc_facts = Some ps ∧
  ∀ gi grp p m, rename_groups g !! gi = Some grp → ps !! gi = Some p →
    rename_group_semantic_mask g !! gi = Some m →
    let defined := some_occurrence docs doc_facts grp (λ _ o, occ_role o = Definition_) in
    (is_safe p = true ↔ m = 0 ∧ defined ∧
      ∀ doc o, doc ∈ docs → o ∈ nd_occurrences doc → occ_key o ∈ grp → editable (facts_of doc_facts doc) = true).
Proof.
  intros Hb. pose proof (build_groups_indexed docs g Hb) as Hg.
  destruct (build_profiles_ok docs g doc_facts Hg) as (ps & E & Hlen & Hps).
  exists ps. split; [done|]. intros gi grp p m Hgrp Hp Hm. cbn zeta.
  rewrite (Hps gi grp Hgrp) in Hp.
  destruct (group_profile_ok docs g doc_facts gi grp m Hg Hgrp Hm) as (p' & Hp' & _ & _ & _ & _ & _ & Hbits).
  rewrite Hp in Hp'. injection Hp' as <-.
  pose proof (defined_decided docs g doc_facts gi grp Hg Hgrp) as Hdef.
  pose proof (fact_decided docs g doc_facts gi grp Hg Hgrp) as Hfact.
  set (h := λ P, hit (rename_group_index g) P (batch_occurrences doc_facts docs) gi) in *.
  set (d := h is_definition) in *. cbn zeta in Hbits.
  set (syn := negb _ && negb _ && _) in Hbits.
  unfold is_safe. rewrite Z.eqb_eq. rewrite <- Hdef.
  transitivity (m = 0 ∧ d = true ∧ h (λ p, generated p.1) = false ∧ h (λ p, readonly p.1) = false ∧
                h (λ p, is_dependency_source p.1) = false).
  - fold (h is_definition) d in Hbits. fold (h (λ p, generated p.1)) (h (λ p, readonly p.1))
      (h (λ p, is_dependency_source p.1)) in Hbits. split.
    + intros H0. rewrite H0 in Hbits.
      assert (∀ j, 0 ≤ j → Z.testbit m j = false) as Hm0.
      { intros j Hj. specialize (Hbits j Hj). rewrite Z.bits_0 in Hbits. symmetry in Hbits.
        by repeat apply orb_false_iff in Hbits as [Hbits _]. }
      pose proof (Hbits 0 ltac:(done)) as B0. pose proof (Hbits 1 ltac:(done)) as B1.
      pose proof (Hbits 2 ltac:(done)) as B2. pose proof (Hbits 4 ltac:(done)) as B4.
      pose proof (Hbits 8 ltac:(done)) as B8. rewrite Z.bits_0, Hm0 in B0, B1, B2, B4, B8 by done.
      cbn [Z.eqb Pos.eqb] in *. rewrite ?andb_false_r, ?andb_true_r, ?orb_false_r, ?orb_false_l in *.
      split_and!; try done.
      * apply Z.bits_inj'. intros j Hj. by rewrite Z.bits_0, Hm0.
      * destruct d; [done|]. rewrite <- B4 in B0. done.
    + intros (-> & Hd & H1 & H2 & H3). apply Z.bits_inj'. intros j Hj. rewrite Hbits, H1, H2, H3 by done.
      subst syn. change (hit (rename_group_index g) is_definition _ gi) with d.
      rewrite Hd, !Z.bits_0. cbn [negb andb orb]. rewrite ?andb_false_r. cbn [andb orb]. done.
  - assert (∀ b : bool, b = false ↔ ¬ b = true) as Hneg by (intros []; naive_solver).
    rewrite !Hneg, (Hfact generated), (Hfact readonly), (Hfact is_dependency_source).
    unfold editable, some_occurrence. split.
    + intros (? & ? & H1 & H2 & H3). split_and!; [done|done|]. intros doc o Hd Ho Hk.
      rewrite !andb_true_iff, !negb_true_iff. split_and!; apply Hneg; intros Hf;
        [apply H1|apply H2|apply H3]; by exists doc, o.
    + intros (? & ? & He). split_and!; [done|done|..]; intros (doc & o & Hd & Ho & Hk & Hf);
        specialize (He doc o Hd Ho Hk); rewrite Hf in He; by rewrite ?andb_false_r in He.
Qed.

Lemma safe_groups_are_editable_witness :
  ∃ g ps p, @build ascii_tables [example_doc] = Some g ∧
    @build_profiles ascii_tables [example_doc] g ∅ = Some ps ∧ ps !! 1%nat = Some p ∧ is_safe p = true.
Proof.
  destruct (@build ascii_tables [example_doc]) as [g|] eqn:E.
  2:{ exfalso. assert (bool_decide (is_Some (@build ascii_tables [example_doc])) = true) as Hs by (vm_compute; reflexivity).
      rewrite E in Hs. discriminate Hs. }
  destruct (@safe_groups_are_editable ascii_tables [example_doc] g ∅ E) as (ps & Eps & Hps).
  destruct (@build_profiles_ok ascii_tables [example_doc] g ∅ (@build_groups_indexed ascii_tables _ _ E)) as (ps' & Eps' & Hlen & _).
  rewrite Eps in Eps'. injection Eps' as <-.
  assert ((λ g, bool_decide (rename_groups g !! 1%nat = Some {[key_global (lit "D#")]}) &&
     bool_decide (rename_group_semantic_mask g !! 1%nat = Some 0)) <$>
     @build ascii_tables [example_doc] = Some true) as Hc by (vm_compute; reflexivity).
  rewrite E in Hc. injection Hc as [Hg Hm]%andb_true_iff.
  apply bool_decide_eq_true in Hm, Hg.
  destruct (lookup_lt_is_Some_2 ps 1%nat) as [p Hp].
  { rewrite Hlen. exact (lookup_lt_Some _ _ _ Hg). }
  exists g, ps, p. split; [reflexivity|]. split; [exact Eps|]. split; [exact Hp|].
  apply (Hps 1%nat _ p 0 Hg Hp Hm). split; [reflexivity|]. split.
  - exists example_doc, (Occurrence_new (key_global (lit "D#")) (mkSpan 0 0 0 1) Definition_).
    split; [apply list_elem_of_here|]. split; [apply list_elem_of_further, list_elem_of_further, list_elem_of_here|].
    split; [apply elem_of_singleton_2; reflexivity|reflexivity].
  - intros doc o Hd _ _. apply list_elem_of_singleton in Hd as ->. reflexivity.
Defined.
