(* ===== verification/Md5.v ===== *)
(** The MD5 freshness check: [ls-semanticdb/src/md5.rs]. *)

From S2P Require Import Prelude RustStr SdbModel IndexModel.

Inductive FreshnessCheck :=
| Fresh
| MissingMd5
| Stale (document_md5 source_md5 : list Z).

Definition is_fresh (f : FreshnessCheck) : bool := match f with Fresh => true | _ => false end.

(** The constants of [md5_digest]. *)
Definition S_TABLE : list Z :=
  [7; 12; 17; 22; 7; 12; 17; 22; 7; 12; 17; 22; 7; 12; 17; 22; 5; 9; 14; 20; 5; 9; 14; 20; 5;
   9; 14; 20; 5; 9; 14; 20; 4; 11; 16; 23; 4; 11; 16; 23; 4; 11; 16; 23; 4; 11; 16; 23; 6; 10;
   15; 21; 6; 10; 15; 21; 6; 10; 15; 21; 6; 10; 15; 21].
Definition K_TABLE : list Z :=
  [0xd76aa478; 0xe8c7b756; 0x242070db; 0xc1bdceee; 0xf57c0faf; 0x4787c62a; 0xa8304613;
   0xfd469501; 0x698098d8; 0x8b44f7af; 0xffff5bb1; 0x895cd7be; 0x6b901122; 0xfd987193;
   0xa679438e; 0x49b40821; 0xf61e2562; 0xc040b340; 0x265e5a51; 0xe9b6c7aa; 0xd62f105d;
   0x02441453; 0xd8a1e681; 0xe7d3fbc8; 0x21e1cde6; 0xc33707d6; 0xf4d50d87; 0x455a14ed;
   0xa9e3e905; 0xfcefa3f8; 0x676f02d9; 0x8d2a4c8a; 0xfffa3942; 0x8771f681; 0x6d9d6122;
   0xfde5380c; 0xa4beea44; 0x4bdecfa9; 0xf6bb4b60; 0xbebfbc70; 0x289b7ec6; 0xeaa127fa;
   0xd4ef3085; 0x04881d05; 0xd9d4d039; 0xe6db99e5; 0x1fa27cf8; 0xc4ac5665; 0xf4292244;
   0x432aff97; 0xab9423a7; 0xfc93a039; 0x655b59c3; 0x8f0ccc92; 0xffeff47d; 0x85845dd1;
   0x6fa87e4f; 0xfe2ce6e0; 0xa3014314; 0x4e0811a1; 0xf7537e82; 0xbd3af235; 0x2ad7d2bb;
   0xeb86d391].

Definition wrapping_add (a b : Z) : Z := as_u32 (a + b).
Definition rotate_left (x n : Z) : Z :=
  Z.lor (as_u32 (Z.shiftl x n)) (Z.shiftr x (32 - n)).
Definition not_u32 (x : Z) : Z := Z.lxor x u32_max.

Definition State : Type := Z * Z * Z * Z.

(** The body of the 64 rounds, over the message words [m]; [None] is an index out of
    bounds. *)
Definition round (m : list Z) (st : State) (i : Z) : option State :=
  let '(a, b, c, d) := st in
  let '(f, g) :=
    if i <? 16 then (Z.lor (Z.land b c) (Z.land (not_u32 b) d), i)
    else if i <? 32 then (Z.lor (Z.land d b) (Z.land (not_u32 d) c), (5 * i + 1) mod 16)
    else if i <? 48 then (Z.lxor (Z.lxor b c) d, (3 * i + 5) mod 16)
    else (Z.lxor c (Z.lor b (not_u32 d)), (7 * i) mod 16) in
  k ← zget K_TABLE i;
  w ← zget m g;
  s ← zget S_TABLE i;
  let f := wrapping_add (wrapping_add (wrapping_add f a) k) w in
  let a := d in
  let d := c in
  let c := b in
  let b := wrapping_add b (rotate_left f s) in
  Some (a, b, c, d).

Fixpoint rounds (m : list Z) (st : State) (is_ : list Z) : option State :=
  match is_ with
  | [] => Some st
  | i :: is_ => st ← round m st i; rounds m st is_
  end.

(** One 64-byte chunk. *)
Definition digest_chunk (st : State) (chunk : bytes) : option State :=
  let m := le_val <$> chunks 4 chunk in
  let '(a0, b0, c0, d0) := st in
  '(a, b, c, d) ← rounds m st (seqZ 0 64);
  Some (wrapping_add a0 a, wrapping_add b0 b, wrapping_add c0 c, wrapping_add d0 d).

Fixpoint digest_chunks (st : State) (cs : list bytes) : option State :=
  match cs with
  | [] => Some st
  | c :: cs => st ← digest_chunk st c; digest_chunks st cs
  end.

(** 0x80, zeros up to 56 modulo 64, and the bit length. *)
Definition padding_zeros (len : Z) : Z := (55 - len) mod 64.
Definition pad (msg : bytes) : bytes :=
  let bit_len := as_u64 (zlen msg * 8) in
  msg ++ [x80] ++ replicate (Z.to_nat (padding_zeros (zlen msg))) x00 ++ le_bytes 8 bit_len.

Definition md5_digest (msg : bytes) : option bytes :=
  '(a0, b0, c0, d0) ← digest_chunks (0x67452301, 0xefcdab89, 0x98badcfe, 0x10325476) (chunks 64 (pad msg));
  Some (le_bytes 4 a0 ++ le_bytes 4 b0 ++ le_bytes 4 c0 ++ le_bytes 4 d0).

Definition HEX_DIGITS : list Z := lit "0123456789ABCDEF".

Definition hex_byte (b : byte) : option (list Z) :=
  h ← zget HEX_DIGITS (Z.shiftr (byte_val b) 4);
  l ← zget HEX_DIGITS (Z.land (byte_val b) 15);
  Some [h; l].

Fixpoint hex_string (bs : bytes) : option (list Z) :=
  match bs with
  | [] => Some []
  | b :: bs => h ← hex_byte b; rest ← hex_string bs; Some (h ++ rest)
  end.

Definition compute_hex (text : list Z) : option (list Z) :=
  digest ← md5_digest (as_bytes text); hex_string digest.

Definition validate (source_text document_md5 : list Z) : option FreshnessCheck :=
  match document_md5 with
  | [] => Some MissingMd5
  | _ =>
      actual ← compute_hex source_text;
      if eq_ignore_ascii_case actual document_md5 then Some Fresh
      else Some (Stale document_md5 actual)
  end.

Definition validate_doc (source_text : list Z) (doc : SdbDocument) : option FreshnessCheck :=
  validate source_text (sd_md5 doc).
Definition validate_normalized (source_text : list Z) (doc : NormalizedDocument) : option FreshnessCheck :=
  validate source_text (nd_md5 doc).

(** ** Lemmas *)

Lemma padding_zeros_spec len :
  0 ≤ len → 0 ≤ padding_zeros len < 64 ∧ (len + 1 + padding_zeros len) mod 64 = 56.
Proof.
  intros Hl. unfold padding_zeros. split; [by apply Z.mod_pos_bound|].
  rewrite Z.add_mod_idemp_r by done. by replace (len + 1 + (55 - len)) with 56 by lia.
Qed.

(** [push(0)] while the length is not 56 modulo 64 stops after [padding_zeros] steps, and
    not before. *)
Lemma padding_zeros_least len n :
  0 ≤ len → 0 ≤ n < padding_zeros len → (len + 1 + n) mod 64 ≠ 56.
Proof.
  intros Hl Hn. destruct (padding_zeros_spec len Hl) as [Hb Hp]. intros H.
  pose proof (Z.div_mod (len + 1 + n) 64). pose proof (Z.div_mod (len + 1 + padding_zeros len) 64). lia.
Qed.

Lemma zlen_pad msg : zlen (pad msg) = zlen msg + 9 + padding_zeros (zlen msg).
Proof.
  unfold pad. rewrite !zlen_app, zlen_cons, zlen_nil, zlen_le_bytes.
  pose proof (padding_zeros_spec (zlen msg) (zlen_nonneg msg)). unfold zlen at 2. rewrite length_replicate. lia.
Qed.

Lemma zlen_pad_64 msg : zlen (pad msg) mod 64 = 0.
Proof.
  rewrite zlen_pad. destruct (padding_zeros_spec (zlen msg) (zlen_nonneg msg)) as [_ H].
  replace (zlen msg + 9 + padding_zeros (zlen msg)) with ((zlen msg + 1 + padding_zeros (zlen msg)) + 8) by lia.
  rewrite <- Z.add_mod_idemp_l, H by done. done.
Qed.

(** Chunks of a list whose length is a multiple are all full. *)
Lemma chunks_aux_full {A : Type} fuel n (l : list A) k c :
  (0 < n)%nat → length l = (k * n)%nat → (length l ≤ fuel)%nat → c ∈ chunks_aux fuel n l → length c = n.
Proof.
  intros Hn. revert l k. induction fuel as [|fuel IH]; intros l k Hl Hf Hc; cbn in Hc; [by apply not_elem_of_nil in Hc|].
  destruct l as [|x l]; [by apply not_elem_of_nil in Hc|].
  destruct k as [|k]; [done|]. apply elem_of_cons in Hc as [->|Hc].
  - rewrite length_take. cbn [length] in *. lia.
  - eapply (IH _ k); [|..|exact Hc]; rewrite length_drop; cbn [length] in *; lia.
Qed.

Lemma chunks_full {A : Type} n (l : list A) k c :
  (0 < n)%nat → length l = (k * n)%nat → c ∈ chunks n l → length c = n.
Proof. intros. by eapply chunks_aux_full. Qed.

Lemma length_chunks_aux {A : Type} fuel n (l : list A) k :
  (0 < n)%nat → length l = (k * n)%nat → (length l ≤ fuel)%nat → length (chunks_aux fuel n l) = k.
Proof.
  intros Hn. revert l k. induction fuel as [|fuel IH]; intros l k Hl Hf; cbn.
  - destruct k; [done|]. lia.
  - destruct l as [|x l]; [destruct k; [done|]; cbn in Hl; lia|].
    destruct k as [|k]; [done|]. cbn [length]. f_equal. apply IH; rewrite length_drop; cbn [length] in *; lia.
Qed.

Lemma length_K : zlen K_TABLE = 64. Proof. reflexivity. Qed.
Lemma length_S : zlen S_TABLE = 64. Proof. reflexivity. Qed.

Lemma round_total m st i : zlen m = 16 → 0 ≤ i < 64 → is_Some (round m st i).
Proof.
  intros Hm Hi. destruct st as [[[a b] c] d]. unfold round.
  assert (∃ f g, (if i <? 16 then (Z.lor (Z.land b c) (Z.land (not_u32 b) d), i)
    else if i <? 32 then (Z.lor (Z.land d b) (Z.land (not_u32 d) c), (5 * i + 1) mod 16)
    else if i <? 48 then (Z.lxor (Z.lxor b c) d, (3 * i + 5) mod 16)
    else (Z.lxor c (Z.lor b (not_u32 d)), (7 * i) mod 16)) = (f, g) ∧ 0 ≤ g < 16) as (f & g & -> & Hg).
  { destruct (Z.ltb_spec i 16); [eexists _, _; split; [reflexivity|lia]|]. repeat case_match;
      (eexists _, _; split; [reflexivity|by apply Z.mod_pos_bound]). }
  destruct (zget_is_Some K_TABLE i) as [k ->]; [by rewrite length_K|]. cbn.
  destruct (zget_is_Some m g) as [w ->]; [by rewrite Hm|]. cbn.
  destruct (zget_is_Some S_TABLE i) as [s ->]; [by rewrite length_S|]. by eexists.
Qed.

Lemma rounds_total m st l : zlen m = 16 → Forall (λ i, 0 ≤ i < 64) l → is_Some (rounds m st l).
Proof.
  intros Hm Hl. revert st. induction Hl as [|i l Hi Hl IH]; intros st; cbn; [by eexists|].
  destruct (round_total m st i Hm Hi) as [st' ->]. apply IH.
Qed.

Lemma digest_chunk_total st c : length c = 64%nat → is_Some (digest_chunk st c).
Proof.
  intros Hc. destruct st as [[[a b] e] d]. unfold digest_chunk.
  destruct (rounds_total (le_val <$> chunks 4 c) (a, b, e, d) (seqZ 0 64)) as [[[[a' b'] e'] d'] E].
  - rewrite zlen_fmap. unfold zlen, chunks. by rewrite (length_chunks_aux _ 4 c 16) by (lia || done).
  - apply Forall_forall. intros i Hi%elem_of_seqZ. lia.
  - rewrite E. by eexists.
Qed.

Lemma digest_chunks_total st cs : Forall (λ c, length c = 64%nat) cs → is_Some (digest_chunks st cs).
Proof.
  intros Hcs. revert st. induction Hcs as [|c cs Hc Hcs IH]; intros st; cbn; [by eexists|].
  destruct (digest_chunk_total st c Hc) as [st' ->]. apply IH.
Qed.

Lemma md5_digest_total msg : ∃ d, md5_digest msg = Some d ∧ length d = 16%nat.
Proof.
  unfold md5_digest.
  destruct (digest_chunks_total (0x67452301, 0xefcdab89, 0x98badcfe, 0x10325476) (chunks 64 (pad msg)))
    as [[[[a b] c] d] ->].
  - apply Forall_forall. intros c Hc. pose proof (zlen_pad_64 msg) as Hp.
    apply Z.div_exact in Hp; [|done]. unfold zlen in Hp.
    eapply (chunks_full 64 (pad msg) (Z.to_nat (Z.of_nat (length (pad msg)) / 64))); [lia| |exact Hc].
    assert (0 ≤ Z.of_nat (length (pad msg)) / 64) by (apply Z.div_pos; lia). lia.
  - eexists. split; [reflexivity|]. by rewrite !length_app, !length_le_bytes.
Qed.

Definition is_upper_hex (c : Z) : Prop := 48 ≤ c ≤ 57 ∨ 65 ≤ c ≤ 70.

Lemma hex_byte_total b : ∃ h l, hex_byte b = Some [h; l] ∧ is_upper_hex h ∧ is_upper_hex l.
Proof.
  pose proof (byte_val_range b) as Hb. unfold hex_byte.
  assert (∀ i, 0 ≤ i < 16 → ∃ c, zget HEX_DIGITS i = Some c ∧ is_upper_hex c) as Hd.
  { intros i Hi. destruct (zget_is_Some HEX_DIGITS i) as [c Hc]; [exact Hi|]. exists c. split; [done|].
    apply zget_elem_of in Hc. unfold is_upper_hex.
    cbn in Hc. repeat (apply elem_of_cons in Hc as [->|Hc]; [lia|]). by apply not_elem_of_nil in Hc. }
  destruct (Hd (Z.shiftr (byte_val b) 4)) as (h & -> & Hh).
  { rewrite Z.shiftr_div_pow2 by done. split; [apply Z.div_pos; lia|]. apply Z.div_lt_upper_bound; lia. }
  destruct (Hd (Z.land (byte_val b) 15)) as (l & -> & Hl).
  { change 15 with (Z.ones 4). rewrite Z.land_ones by done. by apply Z.mod_pos_bound. }
  by exists h, l.
Qed.

Lemma hex_string_total bs : ∃ s, hex_string bs = Some s ∧ length s = (2 * length bs)%nat ∧ Forall is_upper_hex s.
Proof.
  induction bs as [|b bs (s & E & Hl & Hs)]; cbn; [by exists []|].
  destruct (hex_byte_total b) as (h & l & -> & Hh & Hl'). cbn. rewrite E. cbn.
  exists (h :: l :: s). split_and!; [done|cbn; lia|].
  apply Forall_cons. split; [done|]. apply Forall_cons. by split.
Qed.

Lemma compute_hex_total text :
  ∃ s, compute_hex text = Some s ∧ length s = 32%nat ∧ Forall is_upper_hex s.
Proof.
  unfold compute_hex. destruct (md5_digest_total (as_bytes text)) as (d & -> & Hd). cbn.
  destruct (hex_string_total d) as (s & -> & Hl & Hs). exists s. split_and!; [done|lia|done].
Qed.

(** ** Properties *)

(** The freshness check never panics and trusts exactly the right documents: the
    digest of any text is 32 uppercase hexadecimal characters (the padding is the shortest
    that fills the last 64-byte block); a document without an md5 is never fresh; and
    otherwise a document is fresh iff its md5 is the digest of the text up to ASCII case,
    and is reported stale with both digests when it is not. *)
Theorem freshness_check_exact :
  (∀ text, ∃ s, compute_hex text = Some s ∧ length s = 32%nat ∧ Forall is_upper_hex s) ∧
  (∀ len, 0 ≤ len → (len + 1 + padding_zeros len) mod 64 = 56 ∧
     ∀ n, 0 ≤ n < padding_zeros len → (len + 1 + n) mod 64 ≠ 56) ∧
  (∀ text, validate text [] = Some MissingMd5) ∧
  (∀ text md5 s, md5 ≠ [] → compute_hex text = Some s →
     validate text md5 = Some (if eq_ignore_ascii_case s md5 then Fresh else Stale md5 s)) ∧
  (∀ text s, compute_hex text = Some s →
     validate text s = Some Fresh ∧ validate text (ascii_to_lowercase <$> s) = Some Fresh).
Proof.
  split_and!.
  - apply compute_hex_total.
  - intros len Hl. split; [by apply padding_zeros_spec|]. intros n Hn. by apply padding_zeros_least.
  - done.
  - intros text md5 s Hne E. unfold validate. rewrite E. cbn. destruct md5; [done|]. by case_match.
  - intros text s E. destruct (compute_hex_total text) as (s' & E' & Hl & Hhex). rewrite E in E'. injection E' as <-.
    unfold validate. rewrite E. cbn. destruct s as [|c s]; [done|].
    assert (eq_ignore_ascii_case (c :: s) (c :: s) = true) as -> by (by apply str_eqb_true).
    split; [done|]. cbn [fmap list_fmap].
    assert (∀ x, ascii_to_lowercase (ascii_to_lowercase x) = ascii_to_lowercase x) as Hidem.
    { intros x. unfold ascii_to_lowercase, ascii_upper.
      destruct (Z.leb_spec 65 x), (Z.leb_spec x 90); cbn; repeat zcase; cbn; lia. }
    assert (eq_ignore_ascii_case (c :: s) (ascii_to_lowercase c :: (ascii_to_lowercase <$> s)) = true) as ->; [|done].
    apply str_eqb_true. cbn. rewrite Hidem. f_equal.
    change (list_fmap ?A ?B ?f ?l) with (f <$> l). rewrite <- list_fmap_compose.
    apply list_fmap_ext. intros _ y _. cbn [compose]. by rewrite Hidem.
Qed.

(** The reference vectors. *)
Lemma freshness_check_exact_witness :
  compute_hex [] = Some (lit "D41D8CD98F00B204E9800998ECF8427E") ∧
  validate (lit "hello") (lit "5d41402abc4b2a76b9719d911017c592") = Some Fresh.
Proof.
  split; [vm_compute; reflexivity|].
  destruct freshness_check_exact as (_ & _ & _ & _ & H).
  apply (H (lit "hello") (lit "5D41402ABC4B2A76B9719D911017C592")). vm_compute. reflexivity.
Defined.
