(* ===== verification/Locator.v ===== *)
(** Location of [.semanticdb] files: [ls-semanticdb/src/locator.rs].

    A [PathBuf] is its list of components; the directory tree a listing walks is given. *)

From Stdlib Require Import Sorting.Sorted.
From S2P Require Import Prelude RustStr SdbModel Uri.

Definition SEMANTICDB_SUFFIX : list Z := lit ".semanticdb".

Record SemanticdbLocator := {
  targetroot : list Component;
  semanticdb_root : list Component
}.

Definition not_cur_dir (c : Component) : bool := match c with CurDir => false | _ => true end.

(** [PathBuf::join] of a string: an absolute one replaces the path, and the components of
    a relative one are appended (a leading [.] is not leading any more). *)
Definition path_join (p : list Component) (s : list Z) : list Component :=
  if starts_with (lit "/") s then path_components s
  else p ++ List.filter not_cur_dir (path_components s).

(** [SemanticdbLocator::new] *)
Definition locator_new (root : list Component) : SemanticdbLocator :=
  {| targetroot := root;
     semanticdb_root := path_join (path_join root (lit "META-INF")) (lit "semanticdb") |}.

(** [lexical_normalize] *)
Definition lexical_step (out : list Component) (comp : Component) : list Component :=
  match comp with
  | CurDir => out
  | ParentDir =>
      match rev out with
      | Normal _ :: _ => path_pop out
      | _ => path_push out ParentDir
      end
  | other => path_push out other
  end.
Definition lexical_normalize (p : list Component) : list Component := foldl lexical_step [] p.

(** [Path::strip_prefix] and [Path::starts_with], by components. *)
Fixpoint strip_components (root p : list Component) : option (list Component) :=
  match root, p with
  | [], _ => Some p
  | a :: root, b :: p => if decide (a = b) then strip_components root p else None
  | _ :: _, [] => None
  end.
Definition path_starts_with (p root : list Component) : bool :=
  match strip_components root p with Some _ => true | None => false end.

(** [semanticdb_file_for] *)
Definition semanticdb_file_for (loc : SemanticdbLocator) (source_relative_path : list Z)
    : result SemanticdbError (list Component) :=
  match source_relative_path with
  | [] => Err (InvalidPath (lit "source path must be relative: " ++ source_relative_path))
  | _ =>
      if starts_with (lit "/") source_relative_path
      then Err (InvalidPath (lit "source path must be relative: " ++ source_relative_path))
      else
        let resolved := lexical_normalize
          (path_join (semanticdb_root loc) (source_relative_path ++ SEMANTICDB_SUFFIX)) in
        let root := lexical_normalize (semanticdb_root loc) in
        if negb (path_starts_with resolved root)
        then Err (InvalidPath (lit "source path escapes the semanticdb root: " ++ source_relative_path))
        else Ok resolved
  end.

(** [absolutize], in the current directory [cwd]. *)
Definition absolutize (cwd p : list Component) : list Component :=
  match p with
  | RootDir :: _ => p
  | _ => cwd ++ List.filter not_cur_dir p
  end.

(** [source_relative_path_for] *)
Definition source_relative_path_for (cwd : list Component) (loc : SemanticdbLocator)
    (semanticdb_file : list Component) : option (list Z) :=
  let abs := lexical_normalize (absolutize cwd semanticdb_file) in
  let root := lexical_normalize (absolutize cwd (semanticdb_root loc)) in
  if negb (path_starts_with abs root) || bool_decide (abs = root) then None
  else
    rel ← strip_components root abs;
    let rel_str := path_str rel in
    if ends_with SEMANTICDB_SUFFIX rel_str && (zlen SEMANTICDB_SUFFIX <? zlen rel_str)
    then Some (take (length rel_str - length SEMANTICDB_SUFFIX) rel_str)
    else None.

(** ** Listing

    A directory tree; an entry may be neither a file nor a directory. *)

#[warnings="-register-all"]
Inductive FsNode :=
| FsFile
| FsOther
| FsDir (entries : list (list Z * FsNode)).

(** [walk]: every entry that is not a directory, depth first, in directory order. *)
Fixpoint walk (dir : list Z) (node : FsNode) : list (list Z * FsNode) :=
  match node with
  | FsDir entries =>
      (fix walk_entries (entries : list (list Z * FsNode)) : list (list Z * FsNode) :=
         match entries with
         | [] => []
         | (name, n) :: entries =>
             let path := dir ++ lit "/" ++ name in
             match n with
             | FsDir _ => walk path n
             | _ => [(path, n)]
             end ++ walk_entries entries
         end) entries
  | _ => []
  end.

Definition is_file (n : FsNode) : bool := match n with FsFile => true | _ => false end.

(** The last component of a path string. *)
Definition file_name (path : list Z) : list Z := List.last (split_on (ch "/") path) [].

(** [list_semanticdb_files], when the root is the directory [node] ([None] when absent). *)
Definition list_semanticdb_files (root : list Z) (node : option FsNode) : list (list Z) :=
  match node with
  | Some (FsDir entries) =>
      let out := walk root (FsDir entries) in
      let out := List.filter (λ p, is_file p.2 && ends_with SEMANTICDB_SUFFIX (file_name p.1)) out in
      sort_by str_leb (fst <$> out)
  | _ => []
  end.

(** ** Lemmas: lexical normal forms *)

(** A normalized path: a root if any, then [..]s, then ordinary names. *)
Definition lexical_form (l : list Component) : Prop :=
  ∃ r k segs, l = r ++ replicate k ParentDir ++ (Normal <$> segs) ∧ (r = [] ∨ r = [RootDir]).

Definition no_root (l : list Component) : Prop := Forall (λ c, c ≠ RootDir) l.

Lemma lexical_step_form l c : lexical_form l → lexical_form (lexical_step l c).
Proof.
  intros (r & k & segs & -> & Hr). destruct c as [| | |s]; cbn [lexical_step path_push].
  - exists [RootDir], O, []. split; [done|by right].
  - by exists r, k, segs.
  - destruct segs as [|x segs _] using rev_ind.
    + cbn [fmap list_fmap]. rewrite app_nil_r.
      assert ((match rev (r ++ replicate k ParentDir) with
               | Normal _ :: _ => path_pop (r ++ replicate k ParentDir)
               | _ => (r ++ replicate k ParentDir) ++ [ParentDir] end) =
              (r ++ replicate k ParentDir) ++ [ParentDir]) as ->.
      { rewrite rev_app_distr. destruct k as [|k].
        - cbn. destruct Hr as [->| ->]; done.
        - rewrite replicate_S_end, rev_app_distr. done. }
      exists r, (S k), []. split; [|done]. cbn [fmap list_fmap].
      by rewrite app_nil_r, replicate_S_end, app_assoc.
    + rewrite fmap_app. cbn [fmap list_fmap]. rewrite !app_assoc, rev_app_distr. cbn [rev app].
      unfold path_pop. rewrite rev_app_distr. cbn [rev app]. rewrite rev_involutive.
      exists r, k, segs. by rewrite app_assoc.
  - exists r, k, (segs ++ [s]). split; [|done]. by rewrite fmap_app, !app_assoc.
Qed.

Lemma lexical_normalize_form p : lexical_form (lexical_normalize p).
Proof.
  unfold lexical_normalize. assert (lexical_form []) as H by (exists [], O, []; split; [done|by left]).
  revert H. generalize (@nil Component). induction p as [|c p IH]; intros l Hl; cbn; [done|].
  by apply IH, lexical_step_form.
Qed.

Lemma lexical_normalize_app p q : lexical_normalize (p ++ q) = foldl lexical_step (lexical_normalize p) q.
Proof. apply foldl_app. Qed.

Lemma lexical_names l segs : foldl lexical_step l (Normal <$> segs) = l ++ (Normal <$> segs).
Proof.
  revert l. induction segs as [|s segs IH]; intros l; cbn; [by rewrite app_nil_r|].
  by rewrite IH, <- app_assoc.
Qed.

(** After an ordinary name only ordinary names follow. *)
Lemma form_after_name a s b : lexical_form (a ++ Normal s :: b) → ∃ segs, b = Normal <$> segs.
Proof.
  intros (r & k & segs & E & Hr).
  assert (∀ (l : list Component) a, a ++ Normal s :: b = l ++ (Normal <$> segs) → Forall (λ c, ∀ s, c ≠ Normal s) l →
    ∃ segs, b = Normal <$> segs) as H.
  { intros l. induction l as [|c l IH]; intros a' E' Hl; cbn in E'.
    - clear -E'. revert a' E'. induction segs as [|x segs IH]; intros [|c a'] E'; cbn in E'; try done.
      + injection E' as _ ->. by exists segs.
      + injection E' as _ E'. by apply (IH a').
    - apply Forall_cons in Hl as [Hc Hl]. destruct a' as [|c' a']; cbn in E'.
      + injection E' as <- _. by destruct (Hc s).
      + injection E' as _ E'. by apply (IH a'). }
  apply (H (r ++ replicate k ParentDir) a); [by rewrite <- app_assoc|].
  apply Forall_app. split; [destruct Hr as [->| ->]; [constructor|by apply Forall_cons; split; [|constructor]]|].
  by apply Forall_replicate.
Qed.

Lemma strip_components_Some root p rest : strip_components root p = Some rest ↔ p = root ++ rest.
Proof.
  revert p. induction root as [|a root IH]; intros p; cbn; [split; [by intros [=]|by intros ->]|].
  destruct p as [|b p]; [done|]. case_decide as Hd.
  - subst. rewrite IH. split; [by intros ->|by intros [=]].
  - split; [done|]. by intros [=].
Qed.

Lemma strip_components_app root rest : strip_components root (root ++ rest) = Some rest.
Proof. by apply strip_components_Some. Qed.

Lemma semanticdb_root_eq root :
  semanticdb_root (locator_new root) = root ++ [Normal (lit "META-INF"); Normal (lit "semanticdb")].
Proof.
  unfold locator_new. cbn [semanticdb_root].
  change (path_join root (lit "META-INF")) with (root ++ [Normal (lit "META-INF")]).
  change (path_join ?p (lit "semanticdb")) with (p ++ [Normal (lit "semanticdb")]).
  by rewrite <- app_assoc.
Qed.

Lemma lexical_root root :
  ∃ a, lexical_normalize (semanticdb_root (locator_new root)) = a ++ [Normal (lit "semanticdb")].
Proof.
  rewrite semanticdb_root_eq, lexical_normalize_app. cbn.
  by eexists (lexical_normalize root ++ [Normal (lit "META-INF")]).
Qed.

(** ** Lemmas: the round trip *)

Lemma path_components_relative segs :
  segs ≠ [] → Forall good_segment segs →
  List.filter not_cur_dir (path_components (join (lit "/") segs)) = Normal <$> segs.
Proof.
  intros Hne Hs. unfold path_components.
  change (lit "/") with [ch "/"]. rewrite split_on_join; [|done|eapply Forall_impl; [exact Hs|]; by intros s (?&?&?&?&?)].
  assert (∀ s t, good_segment s → t ∈ [[]; lit "."; lit ".."] → str_eqb s t = false) as Hf.
  { intros s t (H1 & H2 & H3 & _) Ht. destruct (str_eqb s t) eqn:E; [|done]. apply str_eqb_true in E as ->.
    repeat (apply elem_of_cons in Ht as [->|Ht]; [done|]). by apply not_elem_of_nil in Ht. }
  assert (∀ l, Forall good_segment l → List.filter not_cur_dir (component_of <$> List.filter
    (λ s, negb (str_eqb s []) && negb (str_eqb s (lit "."))) l) = Normal <$> l) as Hb.
  { intros l Hl. induction Hl as [|s l Hg Hl IH]; [done|]. cbn [List.filter].
    rewrite !Hf by (done || set_solver). cbn [negb andb fmap list_fmap]. unfold component_of at 1.
    rewrite Hf by (done || set_solver). cbn [List.filter not_cur_dir]. by rewrite IH. }
  destruct segs as [|s segs]; [done|]. pose proof (Forall_inv Hs) as Hg.
  assert (starts_with [ch "/"] (join [ch "/"] (s :: segs)) = false) as ->.
  { destruct (starts_with _ _) eqn:E; [|done]. apply starts_with_true in E as [r E].
    destruct Hg as (Hne' & _ & _ & Hsl & _). destruct s as [|c s]; [done|].
    assert (c = ch "/") as -> by (destruct segs; cbn in E; injection E as -> _; done).
    by destruct Hsl; apply list_elem_of_here. }
  rewrite Hf by (done || set_solver). by apply Hb.
Qed.

Lemma join_snoc_suffix segs s t : join (lit "/") (segs ++ [s ++ t]) = join (lit "/") (segs ++ [s]) ++ t.
Proof.
  induction segs as [|x segs IH]; [done|]. cbn [app join].
  destruct (segs ++ [s ++ t]) eqn:E1; [by destruct segs|]. destruct (segs ++ [s]) eqn:E2; [by destruct segs|].
  rewrite IH. by rewrite <- !app_assoc.
Qed.

Lemma good_segment_suffix s : good_segment s → good_segment (s ++ SEMANTICDB_SUFFIX).
Proof.
  intros (H1 & H2 & H3 & H4 & H5).
  assert (∀ t, (length t < 11)%nat → s ++ SEMANTICDB_SUFFIX ≠ t) as Hl.
  { intros t Ht <-. rewrite length_app in Ht. change (length SEMANTICDB_SUFFIX) with 11%nat in Ht. lia. }
  split_and!; try (apply Hl; cbn; lia).
  - rewrite not_elem_of_app. split; [done|]. apply (bool_decide_unpack _). vm_compute. exact I.
  - apply Forall_app. split; [done|]. apply (bool_decide_unpack _). vm_compute. exact I.
Qed.

(** ** Lemmas: listing *)

(** A file [n] of the tree, by its path. *)
Inductive entry_at : list Z → FsNode → list Z → FsNode → Prop :=
| entry_here dir entries name n :
    (name, n) ∈ entries → (∀ es, n ≠ FsDir es) → entry_at dir (FsDir entries) (dir ++ lit "/" ++ name) n
| entry_below dir entries name es p n :
    (name, FsDir es) ∈ entries → entry_at (dir ++ lit "/" ++ name) (FsDir es) p n →
    entry_at dir (FsDir entries) p n.

Fixpoint FsNode_rect' (P : FsNode → Prop) (Hf : P FsFile) (Ho : P FsOther)
    (Hd : ∀ es, Forall (λ e, P e.2) es → P (FsDir es)) (n : FsNode) : P n :=
  match n with
  | FsFile => Hf
  | FsOther => Ho
  | FsDir es =>
      Hd es ((fix go (es : list (list Z * FsNode)) : Forall (λ e, P e.2) es :=
        match es with
        | [] => Forall_nil_2 _
        | (a, n) :: es => Forall_cons_2 (λ e, P e.2) (a, n) es (FsNode_rect' P Hf Ho Hd n) (go es)
        end) es)
  end.

Lemma walk_cons dir name n es :
  walk dir (FsDir ((name, n) :: es)) =
  match n with FsDir _ => walk (dir ++ lit "/" ++ name) n | _ => [(dir ++ lit "/" ++ name, n)] end ++
  walk dir (FsDir es).
Proof. reflexivity. Qed.

Lemma elem_of_walk node dir p n : (p, n) ∈ walk dir node ↔ entry_at dir node p n.
Proof.
  revert dir. induction node as [| |es IH] using FsNode_rect'; intros dir.
  1-2: split; [by intros ?%not_elem_of_nil|by inversion 1].
  induction IH as [|[name m] es Hm Hes IH].
  { split; [by intros ?%not_elem_of_nil|]. inversion 1 as [? ? ? ? Hin|? ? ? ? ? ? Hin]; by apply not_elem_of_nil in Hin. }
  rewrite walk_cons, elem_of_app, IH. cbn [snd] in Hm. split.
  - intros [H|H].
    + destruct m as [| |es'].
      1-2: apply list_elem_of_singleton in H as [= -> ->]; by apply entry_here; [apply list_elem_of_here|].
      apply Hm in H. eapply entry_below; [apply list_elem_of_here|exact H].
    + inversion H as [? ? name' ? Hin Hnd|? ? name' ? ? ? Hin Hrec]; subst.
      * by apply entry_here; [apply list_elem_of_further|].
      * eapply entry_below; [by apply list_elem_of_further|exact Hrec].
  - inversion 1 as [? ? name' ? Hin Hnd|? ? name' es' ? ? Hin Hrec]; subst.
    + apply elem_of_cons in Hin as [[= -> ->]|Hin]; [left|right; by apply entry_here].
      destruct m as [| |es']; [apply list_elem_of_here..|by destruct (Hnd es')].
    + apply elem_of_cons in Hin as [[= <- <-]|Hin]; [left; by apply Hm|right; by eapply entry_below].
Qed.

(** The listing holds the regular files of the tree with the suffix. *)
Lemma elem_of_listing dir entries p :
  p ∈ list_semanticdb_files dir (Some (FsDir entries)) ↔
  entry_at dir (FsDir entries) p FsFile ∧ ends_with SEMANTICDB_SUFFIX (file_name p) = true.
Proof.
  unfold list_semanticdb_files. rewrite elem_of_sort_by, list_elem_of_fmap.
  setoid_rewrite list_elem_of_In. setoid_rewrite filter_In. setoid_rewrite <- list_elem_of_In.
  setoid_rewrite andb_true_iff. split.
  - intros ([q n] & -> & Hin & Hf & Hs). apply elem_of_walk in Hin. cbn in *. by destruct n.
  - intros [Hin Hs]. exists (p, FsFile). split_and!; [done|by apply elem_of_walk|done|done].
Qed.

(** ** Properties *)

(** The locator is confined: a source path is accepted only if its file lies below the
    semanticdb root, reached by ordinary names alone (so no [..] survives), and empty,
    absolute and escaping paths are refused with [InvalidPath]; listing returns exactly
    the regular files of the tree whose name has the suffix, sorted by path. *)
Theorem locator_confined root :
  (∀ src p, semanticdb_file_for (locator_new root) src = Ok p →
     ∃ segs, p = lexical_normalize (semanticdb_root (locator_new root)) ++ (Normal <$> segs)) ∧
  (∀ src e, semanticdb_file_for (locator_new root) src = Err e → ∃ m, e = InvalidPath m) ∧
  (∀ src, src = [] ∨ starts_with (lit "/") src = true →
     ∃ m, semanticdb_file_for (locator_new root) src = Err (InvalidPath m)) ∧
  (∀ dir entries p, p ∈ list_semanticdb_files dir (Some (FsDir entries)) ↔
     entry_at dir (FsDir entries) p FsFile ∧ ends_with SEMANTICDB_SUFFIX (file_name p) = true) ∧
  (∀ dir node, StronglySorted (λ a b, str_leb a b = true) (list_semanticdb_files dir node)).
Proof.
  split_and!.
  - intros src p H. unfold semanticdb_file_for in H. destruct src as [|c src]; [done|].
    destruct (starts_with _ _); [done|]. set (q := path_join _ _) in H.
    destruct (path_starts_with (lexical_normalize q) _) eqn:E; [|done]. injection H as <-.
    unfold path_starts_with in E. destruct (strip_components _ _) as [rest|] eqn:Er; [|done].
    apply strip_components_Some in Er. rewrite Er. pose proof (lexical_normalize_form q) as Hf. rewrite Er in Hf.
    destruct (lexical_root root) as [a Ha]. rewrite Ha in *. rewrite <- app_assoc in Hf.
    apply form_after_name in Hf as [segs ->]. by exists segs.
  - intros src e H. unfold semanticdb_file_for in H. destruct src as [|c src]; [injection H as <-; by eexists|].
    destruct (starts_with _ _); [injection H as <-; by eexists|].
    destruct (negb _); [injection H as <-; by eexists|done].
  - intros src [->|H]; unfold semanticdb_file_for; [by eexists|].
    destruct src as [|c src]; [by eexists|]. rewrite H. by eexists.
  - apply elem_of_listing.
  - intros dir [[| |es]|]; try constructor. apply sort_by_sorted; [apply str_leb_total|apply str_leb_trans].
Qed.

Lemma locator_confined_witness :
  let loc := locator_new [RootDir; Normal (lit "t")] in
  semanticdb_file_for loc (lit "a/../b.scala") =
    Ok [RootDir; Normal (lit "t"); Normal (lit "META-INF"); Normal (lit "semanticdb"); Normal (lit "b.scala.semanticdb")] ∧
  ∃ m, semanticdb_file_for loc (lit "/a.scala") = Err (InvalidPath m).
Proof.
  intros loc. destruct (locator_confined [RootDir; Normal (lit "t")]) as (_ & _ & H & _).
  split; [vm_compute; reflexivity|]. apply H. right. reflexivity.
Defined.

(** Locating and mapping back is the identity: under an absolute targetroot, the
    source-relative path of the file located for any plain relative path is that path,
    from whatever directory the process runs in. *)
Theorem locator_roundtrip root cwd segs s :
  normal_abs root → Forall good_segment (segs ++ [s]) →
  let loc := locator_new root in
  let src := join (lit "/") (segs ++ [s]) in
  let file := semanticdb_root loc ++ (Normal <$> segs ++ [s ++ SEMANTICDB_SUFFIX]) in
  semanticdb_file_for loc src = Ok file ∧ source_relative_path_for cwd loc file = Some src.
Proof.
  intros (rs & -> & Hrs) Hs loc src file.
  assert (semanticdb_root loc = RootDir :: (Normal <$> rs ++ [lit "META-INF"; lit "semanticdb"])) as Hroot.
  { unfold loc. rewrite semanticdb_root_eq. cbn. by rewrite fmap_app. }
  assert (∀ l, lexical_normalize (RootDir :: (Normal <$> l)) = RootDir :: (Normal <$> l)) as Hnorm.
  { intros l. change (RootDir :: (Normal <$> l)) with ([RootDir] ++ (Normal <$> l)).
    rewrite lexical_normalize_app. apply lexical_names. }
  assert (lexical_normalize (semanticdb_root loc) = semanticdb_root loc) as Hnr by (by rewrite Hroot, Hnorm).
  assert (Forall good_segment (segs ++ [s ++ SEMANTICDB_SUFFIX])) as Hs'.
  { apply Forall_app in Hs as [Hs1 Hs2]. apply Forall_app. split; [done|].
    apply Forall_cons in Hs2 as [Hs2 _]. apply Forall_cons. split; [by apply good_segment_suffix|constructor]. }
  assert (src ++ SEMANTICDB_SUFFIX = join (lit "/") (segs ++ [s ++ SEMANTICDB_SUFFIX])) as Hsrc.
  { by rewrite join_snoc_suffix. }
  assert (lexical_normalize file = file) as Hnf.
  { unfold file. rewrite Hroot. cbn [app]. rewrite <- fmap_app. apply Hnorm. }
  assert (∃ c src', src = c :: src' ∧ c ≠ ch "/") as (c & src' & Ec & Hc).
  { unfold src. assert (∃ x l, segs ++ [s] = x :: l) as (x & l & E) by (destruct segs; eauto).
    rewrite E in *. apply Forall_cons in Hs as [(Hx & _ & _ & Hsl & _) _]. destruct x as [|c x]; [done|].
    exists c. destruct l; cbn; eexists; (split; [reflexivity|]); intros ->; by destruct Hsl; apply list_elem_of_here. }
  assert (starts_with (lit "/") src = false) as Hst.
  { rewrite Ec. change (lit "/") with [ch "/"]. unfold starts_with. cbn [strip_prefix].
    destruct (Z.eqb_spec (ch "/") c); [congruence|done]. }
  assert (starts_with (lit "/") (src ++ SEMANTICDB_SUFFIX) = false) as Hst'.
  { rewrite Ec. change (lit "/") with [ch "/"]. unfold starts_with. cbn [strip_prefix app].
    destruct (Z.eqb_spec (ch "/") c); [congruence|done]. }
  split.
  - unfold semanticdb_file_for. rewrite Ec at 1. rewrite Hst.
    unfold path_join. rewrite Hst', Hsrc.
    rewrite path_components_relative by (done || by destruct segs). fold file. rewrite Hnf, Hnr.
    unfold path_starts_with, file. by rewrite strip_components_app.
  - unfold source_relative_path_for.
    assert (absolutize cwd file = file) as -> by (unfold file; by rewrite Hroot).
    assert (absolutize cwd (semanticdb_root loc) = semanticdb_root loc) as -> by (by rewrite Hroot).
    rewrite Hnf, Hnr. unfold path_starts_with. unfold file at 1. rewrite strip_components_app. cbn [negb orb].
    rewrite bool_decide_eq_false_2.
    2:{ intros E%(f_equal length). unfold file in E. rewrite !length_app, length_fmap, length_app in E. cbn in E. lia. }
    unfold file. rewrite strip_components_app. cbn [mbind option_bind].
    assert (path_str (Normal <$> segs ++ [s ++ SEMANTICDB_SUFFIX]) = src ++ SEMANTICDB_SUFFIX) as ->.
    { rewrite Hsrc. unfold path_str. rewrite component_str_normals.
      destruct (segs ++ [s ++ SEMANTICDB_SUFFIX]) eqn:E; [by destruct segs|reflexivity]. }
    rewrite (proj2 (ends_with_true SEMANTICDB_SUFFIX _)) by eauto.
    rewrite zlen_app, length_app, Nat.add_sub, take_app_length.
    destruct (Z.ltb_spec (zlen SEMANTICDB_SUFFIX) (zlen src + zlen SEMANTICDB_SUFFIX)) as [|Hlt]; [done|].
    rewrite Ec, zlen_cons in Hlt. pose proof (zlen_nonneg src'). lia.
Qed.

Lemma locator_roundtrip_witness :
  let loc := locator_new [RootDir; Normal (lit "t")] in
  ∃ file, semanticdb_file_for loc (lit "src/A.scala") = Ok file ∧
    source_relative_path_for [RootDir] loc file = Some (lit "src/A.scala").
Proof.
  intros loc. eexists. apply (locator_roundtrip [RootDir; Normal (lit "t")] [RootDir] [lit "src"] (lit "A.scala")).
  - exists [lit "t"]. split; [reflexivity|]. apply Forall_cons. split; [|constructor].
    split_and!; try discriminate; refine (bool_decide_unpack _ _); vm_compute; exact I.
  - repeat (apply Forall_cons; split); try constructor; try discriminate;
      split_and!; try discriminate; refine (bool_decide_unpack _ _); vm_compute; exact I.
Defined.
