(* ===== verification/StoreFormat.v ===== *)
(** The on-disk format of an index segment: constants ([ls-store/src/format.rs]), the
    logical content the writer consumes ([data.rs]), the typed failures ([error.rs]) and
    the bounds-checked little-endian reads ([wire.rs]).

    [LeBuf] is a growing byte list, so a [put_*] is an append: [put_i32 v] is the list of
    bytes it appends. The three unsigned writers and the two signed ones keep the low
    bytes of their argument ([le_bytes] of two's complement). *)

From S2P Require Import Prelude RustStr IndexModel.

Open Scope Z_scope.

(** ** Constants ([format.rs]) *)

Definition MAGIC : Z := 0x4750534c.
Definition VERSION : Z := 1.
Definition BLOCK_SIZE : Z := 256.
Definition HEADER_SIZE : Z := 64.
Definition HEADER_CHECKSUM_OFFSET : Z := 56.
Definition GROUP_INDEX_ENTRY_SIZE : Z := 16.
Definition RENAME_PROFILE_ENTRY_SIZE : Z := 16.
Definition DOC_ENTRY_SIZE : Z := 48.
Definition INTERVAL_ENTRY_SIZE : Z := 24.
Definition SYMBOL_ENTRY_SIZE : Z := 32.
Definition BLOCK_ENTRY_FIXED_SIZE : Z := 40.
Definition TARGET_META_ENTRY_SIZE : Z := 48.
Definition SYMBOL_META_ENTRY_SIZE : Z := 48.

Definition HEADER_FILE : list Z := lit "header.bin".
Definition REF_GROUP_INDEX_FILE : list Z := lit "ref-group-index.bin".
Definition DEF_GROUP_INDEX_FILE : list Z := lit "definition-group-index.bin".
Definition RENAME_GROUP_INDEX_FILE : list Z := lit "rename-group-index.bin".
Definition DOC_INDEX_FILE : list Z := lit "doc-index.bin".
Definition SYMBOL_INDEX_FILE : list Z := lit "symbol-index.bin".
Definition REF_POSTINGS_FILE : list Z := lit "ref-postings.bin".
Definition DEF_POSTINGS_FILE : list Z := lit "definition-postings.bin".
Definition RENAME_POSTINGS_FILE : list Z := lit "rename-postings.bin".
Definition DOC_POSTINGS_FILE : list Z := lit "doc-postings.bin".
Definition BLOCK_INDEX_FILE : list Z := lit "block-index.bin".
Definition TARGET_META_FILE : list Z := lit "target-meta.bin".
Definition SYMBOL_META_FILE : list Z := lit "symbol-meta.bin".
Definition SEARCH_FILE : list Z := lit "search.bin".
Definition CHECKSUMS_FILE : list Z := lit "checksums.bin".

Definition CHECKSUMMED_FILES : list (list Z) :=
  [HEADER_FILE; REF_GROUP_INDEX_FILE; DEF_GROUP_INDEX_FILE; RENAME_GROUP_INDEX_FILE;
   DOC_INDEX_FILE; SYMBOL_INDEX_FILE; REF_POSTINGS_FILE; DEF_POSTINGS_FILE;
   RENAME_POSTINGS_FILE; DOC_POSTINGS_FILE; BLOCK_INDEX_FILE; TARGET_META_FILE;
   SYMBOL_META_FILE; SEARCH_FILE].

(** [mod doc_flags] *)
Definition DOC_GENERATED : Z := Z.shiftl 1 0.
Definition DOC_READONLY : Z := Z.shiftl 1 1.

(** [mod prof_flags] *)
Definition IS_LOCAL : Z := Z.shiftl 1 0.
Definition IS_EXTERNAL : Z := Z.shiftl 1 1.
Definition HAS_GENERATED : Z := Z.shiftl 1 2.
Definition HAS_READONLY : Z := Z.shiftl 1 3.
Definition HAS_OVERRIDE_FAMILY : Z := Z.shiftl 1 4.
Definition HAS_COMPANION : Z := Z.shiftl 1 5.

Definition target_word_count (target_count : Z) : Z :=
  let w := Z.shiftr (target_count + 63) 6 in
  if w =? 0 then 1 else w.

Definition block_entry_size (target_count : Z) : Z :=
  BLOCK_ENTRY_FIXED_SIZE + 8 * target_word_count target_count.

(** [format!("segment-{segment_id:06}")] *)
Definition segment_dir_name (segment_id : Z) : list Z :=
  let d := show_u segment_id in
  lit "segment-" ++ replicate (6 - length d) (ch "0") ++ d.

(** ** Logical content ([data.rs]) *)

Record SegmentDoc := mkSegmentDoc {
  doc_uri : list Z;
  doc_id : Z;
  doc_epoch : Z;
  doc_target_ord : Z;
  doc_generated : bool;
  doc_readonly : bool
}.

Record SegmentSymbol := mkSegmentSymbol {
  ss_semantic_symbol : list Z;
  ss_symbol_id : Z;
  ss_ref_group_ord : Z;
  ss_rename_group_ord : Z;
  ss_def_target_ord : Z
}.

Record GroupOcc := mkGroupOcc {
  go_doc_ord : Z;
  go_doc_epoch : Z;
  go_target_ord : Z;
  go_span : Span;
  go_flags : Z
}.

Record DocOcc := mkDocOcc {
  do_symbol_ord : Z;
  do_span : Span;
  do_flags : Z
}.

(** The stored profile ([data::RenameProfile], distinct from the index model's). *)
Record SegRenameProfile := mkSegRenameProfile {
  rp_is_local : bool;
  rp_is_external : bool;
  rp_has_generated_occurrences : bool;
  rp_has_readonly_occurrences : bool;
  rp_has_override_family : bool;
  rp_has_companion : bool;
  rp_editable_occurrence_count : Z;
  rp_unsafe_reason_mask : Z
}.

Record TargetMeta := mkTargetMeta {
  bsp_id : list Z;
  scala_version : list Z;
  sourceroot : list Z;
  semanticdb_root : list Z;
  content_hash : Z;
  options_hash : Z
}.
Definition TargetMeta_default : TargetMeta := mkTargetMeta [] [] [] [] 0 0.

Record SymbolMeta := mkSymbolMeta {
  sm_display : list Z;
  sm_owner : list Z;
  sm_package_name : list Z;
  sm_kind : Z;
  sm_properties : Z;
  def_packed_start : Z;
  def_packed_end : Z;
  def_doc_ord : Z
}.
(** The derived [Default]: every integer is zero, [def_doc_ord] included. *)
Definition SymbolMeta_default : SymbolMeta := mkSymbolMeta [] [] [] 0 0 0 0 0.

Record SearchRow := mkSearchRow {
  normalized_name : list Z;
  sr_symbol_ord : Z
}.

Record SegmentData := mkSegmentData {
  docs : list SegmentDoc;
  targets : list Z;
  symbols : list SegmentSymbol;
  ref_occurrences : list (list GroupOcc);
  def_occurrences : list (list GroupOcc);
  rename_occurrences : list (list GroupOcc);
  rename_profiles : list SegRenameProfile;
  doc_occurrences : list (list DocOcc);
  target_meta : list TargetMeta;
  symbol_meta : list SymbolMeta;
  search_rows : list SearchRow
}.

(** ** Failures ([error.rs]) *)

(** An I/O error of the platform, known by its message. *)
Inductive SegmentError :=
| SegIo (e : list Z)
| BadMagic (found : Z)
| BadVersion (found : Z)
| HeaderChecksumMismatch
| ChecksumMismatch (file : list Z)
| ChecksumListMismatch (detail : list Z)
| Truncated (file : list Z)
| Structural (detail : list Z)
| InvalidInput (detail : list Z).
#[global] Instance SegmentError_eq_dec : EqDecision SegmentError.
Proof. solve_decision. Defined.

Definition hex_digit (d : Z) : Z := if d <? 10 then 48 + d else 87 + d.
(** [{x:08x}] of a [u32]: eight hexadecimal digits. *)
Definition show_hex8 (x : Z) : list Z :=
  (λ i, hex_digit (x / 16 ^ (7 - i) mod 16)) <$> seqZ 0 8.

(** [impl Display for SegmentError] *)
Definition segment_error_display (e : SegmentError) : list Z :=
  match e with
  | SegIo e => lit "segment io error: " ++ e
  | BadMagic found => lit "bad segment magic: 0x" ++ show_hex8 found
  | BadVersion found => lit "unsupported segment version: " ++ show_u found
  | HeaderChecksumMismatch => lit "header checksum mismatch"
  | ChecksumMismatch file => lit "checksum mismatch in " ++ file
  | ChecksumListMismatch detail => lit "checksums.bin list mismatch: " ++ detail
  | Truncated file => lit "truncated/corrupt file: " ++ file
  | Structural detail => lit "structural mismatch: " ++ detail
  | InvalidInput detail => lit "invalid segment input: " ++ detail
  end.

Inductive StoreError :=
| Segment (e : SegmentError)
| StoreIo (e : list Z)
| ManifestCorrupt (detail : list Z)
| StateCorrupt (detail : list Z)
| PairMismatch (detail : list Z)
| FutureSchema (what : list Z) (found : Z).
#[global] Instance StoreError_eq_dec : EqDecision StoreError.
Proof. solve_decision. Defined.

(** [impl Display for StoreError] *)
Definition store_error_display (e : StoreError) : list Z :=
  match e with
  | Segment e => segment_error_display e
  | StoreIo e => lit "store io error: " ++ e
  | ManifestCorrupt detail => lit "manifest corrupt: " ++ detail
  | StateCorrupt detail => lit "workspace-state corrupt: " ++ detail
  | PairMismatch detail => lit "segment/state pair mismatch: " ++ detail
  | FutureSchema what found =>
      lit "unsupported future " ++ what ++ lit " schema version: " ++ show_u found
  end.

(** How a call that reads or writes segments can stop short: with a typed error, or with a
    Rust panic ([unwrap] of [None], an index out of bounds). *)
Inductive SegStop :=
| Fails (e : SegmentError)
| Panics.
#[global] Instance SegStop_eq_dec : EqDecision SegStop.
Proof. solve_decision. Defined.

Abbreviation outcome A := (result SegStop A) (only parsing).

(** [opt.unwrap()] *)
Definition unwrap {A : Type} (o : option A) : outcome A := ok_or o Panics.

(** ** Wire ([wire.rs]) *)

Definition put_u16 (v : Z) : bytes := le_bytes 2 v.
Definition put_u32 (v : Z) : bytes := le_bytes 4 v.
Definition put_i32 (v : Z) : bytes := le_bytes 4 v.
Definition put_u64 (v : Z) : bytes := le_bytes 8 v.
Definition put_i64 (v : Z) : bytes := le_bytes 8 v.
(** [LeBuf::set_u64]: panics past the end. *)
Definition set_u64 (buf : bytes) (off v : Z) : option bytes :=
  if (0 <=? off) && (off + 8 <=? zlen buf)
  then Some (take (Z.to_nat off) buf ++ le_bytes 8 v ++ drop (Z.to_nat (off + 8)) buf)
  else None.

Definition read_u16 (b : bytes) (off : Z) : option Z := le_val <$> slice b off 2.
Definition read_u32 (b : bytes) (off : Z) : option Z := le_val <$> slice b off 4.
Definition read_i32 (b : bytes) (off : Z) : option Z := as_i32 <$> (le_val <$> slice b off 4).
Definition read_u64 (b : bytes) (off : Z) : option Z := le_val <$> slice b off 8.
Definition read_i64 (b : bytes) (off : Z) : option Z := as_i64 <$> (le_val <$> slice b off 8).

(** ** Lemmas: reads are total inside the file and in range *)

Section reads.
Context (b : bytes) (off : Z).

Lemma slice_inside (n : Z) :
  0 ≤ off → 0 ≤ n → off + n ≤ zlen b → ∃ s, slice b off n = Some s ∧ zlen s = n.
Proof.
  intros H0 Hn H1. assert (is_Some (slice b off n)) as [s Hs] by (apply slice_is_Some; lia).
  exists s. split; [done|]. by eapply slice_length.
Qed.

Lemma read_i32_inside : 0 ≤ off → off + 4 ≤ zlen b → ∃ v, read_i32 b off = Some v ∧ inS 32 v.
Proof.
  intros H0 H1. destruct (slice_inside 4) as (s & Hs & _); [lia..|].
  unfold read_i32. rewrite Hs. eexists. split; [done|]. by apply wrapS_range.
Qed.
Lemma read_i64_inside : 0 ≤ off → off + 8 ≤ zlen b → ∃ v, read_i64 b off = Some v ∧ inS 64 v.
Proof.
  intros H0 H1. destruct (slice_inside 8) as (s & Hs & _); [lia..|].
  unfold read_i64. rewrite Hs. eexists. split; [done|]. by apply wrapS_range.
Qed.
Lemma read_u32_inside : 0 ≤ off → off + 4 ≤ zlen b → ∃ v, read_u32 b off = Some v ∧ inU 32 v.
Proof.
  intros H0 H1. destruct (slice_inside 4) as (s & Hs & Hl); [lia..|].
  unfold read_u32. rewrite Hs. eexists. split; [done|]. cbn.
  pose proof (le_val_range s) as Hr. by rewrite Hl in Hr.
Qed.
Lemma read_u64_inside : 0 ≤ off → off + 8 ≤ zlen b → ∃ v, read_u64 b off = Some v ∧ inU 64 v.
Proof.
  intros H0 H1. destruct (slice_inside 8) as (s & Hs & Hl); [lia..|].
  unfold read_u64. rewrite Hs. eexists. split; [done|]. cbn.
  pose proof (le_val_range s) as Hr. by rewrite Hl in Hr.
Qed.
Lemma read_u16_inside : 0 ≤ off → off + 2 ≤ zlen b → is_Some (read_u16 b off).
Proof.
  intros H0 H1. destruct (slice_inside 2) as (s & Hs & Hl); [lia..|].
  unfold read_u16. rewrite Hs. by eexists.
Qed.

Lemma read_i32_Some v : read_i32 b off = Some v → 0 ≤ off ∧ off + 4 ≤ zlen b ∧ inS 32 v.
Proof.
  unfold read_i32. destruct (slice b off 4) as [s|] eqn:E; [|done]. intros [= <-].
  assert (is_Some (slice b off 4)) as H%slice_is_Some by eauto.
  split_and!; [lia..|]. by apply wrapS_range.
Qed.
Lemma read_i64_Some v : read_i64 b off = Some v → 0 ≤ off ∧ off + 8 ≤ zlen b ∧ inS 64 v.
Proof.
  unfold read_i64. destruct (slice b off 8) as [s|] eqn:E; [|done]. intros [= <-].
  assert (is_Some (slice b off 8)) as H%slice_is_Some by eauto.
  split_and!; [lia..|]. by apply wrapS_range.
Qed.
Lemma read_u32_Some v : read_u32 b off = Some v → 0 ≤ off ∧ off + 4 ≤ zlen b ∧ inU 32 v.
Proof.
  unfold read_u32. destruct (slice b off 4) as [s|] eqn:E; [|done]. intros [= <-].
  assert (is_Some (slice b off 4)) as H%slice_is_Some by eauto.
  split_and!; [lia..|]. pose proof (le_val_range s) as Hr.
  apply slice_length in E. by rewrite E in Hr.
Qed.

(** The unsigned read of a field is the signed one, reinterpreted. *)
Lemma read_u32_of_i32 : read_u32 b off = as_u32 <$> read_i32 b off.
Proof.
  unfold read_i32, read_u32. destruct (slice b off 4) as [s|] eqn:E; [|done]. cbn. f_equal.
  unfold as_u32, as_i32. rewrite wrapU_wrapS by done. symmetry. apply wrapU_id.
  pose proof (le_val_range s) as Hr. apply slice_length in E. by rewrite E in Hr.
Qed.
End reads.
