(* ===== verification/SegReader.v ===== *)
(** The segment reader ([ls-store/src/reader.rs]): opening and validating a segment, its
    typed accessors, the group and document scans, symbol-at-position and the symbol
    lookup.

    The reader maps fourteen files; here a directory is read through [read_file] and the
    mapped files are byte lists. CRC32C is a third-party function, the argument [crc32c];
    the [Debug] text of a string is [debug_str]. An accessor whose Rust body unwraps an
    out-of-bounds read is [None] where Rust panics; validation runs in [outcome], so that a
    panic and a typed failure are told apart. Offsets are computed in [Z]: on the segments
    the theorems are about every sum stays below the length of a mapped file. *)

From S2P Require Import Prelude RustStr IndexModel Bitset StoreFormat.

Open Scope Z_scope.

(** ** Reading a directory *)

Inductive FileRead :=
| Found (b : bytes)
| NotFound
| ReadFails (e : list Z).

(** [dir.join(name)] for a relative [name], displayed. *)
Definition dir_join (dir name : list Z) : list Z :=
  if bool_decide (dir = []) then name
  else if ends_with [ch "/"] dir then dir ++ name
  else dir ++ [ch "/"] ++ name.

(** [map_file] *)
Definition map_file (read_file : list Z → FileRead) (path : list Z) : outcome bytes :=
  match read_file path with
  | Found b => Ok b
  | NotFound => Err (Fails (Truncated path))
  | ReadFails e => Err (Fails (SegIo e))
  end.

(** ** Helpers *)

Definition structural (detail : list Z) : SegStop := Fails (Structural detail).

Definition expect (cond : bool) (detail : string) : outcome unit :=
  ensure cond (structural (lit detail)).

Definition bounded (v max : Z) (detail : string) : outcome Z :=
  if (v <? 0) || (max <? as_u64 v) then Err (structural (lit detail)) else Ok (as_usize v).

Definition check_ord (v count : Z) (detail : string) : outcome unit :=
  if (0 <=? v) && (v <? count) then Ok tt else Err (structural (lit detail)).

Definition check_ord_opt (v count : Z) (detail : string) : outcome unit :=
  if (v =? -1) || ((0 <=? v) && (v <? count)) then Ok tt else Err (structural (lit detail)).

Definition str_slice (file : bytes) (off len blob_start blob_len : Z) (detail : string) : outcome bytes :=
  if (off <? 0) || (len <? 0) then Err (structural (lit detail))
  else if blob_len <? off + len then Err (structural (lit detail))
  else ok_or (slice file (blob_start + off) len) (structural (lit detail)).

Definition req_i64 (b : bytes) (off : Z) (file : list Z) : outcome Z :=
  ok_or (read_i64 b off) (Fails (Truncated file)).
Definition req_u64 (b : bytes) (off : Z) (file : list Z) : outcome Z :=
  ok_or (read_u64 b off) (Fails (Truncated file)).
Definition req_i32 (b : bytes) (off : Z) (file : list Z) : outcome Z :=
  ok_or (read_i32 b off) (Fails (Truncated file)).
Definition req_u32 (b : bytes) (off : Z) (file : list Z) : outcome Z :=
  ok_or (read_u32 b off) (Fails (Truncated file)).

(** [read_str] *)
Definition read_str (file : bytes) (ref_off blob_start : Z) : list Z :=
  let off := as_usize (default 0 (read_i32 file ref_off)) in
  let len := as_usize (default 0 (read_i32 file (ref_off + 4))) in
  default [] (from_utf8_lossy <$> slice file (blob_start + off) len).

(** The order of byte slices and of tuples of integers. *)
Definition bytes_ltb (a b : bytes) : bool := lex_ltb (byte_val <$> a) (byte_val <$> b).
Definition bytes_leb (a b : bytes) : bool := lex_leb (byte_val <$> a) (byte_val <$> b).

(** ** The reader *)

Record SegmentReader := mkReader {
  files : list bytes;
  rd_segment_id : Z;
  rd_created_at_ms : Z;
  ref_group_count : Z;
  rename_group_count : Z;
  doc_count : Z;
  occurrence_count : Z;
  symbol_count : Z;
  target_count : Z;
  rd_words : Z;
  doc_epochs : list Z
}.

Definition HEADER : nat := 0.
Definition REF_GROUP_INDEX : nat := 1.
Definition DEF_GROUP_INDEX : nat := 2.
Definition RENAME_GROUP_INDEX : nat := 3.
Definition DOC_INDEX : nat := 4.
Definition SYMBOL_INDEX : nat := 5.
Definition REF_POSTINGS : nat := 6.
Definition DEF_POSTINGS : nat := 7.
Definition RENAME_POSTINGS : nat := 8.
Definition DOC_POSTINGS : nat := 9.
Definition BLOCK_INDEX : nat := 10.
Definition TARGET_META : nat := 11.
Definition SYMBOL_META : nat := 12.
Definition SEARCH : nat := 13.

(** [self.file(idx)]: the array has fourteen elements and [idx] is one of the above. *)
Definition file (s : SegmentReader) (idx : nat) : bytes := default [] (files s !! idx).
(** [format::CHECKSUMMED_FILES[idx]] *)
Definition checksummed_name (idx : nat) : list Z := default [] (CHECKSUMMED_FILES !! idx).

Definition with_counts (s : SegmentReader) (symbol_count target_count words : Z) : SegmentReader :=
  mkReader (files s) (rd_segment_id s) (rd_created_at_ms s) (ref_group_count s)
    (rename_group_count s) (doc_count s) (occurrence_count s) symbol_count target_count words
    (doc_epochs s).
Definition with_epochs (s : SegmentReader) (epochs : list Z) : SegmentReader :=
  mkReader (files s) (rd_segment_id s) (rd_created_at_ms s) (ref_group_count s)
    (rename_group_count s) (doc_count s) (occurrence_count s) (symbol_count s) (target_count s)
    (rd_words s) epochs.

(** ** Views *)

Record GroupIndexView := mkGroupIndexView {
  gv_offset : Z; gv_count : Z; gv_block_index_offset : Z }.
Record GroupRecord := mkGroupRecord {
  gr_doc_ord : Z; gr_doc_epoch : Z; gr_target_ord : Z;
  gr_packed_start : Z; gr_packed_end : Z; gr_flags : Z }.
Record DocEntryView := mkDocEntryView {
  dv_interval_first : Z; dv_postings_offset : Z; dv_postings_count : Z; dv_interval_count : Z }.
Record IntervalView := mkIntervalView {
  iv_first_line : Z; iv_last_line : Z; iv_offset : Z; iv_count : Z }.
Record DocRecord := mkDocRecord {
  dr_symbol_ord : Z; dr_packed_start : Z; dr_packed_end : Z; dr_flags : Z }.
Record SymbolView := mkSymbolView {
  sv_symbol_id : Z; sv_ref_group_ord : Z; sv_rename_group_ord : Z; sv_def_target_ord : Z }.
Record OccurrenceHit := mkHit {
  hit_symbol_ord : Z; hit_doc_ord : Z; hit_span : Span; hit_role : Role; hit_flags : Z }.
Record BlockView := mkBlockView {
  bv_first_record : Z; bv_record_count : Z; bv_editable_count : Z; bv_ref_role_count : Z;
  bv_def_role_count : Z; bv_doc_ord_min : Z; bv_doc_ord_max : Z; bv_epoch_min : Z;
  bv_epoch_max : Z; bv_target_words : list Z }.

#[global] Instance GroupRecord_eq_dec : EqDecision GroupRecord.
Proof. solve_decision. Defined.
#[global] Instance DocRecord_eq_dec : EqDecision DocRecord.
Proof. solve_decision. Defined.
#[global] Instance OccurrenceHit_eq_dec : EqDecision OccurrenceHit.
Proof. solve_decision. Defined.

(** ** Accessors: [None] is a panic *)

Section accessors.
Context (s : SegmentReader).

Definition group_index_view (file : bytes) (ord : Z) : option GroupIndexView :=
  let base := 8 + ord * GROUP_INDEX_ENTRY_SIZE in
  offset ← read_i64 file base;
  count ← read_i32 file (base + 8);
  block_index_offset ← read_i32 file (base + 12);
  Some (mkGroupIndexView offset count block_index_offset).

Definition ref_group (ord : Z) := group_index_view (file s REF_GROUP_INDEX) ord.
Definition def_group (ord : Z) := group_index_view (file s DEF_GROUP_INDEX) ord.
Definition rename_group (ord : Z) := group_index_view (file s RENAME_GROUP_INDEX) ord.

Definition rename_profile (ord : Z) : option SegRenameProfile :=
  let file := file s RENAME_GROUP_INDEX in
  let base := 8 + rename_group_count s * GROUP_INDEX_ENTRY_SIZE + ord * RENAME_PROFILE_ENTRY_SIZE in
  flags ← read_i32 file base;
  editable ← read_i32 file (base + 4);
  mask ← read_i64 file (base + 8);
  Some (mkSegRenameProfile (has flags IS_LOCAL) (has flags IS_EXTERNAL) (has flags HAS_GENERATED)
          (has flags HAS_READONLY) (has flags HAS_OVERRIDE_FAMILY) (has flags HAS_COMPANION)
          editable mask).

Definition group_record (file : bytes) (r : Z) : option GroupRecord :=
  n ← read_i64 file 0;
  let col (c : Z) := read_i32 file (as_usize (8 + c * 4 * n + 4 * r)) in
  doc_ord ← col 0;
  doc_epoch ← col 1;
  target_ord ← col 2;
  packed_start ← col 3;
  packed_end ← col 4;
  flags ← col 5;
  Some (mkGroupRecord doc_ord doc_epoch target_ord packed_start packed_end flags).

Definition ref_record (r : Z) := group_record (file s REF_POSTINGS) r.
Definition def_record (r : Z) := group_record (file s DEF_POSTINGS) r.
Definition rename_record (r : Z) := group_record (file s RENAME_POSTINGS) r.

Definition doc_entry_base (idx : Z) : Z := 24 + idx * DOC_ENTRY_SIZE.

Definition interval_count_total : option Z := read_i64 (file s DOC_INDEX) 8.

Definition uri_blob_start : option Z :=
  intervals ← interval_count_total;
  Some (24 + doc_count s * DOC_ENTRY_SIZE + as_usize intervals * INTERVAL_ENTRY_SIZE).

(** A string stored as [(offset, len)] at [base]: [&file[blob + off..blob + off + len]] and
    [from_utf8(..).unwrap_or("")]. *)
Definition blob_str (file : bytes) (base blob : Z) : option (list Z) :=
  off ← read_i32 file base;
  len ← read_i32 file (base + 4);
  bs ← slice file (blob + as_usize off) (as_usize len);
  Some (default [] (from_utf8 bs)).

Definition uri_of (doc_ord : Z) : option (list Z) :=
  blob_start ← uri_blob_start;
  blob_str (file s DOC_INDEX) (doc_entry_base doc_ord) blob_start.

Definition doc_id_of (doc_ord : Z) := read_i64 (file s DOC_INDEX) (doc_entry_base doc_ord + 8).
Definition epoch_of (doc_ord : Z) := read_i32 (file s DOC_INDEX) (doc_entry_base doc_ord + 16).
Definition target_ord_of_doc (doc_ord : Z) :=
  read_i32 (file s DOC_INDEX) (doc_entry_base doc_ord + 20).
Definition doc_flags_of (doc_ord : Z) := read_i32 (file s DOC_INDEX) (doc_entry_base doc_ord + 24).
Definition rd_doc_generated (doc_ord : Z) : option bool :=
  (λ f, has f DOC_GENERATED) <$> doc_flags_of doc_ord.
Definition rd_doc_readonly (doc_ord : Z) : option bool :=
  (λ f, has f DOC_READONLY) <$> doc_flags_of doc_ord.

Definition doc_entry (doc_ord : Z) : option DocEntryView :=
  let file := file s DOC_INDEX in
  let base := doc_entry_base doc_ord in
  interval_first ← read_i32 file (base + 28);
  postings_offset ← read_i64 file (base + 32);
  postings_count ← read_i32 file (base + 40);
  interval_count ← read_i32 file (base + 44);
  Some (mkDocEntryView interval_first postings_offset postings_count interval_count).

Definition interval_entry (idx : Z) : option IntervalView :=
  let file := file s DOC_INDEX in
  let base := 24 + doc_count s * DOC_ENTRY_SIZE + as_usize idx * INTERVAL_ENTRY_SIZE in
  first_line ← read_i32 file base;
  last_line ← read_i32 file (base + 4);
  offset ← read_i64 file (base + 8);
  count ← read_i32 file (base + 16);
  Some (mkIntervalView first_line last_line offset count).

Definition doc_record (r : Z) : option DocRecord :=
  let file := file s DOC_POSTINGS in
  n ← read_i64 file 0;
  let col (c : Z) := read_i32 file (as_usize (8 + c * 4 * n + 4 * r)) in
  symbol_ord ← col 0;
  packed_start ← col 1;
  packed_end ← col 2;
  flags ← col 3;
  Some (mkDocRecord symbol_ord packed_start packed_end flags).

Definition symbol_entry_base (idx : Z) : Z := 24 + idx * SYMBOL_ENTRY_SIZE.
Definition sym_blob_start : Z := 24 + symbol_count s * SYMBOL_ENTRY_SIZE + target_count s * 8.

Definition semantic_symbol_of (ord : Z) : option (list Z) :=
  blob_str (file s SYMBOL_INDEX) (symbol_entry_base ord) sym_blob_start.

Definition symbol_view (ord : Z) : option SymbolView :=
  let file := file s SYMBOL_INDEX in
  let base := symbol_entry_base ord in
  symbol_id ← read_i64 file (base + 8);
  ref_group_ord ← read_i32 file (base + 16);
  rename_group_ord ← read_i32 file (base + 20);
  def_target_ord ← read_i32 file (base + 24);
  Some (mkSymbolView symbol_id ref_group_ord rename_group_ord def_target_ord).

Definition target_id_of (target_ord : Z) : option Z :=
  read_i64 (file s SYMBOL_INDEX) (24 + symbol_count s * SYMBOL_ENTRY_SIZE + target_ord * 8).

(** The bytes of the [mid]th dictionary entry, as the binary search reads them. *)
Definition symbol_bytes (mid : Z) : option bytes :=
  let file := file s SYMBOL_INDEX in
  let base := symbol_entry_base mid in
  off ← read_i32 file base;
  len ← read_i32 file (base + 4);
  slice file (sym_blob_start + as_usize off) (as_usize len).

(** The loop of [find_symbol_ord]; the fuel bounds its rounds. [None] is a panic or fuel
    exhausted, [Some None] an absent symbol. *)
Fixpoint find_symbol_loop (fuel : nat) (needle : bytes) (lo hi : Z) : option (option Z) :=
  match fuel with
  | O => None
  | S fuel =>
      if lo <? hi then
        let mid := (lo + hi) / 2 in
        hay ← symbol_bytes mid;
        match bytes_cmp hay needle with
        | Lt => find_symbol_loop fuel needle (mid + 1) hi
        | Gt => find_symbol_loop fuel needle lo mid
        | Eq => Some (Some (as_u32 mid))
        end
      else Some None
  end.
Definition find_symbol_ord (semantic_symbol : list Z) : option (option Z) :=
  find_symbol_loop (S (Z.to_nat (symbol_count s))) (as_bytes semantic_symbol) 0 (symbol_count s).

Definition block_count : option Z := read_i64 (file s BLOCK_INDEX) 0.
Definition block_word_count : option Z := read_i32 (file s BLOCK_INDEX) 8.
Definition block_size : option Z := read_i32 (file s BLOCK_INDEX) 12.
Definition block_base (idx : Z) : Z := 16 + idx * (BLOCK_ENTRY_FIXED_SIZE + 8 * rd_words s).

Definition block_entry (idx : Z) : option BlockView :=
  let file := file s BLOCK_INDEX in
  let base := block_base (as_usize idx) in
  target_words ← mapM (λ w, read_u64 file (base + 40 + 8 * w)) (seqZ 0 (rd_words s));
  first_record ← read_i64 file base;
  record_count ← read_i32 file (base + 8);
  editable_count ← read_i32 file (base + 12);
  ref_role_count ← read_i32 file (base + 16);
  def_role_count ← read_i32 file (base + 20);
  doc_ord_min ← read_i32 file (base + 24);
  doc_ord_max ← read_i32 file (base + 28);
  epoch_min ← read_i32 file (base + 32);
  epoch_max ← read_i32 file (base + 36);
  Some (mkBlockView first_record record_count editable_count ref_role_count def_role_count
          doc_ord_min doc_ord_max epoch_min epoch_max target_words).

(** [(0..n).any(f)], where [f] can panic. *)
Fixpoint any_lane (f : Z → option bool) (l : list Z) : option bool :=
  match l with
  | [] => Some false
  | w :: l => b ← f w; if b : bool then Some true else any_lane f l
  end.
Definition block_intersects (idx : Z) (allowed_words : list Z) : option bool :=
  let base := block_base (as_usize idx) + 40 in
  let n := Z.min (rd_words s) (zlen allowed_words) in
  any_lane (λ w,
    lane ← read_u64 (file s BLOCK_INDEX) (base + 8 * w);
    aw ← zget allowed_words w;
    Some (negb (Z.land lane aw =? 0))) (seqZ 0 n).

Definition rd_target_meta (target_ord : Z) : option TargetMeta :=
  let file := file s TARGET_META in
  let base := 16 + target_ord * TARGET_META_ENTRY_SIZE in
  let blob := 16 + target_count s * TARGET_META_ENTRY_SIZE in
  let str (i : Z) := read_str file (base + i * 8) blob in
  content_hash ← read_i64 file (base + 32);
  options_hash ← read_i64 file (base + 40);
  Some (mkTargetMeta (str 0) (str 1) (str 2) (str 3) content_hash options_hash).

Definition rd_symbol_meta (symbol_ord : Z) : option SymbolMeta :=
  let file := file s SYMBOL_META in
  let base := 16 + symbol_ord * SYMBOL_META_ENTRY_SIZE in
  let blob := 16 + symbol_count s * SYMBOL_META_ENTRY_SIZE in
  let str (i : Z) := read_str file (base + i * 8) blob in
  kind ← read_i32 file (base + 24);
  properties ← read_u32 file (base + 28);
  packed_start ← read_i32 file (base + 32);
  packed_end ← read_i32 file (base + 36);
  doc_ord ← read_i32 file (base + 40);
  Some (mkSymbolMeta (str 0) (str 1) (str 2) kind properties packed_start packed_end doc_ord).

Definition search_row_count : option Z := read_i64 (file s SEARCH) 0.
Definition search_row (idx : Z) : option (list Z * Z) :=
  let file := file s SEARCH in
  let base := 16 + as_usize idx * 16 in
  rows ← search_row_count;
  sym ← read_i32 file (base + 8);
  Some (read_str file base (16 + as_usize rows * 16), sym).

(** ** Scans: the records handed to the sink, in order *)

(** [for x in l { .. sink(y) .. }]: the body's records, concatenated. *)
Definition collect {A B : Type} (f : A → option (list B)) (l : list A) : option (list B) :=
  (λ ls, concat ls) <$> mapM f l.

(** The record loop of one block. *)
Definition scan_record (postings : bytes) (allowed : option TargetBitset) (require_editable : bool)
    (r : Z) : option (list GroupRecord) :=
  rec ← group_record postings r;
  wanted ← match allowed with
           | Some a =>
               if gr_target_ord rec <? 0 then Some false
               else bitset_contains a (as_u32 (gr_target_ord rec))
           | None => Some true
           end;
  if negb wanted then Some [] else
  epoch ← zget (doc_epochs s) (as_usize (gr_doc_ord rec));
  if negb (gr_doc_epoch rec =? epoch) then Some [] else
  if require_editable && negb (has (as_u32 (gr_flags rec)) OCC_EDITABLE) then Some [] else
  Some [rec].

Definition scan_block (postings : bytes) (entry : GroupIndexView) (allowed : option TargetBitset)
    (require_editable : bool) (b : Z) : option (list GroupRecord) :=
  let block_idx := gv_block_index_offset entry + b in
  hit ← match allowed with
        | Some a => block_intersects block_idx (words a)
        | None => Some true
        end;
  if negb hit then Some [] else
  let base := block_base (as_usize block_idx) in
  editable ← read_i32 (file s BLOCK_INDEX) (base + 12);
  if require_editable && (editable =? 0) then Some [] else
  first ← read_i64 (file s BLOCK_INDEX) base;
  count ← read_i32 (file s BLOCK_INDEX) (base + 8);
  collect (scan_record postings allowed require_editable) (seqZ first count).

Definition scan_group (postings : nat) (entry : GroupIndexView) (allowed : option TargetBitset)
    (require_editable : bool) : option (list GroupRecord) :=
  if gv_count entry =? 0 then Some [] else
  let num_blocks := Z.quot (gv_count entry + BLOCK_SIZE - 1) BLOCK_SIZE in
  collect (scan_block (file s postings) entry allowed require_editable) (seqZ 0 num_blocks).

Definition scan_ref_group (group_ord : Z) (allowed : option TargetBitset) :=
  entry ← ref_group group_ord; scan_group REF_POSTINGS entry allowed false.
Definition scan_def_group (group_ord : Z) :=
  entry ← def_group group_ord; scan_group DEF_POSTINGS entry None false.
Definition scan_rename_group (group_ord : Z) :=
  entry ← rename_group group_ord; scan_group RENAME_POSTINGS entry None true.

Definition scan_doc (doc_ord : Z) (require_editable : bool) : option (list DocRecord) :=
  entry ← doc_entry doc_ord;
  collect (λ r,
    rec ← doc_record r;
    if require_editable && negb (has (as_u32 (dr_flags rec)) OCC_EDITABLE) then Some []
    else Some [rec]) (seqZ (dv_postings_offset entry) (dv_postings_count entry)).

(** ** Symbol at a position *)

(** The candidate kept by the scan: packed start and end, symbol, flags. *)
Abbreviation candidate := (Z * Z * Z * Z)%type (only parsing).

(** The record loop of one interval block, stopping at the first record that starts after
    the query. *)
Fixpoint cover_records (dp : bytes) (n query rec_first : Z) (ks : list Z) (best : option candidate)
    : option (option candidate) :=
  match ks with
  | [] => Some best
  | k :: ks =>
      let r := rec_first + k in
      ps ← read_u32 dp (as_usize (8 + 4 * n + 4 * r));
      if query <? ps then Some best else
      pe ← read_u32 dp (as_usize (8 + 8 * n + 4 * r));
      best' ← (if query <=? pe then
                 let size := pe - ps in
                 if match best with None => true | Some (bs, be, _, _) => size <? be - bs end then
                   sym ← read_i32 dp (as_usize (8 + 4 * r));
                   flags ← read_i32 dp (as_usize (8 + 12 * n + 4 * r));
                   Some (Some (ps, pe, sym, flags))
                 else Some best
               else Some best);
      cover_records dp n query rec_first ks best'
  end.

(** The loop over a document's interval blocks. *)
Fixpoint cover_intervals (di dp : bytes) (n interval_base interval_first line query : Z)
    (bs : list Z) (best : option candidate) (blocks_scanned : Z)
    : option (option candidate * Z) :=
  match bs with
  | [] => Some (best, blocks_scanned)
  | b :: bs =>
      let ie := interval_base + as_usize (interval_first + b) * INTERVAL_ENTRY_SIZE in
      first_line ← read_i32 di ie;
      if line <? first_line then Some (best, blocks_scanned) else
      last_line ← read_i32 di (ie + 4);
      if last_line <? line then
        cover_intervals di dp n interval_base interval_first line query bs best blocks_scanned
      else
        rec_first ← read_i64 di (ie + 8);
        rec_count ← read_i32 di (ie + 16);
        best ← cover_records dp n query rec_first (seqZ 0 rec_count) best;
        cover_intervals di dp n interval_base interval_first line query bs best (blocks_scanned + 1)
  end.

Definition hit_of (doc_ord : Z) (best : candidate) : OccurrenceHit :=
  match best with
  | (ps, pe, sym, flags) =>
      mkHit sym doc_ord
        (mkSpan (unpack_line ps) (unpack_char ps) (unpack_line pe) (unpack_char pe))
        (if has (as_u32 flags) OCC_DEFINITION then Definition_ else Reference) flags
  end.

Definition symbol_at_counting (doc_ord line character : Z) : option (option OccurrenceHit * Z) :=
  let di := file s DOC_INDEX in
  let base := doc_entry_base doc_ord in
  interval_first ← read_i32 di (base + 28);
  interval_count ← read_i32 di (base + 44);
  if (interval_first <? 0) || (interval_count =? 0) then Some (None, 0) else
  let query := pack line character in
  let line := as_i32 line in
  let dp := file s DOC_POSTINGS in
  n ← read_i64 dp 0;
  let interval_base := 24 + doc_count s * DOC_ENTRY_SIZE in
  match cover_intervals di dp n interval_base interval_first line query (seqZ 0 interval_count) None 0 with
  | Some (best, blocks_scanned) => Some (hit_of doc_ord <$> best, blocks_scanned)
  | None => None
  end.

Definition symbol_at (doc_ord line character : Z) : option (option OccurrenceHit) :=
  fst <$> symbol_at_counting doc_ord line character.
End accessors.

(** ** Validation *)

(** Aggregates of one block, recomputed from its records. *)
Record BlockAgg := mkAgg {
  ag_editable : Z; ag_ref_role : Z; ag_def_role : Z; ag_dmin : Z; ag_dmax : Z;
  ag_emin : Z; ag_emax : Z; ag_words : list Z }.

(** [words[t >> 6] |= 1 << (t & 63)] *)
Definition set_word_bit (words : list Z) (t : Z) : option (list Z) :=
  w ← zget words (Z.shiftr t 6);
  zset words (Z.shiftr t 6) (Z.lor w (Z.shiftl 1 (Z.land t 63))).

Definition agg_step (a : BlockAgg) (doc epoch target flags : Z) : option BlockAgg :=
  words ← set_word_bit (ag_words a) (as_usize target);
  Some (mkAgg
    (if has flags OCC_EDITABLE then ag_editable a + 1 else ag_editable a)
    (if has flags OCC_DEFINITION then ag_ref_role a else ag_ref_role a + 1)
    (if has flags OCC_DEFINITION then ag_def_role a + 1 else ag_def_role a)
    (Z.min (ag_dmin a) doc) (Z.max (ag_dmax a) doc)
    (Z.min (ag_emin a) epoch) (Z.max (ag_emax a) epoch) words).

Definition agg_init (words : Z) : BlockAgg :=
  mkAgg 0 0 0 i32_max i32_min i32_max i32_min (replicate (Z.to_nat words) 0).

Section validation.
Context (s : SegmentReader).

Definition check_group_index (idx : nat) (count : Z) (with_profiles : bool) : outcome unit :=
  let file := file s idx in
  let name := checksummed_name idx in
  raw ← req_i64 file 0 name;
  declared ← bounded raw (zlen file) "group count";
  _ ← expect (declared =? count) "group index count";
  let need := 8 + count * GROUP_INDEX_ENTRY_SIZE in
  let need := if with_profiles then need + count * RENAME_PROFILE_ENTRY_SIZE else need in
  expect (zlen file =? need) "group index size".

Definition check_columns (idx : nat) (columns : Z) : outcome Z :=
  let file := file s idx in
  raw ← req_i64 file 0 (checksummed_name idx);
  n ← bounded raw (zlen file) "record_count";
  _ ← expect (zlen file =? 8 + columns * 4 * n) "postings columns size";
  Ok n.

Definition validate_symbol_step (blob_start sym_blob : Z) (prev : option bytes) (i : Z)
    : outcome (option bytes) :=
  let file := file s SYMBOL_INDEX in
  let name := SYMBOL_INDEX_FILE in
  let b := 24 + i * 32 in
  off ← req_i32 file b name;
  len ← req_i32 file (b + 4) name;
  str ← str_slice file off len blob_start sym_blob "symbol str ref";
  _ ← ok_or (from_utf8 str) (structural (lit "symbol not utf-8"));
  _ ← match prev with
      | Some p => expect (bytes_ltb p str) "symbols not strictly sorted"
      | None => Ok tt
      end;
  rg ← req_i32 file (b + 16) name;
  _ ← check_ord_opt rg (ref_group_count s) "ref_group_ord";
  rn ← req_i32 file (b + 20) name;
  _ ← check_ord_opt rn (rename_group_count s) "rename_group_ord";
  dt ← req_i32 file (b + 24) name;
  _ ← check_ord_opt dt (target_count s) "def_target_ord";
  Ok (Some str).

Definition validate_symbol_dict (sym_blob : Z) : outcome unit :=
  let blob_start := 24 + symbol_count s * 32 + target_count s * 8 in
  _ ← fold_r (validate_symbol_step blob_start sym_blob) None (seqZ 0 (symbol_count s));
  Ok tt.

Definition validate_group_records (idx : nat) (recs : Z) : outcome unit :=
  let file := file s idx in
  let name := checksummed_name idx in
  let doc_col := 8 in
  let target_col := 8 + 2 * 4 * recs in
  let start_col := 8 + 3 * 4 * recs in
  let end_col := 8 + 4 * 4 * recs in
  for_each (λ r,
    doc ← req_i32 file (doc_col + 4 * r) name;
    _ ← check_ord doc (doc_count s) "group doc_ord";
    target ← req_i32 file (target_col + 4 * r) name;
    _ ← check_ord target (target_count s) "group target_ord";
    ps ← req_u32 file (start_col + 4 * r) name;
    pe ← req_u32 file (end_col + 4 * r) name;
    expect (ps <=? pe) "group postings inverted span") (seqZ 0 recs).

Definition validate_doc_records (recs : Z) : outcome unit :=
  let file := file s DOC_POSTINGS in
  let name := DOC_POSTINGS_FILE in
  let start_col := 8 + 4 * recs in
  let end_col := 8 + 8 * recs in
  for_each (λ r,
    sym ← req_i32 file (8 + 4 * r) name;
    _ ← check_ord sym (symbol_count s) "doc symbol_ord";
    ps ← req_u32 file (start_col + 4 * r) name;
    pe ← req_u32 file (end_col + 4 * r) name;
    expect (ps <=? pe) "doc postings inverted span") (seqZ 0 recs).

Definition block_agg_step (pf : bytes) (recs want_first : Z) (a : BlockAgg) (k : Z) : outcome BlockAgg :=
  let r := want_first + k in
  doc ← unwrap (read_i32 pf (as_usize (8 + 4 * r)));
  epoch ← unwrap (read_i32 pf (as_usize (8 + 4 * recs + 4 * r)));
  target ← unwrap (read_i32 pf (as_usize (8 + 8 * recs + 4 * r)));
  flags ← unwrap (read_i32 pf (as_usize (8 + 20 * recs + 4 * r)));
  unwrap (agg_step a doc epoch target (as_u32 flags)).

Definition validate_block (block want_first want_count : Z) (postings_idx : nat) : outcome unit :=
  let bi := file s BLOCK_INDEX in
  let name := BLOCK_INDEX_FILE in
  let base := block_base s block in
  first ← req_i64 bi base name;
  _ ← expect (as_u64 first =? want_first) "block first_record";
  rc ← req_i32 bi (base + 8) name;
  _ ← expect ((0 <=? rc) && (rc =? want_count)) "block record_count";
  let pf := file s postings_idx in
  recs ← unwrap (read_i64 pf 0);
  a ← fold_r (block_agg_step pf recs want_first) (agg_init (rd_words s)) (seqZ 0 want_count);
  let field off v detail :=
    x ← req_i32 bi (base + off) name; expect (x =? v) detail in
  _ ← field 12 (ag_editable a) "block editable_count";
  _ ← field 16 (ag_ref_role a) "block ref_role_count";
  _ ← field 20 (ag_def_role a) "block def_role_count";
  _ ← field 24 (ag_dmin a) "block doc_ord_min";
  _ ← field 28 (ag_dmax a) "block doc_ord_max";
  _ ← field 32 (ag_emin a) "block epoch_min";
  _ ← field 36 (ag_emax a) "block epoch_max";
  for_each (λ w,
    lane ← req_u64 bi (base + 40 + 8 * w) name;
    word ← unwrap (zget (ag_words a) w);
    expect (lane =? word) "block target_words") (seqZ 0 (zlen (ag_words a))).

(** [key >= p] on tuples. *)
Definition key_step (read_key : Z → outcome (list Z)) (detail : string) (prev : option (list Z)) (r : Z)
    : outcome (option (list Z)) :=
  key ← read_key r;
  _ ← match prev with
      | Some p => expect (lex_leb p key) detail
      | None => Ok tt
      end;
  Ok (Some key).

Definition group_key (postings_idx : nat) (postings_recs r : Z) : outcome (list Z) :=
  let pf := file s postings_idx in
  let pname := checksummed_name postings_idx in
  doc ← req_i32 pf (8 + 4 * r) pname;
  ps ← req_u32 pf (8 + 3 * 4 * postings_recs + 4 * r) pname;
  pe ← req_u32 pf (8 + 4 * 4 * postings_recs + 4 * r) pname;
  Ok [doc; ps; pe].

(** One group of [validate_role_groups]; the state is [(acc, block_cursor)]. *)
Definition validate_group_step (gi_idx : nat) (postings_recs : Z) (postings_idx : nat)
    (block_count : Z) (st : Z * Z) (g : Z) : outcome (Z * Z) :=
  let '(acc, block_cursor) := st in
  let gi := file s gi_idx in
  let name := checksummed_name gi_idx in
  let b := 8 + g * 16 in
  offset ← req_i64 gi b name;
  _ ← expect ((0 <=? offset) && (as_u64 offset =? as_u64 acc)) "group offset tiling";
  count ← req_i32 gi (b + 8) name;
  _ ← expect (0 <=? count) "group count sign";
  _ ← expect (acc + count <=? postings_recs) "group range";
  block_off ← req_i32 gi (b + 12) name;
  if count =? 0 then
    _ ← expect (block_off =? -1) "empty group block_index_offset";
    Ok (acc + count, block_cursor)
  else
    _ ← fold_r (key_step (group_key postings_idx postings_recs) "group postings not sorted") None
          (seqZ acc count);
    _ ← expect ((0 <=? block_off) && (block_off =? block_cursor)) "group block_index_offset";
    let num_blocks := div_ceil count 256 in
    _ ← for_each (λ k,
          _ ← expect (block_cursor + k <? block_count) "block index range";
          validate_block (block_cursor + k) (acc + k * 256) (Z.min (count - k * 256) 256) postings_idx)
          (seqZ 0 num_blocks);
    Ok (acc + count, block_cursor + num_blocks).

Definition validate_role_groups (gi_idx : nat) (group_count postings_recs : Z) (postings_idx : nat)
    (block_cursor block_count : Z) : outcome Z :=
  st ← fold_r (validate_group_step gi_idx postings_recs postings_idx block_count) (0, block_cursor)
         (seqZ 0 group_count);
  _ ← expect (st.1 =? postings_recs) "group tiling total";
  Ok st.2.

(** One interval block of a document. *)
Definition validate_interval (di dp : bytes) (interval_base interval_count dp_start_col dp_end_col
    post_acc post_count iv_cursor k : Z) : outcome unit :=
  let name := DOC_INDEX_FILE in
  let dp_name := DOC_POSTINGS_FILE in
  _ ← expect (iv_cursor + k <? interval_count) "interval index range";
  let ib := interval_base + (iv_cursor + k) * 24 in
  let iv_offset := post_acc + k * 256 in
  let iv_count := Z.min (post_count - k * 256) 256 in
  off ← req_i64 di (ib + 8) name;
  _ ← expect (as_u64 off =? iv_offset) "interval offset";
  cnt ← req_i32 di (ib + 16) name;
  _ ← expect (as_usize cnt =? iv_count) "interval count";
  ps ← req_u32 dp (dp_start_col + 4 * iv_offset) dp_name;
  let first_line := unpack_line ps in
  last_line ← fold_r (λ last_line j,
      pe ← req_u32 dp (dp_end_col + 4 * (iv_offset + j)) dp_name;
      Ok (Z.max last_line (unpack_line pe))) 0 (seqZ 0 iv_count);
  fl ← req_i32 di ib name;
  _ ← expect (fl =? as_i32 first_line) "interval first_line";
  ll ← req_i32 di (ib + 4) name;
  expect (ll =? as_i32 last_line) "interval last_line".

(** One document of [validate_doc_index]; the state is [(post_acc, iv_cursor)]. *)
Definition validate_doc_step (doc_count interval_count uri_blob doc_recs : Z) (st : Z * Z) (d : Z)
    : outcome (Z * Z) :=
  let '(post_acc, iv_cursor) := st in
  let di := file s DOC_INDEX in
  let dp := file s DOC_POSTINGS in
  let dp_name := DOC_POSTINGS_FILE in
  let dp_start_col := 8 + 4 * doc_recs in
  let dp_end_col := 8 + 8 * doc_recs in
  let name := DOC_INDEX_FILE in
  let interval_base := 24 + doc_count * 48 in
  let uri_blob_start := interval_base + interval_count * 24 in
  let b := 24 + d * 48 in
  off ← req_i32 di b name;
  len ← req_i32 di (b + 4) name;
  uri ← str_slice di off len uri_blob_start uri_blob "uri str ref";
  _ ← ok_or (from_utf8 uri) (structural (lit "uri not utf-8"));
  target ← req_i32 di (b + 20) name;
  _ ← check_ord target (target_count s) "doc target_ord";
  interval_first ← req_i32 di (b + 28) name;
  post_off ← req_i64 di (b + 32) name;
  _ ← expect ((0 <=? post_off) && (as_u64 post_off =? as_u64 post_acc)) "doc postings tiling";
  post_count ← req_i32 di (b + 40) name;
  _ ← expect (0 <=? post_count) "doc postings_count sign";
  _ ← expect (post_acc + post_count <=? doc_recs) "doc postings range";
  iv_count ← req_i32 di (b + 44) name;
  if post_count =? 0 then
    _ ← expect ((interval_first =? -1) && (iv_count =? 0)) "empty doc interval ptr";
    Ok (post_acc + post_count, iv_cursor)
  else
    _ ← expect ((0 <=? interval_first) && (interval_first =? iv_cursor)) "doc interval_first";
    let doc_key r :=
      ps ← req_u32 dp (dp_start_col + 4 * r) dp_name;
      pe ← req_u32 dp (dp_end_col + 4 * r) dp_name;
      Ok [ps; pe] in
    _ ← fold_r (key_step doc_key "doc postings not sorted") None (seqZ post_acc post_count);
    let want_iv := div_ceil post_count 256 in
    _ ← expect ((0 <=? iv_count) && (iv_count =? want_iv)) "doc interval_count";
    _ ← for_each (validate_interval di dp interval_base interval_count dp_start_col dp_end_col
                    post_acc post_count iv_cursor) (seqZ 0 want_iv);
    Ok (post_acc + post_count, iv_cursor + want_iv).

Definition validate_doc_index (doc_count interval_count uri_blob doc_recs : Z) : outcome unit :=
  st ← fold_r (validate_doc_step doc_count interval_count uri_blob doc_recs) (0, 0)
         (seqZ 0 doc_count);
  _ ← expect (st.1 =? doc_recs) "doc postings total";
  expect (st.2 =? interval_count) "interval total".

(** The string references [0..n) of one metadata entry. *)
Definition check_strs (file : bytes) (name : list Z) (base n blob blob_len : Z) (detail : string)
    : outcome unit :=
  for_each (λ k,
    off ← req_i32 file (base + k * 8) name;
    len ← req_i32 file (base + k * 8 + 4) name;
    _ ← str_slice file off len blob blob_len detail;
    Ok tt) (seqZ 0 n).

Definition validate_search_step (se : bytes) (seblob srb : Z) (prev : option bytes) (i : Z)
    : outcome (option bytes) :=
  let base := 16 + i * 16 in
  off ← req_i32 se base SEARCH_FILE;
  len ← req_i32 se (base + 4) SEARCH_FILE;
  nm ← str_slice se off len seblob srb "search name ref";
  _ ← match prev with
      | Some p => expect (bytes_leb p nm) "search rows not sorted"
      | None => Ok tt
      end;
  sym ← req_i32 se (base + 8) SEARCH_FILE;
  _ ← check_ord sym (symbol_count s) "search symbol_ord";
  Ok (Some nm).

Definition validate_meta_and_search (tmc tmb smc smb src srb : Z) : outcome unit :=
  let tm := file s TARGET_META in
  _ ← for_each (λ i,
        check_strs tm TARGET_META_FILE (16 + i * 48) 4 (16 + tmc * 48) tmb "target-meta str ref")
        (seqZ 0 tmc);
  let sm := file s SYMBOL_META in
  _ ← for_each (λ i,
        _ ← check_strs sm SYMBOL_META_FILE (16 + i * 48) 3 (16 + smc * 48) smb "symbol-meta str ref";
        d ← req_i32 sm (16 + i * 48 + 40) SYMBOL_META_FILE;
        check_ord_opt d (doc_count s) "symbol-meta def_doc_ord")
        (seqZ 0 smc);
  let se := file s SEARCH in
  _ ← fold_r (validate_search_step se (16 + src * 16) srb) None (seqZ 0 src);
  Ok tt.
End validation.

(** A bounded count at [off] of a file. *)
Definition count_at (b : bytes) (off : Z) (name : list Z) (detail : string) : outcome Z :=
  raw ← req_i64 b off name; bounded raw (zlen b) detail.

(** [SegmentReader::validate_structure] *)
Definition validate_structure (self : SegmentReader) : outcome SegmentReader :=
  let sym := file self SYMBOL_INDEX in
  symbol_count ← count_at sym 0 SYMBOL_INDEX_FILE "symbol_count";
  target_count ← count_at sym 8 SYMBOL_INDEX_FILE "target_count";
  sym_blob ← count_at sym 16 SYMBOL_INDEX_FILE "sym_blob_len";
  _ ← expect (zlen sym =? 24 + symbol_count * 32 + target_count * 8 + sym_blob) "symbol-index size";
  let self := with_counts self symbol_count target_count (target_word_count target_count) in
  let ref_groups := ref_group_count self in
  let rename_groups := rename_group_count self in
  ref_recs ← check_columns self REF_POSTINGS 6;
  def_recs ← check_columns self DEF_POSTINGS 6;
  rename_recs ← check_columns self RENAME_POSTINGS 6;
  doc_recs ← check_columns self DOC_POSTINGS 4;
  _ ← expect (as_u64 (ref_recs + def_recs + rename_recs + doc_recs) =? occurrence_count self)
        "occurrence_count sum";
  _ ← check_group_index self REF_GROUP_INDEX ref_groups false;
  _ ← check_group_index self DEF_GROUP_INDEX ref_groups false;
  _ ← check_group_index self RENAME_GROUP_INDEX rename_groups true;
  let di := file self DOC_INDEX in
  dc ← count_at di 0 DOC_INDEX_FILE "doc_count";
  ic ← count_at di 8 DOC_INDEX_FILE "interval_count";
  ub ← count_at di 16 DOC_INDEX_FILE "uri_blob_len";
  _ ← expect (dc =? doc_count self) "doc-index doc_count";
  _ ← expect (zlen di =? 24 + dc * 48 + ic * 24 + ub) "doc-index size";
  let bi := file self BLOCK_INDEX in
  bc ← count_at bi 0 BLOCK_INDEX_FILE "block_count";
  wc ← req_i32 bi 8 BLOCK_INDEX_FILE;
  _ ← expect (wc =? rd_words self) "block target_word_count";
  bs ← req_i32 bi 12 BLOCK_INDEX_FILE;
  _ ← expect (bs =? BLOCK_SIZE) "block_size";
  _ ← expect (zlen bi =? 16 + bc * (40 + 8 * rd_words self)) "block-index size";
  let tm := file self TARGET_META in
  tmc ← count_at tm 0 TARGET_META_FILE "target-meta count";
  tmb ← count_at tm 8 TARGET_META_FILE "target-meta blob";
  _ ← expect (tmc =? target_count) "target-meta count match";
  _ ← expect (zlen tm =? 16 + tmc * 48 + tmb) "target-meta size";
  let sm := file self SYMBOL_META in
  smc ← count_at sm 0 SYMBOL_META_FILE "symbol-meta count";
  smb ← count_at sm 8 SYMBOL_META_FILE "symbol-meta blob";
  _ ← expect (smc =? symbol_count) "symbol-meta count match";
  _ ← expect (zlen sm =? 16 + smc * 48 + smb) "symbol-meta size";
  let se := file self SEARCH in
  src ← count_at se 0 SEARCH_FILE "search rows";
  srb ← count_at se 8 SEARCH_FILE "search blob";
  _ ← expect (zlen se =? 16 + src * 16 + srb) "search size";
  _ ← validate_symbol_dict self sym_blob;
  _ ← validate_group_records self REF_POSTINGS ref_recs;
  _ ← validate_group_records self DEF_POSTINGS def_recs;
  _ ← validate_group_records self RENAME_POSTINGS rename_recs;
  _ ← validate_doc_records self doc_recs;
  c1 ← validate_role_groups self REF_GROUP_INDEX ref_groups ref_recs REF_POSTINGS 0 bc;
  c2 ← validate_role_groups self DEF_GROUP_INDEX ref_groups def_recs DEF_POSTINGS c1 bc;
  c3 ← validate_role_groups self RENAME_GROUP_INDEX rename_groups rename_recs RENAME_POSTINGS c2 bc;
  _ ← expect (c3 =? bc) "block_count total";
  _ ← validate_doc_index self dc ic ub doc_recs;
  _ ← validate_meta_and_search self tmc tmb smc smb src srb;
  epochs ← unwrap (mapM (epoch_of self) (seqZ 0 (doc_count self)));
  Ok (with_epochs self epochs).

(** ** Opening *)

(** The [Debug] text ([{:?}]) of a string: the standard library's escaping, which depends
    on its Unicode tables. *)
Class DebugStr := debug_str : list Z → list Z.

Section opening.
Context (crc32c : bytes → Z) `{DebugStr}.

Definition checked_add (a b : Z) : option Z := if a + b <? 2 ^ 64 then Some (a + b) else None.

(** One expected entry of [checksums.bin]; the state is the cursor. *)
Definition checksum_step (checksums : bytes) (mapped : list bytes) (off : Z) (e : nat * list Z)
    : outcome Z :=
  let '(i, expected_name) := e in
  let truncated := Fails (Truncated CHECKSUMS_FILE) in
  let mismatch detail := Fails (ChecksumListMismatch detail) in
  name_len ← req_i32 checksums off CHECKSUMS_FILE;
  if name_len <? 0 then
    Err (mismatch (lit "entry " ++ show_u (Z.of_nat i) ++ lit " negative name_len " ++ show_i name_len))
  else
  name_start ← ok_or (checked_add off 4) truncated;
  name_end ← ok_or (checked_add name_start name_len) truncated;
  name ← ok_or (slice checksums name_start (name_end - name_start)) truncated;
  if negb (bool_decide (name = as_bytes expected_name)) then
    Err (mismatch (lit "entry " ++ show_u (Z.of_nat i) ++ lit " is " ++
                   debug_str (from_utf8_lossy name) ++ lit ", expected " ++ expected_name))
  else
  stored ← req_u64 checksums name_end CHECKSUMS_FILE;
  off ← ok_or (checked_add name_end 8) truncated;
  bytes ← unwrap (mapped !! i);
  if negb (crc32c bytes =? stored) then Err (Fails (ChecksumMismatch expected_name)) else
  Ok off.

Definition verify_checksums (checksums : bytes) (mapped : list bytes) : outcome unit :=
  let mismatch detail := Fails (ChecksumListMismatch detail) in
  count ← req_i64 checksums 0 CHECKSUMS_FILE;
  if (count <? 0) || negb (as_usize count =? zlen CHECKSUMMED_FILES) then
    Err (mismatch (lit "entry_count " ++ show_i count))
  else
  off ← fold_r (checksum_step checksums mapped) 8 (imap pair CHECKSUMMED_FILES);
  if negb (off =? zlen checksums) then
    Err (mismatch (lit "trailing bytes: " ++ show_u off ++ lit " of " ++ show_u (zlen checksums)))
  else Ok tt.

(** [u32::try_from(..)] of a header count. *)
Definition header_count (header : bytes) (off : Z) (what : string) : outcome Z :=
  v ← unwrap (read_u64 header off);
  if v <=? u32_max then Ok v
  else Err (structural (lit "header " ++ lit what ++ lit " exceeds u32")).

(** The header checks of [open]: the reader before validation. *)
Definition open_header (mapped : list bytes) (header : bytes) : outcome SegmentReader :=
  if negb (zlen header =? HEADER_SIZE) then Err (Fails (Truncated HEADER_FILE)) else
  magic ← unwrap (read_u32 header 0);
  if negb (magic =? MAGIC) then Err (Fails (BadMagic magic)) else
  version ← unwrap (read_u16 header 4);
  if negb (version =? VERSION) then Err (Fails (BadVersion version)) else
  flags ← unwrap (read_u16 header 6);
  if negb (flags =? 0) then Err (structural (lit "header flags nonzero")) else
  stored ← unwrap (read_u64 header HEADER_CHECKSUM_OFFSET);
  prefix ← unwrap (slice header 0 HEADER_CHECKSUM_OFFSET);
  if negb (stored =? crc32c prefix) then Err (Fails HeaderChecksumMismatch) else
  segment_id ← unwrap (read_u64 header 8);
  created_at_ms ← unwrap (read_i64 header 16);
  ref_group_count ← header_count header 24 "ref_group_count";
  rename_group_count ← header_count header 32 "rename_group_count";
  doc_count ← header_count header 40 "doc_count";
  occurrence_count ← unwrap (read_u64 header 48);
  Ok (mkReader mapped segment_id created_at_ms ref_group_count rename_group_count doc_count
        occurrence_count 0 0 0 []).

(** [for name in names { mapped.push(map_file(dir.join(name))?) }] *)
Fixpoint map_files (read_file : list Z → FileRead) (dir : list Z) (names : list (list Z))
    : outcome (list bytes) :=
  match names with
  | [] => Ok []
  | name :: names =>
      b ← map_file read_file (dir_join dir name);
      bs ← map_files read_file dir names;
      Ok (b :: bs)
  end.

(** [SegmentReader::open] *)
Definition reader_open (read_file : list Z → FileRead) (dir : list Z) : outcome SegmentReader :=
  mapped ← map_files read_file dir CHECKSUMMED_FILES;
  checksums ← map_file read_file (dir_join dir CHECKSUMS_FILE);
  header ← unwrap (mapped !! HEADER);
  reader ← open_header mapped header;
  _ ← verify_checksums checksums mapped;
  validate_structure reader.
End opening.
