(* ===== verification/SegSafe.v ===== *)
(** Validation of a segment never panics, and what a validated segment guarantees.

    [reads_as] says what a column of a postings file holds; [valid] collects what a
    successful [reader_open] has checked, in the form the accessors and the scans use. *)

From S2P Require Import Prelude RustStr IndexModel Bitset StoreFormat SegReader.
From Stdlib Require Import Sorting.Sorted.

Open Scope Z_scope.

(** ** No panic *)

Create HintDb no_panic.

Definition no_panic {A : Type} (m : outcome A) : Prop := m ≠ Err Panics.

Lemma no_panic_Ok {A : Type} (a : A) : no_panic (@Ok SegStop A a).
Proof. done. Qed.
Lemma no_panic_Fails {A : Type} e : no_panic (@Err SegStop A (Fails e)).
Proof. done. Qed.
Lemma no_panic_bind {A B : Type} (m : outcome A) (f : A → outcome B) :
  no_panic m → (∀ a, m = Ok a → no_panic (f a)) → no_panic (m ≫= f).
Proof. intros Hm Hf. destruct m as [a|[e|]]; [by apply Hf|done|done]. Qed.
Lemma no_panic_ok_or {A : Type} (o : option A) e : no_panic (ok_or o (Fails e)).
Proof. by destruct o. Qed.
Lemma no_panic_unwrap {A : Type} (o : option A) : is_Some o → no_panic (unwrap o).
Proof. by intros [a ->]. Qed.
Lemma no_panic_for_each {A : Type} (f : A → outcome unit) l :
  (∀ x, x ∈ l → no_panic (f x)) → no_panic (for_each f l).
Proof.
  induction l as [|x l IH]; intros Hf; [done|]. cbn [for_each].
  apply no_panic_bind; [apply Hf; left|]. intros _ _. apply IH. intros y Hy. apply Hf. by right.
Qed.
(** A loop does not panic when every step from a state the loop can be in does not. *)
Lemma no_panic_fold_r {A B : Type} (P : list A → B → Prop) (f : B → A → outcome B) l (s : B) :
  P [] s →
  (∀ pre x rest t, l = pre ++ x :: rest → P pre t →
     no_panic (f t x) ∧ ∀ t', f t x = Ok t' → P (pre ++ [x]) t') →
  no_panic (fold_r f s l).
Proof.
  intros H0 Hstep.
  cut (∀ rest pre s, l = pre ++ rest → P pre s → no_panic (fold_r f s rest)).
  { intros H. by apply (H l []). }
  clear H0 s. induction rest as [|x rest IH]; intros pre s Hl Hs; [done|]. cbn [fold_r].
  destruct (Hstep pre x rest s Hl Hs) as [Hx Hnext].
  apply no_panic_bind; [done|]. intros t Ht.
  apply (IH (pre ++ [x])); [by rewrite Hl, <- app_assoc|]. by apply Hnext.
Qed.
(** The case where no state matters. *)
Lemma no_panic_fold_r_any {A B : Type} (f : B → A → outcome B) l (s : B) :
  (∀ t x, no_panic (f t x)) → no_panic (fold_r f s l).
Proof. intros Hf. apply (no_panic_fold_r (λ _ _, True)); [done|]. intros. by split. Qed.

Lemma no_panic_expect b d : no_panic (expect b d).
Proof. by destruct b. Qed.
Lemma no_panic_bounded v m d : no_panic (bounded v m d).
Proof. unfold bounded. by case_match. Qed.
Lemma no_panic_check_ord v c d : no_panic (check_ord v c d).
Proof. unfold check_ord. by case_match. Qed.
Lemma no_panic_check_ord_opt v c d : no_panic (check_ord_opt v c d).
Proof. unfold check_ord_opt. by case_match. Qed.
Lemma no_panic_str_slice f o l b n d : no_panic (str_slice f o l b n d).
Proof. unfold str_slice. repeat case_match; try done. apply no_panic_ok_or. Qed.

#[export] Hint Resolve no_panic_Ok no_panic_Fails no_panic_ok_or no_panic_expect no_panic_bounded
  no_panic_check_ord no_panic_check_ord_opt no_panic_str_slice : no_panic.
#[export] Hint Extern 1 (no_panic (ok_or _ _)) => apply no_panic_ok_or : no_panic.
#[export] Hint Extern 1 (no_panic (Err _)) => apply no_panic_Fails : no_panic.
#[export] Hint Extern 1 (no_panic (req_i64 _ _ _)) => apply no_panic_ok_or : no_panic.
#[export] Hint Extern 1 (no_panic (req_i32 _ _ _)) => apply no_panic_ok_or : no_panic.
#[export] Hint Extern 1 (no_panic (req_u64 _ _ _)) => apply no_panic_ok_or : no_panic.
#[export] Hint Extern 1 (no_panic (req_u32 _ _ _)) => apply no_panic_ok_or : no_panic.

(** Walks a sequence of checks that cannot panic by themselves. *)
Ltac np_step :=
  match goal with
  | |- no_panic (_ ≫= _) => apply no_panic_bind; [|intros ? ?]
  | |- no_panic (match ?x with None => _ | Some _ => _ end) => destruct x
  | |- no_panic (if ?b then _ else _) => let E := fresh "E" in destruct b eqn:E
  | |- no_panic _ => solve [auto with no_panic nocore]
  end.
Ltac np := repeat np_step.

(** ** Inverting checks that passed *)

Lemma expect_Ok b d u : expect b d = Ok u → b = true.
Proof. unfold expect. intros H. by apply ensure_Ok in H. Qed.
Lemma bounded_Ok v m d n : inS 64 v → bounded v m d = Ok n → n = v ∧ 0 ≤ v ≤ m.
Proof.
  unfold bounded. intros Hv H. destruct (_ || _) eqn:E; [done|]. injection H as <-.
  zify_bools. unfold inS in Hv. unfold as_usize, as_u64 in *.
  rewrite !wrapU_id in * by (unfold inU; lia). lia.
Qed.
Lemma check_ord_Ok v c d u : check_ord v c d = Ok u → 0 ≤ v < c.
Proof. unfold check_ord. intros H. destruct (_ && _) eqn:E; [|done]. zify_bools. lia. Qed.
Lemma check_ord_opt_Ok v c d u : check_ord_opt v c d = Ok u → v = -1 ∨ 0 ≤ v < c.
Proof.
  unfold check_ord_opt. intros H. destruct (_ || _) eqn:E; [|done].
  apply orb_true_iff in E as [E|E]; zify_bools; lia.
Qed.
Lemma str_slice_Ok f o l b n d bs :
  str_slice f o l b n d = Ok bs → 0 ≤ o ∧ 0 ≤ l ∧ o + l ≤ n ∧ slice f (b + o) l = Some bs.
Proof.
  unfold str_slice. intros H. destruct (_ || _) eqn:E; [done|].
  destruct (n <? o + l) eqn:E'; [done|]. unfold ok_or in H.
  destruct (slice _ _ _) eqn:Es; [|done]. zify_bools. injection H as <-.
  split_and!; [lia..|done].
Qed.
Lemma req_i32_Ok b o n v : req_i32 b o n = Ok v → read_i32 b o = Some v.
Proof. unfold req_i32, ok_or. destruct (read_i32 b o); congruence. Qed.
Lemma req_i64_Ok b o n v : req_i64 b o n = Ok v → read_i64 b o = Some v.
Proof. unfold req_i64, ok_or. destruct (read_i64 b o); congruence. Qed.
Lemma req_u32_Ok b o n v : req_u32 b o n = Ok v → read_u32 b o = Some v.
Proof. unfold req_u32, ok_or. destruct (read_u32 b o); congruence. Qed.
Lemma req_u64_Ok b o n v : req_u64 b o n = Ok v → read_u64 b o = Some v.
Proof. unfold req_u64, ok_or. destruct (read_u64 b o); congruence. Qed.
Lemma unwrap_Ok {A : Type} (o : option A) a : unwrap o = Ok a → o = Some a.
Proof. unfold unwrap, ok_or. destruct o; congruence. Qed.

(** Turns every passed check of the context into its fact. *)
Ltac checks_step :=
  match goal with
  | H : (_ ≫= _) = Ok _ |- _ =>
      let a := fresh "v" in let Ha := fresh "H" in
      apply bind_Ok in H; destruct H as (a & Ha & H)
  | H : expect _ _ = Ok _ |- _ => apply expect_Ok in H
  | H : check_ord _ _ _ = Ok _ |- _ => apply check_ord_Ok in H
  | H : check_ord_opt _ _ _ = Ok _ |- _ => apply check_ord_opt_Ok in H
  | H : str_slice _ _ _ _ _ _ = Ok _ |- _ => apply str_slice_Ok in H; destruct H as (? & ? & ? & ?)
  | H : req_i32 _ _ _ = Ok _ |- _ => apply req_i32_Ok in H
  | H : req_i64 _ _ _ = Ok _ |- _ => apply req_i64_Ok in H
  | H : req_u32 _ _ _ = Ok _ |- _ => apply req_u32_Ok in H
  | H : req_u64 _ _ _ = Ok _ |- _ => apply req_u64_Ok in H
  | H : unwrap _ = Ok _ |- _ => apply unwrap_Ok in H
  | H : ok_or ?o _ = Ok _ |- _ =>
      let E := fresh "E" in
      unfold ok_or in H; destruct o eqn:E; [injection H; clear H; intros; subst|discriminate H]
  | H : Ok _ = Ok _ |- _ => injection H; clear H; intros; subst
  | H : Err _ = Ok _ |- _ => discriminate H
  | u : unit |- _ => destruct u
  end.
Ltac checks := repeat checks_step; zify_bools.

(** ** Columns of a postings file *)

(** A postings file of [cols] columns of [n] records each. *)
Definition cols_ok (f : bytes) (cols n : Z) : Prop :=
  read_i64 f 0 = Some n ∧ 0 ≤ n ∧ zlen f = 8 + cols * 4 * n ∧ zlen f < 2 ^ 63.

Lemma read_i64_inS b o v : read_i64 b o = Some v → inS 64 v.
Proof. intros H. by apply read_i64_Some in H as (_ & _ & ?). Qed.

(** A signed value whose unsigned reading is small is that value. *)
Lemma wrapU64_inv v w : inS 64 v → wrapU 64 v = w → w < 2 ^ 63 → v = w.
Proof.
  unfold inS. intros Hv Hw Hlt. destruct (Z.lt_ge_cases v 0) as [Hneg|].
  - unfold wrapU in Hw. rewrite <- (Z_mod_plus_full v 1), Z.mod_small in Hw by lia. lia.
  - by rewrite wrapU_id in Hw by (unfold inU; lia).
Qed.

Lemma check_columns_Ok s idx cols n :
  zlen (file s idx) < 2 ^ 63 → check_columns s idx cols = Ok n → cols_ok (file s idx) cols n.
Proof.
  intros Hf H. unfold check_columns in H. checks.
  apply bounded_Ok in H1 as [-> [??]]; [|by eapply read_i64_inS]. by split_and!.
Qed.

Lemma col_offset f cols n c r :
  cols_ok f cols n → 0 ≤ c < cols → 0 ≤ r < n →
  as_usize (8 + c * 4 * n + 4 * r) = 8 + c * 4 * n + 4 * r ∧
  0 ≤ 8 + c * 4 * n + 4 * r ∧ 8 + c * 4 * n + 4 * r + 4 ≤ zlen f.
Proof.
  intros (_ & Hn & Hl & Hf) Hc Hr. assert (c * 4 * n + 4 * n ≤ cols * 4 * n) by nia.
  split; [|nia]. apply wrapU_id. unfold inU. nia.
Qed.

(** A field of a record: column [c], row [r]. *)
Lemma col_read f cols n c r :
  cols_ok f cols n → 0 ≤ c < cols → 0 ≤ r < n →
  ∃ v, read_i32 f (as_usize (8 + c * 4 * n + 4 * r)) = Some v ∧
       read_i32 f (8 + c * 4 * n + 4 * r) = Some v ∧ inS 32 v.
Proof.
  intros Hf Hc Hr. destruct (col_offset _ _ _ _ _ Hf Hc Hr) as (-> & H0 & H1).
  destruct (read_i32_inside f _ H0 H1) as (v & Hv & ?). eauto.
Qed.

(** What the six columns say of record [r]. *)
Record reads_as (f : bytes) (n r : Z) (rec : GroupRecord) : Prop := {
  ra_record : group_record f r = Some rec;
  ra_doc : read_i32 f (8 + 4 * r) = Some (gr_doc_ord rec);
  ra_epoch : read_i32 f (8 + 4 * n + 4 * r) = Some (gr_doc_epoch rec);
  ra_target : read_i32 f (8 + 8 * n + 4 * r) = Some (gr_target_ord rec);
  ra_start : read_i32 f (8 + 12 * n + 4 * r) = Some (gr_packed_start rec);
  ra_end : read_i32 f (8 + 16 * n + 4 * r) = Some (gr_packed_end rec);
  ra_flags : read_i32 f (8 + 20 * n + 4 * r) = Some (gr_flags rec);
}.

Lemma group_record_total f n r : cols_ok f 6 n → 0 ≤ r < n → ∃ rec, reads_as f n r rec.
Proof.
  intros Hf Hr.
  destruct (col_read f 6 n 0 r Hf) as (v0 & E0 & E0' & _); [lia..|].
  destruct (col_read f 6 n 1 r Hf) as (v1 & E1 & E1' & _); [lia..|].
  destruct (col_read f 6 n 2 r Hf) as (v2 & E2 & E2' & _); [lia..|].
  destruct (col_read f 6 n 3 r Hf) as (v3 & E3 & E3' & _); [lia..|].
  destruct (col_read f 6 n 4 r Hf) as (v4 & E4 & E4' & _); [lia..|].
  destruct (col_read f 6 n 5 r Hf) as (v5 & E5 & E5' & _); [lia..|].
  exists (mkGroupRecord v0 v1 v2 v3 v4 v5). destruct Hf as [Hn _]. split; cbn [gr_doc_ord gr_doc_epoch
    gr_target_ord gr_packed_start gr_packed_end gr_flags].
  - unfold group_record. rewrite Hn. cbn -[Z.mul]. rewrite E0, E1, E2, E3, E4, E5. done.
  - rewrite <- E0'. f_equal; lia.
  - rewrite <- E1'. f_equal; lia.
  - rewrite <- E2'. f_equal; lia.
  - rewrite <- E3'. f_equal; lia.
  - rewrite <- E4'. f_equal; lia.
  - rewrite <- E5'. f_equal; lia.
Qed.

(** ** Group records *)

Definition record_ok (s : SegmentReader) (rec : GroupRecord) : Prop :=
  0 ≤ gr_doc_ord rec < doc_count s ∧ 0 ≤ gr_target_ord rec < target_count s ∧
  as_u32 (gr_packed_start rec) ≤ as_u32 (gr_packed_end rec).

(** Every record of a postings file is readable and within bounds. *)
Definition records_ok (s : SegmentReader) (idx : nat) (n : Z) : Prop :=
  ∀ r, 0 ≤ r < n → ∃ rec, reads_as (file s idx) n r rec ∧ record_ok s rec.

Lemma for_each_seqZ_Ok (f : Z → outcome unit) lo n u :
  for_each f (seqZ lo n) = Ok u → ∀ i, lo ≤ i < lo + n → f i = Ok tt.
Proof.
  intros H i Hi. apply for_each_Ok in H. rewrite Forall_forall in H. apply H.
  apply elem_of_seqZ. lia.
Qed.

Lemma no_panic_group_records s idx n : no_panic (validate_group_records s idx n).
Proof. unfold validate_group_records. apply no_panic_for_each. intros r _. np. Qed.

Lemma validate_group_records_Ok s idx n u :
  cols_ok (file s idx) 6 n → validate_group_records s idx n = Ok u → records_ok s idx n.
Proof.
  intros Hc H r Hr. destruct (group_record_total _ _ _ Hc Hr) as [rec Hrec].
  exists rec. split; [done|].
  unfold validate_group_records in H. eapply for_each_seqZ_Ok in H; [|exact Hr]. checks.
  destruct Hrec as [_ Hd _ Ht Hs He _].
  replace (8 + 2 * 4 * n + 4 * r) with (8 + 8 * n + 4 * r) in H2 by lia.
  replace (8 + 3 * 4 * n + 4 * r) with (8 + 12 * n + 4 * r) in H4 by lia.
  replace (8 + 4 * 4 * n + 4 * r) with (8 + 16 * n + 4 * r) in H5 by lia.
  rewrite read_u32_of_i32, Hs in H4. rewrite read_u32_of_i32, He in H5.
  rewrite Hd in H0. rewrite Ht in H2. simplify_eq/=. unfold record_ok. lia.
Qed.

(** ** Recomputing the aggregates of a block *)

Definition rec_editable (rec : GroupRecord) : bool := has (as_u32 (gr_flags rec)) OCC_EDITABLE.
Definition rec_definition (rec : GroupRecord) : bool := has (as_u32 (gr_flags rec)) OCC_DEFINITION.

(** One step of the aggregation, on a decoded record. *)
Definition agg_record (a : BlockAgg) (rec : GroupRecord) : outcome BlockAgg :=
  unwrap (agg_step a (gr_doc_ord rec) (gr_doc_epoch rec) (gr_target_ord rec) (as_u32 (gr_flags rec))).

(** The records read in order. *)
Definition reads_all (f : bytes) (n first : Z) (recs : list GroupRecord) : Prop :=
  ∀ k rec, zget recs k = Some rec → reads_as f n (first + k) rec.

Lemma block_agg_step_eq f n first a k rec :
  cols_ok f 6 n → 0 ≤ first + k < n → reads_as f n (first + k) rec →
  block_agg_step f n first a k = agg_record a rec.
Proof.
  intros Hc Hr [_ Hd He Ht _ _ Hf]. unfold block_agg_step.
  assert (∀ o, 0 ≤ o → o + 4 ≤ zlen f → as_usize o = o) as Hu.
  { intros o Ho Hl. apply wrapU_id. unfold inU. destruct Hc as (_ & _ & _ & ?). lia. }
  assert (∀ o v, read_i32 f o = Some v → read_i32 f (as_usize o) = Some v) as Hread.
  { intros o v Hv. pose proof Hv as (?&?&_)%read_i32_Some. by rewrite Hu. }
  rewrite (Hread _ _ Hd), (Hread _ _ He), (Hread _ _ Ht), (Hread _ _ Hf). done.
Qed.

Lemma fold_agg_eq f n first recs a :
  cols_ok f 6 n → 0 ≤ first → first + zlen recs ≤ n → reads_all f n first recs →
  fold_r (block_agg_step f n first) a (seqZ 0 (zlen recs)) = fold_r agg_record a recs.
Proof.
  intros Hc H0 Hn. induction recs as [|rec recs IH] using rev_ind; intros Hr; [done|].
  rewrite zlen_app, zlen_cons, zlen_nil in *. pose proof (zlen_nonneg recs).
  rewrite Z.add_0_r, seqZ_snoc, !fold_r_app by done.
  rewrite IH; [|lia|]; last first.
  { intros k rec' Hk. apply Hr. rewrite zget_app_l; [done|]. apply zget_Some_lt in Hk; lia. }
  destruct (fold_r agg_record a recs) as [a'|e]; [|done]. cbn [mbind result_bind fold_r].
  rewrite (block_agg_step_eq f n first a' (zlen recs) rec); [done|done|lia|].
  apply Hr. rewrite zget_app_r, Z.sub_diag by lia. done.
Qed.

(** What the aggregates are worth. *)
Record agg_of (w : Z) (recs : list GroupRecord) (a : BlockAgg) : Prop := {
  ao_editable : ag_editable a = zlen (List.filter rec_editable recs);
  ao_def : ag_def_role a = zlen (List.filter rec_definition recs);
  ao_ref : ag_ref_role a = zlen (List.filter (λ r, negb (rec_definition r)) recs);
  ao_len : zlen (ag_words a) = w;
  ao_words : Forall (inU 64) (ag_words a);
  ao_bits t : 0 ≤ t → bit_at (ag_words a) t = bool_decide (t ∈ gr_target_ord <$> recs);
}.

Lemma set_word_bit_set ws t : set_word_bit ws t = bitset_set (t + 1) ws t.
Proof. unfold set_word_bit, bitset_set. destruct (Z.ltb_spec t (t + 1)); [done|lia]. Qed.

Lemma agg_of_init w : 0 ≤ w → agg_of w [] (agg_init w).
Proof.
  intros Hw. split; try done.
  - unfold agg_init. cbn. unfold zlen. rewrite length_replicate. lia.
  - cbn. apply Forall_replicate. by unfold inU.
  - intros t Ht. cbn. by rewrite bit_at_replicate.
Qed.

Lemma agg_of_step w recs a rec :
  agg_of w recs a → 0 ≤ gr_target_ord rec < 64 * w → inS 32 (gr_target_ord rec) →
  ∃ a', agg_record a rec = Ok a' ∧ agg_of w (recs ++ [rec]) a'.
Proof.
  intros [He Hd Hr Hl Hw Hb] Ht Hs. unfold agg_record, agg_step.
  assert (as_usize (gr_target_ord rec) = gr_target_ord rec) as ->.
  { apply wrapU_id. unfold inS, inU in *. lia. }
  rewrite set_word_bit_set.
  destruct (bitset_set_spec (gr_target_ord rec + 1) (ag_words a) (gr_target_ord rec))
    as (ws & -> & Hl' & Hw' & Hb'); [lia..|done|].
  eexists. split; [done|].
  assert (∀ P : GroupRecord → bool, zlen (List.filter P (recs ++ [rec])) =
    if P rec then zlen (List.filter P recs) + 1 else zlen (List.filter P recs)) as Hf.
  { intros P. rewrite List.filter_app, zlen_app. cbn [List.filter].
    destruct (P rec); rewrite ?zlen_cons, ?zlen_nil; lia. }
  split; cbn [ag_editable ag_def_role ag_ref_role ag_words]; rewrite ?Hf, <- ?He, <- ?Hd, <- ?Hr.
  - done.
  - done.
  - unfold rec_definition. by destruct (has _ OCC_DEFINITION).
  - lia.
  - done.
  - intros t Ht0. rewrite Hb', Hb by done. apply Bool.eq_iff_eq_true.
    rewrite orb_true_iff, !bool_decide_eq_true, Z.eqb_eq, fmap_app, elem_of_app.
    cbn [fmap list_fmap]. rewrite list_elem_of_singleton. tauto.
Qed.

Lemma fold_agg_total w recs :
  0 ≤ w → Forall (λ rec, 0 ≤ gr_target_ord rec < 64 * w ∧ inS 32 (gr_target_ord rec)) recs →
  ∃ a, fold_r agg_record (agg_init w) recs = Ok a ∧ agg_of w recs a.
Proof.
  intros Hw. induction recs as [|rec recs IH] using rev_ind; intros Hrecs.
  { eexists. split; [done|]. by apply agg_of_init. }
  apply Forall_app in Hrecs as [Hrecs [[Ht Hs] _]%Forall_cons].
  destruct (IH Hrecs) as (a & Ha & Hagg).
  destruct (agg_of_step w recs a rec Hagg Ht Hs) as (a' & Ha' & Hagg').
  exists a'. split; [|done]. rewrite fold_r_app, Ha. cbn [mbind result_bind fold_r]. by rewrite Ha'.
Qed.

(** ** Blocks *)

(** What a validated block says of the records it covers. *)
Record block_ok (s : SegmentReader) (blk first : Z) (recs : list GroupRecord) : Prop := {
  bk_first : read_i64 (file s BLOCK_INDEX) (block_base s blk) = Some first;
  bk_count : read_i32 (file s BLOCK_INDEX) (block_base s blk + 8) = Some (zlen recs);
  bk_editable : read_i32 (file s BLOCK_INDEX) (block_base s blk + 12) =
                Some (zlen (List.filter rec_editable recs));
  bk_lanes : ∃ ws, zlen ws = rd_words s ∧ Forall (inU 64) ws ∧
    (∀ w, 0 ≤ w < rd_words s →
       read_u64 (file s BLOCK_INDEX) (block_base s blk + 40 + 8 * w) = zget ws w) ∧
    ∀ t, 0 ≤ t → bit_at ws t = bool_decide (t ∈ gr_target_ord <$> recs)
}.

(** The facts about a reader and one of its postings files that block validation needs. *)
Record postings_ok (s : SegmentReader) (idx : nat) (n : Z) : Prop := {
  po_cols : cols_ok (file s idx) 6 n;
  po_records : records_ok s idx n;
  po_words : rd_words s = target_word_count (target_count s);
  po_targets : 0 ≤ target_count s;
}.

Lemma target_word_count_bound n : 0 ≤ n → n ≤ 64 * target_word_count n ∧ 1 ≤ target_word_count n.
Proof.
  intros Hn. unfold target_word_count. rewrite shiftr6.
  destruct (Z.eqb_spec ((n + 63) / 64) 0); Z.to_euclidean_division_equations; lia.
Qed.

(** The records [first, first + count) of a postings file. *)
Lemma reads_all_total s idx n first count :
  records_ok s idx n → 0 ≤ first → 0 ≤ count → first + count ≤ n →
  ∃ recs, zlen recs = count ∧ reads_all (file s idx) n first recs ∧ Forall (record_ok s) recs.
Proof.
  intros Hr H0 Hc Hn. revert Hn. pattern count. apply natlike_ind; [| |done].
  - intros _. exists []. split; [done|]. split; [|done]. intros k rec Hk.
    apply zget_Some_lt in Hk. change (zlen []) with 0 in Hk. lia.
  - intros c Hc0 IH Hn. destruct IH as (recs & Hl & Hrd & Hok); [lia|].
    destruct (Hr (first + c)) as (rec & Hrec & Hrok); [lia|].
    exists (recs ++ [rec]). rewrite zlen_app, zlen_cons, zlen_nil. split; [lia|]. split.
    + intros k rec' Hk. destruct (Z.lt_ge_cases k (zlen recs)).
      * rewrite zget_app_l in Hk by done. by apply Hrd.
      * rewrite zget_app_r in Hk by done. pose proof Hk as Hk'%zget_Some_lt.
        rewrite zlen_cons in Hk'. change (zlen []) with 0 in Hk'. assert (k = c) as -> by lia.
        rewrite Hl, Z.sub_diag in Hk. injection Hk as <-. done.
    + apply Forall_app. split; [done|]. by apply Forall_singleton.
Qed.

Lemma targets_in_words s idx n recs first :
  postings_ok s idx n → reads_all (file s idx) n first recs → Forall (record_ok s) recs →
  Forall (λ rec, 0 ≤ gr_target_ord rec < 64 * rd_words s ∧ inS 32 (gr_target_ord rec)) recs.
Proof.
  intros [_ _ Hw Ht] Hr Hok. apply Forall_forall. intros rec Hrec.
  rewrite Forall_forall in Hok. destruct (Hok _ Hrec) as (_ & ? & _).
  pose proof (target_word_count_bound _ Ht). split; [lia|].
  apply elem_of_zget in Hrec as [k Hk]. apply Hr in Hk. by apply ra_target, read_i32_Some in Hk as (_ & _ & ?).
Qed.

Section block.
Context (s : SegmentReader) (idx : nat) (n : Z) (Hs : postings_ok s idx n).
Context (blk first : Z) (recs : list GroupRecord).
Context (Hfirst : 0 ≤ first) (Hn : first + zlen recs ≤ n).
Context (Hreads : reads_all (file s idx) n first recs) (Hok : Forall (record_ok s) recs).

(** Recomputing the aggregates of a block succeeds. *)
Lemma block_aggs :
  ∃ a, fold_r (block_agg_step (file s idx) n first) (agg_init (rd_words s)) (seqZ 0 (zlen recs)) = Ok a ∧
       agg_of (rd_words s) recs a.
Proof.
  destruct Hs as [Hc _ Hw Ht]. rewrite fold_agg_eq by done. apply fold_agg_total.
  - pose proof (target_word_count_bound _ Ht). lia.
  - by eapply targets_in_words.
Qed.

Lemma no_panic_validate_block : no_panic (validate_block s blk first (zlen recs) idx).
Proof.
  destruct block_aggs as (a & Ha & Hagg). destruct Hs as [[Hc0 Hc] _ _ _].
  unfold validate_block. rewrite Hc0. change (unwrap (Some n)) with (@Ok SegStop Z n).
  do 4 (apply no_panic_bind; [solve [auto with no_panic nocore]|intros ? _]).
  change (Ok n ≫= ?f) with (f n). cbv beta. rewrite Ha. change (Ok a ≫= ?f) with (f a). cbv beta.
  repeat (apply no_panic_bind; [np|intros ? _]).
  apply no_panic_for_each. intros w Hw. apply elem_of_seqZ_0 in Hw.
  apply no_panic_bind; [apply no_panic_ok_or|intros ? _].
  apply no_panic_bind; [|intros; np]. apply no_panic_unwrap. by apply zget_is_Some.
Qed.

Lemma validate_block_Ok u : validate_block s blk first (zlen recs) idx = Ok u → block_ok s blk first recs.
Proof.
  destruct block_aggs as (a & Ha & Hagg). destruct Hs as [[Hc0 [Hcn [Hcl Hcf]]] _ _ _].
  unfold validate_block. intros H. rewrite Hc0 in H.
  apply bind_Ok in H as (v & Hv & H). apply req_i64_Ok in Hv.
  apply bind_Ok in H as ([] & Hv1%expect_Ok & H).
  apply bind_Ok in H as (rc & Hrc%req_i32_Ok & H).
  apply bind_Ok in H as ([] & Hrc1%expect_Ok & H).
  change (unwrap (Some n)) with (@Ok SegStop Z n) in H.
  change (Ok n ≫= ?f) with (f n) in H. cbv beta in H. rewrite Ha in H.
  change (Ok a ≫= ?f) with (f a) in H. cbv beta in H.
  apply bind_Ok in H as ([] & He & H). apply bind_Ok in He as (e & He%req_i32_Ok & He1%expect_Ok).
  do 6 (apply bind_Ok in H as ([] & _ & H)).
  zify_bools. destruct Hagg as [Hae _ _ Hal Haw Hab]. split.
  - rewrite Hv. f_equal. pose proof (zlen_nonneg recs).
    apply wrapU64_inv; [by eapply read_i64_inS|done|lia].
  - by rewrite Hrc, H1.
  - rewrite He. f_equal. lia.
  - exists (ag_words a). split; [done|]. split; [done|]. split; [|done].
    intros w Hw. rewrite <- Hal in Hw. eapply (for_each_seqZ_Ok _ _ _ _ H) in Hw.
    apply bind_Ok in Hw as (lane & Hlane%req_u64_Ok & Hw).
    apply bind_Ok in Hw as (word & Hword%unwrap_Ok & Hw%expect_Ok). zify_bools.
    rewrite Hlane, Hword. by f_equal.
Qed.
End block.

(** ** Loops that compare every element with the previous one *)

Section chain.
Context {A K : Type} (R : K → K → Prop) (Q : A → K → Prop).
Context (Rtrans : ∀ x y z, R x y → R y z → R x z).
Context (step : option K → A → outcome (option K)).
Context (Hstep : ∀ prev x st, step prev x = Ok st →
  ∃ k, st = Some k ∧ Q x k ∧ ∀ p, prev = Some p → R p k).

Lemma StronglySorted_snoc l k :
  StronglySorted R l → (∀ p, last l = Some p → R p k) → StronglySorted R (l ++ [k]).
Proof.
  induction 1 as [|x l Hs IH Hx]; intros Hlast; cbn [app]; [by repeat constructor|].
  constructor.
  - apply IH. intros p Hp. apply Hlast. rewrite last_cons, Hp. done.
  - apply Forall_app. split; [done|]. apply Forall_cons. split; [|done].
    destruct (last l) as [p|] eqn:E.
    + rewrite last_cons, E in Hlast. eapply Rtrans; [|by apply Hlast].
      rewrite Forall_forall in Hx. apply Hx. by apply last_Some_elem_of.
    + apply last_None in E as ->. by apply Hlast.
Qed.

(** The loop decodes a sorted list. *)
Lemma chain_sorted l st :
  fold_r step None l = Ok st → ∃ keys, Forall2 Q l keys ∧ StronglySorted R keys.
Proof.
  intros H.
  apply (fold_r_invariant (λ pre prev, ∃ keys, Forall2 Q pre keys ∧ StronglySorted R keys ∧
    prev = last keys)) in H as (keys & ? & ? & _); [eauto| |].
  - exists []. split_and!; [constructor|constructor|done].
  - intros pre x t t' (keys & HQ & Hs & ->) Ht.
    apply Hstep in Ht as (k & -> & HQx & HR). exists (keys ++ [k]). split_and!.
    + apply Forall2_app; [done|]. by repeat constructor.
    + by apply StronglySorted_snoc.
    + by rewrite last_snoc.
Qed.
End chain.

(** What [chain_sorted] says of two positions of an integer range. *)
Lemma chain_range {K : Type} (R : K → K → Prop) (Q : Z → K → Prop) lo n keys i j :
  Forall2 Q (seqZ lo n) keys → StronglySorted R keys →
  lo ≤ i → i < j → j < lo + n → ∃ ki kj, Q i ki ∧ Q j kj ∧ R ki kj.
Proof.
  intros HQ Hs Hi Hij Hj.
  destruct (Forall2_lookup_l _ _ _ (Z.to_nat (i - lo)) i HQ) as (ki & Eki & HQi).
  { apply lookup_seqZ. lia. }
  destruct (Forall2_lookup_l _ _ _ (Z.to_nat (j - lo)) j HQ) as (kj & Ekj & HQj).
  { apply lookup_seqZ. lia. }
  exists ki, kj. split_and!; [done..|].
  eapply (StronglySorted_lookup _ _ _ _ _ _ Hs); [|exact Eki|exact Ekj]. lia.
Qed.

Lemma chain_range_total {K : Type} (Q : Z → K → Prop) lo n keys i :
  Forall2 Q (seqZ lo n) keys → lo ≤ i < lo + n → ∃ ki, Q i ki ∧ zget keys (i - lo) = Some ki.
Proof.
  intros HQ Hi. destruct (Forall2_lookup_l _ _ _ (Z.to_nat (i - lo)) i HQ) as (ki & Eki & HQi).
  { apply lookup_seqZ. lia. }
  exists ki. split; [done|]. unfold zget. destruct (Z.leb_spec 0 (i - lo)); [done|lia].
Qed.

Lemma key_step_chain read_key d prev x st :
  key_step read_key d prev x = Ok st →
  ∃ k, st = Some k ∧ read_key x = Ok k ∧ ∀ p, prev = Some p → lex_leb p k = true.
Proof.
  unfold key_step. intros H. apply bind_Ok in H as (k & Hk & H).
  apply bind_Ok in H as ([] & Hp & H). injection H as <-.
  exists k. split_and!; [done..|]. intros p ->. by apply expect_Ok in Hp.
Qed.

Lemma no_panic_key_step read_key d prev x : no_panic (read_key x) → no_panic (key_step read_key d prev x).
Proof. intros Hk. unfold key_step. apply no_panic_bind; [done|]. intros k _. np. Qed.

(** ** Groups *)

Lemma sum_snoc {A : Type} (f : A → Z) l x :
  foldr Z.add 0 (f <$> (l ++ [x])) = foldr Z.add 0 (f <$> l) + f x.
Proof. induction l as [|y l IH]; cbn in *; lia. Qed.

Lemma Forall2_seqZ_r {A : Type} (Q : Z → A → Prop) n es g e :
  Forall2 Q (seqZ 0 n) es → zget es g = Some e → Q g e.
Proof.
  intros Hes He. unfold zget in He. destruct (Z.leb_spec 0 g); [|done].
  destruct (Forall2_lookup_r _ _ _ _ _ Hes He) as (g' & Hg' & Hok).
  apply lookup_seqZ in Hg' as [-> _]. by rewrite Z2Nat.id in Hok by lia.
Qed.

Lemma div_ceil_256 c : 0 < c → 256 * (div_ceil c 256 - 1) < c ≤ 256 * div_ceil c 256.
Proof. intros Hc. unfold div_ceil. Z.to_euclidean_division_equations. lia. Qed.

(** The records of a group and the blocks that cover it. *)
Record group_ok (s : SegmentReader) (gi idx : nat) (n bc g : Z) (e : GroupIndexView) : Prop := {
  gk_view : group_index_view (file s gi) g = Some e;
  gk_range : 0 ≤ gv_offset e ∧ 0 ≤ gv_count e ∧ gv_offset e + gv_count e ≤ n;
  gk_empty : gv_count e = 0 → gv_block_index_offset e = -1;
  gk_blocks : 0 < gv_count e →
    0 ≤ gv_block_index_offset e ∧ gv_block_index_offset e + div_ceil (gv_count e) 256 ≤ bc ∧
    ∀ k, 0 ≤ k < div_ceil (gv_count e) 256 → ∃ recs,
      zlen recs = Z.min (gv_count e - k * 256) 256 ∧
      reads_all (file s idx) n (gv_offset e + k * 256) recs ∧
      block_ok s (gv_block_index_offset e + k) (gv_offset e + k * 256) recs
}.

Section groups.
Context (s : SegmentReader) (gi idx : nat) (n bc : Z) (Hs : postings_ok s idx n).

Lemma block_bounds acc count k :
  0 ≤ acc → acc + count ≤ n → 0 < count → 0 ≤ k < div_ceil count 256 →
  0 ≤ Z.min (count - k * 256) 256 ∧ acc + k * 256 + Z.min (count - k * 256) 256 ≤ n.
Proof. intros Ha Hn Hc Hk. pose proof (div_ceil_256 _ Hc). lia. Qed.

Lemma no_panic_group_step st g :
  0 ≤ st.1 → no_panic (validate_group_step s gi n idx bc st g).
Proof.
  destruct st as [acc cur]. cbn. intros Hacc. unfold validate_group_step.
  apply no_panic_bind; [np|intros off _]. apply no_panic_bind; [np|intros [] _].
  apply no_panic_bind; [np|intros count _]. apply no_panic_bind; [np|intros [] Hc0].
  apply no_panic_bind; [np|intros [] Hc]. apply no_panic_bind; [np|intros blk _].
  apply expect_Ok in Hc0, Hc. zify_bools.
  destruct (Z.eqb_spec count 0); [np|].
  apply no_panic_bind; [|intros _ _].
  { apply no_panic_fold_r_any. intros t x. apply no_panic_key_step. unfold group_key. np. }
  apply no_panic_bind; [np|intros [] _].
  apply no_panic_bind; [|done]. apply no_panic_for_each. intros k Hk%elem_of_seqZ_0.
  apply no_panic_bind; [np|intros [] _].
  destruct (block_bounds acc count k) as [Hk0 Hk1]; [lia..|].
  destruct (reads_all_total s idx n (acc + k * 256) (Z.min (count - k * 256) 256)) as (recs & Hl & Hr & Hok);
    [apply Hs|lia..|].
  rewrite <- Hl. apply (no_panic_validate_block s idx n); try done; [lia|]. by rewrite Hl.
Qed.

Lemma group_step_Ok st g st' :
  0 ≤ st.1 ≤ n → 0 ≤ st.2 → validate_group_step s gi n idx bc st g = Ok st' →
  st.1 ≤ st'.1 ≤ n ∧ 0 ≤ st'.2 ∧
  ∃ e, group_ok s gi idx n bc g e ∧ gv_offset e = st.1 ∧ st'.1 = st.1 + gv_count e.
Proof.
  destruct st as [acc cur]. cbn [fst snd]. intros Hacc Hcur. unfold validate_group_step. intros H.
  apply bind_Ok in H as (off & Hoff%req_i64_Ok & H). apply bind_Ok in H as ([] & Ho%expect_Ok & H).
  apply bind_Ok in H as (count & Hcount%req_i32_Ok & H). apply bind_Ok in H as ([] & Hc0%expect_Ok & H).
  apply bind_Ok in H as ([] & Hc%expect_Ok & H). apply bind_Ok in H as (blk & Hblk%req_i32_Ok & H).
  zify_bools.
  assert (off = acc) as ->.
  { destruct (po_cols _ _ _ Hs) as (_ & _ & ? & ?). apply read_i64_inS in Hoff. unfold inS in Hoff.
    unfold as_u64 in *. rewrite !wrapU_id in * by (unfold inU; lia). done. }
  assert (group_index_view (file s gi) g = Some (mkGroupIndexView acc count blk)) as Hview.
  { unfold group_index_view, GROUP_INDEX_ENTRY_SIZE. by rewrite Hoff, Hcount, Hblk. }
  destruct (Z.eqb_spec count 0) as [->|Hne].
  - apply bind_Ok in H as ([] & He%expect_Ok & H). injection H as <-. cbn. zify_bools.
    split_and!; [lia..|]. exists (mkGroupIndexView acc 0 blk). split_and!; [|done|done].
    split; cbn [gv_offset gv_count gv_block_index_offset]; [done|lia|done|lia].
  - apply bind_Ok in H as (? & _ & H). apply bind_Ok in H as ([] & Hb%expect_Ok & H).
    apply bind_Ok in H as ([] & Hblocks & H). injection H as <-. zify_bools.
    assert (0 < count) as Hpos by lia. pose proof (div_ceil_256 _ Hpos). cbn [fst snd].
    split_and!; [lia..|]. exists (mkGroupIndexView acc count blk). split_and!; [|done|done].
    assert (∀ k, 0 ≤ k < div_ceil count 256 → cur + k < bc ∧ ∃ recs,
      zlen recs = Z.min (count - k * 256) 256 ∧ reads_all (file s idx) n (acc + k * 256) recs ∧
      block_ok s (cur + k) (acc + k * 256) recs) as Hk.
    { intros k Hk. destruct (block_bounds acc count k) as [Hk0 Hk1]; [lia..|].
      eapply (for_each_seqZ_Ok _ _ _ _ Hblocks) in Hk as Hv.
      apply bind_Ok in Hv as ([] & Hlt%expect_Ok & Hv). zify_bools. split; [lia|].
      destruct (reads_all_total s idx n (acc + k * 256) (Z.min (count - k * 256) 256))
        as (recs & Hl & Hr & Hok); [apply Hs|lia..|].
      exists recs. split_and!; [done..|]. rewrite <- Hl in Hv.
      eapply (validate_block_Ok s idx n); try done; [lia|]. by rewrite Hl. }
    split; cbn [gv_offset gv_count gv_block_index_offset]; [done|lia|lia|]. intros _. subst blk. split_and!; [done| |].
    + destruct (Hk (div_ceil count 256 - 1)) as [? _]; [lia|]. lia.
    + intros k Hk'. by apply Hk.
Qed.

Lemma no_panic_role_groups count cur :
  0 ≤ cur → no_panic (validate_role_groups s gi count n idx cur bc).
Proof.
  intros Hcur. unfold validate_role_groups. apply no_panic_bind; [|intros; np].
  apply (no_panic_fold_r (λ _ st, 0 ≤ st.1 ≤ n ∧ 0 ≤ st.2)).
  { cbn. destruct (po_cols _ _ _ Hs) as (_ & ? & _). lia. }
  intros pre g rest st _ [H1 H2]. split; [apply no_panic_group_step; lia|].
  intros st' Hst. apply group_step_Ok in Hst; [|done..]. lia.
Qed.

(** Every group of a validated role is well-formed, and the groups tile the postings. *)
Lemma role_groups_Ok count cur cur' :
  0 ≤ cur → 0 ≤ count → validate_role_groups s gi count n idx cur bc = Ok cur' →
  0 ≤ cur' ∧ ∃ es, zlen es = count ∧
    (∀ g e, zget es g = Some e → group_ok s gi idx n bc g e) ∧
    n = foldr Z.add 0 (gv_count <$> es).
Proof.
  intros Hcur Hcount. unfold validate_role_groups. intros H.
  apply bind_Ok in H as (st & Hst & H). apply bind_Ok in H as ([] & Ht%expect_Ok & H).
  injection H as <-. zify_bools.
  apply (fold_r_invariant (λ pre st, 0 ≤ st.1 ≤ n ∧ 0 ≤ st.2 ∧
    ∃ es, Forall2 (λ g e, group_ok s gi idx n bc g e) pre es ∧
      st.1 = foldr Z.add 0 (gv_count <$> es))) in Hst as (_ & ? & es & Hes & Hsum).
  - split; [done|]. exists es. split_and!.
    + apply Forall2_length in Hes. unfold zlen. rewrite <- Hes, length_seqZ. lia.
    + intros g e He. by eapply Forall2_seqZ_r in Hes.
    + by rewrite <- Hsum.
  - split; [|split; [done|]]. { cbn. destruct (po_cols _ _ _ Hs) as (_ & ? & _). lia. }
    exists []. by split; [constructor|].
  - intros pre g st1 st2 (H1 & H2 & es & Hes & Hsum) Hstep.
    apply group_step_Ok in Hstep as (H3 & H4 & e & He & Ho & Hc); [|done..].
    split_and!; [lia..|]. exists (es ++ [e]). split.
    + apply Forall2_app; [done|]. constructor; [exact He|constructor].
    + by rewrite sum_snoc, Hc, Hsum.
Qed.
End groups.

(** ** Documents *)

(** What the four columns of the document postings say of record [r]. *)
Record doc_reads_as (s : SegmentReader) (n r : Z) (rec : DocRecord) : Prop := {
  da_record : doc_record s r = Some rec;
  da_symbol : read_i32 (file s DOC_POSTINGS) (8 + 4 * r) = Some (dr_symbol_ord rec);
  da_start : read_i32 (file s DOC_POSTINGS) (8 + 4 * n + 4 * r) = Some (dr_packed_start rec);
  da_end : read_i32 (file s DOC_POSTINGS) (8 + 8 * n + 4 * r) = Some (dr_packed_end rec);
  da_flags : read_i32 (file s DOC_POSTINGS) (8 + 12 * n + 4 * r) = Some (dr_flags rec);
}.

Definition doc_record_ok (s : SegmentReader) (rec : DocRecord) : Prop :=
  0 ≤ dr_symbol_ord rec < symbol_count s ∧ as_u32 (dr_packed_start rec) ≤ as_u32 (dr_packed_end rec).

Definition doc_records_ok (s : SegmentReader) (n : Z) : Prop :=
  ∀ r, 0 ≤ r < n → ∃ rec, doc_reads_as s n r rec ∧ doc_record_ok s rec.

Lemma doc_record_total s n r :
  cols_ok (file s DOC_POSTINGS) 4 n → 0 ≤ r < n → ∃ rec, doc_reads_as s n r rec.
Proof.
  intros Hf Hr.
  destruct (col_read _ 4 n 0 r Hf) as (v0 & E0 & E0' & _); [lia..|].
  destruct (col_read _ 4 n 1 r Hf) as (v1 & E1 & E1' & _); [lia..|].
  destruct (col_read _ 4 n 2 r Hf) as (v2 & E2 & E2' & _); [lia..|].
  destruct (col_read _ 4 n 3 r Hf) as (v3 & E3 & E3' & _); [lia..|].
  exists (mkDocRecord v0 v1 v2 v3). destruct Hf as [Hn _].
  split; cbn [dr_symbol_ord dr_packed_start dr_packed_end dr_flags].
  - unfold doc_record. rewrite Hn. cbn -[Z.mul]. rewrite E0, E1, E2, E3. done.
  - rewrite <- E0'. f_equal; lia.
  - rewrite <- E1'. f_equal; lia.
  - rewrite <- E2'. f_equal; lia.
  - rewrite <- E3'. f_equal; lia.
Qed.

Lemma no_panic_doc_records s n : no_panic (validate_doc_records s n).
Proof. unfold validate_doc_records. apply no_panic_for_each. intros r _. np. Qed.

Lemma validate_doc_records_Ok s n u :
  cols_ok (file s DOC_POSTINGS) 4 n → validate_doc_records s n = Ok u → doc_records_ok s n.
Proof.
  intros Hc H r Hr. destruct (doc_record_total _ _ _ Hc Hr) as [rec Hrec].
  exists rec. split; [done|].
  unfold validate_doc_records in H. eapply for_each_seqZ_Ok in H; [|exact Hr]. checks.
  destruct Hrec as [_ Hd Hs He _].
  rewrite read_u32_of_i32, Hs in H2. rewrite read_u32_of_i32, He in H3.
  rewrite Hd in H0. simplify_eq/=. unfold doc_record_ok. lia.
Qed.

(** The start and end of record [r] of the document postings, unsigned. *)
Definition doc_start (s : SegmentReader) (n r : Z) (v : Z) : Prop :=
  read_u32 (file s DOC_POSTINGS) (8 + 4 * n + 4 * r) = Some v.
Definition doc_end (s : SegmentReader) (n r : Z) (v : Z) : Prop :=
  read_u32 (file s DOC_POSTINGS) (8 + 8 * n + 4 * r) = Some v.

(** An interval block of [count] records from [off]: its lines bound theirs. *)
Record interval_ok (s : SegmentReader) (n idx off count : Z) : Prop := {
  ik_view : ∃ fl ll, interval_entry s idx = Some (mkIntervalView fl ll off count) ∧
    (∀ v, doc_start s n off v → fl = unpack_line v) ∧
    (∀ j v, 0 ≤ j < count → doc_end s n (off + j) v → unpack_line v ≤ ll) ∧
    (∃ j v, 0 ≤ j < count ∧ doc_end s n (off + j) v ∧ ll = unpack_line v);
}.

Record doc_ok (s : SegmentReader) (n ic d : Z) (e : DocEntryView) : Prop := {
  dk_view : doc_entry s d = Some e;
  dk_uri : ∃ bs uri, from_utf8 bs = Some uri ∧ uri_of s d = Some uri;
  dk_target : ∃ t, target_ord_of_doc s d = Some t ∧ 0 ≤ t < target_count s;
  dk_range : 0 ≤ dv_postings_offset e ∧ 0 ≤ dv_postings_count e ∧
             dv_postings_offset e + dv_postings_count e ≤ n;
  dk_empty : dv_postings_count e = 0 → dv_interval_first e = -1 ∧ dv_interval_count e = 0;
  dk_blocks : 0 < dv_postings_count e →
    0 ≤ dv_interval_first e ∧ dv_interval_count e = div_ceil (dv_postings_count e) 256 ∧
    dv_interval_first e + dv_interval_count e ≤ ic ∧
    (∀ k, 0 ≤ k < dv_interval_count e →
       interval_ok s n (dv_interval_first e + k) (dv_postings_offset e + k * 256)
         (Z.min (dv_postings_count e - k * 256) 256)) ∧
    (∀ i j v w, dv_postings_offset e ≤ i → i < j →
       j < dv_postings_offset e + dv_postings_count e →
       doc_start s n i v → doc_start s n j w → v ≤ w);
}.

(** The sizes of the document index. *)
Record doc_index_ok (s : SegmentReader) (n ic ub : Z) : Prop := {
  di_cols : cols_ok (file s DOC_POSTINGS) 4 n;
  di_records : doc_records_ok s n;
  di_count : 0 ≤ doc_count s;
  di_intervals : read_i64 (file s DOC_INDEX) 8 = Some ic;
  di_ic : 0 ≤ ic;
  di_size : zlen (file s DOC_INDEX) = 24 + doc_count s * 48 + ic * 24 + ub;
  di_fits : zlen (file s DOC_INDEX) < 2 ^ 63;
  di_ub : 0 ≤ ub;
}.

Lemma as_usize_nonneg v : 0 ≤ v < 2 ^ 63 → as_usize v = v.
Proof. intros H. apply wrapU_id. unfold inU. lia. Qed.
Lemma as_i32_line v : inU 32 v → as_i32 (unpack_line v) = unpack_line v.
Proof.
  intros Hv. apply wrapS_id; [done|]. rewrite unpack_line_eq. unfold inU, inS in *.
  Z.to_euclidean_division_equations. lia.
Qed.
Lemma unpack_line_range v : inU 32 v → 0 ≤ unpack_line v ≤ LINE_MAX.
Proof.
  intros Hv. rewrite unpack_line_eq, LINE_MAX_eq. unfold inU in *.
  Z.to_euclidean_division_equations. lia.
Qed.

(** The running maximum of the end lines. *)
Lemma last_line_Ok f n off count m :
  0 < count →
  fold_r (λ last_line j,
      pe ← req_u32 f (8 + 8 * n + 4 * (off + j)) DOC_POSTINGS_FILE;
      Ok (Z.max last_line (unpack_line pe))) 0 (seqZ 0 count) = Ok m →
  (∀ j v, 0 ≤ j < count → read_u32 f (8 + 8 * n + 4 * (off + j)) = Some v → unpack_line v ≤ m) ∧
  ∃ j v, 0 ≤ j < count ∧ read_u32 f (8 + 8 * n + 4 * (off + j)) = Some v ∧ m = unpack_line v.
Proof.
  intros Hc H.
  apply (fold_r_invariant (λ pre m,
    (∀ j v, j ∈ pre → read_u32 f (8 + 8 * n + 4 * (off + j)) = Some v → unpack_line v ≤ m) ∧
    (pre = [] ∧ m = 0 ∨ ∃ j v, j ∈ pre ∧ read_u32 f (8 + 8 * n + 4 * (off + j)) = Some v ∧
      m = unpack_line v))) in H as [Hall Hex].
  - split; [intros j v Hj; apply Hall; by apply elem_of_seqZ_0|].
    destruct Hex as [[Hnil _]|(j & v & Hj%elem_of_seqZ_0 & ?)]; [|eauto].
    apply (f_equal length) in Hnil. rewrite length_seqZ in Hnil. cbn in Hnil. lia.
  - split; [by intros j v ?%elem_of_nil|by left].
  - intros pre x t t' [Hall Hex] Ht. apply bind_Ok in Ht as (pe & Hpe%req_u32_Ok & Ht).
    injection Ht as <-. split.
    + intros j v [Hj| ->%list_elem_of_singleton]%elem_of_app Hv.
      * specialize (Hall _ _ Hj Hv). lia.
      * simplify_eq/=. lia.
    + right. destruct Hex as [[-> ->]|(j & v & Hj & Hv & ->)].
      * exists x, pe. split_and!; [set_solver|done|].
        apply read_u32_Some in Hpe as (_ & _ & Hpe). pose proof (unpack_line_range _ Hpe). lia.
      * destruct (Z.max_spec (unpack_line v) (unpack_line pe)) as [[_ ->]|[_ ->]].
        -- exists x, pe. split_and!; [set_solver|done..].
        -- exists j, v. split_and!; [set_solver|done..].
Qed.

Section docs.
Context (s : SegmentReader) (n ic ub : Z) (Hs : doc_index_ok s n ic ub).

Lemma interval_view_eq i fl ll off cnt :
  0 ≤ i → i < ic →
  read_i32 (file s DOC_INDEX) (24 + doc_count s * 48 + i * 24) = Some fl →
  read_i32 (file s DOC_INDEX) (24 + doc_count s * 48 + i * 24 + 4) = Some ll →
  read_i64 (file s DOC_INDEX) (24 + doc_count s * 48 + i * 24 + 8) = Some off →
  read_i32 (file s DOC_INDEX) (24 + doc_count s * 48 + i * 24 + 16) = Some cnt →
  interval_entry s i = Some (mkIntervalView fl ll off cnt).
Proof.
  intros H0 Hi E1 E2 E3 E4. unfold interval_entry, DOC_ENTRY_SIZE, INTERVAL_ENTRY_SIZE.
  rewrite as_usize_nonneg by (destruct Hs; nia). by rewrite E1, E2, E3, E4.
Qed.

Lemma validate_interval_Ok acc count cur k u :
  0 ≤ acc → acc + count ≤ n → 0 < count → 0 ≤ cur → 0 ≤ k < div_ceil count 256 →
  validate_interval (file s DOC_INDEX) (file s DOC_POSTINGS) (24 + doc_count s * 48) ic
    (8 + 4 * n) (8 + 8 * n) acc count cur k = Ok u →
  cur + k < ic ∧ interval_ok s n (cur + k) (acc + k * 256) (Z.min (count - k * 256) 256).
Proof.
  intros Ha Hn Hc Hcur Hk. unfold validate_interval. intros H.
  pose proof (div_ceil_256 _ Hc).
  apply bind_Ok in H as ([] & Hlt%expect_Ok & H).
  apply bind_Ok in H as (off & Hoff%req_i64_Ok & H). apply bind_Ok in H as ([] & Hoff1%expect_Ok & H).
  apply bind_Ok in H as (cnt & Hcnt%req_i32_Ok & H). apply bind_Ok in H as ([] & Hcnt1%expect_Ok & H).
  apply bind_Ok in H as (ps & Hps%req_u32_Ok & H). apply bind_Ok in H as (m & Hm & H).
  apply bind_Ok in H as (fl & Hfl%req_i32_Ok & H). apply bind_Ok in H as ([] & Hfl1%expect_Ok & H).
  apply bind_Ok in H as (ll & Hll%req_i32_Ok & H). apply expect_Ok in H. zify_bools.
  apply last_line_Ok in Hm as [Hmax (jm & vm & Hjm & Hvm & ->)]; [|lia].
  split; [lia|]. split. pose proof Hps as (_ & _ & Hpsr)%read_u32_Some.
  pose proof Hvm as (_ & _ & Hvmr)%read_u32_Some.
  rewrite (as_i32_line ps) in Hfl1 by done. rewrite (as_i32_line vm) in H by done.
  exists fl, ll. split_and!.
  - eapply interval_view_eq; [lia|lia|done|done| |].
    + rewrite Hoff. f_equal. destruct (di_cols _ _ _ _ Hs) as (_ & _ & ? & ?).
      apply wrapU64_inv; [by eapply read_i64_inS|done|lia].
    + rewrite Hcnt. f_equal. apply wrapU64_inv; [|done|lia].
      apply read_i32_Some in Hcnt as (_ & _ & ?). unfold inS in *. lia.
  - intros v Hv. unfold doc_start in Hv. simplify_eq/=. done.
  - intros j v Hj Hv. rewrite H. by eapply Hmax.
  - exists jm, vm. split; [exact Hjm|]. by split.
Qed.

Lemma doc_step_Ok st d st' :
  0 ≤ st.1 ≤ n → 0 ≤ st.2 → 0 ≤ d →
  validate_doc_step s (doc_count s) ic ub n st d = Ok st' →
  st.1 ≤ st'.1 ≤ n ∧ 0 ≤ st'.2 ∧
  ∃ e, doc_ok s n ic d e ∧ dv_postings_offset e = st.1 ∧ st'.1 = st.1 + dv_postings_count e.
Proof.
  destruct st as [acc cur]. cbn [fst snd]. intros Hacc Hcur Hd. unfold validate_doc_step. intros H.
  apply bind_Ok in H as (uo & Huo%req_i32_Ok & H). apply bind_Ok in H as (ul & Hul%req_i32_Ok & H).
  apply bind_Ok in H as (us & Hus & H). apply str_slice_Ok in Hus as (Hu0 & Hl0 & Hub & Hus).
  apply bind_Ok in H as (uri & Huri & H).
  assert (from_utf8 us = Some uri) as Hutf by (unfold ok_or in Huri; by destruct (from_utf8 us); simplify_eq).
  apply bind_Ok in H as (tgt & Htgt%req_i32_Ok & H). apply bind_Ok in H as ([] & Htgt1%check_ord_Ok & H).
  apply bind_Ok in H as (ifi & Hif%req_i32_Ok & H). apply bind_Ok in H as (off & Hoff%req_i64_Ok & H).
  apply bind_Ok in H as ([] & Ho%expect_Ok & H). apply bind_Ok in H as (count & Hcount%req_i32_Ok & H).
  apply bind_Ok in H as ([] & Hc0%expect_Ok & H). apply bind_Ok in H as ([] & Hc%expect_Ok & H).
  apply bind_Ok in H as (ivc & Hivc%req_i32_Ok & H). zify_bools.
  assert (off = acc) as ->.
  { destruct (di_cols _ _ _ _ Hs) as (_ & _ & ? & ?). apply read_i64_inS in Hoff. unfold inS in Hoff.
    unfold as_u64 in *. rewrite !wrapU_id in * by (unfold inU; lia). done. }
  assert (doc_entry s d = Some (mkDocEntryView ifi acc count ivc)) as Hview.
  { unfold doc_entry, doc_entry_base, DOC_ENTRY_SIZE. by rewrite Hif, Hoff, Hcount, Hivc. }
  assert (∃ bs uri, from_utf8 bs = Some uri ∧ uri_of s d = Some uri) as Huri'.
  { exists us, uri. split; [done|]. destruct Hs.
    pose proof Huo as (_ & _ & Huor)%read_i32_Some. pose proof Hul as (_ & _ & Hulr)%read_i32_Some.
    unfold inS in Huor, Hulr.
    unfold uri_of, uri_blob_start, interval_count_total, blob_str, doc_entry_base, DOC_ENTRY_SIZE,
      INTERVAL_ENTRY_SIZE.
    rewrite di_intervals0. cbn -[Z.mul]. rewrite Huo, Hul. cbn -[Z.mul].
    rewrite !as_usize_nonneg by lia. rewrite Hus. cbn. by rewrite Hutf. }
  assert (∃ t, target_ord_of_doc s d = Some t ∧ 0 ≤ t < target_count s) as Htgt'.
  { exists tgt. split; [done|lia]. }
  destruct (Z.eqb_spec count 0) as [->|Hne].
  - apply bind_Ok in H as ([] & He%expect_Ok & H). injection H as <-. cbn. zify_bools.
    split_and!; [lia..|]. exists (mkDocEntryView ifi acc 0 ivc). split_and!; [|done|done].
    split; cbn [dv_interval_first dv_postings_offset dv_postings_count dv_interval_count];
      [done|done|done|lia|done|lia].
  - apply bind_Ok in H as ([] & Hi%expect_Ok & H). apply bind_Ok in H as (? & Hsorted & H).
    apply bind_Ok in H as ([] & Hn%expect_Ok & H). apply bind_Ok in H as ([] & Hblocks & H).
    injection H as <-. zify_bools. subst ifi ivc.
    assert (0 < count) as Hpos by lia. pose proof (div_ceil_256 _ Hpos). cbn [fst snd].
    split_and!; [lia..|]. exists (mkDocEntryView cur acc count (div_ceil count 256)).
    split_and!; [|done|done].
    split; cbn [dv_interval_first dv_postings_offset dv_postings_count dv_interval_count];
      [done|done|done|lia|lia|]. intros _.
    assert (∀ k, 0 ≤ k < div_ceil count 256 → cur + k < ic ∧
      interval_ok s n (cur + k) (acc + k * 256) (Z.min (count - k * 256) 256)) as Hk.
    { intros k Hk. eapply (for_each_seqZ_Ok _ _ _ _ Hblocks) in Hk as Hv.
      eapply validate_interval_Ok; [lia|lia|lia|lia|done|exact Hv]. }
    split_and!; [done|done| | |].
    + destruct (Hk (div_ceil count 256 - 1)) as [? _]; [lia|]. lia.
    + intros k Hk'. by apply Hk.
    + intros i j v w Hi' Hij Hj Hv Hw.
      eapply (chain_sorted (λ a b, lex_leb a b = true) _ lex_leb_trans) in Hsorted
        as (keys & HQ & Hss); [|intros pv px pst; apply key_step_chain].
      destruct (chain_range _ _ _ _ _ i j HQ Hss) as (ki & kj & Hki & Hkj & Hle); [lia..|].
      apply bind_Ok in Hki as (si & Hsi%req_u32_Ok & Hki). apply bind_Ok in Hki as (ei & _ & Hki).
      apply bind_Ok in Hkj as (sj & Hsj%req_u32_Ok & Hkj). apply bind_Ok in Hkj as (ej & _ & Hkj).
      unfold doc_start in Hv, Hw. assert (si = v) as -> by congruence.
      assert (sj = w) as -> by congruence. injection Hki as <-. injection Hkj as <-.
      unfold lex_leb in Hle. cbn [lex_cmp] in Hle. destruct (Z.compare_spec v w); [lia|lia|done].
Qed.

Lemma no_panic_doc_step st d : no_panic (validate_doc_step s (doc_count s) ic ub n st d).
Proof.
  destruct st as [acc cur]. unfold validate_doc_step.
  do 13 (apply no_panic_bind; [solve [auto with no_panic nocore]|intros ? _]).
  destruct (_ =? 0); [np|].
  apply no_panic_bind; [np|intros _ _].
  apply no_panic_bind; [|intros _ _].
  { apply no_panic_fold_r_any. intros t x. apply no_panic_key_step. np. }
  apply no_panic_bind; [np|intros _ _].
  apply no_panic_bind; [|done]. apply no_panic_for_each. intros k _. unfold validate_interval.
  do 6 (apply no_panic_bind; [solve [auto with no_panic nocore]|intros ? _]).
  apply no_panic_bind; [|intros; np]. apply no_panic_fold_r_any. intros t x. np.
Qed.

Lemma no_panic_doc_index : no_panic (validate_doc_index s (doc_count s) ic ub n).
Proof.
  unfold validate_doc_index. apply no_panic_bind; [|intros; np].
  apply no_panic_fold_r_any. intros. apply no_panic_doc_step.
Qed.

(** Every document entry of a validated segment is well-formed, and the documents tile the
    postings. *)
Lemma doc_index_Ok u :
  validate_doc_index s (doc_count s) ic ub n = Ok u →
  ∃ es, zlen es = doc_count s ∧ (∀ d e, zget es d = Some e → doc_ok s n ic d e) ∧
    n = foldr Z.add 0 (dv_postings_count <$> es).
Proof.
  unfold validate_doc_index. intros H.
  apply bind_Ok in H as (st & Hst & H). apply bind_Ok in H as ([] & Ht%expect_Ok & _). zify_bools.
  set (P := λ (pre : list Z) (st : Z * Z), Forall (λ d, 0 ≤ d) pre → 0 ≤ st.1 ≤ n ∧ 0 ≤ st.2 ∧
    ∃ es, Forall2 (λ d e, doc_ok s n ic d e) pre es ∧
      st.1 = foldr Z.add 0 (dv_postings_count <$> es)).
  assert (P (seqZ 0 (doc_count s)) st) as HP.
  { eapply (fold_r_invariant P); [| |exact Hst]; unfold P.
    - intros _. split; [|split; [done|]]. { cbn. destruct (di_cols _ _ _ _ Hs) as (_ & ? & _). lia. }
      exists []. by split; [constructor|].
    - intros pre g st1 st2 IH Hstep [Hpre [Hg _]%Forall_cons]%Forall_app.
      destruct (IH Hpre) as (H1 & H2 & es & Hes & Hsum).
      apply doc_step_Ok in Hstep as (H3 & H4 & e & He & Ho & Hc); [|done..].
      split_and!; [lia..|]. exists (es ++ [e]). split.
      + apply Forall2_app; [done|]. constructor; [exact He|constructor].
      + by rewrite sum_snoc, Hc, Hsum. }
  destruct HP as (_ & _ & es & Hes & Hsum).
  { apply Forall_forall. intros d Hd%elem_of_seqZ_0. lia. }
  exists es. split_and!.
  - apply Forall2_length in Hes. pose proof (di_count _ _ _ _ Hs). unfold zlen.
    rewrite <- Hes, length_seqZ. lia.
  - intros g e He. by eapply Forall2_seqZ_r in Hes.
  - by rewrite <- Hsum.
Qed.
End docs.

(** ** Symbols, metadata and search rows *)

(** The sizes of the symbol index. *)
Record symbol_index_ok (s : SegmentReader) (blob : Z) : Prop := {
  si_counts : 0 ≤ symbol_count s ∧ 0 ≤ target_count s ∧ 0 ≤ blob;
  si_size : zlen (file s SYMBOL_INDEX) = 24 + symbol_count s * 32 + target_count s * 8 + blob;
  si_fits : zlen (file s SYMBOL_INDEX) < 2 ^ 63;
}.

Definition opt_ord (v count : Z) : Prop := v = -1 ∨ 0 ≤ v < count.

Record symbol_ok (s : SegmentReader) (i : Z) (str : bytes) : Prop := {
  sy_bytes : symbol_bytes s i = Some str;
  sy_str : ∃ u, from_utf8 str = Some u ∧ semantic_symbol_of s i = Some u;
  sy_view : ∃ v, symbol_view s i = Some v ∧ opt_ord (sv_ref_group_ord v) (ref_group_count s) ∧
    opt_ord (sv_rename_group_ord v) (rename_group_count s) ∧
    opt_ord (sv_def_target_ord v) (target_count s)
}.

Lemma no_panic_symbol_dict s blob : no_panic (validate_symbol_dict s blob).
Proof.
  unfold validate_symbol_dict. apply no_panic_bind; [|intros; np].
  apply no_panic_fold_r_any. intros prev i. unfold validate_symbol_step. np.
Qed.

Lemma bytes_ltb_trans a b c : bytes_ltb a b = true → bytes_ltb b c = true → bytes_ltb a c = true.
Proof.
  unfold bytes_ltb, lex_ltb. intros H1 H2.
  destruct (lex_cmp (byte_val <$> a) (byte_val <$> b)) eqn:E1; try done.
  destruct (lex_cmp (byte_val <$> b) (byte_val <$> c)) eqn:E2; try done.
  by rewrite (lex_cmp_lt_trans _ _ _ E1 E2).
Qed.

Lemma symbol_step_chain s blob prev i st :
  symbol_index_ok s blob →
  validate_symbol_step s (24 + symbol_count s * 32 + target_count s * 8) blob prev i = Ok st →
  ∃ k, st = Some k ∧ (0 ≤ i < symbol_count s → symbol_ok s i k) ∧
       ∀ p, prev = Some p → bytes_ltb p k = true.
Proof.
  intros [Hcounts Hsize Hfits]. unfold validate_symbol_step. intros H.
  apply bind_Ok in H as (off & Hoff%req_i32_Ok & H). apply bind_Ok in H as (len & Hlen%req_i32_Ok & H).
  apply bind_Ok in H as (str & Hstr & H). apply str_slice_Ok in Hstr as (H0 & H1 & H2 & Hstr).
  apply bind_Ok in H as (u & Hu & H).
  assert (from_utf8 str = Some u) as Hutf by (unfold ok_or in Hu; destruct (from_utf8 str); congruence).
  clear Hu. apply bind_Ok in H as ([] & Hprev & H).
  apply bind_Ok in H as (rg & Hrg%req_i32_Ok & H). apply bind_Ok in H as ([] & Hrg1%check_ord_opt_Ok & H).
  apply bind_Ok in H as (rn & Hrn%req_i32_Ok & H). apply bind_Ok in H as ([] & Hrn1%check_ord_opt_Ok & H).
  apply bind_Ok in H as (dt & Hdt%req_i32_Ok & H). apply bind_Ok in H as ([] & Hdt1%check_ord_opt_Ok & H).
  injection H as <-. exists str. split; [done|]. split.
  - intros Hi.
    assert (symbol_entry_base i = 24 + i * 32) as Hbase by (unfold symbol_entry_base, SYMBOL_ENTRY_SIZE; lia).
    assert (sym_blob_start s = 24 + symbol_count s * 32 + target_count s * 8) as Hblob by done.
    pose proof Hoff as (_ & _ & Hor)%read_i32_Some. pose proof Hlen as (_ & _ & Hlr)%read_i32_Some.
    unfold inS in Hor, Hlr.
    assert (symbol_bytes s i = Some str) as Hb.
    { unfold symbol_bytes. rewrite Hbase, Hblob, Hoff, Hlen. cbn -[Z.mul].
      rewrite !as_usize_nonneg by lia. done. }
    destruct (read_i64_inside (file s SYMBOL_INDEX) (24 + i * 32 + 8)) as (id & Hid & _); [lia..|].
    split; [done| |].
    + exists u. split; [done|]. unfold semantic_symbol_of, blob_str.
      rewrite Hbase, Hblob, Hoff, Hlen. cbn -[Z.mul]. rewrite !as_usize_nonneg by lia.
      rewrite Hstr. cbn. by rewrite Hutf.
    + exists (mkSymbolView id rg rn dt). split; [|by split_and!].
      unfold symbol_view. by rewrite Hbase, Hid, Hrg, Hrn, Hdt.
  - intros p ->. by apply expect_Ok in Hprev.
Qed.

(** The dictionary: the symbols in strictly increasing byte order. *)
Definition dict_ok (s : SegmentReader) (strs : list bytes) : Prop :=
  zlen strs = symbol_count s ∧ (∀ i str, zget strs i = Some str → symbol_ok s i str) ∧
  StronglySorted (λ a b, bytes_ltb a b = true) strs.

Lemma symbol_dict_Ok s blob u :
  symbol_index_ok s blob → validate_symbol_dict s blob = Ok u → ∃ strs, dict_ok s strs.
Proof.
  intros Hs H. unfold validate_symbol_dict in H. apply bind_Ok in H as (st & H & _).
  eapply (chain_sorted (λ a b, bytes_ltb a b = true) (λ i k, 0 ≤ i < symbol_count s → symbol_ok s i k)
            bytes_ltb_trans) in H as (strs & HQ & Hss).
  - exists strs. split_and!; [|intros i str Hi|done].
    + apply Forall2_length in HQ. destruct Hs as [? _ _]. unfold zlen. rewrite <- HQ, length_seqZ. lia.
    + pose proof HQ as Hl%Forall2_length. pose proof Hi as Hlt%zget_Some_lt.
      eapply Forall2_seqZ_r in HQ; [|done]. apply HQ. unfold zlen in Hlt. rewrite <- Hl, length_seqZ in Hlt. lia.
  - intros prev i st'. by apply symbol_step_chain.
Qed.

Lemma no_panic_check_strs f name base n blob len d : no_panic (check_strs f name base n blob len d).
Proof. unfold check_strs. apply no_panic_for_each. intros. np. Qed.

Lemma no_panic_meta_search s tmc tmb smc smb src srb :
  no_panic (validate_meta_and_search s tmc tmb smc smb src srb).
Proof.
  unfold validate_meta_and_search.
  apply no_panic_bind; [apply no_panic_for_each; intros; apply no_panic_check_strs|intros _ _].
  apply no_panic_bind; [apply no_panic_for_each; intros|intros _ _].
  { apply no_panic_bind; [apply no_panic_check_strs|intros _ _]. np. }
  apply no_panic_bind; [|intros; np]. apply no_panic_fold_r_any. intros. unfold validate_search_step. np.
Qed.

Record search_ok (s : SegmentReader) (i : Z) (nm : bytes) : Prop := {
  sk_row : ∃ sym, search_row s i = Some (from_utf8_lossy nm, sym) ∧ 0 ≤ sym < symbol_count s
}.

(** The sizes of the metadata and search sections. *)
Record meta_sizes_ok (s : SegmentReader) (tmb smb src srb : Z) : Prop := {
  me_target : zlen (file s TARGET_META) = 16 + target_count s * 48 + tmb ∧ 0 ≤ tmb;
  me_symbol : zlen (file s SYMBOL_META) = 16 + symbol_count s * 48 + smb ∧ 0 ≤ smb;
  me_search : zlen (file s SEARCH) = 16 + src * 16 + srb ∧ 0 ≤ srb ∧ 0 ≤ src;
  me_rows : read_i64 (file s SEARCH) 0 = Some src;
  me_fits : zlen (file s SEARCH) < 2 ^ 63;
}.

Lemma bytes_leb_trans a b c : bytes_leb a b = true → bytes_leb b c = true → bytes_leb a c = true.
Proof. unfold bytes_leb. apply lex_leb_trans. Qed.

Lemma read_str_eq f base blob off len bs :
  read_i32 f base = Some off → read_i32 f (base + 4) = Some len → 0 ≤ off → 0 ≤ len →
  slice f (blob + off) len = Some bs → read_str f base blob = from_utf8_lossy bs.
Proof.
  intros Hoff Hlen H0 H1 Hs. unfold read_str. rewrite Hoff, Hlen.
  change (default 0 (Some off)) with off. change (default 0 (Some len)) with len.
  pose proof Hoff as (_ & _ & Hor)%read_i32_Some. pose proof Hlen as (_ & _ & Hlr)%read_i32_Some.
  unfold inS in Hor, Hlr. rewrite !as_usize_nonneg by lia. by rewrite Hs.
Qed.

Lemma search_step_chain s tmb smb src srb prev i st :
  meta_sizes_ok s tmb smb src srb →
  validate_search_step s (file s SEARCH) (16 + src * 16) srb prev i = Ok st →
  ∃ k, st = Some k ∧ (0 ≤ i < src → search_ok s i k) ∧ ∀ p, prev = Some p → bytes_leb p k = true.
Proof.
  intros [_ _ Hse Hrows Hfits]. unfold validate_search_step. intros H.
  apply bind_Ok in H as (off & Hoff%req_i32_Ok & H). apply bind_Ok in H as (len & Hlen%req_i32_Ok & H).
  apply bind_Ok in H as (nm & Hnm & H). apply str_slice_Ok in Hnm as (H0 & H1 & H2 & Hnm).
  apply bind_Ok in H as ([] & Hprev & H).
  apply bind_Ok in H as (sym & Hsym%req_i32_Ok & H). apply bind_Ok in H as ([] & Hsym1%check_ord_Ok & H).
  injection H as <-. exists nm. split; [done|]. split.
  - intros Hi. split. exists sym. split; [|done].
    pose proof Hoff as (_ & _ & Hor)%read_i32_Some. pose proof Hlen as (_ & _ & Hlr)%read_i32_Some.
    unfold inS in Hor, Hlr. unfold search_row, search_row_count.
    rewrite Hrows. cbn -[Z.mul]. rewrite (as_usize_nonneg i), (as_usize_nonneg src) by lia.
    rewrite Hsym. cbn -[Z.mul]. by rewrite (read_str_eq _ _ _ _ _ _ Hoff Hlen H0 H1 Hnm).
  - intros p ->. by apply expect_Ok in Hprev.
Qed.

Record meta_ok (s : SegmentReader) (src : Z) : Prop := {
  mk_target t : 0 ≤ t < target_count s → is_Some (rd_target_meta s t);
  mk_symbol i : 0 ≤ i < symbol_count s →
    ∃ m, rd_symbol_meta s i = Some m ∧ opt_ord (def_doc_ord m) (doc_count s);
  mk_rows : search_row_count s = Some src;
  mk_search : ∃ names, zlen names = src ∧ (∀ i nm, zget names i = Some nm → search_ok s i nm) ∧
    StronglySorted (λ a b, bytes_leb a b = true) names
}.

Lemma meta_search_Ok s tmb smb src srb u :
  meta_sizes_ok s tmb smb src srb →
  validate_meta_and_search s (target_count s) tmb (symbol_count s) smb src srb = Ok u → meta_ok s src.
Proof.
  intros Hs. unfold validate_meta_and_search. intros H.
  apply bind_Ok in H as ([] & _ & H). apply bind_Ok in H as ([] & Hsm & H).
  apply bind_Ok in H as (st & Hse & _). split.
  - intros t Ht. destruct Hs as [[Htm ?] _ _ _ _]. unfold rd_target_meta, TARGET_META_ENTRY_SIZE.
    destruct (read_i64_inside (file s TARGET_META) (16 + t * 48 + 32)) as (v1 & -> & _); [lia..|].
    destruct (read_i64_inside (file s TARGET_META) (16 + t * 48 + 40)) as (v2 & -> & _); [lia..|].
    by eexists.
  - intros i Hi. destruct Hs as [_ [Hsz ?] _ _ _].
    eapply for_each_seqZ_Ok in Hsm; [|exact Hi]. apply bind_Ok in Hsm as ([] & _ & Hsm).
    apply bind_Ok in Hsm as (d & Hd%req_i32_Ok & Hsm%check_ord_opt_Ok).
    unfold rd_symbol_meta, SYMBOL_META_ENTRY_SIZE.
    destruct (read_i32_inside (file s SYMBOL_META) (16 + i * 48 + 24)) as (v1 & -> & _); [lia..|].
    destruct (read_u32_inside (file s SYMBOL_META) (16 + i * 48 + 28)) as (v2 & -> & _); [lia..|].
    destruct (read_i32_inside (file s SYMBOL_META) (16 + i * 48 + 32)) as (v3 & -> & _); [lia..|].
    destruct (read_i32_inside (file s SYMBOL_META) (16 + i * 48 + 36)) as (v4 & -> & _); [lia..|].
    rewrite Hd. eexists. split; [done|]. done.
  - apply Hs.
  - eapply (chain_sorted (λ a b, bytes_leb a b = true) (λ i k, 0 ≤ i < src → search_ok s i k)
              bytes_leb_trans) in Hse as (names & HQ & Hss).
    + exists names. pose proof HQ as Hl%Forall2_length. destruct Hs as [_ _ [_ [_ ?]] _ _].
      rewrite length_seqZ in Hl. split_and!; [unfold zlen; lia|intros i nm Hi|done].
      pose proof Hi as Hlt%zget_Some_lt. unfold zlen in Hlt.
      eapply Forall2_seqZ_r in HQ; [|done]. apply HQ. lia.
    + intros prev i st'. by eapply search_step_chain.
Qed.

(** ** A validated segment *)

(** The sizes found while validating. *)
Record sizes := mkSizes {
  z_sym_blob : Z; z_ref : Z; z_def : Z; z_rename : Z; z_doc : Z; z_ic : Z; z_ub : Z; z_bc : Z;
  z_tmb : Z; z_smb : Z; z_src : Z; z_srb : Z; z_c1 : Z; z_c2 : Z }.

(** Every mapped file is at most [isize::MAX] bytes long. *)
Definition files_fit (s : SegmentReader) : Prop := ∀ i, zlen (file s i) < 2 ^ 63.

(** The checks [validate_structure] has passed, one field per check it relies on. *)
Record checks_passed (s : SegmentReader) (z : sizes) : Prop := {
  ch_sym_count : count_at (file s SYMBOL_INDEX) 0 SYMBOL_INDEX_FILE "symbol_count" = Ok (symbol_count s);
  ch_target_count : count_at (file s SYMBOL_INDEX) 8 SYMBOL_INDEX_FILE "target_count" = Ok (target_count s);
  ch_sym_blob : count_at (file s SYMBOL_INDEX) 16 SYMBOL_INDEX_FILE "sym_blob_len" = Ok (z_sym_blob z);
  ch_sym_size : zlen (file s SYMBOL_INDEX) = 24 + symbol_count s * 32 + target_count s * 8 + z_sym_blob z;
  ch_words : rd_words s = target_word_count (target_count s);
  ch_ref : check_columns s REF_POSTINGS 6 = Ok (z_ref z);
  ch_def : check_columns s DEF_POSTINGS 6 = Ok (z_def z);
  ch_rename : check_columns s RENAME_POSTINGS 6 = Ok (z_rename z);
  ch_doc : check_columns s DOC_POSTINGS 4 = Ok (z_doc z);
  ch_sum : as_u64 (z_ref z + z_def z + z_rename z + z_doc z) = occurrence_count s;
  ch_gi_rename : check_group_index s RENAME_GROUP_INDEX (rename_group_count s) true = Ok tt;
  ch_dc : count_at (file s DOC_INDEX) 0 DOC_INDEX_FILE "doc_count" = Ok (doc_count s);
  ch_ic : count_at (file s DOC_INDEX) 8 DOC_INDEX_FILE "interval_count" = Ok (z_ic z);
  ch_ub : count_at (file s DOC_INDEX) 16 DOC_INDEX_FILE "uri_blob_len" = Ok (z_ub z);
  ch_di_size : zlen (file s DOC_INDEX) = 24 + doc_count s * 48 + z_ic z * 24 + z_ub z;
  ch_bc : count_at (file s BLOCK_INDEX) 0 BLOCK_INDEX_FILE "block_count" = Ok (z_bc z);
  ch_bi_size : zlen (file s BLOCK_INDEX) = 16 + z_bc z * (40 + 8 * rd_words s);
  ch_tmb : count_at (file s TARGET_META) 8 TARGET_META_FILE "target-meta blob" = Ok (z_tmb z);
  ch_tm_size : zlen (file s TARGET_META) = 16 + target_count s * 48 + z_tmb z;
  ch_smb : count_at (file s SYMBOL_META) 8 SYMBOL_META_FILE "symbol-meta blob" = Ok (z_smb z);
  ch_sm_size : zlen (file s SYMBOL_META) = 16 + symbol_count s * 48 + z_smb z;
  ch_src : count_at (file s SEARCH) 0 SEARCH_FILE "search rows" = Ok (z_src z);
  ch_srb : count_at (file s SEARCH) 8 SEARCH_FILE "search blob" = Ok (z_srb z);
  ch_se_size : zlen (file s SEARCH) = 16 + z_src z * 16 + z_srb z;
  ch_dict : validate_symbol_dict s (z_sym_blob z) = Ok tt;
  ch_ref_recs : validate_group_records s REF_POSTINGS (z_ref z) = Ok tt;
  ch_def_recs : validate_group_records s DEF_POSTINGS (z_def z) = Ok tt;
  ch_rename_recs : validate_group_records s RENAME_POSTINGS (z_rename z) = Ok tt;
  ch_doc_recs : validate_doc_records s (z_doc z) = Ok tt;
  ch_ref_groups : validate_role_groups s REF_GROUP_INDEX (ref_group_count s) (z_ref z) REF_POSTINGS 0
                    (z_bc z) = Ok (z_c1 z);
  ch_def_groups : validate_role_groups s DEF_GROUP_INDEX (ref_group_count s) (z_def z) DEF_POSTINGS
                    (z_c1 z) (z_bc z) = Ok (z_c2 z);
  ch_rename_groups : validate_role_groups s RENAME_GROUP_INDEX (rename_group_count s) (z_rename z)
                       RENAME_POSTINGS (z_c2 z) (z_bc z) = Ok (z_bc z);
  ch_doc_index : validate_doc_index s (doc_count s) (z_ic z) (z_ub z) (z_doc z) = Ok tt;
  ch_meta : validate_meta_and_search s (target_count s) (z_tmb z) (symbol_count s) (z_smb z) (z_src z)
              (z_srb z) = Ok tt;
  ch_epochs : mapM (epoch_of s) (seqZ 0 (doc_count s)) = Some (doc_epochs s);
}.

Lemma validate_structure_checks self s : validate_structure self = Ok s → ∃ z, checks_passed s z.
Proof.
  unfold validate_structure. intros H.
  apply bind_Ok in H as (sc & Hsc & H). apply bind_Ok in H as (tc & Htc & H).
  apply bind_Ok in H as (sb & Hsb & H). apply bind_Ok in H as ([] & Hsym%expect_Ok & H).
  cbv zeta in H. set (t := with_counts self sc tc (target_word_count tc)) in *.
  apply bind_Ok in H as (r1 & Hr1 & H). apply bind_Ok in H as (r2 & Hr2 & H).
  apply bind_Ok in H as (r3 & Hr3 & H). apply bind_Ok in H as (r4 & Hr4 & H).
  apply bind_Ok in H as ([] & Hsum%expect_Ok & H).
  apply bind_Ok in H as ([] & _ & H). apply bind_Ok in H as ([] & _ & H).
  apply bind_Ok in H as ([] & Hgi & H).
  apply bind_Ok in H as (dc & Hdc & H). apply bind_Ok in H as (ic & Hic & H).
  apply bind_Ok in H as (ub & Hub & H). apply bind_Ok in H as ([] & Hdc1%expect_Ok & H).
  apply bind_Ok in H as ([] & Hdi%expect_Ok & H).
  apply bind_Ok in H as (bc & Hbc & H). apply bind_Ok in H as (wc & _ & H).
  apply bind_Ok in H as ([] & _ & H). apply bind_Ok in H as (bs & _ & H).
  apply bind_Ok in H as ([] & _ & H). apply bind_Ok in H as ([] & Hbi%expect_Ok & H).
  apply bind_Ok in H as (tmc & _ & H). apply bind_Ok in H as (tmb & Htmb & H).
  apply bind_Ok in H as ([] & Htmc%expect_Ok & H). apply bind_Ok in H as ([] & Htm%expect_Ok & H).
  apply bind_Ok in H as (smc & _ & H). apply bind_Ok in H as (smb & Hsmb & H).
  apply bind_Ok in H as ([] & Hsmc%expect_Ok & H). apply bind_Ok in H as ([] & Hsm%expect_Ok & H).
  apply bind_Ok in H as (src & Hsrc & H). apply bind_Ok in H as (srb & Hsrb & H).
  apply bind_Ok in H as ([] & Hse%expect_Ok & H).
  apply bind_Ok in H as ([] & Hdict & H). apply bind_Ok in H as ([] & Hg1 & H).
  apply bind_Ok in H as ([] & Hg2 & H). apply bind_Ok in H as ([] & Hg3 & H).
  apply bind_Ok in H as ([] & Hg4 & H). apply bind_Ok in H as (c1 & Hc1 & H).
  apply bind_Ok in H as (c2 & Hc2 & H). apply bind_Ok in H as (c3 & Hc3 & H).
  apply bind_Ok in H as ([] & Hbc3%expect_Ok & H). apply bind_Ok in H as ([] & Hdocs & H).
  apply bind_Ok in H as ([] & Hmeta & H). apply bind_Ok in H as (eps & Heps%unwrap_Ok & H).
  injection H as <-. zify_bools.
  rewrite Hdc1 in Hdc, Hdi, Hdocs. rewrite Htmc in Htm, Hmeta. rewrite Hsmc in Hsm, Hmeta.
  rewrite Hbc3 in Hc3.
  exists (mkSizes sb r1 r2 r3 r4 ic ub bc tmb smb src srb c1 c2). split; first [reflexivity|assumption].
Qed.

Lemma validate_structure_files self s :
  validate_structure self = Ok s → files s = files self ∧ ref_group_count s = ref_group_count self.
Proof.
  unfold validate_structure. intros H. repeat (apply bind_Ok in H as (? & _ & H)). by injection H as <-.
Qed.

(** One role's groups: well-formed, and tiling its postings. *)
Definition role_ok (s : SegmentReader) (gi idx : nat) (count n bc : Z) : Prop :=
  postings_ok s idx n ∧ ∃ es, zlen es = count ∧
    (∀ g e, zget es g = Some e → group_ok s gi idx n bc g e) ∧ n = foldr Z.add 0 (gv_count <$> es).

(** What a successful [reader_open] guarantees. *)
Record valid (s : SegmentReader) (z : sizes) : Prop := {
  v_counts : 0 ≤ ref_group_count s ∧ 0 ≤ rename_group_count s ∧ 0 ≤ doc_count s ∧
             0 ≤ symbol_count s ∧ 0 ≤ target_count s;
  v_ref : role_ok s REF_GROUP_INDEX REF_POSTINGS (ref_group_count s) (z_ref z) (z_bc z);
  v_def : role_ok s DEF_GROUP_INDEX DEF_POSTINGS (ref_group_count s) (z_def z) (z_bc z);
  v_rename : role_ok s RENAME_GROUP_INDEX RENAME_POSTINGS (rename_group_count s) (z_rename z) (z_bc z);
  v_profiles : zlen (file s RENAME_GROUP_INDEX) = 8 + rename_group_count s * 32;
  v_doc_index : doc_index_ok s (z_doc z) (z_ic z) (z_ub z);
  v_docs : ∃ es, zlen es = doc_count s ∧ (∀ d e, zget es d = Some e → doc_ok s (z_doc z) (z_ic z) d e) ∧
    z_doc z = foldr Z.add 0 (dv_postings_count <$> es);
  v_symbols : symbol_index_ok s (z_sym_blob z);
  v_dict : ∃ strs, dict_ok s strs;
  v_meta : meta_ok s (z_src z);
  v_epochs : mapM (epoch_of s) (seqZ 0 (doc_count s)) = Some (doc_epochs s);
  v_sum : as_u64 (z_ref z + z_def z + z_rename z + z_doc z) = occurrence_count s;
}.

Lemma count_at_Ok b off name d n :
  count_at b off name d = Ok n → read_i64 b off = Some n ∧ 0 ≤ n ≤ zlen b.
Proof.
  unfold count_at. intros H. apply bind_Ok in H as (v & Hv%req_i64_Ok & H).
  apply bounded_Ok in H as [-> ?]; [done|]. by eapply read_i64_inS.
Qed.

Lemma no_panic_count_at b off name d : no_panic (count_at b off name d).
Proof. unfold count_at. np. Qed.

Lemma check_group_index_Ok s idx count profiles u :
  check_group_index s idx count profiles = Ok u →
  0 ≤ count ∧ zlen (file s idx) = 8 + count * (if profiles then 32 else 16).
Proof.
  unfold check_group_index. intros H. apply bind_Ok in H as (v & Hv%req_i64_Ok & H).
  apply bind_Ok in H as (n & Hn & H). apply bounded_Ok in Hn as [-> ?]; [|by eapply read_i64_inS].
  apply bind_Ok in H as ([] & Hc%expect_Ok & H). apply expect_Ok in H. zify_bools. subst v.
  unfold GROUP_INDEX_ENTRY_SIZE, RENAME_PROFILE_ENTRY_SIZE in H. destruct profiles; lia.
Qed.

Section checked.
Context (s : SegmentReader) (z : sizes) (Hfit : files_fit s).
Context (Hgroups : 0 ≤ ref_group_count s).

Lemma postings_checked idx n :
  rd_words s = target_word_count (target_count s) → 0 ≤ target_count s →
  check_columns s idx 6 = Ok n → validate_group_records s idx n = Ok tt → postings_ok s idx n.
Proof.
  intros Hw Ht Hc Hr. assert (cols_ok (file s idx) 6 n) by (eapply check_columns_Ok; [apply Hfit|done]).
  split; [done| |done|done]. by eapply validate_group_records_Ok.
Qed.

Lemma checks_valid : checks_passed s z → valid s z.
Proof.
  intros [].
  apply count_at_Ok in ch_sym_count0 as [_ ?], ch_target_count0 as [_ ?], ch_sym_blob0 as [_ ?],
    ch_dc0 as [_ ?], ch_ic0 as [Hic ?], ch_ub0 as [_ ?], ch_bc0 as [_ ?], ch_tmb0 as [_ ?],
    ch_smb0 as [_ ?], ch_src0 as [Hsrc ?], ch_srb0 as [_ ?].
  apply check_group_index_Ok in ch_gi_rename0 as [? ?].
  pose proof (postings_checked REF_POSTINGS (z_ref z) ltac:(done) ltac:(lia) ltac:(done) ltac:(done)) as Hp1.
  pose proof (postings_checked DEF_POSTINGS (z_def z) ltac:(done) ltac:(lia) ltac:(done) ltac:(done)) as Hp2.
  pose proof (postings_checked RENAME_POSTINGS (z_rename z) ltac:(done) ltac:(lia) ltac:(done) ltac:(done)) as Hp3.
  apply role_groups_Ok in ch_ref_groups0 as [? ?]; [|done|lia|lia].
  apply role_groups_Ok in ch_def_groups0 as [? ?]; [|done|lia|lia].
  apply role_groups_Ok in ch_rename_groups0 as [? ?]; [|done|lia|lia].
  assert (doc_index_ok s (z_doc z) (z_ic z) (z_ub z)) as Hdi.
  { assert (cols_ok (file s DOC_POSTINGS) 4 (z_doc z)) by (eapply check_columns_Ok; [apply Hfit|done]).
    split; try done; try lia. by eapply validate_doc_records_Ok. }
  assert (symbol_index_ok s (z_sym_blob z)) as Hsi by (split; [lia|done|apply Hfit]).
  split; try done; [lia..| | |].
  - by eapply doc_index_Ok.
  - by eapply symbol_dict_Ok.
  - eapply meta_search_Ok; [|done]. split; [lia|lia|lia|done|apply Hfit].
Qed.
End checked.

Lemma no_panic_validate_structure self :
  files_fit self → 0 ≤ ref_group_count self → 0 ≤ rename_group_count self →
  no_panic (validate_structure self).
Proof.
  intros Hfit Href Hren. unfold validate_structure.
  apply no_panic_bind; [apply no_panic_count_at|intros sc Hsc]. apply count_at_Ok in Hsc as [_ ?].
  apply no_panic_bind; [apply no_panic_count_at|intros tc Htc]. apply count_at_Ok in Htc as [_ ?].
  apply no_panic_bind; [apply no_panic_count_at|intros sb Hsb]. apply count_at_Ok in Hsb as [_ ?].
  apply no_panic_bind; [np|intros [] Hsym%expect_Ok].
  set (t := with_counts self sc tc (target_word_count tc)).
  assert (∀ idx cols, no_panic (check_columns t idx cols)) as Hcols by (intros; unfold check_columns; np).
  assert (∀ idx c p, no_panic (check_group_index t idx c p)) as Hgis by (intros; unfold check_group_index; np).
  apply no_panic_bind; [apply Hcols|intros r1 Hr1]. apply no_panic_bind; [apply Hcols|intros r2 Hr2].
  apply no_panic_bind; [apply Hcols|intros r3 Hr3]. apply no_panic_bind; [apply Hcols|intros r4 Hr4].
  apply no_panic_bind; [np|intros _ _].
  do 3 (apply no_panic_bind; [apply Hgis|intros _ _]).
  apply no_panic_bind; [apply no_panic_count_at|intros dc Hdc].
  apply no_panic_bind; [apply no_panic_count_at|intros ic Hic].
  apply no_panic_bind; [apply no_panic_count_at|intros ub Hub].
  apply no_panic_bind; [np|intros [] Hdc1%expect_Ok]. apply no_panic_bind; [np|intros [] Hdi%expect_Ok].
  apply no_panic_bind; [apply no_panic_count_at|intros bc Hbc]. apply no_panic_bind; [np|intros wc _].
  do 4 (apply no_panic_bind; [np|intros ? _]).
  do 2 (apply no_panic_bind; [apply no_panic_count_at|intros ? _]).
  do 2 (apply no_panic_bind; [np|intros ? _]).
  do 2 (apply no_panic_bind; [apply no_panic_count_at|intros ? _]).
  do 2 (apply no_panic_bind; [np|intros ? _]).
  do 2 (apply no_panic_bind; [apply no_panic_count_at|intros ? _]).
  apply no_panic_bind; [np|intros ? _].
  apply no_panic_bind; [apply no_panic_symbol_dict|intros _ _].
  apply no_panic_bind; [apply no_panic_group_records|intros [] Hg1].
  apply no_panic_bind; [apply no_panic_group_records|intros [] Hg2].
  apply no_panic_bind; [apply no_panic_group_records|intros [] Hg3].
  apply no_panic_bind; [apply no_panic_doc_records|intros [] Hg4].
  assert (∀ idx n, check_columns t idx 6 = Ok n → validate_group_records t idx n = Ok tt →
    postings_ok t idx n) as Hp.
  { intros idx n Hc Hr. apply (postings_checked t Hfit); [done|cbn; lia|done|done]. }
  apply no_panic_bind; [apply (no_panic_role_groups t); [by apply Hp|done]|intros c1 Hc1].
  apply role_groups_Ok in Hc1 as [? _]; [|by apply Hp|done|done].
  apply no_panic_bind; [apply (no_panic_role_groups t); [by apply Hp|done]|intros c2 Hc2].
  apply role_groups_Ok in Hc2 as [? _]; [|by apply Hp|done|done].
  apply no_panic_bind; [apply (no_panic_role_groups t); [by apply Hp|done]|intros c3 Hc3].
  apply no_panic_bind; [np|intros _ _].
  apply count_at_Ok in Hdc as [_ ?], Hic as [? ?], Hub as [_ ?]. zify_bools. subst dc.
  assert (doc_index_ok t r4 ic ub) as Hdoc.
  { assert (cols_ok (file t DOC_POSTINGS) 4 r4) by (eapply check_columns_Ok; [apply Hfit|done]).
    split; try done; try lia; [by eapply validate_doc_records_Ok|apply Hfit]. }
  apply no_panic_bind; [by apply no_panic_doc_index|intros _ _].
  apply no_panic_bind; [apply no_panic_meta_search|intros _ _].
  apply no_panic_bind; [|intros; np]. apply no_panic_unwrap.
  apply mapM_is_Some, Forall_forall. intros d Hd%elem_of_seqZ_0.
  change (is_Some (read_i32 (file t DOC_INDEX) (doc_entry_base d + 16))).
  destruct (read_i32_inside (file t DOC_INDEX) (doc_entry_base d + 16)) as (v & -> & _); [| |done];
    unfold doc_entry_base, DOC_ENTRY_SIZE; lia.
Qed.

(** ** Opening *)

Section open.
Context (crc32c : bytes → Z) `{!DebugStr}.
Context (read_file : list Z → FileRead).
(** A file that was mapped is at most [isize::MAX] bytes long. *)
Context (Hfit : ∀ p b, read_file p = Found b → zlen b < 2 ^ 63).

Lemma map_file_Ok p b : map_file read_file p = Ok b → read_file p = Found b.
Proof. unfold map_file. destruct (read_file p); congruence. Qed.

Lemma no_panic_map_files dir names : no_panic (map_files read_file dir names).
Proof.
  induction names as [|name names IH]; [done|]. cbn [map_files].
  apply no_panic_bind; [unfold map_file; by destruct (read_file _)|intros b _].
  apply no_panic_bind; [done|]. intros; np.
Qed.

Lemma map_files_Ok dir names bs :
  map_files read_file dir names = Ok bs →
  Forall2 (λ name b, read_file (dir_join dir name) = Found b) names bs.
Proof.
  revert bs. induction names as [|name names IH]; intros bs Hb0; cbn [map_files] in Hb0.
  - injection Hb0 as <-. constructor.
  - apply bind_Ok in Hb0 as (b & Hb & H'). apply bind_Ok in H' as (bs' & Hbs & H'). injection H' as <-.
    constructor; [by apply map_file_Ok|by apply IH].
Qed.

Lemma no_panic_verify_checksums checksums mapped :
  length mapped = 14%nat → no_panic (verify_checksums crc32c checksums mapped).
Proof.
  intros Hl. unfold verify_checksums. apply no_panic_bind; [np|intros count _].
  destruct (_ || _); [np|]. apply no_panic_bind; [|intros off _; by destruct (negb _)].
  apply (no_panic_fold_r (λ _ _, True)); [done|]. intros pre [i name] rest off Hpre _. split; [|done].
  assert (i < 14)%nat as Hi.
  { assert ((i, name) ∈ imap pair CHECKSUMMED_FILES) as Hin by (rewrite Hpre; set_solver).
    apply elem_of_lookup_imap in Hin as (j & x & [= -> ->] & Hj). by apply lookup_lt_Some in Hj. }
  unfold checksum_step. apply no_panic_bind; [np|intros nl _].
  destruct (nl <? 0); [np|]. do 3 (apply no_panic_bind; [np|intros ? _]).
  destruct (negb _); [np|]. do 2 (apply no_panic_bind; [np|intros ? _]).
  apply no_panic_bind; [|intros; np]. apply no_panic_unwrap. apply lookup_lt_is_Some. lia.
Qed.

Lemma no_panic_header_count header off what :
  zlen header = 64 → 0 ≤ off → off + 8 ≤ 64 → no_panic (header_count header off what).
Proof.
  intros Hl H0 H1. unfold header_count. apply no_panic_bind; [|intros; np].
  apply no_panic_unwrap. destruct (read_u64_inside header off) as (v & -> & _); [lia..|done].
Qed.

Lemma no_panic_open_header mapped header : no_panic (open_header crc32c mapped header).
Proof.
  unfold open_header. destruct (Z.eqb_spec (zlen header) HEADER_SIZE) as [Hl|]; [|done].
  change HEADER_SIZE with 64 in Hl. cbn [negb].
  destruct (read_u32_inside header 0) as (v0 & -> & _); [lia..|].
  change (unwrap (Some v0)) with (@Ok SegStop Z v0). apply no_panic_bind; [done|intros m _].
  destruct (negb _); [done|]. apply no_panic_bind; [apply no_panic_unwrap, read_u16_inside; lia|intros v _].
  destruct (negb _); [done|]. apply no_panic_bind; [apply no_panic_unwrap, read_u16_inside; lia|intros f _].
  destruct (negb _); [done|].
  destruct (read_u64_inside header HEADER_CHECKSUM_OFFSET) as (v1 & -> & _);
    [done|change HEADER_CHECKSUM_OFFSET with 56; lia|].
  apply no_panic_bind; [done|intros st _].
  apply no_panic_bind; [apply no_panic_unwrap, slice_is_Some; change HEADER_CHECKSUM_OFFSET with 56; lia|intros p _].
  destruct (negb _); [done|].
  destruct (read_u64_inside header 8) as (v2 & -> & _); [lia..|].
  destruct (read_i64_inside header 16) as (v3 & -> & _); [lia..|].
  destruct (read_u64_inside header 48) as (v4 & -> & _); [lia..|].
  do 2 (apply no_panic_bind; [done|intros ? _]).
  do 3 (apply no_panic_bind; [apply no_panic_header_count; lia|intros ? _]).
  apply no_panic_bind; [done|intros ? _]. done.
Qed.

Lemma header_count_Ok header off what v : header_count header off what = Ok v → inU 32 v.
Proof.
  unfold header_count. intros H'. apply bind_Ok in H' as (x & Hx%unwrap_Ok & H').
  destruct (Z.leb_spec x u32_max); [|done]. injection H' as <-. unfold read_u64 in Hx.
  destruct (slice header off 8) as [b|] eqn:E; [|done]. injection Hx as <-.
  pose proof (le_val_range b). unfold inU. unfold u32_max in *. lia.
Qed.

Lemma open_header_Ok mapped header s :
  open_header crc32c mapped header = Ok s →
  files s = mapped ∧ inU 32 (ref_group_count s) ∧ inU 32 (rename_group_count s) ∧ inU 32 (doc_count s).
Proof.
  unfold open_header. intros H'. destruct (negb _); [done|].
  apply bind_Ok in H' as (? & _ & H'). destruct (negb _); [done|].
  apply bind_Ok in H' as (? & _ & H'). destruct (negb _); [done|].
  apply bind_Ok in H' as (? & _ & H'). destruct (negb _); [done|].
  apply bind_Ok in H' as (? & _ & H'). apply bind_Ok in H' as (? & _ & H'). destruct (negb _); [done|].
  apply bind_Ok in H' as (? & _ & H'). apply bind_Ok in H' as (? & _ & H').
  apply bind_Ok in H' as (rg & Hrg%header_count_Ok & H').
  apply bind_Ok in H' as (rn & Hrn%header_count_Ok & H').
  apply bind_Ok in H' as (dc & Hdc%header_count_Ok & H').
  apply bind_Ok in H' as (? & _ & H'). injection H' as <-. done.
Qed.

Lemma mapped_fit dir mapped s :
  map_files read_file dir CHECKSUMMED_FILES = Ok mapped → files s = mapped → files_fit s.
Proof.
  intros Hm Hs i. unfold file. rewrite Hs. destruct (mapped !! i) as [b|] eqn:E; [|done].
  apply map_files_Ok in Hm. destruct (Forall2_lookup_r _ _ _ _ _ Hm E) as (name & _ & Hb).
  by eapply Hfit.
Qed.

Lemma no_panic_reader_open dir : no_panic (reader_open crc32c read_file dir).
Proof.
  unfold reader_open. apply no_panic_bind; [apply no_panic_map_files|intros mapped Hm].
  pose proof (Forall2_length _ _ _ (map_files_Ok _ _ _ Hm)) as Hl. change (14%nat = length mapped) in Hl.
  apply no_panic_bind; [unfold map_file; by destruct (read_file _)|intros cs _].
  apply no_panic_bind; [apply no_panic_unwrap, lookup_lt_is_Some; unfold HEADER; lia|intros header _].
  apply no_panic_bind; [apply no_panic_open_header|intros s Hs].
  apply open_header_Ok in Hs as (Hf & ? & ? & ?).
  apply no_panic_bind; [by apply no_panic_verify_checksums|intros _ _].
  apply no_panic_validate_structure; [by eapply mapped_fit|unfold inU in *; lia..].
Qed.

(** A reader that [open] returned is valid. *)
Lemma reader_open_valid dir s : reader_open crc32c read_file dir = Ok s → ∃ z, valid s z.
Proof.
  unfold reader_open. intros H'. apply bind_Ok in H' as (mapped & Hm & H').
  apply bind_Ok in H' as (cs & _ & H'). apply bind_Ok in H' as (header & _ & H').
  apply bind_Ok in H' as (s0 & Hs0%open_header_Ok & H'). apply bind_Ok in H' as ([] & _ & H').
  destruct Hs0 as (Hf & Hrg & _). pose proof H' as [z Hz]%validate_structure_checks.
  exists z. apply checks_valid; [| |done].
  - eapply mapped_fit; [exact Hm|]. by apply validate_structure_files in H' as [-> _].
  - apply validate_structure_files in H' as [_ ->]. apply Hrg.
Qed.
End open.
