(* ===== verification/SegWriter.v ===== *)
(** The segment writer ([ls-store/src/writer.rs]): input validation, the columnar layout of
    the groups and documents with their skip blocks, the fifteen files, and their
    checksums.

    A [LeBuf] is the list of bytes written so far. The casts the code makes ([as i32],
    [as i64], [as usize]) are written out; index expressions that panic out of range are in
    [outcome]. The durable publication of the files is in [Durable]. *)

From S2P Require Import Prelude RustStr IndexModel Bitset StoreFormat SegReader.

Open Scope Z_scope.

(** ** Validating the input *)

Definition ord_in (v n : Z) : bool := (0 <=? v) && (v <? n).
Definition ord_opt (v n : Z) : bool := (v =? -1) || ord_in v n.

Definition span_ok (s : Span) : bool :=
  (start_char s <=? CHAR_MASK) && (end_char s <=? CHAR_MASK) &&
  (start_line s <=? LINE_MAX) && (end_line s <=? LINE_MAX) &&
  (pack (start_line s) (start_char s) <=? pack (end_line s) (end_char s)).

Definition invalid {A : Type} (detail : string) : outcome A := Err (Fails (InvalidInput (lit detail))).

(** [if !cond { return invalid(detail) }] *)
Definition require (cond : bool) (detail : string) : outcome unit :=
  if cond then Ok tt else invalid detail.

Definition validate_doc (n_targets : Z) (doc : SegmentDoc) : outcome unit :=
  _ ← require (negb (bool_decide (doc_uri doc = []))) "empty doc uri";
  require (ord_in (doc_target_ord doc) n_targets) "doc target_ord out of range".

Definition validate_group_occ (n_docs n_targets : Z) (occ : GroupOcc) : outcome unit :=
  _ ← require (ord_in (go_doc_ord occ) n_docs) "occurrence doc_ord out of range";
  _ ← require (ord_in (go_target_ord occ) n_targets) "occurrence target_ord out of range";
  require (span_ok (go_span occ)) "occurrence span out of range".

Definition validate_doc_occ (n_symbols : Z) (occ : DocOcc) : outcome unit :=
  _ ← require (ord_in (do_symbol_ord occ) n_symbols) "doc occurrence symbol_ord out of range";
  require (span_ok (do_span occ)) "doc occurrence span out of range".

Definition validate_symbol (n_ref n_rename n_targets : Z) (s : SegmentSymbol) : outcome unit :=
  _ ← require (ord_opt (ss_ref_group_ord s) n_ref) "symbol ref_group_ord out of range";
  _ ← require (ord_opt (ss_rename_group_ord s) n_rename) "symbol rename_group_ord out of range";
  require (ord_opt (ss_def_target_ord s) n_targets) "symbol def_target_ord out of range".

Definition validate (data : SegmentData) : outcome unit :=
  _ ← require (zlen (def_occurrences data) =? zlen (ref_occurrences data)) "def/ref group counts differ";
  _ ← require (zlen (rename_profiles data) =? zlen (rename_occurrences data))
        "rename profile/group counts differ";
  _ ← require (zlen (doc_occurrences data) =? zlen (docs data)) "doc occurrence/doc counts differ";
  _ ← require ((zlen (target_meta data) =? 0) || (zlen (target_meta data) =? zlen (targets data)))
        "target_meta must be empty or parallel to targets";
  _ ← require ((zlen (symbol_meta data) =? 0) || (zlen (symbol_meta data) =? zlen (symbols data)))
        "symbol_meta must be empty or parallel to symbols";
  let n_docs := zlen (docs data) in
  let n_targets := zlen (targets data) in
  let n_symbols := zlen (symbols data) in
  let n_ref := zlen (ref_occurrences data) in
  let n_rename := zlen (rename_occurrences data) in
  _ ← for_each (validate_doc n_targets) (docs data);
  _ ← for_each (for_each (for_each (validate_group_occ n_docs n_targets)))
        [ref_occurrences data; def_occurrences data; rename_occurrences data];
  _ ← for_each (for_each (validate_doc_occ n_symbols)) (doc_occurrences data);
  _ ← for_each (validate_symbol n_ref n_rename n_targets) (symbols data);
  _ ← for_each (λ row, require (ord_in (sr_symbol_ord row) n_symbols) "search row symbol_ord out of range")
        (search_rows data);
  for_each (λ m, require (ord_opt (def_doc_ord m) n_docs) "symbol_meta def_doc_ord out of range")
    (symbol_meta data).

(** ** The symbol order *)

Definition symbol_string (data : SegmentData) (i : Z) : list Z :=
  default [] (ss_semantic_symbol <$> zget (symbols data) i).

(** The first equal neighbours of [indices.windows(2)]. *)
Fixpoint find_duplicate (data : SegmentData) (indices : list Z) : option (list Z) :=
  match indices with
  | a :: ((b :: _) as rest) =>
      if str_eqb (symbol_string data a) (symbol_string data b) then Some (symbol_string data a)
      else find_duplicate data rest
  | _ => None
  end.

Definition sort_symbol_indices `{DebugStr} (data : SegmentData) : outcome (list Z) :=
  let indices := sort_by (λ a b, str_leb (symbol_string data a) (symbol_string data b))
                   (seqZ 0 (zlen (symbols data))) in
  match find_duplicate data indices with
  | Some s => Err (Fails (InvalidInput (lit "duplicate symbol string " ++ debug_str s)))
  | None => Ok indices
  end.

(** [for (sorted_pos, &caller) in sorted { caller_to_sorted[caller] = sorted_pos as i32 }] *)
Definition invert_order (n : Z) (sorted : list Z) : outcome (list Z) :=
  fold_r (λ m p, unwrap (zset m p.2 (as_i32 (Z.of_nat p.1)))) (replicate (Z.to_nat n) 0)
    (imap pair sorted).

(** ** Group postings *)

Record GroupIndexEntry := mkGroupIndexEntry {
  ge_offset : Z; ge_count : Z; ge_block_index_offset : Z }.

(** [be_agg] holds the counts, the minima and maxima and the target words. *)
Record BlockEntry := mkBlockEntry {
  be_first_record : Z;
  be_record_count : Z;
  be_agg : BlockAgg
}.

Record GroupLayout := mkGroupLayout {
  gl_doc_ord : list Z;
  gl_doc_epoch : list Z;
  gl_target_ord : list Z;
  gl_packed_start : list Z;
  gl_packed_end : list Z;
  gl_flags : list Z;
  gl_entries : list GroupIndexEntry
}.
Definition GroupLayout_default : GroupLayout := mkGroupLayout [] [] [] [] [] [] [].

Definition pack_start (s : Span) : Z := pack (start_line s) (start_char s).
Definition pack_end (s : Span) : Z := pack (end_line s) (end_char s).

(** The six column pushes of one occurrence. *)
Definition push_occ (l : GroupLayout) (occ : GroupOcc) : GroupLayout :=
  mkGroupLayout
    (gl_doc_ord l ++ [go_doc_ord occ])
    (gl_doc_epoch l ++ [go_doc_epoch occ])
    (gl_target_ord l ++ [go_target_ord occ])
    (gl_packed_start l ++ [as_i32 (pack_start (go_span occ))])
    (gl_packed_end l ++ [as_i32 (pack_end (go_span occ))])
    (gl_flags l ++ [go_flags occ])
    (gl_entries l).
Definition push_entry (l : GroupLayout) (e : GroupIndexEntry) : GroupLayout :=
  mkGroupLayout (gl_doc_ord l) (gl_doc_epoch l) (gl_target_ord l) (gl_packed_start l)
    (gl_packed_end l) (gl_flags l) (gl_entries l ++ [e]).

(** The sort key of a group's occurrences. *)
Definition occ_key (occ : GroupOcc) : list Z :=
  [go_doc_ord occ; pack_start (go_span occ); pack_end (go_span occ)].
Definition sort_group (group : list GroupOcc) : list GroupOcc :=
  sort_by (λ a b, lex_leb (occ_key a) (occ_key b)) group.

(** One occurrence's contribution to its block; a negative target sets no bit. *)
Definition block_add (a : BlockAgg) (occ : GroupOcc) : outcome BlockAgg :=
  let flags := as_u32 (go_flags occ) in
  words ← (if 0 <=? go_target_ord occ
           then unwrap (set_word_bit (ag_words a) (as_usize (go_target_ord occ)))
           else Ok (ag_words a));
  Ok (mkAgg
    (if has flags OCC_EDITABLE then ag_editable a + 1 else ag_editable a)
    (if has flags OCC_DEFINITION then ag_ref_role a else ag_ref_role a + 1)
    (if has flags OCC_DEFINITION then ag_def_role a + 1 else ag_def_role a)
    (Z.min (ag_dmin a) (go_doc_ord occ)) (Z.max (ag_dmax a) (go_doc_ord occ))
    (Z.min (ag_emin a) (go_doc_epoch occ)) (Z.max (ag_emax a) (go_doc_epoch occ)) words).

(** [for occ in chunk { .. }] *)
Definition layout_occ (st : GroupLayout * BlockAgg) (occ : GroupOcc) : outcome (GroupLayout * BlockAgg) :=
  agg ← block_add st.2 occ;
  Ok (push_occ st.1 occ, agg).

(** [for chunk in sorted.chunks(BLOCK_SIZE) { .. blocks.push(block) }] *)
Definition layout_chunk (words : Z) (st : GroupLayout * list BlockEntry) (chunk : list GroupOcc)
    : outcome (GroupLayout * list BlockEntry) :=
  let first_record := as_i64 (zlen (gl_doc_ord st.1)) in
  st' ← fold_r layout_occ (st.1, agg_init words) chunk;
  Ok (st'.1, st.2 ++ [mkBlockEntry first_record (as_i32 (zlen chunk)) st'.2]).

(** [for group in groups { .. }] *)
Definition layout_group (words : Z) (st : GroupLayout * list BlockEntry) (group : list GroupOcc)
    : outcome (GroupLayout * list BlockEntry) :=
  let '(layout, blocks) := st in
  let group_start := as_i64 (zlen (gl_doc_ord layout)) in
  if bool_decide (zlen group = 0) then
    Ok (push_entry layout (mkGroupIndexEntry group_start 0 (-1)), blocks)
  else
    let block_start := as_i32 (zlen blocks) in
    let layout := push_entry layout (mkGroupIndexEntry group_start (as_i32 (zlen group)) block_start) in
    fold_r (layout_chunk words) (layout, blocks) (chunks (Z.to_nat BLOCK_SIZE) (sort_group group)).

Definition layout_groups (groups : list (list GroupOcc)) (words : Z) (blocks : list BlockEntry)
    : outcome (GroupLayout * list BlockEntry) :=
  fold_r (layout_group words) (GroupLayout_default, blocks) groups.

Definition put_col (col : list Z) : bytes := concat (put_i32 <$> col).

Definition serialize_group_postings (layout : GroupLayout) : bytes :=
  put_i64 (as_i64 (zlen (gl_doc_ord layout))) ++
  concat (put_col <$> [gl_doc_ord layout; gl_doc_epoch layout; gl_target_ord layout;
                       gl_packed_start layout; gl_packed_end layout; gl_flags layout]).

Definition profile_flags (p : SegRenameProfile) : Z :=
  let f := 0 in
  let f := if rp_is_local p then Z.lor f IS_LOCAL else f in
  let f := if rp_is_external p then Z.lor f IS_EXTERNAL else f in
  let f := if rp_has_generated_occurrences p then Z.lor f HAS_GENERATED else f in
  let f := if rp_has_readonly_occurrences p then Z.lor f HAS_READONLY else f in
  let f := if rp_has_override_family p then Z.lor f HAS_OVERRIDE_FAMILY else f in
  if rp_has_companion p then Z.lor f HAS_COMPANION else f.

Definition put_entry (e : GroupIndexEntry) : bytes :=
  put_i64 (ge_offset e) ++ put_i32 (ge_count e) ++ put_i32 (ge_block_index_offset e).
Definition put_profile (p : SegRenameProfile) : bytes :=
  put_i32 (profile_flags p) ++ put_i32 (rp_editable_occurrence_count p) ++
  put_i64 (rp_unsafe_reason_mask p).

Definition serialize_group_index (entries : list GroupIndexEntry)
    (profiles : option (list SegRenameProfile)) : bytes :=
  put_i64 (as_i64 (zlen entries)) ++ concat (put_entry <$> entries) ++
  match profiles with Some ps => concat (put_profile <$> ps) | None => [] end.

Definition put_block (b : BlockEntry) : bytes :=
  let a := be_agg b in
  put_i64 (be_first_record b) ++ put_i32 (be_record_count b) ++ put_i32 (ag_editable a) ++
  put_i32 (ag_ref_role a) ++ put_i32 (ag_def_role a) ++ put_i32 (ag_dmin a) ++ put_i32 (ag_dmax a) ++
  put_i32 (ag_emin a) ++ put_i32 (ag_emax a) ++ concat (put_u64 <$> ag_words a).

Definition serialize_block_index (blocks : list BlockEntry) (words : Z) : bytes :=
  put_i64 (as_i64 (zlen blocks)) ++ put_i32 (as_i32 words) ++ put_i32 BLOCK_SIZE ++
  concat (put_block <$> blocks).

(** ** Documents *)

Record DocEntryRow := mkDocEntryRow {
  de_uri_offset : Z; de_uri_len : Z; de_doc_id : Z; de_epoch : Z; de_target_ord : Z;
  de_doc_flags : Z; de_interval_first : Z; de_postings_offset : Z; de_postings_count : Z;
  de_interval_count : Z }.

(** The columns, intervals [(first_line, last_line, offset, count)], rows and URI blob
    accumulated by [build_doc_files]. *)
Record DocLayout := mkDocLayout {
  dl_symbol_ord : list Z;
  dl_packed_start : list Z;
  dl_packed_end : list Z;
  dl_flags : list Z;
  dl_intervals : list (Z * Z * Z * Z);
  dl_docs : list DocEntryRow;
  dl_uri_blob : bytes
}.
Definition DocLayout_default : DocLayout := mkDocLayout [] [] [] [] [] [] [].

Definition doc_occ_key (occ : DocOcc) : list Z := [pack_start (do_span occ); pack_end (do_span occ)].
Definition sort_doc (occs : list DocOcc) : list DocOcc :=
  sort_by (λ a b, lex_leb (doc_occ_key a) (doc_occ_key b)) occs.

(** [for occ in chunk { .. last_line = last_line.max(..) }] *)
Definition push_doc_occ (caller_to_sorted : list Z) (st : DocLayout * Z) (occ : DocOcc)
    : outcome (DocLayout * Z) :=
  let '(l, last_line) := st in
  sym ← unwrap (zget caller_to_sorted (as_usize (do_symbol_ord occ)));
  Ok (mkDocLayout (dl_symbol_ord l ++ [sym])
        (dl_packed_start l ++ [as_i32 (pack_start (do_span occ))])
        (dl_packed_end l ++ [as_i32 (pack_end (do_span occ))])
        (dl_flags l ++ [do_flags occ]) (dl_intervals l) (dl_docs l) (dl_uri_blob l),
      Z.max last_line (as_i32 (end_line (do_span occ)))).

(** [for chunk in sorted.chunks(BLOCK_SIZE) { .. }] *)
Definition doc_chunk (caller_to_sorted : list Z) (l : DocLayout) (chunk : list DocOcc) : outcome DocLayout :=
  let offset := as_i64 (zlen (dl_symbol_ord l)) in
  first ← unwrap (head chunk);
  let first_line := as_i32 (start_line (do_span first)) in
  st ← fold_r (push_doc_occ caller_to_sorted) (l, i32_min) chunk;
  let l := st.1 in
  Ok (mkDocLayout (dl_symbol_ord l) (dl_packed_start l) (dl_packed_end l) (dl_flags l)
        (dl_intervals l ++ [(first_line, st.2, offset, as_i32 (zlen chunk))]) (dl_docs l) (dl_uri_blob l)).

Definition push_doc_row (l : DocLayout) (row : DocEntryRow) : DocLayout :=
  mkDocLayout (dl_symbol_ord l) (dl_packed_start l) (dl_packed_end l) (dl_flags l) (dl_intervals l)
    (dl_docs l ++ [row]) (dl_uri_blob l).
Definition push_uri (l : DocLayout) (uri : list Z) : DocLayout :=
  mkDocLayout (dl_symbol_ord l) (dl_packed_start l) (dl_packed_end l) (dl_flags l) (dl_intervals l)
    (dl_docs l) (dl_uri_blob l ++ as_bytes uri).

(** [for (doc_ord, doc) in data.docs.iter().enumerate() { .. }] *)
Definition layout_doc (doc_occurrences : list (list DocOcc)) (caller_to_sorted : list Z) (l : DocLayout)
    (d : nat * SegmentDoc) : outcome DocLayout :=
  let '(doc_ord, doc) := d in
  let uri_offset := as_i32 (zlen (dl_uri_blob l)) in
  let l := push_uri l (doc_uri doc) in
  let uri_len := as_i32 (str_len (doc_uri doc)) in
  let flags := 0 in
  let flags := if doc_generated doc then Z.lor flags DOC_GENERATED else flags in
  let flags := if doc_readonly doc then Z.lor flags DOC_READONLY else flags in
  let postings_offset := as_i64 (zlen (dl_symbol_ord l)) in
  occs ← unwrap (doc_occurrences !! doc_ord);
  if bool_decide (zlen occs = 0) then
    Ok (push_doc_row l (mkDocEntryRow uri_offset uri_len (doc_id doc) (doc_epoch doc)
          (doc_target_ord doc) flags (-1) postings_offset 0 0))
  else
    let interval_first := as_i32 (zlen (dl_intervals l)) in
    let cs := chunks (Z.to_nat BLOCK_SIZE) (sort_doc occs) in
    l ← fold_r (doc_chunk caller_to_sorted) l cs;
    let postings_count := as_i32 (as_i64 (zlen (dl_symbol_ord l)) - postings_offset) in
    Ok (push_doc_row l (mkDocEntryRow uri_offset uri_len (doc_id doc) (doc_epoch doc)
          (doc_target_ord doc) flags interval_first postings_offset postings_count (zlen cs))).

Definition put_doc_row (d : DocEntryRow) : bytes :=
  put_i32 (de_uri_offset d) ++ put_i32 (de_uri_len d) ++ put_i64 (de_doc_id d) ++
  put_i32 (de_epoch d) ++ put_i32 (de_target_ord d) ++ put_i32 (de_doc_flags d) ++
  put_i32 (de_interval_first d) ++ put_i64 (de_postings_offset d) ++
  put_i32 (de_postings_count d) ++ put_i32 (de_interval_count d).
Definition put_interval (i : Z * Z * Z * Z) : bytes :=
  let '(fl, ll, off, cnt) := i in
  put_i32 fl ++ put_i32 ll ++ put_i64 off ++ put_i32 cnt ++ put_i32 0.

Definition serialize_doc_index (l : DocLayout) : bytes :=
  put_i64 (as_i64 (zlen (dl_docs l))) ++ put_i64 (as_i64 (zlen (dl_intervals l))) ++
  put_i64 (as_i64 (zlen (dl_uri_blob l))) ++ concat (put_doc_row <$> dl_docs l) ++
  concat (put_interval <$> dl_intervals l) ++ dl_uri_blob l.
Definition serialize_doc_postings (l : DocLayout) : bytes :=
  put_i64 (as_i64 (zlen (dl_symbol_ord l))) ++
  concat (put_col <$> [dl_symbol_ord l; dl_packed_start l; dl_packed_end l; dl_flags l]).

(** [build_doc_files]: [doc-index.bin], [doc-postings.bin] and the record count. *)
Definition build_doc_files (data : SegmentData) (caller_to_sorted : list Z) : outcome (bytes * bytes * Z) :=
  l ← fold_r (layout_doc (doc_occurrences data) caller_to_sorted) DocLayout_default
        (imap pair (docs data));
  Ok (serialize_doc_index l, serialize_doc_postings l, zlen (dl_symbol_ord l)).

(** ** Symbols, metadata and search *)

(** [push_str]: the blob, and the string's [(offset, len)]. *)
Definition push_str (blob : bytes) (s : list Z) : bytes * (Z * Z) :=
  (blob ++ as_bytes s, (as_i32 (zlen blob), as_i32 (str_len s))).

(** The symbol loop: the state is (blob, entries). *)
Definition push_symbol (data : SegmentData) (st : bytes * list (Z * Z * Z * Z * Z * Z)) (caller : Z)
    : outcome (bytes * list (Z * Z * Z * Z * Z * Z)) :=
  s ← unwrap (zget (symbols data) caller);
  let off := as_i32 (zlen st.1) in
  Ok (st.1 ++ as_bytes (ss_semantic_symbol s),
      st.2 ++ [(off, as_i32 (str_len (ss_semantic_symbol s)), ss_symbol_id s, ss_ref_group_ord s,
                ss_rename_group_ord s, ss_def_target_ord s)]).
Definition put_symbol (e : Z * Z * Z * Z * Z * Z) : bytes :=
  let '(off, len, id, rg, rn, dt) := e in
  put_i32 off ++ put_i32 len ++ put_i64 id ++ put_i32 rg ++ put_i32 rn ++ put_i32 dt ++ put_i32 0.
Definition serialize_symbol_index (data : SegmentData) (sorted_indices : list Z) : outcome bytes :=
  st ← fold_r (push_symbol data) ([], []) sorted_indices;
  Ok (put_i64 (as_i64 (zlen st.2)) ++ put_i64 (as_i64 (zlen (targets data))) ++
      put_i64 (as_i64 (zlen st.1)) ++ concat (put_symbol <$> st.2) ++
      concat (put_i64 <$> targets data) ++ st.1).

(** One row of [target-meta.bin] appended to (blob, rows). *)
Definition push_target_meta (st : bytes * bytes) (m : TargetMeta) : bytes * bytes :=
  let '(blob, rows) := st in
  let '(blob, r0) := push_str blob (bsp_id m) in
  let '(blob, r1) := push_str blob (scala_version m) in
  let '(blob, r2) := push_str blob (sourceroot m) in
  let '(blob, r3) := push_str blob (semanticdb_root m) in
  (blob, rows ++ concat (put_i32 <$> [r0.1; r0.2; r1.1; r1.2; r2.1; r2.2; r3.1; r3.2]) ++
         put_i64 (content_hash m) ++ put_i64 (options_hash m)).
Definition serialize_target_meta (data : SegmentData) : bytes :=
  let count := zlen (targets data) in
  let st := foldl (λ st i, push_target_meta st (default TargetMeta_default (zget (target_meta data) i)))
              ([], []) (seqZ 0 count) in
  put_i64 (as_i64 count) ++ put_i64 (as_i64 (zlen st.1)) ++ st.2 ++ st.1.

(** One row of [symbol-meta.bin] appended to (blob, rows). *)
Definition push_symbol_meta (st : bytes * bytes) (m : SymbolMeta) : bytes * bytes :=
  let '(blob, rows) := st in
  let '(blob, r0) := push_str blob (sm_display m) in
  let '(blob, r1) := push_str blob (sm_owner m) in
  let '(blob, r2) := push_str blob (sm_package_name m) in
  (blob, rows ++ concat (put_i32 <$> [r0.1; r0.2; r1.1; r1.2; r2.1; r2.2]) ++
         put_i32 (sm_kind m) ++ put_u32 (sm_properties m) ++ put_i32 (def_packed_start m) ++
         put_i32 (def_packed_end m) ++ put_i32 (def_doc_ord m) ++ put_i32 0).
Definition serialize_symbol_meta (data : SegmentData) (sorted_indices : list Z) : bytes :=
  let count := zlen sorted_indices in
  let st := foldl (λ st caller, push_symbol_meta st (default SymbolMeta_default (zget (symbol_meta data) caller)))
              ([], []) sorted_indices in
  put_i64 (as_i64 count) ++ put_i64 (as_i64 (zlen st.1)) ++ st.2 ++ st.1.

(** One row of [search.bin] appended to (blob, rows). *)
Definition push_search_row (caller_to_sorted : list Z) (st : bytes * bytes) (r : SearchRow)
    : outcome (bytes * bytes) :=
  let '(blob, ref) := push_str st.1 (normalized_name r) in
  sym ← unwrap (zget caller_to_sorted (as_usize (sr_symbol_ord r)));
  Ok (blob, st.2 ++ put_i32 ref.1 ++ put_i32 ref.2 ++ put_i32 sym ++ put_i32 0).
Definition serialize_search (data : SegmentData) (caller_to_sorted : list Z) : outcome bytes :=
  let rows := sort_by (λ a b, str_leb (normalized_name a) (normalized_name b)) (search_rows data) in
  st ← fold_r (push_search_row caller_to_sorted) ([], []) rows;
  Ok (put_i64 (as_i64 (zlen rows)) ++ put_i64 (as_i64 (zlen st.1)) ++ st.2 ++ st.1).

(** ** Header, checksums and the whole segment *)

Section write.
Context (crc32c : bytes → Z) `{DebugStr}.

Definition serialize_header (segment_id created_at_ms ref_group_count rename_group_count doc_count
    occurrence_count : Z) : outcome bytes :=
  let buf := put_u32 MAGIC ++ put_u16 VERSION ++ put_u16 0 ++ put_u64 segment_id ++
             put_i64 created_at_ms ++ put_u64 ref_group_count ++ put_u64 rename_group_count ++
             put_u64 doc_count ++ put_u64 occurrence_count ++ put_u64 0 in
  prefix ← unwrap (slice buf 0 HEADER_CHECKSUM_OFFSET);
  unwrap (set_u64 buf HEADER_CHECKSUM_OFFSET (crc32c prefix)).

Definition serialize_checksums (files : list (list Z * bytes)) : bytes :=
  put_i64 (as_i64 (zlen files)) ++
  concat ((λ f, put_i32 (as_i32 (str_len f.1)) ++ as_bytes f.1 ++ put_u64 (crc32c f.2)) <$> files).

(** [SegmentWriter::write], up to [publish]: the fourteen files and [checksums.bin]. *)
Definition build_segment (segment_id : Z) (data : SegmentData) (created_at_ms : Z)
    : outcome (list (list Z * bytes) * bytes) :=
  _ ← validate data;
  let words := target_word_count (zlen (targets data)) in
  sorted_indices ← sort_symbol_indices data;
  caller_to_sorted ← invert_order (zlen (symbols data)) sorted_indices;
  ref ← layout_groups (ref_occurrences data) words [];
  def ← layout_groups (def_occurrences data) words ref.2;
  rename ← layout_groups (rename_occurrences data) words def.2;
  let blocks := rename.2 in
  doc_files ← build_doc_files data caller_to_sorted;
  symbol_index ← serialize_symbol_index data sorted_indices;
  search ← serialize_search data caller_to_sorted;
  let occurrence_count := zlen (gl_doc_ord ref.1) + zlen (gl_doc_ord def.1) +
                          zlen (gl_doc_ord rename.1) + doc_files.2 in
  header ← serialize_header segment_id created_at_ms (as_u64 (zlen (ref_occurrences data)))
             (as_u64 (zlen (rename_occurrences data))) (as_u64 (zlen (docs data)))
             (as_u64 occurrence_count);
  let files :=
    [(HEADER_FILE, header);
     (REF_GROUP_INDEX_FILE, serialize_group_index (gl_entries ref.1) None);
     (DEF_GROUP_INDEX_FILE, serialize_group_index (gl_entries def.1) None);
     (RENAME_GROUP_INDEX_FILE, serialize_group_index (gl_entries rename.1) (Some (rename_profiles data)));
     (DOC_INDEX_FILE, doc_files.1.1);
     (SYMBOL_INDEX_FILE, symbol_index);
     (REF_POSTINGS_FILE, serialize_group_postings ref.1);
     (DEF_POSTINGS_FILE, serialize_group_postings def.1);
     (RENAME_POSTINGS_FILE, serialize_group_postings rename.1);
     (DOC_POSTINGS_FILE, doc_files.1.2);
     (BLOCK_INDEX_FILE, serialize_block_index blocks words);
     (TARGET_META_FILE, serialize_target_meta data);
     (SYMBOL_META_FILE, serialize_symbol_meta data sorted_indices);
     (SEARCH_FILE, search)] in
  Ok (files, serialize_checksums files).
End write.
