(* ===== verification/SegExample.v ===== *)
(** A small segment, built by the writer and opened by the reader: the concrete input of the
    store's witnesses. The checksum is the sum of the bytes. *)

From S2P Require Import Prelude RustStr IndexModel Bitset StoreFormat SegReader SegWriter.

Open Scope Z_scope.

Definition sum_crc (b : bytes) : Z := foldr Z.add 0 (byte_val <$> b) mod 2 ^ 32.
#[export] Instance plain_debug : DebugStr := λ s, s.

Definition occ (doc target sl sc el ec flags : Z) : GroupOcc :=
  mkGroupOcc doc (if doc =? 0 then 3 else 5) target (mkSpan sl sc el ec) flags.

(** Two documents of two targets; three symbols, given out of order; the second reference
    group is empty; one reference of the first group is stale. *)
Definition small_data : SegmentData := {|
  docs := [mkSegmentDoc (lit "file:///a.scala") 11 3 0 false false;
           mkSegmentDoc (lit "file:///b.scala") 12 5 1 true false];
  targets := [100; 200];
  symbols := [mkSegmentSymbol (lit "p/B#") 2 (-1) (-1) 1;
              mkSegmentSymbol (lit "p/A#") 1 0 0 0;
              mkSegmentSymbol (lit "p/C#m().") 3 1 (-1) (-1)];
  ref_occurrences :=
    [[occ 1 1 7 2 7 5 OCC_EDITABLE; occ 0 0 4 1 4 2 0;
      mkGroupOcc 0 2 0 (mkSpan 1 1 1 2) 0]; []];
  def_occurrences := [[occ 0 0 0 6 0 7 OCC_DEFINITION]; []];
  rename_occurrences := [[occ 0 0 0 6 0 7 (OCC_DEFINITION + OCC_EDITABLE); occ 1 1 7 2 7 5 0]];
  rename_profiles := [mkSegRenameProfile true false false true false true 1 4];
  doc_occurrences :=
    [[{| do_symbol_ord := 1; do_span := mkSpan 4 1 4 20; do_flags := 0 |};
      {| do_symbol_ord := 2; do_span := mkSpan 4 3 4 9; do_flags := 0 |};
      {| do_symbol_ord := 1; do_span := mkSpan 0 6 0 7; do_flags := OCC_DEFINITION |}];
     [{| do_symbol_ord := 0; do_span := mkSpan 7 2 7 5; do_flags := 0 |}]];
  target_meta := [mkTargetMeta (lit "a") (lit "3.3") (lit "/w") (lit "/w/out") 9 8;
                  mkTargetMeta (lit "b") (lit "3.3") (lit "/w") (lit "/w/out") 7 6];
  symbol_meta := [mkSymbolMeta (lit "B") (lit "p/") (lit "p") 13 0 (-1) (-1) (-1);
                  mkSymbolMeta (lit "A") (lit "p/") (lit "p") 13 0 6 7 0;
                  mkSymbolMeta (lit "m") (lit "C") (lit "p") 3 0 6 7 1];
  search_rows := [mkSearchRow (lit "b") 0; mkSearchRow (lit "a") 1; mkSearchRow (lit "m") 2]
|}.

Definition built : outcome (list (list Z * bytes) * bytes) := build_segment sum_crc 1 small_data 1234.

(** The directory holding the built files. *)
Definition dir_of (files : list (list Z * bytes)) (checksums : bytes) (path : list Z) : FileRead :=
  match List.find (λ f, str_eqb (dir_join (lit "seg") f.1) path) (files ++ [(CHECKSUMS_FILE, checksums)]) with
  | Some f => Found f.2
  | None => NotFound
  end.
Definition small_dir (path : list Z) : FileRead :=
  match built with Ok (files, checksums) => dir_of files checksums path | Err _ => NotFound end.
