(* ===== verification/SegScan.v ===== *)
(** What a reader that opened a segment answers: its accessors do not panic, a group scan
    with block skipping is the filter of the whole group, symbol-at-position with interval
    pruning is the best covering occurrence, and the binary search finds exactly the
    symbols of the dictionary. *)

From S2P Require Import Prelude RustStr IndexModel Bitset StoreFormat SegReader SegWriter SegSafe SegExample.
From Stdlib Require Import Sorting.Sorted.

Open Scope Z_scope.

(** ** Scans as filters *)

(** The filter a scan applies to each record. *)
Definition wanted (s : SegmentReader) (allowed : option TargetBitset) (require_editable : bool)
    (rec : GroupRecord) : bool :=
  match allowed with
  | Some a => bool_decide (bitset_contains a (gr_target_ord rec) = Some true)
  | None => true
  end &&
  bool_decide (epoch_of s (gr_doc_ord rec) = Some (gr_doc_epoch rec)) &&
  (negb require_editable || rec_editable rec).

(** All the records of a group, in order. *)
Definition group_records (s : SegmentReader) (postings : nat) (e : GroupIndexView)
    : option (list GroupRecord) :=
  mapM (group_record (file s postings)) (seqZ (gv_offset e) (gv_count e)).

(** ** Lemmas *)

Lemma mapM_seqZ {A B : Type} (f : Z → option B) (g : A → B) first (l : list A) :
  (∀ k x, zget l k = Some x → f (first + k) = Some (g x)) →
  mapM f (seqZ first (zlen l)) = Some (g <$> l).
Proof.
  revert first. induction l as [|x l IH]; intros first Hf; [done|].
  rewrite zlen_cons, seqZ_cons by (pose proof (zlen_nonneg l); lia).
  change (mapM f (first :: ?t)) with (y ← f first; ys ← mapM f t; Some (y :: ys)).
  rewrite <- (Z.add_0_r first), (Hf 0 x) by done. cbn [mbind option_bind].
  replace (Z.pred (1 + zlen l)) with (zlen l) by lia.
  rewrite Z.add_0_r, IH; [done|]. intros k y Hk.
  replace (Z.succ first + k) with (first + (k + 1)) by lia. apply Hf.
  change (x :: l) with ([x] ++ l). rewrite zget_app_r; change (zlen [x]) with 1.
  - by replace (k + 1 - 1) with k by lia.
  - apply zget_Some_lt in Hk. lia.
Qed.

Lemma collect_seqZ {A B : Type} (f : Z → option (list B)) (g : A → list B) first (l : list A) :
  (∀ k x, zget l k = Some x → f (first + k) = Some (g x)) →
  collect f (seqZ first (zlen l)) = Some (concat (g <$> l)).
Proof. intros Hf. unfold collect. by rewrite (mapM_seqZ _ g). Qed.

Lemma concat_filter {A : Type} (P : A → bool) l :
  concat ((λ x, if P x then [x] else []) <$> l) = List.filter P l.
Proof. induction l as [|x l IH]; [done|]. cbn. rewrite IH. by destruct (P x). Qed.

Lemma filter_nil_all {A : Type} (P : A → bool) l : (∀ x, x ∈ l → P x = false) → List.filter P l = [].
Proof.
  intros H. induction l as [|x l IH]; [done|]. cbn. rewrite H by left.
  apply IH. intros y Hy. apply H. by right.
Qed.

Lemma concat_filter_concat {A : Type} (P : A → bool) (ls : list (list A)) :
  concat (List.filter P <$> ls) = List.filter P (concat ls).
Proof. induction ls as [|l ls IH]; [done|]. cbn. by rewrite List.filter_app, <- IH. Qed.

(** The blocks of a list, by position. *)
Lemma concat_blocks {A : Type} (l : list A) nb :
  0 ≤ nb →
  concat ((λ k, take 256 (drop (Z.to_nat (k * 256)) l)) <$> seqZ 0 nb) = take (Z.to_nat (nb * 256)) l.
Proof.
  intros Hnb. pattern nb. apply natlike_ind; [done| |done]. clear nb Hnb. intros k Hk IH.
  replace (Z.succ k) with (k + 1) by lia. rewrite seqZ_snoc, fmap_app, concat_app, IH by done. cbn [fmap list_fmap concat].
  rewrite app_nil_r, take_take_drop. f_equal. lia.
Qed.

Lemma zget_take_drop {A : Type} (l : list A) a n k x :
  0 ≤ a → zget (take n (drop (Z.to_nat a) l)) k = Some x → zget l (a + k) = Some x.
Proof.
  intros Ha. unfold zget. destruct (Z.leb_spec 0 k); [|done].
  destruct (Z.leb_spec 0 (a + k)); [|lia]. intros Hx.
  apply lookup_take_Some in Hx as [Hx _]. rewrite lookup_drop in Hx.
  by replace (Z.to_nat (a + k)) with (Z.to_nat a + Z.to_nat k)%nat by lia.
Qed.

(** Records are determined by the file. *)
Lemma reads_all_eq f n first recs recs' :
  reads_all f n first recs → reads_all f n first recs' → zlen recs = zlen recs' → recs = recs'.
Proof.
  intros H1 H2 Hl. apply list_eq. intros i.
  destruct (recs !! i) as [x|] eqn:E1, (recs' !! i) as [y|] eqn:E2; try done.
  - rewrite <- zget_of_nat in E1, E2. apply H1 in E1. apply H2 in E2. f_equal.
    apply ra_record in E1, E2. congruence.
  - apply lookup_lt_Some in E1. apply lookup_ge_None in E2. unfold zlen in Hl. lia.
  - apply lookup_lt_Some in E2. apply lookup_ge_None in E1. unfold zlen in Hl. lia.
Qed.

Lemma any_lane_total f l :
  (∀ w, w ∈ l → is_Some (f w)) →
  ∃ b, any_lane f l = Some b ∧ (b = false → ∀ w, w ∈ l → f w = Some false).
Proof.
  intros Hf. induction l as [|w l IH]; cbn [any_lane].
  - exists false. split; [done|]. by intros _ w ?%elem_of_nil.
  - destruct (Hf w) as [b Hb]; [left|]. rewrite Hb. cbn [mbind option_bind]. destruct b.
    + by exists true.
    + destruct IH as (b & -> & Hl); [intros; apply Hf; by right|]. exists b. split; [done|].
      intros -> w' [->|Hw]%elem_of_cons; [done|]. by apply Hl.
Qed.

Lemma group_view_range f g e :
  group_index_view f g = Some e → inS 32 (gv_count e) ∧ inS 32 (gv_block_index_offset e).
Proof.
  unfold group_index_view. intros H. apply bind_Some in H as (o & _ & H).
  apply bind_Some in H as (c & Hc & H). apply bind_Some in H as (b & Hb & H). injection H as <-.
  by apply read_i32_Some in Hc as (_ & _ & ?), Hb as (_ & _ & ?).
Qed.

Section scans.
Context (s : SegmentReader) (z : sizes) (Hv : valid s z).
Context (allowed : option TargetBitset) (Hallowed : match allowed with Some a => bitset_wf a | None => True end).
Context (editable : bool).

Lemma doc_epoch_get d :
  0 ≤ d < doc_count s → ∃ e, zget (doc_epochs s) d = Some e ∧ epoch_of s d = Some e.
Proof.
  intros Hd. pose proof (v_epochs _ _ Hv) as He%mapM_Some.
  destruct (chain_range_total _ _ _ _ d He) as (e & He1 & He2); [lia|].
  rewrite Z.sub_0_r in He2. eauto.
Qed.

Lemma scan_record_exact idx n r rec :
  reads_as (file s idx) n r rec → record_ok s rec →
  scan_record s (file s idx) allowed editable r = Some (if wanted s allowed editable rec then [rec] else []).
Proof.
  intros Hr (Hd & Ht & _). unfold scan_record. rewrite (ra_record _ _ _ _ Hr). cbn [mbind option_bind].
  pose proof (ra_target _ _ _ _ Hr) as (_ & _ & Htr)%read_i32_Some.
  pose proof (ra_doc _ _ _ _ Hr) as (_ & _ & Hdr)%read_i32_Some. unfold inS in Htr, Hdr.
  unfold wanted. destruct (doc_epoch_get _ Hd) as (e & He1 & He2).
  rewrite (as_usize_nonneg (gr_doc_ord rec)), He1, He2 by lia.
  assert (∀ w : bool,
    (if negb w then Some [] else
     epoch ← Some e;
     if negb (gr_doc_epoch rec =? epoch) then Some [] else
     if editable && negb (has (as_u32 (gr_flags rec)) OCC_EDITABLE) then Some [] else Some [rec]) =
    Some (if w && bool_decide (Some e = Some (gr_doc_epoch rec)) && (negb editable || rec_editable rec)
          then [rec] else [])) as Htail.
  { intros w. destruct w; cbn [negb andb]; [|done]. cbn [mbind option_bind].
    destruct (Z.eqb_spec (gr_doc_epoch rec) e) as [He|He]; cbn [negb].
    - rewrite bool_decide_true by congruence. unfold rec_editable. by destruct editable, (has _ _).
    - by rewrite bool_decide_false by congruence. }
  destruct allowed as [a|]; [|apply (Htail true)].
  destruct (Z.ltb_spec (gr_target_ord rec) 0); [lia|].
  assert (as_u32 (gr_target_ord rec) = gr_target_ord rec) as ->.
  { apply wrapU_id. unfold inU. lia. }
  rewrite (bitset_contains_bit _ _ Hallowed (proj1 Ht)).
  destruct (bit_at (words a) (gr_target_ord rec)); [apply (Htail true)|apply (Htail false)].
Qed.

(** Skipping a block on its target words drops no record that passes the filter. *)
Lemma block_intersects_sound blk first recs a :
  block_ok s blk first recs → 0 ≤ blk < 2 ^ 63 →
  Forall (λ rec, 0 ≤ gr_target_ord rec) recs →
  ∃ b, block_intersects s blk (words a) = Some b ∧
    (b = false → ∀ rec, rec ∈ recs → bit_at (words a) (gr_target_ord rec) = false).
Proof.
  intros [_ _ _ (ws & Hl & Hws & Hread & Hbits)] Hblk Hpos. unfold block_intersects.
  rewrite as_usize_nonneg by lia.
  match goal with |- context [any_lane ?f ?l] => destruct (any_lane_total f l) as (b & -> & Hb) end.
  { intros w Hw%elem_of_seqZ_0. rewrite Hread by lia.
    destruct (zget_is_Some ws w) as [x ->]; [lia|].
    destruct (zget_is_Some (words a) w) as [y ->]; [lia|]. by eexists. }
  exists b. split; [done|]. intros Hbf rec Hrec. specialize (Hb Hbf).
  destruct (bit_at (words a) (gr_target_ord rec)) eqn:E; [exfalso|done].
  rewrite Forall_forall in Hpos. pose proof (Hpos _ Hrec) as Ht0. cbn in Ht0.
  assert (bit_at ws (gr_target_ord rec) = true) as Ew.
  { rewrite Hbits by done. apply bool_decide_eq_true, list_elem_of_fmap. eauto. }
  unfold bit_at in E, Ew. set (w := Z.shiftr (gr_target_ord rec) 6) in *.
  destruct (zget (words a) w) as [y|] eqn:Ey; [|done]. destruct (zget ws w) as [x|] eqn:Ex; [|done].
  assert (w ∈ seqZ 0 (Z.min (rd_words s) (zlen (words a)))) as Hw.
  { apply elem_of_seqZ_0. apply zget_Some_lt in Ey, Ex. lia. }
  specialize (Hb _ Hw). apply elem_of_seqZ_0 in Hw. rewrite Hread, Ex, Ey in Hb by lia.
  cbn in Hb. injection Hb as Hb. apply negb_false_iff, Z.eqb_eq in Hb.
  assert (Z.testbit (Z.land x y) (Z.land (gr_target_ord rec) 63) = false) as Hf by (rewrite Hb; apply Z.bits_0).
  rewrite Z.land_spec, E, Ew in Hf. done.
Qed.

Lemma scan_block_exact idx n e first k recs :
  block_ok s (gv_block_index_offset e + k) first recs → 0 ≤ gv_block_index_offset e + k < 2 ^ 63 →
  reads_all (file s idx) n first recs → Forall (record_ok s) recs →
  scan_block s (file s idx) e allowed editable k = Some (List.filter (wanted s allowed editable) recs).
Proof.
  intros Hblk Hb Hr Hok. unfold scan_block.
  assert (Forall (λ rec, 0 ≤ gr_target_ord rec) recs) as Hpos.
  { eapply Forall_impl; [exact Hok|]. intros rec (_ & ? & _). lia. }
  assert (∃ b, match allowed with
               | Some a => block_intersects s (gv_block_index_offset e + k) (words a)
               | None => Some true
               end = Some b ∧
    (b = false → ∀ rec, rec ∈ recs → wanted s allowed editable rec = false)) as (b & -> & Hskip).
  { unfold wanted. destruct allowed as [a|] eqn:Ea; [|by exists true].
    destruct (block_intersects_sound _ _ _ a Hblk Hb Hpos) as (b & -> & Hb').
    exists b. split; [done|]. intros -> rec Hrec. rewrite Forall_forall in Hpos.
    rewrite (bitset_contains_bit _ _ Hallowed (Hpos _ Hrec)), Hb' by done. done. }
  cbn [mbind option_bind]. destruct b; cbn [negb].
  2:{ f_equal. symmetry. apply filter_nil_all. auto. }
  rewrite as_usize_nonneg by lia. destruct Hblk as [Hf Hc He _].
  rewrite He, Hf, Hc. cbn [mbind option_bind].
  destruct (editable && (zlen (List.filter rec_editable recs) =? 0)) eqn:Ee.
  - f_equal. symmetry. apply filter_nil_all. intros rec Hrec.
    apply andb_true_iff in Ee as [-> Ee]. apply Z.eqb_eq in Ee.
    unfold wanted. destruct (rec_editable rec) eqn:Er; [exfalso|by rewrite andb_false_r].
    assert (rec ∈ List.filter rec_editable recs) as Hin by (by apply elem_of_filter_bool).
    apply elem_of_zget in Hin as [i Hi]. apply zget_Some_lt in Hi. lia.
  - rewrite <- concat_filter. apply collect_seqZ. intros i rec Hi.
    eapply scan_record_exact; [by apply Hr|].
    rewrite Forall_forall in Hok. apply Hok. by eapply zget_elem_of.
Qed.

(** Any group scan is the filter of the group's records. *)
Lemma scan_group_exact gi idx n bc g e :
  postings_ok s idx n → group_ok s gi idx n bc g e →
  ∃ recs, group_records s idx e = Some recs ∧ Forall (record_ok s) recs ∧
    scan_group s idx e allowed editable = Some (List.filter (wanted s allowed editable) recs).
Proof.
  intros Hp [Hview (Ho & Hc0 & Hn) Hempty Hblocks].
  destruct (reads_all_total s idx n (gv_offset e) (gv_count e)) as (recs & Hl & Hr & Hok);
    [apply Hp|lia..|].
  exists recs. split; [|split; [done|]].
  { unfold group_records. rewrite <- Hl, (mapM_seqZ _ id).
    - by rewrite list_fmap_id.
    - intros k rec Hk. by apply Hr, ra_record in Hk. }
  unfold scan_group. destruct (Z.eqb_spec (gv_count e) 0) as [Hz|Hnz].
  { destruct recs; [done|]. rewrite zlen_cons in Hl. pose proof (zlen_nonneg recs). lia. }
  assert (0 < gv_count e) as Hpos by lia. destruct (Hblocks Hpos) as (Hb0 & Hb1 & Hbk).
  pose proof (div_ceil_256 _ Hpos) as Hdc.
  change (Z.quot (gv_count e + BLOCK_SIZE - 1) BLOCK_SIZE) with (Z.quot (gv_count e + 256 - 1) 256).
  rewrite Z.quot_div_nonneg by lia. fold (div_ceil (gv_count e) 256).
  set (nb := div_ceil (gv_count e) 256) in *.
  set (blk := λ k, take 256 (drop (Z.to_nat (k * 256)) recs)).
  assert (∀ k, 0 ≤ k < nb →
    scan_block s (file s idx) e allowed editable k = Some (List.filter (wanted s allowed editable) (blk k))) as Hscan.
  { intros k Hk. destruct (Hbk k Hk) as (recs' & Hl' & Hr' & Hbok).
    assert (recs' = blk k) as ->.
    { eapply reads_all_eq; [exact Hr'| |].
      - intros i rec Hi. apply zget_take_drop in Hi; [|lia]. rewrite <- Z.add_assoc. by apply Hr.
      - rewrite Hl'. unfold blk, zlen in *. rewrite length_take, length_drop. lia. }
    apply (scan_block_exact idx n _ _ _ _ Hbok); [|done|].
    - destruct (group_view_range _ _ _ Hview) as [Hc32 Hb32]. unfold inS in *. lia.
    - by apply Forall_take, Forall_drop. }
  assert (collect (scan_block s (file s idx) e allowed editable) (seqZ 0 (zlen (seqZ 0 nb))) =
    Some (concat ((λ k, List.filter (wanted s allowed editable) (blk k)) <$> seqZ 0 nb))) as Hcol.
  { apply collect_seqZ. intros k x Hk. pose proof Hk as Hlt%zget_Some_lt.
    rewrite zlen_seqZ in Hlt by lia. rewrite zget_seqZ in Hk by lia. injection Hk as <-. by apply Hscan. }
  rewrite zlen_seqZ in Hcol by lia. rewrite Hcol. f_equal.
  change (λ k, List.filter (wanted s allowed editable) (blk k)) with
    (List.filter (wanted s allowed editable) ∘ blk).
  rewrite list_fmap_compose, concat_filter_concat. f_equal.
  unfold blk. rewrite concat_blocks by lia. apply take_ge. unfold zlen in Hl. lia.
Qed.
End scans.

(** ** Symbol at a position *)

(** The span of a document record, decoded. *)
Definition rec_span (rec : DocRecord) : Span :=
  let ps := as_u32 (dr_packed_start rec) in
  let pe := as_u32 (dr_packed_end rec) in
  mkSpan (unpack_line ps) (unpack_char ps) (unpack_line pe) (unpack_char pe).

(** A record covers a cursor when its span contains it; a character past the packed range
    counts as the last one. *)
Definition covers (line character : Z) (rec : DocRecord) : bool :=
  span_contains (rec_span rec) line (Z.min character CHAR_MASK).

Definition rec_size (rec : DocRecord) : Z := as_u32 (dr_packed_end rec) - as_u32 (dr_packed_start rec).

(** The hit reported for a record. *)
Definition rec_hit (doc_ord : Z) (rec : DocRecord) : OccurrenceHit :=
  mkHit (dr_symbol_ord rec) doc_ord (rec_span rec)
    (if has (as_u32 (dr_flags rec)) OCC_DEFINITION then Definition_ else Reference) (dr_flags rec).

Definition cand_of (rec : DocRecord) : Z * Z * Z * Z :=
  (as_u32 (dr_packed_start rec), as_u32 (dr_packed_end rec), dr_symbol_ord rec, dr_flags rec).

Lemma hit_of_cand d rec : hit_of d (cand_of rec) = rec_hit d rec.
Proof. done. Qed.

(** Containment on packed positions, for a line the packing can hold. *)
Lemma covers_packed line character rec :
  0 ≤ line → 0 ≤ character →
  covers line character rec = true ↔
  line ≤ LINE_MAX ∧ as_u32 (dr_packed_start rec) ≤ pack line character ≤ as_u32 (dr_packed_end rec).
Proof.
  intros Hl Hc. unfold covers, rec_span, span_contains. cbn [start_line start_char end_line end_char].
  pose proof (wrapU_range 32 (dr_packed_start rec) ltac:(lia)) as Hs.
  pose proof (wrapU_range 32 (dr_packed_end rec) ltac:(lia)) as He.
  change (wrapU 32) with as_u32 in *. unfold inU in *.
  generalize dependent (as_u32 (dr_packed_start rec)). generalize dependent (as_u32 (dr_packed_end rec)).
  intros pe Hpe ps Hps. rewrite !unpack_line_eq, !unpack_char_eq, pack_eq, CHAR_MASK_eq, LINE_MAX_eq by done.
  rewrite andb_true_iff, !orb_true_iff, !andb_true_iff, !Z.ltb_lt, !Z.eqb_eq, !Z.leb_le.
  Z.to_euclidean_division_equations. lia.
Qed.

Lemma doc_entry_reads s d e :
  doc_entry s d = Some e →
  read_i32 (file s DOC_INDEX) (doc_entry_base d + 28) = Some (dv_interval_first e) ∧
  read_i32 (file s DOC_INDEX) (doc_entry_base d + 44) = Some (dv_interval_count e).
Proof.
  unfold doc_entry. intros H. apply bind_Some in H as (a & Ha & H). apply bind_Some in H as (b & _ & H).
  apply bind_Some in H as (c & _ & H). apply bind_Some in H as (f & Hf & H). by injection H as <-.
Qed.

Section symbol_at.
Context (s : SegmentReader) (n ic ub : Z) (Hdi : doc_index_ok s n ic ub).
Context (d : Z) (e : DocEntryView) (He : doc_ok s n ic d e).
Context (line character : Z) (Hline : inU 32 line) (Hchar : inU 32 character).

Let off := dv_postings_offset e.
Let count := dv_postings_count e.

(** [b] is the best candidate among the document's records before position [m]. *)
Definition best_upto (m : Z) (b : option (Z * Z * Z * Z)) : Prop :=
  match b with
  | None => ∀ r rec, off ≤ r < m → doc_record s r = Some rec → covers line character rec = false
  | Some c => ∃ r rec, off ≤ r < m ∧ doc_record s r = Some rec ∧ covers line character rec = true ∧
      c = cand_of rec ∧
      ∀ r' rec', off ≤ r' < m → doc_record s r' = Some rec' → covers line character rec' = true →
        rec_size rec < rec_size rec' ∨ (rec_size rec = rec_size rec' ∧ r ≤ r')
  end.

(** Records that do not cover the cursor can be skipped. *)
Lemma best_skip m m' b :
  best_upto m b → m ≤ m' →
  (∀ r rec, m ≤ r < m' → doc_record s r = Some rec → covers line character rec = false) →
  best_upto m' b.
Proof.
  intros Hb Hm Hno. destruct b as [c|]; cbn in *.
  - destruct Hb as (r & rec & Hr & Hrec & Hcov & -> & Hmin). exists r, rec.
    split_and!; [lia..|done|done|done|]. intros r' rec' Hr' Hrec' Hcov'.
    destruct (Z.lt_ge_cases r' m); [apply Hmin; [lia|done|done]|].
    rewrite (Hno r' rec') in Hcov' by (done || lia). done.
  - intros r rec Hr Hrec. destruct (Z.lt_ge_cases r m); [apply (Hb r); [lia|done]|apply (Hno r); [lia|done]].
Qed.

(** What one more record does to the best candidate. *)
Definition keep (b : option (Z * Z * Z * Z)) (rec : DocRecord) : option (Z * Z * Z * Z) :=
  if covers line character rec then
    match b with
    | None => Some (cand_of rec)
    | Some (bs, be, _, _) => if rec_size rec <? be - bs then Some (cand_of rec) else b
    end
  else b.

Lemma best_step m b rec :
  best_upto m b → off ≤ m → doc_record s m = Some rec → best_upto (m + 1) (keep b rec).
Proof.
  intros Hb Hm Hrec. unfold keep. destruct (covers line character rec) eqn:Hcov.
  2:{ apply (best_skip m); [done|lia|]. intros r rec' Hr Hrec'. assert (r = m) as -> by lia. congruence. }
  assert (∀ r rec', off ≤ r < m + 1 → doc_record s r = Some rec' → r < m ∨ r = m ∧ rec' = rec) as Hsplit.
  { intros r rec' Hr Hrec'. destruct (Z.eq_dec r m) as [->|]; [right|left; lia]. split; congruence. }
  destruct b as [[[[bs be] sym] fl]|]; cbn in Hb.
  - destruct Hb as (r & brec & Hr & Hbrec & Hbcov & [= -> -> -> ->] & Hmin).
    change (as_u32 (dr_packed_end brec) - as_u32 (dr_packed_start brec)) with (rec_size brec).
    destruct (Z.ltb_spec (rec_size rec) (rec_size brec)).
    + exists m, rec. split_and!; [lia..|done|done|done|]. intros r' rec' Hr' Hrec' Hcov'.
      destruct (Hsplit _ _ Hr' Hrec') as [?|[-> ->]]; [|lia].
      destruct (Hmin r' rec') as [?|[??]]; [lia|done|done|lia|lia].
    + exists r, brec. split_and!; [lia..|done|done|done|]. intros r' rec' Hr' Hrec' Hcov'.
      destruct (Hsplit _ _ Hr' Hrec') as [?|[-> ->]]; [|lia]. by apply Hmin; [lia|..].
  - exists m, rec. split_and!; [lia..|done|done|done|]. intros r' rec' Hr' Hrec' Hcov'.
    destruct (Hsplit _ _ Hr' Hrec') as [?|[-> ->]]; [|lia].
    rewrite (Hb r' rec') in Hcov' by (done || lia). done.
Qed.

Lemma doc_record_reads r rec :
  doc_record s r = Some rec → 0 ≤ r < n → doc_reads_as s n r rec ∧ doc_record_ok s rec.
Proof.
  intros Hr Hn. destruct (di_records _ _ _ _ Hdi r Hn) as (rec' & Hrd & Hok).
  pose proof (da_record _ _ _ _ Hrd). by assert (rec' = rec) as -> by congruence.
Qed.

Lemma doc_reads_unsigned r rec :
  doc_reads_as s n r rec →
  doc_start s n r (as_u32 (dr_packed_start rec)) ∧ doc_end s n r (as_u32 (dr_packed_end rec)).
Proof.
  intros Hr. unfold doc_start, doc_end. rewrite !read_u32_of_i32.
  by rewrite (da_start _ _ _ _ Hr), (da_end _ _ _ _ Hr).
Qed.

(** A record that starts after the cursor stops the scan: later ones do too. *)
Lemma starts_after m rec :
  off ≤ m < off + count → doc_record s m = Some rec →
  pack line character < as_u32 (dr_packed_start rec) →
  ∀ r rec', m ≤ r < off + count → doc_record s r = Some rec' → covers line character rec' = false.
Proof.
  intros Hm Hrec Hlt r rec' Hr Hrec'. unfold off, count, inU in *.
  destruct (dk_range _ _ _ _ _ He) as (? & ? & ?).
  destruct (doc_record_reads _ _ Hrec) as [[Hs _]%doc_reads_unsigned _]; [lia|].
  destruct (doc_record_reads _ _ Hrec') as [[Hs' _]%doc_reads_unsigned _]; [lia|].
  assert (as_u32 (dr_packed_start rec) ≤ as_u32 (dr_packed_start rec')) as Hle.
  { destruct (Z.eq_dec m r) as [->|]; [unfold doc_start in *; by simplify_eq|].
    destruct (dk_blocks _ _ _ _ _ He) as (_ & _ & _ & _ & Hsorted); [lia|].
    eapply (Hsorted m r); [lia|lia|lia|done|done]. }
  apply not_true_iff_false. rewrite covers_packed by lia. lia.
Qed.

Lemma read_u32_usize f o v : zlen f < 2 ^ 63 → read_u32 f o = Some v → read_u32 f (as_usize o) = Some v.
Proof. intros Hf Hv. pose proof Hv as (?&?&_)%read_u32_Some. by rewrite as_usize_nonneg by lia. Qed.
Lemma read_i32_usize f o v : zlen f < 2 ^ 63 → read_i32 f o = Some v → read_i32 f (as_usize o) = Some v.
Proof. intros Hf Hv. pose proof Hv as (?&?&_)%read_i32_Some. by rewrite as_usize_nonneg by lia. Qed.

(** The record loop of one block extends the best candidate over the block. *)
Lemma cover_records_exact lo k c b :
  line ≤ LINE_MAX → 0 ≤ c → off ≤ lo + k → lo + k + c ≤ off + count → best_upto (lo + k) b →
  ∃ b', cover_records (file s DOC_POSTINGS) n (pack line character) lo (seqZ k c) b = Some b' ∧
        best_upto (lo + k + c) b'.
Proof.
  intros Hmax Hc. revert k b. pattern c. apply natlike_ind; [| |done]; clear c Hc.
  { intros k b _ _ Hb. exists b. split; [done|]. by rewrite Z.add_0_r. }
  intros c Hc IH k b Hk Hkc Hb. destruct (dk_range _ _ _ _ _ He) as (? & ? & ?).
  rewrite seqZ_cons by lia. replace (Z.pred (Z.succ c)) with c by lia. cbn [cover_records].
  destruct (di_records _ _ _ _ Hdi (lo + k)) as (rec & Hrd & Hok); [unfold off, count in *; lia|].
  pose proof (da_record _ _ _ _ Hrd) as Hrec.
  destruct (doc_reads_unsigned _ _ Hrd) as [Hs Hee]. unfold doc_start, doc_end in Hs, Hee.
  destruct (di_cols _ _ _ _ Hdi) as (_ & _ & _ & Hfit).
  rewrite (read_u32_usize _ _ _ Hfit Hs). cbn [mbind option_bind].
  destruct (Z.ltb_spec (pack line character) (as_u32 (dr_packed_start rec))) as [Hlt|Hge].
  { exists b. split; [done|]. apply (best_skip (lo + k)); [done|lia|].
    intros r rec' Hr Hrec'. eapply (starts_after (lo + k)); [lia|done|done| |done]. lia. }
  rewrite (read_u32_usize _ _ _ Hfit Hee). cbn [mbind option_bind].
  assert ((if pack line character <=? as_u32 (dr_packed_end rec) then
             if match b with
                | Some (bs, be, _, _) => as_u32 (dr_packed_end rec) - as_u32 (dr_packed_start rec) <? be - bs
                | None => true
                end
             then sym ← read_i32 (file s DOC_POSTINGS) (as_usize (8 + 4 * (lo + k)));
                  flags ← read_i32 (file s DOC_POSTINGS) (as_usize (8 + 12 * n + 4 * (lo + k)));
                  Some (Some (as_u32 (dr_packed_start rec), as_u32 (dr_packed_end rec), sym, flags))
             else Some b
           else Some b) = Some (keep b rec)) as Hkeep.
  { unfold inU in *. assert (covers line character rec = (pack line character <=? as_u32 (dr_packed_end rec))) as Hcov.
    { apply Bool.eq_iff_eq_true. rewrite covers_packed, Z.leb_le by lia. lia. }
    rewrite (read_i32_usize _ _ _ Hfit (da_symbol _ _ _ _ Hrd)), (read_i32_usize _ _ _ Hfit (da_flags _ _ _ _ Hrd)).
    unfold keep. rewrite Hcov. destruct (_ <=? _); [|done].
    destruct b as [[[[bs be] sy] fl]|]; cbn [mbind option_bind]; [|done].
    change (as_u32 (dr_packed_end rec) - as_u32 (dr_packed_start rec)) with (rec_size rec).
    by destruct (_ <? _). }
  rewrite Hkeep. cbn [mbind option_bind].
  destruct (IH (Z.succ k) (keep b rec)) as (b' & Hb' & Hres).
  - lia.
  - lia.
  - replace (lo + Z.succ k) with (lo + k + 1) by lia. apply best_step; [done|lia|done].
  - exists b'. split; [done|]. by replace (lo + k + Z.succ c) with (lo + Z.succ k + c) by lia.
Qed.

(** The line the intervals are compared with. *)
Lemma line_cases : as_i32 line = line ∧ line ≤ i32_max ∨ as_i32 line < 0 ∧ LINE_MAX < line.
Proof.
  unfold inU in Hline. rewrite LINE_MAX_eq. unfold i32_max. destruct (Z.lt_ge_cases line (2 ^ 31)).
  - left. split; [|lia]. apply wrapS_id; [done|]. unfold inS. lia.
  - right. split; [|lia]. unfold as_i32, wrapS.
    replace (line + 2 ^ (32 - 1)) with (line - 2 ^ 31 + 1 * 2 ^ 32) by lia.
    rewrite Z_mod_plus_full, Z.mod_small by lia. lia.
Qed.

(** Cursors below the lines of an interval: nothing of it covers them. *)
Lemma interval_below idx lo c fl ll r rec :
  interval_entry s idx = Some (mkIntervalView fl ll lo c) →
  (∀ j v, 0 ≤ j < c → doc_end s n (lo + j) v → unpack_line v ≤ ll) →
  ll < line → lo ≤ r < lo + c → 0 ≤ r < n → doc_record s r = Some rec → covers line character rec = false.
Proof.
  intros _ Hends Hll Hr Hn Hrec. destruct (doc_record_reads _ _ Hrec Hn) as [[_ Hee]%doc_reads_unsigned _].
  specialize (Hends (r - lo) (as_u32 (dr_packed_end rec)) ltac:(lia)).
  replace (lo + (r - lo)) with r in Hends by lia. specialize (Hends Hee).
  unfold inU in *. apply not_true_iff_false. rewrite covers_packed by lia.
  rewrite pack_eq, LINE_MAX_eq, CHAR_MASK_eq by lia. rewrite unpack_line_eq in Hends.
  Z.to_euclidean_division_equations. lia.
Qed.

(** The fields of an interval entry, where the loop reads them. *)
Lemma interval_reads idx v :
  interval_entry s idx = Some v →
  let ie := 24 + doc_count s * DOC_ENTRY_SIZE + as_usize idx * INTERVAL_ENTRY_SIZE in
  read_i32 (file s DOC_INDEX) ie = Some (iv_first_line v) ∧
  read_i32 (file s DOC_INDEX) (ie + 4) = Some (iv_last_line v) ∧
  read_i64 (file s DOC_INDEX) (ie + 8) = Some (iv_offset v) ∧
  read_i32 (file s DOC_INDEX) (ie + 16) = Some (iv_count v).
Proof.
  unfold interval_entry. intros H. apply bind_Some in H as (a & Ha & H). apply bind_Some in H as (b & Hb & H).
  apply bind_Some in H as (c & Hc & H). apply bind_Some in H as (f & Hf & H). injection H as <-.
  cbn [iv_first_line iv_last_line iv_offset iv_count]. by split_and!.
Qed.

(** Past the break on [first_line], no record covers the cursor. *)
Lemma interval_above lo fl :
  off ≤ lo → lo < off + count → (∀ v, doc_start s n lo v → fl = unpack_line v) → as_i32 line < fl →
  ∀ r rec, lo ≤ r < off + count → doc_record s r = Some rec → covers line character rec = false.
Proof.
  intros Hlo Hlo' Hfl Hlt r rec Hr Hrec. unfold inU in *. destruct (dk_range _ _ _ _ _ He) as (? & ? & ?).
  destruct line_cases as [[Heq _]|[_ Hbig]].
  - destruct (di_records _ _ _ _ Hdi lo) as (rec0 & Hrd & _); [unfold off, count in *; lia|].
    destruct (doc_reads_unsigned _ _ Hrd) as [Hs _]. rewrite (Hfl _ Hs), Heq, unpack_line_eq in Hlt.
    eapply (starts_after lo rec0); [lia|apply (da_record _ _ _ _ Hrd)| |exact Hr|done].
    rewrite pack_eq, LINE_MAX_eq, CHAR_MASK_eq by lia. Z.to_euclidean_division_equations. lia.
  - apply not_true_iff_false. rewrite covers_packed by lia. lia.
Qed.

(** The loop over the interval blocks finds the best candidate of the document. *)
Lemma cover_intervals_exact k c b scanned :
  0 < count → 0 ≤ k → 0 ≤ c → k + c = dv_interval_count e → best_upto (Z.min (off + k * 256) (off + count)) b →
  ∃ b' m, cover_intervals (file s DOC_INDEX) (file s DOC_POSTINGS) n (24 + doc_count s * DOC_ENTRY_SIZE)
            (dv_interval_first e) (as_i32 line) (pack line character) (seqZ k c) b scanned = Some (b', m) ∧
          best_upto (off + count) b'.
Proof.
  intros Hpos Hk Hc. destruct (dk_blocks _ _ _ _ _ He Hpos) as (_ & Hcnt & _ & Hblocks & _).
  pose proof (div_ceil_256 _ Hpos) as Hdc. revert k b scanned Hk. pattern c. apply natlike_ind; [| |done]; clear c Hc.
  { intros k b scanned Hk Hkc Hb. exists b, scanned. split; [done|].
    rewrite Z.min_r in Hb by (unfold count in *; lia). done. }
  intros c Hc IH k b scanned Hk Hkc Hb.
  rewrite seqZ_cons by lia. replace (Z.pred (Z.succ c)) with c by lia. cbn [cover_intervals].
  destruct (Hblocks k) as [(fl & ll & Hview & Hfl & Hends & (jm & vm & Hjm & Hvm & Hll))]; [lia|].
  fold off count in Hview, Hfl, Hends, Hjm, Hvm. fold count in Hcnt, Hdc.
  assert (Z.min (off + k * 256) (off + count) = off + k * 256) as Hmin by lia. rewrite Hmin in Hb.
  destruct (interval_reads _ _ Hview) as (E1 & E2 & E3 & E4). cbn [iv_first_line iv_last_line iv_offset iv_count] in *.
  rewrite E1. cbn [mbind option_bind].
  destruct (Z.ltb_spec (as_i32 line) fl) as [Hlt|Hge].
  { exists b, scanned. split; [done|]. apply (best_skip (off + k * 256)); [done|lia|].
    apply (interval_above _ fl); [lia|lia|done|done]. }
  assert (0 ≤ fl ∧ 0 ≤ ll ≤ LINE_MAX) as [Hfl0 Hll0].
  { pose proof Hvm as (_ & _ & Hvr)%read_u32_Some. pose proof (unpack_line_range _ Hvr).
    destruct (dk_range _ _ _ _ _ He) as (D1 & D2 & D3). fold off count in D1, D2, D3.
    destruct (di_records _ _ _ _ Hdi (off + k * 256)) as (rec0 & Hrd & _); [lia|].
    destruct (doc_reads_unsigned _ _ Hrd) as [Hs _]. pose proof Hs as (_ & _ & Hsr)%read_u32_Some.
    pose proof (unpack_line_range _ Hsr). rewrite (Hfl _ Hs). lia. }
  destruct line_cases as [[Heq _]|[? _]]; [|lia]. rewrite Heq in Hge. rewrite Heq in IH |- *.
  rewrite E2. cbn [mbind option_bind].
  assert (∀ b', best_upto (off + k * 256 + Z.min (count - k * 256) 256) b' →
            best_upto (Z.min (off + Z.succ k * 256) (off + count)) b') as Hnext.
  { intros b'. by replace (Z.min (off + Z.succ k * 256) (off + count)) with
      (off + k * 256 + Z.min (count - k * 256) 256) by lia. }
  destruct (Z.ltb_spec ll line) as [Hllt|Hlge].
  - apply IH; [lia|lia|]. apply Hnext, (best_skip (off + k * 256)); [done|lia|]. intros r rec Hr Hrec.
    destruct (dk_range _ _ _ _ _ He) as (D1 & D2 & D3). fold off count in D1, D2, D3.
    eapply interval_below; [exact Hview|exact Hends|done|done|lia|done].
  - rewrite E3, E4. cbn [mbind option_bind].
    destruct (cover_records_exact (off + k * 256) 0 (Z.min (count - k * 256) 256) b) as (b' & Hb' & Hbest);
      [lia|lia|lia|lia|by rewrite Z.add_0_r|].
    rewrite Hb'. cbn [mbind option_bind]. rewrite Z.add_0_r in Hbest. apply IH; [lia|lia|by apply Hnext].
Qed.

(** The answer of [symbol_at], over all the records of the document. *)
Lemma symbol_at_best :
  ∃ b, symbol_at s d line character = Some (hit_of d <$> b) ∧ best_upto (off + count) b.
Proof.
  destruct (dk_range _ _ _ _ _ He) as (D1 & D2 & D3). fold off count in D1, D2, D3.
  destruct (doc_entry_reads _ _ _ (dk_view _ _ _ _ _ He)) as [Hif Hivc].
  unfold symbol_at, symbol_at_counting. rewrite Hif, Hivc. cbn [mbind option_bind].
  destruct (Z.eq_dec count 0) as [Hz|Hpc].
  - destruct (dk_empty _ _ _ _ _ He Hz) as [-> ->]. cbn.
    exists None. split; [done|]. intros r rec Hr. lia.
  - assert (0 < count) as Hpos by lia. destruct (dk_blocks _ _ _ _ _ He Hpos) as (Hf0 & Hi0 & _).
    pose proof (div_ceil_256 _ Hpos). fold count in Hi0.
    replace ((dv_interval_first e <? 0) || (dv_interval_count e =? 0)) with false.
    2:{ symmetry. apply orb_false_iff. split; [apply Z.ltb_ge; lia|apply Z.eqb_neq; lia]. }
    destruct (di_cols _ _ _ _ Hdi) as (Hn0 & _). rewrite Hn0. cbn [mbind option_bind].
    destruct (cover_intervals_exact 0 (dv_interval_count e) None 0) as (b & m & -> & Hbest);
      [done|done|lia|done| |by exists b].
    intros r rec Hr. lia.
Qed.
End symbol_at.

(** ** The symbol lookup *)

Section find.
Context (s : SegmentReader) (strs : list bytes) (Hdict : dict_ok s strs).
Context (needle : bytes) (Hcount : symbol_count s ≤ 2 ^ 32).

Lemma bytes_cmp_lt a b : bytes_cmp a b = Lt ↔ bytes_ltb a b = true.
Proof. unfold bytes_cmp, bytes_ltb, lex_ltb. by destruct (lex_cmp _ _). Qed.
Lemma bytes_cmp_gt a b : bytes_cmp a b = Gt ↔ bytes_ltb b a = true.
Proof.
  unfold bytes_cmp, bytes_ltb, lex_ltb. rewrite (lex_cmp_antisym (byte_val <$> a)).
  by destruct (lex_cmp _ _).
Qed.
Lemma bytes_ltb_irrefl a : bytes_ltb a a = false.
Proof. unfold bytes_ltb, lex_ltb. by rewrite lex_cmp_refl. Qed.

Lemma strs_sorted i j a b : zget strs i = Some a → zget strs j = Some b → i < j → bytes_ltb a b = true.
Proof.
  intros Hi Hj Hij. pose proof Hi as Hi'%zget_Some_lt. pose proof Hj as Hj'%zget_Some_lt.
  unfold zget in Hi, Hj. destruct (Z.leb_spec 0 i), (Z.leb_spec 0 j); try lia.
  destruct Hdict as (_ & _ & Hs). eapply (StronglySorted_lookup _ _ _ _ _ _ Hs); [|exact Hi|exact Hj]. lia.
Qed.

(** The invariant of the search: what is left of [lo] is smaller, from [hi] on larger. *)
Lemma find_symbol_loop_exact fuel lo hi :
  0 ≤ lo → lo ≤ hi → hi ≤ symbol_count s → hi - lo < Z.of_nat fuel →
  (∀ i a, i < lo → zget strs i = Some a → bytes_ltb a needle = true) →
  (∀ i a, hi ≤ i → zget strs i = Some a → bytes_ltb needle a = true) →
  ∃ o, find_symbol_loop s fuel needle lo hi = Some o ∧
    match o with
    | Some i => zget strs i = Some needle
    | None => ∀ i, zget strs i ≠ Some needle
    end.
Proof.
  revert lo hi. induction fuel as [|fuel IH]; intros lo hi H0 Hlh Hhi Hf Hlo Hup; [lia|].
  cbn [find_symbol_loop]. destruct (Z.ltb_spec lo hi) as [Hlt|Hge].
  2:{ exists None. split; [done|]. intros i Hi. destruct (Z.lt_ge_cases i lo) as [Hil|Hil].
      - specialize (Hlo _ _ Hil Hi). by rewrite bytes_ltb_irrefl in Hlo.
      - assert (hi ≤ i) as Hih by lia. specialize (Hup _ _ Hih Hi). by rewrite bytes_ltb_irrefl in Hup. }
  destruct Hdict as (Hlen & Hstr & _).
  assert (lo ≤ (lo + hi) / 2 < hi) as Hmid by (Z.to_euclidean_division_equations; lia).
  destruct (zget_is_Some strs ((lo + hi) / 2)) as [hay Hhay]; [lia|].
  rewrite (sy_bytes _ _ _ (Hstr _ _ Hhay)). cbn [mbind option_bind].
  destruct (bytes_cmp hay needle) eqn:Ecmp.
  - apply bytes_cmp_eq in Ecmp as ->. exists (Some ((lo + hi) / 2)). split; [|done].
    do 2 f_equal. apply wrapU_id. unfold inU. lia.
  - apply bytes_cmp_lt in Ecmp. apply IH; try lia; [|done]. intros i a Hi Ha.
    destruct (Z.eq_dec i ((lo + hi) / 2)) as [->|]; [congruence|].
    eapply bytes_ltb_trans; [|exact Ecmp]. eapply strs_sorted; [done|done|lia].
  - apply bytes_cmp_gt in Ecmp. apply IH; try lia; [done|]. intros i a Hi Ha.
    destruct (Z.eq_dec i ((lo + hi) / 2)) as [->|]; [congruence|].
    eapply bytes_ltb_trans; [exact Ecmp|]. eapply strs_sorted; [done|done|lia].
Qed.
End find.

(** ** What an opened segment serves *)

(** Every accessor is total on ordinals in range, and the ordinals it returns are in range. *)
Record serves (s : SegmentReader) : Prop := {
  sv_ref g : 0 ≤ g < ref_group_count s → ∃ e, ref_group s g = Some e ∧
    ∀ r, gv_offset e ≤ r < gv_offset e + gv_count e → ∃ rec, ref_record s r = Some rec ∧ record_ok s rec;
  sv_def g : 0 ≤ g < ref_group_count s → ∃ e, def_group s g = Some e ∧
    ∀ r, gv_offset e ≤ r < gv_offset e + gv_count e → ∃ rec, def_record s r = Some rec ∧ record_ok s rec;
  sv_rename g : 0 ≤ g < rename_group_count s → is_Some (rename_profile s g) ∧
    ∃ e, rename_group s g = Some e ∧
    ∀ r, gv_offset e ≤ r < gv_offset e + gv_count e → ∃ rec, rename_record s r = Some rec ∧ record_ok s rec;
  sv_doc d : 0 ≤ d < doc_count s →
    is_Some (uri_of s d) ∧ is_Some (doc_id_of s d) ∧ is_Some (epoch_of s d) ∧ is_Some (doc_flags_of s d) ∧
    (∃ t, target_ord_of_doc s d = Some t ∧ 0 ≤ t < target_count s) ∧
    ∃ e, doc_entry s d = Some e ∧
      ∀ r, dv_postings_offset e ≤ r < dv_postings_offset e + dv_postings_count e →
        ∃ rec, doc_record s r = Some rec ∧ doc_record_ok s rec;
  sv_symbol i : 0 ≤ i < symbol_count s → is_Some (semantic_symbol_of s i) ∧
    (∃ v, symbol_view s i = Some v ∧ opt_ord (sv_ref_group_ord v) (ref_group_count s) ∧
       opt_ord (sv_rename_group_ord v) (rename_group_count s) ∧ opt_ord (sv_def_target_ord v) (target_count s)) ∧
    ∃ m, rd_symbol_meta s i = Some m ∧ opt_ord (def_doc_ord m) (doc_count s);
  sv_target t : 0 ≤ t < target_count s → is_Some (rd_target_meta s t) ∧ is_Some (target_id_of s t);
  sv_search : ∃ rows, search_row_count s = Some rows ∧ 0 ≤ rows ∧
    ∀ i, 0 ≤ i < rows → ∃ name sym, search_row s i = Some (name, sym) ∧ 0 ≤ sym < symbol_count s
}.

Lemma role_serves s gi idx count n bc g :
  role_ok s gi idx count n bc → 0 ≤ g < count →
  ∃ e, group_ok s gi idx n bc g e ∧
    ∀ r, gv_offset e ≤ r < gv_offset e + gv_count e →
      ∃ rec, group_record (file s idx) r = Some rec ∧ record_ok s rec.
Proof.
  intros (Hp & es & Hl & Hes & _) Hg. destruct (zget_is_Some es g) as [e He]; [lia|].
  exists e. pose proof (Hes _ _ He) as Hok. split; [done|]. intros r Hr.
  destruct (gk_range _ _ _ _ _ _ _ Hok) as (? & ? & ?).
  destruct (po_records _ _ _ Hp r) as (rec & Hrd & Hrok); [lia|]. exists rec. split; [apply Hrd|done].
Qed.

Lemma valid_doc s z d :
  valid s z → 0 ≤ d < doc_count s → ∃ e, doc_ok s (z_doc z) (z_ic z) d e.
Proof.
  intros Hv Hd. destruct (v_docs _ _ Hv) as (es & Hl & Hes & _).
  destruct (zget_is_Some es d) as [e He]; [lia|]. eauto.
Qed.

Lemma valid_serves s z : valid s z → serves s.
Proof.
  intros Hv. destruct (v_counts _ _ Hv) as (? & ? & ? & ? & ?). split.
  - intros g Hg. destruct (role_serves _ _ _ _ _ _ _ (v_ref _ _ Hv) Hg) as (e & He & Hr).
    exists e. split; [apply He|done].
  - intros g Hg. destruct (role_serves _ _ _ _ _ _ _ (v_def _ _ Hv) Hg) as (e & He & Hr).
    exists e. split; [apply He|done].
  - intros g Hg. destruct (role_serves _ _ _ _ _ _ _ (v_rename _ _ Hv) Hg) as (e & He & Hr).
    split; [|exists e; split; [apply He|done]].
    pose proof (v_profiles _ _ Hv) as Hsz. unfold rename_profile, GROUP_INDEX_ENTRY_SIZE, RENAME_PROFILE_ENTRY_SIZE.
    set (base := 8 + rename_group_count s * 16 + g * 16).
    destruct (read_i32_inside (file s RENAME_GROUP_INDEX) base) as (v1 & -> & _); [unfold base; lia..|].
    destruct (read_i32_inside (file s RENAME_GROUP_INDEX) (base + 4)) as (v2 & -> & _); [unfold base; lia..|].
    destruct (read_i64_inside (file s RENAME_GROUP_INDEX) (base + 8)) as (v3 & -> & _); [unfold base; lia..|].
    by eexists.
  - intros d Hd. destruct (valid_doc _ _ _ Hv Hd) as [e He]. pose proof (v_doc_index _ _ Hv) as Hdi.
    destruct Hdi as [Hcols Hrecs _ _ ? Hsz _ ?].
    destruct (dk_uri _ _ _ _ _ He) as (bs & uri & _ & Huri). destruct (dk_range _ _ _ _ _ He) as (? & ? & ?).
    unfold doc_id_of, epoch_of, doc_flags_of, doc_entry_base, DOC_ENTRY_SIZE.
    destruct (read_i64_inside (file s DOC_INDEX) (24 + d * 48 + 8)) as (v1 & -> & _); [lia..|].
    destruct (read_i32_inside (file s DOC_INDEX) (24 + d * 48 + 16)) as (v2 & -> & _); [lia..|].
    destruct (read_i32_inside (file s DOC_INDEX) (24 + d * 48 + 24)) as (v3 & -> & _); [lia..|].
    rewrite Huri. split_and!; [by eexists..|apply He|]. exists e. split; [apply He|]. intros r Hr.
    destruct (Hrecs r) as (rec & Hrd & Hrok); [lia|]. exists rec. split; [apply Hrd|done].
  - intros i Hi. destruct (v_dict _ _ Hv) as (strs & Hl & Hstr & _).
    destruct (zget_is_Some strs i) as [str Hs]; [lia|]. apply Hstr in Hs as [_ (u & _ & Hu) Hview].
    rewrite Hu. split_and!; [by eexists|done|]. by apply (mk_symbol _ _ (v_meta _ _ Hv)).
  - intros t Ht. split; [by apply (mk_target _ _ (v_meta _ _ Hv))|].
    destruct (v_symbols _ _ Hv) as [(? & ? & ?) Hsz _]. unfold target_id_of, SYMBOL_ENTRY_SIZE.
    destruct (read_i64_inside (file s SYMBOL_INDEX) (24 + symbol_count s * 32 + t * 8)) as (v & -> & _);
      [lia..|by eexists].
  - destruct (v_meta _ _ Hv) as [_ _ Hrows (names & Hl & Hn & _)]. exists (z_src z).
    pose proof (zlen_nonneg names). split_and!; [done|lia|]. intros i Hi.
    destruct (zget_is_Some names i) as [nm Hnm]; [lia|].
    apply Hn in Hnm as [(sym & Hs & ?)]. eauto.
Qed.

(** A dictionary entry is found at its own ordinal. *)
Lemma find_symbol_at s z i sym :
  valid s z → symbol_count s ≤ 2 ^ 32 → wf_str sym → 0 ≤ i < symbol_count s → semantic_symbol_of s i = Some sym →
  find_symbol_ord s sym = Some (Some i).
Proof.
  intros Hz Hcount Hsym Hi Hat. destruct (v_dict _ _ Hz) as (strs & Hdict). pose proof Hdict as (Hlen & Hstr & _).
  destruct (zget_is_Some strs i) as [b Hb]; [lia|].
  assert (b = as_bytes sym) as ->.
  { destruct (sy_str _ _ _ (Hstr _ _ Hb)) as (u & Hu & Hu'). rewrite Hat in Hu'. injection Hu' as <-.
    by apply from_utf8_sound in Hu as [_ ?]. }
  destruct (find_symbol_loop_exact s strs Hdict (as_bytes sym) Hcount
    (S (Z.to_nat (symbol_count s))) 0 (symbol_count s)) as (o & Ho & Hres); [lia..| | |].
  { intros j a Hj Ha. apply zget_Some_lt in Ha. lia. }
  { intros j a Hj Ha. apply zget_Some_lt in Ha. lia. }
  unfold find_symbol_ord. rewrite Ho. destruct o as [j|]; [|by destruct (Hres i)]. do 2 f_equal.
  destruct (Z.lt_trichotomy i j) as [Hij|[->|Hij]]; [|done|];
    pose proof (strs_sorted s strs Hdict _ _ _ _ Hb Hres) as H1; pose proof (strs_sorted s strs Hdict _ _ _ _ Hres Hb) as H2.
  - specialize (H1 Hij). by rewrite bytes_ltb_irrefl in H1.
  - specialize (H2 Hij). by rewrite bytes_ltb_irrefl in H2.
Qed.

(** The search is total and finds exactly the symbols of the dictionary. *)
Lemma find_symbol_valid s z sym :
  valid s z → symbol_count s ≤ 2 ^ 32 → wf_str sym →
  ∃ o, find_symbol_ord s sym = Some o ∧
  match o with
  | Some i => 0 ≤ i < symbol_count s ∧ semantic_symbol_of s i = Some sym
  | None => ∀ i, 0 ≤ i < symbol_count s → semantic_symbol_of s i ≠ Some sym
  end.
Proof.
  intros Hz Hcount Hsym.
  destruct (v_dict _ _ Hz) as (strs & Hdict). destruct (v_counts _ _ Hz) as (_ & _ & _ & ? & _).
  pose proof Hdict as (Hlen & Hstr & _).
  destruct (find_symbol_loop_exact s strs Hdict (as_bytes sym) Hcount
    (S (Z.to_nat (symbol_count s))) 0 (symbol_count s)) as (o & Ho & Hres); [lia..| | |].
  { intros i a Hi Ha. apply zget_Some_lt in Ha. lia. }
  { intros i a Hi Ha. apply zget_Some_lt in Ha. lia. }
  exists o. split; [done|]. destruct o as [i|].
  - pose proof Hres as Hi%zget_Some_lt. split; [lia|].
    destruct (sy_str _ _ _ (Hstr _ _ Hres)) as (u & Hu & ->).
    rewrite from_utf8_as_bytes in Hu by done. congruence.
  - intros i Hi Hq. destruct (zget_is_Some strs i) as [str Hi']; [lia|].
    destruct (sy_str _ _ _ (Hstr _ _ Hi')) as (u & Hu & Hu'). apply (Hres i).
    rewrite Hi'. f_equal. assert (u = sym) as -> by congruence.
    symmetry. by apply from_utf8_sound in Hu as [_ ?].
Qed.

(** ** Properties *)

Section properties.
Context (crc32c : bytes → Z) `{!DebugStr}.

(** C23. Opening a segment never panics, whatever bytes the files hold and whatever the
    checksum function is; and once it has succeeded every accessor is total on the
    ordinals in range, every record is within bounds, and every stored ordinal is in
    range, so the accessors' unchecked reads are sound. *)
Theorem open_validates (read_file : list Z → FileRead) (dir : list Z) :
  (∀ p b, read_file p = Found b → zlen b < 2 ^ 63) →
  reader_open crc32c read_file dir ≠ Err Panics ∧
  ∀ s, reader_open crc32c read_file dir = Ok s → serves s.
Proof.
  intros Hfit. split; [by apply no_panic_reader_open|]. intros s Hs.
  apply (reader_open_valid _ _ Hfit) in Hs as [z Hz]. by eapply valid_serves.
Qed.

(** A group scan of an opened segment yields exactly the group's records that pass the
    filter, in order: skipping blocks on their target words or their editable count loses
    nothing. The filter is: the target is allowed, the record's epoch is its document's
    current one, and (for renames) the record is editable. *)
Theorem scans_filter_groups (read_file : list Z → FileRead) (dir : list Z) (s : SegmentReader)
    (g : Z) (allowed : option TargetBitset) :
  (∀ p b, read_file p = Found b → zlen b < 2 ^ 63) →
  reader_open crc32c read_file dir = Ok s →
  match allowed with Some a => bitset_wf a | None => True end →
  (0 ≤ g < ref_group_count s → ∃ e recs,
     ref_group s g = Some e ∧ group_records s REF_POSTINGS e = Some recs ∧
     scan_ref_group s g allowed = Some (List.filter (wanted s allowed false) recs)) ∧
  (0 ≤ g < ref_group_count s → ∃ e recs,
     def_group s g = Some e ∧ group_records s DEF_POSTINGS e = Some recs ∧
     scan_def_group s g = Some (List.filter (wanted s None false) recs)) ∧
  (0 ≤ g < rename_group_count s → ∃ e recs,
     rename_group s g = Some e ∧ group_records s RENAME_POSTINGS e = Some recs ∧
     scan_rename_group s g = Some (List.filter (wanted s None true) recs)).
Proof.
  intros Hfit Hs Ha. apply (reader_open_valid _ _ Hfit) in Hs as [z Hz].
  split_and!; intros Hg.
  - destruct (role_serves _ _ _ _ _ _ _ (v_ref _ _ Hz) Hg) as (e & He & _).
    destruct (scan_group_exact s z Hz allowed Ha false _ _ _ _ _ _ (proj1 (v_ref _ _ Hz)) He)
      as (recs & Hrecs & _ & Hscan).
    exists e, recs. pose proof (gk_view _ _ _ _ _ _ _ He) as Hv. split_and!; [done..|].
    unfold scan_ref_group, ref_group. by rewrite Hv.
  - destruct (role_serves _ _ _ _ _ _ _ (v_def _ _ Hz) Hg) as (e & He & _).
    destruct (scan_group_exact s z Hz None I false _ _ _ _ _ _ (proj1 (v_def _ _ Hz)) He)
      as (recs & Hrecs & _ & Hscan).
    exists e, recs. pose proof (gk_view _ _ _ _ _ _ _ He) as Hv. split_and!; [done..|].
    unfold scan_def_group, def_group. by rewrite Hv.
  - destruct (role_serves _ _ _ _ _ _ _ (v_rename _ _ Hz) Hg) as (e & He & _).
    destruct (scan_group_exact s z Hz None I true _ _ _ _ _ _ (proj1 (v_rename _ _ Hz)) He)
      as (recs & Hrecs & _ & Hscan).
    exists e, recs. pose proof (gk_view _ _ _ _ _ _ _ He) as Hv. split_and!; [done..|].
    unfold scan_rename_group, rename_group. by rewrite Hv.
Qed.

(** C21. Symbol-at-position does not panic and is exact: it answers nothing when no record of
    the document covers the cursor, and otherwise the covering record of the smallest
    span, the first in the document's order among equals; the interval blocks it skips and
    its two early exits lose no candidate. *)
Theorem symbol_at_exact (read_file : list Z → FileRead) (dir : list Z) (s : SegmentReader)
    (d line character : Z) :
  (∀ p b, read_file p = Found b → zlen b < 2 ^ 63) →
  reader_open crc32c read_file dir = Ok s →
  0 ≤ d < doc_count s → inU 32 line → inU 32 character →
  ∃ e, doc_entry s d = Some e ∧
  let in_doc r := dv_postings_offset e ≤ r < dv_postings_offset e + dv_postings_count e in
  ∃ hit, symbol_at s d line character = Some hit ∧
  match hit with
  | None => ∀ r rec, in_doc r → doc_record s r = Some rec → covers line character rec = false
  | Some h => ∃ r rec, in_doc r ∧ doc_record s r = Some rec ∧ covers line character rec = true ∧
      h = rec_hit d rec ∧
      ∀ r' rec', in_doc r' → doc_record s r' = Some rec' → covers line character rec' = true →
        rec_size rec < rec_size rec' ∨ (rec_size rec = rec_size rec' ∧ r ≤ r')
  end.
Proof.
  intros Hfit Hs Hd Hl Hc. apply (reader_open_valid _ _ Hfit) in Hs as [z Hz].
  destruct (valid_doc _ _ _ Hz Hd) as [e He]. exists e. split; [apply He|]. cbv zeta.
  destruct (symbol_at_best s _ _ _ (v_doc_index _ _ Hz) d e He line character Hl Hc) as (b & Hb & Hbest).
  exists (hit_of d <$> b). split; [done|]. destruct b as [c|]; cbn in *; [|done].
  destruct Hbest as (r & rec & Hr & Hrec & Hcov & -> & Hmin). exists r, rec.
  split; [exact Hr|]. split; [done|]. split; [done|]. split; [done|exact Hmin].
Qed.

(** The binary search terminates within its fuel, does not panic, and finds exactly the
    symbols of the dictionary. *)
Theorem find_symbol_exact (read_file : list Z → FileRead) (dir : list Z) (s : SegmentReader) (sym : list Z) :
  (∀ p b, read_file p = Found b → zlen b < 2 ^ 63) →
  reader_open crc32c read_file dir = Ok s →
  symbol_count s ≤ 2 ^ 32 → wf_str sym →
  ∃ o, find_symbol_ord s sym = Some o ∧
  match o with
  | Some i => 0 ≤ i < symbol_count s ∧ semantic_symbol_of s i = Some sym
  | None => ∀ i, 0 ≤ i < symbol_count s → semantic_symbol_of s i ≠ Some sym
  end.
Proof.
  intros Hfit Hs Hcount Hsym. apply (reader_open_valid _ _ Hfit) in Hs as [z Hz]. by apply (find_symbol_valid s z).
Qed.
End properties.

(** ** Witnesses, on the segment of [SegExample] *)

Lemma small_dir_fits p b : small_dir p = Found b → zlen b < 2 ^ 63.
Proof.
  unfold small_dir. destruct built as [[fs cs]|e] eqn:E; [|done].
  assert (Forall (λ f : list Z * bytes, zlen f.2 < 2 ^ 63) (fs ++ [(CHECKSUMS_FILE, cs)])) as Hall.
  { assert (match built with
            | Ok (fs, cs) => forallb (λ f : list Z * bytes, zlen f.2 <? 2 ^ 63) (fs ++ [(CHECKSUMS_FILE, cs)])
            | Err _ => false
            end = true) as H by (vm_compute; reflexivity).
    rewrite E in H. apply Forall_forall. intros f Hf. rewrite forallb_forall in H.
    apply Z.ltb_lt, H. by apply list_elem_of_In. }
  unfold dir_of. destruct (List.find _ _) as [f|] eqn:Ef; [|done]. intros [= <-].
  apply find_some in Ef as [Hin _]. rewrite Forall_forall in Hall. apply Hall. by apply list_elem_of_In.
Qed.

Definition opened : outcome SegmentReader := reader_open sum_crc small_dir (lit "seg").

(** The counts of the opened segment, and two of its answers. *)
Lemma opened_Ok : ∃ s, reader_open sum_crc small_dir (lit "seg") = Ok s ∧ doc_count s = 2 ∧ ref_group_count s = 2 ∧ symbol_count s = 3 ∧
  symbol_at s 0 4 5 = Some (Some (mkHit 2 0 (mkSpan 4 3 4 9) Reference 0)) ∧
  find_symbol_ord s (lit "p/B#") = Some (Some 1).
Proof.
  change (reader_open sum_crc small_dir (lit "seg")) with opened. destruct opened as [s|e] eqn:E.
  - exists s. split; [done|].
    assert (match opened with
            | Ok s => bool_decide (doc_count s = 2 ∧ ref_group_count s = 2 ∧ symbol_count s = 3 ∧
                symbol_at s 0 4 5 = Some (Some (mkHit 2 0 (mkSpan 4 3 4 9) Reference 0)) ∧
                find_symbol_ord s (lit "p/B#") = Some (Some 1))
            | Err _ => false
            end = true) as H by (vm_compute; reflexivity).
    rewrite E in H. exact (proj1 (bool_decide_eq_true _) H).
  - exfalso. assert (is_ok opened = true) as H by (vm_compute; reflexivity). by rewrite E in H.
Qed.

Lemma open_validates_witness :
  reader_open sum_crc small_dir (lit "seg") ≠ Err Panics ∧ ∃ s, opened = Ok s ∧ serves s.
Proof.
  destruct (@open_validates sum_crc plain_debug small_dir (lit "seg") small_dir_fits) as [H1 H2].
  split; [exact H1|]. destruct opened_Ok as (s & Hs & _). exists s. split; [exact Hs|]. exact (H2 s Hs).
Defined.

Lemma scans_filter_groups_witness : ∃ s e recs, opened = Ok s ∧
  ref_group s 0 = Some e ∧ group_records s REF_POSTINGS e = Some recs ∧
  scan_ref_group s 0 None = Some (List.filter (wanted s None false) recs).
Proof.
  destruct opened_Ok as (s & Hs & _ & Hr & _). exists s.
  destruct (@scans_filter_groups sum_crc plain_debug small_dir (lit "seg") s 0 None small_dir_fits Hs I) as [H _].
  destruct H as (e & recs & H); [rewrite Hr; lia|]. exists e, recs. split; [exact Hs|exact H].
Defined.

Lemma symbol_at_exact_witness : ∃ s e r rec, opened = Ok s ∧ doc_entry s 0 = Some e ∧
  doc_record s r = Some rec ∧ covers 4 5 rec = true ∧ rec_hit 0 rec = mkHit 2 0 (mkSpan 4 3 4 9) Reference 0.
Proof.
  destruct opened_Ok as (s & Hs & Hd & _ & _ & Hat & _).
  assert (0 ≤ 0 < doc_count s) as Hd0 by (rewrite Hd; lia).
  assert (inU 32 4) as H4 by (unfold inU; lia). assert (inU 32 5) as H5 by (unfold inU; lia).
  pose proof (@symbol_at_exact sum_crc plain_debug small_dir (lit "seg") s 0 4 5 small_dir_fits Hs Hd0 H4 H5)
    as (e & He & hit & Hhit & H).
  rewrite Hat in Hhit. injection Hhit as <-. destruct H as (r & rec & _ & Hrec & Hcov & Heq & _).
  exists s, e, r, rec. by split_and!.
Defined.

Lemma find_symbol_exact_witness : ∃ s, opened = Ok s ∧ find_symbol_ord s (lit "p/B#") = Some (Some 1) ∧
  semantic_symbol_of s 1 = Some (lit "p/B#").
Proof.
  destruct opened_Ok as (s & Hs & _ & _ & Hc & _ & Hf). exists s. split; [exact Hs|]. split; [exact Hf|].
  assert (wf_str (lit "p/B#")) as Hwf
    by (refine (bool_decide_unpack _ _); vm_compute; exact I).
  assert (symbol_count s ≤ 2 ^ 32) as Hle by (rewrite Hc; lia).
  pose proof (@find_symbol_exact sum_crc plain_debug small_dir (lit "seg") s (lit "p/B#") small_dir_fits Hs Hle Hwf)
    as (o & Ho & H).
  rewrite Hf in Ho. injection Ho as <-. exact (proj2 H).
Defined.
