(* ===== verification/SegLayout.v ===== *)
(** Reading back what was written: the bytes [s] sit at offset [off] of a file
    ([holds_at]), tables of fixed-size rows, string references into a blob, and loops over
    [0..n] whose state is a function of the index. *)

From S2P Require Import Prelude RustStr StoreFormat IndexModel Bitset SegReader SegSafe SegWriter.

From Stdlib Require Import Sorting.Sorted.

Open Scope Z_scope.

(** ** Bytes at an offset *)

Definition holds_at (b : bytes) (off : Z) (s : bytes) : Prop :=
  ∃ pre post, b = pre ++ s ++ post ∧ zlen pre = off.

Lemma holds_at_self b : holds_at b 0 b.
Proof. exists [], []. by rewrite app_nil_r. Qed.

Lemma holds_at_app b off s t : holds_at b off (s ++ t) → holds_at b off s ∧ holds_at b (off + zlen s) t.
Proof.
  intros (pre & post & -> & <-). split.
  - exists pre, (t ++ post). by rewrite <- !app_assoc.
  - exists (pre ++ s), post. rewrite zlen_app. by rewrite <- !app_assoc.
Qed.

Lemma holds_at_bound b off s : holds_at b off s → 0 ≤ off ∧ off + zlen s ≤ zlen b.
Proof.
  intros (pre & post & -> & <-). rewrite !zlen_app. pose proof (zlen_nonneg pre).
  pose proof (zlen_nonneg post). lia.
Qed.

Lemma holds_at_slice b off s : holds_at b off s → slice b off (zlen s) = Some s.
Proof. intros (pre & post & -> & <-). by apply slice_app_l. Qed.

(** A slice of the part is a slice of the whole. *)
Lemma holds_at_sub b off s o l t : holds_at b off s → slice s o l = Some t → slice b (off + o) l = Some t.
Proof.
  intros (pre & post & -> & <-) Hs.
  assert (is_Some (slice s o l)) as (? & ? & ?)%slice_is_Some by eauto. by rewrite slice_shift.
Qed.

(** Row [i] of a table of rows of [n] bytes. *)
Lemma holds_at_row {A : Type} (enc : A → bytes) n b off l i x :
  (∀ x, x ∈ l → zlen (enc x) = n) → zget l i = Some x →
  holds_at b off (concat (enc <$> l)) → holds_at b (off + i * n) (enc x).
Proof.
  revert off i. induction l as [|y l IH]; intros off i Hn Hi Hb.
  { apply zget_Some_lt in Hi. change (zlen []) with 0 in Hi. lia. }
  cbn [fmap list_fmap concat] in Hb. apply holds_at_app in Hb as [Hy Hb].
  pose proof (Hn y ltac:(left)) as Hyn. rewrite Hyn in Hb.
  pose proof Hi as Hlt%zget_Some_lt. destruct (Z.eq_dec i 0) as [->|].
  - injection Hi as <-. by replace (off + 0 * n) with off by lia.
  - replace (off + i * n) with ((off + n) + (i - 1) * n) by lia. apply IH; [|
      |done].
    + intros z Hz. apply Hn. by right.
    + change (y :: l) with ([y] ++ l) in Hi. rewrite zget_app_r in Hi; change (zlen [y]) with 1 in *; [done|lia].
Qed.

Lemma zlen_rows {A : Type} (enc : A → bytes) n l :
  (∀ x, x ∈ l → zlen (enc x) = n) → zlen (concat (enc <$> l)) = zlen l * n.
Proof.
  induction l as [|y l IH]; intros Hn; [done|]. cbn [fmap list_fmap concat].
  rewrite zlen_app, zlen_cons, IH, (Hn y); [lia|by left|]. intros x Hx. apply Hn. by right.
Qed.

(** ** Integers *)

Lemma zlen_put_u16 v : zlen (put_u16 v) = 2. Proof. apply zlen_le_bytes. Qed.
Lemma zlen_put_u32 v : zlen (put_u32 v) = 4. Proof. apply zlen_le_bytes. Qed.
Lemma zlen_put_i32 v : zlen (put_i32 v) = 4. Proof. apply zlen_le_bytes. Qed.
Lemma zlen_put_u64 v : zlen (put_u64 v) = 8. Proof. apply zlen_le_bytes. Qed.
Lemma zlen_put_i64 v : zlen (put_i64 v) = 8. Proof. apply zlen_le_bytes. Qed.
#[export] Hint Rewrite zlen_put_u16 zlen_put_u32 zlen_put_i32 zlen_put_u64 zlen_put_i64 : zlen.

Lemma slice_le b off n v :
  holds_at b off (le_bytes n v) → le_val <$> slice b off (Z.of_nat n) = Some (v mod 256 ^ Z.of_nat n).
Proof.
  intros H%holds_at_slice. rewrite zlen_le_bytes in H. rewrite H. cbn [fmap option_fmap option_map].
  by rewrite le_val_le_bytes.
Qed.

Section reads.
Context (b : bytes) (off off' v : Z).

Lemma read_u16_at : holds_at b off (put_u16 v) → off = off' → inU 16 v → read_u16 b off' = Some v.
Proof. intros H <- Hv. unfold read_u16. apply (slice_le _ _ 2) in H. change (Z.of_nat 2) with 2 in H. rewrite H. f_equal. by apply Z.mod_small. Qed.
Lemma read_u32_at : holds_at b off (put_u32 v) → off = off' → inU 32 v → read_u32 b off' = Some v.
Proof. intros H <- Hv. unfold read_u32. apply (slice_le _ _ 4) in H. change (Z.of_nat 4) with 4 in H. rewrite H. f_equal. by apply Z.mod_small. Qed.
Lemma read_u64_at : holds_at b off (put_u64 v) → off = off' → inU 64 v → read_u64 b off' = Some v.
Proof. intros H <- Hv. unfold read_u64. apply (slice_le _ _ 8) in H. change (Z.of_nat 8) with 8 in H. rewrite H. f_equal. by apply Z.mod_small. Qed.
Lemma read_i32_at : holds_at b off (put_i32 v) → off = off' → inS 32 v → read_i32 b off' = Some v.
Proof.
  intros H <- Hv. unfold read_i32. apply (slice_le _ _ 4) in H. change (Z.of_nat 4) with 4 in H. rewrite H. cbn [fmap option_fmap option_map]. f_equal.
  change (256 ^ 4) with (2 ^ 32). fold (wrapU 32 v). unfold as_i32.
  rewrite wrapS_wrapU by done. by apply wrapS_id.
Qed.
Lemma read_i64_at : holds_at b off (put_i64 v) → off = off' → inS 64 v → read_i64 b off' = Some v.
Proof.
  intros H <- Hv. unfold read_i64. apply (slice_le _ _ 8) in H. change (Z.of_nat 8) with 8 in H. rewrite H. cbn [fmap option_fmap option_map]. f_equal.
  change (256 ^ 8) with (2 ^ 64). fold (wrapU 64 v). unfold as_i64.
  rewrite wrapS_wrapU by done. by apply wrapS_id.
Qed.
End reads.

(** Cuts [holds_at b off (f1 ++ .. ++ fn)] into its fields. *)
Ltac at_split H :=
  lazymatch type of H with
  | holds_at _ _ (_ ++ _) =>
      let H1 := fresh "At" in let H2 := fresh "At" in
      apply holds_at_app in H; destruct H as [H1 H2]; at_split H2
  | _ => idtac
  end.

(** Reads a field off one of the cut pieces. *)
Ltac at_read :=
  lazymatch goal with
  | |- read_i32 _ _ = Some _ => eapply read_i32_at
  | |- read_i64 _ _ = Some _ => eapply read_i64_at
  | |- read_u32 _ _ = Some _ => eapply read_u32_at
  | |- read_u64 _ _ = Some _ => eapply read_u64_at
  | |- read_u16 _ _ = Some _ => eapply read_u16_at
  end; [eassumption|autorewrite with zlen; lia|].

(** A column of 32-bit integers. *)
Lemma holds_at_col b off l i v :
  holds_at b off (concat (put_i32 <$> l)) → Forall (inS 32) l → zget l i = Some v →
  read_i32 b (off + 4 * i) = Some v.
Proof.
  intros Hb Hl Hi. eapply (holds_at_row put_i32 4) in Hb; [|intros; apply zlen_put_i32|exact Hi].
  eapply read_i32_at; [exact Hb|lia|]. rewrite Forall_forall in Hl. apply Hl. by eapply zget_elem_of.
Qed.

(** ** Loops over [0..n] *)

(** A loop whose state before step [i] is [st i]. *)
Lemma fold_r_seqZ {E S : Type} (f : S → Z → result E S) (st : Z → S) n :
  0 ≤ n → (∀ i, 0 ≤ i < n → f (st i) i = Ok (st (i + 1))) → fold_r f (st 0) (seqZ 0 n) = Ok (st n).
Proof.
  intros Hn. pattern n. apply natlike_ind; [done| |done]. clear n Hn. intros n Hn IH Hf.
  replace (Z.succ n) with (n + 1) in * by lia. rewrite seqZ_snoc, fold_r_app, IH by (intros; try apply Hf; lia).
  cbn [mbind result_bind fold_r]. rewrite Hf by lia. done.
Qed.

(** A fallible loop that always succeeds keeps an invariant of the prefix done. *)
Lemma fold_r_total {E A S : Type} (P : list A → S → Prop) (f : S → A → result E S) s l :
  P [] s →
  (∀ pre x rest t, l = pre ++ x :: rest → P pre t → ∃ t', f t x = Ok t' ∧ P (pre ++ [x]) t') →
  ∃ s', fold_r f s l = Ok s' ∧ P l s'.
Proof.
  intros H0 Hstep. cut (∀ rest pre s, l = pre ++ rest → P pre s → ∃ s', fold_r f s rest = Ok s' ∧ P l s').
  { intros H. by apply (H l []). }
  clear H0 s. induction rest as [|x rest IH]; intros pre s Hl Hs; cbn [fold_r].
  - exists s. split; [done|]. by rewrite Hl, app_nil_r.
  - destruct (Hstep pre x rest s Hl Hs) as (t & Ht & HP). rewrite Ht. cbn [mbind result_bind].
    apply (IH (pre ++ [x])); [by rewrite Hl, <- app_assoc|done].
Qed.

(** A loop from any start. *)
Lemma fold_r_seqZ_from {E S : Type} (f : S → Z → result E S) (st : Z → S) lo n :
  0 ≤ n → (∀ i, 0 ≤ i < n → f (st i) (lo + i) = Ok (st (i + 1))) → fold_r f (st 0) (seqZ lo n) = Ok (st n).
Proof.
  intros Hn. pattern n. apply natlike_ind; [done| |done]. clear n Hn. intros n Hn IH Hf.
  replace (Z.succ n) with (n + 1) in * by lia.
  assert (seqZ lo (n + 1) = seqZ lo n ++ [lo + n]) as -> by (rewrite seqZ_app by lia; done).
  rewrite fold_r_app, IH by (intros; try apply Hf; lia).
  cbn [mbind result_bind fold_r]. rewrite Hf by lia. done.
Qed.

Lemma for_each_seqZ_total {E : Type} (f : Z → result E unit) lo n :
  (∀ i, lo ≤ i < lo + n → f i = Ok tt) → for_each f (seqZ lo n) = Ok tt.
Proof. intros H. apply for_each_total. intros i Hi%elem_of_seqZ. by apply H. Qed.

(** A sorted list stays sorted under the keys it is sorted by. *)
Lemma StronglySorted_fmap {A B : Type} (R : B → B → Prop) (f : A → B) l :
  StronglySorted (λ a b, R (f a) (f b)) l → StronglySorted R (f <$> l).
Proof.
  induction 1 as [|a l Hs IH Ha]; [constructor|]. cbn [fmap list_fmap]. constructor; [done|by apply Forall_fmap].
Qed.

(** ** Chunks by position *)

Lemma zget_fmap {A B : Type} (f : A → B) l i : zget (f <$> l) i = f <$> zget l i.
Proof. unfold zget. destruct (0 <=? i); [|done]. apply list_lookup_fmap. Qed.

Lemma zget_cons {A : Type} (x : A) l i : 0 < i → zget (x :: l) i = zget l (i - 1).
Proof. intros Hi. change (x :: l) with ([x] ++ l). by rewrite zget_app_r; change (zlen [x]) with 1; [|lia]. Qed.

Lemma zget_0 {A : Type} (x : A) l : zget (x :: l) 0 = Some x.
Proof. done. Qed.

Lemma zlen_take {A : Type} n (l : list A) : 0 ≤ n → zlen (take (Z.to_nat n) l) = Z.min n (zlen l).
Proof. intros Hn. unfold zlen. rewrite length_take. lia. Qed.
Lemma zlen_drop {A : Type} n (l : list A) : 0 ≤ n → zlen (drop (Z.to_nat n) l) = Z.max 0 (zlen l - n).
Proof. intros Hn. unfold zlen. rewrite length_drop. lia. Qed.

Lemma div_ceil_nonneg c n : 0 ≤ c → 0 < n → 0 ≤ div_ceil c n.
Proof. intros. unfold div_ceil. apply Z.div_pos; lia. Qed.

Lemma chunks_aux_spec {A : Type} fuel n (l : list A) :
  0 < n → zlen l ≤ Z.of_nat fuel →
  zlen (chunks_aux fuel (Z.to_nat n) l) = div_ceil (zlen l) n ∧
  ∀ k, 0 ≤ k < div_ceil (zlen l) n →
    zget (chunks_aux fuel (Z.to_nat n) l) k = Some (take (Z.to_nat n) (drop (Z.to_nat (k * n)) l)).
Proof.
  intros Hn. revert l. induction fuel as [|fuel IH]; intros l Hl.
  { assert (l = []) as ->. { destruct l; [done|]. rewrite zlen_cons in Hl. pose proof (zlen_nonneg l). lia. }
    cbn [chunks_aux]. change (zlen []) with 0.
    assert (div_ceil 0 n = 0) as -> by (unfold div_ceil; apply Z.div_small; lia). split; [done|lia]. }
  destruct l as [|x l].
  { cbn [chunks_aux]. change (zlen []) with 0.
    assert (div_ceil 0 n = 0) as -> by (unfold div_ceil; apply Z.div_small; lia). split; [done|lia]. }
  cbn [chunks_aux]. set (xs := x :: l) in *.
  assert (0 < zlen xs) by (unfold xs; rewrite zlen_cons; pose proof (zlen_nonneg l); lia).
  assert (zlen (drop (Z.to_nat n) xs) = Z.max 0 (zlen xs - n)) as Hd by (apply zlen_drop; lia).
  destruct (IH (drop (Z.to_nat n) xs)) as [IHl IHk]; [lia|].
  assert (div_ceil (zlen xs) n = 1 + div_ceil (zlen (drop (Z.to_nat n) xs)) n) as Hdiv.
  { rewrite Hd. unfold div_ceil. destruct (Z.le_gt_cases n (zlen xs)).
    - rewrite Z.max_r by lia. replace (zlen xs + n - 1) with (zlen xs - n + n - 1 + 1 * n) by lia.
      rewrite Z.div_add by lia. lia.
    - rewrite Z.max_l by lia. rewrite (Z.div_small (0 + n - 1)) by lia.
      replace (zlen xs + n - 1) with ((zlen xs - 1) + 1 * n) by lia. rewrite Z.div_add by lia.
      rewrite Z.div_small by lia. lia. }
  split; [rewrite zlen_cons; lia|]. intros k Hk. destruct (Z.eq_dec k 0) as [->|].
  - rewrite zget_0. by rewrite Z.mul_0_l, drop_0.
  - rewrite zget_cons by lia. rewrite IHk by lia. rewrite drop_drop, <- Z2Nat.inj_add by nia.
    do 4 f_equal. lia.
Qed.

Lemma zlen_chunks {A : Type} n (l : list A) : 0 < n → zlen (chunks (Z.to_nat n) l) = div_ceil (zlen l) n.
Proof. intros Hn. by apply (chunks_aux_spec (length l)). Qed.
Lemma zget_chunks {A : Type} n (l : list A) k :
  0 < n → 0 ≤ k < div_ceil (zlen l) n →
  zget (chunks (Z.to_nat n) l) k = Some (take (Z.to_nat n) (drop (Z.to_nat (k * n)) l)).
Proof. intros Hn. by apply (chunks_aux_spec (length l)). Qed.

(** What the writer lays out, in closed form: the columns are the fields of the sorted
    occurrences, group [g] starts at the sum of the lengths of the groups before it, its
    [k]-th block describes its [k]-th chunk of 256 records; likewise for the documents and
    their interval blocks; and every string reference resolves in the final blob. *)

From Stdlib Require Import Sorting.Sorted.

Open Scope Z_scope.

(** ** Prefix sums *)

(** The sum of [f] over the first [i] elements. *)
Definition prefix_sum {A : Type} (f : A → Z) (l : list A) (i : Z) : Z :=
  foldr Z.add 0 (f <$> take (Z.to_nat i) l).

Section prefix_sum.
Context {A : Type} (f : A → Z).

Lemma prefix_sum_0 l : prefix_sum f l 0 = 0.
Proof. by unfold prefix_sum. Qed.

Lemma prefix_sum_succ l i x : zget l i = Some x → prefix_sum f l (i + 1) = prefix_sum f l i + f x.
Proof.
  intros Hi. pose proof Hi as Hlt%zget_Some_lt. unfold zget in Hi. destruct (Z.leb_spec 0 i); [|done].
  unfold prefix_sum. replace (Z.to_nat (i + 1)) with (S (Z.to_nat i)) by lia.
  rewrite (take_S_r _ _ _ Hi). apply sum_snoc.
Qed.

Lemma prefix_sum_app l k i : i ≤ zlen l → prefix_sum f (l ++ k) i = prefix_sum f l i.
Proof. intros Hi. unfold prefix_sum. rewrite take_app_le; [done|]. unfold zlen in Hi. lia. Qed.

Lemma prefix_sum_all l : prefix_sum f l (zlen l) = foldr Z.add 0 (f <$> l).
Proof. unfold prefix_sum, zlen. by rewrite Nat2Z.id, firstn_all. Qed.

Lemma prefix_sum_snoc l x : prefix_sum f (l ++ [x]) (zlen (l ++ [x])) = prefix_sum f l (zlen l) + f x.
Proof.
  rewrite zlen_app. change (zlen [x]) with 1. rewrite (prefix_sum_succ _ _ x).
  - by rewrite prefix_sum_app by lia.
  - by rewrite zget_app_r, Z.sub_diag by lia.
Qed.

Context (Hf : ∀ x, 0 ≤ f x).

Lemma prefix_sum_mono l i j : 0 ≤ i ≤ j → prefix_sum f l i ≤ prefix_sum f l j.
Proof.
  intros Hij. unfold prefix_sum.
  assert (take (Z.to_nat j) l = take (Z.to_nat i) l ++ take (Z.to_nat (j - i)) (drop (Z.to_nat i) l)) as ->.
  { rewrite take_take_drop. f_equal. lia. }
  rewrite fmap_app, foldr_app. set (t := take (Z.to_nat i) l). set (u := take _ (drop _ l)).
  assert (0 ≤ foldr Z.add 0 (f <$> u)).
  { induction u as [|x u IH]; cbn; [lia|]. specialize (Hf x). lia. }
  generalize dependent (foldr Z.add 0 (f <$> u)). intros s Hs.
  induction t as [|x t IH]; cbn; lia.
Qed.

Lemma prefix_sum_nonneg l i : 0 ≤ i → 0 ≤ prefix_sum f l i.
Proof. intros Hi. rewrite <- (prefix_sum_0 l). by apply prefix_sum_mono. Qed.

Lemma prefix_sum_next l i x : zget l i = Some x → prefix_sum f l i + f x ≤ prefix_sum f l (zlen l).
Proof.
  intros Hi. rewrite <- (prefix_sum_succ _ _ _ Hi). apply zget_Some_lt in Hi. apply prefix_sum_mono. lia.
Qed.
End prefix_sum.

Lemma zlen_concat {A : Type} (l : list (list A)) : zlen (concat l) = prefix_sum zlen l (zlen l).
Proof.
  rewrite prefix_sum_all. induction l as [|x l IH]; [done|]. cbn [concat fmap list_fmap foldr].
  by rewrite zlen_app, IH.
Qed.

(** An element of a concatenation, by the list it comes from. *)
Lemma zget_concat {A : Type} (l : list (list A)) g grp k x :
  zget l g = Some grp → zget grp k = Some x → zget (concat l) (prefix_sum zlen l g + k) = Some x.
Proof.
  revert g. induction l as [|y l IH]; intros g Hg Hk.
  { apply zget_Some_lt in Hg. change (zlen []) with 0 in Hg. lia. }
  pose proof Hg as Hlt%zget_Some_lt. cbn [concat]. destruct (Z.eq_dec g 0) as [->|].
  - injection Hg as ->. rewrite prefix_sum_0. pose proof Hk as ?%zget_Some_lt. by rewrite zget_app_l by lia.
  - rewrite zget_cons in Hg by lia.
    assert (prefix_sum zlen (y :: l) g = zlen y + prefix_sum zlen l (g - 1)) as ->.
    { unfold prefix_sum. replace (Z.to_nat g) with (S (Z.to_nat (g - 1))) by lia. done. }
    pose proof (prefix_sum_nonneg zlen zlen_nonneg l (g - 1) ltac:(lia)).
    pose proof Hk as ?%zget_Some_lt.
    rewrite zget_app_r by lia. rewrite <- (IH (g - 1) Hg Hk). f_equal. lia.
Qed.

(** ** Chunks *)

(** The number of 256-record blocks of a group. *)
Definition nblocks {A : Type} (l : list A) : Z := div_ceil (zlen l) 256.
(** The [k]-th chunk of 256. *)
Definition chunk {A : Type} (l : list A) (k : Z) : list A := take 256 (drop (Z.to_nat (k * 256)) l).

Lemma nblocks_nonneg {A : Type} (l : list A) : 0 ≤ nblocks l.
Proof. apply div_ceil_nonneg; [apply zlen_nonneg|done]. Qed.

Lemma nblocks_sort {A : Type} leb (l : list A) : nblocks (sort_by leb l) = nblocks l.
Proof. unfold nblocks. by rewrite zlen_sort_by. Qed.

Lemma nblocks_bounds {A : Type} (l : list A) : 256 * (nblocks l - 1) < zlen l ∨ nblocks l = 0 ∧ zlen l = 0.
Proof.
  unfold nblocks. pose proof (zlen_nonneg l). destruct (Z.eq_dec (zlen l) 0) as [->|].
  - right. by split.
  - left. pose proof (div_ceil_256 (zlen l)). lia.
Qed.

Lemma zlen_chunk {A : Type} (l : list A) k :
  0 ≤ k < nblocks l → zlen (chunk l k) = Z.min (zlen l - k * 256) 256.
Proof.
  intros Hk. unfold chunk. change 256%nat with (Z.to_nat 256). rewrite zlen_take, zlen_drop by lia.
  unfold nblocks in Hk. pose proof (zlen_nonneg l). destruct (Z.eq_dec (zlen l) 0) as [E|]; [rewrite E in Hk; change (div_ceil 0 256) with 0 in Hk; lia|].
  pose proof (div_ceil_256 (zlen l)). lia.
Qed.

Lemma zget_chunk {A : Type} (l : list A) k i x :
  0 ≤ k → zget (chunk l k) i = Some x → zget l (k * 256 + i) = Some x.
Proof.
  intros Hk. unfold chunk, zget. destruct (Z.leb_spec 0 i); [|done].
  destruct (Z.leb_spec 0 (k * 256 + i)); [|lia]. intros Hx.
  apply lookup_take_Some in Hx as [Hx _]. rewrite lookup_drop in Hx.
  by replace (Z.to_nat (k * 256 + i)) with (Z.to_nat (k * 256) + Z.to_nat i)%nat by lia.
Qed.

(** Every chunk but the last is full. *)
Lemma chunks_before {A : Type} fuel (l : list A) pre x rest :
  chunks_aux fuel 256 l = pre ++ x :: rest → zlen (concat pre) = zlen pre * 256.
Proof.
  revert l pre. induction fuel as [|fuel IH]; intros l pre; cbn [chunks_aux].
  { by destruct pre. }
  destruct l as [|y l]; [by destruct pre|]. set (ys := y :: l). destruct pre as [|p pre]; [done|].
  change (take 256 ys :: chunks_aux fuel 256 (drop 256 ys) = p :: (pre ++ x :: rest) →
    zlen (concat (p :: pre)) = zlen (p :: pre) * 256).
  intros E. apply (f_equal tail) in E as Hrest. 
  assert (Some (take 256 ys) = Some p) as Hp by (apply (f_equal head) in E; exact E).
  apply (inj Some) in Hp. cbn [tail] in Hrest. pose proof Hrest as Hrest'. apply IH in Hrest. cbn [concat]. rewrite zlen_app, zlen_cons, Hrest.
  
  enough (zlen p = 256) by lia. rewrite <- Hp. unfold zlen. rewrite length_take.
  assert (256 < length ys)%nat; [|lia].
  destruct (decide (256 < length ys)%nat) as [|Hlen]; [done|].
  rewrite drop_ge in Hrest' by lia. destruct fuel; by destruct pre.
Qed.

(** ** Group postings *)

(** The stored record of an occurrence. *)
Definition record_of (o : GroupOcc) : GroupRecord :=
  mkGroupRecord (go_doc_ord o) (go_doc_epoch o) (go_target_ord o)
    (as_i32 (pack_start (go_span o))) (as_i32 (pack_end (go_span o))) (go_flags o).

(** An occurrence whose fields fit their columns and whose target has a bit in [words]. *)
Definition occ_fits (words : Z) (o : GroupOcc) : Prop :=
  inS 32 (go_doc_ord o) ∧ inS 32 (go_doc_epoch o) ∧ inS 32 (go_target_ord o) ∧ inS 32 (go_flags o) ∧
  0 ≤ go_target_ord o < 64 * words.

(** The columns after pushing a list of occurrences. *)
Definition push_all (l : GroupLayout) (occs : list GroupOcc) : GroupLayout :=
  mkGroupLayout (gl_doc_ord l ++ (go_doc_ord <$> occs)) (gl_doc_epoch l ++ (go_doc_epoch <$> occs))
    (gl_target_ord l ++ (go_target_ord <$> occs))
    (gl_packed_start l ++ ((λ o, as_i32 (pack_start (go_span o))) <$> occs))
    (gl_packed_end l ++ ((λ o, as_i32 (pack_end (go_span o))) <$> occs))
    (gl_flags l ++ (go_flags <$> occs)) (gl_entries l).

Lemma push_all_nil l : push_all l [] = l.
Proof. destruct l. unfold push_all. cbn. by rewrite !app_nil_r. Qed.
Lemma push_all_app l a b : push_all (push_all l a) b = push_all l (a ++ b).
Proof. unfold push_all. cbn. by rewrite !fmap_app, !app_assoc. Qed.
Lemma push_occ_all l o : push_occ l o = push_all l [o].
Proof. done. Qed.

Definition push_entries (l : GroupLayout) (es : list GroupIndexEntry) : GroupLayout :=
  mkGroupLayout (gl_doc_ord l) (gl_doc_epoch l) (gl_target_ord l) (gl_packed_start l)
    (gl_packed_end l) (gl_flags l) es.

(** What a block entry says of the records it covers. *)
Record block_desc (words : Z) (b : BlockEntry) (first : Z) (recs : list GroupRecord) : Prop := {
  bd_first : be_first_record b = first;
  bd_count : be_record_count b = zlen recs;
  bd_agg : fold_r agg_record (agg_init words) recs = Ok (be_agg b);
  bd_of : agg_of words recs (be_agg b);
  bd_range : inS 32 (ag_dmin (be_agg b)) ∧ inS 32 (ag_dmax (be_agg b)) ∧
             inS 32 (ag_emin (be_agg b)) ∧ inS 32 (ag_emax (be_agg b));
}.

Lemma block_add_record a o : 0 ≤ go_target_ord o → block_add a o = agg_record a (record_of o).
Proof.
  intros Ht. unfold block_add, agg_record, agg_step. destruct (Z.leb_spec 0 (go_target_ord o)); [|lia].
  cbn [record_of gr_target_ord gr_flags gr_doc_ord gr_doc_epoch]. by destruct (set_word_bit _ _).
Qed.

Lemma agg_range words recs a :
  Forall (λ r, inS 32 (gr_doc_ord r) ∧ inS 32 (gr_doc_epoch r)) recs →
  fold_r agg_record (agg_init words) recs = Ok a →
  inS 32 (ag_dmin a) ∧ inS 32 (ag_dmax a) ∧ inS 32 (ag_emin a) ∧ inS 32 (ag_emax a).
Proof.
  intros Hr Ha. revert Hr.
  eapply (fold_r_invariant (λ pre a, Forall (λ r, inS 32 (gr_doc_ord r) ∧ inS 32 (gr_doc_epoch r)) pre →
    inS 32 (ag_dmin a) ∧ inS 32 (ag_dmax a) ∧ inS 32 (ag_emin a) ∧ inS 32 (ag_emax a))); [| |exact Ha].
  - intros _. cbn. unfold inS, i32_min, i32_max. lia.
  - intros pre r t t' IH Ht [Hpre [[Hd He] _]%Forall_cons]%Forall_app. specialize (IH Hpre).
    unfold agg_record, agg_step in Ht. destruct (set_word_bit _ _); [|done].
    injection Ht as <-. cbn [ag_dmin ag_dmax ag_emin ag_emax]. unfold inS in *. lia.
Qed.

Section group_layout.
Context (words : Z) (Hwords : 0 ≤ words).

Lemma layout_occs l a occs :
  Forall (occ_fits words) occs →
  fold_r layout_occ (l, a) occs =
    (a' ← fold_r agg_record a (record_of <$> occs); Ok (push_all l occs, a')).
Proof.
  revert l a. induction occs as [|o occs IH]; intros l a Ho; [cbn; by rewrite push_all_nil|].
  apply Forall_cons in Ho as [(_ & _ & _ & _ & Ht) Ho]. cbn [fold_r fmap list_fmap].
  change (layout_occ (l, a) o) with (agg ← block_add a o; Ok (push_occ l o, agg)).
  rewrite block_add_record by lia.
  destruct (agg_record a (record_of o)) as [a'|e]; [|done]. cbn [mbind result_bind].
  rewrite IH by done. rewrite push_occ_all, push_all_app. done.
Qed.

Lemma block_desc_total first occs :
  Forall (occ_fits words) occs →
  ∃ a, fold_r agg_record (agg_init words) (record_of <$> occs) = Ok a ∧
    block_desc words (mkBlockEntry first (zlen occs) a) first (record_of <$> occs).
Proof.
  intros Ho. destruct (fold_agg_total words (record_of <$> occs) Hwords) as (a & Ha & Hof).
  { apply Forall_fmap. eapply Forall_impl; [exact Ho|]. intros o (_ & _ & ? & _ & ?). by split. }
  exists a. split; [done|]. split; cbn [be_first_record be_record_count be_agg]; [done| |done|done|].
  - by rewrite zlen_fmap.
  - eapply agg_range; [|exact Ha]. apply Forall_fmap. eapply Forall_impl; [exact Ho|].
    intros o (? & ? & _). by split.
Qed.

(** The blocks of one group whose records start at [first]. *)
Definition group_blocks (first : Z) (sorted : list GroupOcc) (bs : list BlockEntry) : Prop :=
  zlen bs = nblocks sorted ∧ ∀ k, 0 ≤ k < nblocks sorted →
    ∃ b, zget bs k = Some b ∧ block_desc words b (first + k * 256) (record_of <$> chunk sorted k).

Lemma layout_chunks l bs sorted :
  Forall (occ_fits words) sorted → zlen (gl_doc_ord l) + zlen sorted < 2 ^ 31 →
  ∃ new, fold_r (layout_chunk words) (l, bs) (chunks (Z.to_nat BLOCK_SIZE) sorted) =
           Ok (push_all l sorted, bs ++ new) ∧ group_blocks (zlen (gl_doc_ord l)) sorted new.
Proof.
  intros Ho Hlen. change (Z.to_nat BLOCK_SIZE) with (Z.to_nat 256). set (cs := chunks (Z.to_nat 256) sorted).
  assert (concat cs = sorted) as Hcs by (apply concat_chunks; lia).
  destruct (fold_r_total (λ pre st, ∃ new, st = (push_all l (concat pre), bs ++ new) ∧ zlen new = zlen pre ∧
    ∀ k c, zget pre k = Some c → ∃ b, zget new k = Some b ∧
      block_desc words b (zlen (gl_doc_ord l) + k * 256) (record_of <$> c))
    (layout_chunk words) (l, bs) cs) as (st & Hst & new & -> & Hnl & Hnew).
  - exists []. cbn [concat]. rewrite push_all_nil, app_nil_r. split_and!; [done..|].
    intros k c Hk%zget_Some_lt. change (zlen []) with 0 in Hk. lia.
  - intros pre c rest st Hsplit (new & -> & Hnl & Hnew).
    assert (zlen (concat pre) = zlen pre * 256) as Hpre by (eapply chunks_before; exact Hsplit).
    assert (zlen (concat pre) + zlen c ≤ zlen sorted) as Hle.
    { rewrite <- Hcs, Hsplit, concat_app, zlen_app. cbn [concat]. rewrite zlen_app.
      pose proof (zlen_nonneg (concat rest)). lia. }
    assert (Forall (occ_fits words) c) as Hc.
    { rewrite Forall_forall in Ho. apply Forall_forall. intros o Hin. apply Ho. rewrite <- Hcs, Hsplit, concat_app.
      cbn [concat]. set_solver. }
    pose proof (zlen_nonneg c). pose proof (zlen_nonneg (gl_doc_ord l)). pose proof (zlen_nonneg (concat pre)).
    destruct (block_desc_total (zlen (gl_doc_ord l) + zlen pre * 256) c Hc) as (a & Ha & Hb).
    unfold layout_chunk. cbn [fst snd]. rewrite layout_occs, Ha by done. cbn [mbind result_bind fst snd].
    eexists. split; [done|]. exists (new ++ [mkBlockEntry (zlen (gl_doc_ord l) + zlen pre * 256) (zlen c) a]).
    split_and!.
    + rewrite push_all_app, concat_app. cbn [concat]. rewrite app_nil_r, <- app_assoc. do 4 f_equal.
      f_equal; [|apply wrapS_id; [done|unfold inS; lia]].
      cbn [push_all gl_doc_ord]. rewrite zlen_app, zlen_fmap, Hpre. apply wrapS_id; [done|unfold inS; lia].
    + rewrite !zlen_app, Hnl. done.
    + intros k c' Hk. destruct (Z.lt_ge_cases k (zlen pre)) as [Hlt|Hge].
      * rewrite zget_app_l in Hk by done. rewrite zget_app_l by lia. by apply Hnew.
      * rewrite zget_app_r in Hk by done. pose proof Hk as Hk1%zget_Some_lt. change (zlen [c]) with 1 in Hk1.
        assert (k = zlen pre) as -> by lia. rewrite Z.sub_diag in Hk. injection Hk as <-.
        rewrite zget_app_r, Hnl, Z.sub_diag by lia. eexists. split; [done|]. exact Hb.
  - exists new. rewrite Hcs in Hst. split; [done|]. split.
    + rewrite Hnl. apply zlen_chunks. done.
    + intros k Hk. apply Hnew. by apply (zget_chunks 256).
Qed.

(** The columns hold the sorted records group after group; each entry and each block is
    where the sizes of the groups before it put them. *)
Record layout_ok (blocks0 : list BlockEntry) (groups : list (list GroupOcc)) (layout : GroupLayout)
    (blocks : list BlockEntry) : Prop := {
  lo_columns : push_entries (push_all GroupLayout_default (concat (sort_group <$> groups)))
                 (gl_entries layout) = layout;
  lo_count : zlen (gl_entries layout) = zlen groups;
  lo_entry g grp : zget groups g = Some grp → zget (gl_entries layout) g = Some (mkGroupIndexEntry
    (prefix_sum zlen groups g) (zlen grp)
    (if zlen grp =? 0 then -1 else zlen blocks0 + prefix_sum nblocks groups g));
  lo_blocks : ∃ new, blocks = blocks0 ++ new ∧ zlen new = prefix_sum nblocks groups (zlen groups) ∧
    ∀ g grp k, zget groups g = Some grp → 0 ≤ k < nblocks grp →
      ∃ b, zget new (prefix_sum nblocks groups g + k) = Some b ∧
        block_desc words b (prefix_sum zlen groups g + k * 256) (record_of <$> chunk (sort_group grp) k)
}.

Lemma layout_ok_nil blocks0 : layout_ok blocks0 [] GroupLayout_default blocks0.
Proof.
  split; [done|done| |].
  - intros g grp Hg%zget_Some_lt. change (zlen []) with 0 in Hg. lia.
  - exists []. rewrite app_nil_r. split_and!; [done..|].
    intros g grp k Hg%zget_Some_lt. change (zlen []) with 0 in Hg. lia.
Qed.

Lemma zget_snoc_inv {A : Type} (l : list A) x i y :
  zget (l ++ [x]) i = Some y → i < zlen l ∧ zget l i = Some y ∨ i = zlen l ∧ y = x.
Proof. intros [Hi|[-> ->]]%zget_snoc; [left|by right]. split; [by eapply zget_Some_lt|done]. Qed.

Lemma layout_ok_columns blocks0 groups layout blocks :
  layout_ok blocks0 groups layout blocks →
  zlen (gl_doc_ord layout) = prefix_sum zlen groups (zlen groups).
Proof.
  intros [Hcols _ _ _]. rewrite <- Hcols. cbn. rewrite zlen_fmap, zlen_concat, zlen_fmap.
  rewrite !prefix_sum_all. rewrite <- (zlen_fmap sort_group groups), prefix_sum_all, <- list_fmap_compose.
  f_equal. apply list_fmap_ext. intros i x _. cbn. apply zlen_sort_by.
Qed.

Lemma layout_blocks_count blocks0 groups layout blocks :
  layout_ok blocks0 groups layout blocks →
  zlen blocks = zlen blocks0 + prefix_sum nblocks groups (zlen groups).
Proof. intros [_ _ _ (new & -> & Hl & _)]. by rewrite zlen_app, Hl. Qed.

(** Adding one group: its entry and its blocks extend the layout. *)
Lemma layout_ok_snoc blocks0 groups layout blocks group new :
  layout_ok blocks0 groups layout blocks →
  group_blocks (prefix_sum zlen groups (zlen groups)) (sort_group group) new →
  layout_ok blocks0 (groups ++ [group])
    (push_all (push_entry layout (mkGroupIndexEntry (prefix_sum zlen groups (zlen groups)) (zlen group)
       (if zlen group =? 0 then -1 else zlen blocks))) (sort_group group)) (blocks ++ new).
Proof.
  intros Hok [Hnl Hnew]. pose proof (layout_blocks_count _ _ _ _ Hok) as Hbc.
  destruct Hok as [Hcols Hcount Hentry (new0 & -> & Hnl0 & Hnew0)].
  set (e := mkGroupIndexEntry _ _ _). split.
  - rewrite fmap_app, concat_app. cbn [fmap list_fmap concat]. rewrite app_nil_r, <- push_all_app.
    rewrite <- Hcols at 2. done.
  - cbn [push_all push_entry gl_entries]. by rewrite !zlen_app, Hcount.
  - intros g grp [[Hg Hgrp]|[-> ->]]%zget_snoc_inv; cbn [push_all push_entry gl_entries].
    + pose proof Hgrp as ?%zget_Some_lt. rewrite zget_app_l by lia. rewrite !prefix_sum_app by lia.
      by apply Hentry.
    + rewrite zget_app_r, Hcount, Z.sub_diag by lia. rewrite !prefix_sum_app by lia. unfold e. by rewrite Hbc.
  - exists (new0 ++ new). rewrite app_assoc. split; [done|].
    rewrite prefix_sum_snoc, zlen_app, Hnl0, Hnl. unfold sort_group at 1. rewrite nblocks_sort. split; [done|].
    intros g grp k [[Hg Hgrp]|[-> ->]]%zget_snoc_inv Hk.
    + rewrite !prefix_sum_app by lia. destruct (Hnew0 g grp k Hgrp Hk) as (b & Hb & Hdesc).
      exists b. split; [|done]. rewrite zget_app_l; [done|]. apply zget_Some_lt in Hb. lia.
    + rewrite !prefix_sum_app by lia.
      destruct (Hnew k) as (b & Hb & Hdesc); [unfold sort_group; by rewrite nblocks_sort|].
      exists b. split; [|done]. rewrite zget_app_r by lia. by replace (_ + k - zlen new0) with k by lia.
Qed.

Lemma layout_group_total blocks0 groups layout blocks group :
  layout_ok blocks0 groups layout blocks → Forall (occ_fits words) group →
  prefix_sum zlen groups (zlen groups) + zlen group < 2 ^ 31 → zlen blocks < 2 ^ 31 →
  ∃ st, layout_group words (layout, blocks) group = Ok st ∧
    layout_ok blocks0 (groups ++ [group]) st.1 st.2.
Proof.
  intros Hok Hg Hrecs Hblocks. pose proof (layout_ok_columns _ _ _ _ Hok) as Hcols.
  pose proof (zlen_nonneg group). pose proof (zlen_nonneg blocks).
  pose proof (prefix_sum_nonneg zlen zlen_nonneg groups (zlen groups) (zlen_nonneg _)).
  assert (Forall (occ_fits words) (sort_group group)) as Hs.
  { unfold sort_group. by rewrite sort_by_perm. }
  assert (zlen (sort_group group) = zlen group) as Hsl by apply zlen_sort_by.
  unfold layout_group. cbv zeta. rewrite Hcols.
  assert (∀ x, 0 ≤ x < 2 ^ 31 → as_i32 x = x ∧ as_i64 x = x) as Hcast.
  { intros x Hx. split; apply wrapS_id; unfold inS; lia. }
  destruct (Hcast (prefix_sum zlen groups (zlen groups))) as [_ ->]; [lia|].
  destruct (Hcast (zlen group)) as [-> _]; [lia|]. destruct (Hcast (zlen blocks)) as [-> _]; [lia|].
  pose proof (λ new, layout_ok_snoc blocks0 groups layout blocks group new Hok) as Hsnoc.
  destruct (Z.eqb_spec (zlen group) 0) as [E|E]; [rewrite bool_decide_true by done|rewrite bool_decide_false by done].
  - assert (group = []) as ->. { destruct group; [done|]. rewrite zlen_cons in E. pose proof (zlen_nonneg group). lia. }
    eexists. split; [done|]. cbn [fst snd]. specialize (Hsnoc []).
    rewrite app_nil_r in Hsnoc. change (sort_group []) with (@nil GroupOcc) in Hsnoc.
    rewrite push_all_nil in Hsnoc. apply Hsnoc. split; [done|]. intros k Hk.
    change (nblocks []) with 0 in Hk. lia.
  - set (l := push_entry _ _) in *.
    assert (zlen (gl_doc_ord l) = prefix_sum zlen groups (zlen groups)) as Hl by exact Hcols.
    destruct (layout_chunks l blocks (sort_group group)) as (new & Hnew & Hgb); [done|lia|].
    rewrite Hnew. eexists. split; [done|]. cbn [fst snd]. apply Hsnoc. by rewrite <- Hl.
Qed.

(** [layout_groups] succeeds with the layout. *)
Lemma layout_groups_total groups blocks0 :
  Forall (Forall (occ_fits words)) groups → prefix_sum zlen groups (zlen groups) < 2 ^ 31 →
  zlen blocks0 + prefix_sum nblocks groups (zlen groups) < 2 ^ 31 →
  ∃ st, layout_groups groups words blocks0 = Ok st ∧ layout_ok blocks0 groups st.1 st.2.
Proof.
  intros Hg Hrecs Hblocks. unfold layout_groups.
  destruct (fold_r_total (λ pre st, layout_ok blocks0 pre st.1 st.2) (layout_group words)
    (GroupLayout_default, blocks0) groups) as (st & Hst & Hok); [apply layout_ok_nil| |by eauto].
  intros pre group rest [l bs] Hsplit Hok. cbn [fst snd] in Hok.
  pose proof (zget_app_r pre (group :: rest) (zlen pre) ltac:(lia)) as Hget.
  rewrite Z.sub_diag, zget_0, <- Hsplit in Hget.
  pose proof (prefix_sum_next zlen zlen_nonneg groups _ _ Hget) as H1.
  pose proof (prefix_sum_next nblocks nblocks_nonneg groups _ _ Hget) as H2.
  assert (∀ f : list GroupOcc → Z, prefix_sum f groups (zlen pre) = prefix_sum f pre (zlen pre)) as Hp.
  { intros f. rewrite Hsplit. apply prefix_sum_app. lia. }
  rewrite Hp in H1, H2.
  pose proof (nblocks_nonneg group).
  apply layout_group_total; [done| |lia|].
  - rewrite Forall_forall in Hg. apply Hg. rewrite Hsplit. set_solver.
  - rewrite (layout_blocks_count _ _ _ _ Hok). lia.
Qed.
End group_layout.

(** What the writer lays out for the documents, in closed form: the posting columns, the
    interval blocks, the entries and the URI blob of [build_doc_files]. *)

From Stdlib Require Import Sorting.Sorted.

Open Scope Z_scope.

(** A slice survives appending to the blob. *)
Lemma slice_app {A : Type} (b c s : list A) off len : slice b off len = Some s → slice (b ++ c) off len = Some s.
Proof.
  intros (pre & post & -> & <- & <-)%slice_Some. apply slice_Some. exists pre, (post ++ c).
  by rewrite <- !app_assoc.
Qed.

Lemma slice_end {A : Type} (b s : list A) : slice (b ++ s) (zlen b) (zlen s) = Some s.
Proof. apply slice_Some. exists b, []. by rewrite app_nil_r. Qed.

(** ** Columns and intervals *)

Section doc_layout.
Context (c2s : list Z).

(** The stored record of an occurrence, its symbol ordinal remapped. *)
Definition doc_record_of (o : DocOcc) : DocRecord :=
  mkDocRecord (default 0 (zget c2s (do_symbol_ord o))) (as_i32 (pack_start (do_span o)))
    (as_i32 (pack_end (do_span o))) (do_flags o).

Definition doc_occ_fits (o : DocOcc) : Prop := 0 ≤ do_symbol_ord o < zlen c2s ∧ inS 32 (do_symbol_ord o).

Definition push_docs (l : DocLayout) (occs : list DocOcc) : DocLayout :=
  mkDocLayout (dl_symbol_ord l ++ (dr_symbol_ord <$> (doc_record_of <$> occs)))
    (dl_packed_start l ++ (dr_packed_start <$> (doc_record_of <$> occs)))
    (dl_packed_end l ++ (dr_packed_end <$> (doc_record_of <$> occs)))
    (dl_flags l ++ (dr_flags <$> (doc_record_of <$> occs))) (dl_intervals l) (dl_docs l) (dl_uri_blob l).

Definition push_intervals (l : DocLayout) (ivs : list (Z * Z * Z * Z)) : DocLayout :=
  mkDocLayout (dl_symbol_ord l) (dl_packed_start l) (dl_packed_end l) (dl_flags l)
    (dl_intervals l ++ ivs) (dl_docs l) (dl_uri_blob l).

Lemma push_docs_nil l : push_docs l [] = l.
Proof. destruct l. unfold push_docs. cbn. by rewrite !app_nil_r. Qed.
Lemma push_docs_app l a b : push_docs (push_docs l a) b = push_docs l (a ++ b).
Proof. unfold push_docs. cbn. by rewrite !fmap_app, !app_assoc. Qed.
Lemma push_intervals_nil l : push_intervals l [] = l.
Proof. destruct l. unfold push_intervals. cbn. by rewrite !app_nil_r. Qed.

(** The largest end line of a chunk. *)
Definition max_end (occs : list DocOcc) : Z :=
  foldl (λ m o, Z.max m (as_i32 (end_line (do_span o)))) i32_min occs.

(** The interval of a chunk whose records start at [first]. *)
Definition interval_of (first : Z) (c : list DocOcc) : Z * Z * Z * Z :=
  (default 0 ((λ o, as_i32 (start_line (do_span o))) <$> head c), max_end c, first, zlen c).

Lemma push_doc_occs l m occs :
  Forall doc_occ_fits occs →
  fold_r (push_doc_occ c2s) (l, m) occs =
    Ok (push_docs l occs, foldl (λ m o, Z.max m (as_i32 (end_line (do_span o)))) m occs).
Proof.
  revert l m. induction occs as [|o occs IH]; intros l m Ho; [cbn; by rewrite push_docs_nil|].
  apply Forall_cons in Ho as [[Hs Hi] Ho]. cbn [fold_r foldl].
  destruct (zget_is_Some c2s (do_symbol_ord o) Hs) as [v Hv].
  assert (push_doc_occ c2s (l, m) o =
    Ok (push_docs l [o], Z.max m (as_i32 (end_line (do_span o))))) as ->.
  { unfold push_doc_occ. rewrite as_usize_nonneg by (unfold inS in Hi; lia). rewrite Hv. cbn [unwrap ok_or mbind result_bind].
    unfold push_docs. cbn. by rewrite Hv. }
  cbn [mbind result_bind]. rewrite IH by done. by rewrite push_docs_app.
Qed.

(** The intervals of one document whose records start at [first]. *)
Definition doc_intervals (first : Z) (sorted : list DocOcc) (ivs : list (Z * Z * Z * Z)) : Prop :=
  zlen ivs = nblocks sorted ∧ ∀ k, 0 ≤ k < nblocks sorted →
    zget ivs k = Some (interval_of (first + k * 256) (chunk sorted k)).

Lemma layout_doc_chunks l sorted :
  Forall doc_occ_fits sorted → zlen (dl_symbol_ord l) + zlen sorted < 2 ^ 31 →
  ∃ ivs, fold_r (doc_chunk c2s) l (chunks (Z.to_nat BLOCK_SIZE) sorted) =
          Ok (push_intervals (push_docs l sorted) ivs) ∧
        doc_intervals (zlen (dl_symbol_ord l)) sorted ivs.
Proof.
  intros Ho Hlen. change (Z.to_nat BLOCK_SIZE) with (Z.to_nat 256). set (cs := chunks (Z.to_nat 256) sorted).
  assert (concat cs = sorted) as Hcs by (apply concat_chunks; lia).
  destruct (fold_r_total (λ pre l', ∃ ivs, l' = push_intervals (push_docs l (concat pre)) ivs ∧ zlen ivs = zlen pre ∧
    ∀ k c, zget pre k = Some c → zget ivs k = Some (interval_of (zlen (dl_symbol_ord l) + k * 256) c))
    (doc_chunk c2s) l cs) as (l' & Hl' & ivs & -> & Hnl & Hnew).
  - exists []. cbn [concat]. rewrite push_docs_nil, push_intervals_nil. split_and!; [done..|].
    intros k c Hk%zget_Some_lt. change (zlen []) with 0 in Hk. lia.
  - intros pre c rest l' Hsplit (ivs & -> & Hnl & Hnew).
    assert (zlen (concat pre) = zlen pre * 256) as Hpre by (eapply chunks_before; exact Hsplit).
    assert (zlen (concat pre) + zlen c ≤ zlen sorted) as Hle.
    { rewrite <- Hcs, Hsplit, concat_app, zlen_app. cbn [concat]. rewrite zlen_app.
      pose proof (zlen_nonneg (concat rest)). lia. }
    assert (Forall doc_occ_fits c) as Hc.
    { rewrite Forall_forall in Ho. apply Forall_forall. intros o Hin. apply Ho. rewrite <- Hcs, Hsplit, concat_app.
      cbn [concat]. set_solver. }
    assert (0 < zlen c) as Hne.
    { assert (c ∈ cs) as Hin by (rewrite Hsplit; set_solver).
      apply chunks_bound in Hin; [unfold zlen; lia|lia]. }
    pose proof (zlen_nonneg (dl_symbol_ord l)). pose proof (zlen_nonneg (concat pre)).
    unfold doc_chunk. destruct c as [|o c]; [done|]. cbn [head unwrap ok_or mbind result_bind].
    rewrite push_doc_occs by done. cbn [mbind result_bind fst snd].
    eexists. split; [done|]. exists (ivs ++ [interval_of (zlen (dl_symbol_ord l) + zlen pre * 256) (o :: c)]).
    split_and!.
    + assert (as_i64 (zlen (dl_symbol_ord (push_intervals (push_docs l (concat pre)) ivs))) =
        zlen (dl_symbol_ord l) + zlen pre * 256) as ->.
      { cbn [push_intervals push_docs dl_symbol_ord]. rewrite zlen_app, !zlen_fmap, Hpre.
        apply wrapS_id; [done|unfold inS; lia]. }
      assert (as_i32 (zlen (o :: c)) = zlen (o :: c)) as -> by (apply wrapS_id; [done|unfold inS; lia]).
      rewrite concat_app. cbn [concat]. rewrite app_nil_r, <- push_docs_app.
      unfold push_intervals, push_docs. cbn [dl_symbol_ord dl_packed_start dl_packed_end dl_flags dl_intervals
        dl_docs dl_uri_blob]. by rewrite app_assoc.
    + rewrite !zlen_app, Hnl. done.
    + intros k c' [[Hk Hc']|[-> ->]]%zget_snoc_inv.
      * rewrite zget_app_l by lia. by apply Hnew.
      * by rewrite zget_app_r, Hnl, Z.sub_diag by lia.
  - exists ivs. rewrite Hcs in Hl'. split; [done|]. split.
    + rewrite Hnl. apply zlen_chunks. done.
    + intros k Hk. apply Hnew. by apply (zget_chunks 256).
Qed.

(** ** Documents *)

Definition uri_len (d : SegmentDoc) : Z := str_len (doc_uri d).
Lemma uri_len_nonneg d : 0 ≤ uri_len d.
Proof. apply zlen_nonneg. Qed.

(** The stored flags of a document. *)
Definition flags_of (d : SegmentDoc) : Z :=
  let f := 0 in
  let f := if doc_generated d then Z.lor f DOC_GENERATED else f in
  if doc_readonly d then Z.lor f DOC_READONLY else f.

(** The entry of document [i]. *)
Definition row_of (ds : list SegmentDoc) (os : list (list DocOcc)) (i : Z) (d : SegmentDoc) (occs : list DocOcc)
    : DocEntryRow :=
  mkDocEntryRow (prefix_sum uri_len ds i) (uri_len d) (doc_id d) (doc_epoch d) (doc_target_ord d)
    (flags_of d) (if zlen occs =? 0 then -1 else prefix_sum nblocks os i) (prefix_sum zlen os i) (zlen occs)
    (nblocks occs).

Record docs_ok (ds : list SegmentDoc) (os : list (list DocOcc)) (l : DocLayout) : Prop := {
  dl_len : zlen ds = zlen os;
  dl_columns : dl_symbol_ord l = dr_symbol_ord <$> (doc_record_of <$> concat (sort_doc <$> os)) ∧
    dl_packed_start l = dr_packed_start <$> (doc_record_of <$> concat (sort_doc <$> os)) ∧
    dl_packed_end l = dr_packed_end <$> (doc_record_of <$> concat (sort_doc <$> os)) ∧
    dl_flags l = dr_flags <$> (doc_record_of <$> concat (sort_doc <$> os));
  dl_rows_count : zlen (dl_docs l) = zlen ds;
  dl_row i d occs : zget ds i = Some d → zget os i = Some occs → zget (dl_docs l) i = Some (row_of ds os i d occs);
  dl_uri i d : zget ds i = Some d →
    slice (dl_uri_blob l) (prefix_sum uri_len ds i) (uri_len d) = Some (as_bytes (doc_uri d));
  dl_blob : zlen (dl_uri_blob l) = prefix_sum uri_len ds (zlen ds);
  dl_intervals_count : zlen (dl_intervals l) = prefix_sum nblocks os (zlen os);
  dl_interval i occs k : zget os i = Some occs → 0 ≤ k < nblocks occs →
    zget (dl_intervals l) (prefix_sum nblocks os i + k) =
      Some (interval_of (prefix_sum zlen os i + k * 256) (chunk (sort_doc occs) k))
}.

Lemma docs_ok_nil : docs_ok [] [] DocLayout_default.
Proof.
  split; try done.
  - intros i d occs Hi%zget_Some_lt. change (zlen []) with 0 in Hi. lia.
  - intros i d Hi%zget_Some_lt. change (zlen []) with 0 in Hi. lia.
  - intros i occs k Hi%zget_Some_lt. change (zlen []) with 0 in Hi. lia.
Qed.

Lemma docs_ok_records ds os l : docs_ok ds os l → zlen (dl_symbol_ord l) = prefix_sum zlen os (zlen os).
Proof.
  intros Hok. destruct (dl_columns _ _ _ Hok) as (-> & _). rewrite !zlen_fmap, zlen_concat, zlen_fmap, !prefix_sum_all.
  rewrite <- (zlen_fmap sort_doc os), prefix_sum_all, <- list_fmap_compose.
  f_equal. apply list_fmap_ext. intros i x _. cbn. apply zlen_sort_by.
Qed.

(** Adding one document: its URI, its row, its records and its intervals. *)
Lemma docs_ok_snoc ds os l d occs ivs :
  docs_ok ds os l → doc_intervals (prefix_sum zlen os (zlen os)) (sort_doc occs) ivs →
  docs_ok (ds ++ [d]) (os ++ [occs])
    (push_doc_row (push_intervals (push_docs (push_uri l (doc_uri d)) (sort_doc occs)) ivs)
       (row_of (ds ++ [d]) (os ++ [occs]) (zlen ds) d occs)).
Proof.
  intros [Hlen (Hc1 & Hc2 & Hc3 & Hc4) Hrc Hrow Huri Hblob Hic Hint] [Hnl Hnew].
  split; cbn [push_doc_row push_intervals push_docs push_uri dl_symbol_ord dl_packed_start dl_packed_end dl_flags
    dl_intervals dl_docs dl_uri_blob].
  - by rewrite !zlen_app, Hlen.
  - rewrite !fmap_app, concat_app. cbn [fmap list_fmap concat]. rewrite app_nil_r, !fmap_app, Hc1, Hc2, Hc3, Hc4. done.
  - by rewrite !zlen_app, Hrc.
  - intros i d' occs' Hd Ho. apply zget_snoc_inv in Hd as [[Hi Hd]|[-> ->]].
    + rewrite zget_app_l in Ho by lia. rewrite zget_app_l by lia. rewrite (Hrow _ _ _ Hd Ho).
      unfold row_of. rewrite !prefix_sum_app by lia. done.
    + rewrite Hlen, zget_app_r, Z.sub_diag in Ho by lia. injection Ho as ->.
      by rewrite zget_app_r, Hrc, Z.sub_diag by lia.
  - intros i d' [[Hi Hd]|[-> ->]]%zget_snoc_inv.
    + rewrite prefix_sum_app by lia. by apply slice_app, Huri.
    + rewrite prefix_sum_app by lia. rewrite <- Hblob. apply slice_end.
  - rewrite prefix_sum_snoc, zlen_app, Hblob. done.
  - rewrite prefix_sum_snoc, zlen_app, Hic, Hnl. f_equal. apply nblocks_sort.
  - intros i occs' k Ho Hk. apply zget_snoc_inv in Ho as [[Hi Ho]|[-> ->]].
    + rewrite !prefix_sum_app by lia. rewrite zget_app_l; [by apply Hint|].
      pose proof (Hint _ _ _ Ho Hk) as ?%zget_Some_lt. lia.
    + rewrite !prefix_sum_app by lia. rewrite zget_app_r by lia.
      replace (_ + k - zlen (dl_intervals l)) with k by lia. apply Hnew. unfold sort_doc. by rewrite nblocks_sort.
Qed.

(** Bounds under which no cast of the document layout loses anything. *)
Definition docs_fit (ds : list SegmentDoc) (os : list (list DocOcc)) : Prop :=
  prefix_sum zlen os (zlen os) < 2 ^ 31 ∧ prefix_sum nblocks os (zlen os) < 2 ^ 31 ∧
  prefix_sum uri_len ds (zlen ds) < 2 ^ 31.

Lemma layout_doc_total all ds os l d occs :
  docs_ok ds os l → Forall doc_occ_fits occs → docs_fit (ds ++ [d]) (os ++ [occs]) →
  all !! length ds = Some occs →
  ∃ l', layout_doc all c2s l (length ds, d) = Ok l' ∧ docs_ok (ds ++ [d]) (os ++ [occs]) l'.
Proof.
  intros Hok Ho (Hrecs & Hblocks & Hblob) Hall. pose proof (docs_ok_records _ _ _ Hok) as Hcols.
  rewrite !prefix_sum_snoc in *. pose proof (zlen_nonneg occs). pose proof (nblocks_nonneg occs).
  pose proof (uri_len_nonneg d).
  pose proof (prefix_sum_nonneg zlen zlen_nonneg os (zlen os) (zlen_nonneg _)).
  pose proof (prefix_sum_nonneg nblocks nblocks_nonneg os (zlen os) (zlen_nonneg _)).
  pose proof (prefix_sum_nonneg uri_len uri_len_nonneg ds (zlen ds) (zlen_nonneg _)).
  assert (∀ x, 0 ≤ x < 2 ^ 31 → as_i32 x = x ∧ as_i64 x = x) as Hcast.
  { intros x Hx. split; apply wrapS_id; unfold inS; lia. }
  assert (Forall doc_occ_fits (sort_doc occs)) as Hs by (unfold sort_doc; by rewrite sort_by_perm).
  assert (zlen (sort_doc occs) = zlen occs) as Hsl by apply zlen_sort_by.
  pose proof (dl_blob _ _ _ Hok) as Hub. pose proof (dl_intervals_count _ _ _ Hok) as Hic.
  unfold layout_doc. cbv zeta. rewrite Hall. cbn [unwrap ok_or mbind result_bind].
  change (dl_symbol_ord (push_uri l (doc_uri d))) with (dl_symbol_ord l).
  change (dl_intervals (push_uri l (doc_uri d))) with (dl_intervals l).
  rewrite Hub, Hcols, Hic. fold (uri_len d).
  destruct (Hcast (prefix_sum uri_len ds (zlen ds))) as [-> _]; [lia|].
  destruct (Hcast (uri_len d)) as [-> _]; [lia|].
  destruct (Hcast (prefix_sum zlen os (zlen os))) as [_ ->]; [lia|].
  destruct (Hcast (prefix_sum nblocks os (zlen os))) as [-> _]; [lia|].
  pose proof (λ ivs, docs_ok_snoc ds os l d occs ivs Hok) as Hsnoc.
  assert (row_of (ds ++ [d]) (os ++ [occs]) (zlen ds) d occs =
    mkDocEntryRow (prefix_sum uri_len ds (zlen ds)) (uri_len d) (doc_id d) (doc_epoch d) (doc_target_ord d)
      (flags_of d) (if zlen occs =? 0 then -1 else prefix_sum nblocks os (zlen os)) (prefix_sum zlen os (zlen os))
      (zlen occs) (nblocks occs)) as Hrow.
  { unfold row_of. pose proof (dl_len _ _ _ Hok). rewrite !prefix_sum_app by lia. by rewrite (dl_len _ _ _ Hok). }
  rewrite Hrow in Hsnoc.
  destruct (Z.eqb_spec (zlen occs) 0) as [E|E]; [rewrite bool_decide_true by done|rewrite bool_decide_false by done].
  - assert (occs = []) as ->. { destruct occs; [done|]. rewrite zlen_cons in E. pose proof (zlen_nonneg occs). lia. }
    eexists. split; [done|]. specialize (Hsnoc []).
    change (sort_doc []) with (@nil DocOcc) in Hsnoc. rewrite push_docs_nil, push_intervals_nil in Hsnoc.
    apply Hsnoc. split; [done|]. intros k Hk. change (nblocks []) with 0 in Hk. lia.
  - destruct (layout_doc_chunks (push_uri l (doc_uri d)) (sort_doc occs)) as (ivs & Hivs & Hdi);
      [done|cbn [push_uri dl_symbol_ord]; lia|].
    rewrite Hivs. cbn [mbind result_bind]. eexists. split; [done|].
    change (zlen (dl_symbol_ord (push_uri l (doc_uri d)))) with (zlen (dl_symbol_ord l)) in Hdi. rewrite Hcols in Hdi.
    assert (zlen (dl_symbol_ord (push_intervals (push_docs (push_uri l (doc_uri d)) (sort_doc occs)) ivs)) =
      prefix_sum zlen os (zlen os) + zlen occs) as ->.
    { cbn [push_intervals push_docs push_uri dl_symbol_ord]. by rewrite zlen_app, !zlen_fmap, Hcols, Hsl. }
    destruct (Hcast (prefix_sum zlen os (zlen os) + zlen occs)) as [_ ->]; [lia|].
    replace (prefix_sum zlen os (zlen os) + zlen occs - prefix_sum zlen os (zlen os)) with (zlen occs) by lia.
    destruct (Hcast (zlen occs)) as [-> _]; [lia|].
    change (Z.to_nat BLOCK_SIZE) with (Z.to_nat 256). rewrite zlen_chunks by done.
    fold (nblocks (sort_doc occs)). unfold sort_doc at 2. rewrite nblocks_sort. by apply Hsnoc.
Qed.

Lemma imap_pair_split {A : Type} (l : list A) pre i x rest :
  imap pair l = pre ++ (i, x) :: rest → i = length pre ∧ l = pre.*2 ++ x :: rest.*2.
Proof.
  intros H. split.
  - assert (imap pair l !! length pre = Some (i, x)) as Hi.
    { by rewrite H, lookup_app_r, Nat.sub_diag. }
    apply list_lookup_imap_Some in Hi as (y & _ & E). by injection E.
  - assert ((imap pair l).*2 = l) as <-.
    { rewrite fmap_imap. apply (list_eq _ _). intros j. rewrite list_lookup_imap. by destruct (l !! j). }
    rewrite H, fmap_app. done.
Qed.

(** The loop over the documents succeeds with the layout. *)
Lemma doc_layout_total ds os :
  length ds = length os → Forall (Forall doc_occ_fits) os → docs_fit ds os →
  ∃ l, fold_r (layout_doc os c2s) DocLayout_default (imap pair ds) = Ok l ∧ docs_ok ds os l.
Proof.
  intros Hlen Ho (Hrecs & Hblocks & Hblob).
  destruct (fold_r_total (λ pre l, docs_ok (pre.*2) (take (length pre) os) l) (layout_doc os c2s)
    DocLayout_default (imap pair ds)) as (l & Hl & Hok).
  - apply docs_ok_nil.
  - intros pre [i d] rest l Hsplit Hok. apply imap_pair_split in Hsplit as [-> Hds].
    destruct (lookup_lt_is_Some_2 os (length pre)) as [occs Hoc].
    { rewrite <- Hlen, Hds, length_app, length_fmap. cbn [length]. lia. }
    assert (take (length (pre ++ [(length pre, d)])) os = take (length pre) os ++ [occs]) as ->.
    { rewrite length_app. cbn [length]. rewrite Nat.add_1_r. by apply take_S_r. }
    rewrite fmap_app. cbn [fmap list_fmap].
    pose proof (layout_doc_total os (pre.*2) (take (length pre) os) l d occs Hok) as Hstep.
    rewrite length_fmap in Hstep.
    assert (os = (take (length pre) os ++ [occs]) ++ drop (S (length pre)) os) as Hos.
    { rewrite <- (take_S_r _ _ _ Hoc). by rewrite take_drop. }
    assert (ds = (pre.*2 ++ [d]) ++ rest.*2) as Hds' by (by rewrite <- app_assoc).
    apply Hstep; [| |done].
    + rewrite Forall_forall in Ho. apply Ho. by eapply list_elem_of_lookup_2.
    + set (os' := take (length pre) os ++ [occs]) in *. set (ds' := pre.*2 ++ [d]) in *.
      assert (∀ f : list DocOcc → Z, (∀ x, 0 ≤ f x) → prefix_sum f os' (zlen os') ≤ prefix_sum f os (zlen os)) as H1.
      { intros f Hf. rewrite Hos, <- (prefix_sum_app f os' (drop (S (length pre)) os)) by lia.
        apply prefix_sum_mono; [done|]. rewrite zlen_app. pose proof (zlen_nonneg os').
        pose proof (zlen_nonneg (drop (S (length pre)) os)). lia. }
      assert (prefix_sum uri_len ds' (zlen ds') ≤ prefix_sum uri_len ds (zlen ds)) as H2.
      { rewrite Hds', <- (prefix_sum_app uri_len ds' (rest.*2)) by lia.
        apply prefix_sum_mono; [apply uri_len_nonneg|]. rewrite zlen_app. pose proof (zlen_nonneg ds').
        pose proof (zlen_nonneg (rest.*2)). lia. }
      pose proof (H1 zlen zlen_nonneg). pose proof (H1 nblocks nblocks_nonneg).
      split; [lia|]. split; lia.
  - exists l. split; [done|]. rewrite length_imap, Hlen, firstn_all in Hok.
    assert ((imap pair ds).*2 = ds) as E.
    { rewrite fmap_imap. apply (list_eq _ _). intros j. rewrite list_lookup_imap. by destruct (ds !! j). }
    by rewrite E in Hok.
Qed.
End doc_layout.
