(* ===== verification/SegTables.v ===== *)
(** What the writer lays out for symbols, metadata and search rows: the symbol order and its
    inverse, and the tables of fixed-size rows whose string references point into one blob. *)

From S2P Require Import Prelude RustStr IndexModel StoreFormat SegReader SegSafe SegWriter SegLayout.

From Stdlib Require Import Sorting.Sorted Sorting.Permutation.

Open Scope Z_scope.

(** ** Tables over a blob *)

Lemma holds_at_trans f off b o s : holds_at f off b → holds_at b o s → holds_at f (off + o) s.
Proof.
  intros (pre & post & -> & <-) (p & q & -> & <-). exists (pre ++ p), (q ++ post).
  rewrite zlen_app. split; [|done]. by rewrite <- !app_assoc.
Qed.

Lemma holds_at_extend b off s t : holds_at b off s → holds_at (b ++ t) off s.
Proof. intros (pre & post & -> & <-). exists pre, (post ++ t). split; [|done]. by rewrite <- !app_assoc. Qed.

Lemma holds_at_end b s : holds_at (b ++ s) (zlen b) s.
Proof. exists b, []. by rewrite app_nil_r. Qed.

Section table.
Context {A : Type} (data : A → bytes) (row : Z → A → bytes) (n : Z).

(** One element: its strings go to the blob, its row records where. *)
Definition table_step (st : bytes * bytes) (x : A) : bytes * bytes :=
  (st.1 ++ data x, st.2 ++ row (zlen st.1) x).

Definition data_len (x : A) : Z := zlen (data x).

(** Row [i] is at [i * n] and knows where the strings of its element are. *)
Record table_ok (xs : list A) (st : bytes * bytes) : Prop := {
  tb_blob : zlen st.1 = prefix_sum data_len xs (zlen xs);
  tb_rows : zlen st.2 = zlen xs * n;
  tb_row i x : zget xs i = Some x → holds_at st.2 (i * n) (row (prefix_sum data_len xs i) x);
  tb_data i x : zget xs i = Some x → holds_at st.1 (prefix_sum data_len xs i) (data x)
}.

Lemma table_total xs : (∀ o x, x ∈ xs → zlen (row o x) = n) → table_ok xs (foldl table_step ([], []) xs).
Proof.
  induction xs as [|x xs IH] using rev_ind; intros Hn.
  { split; try done; intros i y Hi%zget_Some_lt; change (zlen []) with 0 in Hi; lia. }
  rewrite foldl_app. cbn [foldl]. destruct (IH ltac:(intros; apply Hn; set_solver)) as [Hb Hr Hrow Hdata].
  set (st := foldl table_step ([], []) xs) in *.
  change (table_step st x) with (st.1 ++ data x, st.2 ++ row (zlen st.1) x). split; cbn [fst snd].
  - rewrite prefix_sum_snoc, zlen_app, Hb. done.
  - rewrite !zlen_app, Hr, Hn by set_solver. change (zlen [x]) with 1. lia.
  - intros i y [[Hi Hy]|[-> ->]]%zget_snoc_inv; rewrite prefix_sum_app by lia.
    + by apply holds_at_extend, Hrow.
    + rewrite <- Hr, <- Hb. apply holds_at_end.
  - intros i y [[Hi Hy]|[-> ->]]%zget_snoc_inv; rewrite prefix_sum_app by lia.
    + by apply holds_at_extend, Hdata.
    + rewrite <- Hb. apply holds_at_end.
Qed.
End table.

(** A fallible loop all of whose steps succeed is the pure one. *)
Lemma fold_r_pure {E A S : Type} (f : S → A → result E S) (g : S → A → S) s l :
  (∀ t x, x ∈ l → f t x = Ok (g t x)) → fold_r f s l = Ok (foldl g s l).
Proof.
  revert s. induction l as [|x l IH]; intros s Hf; [done|]. cbn [fold_r foldl].
  rewrite Hf by left. cbn [mbind result_bind]. apply IH. intros. apply Hf. by right.
Qed.

Lemma foldl_ext_in {A S : Type} (f g : S → A → S) s l :
  (∀ t x, f t x = g t x) → foldl f s l = foldl g s l.
Proof. intros H. revert s. induction l as [|x l IH]; intros s; [done|]. cbn. by rewrite H, IH. Qed.

Lemma foldl_fmap {A B S : Type} (f : S → B → S) (h : A → B) s l : foldl f s (h <$> l) = foldl (λ t x, f t (h x)) s l.
Proof. revert s. induction l as [|x l IH]; intros s; [done|]. cbn. apply IH. Qed.

(** *** Target metadata *)

Definition target_data (m : TargetMeta) : bytes :=
  as_bytes (bsp_id m) ++ as_bytes (scala_version m) ++ as_bytes (sourceroot m) ++ as_bytes (semanticdb_root m).

Definition target_row (o : Z) (m : TargetMeta) : bytes :=
  let l0 := str_len (bsp_id m) in let l1 := str_len (scala_version m) in
  let l2 := str_len (sourceroot m) in let l3 := str_len (semanticdb_root m) in
  (put_i32 (as_i32 o) ++ put_i32 (as_i32 l0) ++ put_i32 (as_i32 (o + l0)) ++ put_i32 (as_i32 l1) ++
   put_i32 (as_i32 (o + l0 + l1)) ++ put_i32 (as_i32 l2) ++ put_i32 (as_i32 (o + l0 + l1 + l2)) ++
   put_i32 (as_i32 l3)) ++ put_i64 (content_hash m) ++ put_i64 (options_hash m).

Lemma push_target_meta_step st m : push_target_meta st m = table_step target_data target_row st m.
Proof.
  destruct st as [blob rows]. unfold push_target_meta, table_step, target_data, target_row, push_str.
  cbn [fst snd fmap list_fmap concat]. rewrite !zlen_app, app_nil_r. fold (str_len (bsp_id m)).
  fold (str_len (scala_version m)). fold (str_len (sourceroot m)). fold (str_len (semanticdb_root m)).
  by rewrite <- !app_assoc.
Qed.

Lemma zlen_target_row o m : zlen (target_row o m) = 48.
Proof. unfold target_row. autorewrite with zlen. lia. Qed.

(** *** Symbol metadata *)

Definition symbol_data (m : SymbolMeta) : bytes :=
  as_bytes (sm_display m) ++ as_bytes (sm_owner m) ++ as_bytes (sm_package_name m).

Definition symbol_meta_row (o : Z) (m : SymbolMeta) : bytes :=
  let l0 := str_len (sm_display m) in let l1 := str_len (sm_owner m) in let l2 := str_len (sm_package_name m) in
  (put_i32 (as_i32 o) ++ put_i32 (as_i32 l0) ++ put_i32 (as_i32 (o + l0)) ++ put_i32 (as_i32 l1) ++
   put_i32 (as_i32 (o + l0 + l1)) ++ put_i32 (as_i32 l2)) ++
  put_i32 (sm_kind m) ++ put_u32 (sm_properties m) ++ put_i32 (def_packed_start m) ++
  put_i32 (def_packed_end m) ++ put_i32 (def_doc_ord m) ++ put_i32 0.

Lemma push_symbol_meta_step st m : push_symbol_meta st m = table_step symbol_data symbol_meta_row st m.
Proof.
  destruct st as [blob rows]. unfold push_symbol_meta, table_step, symbol_data, symbol_meta_row, push_str.
  cbn [fst snd fmap list_fmap concat]. rewrite !zlen_app, app_nil_r. fold (str_len (sm_display m)).
  fold (str_len (sm_owner m)). fold (str_len (sm_package_name m)). by rewrite <- !app_assoc.
Qed.

Lemma zlen_symbol_meta_row o m : zlen (symbol_meta_row o m) = 48.
Proof. unfold symbol_meta_row. autorewrite with zlen. lia. Qed.

(** *** Search rows *)

Definition search_data (r : SearchRow) : bytes := as_bytes (normalized_name r).
Definition search_bytes (c2s : list Z) (o : Z) (r : SearchRow) : bytes :=
  put_i32 (as_i32 o) ++ put_i32 (as_i32 (str_len (normalized_name r))) ++
  put_i32 (default 0 (zget c2s (sr_symbol_ord r))) ++ put_i32 0.

Lemma zlen_search_bytes c2s o r : zlen (search_bytes c2s o r) = 16.
Proof. unfold search_bytes. autorewrite with zlen. lia. Qed.

Lemma push_search_row_step c2s st r :
  0 ≤ sr_symbol_ord r < zlen c2s → inS 32 (sr_symbol_ord r) →
  push_search_row c2s st r = Ok (table_step search_data (search_bytes c2s) st r).
Proof.
  intros Hr Hi. destruct st as [blob rows]. unfold push_search_row, table_step, search_data, search_bytes, push_str.
  rewrite as_usize_nonneg by (unfold inS in Hi; lia).
  destruct (zget_is_Some c2s (sr_symbol_ord r) Hr) as [v ->]. done.
Qed.

(** *** The symbol dictionary *)

Definition symbol_bytes_of (s : SegmentSymbol) : bytes := as_bytes (ss_semantic_symbol s).
Definition symbol_row (o : Z) (s : SegmentSymbol) : bytes :=
  put_i32 (as_i32 o) ++ put_i32 (as_i32 (str_len (ss_semantic_symbol s))) ++ put_i64 (ss_symbol_id s) ++
  put_i32 (ss_ref_group_ord s) ++ put_i32 (ss_rename_group_ord s) ++ put_i32 (ss_def_target_ord s) ++ put_i32 0.

Lemma zlen_symbol_row o s : zlen (symbol_row o s) = 32.
Proof. unfold symbol_row. autorewrite with zlen. lia. Qed.

Lemma push_symbols_table data sorted syms :
  Forall2 (λ c s, zget (symbols data) c = Some s) sorted syms →
  ∃ es, fold_r (push_symbol data) ([], []) sorted =
          Ok ((foldl (table_step symbol_bytes_of symbol_row) ([], []) syms).1, es) ∧
        concat (put_symbol <$> es) = (foldl (table_step symbol_bytes_of symbol_row) ([], []) syms).2 ∧
        zlen es = zlen sorted.
Proof.
  revert syms. induction sorted as [|c sorted IH] using rev_ind; intros syms Hs.
  { apply Forall2_nil_inv_l in Hs as ->. by exists []. }
  apply Forall2_app_inv_l in Hs as (syms0 & s' & Hs0 & Hs1 & ->).
  apply Forall2_cons_inv_l in Hs1 as (s & ? & Hc & ->%Forall2_nil_inv_l & ->).
  destruct (IH _ Hs0) as (es & Hes & Hrows & Hl). rewrite fold_r_app, Hes, foldl_app.
  cbn [mbind result_bind fold_r foldl]. unfold push_symbol. cbn [fst snd]. rewrite Hc.
  cbn [unwrap ok_or mbind result_bind]. eexists. split; [done|].
  rewrite fmap_app, concat_app, Hrows, !zlen_app, Hl. cbn [fmap list_fmap concat table_step fst snd].
  rewrite app_nil_r. done.
Qed.

(** The symbol order of a segment: the writer sorts the symbols by string, refuses duplicates,
    and remaps the caller's ordinals through the inverse of the permutation. *)

From Stdlib Require Import Sorting.Sorted.

Open Scope Z_scope.

(** ** Strict order of strings *)

Definition str_ltb (a b : list Z) : bool := bytes_ltb (as_bytes a) (as_bytes b).

Lemma str_leb_lt a b : wf_str a → wf_str b → str_leb a b = true → a ≠ b → str_ltb a b = true.
Proof.
  intros Ha Hb Hab Hne. unfold str_ltb, bytes_ltb. rewrite lex_ltb_leb.
  destruct (lex_leb _ _) eqn:E; [|done]. exfalso. apply Hne, as_bytes_inj; [done..|].
  apply fmap_byte_val_inj. by apply lex_leb_antisym.
Qed.

Lemma str_ltb_irrefl a : str_ltb a a = false.
Proof. unfold str_ltb, bytes_ltb. by rewrite lex_ltb_leb, lex_leb_refl. Qed.

Section order.
Context (data : SegmentData).
Context (Hwf : Forall (λ s, wf_str (ss_semantic_symbol s)) (symbols data)).

Lemma symbol_string_wf i : wf_str (symbol_string data i).
Proof.
  unfold symbol_string. destruct (zget (symbols data) i) as [s|] eqn:E; [|constructor].
  rewrite Forall_forall in Hwf. apply Hwf. by eapply zget_elem_of.
Qed.

(** No duplicate among neighbours of a sorted list: the strings strictly increase. *)
Lemma find_duplicate_None l :
  StronglySorted (λ a b, str_leb (symbol_string data a) (symbol_string data b) = true) l →
  find_duplicate data l = None →
  StronglySorted (λ a b, str_ltb (symbol_string data a) (symbol_string data b) = true) l.
Proof.
  induction 1 as [|a l Hs IH Ha]; intros Hd; [constructor|].
  destruct l as [|b l]; [by repeat constructor|]. cbn [find_duplicate] in Hd.
  destruct (str_eqb _ _) eqn:E; [done|]. specialize (IH Hd).
  assert (str_ltb (symbol_string data a) (symbol_string data b) = true) as Hab.
  { apply str_leb_lt; [apply symbol_string_wf..| |].
    - by apply Forall_cons in Ha as [? _].
    - intros Heq%str_eqb_true. congruence. }
  constructor; [done|]. constructor; [done|].
  apply StronglySorted_inv in IH as [_ Hb]. eapply Forall_impl; [exact Hb|]. cbn. intros c Hc.
  by eapply bytes_ltb_trans.
Qed.

Lemma find_duplicate_Some l s :
  find_duplicate data l = Some s → ¬ NoDup (symbol_string data <$> l).
Proof.
  induction l as [|a [|b l] IH]; [done..|]. cbn [find_duplicate].
  destruct (str_eqb _ _) eqn:E.
  - apply str_eqb_true in E. intros _ Hn. cbn [fmap list_fmap] in Hn. apply NoDup_cons in Hn as [Hn _].
    apply Hn. rewrite E. left.
  - intros Hd Hn. apply (IH Hd). cbn [fmap list_fmap] in Hn |- *. by apply NoDup_cons in Hn as [_ ?].
Qed.

Lemma strictly_sorted_NoDup l :
  StronglySorted (λ a b, str_ltb (symbol_string data a) (symbol_string data b) = true) l →
  NoDup (symbol_string data <$> l).
Proof.
  induction 1 as [|a l Hs IH Ha]; [constructor|]. cbn [fmap list_fmap]. constructor; [|done].
  intros (b & Hb & Hin)%list_elem_of_fmap. rewrite Forall_forall in Ha. specialize (Ha b Hin).
  rewrite Hb, str_ltb_irrefl in Ha. done.
Qed.

Lemma symbol_strings : symbol_string data <$> seqZ 0 (zlen (symbols data)) = ss_semantic_symbol <$> symbols data.
Proof.
  apply list_eq. intros i. rewrite !list_lookup_fmap. pose proof (zget_of_nat (symbols data) i) as Hz.
  destruct (symbols data !! i) as [s|] eqn:E; cbn.
  - pose proof (lookup_lt_Some _ _ _ E).
    rewrite (proj2 (lookup_seqZ 0 (zlen (symbols data)) i (Z.of_nat i))) by (unfold zlen; lia). cbn.
    unfold symbol_string. by rewrite Hz.
  - apply lookup_ge_None in E. rewrite lookup_seqZ_ge; [done|]. unfold zlen. lia.
Qed.

(** The order: a permutation of the ordinals along which the strings strictly increase. *)
Record sorted_order (sorted : list Z) : Prop := {
  so_perm : sorted ≡ₚ seqZ 0 (zlen (symbols data));
  so_strict : StronglySorted (λ a b, str_ltb (symbol_string data a) (symbol_string data b) = true) sorted
}.

(** Sorting succeeds exactly on distinct strings, and fails with the duplicate otherwise. *)
Lemma sort_symbol_indices_exact `{DebugStr} :
  (NoDup (ss_semantic_symbol <$> symbols data) →
     ∃ sorted, sort_symbol_indices data = Ok sorted ∧ sorted_order sorted) ∧
  (¬ NoDup (ss_semantic_symbol <$> symbols data) →
     ∃ s, sort_symbol_indices data = Err (Fails (InvalidInput (lit "duplicate symbol string " ++ debug_str s)))).
Proof.
  unfold sort_symbol_indices. set (leb := λ a b, str_leb (symbol_string data a) (symbol_string data b)).
  pose proof (sort_by_perm leb (seqZ 0 (zlen (symbols data)))) as Hp.
  assert (StronglySorted (λ a b, leb a b = true) (sort_by leb (seqZ 0 (zlen (symbols data))))) as Hs.
  { apply sort_by_sorted; unfold leb; [intros; apply str_leb_total|intros ???; apply str_leb_trans]. }
  set (sorted := sort_by _ _) in *.
  assert (symbol_string data <$> sorted ≡ₚ ss_semantic_symbol <$> symbols data) as Hq.
  { by rewrite Hp, symbol_strings. }
  destruct (find_duplicate data sorted) as [s|] eqn:E.
  - apply find_duplicate_Some in E. rewrite Hq in E. split; [done|]. intros _. by exists s.
  - pose proof (find_duplicate_None _ Hs E) as Hstrict. split.
    + intros _. by exists sorted.
    + intros Hn. destruct Hn. rewrite <- Hq. by apply strictly_sorted_NoDup.
Qed.

Lemma zlen_sorted sorted : sorted_order sorted → zlen sorted = zlen (symbols data).
Proof.
  intros [Hp _]. unfold zlen in *. rewrite Hp, length_seqZ. lia.
Qed.

(** The symbols in order. *)
Lemma sorted_symbols sorted :
  sorted_order sorted → ∃ syms, Forall2 (λ c s, zget (symbols data) c = Some s) sorted syms ∧
    syms ≡ₚ symbols data ∧
    StronglySorted (λ a b, str_ltb (ss_semantic_symbol a) (ss_semantic_symbol b) = true) syms.
Proof.
  intros [Hp Hs]. set (get c := default (mkSegmentSymbol [] 0 0 0 0) (zget (symbols data) c)).
  assert (Forall (λ c, zget (symbols data) c = Some (get c)) sorted) as Hget.
  { rewrite Hp. apply Forall_forall. intros c Hc%elem_of_seqZ_0. unfold get.
    by destruct (zget_is_Some (symbols data) c Hc) as [s ->]. }
  exists (get <$> sorted). split_and!.
  - apply Forall2_fmap_r. apply Forall_Forall2_diag. exact Hget.
  - rewrite Hp. assert (get <$> seqZ 0 (zlen (symbols data)) = symbols data) as ->; [|done].
    apply list_eq. intros i. rewrite list_lookup_fmap.
    pose proof (zget_of_nat (symbols data) i) as Hz. destruct (symbols data !! i) as [s|] eqn:E.
    + pose proof (lookup_lt_Some _ _ _ E).
      rewrite (proj2 (lookup_seqZ 0 (zlen (symbols data)) i (Z.of_nat i))) by (unfold zlen; lia). cbn.
      unfold get. by rewrite Hz.
    + apply lookup_ge_None in E. rewrite lookup_seqZ_ge; [done|]. unfold zlen. lia.
  - clear Hp. induction Hs as [|a l Hs IH Ha]; [constructor|].
    apply Forall_cons in Hget as [Hg Hget]. cbn [fmap list_fmap]. constructor; [by apply IH|].
    apply Forall_fmap. rewrite Forall_forall in Ha, Hget |- *. intros b Hb. cbn.
    specialize (Ha b Hb). unfold symbol_string in Ha. by rewrite Hg, (Hget b Hb) in Ha.
Qed.
End order.

(** ** The inverse permutation *)

Lemma invert_order_step n sorted :
  NoDup sorted → (∀ c, c ∈ sorted → 0 ≤ c < n) → zlen sorted < 2 ^ 31 →
  ∃ m, invert_order n sorted = Ok m ∧ zlen m = Z.max 0 n ∧
    ∀ p c, zget sorted p = Some c → zget m c = Some p.
Proof.
  intros Hnd Hin Hlen. unfold invert_order.
  destruct (fold_r_total (λ pre m, zlen m = Z.max 0 n ∧ ∀ p c, zget (pre.*2) p = Some c → zget m c = Some p)
    (λ m (p : nat * Z), @unwrap (list Z) (zset m p.2 (as_i32 (Z.of_nat p.1)))) (replicate (Z.to_nat n) 0) (imap pair sorted))
    as (m & Hm & Hl & Hget).
  - split.
    + unfold zlen. rewrite length_replicate. lia.
    + intros p c Hp%zget_Some_lt. change (zlen [].*2) with 0 in Hp. lia.
  - intros pre [i c] rest m Hsplit [Hl Hget]. apply imap_pair_split in Hsplit as [-> Hs].
    assert (c ∈ sorted) as Hc by (rewrite Hs; set_solver).
    cbn [fst snd]. destruct (zset_is_Some m c (as_i32 (Z.of_nat (length pre)))) as [m' Hm']; [specialize (Hin c Hc); lia|].
    rewrite Hm'. cbn [unwrap ok_or]. exists m'. split; [done|]. split; [by rewrite (zset_zlen _ _ _ _ Hm')|].
    intros p c' Hp. rewrite fmap_app in Hp. cbn [fmap list_fmap snd] in Hp.
    rewrite (zset_zget _ _ _ _ _ Hm'). apply zget_snoc_inv in Hp as [[Hlt Hp]|[-> ->]].
    + rewrite decide_False; [by apply Hget|]. intros <-. rewrite Hs in Hnd.
      apply NoDup_app in Hnd as (_ & Hd & _). apply (Hd c); [by eapply zget_elem_of|left].
    + rewrite decide_True by done. f_equal. rewrite zlen_fmap. apply wrapS_id; [done|].
      assert (zlen pre < 2 ^ 31).
      { pose proof (zlen_nonneg (rest.*2)). rewrite Hs, zlen_app, zlen_cons, zlen_fmap in Hlen. lia. }
      unfold inS. pose proof (zlen_nonneg pre). unfold zlen in *. lia.
  - exists m. split_and!; [done..|]. intros p c Hp. apply Hget.
    assert ((imap pair sorted).*2 = sorted) as ->; [|done].
    rewrite fmap_imap. apply (list_eq _ _). intros j. rewrite list_lookup_imap. by destruct (sorted !! j).
Qed.

(** The remapping sends every ordinal to its position in the order. *)
Record inverse_of (n : Z) (sorted c2s : list Z) : Prop := {
  iv_len : zlen c2s = n;
  iv_get p c : zget sorted p = Some c → zget c2s c = Some p;
  iv_back c p : zget c2s c = Some p → zget sorted p = Some c
}.

Lemma invert_order_exact n sorted :
  sorted ≡ₚ seqZ 0 n → 0 ≤ n < 2 ^ 31 → ∃ c2s, invert_order n sorted = Ok c2s ∧ inverse_of n sorted c2s.
Proof.
  intros Hp Hn. assert (zlen sorted = n) as Hl by (unfold zlen; rewrite Hp, length_seqZ; lia).
  destruct (invert_order_step n sorted) as (m & Hm & Hml & Hget).
  - rewrite Hp. apply NoDup_seqZ.
  - intros c. rewrite Hp, elem_of_seqZ_0. done.
  - lia.
  - exists m. split; [done|]. split; [lia|done|]. intros c p Hc.
    pose proof (zget_Some_lt _ _ _ Hc) as Hlt.
    assert (c ∈ sorted) as Hin by (rewrite Hp, elem_of_seqZ_0; lia).
    apply elem_of_zget in Hin as [q Hq]. pose proof (Hget q c Hq) as E. congruence.
Qed.
