(* ===== verification/SegPostings.v ===== *)
(** The reader accepts the group postings the writer lays out: the columns read back as the
    stored records, every block entry matches the aggregates recomputed from its records,
    and the groups tile the postings and the block index. *)

From S2P Require Import Prelude RustStr IndexModel Bitset StoreFormat SegReader SegSafe SegWriter SegLayout.

From Stdlib Require Import Sorting.Sorted.

Open Scope Z_scope.

(** ** Checks that pass *)

Lemma bind_step {E A B : Type} (m : result E A) (f : A → result E B) a r :
  m = Ok a → f a = r → (m ≫= f) = r.
Proof. intros -> <-. done. Qed.
Lemma expect_pass b d : b = true → expect b d = Ok tt.
Proof. by intros ->. Qed.
Lemma req_i32_pass b o n v : read_i32 b o = Some v → req_i32 b o n = Ok v.
Proof. unfold req_i32. by intros ->. Qed.
Lemma req_u32_pass b o n v : read_u32 b o = Some v → req_u32 b o n = Ok v.
Proof. unfold req_u32. by intros ->. Qed.
Lemma req_i64_pass b o n v : read_i64 b o = Some v → req_i64 b o n = Ok v.
Proof. unfold req_i64. by intros ->. Qed.
Lemma req_u64_pass b o n v : read_u64 b o = Some v → req_u64 b o n = Ok v.
Proof. unfold req_u64. by intros ->. Qed.
Lemma unwrap_pass {A : Type} (o : option A) a : o = Some a → unwrap o = Ok a.
Proof. by intros ->. Qed.
Lemma check_ord_pass v n d : 0 ≤ v < n → check_ord v n d = Ok tt.
Proof. unfold check_ord. intros H. destruct (_ && _) eqn:E; [done|]. zify_bools; lia. Qed.
Lemma check_ord_opt_pass v n d : v = -1 ∨ 0 ≤ v < n → check_ord_opt v n d = Ok tt.
Proof. unfold check_ord_opt. intros H. destruct (_ || _) eqn:E; [done|]. zify_bools; lia. Qed.
Lemma bounded_pass v m d : 0 ≤ v ≤ m → m < 2 ^ 63 → bounded v m d = Ok v.
Proof.
  intros Hv Hm. unfold bounded, as_u64, as_usize. rewrite (wrapU_id 64 v) by (unfold inU; lia).
  destruct (_ || _) eqn:E; [zify_bools; lia|done].
Qed.
Lemma str_slice_pass f o l b n d bs :
  0 ≤ o → 0 ≤ l → o + l ≤ n → slice f (b + o) l = Some bs → str_slice f o l b n d = Ok bs.
Proof.
  intros Ho Hl Hn Hs. unfold str_slice. destruct (_ || _) eqn:E; [zify_bools; lia|].
  destruct (Z.ltb_spec n (o + l)); [lia|]. by rewrite Hs.
Qed.
Lemma count_at_pass b o name d v :
  read_i64 b o = Some v → 0 ≤ v ≤ zlen b → zlen b < 2 ^ 63 → count_at b o name d = Ok v.
Proof. intros Hr Hv Hb. unfold count_at. rewrite (req_i64_pass _ _ _ _ Hr). by apply bounded_pass. Qed.

Lemma u64_of v : 0 ≤ v < 2 ^ 64 → as_u64 v = v.
Proof. intros. by apply wrapU_id. Qed.
Lemma i32_of v : 0 ≤ v < 2 ^ 31 → as_i32 v = v.
Proof. intros. apply wrapS_id; [done|]. unfold inS. lia. Qed.
Lemma i64_of v : 0 ≤ v < 2 ^ 63 → as_i64 v = v.
Proof. intros. apply wrapS_id; [done|]. unfold inS. lia. Qed.

(** Passes the next check of a sequence; the facts it needs are in the context. *)
Ltac pass :=
  eapply bind_step;
  [first [ apply req_i32_pass; eassumption | apply req_i64_pass; eassumption
         | apply req_u32_pass; eassumption | apply req_u64_pass; eassumption
         | apply unwrap_pass; eassumption
         | apply check_ord_pass; first [eassumption | lia]
         | apply check_ord_opt_pass; first [eassumption | lia]
         | apply expect_pass; first [reflexivity | apply Z.eqb_eq; lia | apply Z.leb_le; lia | apply Z.ltb_lt; lia
                                    | apply andb_true_intro; split; first [apply Z.leb_le; lia | apply Z.eqb_eq; lia]]]
  | cbv beta].

(** A loop that compares each element with the previous one, over a sorted list. *)
Lemma chain_total {E K : Type} (R : K → K → Prop) (step : option K → Z → result E (option K)) ks lo :
  StronglySorted R ks →
  (∀ prev i k, zget ks i = Some k → (∀ p, prev = Some p → R p k) → step prev (lo + i) = Ok (Some k)) →
  ∃ st, fold_r step None (seqZ lo (zlen ks)) = Ok st.
Proof.
  intros Hs Hstep. exists (zget ks (zlen ks - 1)).
  apply (fold_r_seqZ_from step (λ i, zget ks (i - 1)) lo); [apply zlen_nonneg|].
  intros i Hi. destruct (zget_is_Some ks i Hi) as [k Hk].
  replace (i + 1 - 1) with i by lia. rewrite Hk. apply Hstep; [done|].
  intros p Hp. pose proof (zget_Some_lt _ _ _ Hp). rewrite <- (Z2Nat.id (i - 1)) in Hp by lia.
  rewrite <- (Z2Nat.id i) in Hk by lia. rewrite zget_of_nat in Hp, Hk.
  eapply StronglySorted_lookup; [done| |done|done]. lia.
Qed.

Lemma key_loop read_key d ks lo :
  StronglySorted (λ a b, lex_leb a b = true) ks → (∀ i k, zget ks i = Some k → read_key (lo + i) = Ok k) →
  ∃ st, fold_r (key_step read_key d) None (seqZ lo (zlen ks)) = Ok st.
Proof.
  intros Hs Hr. eapply chain_total; [exact Hs|]. intros prev i k Hk Hp. unfold key_step.
  rewrite (Hr _ _ Hk). cbn [mbind result_bind]. destruct prev as [p|]; [|done].
  by rewrite (expect_pass _ _ (Hp p eq_refl)).
Qed.

(** ** Columns *)

(** A count and columns of that many integers. *)
Lemma columns_read n cols :
  0 ≤ n < 2 ^ 31 → Forall (λ c, zlen c = n ∧ Forall (inS 32) c) cols → zlen cols ≤ 6 →
  cols_ok (put_i64 n ++ concat (put_col <$> cols)) (zlen cols) n ∧
  ∀ c col r v, zget cols c = Some col → zget col r = Some v →
    read_i32 (put_i64 n ++ concat (put_col <$> cols)) (8 + c * 4 * n + 4 * r) = Some v.
Proof.
  intros Hn Hcols Hlen. set (f := put_i64 n ++ concat (put_col <$> cols)).
  assert (∀ col, col ∈ cols → zlen (put_col col) = 4 * n) as Hrow.
  { intros col Hin. rewrite Forall_forall in Hcols. destruct (Hcols col Hin) as [Hl _].
    unfold put_col. rewrite (zlen_rows put_i32 4); [lia|]. intros. apply zlen_put_i32. }
  pose proof (holds_at_self f) as Hf. apply holds_at_app in Hf as [H0 Hcol].
  rewrite zlen_put_i64 in Hcol. split.
  - split; [eapply read_i64_at; [exact H0|done|]; unfold inS; lia|]. split; [lia|].
    assert (zlen f = 8 + zlen cols * 4 * n) as Hl.
    { unfold f. rewrite zlen_app, zlen_put_i64, (zlen_rows put_col (4 * n)) by done. lia. }
    rewrite Hl. split; [done|]. nia.
  - intros c col r v Hc Hr. eapply (holds_at_row put_col (4 * n)) in Hcol; [|done|exact Hc].
    eapply holds_at_col in Hcol; [|rewrite Forall_forall in Hcols; eapply Hcols, zget_elem_of, Hc|exact Hr].
    rewrite <- Hcol. f_equal. lia.
Qed.

(** ** Group records *)

(** What validation requires of an occurrence, with the columns it fits. *)
Definition occ_valid (n_docs n_targets words : Z) (o : GroupOcc) : Prop :=
  occ_fits words o ∧ 0 ≤ go_doc_ord o < n_docs ∧ 0 ≤ go_target_ord o < n_targets ∧
  inU 32 (pack_start (go_span o)) ∧ inU 32 (pack_end (go_span o)) ∧
  pack_start (go_span o) ≤ pack_end (go_span o).

Lemma as_u32_i32 v : inU 32 v → as_u32 (as_i32 v) = v.
Proof. intros Hv. unfold as_u32, as_i32. rewrite wrapU_wrapS by done. by apply wrapU_id. Qed.

Lemma as_i32_in v : inS 32 (as_i32 v).
Proof. by apply wrapS_range. Qed.

(** The serialized columns read back as the records. *)
Lemma postings_read words blocks0 groups layout blocks :
  layout_ok words blocks0 groups layout blocks → Forall (Forall (occ_fits words)) groups →
  prefix_sum zlen groups (zlen groups) < 2 ^ 31 →
  cols_ok (serialize_group_postings layout) 6 (prefix_sum zlen groups (zlen groups)) ∧
  reads_all (serialize_group_postings layout) (prefix_sum zlen groups (zlen groups)) 0
    (record_of <$> concat (sort_group <$> groups)).
Proof.
  intros Hok Ho Hn. pose proof (layout_ok_columns _ _ _ _ _ Hok) as Hcols. destruct Hok as [Heq _ _ _].
  pose proof (prefix_sum_nonneg zlen zlen_nonneg groups (zlen groups) (zlen_nonneg _)).
  set (n := prefix_sum zlen groups (zlen groups)) in *. set (occs := concat (sort_group <$> groups)) in *.
  assert (Forall (occ_fits words) occs) as Hoc.
  { unfold occs. apply Forall_concat, Forall_fmap. eapply Forall_impl; [exact Ho|]. intros g Hg. cbn.
    unfold sort_group. by rewrite sort_by_perm. }
  assert (zlen occs = n) as Hl. { rewrite <- Heq in Hcols. cbn in Hcols. by rewrite zlen_fmap in Hcols. }
  unfold serialize_group_postings. rewrite Hcols. rewrite (i64_of n) by lia.
  rewrite <- Heq. cbn [push_entries push_all gl_doc_ord gl_doc_epoch gl_target_ord gl_packed_start gl_packed_end
    gl_flags GroupLayout_default app].
  set (cols := [_; _; _; _; _; _]).
  assert (Forall (λ c, zlen c = n ∧ Forall (inS 32) c) cols) as Hc.
  { unfold cols. repeat constructor; try (by rewrite zlen_fmap); apply Forall_fmap;
      eapply Forall_impl; try exact Hoc; intros o (?&?&?&?&?); cbn; try done; apply as_i32_in. }
  destruct (columns_read n cols) as [Hco Hread]; [lia|done|done|]. change (zlen cols) with 6 in Hco.
  split; [done|]. intros k rec Hk. rewrite Z.add_0_l. rewrite zget_fmap in Hk.
  destruct (zget occs k) as [o|] eqn:E; [|done]. injection Hk as <-.
  pose proof (zget_Some_lt _ _ _ E) as Hk. rewrite Hl in Hk.
  assert (∀ c col (f : GroupOcc → Z), zget cols c = Some col → col = f <$> occs → 0 ≤ c < 6 →
    read_i32 (put_i64 n ++ concat (put_col <$> cols)) (8 + c * 4 * n + 4 * k) = Some (f o) ∧
    read_i32 (put_i64 n ++ concat (put_col <$> cols)) (as_usize (8 + c * 4 * n + 4 * k)) = Some (f o)) as Hcol.
  { intros c col f Hcol -> Hc6. assert (zget (f <$> occs) k = Some (f o)) as Hf by (by rewrite zget_fmap, E).
    destruct (col_offset _ _ _ c k Hco Hc6 Hk) as (-> & _ & _). by split; apply (Hread c (f <$> occs)). }
  destruct (Hcol 0 _ go_doc_ord eq_refl eq_refl ltac:(lia)) as [R0 U0].
  destruct (Hcol 1 _ go_doc_epoch eq_refl eq_refl ltac:(lia)) as [R1 U1].
  destruct (Hcol 2 _ go_target_ord eq_refl eq_refl ltac:(lia)) as [R2 U2].
  destruct (Hcol 3 _ _ eq_refl eq_refl ltac:(lia)) as [R3 U3].
  destruct (Hcol 4 _ _ eq_refl eq_refl ltac:(lia)) as [R4 U4].
  destruct (Hcol 5 _ go_flags eq_refl eq_refl ltac:(lia)) as [R5 U5].
  set (f := put_i64 n ++ concat (put_col <$> cols)) in *. destruct Hco as [Hco0 _].
  split; cbn [record_of gr_doc_ord gr_doc_epoch gr_target_ord gr_packed_start gr_packed_end gr_flags].
  - unfold group_record. rewrite Hco0. cbn [mbind option_bind]. by rewrite U0, U1, U2, U3, U4, U5.
  - rewrite <- R0. f_equal; lia.
  - rewrite <- R1. f_equal; lia.
  - rewrite <- R2. f_equal; lia.
  - rewrite <- R3. f_equal; lia.
  - rewrite <- R4. f_equal; lia.
  - rewrite <- R5. f_equal; lia.
Qed.

Lemma record_of_ok s words o : occ_valid (doc_count s) (target_count s) words o → record_ok s (record_of o).
Proof.
  intros (_ & Hd & Ht & Hs & He & Hle). unfold record_ok. cbn. by rewrite !as_u32_i32.
Qed.

(** Reading the end points of a record, unsigned. *)
Lemma reads_as_keys f n r o :
  reads_as f n r (record_of o) → inU 32 (pack_start (go_span o)) → inU 32 (pack_end (go_span o)) →
  read_u32 f (8 + 3 * 4 * n + 4 * r) = Some (pack_start (go_span o)) ∧
  read_u32 f (8 + 4 * 4 * n + 4 * r) = Some (pack_end (go_span o)).
Proof.
  intros [_ _ _ _ Hs He _] Hps Hpe. cbn in Hs, He.
  replace (3 * 4 * n) with (12 * n) by lia. replace (4 * 4 * n) with (16 * n) by lia.
  rewrite !read_u32_of_i32, Hs, He. cbn. by rewrite !as_u32_i32.
Qed.

Section postings.
Context (s : SegmentReader) (idx : nat) (n words : Z) (occs : list GroupOcc).
Context (Hcols : cols_ok (file s idx) 6 n) (Hlen : zlen occs = n).
Context (Hreads : reads_all (file s idx) n 0 (record_of <$> occs)).
Context (Hocc : Forall (occ_valid (doc_count s) (target_count s) words) occs).

Lemma occ_at i o : zget occs i = Some o → reads_as (file s idx) n i (record_of o).
Proof. intros Hi. apply (Hreads i). by rewrite zget_fmap, Hi. Qed.
Lemma occ_valid_at i o : zget occs i = Some o → occ_valid (doc_count s) (target_count s) words o.
Proof. intros Hi%zget_elem_of. rewrite Forall_forall in Hocc. by apply Hocc. Qed.

Lemma group_records_pass : validate_group_records s idx n = Ok tt.
Proof.
  apply for_each_seqZ_total. intros r Hr. destruct (zget_is_Some occs r) as [o Ho]; [lia|].
  pose proof (occ_at _ _ Ho) as Hra. destruct (occ_valid_at _ _ Ho) as (_ & Hd & Ht & Hs & He & Hle).
  destruct (reads_as_keys _ _ _ _ Hra Hs He) as [Hps Hpe].
  destruct Hra as [_ Hdoc _ Htgt _ _ _]. cbn in Hdoc, Htgt. replace (8 * n) with (2 * 4 * n) in Htgt by lia.
  do 6 pass. apply expect_pass. by apply Z.leb_le.
Qed.

Lemma postings_records : records_ok s idx n.
Proof.
  intros r Hr. destruct (zget_is_Some occs r) as [o Ho]; [lia|].
  exists (record_of o). split; [by apply occ_at|]. eapply record_of_ok, occ_valid_at, Ho.
Qed.

Lemma group_key_at i o : zget occs i = Some o → group_key s idx n i = Ok (occ_key o).
Proof.
  intros Ho. pose proof (occ_at _ _ Ho) as Hra. destruct (occ_valid_at _ _ Ho) as (_ & _ & _ & Hs & He & _).
  destruct (reads_as_keys _ _ _ _ Hra Hs He) as [Hps Hpe]. destruct Hra as [_ Hdoc _ _ _ _ _]. cbn in Hdoc.
  unfold group_key. do 3 pass. done.
Qed.
End postings.

(** ** Blocks *)

Lemma zlen_put_block words b : zlen (ag_words (be_agg b)) = words → zlen (put_block b) = 40 + 8 * words.
Proof.
  intros Hw. unfold put_block. autorewrite with zlen. rewrite (zlen_rows put_u64 8); [lia|].
  intros. apply zlen_put_u64.
Qed.

Lemma agg_counts_bound {A : Type} (P : A → bool) (l : list A) : 0 ≤ zlen (List.filter P l) ≤ zlen l.
Proof. unfold zlen. pose proof (filter_length_le P l). lia. Qed.

Lemma validate_block_pass s idx n words b blk first recs :
  rd_words s = words → cols_ok (file s idx) 6 n → 0 ≤ first → first + zlen recs ≤ n → n < 2 ^ 31 →
  reads_all (file s idx) n first recs →
  block_desc words b first recs → holds_at (file s BLOCK_INDEX) (block_base s blk) (put_block b) →
  validate_block s blk first (zlen recs) idx = Ok tt.
Proof.
  intros Hw Hcols Hfirst Hn Hn31 Hreads [Hbf Hbc Hagg Hof (R1 & R2 & R3 & R4)] Hb.
  pose proof (zlen_nonneg recs). destruct Hof as [Ae Ad Ar Al Aw _].
  pose proof (agg_counts_bound rec_editable recs). pose proof (agg_counts_bound rec_definition recs).
  pose proof (agg_counts_bound (λ r, negb (rec_definition r)) recs).
  unfold put_block in Hb. rewrite Hbf, Hbc in Hb. at_split Hb. rewrite !zlen_put_i64, !zlen_put_i32 in *.
  set (bi := file s BLOCK_INDEX) in *. set (base := block_base s blk) in *.
  assert (read_i64 bi base = Some first) by (at_read; unfold inS; lia).
  assert (read_i32 bi (base + 8) = Some (zlen recs)) by (at_read; unfold inS; lia).
  assert (read_i32 bi (base + 12) = Some (ag_editable (be_agg b))) by (at_read; unfold inS; lia).
  assert (read_i32 bi (base + 16) = Some (ag_ref_role (be_agg b))) by (at_read; unfold inS; lia).
  assert (read_i32 bi (base + 20) = Some (ag_def_role (be_agg b))) by (at_read; unfold inS; lia).
  assert (read_i32 bi (base + 24) = Some (ag_dmin (be_agg b))) by (at_read; done).
  assert (read_i32 bi (base + 28) = Some (ag_dmax (be_agg b))) by (at_read; done).
  assert (read_i32 bi (base + 32) = Some (ag_emin (be_agg b))) by (at_read; done).
  assert (read_i32 bi (base + 36) = Some (ag_emax (be_agg b))) by (at_read; done).
  assert (read_i64 (file s idx) 0 = Some n) by apply Hcols.
  assert (fold_r (block_agg_step (file s idx) n first) (agg_init (rd_words s)) (seqZ 0 (zlen recs)) = Ok (be_agg b)) as Hfold.
  { by rewrite fold_agg_eq, Hw by done. }
  unfold validate_block. fold bi base. pass.
  eapply bind_step; [apply expect_pass; rewrite u64_of by lia; apply Z.eqb_refl|cbv beta].
  do 3 pass. eapply bind_step; [exact Hfold|cbv beta].
  do 7 (eapply bind_step; [pass; apply expect_pass, Z.eqb_refl|cbv beta]).
  apply for_each_seqZ_total. intros w Hwd.
  match goal with H : holds_at _ _ (concat _) |- _ => rename H into Hws end.
  destruct (zget_is_Some (ag_words (be_agg b)) w) as [v Hv]; [lia|].
  eapply (holds_at_row put_u64 8) in Hws; [|intros; apply zlen_put_u64|exact Hv].
  assert (read_u64 bi (base + 40 + 8 * w) = Some v).
  { eapply read_u64_at; [exact Hws|lia|]. rewrite Forall_forall in Aw. eapply Aw, zget_elem_of, Hv. }
  do 2 pass. apply expect_pass, Z.eqb_refl.
Qed.

(** ** Groups *)

Lemma prefix_sum_sort_group groups i : prefix_sum zlen (sort_group <$> groups) i = prefix_sum zlen groups i.
Proof.
  unfold prefix_sum. rewrite <- fmap_take, <- list_fmap_compose. f_equal. apply list_fmap_ext.
  intros j g _. cbn. apply zlen_sort_by.
Qed.

Lemma sort_group_keys group : StronglySorted (λ a b, lex_leb a b = true) (occ_key <$> sort_group group).
Proof.
  apply (StronglySorted_fmap (λ a b, lex_leb a b = true)), sort_by_sorted;
    [intros; apply lex_leb_total|intros ???; apply lex_leb_trans].
Qed.

Section role.
Context (s : SegmentReader) (gi idx : nat) (words : Z) (profiles : option (list SegRenameProfile)).
Context (blocks0 : list BlockEntry) (groups : list (list GroupOcc)) (layout : GroupLayout) (blocks : list BlockEntry).
Context (bc : Z).
Let n := prefix_sum zlen groups (zlen groups).
Context (Hok : layout_ok words blocks0 groups layout blocks).
Context (Hwords : rd_words s = words).
Context (Hgi : file s gi = serialize_group_index (gl_entries layout) profiles).
Context (Hidx : file s idx = serialize_group_postings layout).
Context (Hblocks : ∀ i b, zget blocks i = Some b → holds_at (file s BLOCK_INDEX) (block_base s i) (put_block b)).
Context (Hocc : Forall (Forall (occ_valid (doc_count s) (target_count s) words)) groups).
Context (Hn : n < 2 ^ 31) (Hbc : zlen blocks ≤ bc < 2 ^ 31) (Hgroups : zlen groups < 2 ^ 31).

Lemma role_fits : Forall (Forall (occ_fits words)) groups.
Proof. eapply Forall_impl; [exact Hocc|]. intros g Hg. eapply Forall_impl; [exact Hg|]. by intros o [? _]. Qed.

Lemma role_reads :
  cols_ok (file s idx) 6 n ∧ reads_all (file s idx) n 0 (record_of <$> concat (sort_group <$> groups)).
Proof. rewrite Hidx. eapply postings_read; [exact Hok|apply role_fits|done]. Qed.

Lemma role_occs : Forall (occ_valid (doc_count s) (target_count s) words) (concat (sort_group <$> groups)).
Proof.
  apply Forall_concat, Forall_fmap. eapply Forall_impl; [exact Hocc|]. intros g Hg. cbn.
  unfold sort_group. by rewrite sort_by_perm.
Qed.

Lemma zlen_role_occs : zlen (concat (sort_group <$> groups)) = n.
Proof. by rewrite zlen_concat, zlen_fmap, prefix_sum_sort_group. Qed.

Lemma role_records_pass : validate_group_records s idx n = Ok tt.
Proof.
  destruct role_reads. eapply group_records_pass; [apply zlen_role_occs|done|apply role_occs].
Qed.

(** The entry of a group, read back. *)
Lemma role_entry g grp :
  zget groups g = Some grp →
  ∃ e, e = mkGroupIndexView (prefix_sum zlen groups g) (zlen grp)
           (if zlen grp =? 0 then -1 else zlen blocks0 + prefix_sum nblocks groups g) ∧
    group_index_view (file s gi) g = Some e ∧
    read_i64 (file s gi) (8 + g * 16) = Some (gv_offset e) ∧
    read_i32 (file s gi) (8 + g * 16 + 8) = Some (gv_count e) ∧
    read_i32 (file s gi) (8 + g * 16 + 12) = Some (gv_block_index_offset e) ∧
    prefix_sum zlen groups g + zlen grp ≤ n ∧ zlen blocks0 + prefix_sum nblocks groups g + nblocks grp ≤ zlen blocks.
Proof.
  intros Hg. pose proof (lo_entry _ _ _ _ _ Hok g grp Hg) as He. pose proof (zget_Some_lt _ _ _ Hg) as Hlt.
  pose proof (prefix_sum_next zlen zlen_nonneg groups g grp Hg) as H1.
  pose proof (prefix_sum_next nblocks nblocks_nonneg groups g grp Hg) as H2.
  pose proof (layout_blocks_count _ _ _ _ _ Hok) as Hbcount. pose proof (nblocks_nonneg grp).
  pose proof (zlen_nonneg grp). pose proof (zlen_nonneg blocks0).
  pose proof (prefix_sum_nonneg zlen zlen_nonneg groups g ltac:(lia)).
  pose proof (prefix_sum_nonneg nblocks nblocks_nonneg groups g ltac:(lia)).
  eexists. split; [done|]. cbn [gv_offset gv_count gv_block_index_offset].
  set (o := prefix_sum zlen groups g) in *. set (c := zlen grp) in *.
  set (bo := if c =? 0 then -1 else zlen blocks0 + prefix_sum nblocks groups g) in *.
  assert (holds_at (file s gi) (8 + g * 16) (put_entry (mkGroupIndexEntry o c bo))) as Hat.
  { rewrite Hgi. unfold serialize_group_index. pose proof (holds_at_self (put_i64 (as_i64 (zlen (gl_entries layout))) ++
      concat (put_entry <$> gl_entries layout) ++
      match profiles with Some ps => concat (put_profile <$> ps) | None => [] end)) as Hf.
    apply holds_at_app in Hf as [_ Hf]. apply holds_at_app in Hf as [Hf _]. rewrite zlen_put_i64 in Hf.
    eapply (holds_at_row put_entry 16) in Hf; [|intros; unfold put_entry; by autorewrite with zlen|exact He].
    exact Hf. }
  unfold put_entry in Hat. cbn [ge_offset ge_count ge_block_index_offset] in Hat. at_split Hat.
  rewrite !zlen_put_i64, !zlen_put_i32 in *.
  assert (read_i64 (file s gi) (8 + g * 16) = Some o) as R1 by (at_read; unfold inS; lia).
  assert (read_i32 (file s gi) (8 + g * 16 + 8) = Some c) as R2 by (at_read; unfold inS; lia).
  assert (read_i32 (file s gi) (8 + g * 16 + 12) = Some bo) as R3.
  { at_read. unfold bo, inS. destruct (c =? 0); lia. }
  split_and!; try done; [|lia]. unfold group_index_view. change GROUP_INDEX_ENTRY_SIZE with 16.
  by rewrite R1, R2, R3.
Qed.

(** The occurrence at a position of a group. *)
Lemma group_occ_at g grp i o :
  zget groups g = Some grp → zget (sort_group grp) i = Some o →
  zget (concat (sort_group <$> groups)) (prefix_sum zlen groups g + i) = Some o.
Proof.
  intros Hg Hi. rewrite <- prefix_sum_sort_group. eapply zget_concat; [|exact Hi]. by rewrite zget_fmap, Hg.
Qed.

Lemma group_reads g grp lo sub :
  zget groups g = Some grp → (∀ i o, zget sub i = Some o → zget (sort_group grp) (lo + i) = Some o) →
  reads_all (file s idx) n (prefix_sum zlen groups g + lo) (record_of <$> sub).
Proof.
  intros Hg Hsub i rec Hi. rewrite zget_fmap in Hi. destruct (zget sub i) as [o|] eqn:E; [|done].
  injection Hi as <-. destruct role_reads as [_ Hr].
  pose proof (group_occ_at _ _ _ _ Hg (Hsub _ _ E)) as Ho.
  replace (prefix_sum zlen groups g + lo + i) with (prefix_sum zlen groups g + (lo + i)) by lia.
  eapply occ_at; [exact Hr|exact Ho].
Qed.

Lemma group_blocks_pass g grp k :
  zget groups g = Some grp → 0 ≤ k < nblocks grp →
  validate_block s (zlen blocks0 + prefix_sum nblocks groups g + k) (prefix_sum zlen groups g + k * 256)
    (Z.min (zlen grp - k * 256) 256) idx = Ok tt.
Proof.
  intros Hg Hk. destruct (lo_blocks _ _ _ _ _ Hok) as (new & Hb & _ & Hnew).
  destruct (Hnew g grp k Hg Hk) as (b & Hget & Hdesc). pose proof (zget_Some_lt _ _ _ Hget) as Hlt.
  pose proof (zget_Some_lt _ _ _ Hg) as Hglt.
  pose proof (prefix_sum_next zlen zlen_nonneg groups g grp Hg) as H1.
  pose proof (prefix_sum_nonneg zlen zlen_nonneg groups g ltac:(lia)).
  assert (zlen (sort_group grp) = zlen grp) as Hsl by apply zlen_sort_by.
  assert (zlen (record_of <$> chunk (sort_group grp) k) = Z.min (zlen grp - k * 256) 256) as Hcl.
  { rewrite zlen_fmap, zlen_chunk, Hsl; [done|]. unfold sort_group. by rewrite nblocks_sort. }
  rewrite <- Hcl. destruct role_reads as [Hc _].
  eapply validate_block_pass; [exact Hwords|exact Hc|lia| |done| |exact Hdesc|].
  - rewrite Hcl. fold n in H1. lia.
  - eapply group_reads; [exact Hg|]. intros i o Hi. eapply zget_chunk; [lia|exact Hi].
  - rewrite <- Z.add_assoc. apply Hblocks. rewrite Hb. rewrite zget_app_r by lia.
    replace (zlen blocks0 + (prefix_sum nblocks groups g + k) - zlen blocks0) with (prefix_sum nblocks groups g + k) by lia.
    done.
Qed.

Lemma group_step_pass g grp :
  zget groups g = Some grp →
  validate_group_step s gi n idx bc (prefix_sum zlen groups g, zlen blocks0 + prefix_sum nblocks groups g) g =
    Ok (prefix_sum zlen groups (g + 1), zlen blocks0 + prefix_sum nblocks groups (g + 1)).
Proof.
  intros Hg. destruct (role_entry g grp Hg) as (e & -> & _ & R1 & R2 & R3 & B1 & B2).
  cbn [gv_offset gv_count gv_block_index_offset] in *. pose proof (zget_Some_lt _ _ _ Hg) as Hlt.
  pose proof (zlen_nonneg grp). pose proof (zlen_nonneg blocks0). pose proof (nblocks_nonneg grp).
  pose proof (prefix_sum_nonneg zlen zlen_nonneg groups g ltac:(lia)).
  pose proof (prefix_sum_nonneg nblocks nblocks_nonneg groups g ltac:(lia)).
  rewrite !(prefix_sum_succ _ _ _ _ Hg). rewrite Z.add_assoc.
  unfold validate_group_step. pass.
  eapply bind_step; [apply expect_pass; apply andb_true_intro; split; [apply Z.leb_le; lia|apply Z.eqb_refl]|cbv beta].
  do 4 pass. destruct (Z.eqb_spec (zlen grp) 0) as [E|E].
  { pass. assert (nblocks grp = 0) as -> by (unfold nblocks; by rewrite E). do 2 f_equal. lia. }
  destruct (key_loop (group_key s idx n) "group postings not sorted" (occ_key <$> sort_group grp)
    (prefix_sum zlen groups g) (sort_group_keys grp)) as [st Hst].
  { intros i key Hi. rewrite zget_fmap in Hi. destruct (zget (sort_group grp) i) as [o|] eqn:Eo; [|done].
    injection Hi as <-. destruct role_reads. eapply group_key_at; [done|apply role_occs|].
    by eapply group_occ_at. }
  rewrite zlen_fmap in Hst. unfold sort_group in Hst at 1. rewrite zlen_sort_by in Hst.
  eapply bind_step; [exact Hst|cbv beta]. pass.
  eapply bind_step; [|cbv beta; reflexivity].
  apply for_each_seqZ_total. intros k Hk. fold (nblocks grp) in Hk. pass. apply group_blocks_pass; [done|lia].
Qed.

(** The groups of a role pass, and the block cursor ends after their blocks. *)
Lemma role_groups_pass :
  validate_role_groups s gi (zlen groups) n idx (zlen blocks0) bc = Ok (zlen blocks).
Proof.
  unfold validate_role_groups.
  pose proof (fold_r_seqZ (validate_group_step s gi n idx bc)
    (λ g, (prefix_sum zlen groups g, zlen blocks0 + prefix_sum nblocks groups g)) (zlen groups) (zlen_nonneg _)) as Hf.
  cbv beta in Hf. rewrite !prefix_sum_0, Z.add_0_r in Hf. rewrite Hf.
  - cbn [mbind result_bind fst snd]. fold n. rewrite (expect_pass _ _ (Z.eqb_refl n)). cbn [mbind result_bind].
    by rewrite (layout_blocks_count _ _ _ _ _ Hok).
  - intros g Hg. destruct (zget_is_Some groups g Hg) as [grp Hgrp]. by eapply group_step_pass.
Qed.

Lemma check_columns_pass : check_columns s idx 6 = Ok n.
Proof.
  destruct role_reads as [(Hc0 & Hn0 & Hl & Hf) _]. unfold check_columns. pass.
  eapply bind_step; [apply bounded_pass; [lia|done]|cbv beta]. pass. done.
Qed.

Lemma check_group_index_pass :
  match profiles with Some ps => zlen ps = zlen groups | None => True end →
  check_group_index s gi (zlen groups) (match profiles with Some _ => true | None => false end) = Ok tt.
Proof.
  intros Hp. pose proof (lo_count _ _ _ _ _ Hok) as Hcount.
  assert (zlen (file s gi) = 8 + zlen groups * 16 +
    match profiles with Some _ => zlen groups * 16 | None => 0 end) as Hl.
  { rewrite Hgi. unfold serialize_group_index. rewrite !zlen_app, zlen_put_i64, (zlen_rows put_entry 16), Hcount.
    - destruct profiles as [ps|]; [|change (zlen []) with 0; lia].
      rewrite (zlen_rows put_profile 16), Hp; [lia|]. intros; unfold put_profile; by autorewrite with zlen.
    - intros; unfold put_entry; by autorewrite with zlen. }
  assert (read_i64 (file s gi) 0 = Some (zlen groups)) as H0.
  { rewrite Hgi. unfold serialize_group_index. rewrite Hcount, i64_of by (pose proof (zlen_nonneg groups); lia).
    match goal with |- read_i64 ?f 0 = _ => pose proof (holds_at_self f) as Hf end.
    apply holds_at_app in Hf as [Hf _]. eapply read_i64_at; [exact Hf|done|]. unfold inS.
    pose proof (zlen_nonneg groups). lia. }
  unfold check_group_index. pass. pose proof (zlen_nonneg groups).
  eapply bind_step; [apply bounded_pass; [|]; rewrite Hl; destruct profiles; lia|cbv beta].
  pass. apply expect_pass, Z.eqb_eq. rewrite Hl.
  unfold GROUP_INDEX_ENTRY_SIZE, RENAME_PROFILE_ENTRY_SIZE. destruct profiles; lia.
Qed.
End role.

(** The reader accepts the document sections the writer lays out: the posting columns, the
    entries with their URIs, and the interval blocks whose lines it recomputes. *)

From Stdlib Require Import Sorting.Sorted.

Open Scope Z_scope.

(** ** What validation requires *)

Definition span_fits (sp : Span) : Prop :=
  0 ≤ start_line sp ≤ LINE_MAX ∧ 0 ≤ end_line sp ≤ LINE_MAX ∧
  0 ≤ start_char sp ≤ CHAR_MASK ∧ 0 ≤ end_char sp ≤ CHAR_MASK ∧ pack_start sp ≤ pack_end sp.

Lemma span_fits_packs sp :
  span_fits sp → inU 32 (pack_start sp) ∧ inU 32 (pack_end sp) ∧
  unpack_line (pack_start sp) = start_line sp ∧ unpack_line (pack_end sp) = end_line sp ∧
  as_i32 (start_line sp) = start_line sp ∧ as_i32 (end_line sp) = end_line sp.
Proof.
  intros (Hsl & Hel & Hsc & Hec & _). unfold pack_start, pack_end.
  destruct (unpack_pack (start_line sp) (start_char sp)) as [-> _]; [lia..|].
  destruct (unpack_pack (end_line sp) (end_char sp)) as [-> _]; [lia..|].
  rewrite LINE_MAX_eq in *. split_and!; try (apply pack_range; lia); try lia; apply i32_of; lia.
Qed.

Definition doc_occ_valid (n_symbols : Z) (o : DocOcc) : Prop :=
  0 ≤ do_symbol_ord o < n_symbols ∧ inS 32 (do_symbol_ord o) ∧ inS 32 (do_flags o) ∧ span_fits (do_span o).

Definition doc_valid (n_targets : Z) (d : SegmentDoc) : Prop :=
  wf_str (doc_uri d) ∧ inS 64 (doc_id d) ∧ inS 32 (doc_epoch d) ∧ inS 32 (doc_target_ord d) ∧
  0 ≤ doc_target_ord d < n_targets.

Lemma sort_doc_keys occs : StronglySorted (λ a b, lex_leb a b = true) (doc_occ_key <$> sort_doc occs).
Proof.
  apply (StronglySorted_fmap (λ a b, lex_leb a b = true)), sort_by_sorted;
    [intros; apply lex_leb_total|intros ???; apply lex_leb_trans].
Qed.

Lemma prefix_sum_sort_doc os i : prefix_sum zlen (sort_doc <$> os) i = prefix_sum zlen os i.
Proof.
  unfold prefix_sum. rewrite <- fmap_take, <- list_fmap_compose. f_equal. apply list_fmap_ext.
  intros j g _. cbn. apply zlen_sort_by.
Qed.

(** The running maximum the reader recomputes is the one the writer stored. *)
Lemma last_line_pass dp col off c m :
  (∀ j o, zget c j = Some o → read_u32 dp (col + 4 * (off + j)) = Some (pack_end (do_span o))) →
  Forall (λ o, span_fits (do_span o)) c →
  fold_r (λ last_line j,
    pe ← req_u32 dp (col + 4 * (off + j)) DOC_POSTINGS_FILE;
    Ok (Z.max last_line (unpack_line pe))) m (seqZ 0 (zlen c)) =
  Ok (foldl (λ m o, Z.max m (as_i32 (end_line (do_span o)))) m c).
Proof.
  induction c as [|o c IH] using rev_ind; intros Hr Hc; [done|].
  apply Forall_app in Hc as [Hc [Ho _]%Forall_cons]. rewrite zlen_app. change (zlen [o]) with 1.
  pose proof (zlen_nonneg c). rewrite seqZ_snoc, fold_r_app, foldl_app by done.
  rewrite IH; [|intros j x Hj; apply Hr; rewrite zget_app_l; [done|apply zget_Some_lt in Hj; lia]|done].
  cbn [mbind result_bind fold_r foldl].
  rewrite (req_u32_pass _ _ _ _ (Hr (zlen c) o ltac:(by rewrite zget_app_r, Z.sub_diag by lia))).
  cbn [mbind result_bind]. by destruct (span_fits_packs _ Ho) as (_ & _ & _ & -> & _ & ->).
Qed.

Lemma max_end_0 c :
  c ≠ [] → Forall (λ o, span_fits (do_span o)) c →
  foldl (λ m o, Z.max m (as_i32 (end_line (do_span o)))) 0 c = max_end c.
Proof.
  destruct c as [|o c]; [done|]. intros _ [Ho _]%Forall_cons. unfold max_end. cbn [foldl].
  destruct (span_fits_packs _ Ho) as (_ & _ & _ & _ & _ & ->). destruct Ho as (_ & ? & _).
  f_equal. unfold i32_min. lia.
Qed.

Lemma max_end_range c : Forall (λ o, span_fits (do_span o)) c → c ≠ [] → inS 32 (max_end c).
Proof.
  intros Hc Hne. rewrite <- max_end_0 by done. clear Hne.
  assert (∀ m, 0 ≤ m ≤ LINE_MAX → 0 ≤ foldl (λ m o, Z.max m (as_i32 (end_line (do_span o)))) m c ≤ LINE_MAX) as H.
  { induction Hc as [|o c Ho Hc IH]; intros m Hm; [done|]. cbn [foldl]. apply IH.
    destruct (span_fits_packs _ Ho) as (_ & _ & _ & _ & _ & ->). destruct Ho as (_ & ? & _). lia. }
  specialize (H 0). rewrite LINE_MAX_eq in H. unfold inS. lia.
Qed.

Section docs.
Context (s : SegmentReader) (c2s : list Z) (ds : list SegmentDoc) (os : list (list DocOcc)) (l : DocLayout).
Let n := prefix_sum zlen os (zlen os).
Let ic := prefix_sum nblocks os (zlen os).
Let ub := prefix_sum uri_len ds (zlen ds).
Context (Hok : docs_ok c2s ds os l).
Context (Hdi : file s DOC_INDEX = serialize_doc_index l) (Hdp : file s DOC_POSTINGS = serialize_doc_postings l).
Context (Hdc : doc_count s = zlen ds) (Hc2s : zlen c2s = symbol_count s).
Context (Hc2s_range : ∀ c p, zget c2s c = Some p → 0 ≤ p < symbol_count s) (Hsc : symbol_count s < 2 ^ 31).
Context (Hdocs : Forall (doc_valid (target_count s)) ds).
Context (Hocc : Forall (Forall (doc_occ_valid (symbol_count s))) os).
Context (Hn : n < 2 ^ 31) (Hic : ic < 2 ^ 31) (Hub : ub < 2 ^ 31) (Hds : zlen ds < 2 ^ 31).

Lemma docs_sizes : 0 ≤ n ∧ 0 ≤ ic ∧ 0 ≤ ub ∧ 0 ≤ zlen ds ∧ zlen os = zlen ds.
Proof.
  pose proof (prefix_sum_nonneg zlen zlen_nonneg os (zlen os) (zlen_nonneg _)).
  pose proof (prefix_sum_nonneg nblocks nblocks_nonneg os (zlen os) (zlen_nonneg _)).
  pose proof (prefix_sum_nonneg uri_len uri_len_nonneg ds (zlen ds) (zlen_nonneg _)).
  pose proof (zlen_nonneg ds). pose proof (dl_len _ _ _ _ Hok). unfold n, ic, ub. lia.
Qed.

(** *** Columns *)

Lemma docs_occs : Forall (doc_occ_valid (symbol_count s)) (concat (sort_doc <$> os)).
Proof.
  apply Forall_concat, Forall_fmap. eapply Forall_impl; [exact Hocc|]. intros g Hg. cbn.
  unfold sort_doc. by rewrite sort_by_perm.
Qed.

Lemma zlen_docs_occs : zlen (concat (sort_doc <$> os)) = n.
Proof. by rewrite zlen_concat, zlen_fmap, prefix_sum_sort_doc. Qed.

Lemma doc_columns :
  cols_ok (file s DOC_POSTINGS) 4 n ∧
  ∀ i o, zget (concat (sort_doc <$> os)) i = Some o → doc_reads_as s n i (doc_record_of c2s o).
Proof.
  pose proof docs_sizes as (Hn0 & _). pose proof docs_occs as Hoc. pose proof zlen_docs_occs as Hl.
  pose proof (docs_ok_records _ _ _ _ Hok) as Hcols. fold n in Hcols.
  destruct (dl_columns _ _ _ _ Hok) as (C0 & C1 & C2 & C3).
  set (occs := concat (sort_doc <$> os)) in *.
  pose proof Hdp as Hf. unfold serialize_doc_postings in Hf. rewrite Hcols, (i64_of n) in Hf by lia.
  rewrite C0, C1, C2, C3 in Hf. set (cols := [_; _; _; _]) in Hf.
  assert (Forall (λ c, zlen c = n ∧ Forall (inS 32) c) cols) as Hc.
  { unfold cols. repeat constructor; try (by rewrite !zlen_fmap); apply Forall_fmap, Forall_fmap;
      eapply Forall_impl; try exact Hoc; intros o (Hsym & ? & ? & ?); cbn; try done; try apply as_i32_in.
    destruct (zget_is_Some c2s (do_symbol_ord o)) as [p Hp]; [lia|]. rewrite Hp. cbn.
    apply Hc2s_range in Hp. unfold inS. lia. }
  destruct (columns_read n cols) as [Hco Hread]; [lia|done|done|]. change (zlen cols) with 4 in Hco.
  rewrite <- Hf in Hco, Hread. split; [done|]. intros k o Ho.
  pose proof (zget_Some_lt _ _ _ Ho) as Hk. rewrite Hl in Hk.
  assert (∀ c col (f : DocRecord → Z), zget cols c = Some col → col = f <$> (doc_record_of c2s <$> occs) → 0 ≤ c < 4 →
    read_i32 (file s DOC_POSTINGS) (8 + c * 4 * n + 4 * k) = Some (f (doc_record_of c2s o)) ∧
    read_i32 (file s DOC_POSTINGS) (as_usize (8 + c * 4 * n + 4 * k)) = Some (f (doc_record_of c2s o))) as Hcol.
  { intros c col f Hcol -> Hc4.
    assert (zget (f <$> (doc_record_of c2s <$> occs)) k = Some (f (doc_record_of c2s o))) as Hg by (by rewrite !zget_fmap, Ho).
    destruct (col_offset _ _ _ c k Hco Hc4 Hk) as (-> & _ & _).
    by split; apply (Hread c (f <$> (doc_record_of c2s <$> occs))). }
  destruct (Hcol 0 _ dr_symbol_ord eq_refl eq_refl ltac:(lia)) as [R0 U0].
  destruct (Hcol 1 _ dr_packed_start eq_refl eq_refl ltac:(lia)) as [R1 U1].
  destruct (Hcol 2 _ dr_packed_end eq_refl eq_refl ltac:(lia)) as [R2 U2].
  destruct (Hcol 3 _ dr_flags eq_refl eq_refl ltac:(lia)) as [R3 U3].
  destruct Hco as [Hco0 _]. split.
  - unfold doc_record. rewrite Hco0. cbn [mbind option_bind]. by rewrite U0, U1, U2, U3.
  - rewrite <- R0. f_equal; lia.
  - rewrite <- R1. f_equal; lia.
  - rewrite <- R2. f_equal; lia.
  - rewrite <- R3. f_equal; lia.
Qed.

Lemma check_doc_columns_pass : check_columns s DOC_POSTINGS 4 = Ok n.
Proof.
  destruct doc_columns as [(Hc0 & Hn0 & Hl & Hf) _]. unfold check_columns. pass.
  eapply bind_step; [apply bounded_pass; [lia|done]|cbv beta]. pass. done.
Qed.

(** The fields of a record as validation reads them. *)
Lemma doc_occ_reads i o :
  zget (concat (sort_doc <$> os)) i = Some o →
  read_i32 (file s DOC_POSTINGS) (8 + 4 * i) = Some (default 0 (zget c2s (do_symbol_ord o))) ∧
  read_u32 (file s DOC_POSTINGS) (8 + 4 * n + 4 * i) = Some (pack_start (do_span o)) ∧
  read_u32 (file s DOC_POSTINGS) (8 + 8 * n + 4 * i) = Some (pack_end (do_span o)) ∧
  0 ≤ default 0 (zget c2s (do_symbol_ord o)) < symbol_count s ∧ span_fits (do_span o).
Proof.
  intros Ho. destruct doc_columns as [_ Hr]. destruct (Hr _ _ Ho) as [_ R0 R1 R2 _]. cbn in R0, R1, R2.
  pose proof docs_occs as Hoc. rewrite Forall_forall in Hoc.
  destruct (Hoc o (zget_elem_of _ _ _ Ho)) as (Hs & _ & _ & Hsp).
  destruct (span_fits_packs _ Hsp) as (Hps & Hpe & _). split_and!; try done.
  - rewrite read_u32_of_i32, R1. cbn. by rewrite as_u32_i32.
  - rewrite read_u32_of_i32, R2. cbn. by rewrite as_u32_i32.
  - destruct (zget_is_Some c2s (do_symbol_ord o)) as [p Hp]; [lia|]. rewrite Hp. apply Hc2s_range in Hp. cbn. lia.
  - destruct (zget_is_Some c2s (do_symbol_ord o)) as [p Hp]; [lia|]. rewrite Hp. apply Hc2s_range in Hp. cbn. lia.
Qed.

Lemma doc_records_pass : validate_doc_records s n = Ok tt.
Proof.
  apply for_each_seqZ_total. intros r Hr. destruct (zget_is_Some (concat (sort_doc <$> os)) r) as [o Ho].
  { rewrite zlen_docs_occs. lia. }
  destruct (doc_occ_reads _ _ Ho) as (R0 & R1 & R2 & Hsym & (_ & _ & _ & _ & Hle)).
  do 4 pass. apply expect_pass. by apply Z.leb_le.
Qed.

(** *** Entries and intervals *)

Lemma doc_index_at :
  holds_at (file s DOC_INDEX) 0 (put_i64 (zlen ds)) ∧ holds_at (file s DOC_INDEX) 8 (put_i64 ic) ∧
  holds_at (file s DOC_INDEX) 16 (put_i64 ub) ∧
  holds_at (file s DOC_INDEX) 24 (concat (put_doc_row <$> dl_docs l)) ∧
  holds_at (file s DOC_INDEX) (24 + zlen ds * 48) (concat (put_interval <$> dl_intervals l)) ∧
  holds_at (file s DOC_INDEX) (24 + zlen ds * 48 + ic * 24) (dl_uri_blob l) ∧
  zlen (file s DOC_INDEX) = 24 + zlen ds * 48 + ic * 24 + ub.
Proof.
  pose proof docs_sizes as (? & ? & ? & ? & ?).
  assert (∀ d, zlen (put_doc_row d) = 48) as Hrow by (intros; unfold put_doc_row; by autorewrite with zlen).
  assert (∀ i, zlen (put_interval i) = 24) as Hiv by (intros [[[] ?] ?]; unfold put_interval; by autorewrite with zlen).
  pose proof (dl_rows_count _ _ _ _ Hok) as Hr. pose proof (dl_intervals_count _ _ _ _ Hok) as Hi.
  pose proof (dl_blob _ _ _ _ Hok) as Hb. fold ic in Hi. fold ub in Hb.
  pose proof (holds_at_self (file s DOC_INDEX)) as Hf. rewrite Hdi in Hf at 2. unfold serialize_doc_index in Hf.
  rewrite Hr, Hi, Hb, !i64_of in Hf by lia. at_split Hf. rewrite !zlen_put_i64 in *.
  rewrite (zlen_rows put_doc_row 48), (zlen_rows put_interval 24), Hr, Hi in * by done.
  split_and!; try done.
  rewrite Hdi. unfold serialize_doc_index. autorewrite with zlen. rewrite (zlen_rows put_doc_row 48), (zlen_rows put_interval 24), Hr, Hi, Hb by done. lia.
Qed.

Lemma doc_occ_at d occs i o :
  zget os d = Some occs → zget (sort_doc occs) i = Some o →
  zget (concat (sort_doc <$> os)) (prefix_sum zlen os d + i) = Some o.
Proof.
  intros Hg Hi. rewrite <- prefix_sum_sort_doc. eapply zget_concat; [|exact Hi]. by rewrite zget_fmap, Hg.
Qed.

(** Interval [k] of document [d], read back. *)
Lemma interval_row_reads d occs k :
  zget os d = Some occs → 0 ≤ k < nblocks occs →
  let base := 24 + zlen ds * 48 + (prefix_sum nblocks os d + k) * 24 in
  let c := chunk (sort_doc occs) k in
  (∃ o, zget c 0 = Some o ∧ read_i32 (file s DOC_INDEX) base = Some (as_i32 (start_line (do_span o)))) ∧
  read_i32 (file s DOC_INDEX) (base + 4) = Some (max_end c) ∧
  read_i64 (file s DOC_INDEX) (base + 8) = Some (prefix_sum zlen os d + k * 256) ∧
  read_i32 (file s DOC_INDEX) (base + 16) = Some (zlen c) ∧
  zlen c = Z.min (zlen occs - k * 256) 256 ∧ c ≠ [] ∧ Forall (λ o, span_fits (do_span o)) c ∧
  prefix_sum nblocks os d + k < ic ∧ prefix_sum zlen os d + zlen occs ≤ n.
Proof.
  intros Hd Hk base c. pose proof docs_sizes as (? & ? & ? & ? & Hlen). pose proof (zget_Some_lt _ _ _ Hd) as Hlt.
  pose proof (dl_interval _ _ _ _ Hok d occs k Hd Hk) as Hiv. fold c in Hiv.
  pose proof (prefix_sum_next zlen zlen_nonneg os d occs Hd) as N1. fold n in N1.
  pose proof (prefix_sum_next nblocks nblocks_nonneg os d occs Hd) as N2. fold ic in N2.
  pose proof (prefix_sum_nonneg zlen zlen_nonneg os d ltac:(lia)). pose proof (zlen_nonneg occs).
  assert (zlen c = Z.min (zlen occs - k * 256) 256) as Hcl.
  { unfold c. rewrite zlen_chunk; unfold sort_doc; [by rewrite zlen_sort_by|by rewrite nblocks_sort]. }
  pose proof (nblocks_bounds occs) as Hnb.
  assert (c ≠ []) as Hne by (intros E; rewrite E in Hcl; change (zlen []) with 0 in Hcl; lia).
  assert (Forall (λ o, span_fits (do_span o)) c) as Hsp.
  { apply Forall_forall. intros o (i & Hi)%elem_of_zget. apply zget_chunk in Hi; [|lia].
    pose proof docs_occs as Hoc. rewrite Forall_forall in Hoc. eapply Hoc, zget_elem_of, doc_occ_at; [exact Hd|exact Hi]. }
  destruct doc_index_at as (_ & _ & _ & _ & Hrows & _ & _).
  eapply (holds_at_row put_interval 24) in Hrows;
    [|intros [[[] ?] ?] _; unfold put_interval; by autorewrite with zlen|exact Hiv].
  fold base in Hrows. unfold interval_of, put_interval in Hrows. at_split Hrows.
  rewrite !zlen_put_i64, !zlen_put_i32 in *. split.
  - destruct c as [|o c'] eqn:Ec; [done|]. exists o. split; [done|]. at_read. apply as_i32_in.
  - split_and!; try done; try lia; at_read; try (by apply max_end_range); unfold inS; lia.
Qed.

Lemma interval_pass d occs k :
  zget os d = Some occs → 0 ≤ k < nblocks occs →
  validate_interval (file s DOC_INDEX) (file s DOC_POSTINGS) (24 + zlen ds * 48) ic
    (8 + 4 * n) (8 + 8 * n) (prefix_sum zlen os d) (zlen occs) (prefix_sum nblocks os d) k = Ok tt.
Proof.
  intros Hd Hk. destruct (interval_row_reads d occs k Hd Hk) as ((o & Ho & R0) & R1 & R2 & R3 & Hcl & Hne & Hsp & Hlt & Hle).
  pose proof docs_sizes as (? & ? & ? & ? & Hlen). pose proof (zget_Some_lt _ _ _ Hd) as Hdlt.
  pose proof (prefix_sum_nonneg zlen zlen_nonneg os d ltac:(lia)). pose proof (zlen_nonneg occs).
  set (c := chunk (sort_doc occs) k) in *. pose proof (zlen_nonneg c).
  assert (∀ j x, zget c j = Some x → zget (concat (sort_doc <$> os)) (prefix_sum zlen os d + k * 256 + j) = Some x) as Hat.
  { intros j x Hj. rewrite <- Z.add_assoc. eapply doc_occ_at; [exact Hd|]. eapply zget_chunk; [lia|exact Hj]. }
  destruct (doc_occ_reads _ _ (Hat _ _ Ho)) as (_ & R4 & _ & _ & Hspo). rewrite Z.add_0_r in R4.
  destruct (span_fits_packs _ Hspo) as (_ & _ & Hul & _ & Hil & _).
  unfold validate_interval. pass. pass.
  eapply bind_step; [apply expect_pass; rewrite u64_of by lia; apply Z.eqb_refl|cbv beta]. pass.
  eapply bind_step; [apply expect_pass; rewrite as_usize_nonneg by lia; by apply Z.eqb_eq|cbv beta]. pass.
  rewrite <- Hcl. eapply bind_step; [apply last_line_pass; [|exact Hsp]|cbv beta].
  { intros j x Hj. by destruct (doc_occ_reads _ _ (Hat _ _ Hj)) as (_ & _ & R & _). }
  rewrite max_end_0 by done. pass.
  eapply bind_step; [apply expect_pass; rewrite Hul; apply Z.eqb_refl|cbv beta]. pass.
  apply expect_pass, Z.eqb_eq. symmetry. apply wrapS_id; [done|]. by apply max_end_range.
Qed.

(** The entry of document [d], read back. *)
Lemma doc_reads d doc occs :
  zget ds d = Some doc → zget os d = Some occs →
  let di := file s DOC_INDEX in let b := 24 + d * 48 in
  read_i32 di b = Some (prefix_sum uri_len ds d) ∧ read_i32 di (b + 4) = Some (uri_len doc) ∧
  read_i64 di (b + 8) = Some (doc_id doc) ∧ read_i32 di (b + 16) = Some (doc_epoch doc) ∧
  read_i32 di (b + 20) = Some (doc_target_ord doc) ∧ read_i32 di (b + 24) = Some (flags_of doc) ∧
  read_i32 di (b + 28) = Some (if zlen occs =? 0 then -1 else prefix_sum nblocks os d) ∧
  read_i64 di (b + 32) = Some (prefix_sum zlen os d) ∧ read_i32 di (b + 40) = Some (zlen occs) ∧
  read_i32 di (b + 44) = Some (nblocks occs) ∧
  slice di (24 + zlen ds * 48 + ic * 24 + prefix_sum uri_len ds d) (uri_len doc) = Some (as_bytes (doc_uri doc)) ∧
  prefix_sum uri_len ds d + uri_len doc ≤ ub ∧ prefix_sum zlen os d + zlen occs ≤ n ∧
  prefix_sum nblocks os d + nblocks occs ≤ ic ∧ doc_valid (target_count s) doc.
Proof.
  intros Hd Ho di b. pose proof docs_sizes as (? & ? & ? & ? & Hlen). pose proof (zget_Some_lt _ _ _ Hd) as Hlt.
  pose proof (prefix_sum_next zlen zlen_nonneg os d occs Ho) as N1. fold n in N1.
  pose proof (prefix_sum_next nblocks nblocks_nonneg os d occs Ho) as N2. fold ic in N2.
  pose proof (prefix_sum_next uri_len uri_len_nonneg ds d doc Hd) as N3. fold ub in N3.
  pose proof (prefix_sum_nonneg zlen zlen_nonneg os d ltac:(lia)). pose proof (zlen_nonneg occs).
  pose proof (prefix_sum_nonneg nblocks nblocks_nonneg os d ltac:(lia)). pose proof (nblocks_nonneg occs).
  pose proof (prefix_sum_nonneg uri_len uri_len_nonneg ds d ltac:(lia)). pose proof (uri_len_nonneg doc).
  assert (doc_valid (target_count s) doc) as Hv by (rewrite Forall_forall in Hdocs; eapply Hdocs, zget_elem_of, Hd).
  pose proof Hv as (_ & Hid & Hep & Hto & _).
  assert (inS 32 (flags_of doc)) by (unfold flags_of; destruct (doc_generated doc), (doc_readonly doc); by vm_compute).
  destruct doc_index_at as (_ & _ & _ & Hrows & _ & Hblob & _).
  eapply (holds_at_row put_doc_row 48) in Hrows;
    [|intros; unfold put_doc_row; by autorewrite with zlen|by apply (dl_row _ _ _ _ Hok d doc occs)].
  fold b di in Hrows. unfold put_doc_row, row_of in Hrows. cbn [de_uri_offset de_uri_len de_doc_id de_epoch
    de_target_ord de_doc_flags de_interval_first de_postings_offset de_postings_count de_interval_count] in Hrows.
  at_split Hrows. rewrite !zlen_put_i64, !zlen_put_i32 in *.
  split_and!; try done; try (at_read; try done; unfold inS; try destruct (zlen occs =? 0); lia).
  eapply holds_at_sub; [exact Hblob|]. by apply (dl_uri _ _ _ _ Hok).
Qed.

Lemma doc_step_pass d doc occs :
  zget ds d = Some doc → zget os d = Some occs →
  validate_doc_step s (zlen ds) ic ub n (prefix_sum zlen os d, prefix_sum nblocks os d) d =
    Ok (prefix_sum zlen os (d + 1), prefix_sum nblocks os (d + 1)).
Proof.
  intros Hd Ho. pose proof (doc_reads d doc occs Hd Ho) as Hr. cbv zeta in Hr.
  destruct Hr as (R0 & R1 & _ & _ & R2 & _ & R3 & R4 & R5 & R6 & Hs & B1 & B2 & B3 & (Hwf & _ & _ & _ & Ht)).
  pose proof docs_sizes as (? & ? & ? & ? & Hlen). pose proof (zget_Some_lt _ _ _ Hd) as Hlt.
  pose proof (prefix_sum_nonneg zlen zlen_nonneg os d ltac:(lia)). pose proof (zlen_nonneg occs).
  pose proof (prefix_sum_nonneg nblocks nblocks_nonneg os d ltac:(lia)). pose proof (nblocks_nonneg occs).
  pose proof (prefix_sum_nonneg uri_len uri_len_nonneg ds d ltac:(lia)). pose proof (uri_len_nonneg doc).
  rewrite !(prefix_sum_succ _ _ _ _ Ho). unfold validate_doc_step. do 2 pass.
  eapply bind_step; [apply str_slice_pass; [lia|lia|lia|exact Hs]|cbv beta].
  eapply bind_step; [by rewrite from_utf8_as_bytes by done|cbv beta]. do 4 pass.
  eapply bind_step; [apply expect_pass; apply andb_true_intro; split; [apply Z.leb_le; lia|apply Z.eqb_refl]|cbv beta].
  do 4 pass. destruct (Z.eqb_spec (zlen occs) 0) as [E|E].
  { assert (nblocks occs = 0) as E0 by (unfold nblocks; by rewrite E). rewrite E0.
    eapply bind_step; [by apply expect_pass|cbv beta]. by rewrite Z.add_0_r. }
  pass.
  destruct (key_loop (λ r,
      ps ← req_u32 (file s DOC_POSTINGS) (8 + 4 * n + 4 * r) DOC_POSTINGS_FILE;
      pe ← req_u32 (file s DOC_POSTINGS) (8 + 8 * n + 4 * r) DOC_POSTINGS_FILE;
      Ok [ps; pe]) "doc postings not sorted" (doc_occ_key <$> sort_doc occs) (prefix_sum zlen os d) (sort_doc_keys occs))
    as [st Hst].
  { intros i key Hi. rewrite zget_fmap in Hi. destruct (zget (sort_doc occs) i) as [o|] eqn:Eo; [|done].
    injection Hi as <-. destruct (doc_occ_reads _ _ (doc_occ_at _ _ _ _ Ho Eo)) as (_ & Q1 & Q2 & _).
    do 2 pass. done. }
  rewrite zlen_fmap in Hst. unfold sort_doc in Hst at 1. rewrite zlen_sort_by in Hst.
  eapply bind_step; [exact Hst|cbv beta]. fold (nblocks occs). pass.
  eapply bind_step; [|cbv beta; reflexivity].
  apply for_each_seqZ_total. intros k Hk. apply interval_pass; [done|lia].
Qed.

Lemma doc_index_pass : validate_doc_index s (zlen ds) ic ub n = Ok tt.
Proof.
  unfold validate_doc_index. pose proof docs_sizes as (_ & _ & _ & _ & Hlen).
  pose proof (fold_r_seqZ (validate_doc_step s (zlen ds) ic ub n)
    (λ d, (prefix_sum zlen os d, prefix_sum nblocks os d)) (zlen ds) (zlen_nonneg _)) as Hf.
  cbv beta in Hf. rewrite !prefix_sum_0 in Hf. rewrite Hf.
  - cbn [mbind result_bind fst snd]. rewrite <- Hlen. fold n ic.
    rewrite (expect_pass _ _ (Z.eqb_refl n)). cbn [mbind result_bind]. by apply expect_pass, Z.eqb_refl.
  - intros d Hd. destruct (zget_is_Some ds d Hd) as [doc Hdoc].
    destruct (zget_is_Some os d) as [occs Hoccs]; [lia|]. by eapply doc_step_pass.
Qed.

Lemma doc_epochs_pass : mapM (epoch_of s) (seqZ 0 (zlen ds)) = Some (doc_epoch <$> ds).
Proof.
  pose proof docs_sizes as (_ & _ & _ & _ & Hlen). apply mapM_Some_2, Forall2_same_length_lookup_2.
  { rewrite length_seqZ, length_fmap. unfold zlen. lia. }
  intros i x e Hx He. rewrite list_lookup_fmap in He. destruct (ds !! i) as [doc|] eqn:Ed; [|done]. injection He as <-.
  apply lookup_seqZ in Hx as [-> Hi]. rewrite <- zget_of_nat in Ed.
  destruct (zget_is_Some os (Z.of_nat i)) as [occs Ho]; [lia|].
  pose proof (doc_reads _ _ _ Ed Ho) as Hr. cbv zeta in Hr. destruct Hr as (_ & _ & _ & R & _).
  unfold epoch_of, doc_entry_base. change DOC_ENTRY_SIZE with 48. by rewrite <- R, Z.add_0_l.
Qed.
End docs.
