(* ===== verification/SegDict.v ===== *)
(** The reader accepts the symbol dictionary, the metadata tables and the search rows the
    writer lays out, and reads every one of them back. *)

From S2P Require Import Prelude RustStr IndexModel Bitset StoreFormat SegReader SegSafe SegWriter SegLayout SegTables SegPostings.
From Stdlib Require Import Sorting.Sorted.

Open Scope Z_scope.

(** ** Rows over a blob, as a file *)

(** The string references of a row all resolve. *)
Lemma check_strs_pass f name base n blob len d :
  (∀ k, 0 ≤ k < n → ∃ o l bs, read_i32 f (base + k * 8) = Some o ∧ read_i32 f (base + k * 8 + 4) = Some l ∧
     0 ≤ o ∧ 0 ≤ l ∧ o + l ≤ len ∧ slice f (blob + o) l = Some bs) →
  check_strs f name base n blob len d = Ok tt.
Proof.
  intros H. apply for_each_seqZ_total. intros k Hk. destruct (H k) as (o & l & bs & R0 & R1 & Ho & Hl & Hol & Hs); [lia|].
  do 2 pass. eapply bind_step; [apply str_slice_pass; [lia|lia|lia|exact Hs]|done].
Qed.

Lemma read_str_at f base blob o s :
  read_i32 f base = Some o → read_i32 f (base + 4) = Some (str_len s) → 0 ≤ o →
  slice f (blob + o) (str_len s) = Some (as_bytes s) → wf_str s → read_str f base blob = s.
Proof.
  intros R0 R1 Ho Hs Hw. pose proof (zlen_nonneg (as_bytes s)) as Hl. fold (str_len s) in Hl.
  rewrite (read_str_eq _ _ _ _ _ _ R0 R1 Ho Hl Hs). by apply from_utf8_lossy_as_bytes.
Qed.

Lemma blob_str_at f base blob o s :
  read_i32 f base = Some o → read_i32 f (base + 4) = Some (str_len s) → 0 ≤ o < 2 ^ 31 → str_len s < 2 ^ 31 →
  slice f (blob + o) (str_len s) = Some (as_bytes s) → wf_str s → blob_str f base blob = Some s.
Proof.
  intros R0 R1 Ho Hl Hs Hw. pose proof (zlen_nonneg (as_bytes s)) as H0. fold (str_len s) in H0.
  unfold blob_str. rewrite R0, R1. cbn [mbind option_bind].
  rewrite !as_usize_nonneg by lia. rewrite Hs. cbn [mbind option_bind]. by rewrite from_utf8_as_bytes.
Qed.

Lemma data_len_nonneg {A : Type} (data : A → bytes) x : 0 ≤ data_len data x.
Proof. apply zlen_nonneg. Qed.

(** *** A file of a count, a blob length, rows and a blob *)

Section table_file.
Context {A : Type} (data : A → bytes) (row : Z → A → bytes) (n : Z).
Context (Hrow : ∀ o x, zlen (row o x) = n).

(** [count ++ blob_len ++ rows ++ blob] *)
Definition table_file (xs : list A) : bytes :=
  let st := foldl (table_step data row) ([], []) xs in
  put_i64 (as_i64 (zlen xs)) ++ put_i64 (as_i64 (zlen st.1)) ++ st.2 ++ st.1.

Context (xs : list A) (f : bytes) (Hf : f = table_file xs).
Let total := prefix_sum (data_len data) xs (zlen xs).
Context (Hn : zlen xs < 2 ^ 31) (Htotal : total < 2 ^ 31).

Lemma table_sizes : 0 ≤ total ∧ 0 ≤ zlen xs.
Proof.
  split; [|apply zlen_nonneg]. apply prefix_sum_nonneg; [apply data_len_nonneg|apply zlen_nonneg].
Qed.

Lemma table_file_head :
  read_i64 f 0 = Some (zlen xs) ∧ read_i64 f 8 = Some total ∧ zlen f = 16 + zlen xs * n + total.
Proof.
  pose proof table_sizes as [? ?]. destruct (table_total data row n xs) as [Hb Hr _ _]; [by intros; apply Hrow|].
  fold total in Hb. unfold table_file in Hf. rewrite Hb, !i64_of in Hf by lia.
  set (st := foldl _ _ _) in *. pose proof (holds_at_self f) as HX. rewrite Hf in HX at 2. at_split HX.
  rewrite !zlen_put_i64 in *. split_and!; [at_read; unfold inS; lia..|].
  rewrite Hf. autorewrite with zlen. rewrite Hr, Hb. lia.
Qed.

(** Row [i], and the strings of its element in the blob. *)
Lemma table_file_row i x :
  zget xs i = Some x →
  holds_at f (16 + i * n) (row (prefix_sum (data_len data) xs i) x) ∧
  holds_at f (16 + zlen xs * n + prefix_sum (data_len data) xs i) (data x) ∧
  0 ≤ prefix_sum (data_len data) xs i ∧ prefix_sum (data_len data) xs i + data_len data x ≤ total.
Proof.
  intros Hi. destruct (table_total data row n xs) as [Hb Hr Hrows Hdata]; [by intros; apply Hrow|].
  pose proof (zget_Some_lt _ _ _ Hi) as Hlt.
  pose proof (prefix_sum_next (data_len data) (data_len_nonneg data) xs i x Hi).
  pose proof (prefix_sum_nonneg (data_len data) (data_len_nonneg data) xs i ltac:(lia)).
  unfold table_file in Hf. set (st := foldl _ _ _) in *. pose proof (holds_at_self f) as H'. rewrite Hf in H' at 2.
  at_split H'. rewrite !zlen_put_i64, Hr in *. split; [|split; [|done]].
  - eapply holds_at_trans; [eassumption|]. by apply Hrows.
  - change (16 + zlen xs * n) with (0 + 8 + 8 + zlen xs * n). eapply holds_at_trans; [eassumption|]. by apply Hdata.
Qed.
End table_file.

(** Splits the strings of a blob entry. *)
Ltac strs_split H :=
  at_split H; repeat match goal with K : holds_at _ _ (as_bytes _) |- _ => apply holds_at_slice in K end.

(** A string reference whose offset and length are among the cut fields. *)
Ltac str_ref :=
  split_and!; [at_read; unfold inS; lia|at_read; unfold inS; lia|lia|lia|rewrite ?Z.add_assoc; assumption].

(** ** Target metadata *)

Definition target_meta_valid (m : TargetMeta) : Prop :=
  wf_str (bsp_id m) ∧ wf_str (scala_version m) ∧ wf_str (sourceroot m) ∧ wf_str (semanticdb_root m) ∧
  inS 64 (content_hash m) ∧ inS 64 (options_hash m).

Section target_meta.
Context (s : SegmentReader) (ms : list TargetMeta).
Let total := prefix_sum (data_len target_data) ms (zlen ms).
Context (Hf : file s TARGET_META = table_file target_data target_row ms).
Context (Hcount : target_count s = zlen ms) (Hn : zlen ms < 2 ^ 31) (Htotal : total < 2 ^ 31).
Context (Hms : Forall target_meta_valid ms).

(** The four string references of a row. *)
Lemma target_meta_strs i m :
  zget ms i = Some m →
  let f := file s TARGET_META in let base := 16 + i * 48 in let blob := 16 + zlen ms * 48 in
  (∀ k str, zget [bsp_id m; scala_version m; sourceroot m; semanticdb_root m] k = Some str → ∃ o,
     read_i32 f (base + k * 8) = Some o ∧ read_i32 f (base + k * 8 + 4) = Some (str_len str) ∧
     0 ≤ o ∧ o + str_len str ≤ total ∧ slice f (blob + o) (str_len str) = Some (as_bytes str)) ∧
  read_i64 f (base + 32) = Some (content_hash m) ∧ read_i64 f (base + 40) = Some (options_hash m).
Proof.
  intros Hi f base blob. assert (target_meta_valid m) as (_ & _ & _ & _ & Hch & Hoh).
  { rewrite Forall_forall in Hms. eapply Hms, zget_elem_of, Hi. }
  destruct (table_file_row target_data target_row 48 zlen_target_row ms f Hf i m Hi) as (Hr & Hd & H0 & Hle).
  fold total in Hle. fold base blob in Hr, Hd. set (o := prefix_sum (data_len target_data) ms i) in *.
  unfold data_len, target_data in Hle. rewrite !zlen_app in Hle.
  pose proof (zlen_nonneg (as_bytes (bsp_id m))). pose proof (zlen_nonneg (as_bytes (scala_version m))).
  pose proof (zlen_nonneg (as_bytes (sourceroot m))). pose proof (zlen_nonneg (as_bytes (semanticdb_root m))).
  unfold target_row, target_data in *. rewrite <- !app_assoc in Hr. strs_split Hd. at_split Hr.
  unfold str_len in *. rewrite !i32_of in * by lia. rewrite !zlen_put_i32, !zlen_put_i64 in *.
  split; [|split; at_read; done].
  intros k str Hk. pose proof (zget_Some_lt _ _ _ Hk) as Hk4.
  set (l0 := zlen (as_bytes (bsp_id m))) in *. set (l1 := zlen (as_bytes (scala_version m))) in *.
  set (l2 := zlen (as_bytes (sourceroot m))) in *.
  assert (k = 0 ∨ k = 1 ∨ k = 2 ∨ k = 3) as [->|[->|[->| ->]]] by (change (0 ≤ k < 4) in Hk4; lia);
    injection Hk as <-; [exists o|exists (o + l0)|exists (o + l0 + l1)|exists (o + l0 + l1 + l2)]; str_ref.
Qed.

Lemma target_meta_pass i :
  0 ≤ i < zlen ms →
  check_strs (file s TARGET_META) TARGET_META_FILE (16 + i * 48) 4 (16 + zlen ms * 48) total "target-meta str ref" = Ok tt.
Proof.
  intros Hi. destruct (zget_is_Some ms i Hi) as [m Hm]. destruct (target_meta_strs i m Hm) as [Hs _].
  apply check_strs_pass. intros k Hk.
  destruct (zget_is_Some [bsp_id m; scala_version m; sourceroot m; semanticdb_root m] k Hk) as [str Hstr].
  destruct (Hs k str Hstr) as (o & R0 & R1 & Ho & Hol & Hsl).
  exists o, (str_len str), (as_bytes str). split_and!; try done. apply zlen_nonneg.
Qed.

Lemma target_meta_reads i m : zget ms i = Some m → rd_target_meta s i = Some m.
Proof.
  intros Hm. destruct (target_meta_strs i m Hm) as (Hs & R1 & R2).
  assert (target_meta_valid m) as (W0 & W1 & W2 & W3 & _).
  { rewrite Forall_forall in Hms. eapply Hms, zget_elem_of, Hm. }
  unfold rd_target_meta. change TARGET_META_ENTRY_SIZE with 48. rewrite Hcount, R1, R2. cbn [mbind option_bind].
  assert (∀ k str, zget [bsp_id m; scala_version m; sourceroot m; semanticdb_root m] k = Some str → wf_str str →
    read_str (file s TARGET_META) (16 + i * 48 + k * 8) (16 + zlen ms * 48) = str) as Hread.
  { intros k str Hk Hw. destruct (Hs k str Hk) as (o & Q0 & Q1 & Ho & _ & Hsl). by eapply read_str_at. }
  rewrite (Hread 0 _ eq_refl W0), (Hread 1 _ eq_refl W1), (Hread 2 _ eq_refl W2), (Hread 3 _ eq_refl W3).
  by destruct m.
Qed.
End target_meta.

(** ** Symbol metadata *)

Definition symbol_meta_valid (n_docs : Z) (m : SymbolMeta) : Prop :=
  wf_str (sm_display m) ∧ wf_str (sm_owner m) ∧ wf_str (sm_package_name m) ∧
  inS 32 (sm_kind m) ∧ inU 32 (sm_properties m) ∧ inS 32 (def_packed_start m) ∧ inS 32 (def_packed_end m) ∧
  inS 32 (def_doc_ord m) ∧ opt_ord (def_doc_ord m) n_docs.

Section symbol_meta.
Context (s : SegmentReader) (ms : list SymbolMeta).
Let total := prefix_sum (data_len symbol_data) ms (zlen ms).
Context (Hf : file s SYMBOL_META = table_file symbol_data symbol_meta_row ms).
Context (Hcount : symbol_count s = zlen ms) (Hn : zlen ms < 2 ^ 31) (Htotal : total < 2 ^ 31).
Context (Hms : Forall (symbol_meta_valid (doc_count s)) ms).

Lemma symbol_meta_fields i m :
  zget ms i = Some m →
  let f := file s SYMBOL_META in let base := 16 + i * 48 in let blob := 16 + zlen ms * 48 in
  (∀ k str, zget [sm_display m; sm_owner m; sm_package_name m] k = Some str → ∃ o,
     read_i32 f (base + k * 8) = Some o ∧ read_i32 f (base + k * 8 + 4) = Some (str_len str) ∧
     0 ≤ o ∧ o + str_len str ≤ total ∧ slice f (blob + o) (str_len str) = Some (as_bytes str)) ∧
  read_i32 f (base + 24) = Some (sm_kind m) ∧ read_u32 f (base + 28) = Some (sm_properties m) ∧
  read_i32 f (base + 32) = Some (def_packed_start m) ∧ read_i32 f (base + 36) = Some (def_packed_end m) ∧
  read_i32 f (base + 40) = Some (def_doc_ord m).
Proof.
  intros Hi f base blob. assert (symbol_meta_valid (doc_count s) m) as (_ & _ & _ & V0 & V1 & V2 & V3 & V4 & _).
  { rewrite Forall_forall in Hms. eapply Hms, zget_elem_of, Hi. }
  destruct (table_file_row symbol_data symbol_meta_row 48 zlen_symbol_meta_row ms f Hf i m Hi) as (Hr & Hd & H0 & Hle).
  fold total in Hle. fold base blob in Hr, Hd. set (o := prefix_sum (data_len symbol_data) ms i) in *.
  unfold data_len, symbol_data in Hle. rewrite !zlen_app in Hle.
  pose proof (zlen_nonneg (as_bytes (sm_display m))). pose proof (zlen_nonneg (as_bytes (sm_owner m))).
  pose proof (zlen_nonneg (as_bytes (sm_package_name m))).
  unfold symbol_meta_row, symbol_data in *. rewrite <- !app_assoc in Hr. strs_split Hd. at_split Hr.
  unfold str_len in *. rewrite !i32_of in * by lia. rewrite ?zlen_put_i32, ?zlen_put_u32 in *.
  split; [|split_and!; at_read; done].
  intros k str Hk. pose proof (zget_Some_lt _ _ _ Hk) as Hk3.
  set (l0 := zlen (as_bytes (sm_display m))) in *. set (l1 := zlen (as_bytes (sm_owner m))) in *.
  assert (k = 0 ∨ k = 1 ∨ k = 2) as [->|[->| ->]] by (change (0 ≤ k < 3) in Hk3; lia);
    injection Hk as <-; [exists o|exists (o + l0)|exists (o + l0 + l1)]; str_ref.
Qed.

Lemma symbol_meta_pass i :
  0 ≤ i < zlen ms →
  (_ ← check_strs (file s SYMBOL_META) SYMBOL_META_FILE (16 + i * 48) 3 (16 + zlen ms * 48) total "symbol-meta str ref";
   d ← req_i32 (file s SYMBOL_META) (16 + i * 48 + 40) SYMBOL_META_FILE;
   check_ord_opt d (doc_count s) "symbol-meta def_doc_ord") = Ok tt.
Proof.
  intros Hi. destruct (zget_is_Some ms i Hi) as [m Hm].
  destruct (symbol_meta_fields i m Hm) as (Hs & _ & _ & _ & _ & R).
  eapply bind_step; [apply check_strs_pass|cbv beta].
  - intros k Hk. destruct (zget_is_Some [sm_display m; sm_owner m; sm_package_name m] k Hk) as [str Hstr].
    destruct (Hs k str Hstr) as (o & R0 & R1 & Ho & Hol & Hsl).
    exists o, (str_len str), (as_bytes str). split_and!; try done. apply zlen_nonneg.
  - pass. apply check_ord_opt_pass.
    assert (symbol_meta_valid (doc_count s) m) as Hv by (rewrite Forall_forall in Hms; eapply Hms, zget_elem_of, Hm).
    apply Hv.
Qed.

Lemma symbol_meta_reads i m : zget ms i = Some m → rd_symbol_meta s i = Some m.
Proof.
  intros Hm. destruct (symbol_meta_fields i m Hm) as (Hs & R1 & R2 & R3 & R4 & R5).
  assert (symbol_meta_valid (doc_count s) m) as (W0 & W1 & W2 & _).
  { rewrite Forall_forall in Hms. eapply Hms, zget_elem_of, Hm. }
  unfold rd_symbol_meta. change SYMBOL_META_ENTRY_SIZE with 48. rewrite Hcount, R1, R2, R3, R4, R5. cbn [mbind option_bind].
  assert (∀ k str, zget [sm_display m; sm_owner m; sm_package_name m] k = Some str → wf_str str →
    read_str (file s SYMBOL_META) (16 + i * 48 + k * 8) (16 + zlen ms * 48) = str) as Hread.
  { intros k str Hk Hw. destruct (Hs k str Hk) as (o & Q0 & Q1 & Ho & _ & Hsl). by eapply read_str_at. }
  rewrite (Hread 0 _ eq_refl W0), (Hread 1 _ eq_refl W1), (Hread 2 _ eq_refl W2). by destruct m.
Qed.
End symbol_meta.

(** ** The symbol dictionary *)

Definition symbol_valid (n_ref n_rename n_targets : Z) (y : SegmentSymbol) : Prop :=
  wf_str (ss_semantic_symbol y) ∧ inS 64 (ss_symbol_id y) ∧ inS 32 (ss_ref_group_ord y) ∧
  inS 32 (ss_rename_group_ord y) ∧ inS 32 (ss_def_target_ord y) ∧
  opt_ord (ss_ref_group_ord y) n_ref ∧ opt_ord (ss_rename_group_ord y) n_rename ∧
  opt_ord (ss_def_target_ord y) n_targets.

(** [symbol-index.bin] of the symbols in order. *)
Definition symbol_file (syms : list SegmentSymbol) (targets : list Z) : bytes :=
  let st := foldl (table_step symbol_bytes_of symbol_row) ([], []) syms in
  put_i64 (as_i64 (zlen syms)) ++ put_i64 (as_i64 (zlen targets)) ++ put_i64 (as_i64 (zlen st.1)) ++
  st.2 ++ concat (put_i64 <$> targets) ++ st.1.

Lemma serialize_symbol_index_eq data sorted syms :
  Forall2 (λ c s, zget (symbols data) c = Some s) sorted syms →
  serialize_symbol_index data sorted = Ok (symbol_file syms (targets data)).
Proof.
  intros Hs. destruct (push_symbols_table data sorted syms Hs) as (es & Hes & Hrows & Hl).
  unfold serialize_symbol_index, symbol_file. rewrite Hes. cbn [mbind result_bind fst snd].
  rewrite Hrows, Hl. apply Forall2_length in Hs. unfold zlen. by rewrite Hs.
Qed.

Section dictionary.
Context (s : SegmentReader) (syms : list SegmentSymbol) (tids : list Z).
Let blob := prefix_sum (data_len symbol_bytes_of) syms (zlen syms).
Context (Hf : file s SYMBOL_INDEX = symbol_file syms tids).
Context (Hsc : symbol_count s = zlen syms) (Htc : target_count s = zlen tids).
Context (Hn : zlen syms < 2 ^ 31) (Hnt : zlen tids < 2 ^ 31) (Hblob : blob < 2 ^ 31).
Context (Hsyms : Forall (symbol_valid (ref_group_count s) (rename_group_count s) (target_count s)) syms).
Context (Htids : Forall (inS 64) tids).
Context (Hsorted : StronglySorted (λ a b, str_ltb (ss_semantic_symbol a) (ss_semantic_symbol b) = true) syms).

Lemma dict_sizes : 0 ≤ blob ∧ 0 ≤ zlen syms ∧ 0 ≤ zlen tids.
Proof.
  split; [|split; apply zlen_nonneg]. apply prefix_sum_nonneg; [apply data_len_nonneg|apply zlen_nonneg].
Qed.

Lemma dict_file :
  let f := file s SYMBOL_INDEX in
  read_i64 f 0 = Some (zlen syms) ∧ read_i64 f 8 = Some (zlen tids) ∧ read_i64 f 16 = Some blob ∧
  zlen f = 24 + zlen syms * 32 + zlen tids * 8 + blob ∧
  (∀ t id, zget tids t = Some id → read_i64 f (24 + zlen syms * 32 + t * 8) = Some id) ∧
  ∀ i y, zget syms i = Some y →
    holds_at f (24 + i * 32) (symbol_row (prefix_sum (data_len symbol_bytes_of) syms i) y) ∧
    holds_at f (24 + zlen syms * 32 + zlen tids * 8 + prefix_sum (data_len symbol_bytes_of) syms i) (symbol_bytes_of y) ∧
    0 ≤ prefix_sum (data_len symbol_bytes_of) syms i ∧
    prefix_sum (data_len symbol_bytes_of) syms i + data_len symbol_bytes_of y ≤ blob.
Proof.
  cbv zeta. pose proof dict_sizes as (? & ? & ?).
  destruct (table_total symbol_bytes_of symbol_row 32 syms) as [Hb Hr Hrows Hdata]; [by intros; apply zlen_symbol_row|].
  fold blob in Hb. unfold symbol_file in Hf. rewrite Hb, !i64_of in Hf by lia.
  set (st := foldl _ _ _) in *. set (f := file s SYMBOL_INDEX) in *.
  assert (zlen (concat (put_i64 <$> tids)) = zlen tids * 8) as Ht by (apply zlen_rows; intros; apply zlen_put_i64).
  pose proof (holds_at_self f) as HX. rewrite Hf in HX at 2. at_split HX. rewrite !zlen_put_i64, ?Hr, ?Ht in *.
  split_and!; try (at_read; unfold inS; lia).
  - rewrite Hf. autorewrite with zlen. rewrite Hr, Ht, Hb. lia.
  - intros t id Hti.
    match goal with K : holds_at _ _ (concat _) |- _ => eapply (holds_at_row put_i64 8) in K; [|intros; apply zlen_put_i64|exact Hti] end.
    at_read. rewrite Forall_forall in Htids. eapply Htids, zget_elem_of, Hti.
  - intros i y Hi. pose proof (zget_Some_lt _ _ _ Hi) as Hlt.
    pose proof (prefix_sum_next (data_len symbol_bytes_of) (data_len_nonneg _) syms i y Hi).
    pose proof (prefix_sum_nonneg (data_len symbol_bytes_of) (data_len_nonneg _) syms i ltac:(lia)).
    split; [|split; [|done]].
    + eapply holds_at_trans; [eassumption|]. by apply Hrows.
    + replace (24 + zlen syms * 32 + zlen tids * 8) with (0 + 8 + 8 + 8 + zlen syms * 32 + zlen tids * 8) by lia.
      eapply holds_at_trans; [eassumption|]. by apply Hdata.
Qed.

(** The fields of an entry. *)
Lemma dict_entry i y :
  zget syms i = Some y →
  let f := file s SYMBOL_INDEX in let b := 24 + i * 32 in let o := prefix_sum (data_len symbol_bytes_of) syms i in
  read_i32 f b = Some o ∧ read_i32 f (b + 4) = Some (str_len (ss_semantic_symbol y)) ∧
  read_i64 f (b + 8) = Some (ss_symbol_id y) ∧ read_i32 f (b + 16) = Some (ss_ref_group_ord y) ∧
  read_i32 f (b + 20) = Some (ss_rename_group_ord y) ∧ read_i32 f (b + 24) = Some (ss_def_target_ord y) ∧
  slice f (24 + zlen syms * 32 + zlen tids * 8 + o) (str_len (ss_semantic_symbol y)) =
    Some (as_bytes (ss_semantic_symbol y)) ∧
  0 ≤ o ∧ 0 ≤ str_len (ss_semantic_symbol y) ∧ o + str_len (ss_semantic_symbol y) ≤ blob ∧
  symbol_valid (ref_group_count s) (rename_group_count s) (target_count s) y.
Proof.
  intros Hi f b o. destruct dict_file as (_ & _ & _ & _ & _ & Hrow). destruct (Hrow i y Hi) as (Hr & Hd & H0 & Hle).
  fold f b o in Hr, Hd, H0, Hle. apply holds_at_slice in Hd.
  assert (symbol_valid (ref_group_count s) (rename_group_count s) (target_count s) y) as Hv.
  { rewrite Forall_forall in Hsyms. eapply Hsyms, zget_elem_of, Hi. }
  pose proof Hv as (_ & Vid & Vr & Vn & Vt & _). unfold data_len, symbol_bytes_of in *.
  fold (str_len (ss_semantic_symbol y)) in *. pose proof (zlen_nonneg (as_bytes (ss_semantic_symbol y))) as Hl.
  fold (str_len (ss_semantic_symbol y)) in Hl. unfold symbol_row in Hr. rewrite !i32_of in Hr by lia.
  at_split Hr. rewrite ?zlen_put_i32, ?zlen_put_i64 in *.
  split_and!; try done; at_read; try done; unfold inS; lia.
Qed.

Lemma symbol_dict_pass : validate_symbol_dict s blob = Ok tt.
Proof.
  unfold validate_symbol_dict. rewrite Hsc, Htc.
  destruct (chain_total (λ a b, bytes_ltb a b = true) (validate_symbol_step s (24 + zlen syms * 32 + zlen tids * 8) blob)
    (symbol_bytes_of <$> syms) 0) as [st Hst].
  - by apply StronglySorted_fmap.
  - intros prev i k Hk Hp. rewrite zget_fmap in Hk. destruct (zget syms i) as [y|] eqn:Ey; [|done]. injection Hk as <-.
    pose proof (dict_entry i y Ey) as He. cbv zeta in He.
    destruct He as (R0 & R1 & _ & R2 & R3 & R4 & Hs & Ho & Hl & Hol & (Hwf & _ & _ & _ & _ & Vr & Vn & Vt)).
    rewrite Z.add_0_l. unfold validate_symbol_step. do 2 pass.
    eapply bind_step; [apply str_slice_pass; [lia|lia|lia|exact Hs]|cbv beta].
    eapply bind_step; [by rewrite from_utf8_as_bytes by done|cbv beta].
    eapply (bind_step _ _ tt); [destruct prev as [p|]; [apply expect_pass; by apply Hp|done]|cbv beta].
    pass. eapply bind_step; [apply check_ord_opt_pass; exact Vr|cbv beta].
    pass. eapply bind_step; [apply check_ord_opt_pass; exact Vn|cbv beta].
    pass. eapply bind_step; [apply check_ord_opt_pass; exact Vt|cbv beta]. done.
  - rewrite zlen_fmap in Hst. by rewrite Hst.
Qed.

Lemma symbol_reads i y :
  zget syms i = Some y →
  semantic_symbol_of s i = Some (ss_semantic_symbol y) ∧
  symbol_view s i = Some (mkSymbolView (ss_symbol_id y) (ss_ref_group_ord y) (ss_rename_group_ord y) (ss_def_target_ord y)).
Proof.
  intros Hy. pose proof (dict_entry i y Hy) as He. cbv zeta in He.
  destruct He as (R0 & R1 & R5 & R2 & R3 & R4 & Hs & Ho & Hl & Hol & (Hwf & _)).
  unfold semantic_symbol_of, symbol_view, symbol_entry_base, sym_blob_start. change SYMBOL_ENTRY_SIZE with 32.
  rewrite Hsc, Htc, R5, R2, R3, R4. split; [|done]. eapply blob_str_at; [exact R0|exact R1|lia|lia|exact Hs|done].
Qed.
End dictionary.

(** ** Search rows *)

Definition sort_rows (rows : list SearchRow) : list SearchRow :=
  sort_by (λ a b, str_leb (normalized_name a) (normalized_name b)) rows.

Section search_rows.
Context (s : SegmentReader) (c2s : list Z) (rows : list SearchRow).
Let total := prefix_sum (data_len search_data) rows (zlen rows).
Context (Hf : file s SEARCH = table_file search_data (search_bytes c2s) rows).
Context (Hn : zlen rows < 2 ^ 31) (Htotal : total < 2 ^ 31) (Hsc : symbol_count s < 2 ^ 31).
Context (Hc2s_range : ∀ c p, zget c2s c = Some p → 0 ≤ p < symbol_count s).
Context (Hrows : Forall (λ r, wf_str (normalized_name r) ∧ 0 ≤ sr_symbol_ord r < zlen c2s) rows).
Context (Hsorted : StronglySorted (λ a b, str_leb (normalized_name a) (normalized_name b) = true) rows).

Lemma search_fields i r :
  zget rows i = Some r →
  let f := file s SEARCH in let base := 16 + i * 16 in let o := prefix_sum (data_len search_data) rows i in
  read_i32 f base = Some o ∧ read_i32 f (base + 4) = Some (str_len (normalized_name r)) ∧
  (∃ p, zget c2s (sr_symbol_ord r) = Some p ∧ read_i32 f (base + 8) = Some p ∧ 0 ≤ p < symbol_count s) ∧
  slice f (16 + zlen rows * 16 + o) (str_len (normalized_name r)) = Some (as_bytes (normalized_name r)) ∧
  0 ≤ o ∧ 0 ≤ str_len (normalized_name r) ∧ o + str_len (normalized_name r) ≤ total ∧ wf_str (normalized_name r).
Proof.
  intros Hi f base o.
  assert (wf_str (normalized_name r) ∧ 0 ≤ sr_symbol_ord r < zlen c2s) as [Hwf Hsym].
  { rewrite Forall_forall in Hrows. eapply Hrows, zget_elem_of, Hi. }
  destruct (zget_is_Some c2s (sr_symbol_ord r) Hsym) as [p Hp]. pose proof (Hc2s_range _ _ Hp).
  destruct (table_file_row search_data (search_bytes c2s) 16 (zlen_search_bytes c2s) rows f Hf i r Hi) as (Hr & Hd & H0 & Hle).
  fold total in Hle. fold base o in Hr, Hd, H0, Hle. apply holds_at_slice in Hd.
  unfold data_len, search_data in *. fold (str_len (normalized_name r)) in *.
  pose proof (zlen_nonneg (as_bytes (normalized_name r))) as Hl. fold (str_len (normalized_name r)) in Hl.
  unfold search_bytes in Hr. rewrite Hp in Hr. cbn [default] in Hr. rewrite !i32_of in Hr by lia.
  at_split Hr. rewrite ?zlen_put_i32 in *.
  split; [at_read; unfold inS; lia|]. split; [at_read; unfold inS; lia|].
  split; [exists p; split_and!; try done; try lia; at_read; unfold inS; lia|]. split_and!; try done.
Qed.

Lemma search_rows_pass :
  ∃ st, fold_r (validate_search_step s (file s SEARCH) (16 + zlen rows * 16) total) None (seqZ 0 (zlen rows)) = Ok st.
Proof.
  rewrite <- (zlen_fmap (λ r, as_bytes (normalized_name r)) rows).
  apply (chain_total (λ a b, bytes_leb a b = true)).
  - by apply StronglySorted_fmap.
  - intros prev i k Hk Hp. rewrite zget_fmap in Hk. destruct (zget rows i) as [r|] eqn:Er; [|done]. injection Hk as <-.
    pose proof (search_fields i r Er) as He. cbv zeta in He.
    destruct He as (R0 & R1 & (p & Hc & R2 & Hpr) & Hs & Ho & Hl & Hol & Hwf).
    rewrite Z.add_0_l, zlen_fmap. unfold validate_search_step. do 2 pass.
    eapply bind_step; [apply str_slice_pass; [lia|lia|lia|exact Hs]|cbv beta].
    eapply (bind_step _ _ tt); [destruct prev as [q|]; [apply expect_pass; by apply Hp|done]|cbv beta].
    do 2 pass. done.
Qed.

Lemma search_reads i r :
  zget rows i = Some r → ∃ p, zget c2s (sr_symbol_ord r) = Some p ∧ search_row s i = Some (normalized_name r, p).
Proof.
  intros Hr. pose proof (search_fields i r Hr) as He. cbv zeta in He.
  destruct He as (R0 & R1 & (p & Hc & R2 & Hpr) & Hs & Ho & Hl & Hol & Hwf).
  exists p. split; [done|]. pose proof (zget_Some_lt _ _ _ Hr) as Hlt.
  destruct (table_file_head search_data (search_bytes c2s) 16 (zlen_search_bytes c2s) rows _ Hf Hn Htotal) as (H0 & _).
  unfold search_row, search_row_count. rewrite !as_usize_nonneg by lia. rewrite H0. cbn [mbind option_bind].
  rewrite as_usize_nonneg by lia. rewrite R2. cbn [mbind option_bind]. do 2 f_equal.
  by eapply read_str_at.
Qed.
End search_rows.
