(* ===== verification/SegValid.v ===== *)
(** What the writer's own validation guarantees: inputs of their Rust types that
    [validate] accepts satisfy the conditions the layout and the reader need. *)

From S2P Require Import Prelude RustStr IndexModel Bitset StoreFormat SegReader SegSafe SegWriter SegLayout SegTables SegPostings SegDict.

From Stdlib Require Import Sorting.Sorted.

Open Scope Z_scope.

(** ** The Rust types of the input *)

Definition span_typed (sp : Span) : Prop :=
  inU 32 (start_line sp) ∧ inU 32 (start_char sp) ∧ inU 32 (end_line sp) ∧ inU 32 (end_char sp).
Definition group_occ_typed (o : GroupOcc) : Prop :=
  inS 32 (go_doc_ord o) ∧ inS 32 (go_doc_epoch o) ∧ inS 32 (go_target_ord o) ∧ span_typed (go_span o) ∧
  inS 32 (go_flags o).
Definition doc_occ_typed (o : DocOcc) : Prop :=
  inS 32 (do_symbol_ord o) ∧ span_typed (do_span o) ∧ inS 32 (do_flags o).
Definition doc_typed (d : SegmentDoc) : Prop :=
  wf_str (doc_uri d) ∧ inS 64 (doc_id d) ∧ inS 32 (doc_epoch d) ∧ inS 32 (doc_target_ord d).
Definition symbol_typed (y : SegmentSymbol) : Prop :=
  wf_str (ss_semantic_symbol y) ∧ inS 64 (ss_symbol_id y) ∧ inS 32 (ss_ref_group_ord y) ∧
  inS 32 (ss_rename_group_ord y) ∧ inS 32 (ss_def_target_ord y).
Definition profile_typed (p : SegRenameProfile) : Prop :=
  inS 32 (rp_editable_occurrence_count p) ∧ inS 64 (rp_unsafe_reason_mask p).
Definition symbol_meta_typed (m : SymbolMeta) : Prop :=
  wf_str (sm_display m) ∧ wf_str (sm_owner m) ∧ wf_str (sm_package_name m) ∧
  inS 32 (sm_kind m) ∧ inU 32 (sm_properties m) ∧ inS 32 (def_packed_start m) ∧ inS 32 (def_packed_end m) ∧
  inS 32 (def_doc_ord m).
Definition search_row_typed (r : SearchRow) : Prop := wf_str (normalized_name r) ∧ inS 32 (sr_symbol_ord r).

Record data_typed (data : SegmentData) : Prop := {
  ty_docs : Forall doc_typed (docs data);
  ty_targets : Forall (inS 64) (targets data);
  ty_symbols : Forall symbol_typed (symbols data);
  ty_ref : Forall (Forall group_occ_typed) (ref_occurrences data);
  ty_def : Forall (Forall group_occ_typed) (def_occurrences data);
  ty_rename : Forall (Forall group_occ_typed) (rename_occurrences data);
  ty_profiles : Forall profile_typed (rename_profiles data);
  ty_doc_occs : Forall (Forall doc_occ_typed) (doc_occurrences data);
  ty_target_meta : Forall target_meta_valid (target_meta data);
  ty_symbol_meta : Forall symbol_meta_typed (symbol_meta data);
  ty_search : Forall search_row_typed (search_rows data)
}.

#[export] Instance span_typed_dec sp : Decision (span_typed sp).
Proof. unfold span_typed. apply _. Defined.
#[export] Instance group_occ_typed_dec o : Decision (group_occ_typed o).
Proof. unfold group_occ_typed. apply _. Defined.
#[export] Instance doc_occ_typed_dec o : Decision (doc_occ_typed o).
Proof. unfold doc_occ_typed. apply _. Defined.
#[export] Instance doc_typed_dec d : Decision (doc_typed d).
Proof. unfold doc_typed. apply _. Defined.
#[export] Instance symbol_typed_dec y : Decision (symbol_typed y).
Proof. unfold symbol_typed. apply _. Defined.
#[export] Instance profile_typed_dec q : Decision (profile_typed q).
Proof. unfold profile_typed. apply _. Defined.
#[export] Instance target_meta_valid_dec m : Decision (target_meta_valid m).
Proof. unfold target_meta_valid. apply _. Defined.
#[export] Instance symbol_meta_typed_dec m : Decision (symbol_meta_typed m).
Proof. unfold symbol_meta_typed. apply _. Defined.
#[export] Instance search_row_typed_dec r : Decision (search_row_typed r).
Proof. unfold search_row_typed. apply _. Defined.

(** ** Inverting [validate] *)

Lemma require_Ok b d u : require b d = Ok u → b = true.
Proof. unfold require. by destruct b. Qed.

Lemma ord_in_true v n : ord_in v n = true ↔ 0 ≤ v < n.
Proof. unfold ord_in. rewrite andb_true_iff, Z.leb_le, Z.ltb_lt. done. Qed.
Lemma ord_opt_true v n : ord_opt v n = true ↔ opt_ord v n.
Proof. unfold ord_opt, opt_ord. rewrite orb_true_iff, Z.eqb_eq, ord_in_true. done. Qed.

Lemma span_ok_fits sp : span_typed sp → span_ok sp = true ↔ span_fits sp.
Proof.
  unfold span_ok, span_fits, span_typed, inU, pack_start, pack_end. intros (?&?&?&?).
  rewrite !andb_true_iff, !Z.leb_le. intuition lia.
Qed.

(** The conditions the checks of [validate] establish. *)
Record data_valid (data : SegmentData) : Prop := {
  va_def : zlen (def_occurrences data) = zlen (ref_occurrences data);
  va_profiles : zlen (rename_profiles data) = zlen (rename_occurrences data);
  va_doc_occs : zlen (doc_occurrences data) = zlen (docs data);
  va_target_meta : zlen (target_meta data) = 0 ∨ zlen (target_meta data) = zlen (targets data);
  va_symbol_meta : zlen (symbol_meta data) = 0 ∨ zlen (symbol_meta data) = zlen (symbols data);
  va_uris : Forall (λ d, doc_uri d ≠ []) (docs data);
  va_docs : Forall (doc_valid (zlen (targets data))) (docs data);
  va_groups grps : grps ∈ [ref_occurrences data; def_occurrences data; rename_occurrences data] →
    Forall (Forall (occ_valid (zlen (docs data)) (zlen (targets data)) (target_word_count (zlen (targets data))))) grps;
  va_doc_occ : Forall (Forall (doc_occ_valid (zlen (symbols data)))) (doc_occurrences data);
  va_symbols : Forall (symbol_valid (zlen (ref_occurrences data)) (zlen (rename_occurrences data)) (zlen (targets data)))
                 (symbols data);
  va_search : Forall (λ r, wf_str (normalized_name r) ∧ 0 ≤ sr_symbol_ord r < zlen (symbols data)) (search_rows data);
  va_metas : Forall (symbol_meta_valid (zlen (docs data))) (symbol_meta data)
}.

Lemma group_occ_valid n_docs n_targets o u :
  0 ≤ n_targets → group_occ_typed o → validate_group_occ n_docs n_targets o = Ok u →
  occ_valid n_docs n_targets (target_word_count n_targets) o.
Proof.
  intros Hn (T0 & T1 & T2 & T3 & T4) H. unfold validate_group_occ in H.
  apply bind_Ok in H as (? & H1%require_Ok%ord_in_true & H). apply bind_Ok in H as (? & H2%require_Ok%ord_in_true & H).
  apply require_Ok, span_ok_fits in H; [|done]. destruct (span_fits_packs _ H) as (? & ? & _).
  pose proof (target_word_count_bound n_targets Hn). pose proof H as (_ & _ & _ & _ & ?).
  unfold occ_valid, occ_fits. split_and!; try done; lia.
Qed.

Lemma for_each_each {A : Type} (f : A → outcome unit) (P : A → Prop) l u :
  for_each f l = Ok u → (∀ x v, x ∈ l → f x = Ok v → P x) → Forall P l.
Proof.
  intros H HP. apply Forall_forall. intros x Hx. destruct u. apply (HP x tt Hx).
  rewrite for_each_Ok in H. rewrite Forall_forall in H. by apply H.
Qed.

Lemma validate_valid data u : data_typed data → validate data = Ok u → data_valid data.
Proof.
  intros [Td Tt Ts Tr Tf Tn Tp To Tm Ty Tw] H. unfold validate in H. cbv zeta in H.
  do 5 (apply bind_Ok in H as ([] & ?%require_Ok & H)).
  apply bind_Ok in H as ([] & Hdocs & H). apply bind_Ok in H as ([] & Hgroups & H).
  apply bind_Ok in H as ([] & Hocc & H). apply bind_Ok in H as ([] & Hsym & H).
  apply bind_Ok in H as ([] & Hrow & Hmeta). zify_bools.
  assert (∀ d, d ∈ docs data → doc_uri d ≠ [] ∧ 0 ≤ doc_target_ord d < zlen (targets data)) as Hd.
  { apply Forall_forall. eapply for_each_each; [exact Hdocs|]. intros d v _ Hv. unfold validate_doc in Hv.
    apply bind_Ok in Hv as (? & Hne%require_Ok & Ht%require_Ok%ord_in_true). split; [|done].
    apply negb_true_iff, bool_decide_eq_false in Hne. done. }
  split; try lia.
  - apply Forall_forall. intros d Hin. by apply Hd.
  - rewrite Forall_forall in Td |- *. intros d Hin. destruct (Td d Hin) as (? & ? & ? & ?). destruct (Hd d Hin).
    unfold doc_valid. split_and!; try done; lia.
  - intros grps Hin. assert (Forall (Forall group_occ_typed) grps) as Tg by (repeat (apply elem_of_cons in Hin as [->|Hin]; [done|]); by apply elem_of_nil in Hin).
    rewrite for_each_Ok, Forall_forall in Hgroups. specialize (Hgroups grps Hin).
    eapply for_each_each; [exact Hgroups|]. intros g v Hg Hv. eapply for_each_each; [exact Hv|].
    intros o w Ho Hw. apply (group_occ_valid _ _ _ _ (zlen_nonneg _)) in Hw; [done|].
    rewrite Forall_forall in Tg. specialize (Tg g Hg). rewrite Forall_forall in Tg. by apply Tg.
  - eapply for_each_each; [exact Hocc|]. intros g v Hg Hv. eapply for_each_each; [exact Hv|]. intros o w Ho Hw.
    rewrite Forall_forall in To. specialize (To g Hg). rewrite Forall_forall in To. destruct (To o Ho) as (? & ? & ?).
    unfold validate_doc_occ in Hw. apply bind_Ok in Hw as (? & Hs%require_Ok%ord_in_true & Hsp%require_Ok).
    apply span_ok_fits in Hsp; [|done]. unfold doc_occ_valid. split_and!; try done; lia.
  - eapply for_each_each; [exact Hsym|]. intros y v Hy Hv. rewrite Forall_forall in Ts.
    destruct (Ts y Hy) as (? & ? & ? & ? & ?). unfold validate_symbol in Hv.
    apply bind_Ok in Hv as (? & V1%require_Ok%ord_opt_true & Hv). apply bind_Ok in Hv as (? & V2%require_Ok%ord_opt_true & Hv).
    apply require_Ok, ord_opt_true in Hv. by unfold symbol_valid.
  - eapply for_each_each; [exact Hrow|]. intros r v Hr Hv%require_Ok%ord_in_true.
    rewrite Forall_forall in Tw. destruct (Tw r Hr). done.
  - eapply for_each_each; [exact Hmeta|]. intros m v Hm Hv%require_Ok%ord_opt_true.
    rewrite Forall_forall in Ty. destruct (Ty m Hm) as (? & ? & ? & ? & ? & ? & ? & ?).
    by unfold symbol_meta_valid.
Qed.

(** A refused input is refused with [InvalidInput]. *)
Definition invalid_input {A : Type} (m : outcome A) : Prop := ∃ d, m = Err (Fails (InvalidInput d)).

Lemma require_outcome b d : (∃ u, require b d = Ok u) ∨ invalid_input (require b d).
Proof. unfold require. destruct b; [left|right]; by eexists. Qed.

Lemma bind_outcome {A : Type} (m : outcome unit) (f : unit → outcome A) :
  (∃ u, m = Ok u) ∨ invalid_input m → (∃ a, f tt = Ok a) ∨ invalid_input (f tt) →
  (∃ a, m ≫= f = Ok a) ∨ invalid_input (m ≫= f).
Proof. intros [[[] ->]|[d ->]] Hf; [done|]. right. by exists d. Qed.

Lemma for_each_outcome {A : Type} (f : A → outcome unit) l :
  (∀ x, (∃ u, f x = Ok u) ∨ invalid_input (f x)) → (∃ u, for_each f l = Ok u) ∨ invalid_input (for_each f l).
Proof.
  intros Hf. induction l as [|x l IH]; [left; by eexists|]. apply bind_outcome; [apply Hf|exact IH].
Qed.

Lemma validate_outcome data : (∃ u, validate data = Ok u) ∨ invalid_input (validate data).
Proof.
  unfold validate. cbv zeta.
  repeat first [apply bind_outcome; [first [apply require_outcome|apply for_each_outcome; intros ?]|]
               |apply for_each_outcome; intros ?].
  all: repeat first [apply require_outcome|apply bind_outcome|apply for_each_outcome; intros ?].
Qed.

(** The reader accepts the header and the checksum list the writer emits, over any directory
    that holds the files. *)

Open Scope Z_scope.

Section files.
Context (crc32c : bytes → Z) `{!DebugStr} (Hcrc : ∀ b, inU 32 (crc32c b)).

Lemma crc_u64 b : inU 64 (crc32c b).
Proof. specialize (Hcrc b). unfold inU in *. lia. Qed.

(** ** Header *)

(** The first 56 bytes. *)
Definition header_prefix (id created rg rn dc oc : Z) : bytes :=
  put_u32 MAGIC ++ put_u16 VERSION ++ put_u16 0 ++ put_u64 id ++ put_i64 created ++ put_u64 rg ++ put_u64 rn ++
  put_u64 dc ++ put_u64 oc.

Lemma zlen_header_prefix id created rg rn dc oc : zlen (header_prefix id created rg rn dc oc) = 56.
Proof. unfold header_prefix. by autorewrite with zlen. Qed.

Lemma serialize_header_eq id created rg rn dc oc :
  serialize_header crc32c id created rg rn dc oc =
    Ok (header_prefix id created rg rn dc oc ++ put_u64 (crc32c (header_prefix id created rg rn dc oc))).
Proof.
  unfold serialize_header. cbv zeta. set (p := header_prefix id created rg rn dc oc).
  assert (put_u32 MAGIC ++ put_u16 VERSION ++ put_u16 0 ++ put_u64 id ++ put_i64 created ++ put_u64 rg ++ put_u64 rn ++
    put_u64 dc ++ put_u64 oc ++ put_u64 0 = p ++ put_u64 0) as ->.
  { unfold p, header_prefix. by rewrite <- !app_assoc. }
  pose proof (zlen_header_prefix id created rg rn dc oc) as Hl. fold p in Hl.
  assert (slice (p ++ put_u64 0) 0 HEADER_CHECKSUM_OFFSET = Some p) as ->.
  { apply slice_Some. exists [], (put_u64 0). split_and!; done. }
  cbn [unwrap ok_or mbind result_bind]. unfold set_u64.
  rewrite zlen_app, Hl, zlen_put_u64. cbn [andb].
  change HEADER_CHECKSUM_OFFSET with 56. change ((0 <=? 56) && (56 + 8 <=? 56 + 8)) with true. cbn iota.
  assert (length p = 56%nat) as Hn by (unfold zlen in Hl; lia).
  rewrite take_app_length' by (by rewrite Hn). rewrite drop_ge by (rewrite length_app, Hn; done).
  by rewrite app_nil_r.
Qed.

Lemma open_header_pass mapped id created rg rn dc oc :
  inU 64 id → inS 64 created → inU 32 rg → inU 32 rn → inU 32 dc → inU 64 oc →
  let p := header_prefix id created rg rn dc oc in
  open_header crc32c mapped (p ++ put_u64 (crc32c p)) = Ok (mkReader mapped id created rg rn dc oc 0 0 0 []).
Proof.
  intros Hid Hcr Hrg Hrn Hdc Hoc p. pose proof (zlen_header_prefix id created rg rn dc oc) as Hl. fold p in Hl.
  set (h := p ++ put_u64 (crc32c p)). assert (zlen h = 64) as Hh by (unfold h; rewrite zlen_app, Hl; done).
  pose proof (holds_at_self h) as HX. unfold h in HX at 2. apply holds_at_app in HX as [Hp Hc]. rewrite Hl in Hc.
  assert (slice h 0 56 = Some p) as Hs by (apply holds_at_slice in Hp; by rewrite Hl in Hp).
  pose proof Hp as HX. unfold p, header_prefix in HX. at_split HX.
  rewrite ?zlen_put_u32, ?zlen_put_u16, ?zlen_put_u64, ?zlen_put_i64 in *.
  assert (∀ v, inU 32 v → inU 64 v) as Hw by (unfold inU; intros; lia).
  assert (read_u32 h 0 = Some MAGIC) as R0 by (at_read; by vm_compute).
  assert (read_u16 h 4 = Some VERSION) as R1 by (at_read; by vm_compute).
  assert (read_u16 h 6 = Some 0) as R2 by (at_read; by vm_compute).
  assert (read_u64 h 56 = Some (crc32c p)) as R3 by (at_read; apply crc_u64).
  assert (read_u64 h 8 = Some id) as R4 by (at_read; done).
  assert (read_i64 h 16 = Some created) as R5 by (at_read; done).
  assert (read_u64 h 24 = Some rg) as R6 by (at_read; auto).
  assert (read_u64 h 32 = Some rn) as R7 by (at_read; auto).
  assert (read_u64 h 40 = Some dc) as R8 by (at_read; auto).
  assert (read_u64 h 48 = Some oc) as R9 by (at_read; auto).
  assert (∀ off v what, read_u64 h off = Some v → inU 32 v → header_count h off what = Ok v) as Hcount.
  { intros off v what Hr Hv. unfold header_count. rewrite Hr. cbn [unwrap ok_or mbind result_bind].
    destruct (Z.leb_spec v u32_max); [done|]. unfold inU, u32_max in *. lia. }
  unfold open_header. change HEADER_CHECKSUM_OFFSET with 56. change HEADER_SIZE with 64. rewrite Hh, Z.eqb_refl.
  rewrite R0, R1, R2, R3, Hs, R4, R5, R9. cbn [negb unwrap ok_or mbind result_bind]. rewrite !Z.eqb_refl.
  cbn [negb unwrap ok_or mbind result_bind].
  by rewrite (Hcount 24 rg), (Hcount 32 rn), (Hcount 40 dc).
Qed.

(** ** Checksums *)

(** The entry of one file. *)
Definition checksum_entry (f : list Z * bytes) : bytes :=
  put_i32 (as_i32 (str_len f.1)) ++ as_bytes f.1 ++ put_u64 (crc32c f.2).
Definition entry_len (f : list Z * bytes) : Z := zlen (checksum_entry f).

Lemma entry_len_eq f : entry_len f = 12 + str_len f.1.
Proof. unfold entry_len, checksum_entry. autorewrite with zlen. unfold str_len. lia. Qed.

(** Entry [i] of a sequence of entries. *)
Lemma holds_at_entries b off fs i f :
  zget fs i = Some f → holds_at b off (concat (checksum_entry <$> fs)) →
  holds_at b (off + prefix_sum entry_len fs i) (checksum_entry f).
Proof.
  intros Hi Hb. pose proof (zget_Some_lt _ _ _ Hi) as Hlt. unfold zget in Hi.
  destruct (Z.leb_spec 0 i); [|done]. rewrite <- (take_drop_middle _ _ _ Hi) in Hb.
  rewrite fmap_app, concat_app in Hb. apply holds_at_app in Hb as [_ Hb]. cbn [fmap list_fmap concat] in Hb.
  apply holds_at_app in Hb as [Hb _].
  assert (prefix_sum entry_len fs i = zlen (concat (checksum_entry <$> take (Z.to_nat i) fs))) as ->; [|done].
  unfold prefix_sum. clear. induction (take (Z.to_nat i) fs) as [|g gs IH]; [done|]. cbn [fmap list_fmap concat foldr].
  by rewrite zlen_app, IH.
Qed.

Lemma verify_checksums_pass (fs : list (list Z * bytes)) :
  fs.*1 = CHECKSUMMED_FILES → prefix_sum entry_len fs (zlen fs) < 2 ^ 31 →
  Forall (λ f, str_len f.1 < 2 ^ 31) fs →
  verify_checksums crc32c (serialize_checksums crc32c fs) (fs.*2) = Ok tt.
Proof.
  intros Hnames Hsize Hlens. assert (zlen fs = 14) as Hfs by (rewrite <- (zlen_fmap fst), Hnames; done).
  set (cs := serialize_checksums crc32c fs).
  pose proof (holds_at_self cs) as HX. unfold cs in HX at 2. unfold serialize_checksums in HX. rewrite i64_of in HX by lia.
  apply holds_at_app in HX as [H0 He]. rewrite zlen_put_i64 in He.
  assert (read_i64 cs 0 = Some 14) as R0 by (rewrite <- Hfs; at_read; unfold inS; lia).
  assert (∀ f, 0 ≤ entry_len f) as Hnn by (intros; apply zlen_nonneg).
  assert (zlen cs = 8 + prefix_sum entry_len fs (zlen fs)) as Hcl.
  { unfold cs, serialize_checksums. rewrite zlen_app, zlen_put_i64. f_equal.
    change ((λ f, put_i32 (as_i32 (str_len f.1)) ++ as_bytes f.1 ++ put_u64 (crc32c f.2)) <$> fs)
      with (checksum_entry <$> fs). rewrite zlen_concat, prefix_sum_all, prefix_sum_all.
    by rewrite <- list_fmap_compose. }
  unfold verify_checksums. rewrite (req_i64_pass _ _ _ _ R0). cbn [mbind result_bind].
  change ((14 <? 0) || negb (as_usize 14 =? zlen CHECKSUMMED_FILES)) with false. cbn iota.
  rewrite <- Hnames.
  destruct (fold_r_total (λ pre off, off = 8 + prefix_sum entry_len fs (zlen pre))
    (checksum_step crc32c cs fs.*2) 8 (imap pair fs.*1)) as (off & Hoff & ->); [done| |].
  - intros pre [i name] rest off Hsplit ->. apply imap_pair_split in Hsplit as [-> Hs].
    assert (zget fs.*1 (zlen pre) = Some name) as Hi.
    { rewrite Hs, zget_app_r by (rewrite zlen_fmap; lia). by rewrite zlen_fmap, Z.sub_diag. }
    rewrite zget_fmap in Hi. destruct (zget fs (zlen pre)) as [f|] eqn:Ef; [|done]. injection Hi as <-.
    assert (str_len f.1 < 2 ^ 31) as Hfl by (rewrite Forall_forall in Hlens; eapply Hlens, zget_elem_of, Ef).
    pose proof (zlen_nonneg (as_bytes f.1)) as Hf0. fold (str_len f.1) in Hf0.
    pose proof (prefix_sum_next entry_len Hnn fs _ _ Ef) as Hnext. rewrite entry_len_eq in Hnext.
    pose proof (prefix_sum_nonneg entry_len Hnn fs (zlen pre) (zlen_nonneg _)).
    pose proof (holds_at_entries cs 8 fs _ _ Ef He) as Hat. unfold checksum_entry in Hat.
    set (o := 8 + prefix_sum entry_len fs (zlen pre)) in *. rewrite i32_of in Hat by lia. at_split Hat.
    rewrite zlen_put_i32 in *. fold (str_len f.1) in *.
    match goal with K : holds_at _ _ (as_bytes _) |- _ => apply holds_at_slice in K; rename K into Hname end. fold (str_len f.1) in Hname.
    assert (read_i32 cs o = Some (str_len f.1)) as R1 by (at_read; unfold inS; lia).
    assert (read_u64 cs (o + 4 + str_len f.1) = Some (crc32c f.2)) as R2 by (at_read; apply crc_u64).
    exists (o + 4 + str_len f.1 + 8). split.
    + unfold checksum_step. rewrite (req_i32_pass _ _ _ _ R1). cbn [mbind result_bind].
      destruct (Z.ltb_spec (str_len f.1) 0); [lia|].
      assert (∀ a b, a + b < 2 ^ 64 → checked_add a b = Some (a + b)) as Hadd.
      { intros a b Hab. unfold checked_add. by destruct (Z.ltb_spec (a + b) (2 ^ 64)); [|lia]. }
      rewrite (Hadd o 4) by lia. cbn [mbind result_bind ok_or]. rewrite (Hadd (o + 4)) by lia. cbn [mbind result_bind ok_or].
      replace (o + 4 + str_len f.1 - (o + 4)) with (str_len f.1) by lia. rewrite Hname. cbn [mbind result_bind ok_or].
      rewrite bool_decide_true by done. cbn [negb]. rewrite (req_u64_pass _ _ _ _ R2). cbn [mbind result_bind].
      rewrite (Hadd (o + 4 + str_len f.1)) by lia. cbn [mbind result_bind ok_or].
      assert (fs.*2 !! length pre = Some f.2) as ->.
      { rewrite list_lookup_fmap. unfold zlen in Ef. rewrite zget_of_nat in Ef. by rewrite Ef. }
      cbn [unwrap mbind result_bind ok_or]. by rewrite Z.eqb_refl.
    + rewrite zlen_app. change (zlen [(length pre, f.1)]) with 1. rewrite (prefix_sum_succ _ _ _ _ Ef), entry_len_eq.
      unfold o. lia.
  - rewrite Hoff. cbn [mbind result_bind]. assert (zlen (imap pair fs.*1) = zlen fs) as ->.
    { unfold zlen. by rewrite length_imap, length_fmap. }
    by rewrite Hcl, Z.eqb_refl.
Qed.

(** ** The directory *)

Lemma map_files_pass read_file dir (fs : list (list Z * bytes)) :
  Forall (λ f, read_file (dir_join dir f.1) = Found f.2) fs → map_files read_file dir fs.*1 = Ok (fs.*2).
Proof.
  induction 1 as [|f fs Hf Hfs IH]; [done|]. cbn [map_files fmap list_fmap].
  unfold map_file. rewrite Hf. cbn [mbind result_bind]. by rewrite IH.
Qed.
End files.
