(* ===== verification/SegRound.v ===== *)
(** The round trip of a segment. [build_segment] succeeds exactly on the inputs [validate]
    accepts whose symbol strings are distinct, and any directory holding the files it
    returns opens: every check of the reader passes and the accessors give the input back,
    the symbols in string order with the ordinals remapped. *)

From S2P Require Import Prelude RustStr IndexModel Bitset StoreFormat SegReader SegSafe SegWriter SegLayout SegTables SegPostings SegDict SegValid SegExample.
From Stdlib Require Import Sorting.Sorted.

Open Scope Z_scope.

(** ** Sizes *)

Definition total {A : Type} (f : A → Z) (l : list A) : Z := foldr Z.add 0 (f <$> l).

Lemma total_perm {A : Type} (f : A → Z) l k : l ≡ₚ k → total f l = total f k.
Proof. unfold total. induction 1; cbn; lia. Qed.

Lemma total_le {A : Type} (f g : A → Z) l : (∀ x, f x ≤ g x) → total f l ≤ total g l.
Proof. intros H. unfold total. induction l as [|x l IH]; cbn; [lia|]. specialize (H x). lia. Qed.

Lemma total_0 {A : Type} (f : A → Z) x n : f x = 0 → total f (replicate n x) = 0.
Proof. intros H. unfold total. induction n; cbn; lia. Qed.

Lemma nblocks_le {A : Type} (l : list A) : nblocks l ≤ zlen l.
Proof. pose proof (nblocks_bounds l). pose proof (zlen_nonneg l). lia. Qed.

(** The inputs of which every count and every blob fits the format's 32-bit fields. *)
Record data_sized (data : SegmentData) : Prop := {
  sz_counts : zlen (docs data) < 2 ^ 31 ∧ zlen (targets data) < 2 ^ 31 ∧ zlen (symbols data) < 2 ^ 31 ∧
    zlen (search_rows data) < 2 ^ 31 ∧ zlen (ref_occurrences data) < 2 ^ 31 ∧ zlen (rename_occurrences data) < 2 ^ 31;
  sz_records : total zlen (ref_occurrences data) + total zlen (def_occurrences data) +
    total zlen (rename_occurrences data) < 2 ^ 31;
  sz_doc_records : total zlen (doc_occurrences data) < 2 ^ 31;
  sz_uris : total uri_len (docs data) < 2 ^ 31;
  sz_symbols : total (data_len symbol_bytes_of) (symbols data) < 2 ^ 31;
  sz_target_meta : total (data_len target_data) (target_meta data) < 2 ^ 31;
  sz_symbol_meta : total (data_len symbol_data) (symbol_meta data) < 2 ^ 31;
  sz_search : total (data_len search_data) (search_rows data) < 2 ^ 31
}.

(** Without symbol metadata every symbol gets the default one, which names document 0. *)
Definition metas_readable (data : SegmentData) : Prop :=
  symbol_meta data = [] → symbols data ≠ [] → docs data ≠ [].

(** ** Optional parallel tables *)

(** A table read with a default past its end. *)
Definition filled {A : Type} (d : A) (l : list A) (n : Z) : list A := (λ i, default d (zget l i)) <$> seqZ 0 n.

Lemma zlen_filled {A : Type} (d : A) l n : 0 ≤ n → zlen (filled d l n) = n.
Proof. intros. unfold filled. by rewrite zlen_fmap, zlen_seqZ. Qed.

Lemma zget_filled {A : Type} (d : A) l n i : 0 ≤ i < n → zget (filled d l n) i = Some (default d (zget l i)).
Proof. intros Hi. unfold filled. by rewrite zget_fmap, zget_seqZ. Qed.

Lemma filled_cases {A : Type} (d : A) l n :
  0 ≤ n → zlen l = 0 ∨ zlen l = n → l = [] ∧ filled d l n = replicate (Z.to_nat n) d ∨ filled d l n = l.
Proof.
  intros Hn [H|H].
  - left. assert (l = []) as -> by (destruct l; [done|rewrite zlen_cons in H; pose proof (zlen_nonneg l); lia]).
    split; [done|]. unfold filled. rewrite <- (length_seqZ 0 n). induction (seqZ 0 n) as [|x l IH]; [done|].
    cbn. rewrite IH. by destruct (zget [] x) eqn:E; [apply zget_Some_lt in E; change (zlen []) with 0 in E; lia|].
  - right. apply list_eq. intros i. unfold filled. rewrite list_lookup_fmap. pose proof (zget_of_nat l i) as Hz.
    destruct (l !! i) as [x|] eqn:E.
    + pose proof (lookup_lt_Some _ _ _ E). rewrite (proj2 (lookup_seqZ 0 n i (Z.of_nat i))) by (unfold zlen in H; lia).
      cbn. by rewrite Hz.
    + apply lookup_ge_None in E. rewrite lookup_seqZ_ge; [done|]. unfold zlen in H. lia.
Qed.

Lemma total_filled {A : Type} (f : A → Z) (d : A) l n :
  f d = 0 → 0 ≤ n → zlen l = 0 ∨ zlen l = n → total f (filled d l n) = total f l.
Proof.
  intros Hd Hn Hl. destruct (filled_cases d l n Hn Hl) as [[-> ->]| ->]; [by apply total_0|done].
Qed.

(** Position [j] of a table of blocks is block [k] of some group [g]. *)
Lemma prefix_sum_find {A : Type} (f : A → Z) l j :
  (∀ x, 0 ≤ f x) → 0 ≤ j < prefix_sum f l (zlen l) →
  ∃ g x k, zget l g = Some x ∧ 0 ≤ k < f x ∧ j = prefix_sum f l g + k.
Proof.
  intros Hf. induction l as [|x l IH] using rev_ind; [change (0 ≤ j < 0 → ∃ g x k, zget (@nil A) g = Some x ∧ 0 ≤ k < f x ∧ j = prefix_sum f [] g + k); lia|].
  rewrite prefix_sum_snoc. intros Hj. destruct (Z.lt_ge_cases j (prefix_sum f l (zlen l))) as [Hlt|Hge].
  - destruct IH as (g & y & k & Hg & Hk & ->); [lia|]. pose proof (zget_Some_lt _ _ _ Hg). exists g, y, k.
    rewrite zget_app_l, prefix_sum_app by lia. done.
  - exists (zlen l), x, (j - prefix_sum f l (zlen l)). rewrite zget_app_r, Z.sub_diag, prefix_sum_app by lia.
    split; [done|]. lia.
Qed.

(** Every block of a layout describes some records. *)
Lemma layout_blocks_desc words blocks0 groups layout blocks :
  layout_ok words blocks0 groups layout blocks → Forall (λ b, zlen (ag_words (be_agg b)) = words) blocks0 →
  Forall (λ b, zlen (ag_words (be_agg b)) = words) blocks.
Proof.
  intros Hok H0. destruct (lo_blocks _ _ _ _ _ Hok) as (new & -> & Hl & Hnew).
  apply Forall_app. split; [done|]. apply Forall_forall. intros b (j & Hj)%elem_of_zget.
  pose proof (zget_Some_lt _ _ _ Hj) as Hlt. rewrite Hl in Hlt.
  destruct (prefix_sum_find nblocks groups j nblocks_nonneg Hlt) as (g & grp & k & Hg & Hk & ->).
  destruct (Hnew g grp k Hg Hk) as (b' & Hb' & Hd). rewrite Hb' in Hj. injection Hj as <-.
  destruct Hd as [_ _ _ [_ _ _ Hw _ _] _]. done.
Qed.

(** ** The writer succeeds *)

(** What the stages of [build_segment] compute. *)
Record parts := mkParts {
  p_sorted : list Z; p_c2s : list Z; p_syms : list SegmentSymbol;
  p_ref : GroupLayout * list BlockEntry; p_def : GroupLayout * list BlockEntry;
  p_rename : GroupLayout * list BlockEntry; p_docs : DocLayout }.

Definition words_of (data : SegmentData) : Z := target_word_count (zlen (targets data)).

Record parts_ok (data : SegmentData) (p : parts) : Prop := {
  pk_order : sorted_order data (p_sorted p);
  pk_inverse : inverse_of (zlen (symbols data)) (p_sorted p) (p_c2s p);
  pk_syms : Forall2 (λ c s, zget (symbols data) c = Some s) (p_sorted p) (p_syms p);
  pk_perm : p_syms p ≡ₚ symbols data;
  pk_strict : StronglySorted (λ a b, str_ltb (ss_semantic_symbol a) (ss_semantic_symbol b) = true) (p_syms p);
  pk_ref : layout_ok (words_of data) [] (ref_occurrences data) (p_ref p).1 (p_ref p).2;
  pk_def : layout_ok (words_of data) (p_ref p).2 (def_occurrences data) (p_def p).1 (p_def p).2;
  pk_rename : layout_ok (words_of data) (p_def p).2 (rename_occurrences data) (p_rename p).1 (p_rename p).2;
  pk_docs : docs_ok (p_c2s p) (docs data) (doc_occurrences data) (p_docs p)
}.

Definition target_metas (data : SegmentData) : list TargetMeta :=
  filled TargetMeta_default (target_meta data) (zlen (targets data)).
(** The symbol metadata in string order. *)
Definition symbol_metas (data : SegmentData) (sorted : list Z) : list SymbolMeta :=
  (λ c, default SymbolMeta_default (zget (symbol_meta data) c)) <$> sorted.

Section build.
Context (crc32c : bytes → Z) `{!DebugStr}.
Context (segment_id created_at_ms : Z) (data : SegmentData).

(** The header's occurrence count. *)
Definition occurrences (p : parts) : Z :=
  zlen (gl_doc_ord (p_ref p).1) + zlen (gl_doc_ord (p_def p).1) + zlen (gl_doc_ord (p_rename p).1) +
  zlen (dl_symbol_ord (p_docs p)).

Definition header_of (p : parts) : bytes :=
  header_prefix segment_id created_at_ms (as_u64 (zlen (ref_occurrences data)))
    (as_u64 (zlen (rename_occurrences data))) (as_u64 (zlen (docs data))) (as_u64 (occurrences p)).

Definition segment_files (p : parts) : list (list Z * bytes) :=
  [(HEADER_FILE, header_of p ++ put_u64 (crc32c (header_of p)));
   (REF_GROUP_INDEX_FILE, serialize_group_index (gl_entries (p_ref p).1) None);
   (DEF_GROUP_INDEX_FILE, serialize_group_index (gl_entries (p_def p).1) None);
   (RENAME_GROUP_INDEX_FILE, serialize_group_index (gl_entries (p_rename p).1) (Some (rename_profiles data)));
   (DOC_INDEX_FILE, serialize_doc_index (p_docs p));
   (SYMBOL_INDEX_FILE, symbol_file (p_syms p) (targets data));
   (REF_POSTINGS_FILE, serialize_group_postings (p_ref p).1);
   (DEF_POSTINGS_FILE, serialize_group_postings (p_def p).1);
   (RENAME_POSTINGS_FILE, serialize_group_postings (p_rename p).1);
   (DOC_POSTINGS_FILE, serialize_doc_postings (p_docs p));
   (BLOCK_INDEX_FILE, serialize_block_index (p_rename p).2 (words_of data));
   (TARGET_META_FILE, table_file target_data target_row (target_metas data));
   (SYMBOL_META_FILE, table_file symbol_data symbol_meta_row (symbol_metas data (p_sorted p)));
   (SEARCH_FILE, table_file search_data (search_bytes (p_c2s p)) (sort_rows (search_rows data)))].

Lemma serialize_target_meta_eq : serialize_target_meta data = table_file target_data target_row (target_metas data).
Proof.
  unfold serialize_target_meta, table_file, target_metas. rewrite zlen_filled by apply zlen_nonneg.
  unfold filled. rewrite foldl_fmap. cbv zeta.
  rewrite (foldl_ext_in (λ st i, push_target_meta st (default TargetMeta_default (zget (target_meta data) i)))
    (λ st i, table_step target_data target_row st (default TargetMeta_default (zget (target_meta data) i))));
    [done|]. intros. apply push_target_meta_step.
Qed.

Lemma serialize_symbol_meta_eq sorted :
  serialize_symbol_meta data sorted = table_file symbol_data symbol_meta_row (symbol_metas data sorted).
Proof.
  unfold serialize_symbol_meta, table_file, symbol_metas. rewrite zlen_fmap, foldl_fmap. cbv zeta.
  rewrite (foldl_ext_in (λ st c, push_symbol_meta st (default SymbolMeta_default (zget (symbol_meta data) c)))
    (λ st c, table_step symbol_data symbol_meta_row st (default SymbolMeta_default (zget (symbol_meta data) c))));
    [done|]. intros. apply push_symbol_meta_step.
Qed.

Lemma serialize_search_eq c2s :
  Forall (λ r, 0 ≤ sr_symbol_ord r < zlen c2s) (search_rows data) → zlen c2s < 2 ^ 31 →
  serialize_search data c2s = Ok (table_file search_data (search_bytes c2s) (sort_rows (search_rows data))).
Proof.
  intros Hr Hc. unfold serialize_search, table_file. cbv zeta. fold (sort_rows (search_rows data)).
  rewrite (fold_r_pure _ (table_step search_data (search_bytes c2s))); [done|].
  intros t r Hin. unfold sort_rows in Hin. rewrite elem_of_sort_by in Hin. rewrite Forall_forall in Hr.
  pose proof (Hr r Hin). apply push_search_row_step; [done|]. unfold inS. lia.
Qed.

Context (Hvalid : data_valid data) (Hsized : data_sized data).

Lemma occ_valid_fits words grps n_docs :
  Forall (Forall (occ_valid n_docs (zlen (targets data)) words)) grps → Forall (Forall (occ_fits words)) grps.
Proof. intros Hg. eapply Forall_impl; [exact Hg|]. intros g Ho. eapply Forall_impl; [exact Ho|]. by intros o [? _]. Qed.

Lemma words_nonneg : 1 ≤ words_of data.
Proof. unfold words_of. pose proof (target_word_count_bound (zlen (targets data)) (zlen_nonneg _)). lia. Qed.

Lemma groups_bounds :
  let R := total zlen (ref_occurrences data) in let D := total zlen (def_occurrences data) in
  let N := total zlen (rename_occurrences data) in
  0 ≤ R ∧ 0 ≤ D ∧ 0 ≤ N ∧ R + D + N < 2 ^ 31 ∧
  0 ≤ total nblocks (ref_occurrences data) ≤ R ∧ 0 ≤ total nblocks (def_occurrences data) ≤ D ∧
  0 ≤ total nblocks (rename_occurrences data) ≤ N.
Proof.
  assert (∀ (f : list GroupOcc → Z) l, (∀ x, 0 ≤ f x) → 0 ≤ total f l) as H0.
  { intros f l Hf. unfold total. induction l as [|x l IH]; cbn; [lia|]. specialize (Hf x). lia. }
  pose proof (sz_records _ Hsized). cbv zeta.
  split_and!; first [by apply H0, zlen_nonneg | by apply H0, nblocks_nonneg | by apply total_le, nblocks_le | done].
Qed.

Lemma build_parts :
  NoDup (ss_semantic_symbol <$> symbols data) → Forall (λ s, wf_str (ss_semantic_symbol s)) (symbols data) →
  validate data = Ok tt →
  ∃ p, parts_ok data p ∧ build_segment crc32c segment_id data created_at_ms =
    Ok (segment_files p, serialize_checksums crc32c (segment_files p)).
Proof.
  intros Hnd Hwf Hv. destruct (sz_counts _ Hsized) as (Hdocs & Htgts & Hsyms & Hrows & Hrefs & Hrens).
  pose proof words_nonneg as Hw. destruct groups_bounds as (HR & HD & HN & Hsum & BR & BD & BN). unfold total in *.
  destruct (proj1 (sort_symbol_indices_exact data Hwf) Hnd) as (sorted & Hsort & Hord).
  destruct (sorted_symbols data sorted Hord) as (syms & Hf2 & Hperm & Hstrict).
  destruct (invert_order_exact (zlen (symbols data)) sorted) as (c2s & Hinv & Hio);
    [apply Hord|pose proof (zlen_nonneg (symbols data)); lia|].
  destruct (layout_groups_total (words_of data) ltac:(lia) (ref_occurrences data) []) as (R & HRl & HRok);
    [eapply occ_valid_fits, (va_groups _ Hvalid); set_solver|rewrite prefix_sum_all; lia|rewrite prefix_sum_all; change (zlen []) with 0; lia|].
  pose proof (layout_blocks_count _ _ _ _ _ HRok) as HRb. rewrite prefix_sum_all in HRb. change (zlen []) with 0 in HRb.
  destruct (layout_groups_total (words_of data) ltac:(lia) (def_occurrences data) R.2) as (D & HDl & HDok);
    [eapply occ_valid_fits, (va_groups _ Hvalid); set_solver|rewrite prefix_sum_all; lia|rewrite prefix_sum_all; lia|].
  pose proof (layout_blocks_count _ _ _ _ _ HDok) as HDb. rewrite prefix_sum_all in HDb.
  destruct (layout_groups_total (words_of data) ltac:(lia) (rename_occurrences data) D.2) as (N & HNl & HNok);
    [eapply occ_valid_fits, (va_groups _ Hvalid); set_solver|rewrite prefix_sum_all; lia|rewrite prefix_sum_all; lia|].
  destruct (doc_layout_total c2s (docs data) (doc_occurrences data)) as (L & HLl & HLok).
  - pose proof (va_doc_occs _ Hvalid). unfold zlen in *. lia.
  - eapply Forall_impl; [exact (va_doc_occ _ Hvalid)|]. intros g Hg. eapply Forall_impl; [exact Hg|].
    intros o (? & ? & _). unfold doc_occ_fits. by rewrite (iv_len _ _ _ Hio).
  - unfold docs_fit. rewrite !prefix_sum_all. pose proof (sz_doc_records _ Hsized). pose proof (sz_uris _ Hsized).
    pose proof (total_le nblocks zlen (doc_occurrences data) nblocks_le). unfold total in *. lia.
  - exists (mkParts sorted c2s syms R D N L). split; [by split|].
    unfold build_segment. rewrite Hv. cbn [mbind result_bind]. rewrite Hsort. cbn [mbind result_bind].
    rewrite Hinv. cbn [mbind result_bind]. fold (words_of data). rewrite HRl. cbn [mbind result_bind].
    rewrite HDl. cbn [mbind result_bind]. rewrite HNl. cbn [mbind result_bind].
    unfold build_doc_files. rewrite HLl. cbn [mbind result_bind].
    rewrite (serialize_symbol_index_eq data sorted syms Hf2). cbn [mbind result_bind].
    rewrite serialize_search_eq; [|eapply Forall_impl; [exact (va_search _ Hvalid)|]; intros r [_ ?]; by rewrite (iv_len _ _ _ Hio)|by rewrite (iv_len _ _ _ Hio)].
    cbn [mbind result_bind fst snd]. rewrite serialize_header_eq. cbn [mbind result_bind].
    by rewrite serialize_target_meta_eq, serialize_symbol_meta_eq.
Qed.
End build.

(** ** The reader accepts the files *)

Lemma target_metas_valid data :
  data_typed data → data_valid data → Forall target_meta_valid (target_metas data).
Proof.
  intros Ht Hv. destruct (filled_cases TargetMeta_default (target_meta data) (zlen (targets data)) (zlen_nonneg _) (va_target_meta _ Hv))
    as [[_ E]|E]; unfold target_metas; rewrite E; [|apply Ht].
  apply Forall_replicate. unfold target_meta_valid. split_and!; try constructor; by vm_compute.
Qed.

Lemma symbol_metas_perm data sorted :
  sorted_order data sorted →
  symbol_metas data sorted ≡ₚ filled SymbolMeta_default (symbol_meta data) (zlen (symbols data)).
Proof. intros [Hp _]. unfold symbol_metas, filled. by rewrite Hp. Qed.

Lemma symbol_metas_valid data sorted :
  data_valid data → metas_readable data → sorted_order data sorted →
  Forall (symbol_meta_valid (zlen (docs data))) (symbol_metas data sorted).
Proof.
  intros Hv Hr Ho. rewrite (symbol_metas_perm data sorted Ho).
  destruct (filled_cases SymbolMeta_default (symbol_meta data) (zlen (symbols data)) (zlen_nonneg _) (va_symbol_meta _ Hv))
    as [[E0 E]|E]; rewrite E; [|apply Hv].
  destruct (decide (symbols data = [])) as [Es|Es]; [rewrite Es; constructor|].
  specialize (Hr E0 Es). apply Forall_replicate. unfold symbol_meta_valid.
  split_and!; try (by constructor); try by vm_compute. right. unfold zlen. cbn.
  destruct (docs data); [done|]. cbn [length]. lia.
Qed.

Section accept.
Context (crc32c : bytes → Z) `{!DebugStr}.
Context (segment_id created_at_ms : Z) (data : SegmentData) (p : parts).
Context (Htyped : data_typed data) (Hvalid : data_valid data) (Hsized : data_sized data) (Hmetas : metas_readable data).
Context (Hp : parts_ok data p).
Context (s : SegmentReader).
Context (Hfiles : files s = (segment_files crc32c segment_id created_at_ms data p).*2).
Context (Hdocs : doc_count s = zlen (docs data)) (Href : ref_group_count s = zlen (ref_occurrences data)).
Context (Hren : rename_group_count s = zlen (rename_occurrences data)) (Hsyms : symbol_count s = zlen (symbols data)).
Context (Htgts : target_count s = zlen (targets data)) (Hwords : rd_words s = words_of data).
Context (Hocc : occurrence_count s = as_u64 (occurrences p)).

Lemma file_at idx f : segment_files crc32c segment_id created_at_ms data p !! idx = Some f → file s idx = f.2.
Proof. intros Hf. unfold file. by rewrite Hfiles, list_lookup_fmap, Hf. Qed.

Let blocks := (p_rename p).2.

Lemma block_sizes :
  0 ≤ zlen (p_ref p).2 ≤ zlen (p_def p).2 ∧ zlen (p_def p).2 ≤ zlen blocks < 2 ^ 31 ∧
  (∃ a b, blocks = (p_ref p).2 ++ a ++ b ∧ (p_def p).2 = (p_ref p).2 ++ a) ∧
  Forall (λ b, zlen (ag_words (be_agg b)) = words_of data) blocks.
Proof.
  destruct (groups_bounds data Hsized) as (HR & HD & HN & Hsum & BR & BD & BN). unfold total in *.
  pose proof (layout_blocks_count _ _ _ _ _ (pk_ref _ _ Hp)) as L1. pose proof (layout_blocks_count _ _ _ _ _ (pk_def _ _ Hp)) as L2.
  pose proof (layout_blocks_count _ _ _ _ _ (pk_rename _ _ Hp)) as L3. rewrite prefix_sum_all in L1, L2, L3.
  change (zlen []) with 0 in L1. unfold blocks. split_and!; try lia.
  - destruct (lo_blocks _ _ _ _ _ (pk_def _ _ Hp)) as (a & Ea & _). destruct (lo_blocks _ _ _ _ _ (pk_rename _ _ Hp)) as (b & Eb & _).
    exists a, b. by rewrite Eb, Ea, <- app_assoc.
  - eapply layout_blocks_desc; [apply Hp|]. eapply layout_blocks_desc; [apply Hp|]. eapply layout_blocks_desc; [apply Hp|]. constructor.
Qed.

(** The block index: its head and each of its entries. *)
Lemma block_file :
  let bi := file s BLOCK_INDEX in
  count_at bi 0 BLOCK_INDEX_FILE "block_count" = Ok (zlen blocks) ∧
  read_i32 bi 8 = Some (rd_words s) ∧ read_i32 bi 12 = Some BLOCK_SIZE ∧
  zlen bi = 16 + zlen blocks * (40 + 8 * rd_words s) ∧
  ∀ i b, zget blocks i = Some b → holds_at bi (block_base s i) (put_block b).
Proof.
  cbv zeta. destruct block_sizes as (? & ? & _ & Hw). destruct (sz_counts _ Hsized) as (_ & Hnt & _).
  rewrite (file_at BLOCK_INDEX _ eq_refl). cbn [snd]. fold blocks. rewrite Hwords.
  assert (0 ≤ words_of data < 2 ^ 27) as Hwr.
  { unfold words_of, target_word_count. cbv zeta. pose proof (zlen_nonneg (targets data)).
    rewrite Z.shiftr_div_pow2 by done. change (2 ^ 6) with 64. destruct (Z.eqb_spec ((zlen (targets data) + 63) / 64) 0); [lia|].
    Z.to_euclidean_division_equations. lia. }
  unfold serialize_block_index. rewrite i64_of, i32_of by lia.
  assert (∀ b, b ∈ blocks → zlen (put_block b) = 40 + 8 * words_of data) as Hpb.
  { intros b Hb. rewrite Forall_forall in Hw. by apply zlen_put_block, Hw. }
  match goal with |- count_at ?f _ _ _ = _ ∧ _ => set (bi := f) end.
  assert (zlen bi = 16 + zlen blocks * (40 + 8 * words_of data)) as Hbl.
  { unfold bi. autorewrite with zlen. rewrite (zlen_rows put_block (40 + 8 * words_of data)) by done. lia. }
  pose proof (holds_at_self bi) as HX. unfold bi in HX at 2. at_split HX.
  rewrite ?zlen_put_i64, ?zlen_put_i32 in *.
  split; [apply count_at_pass; [at_read; unfold inS; lia|rewrite Hbl; nia|rewrite Hbl; nia]|].
  split; [at_read; unfold inS; lia|]. split; [at_read; unfold inS, BLOCK_SIZE; lia|]. split; [done|].
  - intros i b Hb. match goal with K : holds_at _ _ (concat _) |- _ => rename K into Hc end.
    eapply (holds_at_row put_block (40 + 8 * words_of data)) in Hc; [|exact Hpb|exact Hb].
    unfold block_base. change BLOCK_ENTRY_FIXED_SIZE with 40. by rewrite Hwords.
Qed.

(** The three roles. *)
Lemma roles_pass :
  let bc := zlen blocks in
  check_columns s REF_POSTINGS 6 = Ok (total zlen (ref_occurrences data)) ∧
  check_columns s DEF_POSTINGS 6 = Ok (total zlen (def_occurrences data)) ∧
  check_columns s RENAME_POSTINGS 6 = Ok (total zlen (rename_occurrences data)) ∧
  check_group_index s REF_GROUP_INDEX (ref_group_count s) false = Ok tt ∧
  check_group_index s DEF_GROUP_INDEX (ref_group_count s) false = Ok tt ∧
  check_group_index s RENAME_GROUP_INDEX (rename_group_count s) true = Ok tt ∧
  validate_group_records s REF_POSTINGS (total zlen (ref_occurrences data)) = Ok tt ∧
  validate_group_records s DEF_POSTINGS (total zlen (def_occurrences data)) = Ok tt ∧
  validate_group_records s RENAME_POSTINGS (total zlen (rename_occurrences data)) = Ok tt ∧
  validate_role_groups s REF_GROUP_INDEX (ref_group_count s) (total zlen (ref_occurrences data)) REF_POSTINGS 0 bc =
    Ok (zlen (p_ref p).2) ∧
  validate_role_groups s DEF_GROUP_INDEX (ref_group_count s) (total zlen (def_occurrences data)) DEF_POSTINGS
    (zlen (p_ref p).2) bc = Ok (zlen (p_def p).2) ∧
  validate_role_groups s RENAME_GROUP_INDEX (rename_group_count s) (total zlen (rename_occurrences data)) RENAME_POSTINGS
    (zlen (p_def p).2) bc = Ok bc.
Proof.
  cbv zeta. destruct block_sizes as (B1 & B2 & (a & b & Eb & Ea) & _). destruct block_file as (_ & _ & _ & _ & Hblk).
  destruct (groups_bounds data Hsized) as (HR & HD & HN & Hsum & BR & BD & BN).
  destruct (sz_counts _ Hsized) as (_ & _ & _ & _ & Hnr & Hnn).
  pose proof (va_groups _ Hvalid (ref_occurrences data) ltac:(set_solver)) as G1.
  pose proof (va_groups _ Hvalid (def_occurrences data) ltac:(set_solver)) as G2.
  pose proof (va_groups _ Hvalid (rename_occurrences data) ltac:(set_solver)) as G3.
  fold (words_of data) in G1, G2, G3. rewrite <- Hdocs, <- Htgts in G1, G2, G3.
  assert (∀ i x, zget (p_ref p).2 i = Some x → holds_at (file s BLOCK_INDEX) (block_base s i) (put_block x)) as K1.
  { intros i x Hi. apply Hblk. rewrite Eb. pose proof (zget_Some_lt _ _ _ Hi). by rewrite zget_app_l by lia. }
  assert (∀ i x, zget (p_def p).2 i = Some x → holds_at (file s BLOCK_INDEX) (block_base s i) (put_block x)) as K2.
  { intros i x Hi. apply Hblk. rewrite Eb, app_assoc, <- Ea. pose proof (zget_Some_lt _ _ _ Hi). by rewrite zget_app_l by lia. }
  pose proof (va_def _ Hvalid) as Hdr. unfold total in *.
  pose proof (λ h, role_records_pass s REF_POSTINGS (words_of data) [] (ref_occurrences data) _ _ (pk_ref _ _ Hp)
    (file_at REF_POSTINGS _ eq_refl) G1 h) as P1.
  pose proof (λ h, role_records_pass s DEF_POSTINGS (words_of data) _ (def_occurrences data) _ _ (pk_def _ _ Hp)
    (file_at DEF_POSTINGS _ eq_refl) G2 h) as P2.
  pose proof (λ h, role_records_pass s RENAME_POSTINGS (words_of data) _ (rename_occurrences data) _ _ (pk_rename _ _ Hp)
    (file_at RENAME_POSTINGS _ eq_refl) G3 h) as P3.
  pose proof (λ h, check_columns_pass s REF_POSTINGS (words_of data) [] (ref_occurrences data) _ _ (pk_ref _ _ Hp)
    (file_at REF_POSTINGS _ eq_refl) G1 h) as C1.
  pose proof (λ h, check_columns_pass s DEF_POSTINGS (words_of data) _ (def_occurrences data) _ _ (pk_def _ _ Hp)
    (file_at DEF_POSTINGS _ eq_refl) G2 h) as C2.
  pose proof (λ h, check_columns_pass s RENAME_POSTINGS (words_of data) _ (rename_occurrences data) _ _ (pk_rename _ _ Hp)
    (file_at RENAME_POSTINGS _ eq_refl) G3 h) as C3.
  pose proof (λ h, check_group_index_pass s REF_GROUP_INDEX (words_of data) None [] (ref_occurrences data) _ _
    (pk_ref _ _ Hp) (file_at REF_GROUP_INDEX _ eq_refl) h) as I1.
  pose proof (λ h, check_group_index_pass s DEF_GROUP_INDEX (words_of data) None _ (def_occurrences data) _ _
    (pk_def _ _ Hp) (file_at DEF_GROUP_INDEX _ eq_refl) h) as I2.
  pose proof (λ h, check_group_index_pass s RENAME_GROUP_INDEX (words_of data) (Some (rename_profiles data)) _
    (rename_occurrences data) _ _ (pk_rename _ _ Hp) (file_at RENAME_GROUP_INDEX _ eq_refl) h (va_profiles _ Hvalid)) as I3.
  pose proof (λ h1 h2, role_groups_pass s REF_GROUP_INDEX REF_POSTINGS (words_of data) None [] (ref_occurrences data) _ _
    (zlen blocks) (pk_ref _ _ Hp) Hwords (file_at REF_GROUP_INDEX _ eq_refl) (file_at REF_POSTINGS _ eq_refl) K1 G1 h1 h2) as R1.
  pose proof (λ h1 h2, role_groups_pass s DEF_GROUP_INDEX DEF_POSTINGS (words_of data) None _ (def_occurrences data) _ _
    (zlen blocks) (pk_def _ _ Hp) Hwords (file_at DEF_GROUP_INDEX _ eq_refl) (file_at DEF_POSTINGS _ eq_refl) K2 G2 h1 h2) as R2.
  pose proof (λ h1 h2, role_groups_pass s RENAME_GROUP_INDEX RENAME_POSTINGS (words_of data) (Some (rename_profiles data)) _
    (rename_occurrences data) _ _ (zlen blocks) (pk_rename _ _ Hp) Hwords (file_at RENAME_GROUP_INDEX _ eq_refl)
    (file_at RENAME_POSTINGS _ eq_refl) Hblk G3 h1 h2) as R3.
  rewrite !prefix_sum_all in *. rewrite Hdr in *. rewrite Href, Hren.
  split_and!; [apply C1; lia|apply C2; lia|apply C3; lia|apply I1; [lia|done]|apply I2; [lia|done]|apply I3; lia
    |apply P1; lia|apply P2; lia|apply P3; lia|apply R1; lia|apply R2; lia|apply R3; fold blocks; lia].
Qed.

(** The documents. *)
Lemma remap_range : zlen (p_c2s p) = symbol_count s ∧ ∀ c q, zget (p_c2s p) c = Some q → 0 ≤ q < symbol_count s.
Proof.
  destruct (pk_inverse _ _ Hp) as [Hl _ Hback]. rewrite Hsyms. split; [done|]. intros c q Hc%Hback.
  apply zget_Some_lt in Hc. by rewrite (zlen_sorted data _ (pk_order _ _ Hp)) in Hc.
Qed.

Lemma doc_conditions :
  prefix_sum zlen (doc_occurrences data) (zlen (doc_occurrences data)) < 2 ^ 31 ∧
  prefix_sum nblocks (doc_occurrences data) (zlen (doc_occurrences data)) < 2 ^ 31 ∧
  prefix_sum uri_len (docs data) (zlen (docs data)) < 2 ^ 31 ∧ zlen (docs data) < 2 ^ 31 ∧ symbol_count s < 2 ^ 31 ∧
  Forall (doc_valid (target_count s)) (docs data) ∧
  Forall (Forall (doc_occ_valid (symbol_count s))) (doc_occurrences data).
Proof.
  destruct (sz_counts _ Hsized) as (? & ? & ? & _). rewrite !prefix_sum_all, Hsyms, Htgts.
  pose proof (total_le nblocks zlen (doc_occurrences data) nblocks_le). unfold total in *.
  pose proof (sz_doc_records _ Hsized). pose proof (sz_uris _ Hsized). unfold total in *.
  split_and!; try lia; apply Hvalid.
Qed.

Lemma docs_pass :
  let n := total zlen (doc_occurrences data) in let ic := total nblocks (doc_occurrences data) in
  let ub := total uri_len (docs data) in let di := file s DOC_INDEX in
  check_columns s DOC_POSTINGS 4 = Ok n ∧ validate_doc_records s n = Ok tt ∧
  count_at di 0 DOC_INDEX_FILE "doc_count" = Ok (doc_count s) ∧
  count_at di 8 DOC_INDEX_FILE "interval_count" = Ok ic ∧ count_at di 16 DOC_INDEX_FILE "uri_blob_len" = Ok ub ∧
  zlen di = 24 + doc_count s * 48 + ic * 24 + ub ∧
  validate_doc_index s (doc_count s) ic ub n = Ok tt ∧
  mapM (epoch_of s) (seqZ 0 (doc_count s)) = Some (doc_epoch <$> docs data).
Proof.
  cbv zeta. destruct remap_range as [E1 E2]. destruct doc_conditions as (C1 & C2 & C3 & C4 & C5 & C6 & C7).
  pose proof (file_at DOC_INDEX _ eq_refl) as F1. pose proof (file_at DOC_POSTINGS _ eq_refl) as F2. cbn [snd] in F1, F2.
  pose proof (check_doc_columns_pass s _ _ _ _ (pk_docs _ _ Hp) F2 E1 E2 C5 C7 C1) as Q1.
  pose proof (doc_records_pass s _ _ _ _ (pk_docs _ _ Hp) F2 E1 E2 C5 C7 C1) as Q2.
  pose proof (doc_index_pass s _ _ _ _ (pk_docs _ _ Hp) F1 F2 E1 E2 C5 C6 C7 C1 C2 C3 C4) as Q3.
  pose proof (doc_epochs_pass s _ _ _ _ (pk_docs _ _ Hp) F1 C6 C1 C2 C3 C4) as Q4.
  destruct (doc_index_at s _ _ _ _ (pk_docs _ _ Hp) F1 C2 C3 C4) as (A0 & A1 & A2 & _ & _ & _ & Hl).
  destruct (docs_sizes _ _ _ _ (pk_docs _ _ Hp)) as (Z1 & Z2 & Z3 & Z4 & _).
  rewrite Hdocs, !prefix_sum_all in *. unfold total.
  split_and!; try done; apply count_at_pass; try lia; eapply read_i64_at; try eassumption; try done; unfold inS; lia.
Qed.

(** The dictionary. *)
Lemma dict_pass :
  let f := file s SYMBOL_INDEX in let blob := total (data_len symbol_bytes_of) (p_syms p) in
  count_at f 0 SYMBOL_INDEX_FILE "symbol_count" = Ok (symbol_count s) ∧
  count_at f 8 SYMBOL_INDEX_FILE "target_count" = Ok (target_count s) ∧
  count_at f 16 SYMBOL_INDEX_FILE "sym_blob_len" = Ok blob ∧
  zlen f = 24 + symbol_count s * 32 + target_count s * 8 + blob ∧ validate_symbol_dict s blob = Ok tt.
Proof.
  cbv zeta. destruct (sz_counts _ Hsized) as (_ & N2 & N3 & _). pose proof (pk_perm _ _ Hp) as Hperm.
  assert (zlen (p_syms p) = zlen (symbols data)) as Hl by (unfold zlen; by rewrite Hperm).
  pose proof (sz_symbols _ Hsized) as Hb. rewrite <- (total_perm _ _ _ Hperm) in Hb.
  assert (Forall (symbol_valid (ref_group_count s) (rename_group_count s) (target_count s)) (p_syms p)) as Hv.
  { rewrite Hperm, Href, Hren, Htgts. apply Hvalid. }
  pose proof (file_at SYMBOL_INDEX _ eq_refl) as F. cbn [snd] in F.
  unfold total in *. rewrite <- prefix_sum_all in Hb |- *.
  destruct (dict_file s (p_syms p) (targets data) F ltac:(lia) N2 Hb (ty_targets _ Htyped)) as (R0 & R1 & R2 & Hz & _ & _).
  destruct (dict_sizes (p_syms p) (targets data)) as (Z1 & Z2 & Z3).
  rewrite Hsyms, Htgts, <- Hl in *.
  split_and!; try (apply count_at_pass; [eassumption|lia|lia]); [done|].
  eapply symbol_dict_pass; try eassumption; try done; first [apply Htyped | apply Hp | by rewrite Hsyms, Hl | by rewrite Htgts | by rewrite Hl].
Qed.

(** The metadata tables and the search rows. *)
Lemma sort_rows_perm rows : sort_rows rows ≡ₚ rows.
Proof. apply sort_by_perm. Qed.

Lemma search_conditions :
  zlen (sort_rows (search_rows data)) < 2 ^ 31 ∧
  prefix_sum (data_len search_data) (sort_rows (search_rows data)) (zlen (sort_rows (search_rows data))) < 2 ^ 31 ∧
  Forall (λ r, wf_str (normalized_name r) ∧ 0 ≤ sr_symbol_ord r < zlen (p_c2s p)) (sort_rows (search_rows data)) ∧
  StronglySorted (λ a b, str_leb (normalized_name a) (normalized_name b) = true) (sort_rows (search_rows data)).
Proof.
  destruct (sz_counts _ Hsized) as (_ & _ & _ & N & _). destruct remap_range as [E1 _].
  assert (zlen (sort_rows (search_rows data)) = zlen (search_rows data)) as Hl by (unfold zlen; by rewrite sort_rows_perm).
  split; [lia|]. split; [|split].
  - rewrite prefix_sum_all. fold (total (data_len search_data) (sort_rows (search_rows data))).
    rewrite (total_perm _ _ _ (sort_rows_perm _)). apply Hsized.
  - rewrite sort_rows_perm, E1, Hsyms. apply Hvalid.
  - apply sort_by_sorted; [intros; apply str_leb_total|intros ???; apply str_leb_trans].
Qed.

Lemma target_conditions :
  zlen (target_metas data) = target_count s ∧ zlen (target_metas data) < 2 ^ 31 ∧
  prefix_sum (data_len target_data) (target_metas data) (zlen (target_metas data)) < 2 ^ 31 ∧
  Forall target_meta_valid (target_metas data).
Proof.
  destruct (sz_counts _ Hsized) as (_ & N & _). unfold target_metas. rewrite zlen_filled by apply zlen_nonneg.
  split_and!; [done|done| |by apply target_metas_valid].
  assert (total (data_len target_data) (filled TargetMeta_default (target_meta data) (zlen (targets data))) < 2 ^ 31) as Ht.
  { rewrite total_filled; [apply Hsized|done|apply zlen_nonneg|apply Hvalid]. }
  unfold total in Ht. by rewrite <- prefix_sum_all, zlen_filled in Ht by apply zlen_nonneg.
Qed.

Lemma symbol_conditions :
  zlen (symbol_metas data (p_sorted p)) = symbol_count s ∧ zlen (symbol_metas data (p_sorted p)) < 2 ^ 31 ∧
  prefix_sum (data_len symbol_data) (symbol_metas data (p_sorted p)) (zlen (symbol_metas data (p_sorted p))) < 2 ^ 31 ∧
  Forall (symbol_meta_valid (doc_count s)) (symbol_metas data (p_sorted p)).
Proof.
  destruct (sz_counts _ Hsized) as (_ & _ & N & _).
  assert (zlen (symbol_metas data (p_sorted p)) = zlen (symbols data)) as Hl.
  { unfold symbol_metas. rewrite zlen_fmap. apply zlen_sorted, Hp. }
  rewrite prefix_sum_all. split_and!; [by rewrite Hsyms|lia| |].
  - fold (total (data_len symbol_data) (symbol_metas data (p_sorted p))).
    rewrite (total_perm _ _ _ (symbol_metas_perm data _ (pk_order _ _ Hp))), total_filled;
      [apply Hsized|done|apply zlen_nonneg|apply Hvalid].
  - rewrite Hdocs. apply symbol_metas_valid; [done|done|apply Hp].
Qed.

Lemma metas_pass :
  let tmb := total (data_len target_data) (target_metas data) in
  let smb := total (data_len symbol_data) (symbol_metas data (p_sorted p)) in
  let srb := total (data_len search_data) (sort_rows (search_rows data)) in
  let src := zlen (sort_rows (search_rows data)) in
  let tm := file s TARGET_META in let sm := file s SYMBOL_META in let se := file s SEARCH in
  count_at tm 0 TARGET_META_FILE "target-meta count" = Ok (target_count s) ∧
  count_at tm 8 TARGET_META_FILE "target-meta blob" = Ok tmb ∧ zlen tm = 16 + target_count s * 48 + tmb ∧
  count_at sm 0 SYMBOL_META_FILE "symbol-meta count" = Ok (symbol_count s) ∧
  count_at sm 8 SYMBOL_META_FILE "symbol-meta blob" = Ok smb ∧ zlen sm = 16 + symbol_count s * 48 + smb ∧
  count_at se 0 SEARCH_FILE "search rows" = Ok src ∧ count_at se 8 SEARCH_FILE "search blob" = Ok srb ∧
  zlen se = 16 + src * 16 + srb ∧
  validate_meta_and_search s (target_count s) tmb (symbol_count s) smb src srb = Ok tt.
Proof.
  cbv zeta. destruct target_conditions as (T1 & T2 & T3 & T4). destruct symbol_conditions as (S1 & S2 & S3 & S4).
  destruct search_conditions as (R1 & R2 & R3 & R4). destruct remap_range as [_ E2].
  destruct doc_conditions as (_ & _ & _ & _ & C5 & _ & _).
  pose proof (file_at TARGET_META _ eq_refl) as F1. pose proof (file_at SYMBOL_META _ eq_refl) as F2.
  pose proof (file_at SEARCH _ eq_refl) as F3. cbn [snd] in F1, F2, F3.
  destruct (table_file_head target_data target_row 48 zlen_target_row _ _ F1 T2 T3) as (A0 & A1 & A2).
  destruct (table_file_head symbol_data symbol_meta_row 48 zlen_symbol_meta_row _ _ F2 S2 S3) as (B0 & B1 & B2).
  destruct (table_file_head search_data (search_bytes (p_c2s p)) 16 (zlen_search_bytes _) _ _ F3 R1 R2) as (D0 & D1 & D2).
  destruct (table_sizes target_data (target_metas data)) as [? ?].
  destruct (table_sizes symbol_data (symbol_metas data (p_sorted p))) as [? ?].
  destruct (table_sizes search_data (sort_rows (search_rows data))) as [? ?].
  unfold total. rewrite <- !prefix_sum_all, <- T1, <- S1.
  split_and!; try (apply count_at_pass; [eassumption|lia|lia]); try done.
  unfold validate_meta_and_search.
  eapply bind_step; [apply for_each_seqZ_total; intros i Hi; eapply target_meta_pass; try eassumption; lia|cbv beta].
  eapply bind_step; [apply for_each_seqZ_total; intros i Hi; eapply symbol_meta_pass; try eassumption; lia|cbv beta].
  destruct (search_rows_pass s (p_c2s p) _ F3 R2 C5 E2 R3 R4) as [st Hst].
  eapply bind_step; [exact Hst|done].
Qed.
End accept.

(** ** Opening *)

Section opening.
Context (crc32c : bytes → Z) `{!DebugStr} (Hcrc : ∀ b, inU 32 (crc32c b)).
Context (segment_id created_at_ms : Z) (data : SegmentData) (p : parts).
Context (Hid : inU 64 segment_id) (Hcreated : inS 64 created_at_ms).
Context (Htyped : data_typed data) (Hvalid : data_valid data) (Hsized : data_sized data) (Hmetas : metas_readable data).
Context (Hp : parts_ok data p).

(** The reader after the header, before and after the counts. *)
Definition header_reader : SegmentReader :=
  mkReader ((segment_files crc32c segment_id created_at_ms data p).*2) segment_id created_at_ms
    (zlen (ref_occurrences data)) (zlen (rename_occurrences data)) (zlen (docs data)) (as_u64 (occurrences p)) 0 0 0 [].
Definition counted_reader : SegmentReader :=
  with_counts header_reader (zlen (symbols data)) (zlen (targets data)) (words_of data).
(** The opened reader. *)
Definition opened_reader : SegmentReader := with_epochs counted_reader (doc_epoch <$> docs data).

Lemma structure_pass : validate_structure header_reader = Ok opened_reader.
Proof.
  pose proof (dict_pass crc32c segment_id created_at_ms data p Htyped Hvalid Hsized Hp counted_reader
    eq_refl eq_refl eq_refl eq_refl eq_refl) as (S1 & S2 & S3 & S4 & S5).
  pose proof (roles_pass crc32c segment_id created_at_ms data p Htyped Hvalid Hsized Hmetas Hp counted_reader
    eq_refl eq_refl eq_refl eq_refl eq_refl eq_refl eq_refl eq_refl) as (C1 & C2 & C3 & I1 & I2 & I3 & V1 & V2 & V3 & R1 & R2 & R3).
  pose proof (docs_pass crc32c segment_id created_at_ms data p Hvalid Hsized Hp counted_reader
    eq_refl eq_refl eq_refl eq_refl) as (D1 & D2 & D3 & D4 & D5 & D6 & D7 & D8).
  pose proof (block_file crc32c segment_id created_at_ms data p Hsized Hp counted_reader eq_refl eq_refl)
    as (B1 & B2 & B3 & B4 & _).
  pose proof (metas_pass crc32c segment_id created_at_ms data p Htyped Hvalid Hsized Hmetas Hp counted_reader
    eq_refl eq_refl eq_refl eq_refl) as (M1 & M2 & M3 & M4 & M5 & M6 & M7 & M8 & M9 & M10).
  pose proof (block_sizes data p Hsized Hp) as (Q1 & Q2 & _). cbv zeta in *.
  assert (occurrences p = total zlen (ref_occurrences data) + total zlen (def_occurrences data) +
    total zlen (rename_occurrences data) + total zlen (doc_occurrences data)) as Hsum.
  { unfold occurrences, total. rewrite (layout_ok_columns _ _ _ _ _ (pk_ref _ _ Hp)),
      (layout_ok_columns _ _ _ _ _ (pk_def _ _ Hp)), (layout_ok_columns _ _ _ _ _ (pk_rename _ _ Hp)),
      (docs_ok_records _ _ _ _ (pk_docs _ _ Hp)). by rewrite !prefix_sum_all. }
  set (bc := zlen (p_rename p).2) in *.
  change (file header_reader) with (file counted_reader) in *.
  assert (0 ≤ total zlen (ref_occurrences data) ∧ 0 ≤ total zlen (def_occurrences data)) as [T1 T2].
  { destruct (groups_bounds data Hsized) as (? & ? & _). done. }
  unfold validate_structure. change (file header_reader) with (file counted_reader) in *.
  eapply bind_step; [exact S1|cbv beta]. eapply bind_step; [exact S2|cbv beta]. eapply bind_step; [exact S3|cbv beta].
  pass. change (with_counts header_reader (symbol_count counted_reader) (target_count counted_reader)
    (target_word_count (target_count counted_reader))) with counted_reader. cbv zeta.
  eapply bind_step; [exact C1|cbv beta]. eapply bind_step; [exact C2|cbv beta]. eapply bind_step; [exact C3|cbv beta].
  eapply bind_step; [exact D1|cbv beta].
  eapply bind_step; [apply expect_pass; rewrite <- Hsum; apply Z.eqb_refl|cbv beta].
  eapply bind_step; [exact I1|cbv beta]. eapply bind_step; [exact I2|cbv beta]. eapply bind_step; [exact I3|cbv beta].
  eapply bind_step; [exact D3|cbv beta]. eapply bind_step; [exact D4|cbv beta]. eapply bind_step; [exact D5|cbv beta].
  do 2 pass. eapply bind_step; [exact B1|cbv beta]. do 5 pass.
  eapply bind_step; [exact M1|cbv beta]. eapply bind_step; [exact M2|cbv beta]. do 2 pass.
  eapply bind_step; [exact M4|cbv beta]. eapply bind_step; [exact M5|cbv beta]. do 2 pass.
  eapply bind_step; [exact M7|cbv beta]. eapply bind_step; [exact M8|cbv beta]. pass.
  eapply bind_step; [exact S5|cbv beta]. eapply bind_step; [exact V1|cbv beta]. eapply bind_step; [exact V2|cbv beta].
  eapply bind_step; [exact V3|cbv beta]. eapply bind_step; [exact D2|cbv beta].
  eapply bind_step; [exact R1|cbv beta]. eapply bind_step; [exact R2|cbv beta]. eapply bind_step; [exact R3|cbv beta].
  pass. eapply bind_step; [exact D7|cbv beta]. eapply bind_step; [exact M10|cbv beta].
  eapply bind_step; [apply unwrap_pass; exact D8|done].
Qed.

(** A directory that holds the files. *)
Definition holds_files (read_file : list Z → FileRead) (dir : list Z) (fs : list (list Z * bytes)) (sums : bytes) : Prop :=
  Forall (λ f, read_file (dir_join dir f.1) = Found f.2) (fs ++ [(CHECKSUMS_FILE, sums)]).

Lemma occurrences_bound : 0 ≤ occurrences p.
Proof. unfold occurrences. repeat apply Z.add_nonneg_nonneg; apply zlen_nonneg. Qed.

Lemma reader_open_pass read_file dir :
  let fs := segment_files crc32c segment_id created_at_ms data p in
  holds_files read_file dir fs (serialize_checksums crc32c fs) → reader_open crc32c read_file dir = Ok opened_reader.
Proof.
  intros fs Hdir. apply Forall_app in Hdir as [Hfs [Hsums _]%Forall_cons]. cbn [fst snd] in Hsums.
  destruct (sz_counts _ Hsized) as (N1 & _ & _ & _ & N5 & N6).
  pose proof (zlen_nonneg (docs data)). pose proof (zlen_nonneg (ref_occurrences data)).
  pose proof (zlen_nonneg (rename_occurrences data)).
  assert (fs.*1 = CHECKSUMMED_FILES) as Hnames by reflexivity.
  unfold reader_open. rewrite <- Hnames. rewrite (map_files_pass read_file dir fs Hfs). cbn [mbind result_bind].
  unfold map_file. rewrite Hsums. cbn [mbind result_bind].
  change (fs.*2 !! HEADER) with (Some (header_of segment_id created_at_ms data p ++
    put_u64 (crc32c (header_of segment_id created_at_ms data p)))). cbn [unwrap ok_or mbind result_bind].
  unfold header_of. rewrite !u64_of by lia. rewrite (open_header_pass crc32c Hcrc);
    [|done|done|unfold inU; lia|unfold inU; lia|unfold inU; lia|by apply wrapU_range].
  cbn [mbind result_bind]. rewrite (verify_checksums_pass crc32c Hcrc fs Hnames); [cbn [mbind result_bind]; exact structure_pass| |].
  - assert (∀ l, prefix_sum (entry_len crc32c) l (zlen l) = total (λ f, 12 + str_len f) l.*1) as E.
    { intros l. rewrite prefix_sum_all. unfold total. rewrite <- list_fmap_compose. f_equal.
      apply list_fmap_ext. intros i f _. cbn. apply entry_len_eq. }
    rewrite E, Hnames. by vm_compute.
  - assert (Forall (λ n, str_len n < 2 ^ 31) fs.*1) as Hlen.
    { rewrite Hnames. refine (bool_decide_unpack _ _). vm_compute. exact I. }
    by apply Forall_fmap in Hlen.
Qed.

(** ** Reading back *)

(** A role's groups, record by record. *)
Definition role_holds (view : Z → option GroupIndexView) (record : Z → option GroupRecord)
    (groups : list (list GroupOcc)) : Prop :=
  ∀ g grp, zget groups g = Some grp → ∃ e, view g = Some e ∧ gv_count e = zlen grp ∧
    ∀ k o, zget (sort_group grp) k = Some o → record (gv_offset e + k) = Some (record_of o).

Record doc_holds (s : SegmentReader) (c2s : list Z) (d : Z) (doc : SegmentDoc) (occs : list DocOcc) : Prop := {
  dh_uri : uri_of s d = Some (doc_uri doc);
  dh_id : doc_id_of s d = Some (doc_id doc);
  dh_epoch : epoch_of s d = Some (doc_epoch doc) ∧ zget (doc_epochs s) d = Some (doc_epoch doc);
  dh_target : target_ord_of_doc s d = Some (doc_target_ord doc);
  dh_flags : rd_doc_generated s d = Some (doc_generated doc) ∧ rd_doc_readonly s d = Some (doc_readonly doc);
  dh_occs : ∃ e, doc_entry s d = Some e ∧ dv_postings_count e = zlen occs ∧
    ∀ k o, zget (sort_doc occs) k = Some o → doc_record s (dv_postings_offset e + k) = Some (doc_record_of c2s o)
}.

(** The reader holds the input; [c2s] sends a caller's symbol ordinal to its ordinal on disk. *)
Record holds_data (s : SegmentReader) (data : SegmentData) (c2s : list Z) : Prop := {
  hd_remap : c2s ≡ₚ seqZ 0 (zlen (symbols data));
  hd_counts : symbol_count s = zlen (symbols data) ∧ target_count s = zlen (targets data) ∧
    doc_count s = zlen (docs data) ∧ ref_group_count s = zlen (ref_occurrences data) ∧
    rename_group_count s = zlen (rename_occurrences data);
  hd_symbols c y : zget (symbols data) c = Some y → ∃ q, zget c2s c = Some q ∧
    semantic_symbol_of s q = Some (ss_semantic_symbol y) ∧
    symbol_view s q = Some (mkSymbolView (ss_symbol_id y) (ss_ref_group_ord y) (ss_rename_group_ord y) (ss_def_target_ord y)) ∧
    rd_symbol_meta s q = Some (default SymbolMeta_default (zget (symbol_meta data) c));
  hd_targets t id : zget (targets data) t = Some id → target_id_of s t = Some id ∧
    rd_target_meta s t = Some (default TargetMeta_default (zget (target_meta data) t));
  hd_docs d doc occs : zget (docs data) d = Some doc → zget (doc_occurrences data) d = Some occs →
    doc_holds s c2s d doc occs;
  hd_ref : role_holds (ref_group s) (ref_record s) (ref_occurrences data);
  hd_def : role_holds (def_group s) (def_record s) (def_occurrences data);
  hd_rename : role_holds (rename_group s) (rename_record s) (rename_occurrences data);
  hd_profiles g pr : zget (rename_profiles data) g = Some pr → rename_profile s g = Some pr;
  hd_search i r : zget (sort_rows (search_rows data)) i = Some r → ∃ q, zget c2s (sr_symbol_ord r) = Some q ∧
    search_row s i = Some (normalized_name r, q)
}.

Let s := opened_reader.

Lemma opened_files idx f : segment_files crc32c segment_id created_at_ms data p !! idx = Some f → file s idx = f.2.
Proof. apply file_at. done. Qed.

Lemma role_holds_pass gi idx profiles blocks0 groups layout blocks n :
  layout_ok (words_of data) blocks0 groups layout blocks →
  Forall (Forall (occ_valid (zlen (docs data)) (zlen (targets data)) (words_of data))) groups →
  file s gi = serialize_group_index (gl_entries layout) profiles → file s idx = serialize_group_postings layout →
  n = prefix_sum zlen groups (zlen groups) → n < 2 ^ 31 → zlen blocks < 2 ^ 31 →
  role_holds (group_index_view (file s gi)) (group_record (file s idx)) groups.
Proof.
  intros Hok Hocc Hgi Hidx -> Hn Hb g grp Hg.
  destruct (role_entry s gi (words_of data) profiles blocks0 groups layout blocks (zlen blocks) Hok Hgi Hn ltac:(lia) g grp Hg)
    as (e & -> & Hv & _ & _ & _ & _ & _).
  eexists. split; [exact Hv|]. cbn [gv_count gv_offset]. split; [done|]. intros k o Hk.
  assert (Forall (Forall (occ_valid (doc_count s) (target_count s) (words_of data))) groups) as Hocc' by exact Hocc.
  destruct (role_reads s idx (words_of data) blocks0 groups layout blocks Hok Hidx Hocc' Hn) as [_ Hr].
  eapply ra_record, occ_at; [exact Hr|]. by eapply group_occ_at.
Qed.

Lemma profile_reads g pr :
  zget (rename_profiles data) g = Some pr → profile_typed pr → rename_profile s g = Some pr.
Proof.
  intros Hg [T1 T2]. pose proof (opened_files RENAME_GROUP_INDEX _ eq_refl) as F. cbn [snd] in F.
  pose proof (lo_count _ _ _ _ _ (pk_rename _ _ Hp)) as Hc.
  pose proof (holds_at_self (file s RENAME_GROUP_INDEX)) as HX. rewrite F in HX at 2. unfold serialize_group_index in HX.
  apply holds_at_app in HX as [_ HX]. apply holds_at_app in HX as [_ HX]. rewrite zlen_put_i64 in HX.
  rewrite (zlen_rows put_entry 16), Hc in HX by (intros; unfold put_entry; by autorewrite with zlen).
  eapply (holds_at_row put_profile 16) in HX; [|intros; unfold put_profile; by autorewrite with zlen|exact Hg].
  unfold put_profile in HX. at_split HX. rewrite ?zlen_put_i32 in *.
  set (f := file s RENAME_GROUP_INDEX) in *. set (b := 8 + zlen (rename_occurrences data) * 16 + g * 16).
  assert (inS 32 (profile_flags pr)) as Hf by (destruct pr as [[] [] [] [] [] [] ? ?]; by vm_compute).
  assert (read_i32 f b = Some (profile_flags pr)) as R0 by (at_read; done).
  assert (read_i32 f (b + 4) = Some (rp_editable_occurrence_count pr)) as R1 by (at_read; done).
  assert (read_i64 f (b + 8) = Some (rp_unsafe_reason_mask pr)) as R2 by (at_read; done).
  unfold rename_profile. change (8 + rename_group_count s * GROUP_INDEX_ENTRY_SIZE + g * RENAME_PROFILE_ENTRY_SIZE) with b.
  fold f. rewrite R0, R1, R2. cbn [mbind option_bind]. by destruct pr as [[] [] [] [] [] [] ? ?].
Qed.

Lemma doc_holds_pass d doc occs :
  zget (docs data) d = Some doc → zget (doc_occurrences data) d = Some occs → doc_holds s (p_c2s p) d doc occs.
Proof.
  intros Hd Ho. pose proof (opened_files DOC_INDEX _ eq_refl) as F1. pose proof (opened_files DOC_POSTINGS _ eq_refl) as F2.
  cbn [snd] in F1, F2.
  destruct (remap_range data p Hp s eq_refl) as [E1 E2].
  destruct (doc_conditions data Hvalid Hsized s eq_refl eq_refl) as (C1 & C2 & C3 & C4 & C5 & C6 & C7).
  pose proof (doc_reads s _ _ _ _ (pk_docs _ _ Hp) F1 C6 C1 C2 C3 C4 d doc occs Hd Ho) as Hr. cbv zeta in Hr.
  destruct Hr as (R0 & R1 & R2 & R3 & R4 & R5 & R6 & R7 & R8 & R9 & Hsl & B1 & _ & _ & (Hwf & _)).
  destruct (doc_index_at s _ _ _ _ (pk_docs _ _ Hp) F1 C2 C3 C4) as (_ & A1 & _).
  destruct (docs_sizes _ _ _ _ (pk_docs _ _ Hp)) as (Z1 & Z2 & Z3 & Z4 & _).
  destruct (doc_columns s _ _ _ _ (pk_docs _ _ Hp) F2 E1 E2 C5 C7 C1) as [_ Hcols].
  pose proof (zlen_nonneg (as_bytes (doc_uri doc))) as U0. fold (str_len (doc_uri doc)) in U0.
  pose proof (zget_Some_lt _ _ _ Hd) as Hlt. unfold uri_len in *.
  pose proof (prefix_sum_nonneg uri_len uri_len_nonneg (docs data) d ltac:(lia)). unfold uri_len in *.
  set (ic := prefix_sum nblocks (doc_occurrences data) (zlen (doc_occurrences data))) in *.
  assert (read_i64 (file s DOC_INDEX) 8 = Some ic) as R8' by (at_read; unfold inS; lia).
  split; unfold doc_id_of, epoch_of, target_ord_of_doc, rd_doc_generated, rd_doc_readonly, doc_flags_of, doc_entry,
    doc_entry_base; change DOC_ENTRY_SIZE with 48; try done.
  - unfold uri_of, uri_blob_start, interval_count_total. rewrite R8'. cbn [mbind option_bind].
    rewrite as_usize_nonneg by lia. change DOC_ENTRY_SIZE with 48. change INTERVAL_ENTRY_SIZE with 24.
    eapply blob_str_at; [exact R0|exact R1|lia|lia|exact Hsl|done].
  - split; [done|]. unfold s. cbn [doc_epochs opened_reader with_epochs]. by rewrite zget_fmap, Hd.
  - rewrite R5. cbn [fmap option_fmap option_map]. unfold flags_of. by destruct (doc_generated doc), (doc_readonly doc).
  - rewrite R6, R7, R8, R9. cbn [mbind option_bind]. eexists. split; [done|]. cbn [dv_postings_count dv_postings_offset].
    split; [done|]. intros k o Hk. apply Hcols. by eapply doc_occ_at.
Qed.

Lemma remap_perm : p_c2s p ≡ₚ seqZ 0 (zlen (symbols data)).
Proof.
  destruct (pk_inverse _ _ Hp) as [Hl Hget Hback]. destruct (remap_range data p Hp s eq_refl) as [_ E2].
  apply submseteq_length_Permutation.
  - apply NoDup_submseteq.
    + apply NoDup_alt. intros i j x Hi Hj. rewrite <- zget_of_nat in Hi, Hj. apply Hback in Hi, Hj.
      rewrite Hi in Hj. injection Hj. lia.
    + intros q (c & Hc)%elem_of_zget. apply elem_of_seqZ_0. by apply (E2 c).
  - rewrite length_seqZ. unfold zlen in *. lia.
Qed.

(** The dictionary's entries, whose positions [c2s] gives. *)
Lemma dict_conditions :
  zlen (p_syms p) = zlen (symbols data) ∧ zlen (p_syms p) < 2 ^ 31 ∧
  prefix_sum (data_len symbol_bytes_of) (p_syms p) (zlen (p_syms p)) < 2 ^ 31 ∧
  Forall (symbol_valid (ref_group_count s) (rename_group_count s) (target_count s)) (p_syms p).
Proof.
  destruct (sz_counts _ Hsized) as (_ & _ & N & _). pose proof (pk_perm _ _ Hp) as Hperm.
  assert (zlen (p_syms p) = zlen (symbols data)) as Hl by (unfold zlen; by rewrite Hperm).
  split_and!; [done|lia| |rewrite Hperm; apply Hvalid]. rewrite prefix_sum_all.
  fold (total (data_len symbol_bytes_of) (p_syms p)). rewrite (total_perm _ _ _ Hperm). apply Hsized.
Qed.

Lemma symbol_holds c y :
  zget (symbols data) c = Some y → ∃ q, zget (p_c2s p) c = Some q ∧
    semantic_symbol_of s q = Some (ss_semantic_symbol y) ∧
    symbol_view s q = Some (mkSymbolView (ss_symbol_id y) (ss_ref_group_ord y) (ss_rename_group_ord y) (ss_def_target_ord y)) ∧
    rd_symbol_meta s q = Some (default SymbolMeta_default (zget (symbol_meta data) c)).
Proof.
  intros Hy. destruct (pk_inverse _ _ Hp) as [Hl _ Hback]. destruct dict_conditions as (L1 & L2 & L3 & L4).
  destruct (symbol_conditions data p Hvalid Hsized Hmetas Hp s eq_refl eq_refl) as (S1 & S2 & S3 & S4).
  destruct (sz_counts _ Hsized) as (_ & N2 & _).
  pose proof (zget_Some_lt _ _ _ Hy). destruct (zget_is_Some (p_c2s p) c) as [q Hq]; [lia|].
  pose proof (Hback _ _ Hq) as Hs. exists q. split; [done|].
  assert (zget (p_syms p) q = Some y) as Hsym.
  { pose proof (zget_Some_lt _ _ _ Hs) as Hlt. rewrite <- (Z2Nat.id q), zget_of_nat in Hs by lia.
    destruct (Forall2_lookup_l _ _ _ _ _ (pk_syms _ _ Hp) Hs) as (y' & Hy' & Hyc).
    rewrite <- zget_of_nat, Z2Nat.id in Hy' by lia. congruence. }
  destruct (symbol_reads s (p_syms p) (targets data) (opened_files SYMBOL_INDEX _ eq_refl) ltac:(done) ltac:(done)
    L2 N2 L3 L4 (ty_targets _ Htyped) q y Hsym) as [Q1 Q2].
  split_and!; [done|done|]. eapply symbol_meta_reads; try eassumption; [apply (opened_files SYMBOL_META _ eq_refl)|done|].
  unfold symbol_metas. by rewrite zget_fmap, Hs.
Qed.

Lemma target_holds t id :
  zget (targets data) t = Some id → target_id_of s t = Some id ∧
    rd_target_meta s t = Some (default TargetMeta_default (zget (target_meta data) t)).
Proof.
  intros Ht. destruct dict_conditions as (L1 & L2 & L3 & L4). destruct (sz_counts _ Hsized) as (_ & N2 & _).
  destruct (target_conditions data Htyped Hvalid Hsized s eq_refl) as (T1 & T2 & T3 & T4).
  destruct (dict_file s (p_syms p) (targets data) (opened_files SYMBOL_INDEX _ eq_refl) L2 N2 L3 (ty_targets _ Htyped))
    as (_ & _ & _ & _ & Hids & _). split.
  - unfold target_id_of. change SYMBOL_ENTRY_SIZE with 32. change (symbol_count s) with (zlen (symbols data)).
    rewrite <- L1. by apply Hids.
  - eapply target_meta_reads; try eassumption; [apply (opened_files TARGET_META _ eq_refl)|done|].
    unfold target_metas. rewrite zget_filled; [done|]. by apply zget_Some_lt in Ht.
Qed.

Lemma opened_holds : holds_data s data (p_c2s p).
Proof.
  destruct (groups_bounds data Hsized) as (HR & HD & HN & Hsum & _). unfold total in *.
  destruct (block_sizes data p Hsized Hp) as (B1 & B2 & _ & _). destruct (sz_counts _ Hsized) as (N1 & N2 & N3 & N4 & N5 & N6).
  destruct (remap_range data p Hp s eq_refl) as [E1 E2].
  destruct (target_conditions data Htyped Hvalid Hsized s eq_refl) as (T1 & T2 & T3 & T4).
  destruct (symbol_conditions data p Hvalid Hsized Hmetas Hp s eq_refl eq_refl) as (S1 & S2 & S3 & S4).
  destruct (search_conditions data p Hvalid Hsized Hp s eq_refl) as (R1 & R2 & R3 & R4).
  assert (∀ grps, grps ∈ [ref_occurrences data; def_occurrences data; rename_occurrences data] →
    prefix_sum zlen grps (zlen grps) < 2 ^ 31) as Hrec.
  { intros grps Hin. rewrite prefix_sum_all.
    repeat (apply elem_of_cons in Hin as [->|Hin]; [lia|]). by apply elem_of_nil in Hin. }
  split.
  - apply remap_perm.
  - done.
  - apply symbol_holds.
  - apply target_holds.
  - apply doc_holds_pass.
  - eapply role_holds_pass; [apply Hp|apply (va_groups _ Hvalid); set_solver|apply (opened_files REF_GROUP_INDEX _ eq_refl)
      |apply (opened_files REF_POSTINGS _ eq_refl)|done|apply Hrec; set_solver|lia].
  - eapply role_holds_pass; [apply Hp|apply (va_groups _ Hvalid); set_solver|apply (opened_files DEF_GROUP_INDEX _ eq_refl)
      |apply (opened_files DEF_POSTINGS _ eq_refl)|done|apply Hrec; set_solver|lia].
  - eapply role_holds_pass; [apply Hp|apply (va_groups _ Hvalid); set_solver|apply (opened_files RENAME_GROUP_INDEX _ eq_refl)
      |apply (opened_files RENAME_POSTINGS _ eq_refl)|done|apply Hrec; set_solver|lia].
  - intros g pr Hg. apply profile_reads; [done|]. pose proof (ty_profiles _ Htyped) as Ht. rewrite Forall_forall in Ht.
    by eapply Ht, zget_elem_of.
  - intros i r Hi. eapply search_reads; try eassumption. apply (opened_files SEARCH _ eq_refl).
Qed.
End opening.

(** ** The properties *)

(** C26. Writing is total and exact: on an input of its Rust types whose sizes fit the format,
    [build_segment] returns the fourteen checksummed files when [validate] accepts the input and
    the symbol strings are distinct, and otherwise fails with [InvalidInput]; it never panics. *)
Theorem build_segment_exact (crc32c : bytes → Z) `{!DebugStr} segment_id created_at_ms data :
  data_typed data → data_sized data →
  (validate data = Ok tt ∧ NoDup (ss_semantic_symbol <$> symbols data) →
     ∃ fs sums, build_segment crc32c segment_id data created_at_ms = Ok (fs, sums) ∧ fs.*1 = CHECKSUMMED_FILES) ∧
  (¬ (validate data = Ok tt ∧ NoDup (ss_semantic_symbol <$> symbols data)) →
     ∃ detail, build_segment crc32c segment_id data created_at_ms = Err (Fails (InvalidInput detail))).
Proof.
  intros Ht Hs. assert (Forall (λ y, wf_str (ss_semantic_symbol y)) (symbols data)) as Hwf.
  { eapply Forall_impl; [apply (ty_symbols _ Ht)|]. by intros y (? & _). }
  destruct (sort_symbol_indices_exact data Hwf) as [_ Hdup]. split.
  - intros [Hv Hnd]. destruct (build_parts crc32c segment_id created_at_ms data (validate_valid _ _ Ht Hv) Hs Hnd Hwf Hv)
      as (p & _ & ->). by eexists _, _.
  - intros Hn. unfold build_segment. destruct (validate_outcome data) as [[[] Hv]|[d Hd]]; [|exists d; by rewrite Hd].
    rewrite Hv. cbn [mbind result_bind]. destruct Hdup as [x Hx]; [by intros Hnd; apply Hn|].
    rewrite Hx. by eexists.
Qed.

(** What the writer emits opens and holds the input. *)
Lemma segment_opens (crc32c : bytes → Z) `{!DebugStr} segment_id created_at_ms data fs sums read_file dir :
  (∀ b, inU 32 (crc32c b)) → inU 64 segment_id → inS 64 created_at_ms →
  data_typed data → data_sized data → metas_readable data →
  build_segment crc32c segment_id data created_at_ms = Ok (fs, sums) → holds_files read_file dir fs sums →
  ∃ s c2s, data_valid data ∧ reader_open crc32c read_file dir = Ok s ∧ rd_segment_id s = segment_id ∧
    rd_created_at_ms s = created_at_ms ∧ holds_data s data c2s.
Proof.
  intros Hcrc Hid Hcr Ht Hs Hm Hb Hdir. assert (Forall (λ y, wf_str (ss_semantic_symbol y)) (symbols data)) as Hwf.
  { eapply Forall_impl; [apply (ty_symbols _ Ht)|]. by intros y (? & _). }
  assert (validate data = Ok tt ∧ NoDup (ss_semantic_symbol <$> symbols data)) as [Hv Hnd].
  { unfold build_segment in Hb. apply bind_Ok in Hb as ([] & Hv & Hb). apply bind_Ok in Hb as (sorted & Hsort & _).
    split; [done|]. destruct (sort_symbol_indices_exact data Hwf) as [_ Hdup].
    destruct (decide (NoDup (ss_semantic_symbol <$> symbols data))) as [|Hn]; [done|].
    destruct (Hdup Hn) as [x Hx]. congruence. }
  pose proof (validate_valid _ _ Ht Hv) as Hvalid.
  destruct (build_parts crc32c segment_id created_at_ms data Hvalid Hs Hnd Hwf Hv) as (p & Hp & E).
  rewrite E in Hb. injection Hb as <- <-.
  exists (opened_reader crc32c segment_id created_at_ms data p), (p_c2s p).
  split; [done|]. split; [by apply reader_open_pass|]. split; [done|]. split; [done|]. by apply opened_holds.
Qed.

(** C1. The store round trip: whatever the writer accepts (with symbol metadata, or without it
    and some document for the default to name) opens from any directory that holds its files,
    and the reader gives back every document, occurrence, group, profile, symbol, target,
    metadata record and search row, the symbols under one permutation of the ordinals. *)
Theorem written_segment_reads_back (crc32c : bytes → Z) `{!DebugStr} segment_id created_at_ms data fs sums read_file dir :
  (∀ b, inU 32 (crc32c b)) → inU 64 segment_id → inS 64 created_at_ms →
  data_typed data → data_sized data → metas_readable data →
  build_segment crc32c segment_id data created_at_ms = Ok (fs, sums) → holds_files read_file dir fs sums →
  ∃ s c2s, reader_open crc32c read_file dir = Ok s ∧ rd_segment_id s = segment_id ∧
    rd_created_at_ms s = created_at_ms ∧ holds_data s data c2s.
Proof.
  intros. destruct (segment_opens crc32c segment_id created_at_ms data fs sums read_file dir) as (s & c2s & _ & Hs); [done..|].
  by exists s, c2s.
Qed.

Lemma small_data_typed : data_typed small_data.
Proof. split; refine (bool_decide_unpack _ _); vm_compute; exact I. Qed.

Lemma small_data_sized : data_sized small_data.
Proof. split; by vm_compute. Qed.

(** The example directory holds the files it was given. *)
Lemma dir_of_holds fs sums : fs.*1 = CHECKSUMMED_FILES → holds_files (dir_of fs sums) (lit "seg") fs sums.
Proof.
  intros Hn. unfold holds_files, dir_of. set (l := fs ++ [(CHECKSUMS_FILE, sums)]).
  assert (NoDup (dir_join (lit "seg") <$> l.*1)) as Hnd.
  { unfold l. rewrite fmap_app, Hn. refine (bool_decide_unpack _ _). vm_compute. exact I. }
  clearbody l. induction l as [|f l IH]; [constructor|]. cbn [fmap list_fmap] in Hnd. apply NoDup_cons in Hnd as [Hf Hnd].
  constructor; cbn [List.find]; [by rewrite (proj2 (str_eqb_true _ _) eq_refl)|].
  specialize (IH Hnd). rewrite Forall_forall in IH |- *. intros g Hg. cbn [List.find].
  destruct (str_eqb _ _) eqn:E; [|by apply IH]. apply str_eqb_true in E. destruct Hf. rewrite E.
  apply list_elem_of_fmap. exists g.1. split; [done|]. by apply list_elem_of_fmap_2.
Qed.

Lemma built_names : match build_segment sum_crc 1 small_data 1234 with Ok (fs, _) => fs.*1 = CHECKSUMMED_FILES | Err _ => False end.
Proof.
  assert (match build_segment sum_crc 1 small_data 1234 with Ok (fs, _) => bool_decide (fs.*1 = CHECKSUMMED_FILES) | Err _ => false end = true) as H by by vm_compute.
  destruct (build_segment sum_crc 1 small_data 1234) as [[fs sums]|e]; [|done]. by apply bool_decide_eq_true in H.
Qed.

Lemma build_segment_exact_witness :
  ∃ fs sums, build_segment sum_crc 1 small_data 1234 = Ok (fs, sums) ∧ fs.*1 = CHECKSUMMED_FILES.
Proof.
  apply (build_segment_exact sum_crc 1 1234 small_data small_data_typed small_data_sized).
  split; [by vm_compute|]. refine (bool_decide_unpack _ _). vm_compute. exact I.
Defined.

Lemma written_segment_reads_back_witness :
  match build_segment sum_crc 1 small_data 1234 with
  | Ok (fs, sums) => ∃ s c2s, reader_open sum_crc (dir_of fs sums) (lit "seg") = Ok s ∧ rd_segment_id s = 1 ∧
      rd_created_at_ms s = 1234 ∧ holds_data s small_data c2s
  | Err _ => False
  end.
Proof.
  pose proof built_names as Hn. destruct (build_segment sum_crc 1 small_data 1234) as [[fs sums]|e] eqn:E; [|exact Hn].
  apply (written_segment_reads_back sum_crc 1 1234 small_data fs sums (dir_of fs sums) (lit "seg")).
  - intros b. apply Z.mod_pos_bound. reflexivity.
  - split; [discriminate|reflexivity].
  - split; [discriminate|reflexivity].
  - exact small_data_typed.
  - exact small_data_sized.
  - intros [=].
  - exact E.
  - apply dir_of_holds. exact Hn.
Defined.

(** A segment of one symbol, no document and no metadata: the writer emits it, and the reader
    refuses it, because the default metadata names document 0. *)
Definition orphan_data : SegmentData :=
  mkSegmentData [] [] [mkSegmentSymbol (lit "p/A#") 1 (-1) (-1) (-1)] [] [] [] [] [] [] [] [].

Example orphan_segment_unreadable :
  match build_segment sum_crc 1 orphan_data 0 with
  | Ok (fs, sums) =>
      reader_open sum_crc (dir_of fs sums) (lit "seg") = Err (Fails (Structural (lit "symbol-meta def_doc_ord")))
  | Err _ => False
  end.
Proof. vm_compute. reflexivity. Qed.
