(* ===== verification/SegRefine.v ===== *)
(** The segment as an implementation of an index: queries of the opened files answer what
    the same queries over the writer's input would. *)

From S2P Require Import Prelude RustStr IndexModel Bitset StoreFormat SegReader SegSafe SegWriter SegLayout SegValid SegPostings SegRound SegScan SegExample.

Open Scope Z_scope.

(** ** The specification: queries over the input *)

Section spec.
Context (data : SegmentData).

(** The occurrence is of its document's current epoch. *)
Definition occ_current (o : GroupOcc) : bool :=
  match zget (docs data) (go_doc_ord o) with
  | Some d => bool_decide (doc_epoch d = go_doc_epoch o)
  | None => false
  end.

Definition target_allowed (allowed : option TargetBitset) (t : Z) : bool :=
  match allowed with Some a => bool_decide (bitset_contains a t = Some true) | None => true end.

(** The occurrences of a group a scan should yield, in posting order. *)
Definition spec_scan (allowed : option TargetBitset) (require_editable : bool) (group : list GroupOcc)
    : list GroupOcc :=
  List.filter (λ o, target_allowed allowed (go_target_ord o) && occ_current o &&
                    (negb require_editable || has (as_u32 (go_flags o)) OCC_EDITABLE)) (sort_group group).

Definition spec_doc (require_editable : bool) (occs : list DocOcc) : list DocOcc :=
  List.filter (λ o, negb require_editable || has (as_u32 (do_flags o)) OCC_EDITABLE) (sort_doc occs).
End spec.

(** ** Lemmas *)

Lemma filter_fmap {A B : Type} (f : A → B) (P : B → bool) (Q : A → bool) l :
  (∀ x, x ∈ l → P (f x) = Q x) → List.filter P (f <$> l) = f <$> List.filter Q l.
Proof.
  induction l as [|x l IH]; intros H; [done|]. cbn [fmap list_fmap List.filter].
  rewrite H by left. rewrite IH by (intros; apply H; by right). by destruct (Q x).
Qed.

Lemma group_records_eq s idx e (l : list GroupRecord) :
  gv_count e = zlen l → (∀ k r, zget l k = Some r → group_record (file s idx) (gv_offset e + k) = Some r) →
  group_records s idx e = Some l.
Proof.
  intros Hl Hr. unfold group_records. rewrite Hl, (mapM_seqZ _ id); [by rewrite list_fmap_id|]. intros k r. apply Hr.
Qed.

Section refine.
Context (s : SegmentReader) (z : sizes) (Hv : valid s z) (data : SegmentData) (c2s : list Z).
Context (Hh : holds_data s data c2s) (Hlen : zlen (doc_occurrences data) = zlen (docs data)).

(** The scan's filter on a stored record is the specification's on the occurrence. *)
Lemma wanted_spec allowed editable o :
  0 ≤ go_doc_ord o < zlen (docs data) →
  wanted s allowed editable (record_of o) =
    target_allowed allowed (go_target_ord o) && occ_current data o &&
    (negb editable || has (as_u32 (go_flags o)) OCC_EDITABLE).
Proof.
  intros Hd. unfold wanted, target_allowed, occ_current. cbn [record_of gr_target_ord gr_doc_ord gr_doc_epoch].
  destruct (zget_is_Some (docs data) (go_doc_ord o) Hd) as [d Hdoc].
  destruct (zget_is_Some (doc_occurrences data) (go_doc_ord o)) as [occs Ho]; [lia|].
  destruct (dh_epoch _ _ _ _ _ (hd_docs _ _ _ Hh _ _ _ Hdoc Ho)) as [-> _]. rewrite Hdoc.
  f_equal. f_equal. apply bool_decide_ext. split; [by intros [=]|by intros ->].
Qed.

Lemma scan_spec gi idx count n bc groups allowed editable g grp :
  match allowed with Some a => bitset_wf a | None => True end →
  role_ok s gi idx count n bc → count = zlen groups →
  role_holds (group_index_view (file s gi)) (group_record (file s idx)) groups →
  Forall (Forall (λ o, 0 ≤ go_doc_ord o < zlen (docs data))) groups → zget groups g = Some grp →
  (e ← group_index_view (file s gi) g; scan_group s idx e allowed editable) =
    Some (record_of <$> spec_scan data allowed editable grp).
Proof.
  intros Ha Hrole -> Hholds Hocc Hg. pose proof (zget_Some_lt _ _ _ Hg) as Hlt.
  destruct (role_serves _ _ _ _ _ _ _ Hrole Hlt) as (e & He & _).
  destruct (scan_group_exact s z Hv allowed Ha editable _ _ _ _ _ _ (proj1 Hrole) He) as (recs & Hrecs & _ & Hscan).
  rewrite (gk_view _ _ _ _ _ _ _ He). cbn [mbind option_bind]. rewrite Hscan. f_equal.
  destruct (Hholds g grp Hg) as (e' & He' & Hc & Hr). rewrite (gk_view _ _ _ _ _ _ _ He) in He'. injection He' as <-.
  rewrite (group_records_eq s idx e (record_of <$> sort_group grp)) in Hrecs.
  - injection Hrecs as <-. apply filter_fmap. intros o Ho. apply wanted_spec.
    rewrite Forall_forall in Hocc. pose proof (Hocc grp (zget_elem_of _ _ _ Hg)) as Hgo.
    rewrite Forall_forall in Hgo. apply Hgo. unfold sort_group in Ho. by rewrite elem_of_sort_by in Ho.
  - rewrite Hc, zlen_fmap. unfold sort_group. by rewrite zlen_sort_by.
  - intros k r Hk. rewrite SegLayout.zget_fmap in Hk. destruct (zget (sort_group grp) k) as [o|] eqn:E; [|done].
    injection Hk as <-. by apply Hr.
Qed.

Lemma scan_doc_spec editable d doc occs :
  zget (docs data) d = Some doc → zget (doc_occurrences data) d = Some occs →
  scan_doc s d editable = Some (doc_record_of c2s <$> spec_doc editable occs).
Proof.
  intros Hd Ho. destruct (dh_occs _ _ _ _ _ (hd_docs _ _ _ Hh _ _ _ Hd Ho)) as (e & He & Hc & Hr).
  unfold scan_doc. rewrite He. cbn [mbind option_bind].
  assert (zlen (sort_doc occs) = zlen occs) as Hl by (unfold sort_doc; apply zlen_sort_by).
  rewrite Hc, <- Hl. rewrite (collect_seqZ _ (λ o, if negb editable || has (as_u32 (do_flags o)) OCC_EDITABLE
    then [doc_record_of c2s o] else []) _ (sort_doc occs)).
  - f_equal. unfold spec_doc. clear Hr Hl. induction (sort_doc occs) as [|o l IH]; [done|]. cbn [fmap list_fmap concat List.filter].
    rewrite IH. by destruct (negb editable || _).
  - intros k o Hk. rewrite (Hr k o Hk). cbn [mbind option_bind]. cbn [doc_record_of dr_flags].
    by destruct editable, (has (as_u32 (do_flags o)) OCC_EDITABLE).
Qed.
End refine.

(** ** The refinement *)

(** C2. Refinement: opened from its files, a segment answers every query as the specification
    over the writer's input does. A reference, definition or rename scan yields the
    occurrences of the group, in posting order, that are allowed, current and (for renames)
    editable; a document scan yields the document's occurrences; and looking a symbol's
    string up finds the ordinal its occurrences were stored under. *)
Theorem segment_refines_input (crc32c : bytes → Z) `{!DebugStr} segment_id created_at_ms data fs sums read_file dir :
  (∀ b, inU 32 (crc32c b)) → inU 64 segment_id → inS 64 created_at_ms →
  data_typed data → data_sized data → metas_readable data →
  build_segment crc32c segment_id data created_at_ms = Ok (fs, sums) → holds_files read_file dir fs sums →
  (∀ q b, read_file q = Found b → zlen b < 2 ^ 63) →
  ∃ s c2s, reader_open crc32c read_file dir = Ok s ∧ c2s ≡ₚ seqZ 0 (zlen (symbols data)) ∧
    (∀ g grp allowed, match allowed with Some a => bitset_wf a | None => True end →
       zget (ref_occurrences data) g = Some grp →
       scan_ref_group s g allowed = Some (record_of <$> spec_scan data allowed false grp)) ∧
    (∀ g grp, zget (def_occurrences data) g = Some grp →
       scan_def_group s g = Some (record_of <$> spec_scan data None false grp)) ∧
    (∀ g grp, zget (rename_occurrences data) g = Some grp →
       scan_rename_group s g = Some (record_of <$> spec_scan data None true grp)) ∧
    (∀ d doc occs editable, zget (docs data) d = Some doc → zget (doc_occurrences data) d = Some occs →
       scan_doc s d editable = Some (doc_record_of c2s <$> spec_doc editable occs)) ∧
    (∀ c y, zget (symbols data) c = Some y → ∃ q, zget c2s c = Some q ∧
       find_symbol_ord s (ss_semantic_symbol y) = Some (Some q)).
Proof.
  intros Hcrc Hid Hcr Ht Hs Hm Hb Hdir Hfit.
  destruct (segment_opens crc32c segment_id created_at_ms data fs sums read_file dir Hcrc Hid Hcr Ht Hs Hm Hb Hdir)
    as (s & c2s & Hv & Hopen & _ & _ & Hh).
  destruct (reader_open_valid crc32c read_file Hfit dir s Hopen) as [z Hz].
  destruct (hd_counts _ _ _ Hh) as (Csym & _ & _ & Cref & Cren). pose proof (va_doc_occs _ Hv) as Hlen.
  assert (∀ grps, grps ∈ [ref_occurrences data; def_occurrences data; rename_occurrences data] →
    Forall (Forall (λ o, 0 ≤ go_doc_ord o < zlen (docs data))) grps) as Hocc.
  { intros grps Hin. eapply Forall_impl; [exact (va_groups _ Hv grps Hin)|]. intros g Hg.
    eapply Forall_impl; [exact Hg|]. by intros o (_ & ? & _). }
  exists s, c2s. split; [done|]. split; [apply Hh|]. split_and!.
  - intros g grp allowed Ha Hg. eapply (scan_spec s z Hz data c2s Hh Hlen); [done|apply Hz|done|apply Hh|apply Hocc; set_solver|done].
  - intros g grp Hg. eapply (scan_spec s z Hz data c2s Hh Hlen); [done|apply Hz|rewrite (va_def _ Hv); done|apply Hh|apply Hocc; set_solver|done].
  - intros g grp Hg. eapply (scan_spec s z Hz data c2s Hh Hlen); [done|apply Hz|done|apply Hh|apply Hocc; set_solver|done].
  - intros. by eapply scan_doc_spec.
  - intros c y Hy. destruct (hd_symbols _ _ _ Hh c y Hy) as (q & Hq & Hstr & _). exists q. split; [done|].
    assert (wf_str (ss_semantic_symbol y)) as Hwf.
    { pose proof (ty_symbols _ Ht) as Hty. rewrite Forall_forall in Hty. by destruct (Hty y (zget_elem_of _ _ _ Hy)). }
    apply (find_symbol_at s z q _ Hz); [|done| |done].
    + destruct (sz_counts _ Hs) as (_ & _ & ? & _). lia.
    + rewrite Csym. apply elem_of_seqZ_0. rewrite <- (hd_remap _ _ _ Hh). by eapply zget_elem_of.
Qed.

(** The files of the example are small. *)
Lemma dir_of_fits fs sums :
  forallb (λ f : list Z * bytes, zlen f.2 <? 2 ^ 63) (fs ++ [(CHECKSUMS_FILE, sums)]) = true →
  ∀ q b, dir_of fs sums q = Found b → zlen b < 2 ^ 63.
Proof.
  intros H q b. unfold dir_of. destruct (List.find _ _) as [f|] eqn:Ef; [|done]. intros [= <-].
  apply find_some in Ef as [Hin _]. rewrite forallb_forall in H. by apply Z.ltb_lt, H.
Qed.

Lemma built_fits :
  match build_segment sum_crc 1 small_data 1234 with
  | Ok (fs, sums) => forallb (λ f : list Z * bytes, zlen f.2 <? 2 ^ 63) (fs ++ [(CHECKSUMS_FILE, sums)]) = true
  | Err _ => False
  end.
Proof.
  assert (match build_segment sum_crc 1 small_data 1234 with
    | Ok (fs, sums) => forallb (λ f : list Z * bytes, zlen f.2 <? 2 ^ 63) (fs ++ [(CHECKSUMS_FILE, sums)])
    | Err _ => false end = true) as H by (vm_compute; reflexivity).
  by destruct (build_segment sum_crc 1 small_data 1234) as [[fs sums]|e].
Qed.

(** A built segment of the example input answers a scan of its first reference group. *)
Lemma segment_refines_input_witness :
  match build_segment sum_crc 1 small_data 1234 with
  | Ok (fs, sums) => ∃ s, reader_open sum_crc (dir_of fs sums) (lit "seg") = Ok s ∧
      ∀ grp, zget (ref_occurrences small_data) 0 = Some grp →
        scan_ref_group s 0 None = Some (record_of <$> spec_scan small_data None false grp)
  | Err _ => False
  end.
Proof.
  pose proof built_names as Hn. pose proof built_fits as Hf.
  destruct (build_segment sum_crc 1 small_data 1234) as [[fs sums]|e] eqn:E; [|exact Hn].
  destruct (segment_refines_input sum_crc 1 1234 small_data fs sums (dir_of fs sums) (lit "seg")) as (s & c2s & Hs & _ & H & _).
  - intros b. apply Z.mod_pos_bound. reflexivity.
  - split; [discriminate|reflexivity].
  - split; [discriminate|reflexivity].
  - exact small_data_typed.
  - exact small_data_sized.
  - intros [=].
  - exact E.
  - apply dir_of_holds. exact Hn.
  - apply dir_of_fits. exact Hf.
  - exists s. split; [exact Hs|]. intros grp Hg. exact (H 0 grp None I Hg).
Defined.
