(* ===== verification/WorkspaceState.v ===== *)
(** The workspace-state container ([ls-store/src/workspace_state.rs]): a 32-byte header with
    two checksums over an opaque payload, and the loader that refuses everything else.

    The file's bytes are the argument of [load]; reading them from disk is in [Durable].
    CRC32C is the argument [crc32c]. *)

From S2P Require Import Prelude RustStr StoreFormat SegLayout SegExample.

Open Scope Z_scope.

Definition STATE_MAGIC : Z := 0x4c535754.
Definition STATE_VERSION : Z := 1.
Definition STATE_HEADER_SIZE : Z := 32.
Definition STATE_HEADER_CHECKSUM_OFFSET : Z := 28.

Record WorkspaceState := mkWorkspaceState { ws_generation : Z; ws_payload : bytes }.

Definition state_file_name (generation : Z) : list Z :=
  lit "workspace-state-" ++ show_u generation ++ lit ".bin".
Definition state_tmp_name (generation : Z) : list Z :=
  lit "workspace-state-" ++ show_u generation ++ lit ".bin.tmp".

(** How a store operation stops short: a typed error or a panic. *)
Inductive StoreStop :=
| Refuses (e : StoreError)
| Aborts.
Abbreviation store_outcome A := (result StoreStop A) (only parsing).

Section state.
Context (crc32c : bytes → Z).

(** [serialize]: the slice [[..28]] is of the 28 bytes written so far. *)
Definition serialize (generation : Z) (payload : bytes) : bytes :=
  let buf := put_u32 STATE_MAGIC ++ put_u16 STATE_VERSION ++ put_u16 0 ++ put_u64 generation ++
             put_u64 (as_u64 (zlen payload)) ++ put_u32 (crc32c payload) in
  buf ++ put_u32 (crc32c (default [] (slice buf 0 STATE_HEADER_CHECKSUM_OFFSET))) ++ payload.

Definition payload_checksum (payload : bytes) : Z := crc32c payload.

Definition corrupt (detail : list Z) : StoreStop := Refuses (StateCorrupt detail).
(** [read_*(..).unwrap()] *)
Definition must {A : Type} (o : option A) : store_outcome A := ok_or o Aborts.

(** The body of [load], on the bytes of the file. *)
Definition load (bytes : bytes) (generation expected_checksum : Z) : store_outcome WorkspaceState :=
  if zlen bytes <? STATE_HEADER_SIZE then
    Err (corrupt (lit "truncated header: " ++ show_u (zlen bytes) ++ lit " bytes")) else
  magic ← must (read_u32 bytes 0);
  if negb (magic =? STATE_MAGIC) then Err (corrupt (lit "bad magic")) else
  version ← must (read_u16 bytes 4);
  if STATE_VERSION <? version then Err (Refuses (FutureSchema (lit "workspace-state") version)) else
  if negb (version =? STATE_VERSION) then
    Err (corrupt (lit "unsupported version " ++ show_u version)) else
  flags ← must (read_u16 bytes 6);
  if negb (flags =? 0) then Err (corrupt (lit "flags nonzero")) else
  stored_header_crc ← must (read_u32 bytes STATE_HEADER_CHECKSUM_OFFSET);
  prefix ← must (slice bytes 0 STATE_HEADER_CHECKSUM_OFFSET);
  if negb (stored_header_crc =? crc32c prefix) then Err (corrupt (lit "header checksum mismatch")) else
  file_generation ← must (read_u64 bytes 8);
  payload_len ← must (read_u64 bytes 16);
  stored_payload_crc ← must (read_u32 bytes 24);
  if 2 ^ 64 <=? STATE_HEADER_SIZE + payload_len then Err (corrupt (lit "payload_len overflow")) else
  let end_ := STATE_HEADER_SIZE + payload_len in
  if negb (zlen bytes =? end_) then
    Err (corrupt (lit "payload length " ++ show_u payload_len ++ lit " != file body " ++
                  show_u (zlen bytes - STATE_HEADER_SIZE))) else
  payload ← must (slice bytes STATE_HEADER_SIZE (end_ - STATE_HEADER_SIZE));
  if negb (crc32c payload =? stored_payload_crc) then Err (corrupt (lit "payload checksum mismatch")) else
  if negb (file_generation =? generation) then
    Err (Refuses (PairMismatch (lit "state generation " ++ show_u file_generation ++ lit " != manifest " ++
                                show_u generation))) else
  if negb (stored_payload_crc =? expected_checksum) then
    Err (Refuses (PairMismatch (lit "state payload checksum != manifest state_checksum"))) else
  Ok (mkWorkspaceState generation payload).
End state.

(** ** Lemmas: the bytes of a field, and adjacent slices *)

Lemma slice_join {A : Type} (b s t : list A) off l1 l2 :
  slice b off l1 = Some s → slice b (off + l1) l2 = Some t → slice b off (l1 + l2) = Some (s ++ t).
Proof.
  intros (p & q & -> & <- & <-)%slice_Some (p' & q' & E & Hp & <-)%slice_Some. apply slice_Some.
  assert (p' = p ++ s ∧ q = t ++ q') as [-> ->].
  { rewrite app_assoc in E. apply app_inj_1 in E as [-> ->]; [done|].
    rewrite <- zlen_app in Hp. unfold zlen in Hp. lia. }
  exists p, q'. rewrite zlen_app. by rewrite <- !app_assoc.
Qed.

Lemma slice_whole {A : Type} (b : list A) : slice b 0 (zlen b) = Some b.
Proof. apply slice_Some. exists [], []. by rewrite app_nil_r. Qed.

Lemma le_slice b off n v :
  le_val <$> slice b off (Z.of_nat n) = Some v → slice b off (Z.of_nat n) = Some (le_bytes n v) ∧ 0 ≤ v < 256 ^ Z.of_nat n.
Proof.
  destruct (slice b off (Z.of_nat n)) as [s|] eqn:E; [|done]. cbn. intros [= <-].
  apply slice_length in E. split; [|rewrite <- E; apply le_val_range].
  assert (n = length s) as -> by (unfold zlen in E; lia). by rewrite le_bytes_le_val.
Qed.
Lemma read_u16_slice b off v : read_u16 b off = Some v → slice b off 2 = Some (put_u16 v) ∧ inU 16 v.
Proof. apply (le_slice b off 2). Qed.
Lemma read_u32_slice b off v : read_u32 b off = Some v → slice b off 4 = Some (put_u32 v) ∧ inU 32 v.
Proof. apply (le_slice b off 4). Qed.
Lemma read_u64_slice b off v : read_u64 b off = Some v → slice b off 8 = Some (put_u64 v) ∧ inU 64 v.
Proof. apply (le_slice b off 8). Qed.

Section state_lemmas.
Context (crc32c : bytes → Z) (Hcrc : ∀ b, inU 32 (crc32c b)).

(** The 28 bytes the header checksum covers. *)
Definition state_prefix (generation : Z) (payload : bytes) : bytes :=
  put_u32 STATE_MAGIC ++ put_u16 STATE_VERSION ++ put_u16 0 ++ put_u64 generation ++
  put_u64 (zlen payload) ++ put_u32 (crc32c payload).

Lemma zlen_state_prefix g payload : zlen (state_prefix g payload) = 28.
Proof. unfold state_prefix. by autorewrite with zlen. Qed.

Lemma serialize_eq g payload :
  zlen payload < 2 ^ 63 →
  serialize crc32c g payload = state_prefix g payload ++ put_u32 (crc32c (state_prefix g payload)) ++ payload.
Proof.
  intros Hl. unfold serialize. cbv zeta. unfold as_u64. rewrite wrapU_id by (unfold inU; pose proof (zlen_nonneg payload); lia).
  fold (state_prefix g payload). pose proof (slice_whole (state_prefix g payload)) as Hs.
  rewrite zlen_state_prefix in Hs. change STATE_HEADER_CHECKSUM_OFFSET with 28. by rewrite Hs.
Qed.

Lemma must_Some {A B : Type} (o : option A) a (f : A → store_outcome B) : o = Some a → (must o ≫= f) = f a.
Proof. by intros ->. Qed.

(** The fields of a long enough file. *)
Lemma state_fields b :
  32 ≤ zlen b → ∃ m v fl hc p g n pc,
    read_u32 b 0 = Some m ∧ read_u16 b 4 = Some v ∧ read_u16 b 6 = Some fl ∧ read_u32 b 28 = Some hc ∧
    slice b 0 28 = Some p ∧ read_u64 b 8 = Some g ∧ read_u64 b 16 = Some n ∧ read_u32 b 24 = Some pc.
Proof.
  intros H. destruct (read_u32_inside b 0) as (m & ? & _); [lia..|]. destruct (read_u16_inside b 4) as (v & ?); [lia..|].
  destruct (read_u16_inside b 6) as (fl & ?); [lia..|]. destruct (read_u32_inside b 28) as (hc & ? & _); [lia..|].
  destruct (proj2 (slice_is_Some b 0 28)) as (p & ?); [lia|]. destruct (read_u64_inside b 8) as (g & ? & _); [lia..|].
  destruct (read_u64_inside b 16) as (n & ? & _); [lia..|]. destruct (read_u32_inside b 24) as (pc & ? & _); [lia..|].
  by exists m, v, fl, hc, p, g, n, pc.
Qed.

(** Steps through one refusal of [load]. *)
Ltac refuse_or H :=
  lazymatch type of H with
  | (if negb (?x =? ?y) then Err _ else _) = Ok _ => destruct (Z.eqb_spec x y); [cbn [negb] in H|done]
  | (if ?x <? ?y then Err _ else _) = Ok _ => destruct (Z.ltb_spec x y); [done|]
  | (if ?x <=? ?y then Err _ else _) = Ok _ => destruct (Z.leb_spec x y); [done|]
  end.

Lemma load_sound b g sum ws :
  zlen b < 2 ^ 63 → load crc32c b g sum = Ok ws →
  inU 64 g ∧ ws_generation ws = g ∧ crc32c (ws_payload ws) = sum ∧ b = serialize crc32c g (ws_payload ws).
Proof.
  intros Hb H. unfold load in H. change STATE_HEADER_SIZE with 32 in H. change STATE_HEADER_CHECKSUM_OFFSET with 28 in H.
  refuse_or H. destruct (state_fields b) as (m & v & fl & hc & p & g' & n & pc & Rm & Rv & Rf & Rh & Rp & Rg & Rn & Rc); [lia|].
  rewrite (must_Some _ _ _ Rm) in H. refuse_or H. rewrite (must_Some _ _ _ Rv) in H. do 2 refuse_or H.
  rewrite (must_Some _ _ _ Rf) in H. refuse_or H. rewrite (must_Some _ _ _ Rh), (must_Some _ _ _ Rp) in H. refuse_or H.
  rewrite (must_Some _ _ _ Rg), (must_Some _ _ _ Rn), (must_Some _ _ _ Rc) in H. refuse_or H. cbv zeta in H. refuse_or H.
  apply read_u32_slice in Rm as [Sm _]. apply read_u16_slice in Rv as [Sv _]. apply read_u16_slice in Rf as [Sf _].
  apply read_u32_slice in Rh as [Sh _]. apply read_u64_slice in Rg as [Sg Ug]. apply read_u64_slice in Rn as [Sn Un].
  apply read_u32_slice in Rc as [Sc _]. replace (32 + n - 32) with n in H by lia.
  destruct (proj2 (slice_is_Some b 32 n)) as (payload & Spay); [unfold inU in Un; lia|].
  rewrite (must_Some _ _ _ Spay) in H. do 3 refuse_or H. injection H as <-. subst. cbn [ws_generation ws_payload].
  split; [done|]. split; [done|]. split; [done|].
  pose proof (slice_length _ _ _ _ Spay) as Hn. pose proof (zlen_nonneg payload).
  rewrite serialize_eq by lia.
  pose proof (slice_join _ _ _ _ _ _ Sm (slice_join _ _ _ _ _ _ Sv (slice_join _ _ _ _ _ _ Sf
    (slice_join _ _ _ _ _ _ Sg (slice_join _ _ _ _ _ _ Sn Sc))))) as S28.
  change (4 + (2 + (2 + (8 + (8 + 4))))) with 28 in S28. rewrite Rp in S28. apply (inj Some) in S28. subst p.
  pose proof (slice_join _ _ _ _ _ _ Rp (slice_join _ _ _ _ _ _ Sh Spay)) as Sall.
  replace (28 + (4 + n)) with (zlen b) in Sall by lia. rewrite slice_whole in Sall. apply (inj Some) in Sall.
  unfold state_prefix. rewrite Hn. exact Sall.
Qed.

Lemma load_complete g payload :
  zlen payload < 2 ^ 62 → inU 64 g →
  load crc32c (serialize crc32c g payload) g (crc32c payload) = Ok (mkWorkspaceState g payload).
Proof.
  intros Hl Hg. rewrite serialize_eq by lia. set (p := state_prefix g payload).
  pose proof (zlen_nonneg payload). set (b := p ++ put_u32 (crc32c p) ++ payload).
  assert (zlen b = 32 + zlen payload) as Hb by (unfold b, p; autorewrite with zlen; rewrite zlen_state_prefix; lia).
  pose proof (holds_at_self b) as HX. unfold b in HX at 2. at_split HX.
  match goal with K : holds_at b 0 p |- _ => pose proof (holds_at_slice _ _ _ K) as Sp; unfold p, state_prefix in K; at_split K end.
  assert (zlen p = 28) as Hp by apply zlen_state_prefix. rewrite ?Hp, ?zlen_put_u32, ?zlen_put_u16, ?zlen_put_u64 in *.
  match goal with K : holds_at b _ payload |- _ => apply holds_at_slice in K; rename K into Spay end.
  assert (read_u32 b 0 = Some STATE_MAGIC) as R0 by (at_read; by vm_compute).
  assert (read_u16 b 4 = Some STATE_VERSION) as R1 by (at_read; by vm_compute).
  assert (read_u16 b 6 = Some 0) as R2 by (at_read; by vm_compute).
  assert (read_u32 b 28 = Some (crc32c p)) as R3 by (at_read; apply Hcrc).
  assert (read_u64 b 8 = Some g) as R4 by (at_read; done).
  assert (read_u64 b 16 = Some (zlen payload)) as R5 by (at_read; unfold inU; lia).
  assert (read_u32 b 24 = Some (crc32c payload)) as R6 by (at_read; apply Hcrc).
  unfold load. change STATE_HEADER_SIZE with 32. change STATE_HEADER_CHECKSUM_OFFSET with 28. rewrite Hb.
  destruct (Z.ltb_spec (32 + zlen payload) 32); [lia|].
  rewrite (must_Some _ _ _ R0), (must_Some _ _ _ R1), (must_Some _ _ _ R2), (must_Some _ _ _ R3), (must_Some _ _ _ Sp).
  change (STATE_MAGIC =? STATE_MAGIC) with true. change (STATE_VERSION <? STATE_VERSION) with false.
  change (STATE_VERSION =? STATE_VERSION) with true. change (0 =? 0) with true. rewrite Z.eqb_refl. cbn [negb].
  rewrite (must_Some _ _ _ R4), (must_Some _ _ _ R5), (must_Some _ _ _ R6).
  destruct (Z.leb_spec (2 ^ 64) (32 + zlen payload)); [lia|]. cbv zeta. rewrite Z.eqb_refl. cbn [negb].
  replace (32 + zlen payload - 32) with (zlen payload) by lia. change (28 + 4) with 32 in Spay.
  rewrite (must_Some _ _ _ Spay), !Z.eqb_refl. done.
Qed.

Lemma load_no_panic b g sum : load crc32c b g sum ≠ Err Aborts.
Proof.
  unfold load. change STATE_HEADER_SIZE with 32. change STATE_HEADER_CHECKSUM_OFFSET with 28.
  destruct (Z.ltb_spec (zlen b) 32); [done|].
  destruct (state_fields b) as (m & v & fl & hc & p & g' & n & pc & Rm & Rv & Rf & Rh & Rp & Rg & Rn & Rc); [lia|].
  rewrite (must_Some _ _ _ Rm), (must_Some _ _ _ Rv), (must_Some _ _ _ Rf), (must_Some _ _ _ Rh), (must_Some _ _ _ Rp).
  rewrite (must_Some _ _ _ Rg), (must_Some _ _ _ Rn), (must_Some _ _ _ Rc). cbv zeta.
  repeat match goal with
  | |- (if ?c then _ else _) ≠ _ => let E := fresh "E" in destruct c eqn:E; [done|]
  end.
  zify_bools. replace (32 + n - 32) with n by lia.
  destruct (proj2 (slice_is_Some b 32 n)) as (payload & Spay).
  { apply read_u64_slice in Rn as [_ Un]. unfold inU in Un. lia. }
  rewrite (must_Some _ _ _ Spay). repeat case_match; done.
Qed.
End state_lemmas.

(** The workspace-state loader accepts exactly what [serialize] emits: it returns a state
    for a file, a generation and a checksum if and only if the file is, byte for byte, the
    container of that generation and payload and the payload has that checksum; and it
    never panics, whatever the bytes. *)
Theorem load_exact (crc32c : bytes → Z) b generation expected ws :
  (∀ b, inU 32 (crc32c b)) → zlen b < 2 ^ 62 →
  (load crc32c b generation expected = Ok ws ↔
     inU 64 generation ∧ ws_generation ws = generation ∧ crc32c (ws_payload ws) = expected ∧
     b = serialize crc32c generation (ws_payload ws)) ∧
  load crc32c b generation expected ≠ Err Aborts.
Proof.
  intros Hcrc Hb. split; [|apply load_no_panic]. split.
  - apply load_sound. lia.
  - destruct ws as [g payload]. cbn [ws_generation ws_payload]. intros (Hg & -> & <- & ->).
    apply load_complete; [done| |done]. unfold serialize in Hb. rewrite !zlen_app in Hb.
    pose proof (zlen_nonneg payload). autorewrite with zlen in Hb. lia.
Qed.

Lemma load_exact_witness :
  load sum_crc (serialize sum_crc 7 [Byte.x01; Byte.x02]) 7 3 = Ok (mkWorkspaceState 7 [Byte.x01; Byte.x02]).
Proof.
  destruct (load_exact sum_crc (serialize sum_crc 7 [Byte.x01; Byte.x02]) 7 3 (mkWorkspaceState 7 [Byte.x01; Byte.x02]))
    as [H _].
  - intros b. apply Z.mod_pos_bound. reflexivity.
  - vm_compute. reflexivity.
  - apply H. split; [split; [discriminate|reflexivity]|]. split; [reflexivity|]. split; vm_compute; reflexivity.
Defined.
