(* ===== verification/FileSystem.v ===== *)
(** The file system as the store uses it: the [std::fs] calls of [writer.rs], [durable.rs],
    [manifest.rs], [workspace_state.rs] and [snapshot.rs] as operations on a map from paths
    to files, a log of the operations a call performs, and what a crash can leave.

    A path is its displayed string. A file remembers whether its bytes were synced. The crash
    model is the one the store's protocol relies on: directory operations reach the disk in
    order and a directory sync flushes them, a rename is atomic, the removal of a tree is not,
    and a file written but not synced can hold anything afterwards. Every call can fail; a
    failing call leaves the files as they were, and its message is the platform's. *)

From stdpp Require Import gmap.
From S2P Require Import Prelude RustStr StoreFormat SegReader WorkspaceState.

Open Scope Z_scope.

Abbreviation path := (list Z) (only parsing).

Record FileNode := mkFile { fn_bytes : bytes; fn_synced : bool }.
#[export] Instance FileNode_eq_dec : EqDecision FileNode.
Proof. solve_decision. Defined.
Record Fs := mkFs { fs_files : gmap path FileNode; fs_dirs : gset path }.

(** ** Paths *)

Definition slash : Z := ch "/".
Definition under (d q : path) : bool := starts_with (d ++ [slash]) q.
Definition in_tree (d q : path) : bool := bool_decide (q = d) || under d q.

(** [Path::parent]: everything before the last separator. *)
Fixpoint drop_to_slash (l : list Z) : list Z :=
  match l with [] => [] | c :: l => if c =? slash then l else drop_to_slash l end.
Definition parent_dir (p : path) : path := rev (drop_to_slash (rev p)).

(** The path and the directories above it. *)
Fixpoint ancestors_aux (pre rest : list Z) : list path :=
  match rest with
  | [] => [pre]
  | c :: rest =>
      (if (c =? slash) && negb (bool_decide (pre = [])) then [pre] else []) ++ ancestors_aux (pre ++ [c]) rest
  end.
Definition ancestors (p : path) : list path := ancestors_aux [] p.

(** Moves the tree [a] to [b] (and [b] to [a]). *)
Definition swap_prefix (a b q : path) : path :=
  if bool_decide (q = a) then b else if bool_decide (q = b) then a else
  match strip_prefix (a ++ [slash]) q with
  | Some r => b ++ [slash] ++ r
  | None =>
      match strip_prefix (b ++ [slash]) q with
      | Some r => a ++ [slash] ++ r
      | None => q
      end
  end.

(** ** Operations *)

Inductive Op :=
| Mkdirs (p : path)            (* [create_dir_all] *)
| RemoveTree (p : path)        (* [remove_dir_all] *)
| RemoveFile (p : path)        (* [remove_file] *)
| Create (p : path)            (* [File::create] *)
| WriteAll (p : path) (b : bytes) (* [write_all] of the file just created *)
| SyncFile (p : path)          (* [sync_all] of a file *)
| Rename (a b : path)          (* [rename] *)
| SyncDir (p : path).          (* [File::open(dir)?.sync_all()] *)

Definition is_file (fs : Fs) (p : path) : bool := bool_decide (is_Some (fs_files fs !! p)).
Definition is_dir (fs : Fs) (p : path) : bool := bool_decide (p ∈ fs_dirs fs).
Definition path_exists (fs : Fs) (p : path) : bool := is_file fs p || is_dir fs p.

(** One call; [None] is a failure. A directory is renamed to a path that does not exist (the
    callers remove the target first). *)
Definition exec (fs : Fs) (o : Op) : option Fs :=
  match o with
  | Mkdirs p =>
      if existsb (is_file fs) (ancestors p) then None
      else Some (mkFs (fs_files fs) (fs_dirs fs ∪ list_to_set (ancestors p)))
  | RemoveTree p =>
      if is_dir fs p then
        Some (mkFs (filter (λ kv, in_tree p kv.1 = false) (fs_files fs))
                (filter (λ d, in_tree p d = false) (fs_dirs fs)))
      else None
  | RemoveFile p => if is_file fs p then Some (mkFs (delete p (fs_files fs)) (fs_dirs fs)) else None
  | Create p =>
      if negb (is_dir fs p) && is_dir fs (parent_dir p)
      then Some (mkFs (<[p := mkFile [] false]> (fs_files fs)) (fs_dirs fs)) else None
  | WriteAll p b =>
      n ← fs_files fs !! p;
      Some (mkFs (<[p := mkFile (fn_bytes n ++ b) false]> (fs_files fs)) (fs_dirs fs))
  | SyncFile p =>
      n ← fs_files fs !! p;
      Some (mkFs (<[p := mkFile (fn_bytes n) true]> (fs_files fs)) (fs_dirs fs))
  | Rename a b =>
      if negb (is_dir fs (parent_dir b)) || is_dir fs b then None else
      match fs_files fs !! a with
      | Some n => Some (mkFs (<[b := n]> (delete a (fs_files fs))) (fs_dirs fs))
      | None =>
          if is_dir fs a && negb (is_file fs b) && negb (in_tree a b) && negb (in_tree b a)
          then Some (mkFs (kmap (swap_prefix a b) (fs_files fs)) (set_map (swap_prefix a b) (fs_dirs fs)))
          else None
      end
  | SyncDir p => if is_dir fs p then Some fs else None
  end.

Fixpoint run (fs : Fs) (log : list Op) : option Fs :=
  match log with
  | [] => Some fs
  | o :: log => fs' ← exec fs o; run fs' log
  end.

(** [std::fs::read] *)
Definition read_path (fs : Fs) (p : path) : FileRead :=
  match fs_files fs !! p with
  | Some n => Found (fn_bytes n)
  | None => if is_dir fs p then ReadFails (lit "Is a directory (os error 21)") else NotFound
  end.

(** The names in a directory, as [read_dir] lists them. *)
Definition entries (fs : Fs) (d : path) : list path :=
  omap (λ q, n ← strip_prefix (d ++ [slash]) q; if bool_decide (slash ∈ n) then None else Some n)
    (elements (dom (fs_files fs) ∪ fs_dirs fs)).

(** ** Crashes *)

(** What is on disk after a crash: the same names, the synced files intact. *)
Record torn (f f' : Fs) : Prop := {
  torn_dirs : fs_dirs f' = fs_dirs f;
  torn_none p : fs_files f !! p = None → fs_files f' !! p = None;
  torn_some p n : fs_files f !! p = Some n → ∃ n', fs_files f' !! p = Some n' ∧
    fn_synced n' = true ∧ (fn_synced n = true → fn_bytes n' = fn_bytes n)
}.

(** The paths whose file an operation can change. *)
Definition touches (o : Op) (p : path) : bool :=
  match o with
  | Mkdirs _ | SyncDir _ => false
  | RemoveTree d => in_tree d p
  | RemoveFile q | Create q | WriteAll q _ | SyncFile q => bool_decide (p = q)
  | Rename a b => in_tree a p || in_tree b p
  end.

(** The paths that an operation can make, or cease to be, a directory. *)
Definition touches_dir (o : Op) (p : path) : bool :=
  match o with
  | Mkdirs d => bool_decide (p ∈ ancestors d)
  | RemoveTree d => in_tree d p
  | Rename a b => in_tree a p || in_tree b p
  | _ => false
  end.

(** An operation that was under way: removing a tree or making directories takes many steps,
    a rename is atomic. *)
Definition begun (f : Fs) (o : Op) (f' : Fs) : Prop :=
  (∀ p, touches o p = false → fs_files f' !! p = fs_files f !! p) ∧
  (∀ p, touches_dir o p = false → is_dir f' p = is_dir f p) ∧
  match o with
  | RemoveTree _ =>
      (∀ p n, fs_files f' !! p = Some n → fs_files f !! p = Some n) ∧ fs_dirs f' ⊆ fs_dirs f
  | Mkdirs _ => fs_dirs f ⊆ fs_dirs f'
  | _ => False
  end.

Definition is_sync_dir (o : Op) : bool := match o with SyncDir _ => true | _ => false end.

(** What a crash after [log], started on [fs], can leave: the effect of a part of the log that
    ends no earlier than the last directory sync, possibly with the next operation half done,
    and with the unsynced files torn. *)
Definition crash (fs : Fs) (log : list Op) (fs' : Fs) : Prop :=
  ∃ pre rest f g, log = pre ++ rest ∧ forallb (λ o, negb (is_sync_dir o)) rest = true ∧
    run fs pre = Some f ∧ (g = f ∨ ∃ o rest', rest = o :: rest' ∧ begun f o g) ∧ torn g fs'.

(** What a crash before the end of [log] can leave: a crash after some part of it. *)
Definition interrupted (fs : Fs) (log : list Op) (fs' : Fs) : Prop :=
  ∃ part todo, log = part ++ todo ∧ crash fs part fs'.

(** ** Calls in sequence *)

(** A computation over the file system: the operations it performed, the files it left, and
    its result. *)
Definition io (A : Type) : Type := Fs → list Op * Fs * store_outcome A.

#[export] Instance io_ret : MRet io := λ A a fs, ([], fs, Ok a).
#[export] Instance io_bind : MBind io := λ A B f m fs,
  let '(log, fs1, r) := m fs in
  match r with
  | Ok a => let '(log', fs2, r') := f a fs1 in (log ++ log', fs2, r')
  | Err e => (log, fs1, Err e)
  end.
(** Looking at the files. *)
Definition ask {A : Type} (f : Fs → A) : io A := λ fs, ([], fs, Ok (f fs)).
Definition lift {A : Type} (r : store_outcome A) : io A := λ fs, ([], fs, r).

Section calls.
(** The platform: the message of a failed call, and the calls it refuses whatever the files
    say (a full disk, a missing permission). *)
Context (io_message : Op → list Z) (denied : Fs → Op → bool).

Definition try_op (fs : Fs) (o : Op) : option Fs := if denied fs o then None else exec fs o.

(** [op?] where an I/O error becomes [wrap] of its message. *)
Definition call (wrap : list Z → StoreError) (o : Op) : io unit := λ fs,
  match try_op fs o with
  | Some fs' => ([o], fs', Ok tt)
  | None => ([], fs, Err (Refuses (wrap (io_message o))))
  end.
(** [let _ = op] *)
Definition attempt (o : Op) : io unit := λ fs,
  match try_op fs o with
  | Some fs' => ([o], fs', Ok tt)
  | None => ([], fs, Ok tt)
  end.
End calls.
(** The calls of a platform that refuses none. *)
Definition no_faults (fs : Fs) (o : Op) : bool := false.
Fixpoint io_each {A : Type} (f : A → io unit) (l : list A) : io unit :=
  match l with [] => mret tt | x :: l => _ ← f x; io_each f l end.

(** ** Lemmas: strings *)

Lemma strip_prefix_app p r : strip_prefix p (p ++ r) = Some r.
Proof. by apply strip_prefix_Some. Qed.

Lemma under_app d q : under d (d ++ [slash] ++ q) = true.
Proof. unfold under. apply starts_with_true. exists q. by rewrite <- app_assoc. Qed.

Lemma under_true d q : under d q = true ↔ ∃ r, q = d ++ [slash] ++ r.
Proof.
  unfold under. rewrite starts_with_true. by split; intros [r ->]; exists r; rewrite <- app_assoc.
Qed.

Lemma in_tree_true d q : in_tree d q = true ↔ q = d ∨ ∃ r, q = d ++ [slash] ++ r.
Proof. unfold in_tree. by rewrite orb_true_iff, bool_decide_eq_true, under_true. Qed.
Lemma in_tree_false d q : in_tree d q = false ↔ q ≠ d ∧ ∀ r, q ≠ d ++ [slash] ++ r.
Proof.
  rewrite <- not_true_iff_false, in_tree_true. split.
  - intros H. split; [intros ->; apply H; by left|intros r ->; apply H; right; by eexists].
  - intros [H1 H2] [->|[r ->]]; [done|by apply (H2 r)].
Qed.

(** Below a common directory only the rest of the path matters. *)
Lemma in_tree_below d a q : in_tree (d ++ [slash] ++ a) (d ++ [slash] ++ q) = in_tree a q.
Proof.
  apply eq_iff_eq_true. rewrite !in_tree_true. split.
  - intros [H|[r H]].
    + left. by apply app_inv_head in H; apply app_inv_head in H.
    + right. exists r. rewrite <- !app_assoc in H. by apply app_inv_head in H; apply app_inv_head in H.
  - intros [->|[r ->]]; [by left|]. right. exists r. by rewrite <- !app_assoc.
Qed.

(** A name is a path component: no separator. *)
Definition is_name (n : list Z) : Prop := slash ∉ n.

Lemma name_split (a b : list Z) x y : is_name a → is_name b → a ++ [slash] ++ x = b ++ [slash] ++ y → a = b ∧ x = y.
Proof.
  revert b. induction a as [|c a IH]; intros [|d b] Ha Hb E; cbn in E.
  - by injection E.
  - injection E as <- _. exfalso. apply Hb. left.
  - injection E as -> _. exfalso. apply Ha. left.
  - injection E as -> E. destruct (IH b) as [-> ->]; [intros Hin; apply Ha; by right|intros Hin; apply Hb; by right|done|done].
Qed.

Lemma in_tree_names a b : is_name a → is_name b → in_tree a b = bool_decide (b = a).
Proof.
  intros Ha Hb. unfold in_tree. destruct (under a b) eqn:E; [|by rewrite orb_false_r].
  apply under_true in E as [r ->]. exfalso. apply Hb. set_solver.
Qed.
Lemma in_tree_name_path a b x : is_name a → is_name b → in_tree a (b ++ [slash] ++ x) = bool_decide (a = b).
Proof.
  intros Ha Hb. apply eq_iff_eq_true. rewrite in_tree_true, bool_decide_eq_true. split.
  - intros [H|[r H]]; [exfalso; apply Ha; rewrite <- H; set_solver|]. symmetry. by apply name_split in H as [? _].
  - intros ->. right. by eexists.
Qed.
Lemma in_tree_path_name a x b : is_name b → in_tree (a ++ [slash] ++ x) b = false.
Proof.
  intros Hb. apply in_tree_false. split; [intros ->|intros r ->]; apply Hb; set_solver.
Qed.

(** *** Swapping trees *)

Lemma swap_prefix_involutive a b :
  in_tree a b = false → in_tree b a = false → ∀ q, swap_prefix a b (swap_prefix a b q) = q.
Proof.
  intros Hab Hba q. apply in_tree_false in Hab as [Hne Hab], Hba as [_ Hba]. unfold swap_prefix.
  destruct (decide (q = a)) as [->|Ha].
  { rewrite (bool_decide_true (a = a)) by done. rewrite (bool_decide_false (b = a)) by done. by rewrite bool_decide_true. }
  rewrite (bool_decide_false (q = a)) by done. destruct (decide (q = b)) as [->|Hb].
  { rewrite (bool_decide_true (b = b)) by done. by rewrite bool_decide_true. }
  rewrite (bool_decide_false (q = b)) by done.
  destruct (strip_prefix (a ++ [slash]) q) as [r|] eqn:E.
  - apply strip_prefix_Some in E as ->. rewrite <- app_assoc.
    assert (b ++ [slash] ++ r ≠ a) by (intros X; by apply (Hba r)).
    assert (b ++ [slash] ++ r ≠ b) by (intros X; apply (f_equal length) in X; rewrite !length_app in X; cbn in X; lia).
    rewrite !bool_decide_false by done.
    destruct (strip_prefix (a ++ [slash]) (b ++ [slash] ++ r)) as [r'|] eqn:E'.
    + exfalso. apply strip_prefix_Some in E'. rewrite <- app_assoc in E'.
      destruct (Nat.lt_trichotomy (length a) (length b)) as [Hl|[Hl|Hl]].
      * apply (f_equal (take (length b))) in E'. rewrite take_app_length in E'.
        rewrite take_app in E'. rewrite take_ge in E' by lia.
        destruct (length b - length a)%nat as [|k] eqn:Ek; [lia|]. cbn in E'. by apply (Hab (take k r')).
      * apply Hne. apply app_inj_1 in E' as [<- _]; done.
      * apply (f_equal (take (length a))) in E'. rewrite take_app_length in E'.
        rewrite take_app in E'. rewrite take_ge in E' by lia.
        destruct (length a - length b)%nat as [|k] eqn:Ek; [lia|]. cbn in E'. by apply (Hba (take k r)).
    + rewrite (app_assoc b), strip_prefix_app. done.
  - destruct (strip_prefix (b ++ [slash]) q) as [r|] eqn:E'.
    + apply strip_prefix_Some in E' as ->. rewrite <- app_assoc.
      assert (a ++ [slash] ++ r ≠ a) by (intros X; apply (f_equal length) in X; rewrite !length_app in X; cbn in X; lia).
      assert (a ++ [slash] ++ r ≠ b) by (intros X; by apply (Hab r)).
      rewrite !bool_decide_false by done. by rewrite (app_assoc a), strip_prefix_app.
    + rewrite !bool_decide_false by done. by rewrite E, E'.
Qed.

Lemma swap_prefix_outside a b q : in_tree a q = false → in_tree b q = false → swap_prefix a b q = q.
Proof.
  intros [H1 H2]%in_tree_false [H3 H4]%in_tree_false. unfold swap_prefix. rewrite !bool_decide_false by done.
  destruct (strip_prefix (a ++ [slash]) q) as [r|] eqn:E.
  { apply strip_prefix_Some in E as ->. exfalso. apply (H2 r). by rewrite <- app_assoc. }
  destruct (strip_prefix (b ++ [slash]) q) as [r|] eqn:E'; [|done].
  apply strip_prefix_Some in E' as ->. exfalso. apply (H4 r). by rewrite <- app_assoc.
Qed.

Lemma swap_prefix_into a b r : in_tree b a = false → in_tree a b = false → swap_prefix a b (b ++ [slash] ++ r) = a ++ [slash] ++ r.
Proof.
  intros Hba Hab. rewrite <- (swap_prefix_involutive a b Hab Hba (a ++ [slash] ++ r)). f_equal. unfold swap_prefix.
  apply in_tree_false in Hab as [Hne Hab].
  assert (a ++ [slash] ++ r ≠ a) by (intros X; apply (f_equal length) in X; rewrite !length_app in X; cbn in X; lia).
  assert (a ++ [slash] ++ r ≠ b) by (intros Hr; by apply (Hab r)).
  rewrite !bool_decide_false by done. by rewrite (app_assoc a), strip_prefix_app.
Qed.

Lemma lookup_swapped {A : Type} (a b : path) (m : gmap path A) (q : path) :
  in_tree a b = false → in_tree b a = false →
  (kmap (swap_prefix a b) m : gmap path A) !! q = m !! swap_prefix a b q.
Proof.
  intros Hab Hba. pose proof (swap_prefix_involutive a b Hab Hba) as Hi.
  assert (Inj (=) (=) (swap_prefix a b)) by (intros x y E; by rewrite <- (Hi x), <- (Hi y), E).
  rewrite <- (Hi q) at 1. by rewrite lookup_kmap.
Qed.

(** ** Lemmas: frames *)

Lemma exec_frame fs o fs' p :
  exec fs o = Some fs' → touches o p = false → fs_files fs' !! p = fs_files fs !! p.
Proof.
  destruct o as [q|q|q|q|q b|q|a b|q]; cbn [exec touches]; intros E Ht.
  - destruct (existsb _ _); [done|]. by injection E as <-.
  - destruct (is_dir fs q); [|done]. injection E as <-. cbn [fs_files].
    destruct (fs_files fs !! p) as [n|] eqn:En.
    + by apply map_lookup_filter_Some.
    + apply map_lookup_filter_None. by left.
  - apply bool_decide_eq_false in Ht. destruct (is_file fs q); [|done]. injection E as <-. cbn [fs_files].
    by rewrite lookup_delete_ne by done.
  - apply bool_decide_eq_false in Ht. destruct (_ && _); [|done]. injection E as <-. cbn [fs_files].
    by rewrite lookup_insert_ne by done.
  - apply bool_decide_eq_false in Ht. destruct (fs_files fs !! q); [|done]. injection E as <-. cbn [fs_files].
    by rewrite lookup_insert_ne by done.
  - apply bool_decide_eq_false in Ht. destruct (fs_files fs !! q); [|done]. injection E as <-. cbn [fs_files].
    by rewrite lookup_insert_ne by done.
  - apply orb_false_iff in Ht as [Ha Hb]. destruct (_ || _); [done|].
    destruct (fs_files fs !! a) as [n|] eqn:En.
    + injection E as <-. cbn [fs_files]. apply in_tree_false in Ha as [Ha _], Hb as [Hb _].
      by rewrite lookup_insert_ne, lookup_delete_ne by done.
    + destruct (is_dir fs a && negb (is_file fs b) && negb (in_tree a b) && negb (in_tree b a)) eqn:Ec; [|done].
      injection E as <-. cbn [fs_files]. rewrite !andb_true_iff, !negb_true_iff in Ec. destruct Ec as [[_ Hab] Hba].
      by rewrite lookup_swapped, swap_prefix_outside by done.
  - destruct (is_dir fs q); [|done]. by injection E as <-.
Qed.

Lemma is_dir_iff (f f' : Fs) p : (p ∈ fs_dirs f' ↔ p ∈ fs_dirs f) → is_dir f' p = is_dir f p.
Proof. apply bool_decide_ext. Qed.

Lemma exec_frame_dir fs o fs' p :
  exec fs o = Some fs' → touches_dir o p = false → is_dir fs' p = is_dir fs p.
Proof.
  destruct o as [q|q|q|q|q b|q|a b|q]; cbn [exec touches_dir]; intros E Ht.
  - apply bool_decide_eq_false in Ht. destruct (existsb _ _); [done|]. injection E as <-.
    apply is_dir_iff. cbn [fs_dirs]. rewrite elem_of_union, elem_of_list_to_set. tauto.
  - destruct (is_dir fs q); [|done]. injection E as <-. apply is_dir_iff. cbn [fs_dirs]. rewrite elem_of_filter. tauto.
  - destruct (is_file fs q); [|done]. by injection E as <-.
  - destruct (_ && _); [|done]. by injection E as <-.
  - destruct (fs_files fs !! q); [|done]. by injection E as <-.
  - destruct (fs_files fs !! q); [|done]. by injection E as <-.
  - apply orb_false_iff in Ht as [Ha Hb]. destruct (_ || _); [done|].
    destruct (fs_files fs !! a) as [n|]; [by injection E as <-|].
    destruct (is_dir fs a && negb (is_file fs b) && negb (in_tree a b) && negb (in_tree b a)) eqn:Ec; [|done].
    injection E as <-. rewrite !andb_true_iff, !negb_true_iff in Ec. destruct Ec as [[_ Hab] Hba].
    apply is_dir_iff. cbn [fs_dirs]. rewrite elem_of_map. split.
    + intros (x & E & Hx). assert (x = p) as ->; [|done].
      rewrite <- (swap_prefix_involutive a b Hab Hba x), <- E. by apply swap_prefix_outside.
    + intros Hp. exists p. by rewrite swap_prefix_outside by done.
  - destruct (is_dir fs q); [|done]. by injection E as <-.
Qed.

Lemma run_app fs a b : run fs (a ++ b) = (f ← run fs a; run f b).
Proof.
  revert fs. induction a as [|o a IH]; intros fs; [done|]. cbn [app run].
  destruct (exec fs o) as [f|]; [|done]. cbn [mbind option_bind]. apply IH.
Qed.

(** Reasoning about computations over the file system: what their logs leave alone, what
    holds when they return, and what a crash in the middle keeps. *)

Open Scope Z_scope.

(** ** Frames *)

Definition leaves (o : Op) (p : path) : Prop := touches o p = false.
Definition leaves_dir (o : Op) (p : path) : Prop := touches_dir o p = false.

Lemma run_frame fs log fs' p :
  run fs log = Some fs' → Forall (λ o, leaves o p) log → fs_files fs' !! p = fs_files fs !! p.
Proof.
  intros E H. revert fs E. induction H as [|o log Ho _ IH]; intros fs E; cbn [run] in E; [by injection E as <-|].
  destruct (exec fs o) as [f|] eqn:Ef; [|done]. cbn [mbind option_bind] in E. rewrite (IH f E). by apply (exec_frame _ o).
Qed.

Lemma run_frame_dir fs log fs' p :
  run fs log = Some fs' → Forall (λ o, leaves_dir o p) log → is_dir fs' p = is_dir fs p.
Proof.
  intros E H. revert fs E. induction H as [|o log Ho _ IH]; intros fs E; cbn [run] in E; [by injection E as <-|].
  destruct (exec fs o) as [f|] eqn:Ef; [|done]. cbn [mbind option_bind] in E. rewrite (IH f E). by apply (exec_frame_dir _ o).
Qed.

(** A directory stays one unless its tree is removed or renamed. *)
Definition keeps_dir (o : Op) (p : path) : Prop :=
  match o with RemoveTree d => in_tree d p = false | Rename a b => in_tree a p || in_tree b p = false | _ => True end.

Lemma exec_keeps_dir fs o fs' p : exec fs o = Some fs' → keeps_dir o p → is_dir fs p = true → is_dir fs' p = true.
Proof.
  intros E Hk Hp. destruct o as [q|q|q|q|q b|q|a b|q]; try (by rewrite (exec_frame_dir _ _ _ _ E)).
  cbn [exec] in E. destruct (existsb _ _); [done|]. injection E as <-. unfold is_dir in *. cbn [fs_dirs].
  rewrite bool_decide_eq_true in *. set_solver.
Qed.

(** ** Logs that a condition holds of *)

(** [m] started on [fs] only performs operations that satisfy [P], and [Q] holds of what it
    returns and of the files it leaves. *)
Definition does {A : Type} (m : io A) (fs : Fs) (P : Op → Prop) (Q : A → Fs → Prop) : Prop :=
  let '(log, fs1, r) := m fs in
  run fs log = Some fs1 ∧ Forall P log ∧ match r with Ok a => Q a fs1 | Err _ => True end.

Lemma does_weaken {A : Type} (m : io A) fs (P P' : Op → Prop) (Q Q' : A → Fs → Prop) :
  (∀ o, P o → P' o) → (∀ a f, Q a f → Q' a f) → does m fs P Q → does m fs P' Q'.
Proof.
  intros HP HQ. unfold does. destruct (m fs) as [[log fs1] r]. intros (Hr & Hl & Hq). split; [done|].
  split; [by eapply Forall_impl|]. destruct r; [by apply HQ|done].
Qed.

Lemma does_ret {A : Type} (a : A) fs P Q : Q a fs → does (mret a) fs P Q.
Proof. by repeat split. Qed.

Lemma does_ask {A : Type} (g : Fs → A) fs P (Q : A → Fs → Prop) : Q (g fs) fs → does (ask g) fs P Q.
Proof. by repeat split. Qed.

Lemma does_lift {A : Type} (r : store_outcome A) fs P (Q : A → Fs → Prop) :
  (∀ a, r = Ok a → Q a fs) → does (lift r) fs P Q.
Proof. intros H. repeat split; [done|]. destruct r; [by apply H|done]. Qed.

Lemma does_bind {A B : Type} (m : io A) (k : A → io B) fs P (R : A → Fs → Prop) Q :
  does m fs P R → (∀ a f, R a f → does (k a) f P Q) → does (m ≫= k) fs P Q.
Proof.
  unfold does, mbind, io_bind. destruct (m fs) as [[log f] r]. intros (Hr & Hl & Hq) Hk. destruct r as [a|e]; [|done].
  specialize (Hk a f Hq). destruct (k a f) as [[log' f'] r']. destruct Hk as (Hr' & Hl' & Hq').
  split; [by rewrite run_app, Hr|]. split; [by apply Forall_app|done].
Qed.

(** What is known of the start can be used inside. *)
Lemma does_frame {A : Type} (m : io A) fs (P : Op → Prop) Q :
  does m fs P Q → does m fs P (λ a f, Q a f ∧ ∃ log, run fs log = Some f ∧ Forall P log).
Proof.
  unfold does. destruct (m fs) as [[log f] r]. intros (Hr & Hl & Hq). split; [done|]. split; [done|].
  destruct r; [|done]. split; [done|]. by exists log.
Qed.

Section calls.
Context (io_message : Op → list Z) (denied : Fs → Op → bool).

Lemma try_op_exec fs o f : try_op denied fs o = Some f → exec fs o = Some f.
Proof. unfold try_op. by destruct (denied fs o). Qed.

Lemma does_call wrap o fs (P : Op → Prop) (Q : unit → Fs → Prop) :
  P o → (∀ f, exec fs o = Some f → Q tt f) → does (call io_message denied wrap o) fs P Q.
Proof.
  intros Ho HQ. unfold does, call. destruct (try_op denied fs o) as [f|] eqn:E; [|done].
  apply try_op_exec in E. cbn [run]. rewrite E. repeat split; [by constructor|by apply HQ].
Qed.

Lemma does_attempt o fs (P : Op → Prop) (Q : unit → Fs → Prop) :
  P o → Q tt fs → (∀ f, exec fs o = Some f → Q tt f) → does (attempt denied o) fs P Q.
Proof.
  intros Ho H0 HQ. unfold does, attempt. destruct (try_op denied fs o) as [f|] eqn:E; [|done].
  apply try_op_exec in E. cbn [run]. rewrite E. repeat split; [by constructor|by apply HQ].
Qed.
End calls.

Lemma does_each {A : Type} (f : A → io unit) l fs (P : Op → Prop) (Q : Fs → Prop) :
  Q fs → (∀ x f1, x ∈ l → Q f1 → does (f x) f1 P (λ _ f2, Q f2)) → does (io_each f l) fs P (λ _ f2, Q f2).
Proof.
  revert fs. induction l as [|x l IH]; intros fs HQ Hf; cbn [io_each]; [by apply does_ret|].
  eapply does_bind; [apply Hf; [left|done]|]. intros [] f1 H1. apply IH; [done|]. intros y f2 Hy. apply Hf. by right.
Qed.

(** ** Synced files and crashes *)

(** A file whose bytes are on disk. *)
Definition stored (fs : Fs) (p : path) (b : bytes) : Prop := fs_files fs !! p = Some (mkFile b true).

Lemma stored_read fs p b : stored fs p b → read_path fs p = Found b.
Proof. unfold stored, read_path. by intros ->. Qed.

Lemma torn_stored f f' p b : torn f f' → stored f p b → stored f' p b.
Proof.
  intros Ht Hs. destruct (torn_some _ _ Ht p _ Hs) as ([b' s'] & Hp & Hs' & Hb). cbn in Hs', Hb. subst s'.
  unfold stored. rewrite Hp, (Hb eq_refl). done.
Qed.
Lemma torn_dir f f' p : torn f f' → is_dir f' p = is_dir f p.
Proof. intros Ht. unfold is_dir. by rewrite (torn_dirs _ _ Ht). Qed.

(** What a crash keeps: [frame log fs' fs p] when [p] is left alone. *)
Lemma crash_frame fs log fs' p :
  crash fs log fs' → Forall (λ o, leaves o p) log →
  (∀ b, stored fs p b → stored fs' p b) ∧ (fs_files fs !! p = None → fs_files fs' !! p = None).
Proof.
  intros (pre & rest & f & g & -> & _ & Hr & Hg & Ht) Hl. apply Forall_app in Hl as [Hpre Hrest].
  pose proof (run_frame _ _ _ _ Hr Hpre) as Hf.
  assert (fs_files g !! p = fs_files fs !! p) as Hgp.
  { rewrite <- Hf. destruct Hg as [->|(o & rest' & -> & Hb & _)]; [done|]. apply Hb. by inversion Hrest. }
  split; [intros b Hs; eapply torn_stored; [done|]; unfold stored; by rewrite Hgp|].
  intros Hn. apply (torn_none _ _ Ht). by rewrite Hgp.
Qed.

Lemma crash_frame_dir fs log fs' p :
  crash fs log fs' → Forall (λ o, leaves_dir o p) log → is_dir fs' p = is_dir fs p.
Proof.
  intros (pre & rest & f & g & -> & _ & Hr & Hg & Ht) Hl. apply Forall_app in Hl as [Hpre Hrest].
  rewrite (torn_dir _ _ _ Ht), <- (run_frame_dir _ _ _ _ Hr Hpre).
  destruct Hg as [->|(o & rest' & -> & _ & Hb & _)]; [done|]. apply Hb. by inversion Hrest.
Qed.

(** A crash in two consecutive logs is in the first or in the second. *)
Lemma app_split {A : Type} (a b p q : list A) :
  a ++ b = p ++ q → (∃ m, a = p ++ m ∧ q = m ++ b) ∨ (∃ m, p = a ++ m ∧ b = m ++ q).
Proof.
  revert p. induction a as [|x a IH]; intros p E; [right; by exists p|]. destruct p as [|y p]; [left; by exists (x :: a)|].
  injection E as <- E. destruct (IH p E) as [(m & -> & ->)|(m & -> & ->)]; [left|right]; by exists m.
Qed.

Lemma crash_app fs log1 log2 fs1 fs' :
  run fs log1 = Some fs1 → crash fs (log1 ++ log2) fs' → crash fs log1 fs' ∨ crash fs1 log2 fs'.
Proof.
  intros Hr1 (pre & rest & f & g & E & Hns & Hr & Hg & Ht).
  destruct (app_split _ _ _ _ E) as [(m & -> & ->)|(m & -> & ->)].
  - rewrite forallb_app in Hns. apply andb_true_iff in Hns as [Hm H2]. destruct m as [|o m].
    + right. rewrite app_nil_r in Hr1. rewrite Hr in Hr1. injection Hr1 as <-. exists [], log2, f, g. done.
    + left. exists pre, (o :: m), f, g. split; [done|]. split; [done|]. split; [done|]. split; [|done]. destruct Hg as [->|(o' & rest' & [= <- <-] & Hb)]; [by left|].
      right. by exists o, m.
  - right. rewrite run_app, Hr1 in Hr. exists m, rest, f, g. done.
Qed.

(** After a directory sync everything before it is on disk. *)
Lemma crash_synced fs log1 d log2 fs1 fs' :
  run fs (log1 ++ [SyncDir d]) = Some fs1 → crash fs (log1 ++ [SyncDir d] ++ log2) fs' → crash fs1 log2 fs'.
Proof.
  intros Hr1 (pre & rest & f & g & E & Hns & Hr & Hg & Ht). rewrite app_assoc in E.
  destruct (app_split _ _ _ _ E) as [(m & E1 & ->)|(m & -> & ->)].
  - destruct (app_split _ _ _ _ E1) as [(m' & -> & ->)|(m' & -> & Em)].
    + rewrite !forallb_app in Hns. cbn in Hns. rewrite !andb_false_r in Hns. done.
    + destruct m' as [|x m'].
      * rewrite app_nil_l in Em. subst m. rewrite !forallb_app in Hns. cbn in Hns. done.
      * injection Em as <- Em. destruct m'; [|done]. cbn in Em. subst m. rewrite Hr in Hr1. injection Hr1 as <-.
        exists [], log2, f, g. done.
  - rewrite run_app, Hr1 in Hr. exists m, rest, f, g. done.
Qed.

(** A rename either happened or did not. *)
Lemma crash_rename fs a b fs1 fs' :
  exec fs (Rename a b) = Some fs1 → crash fs [Rename a b] fs' → torn fs fs' ∨ torn fs1 fs'.
Proof.
  intros He (pre & rest & f & g & E & _ & Hr & Hg & Ht). destruct pre as [|o pre].
  - injection Hr as <-. destruct Hg as [->|(o & rest' & -> & _ & _ & Hb)]; [by left|]. injection E as <- _. done.
  - injection E as <- E. symmetry in E. apply app_nil in E as [-> ->]. cbn [run] in Hr. rewrite He in Hr.
    injection Hr as <-. destruct Hg as [->|(o & rest' & ? & _)]; [by right|done].
Qed.
