(* ===== verification/Durable.v ===== *)
(** What the store writes, durably: [durable.rs], the publication of a segment
    ([publish] of [writer.rs]), the workspace-state files ([workspace_state.rs]) and the
    commit point [manifest.json] ([manifest.rs]), over the files of [FileSystem].

    [serde_json] is the argument pair [to_json]/[from_json]; the platform's messages and the
    calls it refuses are the arguments [io_message] and [denied]. *)

From S2P Require Import Prelude RustStr StoreFormat SegReader SegWriter WorkspaceState FileSystem.

Open Scope Z_scope.

(** ** The manifest *)

Definition MANIFEST_SCHEMA_VERSION : Z := 1.
Definition MANIFEST_FILE : list Z := lit "manifest.json".
Definition MANIFEST_TMP : list Z := lit "manifest.json.tmp".

Record Manifest := mkManifest {
  mf_schema_version : Z; mf_segment_id : Z; mf_segment_dir : list Z; mf_state_generation : Z;
  mf_state_checksum : Z; mf_doc_count : Z; mf_symbol_count : Z
}.
#[export] Instance Manifest_eq_dec : EqDecision Manifest.
Proof. solve_decision. Defined.

(** The values of the Rust type. *)
Definition manifest_typed (m : Manifest) : Prop :=
  inU 32 (mf_schema_version m) ∧ inU 64 (mf_segment_id m) ∧ wf_str (mf_segment_dir m) ∧
  inU 64 (mf_state_generation m) ∧ inU 32 (mf_state_checksum m) ∧ inU 32 (mf_doc_count m) ∧ inU 32 (mf_symbol_count m).

(** [From<SegmentError> for StoreError] *)
Definition seg_io (message : list Z) : StoreError := Segment (SegIo message).
Definition store_of_seg {A : Type} (r : outcome A) : store_outcome A :=
  match r with
  | Ok a => Ok a
  | Err (Fails e) => Err (Refuses (Segment e))
  | Err Panics => Err Aborts
  end.

Section durable.
Context (io_message : Op → list Z) (denied : Fs → Op → bool) (crc32c : bytes → Z) `{DebugStr}.
Context (to_json : Manifest → bytes) (from_json : bytes → result (list Z) Manifest).

Abbreviation call := (call io_message denied).

(** ** [durable.rs] *)

Definition fsync_dir (dir : path) : io unit := call StoreIo (SyncDir dir).

Definition write_tmp (dir tmp_name : path) (b : bytes) : io unit :=
  _ ← call StoreIo (Create (dir_join dir tmp_name));
  _ ← call StoreIo (WriteAll (dir_join dir tmp_name) b);
  call StoreIo (SyncFile (dir_join dir tmp_name)).

Definition atomic_write (dir tmp_name final_name : path) (b : bytes) : io unit :=
  _ ← write_tmp dir tmp_name b;
  _ ← call StoreIo (Rename (dir_join dir tmp_name) (dir_join dir final_name));
  fsync_dir dir.

(** ** Publishing a segment *)

Definition write_file (tmp_dir : path) (f : list Z * bytes) : io unit :=
  _ ← call seg_io (Create (dir_join tmp_dir f.1));
  _ ← call seg_io (WriteAll (dir_join tmp_dir f.1) f.2);
  call seg_io (SyncFile (dir_join tmp_dir f.1)).

(** [if path.exists() { remove_dir_all(path)? }] *)
Definition remove_existing (p : path) : io unit :=
  there ← ask (λ fs, path_exists fs p);
  if there : bool then call seg_io (RemoveTree p) else mret tt.

Definition tmp_dir_name (segment_id : Z) : list Z := lit "tmp-" ++ show_u segment_id.

(** [publish] of [writer.rs] *)
Definition publish_files (root : path) (segment_id : Z) (files : list (list Z * bytes)) (checksums : bytes)
    : io path :=
  let segments_dir := dir_join root (lit "segments") in
  _ ← call seg_io (Mkdirs segments_dir);
  let tmp_dir := dir_join root (tmp_dir_name segment_id) in
  _ ← remove_existing tmp_dir;
  _ ← call seg_io (Mkdirs tmp_dir);
  _ ← io_each (write_file tmp_dir) files;
  _ ← write_file tmp_dir (CHECKSUMS_FILE, checksums);
  _ ← call seg_io (SyncDir tmp_dir);
  let final_dir := dir_join segments_dir (segment_dir_name segment_id) in
  _ ← remove_existing final_dir;
  _ ← call seg_io (Rename tmp_dir final_dir);
  _ ← call seg_io (SyncDir segments_dir);
  mret final_dir.

(** [SegmentWriter::write] *)
Definition write_segment (root : path) (segment_id : Z) (data : SegmentData) (created_at_ms : Z) : io path :=
  built ← lift (store_of_seg (build_segment crc32c segment_id data created_at_ms));
  publish_files root segment_id built.1 built.2.

(** ** Workspace-state files *)

Definition write_state_tmp (root : path) (generation : Z) (payload : bytes) : io unit :=
  write_tmp root (state_tmp_name generation) (serialize crc32c generation payload).

Definition commit_state_tmp (root : path) (generation : Z) : io unit :=
  _ ← call StoreIo (Rename (dir_join root (state_tmp_name generation)) (dir_join root (state_file_name generation)));
  fsync_dir root.

(** [workspace_state::publish] *)
Definition publish_state (root : path) (generation : Z) (payload : bytes) : io unit :=
  atomic_write root (state_tmp_name generation) (state_file_name generation) (serialize crc32c generation payload).

(** [std::fs::read(path)?] *)
Definition read_io (fs : Fs) (p : path) : store_outcome bytes :=
  match read_path fs p with
  | Found b => Ok b
  | NotFound => Err (Refuses (StoreIo (lit "No such file or directory (os error 2)")))
  | ReadFails e => Err (Refuses (StoreIo e))
  end.

(** [workspace_state::load] *)
Definition load_state (fs : Fs) (root : path) (generation expected_checksum : Z) : store_outcome WorkspaceState :=
  b ← read_io fs (dir_join root (state_file_name generation));
  load crc32c b generation expected_checksum.

(** ** The manifest file *)

Definition manifest_commit (root : path) (m : Manifest) : io unit :=
  atomic_write root MANIFEST_TMP MANIFEST_FILE (to_json m).

Definition commit_after_tmp (root : path) : io unit :=
  _ ← call StoreIo (Rename (dir_join root MANIFEST_TMP) (dir_join root MANIFEST_FILE));
  fsync_dir root.

(** [Manifest::load] *)
Definition manifest_load (fs : Fs) (root : path) : store_outcome (option Manifest) :=
  match read_path fs (dir_join root MANIFEST_FILE) with
  | NotFound => Ok None
  | ReadFails e => Err (Refuses (StoreIo e))
  | Found b =>
      match from_json b with
      | Err e => Err (Refuses (ManifestCorrupt (lit "parse: " ++ e)))
      | Ok m =>
          if MANIFEST_SCHEMA_VERSION <? mf_schema_version m
          then Err (Refuses (FutureSchema (lit "manifest") (mf_schema_version m)))
          else Ok (Some m)
      end
  end.
End durable.
