(* ===== verification/StoreWrites.v ===== *)
(** The store's file names: the decimal names of generations are distinct, and the paths of
    different generations, of the staging area and of the commit point do not meet. *)

From S2P Require Import Prelude RustStr StoreFormat SegReader WorkspaceState FileSystem Durable SegWriter.

Open Scope Z_scope.

(** ** Segment directories *)

(** The padded number of a segment's directory. *)
Definition padded (n : Z) : list Z := replicate (6 - length (show_u n)) (ch "0") ++ show_u n.
Lemma segment_dir_name_eq n : segment_dir_name n = lit "segment-" ++ padded n.
Proof. done. Qed.
Lemma padded_digits n : Forall digit (padded n).
Proof. apply Forall_app. split; [|apply show_u_digits]. apply Forall_replicate. unfold digit. by vm_compute. Qed.
Lemma padded_value n : 0 ≤ n → foldl dec_step 0 (padded n) = n.
Proof.
  intros Hn. unfold padded. rewrite foldl_app. rewrite <- (show_u_value n Hn) at 3. f_equal.
  generalize (6 - length (show_u n))%nat. intros k. induction k as [|k IH]; [done|]. exact IH.
Qed.
Lemma segment_dir_name_inj a b : 0 ≤ a → 0 ≤ b → segment_dir_name a = segment_dir_name b → a = b.
Proof.
  intros Ha Hb E. rewrite !segment_dir_name_eq in E. apply app_inv_head in E.
  by rewrite <- (padded_value a Ha), <- (padded_value b Hb), E.
Qed.

Lemma dot_no_digit : ¬ digit (ch ".").
Proof. unfold digit. vm_compute. intros []. congruence. Qed.

(** Digits, then something that is not one. *)
Lemma digits_then x y c d a b :
  Forall digit x → Forall digit y → ¬ digit c → ¬ digit d → x ++ c :: a = y ++ d :: b → x = y ∧ c = d ∧ a = b.
Proof.
  intros Hx. revert y. induction Hx as [|e x He _ IH]; intros y Hy Hc Hd E; destruct Hy as [|f y Hf Hy]; cbn in E.
  - by injection E.
  - injection E as -> _. done.
  - injection E as <- _. done.
  - injection E as <- E. by destruct (IH y Hy Hc Hd E) as (-> & -> & ->).
Qed.

Lemma digits_name l : Forall digit l → is_name l.
Proof. intros H Hin. rewrite Forall_forall in H. specialize (H _ Hin). unfold digit in H. change slash with 47 in H. lia. Qed.
Lemma name_app a b : is_name a → is_name b → is_name (a ++ b).
Proof. unfold is_name. set_solver. Qed.
Lemma segment_dir_is_name n : is_name (segment_dir_name n).
Proof.
  rewrite segment_dir_name_eq. apply name_app; [|apply digits_name, padded_digits].
  refine (bool_decide_unpack _ _). vm_compute. exact I.
Qed.

Lemma state_file_name_inj a b : 0 ≤ a → 0 ≤ b → state_file_name a = state_file_name b → a = b.
Proof.
  intros Ha Hb E. unfold state_file_name in E. apply app_inv_head in E.
  apply digits_then in E as (E & _); [by apply show_u_inj|apply show_u_digits|apply show_u_digits|apply dot_no_digit..].
Qed.
Lemma state_tmp_ne a b : state_tmp_name a ≠ state_file_name b.
Proof.
  unfold state_file_name, state_tmp_name. intros E. apply app_inv_head in E.
  apply digits_then in E as (_ & _ & E); [done|apply show_u_digits|apply show_u_digits|apply dot_no_digit..].
Qed.

(** ** Paths under the root *)

Definition root_ok (root : path) : Prop := root ≠ [] ∧ ends_with [slash] root = false.

Section paths.
Context (root : path) (Hroot : root_ok root).

Definition rel (r : path) : path := root ++ [slash] ++ r.

Lemma join_rel r : dir_join root r = rel r.
Proof. unfold dir_join. destruct Hroot as [H1 H2]. rewrite bool_decide_false by done. unfold slash in H2. by rewrite H2. Qed.

Lemma rel_inj a b : rel a = rel b → a = b.
Proof. unfold rel. intros E. by apply app_inv_head in E; apply app_inv_head in E. Qed.

(** A path whose last character is not a separator. *)
Lemma ends_slash_app a b : b ≠ [] → ends_with [slash] (a ++ b) = ends_with [slash] b.
Proof.
  intros Hb. destruct (exists_last Hb) as (b' & c & ->). unfold ends_with, strip_suffix.
  rewrite app_assoc, !rev_app_distr. cbn [rev app strip_prefix]. by destruct (slash =? c).
Qed.

Lemma name_no_slash_end n : is_name n → ends_with [slash] n = false.
Proof.
  intros Hn. destruct n as [|x n]; [done|]. destruct (@exists_last _ (x :: n)) as (b & c & E); [done|]. rewrite E in *.
  unfold ends_with, strip_suffix. rewrite rev_app_distr. cbn [rev app strip_prefix].
  destruct (Z.eqb_spec slash c) as [<-|]; [|done]. exfalso. apply Hn. set_solver.
Qed.

Lemma join_below d x n : is_name d → d ≠ [] → x = rel d ∨ (∃ a, x = rel (a ++ [slash] ++ d)) → dir_join x n = x ++ [slash] ++ n.
Proof.
  intros Hd Hne Hx. assert (ends_with [slash] x = false ∧ x ≠ []) as [H1 H2].
  { destruct Hx as [->|[a ->]]; unfold rel; (split; [|by destruct root]).
    - rewrite !ends_slash_app by done. by apply name_no_slash_end.
    - rewrite (app_assoc root), ends_slash_app by (by destruct a). rewrite !ends_slash_app by done. by apply name_no_slash_end. }
  unfold dir_join. rewrite bool_decide_false by done. unfold slash in H1. by rewrite H1.
Qed.

(** The directory of a generation's segment, its files, and the generation's files. *)
Definition seg_rel (g : Z) : path := lit "segments" ++ [slash] ++ segment_dir_name g.
Definition seg_dir (g : Z) : path := rel (seg_rel g).
Definition seg_file (g : Z) (name : list Z) : path := rel (seg_rel g ++ [slash] ++ name).
Definition state_path (g : Z) : path := rel (state_file_name g).
Definition manifest_path : path := rel MANIFEST_FILE.
Definition tmp_dir (g : Z) : path := rel (tmp_dir_name g).
Definition tmp_file (g : Z) (name : list Z) : path := rel (tmp_dir_name g ++ [slash] ++ name).
Definition SEGMENT_FILES : list (list Z) := CHECKSUMMED_FILES ++ [CHECKSUMS_FILE].
Definition pair_files (g : Z) : list path := state_path g :: (seg_file g <$> SEGMENT_FILES).

Lemma segment_dir_nonempty g : segment_dir_name g ≠ [].
Proof. by rewrite segment_dir_name_eq. Qed.

Lemma join_segments g : dir_join (dir_join root (lit "segments")) (segment_dir_name g) = seg_dir g.
Proof.
  rewrite join_rel, (join_below (lit "segments")); [|refine (bool_decide_unpack _ _); vm_compute; exact I|done|by left].
  unfold seg_dir, seg_rel, rel. by rewrite <- !app_assoc.
Qed.
Lemma join_seg_file g n : dir_join (seg_dir g) n = seg_file g n.
Proof.
  unfold seg_dir, seg_rel. rewrite (join_below (segment_dir_name g));
    [|apply segment_dir_is_name|apply segment_dir_nonempty|right; by eexists].
  unfold seg_file, seg_rel, rel. by rewrite <- !app_assoc.
Qed.
Lemma tmp_is_name g : is_name (tmp_dir_name g).
Proof. apply name_app; [refine (bool_decide_unpack _ _); vm_compute; exact I|apply digits_name, show_u_digits]. Qed.
Lemma join_tmp_file g n : dir_join (tmp_dir g) n = tmp_file g n.
Proof.
  unfold tmp_dir. rewrite (join_below (tmp_dir_name g)); [|apply tmp_is_name|done|by left].
  unfold tmp_file, rel. by rewrite <- !app_assoc.
Qed.
End paths.

(** Which files the store's operations leave alone: an operation on the staging area or on the
    files of one generation spares the commit point and the pairs of the other generations. *)

Open Scope Z_scope.

(** ** Trees and heads *)

Lemma in_tree_heads a b : head a ≠ None → head a ≠ head b → in_tree a b = false.
Proof.
  intros Ha Hab. apply in_tree_false. destruct a as [|c a]; [done|]. split; [by intros ->|]. by intros r ->.
Qed.

Lemma in_tree_shorter d p : (length p < length d)%nat → in_tree d p = false.
Proof.
  intros H. apply in_tree_false. split; [intros ->; lia|]. intros r ->. rewrite length_app in H. lia.
Qed.

Lemma in_tree_self p : in_tree p p = true.
Proof. apply in_tree_true. by left. Qed.

Lemma ancestors_prefix pre rest q : q ∈ ancestors_aux pre rest → ∃ r, pre ++ rest = q ++ r.
Proof.
  revert pre. induction rest as [|c rest IH]; intros pre H; cbn [ancestors_aux] in H.
  - apply list_elem_of_singleton in H as ->. by exists [].
  - apply elem_of_app in H as [H|H].
    + destruct (_ && _); [|by apply elem_of_nil in H]. apply list_elem_of_singleton in H as ->. by exists (c :: rest).
    + destruct (IH _ H) as [r E]. exists r. by rewrite <- E, <- app_assoc.
Qed.
Lemma ancestors_self p : p ∈ ancestors p.
Proof.
  unfold ancestors. change p with ([] ++ p) at 1. generalize (@nil Z) as pre. induction p as [|c p IH]; intros pre; cbn [ancestors_aux].
  - rewrite app_nil_r. by left.
  - apply elem_of_app. right. specialize (IH (pre ++ [c])). by rewrite <- app_assoc in IH.
Qed.
Lemma ancestors_aux_dir d pre r : pre ++ d ≠ [] → pre ++ d ∈ ancestors_aux pre (d ++ slash :: r).
Proof.
  revert pre. induction d as [|c d IH]; intros pre Hne; cbn [app ancestors_aux].
  - rewrite app_nil_r in *. rewrite Z.eqb_refl, bool_decide_false by done. by left.
  - apply elem_of_app. right. specialize (IH (pre ++ [c])). rewrite <- !app_assoc in IH. by apply IH.
Qed.
Lemma ancestors_dir d r : d ≠ [] → d ∈ ancestors (d ++ [slash] ++ r).
Proof. intros Hd. by apply (ancestors_aux_dir d []). Qed.

Section frames.
Context (root : path) (Hroot : root_ok root).

Abbreviation rel := (rel root).

Lemma in_tree_rel a b : in_tree (rel a) (rel b) = in_tree a b.
Proof. apply in_tree_below. Qed.

Lemma ancestors_rel_heads t x : head x ≠ None → head t ≠ head x → rel x ∉ ancestors (rel t).
Proof.
  intros Hx Hh H. apply ancestors_prefix in H as [r E]. rewrite app_nil_l in E. unfold StoreWrites.rel in E.
  rewrite <- !app_assoc in E. apply app_inv_head in E. apply app_inv_head in E. subst t. by destruct x.
Qed.
Lemma ancestors_rel_longer t x : (length t < length x)%nat → rel x ∉ ancestors (rel t).
Proof.
  intros Hl H. apply ancestors_prefix in H as [r E]. rewrite app_nil_l in E. unfold StoreWrites.rel in E.
  rewrite <- !app_assoc in E. apply app_inv_head in E. apply app_inv_head in E. subst t. rewrite length_app in Hl. lia.
Qed.

(** ** Sparing a set of paths *)

Definition spares (K : path → Prop) (o : Op) : Prop :=
  (∀ p, K p → leaves o p ∧ leaves_dir o p) ∧ ∀ p, p ∈ ancestors root → leaves o p.

(** Nothing of [K] is the path [t] or below it. *)
Definition clear_of (K : path → Prop) (t : path) : Prop := ∀ p, K p → in_tree (rel t) p = false.

Lemma ancestors_root_short p t : p ∈ ancestors root → in_tree (rel t) p = false.
Proof.
  intros H. apply ancestors_prefix in H as [r E]. rewrite app_nil_l in E. apply in_tree_shorter.
  unfold StoreWrites.rel. rewrite E, !length_app. cbn. lia.
Qed.

Lemma in_tree_ne d p : in_tree d p = false → bool_decide (p = d) = false.
Proof. intros H. apply bool_decide_eq_false. intros ->. by rewrite in_tree_self in H. Qed.

Lemma spares_file K t : clear_of K t →
  spares K (Create (rel t)) ∧ (∀ b, spares K (WriteAll (rel t) b)) ∧ spares K (SyncFile (rel t)) ∧
  spares K (RemoveFile (rel t)).
Proof.
  intros H. unfold spares, leaves, leaves_dir. cbn [touches touches_dir].
  assert (∀ p, K p → bool_decide (p = rel t) = false) as H1 by (intros p Hp; by apply in_tree_ne, H).
  assert (∀ p, p ∈ ancestors root → bool_decide (p = rel t) = false) as H2.
  { intros p Hp. by apply in_tree_ne, ancestors_root_short. }
  repeat split; intros; auto.
Qed.

Lemma spares_tree K t : clear_of K t → spares K (RemoveTree (rel t)).
Proof.
  intros H. split; [intros p Hp; split; by apply H|]. intros p Hp. by apply ancestors_root_short.
Qed.

Lemma spares_rename K a b : clear_of K a → clear_of K b → spares K (Rename (rel a) (rel b)).
Proof.
  intros Ha Hb. unfold spares, leaves, leaves_dir. cbn [touches touches_dir].
  split; [intros p Hp; split; by rewrite Ha, Hb|]. intros p Hp. by rewrite !ancestors_root_short.
Qed.

Lemma spares_mkdirs (K : path → Prop) t : (∀ p, K p → p ∉ ancestors (rel t)) → spares K (Mkdirs (rel t)).
Proof. intros H. split; [|done]. intros p Hp. split; [done|]. by apply bool_decide_eq_false, H. Qed.

Lemma spares_sync K t : spares K (SyncDir t).
Proof. by split. Qed.

Lemma spares_weaken (K K' : path → Prop) o : (∀ p, K' p → K p) → spares K o → spares K' o.
Proof. intros H [H1 H2]. split; [|done]. intros p Hp. by apply H1, H. Qed.

(** ** The paths to spare *)

(** The files of the pairs of the generations in [G]. *)
Definition pairs_of (G : Z → Prop) (p : path) : Prop := ∃ g, G g ∧ p ∈ pair_files root g.
(** ... and the commit point. *)
Definition committed_and (G : Z → Prop) (p : path) : Prop := p = manifest_path root ∨ pairs_of G p.

Lemma pair_files_inv g p :
  p ∈ pair_files root g → p = state_path root g ∨ ∃ name, name ∈ SEGMENT_FILES ∧ p = seg_file root g name.
Proof.
  intros H. apply elem_of_cons in H as [->|H]; [by left|]. apply list_elem_of_fmap in H as (n & -> & Hn). right. by exists n.
Qed.

Lemma committed_cases (G : Z → Prop) (T : path → Prop) :
  T (manifest_path root) → (∀ g, G g → T (state_path root g)) → (∀ g n, G g → n ∈ SEGMENT_FILES → T (seg_file root g n)) →
  ∀ p, committed_and G p → T p.
Proof.
  intros HM HS HF p [->|(g & Hg & Hp)]; [done|]. apply pair_files_inv in Hp as [->|(n & Hn & ->)]; auto.
Qed.

End frames.

(** By the paths to spare: those that begin differently are clear. *)
Ltac by_target :=
  unfold clear_of; apply committed_cases; intros; unfold manifest_path, state_path, seg_file;
  rewrite in_tree_rel; try (apply in_tree_heads; first [discriminate | intros ?; discriminate]).


Section clear.
Context (root : path).
Abbreviation rel := (rel root).
Abbreviation clear_of := (clear_of root).
Abbreviation committed_and := (committed_and root).

Lemma clear_tmp G n : clear_of (committed_and G) (tmp_dir_name n).
Proof.
  by_target.
Qed.
Lemma clear_tmp_file G n name : clear_of (committed_and G) (tmp_dir_name n ++ [slash] ++ name).
Proof.
  by_target.
Qed.

Lemma lit_name (l : list Z) : bool_decide (slash ∈ l) = false → is_name l.
Proof. by rewrite bool_decide_eq_false. Qed.
Lemma state_name g : is_name (state_file_name g).
Proof.
  unfold state_file_name. apply name_app; [by apply lit_name|]. apply name_app; [apply digits_name, show_u_digits|by apply lit_name].
Qed.
Lemma state_tmp_is_name g : is_name (state_tmp_name g).
Proof.
  unfold state_tmp_name. apply name_app; [by apply lit_name|]. apply name_app; [apply digits_name, show_u_digits|by apply lit_name].
Qed.

Lemma clear_state_tmp G n : clear_of (committed_and G) (state_tmp_name n).
Proof.
  by_target.
  rewrite in_tree_names by auto using state_name, state_tmp_is_name. apply bool_decide_eq_false. intros E. by apply (state_tmp_ne n g).
Qed.
Lemma clear_manifest_tmp G : clear_of (committed_and G) MANIFEST_TMP.
Proof.
  by_target.
  by vm_compute.
Qed.

(** Generations other than [n]. *)
Context (n : Z) (Hn : 0 ≤ n) (G : Z → Prop) (HG : ∀ g, G g → 0 ≤ g ∧ g ≠ n).

Lemma clear_state : clear_of (committed_and G) (state_file_name n).
Proof.
  by_target.
  rewrite in_tree_names by auto using state_name. apply bool_decide_eq_false. intros E.
  destruct (HG g); [done|]. apply state_file_name_inj in E; [|lia..]. done.
Qed.
Lemma clear_seg : clear_of (committed_and G) (seg_rel n).
Proof.
  by_target.
  unfold seg_rel. rewrite <- !app_assoc, in_tree_below, in_tree_name_path by apply segment_dir_is_name.
  apply bool_decide_eq_false. intros E. destruct (HG g); [done|]. apply segment_dir_name_inj in E; [|lia..]. done.
Qed.
End clear.

Lemma clear_manifest root G : clear_of root (pairs_of root G) MANIFEST_FILE.
Proof.
  intros p (g & Hg & Hp). apply pair_files_inv in Hp as [->|(nm & Hn & ->)]; unfold state_path, seg_file; rewrite in_tree_rel; apply in_tree_heads; discriminate.
Qed.
Lemma clear_pairs root (G : Z → Prop) t : clear_of root (committed_and root G) t → clear_of root (pairs_of root G) t.
Proof. intros H p Hp. apply H. by right. Qed.

Lemma mkdirs_segments root G : ∀ p, committed_and root G p → p ∉ ancestors (rel root (lit "segments")).
Proof.
  apply committed_cases; intros; [apply ancestors_rel_heads; discriminate..|]. apply ancestors_rel_longer.
  unfold seg_rel. rewrite !length_app. cbn. lia.
Qed.
Lemma mkdirs_tmp root G n : ∀ p, committed_and root G p → p ∉ ancestors (rel root (tmp_dir_name n)).
Proof. apply committed_cases; intros; apply ancestors_rel_heads; discriminate. Qed.

(** What the store's writes leave on disk: the files of a published segment, of a state and of
    a manifest, all synced, with the other generations untouched. *)

Open Scope Z_scope.

(** The three calls that write a file. *)
Definition writes (p : path) (b : bytes) (o : Op) : Prop := o = Create p ∨ o = WriteAll p b ∨ o = SyncFile p.

Lemma writes_leaves p b o q : writes p b o → q ≠ p → leaves o q.
Proof. intros [->|[->| ->]] H; by apply bool_decide_eq_false. Qed.
Lemma writes_leaves_dir p b o q : writes p b o → leaves_dir o q.
Proof. by intros [->|[->| ->]]. Qed.
Lemma writes_spares root K t b o : clear_of root K t → writes (rel root t) b o → spares root K o.
Proof. intros Ht Ho. destruct (spares_file root K t Ht) as (H1 & H2 & H3 & _). by destruct Ho as [->|[->| ->]]. Qed.

Lemma stored_same (f f' : Fs) p b : fs_files f' !! p = fs_files f !! p → stored f p b → stored f' p b.
Proof. unfold stored. by intros ->. Qed.

Lemma stored_run (f f' : Fs) log p b :
  run f log = Some f' → Forall (λ o, leaves o p) log → stored f p b → stored f' p b.
Proof. intros Hr Hl. apply stored_same. by apply (run_frame _ log). Qed.

Section writes.
Context (io_message : Op → list Z) (denied : Fs → Op → bool).
Abbreviation call := (call io_message denied).

Lemma write_does wrap p b fs :
  does (_ ← call wrap (Create p); _ ← call wrap (WriteAll p b); call wrap (SyncFile p)) fs (writes p b)
    (λ _ f, stored f p b).
Proof.
  eapply does_bind; [apply (does_call _ _ _ _ _ _ (λ _ f, fs_files f !! p = Some (mkFile [] false)))|].
  { by left. }
  { intros f E. cbn [exec] in E. destruct (_ && _); [|done]. injection E as <-. cbn [fs_files]. by rewrite lookup_insert_eq. }
  intros [] f1 H1. eapply does_bind; [apply (does_call _ _ _ _ _ _ (λ _ f, fs_files f !! p = Some (mkFile b false)))|].
  { right. by left. }
  { intros f E. cbn [exec] in E. rewrite H1 in E. injection E as <-. cbn [fs_files]. by rewrite lookup_insert_eq. }
  intros [] f2 H2. apply does_call; [by right; right|].
  intros f E. cbn [exec] in E. rewrite H2 in E. injection E as <-. unfold stored. cbn [fs_files]. by rewrite lookup_insert_eq.
Qed.

(** What is stored elsewhere stays. *)
Lemma write_keeps wrap p b fs (Q : Fs → Prop) :
  (∀ f log, run fs log = Some f → Forall (writes p b) log → Q f) →
  does (_ ← call wrap (Create p); _ ← call wrap (WriteAll p b); call wrap (SyncFile p)) fs (writes p b)
    (λ _ f, stored f p b ∧ Q f).
Proof.
  intros HQ. eapply does_weaken; [done| |apply does_frame, write_does]. intros [] f (Hs & log & Hr & Hl). split; [done|by eapply HQ].
Qed.

Section publish.
Context (root : path) (Hroot : root_ok root).
Context (n : Z) (Hn : 0 ≤ n) (G : Z → Prop) (HG : ∀ g, G g → 0 ≤ g ∧ g ≠ n).

Abbreviation sparing := (spares root (committed_and root G)).

(** An operation that writes one of the files of [l] into the staging directory. *)
Definition stages (l : list (list Z * bytes)) (o : Op) : Prop := ∃ x, x ∈ l ∧ writes (tmp_file root n x.1) x.2 o.

Lemma stages_spares l o : stages l o → sparing o.
Proof. intros (x & _ & Hx). eapply writes_spares; [|exact Hx]. apply clear_tmp_file. Qed.

Lemma tmp_file_inj a b : tmp_file root n a = tmp_file root n b → a = b.
Proof. intros E%rel_inj. by apply app_inv_head in E; apply app_inv_head in E. Qed.

Lemma stages_leaves l o name : stages l o → name ∉ l.*1 → leaves o (tmp_file root n name).
Proof.
  intros (x & Hx & Hw) Hn'. eapply writes_leaves; [done|]. intros E%tmp_file_inj. apply Hn'. rewrite E. by apply list_elem_of_fmap_2.
Qed.

Lemma tmp_dir_ne_file name : tmp_dir root n ≠ tmp_file root n name.
Proof. intros E%rel_inj. apply (f_equal length) in E. rewrite !length_app in E. cbn in E. lia. Qed.

Lemma stages_leaves_dir l o : stages l o → leaves o (tmp_dir root n).
Proof. intros (x & Hx & Hw). eapply writes_leaves; [done|]. apply tmp_dir_ne_file. Qed.

Definition staged (f : Fs) (l : list (list Z * bytes)) : Prop := Forall (λ x, stored f (tmp_file root n x.1) x.2) l.

Lemma staged_run f f' l l' log :
  run f log = Some f' → Forall (stages l') log → (∀ x, x ∈ l → x.1 ∉ l'.*1) → staged f l → staged f' l.
Proof.
  intros Hr Hl Hd Hs. unfold staged in *. rewrite Forall_forall in Hs |- *. intros x Hx. eapply stored_run; [done| |by apply Hs].
  eapply Forall_impl; [done|]. intros o Ho. eapply stages_leaves; [done|]. by apply Hd.
Qed.

Lemma write_file_does x fs :
  does (write_file io_message denied (tmp_dir root n) x) fs (stages [x]) (λ _ f, staged f [x]).
Proof.
  unfold write_file. rewrite join_tmp_file by done. eapply does_weaken; [| |apply write_does].
  - intros o Ho. exists x. split; [by left|done].
  - intros [] f Hs. by constructor.
Qed.

Lemma write_files_does l fs :
  NoDup l.*1 → does (io_each (write_file io_message denied (tmp_dir root n)) l) fs (stages l) (λ _ f, staged f l).
Proof.
  revert fs. induction l as [|x l IH]; intros fs Hnd; cbn [io_each]; [apply does_ret; constructor|].
  apply NoDup_cons in Hnd as [Hx Hnd]. eapply does_bind.
  { eapply does_weaken; [|intros a f Hf; exact Hf|apply write_file_does].
    intros o (y & ->%list_elem_of_singleton & Hw). exists x. split; [by left|done]. }
  intros [] f1 H1. eapply does_weaken; [| |apply does_frame, (IH f1 Hnd)].
  - intros o (y & Hy & Hw). exists y. split; [by right|done].
  - intros [] f2 (H2 & log & Hr & Hl). constructor; [|done]. assert (staged f2 [x]) as H; [|by inversion H].
    eapply staged_run; [done|done| |done]. by intros y ->%list_elem_of_singleton.
Qed.

(** The segment of generation [n] holds the files [l]. *)
Definition published (f : Fs) (l : list (list Z * bytes)) : Prop := Forall (λ x, stored f (seg_file root n x.1) x.2) l.

Lemma seg_rel_tmp name : in_tree (seg_dir root n) (tmp_file root n name) = false.
Proof. unfold seg_dir, tmp_file. rewrite in_tree_rel. apply in_tree_heads; discriminate. Qed.

Lemma remove_existing_does p fs (P : Op → Prop) (Q : Fs → Prop) :
  P (RemoveTree p) → Q fs → (∀ f, exec fs (RemoveTree p) = Some f → Q f) →
  does (remove_existing io_message denied p) fs P (λ _ f, Q f).
Proof.
  intros HP H0 HQ. eapply does_bind; [by apply (does_ask _ _ _ (λ _ f, f = fs))|]. intros [] f ->; [|by apply does_ret].
  apply does_call; [done|]. exact HQ.
Qed.

Lemma seg_rename_stored f f' l :
  fs_files f !! tmp_dir root n = None → exec f (Rename (tmp_dir root n) (seg_dir root n)) = Some f' →
  staged f l → published f' l.
Proof.
  intros Hnone E Hs. cbn [exec] in E. destruct (_ || _); [done|]. rewrite Hnone in E.
  destruct (is_dir f _ && _ && _ && _) eqn:Ec; [|done]. injection E as <-.
  rewrite !andb_true_iff, !negb_true_iff in Ec. destruct Ec as [[_ Hab] Hba].
  eapply Forall_impl; [exact Hs|]. intros x Hx. unfold stored in *. cbn [fs_files]. rewrite lookup_swapped by done.
  assert (seg_file root n x.1 = seg_dir root n ++ [slash] ++ x.1) as ->.
  { unfold seg_file, seg_dir, rel. by rewrite <- !app_assoc. }
  rewrite swap_prefix_into by done. rewrite <- Hx. f_equal. unfold tmp_file, tmp_dir, rel. by rewrite <- !app_assoc.
Qed.

(** [publish] of [writer.rs] leaves exactly the files it was given, synced. *)
Lemma publish_files_does l sums fs :
  NoDup (l.*1 ++ [CHECKSUMS_FILE]) →
  does (publish_files io_message denied root n l sums) fs sparing
    (λ d f, d = seg_dir root n ∧ published f (l ++ [(CHECKSUMS_FILE, sums)])).
Proof.
  intros Hnd. unfold publish_files. cbv zeta. rewrite (join_segments root Hroot), !(join_rel root Hroot).
  fold (tmp_dir root n). eapply does_bind; [apply (does_call _ _ _ _ _ _ (λ _ _, True)); [apply spares_mkdirs, mkdirs_segments|done]|].
  intros [] f1 _. eapply does_bind; [apply (remove_existing_does _ _ _ (λ _, True)); [apply spares_tree, clear_tmp|done|done]|].
  intros [] f2 _. eapply does_bind.
  { apply (does_call _ _ _ _ _ _ (λ _ f, fs_files f !! tmp_dir root n = None)); [apply spares_mkdirs, mkdirs_tmp|].
    intros f E. cbn [exec] in E. destruct (existsb _ _) eqn:Ex; [done|]. injection E as <-. cbn [fs_files].
    destruct (fs_files f2 !! tmp_dir root n) as [x|] eqn:Ef; [|done]. exfalso.
    rewrite <- not_true_iff_false in Ex. apply Ex, List.existsb_exists. exists (tmp_dir root n).
    split; [apply list_elem_of_In, ancestors_self|]. by apply bool_decide_eq_true; rewrite Ef. }
  intros [] f3 H3. eapply does_bind.
  { eapply does_weaken; [apply (stages_spares l)|intros a f Hf; exact Hf|].
    apply does_frame, write_files_does. by apply NoDup_app in Hnd as (? & _). }
  intros [] f4 (H4 & log4 & Hr4 & Hl4). eapply does_bind.
  { eapply does_weaken; [apply (stages_spares [(CHECKSUMS_FILE, sums)])|intros a f Hf; exact Hf|].
    apply does_frame, write_file_does. }
  intros [] f5 (H5 & log5 & Hr5 & Hl5).
  assert (staged f5 (l ++ [(CHECKSUMS_FILE, sums)]) ∧ fs_files f5 !! tmp_dir root n = None) as [Hs Hd].
  { split.
    - apply Forall_app. split; [|exact H5]. eapply staged_run; [exact Hr5|exact Hl5| |exact H4].
      intros x Hx Hc. apply NoDup_app in Hnd as (_ & Hnd & _). apply (Hnd x.1); [by apply list_elem_of_fmap_2|exact Hc].
    - rewrite (run_frame _ _ _ _ Hr5), (run_frame _ _ _ _ Hr4); [done| |]; (eapply Forall_impl; [eassumption|]; intros o; apply stages_leaves_dir). }
  eapply does_bind; [apply (does_call _ _ _ _ _ _ (λ _ f, f = f5)); [apply spares_sync|]|].
  { intros f E. cbn [exec] in E. destruct (is_dir _ _); [by injection E as <-|done]. }
  intros [] f6 ->. set (Q := λ f, staged f (l ++ [(CHECKSUMS_FILE, sums)]) ∧ fs_files f !! tmp_dir root n = None).
  eapply does_bind; [apply (remove_existing_does _ _ _ Q)|].
  { by apply spares_tree, clear_seg. }
  { done. }
  { intros f E. split.
    - eapply Forall_impl; [exact Hs|]. intros x Hx. eapply stored_same; [|exact Hx]. eapply exec_frame; [exact E|]. apply seg_rel_tmp.
    - rewrite (exec_frame _ _ _ _ E); [done|]. cbn [touches]. unfold seg_dir, tmp_dir. rewrite in_tree_rel. apply in_tree_heads; discriminate. }
  intros [] f7 [H7 H7']. eapply does_bind; [apply (does_call _ _ _ _ _ _ (λ _ f, published f (l ++ [(CHECKSUMS_FILE, sums)])))|].
  { apply spares_rename; [apply clear_tmp|by apply clear_seg]. }
  { intros f E. by eapply seg_rename_stored. }
  intros [] f8 H8. eapply does_bind; [apply (does_call _ _ _ _ _ _ (λ _ f, f = f8)); [apply spares_sync|]|].
  { intros f E. cbn [exec] in E. destruct (is_dir _ _); [by injection E as <-|done]. }
  intros [] f9 ->. by apply does_ret.
Qed.
End publish.
End writes.
