(* ===== verification/Snapshot.v ===== *)
(** The snapshot store ([ls-store/src/snapshot.rs]): recovering the active pair of segment and
    workspace state on open, publishing a new generation, and deleting superseded
    generations once nobody holds them.

    An [Arc<Snapshot>] is the snapshot it points to, and so is the [Weak] of a retired one: the
    snapshots of a store have distinct generations. The references other threads hold are
    the argument [strong] of the janitor. The store's locks make its operations sequential,
    and each is a computation over the files ([FileSystem.io]). *)

From S2P Require Import Prelude RustStr StoreFormat SegReader SegWriter WorkspaceState FileSystem Durable.

Open Scope Z_scope.

Inductive Failpoint := FpNone | TornStateTmp | AfterStateBeforeManifest | TornManifestTmp.
#[export] Instance Failpoint_eq_dec : EqDecision Failpoint.
Proof. solve_decision. Defined.

Record Snapshot := mkSnapshot {
  sn_segment : SegmentReader; sn_state : WorkspaceState; sn_segment_id : Z; sn_generation : Z;
  sn_segment_dir : path; sn_state_path : path
}.

Record Retired := mkRetired { rt_snapshot : Snapshot; rt_paths : list path }.

(** The [root] of a [Store] does not change. *)
Record Store := mkStore { st_root : path; st_current : option Snapshot; st_retired : list Retired }.

(** Only [segments/segment-<digits>]. *)
Definition is_canonical_segment_dir (dir : list Z) : bool :=
  match strip_prefix (lit "segments/segment-") dir with
  | Some rest => negb (bool_decide (rest = [])) && forallb (λ c, (48 <=? c) && (c <=? 57)) rest
  | None => false
  end.

Section store.
Context (io_message : Op → list Z) (denied : Fs → Op → bool) (crc32c : bytes → Z) `{DebugStr}.
Context (to_json : Manifest → bytes) (from_json : bytes → result (list Z) Manifest).

Abbreviation call := (call io_message denied).
Abbreviation attempt := (attempt denied).

(** ** Recovery *)

Definition remove_debris_entry (root : path) (name : list Z) : io unit :=
  if starts_with (lit "tmp-") name then attempt (RemoveTree (dir_join root name))
  else if starts_with (lit "workspace-state-") name && ends_with (lit ".bin.tmp") name
  then attempt (RemoveFile (dir_join root name))
  else mret tt.

(** A root that cannot be listed does not exist: nothing to remove. *)
Definition remove_tmp_debris (root : path) : io unit :=
  _ ← attempt (RemoveFile (dir_join root MANIFEST_TMP));
  names ← ask (λ fs, entries fs root);
  io_each (remove_debris_entry root) names.

Definition open_snapshot (fs : Fs) (root : path) (manifest : Manifest) : store_outcome Snapshot :=
  if negb (is_canonical_segment_dir (mf_segment_dir manifest)) then
    Err (Refuses (ManifestCorrupt (lit "non-canonical segment_dir " ++ debug_str (mf_segment_dir manifest))))
  else
  let segment_dir := dir_join root (mf_segment_dir manifest) in
  segment ← store_of_seg (reader_open crc32c (read_path fs) segment_dir);
  if negb (rd_segment_id segment =? mf_segment_id manifest) then
    Err (Refuses (PairMismatch (lit "segment header id " ++ show_u (rd_segment_id segment) ++
                                lit " != manifest segment_id " ++ show_u (mf_segment_id manifest))))
  else if negb (doc_count segment =? mf_doc_count manifest) ||
          negb (as_u32 (symbol_count segment) =? mf_symbol_count manifest) then
    Err (Refuses (PairMismatch (lit "manifest doc/symbol counts disagree with segment")))
  else
  state ← load_state crc32c fs root (mf_state_generation manifest) (mf_state_checksum manifest);
  Ok (mkSnapshot segment state (mf_segment_id manifest) (mf_state_generation manifest) segment_dir
        (dir_join root (state_file_name (mf_state_generation manifest)))).

(** The pair [manifest.json] names, if there is one. *)
Definition recover (fs : Fs) (root : path) : store_outcome (option Snapshot) :=
  manifest ← manifest_load from_json fs root;
  match manifest with
  | None => Ok None
  | Some m => s ← open_snapshot fs root m; Ok (Some s)
  end.

(** [Store::open_readonly] *)
Definition open_readonly (root : path) : io Store :=
  found ← ask (λ fs, recover fs root);
  current ← lift found;
  mret (mkStore root current []).

(** [Store::open] *)
Definition open (root : path) : io Store :=
  _ ← call StoreIo (Mkdirs root);
  _ ← remove_tmp_debris root;
  open_readonly root.

(** ** The janitor *)

Definition remove_path (p : path) : io unit :=
  dir ← ask (λ fs, is_dir fs p);
  attempt (if dir : bool then RemoveTree p else RemoveFile p).

(** [retired.retain(..)]: [strong] counts the references to a snapshot. *)
Fixpoint retain_held (strong : Snapshot → Z) (retired : list Retired) : io (list Retired) :=
  match retired with
  | [] => mret []
  | r :: retired =>
      if negb (strong (rt_snapshot r) =? 0) then
        kept ← retain_held strong retired;
        mret (r :: kept)
      else
        _ ← io_each remove_path (rt_paths r);
        retain_held strong retired
  end.

Definition run_janitor (strong : Snapshot → Z) (st : Store) : io Store :=
  kept ← retain_held strong (st_retired st);
  mret (mkStore (st_root st) (st_current st) kept).

(** ** Publishing *)

Definition retire (old : Snapshot) (st : Store) : Store :=
  mkStore (st_root st) (st_current st)
    (st_retired st ++ [mkRetired old [sn_segment_dir old; sn_state_path old]]).

Definition next_generation (st : Store) : Z :=
  match st_current st with None => 1 | Some s => as_u64 (sn_generation s + 1) end.

Definition next_manifest (next : Z) (data : SegmentData) (state_payload : bytes) : Manifest :=
  mkManifest MANIFEST_SCHEMA_VERSION next (lit "segments/" ++ segment_dir_name next) next
    (payload_checksum crc32c state_payload) (as_u32 (zlen (docs data))) (as_u32 (zlen (symbols data))).

(** The references the publishing call itself holds while its janitor runs: to the snapshot it
    replaced ([prev]) and to the new one. *)
Definition own_references (prev : option Snapshot) (snap s : Snapshot) : Z :=
  (match prev with Some p => if bool_decide (sn_generation p = sn_generation s) then 1 else 0 | None => 0 end) +
  (if bool_decide (sn_generation snap = sn_generation s) then 2 else 0).

(** After the commit: open the pair, swap it in, retire the old one, run the janitor. *)
Definition swap_snapshot (st : Store) (manifest : Manifest) (strong : Snapshot → Z) : io (Store * option Snapshot) :=
  opened ← ask (λ fs, open_snapshot fs (st_root st) manifest);
  snap ← lift opened;
  let st1 := mkStore (st_root st) (Some snap) (st_retired st) in
  let st2 := match st_current st with Some old => retire old st1 | None => st1 end in
  st3 ← run_janitor (λ s, strong s + own_references (st_current st) snap s) st2;
  mret (st3, Some snap).

(** [Store::publish_with_failpoint] *)
Definition publish_with_failpoint (st : Store) (data : SegmentData) (state_payload : bytes) (created_at_ms : Z)
    (failpoint : Failpoint) (strong : Snapshot → Z) : io (Store * option Snapshot) :=
  let root := st_root st in
  let next := next_generation st in
  _ ← write_segment io_message denied crc32c root next data created_at_ms;
  _ ← write_state_tmp io_message denied crc32c root next state_payload;
  if bool_decide (failpoint = TornStateTmp) then mret (st, None) else
  _ ← commit_state_tmp io_message denied root next;
  if bool_decide (failpoint = AfterStateBeforeManifest) then mret (st, None) else
  let manifest := next_manifest next data state_payload in
  _ ← write_tmp io_message denied root MANIFEST_TMP (to_json manifest);
  if bool_decide (failpoint = TornManifestTmp) then mret (st, None) else
  _ ← commit_after_tmp io_message denied root;
  swap_snapshot st manifest strong.

(** [Store::publish] *)
Definition publish (st : Store) (data : SegmentData) (state_payload : bytes) (created_at_ms : Z)
    (strong : Snapshot → Z) : io (Store * Snapshot) :=
  r ← publish_with_failpoint st data state_payload created_at_ms FpNone strong;
  match r.2 with
  | Some snap => mret (r.1, snap)
  | None => lift (Err Aborts)
  end.
End store.
