(* ===== verification/StoreExample.v ===== *)
(** A concrete store for the witnesses: a JSON codec stand-in and small calls. *)

From S2P Require Import Prelude RustStr StoreFormat SegReader SegWriter SegExample SegLayout WorkspaceState FileSystem Durable Snapshot.

Open Scope Z_scope.

(** An encoding of manifests that [decode_manifest] inverts. *)
Definition encode_manifest (m : Manifest) : bytes :=
  put_u32 (mf_schema_version m) ++ put_u64 (mf_segment_id m) ++ put_u64 (mf_state_generation m) ++
  put_u32 (mf_state_checksum m) ++ put_u32 (mf_doc_count m) ++ put_u32 (mf_symbol_count m) ++
  concat (put_u32 <$> mf_segment_dir m).

Fixpoint decode_chars (b : bytes) : list Z :=
  match b with
  | b0 :: b1 :: b2 :: b3 :: b => le_val [b0; b1; b2; b3] :: decode_chars b
  | _ => []
  end.

Definition decode_manifest (b : bytes) : result (list Z) Manifest :=
  ok_or (schema ← read_u32 b 0; id ← read_u64 b 4; generation ← read_u64 b 12; sum ← read_u32 b 20;
         docs ← read_u32 b 24; syms ← read_u32 b 28;
         Some (mkManifest schema id (decode_chars (drop 32 b)) generation sum docs syms)) (lit "EOF").

Definition no_message (o : Op) : list Z := lit "denied".
Definition no_refs (s : Snapshot) : Z := 0.
Definition empty_fs : Fs := mkFs ∅ ∅.

Definition root : path := lit "/store".
Definition open_ex := open no_message no_faults sum_crc decode_manifest root.
Definition publish_ex (st : Store) (data : SegmentData) (payload : bytes) :=
  publish_with_failpoint no_message no_faults sum_crc encode_manifest st data payload 1234 FpNone no_refs.

(** ** The codec *)

Lemma decode_chars_put l : Forall (inU 32) l → decode_chars (concat (put_u32 <$> l)) = l.
Proof.
  induction 1 as [|c l Hc _ IH]; [done|]. cbn [fmap list_fmap concat]. unfold put_u32 at 1. cbn [le_bytes app decode_chars].
  rewrite IH. f_equal. change (le_val (le_bytes 4 c) = c). rewrite le_val_le_bytes. by apply Z.mod_small.
Qed.

Lemma decode_encode m : manifest_typed m → decode_manifest (encode_manifest m) = Ok m.
Proof.
  intros (H1 & H2 & H3 & H4 & H5 & H6 & H7). unfold decode_manifest.
  assert (drop 32 (encode_manifest m) = concat (put_u32 <$> mf_segment_dir m)) as Hd by reflexivity.
  pose proof (holds_at_self (encode_manifest m)) as HX. unfold encode_manifest in HX at 2. at_split HX.
  rewrite ?zlen_put_u32, ?zlen_put_u64 in *. set (b := encode_manifest m) in *.
  assert (read_u32 b 0 = Some (mf_schema_version m)) as -> by (at_read; done).
  assert (read_u64 b 4 = Some (mf_segment_id m)) as -> by (at_read; done).
  assert (read_u64 b 12 = Some (mf_state_generation m)) as -> by (at_read; done).
  assert (read_u32 b 20 = Some (mf_state_checksum m)) as -> by (at_read; done).
  assert (read_u32 b 24 = Some (mf_doc_count m)) as -> by (at_read; done).
  assert (read_u32 b 28 = Some (mf_symbol_count m)) as -> by (at_read; done).
  cbn [mbind option_bind ok_or]. rewrite Hd, decode_chars_put; [by destruct m|].
  eapply Forall_impl; [exact H3|]. unfold is_scalar, inU. intros c Hc. lia.
Qed.

Lemma sum_crc_range b : inU 32 (sum_crc b).
Proof. apply Z.mod_pos_bound. reflexivity. Qed.

(** A crash that loses nothing that was written. *)
Definition settled (f : Fs) : Fs := mkFs ((λ n, mkFile (fn_bytes n) true) <$> fs_files f) (fs_dirs f).

Lemma torn_settled f : torn f (settled f).
Proof.
  split; cbn [settled fs_files fs_dirs]; [done| |]; intros p; rewrite lookup_fmap.
  - by intros ->.
  - intros n ->. by eexists.
Qed.

Lemma crash_settled fs log f : run fs log = Some f → crash fs log (settled f).
Proof.
  intros Hr. exists log, [], f, f. rewrite app_nil_r. split; [done|]. split; [done|]. split; [done|]. split; [by left|].
  apply torn_settled.
Qed.
