(* ===== verification/StorePublish.v ===== *)
(** When a store is recoverable: the snapshot the manifest names can be opened, its files are
    synced, and [Store::open] finds it again. *)

From S2P Require Import Prelude RustStr StoreFormat SegReader SegWriter WorkspaceState FileSystem Durable StoreWrites Snapshot SegSafe SegLayout SegTables SegRound SegValid.

Open Scope Z_scope.

Section inv.
Context (crc32c : bytes → Z) {Hdebug : DebugStr}.
Context (from_json : bytes → result (list Z) Manifest).
Context (root : path) (Hroot : root_ok root).

(** ** Snapshots on disk *)

(** The files of a snapshot are on disk, synced, and hold what the snapshot was opened from. *)
Record intact (fs : Fs) (s : Snapshot) : Prop := {
  in_range : inU 64 (sn_generation s);
  in_paths : sn_segment_dir s = seg_dir root (sn_generation s) ∧ sn_state_path s = state_path root (sn_generation s);
  in_segment : reader_open crc32c (read_path fs) (sn_segment_dir s) = Ok (sn_segment s);
  in_state : ∃ sum, load_state crc32c fs root (sn_generation s) sum = Ok (sn_state s);
  in_files : ∀ p, p ∈ pair_files root (sn_generation s) → ∃ b, stored fs p b
}.

(** ... and the manifest names it. *)
Definition serves (fs : Fs) (s : Snapshot) : Prop :=
  intact fs s ∧ ∃ b m, stored fs (manifest_path root) b ∧ from_json b = Ok m ∧
    mf_schema_version m ≤ MANIFEST_SCHEMA_VERSION ∧ mf_segment_dir m = lit "segments/" ++ segment_dir_name (sn_generation s) ∧
    mf_state_generation m = sn_generation s ∧ open_snapshot crc32c fs root m = Ok s.

(** No generation was committed. *)
Definition uncommitted (fs : Fs) : Prop := fs_files fs !! manifest_path root = None ∧ is_dir fs (manifest_path root) = false.

Definition recoverable (fs : Fs) (current : option Snapshot) : Prop :=
  match current with Some s => serves fs s | None => uncommitted fs end.

(** ** Frames *)

Lemma seg_file_in g name : name ∈ SEGMENT_FILES → seg_file root g name ∈ pair_files root g.
Proof. intros H. right. by apply list_elem_of_fmap_2. Qed.

Lemma map_files_agree (r r' : path → FileRead) dir names :
  (∀ n, n ∈ names → r' (dir_join dir n) = r (dir_join dir n)) → map_files r' dir names = map_files r dir names.
Proof.
  intros H. induction names as [|n names IH]; [done|]. cbn [map_files]. unfold map_file.
  rewrite H by left. rewrite IH; [done|]. intros x Hx. apply H. by right.
Qed.

Lemma reader_open_agree fs fs' g :
  (∀ p, p ∈ pair_files root g → read_path fs' p = read_path fs p) →
  reader_open crc32c (read_path fs') (seg_dir root g) = reader_open crc32c (read_path fs) (seg_dir root g).
Proof.
  intros H. unfold reader_open. rewrite (map_files_agree (read_path fs)).
  - unfold map_file. rewrite join_seg_file by done. rewrite H; [done|]. apply seg_file_in. unfold SEGMENT_FILES.
    apply elem_of_app. right. by left.
  - intros n Hn. rewrite join_seg_file by done. apply H, seg_file_in, elem_of_app. by left.
Qed.

Lemma load_state_agree fs fs' g sum :
  (∀ p, p ∈ pair_files root g → read_path fs' p = read_path fs p) →
  load_state crc32c fs' root g sum = load_state crc32c fs root g sum.
Proof. intros H. unfold load_state, read_io. rewrite join_rel by done. fold (state_path root g). rewrite H by left. done. Qed.

Lemma open_snapshot_agree fs fs' m g :
  mf_segment_dir m = lit "segments/" ++ segment_dir_name g → mf_state_generation m = g →
  (∀ p, p ∈ pair_files root g → read_path fs' p = read_path fs p) →
  open_snapshot crc32c fs' root m = open_snapshot crc32c fs root m.
Proof.
  intros Hd Hg H. unfold open_snapshot. cbv zeta. rewrite Hg, Hd, (join_rel root Hroot).
  change (rel root (lit "segments/" ++ segment_dir_name g)) with (seg_dir root g).
  rewrite (reader_open_agree fs), (load_state_agree fs) by done. done.
Qed.

Definition same_pair (fs fs' : Fs) (g : Z) : Prop := ∀ p, p ∈ pair_files root g → ∀ b, stored fs p b → stored fs' p b.

Lemma same_pair_read fs fs' s :
  same_pair fs fs' (sn_generation s) → intact fs s → ∀ p, p ∈ pair_files root (sn_generation s) → read_path fs' p = read_path fs p.
Proof.
  intros H Hi p Hp. destruct (in_files _ _ Hi p Hp) as [b Hb].
  rewrite (stored_read _ _ _ Hb). apply stored_read. by apply H.
Qed.

Lemma intact_frame fs fs' s : same_pair fs fs' (sn_generation s) → intact fs s → intact fs' s.
Proof.
  intros H Hi. pose proof (same_pair_read _ _ _ H Hi) as Hr. split; [apply Hi|apply Hi| | |].
  - destruct (in_paths _ _ Hi) as [-> _]. rewrite (reader_open_agree fs) by done. rewrite <- (proj1 (in_paths _ _ Hi)). apply Hi.
  - destruct (in_state _ _ Hi) as [sum E]. exists sum. by rewrite (load_state_agree fs).
  - intros p Hp. destruct (in_files _ _ Hi p Hp) as [b Hb]. exists b. by apply H.
Qed.

Lemma serves_frame fs fs' s :
  (∀ p, committed_and root (λ g, g = sn_generation s) p → ∀ b, stored fs p b → stored fs' p b) → serves fs s → serves fs' s.
Proof.
  intros H (Hi & b & m & Hm & Hj & Hv & Hd & Hg & Ho).
  assert (same_pair fs fs' (sn_generation s)) as Hsame by (intros p Hp; apply H; right; by exists (sn_generation s)).
  split; [by eapply intact_frame|]. exists b, m. split; [apply H; [by left|done]|]. split; [done|]. split; [done|].
  split; [done|]. split; [done|]. rewrite (open_snapshot_agree fs fs' m (sn_generation s)); [done..|]. by apply same_pair_read.
Qed.

(** ** Recovery *)

Lemma recover_serves fs s : serves fs s → recover crc32c from_json fs root = Ok (Some s).
Proof.
  intros (_ & b & m & Hm & Hj & Hv & _ & _ & Ho). unfold recover, manifest_load. rewrite (join_rel root Hroot). fold (manifest_path root).
  rewrite (stored_read _ _ _ Hm), Hj. destruct (Z.ltb_spec MANIFEST_SCHEMA_VERSION (mf_schema_version m)); [lia|].
  cbn [mbind result_bind]. by rewrite Ho.
Qed.

Lemma recover_fresh fs : uncommitted fs → recover crc32c from_json fs root = Ok None.
Proof. intros [Hf Hd]. unfold recover, manifest_load. rewrite (join_rel root Hroot). fold (manifest_path root). unfold read_path. by rewrite Hf, Hd. Qed.

Lemma recover_recoverable fs c : recoverable fs c → recover crc32c from_json fs root = Ok c.
Proof. destruct c; [apply recover_serves|apply recover_fresh]. Qed.

(** The paths a recoverable store depends on. *)
Definition current_paths (c : option Snapshot) : path → Prop :=
  committed_and root (λ g, match c with Some s => g = sn_generation s | None => False end).

Lemma recoverable_run fs log fs' c :
  run fs log = Some fs' → Forall (spares root (current_paths c)) log → recoverable fs c → recoverable fs' c.
Proof.
  intros Hr Hl. assert (∀ p, current_paths c p → Forall (λ o, leaves o p) log ∧ Forall (λ o, leaves_dir o p) log) as Hp.
  { intros p Hp. split; (eapply Forall_impl; [exact Hl|]); intros o [Ho _]; by apply Ho. }
  destruct c as [s|]; cbn [recoverable].
  - apply serves_frame. intros p HP b. eapply stored_run; [done|]. by apply Hp.
  - intros [Hf Hd]. destruct (Hp (manifest_path root)) as [H1 H2]; [by left|]. split.
    + by rewrite (run_frame _ _ _ _ Hr H1).
    + by rewrite (run_frame_dir _ _ _ _ Hr H2).
Qed.

Lemma recoverable_crash fs log fs' c :
  crash fs log fs' → Forall (spares root (current_paths c)) log → recoverable fs c → recoverable fs' c.
Proof.
  intros Hr Hl. assert (∀ p, current_paths c p → Forall (λ o, leaves o p) log ∧ Forall (λ o, leaves_dir o p) log) as Hp.
  { intros p Hp. split; (eapply Forall_impl; [exact Hl|]); intros o [Ho _]; by apply Ho. }
  destruct c as [s|]; cbn [recoverable].
  - apply serves_frame. intros p HP. by apply (crash_frame _ _ _ _ Hr), Hp.
  - intros [Hf Hd]. destruct (Hp (manifest_path root)) as [H1 H2]; [by left|]. split.
    + by apply (crash_frame _ _ _ _ Hr H1).
    + by rewrite (crash_frame_dir _ _ _ _ Hr H2).
Qed.

(** ** The root *)

(** Nothing on the way to the root is a file. *)
Definition root_free (fs : Fs) : Prop := ∀ p, p ∈ ancestors root → fs_files fs !! p = None.

Lemma root_free_run K fs log fs' : run fs log = Some fs' → Forall (spares root K) log → root_free fs → root_free fs'.
Proof.
  intros Hr Hl H p Hp. rewrite (run_frame _ _ _ _ Hr); [by apply H|]. eapply Forall_impl; [exact Hl|]. intros o [_ Ho]. by apply Ho.
Qed.
Lemma root_free_crash K fs log fs' : crash fs log fs' → Forall (spares root K) log → root_free fs → root_free fs'.
Proof.
  intros Hr Hl H p Hp. apply (crash_frame _ _ _ _ Hr); [|by apply H]. eapply Forall_impl; [exact Hl|]. intros o [_ Ho]. by apply Ho.
Qed.
End inv.

(** ** Opening a store *)

Section open.
Context (io_message : Op → list Z) (denied : Fs → Op → bool) (crc32c : bytes → Z) {Hdebug : DebugStr}.
Context (from_json : bytes → result (list Z) Manifest).
Context (root : path) (Hroot : root_ok root).

Lemma entries_name fs d n : n ∈ entries fs d → is_name n.
Proof.
  unfold entries. rewrite list_elem_of_omap. intros (q & _ & E). destruct (strip_prefix _ q) as [r|]; [|done].
  cbn [mbind option_bind] in E. case_bool_decide; [done|]. by injection E as <-.
Qed.

(** The debris is never part of a pair. *)
Lemma debris_does name fs K :
  K = committed_and root (λ g, inU 64 g) → is_name name →
  does (remove_debris_entry denied root name) fs (spares root K) (λ _ _, True).
Proof.
  intros -> Hname. unfold remove_debris_entry. rewrite (join_rel root Hroot).
  destruct (starts_with (lit "tmp-") name) eqn:E1.
  { apply starts_with_true in E1 as [r ->]. apply does_attempt; [|done..]. apply spares_tree. by_target. }
  destruct (starts_with _ name && ends_with _ name) eqn:E2; [|by apply does_ret].
  apply andb_true_iff in E2 as [E2 E3]. apply starts_with_true in E2 as [r E2].
  apply does_attempt; [|done..]. apply spares_file. rewrite E2. by_target.
  rewrite <- E2, in_tree_names by auto using state_name. apply bool_decide_eq_false. intros E. rewrite <- E in E3.
  unfold state_file_name, ends_with, strip_suffix in E3. rewrite !rev_app_distr in E3. done.
Qed.

Lemma remove_tmp_debris_does fs :
  does (remove_tmp_debris denied root) fs (spares root (committed_and root (λ g, inU 64 g))) (λ _ _, True).
Proof.
  unfold remove_tmp_debris. rewrite (join_rel root Hroot). eapply does_bind; [apply (does_attempt _ _ _ _ (λ _ _, True)); [|done..]|].
  { apply spares_file, clear_manifest_tmp. }
  intros [] f _. eapply does_bind; [by apply (does_ask _ _ _ (λ names f, names = entries f root))|].
  intros names f1 ->. apply (does_each _ _ _ _ (λ _, True)); [done|]. intros n f2 Hn _.
  apply (debris_does n f2 _ eq_refl). by eapply entries_name.
Qed.

Definition returns {A : Type} (m : io A) : Prop := ∀ fs, ∃ log f a, m fs = (log, f, Ok a).
Lemma returns_bind {A B : Type} (m : io A) (k : A → io B) : returns m → (∀ a, returns (k a)) → returns (m ≫= k).
Proof.
  intros Hm Hk fs. destruct (Hm fs) as (log & f & a & E). destruct (Hk a f) as (log' & f' & b & E').
  exists (log ++ log'), f', b. unfold mbind, io_bind. by rewrite E, E'.
Qed.
Lemma returns_attempt o : returns (attempt denied o).
Proof. intros fs. unfold attempt. destruct (try_op denied fs o); by eexists _, _, _. Qed.
Lemma returns_each {A : Type} (f : A → io unit) l : (∀ x, returns (f x)) → returns (io_each f l).
Proof.
  intros H. induction l as [|x l IH]; cbn [io_each]; [intros fs; by eexists _, _, _|]. by apply returns_bind.
Qed.

Lemma debris_returns : returns (remove_tmp_debris denied root).
Proof.
  apply returns_bind; [apply returns_attempt|]. intros [].
  apply returns_bind; [intros fs; by eexists _, _, _|]. intros names. apply returns_each. intros n. unfold remove_debris_entry.
  repeat case_match; [apply returns_attempt..|]. intros fs. by eexists _, _, _.
Qed.

Lemma mkdirs_root G : spares root (committed_and root G) (Mkdirs root).
Proof.
  split; [|done]. intros p Hp. split; [done|]. apply bool_decide_eq_false. intros Ha.
  assert (∃ x, p = rel root x) as [x ->].
  { destruct Hp as [->|(g & _ & Hp)]; [by eexists|]. apply pair_files_inv in Hp as [->|(nm & _ & ->)]; by eexists. }
  apply ancestors_prefix in Ha as [r E]. apply (f_equal length) in E. unfold rel in E. rewrite !length_app in E. cbn in E. lia.
Qed.

(** [Store::open] of a recoverable root succeeds, finds the snapshot, and leaves the root
    recoverable. *)
Lemma open_recovers fs c :
  (∀ f, denied f (Mkdirs root) = false) → root_free root fs → recoverable crc32c from_json root fs c →
  (∀ s, c = Some s → inU 64 (sn_generation s)) →
  ∃ log f, open io_message denied crc32c from_json root fs = (log, f, Ok (mkStore root c [])) ∧
    run fs log = Some f ∧ Forall (spares root (current_paths root c)) log ∧
    root_free root f ∧ recoverable crc32c from_json root f c.
Proof.
  intros Hden Hfree Hrec Hgen. assert (existsb (is_file fs) (ancestors root) = false) as Hex.
  { apply not_true_iff_false. intros (p & Hp & Hf)%List.existsb_exists. apply list_elem_of_In in Hp.
    unfold is_file in Hf. rewrite (Hfree p Hp) in Hf. apply bool_decide_eq_true in Hf. by destruct Hf. }
  set (f1 := mkFs (fs_files fs) (fs_dirs fs ∪ list_to_set (ancestors root))).
  assert (exec fs (Mkdirs root) = Some f1) as E1 by (cbn [exec]; by rewrite Hex).
  destruct (debris_returns f1) as (log2 & f2 & [] & E2).
  pose proof (remove_tmp_debris_does f1) as Hdoes. unfold does in Hdoes. rewrite E2 in Hdoes. destruct Hdoes as (Hr2 & Hl2 & _).
  assert (Forall (spares root (current_paths root c)) (Mkdirs root :: log2)) as Hl.
  { constructor.
    - apply mkdirs_root.
    - eapply Forall_impl; [exact Hl2|]. intros o. apply spares_weaken. intros p [->|(g & Hg & Hp)]; [by left|].
      right. exists g. split; [|done]. destruct c as [s|]; [|done]. subst g. by apply Hgen. }
  assert (run fs (Mkdirs root :: log2) = Some f2) as Hr by (cbn [run]; by rewrite E1).
  assert (recoverable crc32c from_json root f2 c) as Hrec2 by (by eapply recoverable_run).
  exists (Mkdirs root :: log2), f2. split.
  - unfold open, open_readonly, mbind, io_bind, call, try_op, ask, lift. rewrite Hden, E1, E2.
    rewrite (recover_recoverable crc32c from_json root Hroot f2 c Hrec2). cbn. by rewrite !app_nil_r.
  - split; [done|]. split; [done|]. split; [|done]. by eapply root_free_run.
Qed.
End open.

(** Publishing a generation: the log splits at the rename of the manifest. Before it only files
    of the new generation are touched; after it the new pair is complete and only retired
    generations are. *)

Open Scope Z_scope.

Lemma build_names (crc32c : bytes → Z) {Hdebug : DebugStr} id data created fs sums :
  build_segment crc32c id data created = Ok (fs, sums) → fs.*1 = CHECKSUMMED_FILES.
Proof.
  unfold build_segment. intros E. repeat (apply bind_Ok in E as (? & _ & E)). injection E as <- _. done.
Qed.

Section publish.
Context (io_message : Op → list Z) (denied : Fs → Op → bool) (crc32c : bytes → Z) {Hdebug : DebugStr}.
Context (to_json : Manifest → bytes) (from_json : bytes → result (list Z) Manifest).
Context (st : Store) (data : SegmentData) (payload : bytes) (created : Z).

Let root := st_root st.
Let n := next_generation st.
Let manifest := next_manifest crc32c n data payload.

(** Everything before the commit; [false] when the failpoint fires. *)
Definition prepare (failpoint : Failpoint) : io bool :=
  _ ← write_segment io_message denied crc32c root n data created;
  _ ← write_state_tmp io_message denied crc32c root n payload;
  if bool_decide (failpoint = TornStateTmp) then mret false else
  _ ← commit_state_tmp io_message denied root n;
  if bool_decide (failpoint = AfterStateBeforeManifest) then mret false else
  _ ← write_tmp io_message denied root MANIFEST_TMP (to_json manifest);
  if bool_decide (failpoint = TornManifestTmp) then mret false else mret true.

Definition finish (strong : Snapshot → Z) : io (Store * option Snapshot) :=
  _ ← commit_after_tmp io_message denied root;
  swap_snapshot denied crc32c st manifest strong.

Lemma io_bind_ext {A B : Type} (m : io A) (k k' : A → io B) fs :
  (∀ a f, k a f = k' a f) → (m ≫= k) fs = (m ≫= k') fs.
Proof. intros H. unfold mbind, io_bind. destruct (m fs) as [[log f] [a|e]]; [by rewrite H|done]. Qed.

Lemma io_bind_assoc {A B C : Type} (m : io A) (k : A → io B) (k' : B → io C) fs :
  ((m ≫= k) ≫= k') fs = (m ≫= λ a, k a ≫= k') fs.
Proof.
  unfold mbind, io_bind. destruct (m fs) as [[log f] [a|e]]; [|done]. destruct (k a f) as [[log' f'] [b|e]]; [|done].
  destruct (k' b f') as [[log'' f''] r]. by rewrite app_assoc.
Qed.

Lemma publish_split failpoint strong fs :
  publish_with_failpoint io_message denied crc32c to_json st data payload created failpoint strong fs =
  (prepare failpoint ≫= λ go : bool, if go then finish strong else mret (st, None)) fs.
Proof.
  unfold publish_with_failpoint, prepare. fold root n. fold manifest. cbv zeta.
  rewrite io_bind_assoc. apply io_bind_ext. intros _ f1. rewrite io_bind_assoc. apply io_bind_ext. intros _ f2.
  destruct (bool_decide (failpoint = TornStateTmp)); [done|]. rewrite io_bind_assoc. apply io_bind_ext. intros _ f3.
  destruct (bool_decide (failpoint = AfterStateBeforeManifest)); [done|]. rewrite io_bind_assoc. apply io_bind_ext. intros _ f4.
  destruct (bool_decide (failpoint = TornManifestTmp)); [done|]. unfold finish.
  unfold mbind, io_bind, mret, io_ret. cbn. destruct (commit_after_tmp _ _ _ _) as [[? f5] []]; [|done].
  by destruct (swap_snapshot _ _ _ _ _ f5) as [[? ?] ?].
Qed.

(** ** Before the commit *)

Context (Hroot : root_ok root) (Hn : inU 64 n).
(** The generations that must survive. *)
Context (G : Z → Prop) (HG : ∀ g, G g → 0 ≤ g ∧ g ≠ n).

Abbreviation sparing := (spares root (committed_and root G)).

(** The new pair, with its manifest still under the temporary name. *)
Definition pair_written (f : Fs) : Prop :=
  (∃ files sums, build_segment crc32c n data created = Ok (files, sums) ∧ published root n f (files ++ [(CHECKSUMS_FILE, sums)])) ∧
  stored f (state_path root n) (serialize crc32c n payload).

Lemma published_run f f' log l :
  run f log = Some f' → Forall (λ o, ∀ name, leaves o (seg_file root n name)) log → published root n f l → published root n f' l.
Proof.
  intros Hr Hl Hs. eapply Forall_impl; [exact Hs|]. intros x Hx. eapply stored_run; [exact Hr| |exact Hx].
  eapply Forall_impl; [exact Hl|]. intros o Ho. apply Ho.
Qed.

Lemma rel_ne a b : head a ≠ head b → rel root a ≠ rel root b.
Proof. intros H E. apply H. by apply rel_inj in E as ->. Qed.

(** A file under its temporary name reaches its final name. *)
Lemma file_rename_stored f f' t u b :
  exec f (Rename (rel root t) (rel root u)) = Some f' → t ≠ u → stored f (rel root t) b →
  stored f' (rel root u) b ∧ ∀ q c, q ≠ rel root t → q ≠ rel root u → stored f q c → stored f' q c.
Proof.
  intros E Htu Hs. cbn [exec] in E. destruct (_ || _); [done|]. unfold stored in Hs. rewrite Hs in E. injection E as <-.
  unfold stored. cbn [fs_files]. split; [by rewrite lookup_insert_eq|]. intros q c H1 H2 Hq.
  by rewrite lookup_insert_ne, lookup_delete_ne by done.
Qed.

Lemma write_segment_does fs :
  does (write_segment io_message denied crc32c root n data created) fs sparing
    (λ _ f, ∃ files sums, build_segment crc32c n data created = Ok (files, sums) ∧ published root n f (files ++ [(CHECKSUMS_FILE, sums)])).
Proof.
  unfold write_segment. eapply does_bind.
  { apply (does_lift _ _ _ (λ b _, build_segment crc32c n data created = Ok b)). intros [files sums].
    destruct (build_segment _ _ _ _) as [b|[e|]]; cbn; congruence. }
  intros [files sums] f1 Hb. eapply does_weaken; [intros o Ho; exact Ho| |apply publish_files_does; [exact Hroot|apply Hn|exact HG|]].
  - intros d f [_ Hp]. by exists files, sums.
  - cbn [fst]. rewrite (build_names _ _ _ _ _ _ Hb). refine (bool_decide_unpack _ _). vm_compute. exact I.
Qed.

Lemma write_tmp_does name b fs (Q : Fs → Prop) :
  clear_of root (committed_and root G) name →
  (∀ f log, run fs log = Some f → Forall (writes (rel root name) b) log → Q f) →
  does (write_tmp io_message denied root name b) fs sparing (λ _ f, stored f (rel root name) b ∧ Q f).
Proof.
  intros Hc HQ. unfold write_tmp. rewrite join_rel by done.
  eapply does_weaken; [|intros a f Hf; exact Hf|by apply write_keeps]. intros o. by apply writes_spares.
Qed.

Lemma writes_keeps_published name b l f f' log :
  head name ≠ Some (ch "s") → run f log = Some f' → Forall (writes (rel root name) b) log →
  published root n f l → published root n f' l.
Proof.
  intros Hh Hr Hl. apply (published_run f f' log); [done|]. eapply Forall_impl; [exact Hl|]. intros o Ho nm.
  eapply writes_leaves; [exact Ho|]. apply rel_ne. intros E. by apply Hh.
Qed.

Lemma commit_state_does fs :
  stored fs (rel root (state_tmp_name n)) (serialize crc32c n payload) →
  does (commit_state_tmp io_message denied root n) fs sparing
    (λ _ f, stored f (state_path root n) (serialize crc32c n payload) ∧
       ∀ l, published root n fs l → published root n f l).
Proof.
  intros Hs. unfold commit_state_tmp, fsync_dir. rewrite !(join_rel root Hroot).
  eapply does_bind; [apply (does_call _ _ _ _ _ _ (λ _ f, stored f (state_path root n) (serialize crc32c n payload) ∧
       ∀ l, published root n fs l → published root n f l))|].
  { apply spares_rename; [apply clear_state_tmp|by apply clear_state; [apply Hn|]]. }
  { intros f E. destruct (file_rename_stored _ _ _ _ _ E (state_tmp_ne n n) Hs) as [H1 H2]. split; [exact H1|].
    intros l Hl. eapply Forall_impl; [exact Hl|]. intros x Hx. apply H2; [apply rel_ne; discriminate..|exact Hx]. }
  intros [] f H. apply does_call; [apply spares_sync|]. intros f' E. cbn [exec] in E.
  destruct (is_dir f root); [by injection E as <-|done].
Qed.

Lemma prepare_does failpoint fs :
  does (prepare failpoint) fs sparing
    (λ go f, go = true → pair_written f ∧ stored f (rel root MANIFEST_TMP) (to_json manifest)).
Proof.
  unfold prepare. eapply does_bind; [apply write_segment_does|]. intros d f1 (files & sums & Hb & Hp1).
  set (l := files ++ [(CHECKSUMS_FILE, sums)]) in *. eapply does_bind.
  { apply (write_tmp_does _ _ _ (λ f, published root n f l)); [apply clear_state_tmp|]. intros f log Hr Hl.
    eapply writes_keeps_published; [|exact Hr|exact Hl|exact Hp1]. discriminate. }
  intros [] f2 [H2 Hp2]. destruct (bool_decide _); [by apply does_ret|]. eapply does_bind; [apply commit_state_does, H2|].
  intros [] f3 [H3 Hp3]. specialize (Hp3 _ Hp2). destruct (bool_decide _); [by apply does_ret|]. eapply does_bind.
  { apply (write_tmp_does _ _ _ (λ f, published root n f l ∧ stored f (state_path root n) (serialize crc32c n payload)));
      [apply clear_manifest_tmp|]. intros f log Hr Hl. split.
    - eapply writes_keeps_published; [|exact Hr|exact Hl|exact Hp3]. discriminate.
    - eapply stored_run; [exact Hr| |exact H3]. eapply Forall_impl; [exact Hl|]. intros o Ho.
      eapply writes_leaves; [exact Ho|]. apply rel_ne. discriminate. }
  intros [] f4 (H4 & Hp4 & Hs4). destruct (bool_decide _); apply does_ret; [done|]. intros _. split; [|exact H4].
  split; [|exact Hs4]. by exists files, sums.
Qed.

(** ** The commit *)

Definition pair_committed (f : Fs) : Prop := pair_written f ∧ stored f (manifest_path root) (to_json manifest).

Lemma commit_rename f f' :
  pair_written f → stored f (rel root MANIFEST_TMP) (to_json manifest) →
  exec f (Rename (rel root MANIFEST_TMP) (rel root MANIFEST_FILE)) = Some f' → pair_committed f'.
Proof.
  intros [(files & sums & Hb & Hp) Hs] Ht E.
  destruct (file_rename_stored _ _ _ _ _ E ltac:(discriminate) Ht) as [H1 H2].
  assert (∀ x c, head x ≠ Some (ch "m") → stored f (rel root x) c → stored f' (rel root x) c) as Hk.
  { intros x c Hx. apply H2; apply rel_ne; intros E'; apply Hx; by rewrite E'. }
  split; [|exact H1]. split; [|by apply Hk]. exists files, sums. split; [done|].
  eapply Forall_impl; [exact Hp|]. intros x Hx. by apply Hk.
Qed.
End publish.

(** The janitor removes the files of retired, unheld generations and nothing else; and what a
    whole publication does to the files, from the first write to the last removal. *)

Open Scope Z_scope.

(** ** The janitor *)

Section janitor.
Context (denied : Fs → Op → bool) (root : path).

Definition held (strong : Snapshot → Z) (r : Retired) : Prop := strong (rt_snapshot r) ≠ 0.
#[local] Instance held_dec strong r : Decision (held strong r).
Proof. unfold held. apply _. Defined.

Definition generation_of (r : Retired) : Z := sn_generation (rt_snapshot r).
Definition owns_pair (r : Retired) : Prop :=
  0 ≤ generation_of r ∧ rt_paths r = [seg_dir root (generation_of r); state_path root (generation_of r)].

(** Removes the segment or the state of a generation in [R]. *)
Definition removes (R : Z → Prop) (o : Op) : Prop :=
  ∃ g p, R g ∧ (p = seg_dir root g ∨ p = state_path root g) ∧ (o = RemoveTree p ∨ o = RemoveFile p).

Lemma removes_spares (R G : Z → Prop) o :
  (∀ g, R g → 0 ≤ g) → (∀ g, G g → 0 ≤ g ∧ ¬ R g) → removes R o → spares root (committed_and root G) o.
Proof.
  intros HR HG (g & p & Hg & Hp & Ho).
  assert (∀ g', G g' → 0 ≤ g' ∧ g' ≠ g) as HG' by (intros g' Hg'; destruct (HG g' Hg'); split; [done|by intros ->]).
  assert (∃ t, p = rel root t ∧ clear_of root (committed_and root G) t) as (t & -> & Hc).
  { destruct Hp as [->| ->]; eexists; (split; [done|]); [apply clear_seg|apply clear_state]; auto. }
  destruct Ho as [->| ->]; [by apply spares_tree|by apply spares_file].
Qed.

Lemma remove_pair_does (R : Z → Prop) r fs :
  owns_pair r → R (generation_of r) → does (io_each (remove_path denied) (rt_paths r)) fs (removes R) (λ _ _, True).
Proof.
  intros [_ ->] HR. apply (does_each _ _ _ _ (λ _, True)); [done|]. intros p f Hp _.
  eapply does_bind; [by apply (does_ask _ _ _ (λ _ _, True))|]. intros [] f' _;
    (apply does_attempt; [|done..]); exists (generation_of r), p; (split; [done|]);
    (split; [rewrite !elem_of_cons, elem_of_nil in Hp; tauto|]); auto.
Qed.

(** Exactly the held ones stay queued; only files of the others are removed. *)
Lemma retain_held_does strong l fs :
  Forall owns_pair l →
  does (retain_held denied strong l) fs (removes (λ g, ∃ r, r ∈ l ∧ ¬ held strong r ∧ g = generation_of r))
    (λ kept _, kept = filter (held strong) l).
Proof.
  revert fs. induction l as [|r l IH]; intros fs Hl; cbn [retain_held]; [by apply does_ret|].
  apply Forall_cons in Hl as [Hr Hl].
  assert (∀ f, does (retain_held denied strong l) f (removes (λ g, ∃ r', r' ∈ r :: l ∧ ¬ held strong r' ∧ g = generation_of r'))
    (λ kept _, kept = filter (held strong) l)) as IH'.
  { intros f. eapply does_weaken; [|intros a f' Hf; exact Hf|by apply IH].
    intros o (g & p & (r' & Hr' & Hh & Hg) & Ho). exists g, p. split; [|done]. exists r'. split; [by right|done]. }
  destruct (Z.eqb_spec (strong (rt_snapshot r)) 0) as [E|E]; cbn [negb].
  - eapply does_bind; [apply (remove_pair_does _ r)|]; [done| |].
    { exists r. split; [by left|]. split; [|done]. unfold held. tauto. }
    intros [] f _. rewrite filter_cons_False by (unfold held; tauto). apply IH'.
  - eapply does_bind; [apply IH'|]. intros kept f ->. apply does_ret. by rewrite filter_cons_True.
Qed.

Lemma retain_held_returns strong l : returns (retain_held denied strong l).
Proof.
  induction l as [|r l IH]; cbn [retain_held]; [intros fs; by eexists _, _, _|]. destruct (negb _).
  - apply returns_bind; [done|]. intros kept fs. by eexists _, _, _.
  - apply returns_bind; [|by intros []]. apply returns_each. intros p. apply returns_bind; [intros fs; by eexists _, _, _|].
    intros [] ; apply returns_attempt.
Qed.
End janitor.

(** ** A whole publication *)

Section publication.
Context (io_message : Op → list Z) (denied : Fs → Op → bool) (crc32c : bytes → Z) {Hdebug : DebugStr}.
Context (to_json : Manifest → bytes) (from_json : bytes → result (list Z) Manifest).
Context (st : Store) (data : SegmentData) (payload : bytes) (created : Z) (failpoint : Failpoint) (strong : Snapshot → Z).

Let root := st_root st.
Let n := next_generation st.
Let manifest := next_manifest crc32c n data payload.

Context (Hroot : root_ok root) (Hn : inU 64 n).

Abbreviation sparing := (spares root (committed_and root (λ g, 0 ≤ g ∧ g ≠ n))).
Definition commit : Op := Rename (rel root MANIFEST_TMP) (rel root MANIFEST_FILE).

(** It stops before the commit, or at the sync after it, or goes through. *)
Lemma publish_cases fs :
  let '(log, fs1, r) := publish_with_failpoint io_message denied crc32c to_json st data payload created failpoint strong fs in
  (run fs log = Some fs1 ∧ Forall sparing log ∧ (r = Ok (st, None) ∨ ∃ e, r = Err e)) ∨
  (∃ log0 f0 f1, run fs log0 = Some f0 ∧ Forall sparing log0 ∧ exec f0 commit = Some f1 ∧
     pair_committed crc32c to_json st data payload created f1 ∧
     ((log = log0 ++ [commit] ∧ fs1 = f1 ∧ ∃ e, r = Err e) ∨
      (∃ log3, log = log0 ++ [commit] ++ [SyncDir root] ++ log3 ∧ exec f1 (SyncDir root) = Some f1 ∧
         swap_snapshot denied crc32c st manifest strong f1 = (log3, fs1, r)))).
Proof.
  rewrite publish_split. unfold mbind at 1, io_bind.
  pose proof (prepare_does io_message denied crc32c to_json st data payload created Hroot Hn (λ g, 0 ≤ g ∧ g ≠ n) (λ g H, H) failpoint fs) as Hp.
  unfold does in Hp. destruct (prepare _ _ _ _ _ _ _ _ _ fs) as [[log0 f0] [go|e]]; [|left; split_and!; [apply Hp..|right; by eexists]].
  destruct Hp as (Hr0 & Hl0 & Hgo). destruct go; [|left; cbn; rewrite app_nil_r; by auto].
  destruct (Hgo eq_refl) as [Hw Ht]. unfold finish, commit_after_tmp, fsync_dir. fold root. rewrite !(join_rel root Hroot).
  unfold mbind, io_bind, call. fold commit. destruct (try_op denied f0 commit) as [f1|] eqn:E1.
  2:{ left. cbv beta iota. rewrite app_nil_r. split; [done|]. split; [done|]. right. by eexists. }
  apply try_op_exec in E1.
  assert (pair_committed crc32c to_json st data payload created f1) as Hc by (by eapply commit_rename).
  destruct (try_op denied f1 (SyncDir root)) as [f2|] eqn:E2; fold manifest.
  - apply try_op_exec in E2. assert (f2 = f1) as -> by (cbn [exec] in E2; destruct (is_dir f1 root); congruence).
    destruct (swap_snapshot _ _ _ _ _ f1) as [[log3 f3] r3] eqn:E3. cbv beta iota. right.
    exists log0, f0, f1. split; [done|]. split; [done|]. split; [done|]. split; [done|]. right. by exists log3.
  - cbv beta iota. right. exists log0, f0, f1. split; [done|]. split; [done|]. split; [done|]. split; [done|]. left.
    split; [done|]. split; [done|]. by eexists.
Qed.

(** ** The committed pair *)

Record snapshot_holds (s : Snapshot) : Prop := {
  sh_id : sn_generation s = n ∧ sn_segment_id s = n;
  sh_data : ∃ c2s, holds_data (sn_segment s) data c2s;
  sh_created : rd_segment_id (sn_segment s) = n ∧ rd_created_at_ms (sn_segment s) = created;
  sh_state : sn_state s = mkWorkspaceState n payload
}.

(** The inputs the format can hold. *)
Record storable : Prop := {
  st_typed : data_typed data; st_sized : data_sized data; st_metas : metas_readable data;
  st_created : inS 64 created; st_payload : zlen payload < 2 ^ 62
}.

Context (Hcrc : ∀ b, inU 32 (crc32c b)) (Hjson : ∀ m, manifest_typed m → from_json (to_json m) = Ok m).

Lemma canonical_segment_dir g : is_canonical_segment_dir (lit "segments/" ++ segment_dir_name g) = true.
Proof.
  rewrite segment_dir_name_eq. unfold is_canonical_segment_dir.
  change (lit "segments/" ++ lit "segment-" ++ padded g) with (lit "segments/segment-" ++ padded g).
  rewrite strip_prefix_app. apply andb_true_iff. split.
  - rewrite bool_decide_false; [done|]. unfold padded. intros E. apply app_eq_nil in E as [_ E]. by apply (show_u_nonempty g).
  - apply forallb_forall. intros c Hc. apply list_elem_of_In in Hc. pose proof (padded_digits g) as Hd.
    rewrite Forall_forall in Hd. specialize (Hd c Hc). unfold digit in Hd. lia.
Qed.

Lemma manifest_is_typed : manifest_typed manifest.
Proof.
  unfold manifest_typed. cbn [manifest next_manifest mf_schema_version mf_segment_id mf_segment_dir mf_state_generation mf_state_checksum mf_doc_count mf_symbol_count].
  split_and!; try done; try (by apply wrapU_range); try apply Hcrc; try apply Hn.
  rewrite segment_dir_name_eq. apply Forall_app. split; [refine (bool_decide_unpack _ _); vm_compute; exact I|].
  apply Forall_app. split; [refine (bool_decide_unpack _ _); vm_compute; exact I|].
  eapply Forall_impl; [apply padded_digits|]. unfold digit, is_scalar. intros c Hc. lia.
Qed.

Lemma committed_serves f :
  storable → pair_committed crc32c to_json st data payload created f →
  ∃ s, open_snapshot crc32c f root manifest = Ok s ∧ snapshot_holds s ∧ serves crc32c from_json root f s.
Proof.
  intros [Ht Hs Hm Hcr Hpay] [[(files & sums & Hb & Hp) Hst] Hman].
  fold root n in Hb, Hp, Hst, Hman. fold manifest in Hman.
  assert (holds_files (read_path f) (seg_dir root n) files sums) as Hdir.
  { eapply Forall_impl; [exact Hp|]. intros x Hx. rewrite (join_seg_file root Hroot). by apply stored_read. }
  destruct (segment_opens crc32c n created data files sums (read_path f) (seg_dir root n) Hcrc Hn Hcr Ht Hs Hm Hb Hdir)
    as (seg & c2s & Hvalid & Hopen & Hid & Hcreated & Hholds).
  assert (load_state crc32c f root n (crc32c payload) = Ok (mkWorkspaceState n payload)) as Hload.
  { unfold load_state, read_io. rewrite (join_rel root Hroot). fold (state_path root n). rewrite (stored_read _ _ _ Hst).
    cbn [mbind result_bind]. by apply load_complete. }
  set (s := mkSnapshot seg (mkWorkspaceState n payload) n n (seg_dir root n) (state_path root n)).
  assert (open_snapshot crc32c f root manifest = Ok s) as Ho.
  { unfold open_snapshot. cbn [manifest next_manifest mf_segment_dir mf_segment_id mf_doc_count mf_symbol_count mf_state_generation mf_state_checksum].
    rewrite canonical_segment_dir. cbn [negb]. cbv zeta. rewrite !(join_rel root Hroot).
    change (rel root (lit "segments/" ++ segment_dir_name n)) with (seg_dir root n). rewrite Hopen.
    cbn [store_of_seg mbind result_bind]. rewrite Hid, Z.eqb_refl. cbn [negb].
    destruct (hd_counts _ _ _ Hholds) as (Hsym & _ & Hdoc & _). destruct (sz_counts _ Hs) as (N1 & _ & N3 & _).
    pose proof (zlen_nonneg (docs data)). pose proof (zlen_nonneg (symbols data)).
    rewrite Hsym, Hdoc. unfold as_u32 at 1. rewrite (wrapU_id 32 (zlen (docs data))) by (unfold inU; lia). rewrite !Z.eqb_refl. cbn [negb orb].
    unfold payload_checksum. rewrite Hload. done. }
  exists s. split; [done|]. split; [by split; try (by eexists)|]. split.
  - split; cbn [sn_generation sn_segment_dir sn_state_path sn_segment sn_state]; [done|done|done|by eexists|].
    intros p Hp'. apply pair_files_inv in Hp' as [->|(nm & Hnm & ->)]; [by eexists|].
    assert (nm ∈ (files ++ [(CHECKSUMS_FILE, sums)]).*1) as Hin.
    { rewrite fmap_app. by rewrite (build_names _ _ _ _ _ _ Hb). }
    apply list_elem_of_fmap in Hin as (x & -> & Hx). unfold published in Hp. rewrite Forall_forall in Hp. exists x.2. by apply Hp.
  - exists (to_json manifest), manifest. split; [done|]. split; [apply Hjson, manifest_is_typed|]. by repeat split.
Qed.
End publication.
