(* ===== verification/StoreSafe.v ===== *)
(** The store's safety: a crash during a publication leaves the previous pair or the new one, a
    publication that returned is durable, and the snapshots somebody holds stay on disk. *)

From S2P Require Import Prelude RustStr StoreFormat SegReader SegWriter SegLayout SegTables SegValid SegPostings SegRound WorkspaceState FileSystem Durable StoreWrites Snapshot StorePublish SegExample StoreExample.

Open Scope Z_scope.

Lemma NoDup_fmap_inj {A B : Type} (f : A → B) l x y : NoDup (f <$> l) → x ∈ l → y ∈ l → f x = f y → x = y.
Proof.
  induction l as [|z l IH]; intros Hnd Hx Hy E; [by apply elem_of_nil in Hx|]. apply NoDup_cons in Hnd as [Hz Hnd].
  apply elem_of_cons in Hx as [->|Hx], Hy as [->|Hy]; [done| | |by apply IH]; exfalso; apply Hz.
  - rewrite E. by apply list_elem_of_fmap_2.
  - rewrite <- E. by apply list_elem_of_fmap_2.
Qed.

Section safe.
Context (io_message : Op → list Z) (denied : Fs → Op → bool) (crc32c : bytes → Z) {Hdebug : DebugStr}.
Context (to_json : Manifest → bytes) (from_json : bytes → result (list Z) Manifest).

(** ** The invariant of an open store *)

Definition retired_ok (fs : Fs) (st : Store) (r : Retired) : Prop :=
  intact crc32c (st_root st) fs (rt_snapshot r) ∧ rt_paths r = [sn_segment_dir (rt_snapshot r); sn_state_path (rt_snapshot r)] ∧
  ∃ s, st_current st = Some s ∧ generation_of r < sn_generation s.

Record store_ok (fs : Fs) (st : Store) : Prop := {
  so_root : root_ok (st_root st);
  so_free : root_free (st_root st) fs;
  so_current : recoverable crc32c from_json (st_root st) fs (st_current st);
  so_retired : Forall (retired_ok fs st) (st_retired st);
  so_distinct : NoDup (generation_of <$> st_retired st)
}.

(** There is a next generation. *)
Definition can_publish (st : Store) : Prop :=
  match st_current st with Some s => sn_generation s + 1 < 2 ^ 64 | None => True end.

Lemma current_range fs root c s : recoverable crc32c from_json root fs c → c = Some s → inU 64 (sn_generation s).
Proof. intros H ->. destruct H as [Hi _]. apply (in_range _ _ _ _ Hi). Qed.

Lemma next_range fs st : store_ok fs st → can_publish st →
  inU 64 (next_generation st) ∧ ∀ s, st_current st = Some s → next_generation st = sn_generation s + 1.
Proof.
  intros Hok Hcan. pose proof (so_current _ _ Hok) as Hc. unfold next_generation, can_publish in *.
  destruct (st_current st) as [s|]; [|split; [unfold inU; lia|done]].
  pose proof (current_range _ _ _ s Hc eq_refl) as Hg. unfold inU in Hg. rewrite u64_of by lia.
  split; [unfold inU; lia|]. by intros ? [= <-].
Qed.

Lemma retired_owns fs st r : retired_ok fs st r → owns_pair (st_root st) r.
Proof.
  intros (Hi & Hp & _). destruct (in_paths _ _ _ _ Hi) as [H1 H2]. split; [apply (in_range _ _ _ _ Hi)|]. by rewrite Hp, H1, H2.
Qed.

(** ** What a log keeps *)

Lemma intact_run fs log fs' root (G : Z → Prop) s :
  run fs log = Some fs' → Forall (spares root (pairs_of root G)) log → G (sn_generation s) →
  root_ok root → intact crc32c root fs s → intact crc32c root fs' s.
Proof.
  intros Hr Hl Hg Hroot. apply intact_frame; [done|]. intros p Hp b. eapply stored_run; [done|].
  eapply Forall_impl; [exact Hl|]. intros o [Ho _]. apply Ho. by exists (sn_generation s).
Qed.

Lemma spares_pairs root (G G' : Z → Prop) o :
  (∀ g, G' g → G g) → spares root (committed_and root G) o → spares root (pairs_of root G') o.
Proof. intros H. apply spares_weaken. intros p (g & Hg & Hp). right. exists g. auto. Qed.

Lemma commit_spares st G : spares (st_root st) (pairs_of (st_root st) G) (commit st).
Proof. apply spares_rename; [apply clear_pairs, clear_manifest_tmp|apply clear_manifest]. Qed.

Lemma spares_current st o :
  (∀ s, st_current st = Some s → inU 64 (sn_generation s) ∧ next_generation st = sn_generation s + 1) →
  spares (st_root st) (committed_and (st_root st) (λ g, 0 ≤ g ∧ g ≠ next_generation st)) o →
  spares (st_root st) (current_paths (st_root st) (st_current st)) o.
Proof.
  intros H. apply spares_weaken. intros p [->|(g & Hg & Hp)]; [by left|]. right. exists g. split; [|done].
  destruct (st_current st) as [s|]; [|done]. subst g. destruct (H s eq_refl) as [H1 H2]. unfold inU in H1. lia.
Qed.

Lemma root_free_commit fs st log fs' : run fs log = Some fs' →
  Forall (λ o, spares (st_root st) (pairs_of (st_root st) (λ _, False)) o) log → root_free (st_root st) fs → root_free (st_root st) fs'.
Proof. apply root_free_run. Qed.

(** Nothing but the commit point changed hands before the commit. *)
Lemma store_ok_run fs log fs' st :
  run fs log = Some fs' → can_publish st →
  Forall (spares (st_root st) (committed_and (st_root st) (λ g, 0 ≤ g ∧ g ≠ next_generation st))) log →
  store_ok fs st → store_ok fs' st.
Proof.
  intros Hr Hcan Hl Hok. destruct (next_range _ _ Hok Hcan) as [Hn Hnext]. pose proof Hok as [Hroot Hfree Hcur Hret Hnd].
  split; [done|by eapply root_free_run| | |done].
  - eapply recoverable_run; [done|exact Hr| |done]. eapply Forall_impl; [exact Hl|]. intros o. apply spares_current.
    intros s Hs. split; [by eapply current_range|auto].
  - eapply Forall_impl; [exact Hret|]. intros r (Hi & Hp & s & Hs & Hlt). split; [|split; [done|by exists s]].
    apply (intact_run fs log fs' _ (λ g, 0 ≤ g ∧ g ≠ next_generation st)); [done| | |done|done].
    + eapply Forall_impl; [exact Hl|]. intros o. by apply spares_pairs.
    + pose proof (in_range _ _ _ _ Hi). unfold generation_of in Hlt. rewrite (Hnext s Hs). unfold inU in *. lia.
Qed.

(** Keeping the held ones of a queue below the current generation. *)
Lemma retained_ok root f1 f3 log3 s (strong' : Snapshot → Z) q :
  root_ok root → root_free root f1 → recoverable crc32c from_json root f1 (Some s) → NoDup (generation_of <$> q) →
  Forall (λ r, intact crc32c root f1 (rt_snapshot r) ∧ rt_paths r = [sn_segment_dir (rt_snapshot r); sn_state_path (rt_snapshot r)] ∧
    0 ≤ generation_of r < sn_generation s) q →
  run f1 log3 = Some f3 → Forall (removes root (λ g, ∃ r, r ∈ q ∧ ¬ held strong' r ∧ g = generation_of r)) log3 →
  Forall (spares root (current_paths root (Some s))) log3 ∧
  store_ok f3 (mkStore root (Some s) (filter (held strong') q)).
Proof.
  intros Hroot Hfree Hrec Hqd Hqi Hr3 Hl3. set (R := λ g, ∃ r, r ∈ q ∧ ¬ held strong' r ∧ g = generation_of r) in *.
  rewrite Forall_forall in Hqi. assert (∀ g, R g → 0 ≤ g < sn_generation s) as HR.
  { intros g (r & Hr & _ & ->). by destruct (Hqi r Hr) as (_ & _ & ?). }
  assert (∀ G' : Z → Prop, (∀ g, G' g → 0 ≤ g ∧ ¬ R g) → Forall (spares root (committed_and root G')) log3) as Hsp.
  { intros G' HG'. eapply Forall_impl; [exact Hl3|]. intros o. apply removes_spares; [|done]. intros g Hg. by apply HR. }
  assert (Forall (spares root (current_paths root (Some s))) log3) as Hl3'.
  { apply Hsp. intros g ->. pose proof (current_range _ _ _ _ Hrec eq_refl) as Hn. unfold inU in Hn. split; [lia|]. intros HRg%HR. lia. }
  split; [done|]. split; cbn [st_root st_current st_retired]; [done|by eapply root_free_run|by eapply recoverable_run| |].
  - apply Forall_forall. intros r [Hh Hin]%list_elem_of_filter. destruct (Hqi r Hin) as (Hi & Hp & Hlt).
    split; [|split; [done|]; exists s; split; [done|unfold generation_of in *; lia]]. cbn [st_root].
    eapply (intact_run f1 log3 f3 _ (λ g, g = generation_of r)); [done| |done|done|done].
    eapply Forall_impl; [apply (Hsp (λ g, g = generation_of r))|intros o; by apply spares_pairs].
    intros g ->. split; [lia|]. intros (r' & Hr' & Hh' & Hg).
    assert (r' = r) as ->; [|done]. by apply (NoDup_fmap_inj generation_of q).
  - eapply sublist_NoDup; [exact Hqd|]. apply fmap_sublist, sublist_filter.
Qed.

(** ** After the commit *)

Context (data : SegmentData) (payload : bytes) (created : Z) (failpoint : Failpoint) (strong : Snapshot → Z).
Context (Hcrc : ∀ b, inU 32 (crc32c b)) (Hjson : ∀ m, manifest_typed m → from_json (to_json m) = Ok m).

Definition queued (st : Store) : list Retired :=
  match st_current st with
  | Some old => st_retired st ++ [mkRetired old [sn_segment_dir old; sn_state_path old]]
  | None => st_retired st
  end.

Definition counting (st : Store) (s : Snapshot) : Snapshot → Z := λ x, strong x + own_references (st_current st) s x.

Lemma swap_shape st f s :
  open_snapshot crc32c f (st_root st) (next_manifest crc32c (next_generation st) data payload) = Ok s →
  Forall (owns_pair (st_root st)) (queued st) →
  ∃ log3 f3, swap_snapshot denied crc32c st (next_manifest crc32c (next_generation st) data payload) strong f =
      (log3, f3, Ok (mkStore (st_root st) (Some s) (filter (held (counting st s)) (queued st)), Some s)) ∧
    run f log3 = Some f3 ∧
    Forall (removes (st_root st) (λ g, ∃ r, r ∈ queued st ∧ ¬ held (counting st s) r ∧ g = generation_of r)) log3.
Proof.
  intros Ho Hq. pose proof (retain_held_does denied (st_root st) (counting st s) (queued st) f Hq) as Hd.
  destruct (retain_held_returns denied (counting st s) (queued st) f) as (log3 & f3 & kept & E).
  unfold does in Hd. rewrite E in Hd. destruct Hd as (Hr & Hl & ->). exists log3, f3. split; [|done].
  unfold swap_snapshot, run_janitor, mbind, io_bind, ask, lift. rewrite Ho. cbn [app]. fold (counting st s).
  assert (st_retired match st_current st with Some old => retire old (mkStore (st_root st) (Some s) (st_retired st))
            | None => mkStore (st_root st) (Some s) (st_retired st) end = queued st) as ->.
  { unfold queued, retire. by destruct (st_current st). }
  rewrite E. cbn. rewrite !app_nil_r. by destruct (st_current st).
Qed.

Lemma queued_ok fs st f :
  store_ok fs st → can_publish st → (∀ s, intact crc32c (st_root st) fs s → 0 ≤ sn_generation s < next_generation st → intact crc32c (st_root st) f s) →
  Forall (owns_pair (st_root st)) (queued st) ∧ NoDup (generation_of <$> queued st) ∧
  Forall (λ r, intact crc32c (st_root st) f (rt_snapshot r) ∧ rt_paths r = [sn_segment_dir (rt_snapshot r); sn_state_path (rt_snapshot r)] ∧
    0 ≤ generation_of r < next_generation st) (queued st).
Proof.
  intros Hok Hcan Hf. destruct (next_range _ _ Hok Hcan) as [Hn Hnext]. pose proof Hok as [Hroot Hfree Hcur Hret Hnd].
  assert (∀ r, r ∈ st_retired st → retired_ok fs st r) as Hr by (by apply Forall_forall).
  unfold queued. destruct (st_current st) as [old|] eqn:E.
  - specialize (Hnext old eq_refl). destruct Hcur as [Hi _]. pose proof (in_range _ _ _ _ Hi) as Hg. destruct (in_paths _ _ _ _ Hi) as [P1 P2].
    unfold inU in *. rewrite fmap_app. split_and!.
    + apply Forall_app. split; [by eapply Forall_impl; [exact Hret|]; intros r; apply retired_owns|].
      apply Forall_singleton. split; [apply Hg|]. cbn [rt_paths]. by rewrite P1, P2.
    + apply NoDup_app. split; [done|]. split; [|apply NoDup_singleton]. intros g Hin ->%list_elem_of_singleton.
      apply list_elem_of_fmap in Hin as (r & Hrg & Hin). destruct (Hr r Hin) as (_ & _ & s & Hs & Hlt). rewrite E in Hs. injection Hs as <-.
      unfold generation_of in *. cbn [rt_snapshot] in Hrg. lia.
    + apply Forall_app. split.
      * apply Forall_forall. intros r Hin. destruct (Hr r Hin) as (Hri & Hp & s & Hs & Hlt). rewrite E in Hs. injection Hs as <-.
        pose proof (in_range _ _ _ _ Hri) as Hg'. unfold inU, generation_of in *. split_and!; [apply Hf; [done|lia]|done|lia|lia].
      * apply Forall_singleton. unfold generation_of. cbn [rt_snapshot rt_paths]. split_and!; [apply Hf; [done|lia]|done|lia|lia].
  - assert (st_retired st = []) as ->; [|by repeat split; constructor].
    destruct (st_retired st) as [|r l]; [done|]. destruct (Hr r) as (_ & _ & s & Hs & _); [left|]. by rewrite E in Hs.
Qed.

(** The whole of a publication that got to the commit: the new store is in order. *)
Lemma committed_store fs st log0 f0 f1 :
  store_ok fs st → can_publish st → storable data payload created →
  run fs log0 = Some f0 → Forall (spares (st_root st) (committed_and (st_root st) (λ g, 0 ≤ g ∧ g ≠ next_generation st))) log0 →
  exec f0 (commit st) = Some f1 → pair_committed crc32c to_json st data payload created f1 →
  ∃ s st3 log3 f3, swap_snapshot denied crc32c st (next_manifest crc32c (next_generation st) data payload) strong f1 = (log3, f3, Ok (st3, Some s)) ∧
    snapshot_holds st data payload created s ∧ recoverable crc32c from_json (st_root st) f1 (Some s) ∧ root_free (st_root st) f1 ∧
    run f1 log3 = Some f3 ∧ Forall (spares (st_root st) (current_paths (st_root st) (Some s))) log3 ∧
    st3 = mkStore (st_root st) (Some s) (filter (held (counting st s)) (queued st)) ∧ store_ok f3 st3.
Proof.
  intros Hok Hcan Hst Hr0 Hl0 E1 Hpc. destruct (next_range _ _ Hok Hcan) as [Hn Hnext]. pose proof Hok as [Hroot Hfree Hcur Hret Hnd].
  destruct (committed_serves crc32c to_json from_json st data payload created Hroot Hn Hcrc Hjson f1 Hst Hpc) as (s & Ho & Hs & Hserves).
  set (G := λ g, 0 ≤ g ∧ g ≠ next_generation st).
  assert (run fs (log0 ++ [commit st]) = Some f1) as Hr1 by (rewrite run_app, Hr0; cbn [run mbind option_bind]; by rewrite E1).
  assert (Forall (spares (st_root st) (pairs_of (st_root st) G)) (log0 ++ [commit st])) as Hl1.
  { apply Forall_app. split; [eapply Forall_impl; [exact Hl0|]; intros o; by apply spares_pairs|]. apply Forall_singleton, commit_spares. }
  destruct (queued_ok fs st f1 Hok Hcan) as (Hq & Hqd & Hqi).
  { intros x Hx Hlt. eapply (intact_run fs _ f1 _ G); [done|done| |done|done]. unfold G. lia. }
  destruct (swap_shape st f1 s Ho Hq) as (log3 & f3 & Esw & Hr3 & Hl3).
  destruct (sh_id _ _ _ _ _ Hs) as [Hgen _].
  assert (root_free (st_root st) f1) as Hfree1 by (by eapply root_free_run).
  destruct (retained_ok (st_root st) f1 f3 log3 s (counting st s) (queued st)) as [Hl3' Hok3]; try done.
  { by rewrite Hgen. }
  by eexists s, _, log3, f3.
Qed.
End safe.

(** Crash safety of a publication. *)

Open Scope Z_scope.

Lemma torn_crash f f' : torn f f' → crash f [] f'.
Proof. intros H. exists [], [], f, f. repeat split; [by left|apply H..]. Qed.

(** A crash around a rename: before it, after it, or in what follows. *)
Lemma crash_at_rename fs log0 a b f0 f1 log fs' :
  run fs log0 = Some f0 → exec f0 (Rename a b) = Some f1 → crash fs (log0 ++ [Rename a b] ++ log) fs' →
  crash fs log0 fs' ∨ crash f0 [] fs' ∨ crash f1 [] fs' ∨ crash f1 log fs'.
Proof.
  intros Hr0 E1 Hc. destruct (crash_app _ _ _ _ _ Hr0 Hc) as [H|H]; [by left|right].
  destruct (crash_app f0 [Rename a b] log f1 fs') as [H'|H']; [cbn [run]; by rewrite E1|done| |by right; right].
  destruct (crash_rename _ _ _ _ _ E1 H') as [Ht|Ht]; [left|right; left]; by apply torn_crash.
Qed.

Section crashes.
Context (io_message : Op → list Z) (denied : Fs → Op → bool) (crc32c : bytes → Z) {Hdebug : DebugStr}.
Context (to_json : Manifest → bytes) (from_json : bytes → result (list Z) Manifest).
Context (Hcrc : ∀ b, inU 32 (crc32c b)) (Hjson : ∀ m, manifest_typed m → from_json (to_json m) = Ok m).

(** What is needed to open [root] and find [c]. *)
Definition bootable (root : path) (fs : Fs) (c : option Snapshot) : Prop :=
  root_ok root ∧ root_free root fs ∧ recoverable crc32c from_json root fs c.

Lemma bootable_crash root fs log fs' c :
  crash fs log fs' → Forall (spares root (current_paths root c)) log → bootable root fs c → bootable root fs' c.
Proof.
  intros Hc Hl (Hroot & Hfree & Hrec). split; [done|]. split; [by eapply root_free_crash|]. by eapply recoverable_crash.
Qed.
Lemma bootable_run root fs log fs' c :
  run fs log = Some fs' → Forall (spares root (current_paths root c)) log → bootable root fs c → bootable root fs' c.
Proof.
  intros Hc Hl (Hroot & Hfree & Hrec). split; [done|]. split; [by eapply root_free_run|]. by eapply recoverable_run.
Qed.

Lemma bootable_interrupted root fs log fs' c :
  interrupted fs log fs' → Forall (spares root (current_paths root c)) log → bootable root fs c → bootable root fs' c.
Proof. intros (part & todo & -> & Hc) [Hl _]%Forall_app. by eapply bootable_crash. Qed.

Lemma store_bootable fs st : store_ok crc32c from_json fs st → bootable (st_root st) fs (st_current st).
Proof. intros [Hr Hf Hc _ _]. by split. Qed.

(** [Store::open] of a bootable root: the store it returns is in order. *)
Lemma bootable_opens root fs c :
  bootable root fs c → ∃ log f, open io_message no_faults crc32c from_json root fs = (log, f, Ok (mkStore root c [])) ∧
    store_ok crc32c from_json f (mkStore root c []).
Proof.
  intros (Hroot & Hfree & Hrec).
  destruct (open_recovers io_message no_faults crc32c from_json root Hroot fs c) as (log & f & Ho & _ & _ & Hf & Hr); try done.
  { intros s. by eapply current_range. }
  exists log, f. split; [done|]. split; try done; constructor.
Qed.

(** A publication got to the commit: the new pair serves from then on. *)
Lemma after_commit fs st data payload created strong log fs1 r log0 f0 f1 :
  store_ok crc32c from_json fs st → can_publish st → storable data payload created →
  run fs log0 = Some f0 →
  Forall (spares (st_root st) (committed_and (st_root st) (λ g, 0 ≤ g ∧ g ≠ next_generation st))) log0 →
  exec f0 (commit st) = Some f1 → pair_committed crc32c to_json st data payload created f1 →
  ((log = log0 ++ [commit st] ∧ fs1 = f1 ∧ ∃ e, r = Err e) ∨
   (∃ log3, log = log0 ++ [commit st] ++ [SyncDir (st_root st)] ++ log3 ∧ exec f1 (SyncDir (st_root st)) = Some f1 ∧
      swap_snapshot denied crc32c st (next_manifest crc32c (next_generation st) data payload) strong f1 = (log3, fs1, r))) →
  ∃ s rest, snapshot_holds st data payload created s ∧ bootable (st_root st) f1 (Some s) ∧ log = log0 ++ [commit st] ++ rest ∧
    Forall (spares (st_root st) (current_paths (st_root st) (Some s))) rest ∧
    ∀ st1 s1, r = Ok (st1, Some s1) → s1 = s ∧ ∀ fs', crash fs log fs' → bootable (st_root st) fs' (Some s).
Proof.
  intros Hok Hcan Hst Hr0 Hl0 E1 Hpc Hrest.
  destruct (committed_store denied crc32c to_json from_json data payload created strong Hcrc Hjson fs st log0 f0 f1)
    as (s & st3 & log3 & f3 & Esw & Hs & Hrec1 & Hfree1 & Hr3 & Hl3 & -> & _); [done..|].
  assert (bootable (st_root st) f1 (Some s)) as Hb1 by (split; [apply (so_root _ _ _ _ Hok)|done]).
  destruct Hrest as [(-> & _ & e & ->)|(log3' & -> & E2 & Esw')].
  { by exists s, []. }
  rewrite Esw in Esw'. injection Esw' as <- <- <-. exists s, ([SyncDir (st_root st)] ++ log3).
  split; [done|]. split; [done|]. split; [done|]. split; [constructor; [apply spares_sync|done]|].
  intros st1 s1 [= _ <-]. split; [done|]. intros fs' Hc. rewrite app_assoc in Hc.
  apply (crash_synced fs (log0 ++ [commit st]) (st_root st) log3 f1) in Hc; [by eapply bootable_crash|].
  rewrite !run_app, Hr0. cbn [run mbind option_bind]. rewrite E1. cbn [run mbind option_bind]. by rewrite E2.
Qed.

(** A crash while publishing, and one after. *)
Lemma publish_crash_bootable fs st data payload created failpoint strong log fs1 r :
  store_ok crc32c from_json fs st → can_publish st → storable data payload created →
  publish_with_failpoint io_message denied crc32c to_json st data payload created failpoint strong fs = (log, fs1, r) →
  (∀ fs', interrupted fs log fs' → ∃ c, bootable (st_root st) fs' c ∧
    (c = st_current st ∨ ∃ s, c = Some s ∧ snapshot_holds st data payload created s)) ∧
  (∀ fs' st1 s1, crash fs log fs' → r = Ok (st1, Some s1) → bootable (st_root st) fs' (Some s1)).
Proof.
  intros Hok Hcan Hst E. destruct (next_range _ _ _ _ Hok Hcan) as [Hn Hnext]. pose proof (store_bootable _ _ Hok) as Hboot.
  pose proof (publish_cases io_message denied crc32c to_json st data payload created failpoint strong (so_root _ _ _ _ Hok) Hn fs) as H.
  rewrite E in H. clear E.
  assert (∀ part fs', Forall (spares (st_root st) (committed_and (st_root st) (λ g, 0 ≤ g ∧ g ≠ next_generation st))) part →
            crash fs part fs' → bootable (st_root st) fs' (st_current st)) as Hold.
  { intros part fs' Hl Hc. eapply bootable_crash; [exact Hc| |done]. eapply Forall_impl; [exact Hl|]. intros o.
    apply spares_current. intros s Hs. split; [|auto]. eapply current_range; [apply (so_current _ _ _ _ Hok)|done]. }
  destruct H as [(_ & Hl & Hr)|(log0 & f0 & f1 & Hr0 & Hl0 & E1 & Hpc & Hrest)].
  { split; [|intros fs' st1 s1 _ ->; by destruct Hr as [?|[? ?]]].
    intros fs' (part & todo & -> & Hc). apply Forall_app in Hl as [Hl _]. exists (st_current st). split; [by eapply Hold|by left]. }
  destruct (after_commit fs st data payload created strong log fs1 r log0 f0 f1) as (s & rest & Hs & Hb1 & -> & Hrest' & Hdur); [done..|].
  split; [|intros fs' st1 s1 Hc Er; destruct (Hdur st1 s1 Er) as [-> Hd]; by apply Hd].
  assert (∀ fs', bootable (st_root st) fs' (st_current st) ∨ bootable (st_root st) fs' (Some s) →
    ∃ c, bootable (st_root st) fs' c ∧ (c = st_current st ∨ ∃ s, c = Some s ∧ snapshot_holds st data payload created s)) as Hfin.
  { intros fs' [Hb|Hb]; [exists (st_current st)|exists (Some s)]; (split; [done|]); [by left|right; by exists s]. }
  intros fs' (part & todo & Epart & Hc). apply Hfin. destruct (app_split _ _ _ _ Epart) as [(m & -> & _)|(m & -> & Em)].
  { left. apply Forall_app in Hl0 as [Hl0 _]. by eapply Hold. }
  destruct m as [|o m]; [rewrite app_nil_r in Hc; left; by eapply Hold|]. injection Em as <- ->. apply Forall_app in Hrest' as [Hm _].
  destruct (crash_at_rename _ _ _ _ _ _ _ _ Hr0 E1 Hc) as [H|[H|[H|H]]].
  - left. by eapply Hold.
  - left. apply (Hold log0); [done|]. destruct H as (p & q & f & g & Epq & _ & Hr & Hg & Ht). symmetry in Epq.
    apply app_nil in Epq as [-> ->]. injection Hr as <-. destruct Hg as [->|(? & ? & ? & _)]; [|done].
    exists log0, [], f0, f0. rewrite app_nil_r. repeat split; try done; try (by left); apply Ht.
  - right. by eapply bootable_crash.
  - right. by eapply bootable_crash.
Qed.

End crashes.
