(* ===== verification/StoreTheorems.v ===== *)
(** The life of a store: opening, publishing, readers that retain and release snapshots, the
    janitor, and crashes at any point, as a step relation; what holds in every reachable
    state. *)

From S2P Require Import Prelude RustStr StoreFormat SegReader SegWriter SegExample SegLayout SegTables SegValid SegRound WorkspaceState FileSystem Durable StoreWrites Snapshot StoreExample StorePublish StoreSafe.
From stdpp Require Import relations.

Open Scope Z_scope.

(** The files, the store of the running process if it opened one, and the snapshots other
    threads of the process hold, once per reference. *)
Record World := mkWorld { w_fs : Fs; w_store : option Store; w_held : list Snapshot }.

(** [Arc::strong_count], less the store's own references. *)
Definition strong_of (held : list Snapshot) (s : Snapshot) : Z :=
  zlen (filter (λ x, sn_generation x = sn_generation s) held).

Section life.
Context (io_message : Op → list Z) (denied : Fs → Op → bool) (crc32c : bytes → Z) {Hdebug : DebugStr}.
Context (to_json : Manifest → bytes) (from_json : bytes → result (list Z) Manifest).
Context (root : path).

Abbreviation publishing := (publish_with_failpoint io_message denied crc32c to_json).
Abbreviation opening := (open io_message denied crc32c from_json root).

(** The operations a process can be in the middle of. *)
Inductive underway (w : World) : list Op → Prop :=
| under_idle : underway w []
| under_open log f r : w_store w = None → opening (w_fs w) = (log, f, r) → underway w log
| under_publish st data payload created failpoint log f r :
    w_store w = Some st → can_publish st → storable data payload created →
    publishing st data payload created failpoint (strong_of (w_held w)) (w_fs w) = (log, f, r) → underway w log
| under_janitor st log f r :
    w_store w = Some st → run_janitor denied (strong_of (w_held w)) st (w_fs w) = (log, f, r) → underway w log.

Inductive step (w : World) : World → Prop :=
| step_open log f st : w_store w = None → opening (w_fs w) = (log, f, Ok st) → step w (mkWorld f (Some st) [])
| step_publish st data payload created failpoint log f st' snap :
    w_store w = Some st → can_publish st → storable data payload created →
    publishing st data payload created failpoint (strong_of (w_held w)) (w_fs w) = (log, f, Ok (st', snap)) →
    step w (mkWorld f (Some st') (option_list snap ++ w_held w))
| step_failed st data payload created failpoint log f e :
    w_store w = Some st → can_publish st → storable data payload created →
    publishing st data payload created failpoint (strong_of (w_held w)) (w_fs w) = (log, f, Err e) → commit st ∉ log →
    step w (mkWorld f (Some st) (w_held w))
| step_retain st s : w_store w = Some st → st_current st = Some s → step w (mkWorld (w_fs w) (Some st) (s :: w_held w))
| step_release st s before after :
    w_store w = Some st → w_held w = before ++ s :: after → step w (mkWorld (w_fs w) (Some st) (before ++ after))
| step_janitor st log f st' :
    w_store w = Some st → run_janitor denied (strong_of (w_held w)) st (w_fs w) = (log, f, Ok st') →
    step w (mkWorld f (Some st') (w_held w))
| step_crash log f : underway w log → interrupted (w_fs w) log f → step w (mkWorld f None []).

(** ** The invariant *)

Context (Hcrc : ∀ b, inU 32 (crc32c b)) (Hjson : ∀ m, manifest_typed m → from_json (to_json m) = Ok m).

(** A held snapshot is the current one or still queued. *)
Definition accounted (st : Store) (s : Snapshot) : Prop :=
  st_current st = Some s ∨ ∃ r, r ∈ st_retired st ∧ rt_snapshot r = s.

Definition world_ok (w : World) : Prop :=
  match w_store w with
  | None => ∃ c, bootable crc32c from_json root (w_fs w) c
  | Some st => st_root st = root ∧ store_ok crc32c from_json (w_fs w) st ∧ Forall (accounted st) (w_held w)
  end.

Lemma open_does fs c :
  bootable crc32c from_json root fs c →
  does (opening) fs (spares root (current_paths root c)) (λ st f, st = mkStore root c [] ∧ bootable crc32c from_json root f c).
Proof.
  intros Hboot. pose proof Hboot as (Hroot & Hfree & Hrec). unfold open.
  assert (∀ o, spares root (committed_and root (λ g, inU 64 g)) o → spares root (current_paths root c) o) as Hsp.
  { intros o. apply spares_weaken. intros p [->|(g & Hg & Hp)]; [by left|]. right. exists g. split; [|done].
    destruct c as [s|]; [|done]. subst g. by eapply current_range. }
  eapply does_bind.
  { apply (does_call _ _ _ _ _ _ (λ _ f, bootable crc32c from_json root f c)); [apply mkdirs_root|]. intros f E.
    eapply (bootable_run _ _ _ _ [Mkdirs root]); [cbn [run]; by rewrite E|constructor; [apply mkdirs_root|constructor]|done]. }
  intros [] f1 H1. eapply does_bind.
  { eapply (does_weaken _ _ _ _ _ (λ _ f, bootable crc32c from_json root f c)); [exact Hsp| |apply does_frame, remove_tmp_debris_does, Hroot].
    intros [] f (_ & log & Hr & Hl). exact (bootable_run _ _ _ _ _ _ _ Hr (Forall_impl _ _ _ Hl Hsp) H1). }
  intros [] f2 H2. unfold open_readonly. eapply does_bind; [by apply (does_ask _ _ _ (λ r f, r = Ok c ∧ f = f2)); split; [|done]; apply recover_recoverable; apply H2|].
  intros r f [-> ->]. eapply does_bind; [by apply (does_lift _ _ _ (λ a f, a = c ∧ f = f2)); intros a [= ->]|].
  intros a f [-> ->]. by apply does_ret.
Qed.

Lemma strong_of_held held s : s ∈ held → strong_of held s ≠ 0.
Proof.
  intros H. unfold strong_of. assert (s ∈ filter (λ x, sn_generation x = sn_generation s) held) as Hf by (by apply list_elem_of_filter).
  destruct (filter _ held); [by apply elem_of_nil in Hf|]. unfold zlen. cbn [length]. lia.
Qed.
Lemma strong_of_nonneg held s : 0 ≤ strong_of held s.
Proof. apply zlen_nonneg. Qed.

(** The janitor of an open store. *)
Lemma janitor_does fs st strong :
  store_ok crc32c from_json fs st →
  does (run_janitor denied strong st) fs (spares (st_root st) (current_paths (st_root st) (st_current st)))
    (λ st' f, st' = mkStore (st_root st) (st_current st) (filter (held strong) (st_retired st)) ∧ store_ok crc32c from_json f st').
Proof.
  intros Hok. pose proof Hok as [Hroot Hfree Hcur Hret Hnd].
  assert (Forall (owns_pair (st_root st)) (st_retired st)) as Hown by (eapply Forall_impl; [exact Hret|]; intros r; apply retired_owns).
  destruct (retain_held_returns denied strong (st_retired st) fs) as (log & f & kept & E).
  pose proof (retain_held_does denied (st_root st) strong (st_retired st) fs Hown) as Hd. unfold does in Hd |- *. rewrite E in Hd.
  destruct Hd as (Hr & Hl & ->). unfold run_janitor, mbind, io_bind. rewrite E. cbn. rewrite app_nil_r.
  destruct (st_current st) as [s|] eqn:Es.
  - destruct (retained_ok crc32c from_json (st_root st) fs f log s strong (st_retired st)) as [Hl' Hok']; [done..| |done|done|done].
    eapply Forall_impl; [exact Hret|]. intros r (Hi & Hp & s' & Hs' & Hlt). rewrite Es in Hs'. injection Hs' as <-.
    pose proof (in_range _ _ _ _ Hi) as Hg. unfold inU, generation_of in *. split; [done|]. split; [done|lia].
  - assert (st_retired st = []) as Hnil.
    { destruct (st_retired st) as [|r l] eqn:Er; [done|]. apply Forall_cons in Hret as [(_ & _ & s & Hs & _) _]. by rewrite Es in Hs. }
    rewrite Hnil in *. cbn [retain_held] in E. injection E as <- <-. split; [done|]. split; [by constructor|]. split; [done|].
    split; cbn [st_root st_current st_retired]; [done|done|done|constructor|constructor].
Qed.

Lemma accounted_queued st s : accounted st s → st_current st ≠ None → ∃ r, r ∈ queued st ∧ rt_snapshot r = s.
Proof.
  unfold accounted, queued. destruct (st_current st) as [old|]; [|done]. intros [[= ->]|(r & Hr & <-)] _.
  - eexists. split; [apply elem_of_app; right; by left|done].
  - exists r. split; [apply elem_of_app; by left|done].
Qed.

Lemma publish_preserves fs st held_ data payload created failpoint log f st' snap :
  store_ok crc32c from_json fs st → Forall (accounted st) held_ → can_publish st → storable data payload created →
  publishing st data payload created failpoint (strong_of held_) fs = (log, f, Ok (st', snap)) →
  st_root st' = st_root st ∧ store_ok crc32c from_json f st' ∧ Forall (accounted st') (option_list snap ++ held_) ∧
  ((st' = st ∧ snap = None) ∨ ∃ s, snap = Some s ∧ st_current st' = Some s ∧ snapshot_holds st data payload created s).
Proof.
  intros Hok Hheld Hcan Hst E. destruct (next_range _ _ _ _ Hok Hcan) as [Hn _].
  pose proof (publish_cases io_message denied crc32c to_json st data payload created failpoint (strong_of held_) (so_root _ _ _ _ Hok) Hn fs) as H.
  rewrite E in H. destruct H as [(Hr & Hl & [[= -> ->]|[? ?]])|(log0 & f0 & f1 & Hr0 & Hl0 & E1 & Hpc & Hrest)]; [|done|].
  { split; [done|]. split; [by eapply store_ok_run|]. split; [done|]. by left. }
  destruct Hrest as [(_ & _ & ? & ?)|(log3 & _ & _ & Esw)]; [done|].
  destruct (committed_store denied crc32c to_json from_json data payload created (strong_of held_) Hcrc Hjson fs st log0 f0 f1)
    as (s & st3 & log3' & f3 & Esw' & Hs & _ & _ & _ & _ & -> & Hok3); [done..|].
  rewrite Esw in Esw'. injection Esw' as <- <- -> ->. split; [done|]. split; [done|]. split; [|right; by exists s].
  cbn [option_list app]. constructor; [by left|]. apply Forall_forall. intros x Hx. rewrite Forall_forall in Hheld.
  specialize (Hheld x Hx). destruct (decide (st_current st = None)) as [Hnone|Hsome].
  { exfalso. destruct Hheld as [H|(r & Hr & _)]; [by rewrite Hnone in H|]. pose proof (so_retired _ _ _ _ Hok) as Hret.
    rewrite Forall_forall in Hret. destruct (Hret r Hr) as (_ & _ & s' & Hs' & _). by rewrite Hnone in Hs'. }
  destruct (accounted_queued st x Hheld Hsome) as (r & Hr & Hrx). right. exists r. split; [|done].
  cbn [st_retired]. apply list_elem_of_filter. split; [|done]. unfold StorePublish.held, counting. rewrite Hrx.
  pose proof (strong_of_held held_ x Hx). pose proof (strong_of_nonneg held_ x). unfold own_references. repeat case_match; lia.
Qed.

Lemma failed_preserves fs st strong data payload created failpoint log f e :
  store_ok crc32c from_json fs st → can_publish st → storable data payload created →
  publishing st data payload created failpoint strong fs = (log, f, Err e) → commit st ∉ log →
  store_ok crc32c from_json f st.
Proof.
  intros Hok Hcan Hst E Hnc. destruct (next_range _ _ _ _ Hok Hcan) as [Hn _].
  pose proof (publish_cases io_message denied crc32c to_json st data payload created failpoint strong (so_root _ _ _ _ Hok) Hn fs) as H.
  rewrite E in H. destruct H as [(Hr & Hl & _)|(log0 & f0 & f1 & _ & _ & _ & _ & Hrest)]; [by eapply store_ok_run|].
  exfalso. apply Hnc. destruct Hrest as [(-> & _)|(log3 & -> & _)]; set_solver.
Qed.

Lemma crash_bootable w log f : world_ok w → underway w log → interrupted (w_fs w) log f → ∃ c, bootable crc32c from_json root f c.
Proof.
  intros Hw Hu Hc. unfold world_ok in Hw.
  destruct Hu as [|log f' r Hs E|st data payload created fp log f' r Hs Hcan Hst E|st log f' r Hs E].
  - destruct (w_store w) as [st|].
    + destruct Hw as (<- & Hok & _). exists (st_current st). eapply bootable_interrupted; [done|constructor|by apply store_bootable].
    + destruct Hw as [c Hb]. exists c. by eapply bootable_interrupted.
  - rewrite Hs in Hw. destruct Hw as [c Hb]. exists c. pose proof (open_does _ _ Hb) as Hd. unfold does in Hd. rewrite E in Hd.
    eapply bootable_interrupted; [done|apply Hd|done].
  - rewrite Hs in Hw. destruct Hw as (<- & Hok & _).
    destruct (publish_crash_bootable io_message denied crc32c to_json from_json Hcrc Hjson (w_fs w) st data payload created fp (strong_of (w_held w)) log f' r)
      as [Hi _]; [done..|]. destruct (Hi f Hc) as (c & Hb & _). by exists c.
  - rewrite Hs in Hw. destruct Hw as (<- & Hok & _). exists (st_current st). pose proof (janitor_does _ _ (strong_of (w_held w)) Hok) as Hd.
    unfold does in Hd. rewrite E in Hd. eapply bootable_interrupted; [done|apply Hd|by apply store_bootable].
Qed.

Lemma step_preserves w w' : world_ok w → step w w' → world_ok w'.
Proof.
  intros Hw Hstep. pose proof Hw as Hw0. unfold world_ok in Hw.
  destruct Hstep as [log f st Hs E|st data payload created fp log f st' snap Hs Hcan Hst E|st data payload created fp log f e Hs Hcan Hst E Hnc
    |st s Hs Ec|st s b a Hs Eh|st log f st' Hs E|log f Hu Hc]; try rewrite Hs in Hw; unfold world_ok; cbn [w_store w_fs w_held].
  - destruct Hw as [c Hb]. pose proof (open_does _ _ Hb) as Hd. unfold does in Hd. rewrite E in Hd. destruct Hd as (_ & _ & -> & Hroot & Hf & Hr).
    split; [done|]. split; [|constructor]. split; try done; constructor.
  - destruct Hw as (<- & Hok & Hheld). destruct (publish_preserves _ _ _ _ _ _ _ _ _ _ _ Hok Hheld Hcan Hst E) as (H1 & H2 & H3 & _). done.
  - destruct Hw as (<- & Hok & Hheld). split; [done|]. split; [|done]. by eapply failed_preserves.
  - destruct Hw as (<- & Hok & Hheld). split; [done|]. split; [done|]. constructor; [by left|done].
  - destruct Hw as (<- & Hok & Hheld). rewrite Eh in Hheld. apply Forall_app in Hheld as [Hb [_ Ha]%Forall_cons].
    split; [done|]. split; [done|]. by apply Forall_app.
  - destruct Hw as (<- & Hok & Hheld). pose proof (janitor_does _ _ (strong_of (w_held w)) Hok) as Hd. unfold does in Hd. rewrite E in Hd.
    destruct Hd as (_ & _ & -> & Hok'). split; [done|]. split; [done|]. apply Forall_forall. intros x Hx.
    rewrite Forall_forall in Hheld. destruct (Hheld x Hx) as [Hcur|(r & Hr & Hrx)]; [by left|]. right. exists r. split; [|done].
    cbn [st_retired]. apply list_elem_of_filter. split; [|done]. unfold StorePublish.held. rewrite Hrx. by apply strong_of_held.
  - by eapply crash_bootable.
Qed.

Lemma reachable_ok w w' : world_ok w → rtc step w w' → world_ok w'.
Proof. intros Hw H. induction H as [w|w x w' Hs _ IH]; [done|]. apply IH. by eapply step_preserves. Qed.

Lemma accounted_intact fs st s : store_ok crc32c from_json fs st → accounted st s → intact crc32c (st_root st) fs s.
Proof.
  intros Hok [Hc|(r & Hr & <-)].
  - pose proof (so_current _ _ _ _ Hok) as H. rewrite Hc in H. apply H.
  - pose proof (so_retired _ _ _ _ Hok) as H. rewrite Forall_forall in H. by destruct (H r Hr).
Qed.
End life.

(** The properties of the snapshot store, and what its code gets wrong. *)

Open Scope Z_scope.

Lemma filter_agree {A : Type} (P Q : A → Prop) `{!∀ x, Decision (P x), !∀ x, Decision (Q x)} (l : list A) :
  (∀ x, x ∈ l → P x ↔ Q x) → filter P l = filter Q l.
Proof.
  induction l as [|x l IH]; intros Hl; [done|]. rewrite !filter_cons, IH by (intros y Hy; apply Hl; by right).
  specialize (Hl x (list_elem_of_here _ _)). do 2 case_decide; tauto.
Qed.

(** What a publication that returns did. *)
Lemma publish_returned io_message denied (crc32c : bytes → Z) {Hdebug : DebugStr} to_json from_json
    fs st data payload created failpoint strong log fs1 st1 snap :
  (∀ b, inU 32 (crc32c b)) → (∀ m, manifest_typed m → from_json (to_json m) = Ok m) → (∀ s, 0 ≤ strong s) →
  store_ok crc32c from_json fs st → can_publish st → storable data payload created →
  publish_with_failpoint io_message denied crc32c to_json st data payload created failpoint strong fs = (log, fs1, Ok (st1, snap)) →
  store_ok crc32c from_json fs1 st1 ∧
  match snap with
  | None => st1 = st
  | Some s => st_current st1 = Some s ∧ snapshot_holds st data payload created s ∧
      st_retired st1 = filter (λ r, strong (rt_snapshot r) ≠ 0) (st_retired st) ++
        match st_current st with Some old => [mkRetired old [sn_segment_dir old; sn_state_path old]] | None => [] end
  end.
Proof.
  intros Hcrc Hjson Hstrong Hok Hcan Hst E. destruct (next_range _ _ _ _ Hok Hcan) as [Hn Hnext].
  pose proof (publish_cases io_message denied crc32c to_json st data payload created failpoint strong (so_root _ _ _ _ Hok) Hn fs) as H.
  rewrite E in H. destruct H as [(Hr & Hl & [[= -> ->]|[? ?]])|(log0 & f0 & f1 & Hr0 & Hl0 & E1 & Hpc & Hrest)]; [|done|].
  { split; [by eapply store_ok_run|done]. }
  destruct Hrest as [(_ & _ & ? & ?)|(log3 & _ & _ & Esw)]; [done|].
  destruct (committed_store denied crc32c to_json from_json data payload created strong Hcrc Hjson fs st log0 f0 f1)
    as (s & st3 & log3' & f3 & Esw' & Hs & _ & _ & _ & _ & -> & Hok3); [done..|].
  rewrite Esw in Esw'. injection Esw' as <- <- -> ->. split; [done|]. split; [done|]. split; [done|]. cbn [st_retired].
  destruct (sh_id _ _ _ _ _ Hs) as [Hgen _]. unfold queued.
  assert (∀ r, r ∈ st_retired st → ∃ old, st_current st = Some old ∧ sn_generation (rt_snapshot r) < sn_generation old) as Hret.
  { intros r Hr. pose proof (so_retired _ _ _ _ Hok) as Hf. rewrite Forall_forall in Hf. by destruct (Hf r Hr) as (_ & _ & ?). }
  destruct (st_current st) as [old|] eqn:Ec.
  - specialize (Hnext old eq_refl). rewrite filter_app. f_equal.
    + apply filter_agree. intros r Hr. destruct (Hret r Hr) as (o & [= <-] & Hlt). unfold StorePublish.held, counting, own_references.
      rewrite Ec. rewrite !bool_decide_false by lia. by rewrite Z.add_0_r.
    + rewrite filter_cons_True; [done|]. unfold StorePublish.held, counting, own_references. rewrite Ec. cbn [rt_snapshot].
      specialize (Hstrong old). rewrite bool_decide_true by done. case_bool_decide; lia.
  - destruct (st_retired st) as [|r l]; [done|]. destruct (Hret r) as (? & ? & _); [left|done].
Qed.

(** ** The properties *)

(** C4. A publication is crash safe and durable. Whatever the point a crash interrupts it at,
    and whatever that does to unsynced files, [Store::open] then succeeds and finds the snapshot
    the store had before, or the complete new one; and once the publication has returned the
    new snapshot, a crash leaves that one. *)
Theorem publish_crash_safe io_message denied (crc32c : bytes → Z) {Hdebug : DebugStr} to_json from_json
    fs st data payload created failpoint strong log fs1 r fs' :
  (∀ b, inU 32 (crc32c b)) → (∀ m, manifest_typed m → from_json (to_json m) = Ok m) →
  store_ok crc32c from_json fs st → can_publish st → storable data payload created →
  publish_with_failpoint io_message denied crc32c to_json st data payload created failpoint strong fs = (log, fs1, r) →
  interrupted fs log fs' →
  ∃ log' f' c, open io_message no_faults crc32c from_json (st_root st) fs' = (log', f', Ok (mkStore (st_root st) c [])) ∧
    store_ok crc32c from_json f' (mkStore (st_root st) c []) ∧
    (c = st_current st ∨ ∃ s, c = Some s ∧ snapshot_holds st data payload created s) ∧
    ∀ st1 s1, r = Ok (st1, Some s1) → crash fs log fs' → c = Some s1.
Proof.
  intros Hcrc Hjson Hok Hcan Hst E Hc.
  destruct (publish_crash_bootable io_message denied crc32c to_json from_json Hcrc Hjson fs st data payload created failpoint strong log fs1 r)
    as [Hi Hd]; [done..|]. destruct (Hi fs' Hc) as (c & Hb & Hor).
  destruct (bootable_opens io_message crc32c from_json (st_root st) fs' c Hb) as (log' & f' & Ho & Hok').
  exists log', f', c. split; [done|]. split; [done|]. split; [done|]. intros st1 s1 -> Hcr.
  destruct (bootable_opens io_message crc32c from_json (st_root st) fs' (Some s1)) as (log2 & f2 & Ho2 & _); [by eapply Hd|]. congruence.
Qed.

(** C3. No reader loses its snapshot and no committed generation is lost. In every state the
    store's life reaches from a fresh root (by opening, publishing, publications that fail
    before the commit, readers that retain and release, janitor runs, and crashes anywhere),
    the files of every held snapshot are on disk with the bytes it was opened from, and after a
    crash [Store::open] succeeds, finding the snapshot that was current in the process. *)
Theorem held_snapshots_stay io_message denied (crc32c : bytes → Z) {Hdebug : DebugStr} to_json from_json root fs w :
  (∀ b, inU 32 (crc32c b)) → (∀ m, manifest_typed m → from_json (to_json m) = Ok m) →
  root_ok root → root_free root fs → uncommitted root fs →
  rtc (step io_message denied crc32c to_json from_json root) (mkWorld fs None []) w →
  (∀ s, s ∈ w_held w → intact crc32c root (w_fs w) s) ∧
  ∀ fs', crash (w_fs w) [] fs' → ∃ log f c,
    open io_message no_faults crc32c from_json root fs' = (log, f, Ok (mkStore root c [])) ∧
    ∀ st, w_store w = Some st → c = st_current st.
Proof.
  intros Hcrc Hjson Hroot Hfree Hfresh Hw.
  assert (world_ok crc32c from_json root w) as Hok.
  { eapply reachable_ok; [exact Hcrc|exact Hjson| |exact Hw]. by exists None. }
  unfold world_ok in Hok. split.
  - intros s Hs. destruct (w_store w) as [st|] eqn:E.
    + destruct Hok as (<- & Hok & Hheld). rewrite Forall_forall in Hheld. by eapply accounted_intact; [|apply Hheld].
    + exfalso. clear Hok. remember (mkWorld fs None []) as w0 eqn:E0.
      assert (w_store w0 = None → w_held w0 = []) as H0 by (by subst w0). clear E0. revert H0 E Hs.
      induction Hw as [w|w x w' Hst _ IH]; intros H0 E Hs; [rewrite (H0 E) in Hs; by apply elem_of_nil in Hs|].
      apply IH; [|done..]. by destruct Hst.
  - intros fs' Hc. assert (∃ c, bootable crc32c from_json root fs' c ∧ ∀ st, w_store w = Some st → c = st_current st) as (c & Hb & Hcur).
    { destruct (w_store w) as [st|].
      - destruct Hok as (<- & Hok & _). exists (st_current st). split; [|by intros ? [= <-]].
        eapply bootable_crash; [done|constructor|by apply store_bootable].
      - destruct Hok as [c Hb]. exists c. split; [|done]. by eapply bootable_crash. }
    destruct (bootable_opens io_message crc32c from_json root fs' c Hb) as (log & f & Ho & _). by exists log, f, c.
Qed.

(** C27. What a publication that returns did. With a failpoint fired the store is unchanged and
    still in order; otherwise the new snapshot is current and holds the input under the next
    generation, the store is in order, the replaced snapshot is queued (the publishing call
    itself still refers to it), and of the queue exactly the held ones are kept. *)
Theorem publish_exact io_message denied (crc32c : bytes → Z) {Hdebug : DebugStr} to_json from_json
    fs st data payload created failpoint strong log fs1 st1 snap :
  (∀ b, inU 32 (crc32c b)) → (∀ m, manifest_typed m → from_json (to_json m) = Ok m) → (∀ s, 0 ≤ strong s) →
  store_ok crc32c from_json fs st → can_publish st → storable data payload created →
  publish_with_failpoint io_message denied crc32c to_json st data payload created failpoint strong fs = (log, fs1, Ok (st1, snap)) →
  store_ok crc32c from_json fs1 st1 ∧
  match snap with
  | None => st1 = st
  | Some s => st_current st1 = Some s ∧ snapshot_holds st data payload created s ∧
      st_retired st1 = filter (λ r, strong (rt_snapshot r) ≠ 0) (st_retired st) ++
        match st_current st with Some old => [mkRetired old [sn_segment_dir old; sn_state_path old]] | None => [] end
  end.
Proof. apply publish_returned. Qed.

(** ** Witnesses *)

Definition empty_store : Store := mkStore root None [].
Abbreviation publishing := (publish_with_failpoint no_message no_faults sum_crc encode_manifest).

Lemma empty_store_ok : store_ok sum_crc decode_manifest empty_fs empty_store.
Proof.
  split; cbn [st_root st_current st_retired empty_store].
  - split; [done|by vm_compute].
  - by intros p _.
  - by split.
  - constructor.
  - constructor.
Qed.

Lemma small_storable : storable small_data [Byte.x01] 1234.
Proof.
  split; [exact small_data_typed|exact small_data_sized|by intros [=]| |by vm_compute].
  split; by vm_compute.
Qed.

(** The publication is cut off after its fortieth call. *)
Lemma publish_crash_safe_witness :
  let '(log, fs1, r) := publishing empty_store small_data [Byte.x01] 1234 FpNone no_refs empty_fs in
  match run empty_fs (take 40 log) with
  | Some f => ∃ log' f' c, open no_message no_faults sum_crc decode_manifest root (settled f) = (log', f', Ok (mkStore root c [])) ∧
      store_ok sum_crc decode_manifest f' (mkStore root c []) ∧
      (c = None ∨ ∃ s, c = Some s ∧ snapshot_holds empty_store small_data [Byte.x01] 1234 s)
  | None => False
  end.
Proof.
  assert (let '(log, fs1, r) := publishing empty_store small_data [Byte.x01] 1234 FpNone no_refs empty_fs in
    bool_decide (is_Some (run empty_fs (take 40 log))) = true) as Hrun by (vm_compute; reflexivity).
  destruct (publishing empty_store small_data [Byte.x01] 1234 FpNone no_refs empty_fs) as [[log fs1] r] eqn:E.
  destruct (run empty_fs (take 40 log)) as [f|] eqn:Ef; [|discriminate].
  destruct (publish_crash_safe no_message no_faults sum_crc encode_manifest decode_manifest empty_fs empty_store small_data [Byte.x01] 1234
    FpNone no_refs log fs1 r (settled f) sum_crc_range decode_encode empty_store_ok I small_storable E) as (log' & f' & c & Ho & Hok & Hc & _).
  - exists (take 40 log), (drop 40 log). split; [symmetry; apply take_drop|]. apply crash_settled. exact Ef.
  - exists log', f', c. split; [exact Ho|]. split; [exact Hok|exact Hc].
Defined.

Lemma publish_exact_witness :
  let '(log, fs1, r) := publishing empty_store small_data [Byte.x01] 1234 FpNone no_refs empty_fs in
  match r with
  | Ok (st1, Some s) => store_ok sum_crc decode_manifest fs1 st1 ∧ st_current st1 = Some s ∧
      snapshot_holds empty_store small_data [Byte.x01] 1234 s ∧ st_retired st1 = []
  | _ => False
  end.
Proof.
  assert (match (publishing empty_store small_data [Byte.x01] 1234 FpNone no_refs empty_fs).2 with Ok (_, Some _) => true | _ => false end = true) as Hr
    by (vm_compute; reflexivity).
  destruct (publishing empty_store small_data [Byte.x01] 1234 FpNone no_refs empty_fs) as [[log fs1] r] eqn:E.
  destruct r as [[st1 [s|]]|e]; [|discriminate Hr|discriminate Hr].
  destruct (publish_exact no_message no_faults sum_crc encode_manifest decode_manifest empty_fs empty_store small_data [Byte.x01] 1234
    FpNone no_refs log fs1 st1 (Some s) sum_crc_range decode_encode (λ s, Z.le_refl 0) empty_store_ok I small_storable E) as (Hok & H).
  split; [exact Hok|exact H].
Defined.

(** Opened, published, and held by a reader. *)
Definition boot_fs : Fs := (open no_message no_faults sum_crc decode_manifest root empty_fs).1.2.
Definition boot_log : list Op := (open no_message no_faults sum_crc decode_manifest root empty_fs).1.1.

Lemma boot_opens : open no_message no_faults sum_crc decode_manifest root empty_fs = (boot_log, boot_fs, Ok empty_store).
Proof. vm_compute. reflexivity. Qed.

Lemma held_snapshots_stay_witness :
  let '(log, fs1, r) := publishing empty_store small_data [Byte.x01] 1234 FpNone (strong_of []) boot_fs in
  match r with
  | Ok (st1, Some s) => intact sum_crc root fs1 s
  | _ => False
  end.
Proof.
  assert (match (publishing empty_store small_data [Byte.x01] 1234 FpNone (strong_of []) boot_fs).2 with Ok (_, Some _) => true | _ => false end = true) as Hr
    by (vm_compute; reflexivity).
  destruct (publishing empty_store small_data [Byte.x01] 1234 FpNone (strong_of []) boot_fs) as [[log fs1] r] eqn:E.
  destruct r as [[st1 [s|]]|e]; [|discriminate Hr|discriminate Hr].
  destruct (held_snapshots_stay no_message no_faults sum_crc encode_manifest decode_manifest root empty_fs
    (mkWorld fs1 (Some st1) [s])) as [H _].
  - exact sum_crc_range.
  - exact decode_encode.
  - split; [discriminate|vm_compute; reflexivity].
  - intros p _. reflexivity.
  - split; reflexivity.
  - eapply rtc_l; [exact (step_open _ _ _ _ _ _ (mkWorld empty_fs None []) boot_log boot_fs empty_store eq_refl boot_opens)|].
    apply rtc_once.
    exact (step_publish _ _ _ _ _ _ (mkWorld boot_fs (Some empty_store) []) empty_store small_data [Byte.x01] 1234 FpNone log fs1 st1 (Some s)
      eq_refl I small_storable E).
  - apply H. left.
Defined.

(** ** What the code gets wrong *)


(** The directory sync of the commit fails, once; the caller publishes again. *)
Definition refuses_commit_sync (fs : Fs) (o : Op) : bool :=
  match o with SyncDir p => bool_decide (p = root) | _ => false end && is_file fs (dir_join root MANIFEST_FILE).

