(* ===== verification/Search.v ===== *)
(** Workspace-symbol search ([ls-store/src/search.rs]): the fuzzy score, the index built from a
    segment and the ranked query.

    The Unicode tables are [CharTables]. A row of the score's table is computed from its last
    column to its first, as the code fills it; a [HashSet] is a [gset] and a [HashMap] a
    [gmap], whose iteration order is the argument [into_iter] of the query. An index out of
    range is [None]. *)

From S2P Require Import Prelude RustStr StoreFormat SegReader.

Open Scope Z_scope.

Definition EXACT_BASE : Z := 1000000.
Definition PREFIX_BASE : Z := 100000.
Definition SUBSEQ_BASE : Z := 1000.
Definition HUMP_BONUS : Z := 1000.
Definition FUZZY_CANDIDATE_CAP : Z := 5000.

(** ** The fuzzy score *)

Section fuzzy.
Context `{CharTables}.

Definition lower1 (c : Z) : Z := to_lowercase1 c.
Definition normalize (s : list Z) : list Z := lower1 <$> List.filter is_alphanumeric s.

(** The state of the loop: the two vectors and the class of the previous char. *)
Record HumpState := mkHump { nn : list Z; humps : list bool; prev_alnum : bool; prev_upper : bool; prev_digit : bool }.

Definition hump_step (st : HumpState) (c : Z) : HumpState :=
  if is_alphanumeric c then
    let upper := is_uppercase c in
    let digit := is_numeric c in
    let hump := negb (prev_alnum st) || (upper && negb (prev_upper st)) || (digit && negb (prev_digit st)) in
    mkHump (nn st ++ [lower1 c]) (humps st ++ [hump]) true upper digit
  else mkHump (nn st) (humps st) false false false.

Definition normalized_with_humps (s : list Z) : list Z * list bool :=
  let st := foldl hump_step (mkHump [] [] false false false) s in (nn st, humps st).

Definition initials (s : list Z) : list Z :=
  let '(nn, humps) := normalized_with_humps s in
  omap (λ ch : Z * bool, if ch.2 then Some ch.1 else None) (zip nn humps).

(** [i32::MIN / 4] *)
Definition NEG : Z := - 2 ^ 29.

(** The row of the query char [qc]: its cell [j] is computed from [cur[j + 1]] and
    [next[j + 1]]. *)
Fixpoint hits_row (qc : Z) (nn : list Z) (humps : list bool) (next : list Z) : list Z :=
  match nn, humps, next with
  | c :: nn, h :: humps, _ :: next =>
      let cur := hits_row qc nn humps next in
      let best := default NEG (head cur) in
      let sub := default NEG (head next) in
      let cand := (if h then 1 else 0) + sub in
      (if (c =? qc) && (NEG <? sub) && (best <? cand) then cand else best) :: cur
  | _, _, _ => [NEG]
  end.

Definition max_hump_hits (nq nn : list Z) (humps : list bool) : option Z :=
  let next := foldr (λ qc next, hits_row qc nn humps next) (replicate (S (length nn)) 0) nq in
  let res := default NEG (head next) in
  if NEG <? res then Some res else None.

Definition score (query name : list Z) : option Z :=
  let nq := normalize query in
  if bool_decide (nq = []) then None else
  let '(nn, humps) := normalized_with_humps name in
  if bool_decide (nn = []) then None else
  let len := as_i32 (zlen nn) in
  if bool_decide (nn = nq) then Some (EXACT_BASE - len)
  else if (zlen nq <=? zlen nn) && bool_decide (take (length nq) nn = nq) then Some (PREFIX_BASE - len)
  else (λ hits, SUBSEQ_BASE + hits * HUMP_BONUS - len) <$> max_hump_hits nq nn humps.

(** The FTS tokenizer. *)
Definition token_step (st : list (list Z) * list Z) (c : Z) : list (list Z) * list Z :=
  if is_alphanumeric c then (st.1, st.2 ++ [lower1 c])
  else if negb (bool_decide (st.2 = [])) then (st.1 ++ [st.2], [])
  else st.

Definition field_tokens (s : list Z) : list (list Z) :=
  let st := foldl token_step ([], []) s in
  if negb (bool_decide (st.2 = [])) then st.1 ++ [st.2] else st.1.
End fuzzy.

(** ** The index *)

Record WorkspaceSymbolHit := mkSymbolHit {
  wh_symbol_ord : Z; wh_display : list Z; wh_owner : list Z; wh_package_name : list Z; wh_kind : Z;
  wh_def_doc_ord : Z; wh_def_target_ord : Z; wh_symbol_id : Z; wh_doc_id : Z; wh_target_id : Z
}.

Record Row := mkRow {
  rw_symbol_ord : Z; rw_display : list Z; rw_owner : list Z; rw_package_name : list Z; rw_kind : Z;
  rw_def_doc_ord : Z; rw_def_target_ord : Z; rw_symbol_id : Z; rw_doc_id : Z; rw_target_id : Z
}.

Record SearchIndex := mkSearchIndex {
  ix_rows : list Row;
  ix_tokens : list (list Z * Z);
  ix_norm_sorted : list (list Z * Z);
  ix_init_sorted : list (list Z * Z);
  ix_display_set : gset (list Z)
}.

(** The order of [(String, u32)]. *)
Definition entry_leb (a b : list Z * Z) : bool :=
  match str_cmp a.1 b.1 with Lt => true | Gt => false | Eq => a.2 <=? b.2 end.
Definition sort_entries (l : list (list Z * Z)) : list (list Z * Z) := sort_by entry_leb l.

(** [sorted.partition_point(|k| k < prefix)], on a sorted slice. *)
Fixpoint from_prefix (prefix : list Z) (sorted : list (list Z * Z)) : list (list Z * Z) :=
  match sorted with
  | [] => []
  | e :: rest => match str_cmp e.1 prefix with Lt => from_prefix prefix rest | _ => sorted end
  end.

Fixpoint fill_loop (prefix : list Z) (l : list (list Z * Z)) (out : gset Z) (cap : Z) : gset Z :=
  match l with
  | [] => out
  | e :: l =>
      if negb (starts_with prefix e.1) || (cap <=? Z.of_nat (size out)) then out
      else fill_loop prefix l ({[e.2]} ∪ out) cap
  end.

(** [fill_prefix], returning the set it fills. *)
Definition fill_prefix (sorted : list (list Z * Z)) (prefix : list Z) (out : gset Z) (cap : Z) : gset Z :=
  fill_loop prefix (from_prefix prefix sorted) out cap.

Section index.
Context `{CharTables}.

(** The row of a symbol, its persistent ids resolved. *)
Definition resolve_row (reader : SegmentReader) (sym : Z) : option Row :=
  meta ← rd_symbol_meta reader sym;
  view ← symbol_view reader sym;
  doc_id ← (if (0 <=? def_doc_ord meta) && (as_u32 (def_doc_ord meta) <? doc_count reader)
            then doc_id_of reader (as_u32 (def_doc_ord meta)) else Some (-1));
  target_id ← (if (0 <=? sv_def_target_ord view) && (sv_def_target_ord view <? target_count reader)
               then target_id_of reader (as_u32 (sv_def_target_ord view)) else Some (-1));
  Some (mkRow (as_u32 sym) (sm_display meta) (sm_owner meta) (sm_package_name meta) (sm_kind meta)
          (def_doc_ord meta) (sv_def_target_ord view) (sv_symbol_id view) doc_id target_id).

(** Adds a resolved row: the three sorted tables are sorted at the end. *)
Definition add_row (ix : SearchIndex) (r : Row) : SearchIndex :=
  let row := as_u32 (zlen (ix_rows ix)) in
  let norm := normalize (rw_display r) in
  let init := initials (rw_display r) in
  mkSearchIndex (ix_rows ix ++ [r])
    (ix_tokens ix ++ concat ((λ field, (λ tok, (tok, row)) <$> field_tokens field) <$>
                             [rw_display r; rw_owner r; rw_package_name r]))
    (if negb (bool_decide (norm = [])) then ix_norm_sorted ix ++ [(norm, row)] else ix_norm_sorted ix)
    (if negb (bool_decide (init = [])) then ix_init_sorted ix ++ [(init, row)] else ix_init_sorted ix)
    (if negb (bool_decide (rw_display r = [])) then {[rw_display r]} ∪ ix_display_set ix else ix_display_set ix).

Definition add_search_row (reader : SegmentReader) (ix : SearchIndex) (i : Z) : option SearchIndex :=
  row ← search_row reader i;
  let sym := row.2 in
  if (sym <? 0) || (symbol_count reader <=? sym) then Some ix else
  r ← resolve_row reader sym;
  Some (add_row ix r).

Definition sorted_index (ix : SearchIndex) : SearchIndex :=
  mkSearchIndex (ix_rows ix) (sort_entries (ix_tokens ix)) (sort_entries (ix_norm_sorted ix))
    (sort_entries (ix_init_sorted ix)) (ix_display_set ix).

Fixpoint fold_opt {A S : Type} (f : S → A → option S) (s : S) (l : list A) : option S :=
  match l with [] => Some s | x :: l => s' ← f s x; fold_opt f s' l end.

(** [SearchIndex::build] *)
Definition index_build (reader : SegmentReader) : option SearchIndex :=
  n ← search_row_count reader;
  sorted_index <$> fold_opt (add_search_row reader) (mkSearchIndex [] [] [] [] ∅) (seqZ 0 (Z.max n 0)).

Definition workspace_symbol_name_exists (ix : SearchIndex) (display_name : list Z) : bool :=
  negb (bool_decide (display_name = [])) && bool_decide (display_name ∈ ix_display_set ix).

(** ** The query *)

Definition hit (r : Row) : WorkspaceSymbolHit :=
  mkSymbolHit (rw_symbol_ord r) (rw_display r) (rw_owner r) (rw_package_name r) (rw_kind r) (rw_def_doc_ord r)
    (rw_def_target_ord r) (rw_symbol_id r) (rw_doc_id r) (rw_target_id r).

(** A ranked candidate: the row's number, the row and its score; the sort key is
    [(s.is_none(), Reverse(s.unwrap_or(i32::MIN)), symbol_ord)]. *)
Definition rank_key (e : Z * Row * option Z) : list Z :=
  [match e.2 with None => 1 | Some _ => 0 end; - default (- 2 ^ 31) e.2; rw_symbol_ord e.1.2].

Context (into_iter : gmap Z (option Z) → list (Z * option Z)).

(** The rows whose fields prefix-match every token. *)
Definition prefix_matches (ix : SearchIndex) (qtokens : list (list Z)) : gset Z :=
  let per_token t := fill_prefix (ix_tokens ix) t ∅ (2 ^ 64 - 1) in
  match qtokens with
  | [] => ∅
  | t :: ts => foldl (λ acc t, acc ∩ per_token t) (per_token t) ts
  end.

(** The bounded pull of a single token. *)
Definition fuzzy_pull (ix : SearchIndex) (token : list Z) : gset Z :=
  let first := take 1 token in
  fill_prefix (ix_init_sorted ix) first (fill_prefix (ix_norm_sorted ix) first ∅ FUZZY_CANDIDATE_CAP) FUZZY_CANDIDATE_CAP.

Definition row_score (ix : SearchIndex) (query : list Z) (r : Z) : option (option Z) :=
  row ← zget (ix_rows ix) r; Some (score query (rw_display row)).

(** [cand.insert(r, score)] for the prefix matches. *)
Definition add_match (ix : SearchIndex) (query : list Z) (cand : gmap Z (option Z)) (r : Z) : option (gmap Z (option Z)) :=
  s ← row_score ix query r; Some (<[r := s]> cand).

(** A fuzzy candidate is kept when it is new and has a score. *)
Definition add_fuzzy (ix : SearchIndex) (query : list Z) (cand : gmap Z (option Z)) (r : Z) : option (gmap Z (option Z)) :=
  match cand !! r with
  | Some _ => Some cand
  | None =>
      s ← row_score ix query r;
      Some (match s with Some s => <[r := Some s]> cand | None => cand end)
  end.

Definition candidates (ix : SearchIndex) (query : list Z) (qtokens : list (list Z)) : option (gmap Z (option Z)) :=
  cand ← fold_opt (add_match ix query) ∅ (elements (prefix_matches ix qtokens));
  match qtokens with
  | [token] => fold_opt (add_fuzzy ix query) cand (elements (fuzzy_pull ix token))
  | _ => Some cand
  end.

(** The number of candidates the last fuzzy pull made. *)
Definition fuzzy_candidate_count (ix : SearchIndex) (query : list Z) (limit : Z) : Z :=
  match field_tokens query with
  | [token] => if limit =? 0 then 0 else Z.of_nat (size (fuzzy_pull ix token))
  | _ => 0
  end.

(** [SearchIndex::workspace_symbol_search] *)
Definition workspace_symbol_search (ix : SearchIndex) (query : list Z) (limit : Z) : option (list WorkspaceSymbolHit) :=
  let qtokens := field_tokens query in
  if bool_decide (qtokens = []) || (limit =? 0) then Some [] else
  cand ← candidates ix query qtokens;
  ranked ← mapM (λ e : Z * option Z, row ← zget (ix_rows ix) e.1; Some (e.1, row, e.2)) (into_iter cand);
  Some (take (Z.to_nat limit) ((λ e, hit e.1.2) <$> sort_by (λ a b, lex_leb (rank_key a) (rank_key b)) ranked)).
End index.
