(* ===== verification/SearchScore.v ===== *)
(** The fuzzy score: the table computes the largest number of hump hits of a subsequence
    embedding, and the three tiers. *)

From S2P Require Import Prelude RustStr StoreFormat SegReader Search.

Open Scope Z_scope.

(** [embeds q nn humps k]: [q] is a subsequence of [nn], by an embedding that takes [k] chars
    at humps. *)
Inductive embeds : list Z → list Z → list bool → Z → Prop :=
| embeds_nil nn hs : embeds [] nn hs 0
| embeds_skip q c nn h hs k : embeds q nn hs k → embeds q (c :: nn) (h :: hs) k
| embeds_take q c nn h hs k : embeds q nn hs k → embeds (c :: q) (c :: nn) (h :: hs) ((if h then 1 else 0) + k).

Definition best_embedding (q nn : list Z) (hs : list bool) (k : Z) : Prop :=
  embeds q nn hs k ∧ ∀ k', embeds q nn hs k' → k' ≤ k.

Lemma embeds_bound q nn hs k : embeds q nn hs k → 0 ≤ k ≤ zlen q.
Proof.
  induction 1 as [|q c nn h hs k _ IH|q c nn h hs k _ IH]; [unfold zlen; cbn; lia|done|].
  rewrite zlen_cons. destruct h; lia.
Qed.

Lemma embeds_nil_inv nn hs k : embeds [] nn hs k → k = 0.
Proof. remember [] as q eqn:E. induction 1; [done|by apply IHembeds|done]. Qed.

Lemma embeds_sublist q nn hs : length hs = length nn → (∃ k, embeds q nn hs k) ↔ q `sublist_of` nn.
Proof.
  intros Hl. split.
  - intros [k H]. clear Hl. induction H as [|q c nn h hs k _ IH|q c nn h hs k _ IH]; [apply sublist_nil_l|by constructor|by constructor].
  - intros H. revert hs Hl. induction H as [|c q nn _ IH|c q nn _ IH]; intros hs Hl.
    + exists 0. constructor.
    + destruct hs as [|h hs]; [done|]. destruct (IH hs) as [k Hk]; [by injection Hl|]. eexists. by constructor.
    + destruct hs as [|h hs]; [done|]. destruct (IH hs) as [k Hk]; [by injection Hl|]. exists k. by constructor.
Qed.

(** ** The table *)

Definition cell (q nn : list Z) (hs : list bool) (v : Z) : Prop :=
  (v = NEG ∧ ∀ k, ¬ embeds q nn hs k) ∨ best_embedding q nn hs v.

Lemma cell_neg q nn hs v : cell q nn hs v → (NEG <? v) = true ↔ best_embedding q nn hs v.
Proof.
  intros Hc. rewrite Z.ltb_lt. split.
  - intros Hv. destruct Hc as [[-> _]|H]; [lia|done].
  - intros [H _]. apply embeds_bound in H. unfold NEG. lia.
Qed.

(** One cell per suffix. *)
Inductive row_ok (q : list Z) : list Z → list bool → list Z → Prop :=
| row_end v : cell q [] [] v → row_ok q [] [] [v]
| row_cons c nn h hs v row : cell q (c :: nn) (h :: hs) v → row_ok q nn hs row → row_ok q (c :: nn) (h :: hs) (v :: row).

Lemma row_head q nn hs row : row_ok q nn hs row → ∃ v, head row = Some v ∧ cell q nn hs v.
Proof. by destruct 1; eexists. Qed.

(** The cell of a non-empty suffix. *)
Lemma cell_step qc q c nn h hs best sub :
  cell (qc :: q) nn hs best → cell q nn hs sub →
  cell (qc :: q) (c :: nn) (h :: hs)
    (if (c =? qc) && (NEG <? sub) && (best <? (if h then 1 else 0) + sub) then (if h then 1 else 0) + sub else best).
Proof.
  intros Hb Hs. assert (∀ k, embeds (qc :: q) (c :: nn) (h :: hs) k →
    embeds (qc :: q) nn hs k ∨ (c = qc ∧ ∃ k', embeds q nn hs k' ∧ k = (if h then 1 else 0) + k')) as Hinv.
  { intros k H. inversion H; subst; [by left|right]. split; [done|]. by eexists. }
  destruct (Z.eqb_spec c qc) as [->|Hne]; cbn [andb].
  - destruct (NEG <? sub) eqn:Es; cbn [andb].
    + apply (cell_neg _ _ _ _ Hs) in Es as [Es Esm]. set (hv := if h then 1 else 0) in *.
      destruct (Z.ltb_spec best (hv + sub)) as [Hlt|Hge].
      * right. split; [by constructor|]. intros k [Hk|(_ & k' & Hk' & ->)]%Hinv; [|specialize (Esm k' Hk'); lia].
        destruct Hb as [[_ Hb]|[_ Hb]]; [by apply Hb in Hk|]. specialize (Hb k Hk). lia.
      * right. destruct Hb as [[-> Hb]|[Hb Hbm]].
        { exfalso. apply embeds_bound in Es. unfold NEG in Hge. subst hv. destruct h; lia. }
        split; [by constructor|]. intros k [Hk|(_ & k' & Hk' & ->)]%Hinv; [by apply Hbm|]. specialize (Esm k' Hk'). lia.
    + assert (∀ k, ¬ embeds q nn hs k) as Hno.
      { destruct Hs as [[_ Hs]|Hs]; [done|]. apply (cell_neg _ _ _ _ (or_intror Hs)) in Hs. congruence. }
      destruct Hb as [[-> Hb]|[Hb Hbm]]; [left|right].
      * split; [done|]. intros k [Hk|(_ & k' & Hk' & _)]%Hinv; [by apply Hb in Hk|by apply Hno in Hk'].
      * split; [by constructor|]. intros k [Hk|(_ & k' & Hk' & _)]%Hinv; [by apply Hbm|by apply Hno in Hk'].
  - destruct Hb as [[-> Hb]|[Hb Hbm]]; [left|right].
    + split; [done|]. intros k [Hk|(? & _)]%Hinv; [by apply Hb in Hk|done].
    + split; [by constructor|]. intros k [Hk|(? & _)]%Hinv; [by apply Hbm|done].
Qed.

Lemma hits_row_ok qc q nn hs next : row_ok q nn hs next → row_ok (qc :: q) nn hs (hits_row qc nn hs next).
Proof.
  induction 1 as [v Hv|c nn h hs v row Hv Hrow IH]; cbn [hits_row].
  - constructor. left. split; [done|]. intros k H. inversion H.
  - destruct (row_head _ _ _ _ IH) as (b & Eb & Hb). destruct (row_head _ _ _ _ Hrow) as (s & Es & Hs).
    constructor; [|done]. rewrite Eb, Es. by apply cell_step.
Qed.

Lemma first_row_ok nn hs : length hs = length nn → row_ok [] nn hs (replicate (S (length nn)) 0).
Proof.
  assert (∀ nn hs, cell [] nn hs 0) as Hc.
  { intros nn' hs'. right. split; [constructor|]. intros k ->%embeds_nil_inv. lia. }
  revert hs. induction nn as [|c nn IH]; intros [|h hs] Hl; try done; cbn [length replicate]; constructor; try apply Hc.
  apply IH. by injection Hl.
Qed.

Lemma max_hump_hits_exact nq nn hs :
  length hs = length nn →
  match max_hump_hits nq nn hs with Some k => best_embedding nq nn hs k | None => ¬ nq `sublist_of` nn end.
Proof.
  intros Hl. unfold max_hump_hits.
  assert (row_ok nq nn hs (foldr (λ qc next, hits_row qc nn hs next) (replicate (S (length nn)) 0) nq)) as Hrow.
  { induction nq as [|qc q IH]; cbn [foldr]; [by apply first_row_ok|by apply hits_row_ok]. }
  destruct (row_head _ _ _ _ Hrow) as (v & -> & Hv).
  change (default NEG (Some v)) with v. destruct (NEG <? v) eqn:E.
  - by apply (cell_neg _ _ _ _ Hv).
  - rewrite <- (embeds_sublist nq nn hs Hl). intros [k Hk]. destruct Hv as [[_ Hv]|Hv]; [by apply Hv in Hk|].
    apply (cell_neg _ _ _ _ (or_intror Hv)) in Hv. congruence.
Qed.

(** ** Normalized names *)

Section score.
Context `{CharTables}.

Lemma hump_steps st s :
  length (humps st) = length (nn st) →
  nn (foldl hump_step st s) = nn st ++ normalize s ∧ length (humps (foldl hump_step st s)) = length (nn (foldl hump_step st s)).
Proof.
  revert st. induction s as [|c s IH]; intros st Hl; cbn [foldl]; [by rewrite app_nil_r|].
  destruct (IH (hump_step st c)) as [E1 E2].
  { unfold hump_step. destruct (is_alphanumeric c); cbn [humps nn]; [|done]. rewrite !length_app. cbn. lia. }
  split; [|done]. rewrite E1. unfold hump_step, normalize. cbn [List.filter].
  destruct (is_alphanumeric c); cbn [nn]; [|done]. by rewrite <- app_assoc.
Qed.

Lemma normalized_humps s :
  ∃ hs, normalized_with_humps s = (normalize s, hs) ∧ length hs = length (normalize s).
Proof.
  unfold normalized_with_humps. destruct (hump_steps (mkHump [] [] false false false) s eq_refl) as [E1 E2].
  cbn [nn app] in E1. rewrite E1 in E2. eexists. rewrite E1. done.
Qed.

Definition humps_of (s : list Z) : list bool := (normalized_with_humps s).2.

Lemma zlen_normalize s : zlen (normalize s) ≤ zlen s.
Proof.
  unfold normalize. rewrite zlen_fmap. unfold zlen. induction s as [|c s IH]; cbn [List.filter length]; [lia|].
  destruct (is_alphanumeric c); cbn [length]; lia.
Qed.

Lemma prefix_take (a b : list Z) :
  (zlen a <=? zlen b) && bool_decide (take (length a) b = a) = true ↔ a `prefix_of` b.
Proof.
  rewrite andb_true_iff, bool_decide_eq_true. split.
  - intros [_ E]. exists (drop (length a) b). by rewrite <- E at 1; rewrite take_drop.
  - intros [k ->]. rewrite take_app_length, zlen_app. pose proof (zlen_nonneg k). split; [lia|done].
Qed.
End score.

(** ** The properties *)

(** The fuzzy score, on every pair of strings. Normalized, an empty query or name and a
    query that is not a subsequence of the name have no score; the name itself, a proper
    prefix, and any other subsequence score by tier, the last by the largest number of query
    chars that any embedding puts on hump starts, less the length of the name. *)
Theorem score_exact `{CharTables} query name :
  zlen name < 2 ^ 31 →
  let nq := normalize query in let nn := normalize name in
  (score query name = None ↔ nq = [] ∨ nn = [] ∨ ¬ nq `sublist_of` nn) ∧
  ∀ v, score query name = Some v ↔ nq ≠ [] ∧ nn ≠ [] ∧
    (nn = nq ∧ v = EXACT_BASE - zlen nn ∨
     nn ≠ nq ∧ nq `prefix_of` nn ∧ v = PREFIX_BASE - zlen nn ∨
     ¬ nq `prefix_of` nn ∧ ∃ hits, best_embedding nq nn (humps_of name) hits ∧ v = SUBSEQ_BASE + hits * HUMP_BONUS - zlen nn).
Proof.
  intros Hlen nq nn. pose proof (zlen_normalize name) as Hn. fold nn in Hn.
  unfold score, humps_of. fold nq. destruct (normalized_humps name) as (hs & -> & Hhs). fold nn in Hhs |- *. cbn [snd].
  assert (as_i32 (zlen nn) = zlen nn) as ->.
  { unfold as_i32. apply wrapS_id; [lia|]. pose proof (zlen_nonneg nn). unfold inS. lia. }
  case_bool_decide as E1; [split; [naive_solver|]; intros v; naive_solver|].
  case_bool_decide as E2; [split; [naive_solver|]; intros v; naive_solver|].
  case_bool_decide as E3.
  { split; [|intros v; split; [intros [= <-]; auto|]; intros (_ & _ & [[_ ->]|[[? _]|[Hp _]]]); [done|done|destruct Hp; by rewrite E3]].
    split; [done|]. intros [?|[?|Hs]]; [done|done|]. destruct Hs. rewrite E3. reflexivity. }
  destruct ((zlen nq <=? zlen nn) && bool_decide (take (length nq) nn = nq)) eqn:E4.
  { apply prefix_take in E4. split; [|intros v; split; [intros [= <-]; split; [done|]; split; [done|]; right; by left|]; intros (_ & _ & [[? _]|[(_ & _ & ->)|[Hp _]]]); done]. split; [done|]. intros [?|[?|Hs]]; [done|done|].
    destruct Hs. destruct E4 as [k ->]. by apply sublist_inserts_r. }
  assert (¬ nq `prefix_of` nn) as Hnp by (rewrite <- prefix_take; congruence).
  pose proof (max_hump_hits_exact nq nn hs Hhs) as Hmax. destruct (max_hump_hits nq nn hs) as [k|]; cbn.
  - split.
    + split; [done|]. intros [?|[?|Hs]]; [done|done|]. destruct Hs. apply (embeds_sublist nq nn hs Hhs). exists k. apply Hmax.
    + intros v. split; [intros [= <-]; split; [done|]; split; [done|]; right; right; split; [done|]; by exists k|].
      intros (_ & _ & [[? _]|[(_ & ? & _)|(_ & k' & Hk' & ->)]]); [done|done|].
      assert (k = k') as ->; [|done]. destruct Hmax as [A1 A2], Hk' as [B1 B2]. specialize (A2 k' B1). specialize (B2 k A1). lia.
  - split; [naive_solver|]. intros v. split; [done|]. intros (_ & _ & [[? _]|[(_ & ? & _)|(_ & k' & Hk' & _)]]); [done|done|].
    destruct Hmax. apply (embeds_sublist nq nn hs Hhs). exists k'. apply Hk'.
Qed.

Lemma score_exact_witness :
  let nq := @normalize ascii_tables (lit "wSy") in let nn := @normalize ascii_tables (lit "workspaceSymbol") in
  ∃ hits, best_embedding nq nn (@humps_of ascii_tables (lit "workspaceSymbol")) hits ∧
    2985 = SUBSEQ_BASE + hits * HUMP_BONUS - zlen nn.
Proof.
  intros nq nn. destruct (@score_exact ascii_tables (lit "wSy") (lit "workspaceSymbol")) as [_ Hs]; [vm_compute; reflexivity|].
  destruct (proj1 (Hs 2985)) as (_ & _ & [[Hn _]|[(_ & Hp & _)|[_ H]]]).
  - vm_compute. reflexivity.
  - revert Hn. vm_compute. discriminate.
  - destruct Hp as [k E]. revert E. vm_compute. discriminate.
  - exact H.
Defined.

(** C34. The tiers. For names of at most a thousand chars and a query of at most ninety-seven, a
    name equal to the query outranks one the query is a proper prefix of, which outranks any
    other match, whatever its hump hits. Beyond that the tiers overlap: a query of a hundred
    chars scores a name it hits a hundred humps of above a name it is a prefix of. *)
Theorem score_tiers `{CharTables} query :
  (zlen (normalize query) ≤ 97 → ∀ equal longer other v1 v2 v3,
     zlen equal ≤ 1000 → zlen longer ≤ 1000 → zlen other ≤ 1000 →
     normalize equal = normalize query → normalize longer ≠ normalize query →
     normalize query `prefix_of` normalize longer → ¬ normalize query `prefix_of` normalize other →
     score query equal = Some v1 → score query longer = Some v2 → score query other = Some v3 → v3 < v2 < v1) ∧
  ∃ q longer other v2 v3, @normalize ascii_tables q `prefix_of` @normalize ascii_tables longer ∧
    ¬ @normalize ascii_tables q `prefix_of` @normalize ascii_tables other ∧
    @score ascii_tables q longer = Some v2 ∧ @score ascii_tables q other = Some v3 ∧ v2 < v3.
Proof.
  split.
  - intros Hq e p o v1 v2 v3 He Hp Ho Ee Ep Pp Po S1 S2 S3.
    apply (score_exact query e) in S1 as (Hne & _ & S1); [|lia]. apply (score_exact query p) in S2 as (_ & _ & S2); [|lia].
    apply (score_exact query o) in S3 as (_ & _ & S3); [|lia].
    pose proof (zlen_normalize e). pose proof (zlen_normalize p). pose proof (zlen_nonneg (normalize o)). pose proof (zlen_nonneg (normalize p)).
    destruct S1 as [[_ ->]|[[? _]|[Hn _]]]; [|done|destruct Hn; by rewrite Ee].
    destruct S2 as [[? _]|[(_ & _ & ->)|[? _]]]; [done| |done].
    destruct S3 as [[E _]|[(_ & ? & _)|(_ & k & [Hk _] & ->)]]; [destruct Po; by rewrite E|done|].
    apply embeds_bound in Hk. unfold EXACT_BASE, PREFIX_BASE, SUBSEQ_BASE, HUMP_BONUS. lia.
  - exists (replicate 100 97), (replicate 101 97), (concat (replicate 100 [120; 65])), 99899, 100800.
    split; [exists [97]; by vm_compute|]. split; [|by vm_compute]. intros [k E]. revert E. vm_compute. discriminate.
Qed.

Lemma score_tiers_witness : 991 < 99991 < 999996.
Proof.
  apply (proj1 (score_tiers (H := ascii_tables) (lit "Core")) ltac:(vm_compute; discriminate) (lit "core") (lit "CoreThing") (lit "xxcxoxrxe"));
    try (vm_compute; first [reflexivity|discriminate]).
  - exists (lit "thing"). vm_compute. reflexivity.
  - intros [k E]. revert E. vm_compute. discriminate.
Defined.

(** Prefix lookup in a sorted table: the entries whose key starts with a prefix are the ones
    [fill_prefix] reads. *)

From Stdlib Require Import Sorting.Sorted.

Open Scope Z_scope.

(** ** Prefixes of strings and of their bytes *)

Lemma str_units_cons c s : str_units (c :: s) = utf8_units c ++ str_units s.
Proof. done. Qed.

Lemma units_prefix p k : wf_str p → wf_str k → str_units p `prefix_of` str_units k → p `prefix_of` k.
Proof.
  intros Hp. revert k. induction Hp as [|c p Hc Hp IH]; intros k Hk [l E]; [apply prefix_nil|].
  rewrite str_units_cons, <- app_assoc in E. destruct (utf8_units_inv c) as (u0 & rc & Ec).
  destruct Hk as [|d k Hd Hk]; [by rewrite Ec in E|]. rewrite str_units_cons in E.
  destruct (utf8_units_inv d) as (v0 & rd & Ed).
  assert (u0 :: rc ++ str_units p ++ l = v0 :: rd ++ str_units k) as E' by (rewrite Ec, Ed in E; by symmetry).
  injection E' as -> E'. pose proof (utf8_step_units c v0 rc (str_units p ++ l) Hc Ec) as Sc.
  pose proof (utf8_step_units d v0 rd (str_units k) Hd Ed) as Sd. rewrite E' in Sc. rewrite Sc in Sd. injection Sd as -> _.
  apply prefix_cons, IH; [done|]. exists l. by apply app_inv_head in E.
Qed.

Lemma prefix_units p k : p `prefix_of` k → str_units p `prefix_of` str_units k.
Proof. intros [l ->]. unfold str_units. rewrite fmap_app, concat_app. by eexists. Qed.

(** The order of the keys, on their code units. *)
Definition units_cmp (a b : list Z) : comparison := lex_cmp (byte_val <$> as_bytes a) (byte_val <$> as_bytes b).

Lemma cmp_prefix (p k : list Z) : p `prefix_of` k → lex_cmp k p ≠ Lt.
Proof.
  intros [l ->]. induction p as [|x p IH]; cbn; [by destruct l|]. by rewrite Z.compare_refl.
Qed.

(** What is not below a prefix and does not start with it is above everything that does. *)
Lemma cmp_beyond (p k1 k2 : list Z) :
  lex_cmp k1 p ≠ Lt → ¬ p `prefix_of` k1 → lex_cmp k1 k2 ≠ Gt → ¬ p `prefix_of` k2.
Proof.
  revert k1 k2. induction p as [|x p IH]; intros k1 k2 H1 H2 H3; [destruct H2; apply prefix_nil|].
  destruct k1 as [|y k1]; [done|]. destruct k2 as [|z k2]; [by intros Hp%prefix_nil_inv|].
  cbn in H1, H3. destruct (Z.compare_spec y x) as [->|Hlt|Hgt]; [|done|].
  - destruct (Z.compare_spec x z) as [->|Hlt|Hgt]; [|intros Hp%prefix_cons_inv_1; lia|done].
    intros Hp%prefix_cons_inv_2. revert Hp. apply (IH k1 k2); [done| |done]. intros Hp. apply H2. by apply prefix_cons.
  - intros Hp%prefix_cons_inv_1. subst z. by rewrite (proj2 (Z.compare_gt_iff y x)) in H3 by lia.
Qed.

Lemma starts_with_prefix p k : starts_with p k = true ↔ p `prefix_of` k.
Proof. apply starts_with_true. Qed.

Section keys.
Context (p k1 k2 : list Z) (Hp : wf_str p) (H1 : wf_str k1) (H2 : wf_str k2).

Lemma key_prefix : str_cmp k1 p = Lt → starts_with p k1 = false.
Proof.
  unfold str_cmp, bytes_cmp. rewrite !byte_val_as_bytes by done. intros E. apply not_true_iff_false.
  intros Hs%starts_with_prefix%prefix_units%cmp_prefix. done.
Qed.

Lemma key_beyond : str_cmp k1 p ≠ Lt → starts_with p k1 = false → str_cmp k1 k2 ≠ Gt → starts_with p k2 = false.
Proof.
  unfold str_cmp, bytes_cmp. rewrite !byte_val_as_bytes by done. intros E Hs Hc. apply not_true_iff_false.
  intros Hp2%starts_with_prefix%prefix_units. revert Hp2. eapply cmp_beyond; [exact E| |exact Hc].
  intros Hu%units_prefix%starts_with_prefix; [congruence|done|done].
Qed.
End keys.

(** ** The order of entries *)

Lemma entry_leb_key a b : entry_leb a b = true → str_cmp a.1 b.1 ≠ Gt.
Proof. unfold entry_leb. by destruct (str_cmp a.1 b.1). Qed.

Lemma str_cmp_antisym a b : str_cmp b a = CompOpp (str_cmp a b).
Proof. apply lex_cmp_antisym. Qed.
Lemma str_cmp_trans_eq a b c : str_cmp a b = Eq → str_cmp a c = str_cmp b c.
Proof. unfold str_cmp, bytes_cmp. by intros ->%lex_cmp_eq. Qed.

Lemma entry_leb_total a b : entry_leb a b = true ∨ entry_leb b a = true.
Proof.
  unfold entry_leb. rewrite (str_cmp_antisym a.1 b.1). destruct (str_cmp a.1 b.1); cbn; rewrite ?Z.leb_le; auto. lia.
Qed.
Lemma entry_leb_trans a b c : entry_leb a b = true → entry_leb b c = true → entry_leb a c = true.
Proof.
  unfold entry_leb. destruct (str_cmp a.1 b.1) eqn:E1; [|destruct (str_cmp b.1 c.1) eqn:E2|done].
  - rewrite (str_cmp_trans_eq _ _ _ E1). destruct (str_cmp b.1 c.1); rewrite ?Z.leb_le; [lia|done|done].
  - intros _ _. unfold str_cmp, bytes_cmp in *. apply lex_cmp_eq in E2. rewrite <- E2. by rewrite E1.
  - intros _ _. unfold str_cmp, bytes_cmp in *. by rewrite (lex_cmp_lt_trans _ _ _ E1 E2).
  - done.
Qed.

Lemma sort_entries_sorted l : StronglySorted (λ a b, entry_leb a b = true) (sort_entries l).
Proof. apply sort_by_sorted; [apply entry_leb_total|intros; by eapply entry_leb_trans]. Qed.
Lemma elem_of_sort_entries e l : e ∈ sort_entries l ↔ e ∈ l.
Proof. apply elem_of_sort_by. Qed.

(** ** Filling *)

Definition keys_wf (l : list (list Z * Z)) : Prop := ∀ e, e ∈ l → wf_str e.1.
Definition starts (p : list Z) (e : list Z * Z) : Prop := starts_with p e.1 = true.

(** Once an entry does not start with the prefix, none does. *)
Inductive run_then_none (p : list Z) : list (list Z * Z) → Prop :=
| rtn_stop l : (∀ e, e ∈ l → ¬ starts p e) → run_then_none p l
| rtn_cons e l : starts p e → run_then_none p l → run_then_none p (e :: l).

Lemma from_prefix_run p l :
  wf_str p → keys_wf l → StronglySorted (λ a b, entry_leb a b = true) l →
  run_then_none p (from_prefix p l) ∧ (∀ e, e ∈ l → starts p e → e ∈ from_prefix p l) ∧ (∀ e, e ∈ from_prefix p l → e ∈ l).
Proof.
  intros Hp Hk Hs. induction Hs as [|e l Hs IH He]; cbn [from_prefix].
  { split; [constructor; by intros e ?%elem_of_nil|]. by split. }
  assert (keys_wf l) as Hkl by (intros x Hx; apply Hk; by right).
  assert (wf_str e.1) as Hke by (apply Hk; left).
  rewrite Forall_forall in He. destruct (str_cmp e.1 p) eqn:E.
  2:{ destruct (IH Hkl) as (H1 & H2 & H3). split; [done|]. split.
      - intros x [->|Hx]%elem_of_cons Hst; [|by apply H2]. unfold starts in Hst. by rewrite (key_prefix p e.1) in Hst.
      - intros x Hx. right. by apply H3. }
  all: split; [|done]; clear IH.
  all: assert (∀ x, x ∈ e :: l → str_cmp x.1 p ≠ Lt) as Hge;
    [intros x [->|Hx]%elem_of_cons; [by rewrite E|]; specialize (He x Hx); apply entry_leb_key in He;
     unfold str_cmp, bytes_cmp in *; intros Hlt; apply He; rewrite (lex_cmp_antisym (byte_val <$> as_bytes x.1));
     first [apply lex_cmp_eq in E; rewrite E; by rewrite Hlt
           | rewrite (lex_cmp_lt_trans _ (byte_val <$> as_bytes p)); [done|done|by rewrite lex_cmp_antisym, E]]|].
  all: assert (StronglySorted (λ a b, entry_leb a b = true) (e :: l)) as Hss by (constructor; [done|by apply Forall_forall]).
  all: clear E He Hs Hkl Hke; induction Hss as [|x m Hm IHm Hx]; [constructor; by intros ? ?%elem_of_nil|].
  all: destruct (starts_with p x.1) eqn:Est; [constructor 2; [done|]; apply IHm; [intros y Hy; apply Hk; by right|intros y Hy; apply Hge; by right]|].
  all: constructor 1; intros y Hy; unfold starts; apply not_true_iff_false; apply elem_of_cons in Hy as [->|Hy]; [done|].
  all: rewrite Forall_forall in Hx; apply (key_beyond p x.1 y.1); [done|apply Hk; left|apply Hk; by right|apply Hge; left|done|by apply entry_leb_key, Hx].
Qed.

Lemma fill_loop_spec p l out cap :
  run_then_none p l →
  out ⊆ fill_loop p l out cap ∧
  (∀ r, r ∈ fill_loop p l out cap → r ∈ out ∨ ∃ e, e ∈ l ∧ starts p e ∧ e.2 = r) ∧
  Z.of_nat (size (fill_loop p l out cap)) ≤ Z.max (Z.of_nat (size out)) cap ∧
  (Z.of_nat (size (fill_loop p l out cap)) < cap → ∀ e, e ∈ l → starts p e → e.2 ∈ fill_loop p l out cap).
Proof.
  intros Hr. revert out. induction Hr as [l Hno|e l He Hr IH]; intros out.
  - assert (fill_loop p l out cap = out) as ->.
    { destruct l as [|e l]; cbn [fill_loop]; [done|]. destruct (starts_with p e.1) eqn:E; [|done]. exfalso. by apply (Hno e); [left|]. }
    split; [done|]. split; [by left|]. split; [lia|]. intros _ e Hin Hst. by apply Hno in Hst.
  - cbn [fill_loop]. unfold starts in He. rewrite He. cbn [negb orb]. destruct (Z.leb_spec cap (Z.of_nat (size out))).
    { split; [done|]. split; [by left|]. split; [lia|]. intros. lia. }
    destruct (IH ({[e.2]} ∪ out)) as (H1 & H2 & H3 & H4). split; [set_solver|]. split; [|split].
    + intros r Hin. destruct (H2 r Hin) as [Hr'|(e' & He' & Hs & Hr')].
      * apply elem_of_union in Hr' as [->%elem_of_singleton|?]; [right; exists e; split; [left|done]|by left].
      * right. exists e'. split; [by right|done].
    + assert (size ({[e.2]} ∪ out) ≤ 1 + size out)%nat; [|lia]. rewrite size_union_alt, size_singleton.
      assert (size (out ∖ {[e.2]}) ≤ size out)%nat by (apply subseteq_size; set_solver). lia.
    + intros Hlt e' [->|He']%elem_of_cons Hs; [set_solver|by apply H4].
Qed.

(** [fill_prefix] only adds rows of matching entries, stays within the cap, and adds them all
    when it does not reach it. *)
Lemma fill_prefix_spec l p out cap :
  wf_str p → keys_wf l → StronglySorted (λ a b, entry_leb a b = true) l →
  out ⊆ fill_prefix l p out cap ∧
  (∀ r, r ∈ fill_prefix l p out cap → r ∈ out ∨ ∃ k, (k, r) ∈ l ∧ p `prefix_of` k) ∧
  Z.of_nat (size (fill_prefix l p out cap)) ≤ Z.max (Z.of_nat (size out)) cap ∧
  (Z.of_nat (size (fill_prefix l p out cap)) < cap → ∀ k r, (k, r) ∈ l → p `prefix_of` k → r ∈ fill_prefix l p out cap).
Proof.
  intros Hp Hk Hs. destruct (from_prefix_run p l Hp Hk Hs) as (Hrun & Hin & Hsub).
  destruct (fill_loop_spec p (from_prefix p l) out cap Hrun) as (H1 & H2 & H3 & H4). split; [done|]. split; [|split; [done|]].
  - intros r Hr. destruct (H2 r Hr) as [?|([k r'] & He & Hst & <-)]; [by left|right]. exists k. split; [by apply Hsub|].
    by apply starts_with_prefix.
  - intros Hlt k r Hkr Hpre. apply (H4 Hlt (k, r)); [apply Hin; [done|]|]; by apply starts_with_prefix.
Qed.

(** The ranked query: over the tables of an index, the result is the best [limit] of exactly the
    matching rows, in an order that does not depend on the iteration of hash maps. *)

From Stdlib Require Import Sorting.Sorted.

Open Scope Z_scope.

Section query.
Context {Htables : CharTables}.

(** ** What an index is *)

Definition fields_of (row : Row) : list (list Z) :=
  field_tokens (rw_display row) ++ field_tokens (rw_owner row) ++ field_tokens (rw_package_name row).

Definition entries_sorted (l : list (list Z * Z)) : Prop := StronglySorted (λ a b, entry_leb a b = true) l.

(** The tables hold exactly the tokens, the normalized names and the initials of the rows. *)
Record indexed (ix : SearchIndex) : Prop := {
  ix_fits : zlen (ix_rows ix) ≤ 2 ^ 32;
  ix_sorted : entries_sorted (ix_tokens ix) ∧ entries_sorted (ix_norm_sorted ix) ∧ entries_sorted (ix_init_sorted ix);
  ix_wf : keys_wf (ix_tokens ix) ∧ keys_wf (ix_norm_sorted ix) ∧ keys_wf (ix_init_sorted ix);
  ix_token t r : (t, r) ∈ ix_tokens ix ↔ ∃ row, zget (ix_rows ix) r = Some row ∧ t ∈ fields_of row;
  ix_norm k r : (k, r) ∈ ix_norm_sorted ix ↔ ∃ row, zget (ix_rows ix) r = Some row ∧ k = normalize (rw_display row) ∧ k ≠ [];
  ix_init k r : (k, r) ∈ ix_init_sorted ix ↔ ∃ row, zget (ix_rows ix) r = Some row ∧ k = initials (rw_display row) ∧ k ≠ [];
  ix_display d : d ∈ ix_display_set ix ↔ d ≠ [] ∧ ∃ r row, zget (ix_rows ix) r = Some row ∧ rw_display row = d
}.

(** Rows of one symbol are the same row, so ties in the ranking do not show. *)
Definition rows_by_symbol (ix : SearchIndex) : Prop := ∀ r r' row row',
  zget (ix_rows ix) r = Some row → zget (ix_rows ix) r' = Some row' → rw_symbol_ord row = rw_symbol_ord row' → row = row'.

(** ** Which rows match *)

(** Every token is a prefix of a token of the display name, the owner or the package. *)
Definition prefix_match (qtokens : list (list Z)) (row : Row) : Prop :=
  ∀ t, t ∈ qtokens → ∃ u, u ∈ fields_of row ∧ t `prefix_of` u.

(** A single token whose first char starts the name or its initials, of a query that has a
    score. *)
Definition fuzzy_match (query : list Z) (qtokens : list (list Z)) (row : Row) : Prop :=
  ∃ t, qtokens = [t] ∧ is_Some (score query (rw_display row)) ∧
    (head (normalize (rw_display row)) = head t ∨ head (initials (rw_display row)) = head t).

Definition matches (query : list Z) (row : Row) : Prop :=
  prefix_match (field_tokens query) row ∨ fuzzy_match query (field_tokens query) row.

(** ** Tokens *)

Lemma tokens_loop s st :
  Forall (λ t, t ≠ []) st.1 →
  let st' := foldl token_step st s in Forall (λ t, t ≠ []) st'.1.
Proof.
  revert st. induction s as [|c s IH]; intros st Hst; cbn [foldl]; [done|]. apply IH. unfold token_step.
  destruct (is_alphanumeric c); [done|]. case_bool_decide as E; cbn [negb]; [done|]. cbn [fst]. apply Forall_app. by split; [|constructor].
Qed.
Lemma tokens_nonempty s t : t ∈ field_tokens s → t ≠ [].
Proof.
  unfold field_tokens. pose proof (tokens_loop s ([], []) ltac:(constructor)) as H. cbv zeta in H. set (st := foldl _ _ s) in *.
  rewrite Forall_forall in H. case_bool_decide as E; cbn [negb]; [apply H|].
  intros [Ht| ->%list_elem_of_singleton]%elem_of_app; [by apply H|done].
Qed.

Context (Hlower : ∀ c, is_scalar c → is_scalar (to_lowercase1 c)).

Lemma tokens_wf_loop s st :
  wf_str s → Forall wf_str st.1 → wf_str st.2 →
  let st' := foldl token_step st s in Forall wf_str st'.1 ∧ wf_str st'.2.
Proof.
  intros Hs. revert st. induction Hs as [|c s Hc _ IH]; intros st H1 H2; cbn [foldl]; [done|]. apply IH; unfold token_step.
  - destruct (is_alphanumeric c); [done|]. case_bool_decide; cbn [negb fst]; [done|]. apply Forall_app. by split; [|constructor].
  - destruct (is_alphanumeric c); cbn [snd]; [apply Forall_app; split; [done|]; constructor; [by apply Hlower|constructor]|].
    case_bool_decide; cbn [negb snd]; [done|constructor].
Qed.
Lemma tokens_wf s t : wf_str s → t ∈ field_tokens s → wf_str t.
Proof.
  intros Hs. unfold field_tokens. pose proof (tokens_wf_loop s ([], []) Hs ltac:(constructor) ltac:(constructor)) as H. cbv zeta in H.
  set (st := foldl _ _ s) in *. destruct H as [H1 H2]. rewrite Forall_forall in H1. case_bool_decide; cbn [negb]; [apply H1|].
  intros [Ht| ->%list_elem_of_singleton]%elem_of_app; [by apply H1|done].
Qed.

(** ** The pulls *)

Context (ix : SearchIndex) (Hix : indexed ix).

Lemma prefix_empty_size : Z.of_nat (size (∅ : gset Z)) = 0.
Proof. by rewrite size_empty. Qed.

(** Rows number fewer than any [usize] cap. *)
Lemma rows_size (X : gset Z) : (∀ r, r ∈ X → is_Some (zget (ix_rows ix) r)) → Z.of_nat (size X) ≤ zlen (ix_rows ix).
Proof.
  intros H. assert (X ⊆ list_to_set (seqZ 0 (zlen (ix_rows ix)))) as Hsub.
  { intros r [x Hx]%H. apply zget_Some_lt in Hx. apply elem_of_list_to_set, elem_of_seqZ. lia. }
  apply subseteq_size in Hsub. rewrite size_list_to_set in Hsub by apply NoDup_seqZ. rewrite length_seqZ in Hsub.
  pose proof (zlen_nonneg (ix_rows ix)). lia.
Qed.

Definition token_rows (t : list Z) : gset Z := fill_prefix (ix_tokens ix) t ∅ (2 ^ 64 - 1).

Lemma token_rows_exact t r :
  wf_str t → r ∈ token_rows t ↔ ∃ row u, zget (ix_rows ix) r = Some row ∧ u ∈ fields_of row ∧ t `prefix_of` u.
Proof.
  intros Ht. destruct (ix_sorted _ Hix) as [Hs _], (ix_wf _ Hix) as [Hw _].
  destruct (fill_prefix_spec (ix_tokens ix) t ∅ (2 ^ 64 - 1) Ht Hw Hs) as (_ & H2 & _ & H4).
  assert (∀ r, r ∈ token_rows t → ∃ row u, zget (ix_rows ix) r = Some row ∧ u ∈ fields_of row ∧ t `prefix_of` u) as Hsound.
  { intros x [Hx|(k & Hk & Hpre)]%H2; [set_solver|]. apply (ix_token _ Hix) in Hk as (row & Hrow & Hin). by exists row, k. }
  split; [apply Hsound|]. intros (row & u & Hrow & Hu & Hpre). apply (H4) with (k := u); [|apply (ix_token _ Hix); by exists row|done].
  pose proof (rows_size (token_rows t)) as Hsz. pose proof (ix_fits _ Hix). unfold token_rows in Hsz.
  assert (Z.of_nat (size (fill_prefix (ix_tokens ix) t ∅ (2 ^ 64 - 1))) ≤ zlen (ix_rows ix)); [|lia].
  apply Hsz. intros x Hx. destruct (Hsound x Hx) as (row' & _ & Hr' & _). by eexists.
Qed.

Lemma prefix_matches_exact qtokens r :
  qtokens ≠ [] → Forall wf_str qtokens →
  r ∈ prefix_matches ix qtokens ↔ ∃ row, zget (ix_rows ix) r = Some row ∧ prefix_match qtokens row.
Proof.
  intros Hne Hw. destruct qtokens as [|t ts]; [done|]. unfold prefix_matches. fold token_rows.
  assert (∀ ts acc, r ∈ foldl (λ acc t, acc ∩ token_rows t) acc ts ↔ r ∈ acc ∧ ∀ t, t ∈ ts → r ∈ token_rows t) as Hfold.
  { clear. intros ts. induction ts as [|t ts IH]; intros acc; cbn [foldl]; [set_solver|]. rewrite IH. set_solver. }
  rewrite (Hfold ts (token_rows t)). apply Forall_cons in Hw as [Ht Hts]. rewrite Forall_forall in Hts. split.
  - intros [H1 H2]. apply token_rows_exact in H1 as (row & u & Hrow & Hu & Hp); [|done]. exists row. split; [done|].
    intros t' [->|Ht']%elem_of_cons; [by exists u|]. pose proof (H2 t' Ht') as Hx. apply token_rows_exact in Hx; [|by apply Hts].
    destruct Hx as (row' & u' & Hrow' & Hu' & Hp'). rewrite Hrow in Hrow'. injection Hrow' as <-. by exists u'.
  - intros (row & Hrow & Hm). split.
    + apply token_rows_exact; [done|]. destruct (Hm t) as (u & Hu & Hp); [by left|]. by exists row, u.
    + intros t' Ht'. apply token_rows_exact; [by apply Hts|]. destruct (Hm t') as (u & Hu & Hp); [by right|]. by exists row, u.
Qed.

Lemma take1_prefix (t k : list Z) : t ≠ [] → k ≠ [] → take 1 t `prefix_of` k ↔ head k = head t.
Proof.
  destruct t as [|c t], k as [|d k]; try done. intros _ _. cbn. split.
  - intros H%prefix_cons_inv_1. by subst.
  - intros [= ->]. apply prefix_cons, prefix_nil.
Qed.

(** The fuzzy pull stays within the cap, and below it finds every row it should. *)
Lemma fuzzy_pull_exact t :
  t ≠ [] → wf_str t →
  Z.of_nat (size (fuzzy_pull ix t)) ≤ FUZZY_CANDIDATE_CAP ∧
  (∀ r, r ∈ fuzzy_pull ix t → ∃ row, zget (ix_rows ix) r = Some row ∧
     (head (normalize (rw_display row)) = head t ∨ head (initials (rw_display row)) = head t)) ∧
  (Z.of_nat (size (fuzzy_pull ix t)) < FUZZY_CANDIDATE_CAP → ∀ r row, zget (ix_rows ix) r = Some row →
     head (normalize (rw_display row)) = head t ∨ head (initials (rw_display row)) = head t → r ∈ fuzzy_pull ix t).
Proof.
  intros Hne Hw. destruct (ix_sorted _ Hix) as (_ & Hs1 & Hs2), (ix_wf _ Hix) as (_ & Hw1 & Hw2).
  assert (wf_str (take 1 t)) as Hp by (by apply Forall_take). unfold fuzzy_pull.
  destruct (fill_prefix_spec (ix_norm_sorted ix) (take 1 t) ∅ FUZZY_CANDIDATE_CAP Hp Hw1 Hs1) as (A1 & A2 & A3 & A4).
  set (X := fill_prefix (ix_norm_sorted ix) (take 1 t) ∅ FUZZY_CANDIDATE_CAP) in *.
  destruct (fill_prefix_spec (ix_init_sorted ix) (take 1 t) X FUZZY_CANDIDATE_CAP Hp Hw2 Hs2) as (B1 & B2 & B3 & B4).
  set (Y := fill_prefix (ix_init_sorted ix) (take 1 t) X FUZZY_CANDIDATE_CAP) in *.
  rewrite prefix_empty_size in A3. unfold FUZZY_CANDIDATE_CAP in *. split; [lia|]. split.
  - intros r [Hr|(k & Hk & Hpre)]%B2.
    + apply A2 in Hr as [Hr|(k & Hk & Hpre)]; [set_solver|]. apply (ix_norm _ Hix) in Hk as (row & Hrow & -> & Hk).
      exists row. split; [done|]. left. by apply take1_prefix.
    + apply (ix_init _ Hix) in Hk as (row & Hrow & -> & Hk). exists row. split; [done|]. right. by apply take1_prefix.
  - intros Hlt r row Hrow Hh. assert (Z.of_nat (size X) ≤ Z.of_nat (size Y)) as Hxy by (apply inj_le, subseteq_size, B1).
    assert (∀ k : list Z, head k = head t → k ≠ []) as Hk by (intros k Hk ->; by destruct t).
    destruct Hh as [Hh|Hh]; pose proof (Hk _ Hh) as Hkn.
    + apply B1, (A4 ltac:(lia) (normalize (rw_display row))); [apply (ix_norm _ Hix); by exists row|by apply take1_prefix].
    + apply (B4 Hlt (initials (rw_display row))); [apply (ix_init _ Hix); by exists row|by apply take1_prefix].
Qed.
End query.
