(* ===== verification/SearchExact.v ===== *)
(** What [SearchIndex::build] makes of an opened segment: one row per search row, in that order,
    and sorted tables that hold exactly the rows' tokens, normalized names and initials. *)

From S2P Require Import Prelude RustStr StoreFormat SegReader SegExample SegValid SegSafe SegScan Search SearchScore.
From stdpp Require Import sorting.

From Stdlib Require Import Sorting.Sorted.

Open Scope Z_scope.

(** ** Decoded strings hold Unicode scalar values *)

Lemma decode_lossy_wf fuel u : Forall (λ x, 0 ≤ x < 256) u → wf_str (decode_lossy fuel u).
Proof.
  revert u. induction fuel as [|fuel IH]; intros [|u0 rest] Hu; try constructor; cbn [decode_lossy].
  destruct (utf8_step u0 rest) as [[c|] n] eqn:E; constructor; try (apply IH, Forall_drop; done).
  - by apply utf8_step_Some in E as [Hc _].
  - right. lia.
Qed.
Lemma from_utf8_lossy_wf b : wf_str (from_utf8_lossy b).
Proof. apply decode_lossy_wf, Forall_fmap, Forall_forall. intros x _. apply byte_val_range. Qed.
Lemma read_str_wf file a b : wf_str (read_str file a b).
Proof.
  unfold read_str. destruct (slice _ _ _) as [b'|]; [apply (from_utf8_lossy_wf b')|constructor].
Qed.

Section build.
Context {Htables : CharTables} (Hlower : ∀ c, is_scalar c → is_scalar (to_lowercase1 c)).

Lemma normalize_wf s : wf_str s → wf_str (normalize s).
Proof.
  intros Hs. unfold normalize. apply Forall_fmap. induction Hs as [|c s Hc _ IH]; cbn [List.filter]; [constructor|].
  destruct (is_alphanumeric c); [constructor; [by apply Hlower|done]|done].
Qed.

Lemma humps_wf s st : wf_str s → wf_str (nn st) → wf_str (nn (foldl hump_step st s)).
Proof.
  intros Hs. revert st. induction Hs as [|c s Hc _ IH]; intros st Hst; cbn [foldl]; [done|]. apply IH. unfold hump_step.
  destruct (is_alphanumeric c); [|done]. apply Forall_app. split; [done|]. constructor; [by apply Hlower|constructor].
Qed.
Lemma initials_wf s : wf_str s → wf_str (initials s).
Proof.
  intros Hs. pose proof (humps_wf s (mkHump [] [] false false false) Hs ltac:(constructor)) as Hn. unfold initials, normalized_with_humps.
  set (st := foldl _ _ s) in *. clearbody st. apply Forall_forall. intros x (e & He & Hx)%list_elem_of_omap.
  destruct e as [c h]. cbn [fst snd] in Hx. destruct h; [|done]. injection Hx as <-.
  apply elem_of_zip_l in He. unfold wf_str in Hn. rewrite Forall_forall in Hn. by apply Hn.
Qed.

(** ** The tables, before sorting *)

Definition row_wf (row : Row) : Prop := wf_str (rw_display row) ∧ wf_str (rw_owner row) ∧ wf_str (rw_package_name row).

Definition empty_index : SearchIndex := mkSearchIndex [] [] [] [] ∅.

Record tables (ix : SearchIndex) : Prop := {
  tb_wf : keys_wf (ix_tokens ix) ∧ keys_wf (ix_norm_sorted ix) ∧ keys_wf (ix_init_sorted ix);
  tb_token t r : (t, r) ∈ ix_tokens ix ↔ ∃ row, zget (ix_rows ix) r = Some row ∧ t ∈ fields_of row;
  tb_norm k r : (k, r) ∈ ix_norm_sorted ix ↔ ∃ row, zget (ix_rows ix) r = Some row ∧ k = normalize (rw_display row) ∧ k ≠ [];
  tb_init k r : (k, r) ∈ ix_init_sorted ix ↔ ∃ row, zget (ix_rows ix) r = Some row ∧ k = initials (rw_display row) ∧ k ≠ [];
  tb_display d : d ∈ ix_display_set ix ↔ d ≠ [] ∧ ∃ r row, zget (ix_rows ix) r = Some row ∧ rw_display row = d
}.

Lemma tables_empty : tables empty_index.
Proof.
  assert (∀ A r, zget (@nil A) r = None) as Hn by (intros A r; unfold zget; by destruct (0 <=? r)).
  split; cbn [empty_index ix_rows ix_tokens ix_norm_sorted ix_init_sorted ix_display_set].
  - split_and!; intros e He; by apply elem_of_nil in He.
  - intros t r. rewrite elem_of_nil. split; [done|]. intros (row & H & _). by rewrite Hn in H.
  - intros t r. rewrite elem_of_nil. split; [done|]. intros (row & H & _). by rewrite Hn in H.
  - intros t r. rewrite elem_of_nil. split; [done|]. intros (row & H & _). by rewrite Hn in H.
  - intros d. split; [set_solver|]. intros (_ & r & row & H & _). by rewrite Hn in H.
Qed.

(** One table with an entry per row, when the key is not empty. *)
Lemma keyed_snoc (key : Row → list Z) (l : list (list Z * Z)) (rows : list Row) x :
  keys_wf l → wf_str (key x) →
  (∀ k r, (k, r) ∈ l ↔ ∃ row, zget rows r = Some row ∧ k = key row ∧ k ≠ []) →
  let l' := if negb (bool_decide (key x = [])) then l ++ [(key x, zlen rows)] else l in
  keys_wf l' ∧ ∀ k r, (k, r) ∈ l' ↔ ∃ row, zget (rows ++ [x]) r = Some row ∧ k = key row ∧ k ≠ [].
Proof.
  intros Hw Hx Hl. cbv zeta. case_bool_decide as E; cbn [negb].
  - split; [done|]. intros k r. rewrite Hl. split.
    + intros (row & Hr & Hk). exists row. rewrite zget_snoc. auto.
    + intros (row & [Hr|[-> ->]]%zget_snoc & -> & Hk); [by exists row|done].
  - split; [intros e [He| ->%list_elem_of_singleton]%elem_of_app; [by apply Hw|done]|].
    intros k r. rewrite elem_of_app, Hl, list_elem_of_singleton. split.
    + intros [(row & Hr & Hk)|[= -> ->]]; [exists row; rewrite zget_snoc; auto|exists x; rewrite zget_snoc; auto].
    + intros (row & [Hr|[-> ->]]%zget_snoc & -> & Hk); [left; by exists row|by right].
Qed.

Lemma row_tokens_elem (x : Row) (n : Z) (t : list Z) (r : Z) :
  (t, r) ∈ concat ((λ field, (λ tok, (tok, n)) <$> field_tokens field) <$> [rw_display x; rw_owner x; rw_package_name x]) ↔
  r = n ∧ t ∈ fields_of x.
Proof.
  cbn [fmap list_fmap concat]. unfold fields_of. rewrite app_nil_r, !elem_of_app, !list_elem_of_fmap. naive_solver.
Qed.

Lemma tables_add ix x : zlen (ix_rows ix) < 2 ^ 32 → row_wf x → tables ix → tables (add_row ix x).
Proof.
  intros Hn (Hd & Ho & Hp) [(Hw1 & Hw2 & Hw3) Ht Hnorm Hinit Hdis]. unfold add_row.
  replace (as_u32 (zlen (ix_rows ix))) with (zlen (ix_rows ix))
    by (unfold as_u32; rewrite wrapU_id; [done|]; pose proof (zlen_nonneg (ix_rows ix)); split; lia).
  destruct (keyed_snoc (λ r, normalize (rw_display r)) _ _ x Hw2 (normalize_wf _ Hd) Hnorm) as [Hw2' Hnorm'].
  destruct (keyed_snoc (λ r, initials (rw_display r)) _ _ x Hw3 (initials_wf _ Hd) Hinit) as [Hw3' Hinit'].
  split; cbn [ix_rows ix_tokens ix_norm_sorted ix_init_sorted ix_display_set]; [split_and!| | | |]; [|done|done| |done|done|].
  - intros [t r] [He|[_ He]%row_tokens_elem]%elem_of_app; [by apply Hw1|].
    unfold fields_of in He. rewrite !elem_of_app in He. cbn [fst]. destruct He as [He|[He|He]]; by apply (tokens_wf Hlower _ t) in He.
  - intros t r. rewrite elem_of_app, Ht, row_tokens_elem. split.
    + intros [(row & Hr & Hf)|[-> Hf]]; [exists row|exists x]; rewrite zget_snoc; auto.
    + intros (row & [Hr|[-> ->]]%zget_snoc & Hf); [left; by exists row|by right].
  - clear Hw2' Hnorm' Hw3' Hinit'. intros d. case_bool_decide as E; cbn [negb]; [|rewrite elem_of_union, elem_of_singleton]; rewrite Hdis; split.
    + intros (Hne & r & row & Hr & Hrow). split; [done|]. exists r, row. rewrite zget_snoc. auto.
    + intros (Hne & r & row & [Hr|[-> ->]]%zget_snoc & <-); [|done]. split; [done|]. by exists r, row.
    + intros [->|(Hne & r & row & Hr & Hrow)]; (split; [done|]); [exists (zlen (ix_rows ix)), x|exists r, row]; rewrite zget_snoc; auto.
    + intros (Hne & r & row & [Hr|[-> ->]]%zget_snoc & <-); [right; split; [done|]; by exists r, row|by left].
Qed.

Lemma add_rows l ix :
  zlen (ix_rows ix) + zlen l ≤ 2 ^ 32 → Forall row_wf l → tables ix →
  tables (foldl add_row ix l) ∧ ix_rows (foldl add_row ix l) = ix_rows ix ++ l.
Proof.
  revert ix. induction l as [|x l IH]; intros ix Hn Hw Ht; cbn [foldl]; [by rewrite app_nil_r|].
  apply Forall_cons in Hw as [Hx Hw]. rewrite zlen_cons in Hn. pose proof (zlen_nonneg l).
  assert (zlen (ix_rows ix) < 2 ^ 32) as Hlt by lia.
  destruct (IH (add_row ix x)) as [H1 H2]; [|done|by apply tables_add|].
  - change (ix_rows (add_row ix x)) with (ix_rows ix ++ [x]). rewrite zlen_app. change (zlen [x]) with 1. lia.
  - split; [done|]. rewrite H2. change (ix_rows (add_row ix x)) with (ix_rows ix ++ [x]). by rewrite <- app_assoc.
Qed.

(** Sorting the three tables makes an index. *)
Lemma indexed_rows rows :
  zlen rows ≤ 2 ^ 32 → Forall row_wf rows →
  indexed (sorted_index (foldl add_row empty_index rows)) ∧ ix_rows (sorted_index (foldl add_row empty_index rows)) = rows.
Proof.
  intros Hn Hw. destruct (add_rows rows empty_index Hn Hw tables_empty) as [Ht Hr].
  change (ix_rows empty_index ++ rows) with rows in Hr. set (ix := foldl add_row empty_index rows) in *.
  destruct Ht as [(Hw1 & Hw2 & Hw3) Ht Hnorm Hinit Hdis]. split; [|done].
  assert (∀ l, keys_wf l → keys_wf (sort_entries l)) as Hkw by (intros l Hl e He; apply Hl; by apply elem_of_sort_by in He).
  split; cbn [sorted_index ix_rows ix_tokens ix_norm_sorted ix_init_sorted ix_display_set].
  - by rewrite Hr.
  - split_and!; apply sort_entries_sorted.
  - split_and!; by apply Hkw.
  - intros t r. unfold sort_entries. by rewrite elem_of_sort_by, Ht.
  - intros t r. unfold sort_entries. by rewrite elem_of_sort_by, Hnorm.
  - intros t r. unfold sort_entries. by rewrite elem_of_sort_by, Hinit.
  - done.
Qed.

(** ** Reading the rows of an opened segment *)

Context (s : SegmentReader).

(** The rows, in search-row order. *)
Definition resolved_rows (n : Z) : option (list Row) :=
  mapM (λ i, row ← search_row s i; resolve_row s row.2) (seqZ 0 n).

Lemma resolve_row_wf sym row : resolve_row s sym = Some row → row_wf row ∧ rw_symbol_ord row = as_u32 sym.
Proof.
  unfold resolve_row. intros H. apply bind_Some in H as (m & Em & H). do 3 (apply bind_Some in H as (? & _ & H)). injection H as <-.
  split; [|done]. unfold rd_symbol_meta in Em. do 5 (apply bind_Some in Em as (? & _ & Em)). injection Em as <-.
  unfold row_wf. split_and!; apply read_str_wf.
Qed.

Lemma symbol_view_inv sym v : symbol_view s sym = Some v → inS 32 (sv_def_target_ord v).
Proof.
  unfold symbol_view. intros H. do 3 (apply bind_Some in H as (? & _ & H)). apply bind_Some in H as (t & Ht & H). injection H as <-.
  by apply read_i32_Some in Ht as (_ & _ & Ht).
Qed.
Lemma search_row_inv i name sym : search_row s i = Some (name, sym) → inS 32 sym.
Proof.
  unfold search_row. intros H. apply bind_Some in H as (? & _ & H). apply bind_Some in H as (t & Ht & H). injection H as _ <-.
  by apply read_i32_Some in Ht as (_ & _ & Ht).
Qed.

Lemma resolve_row_total sym : serves s → 0 ≤ sym < symbol_count s → is_Some (resolve_row s sym).
Proof.
  intros Hs Hsym. destruct (sv_symbol _ Hs sym Hsym) as (_ & (v & Ev & _ & _ & Ht) & m & Em & Hd).
  unfold resolve_row. rewrite Em. cbn [mbind option_bind]. rewrite Ev. cbn [mbind option_bind].
  assert (is_Some (if (0 <=? def_doc_ord m) && (as_u32 (def_doc_ord m) <? doc_count s)
            then doc_id_of s (as_u32 (def_doc_ord m)) else Some (-1))) as [d ->].
  { destruct (_ && _) eqn:E; [|by eexists]. apply andb_true_iff in E as [_ E%Z.ltb_lt].
    apply (sv_doc _ Hs). split; [apply (wrapU_range 32); lia|done]. }
  assert (is_Some (if (0 <=? sv_def_target_ord v) && (sv_def_target_ord v <? target_count s)
            then target_id_of s (as_u32 (sv_def_target_ord v)) else Some (-1))) as [t ->].
  { destruct (_ && _) eqn:E; [|by eexists]. apply andb_true_iff in E as [E1%Z.leb_le E%Z.ltb_lt].
    pose proof (symbol_view_inv sym v Ev) as Hr. unfold as_u32. rewrite wrapU_id by (unfold inU, inS in *; lia).
    by apply (sv_target _ Hs). }
  by eexists.
Qed.

(** The loop of [build] adds the resolved rows, in order. *)
Lemma build_loop idxs ix rows :
  serves s → (∀ i, i ∈ idxs → ∃ name sym, search_row s i = Some (name, sym) ∧ 0 ≤ sym < symbol_count s) →
  mapM (λ i, row ← search_row s i; resolve_row s row.2) idxs = Some rows →
  fold_opt (add_search_row s) ix idxs = Some (foldl add_row ix rows).
Proof.
  intros Hs. revert ix rows. induction idxs as [|i idxs IH]; intros ix rows Hin; [by intros [= <-]|].
  intros H. cbn [mapM] in H. apply bind_Some in H as (row & Hi & H). apply bind_Some in H as (rest & Hrest & H). injection H as <-.
  destruct (Hin i ltac:(by left)) as (name & sym & Er & Hsym).
  rewrite Er in Hi. cbn [mbind option_bind snd] in Hi.
  assert (add_search_row s ix i = Some (add_row ix row)) as Ea.
  { unfold add_search_row. rewrite Er. cbn [mbind option_bind snd]. rewrite Hi.
    rewrite (proj2 (Z.ltb_ge sym 0)), (proj2 (Z.leb_gt (symbol_count s) sym)) by lia. done. }
  cbn [fold_opt foldl]. rewrite Ea. cbn [mbind option_bind]. apply IH; [|done]. intros j Hj. apply Hin. by right.
Qed.

Lemma rows_resolve n :
  serves s → search_row_count s = Some n →
  ∃ rows, resolved_rows n = Some rows ∧ zlen rows = n ∧ Forall row_wf rows ∧ index_build s = Some (sorted_index (foldl add_row empty_index rows)).
Proof.
  intros Hs Hn. destruct (sv_search _ Hs) as (n' & Hn' & Hpos & Hrows). rewrite Hn in Hn'. injection Hn' as <-.
  destruct (resolved_rows n) as [rows|] eqn:E.
  2:{ exfalso. apply eq_None_not_Some in E. apply E, mapM_is_Some_2, Forall_forall. intros i Hi%elem_of_seqZ_0.
      destruct (Hrows i Hi) as (name & sym & Er & Hsym). change (is_Some (row ← search_row s i; resolve_row s row.2)).
      rewrite Er. by apply resolve_row_total. }
  exists rows. split; [done|]. pose proof E as Hm. unfold resolved_rows in Hm. apply mapM_Some in Hm. split_and!.
  - unfold zlen. rewrite <- (Forall2_length _ _ _ Hm), length_seqZ. lia.
  - apply Forall_forall. intros row Hrow. destruct (Forall2_elem_of_r _ _ _ _ Hm Hrow) as (i & _ & Hi).
    apply bind_Some in Hi as (r & _ & Hi). by apply resolve_row_wf in Hi as [? _].
  - unfold index_build. rewrite Hn. cbn [mbind option_bind]. rewrite Z.max_l by lia. fold empty_index.
    rewrite (build_loop _ _ rows Hs); [done| |done]. intros i Hi%elem_of_seqZ_0. by apply Hrows.
Qed.

Lemma resolved_by_symbol n rows r r' row row' :
  serves s → search_row_count s = Some n → resolved_rows n = Some rows →
  zget rows r = Some row → zget rows r' = Some row' → rw_symbol_ord row = rw_symbol_ord row' → row = row'.
Proof.
  intros Hs Hn E Hr Hr' Heq. destruct (sv_search _ Hs) as (n' & Hn' & Hpos & Hrows). rewrite Hn in Hn'. injection Hn' as <-.
  apply mapM_Some in E. assert (∀ row, row ∈ rows → ∃ sym, 0 ≤ sym < 2 ^ 32 ∧ resolve_row s sym = Some row) as Hall.
  { intros x Hx. destruct (Forall2_elem_of_r _ _ _ _ E Hx) as (i & Hi%elem_of_seqZ_0 & Hf).
    destruct (Hrows i Hi) as (name & sym & Er & Hsym). pose proof (search_row_inv _ _ _ Er) as Hrange. rewrite Er in Hf.
    exists sym. split; [unfold inS in Hrange; lia|done]. }
  destruct (Hall row) as (a & Ha & Ra); [by eapply zget_elem_of|]. destruct (Hall row') as (b & Hb & Rb); [by eapply zget_elem_of|].
  pose proof (proj2 (resolve_row_wf _ _ Ra)) as Ea. pose proof (proj2 (resolve_row_wf _ _ Rb)) as Eb.
  rewrite Ea, Eb in Heq. unfold as_u32 in Heq. rewrite !wrapU_id in Heq by (split; lia). subst b. rewrite Ra in Rb. by injection Rb.
Qed.
End build.

(** ** The property *)

(** C30. Building the index of an opened segment always succeeds: it has one row per search row,
    in that order, each resolved from the symbol's own entries; its three tables are sorted and
    hold exactly the tokens, the normalized names and the initials of the rows under the row's
    number; and the existence check answers exactly whether a row has that display name. *)
Theorem index_build_sound {Htables : CharTables} (crc32c : bytes → Z) {Hdebug : DebugStr} read_file dir s :
  (∀ c, is_scalar c → is_scalar (to_lowercase1 c)) →
  (∀ p b, read_file p = Found b → zlen b < 2 ^ 63) →
  reader_open crc32c read_file dir = Ok s →
  (∀ n, search_row_count s = Some n → n ≤ 2 ^ 32) →
  ∃ n ix, search_row_count s = Some n ∧ index_build s = Some ix ∧
    resolved_rows s n = Some (ix_rows ix) ∧ indexed ix ∧ rows_by_symbol ix ∧
    ∀ name, workspace_symbol_name_exists ix name = true ↔ name ≠ [] ∧ ∃ row, row ∈ ix_rows ix ∧ rw_display row = name.
Proof.
  intros Hlower Hfit Hopen Hcap. destruct (reader_open_valid _ _ Hfit _ _ Hopen) as [z Hz]. apply valid_serves in Hz as Hs.
  destruct (sv_search _ Hs) as (n & Hn & _ & _). destruct (rows_resolve s n Hs Hn) as (rows & Hr & Hlen & Hw & Hb).
  destruct (indexed_rows Hlower rows) as [Hix Eix]; [rewrite Hlen; by apply Hcap|done|].
  set (ix := sorted_index (foldl add_row empty_index rows)) in *. exists n, ix. split; [done|]. split; [done|].
  split; [by rewrite Eix|]. split; [done|]. split.
  - intros r r' row row'. rewrite Eix. by apply (resolved_by_symbol s n rows).
  - intros name. unfold workspace_symbol_name_exists. rewrite andb_true_iff, negb_true_iff, bool_decide_eq_true, bool_decide_eq_false.
    rewrite (ix_display _ Hix). split.
    + intros (Hne & _ & r & row & H & <-). split; [done|]. exists row. split; [by eapply zget_elem_of|done].
    + intros (Hne & row & [r H]%elem_of_zget & <-). do 2 (split; [done|]). by exists r, row.
Qed.

(** On the segment of [SegExample]. *)
Lemma ascii_lower_scalar c : is_scalar c → is_scalar (@to_lowercase1 ascii_tables c).
Proof. intros Hc. cbn. unfold ascii_to_lowercase, ascii_upper, is_scalar in *. destruct (_ && _) eqn:E; [|done]. lia. Qed.


Lemma index_build_sound_witness : ∃ s ix, opened = Ok s ∧ index_build (H := ascii_tables) s = Some ix ∧ zlen (ix_rows ix) = 3 ∧
  workspace_symbol_name_exists ix (lit "m") = true.
Proof.
  destruct opened_Ok as (s & Hs & _).
  assert (search_row_count s = Some 3) as Hn.
  { assert (match opened with Ok s => bool_decide (search_row_count s = Some 3) | Err _ => false end = true) as H by (vm_compute; reflexivity).
    unfold opened in H. rewrite Hs in H. exact (proj1 (bool_decide_eq_true _) H). }
  destruct (@index_build_sound ascii_tables sum_crc plain_debug small_dir (lit "seg") s ascii_lower_scalar small_dir_fits Hs) as (n & ix & Hn' & Hb & Hr & _ & _ & Hx).
  { intros n Hn'. rewrite Hn in Hn'. injection Hn' as <-. lia. }
  rewrite Hn in Hn'. injection Hn' as <-. exists s, ix. split; [exact Hs|]. split; [exact Hb|].
  assert (match opened with
          | Ok s => match @index_build ascii_tables s with
                    | Some ix => bool_decide (zlen (ix_rows ix) = 3) && workspace_symbol_name_exists ix (lit "m")
                    | None => false end
          | Err _ => false end = true) as H by (vm_compute; reflexivity).
  unfold opened in H. rewrite Hs, Hb in H. apply andb_true_iff in H as [H1 H2]. split; [exact (proj1 (bool_decide_eq_true _) H1)|exact H2].
Defined.

(** The query is exact and deterministic. *)

From Stdlib Require Import Sorting.Sorted.

Open Scope Z_scope.

Section exact.
Context {Htables : CharTables} (Hlower : ∀ c, is_scalar c → is_scalar (to_lowercase1 c)).
Context (ix : SearchIndex) (Hix : indexed ix) (query : list Z) (Hquery : wf_str query).

(** ** The candidates *)

Definition score_at (r : Z) (s : option Z) : Prop :=
  ∃ row, zget (ix_rows ix) r = Some row ∧ s = score query (rw_display row).

Lemma score_at_fun r s s' : score_at r s → score_at r s' → s = s'.
Proof. intros (row & E & ->) (row' & E' & ->). rewrite E in E'. by injection E' as <-. Qed.

Lemma row_score_at r row : zget (ix_rows ix) r = Some row → ∃ s, row_score ix query r = Some s ∧ score_at r s.
Proof. intros E. unfold row_score. rewrite E. eexists. split; [done|]. by exists row. Qed.

Lemma add_matches l cand0 :
  (∀ r, r ∈ l → is_Some (zget (ix_rows ix) r)) → (∀ r s, cand0 !! r = Some s → score_at r s) →
  ∃ cand, fold_opt (add_match ix query) cand0 l = Some cand ∧
    ∀ r s, cand !! r = Some s ↔ cand0 !! r = Some s ∨ (r ∈ l ∧ score_at r s).
Proof.
  revert cand0. induction l as [|x l IH]; intros cand0 Hl Hc; cbn [fold_opt].
  { exists cand0. split; [done|]. intros r s. split; [by left|]. intros [?|[?%elem_of_nil _]]; done. }
  destruct (Hl x) as [row Hrow]; [left|]. destruct (row_score_at x row Hrow) as (sx & Ex & Hsx).
  assert (add_match ix query cand0 x = Some (<[x:=sx]> cand0)) as -> by (unfold add_match; by rewrite Ex).
  cbn [mbind option_bind].
  destruct (IH (<[x:=sx]> cand0)) as (cand & E & Hcand).
  { intros r Hr. apply Hl. by right. }
  { intros r s. destruct (decide (r = x)) as [->|Hne]; [rewrite lookup_insert_eq; by intros [= <-]|].
    rewrite lookup_insert_ne by done. apply Hc. }
  exists cand. split; [done|]. intros r s. rewrite Hcand. destruct (decide (r = x)) as [->|Hne].
  - rewrite lookup_insert_eq. split.
    + intros [[= <-]|[Hr Hs]]; [right; split; [left|done]|right; split; [left|done]].
    + intros [Hs%Hc|[_ Hs]]; left; f_equal; by eapply score_at_fun.
  - rewrite lookup_insert_ne by done. rewrite elem_of_cons. naive_solver.
Qed.

Lemma add_fuzzies l cand0 :
  (∀ r, r ∈ l → is_Some (zget (ix_rows ix) r)) → (∀ r s, cand0 !! r = Some s → score_at r s) →
  ∃ cand, fold_opt (add_fuzzy ix query) cand0 l = Some cand ∧
    ∀ r s, cand !! r = Some s ↔ cand0 !! r = Some s ∨ (r ∈ l ∧ score_at r s ∧ is_Some s).
Proof.
  revert cand0. induction l as [|x l IH]; intros cand0 Hl Hc; cbn [fold_opt].
  { exists cand0. split; [done|]. intros r s. split; [by left|]. intros [?|[?%elem_of_nil _]]; done. }
  destruct (Hl x) as [row Hrow]; [left|]. destruct (row_score_at x row Hrow) as (sx & Ex & Hsx).
  assert (∃ cand1, add_fuzzy ix query cand0 x = Some cand1 ∧
    (∀ r s, cand1 !! r = Some s ↔ cand0 !! r = Some s ∨ (r = x ∧ score_at r s ∧ is_Some s))) as (cand1 & E1 & Hcand1).
  { unfold add_fuzzy. destruct (cand0 !! x) as [s0|] eqn:E0.
    - exists cand0. split; [done|]. intros r s. split; [by left|]. intros [?|(-> & Hs & _)]; [done|].
      rewrite E0. f_equal. apply Hc in E0. by eapply score_at_fun.
    - rewrite Ex. cbn [mbind option_bind]. destruct sx as [v|].
      + eexists. split; [done|]. intros r s. destruct (decide (r = x)) as [->|Hne].
        * rewrite lookup_insert_eq, E0. split; [intros [= <-]; right; by eauto|].
          intros [?|(_ & Hs & _)]; [done|]. f_equal. by eapply score_at_fun.
        * rewrite lookup_insert_ne by done. naive_solver.
      + exists cand0. split; [done|]. intros r s. split; [by left|]. intros [?|(-> & Hs & [v Hv])]; [done|].
        pose proof (score_at_fun _ _ _ Hs Hsx). congruence. }
  rewrite E1. cbn [mbind option_bind]. destruct (IH cand1) as (cand & E & Hcand).
  { intros r Hr. apply Hl. by right. }
  { intros r s [Hr|(_ & Hr & _)]%Hcand1; [by apply Hc|done]. }
  exists cand. split; [done|]. intros r s. rewrite Hcand, Hcand1, elem_of_cons. naive_solver.
Qed.

Lemma query_tokens_wf : Forall wf_str (field_tokens query).
Proof. apply Forall_forall. intros t. by apply tokens_wf. Qed.

(** Below the cap the candidates are the matching rows, with their scores. *)
Lemma candidates_exact limit :
  field_tokens query ≠ [] → limit ≠ 0 → fuzzy_candidate_count ix query limit < FUZZY_CANDIDATE_CAP →
  ∃ cand, candidates ix query (field_tokens query) = Some cand ∧
    ∀ r s, cand !! r = Some s ↔ ∃ row, zget (ix_rows ix) r = Some row ∧ s = score query (rw_display row) ∧ matches query row.
Proof.
  intros Hne Hlim Hcap. unfold candidates. pose proof query_tokens_wf as Hw.
  assert (∀ r, r ∈ prefix_matches ix (field_tokens query) ↔ ∃ row, zget (ix_rows ix) r = Some row ∧ prefix_match (field_tokens query) row) as Hpm
    by (intros r; by apply prefix_matches_exact).
  destruct (add_matches (elements (prefix_matches ix (field_tokens query))) ∅) as (cand1 & E1 & Hc1).
  { intros r (row & Hrow & _)%elem_of_elements%Hpm. by eexists. }
  { intros r s. by rewrite lookup_empty. }
  rewrite E1. cbn [mbind option_bind].
  assert (∀ r s, cand1 !! r = Some s ↔ ∃ row, zget (ix_rows ix) r = Some row ∧ s = score query (rw_display row) ∧
            prefix_match (field_tokens query) row) as Hc1'.
  { intros r s. rewrite Hc1, lookup_empty, elem_of_elements, Hpm. unfold score_at. split.
    - intros [?|[(row & Hrow & Hm) (row' & Hrow' & ->)]]; [done|]. rewrite Hrow in Hrow'. injection Hrow' as <-. by exists row.
    - intros (row & Hrow & -> & Hm). right. split; by exists row. }
  assert ((∃ t, field_tokens query = [t]) ∨ ∀ t, field_tokens query ≠ [t]) as [[t Et]|Hmany].
  { destruct (field_tokens query) as [|t [|]]; [by right|left; by exists t|by right]. }
  - rewrite Et in *. unfold fuzzy_candidate_count in Hcap. rewrite Et in Hcap. rewrite (proj2 (Z.eqb_neq limit 0) Hlim) in Hcap.
    destruct (fuzzy_pull_exact ix Hix t) as (_ & Hp1 & Hp2).
    { apply (tokens_nonempty query). rewrite Et. by left. }
    { by apply Forall_cons in Hw as [? _]. }
    destruct (add_fuzzies (elements (fuzzy_pull ix t)) cand1) as (cand & E & Hc).
    { intros r (row & Hrow & _)%elem_of_elements%Hp1. by eexists. }
    { intros r s (row & Hrow & -> & _)%Hc1'. by exists row. }
    exists cand. split; [done|]. intros r s. rewrite Hc, Hc1', elem_of_elements. unfold matches. rewrite Et. split.
    + intros [(row & Hrow & -> & Hm)|(Hr & (row & Hrow & ->) & Hs)]; exists row; (split; [done|]); (split; [done|]); [by left|right].
      exists t. split; [done|]. split; [done|]. destruct (Hp1 r Hr) as (row' & Hrow' & Hh). rewrite Hrow in Hrow'. by injection Hrow' as <-.
    + intros (row & Hrow & -> & [Hm|(t' & [= <-] & Hs & Hh)]); [left; by exists row|right].
      split; [by apply (Hp2 Hcap r row)|]. split; [by exists row|done].
  - assert (match field_tokens query with [token] => fold_opt (add_fuzzy ix query) cand1 (elements (fuzzy_pull ix token)) | _ => Some cand1 end = Some cand1) as ->.
    { destruct (field_tokens query) as [|t [|]]; [done|by destruct (Hmany t)|done]. }
    exists cand1. split; [done|]. intros r s. rewrite Hc1'. unfold matches, fuzzy_match. split.
    + intros (row & Hrow & -> & Hm). exists row. auto.
    + intros (row & Hrow & -> & [Hm|(t & Ht & _)]); [by exists row|by destruct (Hmany t)].
Qed.

(** ** Ranking *)

Definition rank_leb (a b : Z * Row * option Z) : bool := lex_leb (rank_key a) (rank_key b).
Definition ranked_by (L : list (Z * Row * option Z)) : Prop := StronglySorted (λ a b, rank_leb a b = true) L.

Definition ranks (L : list (Z * Row * option Z)) : Prop :=
  NoDup L ∧ ∀ r row s, (r, row, s) ∈ L ↔ zget (ix_rows ix) r = Some row ∧ s = score query (rw_display row) ∧ matches query row.

Lemma ranked_list (cand : gmap Z (option Z)) l :
  l ≡ₚ map_to_list cand →
  (∀ r s, cand !! r = Some s ↔ ∃ row, zget (ix_rows ix) r = Some row ∧ s = score query (rw_display row) ∧ matches query row) →
  ∃ L, mapM (λ e : Z * option Z, row ← zget (ix_rows ix) e.1; Some (e.1, row, e.2)) l = Some L ∧ ranks L.
Proof.
  intros Hl Hc. set (f := λ e : Z * option Z, row ← zget (ix_rows ix) e.1; Some (e.1, row, e.2)).
  assert (∀ e, e ∈ l ↔ ∃ row, zget (ix_rows ix) e.1 = Some row ∧ e.2 = score query (rw_display row) ∧ matches query row) as Hmem.
  { intros [r s]. rewrite Hl, elem_of_map_to_list. apply Hc. }
  destruct (mapM f l) as [L|] eqn:E.
  2:{ exfalso. apply eq_None_not_Some in E. apply E. apply mapM_is_Some_2, Forall_forall.
      intros e (row & Hrow & _)%Hmem. change (is_Some (f e)). unfold f. rewrite Hrow. by eexists. }
  exists L. split; [done|]. apply mapM_Some in E. split.
  - assert ((λ x : Z * Row * option Z, (x.1.1, x.2)) <$> L = l) as El.
    { clear -E. induction E as [|e x l L Hx _ IH]; [done|]. cbn [fmap list_fmap]. rewrite IH. f_equal. unfold f in Hx.
      destruct (zget _ _); [|done]. injection Hx as <-. by destruct e. }
    apply (NoDup_fmap_1 (λ x : Z * Row * option Z, (x.1.1, x.2))). rewrite El, Hl. apply NoDup_map_to_list.
  - intros r row s. split.
    + intros Hin. destruct (Forall2_elem_of_r _ _ _ _ E Hin) as (e & He & Hx). unfold f in Hx.
      destruct (zget (ix_rows ix) e.1) as [row'|] eqn:Er; [|done]. injection Hx as <- <- <-.
      apply Hmem in He as (row & Hrow & Hs & Hm). rewrite Er in Hrow. by injection Hrow as <-.
    + intros (Hrow & -> & Hm). assert ((r, score query (rw_display row)) ∈ l) as He by (apply Hmem; by exists row).
      destruct (Forall2_elem_of_l _ _ _ _ E He) as (x & Hx & Hf). unfold f in Hf. cbn [fst snd] in Hf. rewrite Hrow in Hf. by injection Hf as <-.
Qed.

Lemma rank_leb_total a b : rank_leb a b = true ∨ rank_leb b a = true.
Proof. apply lex_leb_total. Qed.
Lemma rank_leb_trans a b c : rank_leb a b = true → rank_leb b c = true → rank_leb a c = true.
Proof. apply lex_leb_trans. Qed.

Lemma ranks_sorted L : ranks L → ranks (sort_by rank_leb L) ∧ ranked_by (sort_by rank_leb L).
Proof.
  intros [Hnd Hm]. split; [split|].
  - by rewrite sort_by_perm.
  - intros r row s. by rewrite elem_of_sort_by.
  - apply sort_by_sorted; [apply rank_leb_total|apply rank_leb_trans].
Qed.

Lemma ranks_unique L L' :
  rows_by_symbol ix → ranks L → ranked_by L → ranks L' → ranked_by L' →
  (λ e : Z * Row * option Z, hit e.1.2) <$> L = (λ e : Z * Row * option Z, hit e.1.2) <$> L'.
Proof.
  intros Hsym [Hnd Hm] Hs [Hnd' Hm'] Hs'. set (g := λ e : Z * Row * option Z, (rank_key e, hit e.1.2)).
  assert (L ≡ₚ L') as Hperm by (apply NoDup_Permutation; [done|done|]; intros [[r row] s]; by rewrite Hm, Hm').
  assert (g <$> L = g <$> L') as Hg.
  { apply (StronglySorted_unique_strong (λ a b : list Z * WorkspaceSymbolHit, lex_leb a.1 b.1 = true)).
    - intros x y (e & -> & He)%list_elem_of_fmap (e' & -> & He')%list_elem_of_fmap H1 H2. cbn [fst g] in H1, H2.
      pose proof (lex_leb_antisym _ _ H1 H2) as Hk. unfold g. f_equal; [done|]. f_equal.
      destruct e as [[r row] s], e' as [[r' row'] s']. apply Hm in He as (Hr & _). apply Hm' in He' as (Hr' & _).
      cbn [fst snd]. unfold rank_key in Hk. cbn [fst snd] in Hk. injection Hk as _ _ Hk. by eapply Hsym.
    - by apply (sorted_fmap g _ _ _ (λ x y H, H)).
    - by apply (sorted_fmap g _ _ _ (λ x y H, H)).
    - by rewrite Hperm. }
  apply (f_equal (fmap snd)) in Hg. rewrite <- !list_fmap_compose in Hg. exact Hg.
Qed.
End exact.

(** ** The property *)

(** C29. The search is exact. For every query with a token, the result is the first [limit] hits
    of a list that holds every matching row once, with its score, ordered by score (the
    unscored last) and then by symbol ordinal; a row matches when each token is a prefix of a
    token of its name, owner or package, or when the query is a single token, has a fuzzy
    score, and starts like the normalized name or its initials. This holds while the fuzzy pull
    stays below its cap, which it never exceeds, and the result does not depend on the order
    in which the hash map is iterated. *)
Theorem search_exact {Htables : CharTables} ix query limit into_iter into_iter' :
  (∀ c, is_scalar c → is_scalar (to_lowercase1 c)) → indexed ix → wf_str query →
  (∀ m, into_iter m ≡ₚ map_to_list m) → (∀ m, into_iter' m ≡ₚ map_to_list m) →
  0 < limit → field_tokens query ≠ [] →
  fuzzy_candidate_count ix query limit ≤ FUZZY_CANDIDATE_CAP ∧
  (fuzzy_candidate_count ix query limit < FUZZY_CANDIDATE_CAP →
   (∃ L, ranks ix query L ∧ ranked_by L ∧
      workspace_symbol_search into_iter ix query limit = Some (take (Z.to_nat limit) ((λ e, hit e.1.2) <$> L))) ∧
   (rows_by_symbol ix → workspace_symbol_search into_iter ix query limit = workspace_symbol_search into_iter' ix query limit)).
Proof.
  intros Hlower Hix Hq Hit Hit' Hlim Hne. split.
  - unfold fuzzy_candidate_count. destruct (field_tokens query) as [|t [|]] eqn:Et; [done| |done].
    destruct (limit =? 0); [done|]. apply (fuzzy_pull_exact ix Hix t).
    + apply (tokens_nonempty query). rewrite Et. by left.
    + apply (tokens_wf Hlower query); [done|]. rewrite Et. by left.
  - intros Hcap. destruct (candidates_exact Hlower ix Hix query Hq limit Hne ltac:(lia) Hcap) as (cand & Ec & Hc).
    destruct (ranked_list ix query cand (into_iter cand) (Hit cand) Hc) as (L & EL & HL).
    destruct (ranked_list ix query cand (into_iter' cand) (Hit' cand) Hc) as (L' & EL' & HL').
    destruct (ranks_sorted ix query L HL) as [H1 H2], (ranks_sorted ix query L' HL') as [H1' H2'].
    unfold workspace_symbol_search. rewrite bool_decide_false by done. rewrite (proj2 (Z.eqb_neq limit 0)) by lia. cbn [orb].
    rewrite Ec. cbn [mbind option_bind]. rewrite EL, EL'. cbn [mbind option_bind]. split.
    + by exists (sort_by rank_leb L).
    + intros Hsym. do 2 f_equal. by apply (ranks_unique ix query).
Qed.

(** Three symbols: one fuzzy match, one prefix match and one that matches nothing. *)
Definition example_row (ord : Z) (display : list Z) : Row := mkRow ord display (lit "o/") (lit "pkg") 13 0 0 ord 1 1.
Definition example_rows : list Row :=
  [example_row 0 (lit "workspaceSymbol"); example_row 1 (lit "wSync"); example_row 2 (lit "Other")].
Definition example_index : SearchIndex := sorted_index (foldl (@add_row ascii_tables) empty_index example_rows).

Lemma example_indexed : @indexed ascii_tables example_index.
Proof.
  apply (@indexed_rows ascii_tables ascii_lower_scalar example_rows); [vm_compute; discriminate|].
  assert (bool_decide (Forall row_wf example_rows) = true) as H by (vm_compute; reflexivity). exact (proj1 (bool_decide_eq_true _) H).
Qed.

Lemma search_exact_witness :
  (∃ L, @ranks ascii_tables example_index (lit "wSy") L ∧ ranked_by L ∧
     take (Z.to_nat 10) ((λ e : Z * Row * option Z, hit e.1.2) <$> L) = [hit (example_row 1 (lit "wSync")); hit (example_row 0 (lit "workspaceSymbol"))]) ∧
  @workspace_symbol_search ascii_tables map_to_list example_index (lit "wSy") 10 =
  @workspace_symbol_search ascii_tables (λ m, rev (map_to_list m)) example_index (lit "wSy") 10.
Proof.
  destruct (@search_exact ascii_tables example_index (lit "wSy") 10 map_to_list (λ m, rev (map_to_list m))) as [_ H].
  - exact ascii_lower_scalar.
  - exact example_indexed.
  - assert (bool_decide (wf_str (lit "wSy")) = true) as Hw by (vm_compute; reflexivity). exact (proj1 (bool_decide_eq_true _) Hw).
  - intros m. reflexivity.
  - intros m. symmetry. apply Permutation_rev.
  - lia.
  - vm_compute. discriminate.
  - destruct H as [(L & HL & Hs & E) Hdet]; [vm_compute; reflexivity|]. split.
    + exists L. split; [exact HL|]. split; [exact Hs|].
      assert (@workspace_symbol_search ascii_tables map_to_list example_index (lit "wSy") 10 =
              Some [hit (example_row 1 (lit "wSync")); hit (example_row 0 (lit "workspaceSymbol"))]) as Ev by (vm_compute; reflexivity).
      exact (inj Some _ _ (eq_trans (eq_sym E) Ev)).
    + apply Hdet. intros r r' row row' Hr Hr'. intros Ho.
      assert (forallb (λ i, forallb (λ j, match zget example_rows i, zget example_rows j with
                | Some a, Some b => negb (rw_symbol_ord a =? rw_symbol_ord b) || (i =? j) | _, _ => true end) (seqZ 0 3)) (seqZ 0 3) = true)
        as Hall by (vm_compute; reflexivity).
      pose proof (zget_Some_lt _ _ _ Hr) as Lr. pose proof (zget_Some_lt _ _ _ Hr') as Lr'.
      change (zlen (ix_rows example_index)) with 3 in Lr, Lr'.
      rewrite forallb_forall in Hall. specialize (Hall r (proj1 (list_elem_of_In _ _) (proj2 (elem_of_seqZ_0 3 r) Lr))).
      rewrite forallb_forall in Hall. specialize (Hall r' (proj1 (list_elem_of_In _ _) (proj2 (elem_of_seqZ_0 3 r') Lr'))).
      change (ix_rows example_index) with example_rows in Hr, Hr'. rewrite Hr, Hr', Ho, Z.eqb_refl in Hall. cbn [negb orb] in Hall.
      apply Z.eqb_eq in Hall. subst r'. rewrite Hr in Hr'. by injection Hr'.
Defined.
