(* ===== verification/Targets.v ===== *)
(** The workspace description ([ls-engine/src/targets.rs]): the build targets, the dependency
    edges between them and the closures that bound what a target can see or be seen by.

    A [PathBuf] is its displayed string. A [HashSet] is a [gset]; the loop of [closure] takes as
    fuel one more than the number of targets, since a target enters the queue once. *)

From stdpp Require Import relations.
From S2P Require Import Prelude RustStr SdbProfile.

Open Scope Z_scope.

Record TargetSpec := mkTargetSpec {
  ts_bsp_id : list Z;
  ts_semanticdb_root : list Z;
  ts_sourceroot : list Z;
  ts_direct_deps : list (list Z);
  ts_scala_version : list Z;
  ts_content_hash : Z;
  ts_options_hash : Z;
  ts_doc_facts : list Z → DocFacts
}.

(** [TargetSpec::new], [with_deps], [with_doc_facts] *)
Definition target_spec_new (id root source : list Z) : TargetSpec :=
  mkTargetSpec id root source [] (lit "3") 0 0 (λ _, workspace_source).
Definition with_deps (t : TargetSpec) (deps : list (list Z)) : TargetSpec :=
  mkTargetSpec (ts_bsp_id t) (ts_semanticdb_root t) (ts_sourceroot t) deps (ts_scala_version t) (ts_content_hash t)
    (ts_options_hash t) (ts_doc_facts t).
Definition with_doc_facts (t : TargetSpec) (f : list Z → DocFacts) : TargetSpec :=
  mkTargetSpec (ts_bsp_id t) (ts_semanticdb_root t) (ts_sourceroot t) (ts_direct_deps t) (ts_scala_version t) (ts_content_hash t)
    (ts_options_hash t) f.
Definition facts (t : TargetSpec) (uri : list Z) : DocFacts := ts_doc_facts t uri.

Record WorkspaceTargets := mkWorkspaceTargets {
  ws_targets : list TargetSpec;
  ws_by_id : gmap (list Z) Z;
  ws_reverse_edges : gmap (list Z) (list (list Z))
}.

(** [assert!(by_id.insert(..).is_none())]: [None] is the panic. *)
Definition insert_id (by_id : gmap (list Z) Z) (e : Z * TargetSpec) : option (gmap (list Z) Z) :=
  match by_id !! ts_bsp_id e.2 with
  | Some _ => None
  | None => Some (<[ts_bsp_id e.2 := e.1]> by_id)
  end.

(** One dependency of the target [id]: the dependencies seen so far and the edges. *)
Definition add_dep (by_id : gmap (list Z) Z) (id : list Z)
    (st : gset (list Z) * gmap (list Z) (list (list Z))) (dep : list Z) : gset (list Z) * gmap (list Z) (list (list Z)) :=
  let '(seen, acc) := st in
  if bool_decide (dep ∈ seen) then st else
  ({[dep]} ∪ seen,
   if bool_decide (is_Some (by_id !! dep)) then <[dep := default [] (acc !! dep) ++ [id]]> acc else acc).

Definition add_deps (by_id : gmap (list Z) Z) (acc : gmap (list Z) (list (list Z))) (t : TargetSpec)
    : gmap (list Z) (list (list Z)) :=
  (foldl (add_dep by_id (ts_bsp_id t)) (∅, acc) (ts_direct_deps t)).2.

(** [WorkspaceTargets::new] *)
Definition workspace_targets_new (targets : list TargetSpec) : option WorkspaceTargets :=
  by_id ← foldM insert_id ∅ (zip (seqZ 0 (zlen targets)) targets);
  Some (mkWorkspaceTargets targets by_id (sort_by str_leb <$> foldl (add_deps by_id) ∅ targets)).

Section queries.
Context (ws : WorkspaceTargets).

(** [self.targets[i]] is in bounds: [by_id] holds indices of [targets]. *)
Definition spec_of (id : list Z) : option TargetSpec :=
  i ← ws_by_id ws !! id; zget (ws_targets ws) i.

Definition dependents_of (id : list Z) : list (list Z) := default [] (ws_reverse_edges ws !! id).

(** [for nxt in next(&cur) { if seen.insert(nxt) { queue.push_back(nxt) } }] *)
Definition enqueue (st : gset (list Z) * list (list Z)) (nxt : list Z) : gset (list Z) * list (list Z) :=
  if bool_decide (nxt ∈ st.1) then st else ({[nxt]} ∪ st.1, st.2 ++ [nxt]).

(** The loop of [closure]; [None] is out of fuel. *)
Fixpoint closure_loop (next : list Z → list (list Z)) (fuel : nat) (seen : gset (list Z)) (queue : list (list Z))
    : option (gset (list Z)) :=
  match queue with
  | [] => Some seen
  | cur :: queue =>
      match fuel with
      | O => None
      | S fuel => let st := foldl enqueue (seen, queue) (next cur) in closure_loop next fuel st.1 st.2
      end
  end.

Definition closure (id : list Z) (next : list Z → list (list Z)) : option (gset (list Z)) :=
  if negb (bool_decide (is_Some (ws_by_id ws !! id))) then Some ∅ else
  closure_loop next (S (length (ws_targets ws))) {[id]} [id].

Definition reverse_dependency_closure (id : list Z) : option (gset (list Z)) := closure id dependents_of.

(** The direct dependencies that are targets. *)
Definition known_deps (id : list Z) : list (list Z) :=
  match spec_of id with
  | Some t => List.filter (λ d, bool_decide (is_Some (ws_by_id ws !! d))) (ts_direct_deps t)
  | None => []
  end.
Definition forward_dependency_closure (id : list Z) : option (gset (list Z)) := closure id known_deps.

Definition facts_for (id uri : list Z) : DocFacts :=
  match spec_of id with Some t => facts t uri | None => workspace_source end.
End queries.

(** ** The graph *)

Definition depends (targets : list TargetSpec) (a b : list Z) : Prop :=
  ∃ t, t ∈ targets ∧ ts_bsp_id t = a ∧ b ∈ ts_direct_deps t ∧ b ∈ ts_bsp_id <$> targets.

(** ** Lemmas: the index of targets *)

Definition indexes (targets : list TargetSpec) (m : gmap (list Z) Z) : Prop :=
  ∀ id i, m !! id = Some i ↔ ∃ t, zget targets i = Some t ∧ ts_bsp_id t = id.

Lemma insert_ids targets :
  match foldM insert_id ∅ (zip (seqZ 0 (zlen targets)) targets) with
  | Some m => NoDup (ts_bsp_id <$> targets) ∧ indexes targets m
  | None => ¬ NoDup (ts_bsp_id <$> targets)
  end.
Proof.
  induction targets as [|t l IH] using rev_ind.
  { cbn. split; [constructor|]. intros id i. rewrite lookup_empty. split; [done|]. intros (t & H%zget_Some_lt & _).
    change (zlen []) with 0 in H. lia. }
  rewrite zlen_app. change (zlen [t]) with 1. pose proof (zlen_nonneg l) as Hl. rewrite seqZ_snoc by lia.
  assert (length (seqZ 0 (zlen l)) = length l) as Hlen by (rewrite length_seqZ; unfold zlen; lia).
  rewrite (zip_with_app pair) by done. rewrite foldM_app.
  destruct (foldM insert_id ∅ _) as [m|].
  2:{ cbn. rewrite fmap_app. intros Hnd. apply IH. by apply NoDup_app in Hnd as [? _]. }
  destruct IH as [Hnd Hm]. unfold indexes in *. cbn [mbind option_bind zip_with foldM]. unfold insert_id. cbn [fst snd].
  assert (ts_bsp_id t ∈ ts_bsp_id <$> l ↔ is_Some (m !! ts_bsp_id t)) as Hin.
  { rewrite list_elem_of_fmap. split.
    - intros (t' & E & [i Hi]%elem_of_zget). exists i. apply Hm. by exists t'.
    - intros [i (t' & Hi & E)%Hm]. exists t'. split; [done|]. by eapply zget_elem_of. }
  destruct (m !! ts_bsp_id t) as [i|] eqn:E; cbn [mbind option_bind].
  - rewrite fmap_app. intros (_ & H & _)%NoDup_app. apply (H (ts_bsp_id t)); [apply Hin; by eexists|left].
  - split.
    + rewrite fmap_app. apply NoDup_app. split; [done|]. split; [|apply NoDup_singleton].
      intros x Hx ->%list_elem_of_singleton. apply Hin in Hx as [? ?]. done.
    + intros id i. destruct (decide (id = ts_bsp_id t)) as [->|Hne].
      * rewrite lookup_insert_eq. split.
        -- intros [= <-]. exists t. split; [|done]. apply zget_snoc. auto.
        -- intros (t' & [Hi|[-> ->]]%zget_snoc & Et); [|done]. exfalso.
           assert (m !! ts_bsp_id t = Some i) as E' by (apply Hm; by exists t'). by rewrite E in E'.
      * rewrite lookup_insert_ne by done. rewrite Hm. split.
        -- intros (t' & Hi & Et). exists t'. split; [|done]. apply zget_snoc. auto.
        -- intros (t' & [Hi|[-> ->]]%zget_snoc & Et); [by exists t'|by destruct Hne].
Qed.

Lemma known_id targets m id : indexes targets m → is_Some (m !! id) ↔ id ∈ ts_bsp_id <$> targets.
Proof.
  intros Hm. rewrite list_elem_of_fmap. split.
  - intros [i (t & Hi & E)%Hm]. exists t. split; [done|]. by eapply zget_elem_of.
  - intros (t & E & [i Hi]%elem_of_zget). exists i. apply Hm. by exists t.
Qed.

(** ** Lemmas: the edges *)

Lemma add_dep_edges by_id id deps seen acc x d :
  let st := foldl (add_dep by_id id) (seen, acc) deps in
  x ∈ default [] (st.2 !! d) ↔
  x ∈ default [] (acc !! d) ∨ (x = id ∧ d ∈ deps ∧ (d ∉ seen) ∧ is_Some (by_id !! d)).
Proof.
  revert seen acc. induction deps as [|dep deps IH]; intros seen acc; cbn [foldl].
  { cbn. split; [by left|]. intros [?|(_ & ?%elem_of_nil & _)]; done. }
  unfold add_dep at 2. case_bool_decide as Hs.
  { rewrite IH, elem_of_cons. split; [naive_solver|]. intros [?|(? & [->|?] & ? & ?)]; [by left|done|right; auto]. }
  rewrite IH. case_bool_decide as Hk; [destruct (decide (d = dep)) as [->|Hne]|].
  - rewrite lookup_insert_eq. cbn [default from_option Datatypes.id]. rewrite elem_of_app, list_elem_of_singleton, elem_of_cons. set_solver.
  - rewrite lookup_insert_ne by done. rewrite elem_of_cons. set_solver.
  - rewrite elem_of_cons. split; [set_solver|]. intros [?|(? & [->|?] & ? & ?)]; [by left|done|].
    destruct (decide (d = dep)) as [->|]; [done|]. right. set_solver.
Qed.

Lemma add_deps_edges by_id targets acc x d :
  x ∈ default [] (foldl (add_deps by_id) acc targets !! d) ↔
  x ∈ default [] (acc !! d) ∨ ∃ t, t ∈ targets ∧ ts_bsp_id t = x ∧ d ∈ ts_direct_deps t ∧ is_Some (by_id !! d).
Proof.
  revert acc. induction targets as [|t l IH]; intros acc; cbn [foldl].
  { split; [by left|]. intros [?|(t & ?%elem_of_nil & _)]; done. }
  rewrite IH. unfold add_deps at 1. pose proof (add_dep_edges by_id (ts_bsp_id t) (ts_direct_deps t) ∅ acc x d) as H. cbv zeta in H. rewrite H.
  split.
  - intros [[?|(-> & ? & _ & ?)]|(t' & ? & ?)]; [by left|right; exists t; split; [left|done]|right; exists t'; split; [by right|done]].
  - intros [?|(t' & [->|?]%elem_of_cons & <- & ? & ?)]; [auto| |right; by exists t']. left. right. set_solver.
Qed.

Section graph.
Context (targets : list TargetSpec) (ws : WorkspaceTargets) (Hws : workspace_targets_new targets = Some ws).

Lemma ws_index : NoDup (ts_bsp_id <$> targets) ∧ indexes targets (ws_by_id ws) ∧ ws_targets ws = targets ∧
  ws_reverse_edges ws = sort_by str_leb <$> foldl (add_deps (ws_by_id ws)) ∅ targets.
Proof.
  pose proof (insert_ids targets) as H. unfold workspace_targets_new in Hws. destruct (foldM insert_id _ _) as [m|]; [|done].
  injection Hws as <-. destruct H. by split_and!.
Qed.

Lemma dependents_exact x d : x ∈ dependents_of ws d ↔ depends targets x d.
Proof.
  destruct ws_index as (_ & Hi & _ & He). unfold dependents_of. rewrite He, lookup_fmap.
  pose proof (add_deps_edges (ws_by_id ws) targets ∅ x d) as H. rewrite lookup_empty in H. cbn [default from_option] in H.
  unfold depends. setoid_rewrite <- (known_id targets (ws_by_id ws) d Hi).
  destruct (foldl _ ∅ targets !! d) as [l|]; cbn [fmap option_fmap option_map default from_option id] in *; [rewrite elem_of_sort_by|]; rewrite H; set_solver.
Qed.

Lemma known_deps_exact x d : d ∈ known_deps ws x ↔ depends targets x d.
Proof.
  destruct ws_index as (Hnd & Hi & Ht & _). unfold known_deps, spec_of. rewrite Ht. unfold depends.
  setoid_rewrite <- (known_id targets (ws_by_id ws) d Hi). split.
  - destruct (ws_by_id ws !! x) as [i|] eqn:E; [|by intros ?%elem_of_nil]. apply Hi in E as (t & Hx & Et). cbn [mbind option_bind].
    rewrite Hx. intros [Hd Hk]%list_elem_of_In%filter_In. exists t. split; [by eapply zget_elem_of|]. split; [done|].
    split; [by apply list_elem_of_In|by apply bool_decide_eq_true in Hk].
  - intros (t & [i Hx]%elem_of_zget & Et & Hd & Hk). assert (ws_by_id ws !! x = Some i) as -> by (apply Hi; by exists t).
    cbn [mbind option_bind]. rewrite Hx. apply list_elem_of_In, filter_In. split; [by apply list_elem_of_In|].
    by apply bool_decide_eq_true.
Qed.
End graph.

(** ** Lemmas: the breadth-first search *)

Lemma enqueue_all next seen queue :
  ∃ new, let st := foldl enqueue (seen, queue) next in
    st.2 = queue ++ new ∧ st.1 = seen ∪ list_to_set new ∧ NoDup new ∧
    (∀ y, y ∈ new → y ∈ next ∧ y ∉ seen) ∧ (∀ y, y ∈ next → y ∈ st.1).
Proof.
  revert seen queue. induction next as [|x next IH]; intros seen queue; cbn [foldl].
  { exists []. cbn. split_and!; [by rewrite app_nil_r|set_solver|constructor|set_solver|set_solver]. }
  unfold enqueue at 2 4 6. cbn [fst snd]. case_bool_decide as Hx.
  - destruct (IH seen queue) as (new & H1 & H2 & H3 & H4 & H5). exists new. cbv zeta in *. split_and!; try done; set_solver.
  - destruct (IH ({[x]} ∪ seen) (queue ++ [x])) as (new & H1 & H2 & H3 & H4 & H5). exists (x :: new). cbv zeta in *.
    split_and!; [by rewrite H1, <- app_assoc|rewrite H2; cbn; set_solver| |set_solver|set_solver].
    constructor; [|done]. intros H%H4. set_solver.
Qed.

Section search.
Context (next : list Z → list (list Z)) (universe : gset (list Z)).
Context (Hnext : ∀ x y, y ∈ next x → y ∈ universe).

Let edge (x y : list Z) : Prop := y ∈ next x.

(** What holds at every turn of the loop started at [id]. *)
Record searching (id : list Z) (seen : gset (list Z)) (queue : list (list Z)) : Prop := {
  se_start : id ∈ seen;
  se_queue x : x ∈ queue → x ∈ seen;
  se_reach x : x ∈ seen → rtc edge id x;
  se_done x y : x ∈ seen → (x ∉ queue) → edge x y → y ∈ seen;
  se_universe : seen ⊆ universe;
  se_nodup : NoDup queue
}.

Lemma closure_loop_exact id fuel seen queue :
  searching id seen queue → (length queue + size (universe ∖ seen) ≤ fuel)%nat →
  ∃ found, closure_loop next fuel seen queue = Some found ∧ ∀ x, x ∈ found ↔ rtc edge id x.
Proof.
  revert seen queue. induction fuel as [|fuel IH]; intros seen [|cur queue] Hs Hf; cbn [closure_loop length] in *; [|lia| |].
  1,2: exists seen; split; [done|]; intros x; split; [apply Hs|]; intros Hx;
    revert x Hx; apply (rtc_ind_r (λ x, x ∈ seen)); [apply Hs|]; intros y w _ Hyw Hy; apply (se_done _ _ _ Hs y w); [done|by apply not_elem_of_nil|done].
  destruct (enqueue_all (next cur) seen queue) as (new & E2 & E1 & Hnd & Hnew & Hall). cbv zeta in *.
  set (st := foldl enqueue (seen, queue) (next cur)) in *. apply IH.
  - assert (cur ∈ seen) as Hcur by (apply (se_queue _ _ _ Hs); left). pose proof (se_nodup _ _ _ Hs) as [Hcq Hq]%NoDup_cons.
    split.
    + rewrite E1. pose proof (se_start _ _ _ Hs). set_solver.
    + intros x. rewrite E1, E2. pose proof (se_queue _ _ _ Hs x). set_solver.
    + intros x. rewrite E1, elem_of_union, elem_of_list_to_set. intros [Hx|[Hx _]%Hnew]; [by apply (se_reach _ _ _ Hs)|].
      eapply rtc_r; [by apply (se_reach _ _ _ Hs)|done].
    + intros x y Hx Hnq Hxy. destruct (decide (x = cur)) as [->|Hne]; [by apply Hall|].
      rewrite E2 in Hnq. rewrite E1 in Hx |- *. apply elem_of_union_l, (se_done _ _ _ Hs x); [set_solver|set_solver|done].
    + rewrite E1. pose proof (se_universe _ _ _ Hs). apply union_subseteq. split; [done|].
      intros x [Hx _]%elem_of_list_to_set%Hnew. by eapply Hnext.
    + rewrite E2. apply NoDup_app. split; [done|]. split; [|done]. intros x Hx [_ Hx']%Hnew. apply Hx', (se_queue _ _ _ Hs). by right.
  - rewrite E2, E1, length_app. replace (universe ∖ (seen ∪ list_to_set new)) with ((universe ∖ seen) ∖ list_to_set new) by set_solver.
    assert (list_to_set new ⊆ universe ∖ seen) as Hsub.
    { intros x [Hx Hx']%elem_of_list_to_set%Hnew. apply elem_of_difference. split; [by eapply Hnext|done]. }
    rewrite size_difference by done. rewrite size_list_to_set by done. apply subseteq_size in Hsub. rewrite size_list_to_set in Hsub by done. lia.
Qed.
End search.

Section closures.
Context (targets : list TargetSpec) (ws : WorkspaceTargets) (Hws : workspace_targets_new targets = Some ws).

Lemma closure_exact_with (R : list Z → list Z → Prop) next id :
  (∀ x y, y ∈ next x ↔ R x y) → (∀ x y, R x y → y ∈ ts_bsp_id <$> targets) → id ∈ ts_bsp_id <$> targets →
  ∃ found, closure ws id next = Some found ∧ ∀ x, x ∈ found ↔ rtc R id x.
Proof.
  intros HR Hk Hid. destruct (ws_index targets ws Hws) as (Hnd & Hi & Ht & _). unfold closure.
  rewrite bool_decide_true by (by apply (known_id targets _ id Hi)). cbn [negb]. rewrite Ht.
  destruct (closure_loop_exact next (list_to_set (ts_bsp_id <$> targets)) (λ x y H, proj2 (elem_of_list_to_set _ _) (Hk x y (proj1 (HR x y) H)))
    id (S (length targets)) {[id]} [id]) as (found & E & H).
  - split; [set_solver|set_solver| |set_solver| |apply NoDup_singleton].
    + intros x ->%elem_of_singleton. apply rtc_refl.
    + intros x ->%elem_of_singleton. by apply elem_of_list_to_set.
  - cbn [length]. pose proof (subseteq_size (list_to_set (ts_bsp_id <$> targets) ∖ {[id]}) (list_to_set (C := gset _) (ts_bsp_id <$> targets)) ltac:(set_solver)) as Hs.
    rewrite size_list_to_set, length_fmap in Hs by done. lia.
  - exists found. split; [done|]. intros x. rewrite H. split; apply rtc_subrel; intros y z; apply HR.
Qed.

Lemma closure_unknown id next : (id ∉ ts_bsp_id <$> targets) → closure ws id next = Some ∅.
Proof.
  intros Hid. destruct (ws_index targets ws Hws) as (_ & Hi & _ & _). unfold closure. rewrite bool_decide_false; [done|]. by rewrite (known_id targets _ id Hi).
Qed.

Lemma forward_closure_exact id :
  ∃ forth, forward_dependency_closure ws id = Some forth ∧ ∀ x, x ∈ forth ↔ id ∈ ts_bsp_id <$> targets ∧ rtc (depends targets) id x.
Proof.
  destruct (decide (id ∈ ts_bsp_id <$> targets)) as [Hid|Hid].
  - destruct (closure_exact_with (depends targets) (known_deps ws) id) as (forth & E & H); [|by intros x y (t & _ & _ & _ & ?)|done|].
    { intros x y. apply (known_deps_exact targets ws Hws). }
    exists forth. split; [done|]. intros x. rewrite H. tauto.
  - exists ∅. split; [by apply closure_unknown|set_solver].
Qed.

Lemma rtc_flip {A : Type} (R : A → A → Prop) x y : rtc (flip R) y x ↔ rtc R x y.
Proof. split; (induction 1 as [|a b c Hab _ IH]; [apply rtc_refl|by eapply rtc_r]). Qed.

Lemma reverse_closure_exact id :
  ∃ back, reverse_dependency_closure ws id = Some back ∧ ∀ x, x ∈ back ↔ id ∈ ts_bsp_id <$> targets ∧ rtc (depends targets) x id.
Proof.
  destruct (decide (id ∈ ts_bsp_id <$> targets)) as [Hid|Hid].
  - destruct (closure_exact_with (flip (depends targets)) (dependents_of ws) id) as (back & E & H); [| |done|].
    { intros x y. apply (dependents_exact targets ws Hws). }
    { intros x y (t & Hin & <- & _). apply list_elem_of_fmap. by exists t. }
    exists back. split; [done|]. intros x. rewrite H, rtc_flip. tauto.
  - exists ∅. split; [by apply closure_unknown|set_solver].
Qed.
End closures.

(** ** The property *)

(** The target graph. Distinct build-target ids make a workspace and a repeated one is refused.
    Over its targets both closures terminate: the reverse closure of a target is the set of
    targets from which dependency edges lead to it, the forward closure the set they lead to
    from it, so a target is in one exactly when the other way around; and both are empty for
    an unknown id. *)
Theorem target_closures_exact targets :
  (¬ NoDup (ts_bsp_id <$> targets) → workspace_targets_new targets = None) ∧
  (NoDup (ts_bsp_id <$> targets) → ∃ ws, workspace_targets_new targets = Some ws ∧
     (∀ id, (id ∉ ts_bsp_id <$> targets) → reverse_dependency_closure ws id = Some ∅ ∧ forward_dependency_closure ws id = Some ∅) ∧
     (∀ id, id ∈ ts_bsp_id <$> targets → ∃ back forth,
        reverse_dependency_closure ws id = Some back ∧ forward_dependency_closure ws id = Some forth ∧
        (∀ x, x ∈ back ↔ rtc (depends targets) x id) ∧ (∀ x, x ∈ forth ↔ rtc (depends targets) id x) ∧
        ∀ id' forth', forward_dependency_closure ws id' = Some forth' → (id' ∈ back ↔ id ∈ forth'))).
Proof.
  pose proof (insert_ids targets) as H. split.
  { intros Hnd. unfold workspace_targets_new. destruct (foldM insert_id _ _); [by destruct H|done]. }
  intros Hnd. destruct (foldM insert_id ∅ (zip (seqZ 0 (zlen targets)) targets)) as [m|] eqn:E; [|done].
  destruct (workspace_targets_new targets) as [ws|] eqn:Hws; [|unfold workspace_targets_new in Hws; by rewrite E in Hws].
  exists ws. split; [done|]. split; [intros id Hid; split; by apply (closure_unknown targets ws Hws)|]. intros id Hid.
  destruct (reverse_closure_exact targets ws Hws id) as (back & Eb & Hb), (forward_closure_exact targets ws Hws id) as (forth & Ef & Hf).
  exists back, forth. split_and!; [done|done|intros x; rewrite Hb; tauto|intros x; rewrite Hf; tauto|]. intros id' forth' Ef'.
  destruct (forward_closure_exact targets ws Hws id') as (f & Ef'' & Hf'). assert (f = forth') as -> by congruence. rewrite Hb, Hf'. split; [|tauto].
  intros [_ Hr]. split; [|done]. apply rtc_inv in Hr as [->|(y & (t & Hin & <- & _) & _)]; [done|]. apply list_elem_of_fmap. by exists t.
Qed.

(** [core <- app], with an unknown dependency and a cycle between [app] and [test]. *)
Lemma target_closures_exact_witness :
  let t id deps := with_deps (target_spec_new (lit id) [] []) (lit <$> deps) in
  let targets := [t "core" []; t "app" ["core"; "missing"; "test"]; t "test" ["app"]; t "other" ["core"]] in
  ∃ ws back, workspace_targets_new targets = Some ws ∧ reverse_dependency_closure ws (lit "core") = Some back ∧
    lit "test" ∈ back ∧ size back = 4%nat.
Proof.
  intros t targets. destruct (proj2 (target_closures_exact targets)) as (ws & Hws & _ & H).
  { assert (bool_decide (NoDup (ts_bsp_id <$> targets)) = true) as Hb by (vm_compute; reflexivity). exact (proj1 (bool_decide_eq_true _) Hb). }
  destruct (H (lit "core")) as (back & forth & Hb & _ & Hx & _).
  { assert (bool_decide (lit "core" ∈ ts_bsp_id <$> targets) = true) as Hk by (vm_compute; reflexivity). exact (proj1 (bool_decide_eq_true _) Hk). }
  exists ws, back. split; [exact Hws|]. split; [exact Hb|].
  assert (match workspace_targets_new targets with
          | Some ws => match reverse_dependency_closure ws (lit "core") with
                       | Some b => bool_decide (lit "test" ∈ b) && bool_decide (size b = 4%nat) | None => false end
          | None => false end = true) as Hc by (vm_compute; reflexivity).
  rewrite Hws, Hb in Hc. apply andb_true_iff in Hc as [H1 H2].
  split; [exact (proj1 (bool_decide_eq_true _) H1)|exact (proj1 (bool_decide_eq_true _) H2)].
Defined.
