(* ===== verification/EngineState.v ===== *)
(** The workspace-state payload ([ls-engine/src/state.rs]): per document the epoch and the md5
    recorded at ingest, and its lenient decoder.

    A [BTreeMap] is a [gmap]; its iteration is the list of its entries in key order. *)

From S2P Require Import Prelude RustStr StoreFormat SegReader.

Open Scope Z_scope.

Record DocState := mkDocState { ds_epoch : Z; ds_md5 : list Z }.
#[export] Instance DocState_eq_dec : EqDecision DocState.
Proof. solve_decision. Defined.

Record IngestState := mkIngestState { st_docs : gmap (list Z) DocState }.
Definition IngestState_default : IngestState := mkIngestState ∅.

(** ["LSST"] *)
Definition STATE_PAYLOAD_MAGIC : Z := 1280529236.

Definition state_get (st : IngestState) (uri : list Z) : option DocState := st_docs st !! uri.

(** ** Encoding *)

Definition put_str (s : list Z) : bytes := le_bytes 4 (as_u32 (zlen (as_bytes s))) ++ as_bytes s.

Definition encode_doc (e : list Z * DocState) : bytes :=
  put_str e.1 ++ le_bytes 4 (ds_epoch e.2) ++ put_str (ds_md5 e.2).

Definition doc_entries (st : IngestState) : list (list Z * DocState) :=
  sort_by (λ a b : list Z * DocState, str_leb a.1 b.1) (map_to_list (st_docs st)).

Definition encode (st : IngestState) : bytes :=
  le_bytes 4 STATE_PAYLOAD_MAGIC ++ le_bytes 4 (as_u32 (Z.of_nat (size (st_docs st)))) ++
  concat (encode_doc <$> doc_entries st).

(** ** Decoding *)

Record Cursor := mkCursor { cu_bytes : bytes; cu_pos : Z }.

Definition cursor_take (c : Cursor) (n : Z) : option (bytes * Cursor) :=
  last ← checked_add (cu_pos c) n;
  if zlen (cu_bytes c) <? last then None else
  s ← slice (cu_bytes c) (cu_pos c) n;
  Some (s, mkCursor (cu_bytes c) last).

Definition cursor_u32 (c : Cursor) : option (Z * Cursor) :=
  '(b, c) ← cursor_take c 4; Some (le_val b, c).
Definition cursor_i32 (c : Cursor) : option (Z * Cursor) :=
  '(v, c) ← cursor_u32 c; Some (as_i32 v, c).
Definition take_str (c : Cursor) : option (list Z * Cursor) :=
  '(len, c) ← cursor_u32 c;
  '(b, c) ← cursor_take c len;
  s ← from_utf8 b;
  Some (s, c).

(** The body of the loop: [None] is its [return]. *)
Definition decode_doc (c : Cursor) : option (list Z * DocState * Cursor) :=
  '(uri, c) ← take_str c;
  '(epoch, c) ← cursor_i32 c;
  '(md5, c) ← take_str c;
  Some (uri, mkDocState epoch md5, c).

Fixpoint decode_docs (count : nat) (docs : gmap (list Z) DocState) (c : Cursor) : gmap (list Z) DocState :=
  match count with
  | O => docs
  | S count =>
      match decode_doc c with
      | Some (uri, st, c) => decode_docs count (<[uri := st]> docs) c
      | None => docs
      end
  end.

Definition decode (b : bytes) : IngestState :=
  match cursor_u32 (mkCursor b 0) with
  | Some (magic, c) =>
      if negb (magic =? STATE_PAYLOAD_MAGIC) then IngestState_default else
      match cursor_u32 c with
      | Some (count, c) => mkIngestState (decode_docs (Z.to_nat count) ∅ c)
      | None => IngestState_default
      end
  | None => IngestState_default
  end.

(** ** Lemmas: reading a prefix of what was written *)

Definition rests (c : Cursor) (r : bytes) : Prop :=
  ∃ pre, cu_bytes c = pre ++ r ∧ zlen pre = cu_pos c ∧ zlen (cu_bytes c) < 2 ^ 63.

Lemma take_rests c r n :
  rests c r → 0 ≤ n < 2 ^ 63 →
  if n <=? zlen r then ∃ c', cursor_take c n = Some (take (Z.to_nat n) r, c') ∧ rests c' (drop (Z.to_nat n) r)
  else cursor_take c n = None.
Proof.
  intros (pre & Eb & Ep & Hb) Hn. pose proof (zlen_nonneg pre). pose proof (zlen_nonneg r). rewrite Eb, zlen_app in Hb.
  unfold cursor_take, checked_add. destruct (Z.ltb_spec (cu_pos c + n) (2 ^ 64)); [|lia]. cbn [mbind option_bind]. rewrite Eb, zlen_app.
  destruct (Z.leb_spec n (zlen r)) as [Hle|Hgt].
  - destruct (Z.ltb_spec (zlen pre + zlen r) (cu_pos c + n)); [lia|].
    assert (zlen (take (Z.to_nat n) r) = n) as Hl by (unfold zlen in *; rewrite length_take; lia).

    replace (slice (pre ++ r) (cu_pos c) n) with (Some (take (Z.to_nat n) r)).
    2:{ symmetry. rewrite <- (take_drop (Z.to_nat n) r) at 1. by apply slice_app_l. }
    cbn [mbind option_bind]. eexists. split; [done|]. exists (pre ++ take (Z.to_nat n) r). cbn [cu_bytes cu_pos].
    rewrite <- app_assoc, take_drop. split; [done|]. rewrite !zlen_app. split; lia.
  - destruct (Z.ltb_spec (zlen pre + zlen r) (cu_pos c + n)); [done|lia].
Qed.

(** Reading [x] where the rest is a prefix of [x ++ y]: all of it, or nothing. *)
Lemma take_prefix c r x y :
  rests c r → r `prefix_of` (x ++ y) → zlen x < 2 ^ 63 →
  (∃ r' c', r = x ++ r' ∧ r' `prefix_of` y ∧ cursor_take c (zlen x) = Some (x, c') ∧ rests c' r') ∨
  (cursor_take c (zlen x) = None ∧ ∀ r', r ≠ x ++ r').
Proof.
  intros Hc [k Hk] Hx. pose proof (zlen_nonneg x) as Hx0. pose proof (take_rests c r (zlen x) Hc ltac:(lia)) as Ht.
  destruct (Z.leb_spec (zlen x) (zlen r)) as [Hle|Hgt].
  - left. apply app_eq_inv in Hk as [(j & -> & ->)|(j & -> & ->)].
    + assert (j = []) as -> by (rewrite zlen_app in Hle; destruct j; [done|rewrite zlen_cons in Hle; pose proof (zlen_nonneg j); lia]).
      destruct Ht as (c' & E & Hr). rewrite app_nil_r in *. exists [], c'.
      assert (Z.to_nat (zlen r) = length r) as El by (unfold zlen; lia). rewrite El, firstn_all, drop_all in *.
      split; [by rewrite app_nil_r|]. split; [apply prefix_nil|]. done.
    + destruct Ht as (c' & E & Hr). exists j, c'. assert (Z.to_nat (zlen x) = length x) as El by (unfold zlen; lia).
      rewrite El, take_app_length, drop_app_length in *. split; [done|]. split; [by eexists|]. done.
  - right. split; [done|]. intros r' ->. rewrite zlen_app in Hgt. pose proof (zlen_nonneg r'). lia.
Qed.

Lemma u32_prefix c r v y :
  rests c r → inU 32 v → r `prefix_of` (le_bytes 4 v ++ y) →
  (∃ r' c', r = le_bytes 4 v ++ r' ∧ r' `prefix_of` y ∧ cursor_u32 c = Some (v, c') ∧ rests c' r') ∨
  (cursor_u32 c = None ∧ ∀ r', r ≠ le_bytes 4 v ++ r').
Proof.
  intros Hc Hv Hp. unfold cursor_u32. pose proof (take_prefix c r (le_bytes 4 v) y Hc Hp) as H.
  change (zlen (le_bytes 4 v)) with 4 in H. destruct (H ltac:(lia)) as [(r' & c' & -> & Hp' & E & Hr)|[E Hne]]; rewrite E; cbn [mbind option_bind].
  - left. exists r', c'. rewrite le_val_le_bytes. change (256 ^ Z.of_nat 4) with (2 ^ 32). rewrite Z.mod_small by exact Hv. done.
  - by right.
Qed.

Lemma i32_prefix c r v y :
  rests c r → inS 32 v → r `prefix_of` (le_bytes 4 v ++ y) →
  (∃ r' c', r = le_bytes 4 v ++ r' ∧ r' `prefix_of` y ∧ cursor_i32 c = Some (v, c') ∧ rests c' r') ∨
  (cursor_i32 c = None ∧ ∀ r', r ≠ le_bytes 4 v ++ r').
Proof.
  intros Hc Hv Hp. unfold cursor_i32, cursor_u32. pose proof (take_prefix c r (le_bytes 4 v) y Hc Hp) as H.
  change (zlen (le_bytes 4 v)) with 4 in H. destruct (H ltac:(lia)) as [(r' & c' & -> & Hp' & E & Hr)|[E Hne]]; rewrite E; cbn [mbind option_bind].
  - left. exists r', c'. rewrite le_val_le_bytes. change (256 ^ Z.of_nat 4) with (2 ^ 32).
    replace (as_i32 (v mod 2 ^ 32)) with v; [done|]. symmetry. change (as_i32 (v mod 2 ^ 32)) with (wrapS 32 (wrapU 32 v)).
    rewrite wrapS_wrapU by lia. by apply wrapS_id.
  - by right.
Qed.

Definition str_fits (s : list Z) : Prop := wf_str s ∧ zlen (as_bytes s) < 2 ^ 32.

Lemma str_prefix c r s y :
  rests c r → str_fits s → r `prefix_of` (put_str s ++ y) →
  (∃ r' c', r = put_str s ++ r' ∧ r' `prefix_of` y ∧ take_str c = Some (s, c') ∧ rests c' r') ∨
  (take_str c = None ∧ ∀ r', r ≠ put_str s ++ r').
Proof.
  intros Hc [Hw Hl] Hp. unfold put_str in *. pose proof (zlen_nonneg (as_bytes s)).
  assert (as_u32 (zlen (as_bytes s)) = zlen (as_bytes s)) as El by (apply wrapU_id; split; lia). rewrite El in *.
  rewrite <- app_assoc in Hp. unfold take_str.
  assert (inU 32 (zlen (as_bytes s))) as Hu by (split; lia).
  destruct (u32_prefix c r _ _ Hc Hu Hp) as [(r1 & c1 & -> & Hp1 & E1 & Hr1)|[E1 Hne]]; rewrite E1; cbn [mbind option_bind].
  2:{ right. split; [done|]. intros r' ->. by apply (Hne (as_bytes s ++ r')); rewrite <- app_assoc. }
  destruct (take_prefix c1 r1 (as_bytes s) y Hr1 Hp1 ltac:(lia)) as [(r2 & c2 & -> & Hp2 & E2 & Hr2)|[E2 Hne]]; rewrite E2; cbn [mbind option_bind].
  - left. exists r2, c2. rewrite from_utf8_as_bytes by done. by rewrite <- app_assoc.
  - right. split; [done|]. intros r'. rewrite <- app_assoc. intros ->%app_inv_head. by apply (Hne r').
Qed.

Definition doc_fits (e : list Z * DocState) : Prop := str_fits e.1 ∧ inS 32 (ds_epoch e.2) ∧ str_fits (ds_md5 e.2).
#[export] Instance str_fits_dec s : Decision (str_fits s).
Proof. unfold str_fits. apply _. Defined.
#[export] Instance doc_fits_dec e : Decision (doc_fits e).
Proof. unfold doc_fits. apply _. Defined.

Lemma doc_prefix c r e y :
  rests c r → doc_fits e → r `prefix_of` (encode_doc e ++ y) →
  (∃ r' c', r = encode_doc e ++ r' ∧ r' `prefix_of` y ∧ decode_doc c = Some (e, c') ∧ rests c' r') ∨
  (decode_doc c = None ∧ ∀ r', r ≠ encode_doc e ++ r').
Proof.
  intros Hc (Hu & He & Hm) Hp. unfold encode_doc in *. rewrite <- !app_assoc in Hp. unfold decode_doc.
  destruct (str_prefix c r _ _ Hc Hu Hp) as [(r1 & c1 & -> & Hp1 & E1 & Hr1)|[E1 Hne]]; rewrite E1; cbn [mbind option_bind].
  2:{ right. split; [done|]. intros r'. rewrite <- !app_assoc. apply Hne. }
  destruct (i32_prefix c1 r1 _ _ Hr1 He Hp1) as [(r2 & c2 & -> & Hp2 & E2 & Hr2)|[E2 Hne]]; rewrite E2; cbn [mbind option_bind].
  2:{ right. split; [done|]. intros r'. rewrite <- !app_assoc. intros ?%app_inv_head. by eapply Hne. }
  destruct (str_prefix c2 r2 _ _ Hr2 Hm Hp2) as [(r3 & c3 & -> & Hp3 & E3 & Hr3)|[E3 Hne]]; rewrite E3; cbn [mbind option_bind].
  2:{ right. split; [done|]. intros r'. rewrite <- !app_assoc. intros ?%app_inv_head%app_inv_head. by eapply Hne. }
  left. exists r3, c3. rewrite <- !app_assoc. by destruct e as [? []].
Qed.

Definition add_doc (docs : gmap (list Z) DocState) (e : list Z * DocState) : gmap (list Z) DocState := <[e.1 := e.2]> docs.

Lemma docs_prefix es c r docs :
  rests c r → Forall doc_fits es → r `prefix_of` (concat (encode_doc <$> es)) →
  ∃ k, decode_docs (length es) docs c = foldl add_doc docs (take k es) ∧
    (r = concat (encode_doc <$> es) → take k es = es).
Proof.
  revert c r docs. induction es as [|e es IH]; intros c r docs Hc Hf Hp; [by exists O|].
  apply Forall_cons in Hf as [He Hf]. cbn [fmap list_fmap concat] in Hp. cbn [length decode_docs].
  destruct (doc_prefix c r e _ Hc He Hp) as [(r1 & c1 & -> & Hp1 & E1 & Hr1)|[E1 Hne]]; rewrite E1.
  - destruct e as [uri st]. destruct (IH c1 r1 (<[uri := st]> docs) Hr1 Hf Hp1) as (k & Ek & Hk).
    exists (S k). split; [done|]. intros ?%app_inv_head. cbn [take]. f_equal. by apply Hk.
  - exists O. split; [done|]. intros ->. by destruct (Hne (concat (encode_doc <$> es))).
Qed.

Lemma add_docs_lookup es docs uri st :
  NoDup es.*1 → foldl add_doc docs es !! uri = Some st ↔ (uri, st) ∈ es ∨ ((uri ∉ es.*1) ∧ docs !! uri = Some st).
Proof.
  revert docs. induction es as [|[u s] es IH]; intros docs Hnd; cbn [foldl].
  { split; [right; split; [apply not_elem_of_nil|done]|]. by intros [?%elem_of_nil|[_ ?]]. }
  cbn [fmap list_fmap fst] in Hnd |- *. apply NoDup_cons in Hnd as [Hu Hnd]. rewrite IH by done. unfold add_doc. cbn [fst snd].
  rewrite !elem_of_cons. destruct (decide (uri = u)) as [->|Hne].
  - rewrite lookup_insert_eq. split.
    + intros [H|[_ [= ->]]]; [|by left; left]. exfalso. apply Hu, list_elem_of_fmap. by exists (u, st).
    + intros [[[= ->]|H]|[H _]]; [by right| |naive_solver]. exfalso. apply Hu, list_elem_of_fmap. by exists (u, st).
  - rewrite lookup_insert_ne by done. naive_solver.
Qed.

Lemma elem_of_doc_entries st uri d : (uri, d) ∈ doc_entries st ↔ st_docs st !! uri = Some d.
Proof. unfold doc_entries. rewrite elem_of_sort_by. apply elem_of_map_to_list. Qed.
Lemma doc_entries_nodup st : NoDup (doc_entries st).*1.
Proof. unfold doc_entries. rewrite sort_by_perm. apply NoDup_fst_map_to_list. Qed.
Lemma length_doc_entries st : length (doc_entries st) = size (st_docs st).
Proof. unfold doc_entries. by rewrite length_sort_by, length_map_to_list. Qed.

(** ** The property *)

(** A prefix of an encoding decodes to a prefix of its documents, and all of it to all of them. *)
Lemma decode_prefix st :
  (∀ uri d, st_docs st !! uri = Some d → doc_fits (uri, d)) →
  Z.of_nat (size (st_docs st)) < 2 ^ 32 → zlen (encode st) < 2 ^ 63 →
  ∀ r, r `prefix_of` encode st → ∃ k, st_docs (decode r) = foldl add_doc ∅ (take k (doc_entries st)) ∧
            (r = encode st → take k (doc_entries st) = doc_entries st).
Proof.
  intros Hfit Hsize Hlen.
  assert (Forall doc_fits (doc_entries st)) as Hf.
  { apply Forall_forall. intros [u d] Hin%elem_of_doc_entries. by apply Hfit. }
  intros r Hp. unfold encode in Hp. replace (as_u32 (Z.of_nat (size (st_docs st)))) with (Z.of_nat (length (doc_entries st))) in Hp
    by (rewrite length_doc_entries; unfold as_u32; rewrite wrapU_id; [done|split; lia]).
  assert (rests (mkCursor r 0) r) as Hc.
  { exists []. split; [done|]. split; [done|]. cbn [cu_bytes]. destruct Hp as [k Hk].
    pose proof (f_equal zlen Hk) as Hz. unfold encode in Hlen. replace (as_u32 (Z.of_nat (size (st_docs st)))) with (Z.of_nat (length (doc_entries st))) in Hlen
      by (rewrite length_doc_entries; unfold as_u32; rewrite wrapU_id; [done|split; lia]).
    rewrite Hk, zlen_app in Hlen. pose proof (zlen_nonneg k). lia. }
  assert (r = encode st → r = le_bytes 4 STATE_PAYLOAD_MAGIC ++ le_bytes 4 (Z.of_nat (length (doc_entries st))) ++ concat (encode_doc <$> doc_entries st)) as Hfull.
  { intros ->. unfold encode. rewrite length_doc_entries. unfold as_u32. rewrite wrapU_id; [done|split; lia]. }
  assert (inU 32 STATE_PAYLOAD_MAGIC) as Hmagic by (split; vm_compute; congruence).
  unfold decode. destruct (u32_prefix _ _ _ _ Hc Hmagic Hp) as [(r1 & c1 & -> & Hp1 & E1 & Hr1)|[E1 Hne]]; rewrite E1.
  2:{ exists O. split; [done|]. intros H%Hfull. by destruct (Hne _ H). }
  rewrite Z.eqb_refl. cbn [negb].
  assert (inU 32 (Z.of_nat (length (doc_entries st)))) as Hn by (rewrite length_doc_entries; split; lia).
  destruct (u32_prefix _ _ _ _ Hr1 Hn Hp1) as [(r2 & c2 & -> & Hp2 & E2 & Hr2)|[E2 Hne]]; rewrite E2.
  2:{ exists O. split; [done|]. intros H%Hfull%app_inv_head. by destruct (Hne _ H). }
  destruct (docs_prefix _ _ _ ∅ Hr2 Hf Hp2) as (k & Ek & Hk). exists k. cbn [st_docs]. rewrite Nat2Z.id. split; [done|].
  intros H%Hfull%app_inv_head%app_inv_head. by apply Hk.
Qed.

Lemma decode_encoded st :
  (∀ uri d, st_docs st !! uri = Some d → doc_fits (uri, d)) →
  Z.of_nat (size (st_docs st)) < 2 ^ 32 → zlen (encode st) < 2 ^ 63 → decode (encode st) = st.
Proof.
  intros Hfit Hsize Hlen. destruct (decode_prefix st Hfit Hsize Hlen (encode st)) as (k & Ek & Hk); [done|]. rewrite Hk in Ek by done.
  pose proof (doc_entries_nodup st) as Hnd.
  destruct st as [docs]. destruct (decode (encode (mkIngestState docs))) as [docs']. cbn [st_docs] in Ek. f_equal.
  apply map_eq. intros u. apply option_eq. intros d. rewrite Ek, add_docs_lookup by done. rewrite elem_of_doc_entries, lookup_empty. naive_solver.
Qed.

(** The workspace-state payload survives its encoding, and a truncated one loses entries but
    never invents or changes any: decoding the whole encoding gives the state back, decoding
    a prefix of it gives a part of the state, and any other payload decodes to something
    (decoding is total), to the empty state when the magic is not there. *)
Theorem state_roundtrip st :
  (∀ uri d, st_docs st !! uri = Some d → doc_fits (uri, d)) →
  Z.of_nat (size (st_docs st)) < 2 ^ 32 → zlen (encode st) < 2 ^ 63 →
  decode (encode st) = st ∧
  (∀ n, st_docs (decode (take n (encode st))) ⊆ st_docs st) ∧
  ∀ b, (∀ rest, b ≠ le_bytes 4 STATE_PAYLOAD_MAGIC ++ rest) → zlen b < 2 ^ 63 → decode b = IngestState_default.
Proof.
  intros Hfit Hsize Hlen.
  pose proof (decode_prefix st Hfit Hsize Hlen) as Hprefix.
  pose proof (doc_entries_nodup st) as Hnd. split_and!.
  - by apply decode_encoded.
  - intros n. destruct (Hprefix (take n (encode st)) ltac:(apply prefix_take)) as (k & -> & _). apply map_subseteq_spec. intros u d.
    assert (NoDup (take k (doc_entries st)).*1) as Hnd' by (rewrite fmap_take; by apply (sublist_NoDup _ _ Hnd), sublist_take).
    rewrite add_docs_lookup, lookup_empty by done. intros [Hin|[_ ?]]; [|done]. apply elem_of_doc_entries. apply elem_of_take in Hin as (i & Hi & _). by eapply list_elem_of_lookup_2.
  - intros b Hb Hl. unfold decode. destruct (cursor_u32 (mkCursor b 0)) as [[m c]|] eqn:E; [|done].
    destruct (Z.eqb_spec m STATE_PAYLOAD_MAGIC) as [->|]; [|done]. exfalso.
    assert (rests (mkCursor b 0) b) as Hc by (by exists []). pose proof (take_rests _ _ 4 Hc ltac:(lia)) as Ht.
    unfold cursor_u32 in E. destruct (Z.leb_spec 4 (zlen b)) as [Hle|]; [|rewrite Ht in E; done].
    destruct Ht as (c' & Et & _). rewrite Et in E. cbn [mbind option_bind] in E. injection E as E _.
    apply (Hb (drop 4 b)). rewrite <- (take_drop 4 b) at 1. f_equal. rewrite <- E.
    rewrite <- (le_bytes_le_val (take 4 b)) at 1. f_equal. rewrite length_take. unfold zlen in Hle. lia.
Qed.

Lemma state_roundtrip_witness :
  let st := mkIngestState {[ lit "a.scala" := mkDocState 3 (lit "AB"); lit "b/c.scala" := mkDocState (-1) [] ]} in
  decode (encode st) = st ∧ st_docs (decode (take 30 (encode st))) ⊆ st_docs st.
Proof.
  intros st. destruct (state_roundtrip st) as (H1 & H2 & _).
  - assert (bool_decide (map_Forall (λ uri d, doc_fits (uri, d)) (st_docs st)) = true) as H by (vm_compute; reflexivity).
    apply bool_decide_eq_true in H.
    intros uri d E. exact (H uri d E).
  - vm_compute. reflexivity.
  - vm_compute. reflexivity.
  - split; [exact H1|exact (H2 30%nat)].
Defined.
