(* ===== verification/SymbolEncoding.v ===== *)
(** Persistent ids and dictionary strings ([ls-engine/src/hash.rs] and
    [ls-engine/src/symbol_encoding.rs]): FNV-1a hashes and the encoding of a symbol key as one
    string of the segment's dictionary. *)

From S2P Require Import Prelude RustStr IndexModel Uri SdbSymbols SdbNormalize.

Open Scope Z_scope.

(** ** [hash.rs] *)

Definition FNV_OFFSET : Z := 14695981039346656037.
Definition FNV_PRIME : Z := 1099511628211.

Definition mix (h b : Z) : Z := as_u64 (Z.lxor h (Z.land b 255) * FNV_PRIME).
Definition fnv1a_64 (b : bytes) : Z := foldl (λ h x, mix h (byte_val x)) FNV_OFFSET b.

Definition doc_id_for (uri : list Z) : Z := Z.shiftr (fnv1a_64 (as_bytes uri)) 1.
Definition target_id_for (bsp_id : list Z) : Z := as_i64 (Z.shiftr (fnv1a_64 (as_bytes bsp_id)) 1).

(** The eight bytes of the document id, lowest first. *)
Fixpoint mix_id (n : nat) (h v : Z) : Z :=
  match n with O => h | S n => mix_id n (mix h v) (Z.shiftr v 8) end.
Definition symbol_id_for (key : SymbolKey) : Z :=
  let h := fnv1a_64 (as_bytes (semantic_symbol key)) in
  let h := match local_doc key with Some doc => mix_id 8 h doc | None => h end in
  as_i64 (Z.shiftr h 1).

(** ** [symbol_encoding.rs] *)

Definition SEP : Z := ch "@".

Definition encode_key (key : SymbolKey) : list Z :=
  match local_doc key with
  | Some doc => semantic_symbol key ++ [SEP] ++ show_u doc
  | None => semantic_symbol key
  end.

Definition encode (semantic_symbol : list Z) (local_doc_id : option Z) : list Z :=
  match local_doc_id with
  | Some id => if is_local semantic_symbol then semantic_symbol ++ [SEP] ++ show_u id else semantic_symbol
  | None => semantic_symbol
  end.

Definition decode (encoded : list Z) : list Z * option Z :=
  match (if starts_with (lit "local") encoded then find_char SEP encoded else None) with
  | Some at_ =>
      if (0 <? at_)%nat then
        match parse_u64 (drop (S at_) encoded) with
        | Some doc_id => (take at_ encoded, Some doc_id)
        | None => (encoded, None)
        end
      else (encoded, None)
  | None => (encoded, None)
  end.

Definition to_key (encoded : list Z) : SymbolKey :=
  let '(raw, doc) := decode encoded in
  match doc with
  | Some id => key_local raw id
  | None => key_global raw
  end.

(** ** Keys *)

(** A key the normalizer makes: local exactly when its symbol is. *)
Definition key_wf (k : SymbolKey) : Prop :=
  match local_doc k with
  | Some d => is_local (semantic_symbol k) = true ∧ inU 64 d
  | None => is_local (semantic_symbol k) = false
  end.

Lemma key_of_wf sym d : inU 64 d → key_wf (key_of sym d).
Proof. intros Hd. unfold key_of, key_wf. by destruct (is_local sym) eqn:E. Qed.

(** The last separator splits a local symbol from its document. *)
Lemma sep_split (a b s t : list Z) :
  (SEP ∉ s) → (SEP ∉ t) → a ++ [SEP] ++ s = b ++ [SEP] ++ t → a = b ∧ s = t.
Proof.
  intros Hs Ht E. apply app_eq_inv in E as [(k & -> & E)|(k & -> & E)]; destruct k as [|x k]; cbn in E.
  - injection E as ->. by rewrite app_nil_r.
  - injection E as <- ->. exfalso. apply Ht. rewrite elem_of_app. right. left.
  - injection E as ->. by rewrite app_nil_r.
  - injection E as <- ->. exfalso. apply Hs. rewrite elem_of_app. right. left.
Qed.

Lemma sep_show_u d : SEP ∉ show_u d.
Proof.
  intros Hin. pose proof (show_u_digits d) as Hd. rewrite Forall_forall in Hd. specialize (Hd _ Hin).
  unfold digit in Hd. change SEP with 64 in Hd. lia.
Qed.

Lemma find_char_app c s t : (c ∉ s) → find_char c (s ++ c :: t) = Some (length s).
Proof.
  induction s as [|x s IH]; intros H; cbn [find_char app]; [by rewrite Z.eqb_refl|].
  apply not_elem_of_cons in H as [Hx Hs]. rewrite (proj2 (Z.eqb_neq x c)) by done. by rewrite IH.
Qed.
Lemma find_char_Some c s i : find_char c s = Some i → ∃ t, s = take i s ++ c :: t ∧ drop (S i) s = t.
Proof.
  revert i. induction s as [|x s IH]; intros i; cbn [find_char]; [done|]. destruct (Z.eqb_spec x c) as [->|].
  - intros [= <-]. by exists s.
  - destruct (find_char c s) as [j|]; [|done]. intros [= <-]. destruct (IH j eq_refl) as (t & Et & Ed).
    exists t. cbn [take drop app]. by rewrite <- Et.
Qed.

(** The qualified form of a local symbol still reads as one. *)
Lemma is_local_qualified sym d : is_local sym = true → is_local (sym ++ [SEP] ++ show_u d) = true.
Proof.
  unfold is_local. intros [[Hl Hs]%andb_true_iff Hb]%andb_true_iff. rewrite !andb_true_iff. split_and!.
  - apply Z.ltb_lt in Hl. apply Z.ltb_lt. rewrite zlen_app. pose proof (zlen_nonneg ([SEP] ++ show_u d)). lia.
  - apply starts_with_true in Hs as [r ->]. apply starts_with_true. rewrite <- app_assoc. by eexists.
  - apply negb_true_iff. apply negb_true_iff in Hb. rewrite !existsb_app, Hb. cbn [orb]. apply orb_false_iff. split; [done|].
    apply not_true_iff_false. intros (x & Hx%list_elem_of_In & Hbx)%existsb_exists.
    pose proof (show_u_digits d) as Hd. rewrite Forall_forall in Hd. specialize (Hd x Hx). unfold digit in Hd.
    unfold is_name_boundary in Hbx. apply existsb_exists in Hbx as (y & Hy & ->%Z.eqb_eq).
    repeat (destruct Hy as [<-|Hy]; [revert Hd; vm_compute; intuition discriminate|]). done.
Qed.

(** A dictionary string that parses as a qualified local ends in a digit. *)
Lemma parse_digits_all acc s v : parse_digits acc s = Some v → Forall digit s.
Proof.
  revert acc. induction s as [|c s IH]; intros acc; cbn [parse_digits]; [constructor|].
  destruct (Z.leb_spec 48 c), (Z.leb_spec c 57); cbn [andb]; try done. destruct (_ <? _); [|done]. intros E. constructor; [done|by eapply IH].
Qed.
Lemma parse_u64_last s v : parse_u64 s = Some v → ∃ t c, s = t ++ [c] ∧ digit c.
Proof.
  unfold parse_u64. intros H. assert (∃ pre ds, s = pre ++ ds ∧ ds ≠ [] ∧ Forall digit ds) as (pre & ds & -> & Hne & Hd).
  { destruct s as [|c s]; [done|]. destruct (c =? ch "+") eqn:E.
    - destruct s as [|c' s]; [done|]. exists [c], (c' :: s). split; [done|]. split; [done|]. by eapply parse_digits_all.
    - exists [], (c :: s). split; [done|]. split; [done|]. by eapply parse_digits_all. }
  destruct (exists_last Hne) as (t & c & ->). exists (pre ++ t), c. split; [by rewrite app_assoc|].
  apply Forall_app in Hd as [_ Hd]. by apply Forall_cons in Hd as [? _].
Qed.

(** The hashes fit 64 bits, and the ids are their upper 63. *)
Lemma fnv_range b : inU 64 (fnv1a_64 b).
Proof.
  unfold fnv1a_64. assert (inU 64 FNV_OFFSET) as H by (split; vm_compute; congruence). revert H. generalize FNV_OFFSET.
  induction b as [|x b IH]; intros h Hh; cbn [foldl]; [done|]. apply IH. apply (wrapU_range 64). lia.
Qed.
Lemma mix_id_range n h v : inU 64 h → inU 64 (mix_id n h v).
Proof. revert h v. induction n as [|n IH]; intros h v Hh; cbn [mix_id]; [done|]. apply IH, (wrapU_range 64). lia. Qed.
Lemma half_range h : inU 64 h → 0 ≤ Z.shiftr h 1 < 2 ^ 63.
Proof. unfold inU. intros Hh. rewrite Z.shiftr_div_pow2 by lia. split; [apply Z.div_pos; lia|apply Z.div_lt_upper_bound; lia]. Qed.
Lemma half_i64 h : inU 64 h → 0 ≤ as_i64 (Z.shiftr h 1) < 2 ^ 63.
Proof. intros Hh%half_range. unfold as_i64. rewrite wrapS_id; [done|lia|unfold inS; lia]. Qed.

(** The encoding is injective on the keys of the normalizer. *)
Lemma encode_key_inj k k' : key_wf k → key_wf k' → encode_key k = encode_key k' → k = k'.
Proof.
  assert (∀ a b d, is_local a = true → is_local b = false → a ++ [SEP] ++ show_u d ≠ b) as Hmix.
  { intros a b d Ha Hb <-. by rewrite is_local_qualified in Hb. }
  intros Hk Hk'. destruct k as [s l], k' as [s' l']. unfold key_wf, encode_key in *. cbn [semantic_symbol local_doc] in *.
  destruct l as [d|], l' as [d'|]; intros E.
  - destruct Hk as [_ Hd], Hk' as [_ Hd']. apply sep_split in E as [-> E]; [|apply sep_show_u..].
    apply show_u_inj in E as ->; [done|unfold inU in *; lia..].
  - destruct Hk as [Hl _]. by destruct (Hmix s s' d Hl Hk' E).
  - destruct Hk' as [Hl _]. by destruct (Hmix s' s d' Hl Hk (eq_sym E)).
  - congruence.
Qed.

(** ** The property *)

(** The dictionary strings of keys are distinct: whatever the symbols are, two keys the
    normalizer makes have the same string only when they are the same key. The encoding is
    reversible on local symbols without the separator and on global symbols that do not end
    in a digit (a SemanticDB global ends in a descriptor's punctuation); [encode] agrees with
    it; and the ids derived from strings are non-negative. *)
Theorem symbol_encoding_faithful k :
  key_wf k →
  (∀ k', key_wf k' → encode_key k = encode_key k' → k = k') ∧
  (match local_doc k with
   | Some _ => SEP ∉ semantic_symbol k
   | None => ∀ t c, semantic_symbol k = t ++ [c] → ¬ digit c
   end → to_key (encode_key k) = k ∧ decode (encode_key k) = (semantic_symbol k, local_doc k)) ∧
  encode (semantic_symbol k) (local_doc k) = encode_key k ∧
  0 ≤ symbol_id_for k < 2 ^ 63 ∧ ∀ uri, 0 ≤ doc_id_for uri < 2 ^ 63 ∧ 0 ≤ target_id_for uri < 2 ^ 63.
Proof.
  intros Hk. split_and!.
  - intros k' Hk'. by apply encode_key_inj.
  - intros Hok. destruct k as [s l]. unfold key_wf, encode_key, to_key in *. cbn [semantic_symbol local_doc] in *.
    destruct l as [d|].
    + destruct Hk as [Hl Hd]. assert (decode (s ++ [SEP] ++ show_u d) = (s, Some d)) as ->; [|done].
      unfold decode. pose proof Hl as [[Hlen Hs]%andb_true_iff _]%andb_true_iff. apply starts_with_true in Hs as [r ->].
      rewrite (proj2 (starts_with_true _ ((lit "local" ++ r) ++ [SEP] ++ show_u d))) by (rewrite <- app_assoc; by eexists).
      set (s := lit "local" ++ r) in *. cbn [app]. rewrite find_char_app by done. apply Z.ltb_lt in Hlen. unfold zlen in Hlen.
      destruct (Nat.ltb_spec 0 (length s)); [|lia]. rewrite take_app_length.
      replace (drop (S (length s)) (s ++ SEP :: show_u d)) with (show_u d).
      2:{ symmetry. change (SEP :: show_u d) with ([SEP] ++ show_u d). rewrite app_assoc. replace (S (length s)) with (length (s ++ [SEP])) by (rewrite length_app; cbn; lia). apply drop_app_length. }
      by rewrite parse_u64_show.
    + assert (decode s = (s, None)) as ->; [|done]. unfold decode.
      destruct (starts_with (lit "local") s); [|done]. destruct (find_char SEP s) as [i|] eqn:Ei; [|done].
      destruct (0 <? i)%nat; [|done]. destruct (parse_u64 (drop (S i) s)) as [v|] eqn:Ev; [|done]. exfalso.
      apply find_char_Some in Ei as (t & Et & Ed). apply parse_u64_last in Ev as (t' & c & Et' & Hc). rewrite Ed in Et'.
      apply (Hok (take i s ++ SEP :: t') c); [|done]. rewrite <- app_assoc. cbn [app]. by rewrite <- Et'.
  - unfold encode, encode_key, key_wf in *. destruct (local_doc k); [by destruct Hk as [-> _]|done].
  - apply half_i64. destruct (local_doc k); [apply mix_id_range|]; apply fnv_range.
  - apply half_i64. destruct (local_doc k); [apply mix_id_range|]; apply fnv_range.
  - intros uri. split; [apply half_range, fnv_range|apply half_i64, fnv_range].
Qed.

Lemma symbol_encoding_faithful_witness :
  let k := key_of (lit "local3") 42 in
  encode_key k = lit "local3@42" ∧ to_key (lit "local3@42") = k ∧ encode_key (key_of (lit "a/B#") 42) ≠ encode_key k.
Proof.
  intros k. assert (key_wf k) as Hk by (split; vm_compute; intuition congruence).
  destruct (symbol_encoding_faithful k Hk) as (H1 & H2 & _). split; [vm_compute; reflexivity|]. split.
  - apply (proj1 (H2 ltac:(vm_compute; intros H; repeat (inversion H as [|? ? ? H']; clear H; subst; try rename H' into H)))).
  - intros E. symmetry in E. apply H1 in E; [revert E; vm_compute; discriminate|vm_compute; reflexivity].
Defined.
