(* ===== verification/Identifiers.v ===== *)
(** New names for renames ([ls-engine/src/identifiers.rs]): what is a plain Scala identifier and
    how a name is written into source. *)

From S2P Require Import Prelude RustStr SdbSymbols.

Open Scope Z_scope.

Definition KEYWORDS : list (list Z) := lit <$>
  ["abstract"; "case"; "catch"; "class"; "def"; "do"; "else"; "enum"; "export"; "extends"; "false"; "final"; "finally";
   "for"; "given"; "if"; "implicit"; "import"; "lazy"; "match"; "new"; "null"; "object"; "override"; "package"; "private";
   "protected"; "return"; "sealed"; "super"; "then"; "throw"; "trait"; "true"; "try"; "type"; "val"; "var"; "while";
   "with"; "yield"; "_"; ":"; "="; "<-"; "=>"; "<:"; ">:"; "#"; "@"; "=>>"; "?=>"]%string.

Definition is_keyword (name : list Z) : bool := bool_decide (name ∈ KEYWORDS).

Definition is_op_char (c : Z) : bool := bool_decide (c ∈ lit "!#%&*+-/:<=>?@\^|~").

Definition UNDERSCORE : Z := ch "_".

(** [name.rfind('_')], as the number of chars before it. *)
Fixpoint rfind (c : Z) (s : list Z) : option nat :=
  match s with
  | [] => None
  | x :: s => match rfind c s with
              | Some i => Some (S i)
              | None => if x =? c then Some O else None
              end
  end.

Section identifiers.
Context `{CharTables}.

Definition is_id_start (c : Z) : bool := (c =? UNDERSCORE) || (c =? ch "$") || is_alphabetic c.
Definition is_id_part (c : Z) : bool := (c =? ch "$") || (c =? UNDERSCORE) || is_alphanumeric c.

(** The alphanumeric and the operator part. *)
Definition split_identifier (name : list Z) : list Z * list Z :=
  match rfind UNDERSCORE name with
  | Some u =>
      if (S u <? length name)%nat && forallb is_op_char (drop (S u) name) && forallb is_id_part (take (S u) name)
      then (take (S u) name, drop (S u) name) else (name, [])
  | None => (name, [])
  end.

Definition is_plain_identifier (name : list Z) : bool :=
  match name with
  | [] => false
  | first :: _ =>
      if forallb is_op_char name then true
      else if negb (is_id_start first) then false
      else let '(alnum, op) := split_identifier name in
           forallb is_id_part alnum && (is_empty op || forallb is_op_char op)
  end.

Definition encode (name : list Z) : result (list Z) (list Z) :=
  if bool_decide (name = []) then Err (lit "new name must not be empty")
  else if existsb (λ c, (c =? ch "`") || (c =? 10) || (c =? 13)) name
  then Err (lit "'" ++ name ++ lit "' is not a valid Scala identifier")
  else if is_plain_identifier name && negb (is_keyword name) then Ok name
  else Ok (lit "`" ++ name ++ lit "`").

(** ** The grammar *)

(** Scala's plain identifiers: an operator, an alphanumeric one, or the latter ending in an
    underscore and followed by an operator. *)
Inductive plain : list Z → Prop :=
| plain_op s : s ≠ [] → Forall (λ c, is_op_char c = true) s → plain s
| plain_alnum c s : is_id_start c = true → Forall (λ c, is_id_part c = true) (c :: s) → plain (c :: s)
| plain_mixed a op : Forall (λ c, is_id_part c = true) a → op ≠ [] → Forall (λ c, is_op_char c = true) op →
    is_id_start (default UNDERSCORE (head a)) = true → plain (a ++ [UNDERSCORE] ++ op).
End identifiers.

(** The token between backticks, if it is quoted: what the text under a span names. *)
Definition unquote (raw : list Z) : list Z :=
  if (2 <=? length raw)%nat && starts_with (lit "`") raw && ends_with (lit "`") raw
  then take (length raw - 2) (drop 1 raw) else raw.

(** ** Lemmas *)

Lemma rfind_app c s t : (c ∉ t) → rfind c (s ++ c :: t) = Some (length s).
Proof.
  assert (∀ t, (c ∉ t) → rfind c t = None) as Hnone.
  { clear. intros t. induction t as [|x t IH]; intros H; cbn [rfind]; [done|]. apply not_elem_of_cons in H as [Hx Ht].
    rewrite IH by done. by rewrite (proj2 (Z.eqb_neq x c)). }
  intros Ht. induction s as [|x s IH]; cbn [app rfind length].
  - rewrite Hnone by done. by rewrite Z.eqb_refl.
  - by rewrite IH.
Qed.

Lemma rfind_Some c s u : rfind c s = Some u → s = take u s ++ [c] ++ drop (S u) s.
Proof.
  revert u. induction s as [|x s IH]; intros u; cbn [rfind]; [done|]. destruct (rfind c s) as [i|] eqn:E.
  - intros [= <-]. cbn [take drop app]. f_equal. by apply IH.
  - destruct (Z.eqb_spec x c) as [->|]; [|done]. by intros [= <-].
Qed.

Lemma forallb_Forall_bool {A : Type} (f : A → bool) l : forallb f l = true ↔ Forall (λ x, f x = true) l.
Proof. rewrite forallb_forall, Forall_forall. by setoid_rewrite list_elem_of_In. Qed.

Section lemmas.
Context `{CharTables}.

Lemma op_not_underscore s : Forall (λ c, is_op_char c = true) s → UNDERSCORE ∉ s.
Proof. intros Hs Hin. rewrite Forall_forall in Hs. specialize (Hs _ Hin). vm_compute in Hs. done. Qed.

Lemma is_plain_exact name : is_plain_identifier name = true ↔ plain name.
Proof.
  split.
  - destruct name as [|c s]; [done|]. unfold is_plain_identifier. destruct (forallb is_op_char (c :: s)) eqn:Eop.
    { intros _. apply plain_op; [done|]. by apply forallb_Forall_bool. }
    destruct (is_id_start c) eqn:Es; [|done]. cbn [negb]. destruct (split_identifier (c :: s)) as [alnum op] eqn:E.
    intros [Ha Hop]%andb_true_iff. apply forallb_Forall_bool in Ha. unfold split_identifier in E.
    destruct (rfind UNDERSCORE (c :: s)) as [u|] eqn:Eu; [|injection E as <- <-; by apply plain_alnum].
    destruct (_ && _) eqn:Ec; [|injection E as <- <-; by apply plain_alnum].
    apply andb_true_iff in Ec as [[Hlen Hops]%andb_true_iff Hpart]. apply forallb_Forall_bool in Hops. pose proof (rfind_Some _ _ _ Eu) as Hsplit.
    rewrite Hsplit. apply plain_mixed.
    + apply forallb_Forall_bool in Hpart. replace (take u (c :: s)) with (take u (take (S u) (c :: s))); [by apply Forall_take|].
      rewrite take_take. f_equal. lia.
    + intros E0. apply (f_equal length) in E0. rewrite length_drop in E0. apply Nat.ltb_lt in Hlen. cbn [length] in *. lia.
    + done.
    + destruct u as [|u]; cbn [take head default from_option]; [|done]. by vm_compute.
  - intros [s' Hne Hs|c s Hc Hs|a op Ha Hne Hop Hst].
    + destruct s' as [|c s]; [done|]. unfold is_plain_identifier. by rewrite (proj2 (forallb_Forall_bool _ _) Hs).
    + unfold is_plain_identifier. destruct (forallb is_op_char (c :: s)); [done|]. rewrite Hc. cbn [negb].
      destruct (split_identifier (c :: s)) as [alnum op] eqn:E. unfold split_identifier in E.
      assert (forallb is_id_part (c :: s) = true) as Hall by (by apply forallb_Forall_bool).
      destruct (rfind UNDERSCORE (c :: s)) as [u|]; [|injection E as <- <-; by rewrite Hall].
      destruct (_ && _) eqn:Ec; apply pair_equal_spec in E as [<- <-]; [|by rewrite Hall].
      apply andb_true_iff in Ec as [[_ ->]%andb_true_iff ->]. by rewrite orb_true_r.
    + assert (∃ c s, a ++ [UNDERSCORE] ++ op = c :: s ∧ is_id_start c = true) as (c & s & E & Hc).
      { destruct a as [|c a]; [by exists UNDERSCORE, op|]. by exists c, (a ++ [UNDERSCORE] ++ op). }
      unfold is_plain_identifier. rewrite E. rewrite <- E. rewrite Hc. cbn [negb]. destruct (forallb is_op_char _); [done|].
      assert (split_identifier (a ++ [UNDERSCORE] ++ op) = (a ++ [UNDERSCORE], op)) as ->.
      { unfold split_identifier. cbn [app]. rewrite rfind_app by (by apply op_not_underscore).
        assert (take (S (length a)) (a ++ UNDERSCORE :: op) = a ++ [UNDERSCORE] ∧ drop (S (length a)) (a ++ UNDERSCORE :: op) = op) as [-> ->].
        { change (UNDERSCORE :: op) with ([UNDERSCORE] ++ op). rewrite app_assoc.
          replace (S (length a)) with (length (a ++ [UNDERSCORE])) by (rewrite length_app; cbn; lia).
          split; [apply take_app_length|apply drop_app_length]. }
        rewrite (proj2 (forallb_Forall_bool _ _) Hop).
        rewrite (proj2 (forallb_Forall_bool is_id_part (a ++ [UNDERSCORE]))).
        2:{ apply Forall_app. split; [done|]. constructor; [|constructor]. unfold is_id_part. by rewrite Z.eqb_refl, orb_true_r. }
        destruct (Nat.ltb_spec (S (length a)) (length (a ++ UNDERSCORE :: op))) as [|Hge]; [done|].
        rewrite length_app in Hge. destruct op; [done|]. cbn [length] in Hge. lia. }
      rewrite (proj2 (forallb_Forall_bool _ op) Hop), orb_true_r, andb_true_r. apply forallb_Forall_bool, Forall_app. split; [done|].
      constructor; [|constructor]. unfold is_id_part. by rewrite Z.eqb_refl, orb_true_r.
Qed.
End lemmas.

(** ** The property *)

(** The names no identifier can have. *)
Definition forbidden (c : Z) : Prop := c = ch "`" ∨ c = 10 ∨ c = 13.

(** Writing a new name is exact. A name is refused exactly when it is empty or holds a
    backtick or a line break; a plain identifier that is no keyword is written as it is, and
    every other name between backticks; and whatever is written reads back as the name once
    the quotes are removed, so distinct names are written differently. *)
Theorem new_name_exact `{CharTables} name :
  ((∃ e, encode name = Err e) ↔ name = [] ∨ ∃ c, c ∈ name ∧ forbidden c) ∧
  (∀ text, encode name = Ok text →
     (text = name ↔ plain name ∧ name ∉ KEYWORDS) ∧ (text ≠ name → text = lit "`" ++ name ++ lit "`") ∧ unquote text = name).
Proof.
  assert (existsb (λ c, (c =? ch "`") || (c =? 10) || (c =? 13)) name = true ↔ ∃ c, c ∈ name ∧ forbidden c) as Hbad.
  { rewrite existsb_exists. unfold forbidden. setoid_rewrite list_elem_of_In. setoid_rewrite orb_true_iff. setoid_rewrite orb_true_iff.
    setoid_rewrite Z.eqb_eq. naive_solver. }
  assert (length (lit "`" ++ name ++ lit "`") = S (S (length name))) as Hlen by (rewrite !length_app; cbn; lia).
  unfold encode. destruct (decide (name = [])) as [->|Hne]; [rewrite bool_decide_true by done; split; [split; [by left|by eexists]|done]|].
  rewrite bool_decide_false by done. destruct (existsb _ name) eqn:Eb.
  { split; [split; [right; by apply Hbad|by eexists]|done]. }
  assert (∀ c, c ∈ name → ¬ forbidden c) as Hok by (intros c Hc Hf; assert (false = true) by (apply Hbad; by exists c); done).
  split.
  { split; [destruct (is_plain_identifier name && _); by intros [? ?]|]. intros [?|(c & Hc & Hf)]; [done|by destruct (Hok c Hc)]. }
  assert (is_plain_identifier name && negb (is_keyword name) = true ↔ plain name ∧ name ∉ KEYWORDS) as Hp.
  { rewrite andb_true_iff, is_plain_exact, negb_true_iff. unfold is_keyword. by rewrite bool_decide_eq_false. }
  intros text. destruct (is_plain_identifier name && negb (is_keyword name)) eqn:E; intros Et.
  - injection Et as <-. split; [split; [intros _; by apply Hp|done]|]. split; [done|]. unfold unquote.
    destruct (starts_with (lit "`") name) eqn:Es; [|by rewrite andb_false_r]. exfalso. apply starts_with_true in Es as [r ->].
    apply (Hok (ch "`")); [left|by left].
  - assert (text = lit "`" ++ name ++ lit "`") as -> by (by injection Et). clear Et.
    split; [split; [intros E'; apply (f_equal length) in E'; cbn in E'; rewrite length_app in E'; cbn in E'; lia|intros H1%Hp; congruence]|]. split; [done|].
    unfold unquote. rewrite Hlen. cbn [Nat.leb andb].
    rewrite (proj2 (starts_with_true _ _)) by (by eexists). cbn [andb].
    assert (ends_with (lit "`") (lit "`" ++ name ++ lit "`") = true) as ->.
    { apply ends_with_true. exists (lit "`" ++ name). by rewrite app_assoc. }
    replace (S (S (length name)) - 2)%nat with (length name) by lia. change (lit "`" ++ name ++ lit "`") with (ch "`" :: name ++ lit "`"). cbn [drop].
    apply take_app_length.
Qed.

Lemma new_name_exact_witness :
  encode (H := ascii_tables) (lit "x_+") = Ok (lit "x_+") ∧ unquote (lit "`type`") = lit "type" ∧
  ∃ e, encode (H := ascii_tables) (lit "a`b") = Err e.
Proof.
  destruct (new_name_exact (H := ascii_tables) (lit "type")) as [_ H1].
  destruct (new_name_exact (H := ascii_tables) (lit "a`b")) as [H2 _].
  split; [vm_compute; reflexivity|]. split.
  - exact (proj2 (proj2 (H1 (lit "`type`") ltac:(vm_compute; reflexivity)))).
  - apply H2. right. exists (ch "`"). split; [right; left|left; reflexivity].
Defined.
