(* ===== verification/Materialize.v ===== *)
(** The materialization of an ingest ([ls-engine/src/ingest.rs], after the documents are read):
    from the primary documents and their batch to the segment's input, with dense ordinals.

    A [HashMap] is a [gmap]: the only iteration is over the keys, which are then sorted. An index
    out of range and a missing map key are [None], where Rust panics. *)

From S2P Require Import Prelude RustStr SdbModel IndexModel SdbSymbols SdbNormalize SdbGroups SdbProfile StoreFormat Search Targets SymbolEncoding Identifiers.

Open Scope Z_scope.

Record PrimaryDoc := mkPrimaryDoc {
  pd_uri : list Z; pd_doc_id : Z; pd_epoch : Z; pd_target_ord : Z; pd_facts : DocFacts; pd_sdb : SdbDocument;
  pd_source_text : list Z
}.

(** [lines.split_inclusive('\n')] *)
Fixpoint split_inclusive (c : Z) (cur s : list Z) : list (list Z) :=
  match s with
  | [] => match cur with [] => [] | _ => [cur] end
  | x :: s => if x =? c then (cur ++ [x]) :: split_inclusive c [] s else split_inclusive c (cur ++ [x]) s
  end.
Definition source_lines (text : list Z) : list (list Z) := split_inclusive 10 [] text.

(** [v[i].push(x)] *)
Definition push_at {A : Type} (v : list (list A)) (i : Z) (x : A) : option (list (list A)) :=
  l ← zget v i; zset v i (l ++ [x]).

(** [for (i, x) in l.iter().enumerate()] *)
Definition enumerate {A : Type} (l : list A) : list (Z * A) := zip (seqZ 0 (zlen l)) l.

Definition occ_flags_for (occ : Occurrence) (facts : DocFacts) : Z :=
  let f := 0 in
  let f := if bool_decide (occ_role occ = Definition_) then Z.lor f OCC_DEFINITION else f in
  let f := if editable facts then Z.lor f OCC_EDITABLE else f in
  let f := if generated facts then Z.lor f OCC_GENERATED else f in
  let f := if readonly facts then Z.lor f OCC_READONLY else f in
  let f := if occ_synthetic occ then Z.lor f OCC_SYNTHETIC else f in
  as_i32 f.

Definition workspace_symbol_kind (kind : SymKind) : bool :=
  match kind with
  | Class_ | Trait | Interface | Object_ | PackageObject | Method | Macro | Type_ | Field => true
  | _ => false
  end.

Definition token_at (lines : list (list Z)) (span : Span) : option (list Z) :=
  chars ← zget lines (start_line span);
  if (zlen chars <? end_char span) || (end_char span <? start_char span) then None else
  Some (unquote (take (Z.to_nat (end_char span) - Z.to_nat (start_char span)) (drop (Z.to_nat (start_char span)) chars))).

Section materialize.
Context `{CharTables}.

Definition expected_token (key : SymbolKey) (display_name_of : gmap SymbolKey (list Z)) (batch : SemanticBatch)
    : option (list Z) :=
  if key_is_local key then display_name_of !! key else
  match split_last (semantic_symbol key) with
  | Some (owner, D_Method name _) =>
      if str_eqb name CONSTRUCTOR_NAME then display_name owner
      else if (2 <? zlen name) && ends_with (lit "_=") name then Some (take (length name - 2) name)
      else if str_eqb name (lit "apply") || str_eqb name (lit "unapply") then
        let class_key := key_global <$> companion owner in
        let same_group :=
          match class_key with
          | Some ck => bool_decide (rename_group_of (b_groups batch) ck = rename_group_of (b_groups batch) key)
          | None => false
          end in
        if same_group then display_name owner else Some name
      else Some name
  | _ =>
      match display_name_of !! key with
      | Some d => Some d
      | None => display_name (semantic_symbol key)
      end
  end.

Definition rename_token_matches (occ : Occurrence) (lines : list (list Z)) (display_name_of : gmap SymbolKey (list Z))
    (batch : SemanticBatch) : bool :=
  if negb (start_line (occ_span occ) =? end_line (occ_span occ)) then false else
  match token_at lines (occ_span occ) with
  | None => false
  | Some token =>
      match expected_token (occ_key occ) display_name_of batch with
      | Some expected => str_eqb token expected
      | None => true
      end
  end.

(** ** The symbol universe *)

Definition segment_keys (batch : SemanticBatch) : list SymbolKey :=
  sort_by key_leb (elements (dom (ref_group_index (b_groups batch)))).

Definition caller_ords (keys : list SymbolKey) : gmap SymbolKey Z :=
  list_to_map (reverse ((λ e : Z * SymbolKey, (e.2, e.1)) <$> enumerate keys)).

(** [map.entry(k).or_insert(v)] *)
Definition entry_or_insert {V : Type} (m : gmap SymbolKey V) (k : SymbolKey) (v : V) : gmap SymbolKey V :=
  match m !! k with Some _ => m | None => <[k := v]> m end.

Definition infos (documents : list NormalizedDocument) : gmap SymbolKey SymbolInfo :=
  foldl (λ m s, entry_or_insert m (si_key s) s) ∅ (concat (nd_symbols <$> documents)).
Definition display_names (documents : list NormalizedDocument) : gmap SymbolKey (list Z) :=
  foldl (λ m s, entry_or_insert m (si_key s) (IndexModel.si_display_name s)) ∅ (concat (nd_symbols <$> documents)).

(** The first definition of each key. *)
Definition note_definition (doc_ord : Z) (m : gmap SymbolKey (Z * Span)) (o : Occurrence) : gmap SymbolKey (Z * Span) :=
  if bool_decide (occ_role o = Definition_) then entry_or_insert m (occ_key o) (as_i32 doc_ord, occ_span o) else m.
Definition definitions (documents : list NormalizedDocument) : gmap SymbolKey (Z * Span) :=
  foldl (λ m e, foldl (note_definition e.1) m (nd_occurrences e.2)) ∅ (enumerate documents).

(** ** The postings *)

Record Postings := mkPostings {
  ps_ref : list (list GroupOcc); ps_def : list (list GroupOcc); ps_rename : list (list GroupOcc);
  ps_doc : list (list DocOcc); ps_def_target : gmap SymbolKey Z
}.

(** The body of the loop over the occurrences of the document [doc_ord]. *)
Definition post_occurrence (batch : SemanticBatch) (caller_ord_of : gmap SymbolKey Z) (display_name_of : gmap SymbolKey (list Z))
    (doc_ord : Z) (p : PrimaryDoc) (lines : list (list Z)) (ps : Postings) (occ : Occurrence) : option Postings :=
  let flags := occ_flags_for occ (pd_facts p) in
  caller ← caller_ord_of !! occ_key occ;
  docs ← push_at (ps_doc ps) doc_ord (mkDocOcc (as_i32 caller) (occ_span occ) flags);
  g ← ref_group_index (b_groups batch) !! occ_key occ;
  let group_occ := mkGroupOcc (as_i32 doc_ord) (pd_epoch p) (as_i32 (pd_target_ord p)) (occ_span occ) flags in
  '(refs, defs, def_target) ←
    (if bool_decide (occ_role occ = Definition_) then
       defs ← push_at (ps_def ps) (Z.of_nat g) group_occ;
       Some (ps_ref ps, defs, entry_or_insert (ps_def_target ps) (occ_key occ) (as_i32 (pd_target_ord p)))
     else
       refs ← push_at (ps_ref ps) (Z.of_nat g) group_occ;
       Some (refs, ps_def ps, ps_def_target ps));
  renames ←
    (if editable (pd_facts p) && negb (occ_synthetic occ) && rename_token_matches occ lines display_name_of batch then
       rg ← rename_group_index (b_groups batch) !! occ_key occ;
       push_at (ps_rename ps) (Z.of_nat rg)
         (mkGroupOcc (as_i32 doc_ord) (pd_epoch p) (as_i32 (pd_target_ord p)) (occ_span occ) (Z.lor flags OCC_EDITABLE))
     else Some (ps_rename ps));
  Some (mkPostings refs defs renames docs def_target).

Definition post_document (batch : SemanticBatch) (caller_ord_of : gmap SymbolKey Z) (display_name_of : gmap SymbolKey (list Z))
    (ps : Postings) (e : Z * (PrimaryDoc * NormalizedDocument)) : option Postings :=
  foldM (post_occurrence batch caller_ord_of display_name_of e.1 e.2.1 (source_lines (pd_source_text e.2.1))) ps
    (nd_occurrences e.2.2).

Definition postings_new (batch : SemanticBatch) (n_docs : nat) : Postings :=
  let ref_group_count := length (ref_groups (b_groups batch)) in
  let rename_group_count := length (rename_groups (b_groups batch)) in
  mkPostings (replicate ref_group_count []) (replicate ref_group_count []) (replicate rename_group_count [])
    (replicate n_docs []) ∅.

Definition post_documents (batch : SemanticBatch) (caller_ord_of : gmap SymbolKey Z) (display_name_of : gmap SymbolKey (list Z))
    (primaries : list PrimaryDoc) : option Postings :=
  foldM (post_document batch caller_ord_of display_name_of) (postings_new batch (length primaries))
    (enumerate (zip primaries (b_documents batch))).

(** ** The tables *)

Definition stored_profile (rename_postings : list (list GroupOcc)) (e : Z * RenameProfile) : option SegRenameProfile :=
  posted ← zget rename_postings e.1;
  let prof := e.2 in
  Some (mkSegRenameProfile (is_local_group prof) (is_external prof) (has_generated_occurrences prof) (has_readonly_occurrences prof)
          (has_override_family prof) (has_companion prof) (as_i32 (zlen posted)) (as_i64 (unsafe_reason_mask prof))).

Definition segment_symbol (batch : SemanticBatch) (def_target_of : gmap SymbolKey Z) (k : SymbolKey) : option SegmentSymbol :=
  r ← ref_group_index (b_groups batch) !! k;
  n ← rename_group_index (b_groups batch) !! k;
  Some (mkSegmentSymbol (encode_key k) (symbol_id_for k) (as_i32 (Z.of_nat r)) (as_i32 (Z.of_nat n)) (default (-1) (def_target_of !! k))).

Definition symbol_meta_of (info_by_key : gmap SymbolKey SymbolInfo) (def_by_key : gmap SymbolKey (Z * Span)) (k : SymbolKey) : SymbolMeta :=
  let info := info_by_key !! k in
  let def := def_by_key !! k in
  mkSymbolMeta (default [] (IndexModel.si_display_name <$> info)) (default [] (i ← info; si_owner_name i))
    (default [] (i ← info; si_package_name i)) (default 0 ((λ i, code (si_kind i)) <$> info)) (default 0 (si_properties <$> info))
    (default (-1) ((λ d, as_i32 (pack (start_line d.2) (start_char d.2))) <$> def))
    (default (-1) ((λ d, as_i32 (pack (end_line d.2) (end_char d.2))) <$> def))
    (default (-1) (fst <$> def)).

Definition search_row_of (info_by_key : gmap SymbolKey SymbolInfo) (def_by_key : gmap SymbolKey (Z * Span)) (e : Z * SymbolKey)
    : option SearchRow :=
  if key_is_local e.2 then None else
  info ← info_by_key !! e.2;
  if negb (bool_decide (is_Some (def_by_key !! e.2))) || negb (workspace_symbol_kind (si_kind info)) then None else
  Some (mkSearchRow (Search.normalize (IndexModel.si_display_name info)) (as_i32 e.1)).

Definition row_leb (a b : SearchRow) : bool :=
  match str_cmp (normalized_name a) (normalized_name b) with
  | Lt => true | Gt => false | Eq => sr_symbol_ord a <=? sr_symbol_ord b
  end.

Definition target_meta_of (t : TargetSpec) : TargetMeta :=
  mkTargetMeta (ts_bsp_id t) (ts_scala_version t) (ts_sourceroot t) (ts_semanticdb_root t) (ts_content_hash t) (ts_options_hash t).

Definition segment_doc_of (p : PrimaryDoc) : SegmentDoc :=
  mkSegmentDoc (pd_uri p) (as_i64 (pd_doc_id p)) (pd_epoch p) (as_i32 (pd_target_ord p)) (generated (pd_facts p)) (readonly (pd_facts p)).

(** [primaries.iter().map(|p| (p.uri.clone(), p.facts)).collect()] *)
Definition facts_by_uri (primaries : list PrimaryDoc) : gmap (list Z) DocFacts :=
  foldl (λ m p, <[pd_uri p := pd_facts p]> m) ∅ primaries.

Definition ingest_batch (primaries : list PrimaryDoc) : option SemanticBatch :=
  assemble_with_facts ((λ p, SdbNormalize.normalize (pd_sdb p) (pd_doc_id p)) <$> primaries) (facts_by_uri primaries).

(** The segment's input. *)
Definition materialize (targets : list TargetSpec) (primaries : list PrimaryDoc) (batch : SemanticBatch) : option SegmentData :=
  let documents := b_documents batch in
  let keys := segment_keys batch in
  let info_by_key := infos documents in
  let def_by_key := definitions documents in
  ps ← post_documents batch (caller_ords keys) (display_names documents) primaries;
  profiles ← mapM (stored_profile (ps_rename ps)) (enumerate (b_rename_profiles batch));
  symbols ← mapM (segment_symbol batch (ps_def_target ps)) keys;
  Some (mkSegmentData (segment_doc_of <$> primaries) ((λ t, target_id_for (ts_bsp_id t)) <$> targets) symbols
          (ps_ref ps) (ps_def ps) (ps_rename ps) profiles (ps_doc ps) (target_meta_of <$> targets)
          (symbol_meta_of info_by_key def_by_key <$> keys)
          (sort_by row_leb (omap (search_row_of info_by_key def_by_key) (enumerate keys)))).
End materialize.
