(* ===== verification/IngestPostings.v ===== *)
(** What the loop over the occurrences materializes: closed forms of the postings of
    [Materialize], and the property that materializing a batch succeeds and loses nothing. *)

From Stdlib Require Import Sorting.Sorted.
From S2P Require Import Prelude RustStr SdbModel IndexModel SdbSymbols SdbNormalize UnionFind SdbGroups SdbProfile StoreFormat Search Targets SymbolEncoding Identifiers Materialize SearchScore.

Open Scope Z_scope.

(** ** Lists *)

(** A loop inside a loop is one loop over the pairs. *)
Lemma foldM_nested {S A B : Type} (f : A → S → B → option S) (g : A → list B) s l :
  foldM (λ s a, foldM (f a) s (g a)) s l = foldM (λ s p, f p.1 s p.2) s (concat ((λ a, (λ b, (a, b)) <$> g a) <$> l)).
Proof.
  revert s. induction l as [|a l IH]; intros s; cbn; [done|]. rewrite foldM_app.
  assert (∀ k s, foldM (λ s p, f p.1 s p.2) s ((λ b, (a, b)) <$> k) = foldM (f a) s k) as ->.
  { induction k as [|b k IHk]; intros w; cbn; [done|]. by destruct (f a w b); cbn. }
  by destruct (foldM (f a) s (g a)); cbn.
Qed.

(** A loop that takes [ideal l] to [ideal (l ++ [x])] computes [ideal]. *)
Lemma foldM_ideal {S A : Type} (f : S → A → option S) (ideal : list A → S) l :
  (∀ k x, x ∈ l → f (ideal k) x = Some (ideal (k ++ [x]))) → foldM f (ideal []) l = Some (ideal l).
Proof.
  intros Hf. assert (∀ k l', l' ⊆ l → foldM f (ideal k) l' = Some (ideal (k ++ l'))) as H.
  { intros k l'. revert k. induction l' as [|x l' IH]; intros k Hl; cbn [foldM]; [by rewrite app_nil_r|].
    rewrite Hf by (apply Hl; left). cbn [mbind option_bind]. rewrite IH by (intros y Hy; apply Hl; by right).
    by rewrite <- app_assoc. }
  apply (H []). done.
Qed.

Lemma push_at_seq {A : Type} (f : nat → list A) n g x :
  (g < n)%nat →
  push_at (f <$> seq 0 n) (Z.of_nat g) x = Some ((λ i, if decide (i = g) then f i ++ [x] else f i) <$> seq 0 n).
Proof.
  intros Hg. unfold push_at. rewrite zget_of_nat, list_lookup_fmap, lookup_seq_lt by done. cbn [fmap option_fmap option_map mbind option_bind].
  unfold zset, zlen. rewrite length_fmap, length_seq. destruct (Z.leb_spec 0 (Z.of_nat g)), (Z.ltb_spec (Z.of_nat g) (Z.of_nat n)); try lia.
  cbn [andb]. f_equal. rewrite Nat2Z.id. apply list_eq. intros i.
  destruct (decide (i < n)%nat) as [Hi|Hi].
  - rewrite !list_lookup_fmap, lookup_seq_lt by done. cbn. destruct (decide (i = g)) as [->|Hne].
    + rewrite list_lookup_insert_eq by (rewrite length_fmap, length_seq; lia). done.
    + rewrite list_lookup_insert_ne by done. by rewrite list_lookup_fmap, lookup_seq_lt.
  - rewrite !lookup_ge_None_2; rewrite ?length_insert, ?length_fmap, ?length_seq; (done || lia).
Qed.

Lemma replicate_seq {A : Type} n (x : A) : replicate n x = (λ _, x) <$> seq 0 n.
Proof. generalize 0%nat. induction n as [|n IH]; intros a; cbn; [done|]. by rewrite (IH (S a)). Qed.

(** [entry(..).or_insert(..)] in a loop: the first value wins. *)
Lemma entry_or_insert_lookup {V : Type} (m : gmap SymbolKey V) k v k' :
  entry_or_insert m k v !! k' = match m !! k' with Some w => Some w | None => if decide (k = k') then Some v else None end.
Proof.
  unfold entry_or_insert. destruct (m !! k) as [w|] eqn:E.
  - destruct (m !! k') eqn:E'; [done|]. case_decide; [congruence|done].
  - destruct (decide (k = k')) as [->|]; [by rewrite lookup_insert_eq, E|]. rewrite lookup_insert_ne by done. by destruct (m !! k').
Qed.

Lemma first_wins {A V : Type} (key : A → SymbolKey) (val : A → V) l k :
  foldl (λ m x, entry_or_insert m (key x) (val x)) ∅ l !! k = val <$> List.find (λ x, bool_decide (key x = k)) l.
Proof.
  assert (∀ m, foldl (λ m x, entry_or_insert m (key x) (val x)) m l !! k =
    match m !! k with Some w => Some w | None => val <$> List.find (λ x, bool_decide (key x = k)) l end) as H.
  { induction l as [|x l IH]; intros m; cbn [foldl List.find]; [by destruct (m !! k)|]. rewrite IH, entry_or_insert_lookup.
    destruct (m !! k); [done|]. destruct (decide (key x = k)); [by rewrite bool_decide_true|by rewrite bool_decide_false]. }
  rewrite H. by rewrite lookup_empty.
Qed.

Lemma enumerate_lookup {A : Type} (l : list A) (i : nat) : enumerate l !! i = (λ x, (Z.of_nat i, x)) <$> l !! i.
Proof.
  unfold enumerate. rewrite (lookup_zip_with pair). destruct (l !! i) as [x|] eqn:E; cbn.
  - rewrite lookup_seqZ_lt; [done|]. apply lookup_lt_Some in E. unfold zlen. lia.
  - by destruct (seqZ 0 (zlen l) !! i).
Qed.

Lemma elem_of_enumerate {A : Type} (l : list A) i x : (i, x) ∈ enumerate l ↔ zget l i = Some x.
Proof.
  rewrite list_elem_of_lookup. setoid_rewrite enumerate_lookup. split.
  - intros (j & Hj). destruct (l !! j) as [y|] eqn:E; cbn in Hj; [|done]. injection Hj as <- <-. by rewrite zget_of_nat.
  - intros Hg. pose proof (zget_Some_lt _ _ _ Hg). exists (Z.to_nat i). rewrite <- (Z2Nat.id i), zget_of_nat in Hg by lia.
    rewrite Hg. cbn. by rewrite Z2Nat.id by lia.
Qed.

Lemma enumerate_values {A : Type} (l : list A) : (enumerate l).*2 = l.
Proof. apply list_eq. intros i. rewrite list_lookup_fmap, enumerate_lookup. by destruct (l !! i). Qed.

(** ** The occurrences of a batch, and their postings *)

(** An occurrence with its document: the ordinal, the primary document, the normalized one. *)
Definition item : Type := (Z * (PrimaryDoc * NormalizedDocument)) * Occurrence.
Definition it_doc (x : item) : Z := x.1.1.
Definition it_primary (x : item) : PrimaryDoc := x.1.2.1.
Definition it_key (x : item) : SymbolKey := IndexModel.occ_key x.2.

Definition items (primaries : list PrimaryDoc) (documents : list NormalizedDocument) : list item :=
  concat ((λ e, (λ o, (e, o)) <$> nd_occurrences e.2.2) <$> enumerate (zip primaries documents)).

Definition defines (x : item) : bool := bool_decide (occ_role x.2 = Definition_).
Definition references (x : item) : bool := negb (defines x).

(** The posting of an occurrence, in a group and in its document. *)
Definition posting_of (x : item) : GroupOcc :=
  mkGroupOcc (as_i32 (it_doc x)) (pd_epoch (it_primary x)) (as_i32 (pd_target_ord (it_primary x))) (occ_span x.2)
    (occ_flags_for x.2 (pd_facts (it_primary x))).
Definition doc_posting_of (ords : gmap SymbolKey Z) (x : item) : DocOcc :=
  mkDocOcc (as_i32 (default 0 (ords !! it_key x))) (occ_span x.2) (occ_flags_for x.2 (pd_facts (it_primary x))).

(** The postings of group [g] under [index] among the occurrences [sel] selects. *)
Definition posted (index : gmap SymbolKey nat) (sel : item → bool) (l : list item) (g : nat) : list GroupOcc :=
  posting_of <$> List.filter (λ x, sel x && bool_decide (index !! it_key x = Some g)) l.

Definition doc_posted (ords : gmap SymbolKey Z) (l : list item) (d : nat) : list DocOcc :=
  doc_posting_of ords <$> List.filter (λ x, it_doc x =? Z.of_nat d) l.

(** The first target that defines each key. *)
Definition def_targets (l : list item) : gmap SymbolKey Z :=
  foldl (λ m x, entry_or_insert m (it_key x) (as_i32 (pd_target_ord (it_primary x)))) ∅ (List.filter defines l).

Lemma posted_snoc index sel l x g :
  posted index sel (l ++ [x]) g =
  posted index sel l g ++ (if sel x && bool_decide (index !! it_key x = Some g) then [posting_of x] else []).
Proof. unfold posted. rewrite filter_snoc, fmap_app. by destruct (_ && _). Qed.

Lemma doc_posted_snoc ords l x d :
  doc_posted ords (l ++ [x]) d = doc_posted ords l d ++ (if it_doc x =? Z.of_nat d then [doc_posting_of ords x] else []).
Proof. unfold doc_posted. rewrite filter_snoc, fmap_app. by destruct (_ =? _). Qed.

Lemma posted_push (index : gmap SymbolKey nat) (sel : item → bool) l x g n :
  index !! it_key x = Some g → (g < n)%nat →
  (if sel x then push_at (posted index sel l <$> seq 0 n) (Z.of_nat g) (posting_of x) else Some (posted index sel l <$> seq 0 n)) =
  Some (posted index sel (l ++ [x]) <$> seq 0 n).
Proof.
  intros Hx Hg. destruct (sel x) eqn:Hs.
  - rewrite push_at_seq by done. f_equal. apply list_fmap_ext. intros _ i _. rewrite posted_snoc, Hs, Hx. cbn [andb].
    case_decide; [by rewrite bool_decide_true by congruence|]. rewrite bool_decide_false by congruence. by rewrite app_nil_r.
  - f_equal. apply list_fmap_ext. intros _ i _. rewrite posted_snoc, Hs. cbn [andb]. by rewrite app_nil_r.
Qed.

Lemma doc_posted_push ords l x n :
  0 ≤ it_doc x < Z.of_nat n →
  push_at (doc_posted ords l <$> seq 0 n) (it_doc x) (doc_posting_of ords x) = Some (doc_posted ords (l ++ [x]) <$> seq 0 n).
Proof.
  intros Hd. rewrite <- (Z2Nat.id (it_doc x)) at 1 by lia. rewrite push_at_seq by lia. f_equal. apply list_fmap_ext. intros _ i _.
  rewrite doc_posted_snoc. case_decide as Hi; destruct (Z.eqb_spec (it_doc x) (Z.of_nat i)); try lia; [done|by rewrite app_nil_r].
Qed.

Section postings.
Context `{CharTables} (primaries : list PrimaryDoc) (batch : SemanticBatch).
Let groups := b_groups batch.
Let names := display_names (b_documents batch).

(** The occurrences a rename rewrites. *)
Definition renames (x : item) : bool :=
  editable (pd_facts (it_primary x)) && negb (occ_synthetic x.2) &&
  rename_token_matches x.2 (source_lines (pd_source_text (it_primary x))) names batch.

Definition ideal_postings (ords : gmap SymbolKey Z) (l : list item) : Postings :=
  mkPostings (posted (ref_group_index groups) references l <$> seq 0 (length (ref_groups groups)))
    (posted (ref_group_index groups) defines l <$> seq 0 (length (ref_groups groups)))
    (posted (rename_group_index groups) renames l <$> seq 0 (length (rename_groups groups)))
    (doc_posted ords l <$> seq 0 (length primaries)) (def_targets l).

(** A posting of an editable document has the editable flag already. *)
Lemma editable_flag occ facts : editable facts = true → Z.lor (occ_flags_for occ facts) OCC_EDITABLE = occ_flags_for occ facts.
Proof.
  unfold editable. intros [[Hg Hr]%andb_true_iff Hd]%andb_true_iff. apply negb_true_iff in Hg, Hr, Hd. unfold occ_flags_for, editable.
  rewrite Hg, Hr, Hd. cbn [negb andb]. case_bool_decide; destruct (occ_synthetic occ); vm_compute; reflexivity.
Qed.

(** What indexing every occurrence takes. *)
Record indexed (ords : gmap SymbolKey Z) (x : item) : Prop := {
  ix_doc : 0 ≤ it_doc x < Z.of_nat (length primaries);
  ix_caller : is_Some (ords !! it_key x);
  ix_ref : ∃ g, ref_group_index groups !! it_key x = Some g ∧ (g < length (ref_groups groups))%nat;
  ix_rename : ∃ g, rename_group_index groups !! it_key x = Some g ∧ (g < length (rename_groups groups))%nat
}.

Lemma post_occurrence_ideal ords l x :
  indexed ords x →
  post_occurrence batch ords names (it_doc x) (it_primary x) (source_lines (pd_source_text (it_primary x))) (ideal_postings ords l) x.2 =
  Some (ideal_postings ords (l ++ [x])).
Proof.
  intros [Hd [c Hc] (g & Hg & Hglt) (rg & Hrg & Hrlt)]. unfold post_occurrence. cbv zeta.
  change (IndexModel.occ_key x.2) with (it_key x). rewrite Hc. cbn [mbind option_bind ps_doc ideal_postings].
  assert (mkDocOcc (as_i32 c) (occ_span x.2) (occ_flags_for x.2 (pd_facts (it_primary x))) = doc_posting_of ords x) as ->.
  { unfold doc_posting_of. by rewrite Hc. }
  rewrite doc_posted_push by done. cbn [mbind option_bind]. unfold groups in Hg. rewrite Hg. cbn [mbind option_bind].
  fold groups in Hg.
  pose proof (posted_push (ref_group_index groups) references l x g _ Hg Hglt) as Hrefs.
  pose proof (posted_push (ref_group_index groups) defines l x g _ Hg Hglt) as Hdefs.
  pose proof (posted_push (rename_group_index groups) renames l x rg _ Hrg Hrlt) as Hren.
  assert (def_targets (l ++ [x]) = if defines x then entry_or_insert (def_targets l) (it_key x) (as_i32 (pd_target_ord (it_primary x)))
                                   else def_targets l) as Ht.
  { unfold def_targets. rewrite filter_snoc, foldl_app. by destruct (defines x). }
  fold (posting_of x). fold (defines x). unfold ideal_postings. cbn [ps_ref ps_def ps_rename ps_def_target].
  set (R := λ l', posted (ref_group_index groups) references l' <$> seq 0 (length (ref_groups groups))) in *.
  set (D := λ l', posted (ref_group_index groups) defines l' <$> seq 0 (length (ref_groups groups))) in *.
  set (N := λ l', posted (rename_group_index groups) renames l' <$> seq 0 (length (rename_groups groups))) in *.
  fold (R l) (D l) (N l) (R (l ++ [x])) (D (l ++ [x])) (N (l ++ [x])) in *.
  rewrite Ht. fold (renames x).
  assert (∀ (r d : list (list GroupOcc)) (t : gmap SymbolKey Z) (dd : list (list DocOcc)),
    (renames ← (if renames x then
       rg ← rename_group_index (b_groups batch) !! it_key x;
       push_at (N l) (Z.of_nat rg) (mkGroupOcc (as_i32 (it_doc x)) (pd_epoch (it_primary x)) (as_i32 (pd_target_ord (it_primary x)))
         (occ_span x.2) (Z.lor (occ_flags_for x.2 (pd_facts (it_primary x))) OCC_EDITABLE))
     else Some (N l)); Some (mkPostings r d renames dd t)) = Some (mkPostings r d (N (l ++ [x])) dd t)) as Hfin.
  { intros r d t dd. destruct (renames x) eqn:Hr; [|by injection Hren as ->].
    fold groups. rewrite Hrg. cbn [mbind option_bind]. rewrite editable_flag by (by apply andb_true_iff in Hr as [[? _]%andb_true_iff _]).
    fold (posting_of x). by rewrite Hren. }
  unfold references in Hrefs. destruct (defines x); cbn [negb] in Hrefs.
  - injection Hrefs as <-. rewrite Hdefs. cbn [mbind option_bind]. apply Hfin.
  - injection Hdefs as <-. rewrite Hrefs. cbn [mbind option_bind]. apply Hfin.
Qed.

Lemma post_documents_ideal ords :
  (∀ x, x ∈ items primaries (b_documents batch) → indexed ords x) →
  post_documents batch ords names primaries = Some (ideal_postings ords (items primaries (b_documents batch))).
Proof.
  intros Hix. unfold post_documents.
  assert (postings_new batch (length primaries) = ideal_postings ords []) as ->.
  { unfold postings_new, ideal_postings. by rewrite !replicate_seq. }
  unfold post_document. rewrite (foldM_nested (λ e, post_occurrence batch ords names e.1 e.2.1 (source_lines (pd_source_text e.2.1)))
    (λ e, nd_occurrences e.2.2)). apply (foldM_ideal _ (ideal_postings ords)). intros k x Hx. by apply post_occurrence_ideal, Hix.
Qed.
End postings.

(** ** The whole input *)

Lemma mapM_total {A B : Type} (f : A → option B) (g : A → B) l : (∀ x, x ∈ l → f x = Some (g x)) → mapM f l = Some (g <$> l).
Proof.
  induction l as [|x l IH]; intros Hf; cbn; [done|]. rewrite Hf by left. cbn. rewrite IH by (intros y Hy; apply Hf; by right). done.
Qed.

Lemma elem_of_segment_keys batch k : k ∈ segment_keys batch ↔ is_Some (ref_group_index (b_groups batch) !! k).
Proof. unfold segment_keys. by rewrite elem_of_sort_by, elem_of_elements, elem_of_dom. Qed.

Lemma segment_keys_NoDup batch : NoDup (segment_keys batch).
Proof. unfold segment_keys. rewrite sort_by_perm. apply NoDup_elements. Qed.

Lemma caller_ords_spec keys k i : NoDup keys → caller_ords keys !! k = Some i ↔ zget keys i = Some k.
Proof.
  intros Hnd. unfold caller_ords. set (l := (λ e : Z * SymbolKey, (e.2, e.1)) <$> enumerate keys).
  assert (NoDup (reverse l).*1) as Hl.
  { rewrite fmap_reverse, reverse_Permutation. unfold l. rewrite <- list_fmap_compose.
    change (NoDup ((enumerate keys).*2)). by rewrite enumerate_values. }
  rewrite <- elem_of_list_to_map by done. rewrite elem_of_reverse. unfold l. rewrite list_elem_of_fmap. split.
  - intros ([j x] & [= -> ->] & Hx). by apply elem_of_enumerate.
  - intros Hi. exists (i, k). split; [done|]. by apply elem_of_enumerate.
Qed.

Lemma elem_of_items primaries documents i p d o :
  ((i, (p, d)), o) ∈ items primaries documents ↔ zget primaries i = Some p ∧ zget documents i = Some d ∧ o ∈ nd_occurrences d.
Proof.
  assert (zget (zip primaries documents) i = Some (p, d) ↔ zget primaries i = Some p ∧ zget documents i = Some d) as Hz.
  { unfold zget. destruct (0 <=? i); [|naive_solver]. rewrite (lookup_zip_with_Some pair). naive_solver. }
  unfold items. split.
  - intros (l & (e & -> & He)%list_elem_of_In%list_elem_of_fmap & (o' & [= <- <-] & Ho)%list_elem_of_In%list_elem_of_fmap)%list_elem_of_In%in_concat.
    apply elem_of_enumerate, Hz in He as [Hp Hd]. done.
  - intros (Hp & Hd & Ho). apply list_elem_of_In, in_concat. exists ((λ o, ((i, (p, d)), o)) <$> nd_occurrences d).
    rewrite <- !list_elem_of_In. split; [|by apply list_elem_of_fmap_2].
    apply list_elem_of_fmap. exists (i, (p, d)). split; [done|]. by apply elem_of_enumerate, Hz.
Qed.

Section data.
Context `{CharTables} (targets : list TargetSpec) (primaries : list PrimaryDoc).

Lemma ingest_batch_ok :
  ∃ batch, ingest_batch primaries = Some batch ∧
    b_documents batch = (λ p, SdbNormalize.normalize (pd_sdb p) (pd_doc_id p)) <$> primaries ∧
    build (b_documents batch) = Some (b_groups batch) ∧ ref_groups (b_groups batch) = rename_groups (b_groups batch) ∧
    ref_group_index (b_groups batch) = rename_group_index (b_groups batch) ∧ groups_indexed (b_groups batch) ∧
    length (b_rename_profiles batch) = length (rename_groups (b_groups batch)) ∧
    (∀ k, is_Some (rename_group_index (b_groups batch) !! k) ↔ k ∈ key_universe (b_documents batch)).
Proof.
  unfold ingest_batch, assemble_with_facts. set (docs := _ <$> primaries).
  destruct (build_shape docs) as (g & Hg & Hgs & Hix & Hdom). pose proof (build_groups_indexed docs g Hg) as Hgi.
  destruct (build_profiles_ok docs g (facts_by_uri primaries) Hgi) as (ps & Hps & Hlen & _).
  rewrite Hg. cbn [mbind option_bind]. rewrite Hps. cbn [mbind option_bind]. eexists. split; [done|]. by split_and!.
Qed.

Context (batch : SemanticBatch) (Hbatch : ingest_batch primaries = Some batch).
Let documents := b_documents batch.
Let occs := items primaries documents.
Let ords := caller_ords (segment_keys batch).

(** The group of a key, as its ordinal. *)
Definition group_ord (k : SymbolKey) : Z := from_option Z.of_nat (-1) (rename_group_of (b_groups batch) k).

Definition ideal_symbol (k : SymbolKey) : SegmentSymbol :=
  mkSegmentSymbol (encode_key k) (symbol_id_for k) (as_i32 (group_ord k)) (as_i32 (group_ord k))
    (from_option (λ x : item, as_i32 (pd_target_ord (it_primary x))) (-1)
       (List.find (λ x, defines x && bool_decide (it_key x = k)) occs)).

Definition ideal_profile (e : Z * RenameProfile) : SegRenameProfile :=
  mkSegRenameProfile (is_local_group e.2) (is_external e.2) (has_generated_occurrences e.2) (has_readonly_occurrences e.2)
    (has_override_family e.2) (has_companion e.2)
    (as_i32 (zlen (posted (rename_group_index (b_groups batch)) (renames batch) occs (Z.to_nat e.1)))) (as_i64 (unsafe_reason_mask e.2)).

Definition ideal_data : SegmentData :=
  let ps := ideal_postings primaries batch ords occs in
  mkSegmentData (segment_doc_of <$> primaries) ((λ t, target_id_for (ts_bsp_id t)) <$> targets) (ideal_symbol <$> segment_keys batch)
    (ps_ref ps) (ps_def ps) (ps_rename ps) (ideal_profile <$> enumerate (b_rename_profiles batch)) (ps_doc ps)
    (target_meta_of <$> targets) (symbol_meta_of (infos documents) (definitions documents) <$> segment_keys batch)
    (sort_by row_leb (omap (search_row_of (infos documents) (definitions documents)) (enumerate (segment_keys batch)))).

Lemma batch_facts :
  b_documents batch = (λ p, SdbNormalize.normalize (pd_sdb p) (pd_doc_id p)) <$> primaries ∧
  build (b_documents batch) = Some (b_groups batch) ∧ ref_groups (b_groups batch) = rename_groups (b_groups batch) ∧
  ref_group_index (b_groups batch) = rename_group_index (b_groups batch) ∧ groups_indexed (b_groups batch) ∧
  length (b_rename_profiles batch) = length (rename_groups (b_groups batch)) ∧
  (∀ k, is_Some (rename_group_index (b_groups batch) !! k) ↔ k ∈ key_universe (b_documents batch)).
Proof. destruct ingest_batch_ok as (b & E & Hb). rewrite Hbatch in E. injection E as <-. exact Hb. Qed.

Lemma group_bound k g : rename_group_index (b_groups batch) !! k = Some g → (g < length (rename_groups (b_groups batch)))%nat.
Proof. intros Hg. destruct batch_facts as (_ & _ & _ & _ & (Hix & _) & _). apply Hix in Hg as (grp & Hl & _). by eapply lookup_lt_Some. Qed.

Lemma all_indexed x : x ∈ occs → indexed primaries batch ords x.
Proof.
  destruct batch_facts as (_ & _ & Hgs & Hix & _ & _ & Hdom). destruct x as [[i [p d]] o].
  intros (Hp & Hd & Ho)%elem_of_items.
  assert (is_Some (rename_group_index (b_groups batch) !! occ_key o)) as [g Hg].
  { apply Hdom, key_universe_spec. left. exists d. split; [by eapply zget_elem_of|]. right. by exists o. }
  pose proof (group_bound _ _ Hg) as Hlt. unfold it_key. split; cbn [fst snd].
  - unfold it_doc. cbn. apply zget_Some_lt in Hp. exact Hp.
  - assert (occ_key o ∈ segment_keys batch) as [j Hj]%elem_of_zget by (apply elem_of_segment_keys; rewrite Hix; by eexists).
    exists j. apply caller_ords_spec; [apply segment_keys_NoDup|done].
  - exists g. by rewrite Hix, Hgs.
  - by exists g.
Qed.

Lemma find_filter {A : Type} (P Q : A → bool) l : List.find Q (List.filter P l) = List.find (λ x, P x && Q x) l.
Proof. induction l as [|x l IH]; cbn; [done|]. destruct (P x); cbn; [by destruct (Q x)|done]. Qed.

Lemma def_targets_lookup l k :
  def_targets l !! k = (λ x : item, as_i32 (pd_target_ord (it_primary x))) <$> List.find (λ x, defines x && bool_decide (it_key x = k)) l.
Proof. unfold def_targets. by rewrite (first_wins it_key), find_filter. Qed.

Lemma materialize_ideal : materialize targets primaries batch = Some ideal_data.
Proof.
  destruct batch_facts as (_ & _ & Hgs & Hix & _ & Hlen & _). unfold materialize. cbv zeta.
  rewrite post_documents_ideal by apply all_indexed. cbn [mbind option_bind ps_rename ps_def_target].
  assert (∀ ps, ps_rename ps = ps_rename (ideal_postings primaries batch ords occs) →
    mapM (stored_profile (ps_rename ps)) (enumerate (b_rename_profiles batch)) = Some (ideal_profile <$> enumerate (b_rename_profiles batch))) as Hp.
  { intros ps ->. apply mapM_total. intros [i q] Hi%elem_of_enumerate. unfold stored_profile. cbn [ps_rename ideal_postings fst snd].
    pose proof (zget_Some_lt _ _ _ Hi) as Hlt. unfold zlen in Hlt. rewrite <- (Z2Nat.id i) by lia.
    rewrite zget_of_nat, list_lookup_fmap, lookup_seq_lt by lia. cbn. unfold ideal_profile. cbn. by rewrite Nat2Z.id. }
  rewrite (Hp (ideal_postings primaries batch ords occs)) by done. cbn [mbind option_bind].
  rewrite (mapM_total _ ideal_symbol).
  { cbn [mbind option_bind]. done. }
  intros k [g Hg]%elem_of_segment_keys. unfold segment_symbol, ideal_symbol, group_ord, rename_group_of. rewrite <- Hix, Hg.
  cbn [mbind option_bind]. do 2 f_equal. unfold ideal_postings. cbn [ps_def_target]. rewrite def_targets_lookup. by destruct (List.find _ _).
Qed.
End data.

(** ** First definitions, documents, search rows *)

Lemma foldl_nested {S A B : Type} (f : A → S → B → S) (g : A → list B) s l :
  foldl (λ s a, foldl (f a) s (g a)) s l = foldl (λ s p, f p.1 s p.2) s (concat ((λ a, (λ b, (a, b)) <$> g a) <$> l)).
Proof.
  revert s. induction l as [|a l IH]; intros s; cbn; [done|]. rewrite foldl_app, IH. f_equal.
  generalize s. induction (g a) as [|b k IHk]; intros w; cbn; [done|]. by rewrite IHk.
Qed.

Lemma foldl_filter {S A : Type} (P : A → bool) (f : S → A → S) s l :
  foldl (λ s x, if P x then f s x else s) s l = foldl f s (List.filter P l).
Proof. revert s. induction l as [|x l IH]; intros s; cbn; [done|]. by destruct (P x); cbn. Qed.

Lemma infos_lookup documents k :
  infos documents !! k = List.find (λ s, bool_decide (si_key s = k)) (concat (nd_symbols <$> documents)).
Proof. unfold infos. rewrite (first_wins si_key). by destruct (List.find _ _). Qed.

Lemma definitions_lookup documents k :
  definitions documents !! k =
  (λ p : (Z * NormalizedDocument) * Occurrence, (as_i32 p.1.1, occ_span p.2)) <$>
  List.find (λ p, bool_decide (occ_role p.2 = Definition_) && bool_decide (occ_key p.2 = k))
    (concat ((λ e, (λ o, (e, o)) <$> nd_occurrences e.2) <$> enumerate documents)).
Proof.
  unfold definitions, note_definition.
  rewrite (foldl_nested (λ e m o, if bool_decide (occ_role o = Definition_) then entry_or_insert m (occ_key o) (as_i32 e.1, occ_span o) else m)
    (λ e, nd_occurrences e.2)).
  rewrite (foldl_filter (λ p : (Z * NormalizedDocument) * Occurrence, bool_decide (occ_role p.2 = Definition_))
    (λ m p, entry_or_insert m (occ_key p.2) (as_i32 p.1.1, occ_span p.2))).
  by rewrite (first_wins (λ p : (Z * NormalizedDocument) * Occurrence, occ_key p.2)), find_filter.
Qed.

(** The occurrences of one document among those of all. *)
Lemma filter_concat {A B : Type} (f : Z * A → list B) (ord : B → Z) (l : list (Z * A)) e :
  NoDup l.*1 → (∀ a b, b ∈ f a → ord b = a.1) → e ∈ l → List.filter (λ b, ord b =? e.1) (concat (f <$> l)) = f e.
Proof.
  intros Hnd Hf. assert (∀ a, a.1 ≠ e.1 → List.filter (λ b, ord b =? e.1) (f a) = []) as Hno.
  { intros a Ha. rewrite <- (app_nil_r (List.filter _ _)). assert (∀ k, k ⊆ f a → List.filter (λ b, ord b =? e.1) k = []) as H; [|by rewrite H].
    induction k as [|b k IH]; intros Hk; cbn; [done|]. rewrite (proj2 (Z.eqb_neq _ _)) by (rewrite (Hf a b) by (apply Hk; left); done).
    apply IH. intros c Hc. apply Hk. by right. }
  induction l as [|a l IH]; intros He; [by apply elem_of_nil in He|]. cbn [fmap list_fmap concat] in *. apply NoDup_cons in Hnd as [Ha Hnd].
  rewrite List.filter_app. apply elem_of_cons in He as [<-|He].
  - assert (List.filter (λ b, ord b =? e.1) (concat (f <$> l)) = []) as ->.
    { clear IH. induction l as [|b l IHl]; cbn; [done|]. cbn [fmap list_fmap] in *. apply not_elem_of_cons in Ha as [Hb Ha]. apply NoDup_cons in Hnd as [_ Hnd].
      rewrite List.filter_app, Hno, IHl by done. done. }
    rewrite app_nil_r. assert (∀ k, k ⊆ f e → List.filter (λ b, ord b =? e.1) k = k) as H; [|by apply H].
    induction k as [|b k IHk]; intros Hk; cbn; [done|]. rewrite (Hf e b) by (apply Hk; left). rewrite Z.eqb_refl, IHk; [done|].
    intros c Hc. apply Hk. by right.
  - rewrite Hno, IH; [done|done|done|]. intros E. destruct Ha. rewrite E. by apply list_elem_of_fmap_2.
Qed.

Lemma enumerate_NoDup {A : Type} (l : list A) : NoDup (enumerate l).*1.
Proof.
  unfold enumerate. rewrite fst_zip; [apply NoDup_seqZ|]. rewrite length_seqZ. unfold zlen. lia.
Qed.

Lemma document_items primaries documents (i : nat) p d :
  primaries !! i = Some p → documents !! i = Some d →
  List.filter (λ x, it_doc x =? Z.of_nat i) (items primaries documents) = (λ o, ((Z.of_nat i, (p, d)), o)) <$> nd_occurrences d.
Proof.
  intros Hp Hd. unfold items.
  apply (filter_concat (λ e : Z * (PrimaryDoc * NormalizedDocument), (λ o, (e, o)) <$> nd_occurrences e.2.2) it_doc _ (Z.of_nat i, (p, d))).
  - apply enumerate_NoDup.
  - intros a b (o & -> & _)%list_elem_of_fmap. done.
  - apply elem_of_enumerate. rewrite zget_of_nat. apply (lookup_zip_with_Some pair). by exists p, d.
Qed.

(** ** The property *)

