(* ===== verification/IngestData.v ===== *)
(** What the writer makes of an ingest: the materialized data is accepted exactly when every
    occurrence has a span the packed positions can hold. *)

From Stdlib Require Import Sorting.Sorted.
From S2P Require Import Prelude RustStr SdbModel IndexModel SdbSymbols SdbNormalize UnionFind SdbGroups SdbProfile StoreFormat SegReader SegWriter SegExample SegValid Search Targets SymbolEncoding Identifiers Materialize IngestPostings.

Open Scope Z_scope.

(** What the ingest loop guarantees of its primary documents. *)
Record primaries_ok (n_targets : Z) (primaries : list PrimaryDoc) : Prop := {
  po_uri : Forall (λ p, pd_uri p ≠ []) primaries;
  po_doc_id : Forall (λ p, pd_doc_id p = doc_id_for (pd_uri p)) primaries;
  po_target : Forall (λ p, 0 ≤ pd_target_ord p < n_targets) primaries
}.

(** ** The keys of the batch *)

Lemma boundary_not_local sym c : c ∈ sym → is_name_boundary c = true → is_local sym = false.
Proof.
  intros Hc Hb. unfold is_local. apply andb_false_iff. right. apply negb_false_iff, existsb_exists. exists c. split; [by apply list_elem_of_In|done].
Qed.

Lemma implied_key_wf k k' : implied_key k = Some k' → key_wf k'.
Proof.
  unfold implied_key. destruct (_ && _); [|done]. destruct (split_last _) as [[owner d]|]; [|done]. cbn [mbind option_bind].
  destruct (ends_with _ owner) eqn:E; [|done]. intros [= <-]. apply ends_with_true in E as [r ->].
  unfold key_wf, key_global. cbn. apply (boundary_not_local _ (ch "#")); [|done]. apply elem_of_app. right. left.
Qed.

Lemma key_universe_wf docs k :
  (∀ d, d ∈ docs → ∃ s i, d = SdbNormalize.normalize s i ∧ inU 64 i) → k ∈ key_universe docs → key_wf k.
Proof.
  intros Hdocs Hk%key_universe_spec.
  assert (∀ k, mentioned docs k → key_wf k) as Hm.
  { intros k' (d & Hd & Hm). destruct (Hdocs d Hd) as (s & i & -> & Hi). destruct Hm as [(y & Hy & <-)|(o & Ho & <-)].
    - cbn in Hy. apply list_elem_of_fmap in Hy as (y' & -> & _). by apply key_of_wf.
    - cbn in Ho. apply list_elem_of_omap in Ho as (o' & _ & Ho). unfold normalize_occurrence in Ho.
      destruct (so_range o') as [r|]; [|discriminate Ho]. destruct (role_of (role_code o')) as [role|]; [|discriminate Ho].
      destruct (negb (is_empty (so_symbol o'))); [|discriminate Ho].
      assert (IndexModel.occ_key o = key_of (so_symbol o') i) as -> by (by injection Ho as <-). by apply key_of_wf. }
  destruct Hk as [Hk|(c & _ & Hc)]; [by apply Hm|by eapply implied_key_wf].
Qed.

(** ** Validation *)

Lemma as_i32_small z : 0 ≤ z < 2 ^ 31 → as_i32 z = z.
Proof. intros Hz. apply wrapS_id; [lia|]. unfold inS. lia. Qed.

Lemma require_true b d : b = true → require b d = Ok tt.
Proof. by intros ->. Qed.

Lemma ord_in_ok v n : 0 ≤ v < n → ord_in v n = true.
Proof. apply ord_in_true. Qed.

Lemma ord_opt_ok v n : v = -1 ∨ 0 ≤ v < n → ord_opt v n = true.
Proof. apply ord_opt_true. Qed.

Section accepted.
Context `{CharTables} (targets : list TargetSpec) (primaries : list PrimaryDoc) (batch : SemanticBatch).
Hypothesis Hbatch : ingest_batch primaries = Some batch.
Hypothesis Hok : primaries_ok (zlen targets) primaries.
Hypothesis Hdocs_fit : zlen primaries < 2 ^ 31.
Hypothesis Htargets_fit : zlen targets < 2 ^ 31.
Hypothesis Hkeys_fit : zlen (segment_keys batch) < 2 ^ 31.
Let data := ideal_data targets primaries batch.
Let occs := items primaries (b_documents batch).

Definition spans_ok : Prop := Forall (λ d, Forall (λ o, span_ok (occ_span o) = true) (nd_occurrences d)) (b_documents batch).

Lemma item_ok x : x ∈ occs → 0 ≤ it_doc x < zlen primaries ∧ 0 ≤ pd_target_ord (it_primary x) < zlen targets ∧
  ∃ d, d ∈ b_documents batch ∧ x.2 ∈ nd_occurrences d.
Proof.
  destruct x as [[i [p d]] o]. intros (Hp & Hd & Ho)%elem_of_items. split; [by eapply zget_Some_lt|]. split.
  - pose proof (po_target _ _ Hok) as Ht. rewrite Forall_forall in Ht. eapply Ht, zget_elem_of, Hp.
  - exists d. split; [by eapply zget_elem_of|done].
Qed.

Lemma posting_accepted x : x ∈ occs → span_ok (occ_span x.2) = true →
  validate_group_occ (zlen primaries) (zlen targets) (posting_of x) = Ok tt.
Proof.
  intros (Hd & Ht & _)%item_ok Hs. unfold validate_group_occ, posting_of. cbn [go_doc_ord go_target_ord go_span].
  rewrite !as_i32_small by lia. rewrite (require_true (ord_in (it_doc x) _)) by by apply ord_in_ok. cbn [mbind result_bind].
  rewrite (require_true (ord_in _ _)) by by apply ord_in_ok. cbn [mbind result_bind]. by apply require_true.
Qed.

Lemma postings_accepted index sel n :
  spans_ok → for_each (for_each (validate_group_occ (zlen primaries) (zlen targets))) (posted index sel occs <$> seq 0 n) = Ok tt.
Proof.
  intros Hs. apply for_each_Ok, Forall_fmap, Forall_forall. intros g _. apply for_each_Ok, Forall_fmap, Forall_forall.
  intros x [Hx _]%elem_of_filter_b. apply posting_accepted; [done|]. destruct (item_ok x Hx) as (_ & _ & d & Hd & Ho).
  unfold spans_ok in Hs. rewrite Forall_forall in Hs. specialize (Hs d Hd). rewrite Forall_forall in Hs. by apply Hs.
Qed.

Lemma groups_le_keys : zlen (rename_groups (b_groups batch)) ≤ zlen (segment_keys batch).
Proof.
  destruct (batch_facts primaries batch Hbatch) as (_ & _ & _ & Hix & (Hgi & _ & Hne) & _ & _).
  assert (seq 0 (length (rename_groups (b_groups batch))) ⊆+ omap (λ k, rename_group_index (b_groups batch) !! k) (segment_keys batch)) as Hsub.
  { apply NoDup_submseteq; [apply NoDup_seq|]. intros g [_ Hg]%elem_of_seq.
    destruct (lookup_lt_is_Some_2 (rename_groups (b_groups batch)) g) as [grp Hgrp]; [lia|].
    destruct (Hne g grp Hgrp) as [k Hk]. assert (rename_group_index (b_groups batch) !! k = Some g) as Hkg by (apply Hgi; by exists grp).
    apply list_elem_of_omap. exists k. split; [|done]. apply elem_of_segment_keys. rewrite Hix. by eexists. }
  apply submseteq_length in Hsub. rewrite length_seq in Hsub. unfold zlen.
  assert (∀ l, (length (omap (λ k, rename_group_index (b_groups batch) !! k) l) ≤ length l)%nat) as Hle.
  { intros l. induction l as [|k l IH]; cbn; [lia|]. destruct (_ !! k); cbn; lia. }
  specialize (Hle (segment_keys batch)). lia.
Qed.

Lemma group_ord_ok k : k ∈ segment_keys batch → 0 ≤ group_ord batch k < zlen (rename_groups (b_groups batch)).
Proof.
  destruct (batch_facts primaries batch Hbatch) as (_ & _ & _ & Hix & _). intros [g Hg]%elem_of_segment_keys. rewrite Hix in Hg.
  pose proof (group_bound primaries batch Hbatch k g Hg). unfold group_ord, rename_group_of. rewrite Hg. cbn. unfold zlen. lia.
Qed.

Lemma symbol_accepted k : k ∈ segment_keys batch →
  validate_symbol (zlen (rename_groups (b_groups batch))) (zlen (rename_groups (b_groups batch))) (zlen targets) (ideal_symbol primaries batch k) = Ok tt.
Proof.
  intros Hk. pose proof groups_le_keys as Hle. pose proof (group_ord_ok k Hk) as Hg. unfold validate_symbol, ideal_symbol.
  cbn [ss_ref_group_ord ss_rename_group_ord ss_def_target_ord]. rewrite as_i32_small by lia.
  rewrite !(require_true (ord_opt (group_ord batch k) _)) by (apply ord_opt_ok; lia). cbn [mbind result_bind]. apply require_true, ord_opt_ok.
  destruct (List.find _ _) as [x|] eqn:E; cbn; [|by left]. right. apply find_some in E as [Hx _].
  apply list_elem_of_In, item_ok in Hx as (_ & Ht & _). rewrite as_i32_small; lia.
Qed.

Lemma meta_accepted k : ord_opt (def_doc_ord (symbol_meta_of (infos (b_documents batch)) (definitions (b_documents batch)) k)) (zlen primaries) = true.
Proof.
  destruct (batch_facts primaries batch Hbatch) as (Hdocs & _). apply ord_opt_ok. unfold symbol_meta_of. cbn [def_doc_ord].
  rewrite definitions_lookup. destruct (List.find _ _) as [[[i d] o]|] eqn:E; cbn; [|by left]. right.
  apply find_some in E as [Hx _]. apply in_concat in Hx as (l & Hl & Hx). apply list_elem_of_In, list_elem_of_fmap in Hl as (e & -> & He).
  apply list_elem_of_In, list_elem_of_fmap in Hx as (o' & [= <- <-] & _). apply elem_of_enumerate, zget_Some_lt in He.
  rewrite Hdocs, zlen_fmap in He. cbn. rewrite as_i32_small; lia.
Qed.

Lemma doc_postings_accepted :
  for_each (for_each (validate_doc_occ (zlen (segment_keys batch)))) (doc_occurrences data) = Ok tt ↔ spans_ok.
Proof.
  destruct (batch_facts primaries batch Hbatch) as (Hdocs & _). rewrite for_each_Ok. unfold spans_ok.
  assert (∀ (i : nat) p d, primaries !! i = Some p → b_documents batch !! i = Some d →
    for_each (validate_doc_occ (zlen (segment_keys batch))) (doc_posted (caller_ords (segment_keys batch)) occs i) = Ok tt ↔
    Forall (λ o, span_ok (occ_span o) = true) (nd_occurrences d)) as Hdoc.
  { intros i p d Hp Hd. unfold doc_posted, occs. rewrite (document_items _ _ i p d Hp Hd), for_each_Ok, !Forall_fmap.
    assert (∀ P Q : Occurrence → Prop, (∀ o, o ∈ nd_occurrences d → P o ↔ Q o) → Forall P (nd_occurrences d) ↔ Forall Q (nd_occurrences d)) as Hiff.
    { intros P Q HPQ. rewrite !Forall_forall. naive_solver. }
    apply Hiff. intros o Ho. unfold compose, validate_doc_occ, doc_posting_of. cbn [do_symbol_ord do_span fst snd].
    destruct (all_indexed primaries batch Hbatch ((Z.of_nat i, (p, d)), o)) as [_ [j Hj] _ _].
    { apply elem_of_items. rewrite !zget_of_nat. done. }
    rewrite Hj. cbn [default from_option]. apply caller_ords_spec in Hj; [|apply segment_keys_NoDup]. apply zget_Some_lt in Hj.
    rewrite (require_true (ord_in (as_i32 j) _)) by (apply ord_in_ok; rewrite as_i32_small; lia). cbn [mbind result_bind]. unfold require. by destruct (span_ok _). }
  unfold data, ideal_data. cbn [doc_occurrences ps_doc ideal_postings]. rewrite !Forall_lookup. split.
  - intros Hf i d Hd. pose proof Hd as Hp. rewrite Hdocs, list_lookup_fmap in Hp. destruct (primaries !! i) as [p|] eqn:Ep; [|done].
    apply (Hdoc i p d Ep Hd). apply (Hf i). rewrite list_lookup_fmap, lookup_seq_lt by (by eapply lookup_lt_Some). done.
  - intros Hf i posts Hi. rewrite list_lookup_fmap in Hi. destruct (seq 0 (length primaries) !! i) as [j|] eqn:Ej; [|done].
    apply lookup_seq in Ej as [-> Hlt]. injection Hi as <-. destruct (lookup_lt_is_Some_2 primaries i Hlt) as [p Hp].
    eapply (Hdoc i p); [done| |eapply (Hf i)]; by rewrite Hdocs, list_lookup_fmap, Hp.
Qed.

Lemma targets_accepted p : p ∈ primaries → validate_doc (zlen targets) (segment_doc_of p) = Ok tt.
Proof.
  intros Hp. pose proof (po_uri _ _ Hok) as Hu. rewrite Forall_forall in Hu. pose proof (po_target _ _ Hok) as Ht. rewrite Forall_forall in Ht.
  specialize (Ht p Hp). unfold validate_doc, segment_doc_of. cbn [doc_uri doc_target_ord]. rewrite bool_decide_false by by apply Hu.
  cbn [negb require mbind result_bind]. apply require_true, ord_in_ok. rewrite as_i32_small; lia.
Qed.

Lemma rows_accepted row : row ∈ search_rows data → ord_in (sr_symbol_ord row) (zlen (segment_keys batch)) = true.
Proof.
  intros Hr. apply ord_in_ok. unfold data, ideal_data in Hr. cbn [search_rows] in Hr. apply elem_of_sort_by, list_elem_of_omap in Hr as ([i k] & Hi & Hr).
  apply elem_of_enumerate, zget_Some_lt in Hi. unfold search_row_of in Hr. cbn [fst snd] in Hr. destruct (key_is_local k); [done|].
  destruct (infos _ !! k); [|done]. cbn [mbind option_bind] in Hr. destruct (_ || _); [done|]. injection Hr as <-. cbn [sr_symbol_ord].
  rewrite as_i32_small; lia.
Qed.

Lemma data_accepted : validate data = Ok tt ↔ spans_ok.
Proof.
  destruct (batch_facts primaries batch Hbatch) as (Hdocs & _ & Hgs & Hix & _ & Hlen & _).
  assert (zlen (ref_occurrences data) = zlen (rename_groups (b_groups batch)) ∧ zlen (def_occurrences data) = zlen (rename_groups (b_groups batch)) ∧
    zlen (rename_occurrences data) = zlen (rename_groups (b_groups batch)) ∧ zlen (rename_profiles data) = zlen (rename_groups (b_groups batch)) ∧
    zlen (doc_occurrences data) = zlen primaries ∧ zlen (docs data) = zlen primaries ∧ zlen (StoreFormat.targets data) = zlen targets ∧
    zlen (target_meta data) = zlen targets ∧ zlen (symbols data) = zlen (segment_keys batch) ∧ zlen (symbol_meta data) = zlen (segment_keys batch))
    as (L1 & L2 & L3 & L4 & L5 & L6 & L7 & L8 & L9 & L10).
  { unfold data, ideal_data, ideal_postings. cbn [ref_occurrences def_occurrences rename_occurrences rename_profiles doc_occurrences docs StoreFormat.targets
      target_meta symbols symbol_meta ps_ref ps_def ps_rename ps_doc]. unfold zlen. rewrite !length_fmap, !length_seq, Hgs.
    split_and!; try done. rewrite <- (length_fmap snd (enumerate _)). change (snd <$> enumerate (b_rename_profiles batch)) with ((enumerate (b_rename_profiles batch)).*2).
    by rewrite enumerate_values, Hlen. }
  unfold validate. cbv zeta. rewrite L1, L2, L3, L4, L5, L6, L7, L8, L9, L10, !Z.eqb_refl, !orb_true_r. cbn [require mbind result_bind].
  assert (for_each (validate_doc (zlen targets)) (docs data) = Ok tt) as ->.
  { apply for_each_Ok, Forall_fmap, Forall_forall. intros p Hp. by apply targets_accepted. }
  assert (for_each (validate_symbol (zlen (rename_groups (b_groups batch))) (zlen (rename_groups (b_groups batch))) (zlen targets)) (symbols data) = Ok tt) as Hsym.
  { apply for_each_Ok, Forall_fmap, Forall_forall. intros k Hk. by apply symbol_accepted. }
  assert (for_each (λ row, require (ord_in (sr_symbol_ord row) (zlen (segment_keys batch))) "search row symbol_ord out of range") (search_rows data) = Ok tt) as Hrows.
  { apply for_each_Ok, Forall_forall. intros row Hrow. by apply require_true, rows_accepted. }
  assert (for_each (λ m, require (ord_opt (def_doc_ord m) (zlen primaries)) "symbol_meta def_doc_ord out of range") (symbol_meta data) = Ok tt) as Hmeta.
  { apply for_each_Ok, Forall_fmap, Forall_forall. intros k _. apply require_true, meta_accepted. }
  cbn [mbind result_bind]. rewrite Hsym, Hrows, Hmeta. rewrite <- doc_postings_accepted. split.
  - intros E. apply bind_Ok in E as ([] & _ & E). by apply bind_Ok in E as ([] & E & _).
  - intros Ed. assert (spans_ok) as Hs by by apply doc_postings_accepted.
    assert (for_each (for_each (for_each (validate_group_occ (zlen primaries) (zlen targets))))
      [ref_occurrences data; def_occurrences data; rename_occurrences data] = Ok tt) as ->.
    { apply for_each_Ok. unfold data, ideal_data, ideal_postings. cbn [ref_occurrences def_occurrences rename_occurrences ps_ref ps_def ps_rename].
      repeat constructor; by apply postings_accepted. }
    cbn [mbind result_bind]. by rewrite Ed.
Qed.

Lemma symbol_strings_distinct : NoDup (ss_semantic_symbol <$> symbols data).
Proof.
  destruct (batch_facts primaries batch Hbatch) as (Hdocs & _ & _ & Hix & _ & _ & Hdom).
  unfold data, ideal_data. cbn [symbols]. rewrite <- list_fmap_compose. apply NoDup_fmap_2_strong; [|apply segment_keys_NoDup].
  assert (∀ k, k ∈ segment_keys batch → key_wf k) as Hwf.
  { intros k Hk%elem_of_segment_keys. rewrite Hix in Hk. apply Hdom in Hk. eapply key_universe_wf; [|exact Hk].
    intros d Hd. rewrite Hdocs in Hd. apply list_elem_of_fmap in Hd as (p & -> & Hp). exists (pd_sdb p), (pd_doc_id p). split; [done|].
    pose proof (po_doc_id _ _ Hok) as Hid. rewrite Forall_forall in Hid. rewrite (Hid p Hp). pose proof (half_range _ (fnv_range (as_bytes (pd_uri p)))) as Hr.
    unfold doc_id_for, inU in *. lia. }
  intros k k' Hk Hk' E. apply encode_key_inj; [by apply Hwf..|exact E].
Qed.
End accepted.

(** ** The property *)

(** C40. One span that does not fit refuses the whole ingest. What an ingest materializes has distinct
    symbol strings, and the writer's validation accepts it if and only if every occurrence of every
    document has a span of columns at most 4095 and lines below 2^20 that does not end before it
    starts; otherwise the segment is not built, however many documents are sound. *)
Theorem ingest_data_accepted `{CharTables} `{!DebugStr} crc32c segment_id created_at_ms targets primaries batch data :
  primaries_ok (zlen targets) primaries → zlen primaries < 2 ^ 31 → zlen targets < 2 ^ 31 →
  ingest_batch primaries = Some batch → zlen (segment_keys batch) < 2 ^ 31 → materialize targets primaries batch = Some data →
  NoDup (ss_semantic_symbol <$> symbols data) ∧ (validate data = Ok tt ↔ spans_ok batch) ∧
  (¬ spans_ok batch → ∃ detail, build_segment crc32c segment_id data created_at_ms = Err (Fails (InvalidInput detail))).
Proof.
  intros Hok Hd Ht Hb Hk Hm. rewrite (materialize_ideal targets primaries batch Hb) in Hm. assert (data = ideal_data targets primaries batch) as -> by congruence.
  split; [by apply symbol_strings_distinct|]. pose proof (data_accepted targets primaries batch Hb Hok Hd Ht Hk) as Hv. split; [done|].
  intros Hs. rewrite <- Hv in Hs. unfold build_segment. destruct (validate_outcome (ideal_data targets primaries batch)) as [[[] Hx]|[d Hx]]; [done|].
  exists d. by rewrite Hx.
Qed.

(** A document with an occurrence at column 5000. *)
Definition wide_doc : PrimaryDoc :=
  let occ := {| so_range := Some {| SdbModel.start_line := 0; start_character := 5000; SdbModel.end_line := 0; end_character := 5001 |};
                so_symbol := lit "a/B#"; role_code := SdbModel.DEFINITION |} in
  mkPrimaryDoc (lit "a.scala") (doc_id_for (lit "a.scala")) 1 0 workspace_source
    {| sd_schema := 4; sd_uri := lit "a.scala"; sd_text := []; sd_md5 := []; language_code := 1; sd_symbols := []; sd_occurrences := [occ] |} [].
Definition wide_targets : list TargetSpec := [target_spec_new (lit "t") (lit "/sdb") (lit "/src")].

Lemma ingest_data_accepted_witness :
  match ingest_batch (H := ascii_tables) [wide_doc] with
  | Some batch => match materialize (H := ascii_tables) wide_targets [wide_doc] batch with
                  | Some data => ∃ detail, build_segment sum_crc 1 data 0 = Err (Fails (InvalidInput detail))
                  | None => False
                  end
  | None => False
  end.
Proof.
  assert (∃ b d, ingest_batch (H := ascii_tables) [wide_doc] = Some b ∧ materialize (H := ascii_tables) wide_targets [wide_doc] b = Some d ∧
    bool_decide (zlen (segment_keys b) < 2 ^ 31 ∧ ¬ Forall (λ d, Forall (λ o, span_ok (occ_span o) = true) (nd_occurrences d)) (b_documents b)) = true)
    as (b & d & Eb & Ed & Hc).
  { eexists _, _. split; [vm_compute; reflexivity|]. split; [vm_compute; reflexivity|]. vm_compute. reflexivity. }
  apply bool_decide_eq_true in Hc as [Hk Hs]. rewrite Eb, Ed.
  destruct (ingest_data_accepted (H := ascii_tables) sum_crc 1 0 wide_targets [wide_doc] b d) as (_ & _ & Hbad); [|reflexivity|reflexivity|exact Eb|exact Hk|exact Ed|exact (Hbad Hs)].
  split; repeat constructor; vm_compute; congruence.
Defined.
