(* ===== verification/Ingest.v ===== *)
(** A full-generation ingest ([ls-engine/src/ingest.rs], [ingest]): walking the SemanticDB files
    of every target into primary documents, and publishing what [Materialize] makes of them.

    The directory tree a listing walks is the one of [FileSystem]; [None] is a Rust panic. *)

From S2P Require Import Prelude RustStr SdbModel SdbParser IndexModel SdbSymbols SdbNormalize SdbGroups SdbProfile Md5 Uri Locator StoreFormat SegReader SegWriter WorkspaceState FileSystem Durable Snapshot Search Targets EngineState SymbolEncoding Materialize.

Open Scope Z_scope.

(** ** The directory tree *)

(** The longest path bounds the depth of a tree. *)
Definition path_fuel (fs : Fs) : nat := S (foldr (λ p n, Nat.max (length p) n) 0%nat (elements (dom (fs_files fs) ∪ fs_dirs fs))).

Fixpoint node_at (fuel : nat) (fs : Fs) (p : path) : FsNode :=
  if FileSystem.is_file fs p then FsFile else
  match fuel with
  | O => FsOther
  | S fuel => FsDir ((λ n, (n, node_at fuel fs (p ++ lit "/" ++ n))) <$> entries fs p)
  end.
Definition dir_node (fs : Fs) (p : path) : option FsNode :=
  if is_dir fs p then Some (node_at (path_fuel fs) fs p) else None.

(** [std::fs::read], [std::fs::read_to_string] *)
Definition read_bytes (fs : Fs) (p : path) : result (list Z) bytes :=
  match read_path fs p with
  | Found b => Ok b
  | NotFound => Err (lit "No such file or directory (os error 2)")
  | ReadFails e => Err e
  end.
Definition read_to_string (fs : Fs) (p : path) : option (list Z) :=
  match read_path fs p with Found b => from_utf8 b | _ => None end.

(** [root.join(uri)] *)
Definition source_path (root uri : list Z) : path := if starts_with (lit "/") uri then uri else dir_join root uri.

(** ** The walk *)

Record SemanticdbFileError := mkFileError { fe_file : list Z; fe_error : list Z }.

Record IngestReport := mkReport {
  ir_segment_id : Z; ir_docs_indexed : Z; ir_docs_shared : Z; ir_docs_stale : Z; ir_docs_skipped : Z; ir_symbol_count : Z;
  ir_ref_group_count : Z; ir_rename_group_count : Z; ir_stale_uris : list (list Z); ir_skipped_uris : list (list Z);
  ir_parse_errors : list SemanticdbFileError; ir_duration_ms : Z
}.

(** The variables of the walk. *)
Record Walk := mkWalk {
  wk_primaries : list PrimaryDoc; wk_index : gmap (list Z) Z; wk_shared : Z; wk_stale : list (list Z); wk_skipped : list (list Z);
  wk_parse_errors : list SemanticdbFileError; wk_new_state : IngestState
}.
Definition walk_new : Walk := mkWalk [] ∅ 0 [] [] [] IngestState_default.

Definition skip_document (w : Walk) (uri : list Z) : Walk :=
  mkWalk (wk_primaries w) (wk_index w) (wk_shared w) (wk_stale w) (wk_skipped w ++ [uri]) (wk_parse_errors w) (wk_new_state w).
Definition note_stale (w : Walk) (uri : list Z) : Walk :=
  mkWalk (wk_primaries w) (wk_index w) (wk_shared w) (wk_stale w ++ [uri]) (wk_skipped w) (wk_parse_errors w) (wk_new_state w).
Definition note_shared (w : Walk) : Walk :=
  mkWalk (wk_primaries w) (wk_index w) (wk_shared w + 1) (wk_stale w) (wk_skipped w) (wk_parse_errors w) (wk_new_state w).
Definition note_parse_error (w : Walk) (e : SemanticdbFileError) : Walk :=
  mkWalk (wk_primaries w) (wk_index w) (wk_shared w) (wk_stale w) (wk_skipped w) (wk_parse_errors w ++ [e]) (wk_new_state w).
Definition add_primary (w : Walk) (p : PrimaryDoc) (md5 : list Z) : Walk :=
  mkWalk (wk_primaries w ++ [p]) (<[pd_uri p := zlen (wk_primaries w)]> (wk_index w)) (wk_shared w) (wk_stale w) (wk_skipped w) (wk_parse_errors w)
    (mkIngestState (<[pd_uri p := mkDocState (pd_epoch p) md5]> (st_docs (wk_new_state w)))).

(** The epoch of a document: kept while its md5 is, bumped when it changes, 1 at first. *)
Definition next_epoch (prev_state : IngestState) (uri md5 : list Z) : Z :=
  match state_get prev_state uri with
  | Some p => if str_eqb (ds_md5 p) md5 then ds_epoch p else as_i32 (ds_epoch p + 1)
  | None => 1
  end.

Section walk.
Context (fs : Fs) (prev_state : IngestState).

(** The body of the loop over the documents of a file. *)
Definition visit_document (target_ord : Z) (spec : TargetSpec) (w : Walk) (sdb : SdbDocument) : option Walk :=
  let uri := sd_uri sdb in
  let path := source_path (ts_sourceroot spec) uri in
  if negb (FileSystem.is_file fs path) then Some (skip_document w uri) else
  match read_to_string fs path with
  | None => Some (skip_document w uri)
  | Some source_text =>
      check ← Md5.validate_doc source_text sdb;
      let w := if negb (is_fresh check) then note_stale w uri else w in
      let facts := facts spec uri in
      if bool_decide (is_Some (wk_index w !! uri)) then Some (note_shared w) else
      let epoch := next_epoch prev_state uri (sd_md5 sdb) in
      Some (add_primary w (mkPrimaryDoc uri (doc_id_for uri) epoch target_ord facts sdb source_text) (sd_md5 sdb))
  end.

Definition visit_file (target_ord : Z) (spec : TargetSpec) (w : Walk) (file : path) : option Walk :=
  match parse_file (read_bytes fs) file with
  | Ok d => foldM (visit_document target_ord spec) w (documents d)
  | Err (Failed e) => Some (note_parse_error w (mkFileError file (sdb_error_display e)))
  | Err _ => None
  end.

(** [SemanticdbLocator::new(root).list_semanticdb_files()] *)
Definition semanticdb_files (spec : TargetSpec) : list path :=
  let root := path_str (Locator.semanticdb_root (locator_new (path_components (ts_semanticdb_root spec)))) in
  list_semanticdb_files root (dir_node fs root).

Definition visit_target (w : Walk) (e : Z * TargetSpec) : option Walk :=
  foldM (visit_file e.1 e.2) w (semanticdb_files e.2).

Definition ingest_walk (targets : list TargetSpec) : option Walk := foldM visit_target walk_new (enumerate targets).
End walk.

(** ** The ingest *)

Section ingest.
Context (io_message : Op → list Z) (denied : Fs → Op → bool) (crc32c : bytes → Z) `{DebugStr} `{CharTables}.
Context (to_json : Manifest → bytes).

(** [IngestState::decode(&s.state().payload)] of the current snapshot. *)
Definition prev_state_of (st : Store) : IngestState :=
  match st_current st with Some s => EngineState.decode (ws_payload (sn_state s)) | None => IngestState_default end.

Definition report_of (snapshot : Snapshot) (w : Walk) (batch : SemanticBatch) (elapsed : Z) : IngestReport :=
  mkReport (sn_segment_id snapshot) (zlen (wk_primaries w)) (wk_shared w) (zlen (wk_stale w)) (zlen (wk_skipped w)) (zlen (segment_keys batch))
    (zlen (ref_groups (b_groups batch))) (zlen (rename_groups (b_groups batch))) (wk_stale w) (wk_skipped w) (wk_parse_errors w) elapsed.

(** What is published: the walk, the batch, the segment's input and the state payload. *)
Definition ingest_input (fs : Fs) (st : Store) (workspace : WorkspaceTargets) : option (Walk * SemanticBatch * SegmentData) :=
  w ← ingest_walk fs (prev_state_of st) (ws_targets workspace);
  batch ← ingest_batch (wk_primaries w);
  data ← materialize (ws_targets workspace) (wk_primaries w) batch;
  Some (w, batch, data).

(** [created_at_ms] and [elapsed] are the clock's; [strong] and [strong'] count the references
    other threads hold while the publication's janitor and the one after it run. *)
Definition ingest (st : Store) (workspace : WorkspaceTargets) (created_at_ms elapsed : Z) (strong strong' : Snapshot → Z)
    : io (Store * (IngestReport * Snapshot)) :=
  input ← ask (λ fs, ingest_input fs st workspace);
  match input with
  | None => lift (Err Aborts)
  | Some (w, batch, data) =>
      r ← publish io_message denied crc32c to_json st data (EngineState.encode (wk_new_state w)) created_at_ms strong;
      st' ← run_janitor denied (λ s, strong' s + own_references None r.2 s) r.1;
      mret (st', (report_of r.2 w batch elapsed, r.2))
  end.
End ingest.
