(* ===== verification/IngestWalk.v ===== *)
(** What the walk of an ingest collects: the events of the files it visits, in order, and the
    properties of its primary documents. *)

From Stdlib Require Import Sorting.Sorted.
From stdpp Require Import sorting.
From S2P Require Import Prelude RustStr SdbModel ProtoWire SdbParser IndexModel SdbSymbols SdbNormalize SdbGroups SdbProfile Md5 Uri Locator StoreFormat SegReader WorkspaceState FileSystem Snapshot Targets EngineState SymbolEncoding Materialize IngestPostings IngestData Ingest.

Open Scope Z_scope.

(** ** Events *)

(** A document whose source can be read: its target, what was decoded, and the source's text. *)
Record Reading := mkReading { rg_ord : Z; rg_spec : TargetSpec; rg_sdb : SdbDocument; rg_text : list Z }.
Definition rg_uri (r : Reading) : list Z := sd_uri (rg_sdb r).

Inductive Event :=
| Read (r : Reading)
| Skipped (uri : list Z)
| Broken (e : SemanticdbFileError).

Section events.
Context (fs : Fs) (prev_state : IngestState).

(** The source of a document, if it is a readable text file. *)
Definition source_of (spec : TargetSpec) (uri : list Z) : option (list Z) :=
  let path := source_path (ts_sourceroot spec) uri in
  if FileSystem.is_file fs path then read_to_string fs path else None.

Definition document_event (ord : Z) (spec : TargetSpec) (sdb : SdbDocument) : Event :=
  match source_of spec (sd_uri sdb) with
  | Some text => Read (mkReading ord spec sdb text)
  | None => Skipped (sd_uri sdb)
  end.

Definition file_events (ord : Z) (spec : TargetSpec) (file : path) : list Event :=
  match parse_file (read_bytes fs) file with
  | Ok d => document_event ord spec <$> documents d
  | Err (Failed e) => [Broken (mkFileError file (sdb_error_display e))]
  | Err _ => []
  end.

Definition target_events (e : Z * TargetSpec) : list Event := concat (file_events e.1 e.2 <$> semanticdb_files fs e.2).
Definition events (targets : list TargetSpec) : list Event := concat (target_events <$> enumerate targets).

(** The document is fresh: its md5 is the digest of the source. *)
Definition reading_fresh (r : Reading) : bool :=
  match Md5.validate_doc (rg_text r) (rg_sdb r) with Some c => is_fresh c | None => false end.

Definition primary_of (r : Reading) : PrimaryDoc :=
  mkPrimaryDoc (rg_uri r) (doc_id_for (rg_uri r)) (next_epoch prev_state (rg_uri r) (sd_md5 (rg_sdb r))) (rg_ord r)
    (facts (rg_spec r) (rg_uri r)) (rg_sdb r) (rg_text r).

Definition apply_event (w : Walk) (ev : Event) : Walk :=
  match ev with
  | Skipped uri => skip_document w uri
  | Broken e => note_parse_error w e
  | Read r =>
      let w := if negb (reading_fresh r) then note_stale w (rg_uri r) else w in
      if bool_decide (is_Some (wk_index w !! rg_uri r)) then note_shared w else add_primary w (primary_of r) (sd_md5 (rg_sdb r))
  end.

Lemma foldM_events {S A B : Type} (f : S → A → option S) (g : S → B → S) (h : A → list B) s l :
  (∀ s x, x ∈ l → f s x = Some (foldl g s (h x))) → foldM f s l = Some (foldl g s (concat (h <$> l))).
Proof.
  revert s. induction l as [|x l IH]; intros s Hf; cbn; [done|]. rewrite Hf by left. cbn. rewrite foldl_app.
  apply IH. intros s' y Hy. apply Hf. by right.
Qed.

Hypothesis Hsized : ∀ p n, fs_files fs !! p = Some n → inU 64 (zlen (fn_bytes n)).

Lemma visit_document_event ord spec w sdb :
  visit_document fs prev_state ord spec w sdb = Some (apply_event w (document_event ord spec sdb)).
Proof.
  unfold visit_document, document_event, source_of. cbv zeta.
  destruct (FileSystem.is_file fs _); cbn [negb]; [|done]. destruct (read_to_string fs _) as [text|]; [|done].
  cbn [apply_event]. unfold reading_fresh, rg_uri. cbn [rg_text rg_sdb].
  destruct (Md5.validate_doc text sdb) as [c|] eqn:E; cbn [mbind option_bind].
  - by destruct (bool_decide (is_Some (wk_index (if negb (is_fresh c) then _ else w) !! sd_uri sdb))).
  - exfalso. unfold validate_doc, validate in E. destruct (sd_md5 sdb); [done|].
    destruct (compute_hex_total text) as (s & Es & _). rewrite Es in E. cbn in E. by destruct (eq_ignore_ascii_case _ _).
Qed.

Lemma parse_file_total file : ∃ r, parse_file (read_bytes fs) file = r ∧ match r with Ok _ | Err (Failed _) => True | _ => False end.
Proof.
  eexists. split; [done|]. unfold parse_file, read_bytes, read_path. destruct (fs_files fs !! file) as [n|] eqn:En; [|by destruct (is_dir fs file)].
  pose proof (parse_text_documents_safe (fn_bytes n) (Hsized _ _ En)) as H. destruct (parse_text_documents _) as [d|[[]| |]]; by cbn in H.
Qed.

Lemma visit_file_events ord spec w file :
  visit_file fs prev_state ord spec w file = Some (foldl apply_event w (file_events ord spec file)).
Proof.
  unfold visit_file, file_events. destruct (parse_file_total file) as (r & -> & Hr). destruct r as [d|[e| |]]; [|done..].
  rewrite (foldM_events _ apply_event (λ sdb, [document_event ord spec sdb])) by (intros; apply visit_document_event).
  do 2 f_equal. induction (documents d) as [|x l IH]; cbn; [done|]. by rewrite IH.
Qed.

Lemma ingest_walk_events targets : ingest_walk fs prev_state targets = Some (foldl apply_event walk_new (events targets)).
Proof.
  unfold ingest_walk, events. apply foldM_events. intros w e _. unfold visit_target, target_events. apply foldM_events.
  intros w' f _. apply visit_file_events.
Qed.
End events.

(** ** First readings *)

Definition readings (l : list Event) : list Reading := omap (λ e, match e with Read r => Some r | _ => None end) l.
Definition skipped (l : list Event) : list (list Z) := omap (λ e, match e with Skipped u => Some u | _ => None end) l.
Definition broken (l : list Event) : list SemanticdbFileError := omap (λ e, match e with Broken x => Some x | _ => None end) l.

Definition reads (uri : list Z) (r : Reading) : bool := bool_decide (rg_uri r = uri).

(** The first reading of every uri, in order. *)
Definition firsts (l : list Reading) : list Reading :=
  foldl (λ acc r, if existsb (reads (rg_uri r)) acc then acc else acc ++ [r]) [] l.

Lemma firsts_snoc l r : firsts (l ++ [r]) = if existsb (reads (rg_uri r)) (firsts l) then firsts l else firsts l ++ [r].
Proof. unfold firsts. by rewrite foldl_app. Qed.

Lemma existsb_reads uri l : existsb (reads uri) l = true ↔ uri ∈ rg_uri <$> l.
Proof.
  rewrite existsb_exists, list_elem_of_fmap. setoid_rewrite <- list_elem_of_In. unfold reads.
  split; intros (r & H1 & H2); exists r; [apply bool_decide_eq_true in H2 as <-; done|]. subst. by rewrite bool_decide_true.
Qed.

Lemma firsts_uris l : (∀ uri, uri ∈ rg_uri <$> firsts l ↔ uri ∈ rg_uri <$> l) ∧ NoDup (rg_uri <$> firsts l).
Proof.
  induction l as [|r l [IH Hnd]] using rev_ind; [split; [done|constructor]|]. rewrite firsts_snoc.
  destruct (existsb _ _) eqn:E.
  - apply existsb_reads in E. split; [|done]. intros uri. rewrite IH, fmap_app, elem_of_app. split; [by left|]. intros [?|Hu]; [done|].
    apply list_elem_of_singleton in Hu as ->. by apply IH.
  - assert (rg_uri r ∉ rg_uri <$> firsts l) as Hr by (intros Hr%existsb_reads; congruence). rewrite !fmap_app. split.
    + intros uri. by rewrite !elem_of_app, IH.
    + apply NoDup_app. split; [done|]. split; [|apply NoDup_singleton]. intros x Hx Hx'. apply list_elem_of_singleton in Hx' as ->. done.
Qed.

Lemma find_snoc {A : Type} (P : A → bool) l x : List.find P (l ++ [x]) = match List.find P l with Some y => Some y | None => if P x then Some x else None end.
Proof. induction l as [|y l IH]; cbn; [done|]. by destruct (P y). Qed.

Lemma find_reads_None uri l : List.find (reads uri) l = None ↔ uri ∉ rg_uri <$> l.
Proof.
  rewrite <- existsb_reads. split.
  - intros H (r & Hr & E)%existsb_exists. by rewrite (find_none _ _ H r Hr) in E.
  - intros H. destruct (List.find _ l) as [r|] eqn:E; [|done]. apply find_some in E as [Hr E]. destruct H. apply existsb_exists. by exists r.
Qed.

(** The reading kept for a uri is the first one. *)
Lemma elem_of_firsts l r : r ∈ firsts l ↔ List.find (reads (rg_uri r)) l = Some r.
Proof.
  induction l as [|x l IH] using rev_ind; [split; [by intros ?%elem_of_nil|done]|]. rewrite firsts_snoc, find_snoc.
  destruct (firsts_uris l) as [Hu _]. destruct (existsb _ _) eqn:E.
  - rewrite IH. destruct (List.find (reads (rg_uri r)) l) as [y|] eqn:Ef; [done|]. split; [done|]. unfold reads. case_bool_decide as Hx; [|done].
    apply find_reads_None in Ef. destruct Ef. apply Hu. rewrite <- Hx. by apply existsb_reads.
  - rewrite elem_of_app, IH, list_elem_of_singleton.
    assert (rg_uri x ∉ rg_uri <$> l) as Hx by (rewrite <- Hu; intros Hx%existsb_reads; congruence). split.
    + intros [->| ->]; [done|]. rewrite (proj2 (find_reads_None _ _) Hx). unfold reads. by rewrite bool_decide_true.
    + destruct (List.find _ l) as [y|]; [by left|]. unfold reads. case_bool_decide; [|done]. intros [= ->]. by right.
Qed.

(** ** What the walk holds *)

Section walked.
Context (prev_state : IngestState).

Record walked (l : list Event) (w : Walk) : Prop := {
  wd_primaries : wk_primaries w = primary_of prev_state <$> firsts (readings l);
  wd_index uri : is_Some (wk_index w !! uri) ↔ uri ∈ rg_uri <$> firsts (readings l);
  wd_shared : wk_shared w + zlen (wk_primaries w) = zlen (readings l);
  wd_stale : wk_stale w = rg_uri <$> List.filter (λ r, negb (reading_fresh r)) (readings l);
  wd_skipped : wk_skipped w = skipped l;
  wd_broken : wk_parse_errors w = broken l;
  wd_state uri : st_docs (wk_new_state w) !! uri =
    (λ r, mkDocState (next_epoch prev_state uri (sd_md5 (rg_sdb r))) (sd_md5 (rg_sdb r))) <$> List.find (reads uri) (readings l)
}.

Lemma walked_new : walked [] walk_new.
Proof. split; try done. intros uri. cbn. rewrite lookup_empty. split; [by intros [? ?]|by intros ?%elem_of_nil]. Qed.

Lemma walked_step l w ev : walked l w → walked (l ++ [ev]) (apply_event prev_state w ev).
Proof.
  intros [Hp Hi Hsh Hst Hsk Hb Hs].
  destruct ev as [r|uri|e].
  - assert (readings (l ++ [Read r]) = readings l ++ [r]) as Er by (unfold readings; by rewrite omap_app).
    assert (skipped (l ++ [Read r]) = skipped l) as Es by (unfold skipped; rewrite omap_app; apply app_nil_r).
    assert (broken (l ++ [Read r]) = broken l) as Eb by (unfold broken; rewrite omap_app; apply app_nil_r).
    set (w1 := if negb (reading_fresh r) then note_stale w (rg_uri r) else w).
    assert (wk_primaries w1 = wk_primaries w ∧ wk_index w1 = wk_index w ∧ wk_shared w1 = wk_shared w ∧ wk_skipped w1 = wk_skipped w ∧
      wk_parse_errors w1 = wk_parse_errors w ∧ wk_new_state w1 = wk_new_state w) as (E1 & E2 & E3 & E4 & E5 & E6).
    { unfold w1. by destruct (negb _). }
    assert (wk_stale w1 = rg_uri <$> List.filter (λ r, negb (reading_fresh r)) (readings (l ++ [Read r]))) as E7.
    { rewrite Er, filter_snoc, fmap_app, <- Hst. unfold w1. destruct (negb _); [done|]. cbn. by rewrite app_nil_r. }
    destruct (firsts_uris (readings l)) as [Hu _].
    cbn [apply_event]. fold w1. rewrite E2. case_bool_decide as Hd.
    + apply Hi in Hd. pose proof Hd as Hx%existsb_reads.
      assert (firsts (readings (l ++ [Read r])) = firsts (readings l)) as Ef by (by rewrite Er, firsts_snoc, Hx).
      split; cbn [note_shared wk_primaries wk_index wk_shared wk_stale wk_skipped wk_parse_errors wk_new_state]; rewrite ?Ef, ?E1, ?E2, ?E3, ?E4, ?E5, ?E6, ?Es, ?Eb; try done.
      * rewrite Er, zlen_app. change (zlen [r]) with 1. lia.
      * intros uri. rewrite Er, find_snoc, Hs. destruct (List.find (reads uri) (readings l)) eqn:En; [done|].
        apply find_reads_None in En. unfold reads. rewrite bool_decide_false; [done|]. intros <-. apply En. by apply Hu.
    + assert (rg_uri r ∉ rg_uri <$> firsts (readings l)) as Hn by (by rewrite <- Hi).
      assert (existsb (reads (rg_uri r)) (firsts (readings l)) = false) as Hx by (by apply not_true_iff_false; rewrite existsb_reads).
      assert (firsts (readings (l ++ [Read r])) = firsts (readings l) ++ [r]) as Ef by (by rewrite Er, firsts_snoc, Hx).
      split; cbn [add_primary wk_primaries wk_index wk_shared wk_stale wk_skipped wk_parse_errors wk_new_state st_docs]; rewrite ?Ef, ?E1, ?E2, ?E3, ?E4, ?E5, ?E6, ?Es, ?Eb; try done.
      * by rewrite fmap_app, Hp.
      * intros uri. rewrite fmap_app. change (rg_uri <$> [r]) with [rg_uri r]. rewrite elem_of_app, list_elem_of_singleton, <- Hi. cbn [primary_of pd_uri].
        destruct (decide (rg_uri r = uri)) as [->|Hne].
        { rewrite lookup_insert_eq. split; [by right|]. intros _. by eexists. }
        rewrite lookup_insert_ne by done. split; [by left|]. intros [?|?]; [done|congruence].
      * rewrite Er, !zlen_app. change (zlen [r]) with 1. change (zlen [primary_of prev_state r]) with 1. lia.
      * intros uri. rewrite Er, find_snoc. cbn [primary_of pd_uri pd_epoch]. destruct (decide (rg_uri r = uri)) as [<-|Hne].
        { rewrite lookup_insert_eq, (proj2 (find_reads_None _ _)) by (by rewrite <- Hu). unfold reads. by rewrite bool_decide_true. }
        rewrite lookup_insert_ne, Hs by done. destruct (List.find _ _); [done|]. unfold reads. by rewrite bool_decide_false.
  - assert (readings (l ++ [Skipped uri]) = readings l) as Er by (unfold readings; rewrite omap_app; apply app_nil_r).
    split; cbn [apply_event skip_document wk_primaries wk_index wk_shared wk_stale wk_skipped wk_parse_errors wk_new_state]; rewrite ?Er; try done.
    + unfold skipped. rewrite omap_app. by f_equal.
    + unfold broken. rewrite omap_app, Hb. symmetry. apply app_nil_r.
  - assert (readings (l ++ [Broken e]) = readings l) as Er by (unfold readings; rewrite omap_app; apply app_nil_r).
    split; cbn [apply_event note_parse_error wk_primaries wk_index wk_shared wk_stale wk_skipped wk_parse_errors wk_new_state]; rewrite ?Er; try done.
    + unfold skipped. rewrite omap_app, Hsk. symmetry. apply app_nil_r.
    + unfold broken. rewrite omap_app. by f_equal.
Qed.

Lemma walked_all l : walked l (foldl (apply_event prev_state) walk_new l).
Proof.
  induction l as [|ev l IH] using rev_ind; [apply walked_new|]. rewrite foldl_app. by apply walked_step.
Qed.
End walked.

(** ** Listing

    Under a directory every path has a directory above it, and no path is both a file and a directory. *)
Definition tree_closed (fs : Fs) (root : path) : Prop :=
  ∀ d n, in_tree root d = true → is_name n → path_exists fs (d ++ [slash] ++ n) = true → is_dir fs d = true ∧ FileSystem.is_file fs d = false.

Lemma in_tree_child root d n : in_tree root d = true → in_tree root (d ++ [slash] ++ n) = true.
Proof.
  intros [->|[r ->]]%in_tree_true; apply in_tree_true; right; [by eexists|].
  exists (r ++ [slash] ++ n). by rewrite <- !app_assoc.
Qed.

(** A string is a name, or a name and the rest after the first separator; or the same from the end. *)
Lemma first_component s : is_name s ∨ ∃ n r, s = n ++ [slash] ++ r ∧ is_name n.
Proof.
  induction s as [|c s IH]; [left; by intros ?%elem_of_nil|]. destruct (decide (c = slash)) as [->|Hc].
  { right. exists [], s. split; [done|]. by intros ?%elem_of_nil. }
  destruct IH as [Hs|(n & r & -> & Hn)].
  - left. unfold is_name. by rewrite not_elem_of_cons.
  - right. exists (c :: n), r. split; [done|]. unfold is_name. by rewrite not_elem_of_cons.
Qed.
Lemma last_component s : is_name s ∨ ∃ r n, s = r ++ [slash] ++ n ∧ is_name n.
Proof.
  induction s as [|c s IH] using rev_ind; [left; by intros ?%elem_of_nil|]. destruct (decide (c = slash)) as [->|Hc].
  { right. exists s, []. split; [done|]. by intros ?%elem_of_nil. }
  destruct IH as [Hs|(r & n & -> & Hn)].
  - left. unfold is_name. rewrite not_elem_of_app. split; [done|]. by rewrite list_elem_of_singleton.
  - right. exists r, (n ++ [c]). split; [by rewrite <- !app_assoc|]. unfold is_name. rewrite not_elem_of_app. split; [done|]. by rewrite list_elem_of_singleton.
Qed.

Section listing.
Context (fs : Fs) (root : path) (Hclosed : tree_closed fs root).

Lemma above_is_dir d r :
  in_tree root d = true → path_exists fs (d ++ [slash] ++ r) = true → is_dir fs d = true ∧ FileSystem.is_file fs d = false.
Proof.
  intros Hd. induction r as [r IH] using (induction_ltof1 _ (@length Z)). unfold ltof in IH. intros Hp.
  destruct (last_component r) as [Hn|(r' & n & -> & Hn)]; [by apply (Hclosed d r)|].
  apply (IH r'); [rewrite !length_app; cbn; lia|]. apply orb_true_iff. right.
  apply (Hclosed (d ++ [slash] ++ r') n); [by apply in_tree_child|done|]. by rewrite <- !app_assoc.
Qed.

Lemma elem_of_entries d n : is_name n → n ∈ entries fs d ↔ path_exists fs (d ++ [slash] ++ n) = true.
Proof.
  intros Hn. unfold entries. rewrite list_elem_of_omap. setoid_rewrite elem_of_elements. setoid_rewrite elem_of_union. setoid_rewrite elem_of_dom.
  unfold path_exists, FileSystem.is_file, is_dir. rewrite orb_true_iff, !bool_decide_eq_true. split.
  - intros (q & Hq & E). destruct (strip_prefix _ q) as [x|] eqn:Ex; [|done]. apply strip_prefix_Some in Ex as ->. cbn in E.
    case_bool_decide; [done|]. injection E as ->. by rewrite <- app_assoc in Hq.
  - intros Hq. exists (d ++ [slash] ++ n). split; [done|]. rewrite app_assoc, strip_prefix_app. cbn. by rewrite bool_decide_false.
Qed.

Lemma path_fuel_bound p : path_exists fs p = true → (length p < path_fuel fs)%nat.
Proof.
  intros Hp. unfold path_fuel. assert (p ∈ elements (dom (fs_files fs) ∪ fs_dirs fs)) as Hin.
  { rewrite elem_of_elements, elem_of_union, elem_of_dom. unfold path_exists, FileSystem.is_file, is_dir in Hp.
    by rewrite orb_true_iff, !bool_decide_eq_true in Hp. }
  induction (elements _) as [|q l IH]; [by apply elem_of_nil in Hin|]. cbn. apply elem_of_cons in Hin as [->|Hin]; [lia|]. specialize (IH Hin). lia.
Qed.

Lemma node_at_file fuel p : node_at fuel fs p = FsFile ↔ FileSystem.is_file fs p = true.
Proof. destruct fuel; cbn; destruct (FileSystem.is_file fs p); done. Qed.

Lemma entry_at_sound fuel d p : entry_at d (node_at fuel fs d) p FsFile → FileSystem.is_file fs p = true ∧ under d p = true.
Proof.
  revert d. induction fuel as [|fuel IH]; intros d; cbn [node_at]; destruct (FileSystem.is_file fs d); try by inversion 1.
  inversion 1 as [? ? name ? Hin|? ? name es ? ? Hin Hrec]; subst.
  - apply list_elem_of_fmap in Hin as (x & [= -> E] & _). symmetry in E. apply node_at_file in E. split; [done|]. apply under_app.
  - apply list_elem_of_fmap in Hin as (x & [= -> E] & _). rewrite E in Hrec. apply IH in Hrec as [Hf Hu]. split; [done|].
    apply under_true in Hu as [r ->]. rewrite <- app_assoc. apply under_app.
Qed.

Lemma entry_at_complete fuel d p :
  in_tree root d = true → (length p < length d + fuel)%nat → under d p = true → FileSystem.is_file fs p = true →
  entry_at d (node_at fuel fs d) p FsFile.
Proof.
  revert d. induction fuel as [|fuel IH]; intros d Hd Hlen [r ->]%under_true Hf; [rewrite length_app in Hlen; lia|].
  assert (path_exists fs (d ++ [slash] ++ r) = true) as Hp by (unfold path_exists; by rewrite Hf).
  cbn [node_at]. destruct (above_is_dir d r Hd Hp) as [_ ->].
  destruct (first_component r) as [Hn|(n & r' & -> & Hn)].
  - apply entry_here; [|done]. apply list_elem_of_fmap. exists r. split; [|by apply elem_of_entries].
    f_equal. symmetry. by apply node_at_file.
  - change ([slash] ++ n ++ [slash] ++ r') with (lit "/" ++ n ++ [slash] ++ r') in *.
    assert (d ++ lit "/" ++ n ++ [slash] ++ r' = (d ++ lit "/" ++ n) ++ [slash] ++ r') as E by (by rewrite <- !app_assoc).
    rewrite E in *. set (d' := d ++ lit "/" ++ n) in *. assert (in_tree root d' = true) as Hd' by by apply in_tree_child.
    destruct (above_is_dir d' r' Hd' Hp) as [Hdir Hnf].
    assert (entry_at d' (node_at fuel fs d') (d' ++ [slash] ++ r') FsFile) as Hrec.
    { apply IH; [done| |by apply under_true; eexists|done]. unfold d' in *. rewrite !length_app in *. cbn in *. lia. }
    destruct fuel as [|fuel]; [cbn [node_at] in Hrec; rewrite Hnf in Hrec; by inversion Hrec|].
    pose proof Hrec as Hrec'. cbn [node_at] in Hrec'. rewrite Hnf in Hrec'.
    eapply (entry_below d _ n); [|exact Hrec']. apply list_elem_of_fmap. exists n. split.
    + cbn [node_at]. fold d'. by rewrite Hnf.
    + apply elem_of_entries; [done|]. unfold path_exists. apply orb_true_iff. by right.
Qed.

Lemma listing_spec p :
  p ∈ list_semanticdb_files root (dir_node fs root) ↔
  FileSystem.is_file fs p = true ∧ under root p = true ∧ ends_with SEMANTICDB_SUFFIX (file_name p) = true.
Proof.
  unfold dir_node. assert (in_tree root root = true) as Hr by (apply in_tree_true; by left).
  destruct (is_dir fs root) eqn:Ed.
  - destruct (node_at _ fs root) as [| |es] eqn:En.
    1,2: split; [by intros ?%elem_of_nil|]; intros (Hf & Hu & _); exfalso;
      assert (path_exists fs p = true) as Hp by (unfold path_exists; by rewrite Hf); pose proof (path_fuel_bound p Hp);
      assert (entry_at root (node_at (path_fuel fs) fs root) p FsFile) as He by (apply entry_at_complete; [done|lia|done|done]);
      rewrite En in He; by inversion He.
    assert (p ∈ list_semanticdb_files root (Some (FsDir es)) ↔ entry_at root (FsDir es) p FsFile ∧ ends_with SEMANTICDB_SUFFIX (file_name p) = true) as ->.
    { apply elem_of_listing. }
    rewrite <- En. split.
    + intros [[Hf Hu]%entry_at_sound Hs]. done.
    + intros (Hf & Hu & Hs). split; [|done]. assert (path_exists fs p = true) as Hp by (unfold path_exists; by rewrite Hf).
      pose proof (path_fuel_bound p Hp). apply entry_at_complete; [done|lia|done|done].
  - split; [by intros ?%elem_of_nil|]. intros (Hf & Hu & _). apply under_true in Hu as [r ->].
    destruct (above_is_dir root r Hr) as [Hx _]; [unfold path_exists; by rewrite Hf|congruence].
Qed.
End listing.

(** ** The order of the readings *)

Lemma readings_app a b : readings (a ++ b) = readings a ++ readings b.
Proof. apply omap_app. Qed.

Lemma elem_of_readings l r : r ∈ readings l ↔ Read r ∈ l.
Proof.
  unfold readings. rewrite list_elem_of_omap. split; [|intros; by exists (Read r)].
  intros ([x|u|e] & Hx & E); [|done..]. by injection E as <-.
Qed.

Section order.
Context (fs : Fs) (targets : list TargetSpec).

Lemma elem_of_target_events e ev :
  ev ∈ target_events fs e ↔ ∃ file, file ∈ semanticdb_files fs e.2 ∧ ev ∈ file_events fs e.1 e.2 file.
Proof.
  unfold target_events. split.
  - intros (l & (file & -> & Hf)%list_elem_of_In%list_elem_of_fmap & Hev%list_elem_of_In)%list_elem_of_In%in_concat. by exists file.
  - intros (file & Hf & Hev). apply list_elem_of_In, in_concat. exists (file_events fs e.1 e.2 file). rewrite <- !list_elem_of_In.
    split; [by apply list_elem_of_fmap_2|done].
Qed.

Lemma elem_of_events ev : ev ∈ events fs targets ↔ ∃ i spec file, zget targets i = Some spec ∧ file ∈ semanticdb_files fs spec ∧ ev ∈ file_events fs i spec file.
Proof.
  unfold events. split.
  - intros (l & ([i spec] & -> & He)%list_elem_of_In%list_elem_of_fmap & Hev%list_elem_of_In)%list_elem_of_In%in_concat.
    apply elem_of_enumerate in He. apply elem_of_target_events in Hev as (file & Hf & Hev). by exists i, spec, file.
  - intros (i & spec & file & Hi & Hf & Hev). apply list_elem_of_In, in_concat. exists (target_events fs (i, spec)). rewrite <- !list_elem_of_In.
    split; [by apply list_elem_of_fmap_2, elem_of_enumerate|]. apply elem_of_target_events. by exists file.
Qed.

Lemma file_events_read i spec file r :
  Read r ∈ file_events fs i spec file ↔
  ∃ d, parse_file (read_bytes fs) file = Ok d ∧ rg_sdb r ∈ documents d ∧ rg_ord r = i ∧ rg_spec r = spec ∧ source_of fs spec (rg_uri r) = Some (rg_text r).
Proof.
  unfold file_events. destruct (parse_file _ file) as [d|[e| |]].
  - rewrite list_elem_of_fmap. unfold document_event. split.
    + intros (sdb & E & Hs). destruct (source_of fs spec (sd_uri sdb)) as [text|] eqn:Es; [|done]. injection E as ->. by exists d.
    + intros (d' & [= <-] & Hs & <- & <- & E). exists (rg_sdb r). split; [|done]. unfold rg_uri in E. rewrite E. by destruct r.
  - split; [by intros ?%list_elem_of_singleton|]. by intros (d & ? & _).
  - split; [by intros ?%elem_of_nil|]. by intros (d & ? & _).
  - split; [by intros ?%elem_of_nil|]. by intros (d & ? & _).
Qed.

Lemma events_sorted : StronglySorted (λ a b, rg_ord a ≤ rg_ord b) (readings (events fs targets)).
Proof.
  unfold events, enumerate. assert (∀ m l, StronglySorted (λ a b, rg_ord a ≤ rg_ord b) (readings (concat (target_events fs <$> zip (seqZ m (zlen l)) l)))
    ∧ ∀ r, r ∈ readings (concat (target_events fs <$> zip (seqZ m (zlen l)) l)) → m ≤ rg_ord r) as H; [|apply H].
  intros m l. revert m. induction l as [|spec l IH]; intros m; [split; [constructor|by intros r ?%elem_of_nil]|].
  rewrite zlen_cons, Z.add_comm. rewrite seqZ_cons by (pose proof (zlen_nonneg l); lia). rewrite Z.add_1_r, Z.pred_succ.
  destruct (IH (Z.succ m)) as [Hs Hm]. cbn [zip zip_with fmap list_fmap concat]. rewrite readings_app.
  assert (∀ r, r ∈ readings (target_events fs (m, spec)) → rg_ord r = m) as Hr.
  { intros r Hr%elem_of_readings. apply elem_of_target_events in Hr as (f & _ & Hr). by apply file_events_read in Hr as (d & _ & _ & ? & _). }
  split.
  - apply StronglySorted_app_2; [|clear -Hr|done].
    + intros a b Ha Hb. rewrite (Hr a Ha). specialize (Hm b Hb). lia.
    + induction (readings _) as [|a k IH]; constructor; [apply IH; intros b Hb; apply Hr; by right|].
      apply Forall_forall. intros b Hb. rewrite (Hr a), (Hr b) by (by left || by right). done.
  - intros r [Hr'|Hr']%elem_of_app; [rewrite (Hr r Hr'); lia|]. specialize (Hm r Hr'). lia.
Qed.
End order.

(** ** The property *)

Definition files_sized (fs : Fs) : Prop := ∀ p n, fs_files fs !! p = Some n → inU 64 (zlen (fn_bytes n)).

(** C39. The walk of an ingest never panics and misses nothing. It reads every document that decodes
    from a listed file and whose source is a text file, where the listed files are, in a sound
    directory tree, exactly the files below the target's SemanticDB root with the suffix; every
    document that decodes otherwise is counted as skipped, and every file that does not decode as an
    error. The primary documents are the first readings of each uri, so of the first target in
    workspace order that has it; every other reading is counted as shared; a document whose md5 does
    not match its source is listed as stale and read all the same; and the new state gives each uri
    the md5 it was read with and an epoch that is the previous one exactly as long as the md5 is. *)
Theorem ingest_walk_exact fs prev_state targets :
  files_sized fs →
  ∃ w, ingest_walk fs prev_state targets = Some w ∧
  let evs := events fs targets in let rs := readings evs in
  (∀ r, r ∈ rs ↔ ∃ file d, zget targets (rg_ord r) = Some (rg_spec r) ∧ file ∈ semanticdb_files fs (rg_spec r) ∧
     parse_file (read_bytes fs) file = Ok d ∧ rg_sdb r ∈ documents d ∧ source_of fs (rg_spec r) (rg_uri r) = Some (rg_text r)) ∧
  (∀ spec root, root = path_str (Locator.semanticdb_root (locator_new (path_components (ts_semanticdb_root spec)))) → tree_closed fs root →
     ∀ file, file ∈ semanticdb_files fs spec ↔
       FileSystem.is_file fs file = true ∧ under root file = true ∧ ends_with SEMANTICDB_SUFFIX (file_name file) = true) ∧
  (∀ p, p ∈ wk_primaries w ↔ ∃ r, p = primary_of prev_state r ∧ List.find (reads (rg_uri r)) rs = Some r) ∧
  NoDup (pd_uri <$> wk_primaries w) ∧
  (∀ r, r ∈ rs → ∃ r0, List.find (reads (rg_uri r)) rs = Some r0 ∧ primary_of prev_state r0 ∈ wk_primaries w ∧ rg_uri r0 = rg_uri r ∧ rg_ord r0 ≤ rg_ord r) ∧
  wk_shared w = zlen rs - zlen (wk_primaries w) ∧
  wk_stale w = rg_uri <$> List.filter (λ r, negb (reading_fresh r)) rs ∧
  wk_skipped w = skipped evs ∧ wk_parse_errors w = broken evs ∧
  (∀ uri st, st_docs (wk_new_state w) !! uri = Some st ↔
     ∃ r, List.find (reads uri) rs = Some r ∧ ds_md5 st = sd_md5 (rg_sdb r) ∧
       ds_epoch st = match state_get prev_state uri with
                     | Some old => if bool_decide (ds_md5 old = sd_md5 (rg_sdb r)) then ds_epoch old else as_i32 (ds_epoch old + 1)
                     | None => 1
                     end).
Proof.
  intros Hsized. exists (foldl (apply_event prev_state) walk_new (events fs targets)). split; [by apply ingest_walk_events|].
  destruct (walked_all prev_state (events fs targets)) as [Hp Hi Hsh Hst Hsk Hb Hs]. cbv zeta.
  set (w := foldl _ walk_new _) in *. set (rs := readings (events fs targets)) in *. split_and!.
  - intros r. unfold rs. rewrite elem_of_readings, elem_of_events. setoid_rewrite file_events_read. split.
    + intros (i & spec & file & Hz & Hf & d & Hd & Hr & <- & <- & Ht). by exists file, d.
    + intros (file & d & Hz & Hf & Hd & Hr & Ht). exists (rg_ord r), (rg_spec r), file. split; [done|]. split; [done|]. by exists d.
  - intros spec root -> Hc file. by apply listing_spec.
  - intros p. rewrite Hp, list_elem_of_fmap. by setoid_rewrite elem_of_firsts.
  - rewrite Hp, <- list_fmap_compose. apply firsts_uris.
  - intros r Hr. assert (rg_uri r ∈ rg_uri <$> rs) as Hu by by apply list_elem_of_fmap_2.
    destruct (List.find (reads (rg_uri r)) rs) as [r0|] eqn:E; [|by apply find_reads_None in E]. exists r0.
    pose proof (find_some _ _ E) as [Hr0 Eq%bool_decide_eq_true]. split; [done|]. split.
    { rewrite Hp. apply list_elem_of_fmap_2, elem_of_firsts. by rewrite Eq. }
    split; [done|]. pose proof (events_sorted fs targets) as Hsrt. fold rs in Hsrt. clear -Hsrt Hr E.
    induction rs as [|x l IH]; [done|]. cbn [List.find] in E. apply StronglySorted_cons in Hsrt as [Hx Hl]. rewrite Forall_forall in Hx.
    apply elem_of_cons in Hr as [->|Hr].
    + assert (reads (rg_uri x) x = true) as Ex by (by apply bool_decide_true). rewrite Ex in E. injection E as ->. done.
    + destruct (reads (rg_uri r) x); [injection E as ->; by apply Hx|by apply IH].
  - lia.
  - done.
  - done.
  - done.
  - intros uri st. rewrite Hs. split.
    + destruct (List.find _ rs) as [r|]; [|done]. intros [= <-]. exists r. split; [done|]. split; [done|]. cbn [ds_epoch]. unfold next_epoch.
      destruct (state_get prev_state uri) as [old|]; [|done]. case_bool_decide as Hm; [by rewrite (proj2 (str_eqb_true _ _) Hm)|].
      destruct (str_eqb _ _) eqn:E; [by apply str_eqb_true in E|done].
    + intros (r & -> & Hm & He). destruct st as [e m]. cbn in *. by subst m e.
Qed.

(** Two targets that share a source, whose md5 changed since the previous ingest. *)
Definition walk_doc : SdbDocument :=
  {| sd_schema := 4; sd_uri := lit "a.scala"; sd_text := []; sd_md5 := lit "D41D8CD98F00B204E9800998ECF8427E"; language_code := 1; sd_symbols := []; sd_occurrences := [] |}.
Definition walk_fs : Fs :=
  let file b := mkFile b true in
  mkFs (list_to_map [(lit "/t/META-INF/semanticdb/a.scala.semanticdb", file (encode_documents {| documents := [walk_doc] |}));
                     (lit "/t/META-INF/semanticdb/b.semanticdb", file [x0a; x7f]); (lit "/s/a.scala", file [])])
    (list_to_set (lit <$> ["/t"; "/t/META-INF"; "/t/META-INF/semanticdb"; "/s"]%string)).
Definition walk_targets : list TargetSpec := [target_spec_new (lit "x") (lit "/t") (lit "/s"); target_spec_new (lit "y") (lit "/t") (lit "/s")].
Definition walk_prev : IngestState := mkIngestState {[lit "a.scala" := mkDocState 4 (lit "old")]}.

Lemma ingest_walk_exact_witness :
  ∃ w, ingest_walk walk_fs walk_prev walk_targets = Some w ∧ NoDup (pd_uri <$> wk_primaries w) ∧
    (pd_uri <$> wk_primaries w) = [lit "a.scala"] ∧ wk_shared w = 1 ∧ zlen (wk_parse_errors w) = 2 ∧ wk_stale w = [] ∧
    st_docs (wk_new_state w) !! lit "a.scala" = Some (mkDocState 5 (sd_md5 walk_doc)).
Proof.
  assert (files_sized walk_fs) as Hs.
  { intros p n Hn. assert (map_Forall (λ _ n, inU 64 (zlen (fn_bytes n))) (fs_files walk_fs)) as H by (refine (bool_decide_unpack _ _); vm_compute; exact I).
    exact (H p n Hn). }
  destruct (ingest_walk_exact walk_fs walk_prev walk_targets Hs) as (w & E & _ & _ & _ & Hnd & _).
  exists w. split; [exact E|]. split; [exact Hnd|].
  assert (match ingest_walk walk_fs walk_prev walk_targets with
    | Some w => bool_decide ((pd_uri <$> wk_primaries w) = [lit "a.scala"] ∧ wk_shared w = 1 ∧ zlen (wk_parse_errors w) = 2 ∧ wk_stale w = [] ∧
        st_docs (wk_new_state w) !! lit "a.scala" = Some (mkDocState 5 (sd_md5 walk_doc)))
    | None => false end = true) as Hc by (vm_compute; reflexivity).
  rewrite E in Hc. exact (proj1 (bool_decide_eq_true _) Hc).
Defined.
