(* ===== verification/IngestPublish.v ===== *)
(** A whole ingest, from the files of the workspace to the published snapshot. *)

From S2P Require Import Prelude RustStr SdbModel SdbParser IndexModel SdbSymbols SdbNormalize UnionFind SdbGroups SdbProfile Locator StoreFormat SegReader SegWriter SegExample SegLayout SegTables SegDict SegValid SegRound WorkspaceState FileSystem Durable StoreWrites Snapshot StoreExample StorePublish StoreSafe StoreTheorems Targets EngineState SymbolEncoding Materialize IngestPostings IngestData Ingest IngestWalk.

Open Scope Z_scope.

(** ** The input *)

Lemma source_path_empty root : source_path root [] = [] ∨ ∃ p, source_path root [] = p ++ [slash].
Proof.
  unfold source_path, dir_join. cbn [starts_with strip_prefix lit]. destruct (starts_with (lit "/") []) eqn:E; [by left|].
  case_bool_decide; [by left|]. right. destruct (ends_with [ch "/"] root) eqn:Er.
  - apply ends_with_true in Er as [r ->]. exists r. by rewrite app_nil_r.
  - exists root. by rewrite app_nil_r.
Qed.

(** No file has an empty name. *)
Definition files_named (fs : Fs) : Prop := ∀ p, FileSystem.is_file fs p = true → p ≠ [] ∧ ∀ q, p ≠ q ++ [slash].

Section input.
Context (fs : Fs) (prev_state : IngestState) (targets : list TargetSpec).
Hypothesis Hsized : files_sized fs.
Hypothesis Hnamed : files_named fs.

Lemma walk_primaries_ok w : ingest_walk fs prev_state targets = Some w → primaries_ok (zlen targets) (wk_primaries w).
Proof.
  rewrite (ingest_walk_events fs prev_state Hsized). intros [= <-].
  destruct (walked_all prev_state (events fs targets)) as [Hp _ _ _ _ _ _]. rewrite Hp.
  assert (∀ r, r ∈ firsts (readings (events fs targets)) → 0 ≤ rg_ord r < zlen targets ∧ rg_uri r ≠ []) as Hr.
  { intros r Hr%elem_of_firsts%find_some. destruct Hr as [Hr%list_elem_of_In%elem_of_readings%elem_of_events _].
    destruct Hr as (i & spec & file & Hi & _ & Hev). apply file_events_read in Hev as (d & _ & _ & <- & _ & Hsrc).
    split; [by eapply zget_Some_lt|]. intros Eu. rewrite Eu in Hsrc. unfold source_of in Hsrc.
    destruct (FileSystem.is_file fs (source_path (ts_sourceroot spec) [])) eqn:Ef; [|done].
    destruct (Hnamed _ Ef) as [H1 H2]. destruct (source_path_empty (ts_sourceroot spec)) as [E|[q E]]; [done|by apply (H2 q)]. }
  split; apply Forall_fmap, Forall_forall; intros r Hin; cbn; [by apply Hr|done|by apply Hr].
Qed.
End input.

Lemma ingest_input_ok `{CharTables} fs st workspace :
  files_sized fs → ∃ w batch data, ingest_input fs st workspace = Some (w, batch, data) ∧
    ingest_walk fs (prev_state_of st) (ws_targets workspace) = Some w ∧ ingest_batch (wk_primaries w) = Some batch ∧
    materialize (ws_targets workspace) (wk_primaries w) batch = Some data.
Proof.
  intros Hs. set (w := foldl (apply_event (prev_state_of st)) walk_new (events fs (ws_targets workspace))).
  assert (ingest_walk fs (prev_state_of st) (ws_targets workspace) = Some w) as Ew by by apply ingest_walk_events.
  destruct (ingest_batch_ok (wk_primaries w)) as (batch & Eb & _). pose proof (materialize_ideal (ws_targets workspace) (wk_primaries w) batch Eb) as Ed.
  exists w, batch, (ideal_data (ws_targets workspace) (wk_primaries w) batch). split; [|done].
  unfold ingest_input. rewrite Ew. cbn [mbind option_bind]. rewrite Eb. cbn [mbind option_bind]. by rewrite Ed.
Qed.

Lemma ask_bind {A B : Type} (f : Fs → A) (k : A → io B) fs : (ask f ≫= k) fs = k (f fs) fs.
Proof. unfold ask, mbind, io_bind. by destruct (k (f fs) fs) as [[log fs'] r]. Qed.

(** ** The property *)

(** What the format can hold of an ingest. *)
Record ingestible `{CharTables} (fs : Fs) (st : Store) (workspace : WorkspaceTargets) (w : Walk) (batch : SemanticBatch) (data : SegmentData) (created : Z) : Prop := {
  ib_counts : zlen (wk_primaries w) < 2 ^ 31 ∧ zlen (ws_targets workspace) < 2 ^ 31 ∧ zlen (segment_keys batch) < 2 ^ 31;
  ib_storable : storable data (EngineState.encode (wk_new_state w)) created;
  ib_state : (∀ uri d, st_docs (wk_new_state w) !! uri = Some d → doc_fits (uri, d)) ∧ Z.of_nat (size (st_docs (wk_new_state w))) < 2 ^ 32
}.

Section ingested.
Context (io_message : Op → list Z) (denied : Fs → Op → bool) (crc32c : bytes → Z) {Hdebug : DebugStr} {Htables : CharTables}.
Context (to_json : Manifest → bytes) (from_json : bytes → result (list Z) Manifest).

(** An ingest that the writer refuses performs no operation. *)
Lemma refused_publication st data payload created strong fs e :
  build_segment crc32c (next_generation st) data created = Err (Fails e) →
  publish io_message denied crc32c to_json st data payload created strong fs = ([], fs, Err (Refuses (Segment e))).
Proof.
  intros Hb. unfold publish, publish_with_failpoint, write_segment. rewrite Hb. done.
Qed.
End ingested.

(** C37. An ingest is all or nothing. Its input always exists; when an occurrence has a span the format
    cannot hold, the ingest fails before its first operation on the store. When it returns, every span
    fits, the store is in order with the new snapshot current, that snapshot holds exactly the
    materialized data under the next generation, the report counts what the walk found, and the state
    it carries decodes to the epochs the next ingest starts from. *)
Theorem ingest_exact io_message denied (crc32c : bytes → Z) {Hdebug : DebugStr} {Htables : CharTables} to_json from_json
    fs st workspace created elapsed strong strong' :
  (∀ b, inU 32 (crc32c b)) → (∀ m, manifest_typed m → from_json (to_json m) = Ok m) → (∀ s, 0 ≤ strong s) → (∀ s, 0 ≤ strong' s) →
  store_ok crc32c from_json fs st → can_publish st → files_sized fs → files_named fs →
  (∀ w batch data, ingest_input fs st workspace = Some (w, batch, data) → ingestible fs st workspace w batch data created) →
  ∃ w batch data, ingest_input fs st workspace = Some (w, batch, data) ∧
    (¬ spans_ok batch → ∃ detail, ingest io_message denied crc32c to_json st workspace created elapsed strong strong' fs =
       ([], fs, Err (Refuses (Segment (InvalidInput detail))))) ∧
    ∀ log fs1 st1 report snap,
      ingest io_message denied crc32c to_json st workspace created elapsed strong strong' fs = (log, fs1, Ok (st1, (report, snap))) →
      spans_ok batch ∧ store_ok crc32c from_json fs1 st1 ∧ st_current st1 = Some snap ∧
      snapshot_holds st data (EngineState.encode (wk_new_state w)) created snap ∧ prev_state_of st1 = wk_new_state w ∧
      report = mkReport (next_generation st) (zlen (wk_primaries w)) (wk_shared w) (zlen (wk_stale w)) (zlen (wk_skipped w)) (zlen (segment_keys batch))
        (zlen (rename_groups (b_groups batch))) (zlen (rename_groups (b_groups batch))) (wk_stale w) (wk_skipped w) (wk_parse_errors w) elapsed.
Proof.
  intros Hcrc Hjson Hst1 Hst2 Hok Hcan Hsized Hnamed Hfit.
  destruct (ingest_input_ok fs st workspace Hsized) as (w & batch & data & E & Ew & Eb & Ed). exists w, batch, data. split; [done|].
  destruct (Hfit w batch data E) as [(Hd & Ht & Hk) Hsto [Hdocs Hsize]].
  pose proof (walk_primaries_ok fs _ _ Hsized Hnamed w Ew) as Hprim.
  rewrite (materialize_ideal (ws_targets workspace) (wk_primaries w) batch Eb) in Ed.
  assert (data = ideal_data (ws_targets workspace) (wk_primaries w) batch) as Edata by congruence.
  pose proof (data_accepted (ws_targets workspace) (wk_primaries w) batch Eb Hprim Hd Ht Hk) as Hacc. rewrite <- Edata in Hacc.
  assert (∀ k, ingest io_message denied crc32c to_json st workspace created elapsed strong strong' fs = k →
    (r ← publish io_message denied crc32c to_json st data (EngineState.encode (wk_new_state w)) created strong;
     st' ← run_janitor denied (λ s, strong' s + own_references None r.2 s) r.1;
     mret (st', (report_of r.2 w batch elapsed, r.2))) fs = k) as Hing.
  { intros k <-. unfold ingest. by rewrite ask_bind, E. }
  split.
  - intros Hbad. rewrite <- Hacc in Hbad. destruct (validate_outcome data) as [[[] Hv]|[d Hv]]; [done|]. exists d.
    assert (build_segment crc32c (next_generation st) data created = Err (Fails (InvalidInput d))) as Hb by (unfold build_segment; by rewrite Hv).
    rewrite <- (Hing _ eq_refl). unfold mbind at 1, io_bind at 1. by rewrite (refused_publication _ _ _ _ _ _ _ _ _ _ _ Hb).
  - intros log fs1 st1 report snap Hrun%Hing. unfold mbind at 1, io_bind at 1 in Hrun.
    unfold publish in Hrun. unfold mbind at 1, io_bind at 1 in Hrun.
    destruct (publish_with_failpoint _ _ _ _ _ _ _ _ _ _ fs) as [[log1 f1] [[st2 [s|]]|e]] eqn:Ep; [|done|done].
    unfold mret at 1, io_ret at 1 in Hrun. cbn [snd fst] in Hrun.
    destruct (publish_returned io_message denied crc32c to_json from_json fs st data (EngineState.encode (wk_new_state w)) created FpNone strong log1 f1 st2 (Some s)) as (Hok2 & Hcur & Hsnap & _); [done..|].
    pose proof (janitor_does denied crc32c from_json f1 st2 (λ s0, strong' s0 + own_references None s s0) Hok2) as Hj. unfold does in Hj.
    unfold mbind at 1, io_bind at 1 in Hrun.
    destruct (run_janitor denied _ st2 f1) as [[log2 f2] [st3|e]]; [|done]. destruct Hj as (_ & _ & -> & Hok3).
    unfold mret, io_ret in Hrun. apply pair_equal_spec in Hrun as [Hrun Hres]. apply pair_equal_spec in Hrun as [_ <-].
    injection Hres as <- <- <-. cbn [st_current]. split.
    + apply Hacc. destruct (validate_outcome data) as [[[] Hv]|[d Hv]]; [done|]. exfalso.
      assert (build_segment crc32c (next_generation st) data created = Err (Fails (InvalidInput d))) as Hb by (unfold build_segment; by rewrite Hv).
      unfold publish_with_failpoint, write_segment in Ep. rewrite Hb in Ep. done.
    + split; [done|]. split; [done|]. split; [done|]. pose proof (sh_state _ _ _ _ _ Hsnap) as Hstate. destruct (sh_id _ _ _ _ _ Hsnap) as [_ Hid]. split.
      * unfold prev_state_of. cbn [st_current]. rewrite Hcur, Hstate. cbn [ws_payload]. apply decode_encoded; [done|done|].
        pose proof (st_payload _ _ _ Hsto). lia.
      * unfold report_of. rewrite Hid. destruct (batch_facts (wk_primaries w) batch Eb) as (_ & _ & -> & _). done.
Qed.

(** An ingest of one document with a class, into a fresh store. *)
Definition class_doc : SdbDocument :=
  let name := lit "_empty_/A#" in
  let range := {| SdbModel.start_line := 0; start_character := 6; SdbModel.end_line := 0; end_character := 7 |} in
  {| sd_schema := 4; sd_uri := lit "a.scala"; sd_text := []; sd_md5 := lit "00"; language_code := 1;
     sd_symbols := [{| si_symbol := name; kind_code := 13; properties := 0; SdbModel.si_display_name := lit "A"; overridden_symbols := [] |}];
     sd_occurrences := [{| so_range := Some range; so_symbol := name; role_code := SdbModel.DEFINITION |}] |}.
Definition class_fs : Fs :=
  let file b := mkFile b true in
  mkFs (list_to_map [(lit "/t/META-INF/semanticdb/a.scala.semanticdb", file (encode_documents {| documents := [class_doc] |}));
                     (lit "/s/a.scala", file (as_bytes (lit "class A")))])
    (list_to_set (lit <$> ["/t"; "/t/META-INF"; "/t/META-INF/semanticdb"; "/s"]%string)).
Definition class_workspace : WorkspaceTargets := mkWorkspaceTargets [target_spec_new (lit "x") (lit "/t") (lit "/s")] ∅ ∅.
Definition class_ingest : list Op * Fs * store_outcome (Store * (IngestReport * Snapshot)) :=
  ingest (H0 := ascii_tables) no_message no_faults sum_crc encode_manifest empty_store class_workspace 1234 5 no_refs no_refs class_fs.

Lemma class_store_ok : store_ok sum_crc decode_manifest class_fs empty_store.
Proof.
  split; cbn [st_root st_current st_retired empty_store].
  - split; [done|by vm_compute].
  - intros p Hp. assert (Forall (λ p, fs_files class_fs !! p = None) (ancestors root)) as H by (refine (bool_decide_unpack _ _); vm_compute; exact I).
    rewrite Forall_forall in H. by apply H.
  - split; vm_compute; reflexivity.
  - constructor.
  - constructor.
Qed.

Lemma class_sized : files_sized class_fs.
Proof.
  intros p n Hn. assert (map_Forall (λ _ n, inU 64 (zlen (fn_bytes n))) (fs_files class_fs)) as H by (refine (bool_decide_unpack _ _); vm_compute; exact I).
  exact (H p n Hn).
Qed.

Lemma class_named : files_named class_fs.
Proof.
  intros p Hp. assert (map_Forall (λ p _, p ≠ [] ∧ List.last p 0 ≠ slash) (fs_files class_fs)) as H by (refine (bool_decide_unpack _ _); vm_compute; exact I).
  unfold FileSystem.is_file in Hp. apply bool_decide_eq_true in Hp as [n Hn]. destruct (H p n Hn) as [H1 H2]. split; [done|].
  intros q ->. by rewrite List.last_last in H2.
Qed.

(** The conditions of [data_typed] and [data_sized], decided. *)
Definition typed_and_sized (d : SegmentData) : Prop :=
  (Forall doc_typed (docs d) ∧ Forall (inS 64) (targets d) ∧ Forall symbol_typed (symbols d) ∧
   Forall (Forall group_occ_typed) (ref_occurrences d) ∧ Forall (Forall group_occ_typed) (def_occurrences d) ∧
   Forall (Forall group_occ_typed) (rename_occurrences d) ∧ Forall profile_typed (rename_profiles d) ∧
   Forall (Forall doc_occ_typed) (doc_occurrences d) ∧ Forall target_meta_valid (target_meta d) ∧
   Forall symbol_meta_typed (symbol_meta d) ∧ Forall search_row_typed (search_rows d)) ∧
  ((zlen (docs d) < 2 ^ 31 ∧ zlen (targets d) < 2 ^ 31 ∧ zlen (symbols d) < 2 ^ 31 ∧
    zlen (search_rows d) < 2 ^ 31 ∧ zlen (ref_occurrences d) < 2 ^ 31 ∧ zlen (rename_occurrences d) < 2 ^ 31) ∧
   total zlen (ref_occurrences d) + total zlen (def_occurrences d) + total zlen (rename_occurrences d) < 2 ^ 31 ∧
   total zlen (doc_occurrences d) < 2 ^ 31 ∧ total uri_len (docs d) < 2 ^ 31 ∧ total (data_len symbol_bytes_of) (symbols d) < 2 ^ 31 ∧
   total (data_len target_data) (target_meta d) < 2 ^ 31 ∧ total (data_len symbol_data) (symbol_meta d) < 2 ^ 31 ∧
   total (data_len search_data) (search_rows d) < 2 ^ 31).
#[local] Instance typed_and_sized_dec d : Decision (typed_and_sized d).
Proof. unfold typed_and_sized. apply _. Defined.

Lemma class_ingestible w batch data :
  ingest_input (H0 := ascii_tables) class_fs empty_store class_workspace = Some (w, batch, data) →
  ingestible (H := ascii_tables) class_fs empty_store class_workspace w batch data 1234.
Proof.
  intros E.
  assert (match ingest_input (H0 := ascii_tables) class_fs empty_store class_workspace with
    | Some (w, batch, data) => bool_decide ((zlen (wk_primaries w) < 2 ^ 31 ∧ zlen (ws_targets class_workspace) < 2 ^ 31 ∧ zlen (segment_keys batch) < 2 ^ 31) ∧
        symbol_meta data ≠ [] ∧ zlen (EngineState.encode (wk_new_state w)) < 2 ^ 62 ∧ typed_and_sized data ∧
        map_Forall (λ uri d, doc_fits (uri, d)) (st_docs (wk_new_state w)) ∧ Z.of_nat (size (st_docs (wk_new_state w))) < 2 ^ 32)
    | None => false end = true) as Hc by (vm_compute; reflexivity).
  rewrite E in Hc. apply bool_decide_eq_true in Hc as (H1 & H2 & H3 & [Ht Hs] & H4 & H5).
  split; [exact H1| |split; [exact H4|exact H5]]. split; [| |intros E'; by destruct H2| |exact H3].
  - destruct Ht as (? & ? & ? & ? & ? & ? & ? & ? & ? & ? & ?). by split.
  - destruct Hs as (? & ? & ? & ? & ? & ? & ? & ?). by split.
  - split; by vm_compute.
Qed.

Lemma ingest_exact_witness :
  match class_ingest with
  | (log, fs1, Ok (st1, (report, snap))) =>
      store_ok sum_crc decode_manifest fs1 st1 ∧ st_current st1 = Some snap ∧ ir_docs_indexed report = 1 ∧ ir_docs_stale report = 1 ∧
      state_get (prev_state_of st1) (lit "a.scala") = Some (mkDocState 1 (lit "00"))
  | _ => False
  end.
Proof.
  assert (match class_ingest with
    | (log, fs1, Ok (st1, (report, snap))) => bool_decide (ir_docs_indexed report = 1 ∧ ir_docs_stale report = 1 ∧
        state_get (prev_state_of st1) (lit "a.scala") = Some (mkDocState 1 (lit "00")))
    | _ => false end = true) as Hc by (vm_compute; reflexivity).
  destruct class_ingest as [[log fs1] [[st1 [report snap]]|e]] eqn:E; [|discriminate Hc].
  destruct (ingest_exact (Htables := ascii_tables) no_message no_faults sum_crc encode_manifest decode_manifest class_fs empty_store class_workspace 1234 5 no_refs no_refs
    sum_crc_range decode_encode (λ s, Z.le_refl 0) (λ s, Z.le_refl 0) class_store_ok I class_sized class_named class_ingestible)
    as (w & batch & data & _ & _ & Hrun).
  destruct (Hrun log fs1 st1 report snap E) as (_ & Hok & Hcur & _). split; [exact Hok|]. split; [exact Hcur|].
  exact (proj1 (bool_decide_eq_true _) Hc).
Defined.
