(* ===== verification/Orchestrator.v ===== *)
(** The query orchestrator ([ls-engine/src/orchestrator.rs], [overlay.rs]): where the symbol under
    the cursor is read from, the healing of a stale index, freshness and the target graph.

    A query reads the files and the orchestrator; it answers or fails with an [LsError], and
    [None] is a Rust panic. A cursor that only the raw SemanticDB could answer makes the
    orchestrator publish a new generation, so a resolution is an action. The overlay of dirty
    buffers is an interface; the clock, the references of other threads and the name of the
    calling thread are arguments. *)

From S2P Require Import Prelude RustStr SdbModel SdbParser IndexModel Bitset SdbSymbols SdbNormalize SdbProfile Md5 Uri Locator StoreFormat SegReader WorkspaceState FileSystem Durable Snapshot Search Targets EngineState SymbolEncoding Materialize Ingest.

Open Scope Z_scope.

(** ** Queries and actions *)

Definition query (A : Type) : Type := option (result LsError A).
#[export] Instance query_ret : MRet query := λ A a, Some (Ok a).
#[export] Instance query_bind : MBind query := λ A B f m,
  match m with None => None | Some (Err e) => Some (Err e) | Some (Ok a) => f a end.
Definition fails {A : Type} (e : LsError) : query A := Some (Err e).
(** A read that may panic; [ok_or(e)?] *)
Definition reads {A : Type} (o : option A) : query A := match o with Some a => Some (Ok a) | None => None end.
Definition or_fail {A : Type} (o : option A) (e : LsError) : query A := Some (ok_or o e).

(** The first element that satisfies a test which may panic. *)
Fixpoint find_opt {A : Type} (f : A → option bool) (l : list A) : option (option A) :=
  match l with
  | [] => Some None
  | x :: l => b ← f x; if b : bool then Some (Some x) else find_opt f l
  end.

(** ** The overlay of dirty buffers *)

Record OverlayHit := mkOverlayHit { oh_semantic_symbol : list Z; oh_span : Span; oh_role : Role; oh_pc_only : bool }.

Class DirtyBufferOverlay := mkOverlay {
  is_dirty : list Z → bool;
  overlay_symbol_at : list Z → Z → Z → option OverlayHit;
  overlay_occurrences_of : list Z → option (list Loc);
  contributes_occurrences : bool
}.
Definition NoopOverlay : DirtyBufferOverlay := mkOverlay (λ _, false) (λ _ _ _, None) (λ _, None) false.

(** ** The orchestrator *)

Inductive ResolutionSource := FromSnapshot | RawSemanticdb | Overlay.
#[export] Instance ResolutionSource_eq_dec : EqDecision ResolutionSource.
Proof. solve_decision. Defined.

Record CursorSymbol := mkCursor {
  cs_uri : list Z; cs_semantic_symbol : list Z; cs_local_doc_id : option Z; cs_span : Span; cs_role : Role;
  cs_source : ResolutionSource; cs_needs_reindex : bool; cs_pc_only : bool
}.
Definition cursor_is_local (c : CursorSymbol) : bool := bool_decide (is_Some (cs_local_doc_id c)).
Definition encoded_symbol (c : CursorSymbol) : list Z := SymbolEncoding.encode (cs_semantic_symbol c) (cs_local_doc_id c).
Definition healed_cursor (c : CursorSymbol) : CursorSymbol :=
  mkCursor (cs_uri c) (cs_semantic_symbol c) (cs_local_doc_id c) (cs_span c) (cs_role c) (cs_source c) false (cs_pc_only c).

Record QueryOrchestrator := mkOrchestrator {
  qo_store : Store; qo_sync_write_through : bool; qo_workspace : option WorkspaceTargets; qo_last_write_through_thread : option (list Z)
}.
(** [QueryOrchestrator::new], [with_defaults] *)
Definition orchestrator_new (store : Store) (sync_write_through : bool) : QueryOrchestrator :=
  mkOrchestrator store sync_write_through None None.
Definition with_defaults (store : Store) : QueryOrchestrator := orchestrator_new store true.

Definition with_store (o : QueryOrchestrator) (st : Store) : QueryOrchestrator :=
  mkOrchestrator st (qo_sync_write_through o) (qo_workspace o) (qo_last_write_through_thread o).
Definition with_workspace (o : QueryOrchestrator) (ws : WorkspaceTargets) : QueryOrchestrator :=
  mkOrchestrator (qo_store o) (qo_sync_write_through o) (Some ws) (qo_last_write_through_thread o).
Definition on_thread (o : QueryOrchestrator) (thread : list Z) : QueryOrchestrator :=
  mkOrchestrator (qo_store o) (qo_sync_write_through o) (qo_workspace o) (Some thread).

Definition current_snapshot (o : QueryOrchestrator) : option Snapshot := st_current (qo_store o).

(** An action: a query that may publish. *)
Definition act (A : Type) : Type := QueryOrchestrator → io (QueryOrchestrator * result LsError A).
#[export] Instance act_ret : MRet act := λ A a o, mret (o, Ok a).
#[export] Instance act_bind : MBind act := λ A B f m o,
  r ← m o; match r.2 with Ok a => f a r.1 | Err e => mret (r.1, Err e) end.
Definition act_fail {A : Type} (e : LsError) : act A := λ o, mret (o, Err e).
Definition ask_query {A : Type} (f : Fs → QueryOrchestrator → query A) : act A := λ o fs,
  match f fs o with Some r => ([], fs, Ok (o, r)) | None => ([], fs, Err Aborts) end.

(** [m.is_ok()], keeping the value: an error is caught, a panic is not. *)
Definition try_io {A : Type} (m : io A) : io (option A) := λ fs,
  let '(log, fs', r) := m fs in
  (log, fs', match r with Ok a => Ok (Some a) | Err (Refuses _) => Ok None | Err e => Err e end).

(** ** Positions *)

(** [Span::new] of the packed ends of a record *)
Definition record_span (packed_start packed_end : Z) : Span :=
  mkSpan (unpack_line (as_u32 packed_start)) (unpack_char (as_u32 packed_start))
         (unpack_line (as_u32 packed_end)) (unpack_char (as_u32 packed_end)).
Definition pack_start (s : Span) : Z := pack (start_line s) (start_char s).
Definition pack_end (s : Span) : Z := pack (end_line s) (end_char s).
Definition span_key (s : Span) : list Z := [start_line s; start_char s; end_line s; end_char s].

(** The loop of [occurrence_at]: the best occurrence so far with its size and start. *)
Definition occurrence_step (q : Z) (best : option Occurrence * Z * Z) (o : Occurrence) : option Occurrence * Z * Z :=
  let '(b, best_size, best_start) := best in
  let ps := pack_start (occ_span o) in
  let pe := pack_end (occ_span o) in
  if (ps <=? q) && (q <=? pe) then
    let size := pe - ps in
    if (size <? best_size) || ((size =? best_size) && (ps <? best_start)) then (Some o, size, ps) else best
  else best.
Definition occurrence_at (occurrences : list Occurrence) (line character : Z) : option Occurrence :=
  (foldl (occurrence_step (pack line character)) (None, u32_max, u32_max) occurrences).1.1.

(** [a.cmp(b).then(..)] as an order *)
Definition then_leb (c : comparison) (rest : bool) : bool := match c with Lt => true | Gt => false | Eq => rest end.

Definition span_leb (a b : Span) : bool := lex_leb (span_key a) (span_key b).
(** The order of [(uri, start, end)]. *)
Definition loc_leb (a b : Loc) : bool := then_leb (str_cmp (loc_uri a) (loc_uri b)) (span_leb (loc_span a) (loc_span b)).

Definition dedupe_and_sort_locs (locs : list Loc) : list Loc :=
  dedup_by (λ a b, bool_decide (loc_uri a = loc_uri b) && bool_decide (loc_span a = loc_span b)) (sort_by loc_leb locs).

(** Spans sorted by position, without repetition. *)
Definition sort_spans (spans : list Span) : list Span := dedup_by (λ a b, bool_decide (a = b)) (sort_by span_leb spans).

(** ** Ordered maps: the entries in key order *)

(** [map.entry(k).or_default().push(v)] on a [BTreeMap] *)
Fixpoint ordered_push {K V : Type} (cmp : K → K → comparison) (k : K) (v : V) (m : list (K * list V)) : list (K * list V) :=
  match m with
  | [] => [(k, [v])]
  | e :: m =>
      match cmp k e.1 with
      | Lt => (k, [v]) :: e :: m
      | Eq => (e.1, e.2 ++ [v]) :: m
      | Gt => e :: ordered_push cmp k v m
      end
  end.
Definition group_by {K V : Type} (cmp : K → K → comparison) (l : list (K * V)) : list (K * list V) :=
  foldl (λ m e, ordered_push cmp e.1 e.2 m) [] l.
(** ** Lookups in a segment *)

Definition doc_ord_of (seg : SegmentReader) (uri : list Z) : option (option Z) :=
  find_opt (λ d, u ← uri_of seg d; Some (str_eqb u uri)) (seqZ 0 (doc_count seg)).

Definition has_active_document (o : QueryOrchestrator) (sdb_uri : list Z) : option bool :=
  match current_snapshot o with
  | Some snap => d ← doc_ord_of (sn_segment snap) sdb_uri; Some (bool_decide (is_Some d))
  | None => Some false
  end.

(** [IngestState::decode(&snap.state().payload).get(uri)] *)
Definition ingested_md5 (snap : Snapshot) (uri : list Z) : option (list Z) :=
  ds_md5 <$> state_get (EngineState.decode (ws_payload (sn_state snap))) uri.

(** ** Freshness and targets *)

Section plumbing.
Context `{CharTables}.

(** [locator.semanticdb_file_for(uri)] of a target, if it is a file. *)
Definition locator_of (spec : TargetSpec) : SemanticdbLocator := locator_new (path_components (ts_semanticdb_root spec)).
Definition existing_semanticdb (fs : Fs) (uri : list Z) (spec : TargetSpec) : option path :=
  match semanticdb_file_for (locator_of spec) uri with
  | Ok file => if FileSystem.is_file fs (path_str file) then Some (path_str file) else None
  | Err _ => None
  end.

Context (fs : Fs) (o : QueryOrchestrator).

Definition primary_spec_of (uri : list Z) : option TargetSpec :=
  ws ← qo_workspace o;
  List.find (λ spec, bool_decide (is_Some (existing_semanticdb fs uri spec))) (ws_targets ws).

Definition primary_bsp_of (uri : list Z) : option (list Z) := ts_bsp_id <$> primary_spec_of uri.

Definition source_target_of (uri : list Z) : option TargetSpec :=
  ws ← qo_workspace o;
  List.find (λ spec, FileSystem.is_file fs (source_path (ts_sourceroot spec) uri)) (ws_targets ws).

Definition semanticdb_files_for (uri : list Z) : list path :=
  match qo_workspace o with
  | Some ws => omap (existing_semanticdb fs uri) (ws_targets ws)
  | None => []
  end.

Definition absolute_source_path (uri : list Z) : option path :=
  (λ s, source_path (ts_sourceroot s) uri) <$> primary_spec_of uri.

Definition source_text_of (uri : list Z) : option (list Z) :=
  path ← absolute_source_path uri;
  if FileSystem.is_file fs path then read_to_string fs path else None.

Definition source_is_fresh (snap : Snapshot) (uri : list Z) : option bool :=
  match ingested_md5 snap uri with
  | None => Some false
  | Some md5 =>
      match source_text_of uri with
      | Some text => is_fresh <$> Md5.validate text md5
      | None => Some false
      end
  end.

Definition source_is_fresh_uri (uri : list Z) : option bool :=
  match current_snapshot o with Some snap => source_is_fresh snap uri | None => Some false end.

(** ** The raw SemanticDB of a document *)

Definition raw_normalized_doc (uri : list Z) : query NormalizedDocument :=
  match primary_spec_of uri with
  | None => fails (if bool_decide (is_Some (source_target_of uri)) then NoSemanticdb uri else NotIndexed uri)
  | Some spec =>
      match semanticdb_file_for (locator_of spec) uri with
      | Err _ => fails (StaleIndex uri)
      | Ok file =>
          docs ← match parse_file (read_bytes fs) (path_str file) with
                 | Ok d => mret d
                 | Err (Failed _) => fails (StaleIndex uri)
                 | Err _ => None
                 end;
          sdb ← or_fail (List.find (λ d, str_eqb (sd_uri d) uri) (documents docs)) (StaleIndex uri);
          text ← or_fail (source_text_of uri) (StaleIndex uri);
          check ← reads (Md5.validate_doc text sdb);
          if negb (is_fresh check) then fails (StaleIndex uri) else
          mret (SdbNormalize.normalize sdb (doc_id_for uri))
      end
  end.

Definition raw_doc_occurrences (uri semantic_symbol : list Z) : option (list (Span * Role)) :=
  match raw_normalized_doc uri with
  | Some (Ok doc) =>
      Some ((λ o, (occ_span o, occ_role o)) <$>
            List.filter (λ o, str_eqb (IndexModel.semantic_symbol (occ_key o)) semantic_symbol) (nd_occurrences doc))
  | Some (Err _) => Some []
  | None => None
  end.

Definition raw_semanticdb_cursor (uri : list Z) (line character : Z) : query CursorSymbol :=
  doc ← raw_normalized_doc uri;
  match occurrence_at (nd_occurrences doc) line character with
  | Some occ => mret (mkCursor uri (IndexModel.semantic_symbol (occ_key occ)) (local_doc (occ_key occ)) (occ_span occ) (occ_role occ)
                        RawSemanticdb true false)
  | None => fails (NoSymbolAtCursor uri line character)
  end.

Definition snapshot_cursor (snap : Snapshot) (uri : list Z) (line character : Z) : query (option CursorSymbol) :=
  let seg := sn_segment snap in
  doc ← reads (doc_ord_of seg uri);
  match doc with
  | None => mret None
  | Some doc_ord =>
      fresh ← reads (source_is_fresh snap uri);
      if negb fresh then mret None else
      hit ← reads (symbol_at seg doc_ord line character);
      match hit with
      | Some hit =>
          encoded ← reads (semantic_symbol_of seg (as_u32 (hit_symbol_ord hit)));
          let '(raw, local) := SymbolEncoding.decode encoded in
          mret (Some (mkCursor uri raw local (hit_span hit) (hit_role hit) FromSnapshot false false))
      | None => fails (NoSymbolAtCursor uri line character)
      end
  end.

Definition cursor_from_snapshot (uri : list Z) (line character : Z) : query (option CursorSymbol) :=
  match current_snapshot o with
  | Some snap => snapshot_cursor snap uri line character
  | None => mret None
  end.
End plumbing.

(** ** The target graph *)

(** [bsp_to_ord]: the last target of an id counts. *)
Fixpoint bsp_to_ord (seg : SegmentReader) (ords : list Z) (m : gmap (list Z) Z) : option (gmap (list Z) Z) :=
  match ords with
  | [] => Some m
  | ord :: ords => meta ← rd_target_meta seg ord; bsp_to_ord seg ords (<[bsp_id meta := ord]> m)
  end.

Definition allowed_targets_for (o : QueryOrchestrator) (snap : Snapshot) (sym_ord : Z) : option TargetBitset :=
  let seg := sn_segment snap in
  let target_count := as_u32 (target_count seg) in
  all ← bitset_all target_count;
  view ← symbol_view seg sym_ord;
  if sv_def_target_ord view <? 0 then Some all else
  let def_ord := as_u32 (sv_def_target_ord view) in
  meta ← rd_target_meta seg def_ord;
  match qo_workspace o with
  | None => Some all
  | Some ws =>
      closure ← reverse_dependency_closure ws (bsp_id meta);
      if bool_decide (closure = ∅) then Some all else
      ords ← bsp_to_ord seg (seqZ 0 target_count) ∅;
      bitset_of target_count
        (dedup_by Z.eqb (sort_by Z.leb (omap (λ b, ords !! b) (elements closure) ++ [def_ord])))
  end.

Definition definition_bsp_of (snap : Snapshot) (sym_ord : Z) : option (option (list Z)) :=
  view ← symbol_view (sn_segment snap) sym_ord;
  if sv_def_target_ord view <? 0 then Some None else
  meta ← rd_target_meta (sn_segment snap) (as_u32 (sv_def_target_ord view));
  Some (Some (bsp_id meta)).

(** ** Actions *)

(** What an ingest takes from outside: the clock, and the references other threads hold while its
    two janitors run. *)
Record Surroundings := mkSurroundings { now_ms : Z; elapsed_ms : Z; held_by_others : Snapshot → Z; held_after : Snapshot → Z }.

Section actions.
Context (io_message : Op → list Z) (denied : Fs → Op → bool) (crc32c : bytes → Z) `{DebugStr} `{CharTables}.
Context (to_json : Manifest → bytes) (around : Fs → Surroundings) (thread : list Z) `{DirtyBufferOverlay}.

Definition run_ingest (st : Store) (ws : WorkspaceTargets) : io (Store * (IngestReport * Snapshot)) := λ fs,
  let e := around fs in
  Ingest.ingest io_message denied crc32c to_json st ws (now_ms e) (elapsed_ms e) (held_by_others e) (held_after e) fs.

(** [QueryOrchestrator::ingest]: the workspace is remembered when the ingest succeeds. *)
Definition orchestrator_ingest (ws : WorkspaceTargets) (o : QueryOrchestrator) : io (QueryOrchestrator * IngestReport) :=
  r ← run_ingest (qo_store o) ws;
  mret (with_workspace (with_store o r.1) ws, r.2.1).

(** [QueryOrchestrator::reingest_current]: [None] when there is nothing to ingest. *)
Definition reingest_current (o : QueryOrchestrator) : io (QueryOrchestrator * option IngestReport) :=
  match qo_workspace o with
  | None => mret (o, None)
  | Some ws =>
      if bool_decide (ws_targets ws = []) then mret (o, None) else
      r ← run_ingest (qo_store o) ws;
      mret (with_store o r.1, Some r.2.1)
  end.

Definition write_through_raw_path : act bool := λ o,
  if negb (qo_sync_write_through o) then mret (o, Ok false) else
  match qo_workspace o with
  | None => mret (o, Ok false)
  | Some ws =>
      let o := on_thread o thread in
      r ← try_io (run_ingest (qo_store o) ws);
      match r with
      | Some (st, _) => mret (with_store o st, Ok true)
      | None => mret (o, Ok false)
      end
  end.

Definition symbol_at_cursor (uri : list Z) (line character : Z) : act CursorSymbol :=
  if is_dirty uri then
    match overlay_symbol_at uri line character with
    | Some hit => mret (mkCursor uri (oh_semantic_symbol hit) None (oh_span hit) (oh_role hit) Overlay false (oh_pc_only hit))
    | None => act_fail (StaleIndex uri)
    end
  else
    from_snapshot ← ask_query (λ fs o, cursor_from_snapshot fs o uri line character);
    match from_snapshot with
    | Some hit => mret hit
    | None =>
        cursor ← ask_query (λ fs o, raw_semanticdb_cursor fs o uri line character);
        healed ← write_through_raw_path;
        mret (if healed : bool then healed_cursor cursor else cursor)
    end.
End actions.
