(* ===== verification/SymbolQueries.v ===== *)
(** The symbol queries of the orchestrator ([ls-engine/src/orchestrator.rs]): workspace symbols,
    definitions, method search, toplevels and implementations.

    The order in which a [HashMap] hands out its entries is an argument ([into_iter]). *)

From S2P Require Import Prelude RustStr SdbModel SdbParser IndexModel Bitset SdbSymbols SdbProfile Uri Locator StoreFormat SegReader WorkspaceState FileSystem Snapshot Search Targets SymbolEncoding Ingest Orchestrator.

Open Scope Z_scope.

(** [char::is_lowercase] *)
Class LowercaseTable := is_lowercase : Z → bool.

(** ** Matching a method name *)

(** The loop of [fuzzy_matches_name]; [ql] and [sl] are the anchors. *)
Section fuzzy_name.
Context `{CharTables} `{LowercaseTable} (q s : list Z).

Fixpoint fuzzy_loop (fuel qa sa : nat) (ql sl : option nat) : option bool :=
  match fuel with
  | O => None
  | S fuel =>
      match q !! qa with
      | None => Some true
      | Some qq =>
          match s !! sa with
          | None => Some false
          | Some ss =>
              if qq =? ss then
                fuzzy_loop fuel (S qa) (S sa) (if is_uppercase qq then Some qa else ql) (if is_uppercase ss then Some sa else sl)
              else if is_lowercase qq then
                match ql, sl with
                | Some qanchor, Some sanchor => fuzzy_loop fuel qanchor (S sanchor) None None
                | _, _ => Some false
                end
              else fuzzy_loop fuel qa (S sa) ql sl
          end
      end
  end.
End fuzzy_name.

(** The symbol index grows between two backtracks, and each backtrack ends further. *)
Definition fuzzy_fuel (s : list Z) : nat := S (S (length s) * S (length s)).
Definition fuzzy_matches_name `{CharTables} `{LowercaseTable} (q s : list Z) : option bool :=
  if bool_decide (q = []) then Some true else fuzzy_loop q s (fuzzy_fuel s) 0 0 None None.

(** ** Workspace symbols *)

Record WorkspaceSymbolEntry := mkEntry { we_display : list Z; we_kind : SymKind; we_container : option (list Z); we_location : Loc }.

(** The [file://] uri of a document of a target. *)
Definition file_uri_of (root uri : list Z) : list Z := path_to_uri (Uri.normalize (source_path root uri)).

(** The closure of [workspace_symbols]: [Some None] drops the hit. *)
Definition entry_of_hit (seg : SegmentReader) (hit : WorkspaceSymbolHit) : option (option WorkspaceSymbolEntry) :=
  if (wh_def_doc_ord hit <? 0) || (wh_def_target_ord hit <? 0) then Some None else
  let doc_ord := as_u32 (wh_def_doc_ord hit) in
  let target_ord := as_u32 (wh_def_target_ord hit) in
  if (doc_count seg <=? doc_ord) || (target_count seg <=? target_ord) || (symbol_count seg <=? wh_symbol_ord hit) then Some None else
  meta ← rd_symbol_meta seg (wh_symbol_ord hit);
  tmeta ← rd_target_meta seg target_ord;
  uri ← uri_of seg doc_ord;
  Some (Some (mkEntry (wh_display hit) (from_code (wh_kind hit))
    (if negb (bool_decide (wh_owner hit = [])) then Some (wh_owner hit)
     else if negb (bool_decide (wh_package_name hit = [])) then Some (wh_package_name hit) else None)
    (mkLoc (file_uri_of (sourceroot tmeta) uri) (record_span (def_packed_start meta) (def_packed_end meta))))).

Definition workspace_symbol `{CharTables} (into_iter : gmap Z (option Z) → list (Z * option Z)) (o : QueryOrchestrator) (query : list Z) (limit : Z)
    : option (list WorkspaceSymbolHit) :=
  match current_snapshot o with
  | Some snap => ix ← index_build (sn_segment snap); workspace_symbol_search into_iter ix query limit
  | None => Some []
  end.
Definition orchestrator_name_exists `{CharTables} (o : QueryOrchestrator) (name : list Z) : option bool :=
  match current_snapshot o with
  | Some snap => ix ← index_build (sn_segment snap); Some (workspace_symbol_name_exists ix name)
  | None => Some false
  end.
Definition workspace_symbols `{CharTables} (into_iter : gmap Z (option Z) → list (Z * option Z)) (o : QueryOrchestrator) (query : list Z) (limit : Z)
    : option (list WorkspaceSymbolEntry) :=
  match current_snapshot o with
  | Some snap =>
      let seg := sn_segment snap in
      ix ← index_build seg;
      hits ← workspace_symbol_search into_iter ix query limit;
      omap id <$> mapM (entry_of_hit seg) hits
  | None => Some []
  end.

(** ** The requesting target *)

(** The order of [PathBuf]s: by components. *)
Definition component_rank (c : Component) : Z := match c with RootDir => 1 | CurDir => 2 | ParentDir => 3 | Normal _ => 4 end.
Definition component_cmp (a b : Component) : comparison :=
  match a, b with Normal x, Normal y => str_cmp x y | _, _ => component_rank a ?= component_rank b end.
Fixpoint components_cmp (a b : list Component) : comparison :=
  match a, b with
  | [], [] => Eq
  | [], _ => Lt
  | _, [] => Gt
  | x :: a, y :: b => match component_cmp x y with Eq => components_cmp a b | c => c end
  end.
Definition path_leb (a b : path) : bool :=
  match components_cmp (path_components a) (path_components b) with Gt => false | _ => true end.
Definition same_path (a b : path) : bool := bool_decide (path_components a = path_components b).

(** [rel.to_string_lossy().replace('\\', "/")] *)
Definition forward_slashes (s : list Z) : list Z := (λ c, if c =? ch "\" then ch "/" else c) <$> s.

(** The target that a document under one of the roots was ingested for. *)
Fixpoint attribute_doc (seg : SegmentReader) (p : list Component) (roots : list path) : option (option (list Z)) :=
  match roots with
  | [] => Some None
  | root :: roots =>
      match strip_components (path_components root) p with
      | None => attribute_doc seg p roots
      | Some rel =>
          doc ← doc_ord_of seg (forward_slashes (path_str rel));
          match doc with
          | None => attribute_doc seg p roots
          | Some doc =>
              target_ord ← target_ord_of_doc seg doc;
              if 0 <=? target_ord then meta ← rd_target_meta seg (as_u32 target_ord); Some (Some (bsp_id meta))
              else attribute_doc seg p roots
          end
      end
  end.

(** [Iterator::max_by_key]: the last of the greatest. *)
Definition max_by_key {A : Type} (key : A → Z) (l : list A) : option A :=
  foldl (λ best x, match best with Some b => if key x <? key b then best else Some x | None => Some x end) None l.

Definition deepest_root (targets : list TargetSpec) (p : list Component) : option TargetSpec :=
  fst <$> max_by_key snd
    (omap (λ t, let root := path_components (Uri.normalize (ts_sourceroot t)) in
                if path_starts_with p root then Some (t, zlen root) else None) targets).

Definition requesting_forward_closure (o : QueryOrchestrator) (from_uri : list Z) : option (option (gset (list Z))) :=
  match qo_workspace o, uri_to_path from_uri with
  | None, _ | _, Err _ => Some None
  | Some ws, Ok raw =>
      let p := path_components (Uri.normalize raw) in
      attributed ← match current_snapshot o with
        | Some snap =>
            let roots := dedup_by same_path (sort_by path_leb ((λ t, Uri.normalize (ts_sourceroot t)) <$> ws_targets ws)) in
            attribute_doc (sn_segment snap) p roots
        | None => Some None
        end;
      match attributed with
      | Some bsp => Some <$> forward_dependency_closure ws bsp
      | None =>
          match deepest_root (ws_targets ws) p with
          | None => Some None
          | Some spec => Some <$> forward_dependency_closure ws (ts_bsp_id spec)
          end
      end
  end.

(** ** Definitions *)

(** A loop whose body may panic and may skip its element. *)
Definition filter_mapM {A B : Type} (f : A → option (option B)) (l : list A) : option (list B) := omap id <$> mapM f l.

(** The filter of a definition scan: the record has a target, it defines [ord] itself and not
    another member of the group, and its target is visible. *)
Definition exact_visible (seg : SegmentReader) (allowed : option (gset (list Z))) (ord : Z) (rec : GroupRecord) : option (option TargetMeta) :=
  if gr_target_ord rec <? 0 then Some None else
  let ps := as_u32 (gr_packed_start rec) in
  hit ← symbol_at seg (as_u32 (gr_doc_ord rec)) (unpack_line ps) (unpack_char ps);
  if negb (bool_decide (hit_symbol_ord <$> hit = Some (as_i32 ord))) then Some None else
  meta ← rd_target_meta seg (as_u32 (gr_target_ord rec));
  Some (if match allowed with Some ids => bool_decide (bsp_id meta ∈ ids) | None => true end then Some meta else None).

(** A visible definition as an absolute location. *)
Definition definition_loc (seg : SegmentReader) (allowed : option (gset (list Z))) (ord : Z) (rec : GroupRecord) : option (option Loc) :=
  meta ← exact_visible seg allowed ord rec;
  match meta with
  | None => Some None
  | Some meta =>
      uri ← uri_of seg (as_u32 (gr_doc_ord rec));
      Some (Some (mkLoc (file_uri_of (sourceroot meta) uri) (record_span (gr_packed_start rec) (gr_packed_end rec))))
  end.

(** The prologue the definition queries share: the ordinal and the reference group of a global
    symbol. *)
Definition global_group (seg : SegmentReader) (semantic_symbol : list Z) : option (option (Z * Z)) :=
  ord ← find_symbol_ord seg (SymbolEncoding.encode semantic_symbol None);
  match ord with
  | None => Some None
  | Some ord =>
      view ← symbol_view seg ord;
      Some (if sv_ref_group_ord view <? 0 then None else Some (ord, as_u32 (sv_ref_group_ord view)))
  end.

Definition symbol_definition (o : QueryOrchestrator) (semantic_symbol from_uri : list Z) : option (list Loc) :=
  if bool_decide (semantic_symbol = []) then Some [] else
  match current_snapshot o with
  | None => Some []
  | Some snap =>
      let seg := sn_segment snap in
      group ← global_group seg semantic_symbol;
      match group with
      | None => Some []
      | Some (ord, ref_group) =>
          allowed ← requesting_forward_closure o from_uri;
          recs ← scan_def_group seg ref_group;
          locs ← filter_mapM (definition_loc seg allowed ord) recs;
          Some (dedupe_and_sort_locs locs)
      end
  end.

(** ** Method search *)

Record MethodHit := mkMethodHit { mh_uri : list Z; mh_symbol : list Z; mh_kind : Z; mh_span : Span }.

Definition method_hit_leb (a b : MethodHit) : bool :=
  then_leb (str_cmp (mh_symbol a) (mh_symbol b)) (loc_leb (mkLoc (mh_uri a) (mh_span a)) (mkLoc (mh_uri b) (mh_span b))).
Definition dedupe_and_sort_method_hits (hits : list MethodHit) : list MethodHit :=
  dedup_by (λ a b, bool_decide (mh_symbol a = mh_symbol b) && bool_decide (mh_uri a = mh_uri b) && bool_decide (mh_span a = mh_span b))
    (sort_by method_hit_leb hits).

(** The body of the loop over the symbols. *)
Definition method_hits_of `{CharTables} `{LowercaseTable} (seg : SegmentReader) (query : list Z) (allowed : option (gset (list Z))) (ord : Z)
    : option (list MethodHit) :=
  encoded ← semantic_symbol_of seg ord;
  let '(raw, local) := SymbolEncoding.decode encoded in
  match local, descriptor_of raw with
  | None, Some (D_Method display _) =>
      matches ← fuzzy_matches_name query display;
      if negb matches then Some [] else
      view ← symbol_view seg ord;
      if sv_ref_group_ord view <? 0 then Some [] else
      meta ← rd_symbol_meta seg ord;
      let kind := if negb (sm_kind meta =? 0) then sm_kind meta else 3 in
      recs ← scan_def_group seg (as_u32 (sv_ref_group_ord view));
      filter_mapM (λ rec, loc ← definition_loc seg allowed ord rec;
                          Some ((λ l, mkMethodHit (loc_uri l) raw kind (loc_span l)) <$> (loc : option Loc))) recs
  | _, _ => Some []
  end.

Definition search_methods `{CharTables} `{LowercaseTable} (o : QueryOrchestrator) (query bsp_target_id : list Z) : option (list MethodHit) :=
  match current_snapshot o with
  | None => Some []
  | Some snap =>
      let seg := sn_segment snap in
      allowed ← (if bool_decide (bsp_target_id = []) then Some None else
                 match qo_workspace o with
                 | None => Some None
                 | Some ws => closure ← forward_dependency_closure ws bsp_target_id;
                              Some (if bool_decide (closure = ∅) then None else Some closure)
                 end);
      hits ← collect (method_hits_of seg query allowed) (seqZ 0 (as_u32 (symbol_count seg)));
      Some (dedupe_and_sort_method_hits hits)
  end.

(** ** Toplevels of the defining source *)

(** [best.is_none_or(|b| candidate < b)] *)
Definition lower_candidate (best : option (Z * Z)) (c : Z * Z) : option (Z * Z) :=
  match best with
  | Some b => if lex_ltb [c.1; c.2] [b.1; b.2] then Some c else best
  | None => Some c
  end.

(** A definition occurrence of a global toplevel. *)
Definition toplevel_of (seg : SegmentReader) (rec : DocRecord) : option (option (list Z)) :=
  if negb (has (as_u32 (dr_flags rec)) OCC_DEFINITION) then Some None else
  encoded ← semantic_symbol_of seg (as_u32 (dr_symbol_ord rec));
  let '(raw, local) := SymbolEncoding.decode encoded in
  Some (if bool_decide (is_Some local) || negb (bool_decide (enclosing_top_level raw = Some raw)) then None else Some raw).

(** Insertion into a list of the strings first seen. *)
Definition push_new (out : list (list Z)) (s : list Z) : list (list Z) := if bool_decide (s ∈ out) then out else out ++ [s].

Definition definition_source_toplevels (o : QueryOrchestrator) (semantic_symbol source_uri : list Z) : option (list (list Z)) :=
  if bool_decide (semantic_symbol = []) then Some [] else
  match current_snapshot o with
  | None => Some []
  | Some snap =>
      let seg := sn_segment snap in
      group ← global_group seg semantic_symbol;
      match group with
      | None => Some []
      | Some (ord, ref_group) =>
          allowed ← requesting_forward_closure o source_uri;
          recs ← scan_def_group seg ref_group;
          candidates ← filter_mapM (λ rec, meta ← exact_visible seg allowed ord rec;
                                           Some ((λ _, (as_u32 (gr_target_ord rec), as_u32 (gr_doc_ord rec))) <$> (meta : option TargetMeta))) recs;
          match foldl lower_candidate None candidates with
          | None => Some []
          | Some (_, doc_ord) =>
              drecs ← scan_doc seg doc_ord false;
              tops ← filter_mapM (toplevel_of seg) drecs;
              Some (foldl push_new [] tops)
          end
      end
  end.

(** ** Implementations *)

Definition group_has_override_family (seg : SegmentReader) (sym_ord : Z) : option bool :=
  view ← symbol_view seg sym_ord;
  if sv_rename_group_ord view <? 0 then Some false else
  rp_has_override_family <$> rename_profile seg (as_u32 (sv_rename_group_ord view)).

Definition raw_sdb_document_of (fs : Fs) (seg : SegmentReader) (doc_ord : Z) : option (option SdbDocument) :=
  uri ← uri_of seg doc_ord;
  target_ord ← target_ord_of_doc seg doc_ord;
  if target_ord <? 0 then Some None else
  meta ← rd_target_meta seg (as_u32 target_ord);
  match semanticdb_file_for (locator_new (path_components (StoreFormat.semanticdb_root meta))) uri with
  | Err _ => Some None
  | Ok file =>
      match parse_file (read_bytes fs) (path_str file) with
      | Ok docs => Some (List.find (λ d, str_eqb (sd_uri d) uri) (documents docs))
      | Err (Failed _) => Some None
      | Err _ => None
      end
  end.

(** The method whose family a cursor asks for: not a constructor. *)
Definition family_name (symbol : list Z) : option (list Z) :=
  match descriptor_of symbol with
  | Some (D_Method name _) => if str_eqb name CONSTRUCTOR_NAME then None else Some name
  | _ => None
  end.

(** The body of the loop over the symbols: a candidate with its defining document. *)
Definition implementation_candidate (seg : SegmentReader) (ord : Z) (method_name : list Z) (cand : Z) : option (option (Z * (Z * list Z))) :=
  if cand =? ord then Some None else
  encoded ← semantic_symbol_of seg cand;
  let '(raw, local) := SymbolEncoding.decode encoded in
  match local, descriptor_of raw with
  | None, Some (D_Method name _) =>
      if negb (str_eqb name method_name) then Some None else
      family ← group_has_override_family seg cand;
      if negb family then Some None else
      meta ← rd_symbol_meta seg cand;
      Some (if def_doc_ord meta <? 0 then None else Some (as_u32 (def_doc_ord meta), (cand, raw)))
  | _, _ => Some None
  end.

(** [by_doc.entry(doc).or_default().push(candidate)] *)
Definition push_candidate (by_doc : gmap Z (list (Z * list Z))) (c : Z * (Z * list Z)) : gmap Z (list (Z * list Z)) :=
  <[c.1 := default [] (by_doc !! c.1) ++ [c.2]]> by_doc.

Definition overrides (sdb : SdbDocument) (raw base : list Z) : bool :=
  match List.find (λ s, str_eqb (si_symbol s) raw) (sd_symbols sdb) with
  | Some s => existsb (λ o, str_eqb o base) (overridden_symbols s)
  | None => false
  end.

(** A visible definition as a location relative to its target. *)
Definition relative_loc (seg : SegmentReader) (allowed : option (gset (list Z))) (ord : Z) (rec : GroupRecord) : option (option Loc) :=
  meta ← exact_visible seg allowed ord rec;
  match meta with
  | None => Some None
  | Some _ =>
      uri ← uri_of seg (as_u32 (gr_doc_ord rec));
      Some (Some (mkLoc uri (record_span (gr_packed_start rec) (gr_packed_end rec))))
  end.

Definition candidate_locs (seg : SegmentReader) (allowed : option (gset (list Z))) (base : list Z) (sdb : SdbDocument) (c : Z * list Z)
    : option (list Loc) :=
  if negb (overrides sdb c.2 base) then Some [] else
  view ← symbol_view seg c.1;
  if sv_ref_group_ord view <? 0 then Some [] else
  recs ← scan_def_group seg (as_u32 (sv_ref_group_ord view));
  filter_mapM (relative_loc seg allowed c.1) recs.

Definition doc_candidate_locs (fs : Fs) (seg : SegmentReader) (allowed : option (gset (list Z))) (base : list Z) (e : Z * list (Z * list Z))
    : option (list Loc) :=
  sdb ← raw_sdb_document_of fs seg e.1;
  match sdb with
  | None => Some []
  | Some sdb => collect (candidate_locs seg allowed base sdb) e.2
  end.

Section implementations.
Context (into_iter : gmap Z (list (Z * list Z)) → list (Z * list (Z * list Z))).

(** [implementations] after the cursor. *)
Definition implementations_of (fs : Fs) (o : QueryOrchestrator) (uri : list Z) (cursor : CursorSymbol) : query (list Loc) :=
  match current_snapshot o with
  | None => fails (NotIndexed uri)
  | Some snap =>
      let seg := sn_segment snap in
      match family_name (cs_semantic_symbol cursor) with
      | None => mret []
      | Some method_name =>
          ord ← reads (find_symbol_ord seg (SymbolEncoding.encode (cs_semantic_symbol cursor) None));
          match ord with
          | None => mret []
          | Some ord =>
              family ← reads (group_has_override_family seg ord);
              if negb family then mret [] else
              allowed ← reads (match absolute_source_path fs o uri with
                               | Some p => requesting_forward_closure o (path_to_uri (Uri.normalize p))
                               | None => Some None
                               end);
              cands ← reads (filter_mapM (implementation_candidate seg ord method_name) (seqZ 0 (as_u32 (symbol_count seg))));
              let by_doc := foldl push_candidate ∅ cands in
              locs ← reads (collect (doc_candidate_locs fs seg allowed (cs_semantic_symbol cursor)) (into_iter by_doc));
              mret (dedupe_and_sort_locs locs)
          end
      end
  end.

Context (io_message : Op → list Z) (denied : Fs → Op → bool) (crc32c : bytes → Z) `{DebugStr} `{CharTables}.
Context (to_json : Durable.Manifest → bytes) (around : Fs → Surroundings) (thread : list Z) `{DirtyBufferOverlay}.

Definition implementations (uri : list Z) (line character : Z) : act (list Loc) :=
  cursor ← symbol_at_cursor io_message denied crc32c to_json around thread uri line character;
  if cs_pc_only cursor then act_fail PcOnlySymbol else
  if cursor_is_local cursor then mret [] else
  ask_query (λ fs o, implementations_of fs o uri cursor).
End implementations.

(** Which method names a query matches: the backtracking loop of [fuzzy_matches_name] against the
    alignments it looks for. *)

Section fuzzy.
Context `{CharTables} `{LowercaseTable}.

(** A character of the query matches in place or, when it is not lowercase, may first skip
    characters of the name. *)
Inductive aligns : list Z → list Z → Prop :=
| aligns_nil s : aligns [] s
| aligns_match c q s : aligns q s → aligns (c :: q) (c :: s)
| aligns_skip c q x s : is_lowercase c = false → aligns (c :: q) s → aligns (c :: q) (x :: s).

(** Skipping more, from the start. *)
Lemma aligns_skips c q pre s : is_lowercase c = false → aligns (c :: q) s → aligns (c :: q) (pre ++ s).
Proof. intros Hc Ha. induction pre; [done|]. by apply aligns_skip. Qed.

Context (q s : list Z) (Hcase : ∀ c, is_uppercase c = true → is_lowercase c = false).

(** The anchors are the positions of one aligned uppercase character, before the current ones. *)
Definition anchored (qa sa : nat) (ql sl : option nat) (base : nat) : Prop :=
  match ql, sl with
  | Some i, Some j => (i < qa)%nat ∧ (base ≤ j < sa)%nat ∧ ∃ c, q !! i = Some c ∧ s !! j = Some c ∧ is_uppercase c = true
  | None, None => True
  | _, _ => False
  end.

(** Between two backtracks the position grows; a backtrack moves the lowest anchor up. *)
Definition fuzzy_measure (sa base : nat) : nat := (S (length s - sa) + (length s - base) * S (length s))%nat.

(** The alignments the loop may still find. *)
Definition reachable (qa sa : nat) (ql sl : option nat) : Prop :=
  aligns (drop qa q) (drop sa s) ∨
  match ql, sl with Some i, Some j => aligns (drop i q) (drop (S j) s) | _, _ => False end.

Lemma fuzzy_loop_sound fuel qa sa ql sl base :
  (sa ≤ length s)%nat → (base ≤ sa)%nat → anchored qa sa ql sl base → (fuzzy_measure sa base ≤ fuel)%nat →
  ∃ b, fuzzy_loop q s fuel qa sa ql sl = Some b ∧ (b = true → reachable qa sa ql sl).
Proof.
  revert qa sa ql sl base. induction fuel as [|fuel IH]; intros qa sa ql sl base Hsa Hbase Ha Hf; [by apply Nat.le_0_r in Hf|].
  cbn [fuzzy_loop]. destruct (q !! qa) as [qq|] eqn:Eq.
  2: { exists true. split; [done|]. intros _. left. apply lookup_ge_None in Eq. rewrite drop_ge by done. constructor. }
  destruct (s !! sa) as [ss|] eqn:Es; [|by exists false]. apply lookup_lt_Some in Es as Hlt. pose proof (drop_S _ _ _ Eq) as Dq. pose proof (drop_S _ _ _ Es) as Ds.
  unfold fuzzy_measure in *. destruct (Z.eqb_spec qq ss) as [->|Hne].
  - destruct (is_uppercase ss) eqn:Eu.
    + destruct (IH (S qa) (S sa) (Some qa) (Some sa) base) as (b & Hb & Hsound); [lia|lia| |lia|].
      { split; [lia|]. split; [lia|]. by exists ss. }
      exists b. split; [done|]. intros Ht. left. rewrite Dq, Ds. destruct (Hsound Ht) as [?|Hskip]; [by constructor|].
      rewrite Dq in Hskip. apply aligns_skip; [by apply Hcase|done].
    + destruct (IH (S qa) (S sa) ql sl base) as (b & Hb & Hsound); [lia|lia| |lia|].
      { destruct ql, sl; cbn in *; [|done..]. destruct Ha as (? & ? & ?). split_and!; [lia|lia|lia|done]. }
      exists b. split; [done|]. intros Ht. destruct (Hsound Ht) as [?|?]; [left; rewrite Dq, Ds; by constructor|by right].
  - destruct (is_lowercase qq) eqn:El.
    + destruct ql as [i|], sl as [j|]; try by exists false. destruct Ha as (Hi & Hj & c & Hqi & Hsj & Hc).
      destruct (IH i (S j) None None (S j)) as (b & Hb & Hsound); [lia|lia|done| |].
      { pose proof (Nat.mul_le_mono_r (S (length s - S j)) (length s - base) (S (length s)) ltac:(lia)). cbn [Nat.mul] in *. lia. }
      exists b. split; [done|]. intros Ht. right. by destruct (Hsound Ht).
    + destruct (IH qa (S sa) ql sl base) as (b & Hb & Hsound); [lia|lia| |lia|].
      { destruct ql, sl; cbn in *; [|done..]. destruct Ha as (? & ? & ?). split_and!; [lia|lia|lia|done]. }
      exists b. split; [done|]. intros Ht. destruct (Hsound Ht) as [?|?]; [left|by right]. rewrite Dq, Ds. apply aligns_skip; [done|]. by rewrite <- Dq.
Qed.

(** ** What the loop finds *)

Lemma aligns_length a b : aligns a b → (length a ≤ length b)%nat.
Proof. induction 1; cbn in *; lia. Qed.

(** The rest of a query aligns after what its start takes. *)
Lemma aligns_rest w r b : aligns (w ++ r) b → ∃ pre b', b = pre ++ b' ∧ (length w ≤ length pre)%nat ∧ aligns r b'.
Proof.
  revert b. induction w as [|c w IH]; intros b Ha; [by exists [], b|]. remember ((c :: w) ++ r) as a eqn:E.
  induction Ha as [|x a b Ha _|x a y b Hx Ha IHa]; [done| |].
  - injection E as -> ->. destruct (IH b Ha) as (pre & b' & -> & ? & ?). exists (c :: pre), b'. cbn. split_and!; [done|lia|done].
  - destruct (IHa E) as (pre & b' & -> & ? & ?). exists (y :: pre), b'. cbn in *. split_and!; [done|lia|done].
Qed.

(** An alignment in reach: from here, or from the last anchor when the characters since it matched in
    place. *)
Definition in_reach (qa sa : nat) (ql sl : option nat) : Prop :=
  aligns (drop qa q) (drop sa s) ∨
  ∃ i j d, ql = Some i ∧ sl = Some j ∧ qa = (i + d)%nat ∧ sa = (j + d)%nat ∧ (1 ≤ d)%nat ∧ aligns (drop i q) (drop (S j) s).

Lemma in_reach_here qa sa ql sl c : q !! qa = Some c → is_lowercase c = false → in_reach qa sa ql sl → aligns (drop qa q) (drop sa s).
Proof.
  intros Hc Hl [?|(i & j & d & -> & -> & -> & -> & Hd & Ha)]; [done|]. rewrite <- (take_drop d (drop i q)), drop_drop in Ha.
  apply aligns_rest in Ha as (pre & b & Eb & Hlen & Ha). pose proof (lookup_lt_Some _ _ _ Hc) as Hlt. rewrite length_take, length_drop in Hlen.
  assert (drop (j + d) s = take (S (length pre) - d) (drop (j + d) s) ++ b) as ->.
  { rewrite <- (take_drop (S (length pre) - d) (drop (j + d) s)) at 1. f_equal. rewrite drop_drop. replace (j + d + (S (length pre) - d))%nat with (S j + length pre)%nat by lia.
    rewrite <- drop_drop, Eb. apply drop_app_length. }
  rewrite (drop_S _ _ _ Hc) in Ha |- *. by apply aligns_skips.
Qed.

Lemma fuzzy_loop_complete fuel qa sa ql sl b :
  (∀ c, c ∈ q → is_lowercase c = true ∨ is_uppercase c = true) →
  fuzzy_loop q s fuel qa sa ql sl = Some b → in_reach qa sa ql sl → b = true.
Proof.
  intros Hletters. revert qa sa ql sl. induction fuel as [|fuel IH]; intros qa sa ql sl; [done|]. cbn [fuzzy_loop].
  destruct (q !! qa) as [qq|] eqn:Eq; [|by intros [= <-]]. pose proof (drop_S _ _ _ Eq) as Dq.
  destruct (s !! sa) as [ss|] eqn:Es.
  2: { intros _. apply lookup_ge_None in Es. intros [Ha|(i & j & d & _ & _ & -> & -> & Hd & Ha)]; apply aligns_length in Ha; rewrite !length_drop in Ha; apply lookup_lt_Some in Eq; lia. }
  pose proof (drop_S _ _ _ Es) as Ds. destruct (is_lowercase qq) eqn:El.
  - assert (is_uppercase qq = false) as Eu by (destruct (is_uppercase qq) eqn:E; [apply Hcase in E; congruence|done]).
    destruct (Z.eqb_spec qq ss) as [->|Hne].
    + rewrite Eu. intros Hrun [Ha|(i & j & d & -> & -> & -> & -> & Hd & Ha)]; apply (IH _ _ _ _ Hrun).
      * left. rewrite Dq, Ds in Ha. inversion Ha; subst; [done|congruence].
      * right. exists i, j, (S d). split_and!; [done|done|lia|lia|lia|done].
    + intros Hrun [Ha|(i & j & d & -> & -> & -> & -> & Hd & Ha)].
      * rewrite Dq, Ds in Ha. inversion Ha; subst; congruence.
      * apply (IH _ _ _ _ Hrun). by left.
  - assert (is_uppercase qq = true) as Eu by (destruct (Hletters qq); [by eapply list_elem_of_lookup_2|congruence|done]).
    intros Hrun Hin. pose proof (in_reach_here _ _ _ _ _ Eq El Hin) as Ha. rewrite Dq, Ds in Ha. destruct (Z.eqb_spec qq ss) as [->|Hne].
    + rewrite Eu in Hrun. apply (IH _ _ _ _ Hrun). inversion Ha as [|? ? ? Hm|? ? ? ? ? Hm]; subst; [by left|]. right. exists qa, sa, 1%nat.
      split_and!; [done|done|lia|lia|lia|]. by rewrite Dq.
    + apply (IH _ _ _ _ Hrun). left. rewrite Dq. inversion Ha; subst; congruence.
Qed.

Lemma fuzzy_loop_prefix fuel qa ql sl b : (∃ rest, s = q ++ rest) → fuzzy_loop q s fuel qa qa ql sl = Some b → b = true.
Proof.
  intros [rest E]. revert qa ql sl. induction fuel as [|fuel IH]; intros qa ql sl; [done|]. cbn [fuzzy_loop]. destruct (q !! qa) as [c|] eqn:Eq; [|by intros [= <-]].
  assert (s !! qa = Some c) as -> by (rewrite E; by apply lookup_app_l_Some). rewrite Z.eqb_refl. apply IH.
Qed.
End fuzzy.

(** C20. Matching a method name always ends within its fuel, and what it matches is right: a name is
    matched only if the query aligns with it, its lowercase characters each directly after the one
    before (at the start, the first), the others anywhere later; every alignment is found when the
    query has letters only; and a query that starts the name matches it. *)
Theorem fuzzy_matches_exact `{CharTables} `{LowercaseTable} q s :
  (∀ c, is_uppercase c = true → is_lowercase c = false) →
  ∃ b, fuzzy_matches_name q s = Some b ∧ (b = true → aligns q s) ∧
    ((∀ c, c ∈ q → is_lowercase c = true ∨ is_uppercase c = true) → aligns q s → b = true) ∧
    ((∃ rest, s = q ++ rest) → b = true).
Proof.
  intros Hcase. unfold fuzzy_matches_name. case_bool_decide as Hq.
  { exists true. split_and!; [done| |done..]. intros _. rewrite Hq. constructor. }
  destruct (fuzzy_loop_sound q s Hcase (fuzzy_fuel s) 0 0 None None 0) as (b & Hb & Hsound); [lia|lia|done|unfold fuzzy_measure, fuzzy_fuel; cbn; lia|].
  exists b. split_and!; [done| | |].
  - intros Ht. by destruct (Hsound Ht).
  - intros Hl Ha. apply (fuzzy_loop_complete q s Hcase _ _ _ _ _ _ Hl Hb). by left.
  - intros Hp. by eapply fuzzy_loop_prefix.
Qed.

(** On the example of the source: [mE] matches [myExt]. *)
Lemma fuzzy_matches_exact_witness :
  let lower : LowercaseTable := λ c, (97 <=? c)%Z && (c <=? 122)%Z in
  fuzzy_matches_name (H := ascii_tables) (H0 := lower) (lit "mE") (lit "myExt") = Some true ∧ aligns (H0 := lower) (lit "mE") (lit "myExt").
Proof.
  destruct (fuzzy_matches_exact (H := ascii_tables) (H0 := λ c, (97 <=? c)%Z && (c <=? 122)%Z) (lit "mE") (lit "myExt")) as (b & Hb & Hsound & _).
  - intros c Hc. apply andb_true_iff in Hc as [_ Hc]. apply andb_false_iff. left. apply Z.leb_le in Hc. apply Z.leb_gt. eapply Z.le_lt_trans; [exact Hc|reflexivity].
  - assert (b = true) as -> by (vm_compute in Hb; congruence). split; [exact Hb|]. by apply Hsound.
Defined.
