(* ===== verification/Outline.v ===== *)
(** The outline of a document ([ls-engine/src/orchestrator.rs], [document_symbols]).

    The nodes are an arena in first-seen order whose entries refer to each other by index; the
    tree is then built by moving every entry into its parent. [None] is an index out of
    bounds. *)

From S2P Require Import Prelude RustStr IndexModel SdbSymbols SdbProfile StoreFormat SegReader Snapshot SymbolEncoding Orchestrator.

Open Scope Z_scope.

#[warnings="-register-all"]
Inductive DocSymbolEntry := mkDocSymbol { ds_name : list Z; ds_kind : SymKind; ds_span : Span; ds_children : list DocSymbolEntry }.

(** What [std::mem::replace] leaves behind. *)
Definition taken_entry : DocSymbolEntry := mkDocSymbol [] UnknownKind (mkSpan 0 0 0 0) [].
Definition push_child (e c : DocSymbolEntry) : DocSymbolEntry := mkDocSymbol (ds_name e) (ds_kind e) (ds_span e) (ds_children e ++ [c]).

Record OutlineNode := mkNode { nd_entry : DocSymbolEntry; nd_children : list nat }.

Record Arena := mkArena { ar_nodes : list OutlineNode; ar_node_of : gmap (list Z) nat; ar_roots : list nat }.
Definition arena_new : Arena := mkArena [] ∅ [].

Section outline.
Context `{CharTables}.

(** The descriptors that have a node: not a constructor, not a setter. *)
Definition outlined (raw : list Z) : option Descriptor :=
  match descriptor_of raw with
  | Some (D_Term n) => Some (D_Term n)
  | Some (D_Type n) => Some (D_Type n)
  | Some (D_Method name d) => if str_eqb name CONSTRUCTOR_NAME || is_setter raw then None else Some (D_Method name d)
  | _ => None
  end.

(** The node of an owner, else of its companion. *)
Definition node_or_companion {A : Type} (node_of : list Z → option A) (ancestor : list Z) : option A :=
  match node_of ancestor with
  | Some n => Some n
  | None => c ← companion ancestor; node_of c
  end.

(** The nearest enclosing symbol that has a node. *)
Fixpoint first_some {A B : Type} (f : A → option B) (l : list A) : option B :=
  match l with [] => None | x :: l => match f x with Some y => Some y | None => first_some f l end end.
Definition nearest {A : Type} (node_of : list Z → option A) (raw : list Z) : option A :=
  first_some (node_or_companion node_of) (rev (enclosing raw)).

(** [nodes[p].children.push(idx)] *)
Definition push_index (nodes : list OutlineNode) (p idx : nat) : option (list OutlineNode) :=
  n ← nodes !! p; Some (<[p := mkNode (nd_entry n) (nd_children n ++ [idx])]> nodes).

(** A new node under its nearest enclosing one. *)
Definition add_node (a : Arena) (raw : list Z) (entry : DocSymbolEntry) : option Arena :=
  let parent := nearest (λ s, ar_node_of a !! s) raw in
  let idx := length (ar_nodes a) in
  let nodes := ar_nodes a ++ [mkNode entry []] in
  let node_of := <[raw := idx]> (ar_node_of a) in
  match parent with
  | Some p => nodes ← push_index nodes p idx; Some (mkArena nodes node_of (ar_roots a))
  | None => Some (mkArena nodes node_of (ar_roots a ++ [idx]))
  end.

(** The closure handed to [scan_doc]. *)
Definition outline_record (seg : SegmentReader) (a : Arena) (rec : DocRecord) : option Arena :=
  if negb (has (as_u32 (dr_flags rec)) OCC_DEFINITION) then Some a else
  let sym_ord := as_u32 (dr_symbol_ord rec) in
  encoded ← semantic_symbol_of seg sym_ord;
  let '(raw, local) := SymbolEncoding.decode encoded in
  match local, outlined raw with
  | None, Some descriptor =>
      if bool_decide (is_Some (ar_node_of a !! raw)) then Some a else
      meta ← rd_symbol_meta seg sym_ord;
      let name := if bool_decide (sm_display meta = []) then descriptor_name descriptor else sm_display meta in
      add_node a raw (mkDocSymbol name (from_code (sm_kind meta)) (record_span (dr_packed_start rec) (dr_packed_end rec)) [])
  | _, _ => Some a
  end.

(** [std::mem::replace(&mut nodes[c].entry, ..)] *)
Definition take_entry (nodes : list OutlineNode) (c : nat) : option (DocSymbolEntry * list OutlineNode) :=
  n ← nodes !! c; Some (nd_entry n, <[c := mkNode taken_entry (nd_children n)]> nodes).

(** [nodes[i].entry.children.push(child)] *)
Definition adopt (i : nat) (nodes : list OutlineNode) (c : nat) : option (list OutlineNode) :=
  taken ← take_entry nodes c;
  n ← taken.2 !! i;
  Some (<[i := mkNode (push_child (nd_entry n) taken.1) (nd_children n)]> taken.2).

(** The body of the loop that completes the node [i]. *)
Definition complete_node (nodes : list OutlineNode) (i : nat) : option (list OutlineNode) :=
  n ← nodes !! i;
  foldM (adopt i) (<[i := mkNode (nd_entry n) []]> nodes) (nd_children n).

Fixpoint take_roots (nodes : list OutlineNode) (roots : list nat) : option (list DocSymbolEntry) :=
  match roots with
  | [] => Some []
  | r :: roots => taken ← take_entry nodes r; rest ← take_roots taken.2 roots; Some (taken.1 :: rest)
  end.

Definition outline_of (a : Arena) : option (list DocSymbolEntry) :=
  nodes ← foldM complete_node (ar_nodes a) (rev (seq 0 (length (ar_nodes a))));
  take_roots nodes (ar_roots a).

Definition document_symbols (o : QueryOrchestrator) (uri : list Z) : option (list DocSymbolEntry) :=
  match current_snapshot o with
  | None => Some []
  | Some snap =>
      let seg := sn_segment snap in
      doc ← doc_ord_of seg uri;
      match doc with
      | None => Some []
      | Some doc_ord =>
          recs ← scan_doc seg doc_ord false;
          a ← foldM (outline_record seg) arena_new recs;
          outline_of a
      end
  end.
End outline.
