(* ===== verification/References.v ===== *)
(** Workspace references and highlights ([ls-engine/src/references.rs], [highlight.rs]).

    A hash set that only filters repetitions is the list of what was kept. *)

From S2P Require Import Prelude RustStr IndexModel Bitset StoreFormat SegReader FileSystem Snapshot Targets SymbolEncoding Orchestrator SymbolQueries.

Open Scope Z_scope.

(** [for x in l { if seen.insert(key(x)) { out.push(x) } }] *)
Definition keep_first {A K : Type} `{EqDecision K} (key : A → K) (l : list A) : list A :=
  foldl (λ out x, if bool_decide (key x ∈ key <$> out) then out else out ++ [x]) [] l.

(** ** References *)

Record ReferenceHit := mkRefHit { rf_loc : Loc; rf_role : Role; rf_from_overlay : bool }.
Record ReferencesResult := mkReferences { rr_hits : list ReferenceHit; rr_needs_reindex : bool }.
Definition locations (r : ReferencesResult) : list Loc := rf_loc <$> rr_hits r.

Definition record_role (rec : GroupRecord) : Role := if has (as_u32 (gr_flags rec)) OCC_DEFINITION then Definition_ else Reference.

Definition record_to_hit (seg : SegmentReader) (rec : GroupRecord) : option ReferenceHit :=
  uri ← uri_of seg (as_u32 (gr_doc_ord rec));
  Some (mkRefHit (mkLoc uri (record_span (gr_packed_start rec) (gr_packed_end rec))) (record_role rec) false).

(** The sink: the records of the allowed targets. *)
Definition allowed_hit (seg : SegmentReader) (allowed : TargetBitset) (rec : GroupRecord) : option (option ReferenceHit) :=
  ok ← bitset_contains allowed (as_u32 (gr_target_ord rec));
  if ok : bool then Some <$> record_to_hit seg rec else Some None.

Definition hit_leb (a b : ReferenceHit) : bool := loc_leb (rf_loc a) (rf_loc b).
Definition hits_dedupe_and_sort (hits : list ReferenceHit) : list ReferenceHit :=
  sort_by hit_leb (keep_first (λ h, (loc_uri (rf_loc h), loc_span (rf_loc h))) hits).

Section references.
Context `{CharTables}.

Definition raw_fallback (fs : Fs) (o : QueryOrchestrator) (cursor : CursorSymbol) (include_declaration : bool) : option (list ReferenceHit) :=
  occs ← raw_doc_occurrences fs o (cs_uri cursor) (cs_semantic_symbol cursor);
  Some ((λ e : Span * Role, mkRefHit (mkLoc (cs_uri cursor) e.1) e.2 false) <$>
        List.filter (λ e, include_declaration || bool_decide (e.2 = Reference)) occs).

Definition snapshot_hits (fs : Fs) (o : QueryOrchestrator) (snap : Snapshot) (cursor : CursorSymbol) (include_declaration : bool)
    : query (list ReferenceHit) :=
  let seg := sn_segment snap in
  ord ← reads (find_symbol_ord seg (encoded_symbol cursor));
  match ord with
  | None =>
      if bool_decide (cs_source cursor = RawSemanticdb) then reads (raw_fallback fs o cursor include_declaration)
      else fails (StaleIndex (cs_uri cursor))
  | Some ord =>
      view ← reads (symbol_view seg ord);
      if sv_ref_group_ord view <? 0 then mret [] else
      let group := as_u32 (sv_ref_group_ord view) in
      allowed ← reads (allowed_targets_for o snap ord);
      refs ← reads (recs ← scan_ref_group seg group (Some allowed); filter_mapM (allowed_hit seg allowed) recs);
      defs ← reads (if include_declaration then recs ← scan_def_group seg group; filter_mapM (allowed_hit seg allowed) recs else Some []);
      mret (refs ++ defs)
  end.

(** The index's share of the answer. *)
Definition index_hits (fs : Fs) (o : QueryOrchestrator) (uri : list Z) (cursor : CursorSymbol) (include_declaration : bool) : query (list ReferenceHit) :=
  match current_snapshot o with
  | Some snap => snapshot_hits fs o snap cursor include_declaration
  | None =>
      if bool_decide (cs_source cursor = RawSemanticdb) then reads (raw_fallback fs o cursor include_declaration)
      else fails (NotIndexed uri)
  end.

(** The symbols of the cursor's group, the cursor's own first. *)
Definition group_symbols (seg : SegmentReader) (g : Z) : option (list (list Z)) :=
  filter_mapM (λ ord,
    view ← symbol_view seg ord;
    if sv_ref_group_ord view =? g then encoded ← semantic_symbol_of seg ord; Some (Some (SymbolEncoding.decode encoded).1)
    else Some None) (seqZ 0 (as_u32 (symbol_count seg))).

Definition overlay_group_symbols (o : QueryOrchestrator) (cursor : CursorSymbol) : option (list (list Z)) :=
  members ← match current_snapshot o with
    | None => Some []
    | Some snap =>
        let seg := sn_segment snap in
        ord ← find_symbol_ord seg (encoded_symbol cursor);
        match ord with
        | None => Some []
        | Some ord =>
            view ← symbol_view seg ord;
            if 0 <=? sv_ref_group_ord view then group_symbols seg (sv_ref_group_ord view) else Some []
        end
    end;
  Some (keep_first id (cs_semantic_symbol cursor :: members)).

Context `{DirtyBufferOverlay}.

(** The fan-out over the group's symbols: a location is new when its span is. *)
Definition overlay_hits (o : QueryOrchestrator) (cursor : CursorSymbol) : option (list ReferenceHit) :=
  if negb contributes_occurrences then Some [] else
  syms ← overlay_group_symbols o cursor;
  let locs := concat ((λ sym, default [] (overlay_occurrences_of sym)) <$> syms) in
  Some ((λ loc, mkRefHit loc Reference true) <$> keep_first loc_span locs).

Definition references_of (fs : Fs) (o : QueryOrchestrator) (uri : list Z) (cursor : CursorSymbol) (include_declaration : bool) : query ReferencesResult :=
  hits ← index_hits fs o uri cursor include_declaration;
  more ← reads (overlay_hits o cursor);
  mret (mkReferences (hits_dedupe_and_sort (hits ++ more)) (cs_needs_reindex cursor)).

(** ** Highlights *)

Inductive HighlightKind := Read | Write.
#[export] Instance HighlightKind_eq_dec : EqDecision HighlightKind.
Proof. solve_decision. Defined.
Record DocHighlight := mkHighlight { hl_span : Span; hl_kind : HighlightKind }.
#[export] Instance DocHighlight_eq_dec : EqDecision DocHighlight.
Proof. solve_decision. Defined.

Definition kind_of (role : Role) : HighlightKind := match role with Definition_ => Write | Reference => Read end.
Definition record_to_highlight (rec : GroupRecord) : DocHighlight :=
  mkHighlight (record_span (gr_packed_start rec) (gr_packed_end rec)) (if has (as_u32 (gr_flags rec)) OCC_DEFINITION then Write else Read).

Definition highlight_leb (a b : DocHighlight) : bool := span_leb (hl_span a) (hl_span b).
Definition highlights_dedupe_and_sort (hits : list DocHighlight) : list DocHighlight := sort_by highlight_leb (keep_first id hits).

(** [Some None]: the document or the symbol is not in the snapshot. *)
Definition snapshot_highlights (snap : Snapshot) (cursor : CursorSymbol) : option (option (list DocHighlight)) :=
  let seg := sn_segment snap in
  doc ← doc_ord_of seg (cs_uri cursor);
  match doc with
  | None => Some None
  | Some doc_ord =>
      ord ← find_symbol_ord seg (encoded_symbol cursor);
      match ord with
      | None => Some None
      | Some ord =>
          view ← symbol_view seg ord;
          if sv_ref_group_ord view <? 0 then Some (Some []) else
          let group := as_u32 (sv_ref_group_ord view) in
          refs ← scan_ref_group seg group None;
          defs ← scan_def_group seg group;
          Some (Some (record_to_highlight <$> List.filter (λ rec, as_u32 (gr_doc_ord rec) =? doc_ord) (refs ++ defs)))
      end
  end.

Definition highlights_of (fs : Fs) (o : QueryOrchestrator) (uri : list Z) (cursor : CursorSymbol) : query (list DocHighlight) :=
  hits ← reads (match current_snapshot o with Some snap => snapshot_highlights snap cursor | None => Some None end);
  match hits with
  | Some hits => mret (highlights_dedupe_and_sort hits)
  | None =>
      if bool_decide (cs_source cursor = RawSemanticdb) then
        occs ← reads (raw_doc_occurrences fs o (cs_uri cursor) (cs_semantic_symbol cursor));
        mret (highlights_dedupe_and_sort ((λ e : Span * Role, mkHighlight e.1 (kind_of e.2)) <$> occs))
      else fails (NotIndexed uri)
  end.

(** ** The requests *)

Context (io_message : Op → list Z) (denied : Fs → Op → bool) (crc32c : bytes → Z) `{DebugStr}.
Context (to_json : Durable.Manifest → bytes) (around : Fs → Surroundings) (thread : list Z).

Definition references (uri : list Z) (line character : Z) (include_declaration : bool) : act ReferencesResult :=
  cursor ← symbol_at_cursor io_message denied crc32c to_json around thread uri line character;
  if cs_pc_only cursor then act_fail PcOnlySymbol else
  ask_query (λ fs o, references_of fs o uri cursor include_declaration).

Definition highlights (uri : list Z) (line character : Z) : act (list DocHighlight) :=
  cursor ← symbol_at_cursor io_message denied crc32c to_json around thread uri line character;
  if cs_pc_only cursor then act_fail PcOnlySymbol else
  ask_query (λ fs o, highlights_of fs o uri cursor).
End references.
