(* ===== verification/Rename.v ===== *)
(** Cross-file rename ([ls-engine/src/rename.rs]): the checks on the current state, the compilation
    and the fresh ingest, and the edit plan on the fresh snapshot.

    The compiler is the build tool's: an argument that changes the files and succeeds or fails.
    A [BTreeMap] is the list of its entries in key order. *)

From stdpp Require Import gmap.
From S2P Require Import Prelude RustStr SdbModel SdbParser IndexModel SdbProfile Locator StoreFormat SegReader FileSystem Durable Snapshot Targets Identifiers Ingest SymbolEncoding Orchestrator SymbolQueries.

Open Scope Z_scope.

Inductive CompileOutcome := CompileOk | CompileError (reason : list Z).

Record TextEditSpan := mkTextEdit { te_span : Span; te_new_text : list Z }.
Record WorkspaceEditPlan := mkPlan { wp_edits : list (list Z * list TextEditSpan); wp_occurrence_count : Z }.

#[export] Program Instance Span_countable : Countable Span :=
  inj_countable' (λ s, (IndexModel.start_line s, start_char s, IndexModel.end_line s, end_char s)) (λ p, mkSpan p.1.1.1 p.1.1.2 p.1.2 p.2) _.
Next Obligation. by intros []. Qed.

Definition rejected {A : Type} (reasons : list (list Z)) : query A := fails (RenameRejected reasons).

Definition group_edits (raw_edits : list (list Z * Span * Z)) : list (list Z * list Span) :=
  (λ e : list Z * list Span, (e.1, sort_spans e.2)) <$> group_by str_cmp (fst <$> raw_edits).

(** ** Shared sources *)

Definition span_of_range (r : SdbRange) : Span :=
  mkSpan (as_u32 (SdbModel.start_line r)) (as_u32 (SdbModel.start_character r)) (as_u32 (SdbModel.end_line r)) (as_u32 (SdbModel.end_character r)).

(** The body of the loop of [symbols_at_spans]. *)
Definition note_symbol (wanted : list Span) (acc : gmap Span (gset (list Z))) (o : SdbOccurrence) : gmap Span (gset (list Z)) :=
  if negb (role_code o =? SdbModel.REFERENCE) && negb (role_code o =? SdbModel.DEFINITION) then acc else
  match so_range o with
  | Some r =>
      let span := span_of_range r in
      if bool_decide (span ∈ wanted) then <[span := {[so_symbol o]} ∪ default ∅ (acc !! span)]> acc else acc
  | None => acc
  end.

Definition symbols_at_spans (fs : Fs) (uri : list Z) (spans : list Span) (file : path) : option (gmap Span (gset (list Z))) :=
  match parse_file (read_bytes fs) file with
  | Err (Failed _) => Some ∅
  | Err _ => None
  | Ok docs =>
      match List.find (λ d, str_eqb (sd_uri d) uri) (documents docs) with
      | None => Some ∅
      | Some doc => Some (foldl (note_symbol spans) ∅ (sd_occurrences doc))
      end
  end.

Definition disagree (reference m : gmap Span (gset (list Z))) (s : Span) : bool := negb (bool_decide (m !! s = reference !! s)).
Definition unresolved (reference : gmap Span (gset (list Z))) (s : Span) : bool :=
  match reference !! s with None => true | Some set => bool_decide (set = ∅) end.

Definition check_shared_source_consistency (fs : Fs) (o : QueryOrchestrator) (uri : list Z) (spans : list Span) : query unit :=
  let files := semanticdb_files_for fs o uri in
  if zlen files <=? 1 then mret tt else
  per_target ← reads (mapM (symbols_at_spans fs uri spans) files);
  reference ← reads (per_target !! 0%nat);
  if existsb (λ m, existsb (disagree reference m) spans) per_target || existsb (unresolved reference) spans
  then rejected (explain SHARED_SOURCE_DISAGREEMENT) else mret tt.

(** ** The checks *)

Definition facts_mask (f : DocFacts) : Z :=
  Z.lor (Z.lor (if generated f then GENERATED_OCCURRENCE else 0) (if readonly f then READONLY_OCCURRENCE else 0))
        (if is_dependency_source f then DEPENDENCY_SOURCE else 0).

Definition require_editable_cursor_doc (fs : Fs) (o : QueryOrchestrator) (uri : list Z) : query unit :=
  match qo_workspace o, primary_bsp_of fs o uri with
  | Some workspace, Some bsp =>
      let facts := facts_for workspace bsp uri in
      if negb (editable facts) then rejected (explain (facts_mask facts)) else mret tt
  | _, _ => mret tt
  end.

Definition current_definition_bsp (o : QueryOrchestrator) (cursor : CursorSymbol) : option (option (list Z)) :=
  match current_snapshot o with
  | None => Some None
  | Some snap =>
      ord ← find_symbol_ord (sn_segment snap) (encoded_symbol cursor);
      match ord with None => Some None | Some ord => definition_bsp_of snap ord end
  end.

(** The closure handed to [scan_rename_group]. *)
Definition raw_edit (seg : SegmentReader) (rec : GroupRecord) : option (list Z * Span * Z) :=
  uri ← uri_of seg (as_u32 (gr_doc_ord rec));
  Some (uri, record_span (gr_packed_start rec) (gr_packed_end rec), gr_flags rec).

Definition collect_edits (snap : Snapshot) (cursor : CursorSymbol) : query (list (list Z * Span * Z)) :=
  let seg := sn_segment snap in
  found ← reads (find_symbol_ord seg (encoded_symbol cursor));
  ord ← or_fail found (StaleIndex (cs_uri cursor));
  view ← reads (symbol_view seg ord);
  if sv_rename_group_ord view <? 0 then rejected [lit "symbol has no rename group"] else
  let group := as_u32 (sv_rename_group_ord view) in
  profile ← reads (SegReader.rename_profile seg group);
  if negb (rp_unsafe_reason_mask profile =? 0) then rejected (explain (as_u64 (rp_unsafe_reason_mask profile))) else
  recs ← reads (scan_rename_group seg group);
  reads (mapM (raw_edit seg) recs).

(** [for x in l { f(x)? }] *)
Fixpoint each_query {A : Type} (f : A → query unit) (l : list A) : query unit :=
  match l with [] => mret tt | x :: l => _ ← f x; each_query f l end.

Definition revalidate (fs : Fs) (o : QueryOrchestrator) `{CharTables} (uri : list Z) : query unit :=
  if bool_decide (primary_spec_of fs o uri = None) then fails (NotIndexed uri) else
  fresh ← reads (source_is_fresh_uri fs o uri);
  if negb fresh then fails (StaleIndex uri) else mret tt.

Definition plan_of (new_text : list Z) (edits_by_uri : list (list Z * list Span)) : WorkspaceEditPlan :=
  mkPlan ((λ e : list Z * list Span, (e.1, (λ s, mkTextEdit s new_text) <$> e.2)) <$> edits_by_uri)
         (foldr Z.add 0 ((λ e : list Z * list Span, zlen e.2) <$> edits_by_uri)).

(** The plan on the fresh snapshot: steps 6 to 9 after the cursor. *)
Definition edit_plan (fs : Fs) (o : QueryOrchestrator) `{CharTables} (uri new_text : list Z) (cursor : CursorSymbol) : query WorkspaceEditPlan :=
  if negb (bool_decide (cs_source cursor = FromSnapshot)) then fails (StaleIndex uri) else
  snap ← or_fail (current_snapshot o) (NotIndexed uri);
  raw_edits ← collect_edits snap cursor;
  if bool_decide (raw_edits = []) then rejected [lit "rename found no editable occurrences"] else
  if forallb (λ e, has (as_u32 e.2) OCC_SYNTHETIC) raw_edits then rejected (explain SYNTHETIC_ONLY) else
  let edits_by_uri := group_edits raw_edits in
  _ ← each_query (λ e, check_shared_source_consistency fs o e.1 e.2) edits_by_uri;
  _ ← each_query (λ e, revalidate fs o e.1) edits_by_uri;
  mret (plan_of new_text edits_by_uri).

(** The targets to compile and the definition's: step 4. *)
Definition compile_domain (fs : Fs) (o : QueryOrchestrator) (workspace : WorkspaceTargets) (uri : list Z) (pre : CursorSymbol)
    : option (option (list Z) * list (list Z)) :=
  def ← current_definition_bsp o pre;
  let def_bsp := match def with Some b => Some b | None => primary_bsp_of fs o uri end in
  match def_bsp with
  | Some b => closure ← reverse_dependency_closure workspace b; Some (def_bsp, sort_by str_leb (elements closure))
  | None => Some (None, ts_bsp_id <$> ws_targets workspace)
  end.

Section rename.
Context (io_message : Op → list Z) (denied : Fs → Op → bool) (crc32c : bytes → Z) `{DebugStr} `{CharTables}.
Context (to_json : Manifest → bytes) (around : Fs → Surroundings) (thread : list Z) `{DirtyBufferOverlay}.
Context (compile : list (list Z) → Fs → Fs * CompileOutcome).

Abbreviation cursor_at := (symbol_at_cursor io_message denied crc32c to_json around thread).

Definition prepare_rename (uri : list Z) (line character : Z) : act Span :=
  if is_dirty uri then
    match overlay_symbol_at uri line character with
    | Some hit => if oh_pc_only hit then act_fail PcOnlySymbol else mret (oh_span hit)
    | None => act_fail (StaleIndex uri)
    end
  else
    cursor ← cursor_at uri line character;
    _ ← ask_query (λ fs o, require_editable_cursor_doc fs o uri);
    mret (cs_span cursor).

(** [self.compiler.compile(&domain)] *)
Definition run_compiler (domain : list (list Z)) : act CompileOutcome := λ o fs,
  let '(fs', r) := compile domain fs in ([], fs', Ok (o, Ok r)).

(** [self.orch.ingest(workspace).map_err(..)?] *)
Definition fresh_ingest (ws : WorkspaceTargets) (uri : list Z) : act unit := λ o,
  r ← try_io (orchestrator_ingest io_message denied crc32c to_json around ws o);
  match r with
  | Some (o, _) => mret (o, Ok tt)
  | None => mret (o, Err (StaleIndex uri))
  end.

Definition rename (uri : list Z) (line character : Z) (new_name : list Z) : act WorkspaceEditPlan :=
  workspace ← ask_query (λ _ o, or_fail (qo_workspace o) (NotIndexed uri));
  if is_dirty uri then
    match overlay_symbol_at uri line character with
    | Some hit => if oh_pc_only hit then act_fail PcOnlySymbol
                  else act_fail (RenameRejected [uri ++ lit " has unsaved changes; save the file before renaming"])
    | None => act_fail (RenameRejected [uri ++ lit " has unsaved changes; save the file before renaming"])
    end
  else
  match Identifiers.encode new_name with
  | Err msg => act_fail (RenameRejected [msg])
  | Ok new_text =>
      pre ← cursor_at uri line character;
      if cs_pc_only pre then act_fail PcOnlySymbol else
      _ ← ask_query (λ fs o, require_editable_cursor_doc fs o uri);
      domain ← ask_query (λ fs o, reads (compile_domain fs o workspace uri pre));
      outcome ← run_compiler domain.2;
      match outcome with
      | CompileError _ => act_fail (CompileFailed (default (join (lit ", ") domain.2) domain.1))
      | CompileOk =>
          _ ← fresh_ingest workspace uri;
          cursor ← cursor_at uri line character;
          ask_query (λ fs o, edit_plan fs o uri new_text cursor)
      end
  end.
End rename.
