(* ===== verification/CallHierarchy.v ===== *)
(** The call hierarchy ([ls-engine/src/call_hierarchy.rs]): items, and the edges between the
    definitions that enclose references.

    A [BTreeMap] is the list of its entries in key order, and the cache of source lines is the
    reading it caches: a query does not change the files. *)

From S2P Require Import Prelude RustStr IndexModel SdbSymbols StoreFormat SegReader FileSystem Snapshot SymbolEncoding Materialize Ingest Orchestrator SymbolQueries Outline References.

Open Scope Z_scope.

Record CallItem := mkCallItem { ci_name : list Z; ci_kind : SymKind; ci_uri : list Z; ci_span : Span; ci_symbol : list Z }.
Record CallEdge := mkCallEdge { ce_item : CallItem; ce_call_sites : list Span }.
Record DefEntry := mkDefEntry { de_symbol : list Z; de_ord : Z; de_start : Z; de_span : Span; de_owners : list (list Z) }.

(** ** Import lines *)

(** [text.lines()]: without the line feed, nor a carriage return before it. *)
Definition strip_line_end (line : list Z) : list Z :=
  match strip_suffix [10] line with
  | None => line
  | Some line => default line (strip_suffix [13] line)
  end.
Definition text_lines (text : list Z) : list (list Z) := strip_line_end <$> source_lines text.

Section items.
Context `{CharTables}.

Definition line_is_import (line : list Z) : bool :=
  match strip_prefix (lit "import") (trim_start line) with
  | None => false
  | Some [] => true
  | Some (c :: _) => negb (is_alphanumeric c || (c =? ch "_") || (c =? ch "$"))
  end.

Definition read_doc_lines (fs : Fs) (seg : SegmentReader) (doc_ord : Z) : option (option (list (list Z))) :=
  target_ord ← target_ord_of_doc seg doc_ord;
  if target_ord <? 0 then Some None else
  meta ← rd_target_meta seg (as_u32 target_ord);
  uri ← uri_of seg doc_ord;
  Some (text_lines <$> read_to_string fs (source_path (sourceroot meta) uri)).

(** [SourceCache::is_import_line] *)
Definition is_import_line (fs : Fs) (seg : SegmentReader) (doc_ord line : Z) : option bool :=
  lines ← read_doc_lines fs seg doc_ord;
  Some (match lines with
        | Some lines => match zget lines line with Some l => line_is_import l | None => false end
        | None => false
        end).

(** ** Items *)

Definition is_callable (raw : list Z) (meta_kind : Z) : bool :=
  match descriptor_of raw with
  | Some (D_Method name _) => negb (str_eqb name CONSTRUCTOR_NAME) && negb (is_setter raw)
  | Some (D_Term _) => bool_decide (from_code meta_kind = Method) || bool_decide (from_code meta_kind = Macro)
  | _ => false
  end.

Definition item_name (display raw : list Z) : list Z :=
  if negb (bool_decide (display = [])) then display else
  match descriptor_of raw with Some d => descriptor_name d | None => raw end.

Definition entry_item (seg : SegmentReader) (doc_ord : Z) (entry : DefEntry) : option CallItem :=
  meta ← rd_symbol_meta seg (de_ord entry);
  uri ← uri_of seg doc_ord;
  Some (mkCallItem (item_name (sm_display meta) (de_symbol entry)) (from_code (sm_kind meta)) uri (de_span entry) (de_symbol entry)).

Definition definition_item (seg : SegmentReader) (sym_ord : Z) : option (option CallItem) :=
  meta ← rd_symbol_meta seg sym_ord;
  if def_doc_ord meta <? 0 then Some None else
  encoded ← semantic_symbol_of seg sym_ord;
  let '(raw, local) := SymbolEncoding.decode encoded in
  match local with
  | Some _ => Some None
  | None =>
      uri ← uri_of seg (as_u32 (def_doc_ord meta));
      Some (Some (mkCallItem (item_name (sm_display meta) raw) (from_code (sm_kind meta)) uri
                    (record_span (def_packed_start meta) (def_packed_end meta)) raw))
  end.

(** [doc_uri.rsplit('/').next()] *)
Definition synthetic_file_item (doc_uri : list Z) : CallItem :=
  mkCallItem (List.last (split_on (ch "/") doc_uri) doc_uri) UnknownKind doc_uri (mkSpan 0 0 0 0) [].

(** ** The definitions of a document *)

(** The closure handed to [scan_doc]. *)
Definition def_entry (seg : SegmentReader) (out : list DefEntry) (rec : DocRecord) : option (list DefEntry) :=
  if negb (has (as_u32 (dr_flags rec)) OCC_DEFINITION) then Some out else
  let sym_ord := as_u32 (dr_symbol_ord rec) in
  encoded ← semantic_symbol_of seg sym_ord;
  let '(raw, local) := SymbolEncoding.decode encoded in
  match local, outlined raw with
  | None, Some _ =>
      if bool_decide (raw ∈ de_symbol <$> out) then Some out else
      Some (out ++ [mkDefEntry raw sym_ord (as_u32 (dr_packed_start rec)) (record_span (dr_packed_start rec) (dr_packed_end rec)) (enclosing raw)])
  | _, _ => Some out
  end.

Definition start_leb (a b : DefEntry) : bool := de_start a <=? de_start b.

Definition doc_def_entries (seg : SegmentReader) (doc_ord : Z) : option (list DefEntry) :=
  recs ← scan_doc seg doc_ord false;
  out ← SdbProfile.foldM (def_entry seg) [] recs;
  Some (sort_by start_leb out).

Definition is_descendant (entry : DefEntry) (ancestor_symbol : list Z) : bool :=
  bool_decide (ancestor_symbol ∈ de_owners entry) ||
  match companion ancestor_symbol with Some c => bool_decide (c ∈ de_owners entry) | None => false end.

(** [entries.iter().position(f)] *)
Fixpoint position {A : Type} (f : A → bool) (l : list A) : option nat :=
  match l with [] => None | x :: l => if f x then Some O else S <$> position f l end.

(** [entries[idx]] *)
Definition successor_start (entries : list DefEntry) (idx : nat) : option (option Z) :=
  e ← entries !! idx;
  Some (de_start <$> List.find (λ e', negb (is_descendant e' (de_symbol e))) (drop (S idx) entries)).

Definition entry_of_symbol (entries : list DefEntry) (symbol : list Z) : option nat := position (λ e, str_eqb (de_symbol e) symbol) entries.

Definition owner_entry_index (entries : list DefEntry) (entry : DefEntry) : option nat :=
  first_some (node_or_companion (entry_of_symbol entries)) (rev (de_owners entry)).

(** [entries.iter().rposition(|e| e.start <= packed)] *)
Definition last_before (entries : list DefEntry) (packed : Z) : option nat :=
  (λ i, (length entries - S i)%nat) <$> position (λ e, de_start e <=? packed) (rev entries).

(** The loop of [enclosing_entry_index]: an owner's symbol is shorter than the entry's, or its
    companion's, so the loop climbs at most as often as the longest symbol has characters. The
    outer [None] is out of fuel or out of bounds. *)
Fixpoint enclosing_loop (fuel : nat) (entries : list DefEntry) (packed : Z) (at_ : nat) : option (option nat) :=
  match fuel with
  | O => None
  | S fuel =>
      succ ← successor_start entries at_;
      if match succ with None => true | Some succ => unpack_line packed <? unpack_line succ end then Some (Some at_) else
      e ← entries !! at_;
      match owner_entry_index entries e with
      | None => Some None
      | Some up => enclosing_loop fuel entries packed up
      end
  end.
Definition climb_fuel (entries : list DefEntry) : nat := S (foldr (λ e n, Nat.max (length (de_symbol e)) n) 0%nat entries).
Definition enclosing_entry_index (entries : list DefEntry) (packed : Z) : option (option nat) :=
  match last_before entries packed with
  | None => Some None
  | Some i => enclosing_loop (climb_fuel entries) entries packed i
  end.

(** ** Preparing *)

(** The walk up to the nearest callable definition. *)
Fixpoint callable_loop (fuel : nat) (seg : SegmentReader) (doc_ord : Z) (entries : list DefEntry) (at_ : option nat) : option (option CallItem) :=
  match at_, fuel with
  | None, _ => Some None
  | Some _, O => None
  | Some i, S fuel =>
      entry ← entries !! i;
      meta ← rd_symbol_meta seg (de_ord entry);
      if is_callable (de_symbol entry) (sm_kind meta) then Some <$> entry_item seg doc_ord entry
      else callable_loop fuel seg doc_ord entries (owner_entry_index entries entry)
  end.

Definition enclosing_callable (seg : SegmentReader) (uri : list Z) (span : Span) : option (option CallItem) :=
  doc ← doc_ord_of seg uri;
  match doc with
  | None => Some None
  | Some doc_ord =>
      entries ← doc_def_entries seg doc_ord;
      at_ ← enclosing_entry_index entries (pack_start span);
      callable_loop (climb_fuel entries) seg doc_ord entries at_
  end.

Definition prepare_item (seg : SegmentReader) (uri : list Z) (cursor : CursorSymbol) : option (option CallItem) :=
  if cursor_is_local cursor then enclosing_callable seg uri (cs_span cursor) else
  ord ← find_symbol_ord seg (SymbolEncoding.encode (cs_semantic_symbol cursor) None);
  match ord with
  | None => Some None
  | Some ord =>
      meta ← rd_symbol_meta seg ord;
      if is_callable (cs_semantic_symbol cursor) (sm_kind meta) then definition_item seg ord
      else enclosing_callable seg uri (cs_span cursor)
  end.

(** ** Edges *)

Definition pair_cmp (a b : Z * Z) : comparison := lex_cmp [a.1; a.2] [b.1; b.2].

Definition edge_leb (a b : CallEdge) : bool :=
  then_leb (str_cmp (ci_uri (ce_item a)) (ci_uri (ce_item b)))
    (then_leb (lex_cmp (take 2 (span_key (ci_span (ce_item a)))) (take 2 (span_key (ci_span (ce_item b)))))
      (str_leb (ci_name (ce_item a)) (ci_name (ce_item b)))).
Definition sort_edges (edges : list CallEdge) : list CallEdge := sort_by edge_leb edges.

(** [-1] is the file. *)
Definition caller_key (entries : list DefEntry) (span : Span) : option Z :=
  i ← enclosing_entry_index entries (pack_start span);
  Some (match i with Some i => Z.of_nat i | None => -1 end).

(** The body of the loop over the references. *)
Definition caller_of (fs : Fs) (seg : SegmentReader) (rec : GroupRecord) : option (option (Z * Z * Span)) :=
  let doc_ord := as_u32 (gr_doc_ord rec) in
  let span := record_span (gr_packed_start rec) (gr_packed_end rec) in
  import ← is_import_line fs seg doc_ord (start_line span);
  if import : bool then Some None else
  entries ← doc_def_entries seg doc_ord;
  key ← caller_key entries span;
  Some (Some (doc_ord, key, span)).

Definition incoming_edge (seg : SegmentReader) (e : Z * Z * list Span) : option CallEdge :=
  let '(doc_ord, key, spans) := e in
  item ← (if 0 <=? key then
            entries ← doc_def_entries seg doc_ord;
            entry ← zget entries key;
            entry_item seg doc_ord entry
          else uri ← uri_of seg doc_ord; Some (synthetic_file_item uri));
  Some (mkCallEdge item (sort_spans spans)).

Definition incoming_calls (fs : Fs) (o : QueryOrchestrator) (item_symbol : list Z) : option (list CallEdge) :=
  if bool_decide (item_symbol = []) || is_local item_symbol then Some [] else
  match current_snapshot o with
  | None => Some []
  | Some snap =>
      let seg := sn_segment snap in
      group ← global_group seg item_symbol;
      match group with
      | None => Some []
      | Some (_, ref_group) =>
          recs ← scan_ref_group seg ref_group None;
          refs ← filter_mapM (caller_of fs seg) recs;
          edges ← mapM (incoming_edge seg) (group_by pair_cmp refs);
          Some (sort_edges edges)
      end
  end.

(** The closure handed to [scan_doc]: a reference inside the extent with its target. *)
Definition callee_of (fs : Fs) (seg : SegmentReader) (doc_ord extent_start extent_end : Z) (rec : DocRecord) : option (option (Z * Span)) :=
  if has (as_u32 (dr_flags rec)) OCC_DEFINITION then Some None else
  let ps := as_u32 (dr_packed_start rec) in
  if (ps <? extent_start) || (extent_end <=? ps) then Some None else
  let span := record_span (dr_packed_start rec) (dr_packed_end rec) in
  import ← is_import_line fs seg doc_ord (start_line span);
  if import : bool then Some None else
  encoded ← semantic_symbol_of seg (as_u32 (dr_symbol_ord rec));
  let '(raw, local) := SymbolEncoding.decode encoded in
  match local, outlined raw with
  | None, Some _ => Some (Some (as_u32 (dr_symbol_ord rec), span))
  | _, _ => Some None
  end.

Definition outgoing_edge (seg : SegmentReader) (e : Z * list Span) : option (option CallEdge) :=
  item ← definition_item seg e.1;
  Some ((λ i, mkCallEdge i (sort_spans e.2)) <$> (item : option CallItem)).

Definition outgoing_calls (fs : Fs) (o : QueryOrchestrator) (item_symbol : list Z) : option (list CallEdge) :=
  if bool_decide (item_symbol = []) || is_local item_symbol then Some [] else
  match current_snapshot o with
  | None => Some []
  | Some snap =>
      let seg := sn_segment snap in
      ord ← find_symbol_ord seg (SymbolEncoding.encode item_symbol None);
      match ord with
      | None => Some []
      | Some ord =>
          meta ← rd_symbol_meta seg ord;
          if def_doc_ord meta <? 0 then Some [] else
          let doc_ord := as_u32 (def_doc_ord meta) in
          entries ← doc_def_entries seg doc_ord;
          match entry_of_symbol entries item_symbol with
          | None => Some []
          | Some pos =>
              e ← entries !! pos;
              succ ← successor_start entries pos;
              let extent_end := default u32_max succ in
              recs ← scan_doc seg doc_ord false;
              refs ← filter_mapM (callee_of fs seg doc_ord (de_start e) extent_end) recs;
              edges ← filter_mapM (outgoing_edge seg) (group_by Z.compare refs);
              Some (sort_edges edges)
          end
      end
  end.

(** ** The request *)

Context (io_message : Op → list Z) (denied : Fs → Op → bool) (crc32c : bytes → Z) `{DebugStr}.
Context (to_json : Durable.Manifest → bytes) (around : Fs → Surroundings) (thread : list Z) `{DirtyBufferOverlay}.

Definition prepare_call_hierarchy (uri : list Z) (line character : Z) : act (option CallItem) :=
  cursor ← symbol_at_cursor io_message denied crc32c to_json around thread uri line character;
  if cs_pc_only cursor then act_fail PcOnlySymbol else
  ask_query (λ _ o, snap ← or_fail (current_snapshot o) (NotIndexed uri); reads (prepare_item (sn_segment snap) uri cursor)).
End items.
