(* ===== verification/IndexView.v ===== *)
(** What a query sees of a segment: its documents, symbols, targets and groups as lists, with the
    scans and lookups of the reader as functions of those lists. Every opened segment shows such
    a view, so the engine's queries are proved against it. *)

From stdpp Require Import sorting.
From S2P Require Import Prelude RustStr IndexModel Bitset StoreFormat SegReader SegSafe SegScan.

Open Scope Z_scope.

(** ** The view *)

Record DocRow := mkDocRow { dw_uri : list Z; dw_target : Z; dw_records : list DocRecord }.
Record SymRow := mkSymRow { sw_symbol : list Z; sw_view : SymbolView; sw_meta : SymbolMeta }.

Record IndexView := mkIndexView {
  vw_docs : list DocRow; vw_symbols : list SymRow; vw_targets : list TargetMeta;
  vw_refs : list (list GroupRecord); vw_defs : list (list GroupRecord); vw_renames : list (list GroupRecord * SegRenameProfile)
}.

(** The view of a reader, read through its accessors. *)
Definition index_view (s : SegmentReader) : option IndexView :=
  docs ← mapM (λ d, uri ← uri_of s d; t ← target_ord_of_doc s d; recs ← scan_doc s d false; Some (mkDocRow uri t recs)) (seqZ 0 (doc_count s));
  symbols ← mapM (λ i, str ← semantic_symbol_of s i; view ← symbol_view s i; meta ← rd_symbol_meta s i; Some (mkSymRow str view meta)) (seqZ 0 (symbol_count s));
  targets ← mapM (rd_target_meta s) (seqZ 0 (target_count s));
  refs ← mapM (λ g, scan_ref_group s g None) (seqZ 0 (ref_group_count s));
  defs ← mapM (scan_def_group s) (seqZ 0 (ref_group_count s));
  renames ← mapM (λ g, recs ← scan_rename_group s g; p ← rename_profile s g; Some (recs, p)) (seqZ 0 (rename_group_count s));
  Some (mkIndexView docs symbols targets refs defs renames).

(** The first record of the smallest span that covers a position. *)
Definition smaller (best : option DocRecord) (rec : DocRecord) : option DocRecord :=
  match best with
  | Some b => if rec_size rec <? rec_size b then Some rec else best
  | None => Some rec
  end.
Definition covering (line character : Z) (recs : list DocRecord) : option DocRecord :=
  foldl smaller None (List.filter (covers line character) recs).

Definition in_targets (allowed : option TargetBitset) (rec : GroupRecord) : bool :=
  match allowed with Some a => bool_decide (bitset_contains a (gr_target_ord rec) = Some true) | None => true end.

(** The ordinals of a view. *)
Definition group_record_in (v : IndexView) (rec : GroupRecord) : Prop :=
  0 ≤ gr_doc_ord rec < zlen (vw_docs v) ∧ 0 ≤ gr_target_ord rec < zlen (vw_targets v) ∧ as_u32 (gr_packed_start rec) ≤ as_u32 (gr_packed_end rec).
Definition doc_record_in (v : IndexView) (rec : DocRecord) : Prop :=
  0 ≤ dr_symbol_ord rec < zlen (vw_symbols v) ∧ as_u32 (dr_packed_start rec) ≤ as_u32 (dr_packed_end rec).
Definition symbol_in (v : IndexView) (row : SymRow) : Prop :=
  opt_ord (sv_ref_group_ord (sw_view row)) (zlen (vw_refs v)) ∧ opt_ord (sv_rename_group_ord (sw_view row)) (zlen (vw_renames v)) ∧
  opt_ord (sv_def_target_ord (sw_view row)) (zlen (vw_targets v)) ∧ opt_ord (def_doc_ord (sw_meta row)) (zlen (vw_docs v)).

(** Every ordinal fits an [i32], as the segment's columns hold them. *)
Record counts_small (s : SegmentReader) : Prop := {
  sm_docs : doc_count s < 2 ^ 31; sm_symbols : symbol_count s < 2 ^ 31; sm_targets : target_count s < 2 ^ 31;
  sm_refs : ref_group_count s < 2 ^ 31; sm_renames : rename_group_count s < 2 ^ 31
}.

(** The interface of the queries: the reader answers as the view says. *)
Class Shows (s : SegmentReader) (v : IndexView) : Prop := {
  sh_small : counts_small s;
  sh_doc_count : doc_count s = zlen (vw_docs v);
  sh_symbol_count : symbol_count s = zlen (vw_symbols v);
  sh_target_count : target_count s = zlen (vw_targets v);
  sh_ref_count : ref_group_count s = zlen (vw_refs v);
  sh_def_count : zlen (vw_defs v) = zlen (vw_refs v);
  sh_rename_count : rename_group_count s = zlen (vw_renames v);
  sh_doc d row : zget (vw_docs v) d = Some row →
    uri_of s d = Some (dw_uri row) ∧ target_ord_of_doc s d = Some (dw_target row) ∧ 0 ≤ dw_target row < zlen (vw_targets v) ∧
    scan_doc s d false = Some (dw_records row) ∧ Forall (doc_record_in v) (dw_records row) ∧
    ∀ line character, inU 32 line → inU 32 character → symbol_at s d line character = Some (rec_hit d <$> covering line character (dw_records row));
  sh_symbol i row : zget (vw_symbols v) i = Some row →
    semantic_symbol_of s i = Some (sw_symbol row) ∧ wf_str (sw_symbol row) ∧ symbol_view s i = Some (sw_view row) ∧
    rd_symbol_meta s i = Some (sw_meta row) ∧ symbol_in v row;
  sh_distinct : NoDup (sw_symbol <$> vw_symbols v);
  sh_find sym : wf_str sym → ∃ o, find_symbol_ord s sym = Some o ∧
    match o with
    | Some i => ∃ row, zget (vw_symbols v) i = Some row ∧ sw_symbol row = sym
    | None => ∀ row, row ∈ vw_symbols v → sw_symbol row ≠ sym
    end;
  sh_target t m : zget (vw_targets v) t = Some m → rd_target_meta s t = Some m;
  sh_refs g grp : zget (vw_refs v) g = Some grp → Forall (group_record_in v) grp ∧
    ∀ allowed, match allowed with Some a => bitset_wf a | None => True end →
      scan_ref_group s g allowed = Some (List.filter (in_targets allowed) grp);
  sh_defs g grp : zget (vw_defs v) g = Some grp → Forall (group_record_in v) grp ∧ scan_def_group s g = Some grp;
  sh_renames g grp p : zget (vw_renames v) g = Some (grp, p) → Forall (group_record_in v) grp ∧ scan_rename_group s g = Some grp ∧
    rename_profile s g = Some p;
  sh_uri row : row ∈ vw_docs v → wf_str (dw_uri row)
}.

(** ** Lemmas: reading a range of ordinals *)

Lemma mapM_range {A : Type} (f : Z → option A) n :
  0 ≤ n → (∀ i, 0 ≤ i < n → is_Some (f i)) →
  ∃ l, mapM f (seqZ 0 n) = Some l ∧ zlen l = n ∧ ∀ i x, zget l i = Some x → 0 ≤ i < n ∧ f i = Some x.
Proof.
  intros Hn Hf. destruct (mapM f (seqZ 0 n)) as [l|] eqn:E.
  - exists l. apply mapM_Some in E. pose proof (Forall2_length _ _ _ E) as Hl. rewrite length_seqZ in Hl.
    split; [done|]. split; [unfold zlen; lia|]. intros i x Hi. pose proof (zget_Some_lt _ _ _ Hi) as Hlt.
    split; [unfold zlen in Hlt; lia|]. rewrite <- (Z2Nat.id i), zget_of_nat in Hi by lia.
    destruct (Forall2_lookup_r _ _ _ _ _ E Hi) as (y & Hy & Hfy). apply lookup_seqZ in Hy as [-> _].
    by replace (0 + Z.of_nat (Z.to_nat i)) with i in Hfy by lia.
  - apply mapM_None, Exists_exists in E as (i & Hi%elem_of_seqZ_0 & Hno). destruct (Hf i Hi). congruence.
Qed.

Lemma filter_and {A : Type} (P Q : A → bool) l : List.filter (λ x, P x && Q x) l = List.filter P (List.filter Q l).
Proof. induction l as [|x l IH]; [done|]. cbn. destruct (Q x); cbn; destruct (P x); cbn; by rewrite ?IH. Qed.

(** ** Lemmas: the smallest covering record *)

(** [r] is the first of the smallest records of [l] at the positions that [P] selects. *)
Definition first_smallest (l : list DocRecord) (b : option DocRecord) : Prop :=
  match b with
  | None => l = []
  | Some rec => ∃ i, l !! i = Some rec ∧ ∀ j rec', l !! j = Some rec' → rec_size rec < rec_size rec' ∨ (rec_size rec = rec_size rec' ∧ (i ≤ j)%nat)
  end.

Lemma first_smallest_snoc l b rec : first_smallest l b → first_smallest (l ++ [rec]) (smaller b rec).
Proof.
  intros H. destruct b as [r|]; cbn in *.
  - destruct H as (i & Hi & Hmin). pose proof (lookup_lt_Some _ _ _ Hi). case_match eqn:E; zify_bools.
    + exists (length l). rewrite lookup_app_r, Nat.sub_diag by lia. split; [done|].
      intros j rec' [Hj|[? [? <-]%list_lookup_singleton_Some]]%lookup_app_Some.
      * destruct (Hmin _ _ Hj); lia.
      * right. lia.
    + exists i. split; [by apply lookup_app_l_Some|]. intros j rec' [Hj|[? [_ <-]%list_lookup_singleton_Some]]%lookup_app_Some; [by apply Hmin|].
      destruct (Z.eq_dec (rec_size r) (rec_size rec)); [right; lia|left; lia].
  - subst l. exists 0%nat. split; [done|]. intros [|j] rec' Hj; [|done]. injection Hj as ->. right. lia.
Qed.

Lemma foldl_smaller l : first_smallest l (foldl smaller None l).
Proof.
  induction l as [|rec l IH] using rev_ind; [done|]. rewrite foldl_app. by apply first_smallest_snoc.
Qed.

(** Positions of a filtered list, in order. *)
Lemma filter_lookup {A : Type} (P : A → bool) l i x :
  List.filter P l !! i = Some x → ∃ k, l !! k = Some x ∧ P x = true ∧ length (List.filter P (take k l)) = i.
Proof.
  revert i. induction l as [|y l IH]; intros i Hi; [done|]. cbn in Hi. destruct (P y) eqn:E.
  - destruct i as [|i].
    + injection Hi as ->. by exists 0%nat.
    + destruct (IH i Hi) as (k & ? & ? & <-). exists (S k). cbn. by rewrite E.
  - destruct (IH i Hi) as (k & ? & ? & <-). exists (S k). cbn. by rewrite E.
Qed.

Lemma filter_position {A : Type} (P : A → bool) l k x :
  l !! k = Some x → P x = true → List.filter P l !! length (List.filter P (take k l)) = Some x.
Proof.
  revert k. induction l as [|y l IH]; intros k Hk Hx; [done|]. destruct k as [|k].
  - injection Hk as ->. cbn. by rewrite Hx.
  - cbn. destruct (P y); cbn; by apply IH.
Qed.

Lemma filter_take_le {A : Type} (P : A → bool) l j k : (j ≤ k)%nat → (length (List.filter P (take j l)) ≤ length (List.filter P (take k l)))%nat.
Proof.
  revert j k. induction l as [|y l IH]; intros j k Hjk; [by rewrite !take_nil|]. destruct j as [|j]; [cbn; lia|]. destruct k as [|k]; [lia|].
  cbn. destruct (P y); cbn; [apply le_n_S|]; apply IH; lia.
Qed.

(** The choice of [covering], by positions in the whole list. *)
Lemma covering_exact line character recs :
  match covering line character recs with
  | None => ∀ rec, rec ∈ recs → covers line character rec = false
  | Some rec => ∃ i, recs !! i = Some rec ∧ covers line character rec = true ∧
      ∀ j rec', recs !! j = Some rec' → covers line character rec' = true →
        rec_size rec < rec_size rec' ∨ (rec_size rec = rec_size rec' ∧ (i ≤ j)%nat)
  end.
Proof.
  pose proof (foldl_smaller (List.filter (covers line character) recs)) as H. unfold covering.
  destruct (foldl _ _ _) as [rec|]; cbn in H.
  - destruct H as (i & Hi & Hmin). apply filter_lookup in Hi as (k & Hk & Hc & Hp). exists k. split_and!; [done..|].
    intros j rec' Hj Hc'. destruct (Hmin _ _ (filter_position _ _ _ _ Hj Hc')) as [?|[? Hle]]; [by left|].
    right. split; [done|]. destruct (Nat.le_gt_cases k j) as [|Hlt]; [done|]. exfalso.
    assert (length (List.filter (covers line character) (take (S j) recs)) = S (length (List.filter (covers line character) (take j recs)))) as E.
    { rewrite (take_S_r _ _ _ Hj), filter_snoc, Hc', length_app. cbn. lia. }
    pose proof (filter_take_le (covers line character) recs (S j) k). lia.
  - intros rec Hrec. destruct (covers line character rec) eqn:E; [|done].
    assert (rec ∈ List.filter (covers line character) recs) as Hin by (apply list_elem_of_In, filter_In; split; [by apply list_elem_of_In|done]).
    rewrite H in Hin. by apply not_elem_of_nil in Hin.
Qed.

(** ** Every opened segment shows its view *)

Section valid_shows.
Context (s : SegmentReader) (z : sizes) (Hv : valid s z) (Hsmall : counts_small s).

(** The records of a role's group that are current. *)
Lemma role_shows gi idx n bc count editable :
  role_ok s gi idx count n bc →
  ∀ g, 0 ≤ g < count → ∃ grp, Forall (record_ok s) grp ∧
    ∀ allowed, match allowed with Some a => bitset_wf a | None => True end →
      (e ← group_index_view (file s gi) g; scan_group s idx e allowed editable) = Some (List.filter (in_targets allowed) grp).
Proof.
  intros Hrole g Hg. destruct (role_serves _ _ _ _ _ _ _ Hrole Hg) as (e & He & _).
  destruct (scan_group_exact s z Hv None I editable _ _ _ _ _ _ (proj1 Hrole) He) as (recs & Hrecs & Hok & _).
  exists (List.filter (wanted s None editable) recs). split.
  - apply Forall_forall. intros rec Hrec. apply list_elem_of_In, filter_In in Hrec as [Hin%list_elem_of_In _].
    rewrite Forall_forall in Hok. by apply Hok.
  - intros allowed Ha. rewrite (gk_view _ _ _ _ _ _ _ He). cbn [mbind option_bind].
    destruct (scan_group_exact s z Hv allowed Ha editable _ _ _ _ _ _ (proj1 Hrole) He) as (recs' & Hrecs' & _ & ->).
    assert (recs' = recs) as -> by congruence. rewrite <- filter_and. f_equal. apply filter_ext_elem. intros rec _.
    unfold wanted, in_targets. destruct allowed; cbn; by rewrite ?andb_assoc.
Qed.

Lemma doc_shows d : 0 ≤ d < doc_count s → ∃ uri t recs,
  uri_of s d = Some uri ∧ target_ord_of_doc s d = Some t ∧ 0 ≤ t < target_count s ∧ scan_doc s d false = Some recs ∧
  Forall (doc_record_ok s) recs ∧
  ∀ line character, inU 32 line → inU 32 character → symbol_at s d line character = Some (rec_hit d <$> covering line character recs).
Proof.
  intros Hd. destruct (valid_doc _ _ _ Hv Hd) as [e He]. pose proof (v_doc_index _ _ Hv) as Hdi.
  destruct (dk_uri _ _ _ _ _ He) as (_ & uri & _ & Huri). destruct (dk_target _ _ _ _ _ He) as (t & Ht & Htr).
  destruct (dk_range _ _ _ _ _ He) as (D1 & D2 & D3).
  destruct (mapM_range (λ k, doc_record s (dv_postings_offset e + k)) (dv_postings_count e)) as (recs & Hm & Hl & Hr); [done| |].
  { intros k Hk. destruct (di_records _ _ _ _ Hdi (dv_postings_offset e + k)) as (rec & Hrec & _); [lia|]. exists rec. apply Hrec. }
  exists uri, t, recs. split_and!; [done|done|lia|lia| | |].
  - unfold scan_doc. rewrite (dk_view _ _ _ _ _ He). cbn [mbind option_bind]. rewrite <- Hl.
    rewrite (collect_seqZ _ (λ rec, [rec]) _ recs).
    + f_equal. clear. induction recs as [|x l IH]; [done|]. cbn. by rewrite IH.
    + intros k rec Hk. apply Hr in Hk as [_ ->]. done.
  - apply Forall_forall. intros rec [k Hk]%elem_of_zget. apply Hr in Hk as [Hk Hrec].
    destruct (di_records _ _ _ _ Hdi (dv_postings_offset e + k)) as (rec' & Hrec' & Hok); [lia|].
    pose proof (da_record _ _ _ _ Hrec') as E. rewrite Hrec in E. by injection E as <-.
  - intros line character Hli Hch. destruct (symbol_at_best s _ _ _ Hdi d e He line character Hli Hch) as (b & -> & Hb). f_equal.
    pose proof (covering_exact line character recs) as Hc.
    assert (∀ i rec, recs !! i = Some rec → 0 ≤ Z.of_nat i < dv_postings_count e ∧ doc_record s (dv_postings_offset e + Z.of_nat i) = Some rec) as Hat.
    { intros i rec Hi. rewrite <- zget_of_nat in Hi. by apply Hr in Hi. }
    assert (∀ r rec, dv_postings_offset e ≤ r < dv_postings_offset e + dv_postings_count e → doc_record s r = Some rec →
      recs !! Z.to_nat (r - dv_postings_offset e) = Some rec) as Hto.
    { intros r rec Hrr Hrec. rewrite <- zget_of_nat, Z2Nat.id by lia. destruct (zget_is_Some recs (r - dv_postings_offset e)) as [x Hx]; [lia|].
      rewrite Hx. apply Hr in Hx as [_ Hx]. replace (dv_postings_offset e + (r - dv_postings_offset e)) with r in Hx by lia. congruence. }
    destruct b as [c|], (covering line character recs) as [rec|]; cbn in Hb, Hc |- *.
    + destruct Hb as (r & rec' & Hrr & Hrec & Hcov & -> & Hmin), Hc as (i & Hi & Hcov' & Hmin'). rewrite hit_of_cand. do 2 f_equal.
      destruct (Hat _ _ Hi) as [Hir Hird]. pose proof (Hto _ _ Hrr Hrec) as Hj.
      destruct (Hmin (dv_postings_offset e + Z.of_nat i) rec) as [?|[? ?]]; [lia|done|done| |].
      * destruct (Hmin' _ _ Hj Hcov) as [?|[? ?]]; lia.
      * destruct (Hmin' _ _ Hj Hcov) as [?|[? ?]]; [lia|]. assert (r = dv_postings_offset e + Z.of_nat i) as -> by lia. congruence.
    + destruct Hb as (r & rec' & Hrr & Hrec & Hcov & _ & _). rewrite (Hc rec') in Hcov; [done|]. eapply list_elem_of_lookup_2. by apply Hto.
    + destruct Hc as (i & Hi & Hcov & _). destruct (Hat _ _ Hi) as [Hir Hird]. rewrite (Hb (dv_postings_offset e + Z.of_nat i) rec) in Hcov by (done || lia). done.
    + done.
Qed.

Lemma symbol_shows i : 0 ≤ i < symbol_count s → ∃ str view meta,
  semantic_symbol_of s i = Some str ∧ wf_str str ∧ symbol_view s i = Some view ∧ rd_symbol_meta s i = Some meta ∧
  opt_ord (sv_ref_group_ord view) (ref_group_count s) ∧ opt_ord (sv_rename_group_ord view) (rename_group_count s) ∧
  opt_ord (sv_def_target_ord view) (target_count s) ∧ opt_ord (def_doc_ord meta) (doc_count s).
Proof.
  intros Hi. destruct (v_dict _ _ Hv) as (strs & Hl & Hstr & _). destruct (zget_is_Some strs i) as [b Hb]; [lia|].
  apply Hstr in Hb as [_ (u & Hu & Hsym) (view & Hview & ? & ? & ?)]. destruct (mk_symbol _ _ (v_meta _ _ Hv) i Hi) as (meta & Hmeta & ?).
  exists u, view, meta. apply from_utf8_sound in Hu as [? _]. by split_and!.
Qed.

Lemma find_symbol_total sym : wf_str sym → ∃ o, find_symbol_ord s sym = Some o ∧
  match o with
  | Some i => 0 ≤ i < symbol_count s ∧ semantic_symbol_of s i = Some sym
  | None => ∀ i, 0 ≤ i < symbol_count s → semantic_symbol_of s i ≠ Some sym
  end.
Proof. intros Hs. apply (find_symbol_valid s z); [done| |done]. pose proof (sm_symbols _ Hsmall). lia. Qed.

Lemma filter_true_id grp : List.filter (in_targets None) grp = grp.
Proof. induction grp as [|x l IH]; [done|]. cbn. by rewrite IH. Qed.

Lemma valid_shows : ∃ v, index_view s = Some v ∧ Shows s v.
Proof.
  destruct (v_counts _ _ Hv) as (H1 & H2 & H3 & H4 & H5). unfold index_view.
  destruct (mapM_range (λ d, uri ← uri_of s d; t ← target_ord_of_doc s d; recs ← scan_doc s d false; Some (mkDocRow uri t recs)) (doc_count s))
    as (docs & -> & Ld & Hd); [done| |].
  { intros d Hd. destruct (doc_shows d Hd) as (u & t & recs & -> & -> & _ & -> & _). by eexists. }
  destruct (mapM_range (λ i, str ← semantic_symbol_of s i; view ← symbol_view s i; meta ← rd_symbol_meta s i; Some (mkSymRow str view meta)) (symbol_count s))
    as (syms & -> & Ls & Hs); [done| |].
  { intros i Hi. destruct (symbol_shows i Hi) as (u & w & m & -> & _ & -> & -> & _). by eexists. }
  destruct (mapM_range (rd_target_meta s) (target_count s)) as (tgts & -> & Lt & Ht); [done|apply (mk_target _ _ (v_meta _ _ Hv))|].
  destruct (mapM_range (λ g, scan_ref_group s g None) (ref_group_count s)) as (refs & -> & Lr & Hr); [done| |].
  { intros g Hg. destruct (role_shows _ _ _ _ _ false (v_ref _ _ Hv) g Hg) as (grp & _ & Hscan). eexists. by apply (Hscan None). }
  destruct (mapM_range (scan_def_group s) (ref_group_count s)) as (defs & -> & Lf & Hf); [done| |].
  { intros g Hg. destruct (role_shows _ _ _ _ _ false (v_def _ _ Hv) g Hg) as (grp & _ & Hscan). eexists. by apply (Hscan None). }
  destruct (mapM_range (λ g, recs ← scan_rename_group s g; p ← rename_profile s g; Some (recs, p)) (rename_group_count s)) as (rens & -> & Ln & Hn); [done| |].
  { intros g Hg. destruct (role_shows _ _ _ _ _ true (v_rename _ _ Hv) g Hg) as (grp & _ & Hscan).
    unfold scan_rename_group, rename_group. rewrite (Hscan None I). destruct (sv_rename _ (valid_serves _ _ Hv) g Hg) as [[p ->] _]. by eexists. }
  eexists. split; [done|]. cbn [mbind option_bind] in *.
  assert (∀ rec, record_ok s rec → group_record_in (mkIndexView docs syms tgts refs defs rens) rec) as Hgr.
  { intros rec (? & ? & ?). unfold group_record_in. cbn. lia. }
  assert (∀ i row, zget syms i = Some row → semantic_symbol_of s i = Some (sw_symbol row) ∧ wf_str (sw_symbol row) ∧ symbol_view s i = Some (sw_view row) ∧
    rd_symbol_meta s i = Some (sw_meta row) ∧ symbol_in (mkIndexView docs syms tgts refs defs rens) row) as Hsym.
  { intros i row Hi. apply Hs in Hi as [Hi Hrow]. destruct (symbol_shows i Hi) as (u & w & m & E1 & Hu & E2 & E3 & ? & ? & ? & ?).
    rewrite E1, E2, E3 in Hrow. injection Hrow as <-. unfold symbol_in. cbn. rewrite Lr, Ln, Lt, Ld. by split_and!. }
  destruct (v_dict _ _ Hv) as (strs & Hdict). pose proof Hdict as (Lstr & Hstr & Hsorted).
  constructor; cbn [vw_docs vw_symbols vw_targets vw_refs vw_defs vw_renames]; [done..|congruence|done|congruence|congruence| | | | | | | | |].
  - intros d row Hrow. apply Hd in Hrow as [Hdr Hrow]. destruct (doc_shows d Hdr) as (u & t & recs & E1 & E2 & Htr & E3 & Hok & Hat).
    rewrite E1, E2, E3 in Hrow. injection Hrow as <-. cbn. split_and!; [done|done|lia|lia|done| |done].
    eapply Forall_impl; [exact Hok|]. intros rec (? & ?). unfold doc_record_in. cbn. lia.
  - done.
  - apply NoDup_alt. intros i j sy Hi Hj. rewrite list_lookup_fmap in Hi, Hj.
    destruct (syms !! i) as [ri|] eqn:Ei; [|done]. destruct (syms !! j) as [rj|] eqn:Ej; [|done]. injection Hi as <-. injection Hj as Hj.
    rewrite <- zget_of_nat in Ei, Ej. destruct (Hsym _ _ Ei) as [Hsi _]. destruct (Hsym _ _ Ej) as [Hsj _].
    apply zget_Some_lt in Ei as Hil. apply zget_Some_lt in Ej as Hjl.
    destruct (zget_is_Some strs (Z.of_nat i)) as [bi Hbi]; [lia|]. destruct (zget_is_Some strs (Z.of_nat j)) as [bj Hbj]; [lia|].
    destruct (sy_str _ _ _ (Hstr _ _ Hbi)) as (ui & Hui & Hui'), (sy_str _ _ _ (Hstr _ _ Hbj)) as (uj & Huj & Huj').
    assert (bi = bj) as ->. { apply from_utf8_sound in Hui as [_ <-], Huj as [_ <-]. congruence. }
    destruct (Nat.lt_trichotomy i j) as [Hlt|[->|Hlt]]; [|done|]; exfalso.
    + pose proof (strs_sorted s strs Hdict _ _ _ _ Hbi Hbj ltac:(lia)) as E. by rewrite bytes_ltb_irrefl in E.
    + pose proof (strs_sorted s strs Hdict _ _ _ _ Hbj Hbi ltac:(lia)) as E. by rewrite bytes_ltb_irrefl in E.
  - intros sym Hsymwf. destruct (find_symbol_total sym Hsymwf) as (o & Ho & Hres). exists o. split; [done|]. destruct o as [i|].
    + destruct Hres as [Hi Hsi]. destruct (zget_is_Some syms i) as [row Hrow]; [lia|]. exists row. split; [done|]. destruct (Hsym _ _ Hrow) as [E _]. congruence.
    + intros row [i Hi]%elem_of_zget. destruct (Hsym _ _ Hi) as [E _]. intros <-. apply (Hres i); [|done]. apply zget_Some_lt in Hi. lia.
  - intros t m Hm. by apply Ht in Hm as [_ ?].
  - intros g grp Hg. apply Hr in Hg as [Hg Hscan]. destruct (role_shows _ _ _ _ _ false (v_ref _ _ Hv) g Hg) as (grp' & Hok & Hall).
    pose proof (Hall None I) as E. fold (ref_group s g) in E. change (_ ← ref_group s g; _) with (scan_ref_group s g None) in E.
    rewrite Hscan, filter_true_id in E. injection E as <-. split; [by eapply Forall_impl|done].
  - intros g grp Hg. apply Hf in Hg as [Hg Hscan]. destruct (role_shows _ _ _ _ _ false (v_def _ _ Hv) g Hg) as (grp' & Hok & Hall).
    pose proof (Hall None I) as E. change (_ ← _; _) with (scan_def_group s g) in E.
    rewrite Hscan, filter_true_id in E. injection E as <-. split; [by eapply Forall_impl|done].
  - intros g grp p Hg. apply Hn in Hg as [Hg Hscan]. destruct (role_shows _ _ _ _ _ true (v_rename _ _ Hv) g Hg) as (grp' & Hok & Hall).
    pose proof (Hall None I) as E. change (_ ← _; _) with (scan_rename_group s g) in E. rewrite filter_true_id in E. rewrite E in Hscan.
    destruct (sv_rename _ (valid_serves _ _ Hv) g Hg) as [[p' Hp'] _]. rewrite Hp' in Hscan. injection Hscan as <- <-.
    split; [by eapply Forall_impl|done].
  - intros row [d Hrow]%elem_of_zget. apply Hd in Hrow as [Hdr Hrow]. destruct (doc_shows d Hdr) as (u & t & recs & E1 & E2 & _ & E3 & _).
    rewrite E1, E2, E3 in Hrow. injection Hrow as <-. cbn. destruct (valid_doc _ _ _ Hv Hdr) as [e He].
    destruct (dk_uri _ _ _ _ _ He) as (bs & u' & [Hu _]%from_utf8_sound & Huri). congruence.
Qed.
End valid_shows.

(** An opened segment shows its view. *)
Lemma reader_shows (crc32c : bytes → Z) `{!DebugStr} (read_file : list Z → FileRead) dir s :
  (∀ p b, read_file p = Found b → zlen b < 2 ^ 63) → reader_open crc32c read_file dir = Ok s → counts_small s →
  ∃ v, index_view s = Some v ∧ Shows s v.
Proof. intros Hfit Hs Hsmall. apply (reader_open_valid _ _ Hfit) in Hs as [z Hz]. by eapply valid_shows. Qed.
