(* ===== verification/QueryExample.v ===== *)
(** An indexed workspace for the witnesses of the query theorems: the target [core] defines a class
    with a method, the target [app] depends on it and uses both. The segment is the one an ingest
    of the files materializes. *)

From S2P Require Import Prelude RustStr SdbModel SdbParser IndexModel SdbSymbols SdbNormalize SdbGroups SdbProfile Md5 Uri Locator StoreFormat SegReader SegSafe SegWriter SegExample SegScan SegRefine WorkspaceState FileSystem Durable Snapshot StorePublish StoreTheorems StoreExample Targets EngineState SymbolEncoding Materialize Ingest Orchestrator IndexView.

Open Scope Z_scope.

#[local] Existing Instance ascii_tables.

Definition core_text : list Z := lit "class A { def m = 1 }".
Definition app_text : list Z := lit "object B { val x = new A().m; def n = x }".

Definition ex_range (start stop : Z) : option SdbRange :=
  Some {| SdbModel.start_line := 0; start_character := start; SdbModel.end_line := 0; end_character := stop |}.
Definition ex_occ (sym : string) (start stop role : Z) : SdbOccurrence := {| so_range := ex_range start stop; so_symbol := lit sym; role_code := role |}.
Definition ex_sym (sym display : string) (kind : Z) : SdbSymbolInfo :=
  {| si_symbol := lit sym; kind_code := kind; properties := 0; SdbModel.si_display_name := lit display; overridden_symbols := [] |}.
Definition ex_doc (uri : string) (text : list Z) (syms : list SdbSymbolInfo) (occs : list SdbOccurrence) : SdbDocument :=
  {| sd_schema := 4; sd_uri := lit uri; sd_text := []; sd_md5 := default [] (compute_hex text); language_code := 1; sd_symbols := syms; sd_occurrences := occs |}.

Definition core_doc : SdbDocument :=
  ex_doc "a.scala" core_text [ex_sym "_empty_/A#" "A" 13; ex_sym "_empty_/A#m()." "m" 3]
    [ex_occ "_empty_/A#" 6 7 SdbModel.DEFINITION; ex_occ "_empty_/A#m()." 14 15 SdbModel.DEFINITION].
Definition app_doc : SdbDocument :=
  ex_doc "b.scala" app_text [ex_sym "_empty_/B." "B" 10; ex_sym "_empty_/B.x." "x" 3; ex_sym "_empty_/B.n()." "n" 3]
    [ex_occ "_empty_/B." 7 8 SdbModel.DEFINITION; ex_occ "_empty_/B.x." 15 16 SdbModel.DEFINITION; ex_occ "_empty_/A#" 23 24 SdbModel.REFERENCE;
     ex_occ "_empty_/A#m()." 27 28 SdbModel.REFERENCE; ex_occ "_empty_/B.n()." 34 35 SdbModel.DEFINITION; ex_occ "_empty_/B.x." 38 39 SdbModel.REFERENCE].

Definition ex_fs : Fs :=
  let file b := mkFile b true in
  mkFs (list_to_map [(lit "/core/META-INF/semanticdb/a.scala.semanticdb", file (encode_documents {| documents := [core_doc] |}));
                     (lit "/app/META-INF/semanticdb/b.scala.semanticdb", file (encode_documents {| documents := [app_doc] |}));
                     (lit "/ws/a.scala", file (as_bytes core_text)); (lit "/ws/b.scala", file (as_bytes app_text))])
    (list_to_set (lit <$> ["/core"; "/core/META-INF"; "/core/META-INF/semanticdb"; "/app"; "/app/META-INF"; "/app/META-INF/semanticdb"; "/ws"]%string)).

Definition ex_targets : list TargetSpec :=
  [target_spec_new (lit "core") (lit "/core") (lit "/ws"); with_deps (target_spec_new (lit "app") (lit "/app") (lit "/ws")) [lit "core"]].
Definition ex_workspace : WorkspaceTargets := default (mkWorkspaceTargets [] ∅ ∅) (workspace_targets_new ex_targets).

(** What the ingest publishes: the files of the segment with their checksums, and the state. *)
Definition ex_input : option (SegmentData * bytes) :=
  '(w, batch, data) ← ingest_input ex_fs empty_store ex_workspace; Some (data, EngineState.encode (wk_new_state w)).
Definition ex_built :=
  match ex_input with
  | Some (data, _) => match build_segment sum_crc 1 data 1234 with Ok r => r | Err _ => ([], []) end
  | None => ([], [])
  end.
Definition ex_files : list (list Z * bytes) * bytes := Eval vm_compute in ex_built.
Definition ex_payload : bytes := Eval vm_compute in from_option snd [] ex_input.

(** The snapshot that opens it. *)
Definition ex_dir : list Z → FileRead := dir_of ex_files.1 ex_files.2.
Definition ex_open : outcome SegmentReader := reader_open sum_crc ex_dir (lit "seg").
Definition ex_reader : SegmentReader :=
  Eval vm_compute in match ex_open with Ok s => s | Err _ => mkReader [] 0 0 0 0 0 0 0 0 0 [] end.
Definition ex_view : IndexView :=
  Eval vm_compute in default (mkIndexView [] [] [] [] [] []) (index_view ex_reader).
Definition ex_state : WorkspaceState :=
  mkWorkspaceState 1 ex_payload.
Definition ex_snapshot : Snapshot := mkSnapshot ex_reader ex_state 1 1 (lit "seg") (lit "state").

Definition ex_orchestrator : QueryOrchestrator := mkOrchestrator (mkStore root (Some ex_snapshot) []) false (Some ex_workspace) None.

Lemma ex_dir_fits p b : ex_dir p = Found b → zlen b < 2 ^ 63.
Proof. apply dir_of_fits. vm_compute. reflexivity. Qed.

Lemma ex_shows : Shows ex_reader ex_view.
Proof.
  destruct (reader_shows sum_crc ex_dir (lit "seg") ex_reader) as (v & Hv & Hs).
  - exact ex_dir_fits.
  - vm_compute. reflexivity.
  - split; vm_compute; reflexivity.
  - assert (index_view ex_reader = Some ex_view) as E by (vm_compute; reflexivity). by rewrite E in Hv; injection Hv as <-.
Qed.

Lemma ex_workspace_built : workspace_targets_new (ws_targets ex_workspace) = Some ex_workspace.
Proof. vm_compute. reflexivity. Qed.

Lemma ex_sized p n : fs_files ex_fs !! p = Some n → inU 64 (zlen (fn_bytes n)).
Proof.
  intros Hn. assert (map_Forall (λ _ n, inU 64 (zlen (fn_bytes n))) (fs_files ex_fs)) as H by (refine (bool_decide_unpack _ _); vm_compute; exact I).
  exact (H p n Hn).
Qed.

(** The platform of the witnesses. *)
Definition ex_around (_ : Fs) : Surroundings := mkSurroundings 1234 5 no_refs no_refs.
#[export] Instance ex_overlay : DirtyBufferOverlay := NoopOverlay.
Definition ex_cursor_at (uri : string) (line character : Z) : act CursorSymbol :=
  symbol_at_cursor (H0 := ascii_tables) no_message no_faults sum_crc encode_manifest ex_around (lit "main") (lit uri) line character.
