(* ===== verification/QueryView.v ===== *)
(** Lemmas the proofs about queries share: loops that may panic, orders on locations, and the
    removal of repetitions. *)

From stdpp Require Import sorting.
From stdpp Require Import relations.
From S2P Require Import Prelude RustStr IndexModel Bitset StoreFormat SegReader Orchestrator SymbolQueries References SegSafe SegScan Snapshot Targets SymbolEncoding IndexView.

From Stdlib Require Import Sorting.Sorted.

Open Scope Z_scope.

(** ** Loops *)

Lemma find_opt_total {A : Type} (f : A → option bool) (g : A → bool) l :
  (∀ x, x ∈ l → f x = Some (g x)) → find_opt f l = Some (List.find g l).
Proof.
  induction l as [|x l IH]; intros Hf; [done|]. cbn. rewrite Hf by left. cbn. destruct (g x); [done|]. apply IH. intros y Hy. apply Hf. by right.
Qed.

Lemma filter_mapM_total {A B : Type} (f : A → option (option B)) (g : A → option B) l :
  (∀ x, x ∈ l → f x = Some (g x)) → filter_mapM f l = Some (omap g l).
Proof.
  intros Hf. unfold filter_mapM. assert (mapM f l = Some (g <$> l)) as ->.
  { induction l as [|x l IH]; [done|]. cbn. rewrite Hf by left. cbn. rewrite IH by (intros; apply Hf; by right). done. }
  cbn. f_equal. clear Hf. induction l as [|x l IH]; [done|]. cbn. destruct (g x); cbn; by rewrite IH.
Qed.

Lemma collect_total {A B : Type} (f : A → option (list B)) (g : A → list B) l :
  (∀ x, x ∈ l → f x = Some (g x)) → collect f l = Some (concat (g <$> l)).
Proof.
  intros Hf. unfold collect. assert (mapM f l = Some (g <$> l)) as ->; [|done].
  induction l as [|x l IH]; [done|]. cbn. rewrite Hf by left. cbn. rewrite IH by (intros; apply Hf; by right). done.
Qed.

(** ** Repetitions *)

Section keep_first.
Context {A K : Type} `{EqDecision K} (key : A → K).

(** The first element of each key is kept. *)
Lemma keep_first_exact l :
  NoDup (key <$> keep_first key l) ∧ (∀ x, x ∈ keep_first key l → x ∈ l) ∧ (∀ k, k ∈ key <$> keep_first key l ↔ k ∈ key <$> l) ∧
  (∀ x, x ∈ keep_first key l → ∃ l1 l2, l = l1 ++ x :: l2 ∧ key x ∉ key <$> l1).
Proof.
  unfold keep_first. induction l as [|y l IH] using rev_ind.
  { split_and!; [constructor|done|done|]. intros x Hx%not_elem_of_nil. done. }
  rewrite foldl_app. cbn [foldl]. destruct IH as (Hnd & Hsub & Hkeys & Hfirst).
  set (out := foldl _ [] l) in *. case_bool_decide as Hin; split_and!.
  - done.
  - intros x Hx. apply elem_of_app. left. by apply Hsub.
  - intros k. rewrite Hkeys, fmap_app, elem_of_app. split; [by left|]. intros [?|Hk%list_elem_of_singleton]; [done|]. subst k. by apply Hkeys.
  - intros x Hx. destruct (Hfirst x Hx) as (l1 & l2 & -> & Hno). exists l1, (l2 ++ [y]). by rewrite <- app_assoc.
  - rewrite fmap_app. apply NoDup_app. split; [done|]. split; [|apply NoDup_singleton]. intros k Hk ->%list_elem_of_singleton. done.
  - intros x [?|?]%elem_of_app; apply elem_of_app; [left; by apply Hsub|by right].
  - intros k. rewrite !fmap_app, !elem_of_app, Hkeys. done.
  - intros x [Hx| ->%list_elem_of_singleton]%elem_of_app.
    + destruct (Hfirst x Hx) as (l1 & l2 & -> & Hno). exists l1, (l2 ++ [y]). by rewrite <- app_assoc.
    + exists l, []. split; [done|]. by rewrite <- Hkeys.
Qed.
End keep_first.

Lemma elem_of_keep_first_id {A : Type} `{EqDecision A} (l : list A) x : x ∈ keep_first id l ↔ x ∈ l.
Proof. destruct (keep_first_exact id l) as (_ & _ & H & _). specialize (H x). by rewrite !list_fmap_id in H. Qed.
Lemma NoDup_keep_first_id {A : Type} `{EqDecision A} (l : list A) : NoDup (keep_first id l).
Proof. destruct (keep_first_exact id l) as (H & _). by rewrite list_fmap_id in H. Qed.

(** ** Orders *)

Lemma str_cmp_lex a b : str_cmp a b = lex_cmp (byte_val <$> as_bytes a) (byte_val <$> as_bytes b).
Proof. done. Qed.

Lemma str_cmp_Eq a b : wf_str a → wf_str b → str_cmp a b = Eq → a = b.
Proof.
  intros Ha Hb H. apply bytes_cmp_eq in H. pose proof (from_utf8_as_bytes a Ha) as E. rewrite H, from_utf8_as_bytes in E by done. by injection E.
Qed.

(** Comparing first by [f], then by [leb]. *)
Section then_order.
Context {A : Type} (f : A → list Z) (leb : A → A → bool).
Let both a b := then_leb (lex_cmp (f a) (f b)) (leb a b).

Lemma then_total : (∀ x y, leb x y = true ∨ leb y x = true) → ∀ x y, both x y = true ∨ both y x = true.
Proof. intros H x y. unfold both. rewrite (lex_cmp_antisym (f x) (f y)). destruct (lex_cmp (f x) (f y)); cbn; auto. Qed.

Lemma then_trans : (∀ x y z, leb x y = true → leb y z = true → leb x z = true) → ∀ x y z, both x y = true → both y z = true → both x z = true.
Proof.
  intros H x y z. unfold both. destruct (lex_cmp (f x) (f y)) eqn:E1, (lex_cmp (f y) (f z)) eqn:E2; cbn; try done; intros H1 H2.
  - apply lex_cmp_eq in E1, E2. rewrite E1, E2, (proj2 (lex_cmp_eq _ _) eq_refl). cbn. by eapply H.
  - apply lex_cmp_eq in E1. by rewrite E1, E2.
  - apply lex_cmp_eq in E2. by rewrite <- E2, E1.
  - by rewrite (lex_cmp_lt_trans _ _ _ E1 E2).
Qed.

Lemma then_antisym x y : both x y = true → both y x = true → lex_cmp (f x) (f y) = Eq ∧ leb x y = true ∧ leb y x = true.
Proof. unfold both. rewrite (lex_cmp_antisym (f x) (f y)). by destruct (lex_cmp (f x) (f y)). Qed.
End then_order.

Lemma span_leb_total a b : span_leb a b = true ∨ span_leb b a = true.
Proof. apply lex_leb_total. Qed.
Lemma span_leb_trans a b c : span_leb a b = true → span_leb b c = true → span_leb a c = true.
Proof. apply lex_leb_trans. Qed.
Lemma span_leb_antisym a b : span_leb a b = true → span_leb b a = true → a = b.
Proof. intros H1 H2. pose proof (lex_leb_antisym _ _ H1 H2) as E. destruct a, b. by injection E as -> -> -> ->. Qed.

Lemma loc_leb_total a b : loc_leb a b = true ∨ loc_leb b a = true.
Proof. apply (then_total (λ l, byte_val <$> as_bytes (loc_uri l)) (λ a b, span_leb (loc_span a) (loc_span b))). intros. apply span_leb_total. Qed.
Lemma loc_leb_trans a b c : loc_leb a b = true → loc_leb b c = true → loc_leb a c = true.
Proof. apply (then_trans (λ l, byte_val <$> as_bytes (loc_uri l)) (λ a b, span_leb (loc_span a) (loc_span b))). intros x y z. apply span_leb_trans. Qed.
Lemma loc_leb_antisym a b : wf_str (loc_uri a) → wf_str (loc_uri b) → loc_leb a b = true → loc_leb b a = true → a = b.
Proof.
  intros Ha Hb H1 H2. destruct (then_antisym (λ l, byte_val <$> as_bytes (loc_uri l)) (λ a b, span_leb (loc_span a) (loc_span b)) a b H1 H2) as (E & E1 & E2).
  apply str_cmp_Eq in E; [|done..]. apply span_leb_antisym in E1; [|done]. destruct a, b. cbn in *. by subst.
Qed.

(** Sorted locations, each once. *)
Definition sorted_locs (l : list Loc) : Prop := StronglySorted (λ a b, loc_leb a b = true) l.

Lemma dedupe_locs_exact l : Forall (λ x, wf_str (loc_uri x)) l →
  NoDup (dedupe_and_sort_locs l) ∧ sorted_locs (dedupe_and_sort_locs l) ∧ ∀ x, x ∈ dedupe_and_sort_locs l ↔ x ∈ l.
Proof.
  intros Hl. apply (dedup_sort loc_leb _ (λ x, wf_str (loc_uri x))); [| |apply loc_leb_total|apply loc_leb_trans|done].
  - intros x y _ _. rewrite andb_true_iff, !bool_decide_eq_true. destruct x, y. cbn. naive_solver.
  - intros x y. apply loc_leb_antisym.
Qed.

Lemma sort_spans_exact l :
  NoDup (sort_spans l) ∧ StronglySorted (λ a b, span_leb a b = true) (sort_spans l) ∧ ∀ x, x ∈ sort_spans l ↔ x ∈ l.
Proof.
  apply (dedup_sort span_leb _ (λ _, True)); [| |apply span_leb_total|apply span_leb_trans|by apply Forall_true].
  - intros x y _ _. apply bool_decide_eq_true.
  - intros x y _ _. apply span_leb_antisym.
Qed.

(** ** Ordered maps *)

(** Comparisons that order [P]. *)
Record cmp_ok {K : Type} (cmp : K → K → comparison) (P : K → Prop) : Prop := {
  co_eq x y : P x → P y → (cmp x y = Eq) ↔ (x = y);
  co_anti x y : cmp y x = CompOpp (cmp x y);
  co_trans x y z : cmp x y = Lt → cmp y z = Lt → cmp x z = Lt
}.

Section ordered_map.
Context {K V : Type} `{EqDecision K} (cmp : K → K → comparison) (P : K → Prop) (Hcmp : cmp_ok cmp P).
Let ltP (a b : K * list V) : Prop := cmp a.1 b.1 = Lt.

(** The values pushed under a key. *)
Definition pushed (l : list (K * V)) (k : K) : list V := snd <$> List.filter (λ e, match cmp k e.1 with Eq => true | _ => false end) l.
Definition grouped (l : list (K * V)) (m : list (K * list V)) : Prop :=
  StronglySorted ltP m ∧ Forall (λ e, P e.1) m ∧ (∀ e, e ∈ m → e.2 = pushed l e.1) ∧ (∀ e, e ∈ l → e.1 ∈ fst <$> m) ∧ (∀ k, k ∈ fst <$> m → k ∈ fst <$> l).

Lemma ordered_push_sorted k v m : P k → Forall (λ e, P e.1) m → StronglySorted ltP m →
  StronglySorted ltP (ordered_push cmp k v m) ∧ Forall (λ e, P e.1) (ordered_push cmp k v m) ∧
  (∀ e, e ∈ ordered_push cmp k v m ↔ (e ∈ m ∧ e.1 ≠ k) ∨ (e.1 = k ∧ ((∃ vs, (k, vs) ∈ m ∧ e.2 = vs ++ [v]) ∨ (k ∉ fst <$> m ∧ e.2 = [v])))).
Proof.
  intros Hk. induction m as [|e m IH]; intros HP Hs.
  { cbn. split_and!; [by repeat constructor|by constructor|]. intros e. rewrite list_elem_of_singleton. split.
    - intros ->. right. split; [done|]. right. split; [by apply not_elem_of_nil|done].
    - intros [[Hno%not_elem_of_nil _]|[H1 [(vs & Hno%not_elem_of_nil & _)|[_ H2]]]]; try done. destruct e; cbn in *; congruence. }
  apply Forall_cons in HP as [HPe HPm]. apply StronglySorted_inv in Hs as [Hs Hlt]. rewrite Forall_forall in Hlt. cbn [ordered_push].
  pose proof (co_eq _ _ Hcmp k e.1 Hk HPe) as Heq. destruct (cmp k e.1) eqn:E.
  - apply proj1 in Heq. specialize (Heq eq_refl). subst k. split_and!.
    + constructor; [done|]. apply Forall_forall. intros x Hx. by apply Hlt.
    + by constructor.
    + intros x. rewrite !elem_of_cons. assert (e.1 ∉ fst <$> m) as Hno.
      { intros (y & Ey & Hy)%list_elem_of_fmap. apply Hlt in Hy. unfold ltP in Hy. rewrite <- Ey, (proj2 (co_eq _ _ Hcmp _ _ HPe HPe) eq_refl) in Hy. done. }
      assert (∀ y, y ∈ m → y.1 ≠ e.1) as Hno' by (intros y Hy Ey; apply Hno; rewrite <- Ey; by apply list_elem_of_fmap_2). split.
      * intros [->|Hx]; [|left; split; [by right|by apply Hno']]. right. split; [done|]. left. exists e.2. cbn. split; [|done]. rewrite elem_of_cons. left. by destruct e.
      * intros [[[->|Hx] Hne]|(Hx1 & [(vs & [Ev|Hin]%elem_of_cons & Hx2)|[Hnin _]])]; [done|by right|left|..].
        -- destruct x as [x1 x2], e as [e1 e2]; cbn in *. injection Ev as ->. by subst.
        -- by destruct (Hno' _ Hin).
        -- exfalso. apply Hnin. cbn. apply elem_of_cons. by left.
  - assert (k ∉ fst <$> e :: m) as Hno.
    { intros [->|(y & Ey & Hy)%list_elem_of_fmap]%elem_of_cons.
      - by rewrite (proj2 (co_eq _ _ Hcmp _ _ HPe HPe) eq_refl) in E.
      - apply Hlt in Hy. unfold ltP in Hy. rewrite <- Ey in Hy. rewrite (co_anti _ _ Hcmp) , E in Hy. done. }
    split_and!.
    + constructor; [by constructor; [done|apply Forall_forall]|]. constructor; [done|]. apply Forall_forall. intros x Hx. unfold ltP. cbn.
      eapply (co_trans _ _ Hcmp); [exact E|]. by apply Hlt.
    + by repeat constructor.
    + intros x. rewrite elem_of_cons. split.
      * intros [->|Hx]; [right; cbn; split; [done|]; by right|]. left. split; [done|]. intros Ex. apply Hno. rewrite <- Ex. by apply list_elem_of_fmap_2.
      * intros [[Hx _]|(Hx1 & [(vs & Hin & _)|[_ Hx2]])]; [by right| |left; destruct x; cbn in *; congruence].
        exfalso. apply Hno. by apply (list_elem_of_fmap_2 fst _ (k, vs)).
  - destruct (IH HPm Hs) as (IH1 & IH2 & IH3). assert (k ≠ e.1) as Hne by (intros Ek; by apply Heq in Ek). split_and!.
    + constructor; [done|]. apply Forall_forall. intros x [[Hx _]|[Ex _]]%IH3; [by apply Hlt|]. unfold ltP. rewrite Ex, (co_anti _ _ Hcmp), E. done.
    + by constructor.
    + intros x. rewrite !elem_of_cons, IH3. cbn. setoid_rewrite elem_of_cons. split.
      * intros [->|[[? ?]|(Hx1 & [(vs & Hin & Hx2)|[Hn Hx2]])]]; [left; split; [by left|done]|left; split; [by right|done]|right..]; (split; [done|]).
        -- left. exists vs. split; [by right|done].
        -- right. split; [|done]. by intros [?|?].
      * intros [[[->|Hx] Hxk]|(Hx1 & [(vs & [Ev|Hin] & Hx2)|[Hn Hx2]])]; [by left|right; by left| | |].
        -- exfalso. apply Hne. by rewrite <- Ev.
        -- right. right. split; [done|]. left. by exists vs.
        -- right. right. split; [done|]. right. split; [|done]. intros ?. apply Hn. by right.
Qed.

Lemma group_by_exact l : Forall (λ e, P e.1) l → grouped l (group_by cmp l).
Proof.
  induction l as [|e l IH] using rev_ind; intros HP.
  { split_and!; [constructor|constructor|..]; by intros ? ?%not_elem_of_nil. }
  apply Forall_app in HP as [HPl HPe]. apply Forall_cons in HPe as [HPe _]. destruct (IH HPl) as (Hs & HPm & Hval & Hall & Hkeys).
  unfold group_by in *. rewrite foldl_app. cbn [foldl]. set (m := foldl _ [] l) in *.
  destruct (ordered_push_sorted e.1 e.2 m HPe HPm Hs) as (H1 & H2 & H3).
  assert (∀ k, pushed (l ++ [e]) k = pushed l k ++ (if match cmp k e.1 with Eq => true | _ => false end then [e.2] else [])) as Hpush.
  { intros k. unfold pushed. rewrite filter_snoc, fmap_app. f_equal. by destruct (cmp k e.1). }
  split_and!; [done..| | |].
  - intros x Hx. rewrite Forall_forall in H2. pose proof (H2 x Hx) as HPx. pose proof (co_eq _ _ Hcmp x.1 e.1 HPx HPe) as Heq. rewrite Hpush. apply H3 in Hx as [[Hx Hne]|(Ex & Hx)].
    + rewrite (Hval x Hx). destruct (cmp x.1 e.1); [by destruct Hne; apply Heq|by rewrite app_nil_r..].
    + rewrite (proj2 Heq Ex), Ex. destruct Hx as [(vs & Hin & ->)|[Hno ->]].
      * pose proof (Hval _ Hin) as Ev. cbn in Ev. by rewrite Ev.
      * assert (pushed l e.1 = []) as ->; [|done]. unfold pushed. destruct (List.filter _ l) as [|y ys] eqn:Ef; [done|]. exfalso. apply Hno.
        assert (y ∈ List.filter (λ e', match cmp e.1 e'.1 with Eq => true | _ => false end) l) as [Hy Hyl]%elem_of_filter_bool by (rewrite Ef; by left).
        rewrite Forall_forall in HPl. destruct (cmp e.1 y.1) eqn:Ey; [|done..]. apply (co_eq _ _ Hcmp) in Ey as ->; [by apply Hall|done|by apply HPl].
  - intros x [Hx| ->%list_elem_of_singleton]%elem_of_app.
    + apply Hall in Hx as (y & Ey & Hy)%list_elem_of_fmap. destruct (cmp y.1 e.1) eqn:Ec.
      * assert (y.1 = e.1) as Eye by (rewrite Forall_forall in HPm; apply (co_eq _ _ Hcmp); auto). rewrite Ey, Eye.
        apply (list_elem_of_fmap_2 fst _ (e.1, y.2 ++ [e.2])). apply H3. right. split; [done|]. left. exists y.2. split; [|done]. rewrite <- Eye. by destruct y.
      * rewrite Ey. apply list_elem_of_fmap_2, H3. left. split; [done|]. intros Eye. rewrite Eye, (proj2 (co_eq _ _ Hcmp _ _ HPe HPe) eq_refl) in Ec. done.
      * rewrite Ey. apply list_elem_of_fmap_2, H3. left. split; [done|]. intros Eye. rewrite Eye, (proj2 (co_eq _ _ Hcmp _ _ HPe HPe) eq_refl) in Ec. done.
    + destruct (list_elem_of_dec e.1 (fst <$> m)) as [(y & Ey & Hy)%list_elem_of_fmap|Hno].
      * apply (list_elem_of_fmap_2 fst _ (e.1, y.2 ++ [e.2])), H3. right. split; [done|]. left. exists y.2. split; [|done]. rewrite Ey. by destruct y.
      * apply (list_elem_of_fmap_2 fst _ (e.1, [e.2])), H3. right. split; [done|]. by right.
  - intros k (x & -> & Hx)%list_elem_of_fmap. rewrite fmap_app, elem_of_app. apply H3 in Hx as [[Hx _]|(-> & _)]; [left|right; by left].
    apply Hkeys. by apply list_elem_of_fmap_2.
Qed.

Lemma elem_of_pushed (l : list (K * V)) k v : P k → Forall (λ e, P e.1) l → (v ∈ pushed l k) ↔ ((k, v) ∈ l).
Proof.
  intros Hk Hl. unfold pushed. rewrite list_elem_of_fmap. rewrite Forall_forall in Hl. split.
  - intros (e & -> & [He Hin]%elem_of_filter_bool). destruct (cmp k e.1) eqn:E; [|done..].
    apply (co_eq _ _ Hcmp) in E as ->; [by destruct e|done|by apply Hl].
  - intros Hin. exists (k, v). split; [done|]. apply elem_of_filter_bool. cbn. by rewrite (proj2 (co_eq _ _ Hcmp k k Hk Hk) eq_refl).
Qed.

(** The values of a grouping: each pushed pair, under its key. *)
Lemma elem_of_group_by (l : list (K * V)) k v : Forall (λ e, P e.1) l → (∃ vs, ((k, vs) ∈ group_by cmp l) ∧ (v ∈ vs)) ↔ ((k, v) ∈ l).
Proof.
  intros Hl. destruct (group_by_exact l Hl) as (_ & HP & Hval & Hall & _). rewrite Forall_forall in HP. split.
  - intros (vs & Hin & Hv). pose proof (HP _ Hin) as Hk. pose proof (Hval _ Hin) as E. cbn in Hk, E. rewrite E in Hv. by apply elem_of_pushed in Hv.
  - intros Hin. pose proof (Hall _ Hin) as (e & Ek & He)%list_elem_of_fmap. destruct e as [k' vs]. cbn in Ek. subst k'. exists vs. split; [done|].
    pose proof (HP _ He) as Hk. pose proof (Hval _ He) as E. cbn in Hk, E. rewrite E. by apply elem_of_pushed.
Qed.
End ordered_map.

(** The orchestrator's lookups on a segment that shows a view: a document and a symbol by name, the
    targets that may refer to a definition, and the targets a file can see. *)

Open Scope Z_scope.

(** ** Lookups in a view *)

Definition view_doc (v : IndexView) (uri : list Z) : option Z :=
  List.find (λ d, match zget (vw_docs v) d with Some row => str_eqb (dw_uri row) uri | None => false end) (seqZ 0 (zlen (vw_docs v))).
Definition view_symbol (v : IndexView) (sym : list Z) : option Z :=
  List.find (λ i, match zget (vw_symbols v) i with Some row => str_eqb (sw_symbol row) sym | None => false end) (seqZ 0 (zlen (vw_symbols v))).

(** The workspace, when there is one, was built from its targets. *)
Definition workspace_built (o : QueryOrchestrator) : Prop := ∀ ws, qo_workspace o = Some ws → workspace_targets_new (ws_targets ws) = Some ws.

(** The targets that may refer to what the target [def] defines: all of them when the definition or
    the workspace is not known, else [def] and the targets that depend on it. *)
Definition may_refer (o : QueryOrchestrator) (v : IndexView) (def t : Z) : Prop :=
  def < 0 ∨ qo_workspace o = None ∨
  ∃ ws m, qo_workspace o = Some ws ∧ zget (vw_targets v) def = Some m ∧
    ((bsp_id m ∉ ts_bsp_id <$> ws_targets ws) ∨ t = def ∨
     ∃ m', zget (vw_targets v) t = Some m' ∧ (∀ t' m'', zget (vw_targets v) t' = Some m'' → bsp_id m'' = bsp_id m' → t' ≤ t) ∧
           rtc (depends (ws_targets ws)) (bsp_id m') (bsp_id m)).

Lemma find_spec {A : Type} (f : A → bool) l :
  match List.find f l with
  | Some x => x ∈ l ∧ f x = true
  | None => ∀ x, x ∈ l → f x = false
  end.
Proof.
  induction l as [|x l IH]; [intros x Hx%not_elem_of_nil; done|]. cbn. destruct (f x) eqn:E; [split; [left|done]|].
  destruct (List.find f l) as [y|]; [destruct IH; split; [by right|done]|]. intros y [->|Hy]%elem_of_cons; [done|by apply IH].
Qed.

Lemma view_doc_exact v uri :
  match view_doc v uri with
  | Some d => ∃ row, zget (vw_docs v) d = Some row ∧ dw_uri row = uri
  | None => ∀ row, row ∈ vw_docs v → dw_uri row ≠ uri
  end.
Proof.
  pose proof (find_spec (λ d, match zget (vw_docs v) d with Some row => str_eqb (dw_uri row) uri | None => false end) (seqZ 0 (zlen (vw_docs v)))) as H.
  unfold view_doc. destruct (List.find _ _) as [d|].
  - destruct H as [_ H]. destruct (zget (vw_docs v) d) as [row|]; [|done]. exists row. split; [done|]. by apply bool_decide_eq_true in H.
  - intros row [d Hd]%elem_of_zget Hu. specialize (H d). rewrite Hd in H. apply zget_Some_lt in Hd as Hlt.
    assert (str_eqb (dw_uri row) uri = false) as E by (apply H; by apply elem_of_seqZ_0). by apply bool_decide_eq_false in E.
Qed.

Section shows.
Context (s : SegmentReader) (v : IndexView) `{!Shows s v}.

Lemma as_u32_small x n : 0 ≤ x < n → n < 2 ^ 31 → as_u32 x = x.
Proof. intros. apply wrapU_id. unfold inU. lia. Qed.
Lemma as_i32_index x n : 0 ≤ x < n → n < 2 ^ 31 → as_i32 x = x.
Proof. intros. apply wrapS_id; [lia|]. unfold inS. lia. Qed.

Lemma targets_small : zlen (vw_targets v) < 2 ^ 31.
Proof. rewrite <- sh_target_count. apply (sm_targets s), sh_small. Qed.
Lemma docs_small : zlen (vw_docs v) < 2 ^ 31.
Proof. rewrite <- sh_doc_count. apply (sm_docs s), sh_small. Qed.
Lemma symbols_small : zlen (vw_symbols v) < 2 ^ 31.
Proof. rewrite <- sh_symbol_count. apply (sm_symbols s), sh_small. Qed.
Lemma refs_small : zlen (vw_refs v) < 2 ^ 31.
Proof. rewrite <- sh_ref_count. apply (sm_refs s), sh_small. Qed.
Lemma renames_small : zlen (vw_renames v) < 2 ^ 31.
Proof. rewrite <- sh_rename_count. apply (sm_renames s), sh_small. Qed.

Lemma doc_ord_of_shows uri : doc_ord_of s uri = Some (view_doc v uri).
Proof.
  unfold doc_ord_of, view_doc. rewrite sh_doc_count. apply find_opt_total. intros d Hd%elem_of_seqZ_0.
  destruct (zget_is_Some (vw_docs v) d Hd) as [row Hrow]. destruct (sh_doc d row Hrow) as [-> _]. by rewrite Hrow.
Qed.

Lemma find_symbol_shows sym : wf_str sym → find_symbol_ord s sym = Some (view_symbol v sym).
Proof.
  intros Hs. destruct (sh_find sym Hs) as (o & -> & Ho). f_equal.
  pose proof (find_spec (λ i, match zget (vw_symbols v) i with Some row => str_eqb (sw_symbol row) sym | None => false end) (seqZ 0 (zlen (vw_symbols v)))) as H.
  fold (view_symbol v sym) in H. destruct (view_symbol v sym) as [i|].
  - destruct H as [_ H]. destruct (zget (vw_symbols v) i) as [row|] eqn:E; [|done]. apply bool_decide_eq_true in H.
    destruct o as [j|]; [|by destruct (Ho row); [by eapply zget_elem_of|]]. destruct Ho as (row' & Hj & Hrow'). f_equal.
    apply zget_Some_lt in E as Hi'. apply zget_Some_lt in Hj as Hj'. unfold zget in E, Hj. destruct (Z.leb_spec 0 i), (Z.leb_spec 0 j); try lia.
    pose proof (proj1 (NoDup_alt _) (sh_distinct (s := s) (v := v)) (Z.to_nat j) (Z.to_nat i) sym) as Hnd. rewrite !list_lookup_fmap, E, Hj in Hnd. cbn in Hnd.
    rewrite H, Hrow' in Hnd. specialize (Hnd eq_refl eq_refl). lia.
  - destruct o as [j|]; [|done]. destruct Ho as (row & Hj & Hrow). specialize (H j). rewrite Hj in H. apply zget_Some_lt in Hj.
    assert (str_eqb (sw_symbol row) sym = false) as E by (apply H; by apply elem_of_seqZ_0). by apply bool_decide_eq_false in E.
Qed.

Lemma view_symbol_exact sym :
  match view_symbol v sym with
  | Some i => ∃ row, zget (vw_symbols v) i = Some row ∧ sw_symbol row = sym
  | None => ∀ row, row ∈ vw_symbols v → sw_symbol row ≠ sym
  end.
Proof.
  pose proof (find_spec (λ i, match zget (vw_symbols v) i with Some row => str_eqb (sw_symbol row) sym | None => false end) (seqZ 0 (zlen (vw_symbols v)))) as H.
  fold (view_symbol v sym) in H. destruct (view_symbol v sym) as [i|].
  - destruct H as [_ H]. destruct (zget (vw_symbols v) i) as [row|]; [|done]. exists row. split; [done|]. by apply bool_decide_eq_true in H.
  - intros row [i Hi]%elem_of_zget Hu. specialize (H i). rewrite Hi in H. apply zget_Some_lt in Hi as Hlt.
    assert (str_eqb (sw_symbol row) sym = false) as E by (apply H; by apply elem_of_seqZ_0). by apply bool_decide_eq_false in E.
Qed.

(** ** Targets *)

(** [m] sends every id among the first [n] targets to the last ordinal that has it. *)
Definition last_ordinals (n : Z) (m : gmap (list Z) Z) : Prop :=
  ∀ b t, m !! b = Some t ↔ 0 ≤ t < n ∧ (∃ meta, zget (vw_targets v) t = Some meta ∧ bsp_id meta = b) ∧
    ∀ t' meta', t' < n → zget (vw_targets v) t' = Some meta' → bsp_id meta' = b → t' ≤ t.

Lemma bsp_to_ord_from k n m :
  0 ≤ n → n + Z.of_nat k = zlen (vw_targets v) → last_ordinals n m →
  ∃ m', bsp_to_ord s (seqZ n (Z.of_nat k)) m = Some m' ∧ last_ordinals (zlen (vw_targets v)) m'.
Proof.
  revert n m. induction k as [|k IH]; intros n m Hn Hk Hm.
  { exists m. split; [done|]. by replace (zlen (vw_targets v)) with n by lia. }
  rewrite seqZ_cons by lia. cbn [bsp_to_ord]. destruct (zget_is_Some (vw_targets v) n) as [meta Hmeta]; [lia|].
  rewrite (sh_target n meta Hmeta). cbn [mbind option_bind]. replace (Z.pred (Z.of_nat (S k))) with (Z.of_nat k) by lia.
  replace (Z.succ n) with (n + 1) by lia. apply IH; [lia|lia|]. intros b t. destruct (decide (b = bsp_id meta)) as [->|Hne].
  - rewrite lookup_insert_eq. split.
    + intros [= <-]. split; [lia|]. split; [by exists meta|]. intros. lia.
    + intros (Ht & (meta' & Hm' & E) & Hmax). f_equal. pose proof (Hmax n meta ltac:(lia) Hmeta eq_refl). lia.
  - rewrite lookup_insert_ne by done. rewrite (Hm b t). split.
    + intros (Ht & Hex & Hmax). split; [lia|]. split; [done|]. intros t' meta' Ht' Hm' E.
      destruct (Z.eq_dec t' n) as [->|]; [congruence|]. apply (Hmax t' meta'); [lia|done|done].
    + intros (Ht & (meta' & Hm' & E) & Hmax). assert (t ≠ n) by (intros ->; congruence). split; [lia|]. split; [by exists meta'|].
      intros t' meta'' Ht'. apply Hmax. lia.
Qed.

Lemma bsp_to_ord_shows : ∃ m, bsp_to_ord s (seqZ 0 (zlen (vw_targets v))) ∅ = Some m ∧ last_ordinals (zlen (vw_targets v)) m.
Proof.
  apply bsp_to_ord_from; [lia|unfold zlen; lia|]. intros b t. rewrite lookup_empty. split; [done|]. intros [? _]. lia.
Qed.

Lemma all_targets : ∃ a, bitset_all (zlen (vw_targets v)) = Some a ∧ bitset_wf a ∧ ∀ t, 0 ≤ t < zlen (vw_targets v) → bitset_contains a t = Some true.
Proof.
  pose proof (zlen_nonneg (vw_targets v)). unfold bitset_all.
  destruct (bitset_of_spec (zlen (vw_targets v)) (seqZ 0 (zlen (vw_targets v)))) as (a & -> & Hwf & Hsz & Hbits); [done| |].
  { apply Forall_forall. intros t Ht%elem_of_seqZ_0. lia. }
  exists a. split_and!; [done..|]. intros t Ht. rewrite bitset_contains_bit, Hbits, bool_decide_true; [done| |lia|done|lia]. by apply elem_of_seqZ_0.
Qed.

Lemma elem_of_dedup_ords l x : x ∈ dedup_by Z.eqb (sort_by Z.leb l) ↔ x ∈ l.
Proof.
  apply (dedup_sort Z.leb Z.eqb (λ _, True)); [|intros; lia|intros x' y'; lia|intros x' y' z'; lia|by apply Forall_true].
  intros. apply Z.eqb_eq.
Qed.

Lemma allowed_targets_shows o snap i row :
  sn_segment snap = s → workspace_built o → zget (vw_symbols v) i = Some row →
  ∃ a, allowed_targets_for o snap i = Some a ∧ bitset_wf a ∧
    ∀ t, 0 ≤ t < zlen (vw_targets v) → bitset_contains a t = Some true ↔ may_refer o v (sv_def_target_ord (sw_view row)) t.
Proof.
  intros Hs Hws Hi. destruct (sh_symbol i row Hi) as (_ & _ & Hview & _ & Hin). destruct Hin as (_ & _ & Hdef & _).
  pose proof targets_small as Hsm. pose proof (zlen_nonneg (vw_targets v)) as Hnn. destruct all_targets as (all & Eall & Hwall & Hall).
  unfold allowed_targets_for. rewrite Hs, sh_target_count. replace (as_u32 (zlen (vw_targets v))) with (zlen (vw_targets v)) by (symmetry; apply wrapU_id; unfold inU; lia).
  rewrite Eall, Hview. cbn [mbind option_bind]. set (def := sv_def_target_ord (sw_view row)) in *.
  assert (∀ t, 0 ≤ t < zlen (vw_targets v) → may_refer o v def t → bitset_contains all t = Some true ↔ may_refer o v def t) as Hdone.
  { intros t Ht Hm. split; [done|]. intros _. by apply Hall. }
  destruct (Z.ltb_spec def 0) as [Hneg|Hpos].
  { exists all. split_and!; [done..|]. intros t Ht. apply Hdone; [done|]. by left. }
  destruct Hdef as [Hdef|Hdef]; [lia|]. rewrite (as_u32_small def _ Hdef Hsm). destruct (zget_is_Some _ _ Hdef) as [meta Hmeta].
  rewrite (sh_target def meta Hmeta). cbn [mbind option_bind]. destruct (qo_workspace o) as [ws|] eqn:Ews.
  2: { exists all. split_and!; [done..|]. intros t Ht. apply Hdone; [done|]. right. by left. }
  destruct (reverse_closure_exact (ws_targets ws) ws (Hws _ Ews) (bsp_id meta)) as (back & Eback & Hback). rewrite Eback. cbn [mbind option_bind].
  case_bool_decide as Hempty.
  { exists all. split_and!; [done..|]. intros t Ht. apply Hdone; [done|]. right. right. exists ws, meta. split_and!; [done..|]. left. intros Hk.
    assert (bsp_id meta ∈ back) as Hin by (apply Hback; split; [done|apply rtc_refl]). rewrite Hempty in Hin. by apply elem_of_empty in Hin. }
  assert (bsp_id meta ∈ ts_bsp_id <$> ws_targets ws) as Hknown.
  { destruct (set_choose_L back Hempty) as [x Hx]. by apply Hback in Hx as [? _]. }
  destruct bsp_to_ord_shows as (m & -> & Hm). cbn [mbind option_bind].
  set (ords := dedup_by Z.eqb _). assert (∀ t, t ∈ ords ↔ t = def ∨ ∃ b, b ∈ back ∧ m !! b = Some t) as Hords.
  { intros t. unfold ords. rewrite elem_of_dedup_ords, elem_of_app, list_elem_of_omap, list_elem_of_singleton.
    split; [intros [(b & Hb%elem_of_elements & ?)| ->]; [right; by exists b|by left]|].
    intros [->|(b & Hb & ?)]; [by right|]. left. exists b. by rewrite elem_of_elements. }
  destruct (bitset_of_spec (zlen (vw_targets v)) ords) as (a & -> & Hwf & Hsz & Hbits); [done| |].
  { apply Forall_forall. intros t [->|(b & _ & Hb)]%Hords; [lia|]. by apply Hm in Hb as [? _]. }
  exists a. split_and!; [done..|]. intros t Ht. rewrite bitset_contains_bit, Hbits by (done || lia). split.
  - intros [= [->|(b & Hb & Et)]%bool_decide_eq_true%Hords]; right; right; exists ws, meta; (split_and!; [done..|]); right; [by left|right].
    apply Hm in Et as (_ & (m' & Hm' & Eb) & Hmax). exists m'. split_and!; [done| |].
    + intros t' m'' Ht' E. pose proof (zget_Some_lt _ _ _ Ht'). apply (Hmax t' m''); [lia|done|congruence].
    + rewrite Eb. by apply Hback in Hb as [_ ?].
  - intros Hmay. f_equal. apply bool_decide_eq_true, Hords. destruct Hmay as [|[|(ws' & meta' & Ews' & Hmeta' & Hcase)]]; [lia|congruence|].
    assert (ws' = ws) as -> by congruence. assert (meta' = meta) as -> by congruence. destruct Hcase as [?|[->|(m' & Hm' & Hmax & Hr)]]; [done|by left|right].
    exists (bsp_id m'). split; [by apply Hback|]. apply Hm. split; [lia|]. split; [by exists m'|]. intros t' meta' _. apply Hmax.
Qed.
End shows.
