(* ===== verification/QueryCursor.v ===== *)
(** Where the symbol under the cursor comes from: a dirty buffer answers from the overlay alone, a
    clean source from the snapshot when it is the indexed one, and otherwise from SemanticDB that
    describes it. *)

From S2P Require Import Prelude RustStr SdbModel SdbParser IndexModel Bitset SdbSymbols SdbNormalize Md5 Uri Locator StoreFormat SegReader SegSafe SegScan WorkspaceState FileSystem Durable Snapshot Targets EngineState SymbolEncoding Ingest IngestWalk Orchestrator SymbolQueries References QueryView IndexView QueryExample SegExample StoreExample.

Open Scope Z_scope.

(** ** The specification *)

(** The text a freshness check looks at: the source of the primary target of [uri]. *)
Definition current_text (fs : Fs) (o : QueryOrchestrator) (uri text : list Z) : Prop :=
  ∃ spec, primary_spec_of fs o uri = Some spec ∧ source_of fs spec uri = Some text.

Definition digest_is (text md5 : list Z) : Prop := md5 ≠ [] ∧ ∃ hex, compute_hex text = Some hex ∧ eq_ignore_ascii_case hex md5 = true.

(** The current source is the one the snapshot indexed. *)
Definition indexed_source (fs : Fs) (o : QueryOrchestrator) (snap : Snapshot) (uri : list Z) : Prop :=
  ∃ md5 text, ingested_md5 snap uri = Some md5 ∧ current_text fs o uri text ∧ digest_is text md5.

(** [doc] is what a SemanticDB file says of the current source. *)
Definition current_document (fs : Fs) (o : QueryOrchestrator) (uri : list Z) (doc : NormalizedDocument) : Prop :=
  ∃ spec file docs sdb text, primary_spec_of fs o uri = Some spec ∧ existing_semanticdb fs uri spec = Some file ∧
    parse_file (read_bytes fs) file = Ok docs ∧ List.find (λ d, str_eqb (sd_uri d) uri) (documents docs) = Some sdb ∧
    source_of fs spec uri = Some text ∧ digest_is text (sd_md5 sdb) ∧ doc = SdbNormalize.normalize sdb (doc_id_for uri).

(** An occurrence covers a packed position; the one of the smallest span, then the earliest, then the
    first of the document counts. *)
Definition occ_covers (q : Z) (o : Occurrence) : Prop := pack_start (occ_span o) ≤ q ≤ pack_end (occ_span o).
Definition occ_rank (o : Occurrence) : list Z := [pack_end (occ_span o) - pack_start (occ_span o); pack_start (occ_span o)].
Definition best_occurrence (q : Z) (l : list Occurrence) (o : Occurrence) : Prop :=
  ∃ i, l !! i = Some o ∧ occ_covers q o ∧
    ∀ j o', l !! j = Some o' → occ_covers q o' → lex_cmp (occ_rank o) (occ_rank o') = Lt ∨ (occ_rank o = occ_rank o' ∧ (i ≤ j)%nat).

Definition cursor_of_record (uri encoded : list Z) (rec : DocRecord) : CursorSymbol :=
  mkCursor uri (SymbolEncoding.decode encoded).1 (SymbolEncoding.decode encoded).2 (rec_span rec)
    (hit_role (rec_hit 0 rec)) FromSnapshot false false.
Definition cursor_of_occurrence (uri : list Z) (o : Occurrence) : CursorSymbol :=
  mkCursor uri (IndexModel.semantic_symbol (occ_key o)) (local_doc (occ_key o)) (occ_span o) (occ_role o) RawSemanticdb true false.
Definition cursor_of_overlay (uri : list Z) (hit : OverlayHit) : CursorSymbol :=
  mkCursor uri (oh_semantic_symbol hit) None (oh_span hit) (oh_role hit) Overlay false (oh_pc_only hit).

(** The snapshot may answer for [uri]: it holds the document, and indexed the current source. *)
Definition snapshot_row (fs : Fs) (o : QueryOrchestrator) (v : IndexView) (snap : Snapshot) (uri : list Z) (row : DocRow) : Prop :=
  current_snapshot o = Some snap ∧ (∃ d, view_doc v uri = Some d ∧ zget (vw_docs v) d = Some row) ∧ indexed_source fs o snap uri.

(** The answers of a resolution. [v] is what the current snapshot shows. *)
Section answers.
Context `{DirtyBufferOverlay} (fs : Fs) (o : QueryOrchestrator) (v : IndexView) (uri : list Z) (line character : Z).

Definition from_snapshot : Prop := ∃ snap row, snapshot_row fs o v snap uri row.

Inductive answers : result LsError CursorSymbol → Prop :=
| dirty_answer hit : is_dirty uri = true → overlay_symbol_at uri line character = Some hit → answers (Ok (cursor_of_overlay uri hit))
| dirty_stale : is_dirty uri = true → overlay_symbol_at uri line character = None → answers (Err (StaleIndex uri))
| snapshot_answer snap row rec srow : is_dirty uri = false → snapshot_row fs o v snap uri row →
    covering line character (dw_records row) = Some rec → zget (vw_symbols v) (dr_symbol_ord rec) = Some srow →
    answers (Ok (cursor_of_record uri (sw_symbol srow) rec))
| snapshot_nothing snap row : is_dirty uri = false → snapshot_row fs o v snap uri row →
    covering line character (dw_records row) = None → answers (Err (NoSymbolAtCursor uri line character))
| raw_answer doc occ : is_dirty uri = false → ¬ from_snapshot → current_document fs o uri doc →
    best_occurrence (pack line character) (nd_occurrences doc) occ → answers (Ok (cursor_of_occurrence uri occ))
| raw_nothing doc : is_dirty uri = false → ¬ from_snapshot → current_document fs o uri doc →
    (∀ occ, occ ∈ nd_occurrences doc → ¬ occ_covers (pack line character) occ) → answers (Err (NoSymbolAtCursor uri line character))
| raw_stale : is_dirty uri = false → ¬ from_snapshot → is_Some (primary_spec_of fs o uri) → (∀ doc, ¬ current_document fs o uri doc) →
    answers (Err (StaleIndex uri))
| raw_absent : is_dirty uri = false → ¬ from_snapshot → primary_spec_of fs o uri = None →
    answers (Err (if bool_decide (is_Some (source_target_of fs o uri)) then NoSemanticdb uri else NotIndexed uri)).
End answers.

(** ** Lemmas: freshness *)

Lemma validate_exact text md5 : ∃ c, Md5.validate text md5 = Some c ∧ (is_fresh c = true ↔ digest_is text md5).
Proof.
  unfold Md5.validate, digest_is. destruct md5 as [|c md5].
  { exists MissingMd5. split; [done|]. split; [done|]. by intros [? _]. }
  destruct (compute_hex_total text) as (hex & Eh & _). rewrite Eh. cbn [mbind option_bind].
  destruct (eq_ignore_ascii_case hex (c :: md5)) eqn:E; eexists; (split; [done|]); cbn [is_fresh]; split; try done.
  - intros _. split; [done|]. by exists hex.
  - intros (_ & hex' & [= <-] & E'). congruence.
Qed.

Lemma source_text_exact fs o uri text : source_text_of fs o uri = Some text ↔ current_text fs o uri text.
Proof.
  unfold source_text_of, absolute_source_path, current_text, source_of. destruct (primary_spec_of fs o uri) as [spec|]; cbn [fmap option_fmap option_map mbind option_bind].
  - split; [intros E; exists spec; by rewrite E|by intros (? & [= <-] & ?)].
  - split; [done|by intros (? & ? & _)].
Qed.

Lemma source_fresh_exact fs o snap uri : ∃ b, source_is_fresh fs o snap uri = Some b ∧ (b = true ↔ indexed_source fs o snap uri).
Proof.
  unfold source_is_fresh, indexed_source. destruct (ingested_md5 snap uri) as [md5|] eqn:Em.
  2: { exists false. split; [done|]. split; [done|]. by intros (? & ? & ? & _). }
  destruct (source_text_of fs o uri) as [text|] eqn:Et.
  - destruct (validate_exact text md5) as (c & -> & Hc). exists (is_fresh c). split; [done|]. rewrite Hc. split.
    + intros Hd. exists md5, text. split; [done|]. split; [by apply source_text_exact|done].
    + intros (? & text' & [= <-] & Ht%source_text_exact & Hd). assert (text' = text) as -> by congruence. done.
  - exists false. split; [done|]. split; [done|]. intros (? & text & _ & Ht%source_text_exact & _). congruence.
Qed.

(** ** Lemmas: the occurrence under a position *)

Lemma span_packs_range s : 0 ≤ start_line s → 0 ≤ start_char s → 0 ≤ end_line s → 0 ≤ end_char s →
  0 ≤ pack_start s ≤ u32_max ∧ 0 ≤ pack_end s ≤ u32_max.
Proof. intros. unfold pack_start, pack_end. rewrite !pack_eq by done. change LINE_MAX with 1048575. change CHAR_MASK with 4095. change u32_max with 4294967295. lia. Qed.

(** The state of the loop after the occurrences [l]. *)
Definition scanned (q : Z) (l : list Occurrence) (st : option Occurrence * Z * Z) : Prop :=
  match st with
  | (None, size, start) => size = u32_max ∧ start = u32_max ∧ ∀ o, o ∈ l → ¬ occ_covers q o
  | (Some o, size, start) => occ_rank o = [size; start] ∧ best_occurrence q l o
  end.

Definition occ_packs (o : Occurrence) : Prop := 0 ≤ pack_start (occ_span o) ≤ u32_max ∧ 0 ≤ pack_end (occ_span o) ≤ u32_max.

Lemma scanned_step q l st o : scanned q l st → occ_packs o → scanned q (l ++ [o]) (occurrence_step q st o).
Proof.
  intros Hst [Hs He]. destruct st as [[b size] start]. unfold occurrence_step.
  set (ps := pack_start (occ_span o)) in *. set (pe := pack_end (occ_span o)) in *.
  assert (occ_covers q o ↔ (ps <=? q) && (q <=? pe) = true) as Hcov by (unfold occ_covers; fold ps pe; lia).
  destruct ((ps <=? q) && (q <=? pe)) eqn:E.
  2: { destruct b as [b|]; cbn in Hst |- *.
       - destruct Hst as (Hr & i & Hi & Hb & Hmin). split; [done|]. exists i. split; [by apply lookup_app_l_Some|]. split; [done|].
         intros j o' [Hj|[_ [_ <-]%list_lookup_singleton_Some]]%lookup_app_Some Hc; [by apply Hmin|]. by apply Hcov in Hc.
       - destruct Hst as (-> & -> & Hno). split_and!; [done..|]. intros o' [Ho| ->%list_elem_of_singleton]%elem_of_app; [by apply Hno|]. by rewrite Hcov. }
  apply proj2 in Hcov. specialize (Hcov eq_refl). zify_bools. destruct b as [b|]; cbn in Hst |- *.
  - destruct Hst as (Hr & i & Hi & Hb & Hmin). pose proof (lookup_lt_Some _ _ _ Hi) as Hlt.
    destruct ((pe - ps <? size) || ((pe - ps =? size) && (ps <? start))) eqn:E.
    + assert (lex_cmp (occ_rank o) (occ_rank b) = Lt) as Hbetter.
      { rewrite Hr. unfold occ_rank. fold ps pe. cbn. destruct (Z.compare_spec (pe - ps) size), (Z.compare_spec ps start); try done; lia. }
      split; [done|]. exists (length l). rewrite lookup_app_r, Nat.sub_diag by lia. split; [done|]. split; [done|].
      intros j o' [Hj|[? [? <-]%list_lookup_singleton_Some]]%lookup_app_Some Hc; [|right; split; [done|lia]]. left.
      destruct (Hmin _ _ Hj Hc) as [H1|[H1 _]]; [by eapply lex_cmp_lt_trans|by rewrite <- H1].
    + split; [done|]. exists i. split; [by apply lookup_app_l_Some|]. split; [done|].
      intros j o' [Hj|[? [? <-]%list_lookup_singleton_Some]]%lookup_app_Some Hc; [by apply Hmin|].
      rewrite Hr. unfold occ_rank. fold ps pe. cbn. apply orb_false_iff in E as [E1 E2].
      destruct (Z.compare_spec size (pe - ps)); [|by left|lia]. destruct (Z.compare_spec start ps); [|by left|].
      * right. split; [by subst|lia].
      * exfalso. apply andb_false_iff in E2. lia.
  - destruct Hst as (-> & -> & Hno). assert (0 < u32_max) by reflexivity. replace ((pe - ps <? u32_max) || ((pe - ps =? u32_max) && (ps <? u32_max))) with true by lia. split; [done|]. exists (length l).
    rewrite lookup_app_r, Nat.sub_diag by lia. split; [done|]. split; [done|].
    intros j o' [Hj|[? [? <-]%list_lookup_singleton_Some]]%lookup_app_Some Hc; [|right; split; [done|lia]].
    exfalso. eapply Hno; [by eapply list_elem_of_lookup_2|done].
Qed.

Lemma scanned_all q l : Forall occ_packs l → scanned q l (foldl (occurrence_step q) (None, u32_max, u32_max) l).
Proof.
  induction l as [|o l IH] using rev_ind; intros Hl.
  { split_and!; [done..|]. intros o Ho%not_elem_of_nil. done. }
  rewrite foldl_app. apply Forall_app in Hl as [Hl Ho]. apply Forall_cons in Ho as [Ho _]. apply scanned_step; [by apply IH|done].
Qed.

Lemma occurrence_at_exact l line character :
  Forall occ_packs l →
  match occurrence_at l line character with
  | Some o => best_occurrence (pack line character) l o
  | None => ∀ o, o ∈ l → ¬ occ_covers (pack line character) o
  end.
Proof.
  intros Hl. unfold occurrence_at. pose proof (scanned_all (pack line character) l Hl) as H.
  destruct (foldl _ _ l) as [[[o|] size] start]; cbn in *; [by destruct H|by destruct H as (_ & _ & ?)].
Qed.

Lemma normalized_packs sdb id : Forall occ_packs (nd_occurrences (SdbNormalize.normalize sdb id)).
Proof.
  apply Forall_forall. intros o Ho. cbn in Ho. apply list_elem_of_omap in Ho as (raw & _ & H). unfold normalize_occurrence in H.
  destruct (so_range raw) as [r|], (role_of (role_code raw)); try done. destruct (negb _); [|done]. injection H as <-.
  unfold occ_packs. apply span_packs_range; cbn; apply wrapU_range; lia.
Qed.

(** ** Lemmas: the raw document *)

Lemma raw_doc_exact fs o uri :
  files_sized fs →
  match raw_normalized_doc fs o uri with
  | Some (Ok doc) => current_document fs o uri doc
  | Some (Err e) => (primary_spec_of fs o uri = None ∧ e = if bool_decide (is_Some (source_target_of fs o uri)) then NoSemanticdb uri else NotIndexed uri) ∨
      (is_Some (primary_spec_of fs o uri) ∧ e = StaleIndex uri ∧ ∀ doc, ¬ current_document fs o uri doc)
  | None => False
  end.
Proof.
  intros Hsized. unfold raw_normalized_doc. destruct (primary_spec_of fs o uri) as [spec|] eqn:Ep; [|by left].
  assert (∃ file, semanticdb_file_for (locator_of spec) uri = Ok file ∧ existing_semanticdb fs uri spec = Some (path_str file)) as (file & Ef & Ee).
  { unfold primary_spec_of in Ep. destruct (qo_workspace o) as [ws|]; [|done]. cbn [mbind option_bind] in Ep. apply find_some in Ep as [_ Hex].
    apply bool_decide_eq_true in Hex as [f Hf]. unfold existing_semanticdb in *. destruct (semanticdb_file_for _ _) as [file|]; [|done].
    exists file. split; [done|]. by destruct (FileSystem.is_file fs (path_str file)). }
  rewrite Ef. assert (∀ P : Prop, (∀ doc, current_document fs o uri doc → P) → ¬ P → ∀ doc, ¬ current_document fs o uri doc) as Hno by (intros P H1 H2 doc ?; eauto).
  unfold current_document in *.
  destruct (parse_file_total fs Hsized (path_str file)) as (r & Er & Hr). rewrite Er. destruct r as [docs|[e| |]]; [| |done..]; cbn.
  2: { right. split_and!; [by eexists|done|]. intros doc (spec' & file' & docs & _ & _ & E1 & E2 & E3 & _). congruence. }
  destruct (List.find _ _) as [sdb|] eqn:Efind; cbn.
  2: { right. split_and!; [by eexists|done|]. intros doc (spec' & file' & docs' & sdb & _ & E1 & E2 & E3 & E4 & _). congruence. }
  destruct (source_text_of fs o uri) as [text|] eqn:Et; cbn.
  - pose proof Et as (spec' & Es' & Et')%source_text_exact. assert (spec' = spec) as -> by congruence.
    unfold Md5.validate_doc. destruct (validate_exact text (sd_md5 sdb)) as (c & -> & Hc). cbn. destruct (is_fresh c); cbn.
    + exists spec, (path_str file), docs, sdb, text. split_and!; [done..|by apply Hc|done].
    + right. split_and!; [by eexists|done|]. intros doc (spec' & file' & docs' & sdb' & text' & E1 & E2 & E3 & E4 & E5 & E6 & _).
      assert (file' = path_str file) as -> by congruence. assert (docs' = docs) as -> by congruence. assert (sdb' = sdb) as -> by congruence.
      assert (text' = text) as -> by congruence. by apply Hc in E6.
  - right. split_and!; [by eexists|done|]. intros doc (spec' & file' & docs' & sdb' & text' & E1 & E2 & E3 & E4 & E5 & _).
    assert (current_text fs o uri text') as Ht%source_text_exact by (exists spec; split; [done|congruence]). congruence.
Qed.

(** ** The resolution *)

Section cursor.
Context (io_message : Op → list Z) (denied : Fs → Op → bool) (crc32c : bytes → Z) {Hdebug : DebugStr} {Htables : CharTables}.
Context (to_json : Manifest → bytes) (around : Fs → Surroundings) (thread : list Z) {Hoverlay : DirtyBufferOverlay}.

(** What a resolution leaves behind: nothing, or the generation an ingest published for a cursor the
    raw SemanticDB answered. *)
Definition resolution (o : QueryOrchestrator) (fs : Fs) (r : result LsError CursorSymbol) : list Op * Fs * store_outcome (QueryOrchestrator * result LsError CursorSymbol) :=
  match r with
  | Ok c =>
      match (if bool_decide (cs_source c = RawSemanticdb) && qo_sync_write_through o then qo_workspace o else None) with
      | None => ([], fs, Ok (o, Ok c))
      | Some ws =>
          let '(log, fs', out) := run_ingest io_message denied crc32c to_json around (qo_store o) ws fs in
          (log, fs', match out with
                     | Ok (st, _) => Ok (with_store (on_thread o thread) st, Ok (healed_cursor c))
                     | Err (Refuses _) => Ok (on_thread o thread, Ok c)
                     | Err Aborts => Err Aborts
                     end)
      end
  | Err e => ([], fs, Ok (o, Err e))
  end.

Lemma write_through_eq o fs (c : CursorSymbol) :
  cs_source c = RawSemanticdb →
  (healed ← write_through_raw_path io_message denied crc32c to_json around thread; mret (if healed : bool then healed_cursor c else c)) o fs =
    resolution o fs (Ok c).
Proof.
  intros Hc. unfold resolution. rewrite bool_decide_true by done. cbn [andb]. unfold mbind at 1. unfold act_bind. unfold mbind at 1. unfold io_bind at 1.
  unfold write_through_raw_path. destruct (qo_sync_write_through o); cbn [negb]; [|done]. destruct (qo_workspace o) as [ws|]; [|done].
  unfold mbind, io_bind, try_io. change (qo_store (on_thread o thread)) with (qo_store o).
  destruct (run_ingest _ _ _ _ _ (qo_store o) ws fs) as [[log fs'] [[st r]|[e|]]]; cbn; by rewrite ?app_nil_r.
Qed.

Lemma cursor_resolution o fs uri line character v :
  files_sized fs → inU 32 line → inU 32 character → (∀ snap, current_snapshot o = Some snap → Shows (sn_segment snap) v) →
  ∃ r, answers fs o v uri line character r ∧
    symbol_at_cursor io_message denied crc32c to_json around thread uri line character o fs = resolution o fs r.
Proof.
  intros Hsized Hl Hc Hv. unfold symbol_at_cursor. destruct (is_dirty uri) eqn:Edirty.
  { destruct (overlay_symbol_at uri line character) as [hit|] eqn:Eo.
    - eexists. split; [by apply dirty_answer|done].
    - eexists. split; [by apply dirty_stale|done]. }
  assert (∀ c, cs_source c ≠ RawSemanticdb → resolution o fs (Ok c) = ([], fs, Ok (o, Ok c))) as Hplain.
  { intros c Hcs. unfold resolution. by rewrite bool_decide_false. }
  assert (∃ snap_r, cursor_from_snapshot fs o uri line character = Some snap_r ∧
    match snap_r with
    | Ok (Some c) => cs_source c = FromSnapshot ∧ answers fs o v uri line character (Ok c)
    | Ok None => ¬ from_snapshot fs o v uri
    | Err e => answers fs o v uri line character (Err e)
    end) as (snap_r & Esnap & Hsnap).
  { unfold cursor_from_snapshot. destruct (current_snapshot o) as [snap|] eqn:Ecur.
    2: { eexists. split; [done|]. intros (snap & row & Hcur & _). congruence. }
    pose proof (Hv snap eq_refl) as Hshows. unfold snapshot_cursor. rewrite (doc_ord_of_shows _ v). cbn.
    destruct (view_doc v uri) as [d|] eqn:Ed.
    2: { eexists. split; [done|]. intros (snap' & row & _ & (d & Hd & _) & _). congruence. }
    pose proof (view_doc_exact v uri) as Hd. rewrite Ed in Hd. destruct Hd as (row & Hrow & _).
    destruct (source_fresh_exact fs o snap uri) as (b & -> & Hb). cbn. destruct b; cbn.
    2: { eexists. split; [done|]. intros (snap' & row' & Hcur & _ & Hi). assert (snap' = snap) as -> by congruence. by apply Hb in Hi. }
    assert (snapshot_row fs o v snap uri row) as Hsr by (split_and!; [done|by exists d|by apply Hb]).
    destruct (sh_doc (s := sn_segment snap) d row Hrow) as (_ & _ & _ & _ & Hrecs & Hat). rewrite Hat by done. cbn.
    destruct (covering line character (dw_records row)) as [rec|] eqn:Ecov; cbn.
    2: { eexists. split; [done|]. by eapply snapshot_nothing. }
    pose proof (covering_exact line character (dw_records row)) as Hex. rewrite Ecov in Hex. destruct Hex as (i & Hi%list_elem_of_lookup_2 & _).
    rewrite Forall_forall in Hrecs. destruct (Hrecs rec Hi) as [Hord _].
    rewrite (as_u32_small _ _ Hord) by (eapply symbols_small; apply _). destruct (zget_is_Some _ _ Hord) as [srow Hsrow].
    destruct (sh_symbol (s := sn_segment snap) _ srow Hsrow) as (Esym & _). rewrite Esym. cbn. destruct (SymbolEncoding.decode (sw_symbol srow)) as [raw local] eqn:Edec.
    eexists. split; [done|]. cbn. split; [done|].
    replace (mkCursor _ _ _ _ _ _ _ _) with (cursor_of_record uri (sw_symbol srow) rec); [by eapply snapshot_answer|].
    unfold cursor_of_record. by rewrite Edec. }
  unfold mbind at 1. unfold act_bind at 1. unfold mbind at 1. unfold io_bind at 1. unfold ask_query at 1. rewrite Esnap.
  destruct snap_r as [[c|]|e]; cbn [fst snd].
  - destruct Hsnap as [Hcs Hans]. exists (Ok c). split; [done|]. rewrite Hplain by (rewrite Hcs; done). done.
  - unfold mbind at 1. unfold act_bind at 1. unfold mbind at 1. unfold io_bind at 1. unfold ask_query at 1. unfold raw_semanticdb_cursor.
    pose proof (raw_doc_exact fs o uri Hsized) as Hraw. destruct (raw_normalized_doc fs o uri) as [[doc|e]|]; [| |done]; cbn [mbind query_bind].
    + pose proof (occurrence_at_exact (nd_occurrences doc) line character) as Hocc.
      assert (Forall occ_packs (nd_occurrences doc)) as Hp by (destruct Hraw as (? & ? & ? & ? & ? & _ & _ & _ & _ & _ & _ & ->); apply normalized_packs).
      specialize (Hocc Hp). destruct (occurrence_at _ _ _) as [occ|]; cbn [mret query_ret fails fst snd].
      * exists (Ok (cursor_of_occurrence uri occ)). split; [by eapply raw_answer|].
        fold (cursor_of_occurrence uri occ). rewrite (write_through_eq o fs (cursor_of_occurrence uri occ) eq_refl).
        by destruct (resolution o fs _) as [[log fs'] out].
      * exists (Err (NoSymbolAtCursor uri line character)). split; [by eapply raw_nothing|done].
    + exists (Err e). split; [|done]. destruct Hraw as [[Hp ->]|(Hp & -> & Hno)]; [by apply raw_absent|by apply raw_stale].
  - exists (Err e). by split.
Qed.
End cursor.

(** ** The property *)

Lemma best_occurrence_unique q l o o' : best_occurrence q l o → best_occurrence q l o' → o = o'.
Proof.
  intros (i & Hi & Hc & Hmin) (j & Hj & Hc' & Hmin'). pose proof (Hmin _ _ Hj Hc') as H1. pose proof (Hmin' _ _ Hi Hc) as H2.
  destruct H1 as [H1|[E1 L1]], H2 as [H2|[E2 L2]].
  - pose proof (lex_cmp_lt_trans _ _ _ H1 H2) as E. by rewrite (proj2 (lex_cmp_eq _ _) eq_refl) in E.
  - rewrite E2, (proj2 (lex_cmp_eq _ _) eq_refl) in H1. done.
  - rewrite E1, (proj2 (lex_cmp_eq _ _) eq_refl) in H2. done.
  - assert (i = j) as -> by lia. congruence.
Qed.

Lemma current_document_unique fs o uri d d' : current_document fs o uri d → current_document fs o uri d' → d = d'.
Proof.
  intros (s & f & ds & sd & t & E1 & E2 & E3 & E4 & E5 & _ & ->) (s' & f' & ds' & sd' & t' & E1' & E2' & E3' & E4' & E5' & _ & ->).
  assert (s = s') as <- by congruence. assert (f = f') as <- by congruence. assert (ds = ds') as <- by congruence. by assert (sd = sd') as <- by congruence.
Qed.

Lemma snapshot_row_unique fs o v uri snap row snap' row' : snapshot_row fs o v snap uri row → snapshot_row fs o v snap' uri row' → row = row'.
Proof. intros (E & (d & Hd & Hr) & _) (E' & (d' & Hd' & Hr') & _). assert (d = d') as <- by congruence. congruence. Qed.

Lemma answers_functional {Hoverlay : DirtyBufferOverlay} fs o v uri line character r r' :
  answers fs o v uri line character r → answers fs o v uri line character r' → r = r'.
Proof.
  intros H1 H2.
  destruct H1 as [h X1|h X1|sn row rec sr X1 S1|sn row X1 S1|doc oc X1 N1 D1 B1|doc X1 N1 D1 B1|X1 N1 P1 D1|X1 N1 P1];
  destruct H2 as [h' X2|h' X2|sn' row' rec' sr' X2 S2|sn' row' X2 S2|doc' oc' X2 N2 D2 B2|doc' X2 N2 D2 B2|X2 N2 P2 D2|X2 N2 P2]; try congruence;
  try (exfalso; (apply N1 || apply N2); by eexists _, _); try (rewrite P2 in P1; by destruct P1); try (rewrite P1 in P2; by destruct P2);
  try (by destruct (D1 doc')); try (by destruct (D2 doc)); try (destruct D1 as (? & ? & ? & ? & ? & ? & _); congruence);
  try (destruct D2 as (? & ? & ? & ? & ? & ? & _); congruence);
  try (assert (row' = row) as -> by (by eapply snapshot_row_unique)); try (assert (doc' = doc) as -> by (by eapply current_document_unique)); try congruence.
  - by assert (oc' = oc) as -> by (by eapply best_occurrence_unique).
  - destruct B1 as (i & Hi & Hc & _). exfalso. eapply B2; [by eapply list_elem_of_lookup_2|done].
  - destruct B2 as (i & Hi & Hc & _). exfalso. eapply B1; [by eapply list_elem_of_lookup_2|done].
Qed.

(** C5. The symbol under the cursor is never guessed from stale data. A resolution refines the
    specification [answers], which admits exactly one answer: a dirty buffer is answered by the
    overlay or not at all; a clean document that the snapshot holds and whose current source has the
    md5 it was indexed with is answered by the smallest span of the segment that covers the
    position; any other by the smallest covering occurrence of a SemanticDB document whose md5 is
    the source's, and with the errors of a missing file, a stale one or a foreign uri otherwise.
    Only an answer from the raw SemanticDB publishes a generation, and it asks for a reindex
    exactly when none was published. *)
Theorem cursor_exact io_message denied (crc32c : bytes → Z) {Hdebug : DebugStr} {Htables : CharTables} to_json around thread {Hoverlay : DirtyBufferOverlay}
    o fs uri line character v :
  files_sized fs → inU 32 line → inU 32 character → (∀ snap, current_snapshot o = Some snap → Shows (sn_segment snap) v) →
  ∃ r, answers fs o v uri line character r ∧ (∀ r', answers fs o v uri line character r' → r' = r) ∧
    (∀ c, r = Ok c → cs_source c ≠ Overlay → ∃ text, current_text fs o uri text) ∧
    match symbol_at_cursor io_message denied crc32c to_json around thread uri line character o fs with
    | (log, fs', Ok (o', Ok c)) =>
        (∃ c0, r = Ok c0 ∧ (c = c0 ∨ c = healed_cursor c0)) ∧
        (cs_source c ≠ RawSemanticdb → log = [] ∧ fs' = fs ∧ o' = o) ∧ (cs_needs_reindex c = true → qo_store o' = qo_store o) ∧
        (cs_source c = RawSemanticdb → cs_needs_reindex c = false →
           ∃ ws st report snap, qo_workspace o = Some ws ∧ qo_store o' = st ∧
             run_ingest io_message denied crc32c to_json around (qo_store o) ws fs = (log, fs', Ok (st, (report, snap))))
    | (log, fs', Ok (o', Err e)) => r = Err e ∧ log = [] ∧ fs' = fs ∧ o' = o
    | (_, _, Err (Refuses _)) => False
    | (log, fs', Err Aborts) => ∃ ws, qo_workspace o = Some ws ∧ run_ingest io_message denied crc32c to_json around (qo_store o) ws fs = (log, fs', Err Aborts)
    end.
Proof.
  intros Hsized Hl Hc Hv.
  destruct (cursor_resolution io_message denied crc32c to_json around thread o fs uri line character v Hsized Hl Hc Hv) as (r & Hr & ->).
  exists r. split; [done|]. split; [intros r' Hr'; by eapply answers_functional|]. split.
  { intros c -> Hcs. inversion Hr as [h| |sn row rec sr X S1| |doc oc X N D B| | | ]; subst; [done| |].
    - destruct S1 as (_ & _ & (md5 & text & _ & Ht & _)). by exists text.
    - destruct D as (spec & file & docs & sdb & text & E1 & _ & _ & _ & E2 & _). by exists text, spec. }
  unfold resolution. destruct r as [c|e]; [|by split_and!]. case_bool_decide as Hraw; cbn [andb].
  2: { split; [by exists c; auto|]. split; [done|]. split; [done|]. done. }
  assert (cs_needs_reindex c = true) as Hneeds.
  { inversion Hr as [h| |sn row rec sr X S1| |doc oc X N D B| | | ]; subst; [by discriminate Hraw|by discriminate Hraw|done]. }
  assert (∀ log fs' o', qo_store o' = qo_store o → (∃ c0, @Ok LsError _ c = Ok c0 ∧ (c = c0 ∨ c = healed_cursor c0)) ∧
    (cs_source c ≠ RawSemanticdb → log = ([] : list Op) ∧ fs' = fs ∧ o' = o) ∧ (cs_needs_reindex c = true → qo_store o' = qo_store o) ∧
    (cs_source c = RawSemanticdb → cs_needs_reindex c = false →
      ∃ ws st report snap, qo_workspace o = Some ws ∧ qo_store o' = st ∧
        run_ingest io_message denied crc32c to_json around (qo_store o) ws fs = (log, fs', Ok (st, (report, snap))))) as Hkept.
  { intros log fs' o' Ho. split; [by exists c; auto|]. split; [done|]. split; [done|]. intros _ Hn. congruence. }
  destruct (qo_sync_write_through o); [|by apply Hkept]. destruct (qo_workspace o) as [ws|] eqn:Ews; [|by apply Hkept].
  destruct (run_ingest io_message denied crc32c to_json around (qo_store o) ws fs) as [[log fs'] [[st [report snap]]|[e|]]] eqn:Erun.
  - split; [by exists c; auto|]. split; [done|]. split; [done|]. intros _ _. by exists ws, st, report, snap.
  - by apply Hkept.
  - by exists ws.
Qed.

(** On the example, the method's name in its own file resolves from the snapshot. *)
Lemma cursor_exact_witness :
  ∃ r, answers ex_fs ex_orchestrator ex_view (lit "a.scala") 0 14 r ∧
    ex_cursor_at "a.scala" 0 14 ex_orchestrator ex_fs =
      ([], ex_fs, Ok (ex_orchestrator, Ok (mkCursor (lit "a.scala") (lit "_empty_/A#m().") None (mkSpan 0 14 0 15) Definition_ FromSnapshot false false))).
Proof.
  destruct (cursor_exact (Htables := ascii_tables) no_message no_faults sum_crc encode_manifest ex_around (lit "main") ex_orchestrator ex_fs (lit "a.scala") 0 14 ex_view)
    as (r & Hr & _ & _ & Hrun).
  - exact ex_sized.
  - split; [discriminate|reflexivity].
  - split; [discriminate|reflexivity].
  - intros snap Hs. injection Hs as <-. exact ex_shows.
  - exists r. split; [exact Hr|]. unfold ex_cursor_at.
    destruct (symbol_at_cursor _ _ _ _ _ _ (lit "a.scala") 0 14 ex_orchestrator ex_fs) as [[log fs'] [[o' [c|e]]|e]] eqn:E.
    + assert (match symbol_at_cursor (H0 := ascii_tables) no_message no_faults sum_crc encode_manifest ex_around (lit "main") (lit "a.scala") 0 14 ex_orchestrator ex_fs with
        | (_, _, Ok (_, Ok c)) => bool_decide (cs_uri c = lit "a.scala" ∧ cs_semantic_symbol c = lit "_empty_/A#m()." ∧ cs_local_doc_id c = None ∧
            cs_span c = mkSpan 0 14 0 15 ∧ cs_role c = Definition_ ∧ cs_source c = FromSnapshot ∧ cs_needs_reindex c = false ∧ cs_pc_only c = false)
        | _ => false end = true) as Hcheck by (vm_compute; reflexivity).
      rewrite E in Hcheck. apply bool_decide_eq_true in Hcheck as (H1 & H2 & H3 & H4 & H5 & H6 & H7 & H8).
      destruct Hrun as (_ & Hun & _). destruct (Hun ltac:(rewrite H6; discriminate)) as (-> & -> & ->). destruct c; cbn in *. by subst.
    + exfalso. assert (match symbol_at_cursor (H0 := ascii_tables) no_message no_faults sum_crc encode_manifest ex_around (lit "main") (lit "a.scala") 0 14 ex_orchestrator ex_fs with
        | (_, _, Ok (_, Ok c)) => true | _ => false end = true) as Hcheck by (vm_compute; reflexivity). by rewrite E in Hcheck.
    + exfalso. assert (match symbol_at_cursor (H0 := ascii_tables) no_message no_faults sum_crc encode_manifest ex_around (lit "main") (lit "a.scala") 0 14 ex_orchestrator ex_fs with
        | (_, _, Ok (_, Ok c)) => true | _ => false end = true) as Hcheck by (vm_compute; reflexivity). by rewrite E in Hcheck.
Defined.
