(* ===== verification/ReferencesExact.v ===== *)
(** What references and highlights answer: exactly the occurrences of the cursor's group that may
    refer to its definition, and exactly those of the document. *)

From stdpp Require Import relations sorting.
From Stdlib Require Import Sorting.Sorted.
From S2P Require Import Prelude RustStr SdbModel SdbParser IndexModel Bitset SdbSymbols SdbNormalize StoreFormat SegReader SegSafe SegScan WorkspaceState FileSystem Durable Snapshot Targets SymbolEncoding Ingest IngestWalk Orchestrator SymbolQueries References QueryView IndexView QueryExample SegExample StoreExample QueryCursor.

Open Scope Z_scope.

(** ** The specification *)

(** Where a record is. *)
Definition record_loc (v : IndexView) (rec : GroupRecord) : option Loc :=
  row ← zget (vw_docs v) (gr_doc_ord rec); Some (mkLoc (dw_uri row) (record_span (gr_packed_start rec) (gr_packed_end rec))).

Definition group_of (groups : list (list GroupRecord)) (g : Z) : list GroupRecord := if g <? 0 then [] else default [] (zget groups g).

(** The records of a symbol's group: the references, and the definitions when they are asked for. *)
Definition group_records_of (v : IndexView) (row : SymRow) (definitions : bool) : list GroupRecord :=
  let g := sv_ref_group_ord (sw_view row) in
  group_of (vw_refs v) g ++ (if definitions then group_of (vw_defs v) g else []).

(** The raw symbols of a group, in dictionary order. *)
Definition group_members (v : IndexView) (g : Z) : list (list Z) :=
  if g <? 0 then [] else
  (λ r, (SymbolEncoding.decode (sw_symbol r)).1) <$> List.filter (λ r, sv_ref_group_ord (sw_view r) =? g) (vw_symbols v).

(** The symbol of the snapshot a cursor is at. *)
Definition indexed_row (o : QueryOrchestrator) (v : IndexView) (c : CursorSymbol) : option SymRow :=
  _ ← current_snapshot o; i ← view_symbol v (encoded_symbol c); zget (vw_symbols v) i.

(** What the overlay adds: the locations it has for the cursor's symbol and its group's, the first of
    each span. *)
Definition overlay_locations `{DirtyBufferOverlay} (v : IndexView) (row : option SymRow) (c : CursorSymbol) : list Loc :=
  if contributes_occurrences then
    keep_first loc_span (concat ((λ sym, default [] (overlay_occurrences_of sym)) <$>
      keep_first id (cs_semantic_symbol c :: from_option (λ row, group_members v (sv_ref_group_ord (sw_view row))) [] row)))
  else [].

(** The hits of a cursor: the records of its group in the targets that may refer to its definition; for
    a symbol the snapshot does not have, the occurrences in its own document; and the overlay's. *)
Inductive found `{CharTables} `{DirtyBufferOverlay} (fs : Fs) (o : QueryOrchestrator) (v : IndexView) (c : CursorSymbol) (definitions : bool) : ReferenceHit → Prop :=
| found_record row rec loc : indexed_row o v c = Some row → rec ∈ group_records_of v row definitions →
    may_refer o v (sv_def_target_ord (sw_view row)) (gr_target_ord rec) → record_loc v rec = Some loc →
    found fs o v c definitions (mkRefHit loc (record_role rec) false)
| found_raw doc occ : indexed_row o v c = None → cs_source c = RawSemanticdb → current_document fs o (cs_uri c) doc → occ ∈ nd_occurrences doc →
    IndexModel.semantic_symbol (occ_key occ) = cs_semantic_symbol c → (definitions = true ∨ occ_role occ = Reference) →
    found fs o v c definitions (mkRefHit (mkLoc (cs_uri c) (occ_span occ)) (occ_role occ) false)
| found_overlay loc : loc ∈ overlay_locations v (indexed_row o v c) c → found fs o v c definitions (mkRefHit loc Reference true).

(** ** Lemmas *)

Lemma elem_of_omap_filter {A B : Type} (f : A → option B) (P : A → bool) l y :
  y ∈ omap f (List.filter P l) ↔ ∃ x, x ∈ l ∧ P x = true ∧ f x = Some y.
Proof.
  rewrite list_elem_of_omap. split.
  - intros (x & Hx & E). apply elem_of_filter_bool in Hx as [? ?]. by exists x.
  - intros (x & Hx & HP & E). exists x. split; [|done]. by apply elem_of_filter_bool.
Qed.

Lemma filter_filter_same {A : Type} (P : A → bool) l : List.filter P (List.filter P l) = List.filter P l.
Proof. induction l as [|x l IH]; [done|]. cbn. destruct (P x) eqn:E; cbn; [by rewrite E, IH|done]. Qed.

Lemma omap_if {A B : Type} (P : A → bool) (f : A → option B) l : omap (λ x, if P x then f x else None) l = omap f (List.filter P l).
Proof. induction l as [|x l IH]; [done|]. cbn. destruct (P x); cbn; [|done]. destruct (f x); by rewrite IH. Qed.

(** A fold that keeps firsts composes with a later sort. *)
Lemma hits_sorted l :
  NoDup (rf_loc <$> hits_dedupe_and_sort l) ∧ sorted_locs (rf_loc <$> hits_dedupe_and_sort l) ∧
  (∀ h, h ∈ hits_dedupe_and_sort l → h ∈ l) ∧ (∀ loc, loc ∈ rf_loc <$> hits_dedupe_and_sort l ↔ loc ∈ rf_loc <$> l).
Proof.
  destruct (keep_first_exact (λ h, (loc_uri (rf_loc h), loc_span (rf_loc h))) l) as (Hnd & Hsub & Hkeys & _).
  set (kept := keep_first _ l) in *. assert (hits_dedupe_and_sort l = sort_by hit_leb kept) as -> by done.
  pose proof (sort_by_perm hit_leb kept) as Hperm.
  assert (∀ a b : Loc, (loc_uri a, loc_span a) = (loc_uri b, loc_span b) ↔ a = b) as Hpair.
  { intros [] []. cbn. split; [by intros [= -> ->]|by intros [= -> ->]]. }
  split; [|split; [|split]].
  - rewrite Hperm. apply (NoDup_fmap_1 (λ l, (loc_uri l, loc_span l))). rewrite <- list_fmap_compose. exact Hnd.
  - unfold sorted_locs. apply (sorted_fmap rf_loc (λ a b, hit_leb a b = true)); [done|].
    apply sort_by_sorted; intros; [apply loc_leb_total|by eapply loc_leb_trans].
  - intros h Hh. rewrite Hperm in Hh. by apply Hsub.
  - intros loc. rewrite Hperm. specialize (Hkeys (loc_uri loc, loc_span loc)). rewrite !list_elem_of_fmap in *. split.
    + intros (h & -> & Hh). exists h. split; [done|]. by apply Hsub.
    + intros (h & -> & Hh). destruct (proj2 Hkeys) as (h' & E & Hh'); [by exists h|]. exists h'. split; [|done]. by apply Hpair.
Qed.

Section shows.
Context (s : SegmentReader) (v : IndexView) `{!Shows s v}.

Lemma record_in_uri rec : group_record_in v rec →
  ∃ row, zget (vw_docs v) (gr_doc_ord rec) = Some row ∧ uri_of s (as_u32 (gr_doc_ord rec)) = Some (dw_uri row).
Proof.
  intros (Hd & _). destruct (zget_is_Some _ _ Hd) as [row Hrow]. exists row. split; [done|].
  rewrite (as_u32_small _ _ Hd (docs_small s v)). by destruct (sh_doc _ _ Hrow) as [-> _].
Qed.

Lemma record_hit rec : group_record_in v rec →
  ∃ loc, record_loc v rec = Some loc ∧ record_to_hit s rec = Some (mkRefHit loc (record_role rec) false).
Proof.
  intros Hin. destruct (record_in_uri rec Hin) as (row & Hrow & Huri). unfold record_loc, record_to_hit. rewrite Hrow, Huri. cbn. by eexists.
Qed.

Definition view_hit (rec : GroupRecord) : option ReferenceHit := (λ loc, mkRefHit loc (record_role rec) false) <$> record_loc v rec.

(** The hits of records handed to the sink. *)
Lemma allowed_hits a recs :
  bitset_wf a → Forall (group_record_in v) recs →
  filter_mapM (allowed_hit s a) recs = Some (omap view_hit (List.filter (in_targets (Some a)) recs)).
Proof.
  intros Ha Hrecs. rewrite (filter_mapM_total _ (λ rec, if in_targets (Some a) rec then view_hit rec else None)).
  - by rewrite omap_if.
  - intros rec Hrec. rewrite Forall_forall in Hrecs. pose proof (Hrecs rec Hrec) as Hin. destruct (record_hit rec Hin) as (loc & Hloc & Hhit).
    destruct Hin as (_ & Ht & _). unfold allowed_hit. rewrite (as_u32_small _ _ Ht (targets_small s v)).
    rewrite bitset_contains_bit by (done || lia). unfold in_targets. cbn [mbind option_bind]. rewrite bitset_contains_bit by (done || lia).
    unfold view_hit. rewrite Hloc. destruct (bit_at (words a) (gr_target_ord rec)); cbn.
    + by rewrite Hhit.
    + done.
Qed.

Lemma ref_group_of g : opt_ord g (zlen (vw_refs v)) →
  Forall (group_record_in v) (group_of (vw_refs v) g) ∧ Forall (group_record_in v) (group_of (vw_defs v) g) ∧
  ((g <? 0) = false → as_u32 g = g ∧ (∀ allowed, match allowed with Some a => bitset_wf a | None => True end →
      scan_ref_group s g allowed = Some (List.filter (in_targets allowed) (group_of (vw_refs v) g))) ∧
      scan_def_group s g = Some (group_of (vw_defs v) g)).
Proof.
  intros Hg. unfold group_of. destruct (Z.ltb_spec g 0) as [Hneg|Hpos]; [split_and!; [constructor..|done]|].
  destruct Hg as [|Hg]; [lia|]. destruct (zget_is_Some _ _ Hg) as [refs Hrefs]. destruct (zget_is_Some (vw_defs v) g) as [defs Hdefs].
  { by rewrite (sh_def_count (s := s)). }
  rewrite Hrefs, Hdefs. cbn. destruct (sh_refs _ _ Hrefs) as [H1 H2]. destruct (sh_defs _ _ Hdefs) as [H3 H4].
  split_and!; [done|done|]. intros _. split; [by apply (as_u32_small _ _ Hg), (refs_small s v)|]. by split.
Qed.

Lemma records_in row definitions : symbol_in v row → Forall (group_record_in v) (group_records_of v row definitions).
Proof.
  intros (Hg & _). destruct (ref_group_of _ Hg) as (H1 & H2 & _). unfold group_records_of. apply Forall_app. split; [done|]. by destruct definitions.
Qed.
Context `{CharTables}.

Lemma omap_ext_in {A B : Type} (f g : A → option B) (l : list A) : (∀ x, x ∈ l → f x = g x) → omap f l = omap g l.
Proof. intros H'. induction l as [|x l IH]; [done|]. cbn. rewrite H' by left. rewrite IH by (intros; apply H'; by right). done. Qed.

(** Reading a filtered list by its ordinals. *)
Lemma omap_zget {A B : Type} (f : A → option B) l : omap (λ i, zget l i ≫= f) (seqZ 0 (zlen l)) = omap f l.
Proof.
  induction l as [|x l IH] using rev_ind; [done|]. rewrite zlen_app, seqZ_snoc by apply zlen_nonneg. rewrite !omap_app. f_equal.
  - rewrite <- IH. apply omap_ext_in. intros i Hi%elem_of_seqZ_0. unfold zget. destruct (Z.leb_spec 0 i); [|lia]. unfold zlen in Hi. by rewrite lookup_app_l by lia.
  - cbn. rewrite zget_app_r by (pose proof (zlen_nonneg l); lia). rewrite Z.sub_diag. change (zget [x] 0) with (Some x). cbn. by destruct (f x).
Qed.

Lemma omap_some_if {A B : Type} (P : A → bool) (f : A → B) l : omap (λ x, if P x then Some (f x) else None) l = f <$> List.filter P l.
Proof. rewrite omap_if. induction (List.filter P l) as [|x l' IH]; [done|]. cbn. by rewrite IH. Qed.

Lemma group_symbols_exact g : 0 ≤ g → group_symbols s g = Some (group_members v g).
Proof.
  intros Hg. unfold group_symbols, group_members. replace (g <? 0) with false by lia. rewrite (sh_symbol_count (v := v)). pose proof (symbols_small s v) as Hsm.
  replace (as_u32 (zlen (vw_symbols v))) with (zlen (vw_symbols v)) by (symmetry; apply wrapU_id; unfold inU; pose proof (zlen_nonneg (vw_symbols v)); lia).
  rewrite (filter_mapM_total _ (λ i, zget (vw_symbols v) i ≫= λ r, if sv_ref_group_ord (sw_view r) =? g then Some (SymbolEncoding.decode (sw_symbol r)).1 else None)).
  - by rewrite omap_zget, omap_some_if.
  - intros i Hi%elem_of_seqZ_0. destruct (zget_is_Some _ _ Hi) as [r Hr]. destruct (sh_symbol _ _ Hr) as (Hs & _ & Hv & _).
    rewrite Hv, Hr. cbn [mbind option_bind]. destruct (_ =? g); [|done]. by rewrite Hs.
Qed.

(** The index's hits: the records of the allowed targets. *)
Lemma snapshot_hits_exact fs o snap c definitions i row :
  sn_segment snap = s → workspace_built o → wf_str (encoded_symbol c) →
  view_symbol v (encoded_symbol c) = Some i → zget (vw_symbols v) i = Some row →
  ∃ hits, snapshot_hits fs o snap c definitions = Some (Ok hits) ∧
    ∀ h, h ∈ hits ↔ ∃ rec, rec ∈ group_records_of v row definitions ∧ may_refer o v (sv_def_target_ord (sw_view row)) (gr_target_ord rec) ∧
      record_loc v rec = Some (rf_loc h) ∧ h = mkRefHit (rf_loc h) (record_role rec) false.
Proof.
  intros Hs Hws Hwf Hi Hrow. unfold snapshot_hits. rewrite Hs. rewrite (find_symbol_shows s v _ Hwf), Hi. cbn [reads mbind query_bind].
  destruct (sh_symbol _ _ Hrow) as (_ & _ & Hview & _ & Hin). rewrite Hview. cbn [reads mbind query_bind].
  pose proof (records_in row definitions Hin) as Hrecs. destruct Hin as (Hg & _). destruct (ref_group_of _ Hg) as (Hr & Hd & Hscan).
  unfold group_records_of in *. destruct (sv_ref_group_ord (sw_view row) <? 0) eqn:Eneg.
  { exists []. split; [done|]. intros h. split; [by intros ?%not_elem_of_nil|]. unfold group_of. rewrite Eneg.
    intros (rec & Hrec & _). destruct definitions; cbn in Hrec; by apply not_elem_of_nil in Hrec. }
  destruct (Hscan eq_refl) as (-> & Hsr & ->). destruct (allowed_targets_shows s v o snap i row Hs Hws Hrow) as (a & -> & Ha & Hmay). cbn [reads mbind query_bind option_bind].
  rewrite (Hsr (Some a) Ha). cbn [mbind option_bind].
  assert (Forall (group_record_in v) (List.filter (in_targets (Some a)) (group_of (vw_refs v) (sv_ref_group_ord (sw_view row))))) as Hra.
  { apply Forall_forall. intros rec [_ Hrec]%elem_of_filter_bool. rewrite Forall_forall in Hr. by apply Hr. }
  rewrite (allowed_hits a _ Ha Hra), (allowed_hits a _ Ha Hd).
  cbn [reads mbind query_bind].
  set (keep l := omap view_hit (List.filter (in_targets (Some a)) l)).
  exists (keep (List.filter (in_targets (Some a)) (group_of (vw_refs v) (sv_ref_group_ord (sw_view row)))) ++
          if definitions then keep (group_of (vw_defs v) (sv_ref_group_ord (sw_view row))) else []).
  split; [by destruct definitions|]. intros h. rewrite elem_of_app.
  assert (∀ recs, Forall (group_record_in v) recs → h ∈ omap view_hit (List.filter (in_targets (Some a)) recs) ↔
    ∃ rec, rec ∈ recs ∧ may_refer o v (sv_def_target_ord (sw_view row)) (gr_target_ord rec) ∧ record_loc v rec = Some (rf_loc h) ∧ h = mkRefHit (rf_loc h) (record_role rec) false) as Hmem.
  { intros recs Hall. rewrite elem_of_omap_filter. rewrite Forall_forall in Hall. split.
    - intros (rec & Hrec & Hin & Hh). destruct (Hall rec Hrec) as (_ & Ht & _). apply bool_decide_eq_true in Hin. apply Hmay in Hin; [|done].
      unfold view_hit in Hh. destruct (record_loc v rec) as [loc|] eqn:El; [|done]. injection Hh as <-. exists rec. by split_and!.
    - intros (rec & Hrec & Hm & Hl & Hh). destruct (Hall rec Hrec) as (_ & Ht & _). exists rec. split; [done|]. split.
      + by apply bool_decide_eq_true, Hmay.
      + unfold view_hit. rewrite Hl. cbn. by rewrite <- Hh. }
  unfold keep at 1. rewrite filter_filter_same, (Hmem _ Hr). destruct definitions.
  - unfold keep. rewrite (Hmem _ Hd). setoid_rewrite elem_of_app. split.
    + intros [(rec & ? & ?)|(rec & ? & ?)]; exists rec; auto.
    + intros (rec & [?|?] & ?); [left|right]; by exists rec.
  - split; [intros [?|Hh]; [|by apply not_elem_of_nil in Hh]|]; rewrite app_nil_r in *; [done|by left].
Qed.
End shows.

(** ** The answer *)

Section answer.
Context `{CharTables} `{DirtyBufferOverlay} (fs : Fs) (o : QueryOrchestrator) (v : IndexView).
Context (Hsized : files_sized fs) (Hv : ∀ snap, current_snapshot o = Some snap → Shows (sn_segment snap) v) (Hws : workspace_built o).

Lemma indexed_row_cases c :
  match indexed_row o v c with
  | Some row => ∃ snap i, current_snapshot o = Some snap ∧ view_symbol v (encoded_symbol c) = Some i ∧ zget (vw_symbols v) i = Some row
  | None => ∀ snap, current_snapshot o = Some snap → view_symbol v (encoded_symbol c) = None
  end.
Proof.
  unfold indexed_row. destruct (current_snapshot o) as [snap|]; [|done]. cbn. pose proof (view_symbol_exact v (encoded_symbol c)) as Hi.
  destruct (view_symbol v (encoded_symbol c)) as [i|]; cbn; [|done]. destruct Hi as (row & Hrow & _). rewrite Hrow. by exists snap, i.
Qed.

Lemma overlay_hits_exact c : wf_str (encoded_symbol c) →
  overlay_hits o c = Some ((λ loc, mkRefHit loc Reference true) <$> overlay_locations v (indexed_row o v c) c).
Proof.
  intros Hwf. unfold overlay_hits, overlay_locations. destruct contributes_occurrences; [|done]. cbn [negb]. pose proof (indexed_row_cases c) as Hrow.
  unfold overlay_group_symbols. destruct (current_snapshot o) as [snap|] eqn:Ecur.
  2: { unfold indexed_row. by rewrite Ecur. }
  pose proof (Hv snap eq_refl) as Hs. rewrite (find_symbol_shows _ v _ Hwf). cbn [mbind option_bind]. destruct (indexed_row o v c) as [row|].
  2: { by rewrite (Hrow snap eq_refl). }
  destruct Hrow as (_ & i & _ & -> & Hrow). destruct (sh_symbol (s := sn_segment snap) _ _ Hrow) as (_ & _ & -> & _ & _). cbn [mbind option_bind from_option].
  destruct (Z.leb_spec 0 (sv_ref_group_ord (sw_view row))) as [Hg|Hg].
  - rewrite (group_symbols_exact _ v) by done. done.
  - unfold group_members. by replace (sv_ref_group_ord (sw_view row) <? 0) with true by lia.
Qed.

Lemma raw_fallback_exact c definitions :
  ∃ hits, raw_fallback fs o c definitions = Some hits ∧ ∀ h, h ∈ hits ↔
    ∃ doc occ, current_document fs o (cs_uri c) doc ∧ occ ∈ nd_occurrences doc ∧ IndexModel.semantic_symbol (occ_key occ) = cs_semantic_symbol c ∧
      (definitions = true ∨ occ_role occ = Reference) ∧ h = mkRefHit (mkLoc (cs_uri c) (occ_span occ)) (occ_role occ) false.
Proof.
  unfold raw_fallback, raw_doc_occurrences. pose proof (raw_doc_exact fs o (cs_uri c) Hsized) as Hraw.
  destruct (raw_normalized_doc fs o (cs_uri c)) as [[doc|e]|]; [| |done].
  - eexists. split; [done|]. intros h. rewrite list_elem_of_fmap. setoid_rewrite elem_of_filter_bool. setoid_rewrite list_elem_of_fmap. setoid_rewrite elem_of_filter_bool. split.
    + intros (e & -> & Hdef & occ & -> & Heq & Hocc). apply bool_decide_eq_true in Heq. exists doc, occ. split_and!; [done..| |done].
      cbn in Hdef. apply orb_true_iff in Hdef as [?|Hr%bool_decide_eq_true]; auto.
    + intros (doc' & occ & Hd & Hocc & Heq & Hdef & ->). assert (doc' = doc) as -> by (by eapply current_document_unique). exists (occ_span occ, occ_role occ).
      split; [done|]. split.
      * cbn. destruct Hdef as [->|Hr]; [done|]. rewrite (bool_decide_true _ Hr). apply orb_true_r.
      * exists occ. split_and!; [done|by apply bool_decide_eq_true|done].
  - eexists. split; [done|]. intros h. split; [by intros ?%not_elem_of_nil|]. intros (doc & occ & Hd & _). exfalso.
    destruct Hraw as [[Hno _]|(_ & _ & Hno)]; [|by eapply Hno]. destruct Hd as (? & ? & ? & ? & ? & Hp & _). congruence.
Qed.

(** The index's share of a cursor's hits, or why there is none. *)
Lemma index_hits_exact uri c definitions : wf_str (encoded_symbol c) →
  ∃ r, index_hits fs o uri c definitions = Some r ∧
    match r with
    | Ok hits => (is_Some (indexed_row o v c) ∨ cs_source c = RawSemanticdb) ∧
        ∀ h, h ∈ hits ++ ((λ loc, mkRefHit loc Reference true) <$> overlay_locations v (indexed_row o v c) c) ↔ found fs o v c definitions h
    | Err e => indexed_row o v c = None ∧ cs_source c ≠ RawSemanticdb ∧
        e = if bool_decide (is_Some (current_snapshot o)) then StaleIndex (cs_uri c) else NotIndexed uri
    end.
Proof.
  intros Hwf. unfold index_hits. pose proof (indexed_row_cases c) as Hcases.
  assert (indexed_row o v c = None → cs_source c = RawSemanticdb → ∃ r : result LsError _, reads (raw_fallback fs o c definitions) = Some r ∧
    match r with Ok hits => (is_Some (indexed_row o v c) ∨ cs_source c = RawSemanticdb) ∧
      ∀ h, h ∈ hits ++ ((λ loc, mkRefHit loc Reference true) <$> overlay_locations v (indexed_row o v c) c) ↔ found fs o v c definitions h | Err _ => False end) as Hraw.
  { intros Hrow Hsrc. destruct (raw_fallback_exact c definitions) as (hits & -> & Hhits). eexists. split; [done|]. cbn. split; [by right|]. intros h.
    rewrite elem_of_app, Hhits, list_elem_of_fmap. split.
    - intros [(doc & occ & ? & ? & ? & ? & ->)|(loc & -> & ?)]; [by eapply found_raw|by apply found_overlay].
    - intros [row rec loc E|doc occ _ _ ? ? ? ?|loc ?]; [congruence|left; by exists doc, occ|right; by exists loc]. }
  destruct (current_snapshot o) as [snap|] eqn:Ecur.
  - destruct (indexed_row o v c) as [row|] eqn:Erow.
    + destruct Hcases as (snap' & i & [= <-] & Hi & Hrow). pose proof (Hv snap eq_refl) as Hs.
      destruct (snapshot_hits_exact _ v fs o snap c definitions i row eq_refl Hws Hwf Hi Hrow) as (hits & -> & Hhits). eexists. split; [done|].
      split; [by left|]. intros h. rewrite elem_of_app, Hhits, list_elem_of_fmap. split.
      * intros [(rec & Hr & Hm & Hl & ->)|(loc & -> & Hl)]; [by eapply found_record|]. apply found_overlay. by rewrite Erow.
      * rewrite <- Erow. intros [row' rec loc E ? ? ?|doc occ E|loc ?]; [|congruence|right; by exists loc]. left. rewrite Erow in E. injection E as <-. by exists rec.
    + pose proof (Hv snap eq_refl) as Hs. unfold snapshot_hits. rewrite (find_symbol_shows _ v _ Hwf), (Hcases snap eq_refl). cbn.
      case_bool_decide as Hsrc; [|by eexists]. destruct (Hraw eq_refl Hsrc) as ([hits|] & Hr & Hh); [|done]. exists (Ok hits). done.
  - assert (indexed_row o v c = None) as Erow by (unfold indexed_row; by rewrite Ecur). case_bool_decide as Hsrc; [|by eexists].
    destruct (Hraw Erow Hsrc) as ([hits|] & Hr & Hh); [|done]. exists (Ok hits). done.
Qed.

Lemma references_of_exact uri c definitions : wf_str (encoded_symbol c) →
  ∃ r, references_of fs o uri c definitions = Some r ∧
    match r with
    | Ok res => (is_Some (indexed_row o v c) ∨ cs_source c = RawSemanticdb) ∧ rr_needs_reindex res = cs_needs_reindex c ∧
        NoDup (locations res) ∧ sorted_locs (locations res) ∧ (∀ h, h ∈ rr_hits res → found fs o v c definitions h) ∧
        (∀ loc, loc ∈ locations res ↔ ∃ h, found fs o v c definitions h ∧ rf_loc h = loc)
    | Err e => indexed_row o v c = None ∧ cs_source c ≠ RawSemanticdb ∧
        e = if bool_decide (is_Some (current_snapshot o)) then StaleIndex (cs_uri c) else NotIndexed uri
    end.
Proof.
  intros Hwf. unfold references_of. destruct (index_hits_exact uri c definitions Hwf) as ([hits|e] & -> & Hr); [|by eexists].
  cbn [mbind query_bind]. rewrite (overlay_hits_exact c Hwf). cbn. destruct Hr as [Hsome Hall]. eexists. split; [done|]. unfold locations. cbn.
  destruct (hits_sorted (hits ++ ((λ loc, mkRefHit loc Reference true) <$> overlay_locations v (indexed_row o v c) c))) as (Hnd & Hsorted & Hsub & Hlocs).
  split_and!; [done..| |].
  - intros h Hh. by apply Hall, Hsub.
  - intros loc. rewrite Hlocs, list_elem_of_fmap. setoid_rewrite Hall. split; intros (h & H1 & H2); exists h; by split.
Qed.
End answer.

(** ** Highlights *)

(** The highlights of a document: the records of the group in it or, when the snapshot does not have
    the document or the symbol, the occurrences of the raw SemanticDB. *)
Inductive highlighted `{CharTables} (fs : Fs) (o : QueryOrchestrator) (v : IndexView) (c : CursorSymbol) : DocHighlight → Prop :=
| highlighted_record row d rec : indexed_row o v c = Some row → view_doc v (cs_uri c) = Some d → rec ∈ group_records_of v row true →
    gr_doc_ord rec = d → highlighted fs o v c (record_to_highlight rec)
| highlighted_raw doc occ : (indexed_row o v c = None ∨ view_doc v (cs_uri c) = None) → cs_source c = RawSemanticdb →
    current_document fs o (cs_uri c) doc → occ ∈ nd_occurrences doc → IndexModel.semantic_symbol (occ_key occ) = cs_semantic_symbol c →
    highlighted fs o v c (mkHighlight (occ_span occ) (kind_of (occ_role occ))).

Definition indexed_here (o : QueryOrchestrator) (v : IndexView) (c : CursorSymbol) : bool :=
  bool_decide (is_Some (indexed_row o v c)) && bool_decide (is_Some (view_doc v (cs_uri c))).

Section highlights.
Context `{CharTables} (fs : Fs) (o : QueryOrchestrator) (v : IndexView).
Context (Hsized : files_sized fs) (Hv : ∀ snap, current_snapshot o = Some snap → Shows (sn_segment snap) v).

Lemma raw_occurrences_exact uri sym :
  ∃ occs, raw_doc_occurrences fs o uri sym = Some occs ∧ ∀ e, e ∈ occs ↔
    ∃ doc occ, current_document fs o uri doc ∧ occ ∈ nd_occurrences doc ∧ IndexModel.semantic_symbol (occ_key occ) = sym ∧ e = (occ_span occ, occ_role occ).
Proof.
  unfold raw_doc_occurrences. pose proof (raw_doc_exact fs o uri Hsized) as Hraw. destruct (raw_normalized_doc fs o uri) as [[doc|e]|]; [| |done].
  - eexists. split; [done|]. intros e. rewrite list_elem_of_fmap. setoid_rewrite elem_of_filter_bool. split.
    + intros (occ & -> & Heq%bool_decide_eq_true & Hocc). by exists doc, occ.
    + intros (doc' & occ & Hd & Hocc & Heq & ->). assert (doc' = doc) as -> by (by eapply current_document_unique). exists occ. split_and!; [done|by apply bool_decide_eq_true|done].
  - eexists. split; [done|]. intros e'. split; [by intros ?%not_elem_of_nil|]. intros (doc & occ & Hd & _). exfalso.
    destruct Hraw as [[Hno _]|(_ & _ & Hno)]; [|by eapply Hno]. destruct Hd as (? & ? & ? & ? & ? & Hp & _). congruence.
Qed.

Lemma snapshot_highlights_exact snap c : current_snapshot o = Some snap → wf_str (encoded_symbol c) →
  ∃ r, snapshot_highlights snap c = Some r ∧
    match r with
    | Some hits => indexed_here o v c = true ∧ ∀ h, h ∈ hits ↔ ∃ row d rec, indexed_row o v c = Some row ∧ view_doc v (cs_uri c) = Some d ∧
        rec ∈ group_records_of v row true ∧ gr_doc_ord rec = d ∧ h = record_to_highlight rec
    | None => indexed_here o v c = false
    end.
Proof.
  intros Ecur Hwf. pose proof (Hv snap Ecur) as Hs. pose proof (indexed_row_cases o v Hv c) as Hrow. unfold snapshot_highlights, indexed_here.
  rewrite (doc_ord_of_shows _ v). cbn [mbind option_bind]. destruct (view_doc v (cs_uri c)) as [d|] eqn:Ed.
  2: { exists None. split; [done|]. apply andb_false_r. }
  rewrite (find_symbol_shows _ v _ Hwf). cbn [mbind option_bind]. destruct (indexed_row o v c) as [row|].
  2: { rewrite (Hrow snap Ecur). by exists None. }
  destruct Hrow as (_ & i & _ & -> & Hrow). destruct (sh_symbol (s := sn_segment snap) _ _ Hrow) as (_ & _ & -> & _ & Hin). cbn [mbind option_bind].
  pose proof (records_in (sn_segment snap) v row true Hin) as Hrecs. destruct Hin as (Hg & _). destruct (ref_group_of _ v _ Hg) as (_ & _ & Hscan).
  unfold group_records_of in *. destruct (sv_ref_group_ord (sw_view row) <? 0) eqn:Eneg.
  { exists (Some []). split; [done|]. split; [done|]. intros h. split; [by intros ?%not_elem_of_nil|].
    intros (row' & d' & rec & [= <-] & _ & Hrec & _). unfold group_of in Hrec. rewrite Eneg in Hrec. by apply not_elem_of_nil in Hrec. }
  destruct (Hscan eq_refl) as (-> & Hsr & ->). rewrite (Hsr None I). cbn [mbind option_bind]. eexists. split; [done|]. split; [done|]. intros h.
  assert (∀ l : list GroupRecord, List.filter (in_targets None) l = l) as Hall by (intros l; induction l; cbn; congruence). rewrite Hall.
  rewrite list_elem_of_fmap. setoid_rewrite elem_of_filter_bool. rewrite Forall_forall in Hrecs. split.
  - intros (rec & -> & Heq & Hrec). exists row, d, rec. destruct (Hrecs rec Hrec) as (Hd & _). rewrite (as_u32_small _ _ Hd) in Heq by (eapply docs_small; apply _). split_and!; [done..|lia|done].
  - intros (row' & d' & rec & [= <-] & [= <-] & Hrec & Hd & ->). exists rec. destruct (Hrecs rec Hrec) as (Hdoc & _). rewrite (as_u32_small _ _ Hdoc) by (eapply docs_small; apply _).
    split_and!; [done|lia|done].
Qed.

Lemma highlights_sorted l : NoDup (highlights_dedupe_and_sort l) ∧ StronglySorted (λ a b, span_leb (hl_span a) (hl_span b) = true) (highlights_dedupe_and_sort l) ∧
  ∀ h, h ∈ highlights_dedupe_and_sort l ↔ h ∈ l.
Proof.
  destruct (keep_first_exact id l) as (Hnd & Hsub & Hkeys & _). rewrite !list_fmap_id in *. unfold highlights_dedupe_and_sort. set (kept := keep_first _ l) in *.
  pose proof (sort_by_perm highlight_leb kept) as Hperm. split; [by rewrite Hperm|]. split.
  - apply (sort_by_sorted highlight_leb); intros; [apply span_leb_total|by eapply span_leb_trans].
  - intros h. by rewrite Hperm.
Qed.

Lemma highlights_of_exact uri c : wf_str (encoded_symbol c) →
  ∃ r, highlights_of fs o uri c = Some r ∧
    match r with
    | Ok hits => NoDup hits ∧ StronglySorted (λ a b, span_leb (hl_span a) (hl_span b) = true) hits ∧ ∀ h, h ∈ hits ↔ highlighted fs o v c h
    | Err e => indexed_here o v c = false ∧ cs_source c ≠ RawSemanticdb ∧ e = NotIndexed uri
    end.
Proof.
  intros Hwf. unfold highlights_of.
  assert (∃ r, match current_snapshot o with Some snap => snapshot_highlights snap c | None => Some None end = Some r ∧
    match r with
    | Some hits => indexed_here o v c = true ∧ ∀ h, h ∈ hits ↔ ∃ row d rec, indexed_row o v c = Some row ∧ view_doc v (cs_uri c) = Some d ∧
        rec ∈ group_records_of v row true ∧ gr_doc_ord rec = d ∧ h = record_to_highlight rec
    | None => indexed_here o v c = false
    end) as (r & -> & Hr).
  { destruct (current_snapshot o) as [snap|] eqn:Ecur in |- *; [by apply (snapshot_highlights_exact snap c Ecur Hwf)|]. exists None. split; [done|]. unfold indexed_here, indexed_row. by rewrite Ecur. }
  cbn [reads mbind query_bind]. destruct r as [hits|].
  - eexists. split; [done|]. destruct (highlights_sorted hits) as (Hnd & Hss & Hmem). split_and!; [done..|]. intros h. rewrite Hmem. destruct Hr as [Hhere Hr]. rewrite Hr. split.
    + intros (row & d & rec & ? & ? & ? & ? & ->). by eapply highlighted_record.
    + unfold indexed_here in Hhere. apply andb_true_iff in Hhere as [H1%bool_decide_eq_true H2%bool_decide_eq_true].
      intros [row d rec|doc occ [E|E]]; [by exists row, d, rec|rewrite E in H1; by destruct H1|rewrite E in H2; by destruct H2].
  - case_bool_decide as Hsrc; [|by eexists]. destruct (raw_occurrences_exact (cs_uri c) (cs_semantic_symbol c)) as (occs & -> & Hoccs). cbn. eexists. split; [done|].
    destruct (highlights_sorted ((λ e : Span * Role, mkHighlight e.1 (kind_of e.2)) <$> occs)) as (Hnd & Hss & Hmem). split_and!; [done..|]. intros h. rewrite Hmem, list_elem_of_fmap. setoid_rewrite Hoccs.
    unfold indexed_here in Hr. apply andb_false_iff in Hr. rewrite !bool_decide_eq_false, <- !eq_None_not_Some in Hr. split.
    + intros (e & -> & doc & occ & ? & ? & ? & ->). by eapply highlighted_raw.
    + intros [row d rec E1 E2|doc occ ? ? ? ? ?]; [destruct Hr; congruence|]. exists (occ_span occ, occ_role occ). split; [done|]. by exists doc, occ.
Qed.
End highlights.

(** ** The properties *)

Section requests.
Context (io_message : Op → list Z) (denied : Fs → Op → bool) (crc32c : bytes → Z) {Hdebug : DebugStr} {Htables : CharTables}.
Context (to_json : Manifest → bytes) (around : Fs → Surroundings) (thread : list Z) {Hoverlay : DirtyBufferOverlay}.

(** C7. Find-references is exact. When the cursor resolves to [c], the request publishes and changes
    nothing more, and it answers the locations, once each and in the order of uri and position, of
    exactly these: the reference records of the symbol's group (with its definition records when
    declarations are asked for) that lie in a target which may refer to the definition's target; if
    the snapshot lacks the symbol and the cursor came from raw SemanticDB, the occurrences of the
    symbol in its own document as a fresh SemanticDB file describes it; and the overlay's locations.
    It refuses a symbol only the compiler knows, and reports a stale index or an unindexed document
    exactly when neither the snapshot nor raw SemanticDB knows the symbol. *)
Theorem references_exact uri line character definitions o fs log fs' o' c v :
  symbol_at_cursor io_message denied crc32c to_json around thread uri line character o fs = (log, fs', Ok (o', Ok c)) →
  files_sized fs' → (∀ snap, current_snapshot o' = Some snap → Shows (sn_segment snap) v) → workspace_built o' → wf_str (encoded_symbol c) →
  ∃ r, references io_message denied crc32c to_json around thread uri line character definitions o fs = (log, fs', Ok (o', r)) ∧
    match r with
    | Ok res => cs_pc_only c = false ∧ (is_Some (indexed_row o' v c) ∨ cs_source c = RawSemanticdb) ∧ rr_needs_reindex res = cs_needs_reindex c ∧
        NoDup (locations res) ∧ sorted_locs (locations res) ∧ (∀ h, h ∈ rr_hits res → found fs' o' v c definitions h) ∧
        (∀ loc, loc ∈ locations res ↔ ∃ h, found fs' o' v c definitions h ∧ rf_loc h = loc)
    | Err e => (cs_pc_only c = true ∧ e = PcOnlySymbol) ∨
        (cs_pc_only c = false ∧ indexed_row o' v c = None ∧ cs_source c ≠ RawSemanticdb ∧
         e = if bool_decide (is_Some (current_snapshot o')) then StaleIndex (cs_uri c) else NotIndexed uri)
    end.
Proof.
  intros Hrun Hsized Hv Hws Hwf. unfold references. unfold mbind at 1. unfold act_bind at 1. unfold mbind at 1. unfold io_bind at 1. rewrite Hrun. cbn [fst snd].
  destruct (cs_pc_only c).
  { eexists. split; [cbn; by rewrite app_nil_r|]. by left. }
  destruct (references_of_exact fs' o' v Hsized Hv Hws uri c definitions Hwf) as (r & Hr & Hcases). unfold ask_query. rewrite Hr.
  exists r. split; [by rewrite app_nil_r|]. destruct r as [res|e]; [by split|by right].
Qed.

(** Highlights are exact: the spans of the document's records of the symbol's group,
    definitions written and references read, or the occurrences of a fresh SemanticDB file when the
    snapshot lacks the document or the symbol; each once, in the order of positions. *)
Theorem highlights_exact uri line character o fs log fs' o' c v :
  symbol_at_cursor io_message denied crc32c to_json around thread uri line character o fs = (log, fs', Ok (o', Ok c)) →
  files_sized fs' → (∀ snap, current_snapshot o' = Some snap → Shows (sn_segment snap) v) → wf_str (encoded_symbol c) →
  ∃ r, highlights io_message denied crc32c to_json around thread uri line character o fs = (log, fs', Ok (o', r)) ∧
    match r with
    | Ok hits => cs_pc_only c = false ∧ NoDup hits ∧ StronglySorted (λ a b, span_leb (hl_span a) (hl_span b) = true) hits ∧
        ∀ h, h ∈ hits ↔ highlighted fs' o' v c h
    | Err e => (cs_pc_only c = true ∧ e = PcOnlySymbol) ∨
        (cs_pc_only c = false ∧ indexed_here o' v c = false ∧ cs_source c ≠ RawSemanticdb ∧ e = NotIndexed uri)
    end.
Proof.
  intros Hrun Hsized Hv Hwf. unfold highlights. unfold mbind at 1. unfold act_bind at 1. unfold mbind at 1. unfold io_bind at 1. rewrite Hrun. cbn [fst snd].
  destruct (cs_pc_only c).
  { eexists. split; [cbn; by rewrite app_nil_r|]. by left. }
  destruct (highlights_of_exact fs' o' v Hsized Hv uri c Hwf) as (r & Hr & Hcases). unfold ask_query. rewrite Hr.
  exists r. split; [by rewrite app_nil_r|]. destruct r as [res|e]; [by split|by right].
Qed.
End requests.

(** On the example: the method's name in its own file resolves from the snapshot; its definition there
    and its use in the other target are what references and highlights answer. *)
Definition ex_cursor : CursorSymbol := mkCursor (lit "a.scala") (lit "_empty_/A#m().") None (mkSpan 0 14 0 15) Definition_ FromSnapshot false false.
Definition ex_m : Loc := mkLoc (lit "a.scala") (mkSpan 0 14 0 15).
Definition ex_use : Loc := mkLoc (lit "b.scala") (mkSpan 0 27 0 28).

Lemma ex_cursor_run : ex_cursor_at "a.scala" 0 14 ex_orchestrator ex_fs = ([], ex_fs, Ok (ex_orchestrator, Ok ex_cursor)).
Proof. vm_compute. reflexivity. Qed.

Lemma run_result {A B C R : Type} (log log' : A) (fs fs' : B) (o o' : C) (r r' : R) :
  (log, fs, (Ok (o, r) : store_outcome _)) = (log', fs', Ok (o', r')) → r = r'.
Proof. by intros [= _ _ _ ->]. Qed.

Lemma references_exact_witness :
  references (H := ascii_tables) no_message no_faults sum_crc encode_manifest ex_around (lit "main") (lit "a.scala") 0 14 true ex_orchestrator ex_fs =
    ([], ex_fs, Ok (ex_orchestrator, Ok (mkReferences [mkRefHit ex_m Definition_ false; mkRefHit ex_use Reference false] false))) ∧
  (∀ loc, loc = ex_m ∨ loc = ex_use ↔ ∃ h, found (H := ascii_tables) ex_fs ex_orchestrator ex_view ex_cursor true h ∧ rf_loc h = loc).
Proof.
  destruct (references_exact (Htables := ascii_tables) no_message no_faults sum_crc encode_manifest ex_around (lit "main") (lit "a.scala") 0 14 true
    ex_orchestrator ex_fs [] ex_fs ex_orchestrator ex_cursor ex_view) as (r & Hr & Hcases).
  - exact ex_cursor_run.
  - exact ex_sized.
  - intros snap Hs. injection Hs as <-. exact ex_shows.
  - intros ws E. injection E as <-. exact ex_workspace_built.
  - refine (bool_decide_unpack _ _). vm_compute. exact I.
  - assert (references (H := ascii_tables) no_message no_faults sum_crc encode_manifest ex_around (lit "main") (lit "a.scala") 0 14 true ex_orchestrator ex_fs =
      ([], ex_fs, Ok (ex_orchestrator, Ok (mkReferences [mkRefHit ex_m Definition_ false; mkRefHit ex_use Reference false] false)))) as E by (vm_compute; reflexivity).
    split; [exact E|]. pose proof (run_result _ _ _ _ _ _ _ _ (eq_trans (eq_sym E) Hr)) as <-. destruct Hcases as (_ & _ & _ & _ & _ & _ & Hlocs). intros loc. rewrite <- Hlocs.
    unfold locations. cbn. rewrite !elem_of_cons. pose proof (not_elem_of_nil loc). tauto.
Defined.

Lemma highlights_exact_witness :
  ∀ h, h = mkHighlight (mkSpan 0 14 0 15) Write ↔ highlighted (H := ascii_tables) ex_fs ex_orchestrator ex_view ex_cursor h.
Proof.
  destruct (highlights_exact (Htables := ascii_tables) no_message no_faults sum_crc encode_manifest ex_around (lit "main") (lit "a.scala") 0 14
    ex_orchestrator ex_fs [] ex_fs ex_orchestrator ex_cursor ex_view) as (r & Hr & Hcases).
  - exact ex_cursor_run.
  - exact ex_sized.
  - intros snap Hs. injection Hs as <-. exact ex_shows.
  - refine (bool_decide_unpack _ _). vm_compute. exact I.
  - assert (highlights (H := ascii_tables) no_message no_faults sum_crc encode_manifest ex_around (lit "main") (lit "a.scala") 0 14 ex_orchestrator ex_fs =
      ([], ex_fs, Ok (ex_orchestrator, Ok [mkHighlight (mkSpan 0 14 0 15) Write]))) as E by (vm_compute; reflexivity).
    pose proof (run_result _ _ _ _ _ _ _ _ (eq_trans (eq_sym E) Hr)) as <-. destruct Hcases as (_ & _ & _ & Hmem). intros h. rewrite <- Hmem. by rewrite list_elem_of_singleton.
Defined.
