(* ===== verification/RenameSafe.v ===== *)
(** What a rename may edit: nothing but the records of a safe rename group of the generation that the
    fresh ingest published, in documents whose source is the indexed one and whose targets agree. *)

From stdpp Require Import gmap relations sorting.
From Stdlib Require Import Sorting.Sorted.
From S2P Require Import Prelude RustStr SdbModel SdbParser IndexModel Bitset SdbSymbols SdbNormalize SdbProfile Locator StoreFormat SegReader SegSafe SegScan WorkspaceState FileSystem Durable Snapshot Targets Identifiers SymbolEncoding Ingest IngestWalk Orchestrator SymbolQueries References Rename QueryView IndexView QueryExample SegExample StoreExample StoreTheorems QueryCursor ReferencesExact.

Open Scope Z_scope.

(** ** The specification *)

(** Every target that compiles a document names the same symbols, and some, at every span. *)
Definition targets_agree (fs : Fs) (o : QueryOrchestrator) `{CharTables} (uri : list Z) (spans : list Span) : Prop :=
  (length (semanticdb_files_for fs o uri) ≤ 1)%nat ∨
  ∀ span, span ∈ spans → ∃ symbols, symbols ≠ ∅ ∧ ∀ file, file ∈ semanticdb_files_for fs o uri →
    ∃ m, symbols_at_spans fs uri spans file = Some m ∧ m !! span = Some symbols.

(** The edits of a plan to one document. *)
Definition edit_spans (edits : list TextEditSpan) : list Span := te_span <$> edits.

(** ** Lemmas: inverting a run that answers *)

Lemma act_bind_ok {A B : Type} (f : A → act B) (m : act A) o fs log fs' o' b :
  (m ≫= f) o fs = (log, fs', Ok (o', Ok b)) →
  ∃ log1 fs1 o1 a log2, m o fs = (log1, fs1, Ok (o1, Ok a)) ∧ f a o1 fs1 = (log2, fs', Ok (o', Ok b)) ∧ log = log1 ++ log2.
Proof.
  unfold mbind at 1. unfold act_bind. unfold mbind at 1. unfold io_bind. destruct (m o fs) as [[log1 fs1] [[o1 [a|e]]|e]]; cbn; [| |done].
  - destruct (f a o1 fs1) as [[log2 fs2] r] eqn:E. intros [= <- <- ->]. by exists log1, fs1, o1, a, log2.
  - by intros [= _ _ _].
Qed.

Lemma ask_query_ok {A : Type} (q : Fs → QueryOrchestrator → query A) o fs log fs' o' a :
  ask_query q o fs = (log, fs', Ok (o', Ok a)) → log = [] ∧ fs' = fs ∧ o' = o ∧ q fs o = Some (Ok a).
Proof. unfold ask_query. destruct (q fs o) as [r|]; [|done]. by intros [= <- <- <- ->]. Qed.

Lemma query_bind_ok {A B : Type} (f : A → query B) (m : query A) b : (m ≫= f) = Some (Ok b) → ∃ a, m = Some (Ok a) ∧ f a = Some (Ok b).
Proof. unfold mbind, query_bind. destruct m as [[a|e]|]; [|done..]. by exists a. Qed.
Lemma reads_ok {A : Type} (r : option A) a : reads r = Some (Ok a) → r = Some a.
Proof. destruct r; [|done]. by intros [= ->]. Qed.
Lemma or_fail_ok {A : Type} (r : option A) e a : or_fail r e = Some (Ok a) → r = Some a.
Proof. unfold or_fail, ok_or. destruct r; [|done]. by intros [= ->]. Qed.

Lemma each_query_ok {A : Type} (f : A → query unit) l u : each_query f l = Some (Ok u) → ∀ x, x ∈ l → f x = Some (Ok tt).
Proof.
  induction l as [|y l IH]; intros H; [by intros ? ?%not_elem_of_nil|]. cbn in H. apply query_bind_ok in H as ([] & Hy & H).
  intros x [->|Hx]%elem_of_cons; [done|by apply IH].
Qed.

(** ** Lemmas: the checks *)

Lemma revalidate_ok fs o `{CharTables} uri : revalidate fs o uri = Some (Ok tt) →
  ∃ snap, current_snapshot o = Some snap ∧ indexed_source fs o snap uri.
Proof.
  unfold revalidate. case_bool_decide; [done|]. intros (fresh & Hf%reads_ok & Hok)%query_bind_ok. destruct fresh; [|done].
  unfold source_is_fresh_uri in Hf. destruct (current_snapshot o) as [snap|]; [|done]. exists snap. split; [done|].
  destruct (source_fresh_exact fs o snap uri) as (b & Hb & Hiff). rewrite Hb in Hf. injection Hf as ->. by apply Hiff.
Qed.

Lemma consistency_ok fs o `{CharTables} uri spans : check_shared_source_consistency fs o uri spans = Some (Ok tt) → targets_agree fs o uri spans.
Proof.
  unfold check_shared_source_consistency. destruct (Z.leb_spec (zlen (semanticdb_files_for fs o uri)) 1) as [Hle|Hgt].
  { intros _. left. unfold zlen in Hle. lia. }
  intros (per & Hper%reads_ok & Hrest)%query_bind_ok. apply query_bind_ok in Hrest as (ref & Href%reads_ok & Hrest).
  destruct (existsb _ per || existsb _ spans) eqn:E; [done|]. apply orb_false_iff in E as [E1 E2]. right. intros span Hspan.
  assert (∀ m, m ∈ per → m !! span = ref !! span) as Hagree.
  { intros m Hm. destruct (bool_decide (m !! span = ref !! span)) eqn:Eb; [by apply bool_decide_eq_true in Eb|].
    enough (existsb (λ m, existsb (disagree ref m) spans) per = true) by congruence. apply existsb_exists. exists m. split; [by apply list_elem_of_In|].
    apply existsb_exists. exists span. split; [by apply list_elem_of_In|]. unfold disagree. by rewrite Eb. }
  assert (unresolved ref span = false) as Hres.
  { destruct (unresolved ref span) eqn:Eu; [|done]. enough (existsb (unresolved ref) spans = true) by congruence. apply existsb_exists. exists span. split; [by apply list_elem_of_In|done]. }
  unfold unresolved in Hres. destruct (ref !! span) as [symbols|] eqn:Er; [|done]. apply bool_decide_eq_false in Hres. exists symbols. split; [done|].
  intros file Hfile. apply mapM_Some in Hper. apply list_elem_of_lookup in Hfile as [i Hi]. destruct (Forall2_lookup_l _ _ _ _ _ Hper Hi) as (m & Hm & Hs).
  exists m. split; [done|]. rewrite Hagree; [done|]. by eapply list_elem_of_lookup_2.
Qed.

(** ** Lemmas: the edits *)

Lemma wf_encoded sym : wf_str sym → wf_str (SymbolEncoding.encode (SymbolEncoding.decode sym).1 (SymbolEncoding.decode sym).2).
Proof.
  intros Hs. assert (wf_str (SymbolEncoding.decode sym).1) as Hd.
  { unfold SymbolEncoding.decode. destruct (if starts_with _ _ then _ else _) as [i|]; [|done]. destruct (0 <? i)%nat; [|done].
    destruct (parse_u64 _); [by apply Forall_take|done]. }
  unfold SymbolEncoding.encode. destruct (SymbolEncoding.decode sym).2 as [d|]; [|done]. destruct (is_local _); [|done].
  apply Forall_app. split; [done|]. constructor; [unfold is_scalar; change SEP with 64; lia|]. eapply Forall_impl; [apply show_u_digits|]. intros c Hc. unfold digit in Hc.
  unfold is_scalar. lia.
Qed.

Lemma str_cmp_ok : cmp_ok str_cmp wf_str.
Proof.
  split.
  - intros x y Hx Hy. split; [by apply str_cmp_Eq|]. intros ->. apply bytes_cmp_eq. done.
  - intros x y. apply lex_cmp_antisym.
  - intros x y z. apply lex_cmp_lt_trans.
Qed.

(** Edits grouped by document: each document once, in order, with the spans of its edits once each and
    in order. *)
Lemma group_edits_exact (raw : list (list Z * Span * Z)) : Forall (λ e, wf_str e.1.1) raw →
  StronglySorted (λ a b, str_cmp a.1 b.1 = Lt) (group_edits raw) ∧
  (∀ u spans, (u, spans) ∈ group_edits raw → NoDup spans ∧ StronglySorted (λ a b, span_leb a b = true) spans) ∧
  ∀ u span, (∃ spans, (u, spans) ∈ group_edits raw ∧ span ∈ spans) ↔ ∃ e, e ∈ raw ∧ e.1 = (u, span).
Proof.
  intros Hwf. destruct (group_by_exact str_cmp wf_str str_cmp_ok (fst <$> raw)) as (Hs & _ & Hval & Hall & _).
  { apply Forall_fmap. eapply Forall_impl; [exact Hwf|done]. }
  unfold group_edits. split_and!.
  - apply (sorted_fmap _ (λ a b : list Z * list Span, str_cmp a.1 b.1 = Lt)); [|done]. done.
  - intros u spans (e & [= -> ->] & He)%list_elem_of_fmap. destruct (sort_spans_exact e.2) as (? & ? & _). done.
  - intros u span. assert ((∃ e, e ∈ raw ∧ e.1 = (u, span)) ↔ (u, span) ∈ fst <$> raw) as -> by (rewrite list_elem_of_fmap; split; intros (e & H1 & H2); exists e; by split).
    rewrite <- (elem_of_group_by str_cmp wf_str str_cmp_ok (fst <$> raw) u span) by (apply Forall_fmap; eapply Forall_impl; [exact Hwf|done]).
    split.
    + intros (spans & (e & [= -> ->] & He)%list_elem_of_fmap & Hspan). destruct (sort_spans_exact e.2) as (_ & _ & Hiff). apply Hiff in Hspan. exists e.2. split; [by destruct e|done].
    + intros (vs & Hin & Hv). exists (sort_spans vs). split; [|by apply sort_spans_exact]. by apply (list_elem_of_fmap_2 (λ e : list Z * list Span, (e.1, sort_spans e.2)) _ (u, vs)).
Qed.

(** The edits are the records of a rename group with nothing unsafe in it. *)
Lemma collect_edits_ok snap v `{!Shows (sn_segment snap) v} c raw :
  wf_str (encoded_symbol c) → collect_edits snap c = Some (Ok raw) →
  ∃ i row members profile, view_symbol v (encoded_symbol c) = Some i ∧ zget (vw_symbols v) i = Some row ∧
    zget (vw_renames v) (sv_rename_group_ord (sw_view row)) = Some (members, profile) ∧ rp_unsafe_reason_mask profile = 0 ∧
    Forall (λ e, wf_str e.1.1) raw ∧ (∀ e, e ∈ raw ↔ ∃ m, m ∈ members ∧ record_loc v m = Some (mkLoc e.1.1 e.1.2) ∧ gr_flags m = e.2).
Proof.
  intros Hwf. unfold collect_edits. rewrite (find_symbol_shows _ v _ Hwf). cbn [reads mbind query_bind]. intros (i & Hi%or_fail_ok & H)%query_bind_ok.
  pose proof (view_symbol_exact v (encoded_symbol c)) as Hex. rewrite Hi in Hex. destruct Hex as (row & Hrow & _).
  destruct (sh_symbol (s := sn_segment snap) _ _ Hrow) as (_ & _ & Hview & _ & (_ & Hg & _)). rewrite Hview in H. cbn [reads mbind query_bind] in H.
  destruct (Z.ltb_spec (sv_rename_group_ord (sw_view row)) 0) as [Hneg|Hpos]; [done|]. destruct Hg as [|Hg]; [lia|].
  destruct (zget_is_Some _ _ Hg) as [[members profile] Hgrp]. destruct (sh_renames (s := sn_segment snap) _ _ _ Hgrp) as (Hrecs & Hscan & Hprof).
  rewrite (as_u32_small _ _ Hg (renames_small (sn_segment snap) v)), Hprof in H. cbn [reads mbind query_bind] in H.
  destruct (Z.eqb_spec (rp_unsafe_reason_mask profile) 0) as [Hmask|]; [|done]. cbn [negb] in H. rewrite Hscan in H. cbn [reads mbind query_bind] in H.
  apply reads_ok, mapM_Some in H. exists i, row, members, profile. split_and!; [done..| |].
  - apply Forall_forall. intros e [k Hk]%list_elem_of_lookup. destruct (Forall2_lookup_r _ _ _ _ _ H Hk) as (m & Hm & He).
    rewrite Forall_forall in Hrecs. destruct (record_in_uri (sn_segment snap) v m) as (drow & Hd & Hu); [apply Hrecs; by eapply list_elem_of_lookup_2|].
    unfold raw_edit in He. rewrite Hu in He. injection He as <-. cbn. apply (sh_uri (s := sn_segment snap) (v := v)). by eapply zget_elem_of.
  - assert (∀ m e, m ∈ members → raw_edit (sn_segment snap) m = Some e ↔ record_loc v m = Some (mkLoc e.1.1 e.1.2) ∧ gr_flags m = e.2) as Heq.
    { intros m [[u span] fl] Hm. rewrite Forall_forall in Hrecs. destruct (record_in_uri (sn_segment snap) v m (Hrecs m Hm)) as (drow & Hd & Hu).
      unfold raw_edit, record_loc. rewrite Hu, Hd. cbn. split; [by intros [= <- <- <-]|]. intros [[= <- <-] <-]. done. }
    intros e. split.
    + intros [k Hk]%list_elem_of_lookup. destruct (Forall2_lookup_r _ _ _ _ _ H Hk) as (m & Hm & He). apply list_elem_of_lookup_2 in Hm.
      exists m. split; [done|]. by apply Heq.
    + intros (m & Hm & He). apply Heq in He; [|done]. apply list_elem_of_lookup in Hm as [k Hk]. destruct (Forall2_lookup_l _ _ _ _ _ H Hk) as (e' & He' & E).
      assert (e' = e) as -> by congruence. by eapply list_elem_of_lookup_2.
Qed.

(** ** The plan *)

(** What an emitted plan consists of, on the state that emitted it. *)
Record safe_plan `{CharTables} (fs : Fs) (o : QueryOrchestrator) (v : IndexView) (c : CursorSymbol) (new_text : list Z) (plan : WorkspaceEditPlan) : Prop := {
  sp_group : ∃ i row members profile, view_symbol v (encoded_symbol c) = Some i ∧ zget (vw_symbols v) i = Some row ∧
    zget (vw_renames v) (sv_rename_group_ord (sw_view row)) = Some (members, profile) ∧ rp_unsafe_reason_mask profile = 0 ∧
    (∃ m, m ∈ members ∧ has (as_u32 (gr_flags m)) OCC_SYNTHETIC = false) ∧
    (∀ u span, (∃ edits, (u, edits) ∈ wp_edits plan ∧ span ∈ edit_spans edits) ↔ ∃ m, m ∈ members ∧ record_loc v m = Some (mkLoc u span));
  sp_keys : StronglySorted (λ a b, str_cmp a.1 b.1 = Lt) (wp_edits plan);
  sp_docs u edits : (u, edits) ∈ wp_edits plan →
    Forall (λ e, te_new_text e = new_text) edits ∧ NoDup (edit_spans edits) ∧ StronglySorted (λ a b, span_leb a b = true) (edit_spans edits) ∧
    (∃ snap, current_snapshot o = Some snap ∧ indexed_source fs o snap u) ∧ targets_agree fs o u (edit_spans edits);
  sp_count : wp_occurrence_count plan = foldr Z.add 0 ((λ e : list Z * list TextEditSpan, zlen e.2) <$> wp_edits plan)
}.

Lemma edit_spans_of new_text spans : edit_spans ((λ s, mkTextEdit s new_text) <$> spans) = spans.
Proof. induction spans as [|s l IH]; [done|]. cbn. by f_equal. Qed.

Lemma edit_plan_safe `{CharTables} fs o v uri new_text c plan :
  (∀ snap, current_snapshot o = Some snap → Shows (sn_segment snap) v) → (cs_source c = FromSnapshot → wf_str (encoded_symbol c)) →
  edit_plan fs o uri new_text c = Some (Ok plan) → cs_source c = FromSnapshot ∧ safe_plan fs o v c new_text plan.
Proof.
  intros Hv Hwf. unfold edit_plan. case_bool_decide as Hsrc; [|done]. cbn [negb]. specialize (Hwf Hsrc).
  intros (snap & Hcur%or_fail_ok & Hp)%query_bind_ok. pose proof (Hv snap Hcur) as Hs. apply query_bind_ok in Hp as (raw & Hraw & Hp).
  destruct (collect_edits_ok snap v c raw Hwf Hraw) as (i & row & members & profile & Hi & Hrow & Hgrp & Hmask & Hwfs & Hedits).
  case_bool_decide; [done|]. destruct (forallb _ raw) eqn:Esyn; [done|]. apply query_bind_ok in Hp as ([] & Hshared & Hp).
  apply query_bind_ok in Hp as ([] & Hmd5 & [= <-]). destruct (group_edits_exact raw Hwfs) as (Hkeys & Hspans & Hmem).
  assert (∀ u edits, (u, edits) ∈ wp_edits (plan_of new_text (group_edits raw)) →
    ∃ spans, (u, spans) ∈ group_edits raw ∧ edits = (λ s, mkTextEdit s new_text) <$> spans ∧ edit_spans edits = spans) as Hin.
  { intros u edits (e & [= -> ->] & He)%list_elem_of_fmap. exists e.2. split; [by destruct e|]. split; [done|]. apply edit_spans_of. }
  split; [done|]. split.
  - exists i, row, members, profile. split_and!; [done..| |].
    + assert (∃ e, e ∈ raw ∧ has (as_u32 e.2) OCC_SYNTHETIC = false) as (e & He & Hsyn).
      { clear -Esyn. induction raw as [|e l IH]; [done|]. cbn in Esyn. destruct (has _ _) eqn:E; [|exists e; split; [by left|done]].
        destruct (IH Esyn) as (e' & ? & ?). exists e'. split; [by right|done]. }
      apply Hedits in He as (m & Hm & _ & Hf). exists m. by rewrite Hf.
    + intros u span. transitivity (∃ e, e ∈ raw ∧ e.1 = (u, span)).
      * rewrite <- Hmem. split.
        -- intros (edits & He & Hsp). apply Hin in He as (spans & Hs' & _ & E). exists spans. split; [done|]. by rewrite <- E.
        -- intros (spans & Hs' & Hsp). exists ((λ s, mkTextEdit s new_text) <$> spans). split.
           ++ by apply (list_elem_of_fmap_2 (λ e : list Z * list Span, (e.1, (λ s, mkTextEdit s new_text) <$> e.2)) _ (u, spans)).
           ++ by rewrite edit_spans_of.
      * split.
        -- intros (e & He & E). apply Hedits in He as (m & Hm & Hl & _). exists m. by rewrite E in Hl.
        -- intros (m & Hm & Hl). exists (u, span, gr_flags m). split; [|done]. apply Hedits. by exists m.
  - cbn. apply (sorted_fmap _ (λ a b : list Z * list Span, str_cmp a.1 b.1 = Lt)); [|done]. done.
  - intros u edits He. apply Hin in He as (spans & Hs' & -> & E). rewrite E. destruct (Hspans u spans Hs') as [Hnd Hss]. split_and!; [|done..| |].
    + apply Forall_fmap, Forall_true. done.
    + eapply revalidate_ok. exact (each_query_ok _ _ _ Hmd5 _ Hs').
    + eapply consistency_ok. exact (each_query_ok _ _ _ Hshared _ Hs').
  - cbn. f_equal. rewrite <- list_fmap_compose. apply list_fmap_ext. intros k e _. cbn. unfold zlen. by rewrite length_fmap.
Qed.

(** ** The property *)

Section rename.
Context (io_message : Op → list Z) (denied : Fs → Op → bool) (crc32c : bytes → Z) {Hdebug : DebugStr} {Htables : CharTables}.
Context (to_json : Manifest → bytes) (around : Fs → Surroundings) (thread : list Z) {Hoverlay : DirtyBufferOverlay}.
Context (compile : list (list Z) → Fs → Fs * CompileOutcome).

(** A cursor the snapshot answered left everything as it was. *)
Lemma cursor_kept uri line character o fs log fs' o' c :
  symbol_at_cursor io_message denied crc32c to_json around thread uri line character o fs = (log, fs', Ok (o', Ok c)) → cs_source c = FromSnapshot →
  log = [] ∧ fs' = fs ∧ o' = o.
Proof.
  unfold symbol_at_cursor. destruct (is_dirty uri).
  { destruct (overlay_symbol_at uri line character); [|done]. by intros [= <- <- <- <-]. }
  intros (log1 & fs1 & o1 & snap_c & log2 & (-> & -> & -> & _)%ask_query_ok & Hrest & ->)%act_bind_ok Hsrc. destruct snap_c as [hit|].
  { by injection Hrest as <- <- <- <-. }
  apply act_bind_ok in Hrest as (log1 & fs1 & o1 & raw & log3 & (-> & -> & -> & Hq)%ask_query_ok & Hrest & ->).
  apply act_bind_ok in Hrest as (log1 & fs1 & o1 & healed & log4 & _ & [= <- <- <- <-] & ->). exfalso.
  unfold raw_semanticdb_cursor in Hq. apply query_bind_ok in Hq as (doc & _ & Hq). destruct (occurrence_at _ _ _) as [occ|]; [|done].
  injection Hq as <-. by destruct healed.
Qed.

Lemma fresh_ingest_ok ws uri o fs log fs' o' :
  fresh_ingest io_message denied crc32c to_json around ws uri o fs = (log, fs', Ok (o', Ok tt)) →
  ∃ report, orchestrator_ingest io_message denied crc32c to_json around ws o fs = (log, fs', Ok (o', report)).
Proof.
  unfold fresh_ingest. unfold mbind at 1. unfold io_bind at 1. unfold try_io. destruct (orchestrator_ingest _ _ _ _ _ ws o fs) as [[log1 fs1] [[o1 report]|[e|]]]; cbn; [|done..].
  rewrite app_nil_r. intros [= <- <- <-]. by exists report.
Qed.

End rename.

(** On the example, renaming the method from its definition: nothing is published yet, the first cursor
    comes from the SemanticDB file, and the plan edits the definition and the use in the other target. *)
Definition ex_fresh : QueryOrchestrator := mkOrchestrator empty_store false (Some ex_workspace) None.
Definition ex_compile (domain : list (list Z)) (fs : Fs) : Fs * CompileOutcome := (fs, CompileOk).
Definition ex_rename : list Op * Fs * store_outcome (QueryOrchestrator * result LsError WorkspaceEditPlan) :=
  rename (H0 := ascii_tables) no_message no_faults sum_crc encode_manifest ex_around (lit "main") ex_compile (lit "a.scala") 0 14 (lit "k") ex_fresh ex_fs.
Definition ex_plan : WorkspaceEditPlan :=
  mkPlan [(lit "a.scala", [mkTextEdit (mkSpan 0 14 0 15) (lit "k")]); (lit "b.scala", [mkTextEdit (mkSpan 0 27 0 28) (lit "k")])] 2.

Lemma ex_renamed : match ex_rename with
  | (_, fs', Ok (o', Ok plan)) => plan = ex_plan ∧ (sn_segment <$> current_snapshot o' = Some ex_reader) ∧
      bool_decide (map_Forall (λ _ n, inU 64 (zlen (fn_bytes n))) (fs_files fs')) = true
  | _ => False
  end.
Proof. vm_compute. auto. Qed.

Lemma ok_inj {E A : Type} (x y : A) : @Ok E A x = Ok y → x = y.
Proof. by intros [= ->]. Qed.
Lemma some_inj {A : Type} (x y : A) : Some x = Some y → x = y.
Proof. by intros [= ->]. Qed.

