(* ===== verification/CallsExact.v ===== *)
(** The call hierarchy answers, and its incoming calls are the references of the item's group, each
    under the definition that encloses it. *)

From stdpp Require Import gmap relations sorting.
From Stdlib Require Import Sorting.Sorted.
From S2P Require Import Prelude RustStr IndexModel Bitset SdbSymbols SdbProfile StoreFormat SegReader SegSafe SegScan FileSystem Durable Snapshot Targets SymbolEncoding Materialize Ingest Orchestrator SymbolQueries Outline References CallHierarchy QueryView IndexView QueryExample SegExample StoreExample ReferencesExact.

Open Scope Z_scope.

(** ** Climbing ends: an owner has fewer characters than what it owns, backticks aside, and a companion
    has as many *)

Definition weight (s : list Z) : nat := length (List.filter (λ c, negb (c =? ch "`")) s).

Lemma weight_app a b : weight (a ++ b) = (weight a + weight b)%nat.
Proof. unfold weight. by rewrite List.filter_app, length_app. Qed.
Lemma weight_length s : (weight s ≤ length s)%nat.
Proof. unfold weight. induction s as [|c s IH]; [done|]. cbn. destruct (negb _); cbn; lia. Qed.
Lemma weight_spelled enc name : spelled enc name → weight enc = weight name.
Proof. intros [(-> & _)|(-> & _)]; [done|]. rewrite !weight_app. change (weight (lit "`")) with 0%nat. lia. Qed.
Lemma weight_encode `{CharTables} name : weight (encode_name name) = weight name.
Proof. unfold encode_name. destruct name; [done|]. destruct (_ && _); [done|]. rewrite !weight_app. change (weight (lit "`")) with 0%nat. lia. Qed.

Lemma weight_owner s o d : split_last s = Some (o, d) → (weight o < weight s)%nat.
Proof.
  intros (_ & enc & _ & ->)%split_last_sound. rewrite weight_app. enough (0 < weight (descriptor_suffix enc d))%nat by lia.
  destruct d; cbn [descriptor_suffix]; rewrite !weight_app; rewrite ?Nat.add_assoc; apply Nat.lt_le_trans with 1%nat; (lia || apply Nat.le_add_l).
Qed.

Lemma weight_companion `{CharTables} s c : companion s = Some c → weight c = weight s.
Proof.
  unfold companion. destruct (split_last s) as [[o d]|] eqn:E; [|done]. apply split_last_sound in E as (_ & enc & Hs & ->). apply weight_spelled in Hs.
  destruct d; cbn; intros [= <-]; rewrite !weight_app, weight_encode; cbn in *; rewrite Hs; done.
Qed.

Lemma owner_chain_loop_weight fuel cur acc :
  ∃ l, owner_chain_loop fuel cur acc = l ++ acc ∧ ∀ x, x ∈ l → (weight x ≤ weight cur)%nat.
Proof.
  revert cur acc. induction fuel as [|fuel IH]; intros cur acc; cbn [owner_chain_loop]; [by exists []; split; [|by intros ? ?%not_elem_of_nil]|].
  destruct (is_empty cur); [by exists []; split; [|by intros ? ?%not_elem_of_nil]|]. destruct (split_last cur) as [[o d]|] eqn:E.
  - destruct (IH o (cur :: acc)) as (l & -> & Hl). exists (l ++ [cur]). split; [by rewrite <- app_assoc|].
    apply weight_owner in E. intros x [Hx| ->%list_elem_of_singleton]%elem_of_app; [apply Hl in Hx; lia|lia].
  - exists [cur]. split; [done|]. by intros x ->%list_elem_of_singleton.
Qed.

Lemma weight_enclosing s a : a ∈ enclosing s → (weight a < weight s)%nat.
Proof.
  unfold enclosing, owner_chain. destruct (is_empty s) eqn:Ee; [by intros ?%not_elem_of_nil|]. destruct (is_local s); [by intros ?%not_elem_of_nil|].
  destruct s as [|c s]; [done|]. set (sym := c :: s) in *. change (length sym) with (S (length s)). cbn [owner_chain_loop]. rewrite Ee.
  destruct (split_last sym) as [[o d]|] eqn:E; [|by intros ?%not_elem_of_nil].
  destruct (owner_chain_loop_weight (length s) o [sym]) as (l & -> & Hl). rewrite length_app. cbn [length].
  replace (length l + 1 - 1)%nat with (length l) by lia. rewrite take_app_length. intros Ha%Hl. apply weight_owner in E. lia.
Qed.

(** ** Climbing *)

(** The entries carry the owners of their symbols. *)
Definition owners_ok (entries : list DefEntry) : Prop := ∀ e, e ∈ entries → de_owners e = enclosing (de_symbol e).

Lemma first_some_Some {A B : Type} (f : A → option B) l y : first_some f l = Some y → ∃ x, x ∈ l ∧ f x = Some y.
Proof.
  induction l as [|x l IH]; cbn; [done|]. destruct (f x) as [b|] eqn:E.
  - intros [= <-]. exists x. split; [by left|done].
  - intros (z & Hz & ?)%IH. exists z. split; [by right|done].
Qed.

Lemma position_Some {A : Type} (f : A → bool) l i : position f l = Some i → ∃ x, l !! i = Some x ∧ f x = true.
Proof.
  revert i. induction l as [|x l IH]; cbn; intros i; [done|]. destruct (f x) eqn:E.
  - intros [= <-]. by exists x.
  - destruct (position f l) as [j|]; [|done]. intros [= <-]. by apply (IH j).
Qed.

Section climb.
Context `{CharTables} (entries : list DefEntry) (Howners : owners_ok entries).

(** An owner's entry: above, by weight. *)
Lemma owner_entry_above e up : e ∈ entries → owner_entry_index entries e = Some up →
  ∃ e', entries !! up = Some e' ∧ (weight (de_symbol e') < weight (de_symbol e))%nat.
Proof.
  intros He (a & Ha & Hup)%first_some_Some. apply list_elem_of_In, in_rev, list_elem_of_In in Ha. rewrite (Howners e He) in Ha. apply weight_enclosing in Ha. unfold node_or_companion, entry_of_symbol in Hup.
  destruct (position (λ e', str_eqb (de_symbol e') a) entries) as [i|] eqn:E.
  - injection Hup as ->. apply position_Some in E as (e' & ? & Es%bool_decide_eq_true). exists e'. split; [done|]. by rewrite Es.
  - destruct (companion a) as [c|] eqn:Ec; [|done]. apply weight_companion in Ec. apply position_Some in Hup as (e' & ? & Es%bool_decide_eq_true).
    exists e'. split; [done|]. rewrite Es. lia.
Qed.

(** One step up, when the extent of an entry does not reach the line. *)
Definition extent_covers (packed : Z) (i : nat) : Prop :=
  match successor_start entries i with
  | Some (Some succ) => unpack_line packed < unpack_line succ
  | _ => True
  end.
Definition steps_up (packed : Z) (i j : nat) : Prop :=
  ¬ extent_covers packed i ∧ ∃ e, entries !! i = Some e ∧ owner_entry_index entries e = Some j.

(** The climb of [enclosing_entry_index]: from the last entry that starts at or before the position, up
    the owners, to the first whose extent covers its line. *)
Definition climbs (packed : Z) (start : option nat) (r : option nat) : Prop :=
  match start with
  | None => r = None
  | Some i => ∃ j, rtc (steps_up packed) i j ∧
      match r with
      | Some k => k = j ∧ extent_covers packed j
      | None => ¬ extent_covers packed j ∧ ∃ e, entries !! j = Some e ∧ owner_entry_index entries e = None
      end
  end.

Lemma enclosing_loop_climbs fuel packed i e : entries !! i = Some e → (weight (de_symbol e) < fuel)%nat →
  ∃ r, enclosing_loop fuel entries packed i = Some r ∧ climbs packed (Some i) r ∧ match r with Some k => is_Some (entries !! k) | None => True end.
Proof.
  revert i e. induction fuel as [|fuel IH]; intros i e Hi Hw; [lia|]. cbn [enclosing_loop]. unfold successor_start at 1. rewrite Hi. cbn [mbind option_bind].
  set (succ := de_start <$> _). assert (successor_start entries i = Some succ) as Hsucc by (unfold successor_start; by rewrite Hi).
  destruct (match succ with None => true | Some s => unpack_line packed <? unpack_line s end) eqn:Ecov.
  { exists (Some i). split; [done|]. split; [|by exists e]. exists i. split; [apply rtc_refl|]. split; [done|]. unfold extent_covers. rewrite Hsucc. destruct succ; [lia|done]. }
  assert (¬ extent_covers packed i) as Hno by (unfold extent_covers; rewrite Hsucc; destruct succ; [lia|done]).
  destruct (owner_entry_index entries e) as [up|] eqn:Eup.
  - destruct (owner_entry_above e up) as (e' & He' & Hlt); [by eapply list_elem_of_lookup_2|done|].
    destruct (IH up e' He' ltac:(lia)) as (r & -> & (j & Hj & Hr) & Hk). exists r. split; [done|]. split; [|done]. exists j. split; [|done].
    eapply rtc_l; [|exact Hj]. split; [done|]. by exists e.
  - exists None. split; [done|]. split; [|done]. exists i. split; [apply rtc_refl|]. split; [done|]. by exists e.
Qed.

Lemma climb_fuel_enough i e : entries !! i = Some e → (weight (de_symbol e) < climb_fuel entries)%nat.
Proof.
  unfold climb_fuel. clear Howners. revert i. induction entries as [|x l IH]; intros i Hi; [done|]. destruct i as [|i]; cbn in *.
  - injection Hi as ->. pose proof (weight_length (de_symbol e)). lia.
  - apply IH in Hi. lia.
Qed.

Lemma position_lt {A : Type} (f : A → bool) l i : position f l = Some i → (i < length l)%nat.
Proof. intros (x & Hx & _)%position_Some. by eapply lookup_lt_Some. Qed.

Lemma last_before_in packed i : last_before entries packed = Some i → is_Some (entries !! i).
Proof.
  unfold last_before. destruct (position _ (rev entries)) as [j|] eqn:E; [|done]. apply position_lt in E. rewrite length_rev in E.
  intros [= <-]. apply lookup_lt_is_Some. lia.
Qed.

Lemma enclosing_entry_climbs packed :
  ∃ r, enclosing_entry_index entries packed = Some r ∧ climbs packed (last_before entries packed) r ∧ match r with Some k => is_Some (entries !! k) | None => True end.
Proof.
  unfold enclosing_entry_index. destruct (last_before entries packed) as [i|] eqn:E; [|by exists None].
  apply last_before_in in E as [e He]. by eapply enclosing_loop_climbs; [|eapply climb_fuel_enough].
Qed.
End climb.

(** ** The definitions of a document *)

Section entries.
Context `{CharTables} (s : SegmentReader) (v : IndexView) `{!Shows s v}.

(** The entry of a record, when it defines a global symbol that has a node. *)
Definition view_entry (rec : DocRecord) : option DefEntry :=
  if negb (has (as_u32 (dr_flags rec)) OCC_DEFINITION) then None else
  row ← zget (vw_symbols v) (dr_symbol_ord rec);
  let '(raw, local) := SymbolEncoding.decode (sw_symbol row) in
  match local, outlined raw with
  | None, Some _ => Some (mkDefEntry raw (dr_symbol_ord rec) (as_u32 (dr_packed_start rec)) (record_span (dr_packed_start rec) (dr_packed_end rec)) (enclosing raw))
  | _, _ => None
  end.

(** The entries of a document: one per symbol, in the order of their starts. *)
Definition doc_entries (row : DocRow) : list DefEntry := sort_by start_leb (keep_first de_symbol (omap view_entry (dw_records row))).

Definition entry_ok (e : DefEntry) : Prop := de_owners e = enclosing (de_symbol e) ∧ 0 ≤ de_ord e < zlen (vw_symbols v).

Lemma view_entry_ok rec e : view_entry rec = Some e → entry_ok e.
Proof.
  unfold view_entry. destruct (negb _); [done|]. destruct (zget (vw_symbols v) _) as [row|] eqn:E; [|done]. apply zget_Some_lt in E. cbn.
  destruct (SymbolEncoding.decode _) as [raw [d|]]; [done|]. destruct (outlined raw); [|done]. by intros [= <-].
Qed.

Lemma doc_entries_ok row e : e ∈ doc_entries row → entry_ok e.
Proof.
  unfold doc_entries. rewrite elem_of_sort_by. intros He. apply (proj1 (proj2 (keep_first_exact _ _))) in He. apply list_elem_of_omap in He as (rec & _ & He). by eapply view_entry_ok.
Qed.

Lemma def_entry_step out rec : doc_record_in v rec → def_entry s out rec =
  Some (match view_entry rec with Some x => if bool_decide (de_symbol x ∈ de_symbol <$> out) then out else out ++ [x] | None => out end).
Proof.
  intros [Hord _]. unfold def_entry, view_entry. destruct (has _ _); [|done]. cbn [negb].
  rewrite (as_u32_small _ _ Hord (symbols_small s v)). destruct (zget_is_Some _ _ Hord) as [srow Hsrow]. destruct (sh_symbol (s := s) _ _ Hsrow) as (-> & _).
  rewrite Hsrow. cbn [mbind option_bind]. destruct (SymbolEncoding.decode _) as [raw [dd|]]; [done|]. destruct (outlined raw); [|done]. cbn [de_symbol].
  by case_bool_decide.
Qed.

Lemma doc_entries_shows d row : zget (vw_docs v) d = Some row → doc_def_entries s d = Some (doc_entries row).
Proof.
  intros Hrow. destruct (sh_doc (s := s) d row Hrow) as (_ & _ & _ & Hscan & Hrecs & _). unfold doc_def_entries, doc_entries. rewrite Hscan. cbn [mbind option_bind].
  enough (∀ out, SdbProfile.foldM (def_entry s) out (dw_records row) =
    Some (foldl (λ out x, if bool_decide (de_symbol x ∈ de_symbol <$> out) then out else out ++ [x]) out (omap view_entry (dw_records row)))) as ->; [done|].
  clear Hscan Hrow. induction Hrecs as [|rec recs Hrec Hrecs IH]; intros out; [done|]. cbn [SdbProfile.foldM omap list_omap]. rewrite (def_entry_step out rec Hrec). cbn [mbind option_bind].
  destruct (view_entry rec) as [e|]; [cbn [foldl]; case_bool_decide; apply IH|apply IH].
Qed.

(** ** Import lines *)

Definition view_import (fs : Fs) (row : DocRow) (line : Z) : bool :=
  match meta ← zget (vw_targets v) (dw_target row); read_to_string fs (source_path (sourceroot meta) (dw_uri row)) with
  | Some text => from_option line_is_import false (zget (text_lines text) line)
  | None => false
  end.

Lemma is_import_line_shows fs d row line : zget (vw_docs v) d = Some row → is_import_line fs s d line = Some (view_import fs row line).
Proof.
  intros Hrow. destruct (sh_doc (s := s) d row Hrow) as (Huri & Ht & Htr & _). unfold is_import_line, read_doc_lines, view_import. rewrite Ht. cbn [mbind option_bind].
  destruct (Z.ltb_spec (dw_target row) 0); [lia|]. rewrite (as_u32_small _ _ Htr (targets_small s v)). destruct (zget_is_Some _ _ Htr) as [meta Hmeta].
  rewrite (sh_target (s := s) _ _ Hmeta), Huri, Hmeta. cbn. destruct (read_to_string _ _) as [text|]; cbn; [|done]. by destruct (zget (text_lines text) line).
Qed.
End entries.

(** ** Callers *)

Lemma steps_up_functional `{CharTables} entries packed i j j' : steps_up entries packed i j → steps_up entries packed i j' → j = j'.
Proof. intros (_ & e & He & Hj) (_ & e' & He' & Hj'). congruence. Qed.

(** The end of a climb is one. *)
Lemma climbs_functional `{CharTables} entries packed start r r' : climbs entries packed start r → climbs entries packed start r' → r = r'.
Proof.
  destruct start as [i|]; [|by intros -> ->]. intros (j & Hj & Hr) (j' & Hj' & Hr'). revert j' Hj' Hr'.
  assert (∀ k r k', match r with Some a => a = k ∧ extent_covers entries packed k | None => ¬ extent_covers entries packed k ∧ ∃ e, entries !! k = Some e ∧ owner_entry_index entries e = None end →
    ¬ steps_up entries packed k k') as Hend.
  { intros k [a|] k'; [by intros [_ ?] (? & _)|]. intros (_ & e & He & Hn) (_ & e' & He' & Hn'). congruence. }
  induction Hj as [k|k k1 k2 Hs Hsteps IH]; intros j' Hj' Hr'.
  - destruct Hj' as [k|k k1 k2 Hs _]; [|by destruct (Hend _ _ k1 Hr)]. destruct r as [a|], r' as [a'|]; try done.
    + destruct Hr, Hr'. congruence.
    + by destruct Hr as [_ ?], Hr' as [? _].
    + by destruct Hr as [? _], Hr' as [_ ?].
  - destruct Hj' as [k|k k1' k2' Hs' Hj']; [by destruct (Hend _ _ k1 Hr')|]. pose proof (steps_up_functional _ _ _ _ _ Hs Hs') as <-. by eapply IH.
Qed.

Definition group_span (rec : GroupRecord) : Span := record_span (gr_packed_start rec) (gr_packed_end rec).

Definition view_entry_item `{CharTables} (v : IndexView) (uri : list Z) (e : DefEntry) (row : SymRow) : CallItem :=
  mkCallItem (item_name (sm_display (sw_meta row)) (de_symbol e)) (from_code (sm_kind (sw_meta row))) uri (de_span e) (de_symbol e).

(** The item a reference is a call from: not on an import line; the definition whose extent encloses it,
    else the file. *)
Definition called_from `{CharTables} (fs : Fs) (v : IndexView) (rec : GroupRecord) (item : CallItem) : Prop :=
  ∃ row r, zget (vw_docs v) (gr_doc_ord rec) = Some row ∧ view_import v fs row (start_line (group_span rec)) = false ∧
    let entries := doc_entries v row in let packed := pack_start (group_span rec) in
    climbs entries packed (last_before entries packed) r ∧
    match r with
    | Some i => ∃ e srow, entries !! i = Some e ∧ zget (vw_symbols v) (de_ord e) = Some srow ∧ item = view_entry_item v (dw_uri row) e srow
    | None => item = synthetic_file_item (dw_uri row)
    end.

Lemma pair_cmp_ok : cmp_ok pair_cmp (λ _, True).
Proof.
  split.
  - intros [a b] [c d] _ _. unfold pair_cmp. rewrite lex_cmp_eq. cbn. split; [by intros [= -> ->]|by intros [= -> ->]].
  - intros x y. apply lex_cmp_antisym.
  - intros x y z. apply lex_cmp_lt_trans.
Qed.

Lemma str_leb_lex a b : str_leb a b = lex_leb (byte_val <$> as_bytes a) (byte_val <$> as_bytes b).
Proof. done. Qed.

(** The order of edges: by uri, by position, by name. *)
Definition edge_uri (e : CallEdge) : list Z := byte_val <$> as_bytes (ci_uri (ce_item e)).
Definition edge_start (e : CallEdge) : list Z := take 2 (span_key (ci_span (ce_item e))).
Definition edge_name (e : CallEdge) : list Z := byte_val <$> as_bytes (ci_name (ce_item e)).

Lemma edge_leb_total a b : edge_leb a b = true ∨ edge_leb b a = true.
Proof.
  apply (then_total edge_uri (λ a b, then_leb (lex_cmp (edge_start a) (edge_start b)) (lex_leb (edge_name a) (edge_name b)))).
  apply (then_total edge_start (λ a b, lex_leb (edge_name a) (edge_name b))). intros. apply lex_leb_total.
Qed.
Lemma edge_leb_trans a b c : edge_leb a b = true → edge_leb b c = true → edge_leb a c = true.
Proof.
  apply (then_trans edge_uri (λ a b, then_leb (lex_cmp (edge_start a) (edge_start b)) (lex_leb (edge_name a) (edge_name b)))).
  apply (then_trans edge_start (λ a b, lex_leb (edge_name a) (edge_name b))). intros x y z. apply lex_leb_trans.
Qed.

(** ** Incoming calls *)

Section incoming.
Context `{CharTables} (s : SegmentReader) (v : IndexView) `{!Shows s v}.

(** What a reference is grouped under. *)
Definition view_caller (fs : Fs) (rec : GroupRecord) : option (Z * Z * Span) :=
  row ← zget (vw_docs v) (gr_doc_ord rec);
  if view_import v fs row (start_line (group_span rec)) then None else
  key ← caller_key (doc_entries v row) (group_span rec);
  Some (gr_doc_ord rec, key, group_span rec).

Definition view_item (e : Z * Z) : option CallItem :=
  row ← zget (vw_docs v) e.1;
  if 0 <=? e.2 then entry ← zget (doc_entries v row) e.2; srow ← zget (vw_symbols v) (de_ord entry); Some (view_entry_item v (dw_uri row) entry srow)
  else Some (synthetic_file_item (dw_uri row)).

Lemma doc_owners row : owners_ok (doc_entries v row).
Proof. intros e He. by apply doc_entries_ok in He as [? _]. Qed.

Lemma entry_item_shows d row e : zget (vw_docs v) d = Some row → e ∈ doc_entries v row →
  ∃ srow, zget (vw_symbols v) (de_ord e) = Some srow ∧ entry_item s d e = Some (view_entry_item v (dw_uri row) e srow).
Proof.
  intros Hrow He. apply doc_entries_ok in He as [_ Hord]. destruct (zget_is_Some _ _ Hord) as [srow Hsrow]. exists srow. split; [done|].
  destruct (sh_doc (s := s) d row Hrow) as (Huri & _). destruct (sh_symbol (s := s) _ _ Hsrow) as (_ & _ & _ & Hmeta & _).
  unfold entry_item. by rewrite Hmeta, Huri.
Qed.

Lemma caller_shows fs rec : group_record_in v rec → caller_of fs s rec = Some (view_caller fs rec) ∧
  (∀ e, view_caller fs rec = Some e → ∃ item, view_item e.1 = Some item ∧ incoming_edge s (e.1.1, e.1.2, [e.2]) = Some (mkCallEdge item (sort_spans [e.2])) ∧
     called_from fs v rec item ∧ e.2 = group_span rec) ∧
  (∀ item, called_from fs v rec item → ∃ e, view_caller fs rec = Some e ∧ view_item e.1 = Some item).
Proof.
  intros (Hd & _). destruct (zget_is_Some _ _ Hd) as [row Hrow]. unfold caller_of, view_caller. rewrite (as_u32_small _ _ Hd (docs_small s v)).
  fold (group_span rec). rewrite (is_import_line_shows s v fs _ _ _ Hrow), Hrow, (doc_entries_shows s v _ _ Hrow). cbn [mbind option_bind].
  destruct (view_import v fs row (start_line (group_span rec))) eqn:Eimp.
  { split; [done|]. split; [done|]. intros item (row' & r & Hr' & Hi & _). congruence. }
  unfold caller_key. destruct (enclosing_entry_climbs (doc_entries v row) (doc_owners row) (pack_start (group_span rec))) as (r & -> & Hr & Hin).
  cbn [mbind option_bind]. split; [done|].
  assert (∃ item, view_item (gr_doc_ord rec, match r with Some i => Z.of_nat i | None => -1 end) = Some item ∧
    (∀ spans, incoming_edge s (gr_doc_ord rec, match r with Some i => Z.of_nat i | None => -1 end, spans) = Some (mkCallEdge item (sort_spans spans))) ∧
    called_from fs v rec item) as (item & Hitem & Hedge & Hfrom).
  { unfold view_item, incoming_edge. rewrite (doc_entries_shows s v _ _ Hrow). cbn [fst snd]. rewrite Hrow. cbn [mbind option_bind]. destruct r as [i|].
    - destruct Hin as [e He]. destruct (Z.leb_spec 0 (Z.of_nat i)); [|lia]. rewrite zget_of_nat, He. cbn [mbind option_bind].
      destruct (entry_item_shows _ row e Hrow) as (srow & Hsrow & ->); [by eapply list_elem_of_lookup_2|]. rewrite Hsrow. cbn. eexists. split; [done|]. split; [done|].
      exists row, (Some i). split; [done|]. split; [done|]. split; [exact Hr|]. by exists e, srow.
    - destruct (Z.leb_spec 0 (-1)); [lia|]. destruct (sh_doc (s := s) _ row Hrow) as (-> & _). cbn. eexists. split; [done|]. split; [done|]. by exists row, None. }
  split.
  - intros e [= <-]. exists item. cbn [fst snd]. by split_and!.
  - intros item' (row' & r' & Hrow' & _ & Hr' & Hitem'). assert (row' = row) as -> by congruence. pose proof (climbs_functional _ _ _ _ _ Hr Hr') as <-.
    eexists. split; [done|]. cbn [fst snd]. rewrite Hitem. f_equal. unfold view_item in Hitem. cbn [fst snd] in Hitem. rewrite Hrow in Hitem. cbn [mbind option_bind] in Hitem.
    destruct r as [i|].
    + destruct (Z.leb_spec 0 (Z.of_nat i)); [|lia]. destruct Hitem' as (e & srow & He & Hsrow & ->). rewrite zget_of_nat, He in Hitem. cbn in Hitem. rewrite Hsrow in Hitem. by injection Hitem as <-.
    + destruct (Z.leb_spec 0 (-1)); [lia|]. rewrite Hitem'. by injection Hitem as <-.
Qed.

Lemma edges_of_groups fs recs : Forall (group_record_in v) recs →
  ∃ edges, mapM (incoming_edge s) (group_by pair_cmp (omap (view_caller fs) recs)) = Some edges ∧
    (∀ e, e ∈ edges → NoDup (ce_call_sites e) ∧ StronglySorted (λ a b, span_leb a b = true) (ce_call_sites e) ∧ ce_call_sites e ≠ []) ∧
    ∀ item span, (∃ e, e ∈ edges ∧ ce_item e = item ∧ span ∈ ce_call_sites e) ↔ ∃ rec, rec ∈ recs ∧ called_from fs v rec item ∧ span = group_span rec.
Proof.
  intros Hrecs. rewrite Forall_forall in Hrecs. set (refs := omap (view_caller fs) recs).
  assert (Forall (λ _ : Z * Z * Span, True) refs) as HT by by apply Forall_true.
  destruct (group_by_exact pair_cmp (λ _, True) pair_cmp_ok refs HT) as (_ & _ & Hval & _ & Hkeys).
  pose proof (λ k w, elem_of_group_by pair_cmp (λ _, True) pair_cmp_ok refs k w HT) as Hmem. set (groups := group_by pair_cmp refs) in *.
  assert (∀ k sp, (k, sp) ∈ refs ↔ ∃ rec, rec ∈ recs ∧ view_caller fs rec = Some (k, sp)) as Hrefs by (intros; apply list_elem_of_omap).
  assert (∀ g, g ∈ groups → ∃ item, view_item g.1 = Some item ∧ incoming_edge s g = Some (mkCallEdge item (sort_spans g.2)) ∧ g.2 ≠ []) as Hedge.
  { intros [[d key] sps] Hg. cbn. assert ((d, key) ∈ fst <$> refs) as ([k' sp] & Ek & Hin)%list_elem_of_fmap by (apply Hkeys; by apply (list_elem_of_fmap_2 fst _ (d, key, sps))).
    cbn in Ek. subst k'. pose proof Hin as (rec & Hrec & Hc)%Hrefs. destruct (caller_shows fs rec (Hrecs rec Hrec)) as (_ & Hto & _).
    destruct (Hto _ Hc) as (item & Hi & He & _). exists item. split; [done|]. split.
    - unfold incoming_edge in *. cbn [fst snd] in *. destruct (if 0 <=? key then _ else _) as [it|]; [|done]. cbn in *. by injection He as ->.
    - pose proof (Hval _ Hg) as E. cbn in E. apply (elem_of_pushed pair_cmp (λ _, True) pair_cmp_ok refs (d, key) sp I HT) in Hin. rewrite E. by intros E0; rewrite E0 in Hin; apply not_elem_of_nil in Hin. }
  destruct (mapM_is_Some_2 (incoming_edge s) groups) as [edges Hedges]; [apply Forall_forall; intros g Hg; destruct (Hedge g Hg) as (item & _ & Eg & _); by exists (mkCallEdge item (sort_spans g.2))|].
  exists edges. split; [done|]. apply mapM_Some in Hedges.
  assert (∀ e, e ∈ edges ↔ ∃ g item, g ∈ groups ∧ view_item g.1 = Some item ∧ e = mkCallEdge item (sort_spans g.2)) as Hedges'.
  { intros e. split.
    - intros [i Hi]%list_elem_of_lookup. destruct (Forall2_lookup_r _ _ _ _ _ Hedges Hi) as (g & Hg & He). apply list_elem_of_lookup_2 in Hg.
      destruct (Hedge g Hg) as (item & Hitem & He' & _). exists g, item. split_and!; [done..|congruence].
    - intros (g & item & Hg & Hitem & ->). destruct (Hedge g Hg) as (item' & Hitem' & He & _). assert (item' = item) as -> by congruence.
      apply list_elem_of_lookup in Hg as [i Hi]. destruct (Forall2_lookup_l _ _ _ _ _ Hedges Hi) as (e & He' & E). assert (e = mkCallEdge item (sort_spans g.2)) as <- by congruence.
      by eapply list_elem_of_lookup_2. }
  split.
  - intros e (g & item & Hg & _ & ->)%Hedges'. cbn. destruct (sort_spans_exact g.2) as (Hnd & Hss & Hiff). split_and!; [done..|].
    destruct (Hedge g Hg) as (_ & _ & _ & Hne). destruct g.2 as [|sp sps]; [done|]. intros E. assert (sp ∈ sort_spans (sp :: sps)) as Hin by (apply Hiff; left).
    rewrite E in Hin. by apply not_elem_of_nil in Hin.
  - intros item span. split.
    + intros (e & (g & item' & Hg & Hitem & ->)%Hedges' & <- & Hspan). cbn in *. destruct (sort_spans_exact g.2) as (_ & _ & Hiff). apply Hiff in Hspan.
      assert ((g.1, span) ∈ refs) as (rec & Hrec & Hc)%Hrefs by (apply Hmem; exists g.2; split; [by destruct g|done]).
      destruct (caller_shows fs rec (Hrecs rec Hrec)) as (_ & Hto & _). destruct (Hto _ Hc) as (it & Hi & _ & Hfrom & Hsp). cbn in *. exists rec. split_and!; [done|congruence|done].
    + intros (rec & Hrec & Hfrom & ->). destruct (caller_shows fs rec (Hrecs rec Hrec)) as (_ & Hto & Hof). destruct (Hof item Hfrom) as ([k sp] & Hc & Hitem). cbn in Hitem.
      destruct (Hto _ Hc) as (_ & _ & _ & _ & Esp). cbn in Esp. subst sp. assert ((k, group_span rec) ∈ refs) as (vs & Hvs & Hin)%Hmem by (apply Hrefs; by exists rec).
      exists (mkCallEdge item (sort_spans vs)). split; [apply Hedges'; by exists (k, vs), item|]. split; [done|]. cbn. by apply sort_spans_exact.
Qed.
End incoming.

(** ** Items and callees *)

Section items.
Context `{CharTables} (s : SegmentReader) (v : IndexView) `{!Shows s v}.

Lemma global_group_shows sym : wf_str sym → global_group s sym =
  Some (i ← view_symbol v sym; row ← zget (vw_symbols v) i; if sv_ref_group_ord (sw_view row) <? 0 then None else Some (i, sv_ref_group_ord (sw_view row))).
Proof.
  intros Hwf. unfold global_group. change (SymbolEncoding.encode sym None) with sym. rewrite (find_symbol_shows s v _ Hwf). cbn [mbind option_bind].
  pose proof (view_symbol_exact v sym) as Hi. destruct (view_symbol v sym) as [i|]; [|done]. destruct Hi as (row & Hrow & _). cbn [mbind option_bind]. rewrite Hrow.
  destruct (sh_symbol (s := s) _ _ Hrow) as (_ & _ & -> & _ & (Hg & _)). cbn. destruct (Z.ltb_spec (sv_ref_group_ord (sw_view row)) 0); [done|].
  destruct Hg as [|Hg]; [lia|]. by rewrite (as_u32_small _ _ Hg (refs_small s v)).
Qed.

(** The item at a symbol's recorded definition. *)
Definition view_definition (row : SymRow) : option CallItem :=
  match (SymbolEncoding.decode (sw_symbol row)).2 with
  | Some _ => None
  | None =>
      drow ← zget (vw_docs v) (def_doc_ord (sw_meta row));
      let raw := (SymbolEncoding.decode (sw_symbol row)).1 in
      Some (mkCallItem (item_name (sm_display (sw_meta row)) raw) (from_code (sm_kind (sw_meta row))) (dw_uri drow)
              (record_span (def_packed_start (sw_meta row)) (def_packed_end (sw_meta row))) raw)
  end.

Lemma definition_item_shows i row : zget (vw_symbols v) i = Some row → definition_item s i = Some (view_definition row).
Proof.
  intros Hrow. destruct (sh_symbol (s := s) _ _ Hrow) as (Hsym & _ & _ & Hmeta & (_ & _ & _ & Hd)). unfold definition_item, view_definition. rewrite Hmeta, Hsym. cbn [mbind option_bind].
  destruct (SymbolEncoding.decode (sw_symbol row)) as [raw [dd|]]; cbn [fst snd]; destruct (Z.ltb_spec (def_doc_ord (sw_meta row)) 0) as [Hneg|Hpos]; try done.
  - destruct (zget (vw_docs v) _) eqn:E; [|done]. apply zget_Some_lt in E. lia.
  - destruct Hd as [|Hd]; [lia|]. rewrite (as_u32_small _ _ Hd (docs_small s v)). destruct (zget_is_Some _ _ Hd) as [drow Hdrow]. rewrite Hdrow.
    by destruct (sh_doc (s := s) _ _ Hdrow) as (-> & _).
Qed.

(** A callable symbol of the index, with its item. *)
Definition callable_item (item : CallItem) : Prop :=
  ∃ i row, zget (vw_symbols v) i = Some row ∧ (SymbolEncoding.decode (sw_symbol row)).1 = ci_symbol item ∧ is_callable (ci_symbol item) (sm_kind (sw_meta row)) = true.

Lemma view_entry_symbol rec e : view_entry v rec = Some e → ∃ row, zget (vw_symbols v) (de_ord e) = Some row ∧ (SymbolEncoding.decode (sw_symbol row)).1 = de_symbol e.
Proof.
  unfold view_entry. destruct (negb _); [done|]. destruct (zget (vw_symbols v) _) as [row|] eqn:E; [|done]. cbn.
  destruct (SymbolEncoding.decode (sw_symbol row)) as [raw [d|]] eqn:Ed; [done|]. destruct (outlined raw); [|done]. intros [= <-]. exists row. cbn. by rewrite Ed.
Qed.

Lemma doc_entries_symbol row e : e ∈ doc_entries v row → ∃ srow, zget (vw_symbols v) (de_ord e) = Some srow ∧ (SymbolEncoding.decode (sw_symbol srow)).1 = de_symbol e.
Proof.
  unfold doc_entries. rewrite elem_of_sort_by. intros He. apply (proj1 (proj2 (keep_first_exact _ _))) in He. apply list_elem_of_omap in He as (rec & _ & He).
  by eapply view_entry_symbol.
Qed.

(** The walk to the nearest callable owner ends. *)
Lemma callable_loop_ends d row fuel at_ : zget (vw_docs v) d = Some row →
  match at_ with Some i => ∃ e, doc_entries v row !! i = Some e ∧ (weight (de_symbol e) < fuel)%nat | None => True end →
  ∃ item, callable_loop fuel s d (doc_entries v row) at_ = Some item ∧ match item with Some item => callable_item item | None => True end.
Proof.
  intros Hrow. revert at_. induction fuel as [|fuel IH]; intros [i|] Hat; [destruct Hat as (e & _ & ?); lia|by exists None| |by exists None].
  destruct Hat as (e & He & Hw). cbn [callable_loop]. rewrite He. cbn [mbind option_bind]. apply list_elem_of_lookup_2 in He.
  destruct (doc_entries_symbol row e He) as (srow & Hsrow & Hsym). destruct (sh_symbol (s := s) _ _ Hsrow) as (_ & _ & _ & -> & _). cbn [mbind option_bind].
  destruct (is_callable (de_symbol e) (sm_kind (sw_meta srow))) eqn:Ec.
  - destruct (entry_item_shows s v d row e Hrow He) as (srow' & _ & ->). eexists. split; [done|]. cbn. by exists (de_ord e), srow.
  - apply IH. destruct (owner_entry_index (doc_entries v row) e) as [up|] eqn:Eup; [|done].
    destruct (owner_entry_above _ (doc_owners v row) e up He Eup) as (e' & He' & Hlt). exists e'. split; [done|lia].
Qed.

Lemma enclosing_callable_ends uri span : ∃ item, enclosing_callable s uri span = Some item ∧ match item with Some item => callable_item item | None => True end.
Proof.
  unfold enclosing_callable. rewrite (doc_ord_of_shows _ v). cbn [mbind option_bind]. pose proof (view_doc_exact v uri) as Hd. destruct (view_doc v uri) as [d|]; [|by exists None].
  destruct Hd as (row & Hrow & _). rewrite (doc_entries_shows s v _ _ Hrow). cbn [mbind option_bind].
  destruct (enclosing_entry_climbs (doc_entries v row) (doc_owners v row) (pack_start span)) as (r & -> & _ & Hr). cbn [mbind option_bind].
  apply callable_loop_ends; [done|]. destruct r as [i|]; [|done]. destruct Hr as [e He]. exists e. split; [done|]. by eapply climb_fuel_enough.
Qed.

Lemma prepare_item_ends uri cursor : wf_str (cs_semantic_symbol cursor) → (cursor_is_local cursor = false → (SymbolEncoding.decode (cs_semantic_symbol cursor)) = (cs_semantic_symbol cursor, None)) →
  ∃ item, prepare_item s uri cursor = Some item ∧ match item with Some item => callable_item item | None => True end.
Proof.
  intros Hwf Hraw. unfold prepare_item. destruct (cursor_is_local cursor); [apply enclosing_callable_ends|]. specialize (Hraw eq_refl).
  change (SymbolEncoding.encode (cs_semantic_symbol cursor) None) with (cs_semantic_symbol cursor). rewrite (find_symbol_shows s v _ Hwf). cbn [mbind option_bind].
  pose proof (view_symbol_exact v (cs_semantic_symbol cursor)) as Hi. destruct (view_symbol v _) as [i|]; [|by exists None]. destruct Hi as (row & Hrow & Hsym).
  destruct (sh_symbol (s := s) _ _ Hrow) as (_ & _ & _ & Hmeta & _). rewrite Hmeta. cbn [mbind option_bind]. destruct (is_callable _ _) eqn:Ec; [|apply enclosing_callable_ends].
  rewrite (definition_item_shows i row Hrow). eexists. split; [done|]. unfold view_definition. rewrite Hsym, Hraw. cbn [fst snd].
  destruct (zget (vw_docs v) _) as [drow|]; [|done]. cbn. exists i, row. rewrite Hsym, Hraw. done.
Qed.

(** A reference inside an extent that may be a call, with its target. *)
Definition view_callee (fs : Fs) (drow : DocRow) (extent_start extent_end : Z) (rec : DocRecord) : option (Z * Span) :=
  if has (as_u32 (dr_flags rec)) OCC_DEFINITION then None else
  let ps := as_u32 (dr_packed_start rec) in
  if (ps <? extent_start) || (extent_end <=? ps) then None else
  let span := record_span (dr_packed_start rec) (dr_packed_end rec) in
  if view_import v fs drow (start_line span) then None else
  row ← zget (vw_symbols v) (dr_symbol_ord rec);
  match (SymbolEncoding.decode (sw_symbol row)).2, outlined (SymbolEncoding.decode (sw_symbol row)).1 with
  | None, Some _ => Some (dr_symbol_ord rec, span)
  | _, _ => None
  end.

Lemma callee_shows fs d drow a b rec : zget (vw_docs v) d = Some drow → doc_record_in v rec → callee_of fs s d a b rec = Some (view_callee fs drow a b rec).
Proof.
  intros Hrow [Hord _]. unfold callee_of, view_callee. destruct (has _ _); [done|]. destruct (_ || _); [done|].
  rewrite (is_import_line_shows s v fs _ _ _ Hrow). cbn [mbind option_bind]. destruct (view_import _ _ _ _); [done|].
  rewrite (as_u32_small _ _ Hord (symbols_small s v)). destruct (zget_is_Some _ _ Hord) as [row Hsrow]. destruct (sh_symbol (s := s) _ _ Hsrow) as (-> & _).
  rewrite Hsrow. cbn. destruct (SymbolEncoding.decode (sw_symbol row)) as [raw [dd|]]; cbn; [done|]. by destruct (outlined raw).
Qed.

Lemma z_cmp_ok : cmp_ok Z.compare (λ _, True).
Proof.
  split.
  - intros x y _ _. apply Z.compare_eq_iff.
  - intros x y. apply Z.compare_antisym.
  - intros x y z. rewrite !Z.compare_lt_iff. lia.
Qed.

(** The edges of callees: a reference at the site of its target's item, when the target has one. *)
Lemma callee_edges refs : Forall (λ e : Z * Span, 0 ≤ e.1 < zlen (vw_symbols v)) refs →
  ∃ edges, filter_mapM (outgoing_edge s) (group_by Z.compare refs) = Some edges ∧
    ∀ item span, (∃ e, e ∈ edges ∧ ce_item e = item ∧ span ∈ ce_call_sites e) ↔
      ∃ i row, (i, span) ∈ refs ∧ zget (vw_symbols v) i = Some row ∧ view_definition row = Some item.
Proof.
  intros Hrefs. rewrite Forall_forall in Hrefs. assert (Forall (λ _ : Z * Span, True) refs) as HT by by apply Forall_true.
  destruct (group_by_exact Z.compare (λ _, True) z_cmp_ok refs HT) as (_ & _ & _ & _ & Hkeys).
  pose proof (λ k w, elem_of_group_by Z.compare (λ _, True) z_cmp_ok refs k w HT) as Hmem. set (groups := group_by Z.compare refs) in *.
  set (edge (g : Z * list Span) := row ← zget (vw_symbols v) g.1; item ← view_definition row; Some (mkCallEdge item (sort_spans g.2))).
  exists (omap edge groups). split.
  { apply filter_mapM_total. intros g Hg. assert (g.1 ∈ fst <$> refs) as (e & E & He)%list_elem_of_fmap by (by apply Hkeys, list_elem_of_fmap_2).
    specialize (Hrefs e He). rewrite <- E in Hrefs. destruct (zget_is_Some _ _ Hrefs) as [row Hrow]. unfold outgoing_edge, edge. rewrite (definition_item_shows _ row Hrow), Hrow.
    cbn. by destruct (view_definition row). }
  intros item span. setoid_rewrite list_elem_of_omap. split.
  - intros (e & (g & Hg & He) & <- & Hspan). unfold edge in He. destruct (zget (vw_symbols v) g.1) as [row|] eqn:Erow; [|done]. cbn in He.
    destruct (view_definition row) as [it|] eqn:Ed; [|done]. injection He as <-. cbn in *. exists g.1, row. split; [|done]. apply Hmem. exists g.2. split; [by destruct g|].
    by apply sort_spans_exact.
  - intros (i & row & Hin & Hrow & Hd). apply Hmem in Hin as (vs & Hg & Hspan). exists (mkCallEdge item (sort_spans vs)). split; [|split; [done|]].
    + exists (i, vs). split; [done|]. unfold edge. cbn. rewrite Hrow. cbn. by rewrite Hd.
    + cbn. by apply sort_spans_exact.
Qed.

(** The extent of a definition: from its name to the next definition that is not inside it. *)
Definition extent_end (entries : list DefEntry) (pos : nat) (e : DefEntry) : Z :=
  default u32_max (de_start <$> List.find (λ e', negb (is_descendant e' (de_symbol e))) (drop (S pos) entries)).

Lemma outgoing_shows fs o snap sym : current_snapshot o = Some snap → sn_segment snap = s → wf_str sym → sym ≠ [] → is_local sym = false →
  ∃ edges, outgoing_calls fs o sym = Some (sort_edges edges) ∧
    ∀ item span, (∃ e, e ∈ edges ∧ ce_item e = item ∧ span ∈ ce_call_sites e) ↔
      ∃ i row drow pos e rec j target, view_symbol v sym = Some i ∧ zget (vw_symbols v) i = Some row ∧ zget (vw_docs v) (def_doc_ord (sw_meta row)) = Some drow ∧
        entry_of_symbol (doc_entries v drow) sym = Some pos ∧ doc_entries v drow !! pos = Some e ∧ rec ∈ dw_records drow ∧
        view_callee fs drow (de_start e) (extent_end (doc_entries v drow) pos e) rec = Some (j, span) ∧ zget (vw_symbols v) j = Some target ∧ view_definition target = Some item.
Proof.
  intros Hcur Hs Hwf Hne Hloc. unfold outgoing_calls. rewrite bool_decide_false, Hloc, Hcur, Hs by done. cbn [orb]. change (SymbolEncoding.encode sym None) with sym.
  rewrite (find_symbol_shows s v _ Hwf). cbn [mbind option_bind]. pose proof (view_symbol_exact v sym) as Hi.
  assert (∀ P : CallItem → Span → Prop, (∀ item span, ¬ P item span) → ∃ edges, Some [] = Some (sort_edges edges) ∧
    ∀ item span, (∃ e, e ∈ edges ∧ ce_item e = item ∧ span ∈ ce_call_sites e) ↔ P item span) as Hnone.
  { intros P HP. exists []. split; [done|]. intros item span. split; [by intros (e & ?%not_elem_of_nil & _)|]. by intros ?%HP. }
  destruct (view_symbol v sym) as [i|] eqn:Ei; [|by apply Hnone; intros item span (? & ? & ? & ? & ? & ? & ? & ? & ? & _)].
  destruct Hi as (row & Hrow & _). destruct (sh_symbol (s := s) _ _ Hrow) as (_ & _ & _ & Hmeta & (_ & _ & _ & Hdd)). rewrite Hmeta. cbn [mbind option_bind].
  destruct (Z.ltb_spec (def_doc_ord (sw_meta row)) 0) as [Hneg|Hpos].
  { apply Hnone. intros item span (i' & row' & drow & ? & ? & ? & ? & ? & [= <-] & Hr & Hdr & _). assert (row' = row) as -> by congruence. apply zget_Some_lt in Hdr. lia. }
  destruct Hdd as [|Hdd]; [lia|]. rewrite (as_u32_small _ _ Hdd (docs_small s v)). destruct (zget_is_Some _ _ Hdd) as [drow Hdrow]. rewrite (doc_entries_shows s v _ _ Hdrow).
  cbn [mbind option_bind]. destruct (entry_of_symbol (doc_entries v drow) sym) as [pos|] eqn:Epos.
  2: { apply Hnone. intros item span (i' & row' & drow' & ? & ? & ? & ? & ? & [= <-] & Hr & Hdr & Hp & _). assert (row' = row) as -> by congruence. congruence. }
  pose proof Epos as (e & He & _)%position_Some. unfold successor_start. rewrite He. cbn [mbind option_bind]. fold (extent_end (doc_entries v drow) pos e).
  destruct (sh_doc (s := s) _ _ Hdrow) as (_ & _ & _ & Hscan & Hrecs & _). rewrite Hscan. cbn [mbind option_bind]. rewrite Forall_forall in Hrecs.
  rewrite (filter_mapM_total _ (view_callee fs drow (de_start e) (extent_end (doc_entries v drow) pos e))) by (intros rec Hrec; apply callee_shows; auto).
  cbn [mbind option_bind]. destruct (callee_edges (omap (view_callee fs drow (de_start e) (extent_end (doc_entries v drow) pos e)) (dw_records drow))) as (edges & -> & Hedges).
  { apply Forall_forall. intros [j sp] (rec & Hrec & Hc)%list_elem_of_omap. unfold view_callee in Hc. destruct (has _ _); [done|]. destruct (_ || _); [done|].
    destruct (view_import _ _ _ _); [done|]. destruct (zget (vw_symbols v) (dr_symbol_ord rec)) as [tr|]; [|done]. cbn in Hc. destruct (SymbolEncoding.decode (sw_symbol tr)) as [raw [dd|]]; cbn in Hc; [done|].
    destruct (outlined raw); [|done]. injection Hc as <- _. cbn. by apply (Hrecs rec Hrec). }
  cbn [mbind option_bind]. exists edges. split; [done|]. intros item span. rewrite Hedges. split.
  - intros (j & target & (rec & Hrec & Hc)%list_elem_of_omap & Ht & Hd). exists i, row, drow, pos, e, rec, j, target. done.
  - intros (i' & row' & drow' & pos' & e' & rec & j & target & [= <-] & Hr & Hdr & Hp & He' & Hrec & Hc & Ht & Hd).
    assert (row' = row) as -> by congruence. assert (drow' = drow) as -> by congruence. assert (pos' = pos) as -> by congruence. assert (e' = e) as -> by congruence.
    exists j, target. split_and!; [|done..]. apply list_elem_of_omap. by exists rec.
Qed.
End items.

(** ** The properties *)

(** An edge has a call to or from [item] at [span]. *)
Definition has_call (edges : list CallEdge) (item : CallItem) (span : Span) : Prop := ∃ e, e ∈ edges ∧ ce_item e = item ∧ span ∈ ce_call_sites e.
Definition edges_sorted (edges : list CallEdge) : Prop := StronglySorted (λ a b, edge_leb a b = true) edges.

Lemma sort_edges_exact edges : edges_sorted (sort_edges edges) ∧ ∀ e, e ∈ sort_edges edges ↔ e ∈ edges.
Proof.
  split; [|intros; apply elem_of_sort_by]. apply (sort_by_sorted edge_leb); intros; [apply edge_leb_total|by eapply edge_leb_trans].
Qed.
Lemma has_call_sorted edges item span : has_call (sort_edges edges) item span ↔ has_call edges item span.
Proof. unfold has_call. by setoid_rewrite (proj2 (sort_edges_exact edges)). Qed.

(** A reference of the symbol's group, with the item it is in. *)
Definition incoming_at `{CharTables} (fs : Fs) (v : IndexView) (sym : list Z) (item : CallItem) (span : Span) : Prop :=
  ∃ i row rec, view_symbol v sym = Some i ∧ zget (vw_symbols v) i = Some row ∧ rec ∈ group_of (vw_refs v) (sv_ref_group_ord (sw_view row)) ∧
    called_from fs v rec item ∧ span = group_span rec.

(** A reference inside the extent of the symbol's definition, with the item of its target. *)
Definition outgoing_at `{CharTables} (fs : Fs) (v : IndexView) (sym : list Z) (item : CallItem) (span : Span) : Prop :=
  ∃ i row drow pos e rec j target, view_symbol v sym = Some i ∧ zget (vw_symbols v) i = Some row ∧ zget (vw_docs v) (def_doc_ord (sw_meta row)) = Some drow ∧
    entry_of_symbol (doc_entries v drow) sym = Some pos ∧ doc_entries v drow !! pos = Some e ∧ rec ∈ dw_records drow ∧
    view_callee v fs drow (de_start e) (extent_end (doc_entries v drow) pos e) rec = Some (j, span) ∧ zget (vw_symbols v) j = Some target ∧ view_definition v target = Some item.


(** Preparing an item always ends, and an item it answers is a callable symbol of the index. *)
Lemma prepare_item_callable `{CharTables} s v `{!Shows s v} uri cursor :
  wf_str (cs_semantic_symbol cursor) → (cursor_is_local cursor = false → SymbolEncoding.decode (cs_semantic_symbol cursor) = (cs_semantic_symbol cursor, None)) →
  ∃ item, prepare_item s uri cursor = Some item ∧ match item with Some item => callable_item v item | None => True end.
Proof. apply (prepare_item_ends s v). Qed.

(** On the example: [m] is called from the object [B], whose line the call is on. *)
Definition ex_caller : CallItem := mkCallItem (lit "B") (from_code 10) (lit "b.scala") (mkSpan 0 7 0 8) (lit "_empty_/B.").

