(* ===== verification/OutlineExact.v ===== *)
(** The outline of a document: the arena that the code fills and then empties is the tree of the
    document's definitions, each under its nearest enclosing one, and no definition is lost. *)

From stdpp Require Import gmap.
From S2P Require Import Prelude RustStr IndexModel Bitset SdbSymbols SdbProfile StoreFormat SegReader SegSafe SegScan FileSystem Snapshot SymbolEncoding Orchestrator SymbolQueries Outline References CallHierarchy QueryView IndexView QueryExample SegExample StoreExample ReferencesExact CallsExact.

Open Scope Z_scope.

(** ** The specification *)

(** A definition: its symbol and its entry, without children. *)
Abbreviation Def := (list Z * DocSymbolEntry)%type.

Section spec.
Context `{CharTables}.

Definition index_in (l : list Def) (sym : list Z) : option nat := position (λ e, str_eqb e.1 sym) l.

(** The nearest enclosing definition among those before. *)
Definition parent (l : list Def) (k : nat) : option nat := e ← l !! k; nearest (index_in (take k l)) e.1.

Definition children_of (l : list Def) (k : nat) : list nat := List.filter (λ j, bool_decide (parent l j = Some k)) (seq 0 (length l)).
Definition roots_of (l : list Def) : list nat := List.filter (λ j, bool_decide (parent l j = None)) (seq 0 (length l)).

Definition with_children (e : DocSymbolEntry) (cs : list DocSymbolEntry) : DocSymbolEntry := mkDocSymbol (ds_name e) (ds_kind e) (ds_span e) cs.

(** The tree under a definition; a child comes later than its parent, so the definitions left are fuel. *)
Fixpoint tree (fuel : nat) (l : list Def) (k : nat) : DocSymbolEntry :=
  match fuel, l !! k with
  | S fuel, Some e => with_children e.2 (tree fuel l <$> children_of l k)
  | _, _ => taken_entry
  end.
Definition outline_spec (l : list Def) : list DocSymbolEntry := tree (length l) l <$> roots_of l.

(** The definitions of a tree. *)
Fixpoint flatten (e : DocSymbolEntry) : list (list Z * SymKind * Span) :=
  (ds_name e, ds_kind e, ds_span e) :: concat (map flatten (ds_children e)).

(** The definition of a record: of a global symbol that has a node. *)
Definition view_def (v : IndexView) (rec : DocRecord) : option Def :=
  if negb (has (as_u32 (dr_flags rec)) OCC_DEFINITION) then None else
  row ← zget (vw_symbols v) (dr_symbol_ord rec);
  let '(raw, local) := SymbolEncoding.decode (sw_symbol row) in
  match local, outlined raw with
  | None, Some d =>
      Some (raw, mkDocSymbol (if bool_decide (sm_display (sw_meta row) = []) then descriptor_name d else sm_display (sw_meta row))
                   (from_code (sm_kind (sw_meta row))) (record_span (dr_packed_start rec) (dr_packed_end rec)) [])
  | _, _ => None
  end.
Definition doc_defs (v : IndexView) (row : DocRow) : list Def := keep_first fst (omap (view_def v) (dw_records row)).

(** ** Lemmas: parents *)

Lemma nearest_index l sym p : nearest (index_in l) sym = Some p → (p < length l)%nat.
Proof.
  intros (a & _ & Hp)%first_some_Some. unfold node_or_companion, index_in in Hp. destruct (position (λ e, str_eqb e.1 a) l) as [i|] eqn:E.
  - injection Hp as ->. by apply position_lt in E.
  - destruct (companion a); [|done]. by apply position_lt in Hp.
Qed.

Lemma parent_lt l k p : parent l k = Some p → (p < k)%nat.
Proof. unfold parent. destruct (l !! k) as [e|] eqn:E; [|done]. intros Hp%nearest_index. rewrite length_take in Hp. lia. Qed.

Lemma parent_snoc l x k : (k < length l)%nat → parent (l ++ [x]) k = parent l k.
Proof. intros Hk. unfold parent. rewrite lookup_app_l by done. by rewrite take_app_le by lia. Qed.

Lemma elem_of_children l k c : c ∈ children_of l k ↔ parent l c = Some k ∧ (c < length l)%nat.
Proof. unfold children_of. rewrite elem_of_filter_bool, bool_decide_eq_true, elem_of_seq. split; intros [? ?]; (split; [done|lia]). Qed.
Lemma elem_of_roots l c : c ∈ roots_of l ↔ parent l c = None ∧ (c < length l)%nat.
Proof. unfold roots_of. rewrite elem_of_filter_bool, bool_decide_eq_true, elem_of_seq. split; intros [? ?]; (split; [done|lia]). Qed.
Lemma NoDup_filter_bool {A : Type} (f : A → bool) l : NoDup l → NoDup (List.filter f l).
Proof. intros Hl. apply NoDup_ListNoDup, List.NoDup_filter, NoDup_ListNoDup, Hl. Qed.

Lemma tree_fuel fuel fuel' l k : (length l - k ≤ fuel)%nat → (length l - k ≤ fuel')%nat → tree fuel l k = tree fuel' l k.
Proof.
  revert fuel' k. induction fuel as [|fuel IH]; intros fuel' k Hf Hf'.
  - destruct fuel' as [|fuel']; [done|]. cbn [tree]. assert (l !! k = None) as -> by (apply lookup_ge_None; lia). done.
  - destruct fuel' as [|fuel']; cbn [tree]; (destruct (l !! k) as [e|] eqn:E; [apply lookup_lt_Some in E as Hlt|done]); [lia|]. f_equal.
    apply list_fmap_ext. intros i c Hc%list_elem_of_lookup_2%elem_of_children. destruct Hc as [Hp Hc]. apply parent_lt in Hp. apply IH; lia.
Qed.

Lemma tree_eq l k e : l !! k = Some e → tree (length l) l k = with_children e.2 (tree (length l) l <$> children_of l k).
Proof.
  intros E. transitivity (tree (S (length l)) l k); [apply tree_fuel; lia|]. cbn [tree]. by rewrite E.
Qed.

(** No definition is lost: the trees hold each of them once. *)
Definition def_key (e : Def) : list Z * SymKind * Span := (ds_name e.2, ds_kind e.2, ds_span e.2).
Definition above (l : list Def) (k : nat) (j : nat) : bool := match parent l j with Some p => bool_decide (p < k)%nat | None => true end.

Lemma filter_nothing {A : Type} (f : A → bool) (l : list A) : (∀ x, x ∈ l → f x = false) → List.filter f l = [].
Proof. induction l as [|x l IH]; intros Hf; [done|]. cbn. rewrite Hf by left. apply IH. intros y Hy. apply Hf. by right. Qed.

Lemma filter_split {A : Type} (f g : A → bool) (l : list A) :
  (∀ x, f x = true → g x = true) → List.filter g l ≡ₚ List.filter f l ++ List.filter (λ x, g x && negb (f x)) l.
Proof.
  intros Hfg. induction l as [|x l IH]; [done|]. cbn. pose proof (Hfg x) as Hx. destruct (f x), (g x); cbn; rewrite IH; try done; [by specialize (Hx eq_refl)|].
  apply Permutation_middle.
Qed.

Lemma flatten_from l d : (d ≤ length l)%nat →
  concat (flatten ∘ tree (length l) l <$> List.filter (above l (length l - d)) (seq (length l - d) d)) ≡ₚ def_key <$> drop (length l - d) l.
Proof.
  induction d as [|d IH]; intros Hd; [by rewrite Nat.sub_0_r, drop_ge|]. set (k := (length l - S d)%nat). specialize (IH ltac:(lia)).
  replace (length l - d)%nat with (S k) in IH by lia. destruct (lookup_lt_is_Some_2 l k ltac:(lia)) as [e He]. rewrite (drop_S l e k He). cbn [seq].
  assert (above l k k = true) as Hk by (unfold above; destruct (parent l k) as [p|] eqn:Ep; [apply parent_lt in Ep; by apply bool_decide_eq_true|done]).
  cbn [List.filter]. rewrite Hk. cbn [fmap list_fmap concat]. unfold compose at 1. rewrite (tree_eq l k e He). cbn [flatten with_children ds_children ds_name ds_kind ds_span].
  apply Permutation_skip. rewrite <- IH. rewrite (filter_split (above l k) (above l (S k))).
  2: { intros j. unfold above. destruct (parent l j); [|done]. rewrite !bool_decide_eq_true. lia. }
  rewrite fmap_app, concat_app. etrans; [apply Permutation_app_comm|]. apply Permutation_app; [done|]. apply reflexive_eq. f_equal.
  change (map flatten (tree (length l) l <$> children_of l k)) with (flatten <$> (tree (length l) l <$> children_of l k)). rewrite <- list_fmap_compose. f_equal.
  unfold children_of. replace (length l) with (S k + d)%nat at 1 by lia. rewrite seq_app, List.filter_app.
  assert (List.filter (λ j, bool_decide (parent l j = Some k)) (seq 0 (S k)) = []) as ->.
  { apply filter_nothing. intros j Hj%elem_of_seq. apply bool_decide_eq_false. intros Hp%parent_lt. lia. }
  cbn [app]. rewrite Nat.add_0_l. apply filter_ext_elem. intros j _. unfold above. destruct (parent l j) as [p|]; [|done].
  destruct (Nat.lt_trichotomy p k) as [?|[->|?]].
  - rewrite (bool_decide_true (p < k)%nat), andb_false_r by done. apply bool_decide_eq_false. intros [= ->]. lia.
  - rewrite (bool_decide_true (k < S k)%nat), (bool_decide_false (k < k)%nat) by lia. by apply bool_decide_eq_true.
  - rewrite (bool_decide_false (p < S k)%nat) by lia. apply bool_decide_eq_false. intros [= ->]. lia.
Qed.

Lemma outline_spec_complete l : concat (flatten <$> outline_spec l) ≡ₚ def_key <$> l.
Proof.
  pose proof (flatten_from l (length l) (le_n _)) as Hall. rewrite Nat.sub_diag in Hall. rewrite drop_0 in Hall. rewrite <- Hall. unfold outline_spec. rewrite <- list_fmap_compose.
  apply reflexive_eq. f_equal. f_equal. unfold roots_of. apply filter_ext_elem. intros j _. unfold above. destruct (parent l j); [|by rewrite bool_decide_true].
  rewrite (bool_decide_false (_ < 0)%nat) by lia. by apply bool_decide_eq_false.
Qed.
End spec.

(** ** Filling the arena *)

Section arena.
Context `{CharTables}.

Definition node_at (l : list Def) (k : nat) (e : Def) : OutlineNode := mkNode e.2 (children_of l k).

(** The arena of the definitions so far. *)
Record arena_ok (l : list Def) (a : Arena) : Prop := {
  ao_distinct : NoDup l.*1;
  ao_bare : Forall (λ e, ds_children e.2 = []) l;
  ao_length : length (ar_nodes a) = length l;
  ao_nodes k e : l !! k = Some e → ar_nodes a !! k = Some (node_at l k e);
  ao_index sym : ar_node_of a !! sym = index_in l sym;
  ao_roots : ar_roots a = roots_of l
}.

Lemma arena_new_ok : arena_ok [] arena_new.
Proof. split; [constructor|constructor|done|done| |done]. intros sym. apply lookup_empty. Qed.

Lemma position_None {A : Type} (f : A → bool) l : position f l = None → ∀ x, x ∈ l → f x = false.
Proof.
  induction l as [|x l IH]; cbn; [by intros _ ? ?%not_elem_of_nil|]. destruct (f x) eqn:E; [done|]. destruct (position f l); [done|].
  intros _ y [->|Hy]%elem_of_cons; [done|by apply IH].
Qed.
Lemma position_app {A : Type} (f : A → bool) l x :
  position f (l ++ [x]) = match position f l with Some i => Some i | None => if f x then Some (length l) else None end.
Proof. induction l as [|y l IH]; cbn; [by destruct (f x)|]. destruct (f y); [done|]. rewrite IH. destruct (position f l); [done|]. by destruct (f x). Qed.

Lemma nearest_ext {A : Type} (f g : list Z → option A) sym : (∀ s, f s = g s) → nearest f sym = nearest g sym.
Proof.
  intros Hfg. unfold nearest. induction (rev (enclosing sym)) as [|a l IH]; [done|]. cbn. rewrite IH. unfold node_or_companion. rewrite Hfg.
  destruct (g a); [done|]. destruct (companion a); cbn; by rewrite ?Hfg.
Qed.

Lemma children_snoc l x k : children_of (l ++ [x]) k =
  children_of l k ++ (if bool_decide (parent (l ++ [x]) (length l) = Some k) then [length l] else []).
Proof.
  unfold children_of. rewrite length_app. cbn [length]. rewrite Nat.add_1_r, seq_S, List.filter_app. cbn [List.filter]. rewrite Nat.add_0_l. f_equal.
  - apply filter_ext_elem. intros j Hj%elem_of_seq. by rewrite parent_snoc by lia.
Qed.
Lemma roots_snoc l x : roots_of (l ++ [x]) = roots_of l ++ (if bool_decide (parent (l ++ [x]) (length l) = None) then [length l] else []).
Proof.
  unfold roots_of. rewrite length_app. cbn [length]. rewrite Nat.add_1_r, seq_S, List.filter_app. cbn [List.filter]. rewrite Nat.add_0_l. f_equal.
  - apply filter_ext_elem. intros j Hj%elem_of_seq. by rewrite parent_snoc by lia.
Qed.

Lemma parent_new l x : parent (l ++ [x]) (length l) = nearest (index_in l) x.1.
Proof. unfold parent. rewrite lookup_app_r, Nat.sub_diag by done. cbn. by rewrite take_app_length. Qed.

Lemma add_node_ok l a x : arena_ok l a → x.1 ∉ l.*1 → ds_children x.2 = [] → ∃ a', add_node a x.1 x.2 = Some a' ∧ arena_ok (l ++ [x]) a'.
Proof.
  intros [Hd Hb Hl Hn Hi Hr] Hx Hbare. unfold add_node. rewrite (nearest_ext _ (index_in l)) by apply Hi. rewrite Hl.
  assert (∀ sym, <[x.1 := length l]> (ar_node_of a) !! sym = index_in (l ++ [x]) sym) as Hindex.
  { intros sym. unfold index_in. rewrite position_app. destruct (decide (x.1 = sym)) as [<-|Hne].
    - rewrite lookup_insert_eq. destruct (position _ l) as [i|] eqn:E.
      + apply position_Some in E as (e & He & Es%bool_decide_eq_true). exfalso. apply Hx. rewrite <- Es. apply list_elem_of_fmap_2. by eapply list_elem_of_lookup_2.
      + unfold str_eqb. by rewrite bool_decide_true.
    - rewrite lookup_insert_ne by done. rewrite Hi. unfold index_in. destruct (position _ l); [done|]. unfold str_eqb. by rewrite bool_decide_false. }
  assert (NoDup (l ++ [x]).*1) as Hd'.
  { rewrite fmap_app. apply NoDup_app. split; [done|]. split; [|apply NoDup_singleton]. by intros s Hs ->%list_elem_of_singleton. }
  assert (Forall (λ e, ds_children e.2 = []) (l ++ [x])) as Hb' by (apply Forall_app; split; [done|by constructor]).
  destruct (nearest (index_in l) x.1) as [p|] eqn:Ep.
  - pose proof (nearest_index _ _ _ Ep) as Hp. destruct (lookup_lt_is_Some_2 l p Hp) as [e He]. unfold push_index.
    rewrite lookup_app_l, (Hn p e He) by lia. cbn [mbind option_bind]. eexists. split; [done|]. split; cbn [ar_nodes ar_node_of ar_roots]; [done|done| | |done|].
    + rewrite length_insert, !length_app. cbn. lia.
    + intros k e' He'. unfold node_at. rewrite children_snoc, parent_new, Ep. destruct (decide (k = p)) as [->|Hne].
      * rewrite list_lookup_insert_eq by (rewrite length_app; cbn; lia). rewrite lookup_app_l in He' by done. assert (e' = e) as -> by congruence.
        cbn. by rewrite bool_decide_true.
      * rewrite list_lookup_insert_ne by done. rewrite bool_decide_false by congruence. rewrite app_nil_r. apply lookup_app_Some in He' as [He'|[Hge He']].
        -- rewrite lookup_app_l by (rewrite Hl; by eapply lookup_lt_Some). by apply Hn.
        -- apply list_lookup_singleton_Some in He' as [Hk <-]. rewrite lookup_app_r by lia. rewrite Hl, Hk. cbn. unfold children_of. rewrite filter_nothing; [done|].
           intros j Hj%elem_of_seq. apply bool_decide_eq_false. intros Hpj%parent_lt. lia.
    + rewrite roots_snoc, parent_new, Ep, bool_decide_false by done. by rewrite app_nil_r.
  - eexists. split; [done|]. split; cbn [ar_nodes ar_node_of ar_roots]; [done|done| | |done|].
    + rewrite !length_app. cbn. lia.
    + intros k e' He'. unfold node_at. rewrite children_snoc, parent_new, Ep, bool_decide_false, app_nil_r by done. apply lookup_app_Some in He' as [He'|[Hge He']].
      * rewrite lookup_app_l by (rewrite Hl; by eapply lookup_lt_Some). by apply Hn.
      * apply list_lookup_singleton_Some in He' as [Hk <-]. rewrite lookup_app_r by lia. rewrite Hl, Hk. cbn. unfold children_of. rewrite filter_nothing; [done|].
        intros j Hj%elem_of_seq. apply bool_decide_eq_false. intros Hpj%parent_lt. lia.
    + rewrite roots_snoc, parent_new, Ep, bool_decide_true by done. by rewrite Hr.
Qed.
End arena.

(** ** Emptying it *)

Section materialize.
Context `{CharTables}.

Lemma children_nodup l k : NoDup (children_of l k).
Proof. apply NoDup_filter_bool, NoDup_seq. Qed.

(** One node adopts the completed nodes [cs]. *)
Lemma adopt_all i (t : nat → DocSymbolEntry) cs nodes e :
  NoDup cs → i ∉ cs → nodes !! i = Some (mkNode e []) → (∀ c, c ∈ cs → nodes !! c = Some (mkNode (t c) [])) →
  ∃ nodes', SdbProfile.foldM (adopt i) nodes cs = Some nodes' ∧ length nodes' = length nodes ∧
    nodes' !! i = Some (mkNode (with_children e (ds_children e ++ (t <$> cs))) []) ∧
    (∀ j, j ≠ i → nodes' !! j = if bool_decide (j ∈ cs) then Some (mkNode taken_entry []) else nodes !! j).
Proof.
  revert nodes e. induction cs as [|c cs IH]; intros nodes e Hnd Hi He Hcs.
  { exists nodes. split_and!; [done|done| |]; [rewrite app_nil_r; by destruct e|]. intros j _. by rewrite bool_decide_false by apply not_elem_of_nil. }
  apply NoDup_cons in Hnd as [Hc Hnd]. apply not_elem_of_cons in Hi as [Hic Hi]. cbn [SdbProfile.foldM].
  assert (adopt i nodes c = Some (<[i := mkNode (push_child e (t c)) []]> (<[c := mkNode taken_entry []]> nodes))) as ->.
  { unfold adopt, take_entry. rewrite (Hcs c) by left. cbn [mbind option_bind fst snd nd_entry nd_children]. by rewrite list_lookup_insert_ne, He by done. }
  cbn [mbind option_bind].
  destruct (IH (<[i := mkNode (push_child e (t c)) []]> (<[c := mkNode taken_entry []]> nodes)) (push_child e (t c))) as (nodes' & -> & Hl & Hi' & Hj); [done|done| | |].
  - apply list_lookup_insert_eq. rewrite length_insert. by eapply lookup_lt_Some.
  - intros c' Hc'. rewrite !list_lookup_insert_ne; [apply Hcs; by right|congruence|]. intros ->. done.
  - exists nodes'. split_and!; [done|by rewrite Hl, !length_insert| |].
    + rewrite Hi'. unfold with_children. cbn [ds_name ds_kind ds_span ds_children push_child]. by rewrite <- app_assoc.
    + intros j Hne. rewrite (Hj j Hne). destruct (decide (j = c)) as [->|Hjc].
      * rewrite (bool_decide_true (c ∈ c :: cs)) by left. rewrite bool_decide_false by done. rewrite list_lookup_insert_ne by done.
        rewrite list_lookup_insert_eq; [done|]. eapply lookup_lt_Some, Hcs. by left.
      * rewrite (bool_decide_ext (j ∈ c :: cs) (j ∈ cs)) by (rewrite elem_of_cons; intuition). case_bool_decide; [done|]. by rewrite !list_lookup_insert_ne.
Qed.

(** The arena when the nodes from [k] on are complete. *)
Definition complete_from (l : list Def) (k : nat) (nodes : list OutlineNode) : Prop :=
  length nodes = length l ∧ ∀ j e, l !! j = Some e → nodes !! j =
    Some (if bool_decide (j < k)%nat then node_at l j e
          else if above l k j then mkNode (tree (length l) l j) [] else mkNode taken_entry []).

Lemma complete_step l k e nodes : Forall (λ e, ds_children e.2 = []) l → l !! k = Some e → complete_from l (S k) nodes →
  ∃ nodes', complete_node nodes k = Some nodes' ∧ complete_from l k nodes'.
Proof.
  intros Hbare He [Hl Hn]. unfold complete_node. rewrite (Hn k e He), bool_decide_true by lia. cbn [mbind option_bind node_at nd_entry nd_children].
  assert (ds_children e.2 = []) as Hbk by (rewrite Forall_forall in Hbare; apply Hbare; by eapply list_elem_of_lookup_2).
  pose proof (lookup_lt_Some _ _ _ He) as Hlt.
  destruct (adopt_all k (tree (length l) l) (children_of l k) (<[k := mkNode e.2 []]> nodes) e.2) as (nodes' & -> & Hl' & Hk & Hj).
  - apply children_nodup.
  - intros [Hp _]%elem_of_children. apply parent_lt in Hp. lia.
  - apply list_lookup_insert_eq. lia.
  - intros c [Hp Hc]%elem_of_children. pose proof (parent_lt _ _ _ Hp). rewrite list_lookup_insert_ne by lia. destruct (lookup_lt_is_Some_2 l c Hc) as [ec Hec].
    rewrite (Hn c ec Hec), bool_decide_false by lia. unfold above. by rewrite Hp, bool_decide_true by lia.
  - exists nodes'. split; [done|]. split; [by rewrite Hl', length_insert|]. intros j ej Hej. destruct (decide (j = k)) as [->|Hne].
    + rewrite Hk, bool_decide_false by lia. assert (above l k k = true) as ->.
      { unfold above. destruct (parent l k) as [p|] eqn:Ep; [apply parent_lt in Ep; by apply bool_decide_eq_true|done]. }
      rewrite (tree_eq l k e He), Hbk. done.
    + rewrite (Hj j Hne), list_lookup_insert_ne, (Hn j ej Hej) by done. pose proof (lookup_lt_Some _ _ _ Hej). case_bool_decide as Hc.
      * apply elem_of_children in Hc as [Hp _]. pose proof (parent_lt _ _ _ Hp). rewrite bool_decide_false by lia. unfold above. by rewrite Hp, bool_decide_false by lia.
      * assert (parent l j ≠ Some k) as Hp by (intros Hp; apply Hc, elem_of_children; by split).
        rewrite (bool_decide_ext (j < S k)%nat (j < k)%nat) by lia. case_bool_decide; [done|]. unfold above. destruct (parent l j) as [p|]; [|done].
        rewrite (bool_decide_ext (p < S k)%nat (p < k)%nat); [done|]. assert (p ≠ k) by congruence. lia.
Qed.

Lemma complete_all l nodes : Forall (λ e, ds_children e.2 = []) l → complete_from l (length l) nodes →
  ∃ nodes', SdbProfile.foldM complete_node nodes (rev (seq 0 (length l))) = Some nodes' ∧ complete_from l 0 nodes'.
Proof.
  intros Hbare. enough (∀ k nodes, (k ≤ length l)%nat → complete_from l k nodes →
    ∃ nodes', SdbProfile.foldM complete_node nodes (rev (seq 0 k)) = Some nodes' ∧ complete_from l 0 nodes') as Hk by (by apply Hk).
  clear nodes. induction k as [|k IH]; intros nodes Hk Hn; [by exists nodes|]. rewrite seq_S, rev_app_distr. cbn [rev app SdbProfile.foldM]. rewrite Nat.add_0_l.
  destruct (lookup_lt_is_Some_2 l k ltac:(lia)) as [e He]. destruct (complete_step l k e nodes Hbare He Hn) as (nodes' & -> & Hn'). cbn [mbind option_bind].
  apply IH; [lia|done].
Qed.

Lemma take_roots_all (t : nat → DocSymbolEntry) rs nodes : NoDup rs → (∀ r, r ∈ rs → ∃ ch, nodes !! r = Some (mkNode (t r) ch)) → take_roots nodes rs = Some (t <$> rs).
Proof.
  revert nodes. induction rs as [|r rs IH]; intros nodes Hnd Hrs; [done|]. apply NoDup_cons in Hnd as [Hr Hnd]. cbn [take_roots]. unfold take_entry.
  destruct (Hrs r ltac:(left)) as [ch ->]. cbn [mbind option_bind fst snd nd_entry nd_children]. rewrite (IH (<[r := mkNode taken_entry ch]> nodes)); [done|done|].
  intros r' Hr'. destruct (Hrs r' ltac:(by right)) as [ch' Hch']. exists ch'. by rewrite list_lookup_insert_ne by congruence.
Qed.

(** The tree of an arena. *)
Lemma outline_of_spec l a : arena_ok l a → outline_of a = Some (outline_spec l).
Proof.
  intros [Hd Hb Hl Hn Hi Hr]. unfold outline_of. rewrite Hl. destruct (complete_all l (ar_nodes a) Hb) as (nodes & -> & Hlen & Hall).
  { split; [done|]. intros j e He. rewrite (Hn j e He), bool_decide_true; [done|]. by eapply lookup_lt_Some. }
  cbn [mbind option_bind]. rewrite Hr. apply take_roots_all; [apply NoDup_filter_bool, NoDup_seq|]. intros r [Hp Hlt]%elem_of_roots.
  destruct (lookup_lt_is_Some_2 l r Hlt) as [e He]. exists []. rewrite (Hall r e He), bool_decide_false by lia. unfold above. by rewrite Hp.
Qed.
End materialize.

(** ** The property *)

Section outline.
Context `{CharTables} (s : SegmentReader) (v : IndexView) `{!Shows s v}.

Lemma view_def_bare rec x : view_def v rec = Some x → ds_children x.2 = [].
Proof.
  unfold view_def. destruct (negb _); [done|]. destruct (zget (vw_symbols v) (dr_symbol_ord rec)) as [row|]; [|done]. cbn.
  destruct (SymbolEncoding.decode _) as [raw [d|]]; [done|]. destruct (outlined raw); [|done]. by intros [= <-].
Qed.

Lemma outline_record_step l a rec : arena_ok l a → doc_record_in v rec →
  ∃ a', outline_record s a rec = Some a' ∧
    arena_ok (match view_def v rec with Some x => if bool_decide (x.1 ∈ l.*1) then l else l ++ [x] | None => l end) a'.
Proof.
  intros Ha [Hord _]. pose proof (view_def_bare rec) as Hbare. unfold outline_record, view_def in *. destruct (has _ _); [|by exists a]. cbn [negb] in *.
  rewrite (as_u32_small _ _ Hord (symbols_small s v)). destruct (zget_is_Some _ _ Hord) as [row Hrow]. rewrite Hrow in *.
  destruct (sh_symbol (s := s) _ _ Hrow) as (-> & _ & _ & Hmeta & _). cbn [mbind option_bind] in *. destruct (SymbolEncoding.decode (sw_symbol row)) as [raw [d|]]; [by exists a|].
  destruct (outlined raw) as [desc|]; [|by exists a]. cbn [fst]. rewrite (ao_index _ _ Ha).
  assert (is_Some (index_in l raw) ↔ raw ∈ l.*1) as Hin.
  { unfold index_in. split.
    - intros [i (e & He & <-%bool_decide_eq_true)%position_Some]. apply list_elem_of_fmap_2. by eapply list_elem_of_lookup_2.
    - intros (e & -> & He)%list_elem_of_fmap. destruct (position _ l) eqn:E; [done|]. pose proof (position_None _ _ E e He) as Hf. by apply bool_decide_eq_false in Hf. }
  rewrite (bool_decide_ext _ _ Hin). destruct (decide (raw ∈ l.*1)) as [Hseen|Hseen].
  { rewrite !bool_decide_true by done. by exists a. }
  rewrite !bool_decide_false by done. rewrite Hmeta. cbn [mbind option_bind].
  match goal with |- context [add_node a raw ?e] => destruct (add_node_ok l a (raw, e) Ha) as (a' & Ea & Ha'); [done|done|] end.
  exists a'. split; [exact Ea|exact Ha'].
Qed.

(** C8. The outline of a document is exact: filling the arena and moving every entry into its parent
    never fails, and answers the definitions of the document, the first occurrence of each global
    term, type and method, as the trees of [outline_spec]: every definition under the nearest one
    before it that encloses it, or whose companion does, in source order at each level. None is
    lost: the trees together hold each definition once. *)
Theorem outline_exact o snap uri :
  current_snapshot o = Some snap → sn_segment snap = s →
  document_symbols o uri = Some (match d ← view_doc v uri; zget (vw_docs v) d with Some row => outline_spec (doc_defs v row) | None => [] end) ∧
  ∀ row, row ∈ vw_docs v → NoDup (doc_defs v row).*1 ∧ concat (flatten <$> outline_spec (doc_defs v row)) ≡ₚ def_key <$> doc_defs v row.
Proof.
  intros Hcur Hs. split.
  2: { intros row _. split; [apply keep_first_exact|apply outline_spec_complete]. }
  unfold document_symbols. rewrite Hcur, Hs. rewrite (doc_ord_of_shows _ v). cbn [mbind option_bind]. pose proof (view_doc_exact v uri) as Hd.
  destruct (view_doc v uri) as [d|]; [|done]. destruct Hd as (row & Hrow & _). cbn [mbind option_bind]. rewrite Hrow. destruct (sh_doc (s := s) _ _ Hrow) as (_ & _ & _ & -> & Hrecs & _). cbn [mbind option_bind].
  enough (∀ l a, arena_ok l a → ∃ a', SdbProfile.foldM (outline_record s) a (dw_records row) = Some a' ∧
    arena_ok (foldl (λ out x, if bool_decide (x.1 ∈ out.*1) then out else out ++ [x]) l (omap (view_def v) (dw_records row))) a') as Hfold.
  { destruct (Hfold [] arena_new arena_new_ok) as (a & -> & Ha). cbn [mbind option_bind]. by apply outline_of_spec. }
  clear Hrow. induction Hrecs as [|rec recs Hrec Hrecs IH]; intros l a Ha; [by exists a|]. cbn [SdbProfile.foldM omap list_omap].
  destruct (outline_record_step l a rec Ha Hrec) as (a' & -> & Ha'). cbn [mbind option_bind]. destruct (view_def v rec); [cbn [foldl]; by apply IH|by apply IH].
Qed.
End outline.

#[local] Existing Instance ascii_tables.
#[local] Existing Instance ex_shows.

(** On the example: the class with its method. *)
Lemma outline_exact_witness :
  document_symbols ex_orchestrator (lit "a.scala") =
    Some [mkDocSymbol (lit "A") (from_code 13) (mkSpan 0 6 0 7) [mkDocSymbol (lit "m") (from_code 3) (mkSpan 0 14 0 15) []]] ∧
  ∀ row, row ∈ vw_docs ex_view → concat (flatten <$> outline_spec (doc_defs ex_view row)) ≡ₚ def_key <$> doc_defs ex_view row.
Proof.
  destruct (outline_exact ex_reader ex_view ex_orchestrator ex_snapshot (lit "a.scala")) as [Hrun Hall].
  - reflexivity.
  - reflexivity.
  - split; [vm_compute; reflexivity|]. intros row Hrow. exact (proj2 (Hall row Hrow)).
Defined.
