(* ===== verification/PcCodec.v ===== *)
(** The flat buffer format of the presentation-compiler boundary ([ls-pc-abi/src/codec.rs]): the
    writer of a payload (fixed records in a body, strings in a blob, a 16-byte envelope) and the
    bounds-checked reader.

    A [&mut Writer] method is a function on writers and [▷] runs one after the other; a
    [&mut Reader] method is a reader to reader function in the monad [Parse], whose errors are the
    messages of an [AbiError] or [AbiPanic], a slice out of range. *)

From S2P Require Import Prelude RustStr StoreFormat SegReader.

Open Scope Z_scope.

Inductive AbiStop :=
| AbiError (msg : list Z)
| AbiPanic.
#[export] Instance AbiStop_eq_dec : EqDecision AbiStop.
Proof. solve_decision. Defined.

(** [impl Display for AbiError] *)
Definition abi_error_display (msg : list Z) : list Z := lit "abi decode error: " ++ msg.

(** ["LPAB"] *)
Definition MAGIC : Z := 1111576652.

Definition abi_len (n : Z) : result AbiStop Z :=
  if n <? 2 ^ 32 then Ok n else Err (AbiError (lit "length exceeds the u32 ABI limit")).

(** ** Writing *)

Record Writer := mkWriter { w_body : bytes; w_blob : bytes; w_overflow : bool }.
Definition Writer_new : Writer := mkWriter [] [] false.

(** [f(w); g(w);] *)
Definition andthen (f g : Writer → Writer) (w : Writer) : Writer := g (f w).
Declare Scope writer_scope.
Infix "▷" := andthen (at level 60, right associativity) : writer_scope.
Open Scope writer_scope.

Definition w_u32 (v : Z) (w : Writer) : Writer := mkWriter (w_body w ++ le_bytes 4 v) (w_blob w) (w_overflow w).
Definition narrow (n : Z) (w : Writer) : Z * Writer :=
  match abi_len n with
  | Ok v => (v, w)
  | Err _ => (0, mkWriter (w_body w) (w_blob w) true)
  end.
Definition w_count (n : Z) (w : Writer) : Writer := let '(c, w) := narrow n w in w_u32 c w.
Definition w_i32 (v : Z) : Writer → Writer := w_u32 (as_u32 v).
Definition w_bool32 (v : bool) : Writer → Writer := w_u32 (if v then 1 else 0).

Definition intern (s : bytes) (w : Writer) : Z * Z * Writer :=
  let '(offset, w) := narrow (zlen (w_blob w)) w in
  let w := mkWriter (w_body w) (w_blob w ++ s) (w_overflow w) in
  let '(len, w) := narrow (zlen s) w in
  (offset, len, w).

(** The [BlobStr] of some bytes, as [str] and [opt_bytes] write it. *)
Definition w_slice (s : bytes) (w : Writer) : Writer :=
  let '(offset, len, w) := intern s w in w_u32 len (w_u32 offset w).

Definition w_str (s : list Z) : Writer → Writer := w_slice (as_bytes s).
Definition w_opt_str (s : option (list Z)) : Writer → Writer :=
  match s with
  | Some v => w_u32 1 ▷ w_str v
  | None => w_u32 0 ▷ w_u32 0 ▷ w_u32 0
  end.
Definition w_opt_bytes (s : option bytes) : Writer → Writer :=
  match s with
  | Some v => w_u32 1 ▷ w_slice v
  | None => w_u32 0 ▷ w_u32 0 ▷ w_u32 0
  end.
Definition w_opt_i32 (v : option Z) : Writer → Writer :=
  match v with
  | Some x => w_u32 1 ▷ w_i32 x
  | None => w_u32 0 ▷ w_i32 0
  end.
Definition w_opt_bool (v : option bool) : Writer → Writer :=
  match v with
  | Some x => w_u32 1 ▷ w_bool32 x
  | None => w_u32 0 ▷ w_u32 0
  end.
Definition w_range (start_line start_character end_line end_character : Z) : Writer → Writer :=
  w_u32 start_line ▷ w_u32 start_character ▷ w_u32 end_line ▷ w_u32 end_character.

Definition w_finish (kind : Z) (w : Writer) : result AbiStop bytes :=
  if w_overflow w then
    Err (AbiError (lit "payload blob offset, field length, or count exceeds the u32 ABI limit")) else
  body_len ← abi_len (zlen (w_body w));
  blob_len ← abi_len (zlen (w_blob w));
  Ok (le_bytes 4 MAGIC ++ le_bytes 4 kind ++ le_bytes 4 body_len ++ le_bytes 4 blob_len ++ w_body w ++ w_blob w).

(** [for x in l { write(x, w) }] *)
Definition w_each {A : Type} (write : A → Writer → Writer) (l : list A) (w : Writer) : Writer :=
  foldl (λ w x, write x w) w l.

(** [let mut w = Writer::new(); …; w.finish(kind)] *)
Definition encode_with (kind : Z) (m : Writer → Writer) : result AbiStop bytes := w_finish kind (m Writer_new).

(** ** Reading *)

Record Reader := mkReader { r_body : bytes; r_blob : bytes; r_pos : Z }.

Definition r_slice (b : bytes) (off len : Z) : result AbiStop bytes := ok_or (slice b off len) AbiPanic.

Definition Reader_new (buf : bytes) (expected_kind : Z) : result AbiStop Reader :=
  if zlen buf <? 16 then Err (AbiError (lit "buffer shorter than the 16-byte envelope")) else
  magic ← r_slice buf 0 4;
  if negb (le_val magic =? MAGIC) then Err (AbiError (lit "bad magic 0x" ++ show_hex8 (le_val magic))) else
  kind ← r_slice buf 4 4;
  if negb (le_val kind =? expected_kind) then
    Err (AbiError (lit "payload kind " ++ show_u (le_val kind) ++ lit " != expected " ++ show_u expected_kind)) else
  body_len ← le_val <$> r_slice buf 8 4;
  blob_len ← le_val <$> r_slice buf 12 4;
  total ← ok_or (n ← checked_add 16 body_len; checked_add n blob_len) (AbiError (lit "length overflow"));
  if negb (total =? zlen buf) then
    Err (AbiError (lit "declared length " ++ show_u total ++ lit " != actual " ++ show_u (zlen buf))) else
  body ← r_slice buf 16 body_len;
  blob ← r_slice buf (16 + body_len) (zlen buf - (16 + body_len));
  Ok (mkReader body blob 0).

Definition Parse (A : Type) : Type := Reader → result AbiStop (A * Reader).
#[export] Instance parse_ret : MRet Parse := λ A a r, Ok (a, r).
#[export] Instance parse_bind : MBind Parse :=
  λ A B f m r, match m r with Ok (a, r) => f a r | Err e => Err e end.
Definition refuse {A : Type} (msg : list Z) : Parse A := λ _, Err (AbiError msg).

Definition r_take (n : Z) : Parse bytes := λ r,
  last ← ok_or (checked_add (r_pos r) n) (AbiError (lit "body cursor overflow"));
  if zlen (r_body r) <? last then Err (AbiError (lit "body underrun")) else
  s ← r_slice (r_body r) (r_pos r) (last - r_pos r);
  Ok (s, mkReader (r_body r) (r_blob r) last).

Definition r_u32 : Parse Z := b ← r_take 4; mret (le_val b).
Definition r_i32 : Parse Z := v ← r_u32; mret (as_i32 v).
Definition r_bool32 : Parse bool := v ← r_u32; mret (negb (v =? 0)).

(** [self.body.len() - self.pos] *)
Definition r_remaining : Parse Z := λ r, Ok (as_usize (zlen (r_body r) - r_pos r), r).

Definition r_count : Parse Z :=
  n ← r_u32;
  remaining ← r_remaining;
  if remaining / 4 <? n
  then refuse (lit "list count " ++ show_u n ++ lit " exceeds the remaining body")
  else mret n.

Definition blob_slice (offset len : Z) : Parse bytes := λ r,
  last ← ok_or (checked_add offset len) (AbiError (lit "blob slice overflow"));
  if zlen (r_blob r) <? last then Err (AbiError (lit "blob slice out of range")) else
  s ← r_slice (r_blob r) offset (last - offset);
  Ok (s, r).

Definition utf8_or (msg : list Z) (b : bytes) : Parse (list Z) :=
  match from_utf8 b with
  | Some s => mret s
  | None => refuse msg
  end.

Definition r_str : Parse (list Z) :=
  offset ← r_u32; len ← r_u32; b ← blob_slice offset len;
  utf8_or (lit "blob string is not valid UTF-8") b.
Definition r_opt_str : Parse (option (list Z)) :=
  present ← r_u32; offset ← r_u32; len ← r_u32;
  if present =? 0 then mret None else
  b ← blob_slice offset len;
  s ← utf8_or (lit "optional blob string is not valid UTF-8") b;
  mret (Some s).
Definition r_opt_bytes : Parse (option bytes) :=
  present ← r_u32; offset ← r_u32; len ← r_u32;
  if present =? 0 then mret None else
  b ← blob_slice offset len; mret (Some b).
Definition r_opt_i32 : Parse (option Z) :=
  present ← r_u32; value ← r_i32; mret (if present =? 0 then None else Some value).
Definition r_opt_bool : Parse (option bool) :=
  present ← r_u32; value ← r_bool32; mret (if present =? 0 then None else Some value).
Definition r_range : Parse (Z * Z * Z * Z) :=
  a ← r_u32; b ← r_u32; c ← r_u32; d ← r_u32; mret (a, b, c, d).

Definition r_finish (r : Reader) : result AbiStop unit :=
  if negb (r_pos r =? zlen (r_body r))
  then Err (AbiError (show_u (as_usize (zlen (r_body r) - r_pos r)) ++ lit " trailing body bytes"))
  else Ok tt.

(** [for _ in 0..n { out.push(read(r)?) }] *)
Fixpoint r_times {A : Type} (n : nat) (read : Parse A) : Parse (list A) :=
  match n with
  | O => mret []
  | S n => x ← read; l ← r_times n read; mret (x :: l)
  end.

(** [let mut r = Reader::new(buf, kind)?; …; r.finish()?; Ok(x)] *)
Definition decode_with {A : Type} (kind : Z) (read : Parse A) (buf : bytes) : result AbiStop A :=
  r ← Reader_new buf kind; '(x, r) ← read r; _ ← r_finish r; Ok x.

(** ** What a writer emits and what a reader makes of it

    [emits k m p x]: [m] appends bytes to the body (at least [k]) and to the blob, and unless one of
    them passes the limit of a [u32], [p] reads [x] back from what was appended, whatever follows. *)

Definition oversized (w : Writer) : Prop := 2 ^ 32 ≤ zlen (w_body w) ∨ 2 ^ 32 ≤ zlen (w_blob w).

Record emits {A : Type} (k : Z) (m : Writer → Writer) (p : Parse A) (x : A) : Prop := mkEmits {
  emits_at : ∀ w, ∃ b s,
    w_body (m w) = w_body w ++ b ∧ w_blob (m w) = w_blob w ++ s ∧ k ≤ zlen b ∧
    (w_overflow (m w) = true → w_overflow w = true ∨ oversized (m w)) ∧
    (∀ pre post rest,
       zlen (pre ++ b ++ post) < 2 ^ 32 → zlen (w_blob w ++ s ++ rest) < 2 ^ 32 →
       let at_pos := mkReader (pre ++ b ++ post) (w_blob w ++ s ++ rest) in
       p (at_pos (zlen pre)) = Ok (x, at_pos (zlen pre + zlen b))) }.

(** [accepts p P]: on any reader within the machine's lengths, [p] answers a value of [P] or an
    error, never a panic. *)
Definition reader_ok (r : Reader) : Prop :=
  0 ≤ r_pos r ≤ zlen (r_body r) ∧ zlen (r_body r) < 2 ^ 63 ∧ zlen (r_blob r) < 2 ^ 63.

Definition accepts {A : Type} (p : Parse A) (P : A → Prop) : Prop :=
  ∀ r, reader_ok r →
    match p r with
    | Ok (x, r') => P x ∧ reader_ok r'
    | Err AbiPanic => False
    | Err (AbiError _) => True
    end.

Definition opt_fits {A : Type} (P : A → Prop) (o : option A) : Prop :=
  match o with Some x => P x | None => True end.

(** *** Composition *)

Lemma emits_weak {A : Type} (m : Writer → Writer) (p : Parse A) x k : 0 ≤ k → emits k m p x → emits 0 m p x.
Proof.
  intros Hk [H]. split. intros w. destruct (H w) as (b & s & H1 & H2 & H3 & H4). exists b, s. split_and!; [done..|lia|apply H4|apply H4].
Qed.

Lemma emits_bind {A B : Type} m n (p : Parse A) (q : A → Parse B) x y k :
  emits k m p x → emits 0 n (q x) y → emits k (m ▷ n) (p ≫= q) y.
Proof.
  intros [Hm] [Hn]. split. intros w. destruct (Hm w) as (b1 & s1 & B1 & S1 & K1 & O1 & R1).
  destruct (Hn (m w)) as (b2 & s2 & B2 & S2 & K2 & O2 & R2). unfold andthen.
  exists (b1 ++ b2), (s1 ++ s2). rewrite B2, B1, S2, S1, <- !app_assoc, zlen_app. split_and!; [done..|lia| |].
  - intros [?|?]%O2; [|by right]. destruct (O1 H) as [?|Ho]; [by left|]. right. unfold oversized in *.
    rewrite B2, S2, !zlen_app. pose proof (zlen_nonneg b2). pose proof (zlen_nonneg s2). lia.
  - intros pre post rest Hb Hs. cbn zeta. unfold mbind at 1, parse_bind. rewrite <- !app_assoc in *.
    specialize (R1 pre (b2 ++ post) (s2 ++ rest) Hb Hs). cbn zeta in R1. rewrite R1.
    specialize (R2 (pre ++ b1) post rest). rewrite S1, <- !app_assoc, (zlen_app pre b1) in R2. specialize (R2 Hb Hs). cbn zeta in R2.
    rewrite R2. do 3 f_equal. lia.
Qed.

Lemma emits_end {A B : Type} k m (p : Parse A) (q : A → Parse B) x y :
  emits k m p x → q x = mret y → emits k m (p ≫= q) y.
Proof.
  intros [H] Hq. split. intros w. destruct (H w) as (b & s & H1 & H2 & H3 & H4 & R).
  exists b, s. split_and!; [done..|]. intros pre post rest Hb Hs. specialize (R pre post rest Hb Hs). cbn zeta in *.
  unfold mbind, parse_bind. by rewrite R, Hq.
Qed.

Lemma emits_last {A B : Type} m (p : Parse A) (f : A → B) x k :
  emits k m p x → emits k m (p ≫= λ y, mret (f y)) (f x).
Proof. intros H. by eapply emits_end. Qed.

(** *** The primitives *)

Lemma take_at pre b post blob n :
  zlen (pre ++ b ++ post) < 2 ^ 32 → zlen b = n →
  r_take n (mkReader (pre ++ b ++ post) blob (zlen pre)) = Ok (b, mkReader (pre ++ b ++ post) blob (zlen pre + n)).
Proof.
  intros Hl Hn. unfold r_take. cbn [r_pos r_body r_blob]. rewrite !zlen_app in Hl. pose proof (zlen_nonneg pre). pose proof (zlen_nonneg b).
  pose proof (zlen_nonneg post). unfold checked_add. destruct (Z.ltb_spec (zlen pre + n) (2 ^ 64)); [|lia]. cbn [ok_or mbind result_bind].
  rewrite !zlen_app. destruct (Z.ltb_spec (zlen pre + (zlen b + zlen post)) (zlen pre + n)); [lia|].
  unfold r_slice. rewrite slice_app_l by lia. done.
Qed.

Lemma u32_at pre v post blob :
  zlen (pre ++ le_bytes 4 v ++ post) < 2 ^ 32 → inU 32 v →
  r_u32 (mkReader (pre ++ le_bytes 4 v ++ post) blob (zlen pre)) =
  Ok (v, mkReader (pre ++ le_bytes 4 v ++ post) blob (zlen pre + 4)).
Proof.
  intros Hl Hv. unfold r_u32, mbind, parse_bind. rewrite take_at by done. cbn -[le_bytes le_val]. rewrite le_val_le_bytes.
  change (256 ^ Z.of_nat 4) with (2 ^ 32). by rewrite Z.mod_small.
Qed.

Lemma emits_u32 v : inU 32 v → emits 4 (w_u32 v) r_u32 v.
Proof.
  intros Hv. split. intros w. exists (le_bytes 4 v), []. cbn [w_u32 w_body w_blob w_overflow]. rewrite app_nil_r.
  split_and!; [done..|by left|]. intros pre post rest Hb Hs. cbn zeta. by apply u32_at.
Qed.

Lemma emits_word {B : Type} v (q : Z → Parse B) y : inU 32 v → q v = mret y → emits 4 (w_u32 v) (r_u32 ≫= q) y.
Proof. intros Hv. by apply emits_end, emits_u32. Qed.

Lemma emits_i32 v : inS 32 v → emits 4 (w_i32 v) r_i32 v.
Proof.
  intros Hv. replace v with (as_i32 (as_u32 v)) at 2.
  - apply emits_last, emits_u32, wrapU_range. lia.
  - change (wrapS 32 (wrapU 32 v) = v). rewrite wrapS_wrapU by lia. by apply wrapS_id.
Qed.

Lemma emits_bool32 v : emits 4 (w_bool32 v) r_bool32 v.
Proof.
  destruct v; [apply (emits_last _ _ (λ v, negb (v =? 0)) 1)|apply (emits_last _ _ (λ v, negb (v =? 0)) 0)]; by apply emits_u32.
Qed.

Lemma narrow_ok n w v w' : 
  narrow n w = (v, w') → w_body w' = w_body w ∧ w_blob w' = w_blob w ∧ (n < 2 ^ 32 → v = n) ∧ (v = n ∨ v = 0) ∧
  (w_overflow w' = true → w_overflow w = true ∨ 2 ^ 32 ≤ n).
Proof.
  unfold narrow, abi_len. destruct (Z.ltb_spec n (2 ^ 32)); intros [= <- <-]; split_and!; try done; try lia; eauto.
Qed.

(** A reference into the blob, read by any reader that takes an offset and a length. *)
Lemma emits_slice s : emits 4 (w_slice s) (offset ← r_u32; len ← r_u32; blob_slice offset len) s.
Proof.
  split. intros w. unfold w_slice, intern. destruct (narrow (zlen (w_blob w)) w) as [o w1] eqn:E1.
  destruct (narrow _ _) as [l w2] eqn:E2 at 1. destruct (narrow_ok _ _ _ _ E1) as (B1 & S1 & V1 & _ & O1).
  destruct (narrow_ok _ _ _ _ E2) as (B2 & S2 & V2 & _ & O2). cbn [w_body w_blob w_overflow] in *.
  exists (le_bytes 4 o ++ le_bytes 4 l), s. rewrite E2. cbn [w_u32 w_body w_blob w_overflow]. rewrite B2, S2, S1, B1, <- app_assoc, zlen_app, !zlen_le_bytes.
  split_and!; [done..| |].
  - unfold oversized. cbn [w_u32 w_body w_blob]. rewrite S2, S1, !zlen_app. pose proof (zlen_nonneg (w_blob w)). pose proof (zlen_nonneg s).
    intros [[?|?]%O1|?]%O2; [by left|right; lia..].
  - intros pre post rest Hb Hs. pose proof (zlen_nonneg (w_blob w)). pose proof (zlen_nonneg s). pose proof (zlen_nonneg rest).
    rewrite V1, V2 in * by (rewrite !zlen_app in Hs; lia). cbn zeta. rewrite <- !app_assoc in *. rewrite !zlen_app in Hs.
    unfold mbind at 1, parse_bind at 1. rewrite u32_at by (done || split; lia). unfold mbind at 1, parse_bind at 1.
    pose proof (u32_at (pre ++ le_bytes 4 (zlen (w_blob w))) (zlen s) post) as R.
    rewrite <- !app_assoc, (zlen_app pre (le_bytes 4 (zlen (w_blob w)))), zlen_le_bytes in R. change (Z.of_nat 4) with 4 in R. rewrite R by (done || split; lia). clear R.
    unfold blob_slice. cbn [r_blob].
    unfold checked_add. destruct (Z.ltb_spec (zlen (w_blob w) + zlen s) (2 ^ 64)); [|lia]. cbn [ok_or mbind result_bind]. rewrite !zlen_app.
    destruct (Z.ltb_spec (zlen (w_blob w) + (zlen s + zlen rest)) (zlen (w_blob w) + zlen s)); [lia|].
    unfold r_slice. rewrite slice_app_l by lia. cbn. do 3 f_equal. lia.
Qed.

Lemma emits_str s : wf_str s → emits 4 (w_str s) r_str s.
Proof.
  intros Hs. destruct (emits_slice (as_bytes s)) as [H]. split. intros w. destruct (H w) as (b & t & H1 & H2 & H3 & H4 & R).
  exists b, t. split_and!; [done..|]. intros pre post rest Hb Ht. specialize (R pre post rest Hb Ht). cbn zeta in *.
  unfold r_str. unfold mbind, parse_bind in *.
  destruct (r_u32 _) as [[o r1]|]; [|done]. destruct (r_u32 r1) as [[l r2]|]; [|done]. rewrite R.
  unfold utf8_or. by rewrite from_utf8_as_bytes.
Qed.

(** The three words of an absent string. *)
Lemma emits_absent {A : Type} (p : Z → Z → Parse (option A)) :
  emits 4 (w_u32 0 ▷ w_u32 0 ▷ w_u32 0)
    (present ← r_u32; offset ← r_u32; len ← r_u32; if present =? 0 then mret None else p offset len) None.
Proof.
  apply (emits_bind _ _ r_u32 _ 0); [by apply emits_u32|]. apply (emits_bind _ _ r_u32 _ 0).
  { eapply emits_weak, emits_u32; done. }
  apply (emits_last _ _ (λ _, None) 0). eapply emits_weak, emits_u32; done.
Qed.

Lemma emits_opt_bytes s : emits 4 (w_opt_bytes s) r_opt_bytes s.
Proof.
  destruct s as [s|]; [|apply emits_absent]. apply (emits_bind _ _ r_u32 _ 1); [by apply emits_u32|].
  destruct (emits_slice s) as [H]. split. intros w. destruct (H w) as (b & t & H1 & H2 & H3 & H4 & R).
  exists b, t. split_and!; [done..|lia|done|]. intros pre post rest Hb Ht. specialize (R pre post rest Hb Ht). cbn zeta in *.
  unfold mbind, parse_bind in *. destruct (r_u32 _) as [[o r1]|]; [|done]. destruct (r_u32 r1) as [[l r2]|]; [|done].
  cbn [Z.eqb]. by rewrite R.
Qed.

Lemma emits_opt_str s : opt_fits wf_str s → emits 4 (w_opt_str s) r_opt_str s.
Proof.
  intros Hs. destruct s as [s|]; [|apply emits_absent]. apply (emits_bind _ _ r_u32 _ 1); [by apply emits_u32|].
  destruct (emits_slice (as_bytes s)) as [H]. split. intros w. destruct (H w) as (b & t & H1 & H2 & H3 & H4 & R).
  exists b, t. split_and!; [done..|lia|done|]. intros pre post rest Hb Ht. specialize (R pre post rest Hb Ht). cbn zeta in *.
  unfold mbind, parse_bind in *. destruct (r_u32 _) as [[o r1]|]; [|done]. destruct (r_u32 r1) as [[l r2]|]; [|done].
  cbn [Z.eqb]. rewrite R. unfold utf8_or. by rewrite from_utf8_as_bytes.
Qed.

Lemma emits_opt_i32 v : opt_fits (inS 32) v → emits 4 (w_opt_i32 v) r_opt_i32 v.
Proof.
  intros Hv. destruct v as [v|]; (eapply (emits_bind _ _ r_u32); [by apply emits_u32|]); cbn [Z.eqb].
  - apply (emits_last _ _ Some v). eapply emits_weak, emits_i32; done.
  - apply (emits_last _ _ (λ _, None) 0). eapply emits_weak, emits_i32; done.
Qed.

Lemma emits_opt_bool v : emits 4 (w_opt_bool v) r_opt_bool v.
Proof.
  destruct v as [v|]; (eapply (emits_bind _ _ r_u32); [by apply emits_u32|]); cbn [Z.eqb].
  - apply (emits_last _ _ Some v). eapply emits_weak, emits_bool32; done.
  - apply (emits_last _ _ (λ _, None) false). eapply emits_weak, (emits_bool32 false); done.
Qed.

(** *** Lists: each element takes at least four bytes, which is what the count is checked against. *)

Lemma emits_times {A : Type} (write : A → Writer → Writer) (p : Parse A) l :
  Forall (λ x, emits 4 (write x) p x) l → emits (4 * zlen l) (w_each write l) (r_times (length l) p) l.
Proof.
  induction 1 as [|x l [Hx] _ [IH]]; split; intros w.
  { exists [], []. cbn. rewrite !app_nil_r. split_and!; [done..|by left|]. intros. rewrite Z.add_0_r. done. }
  destruct (Hx w) as (b1 & s1 & B1 & S1 & K1 & O1 & R1). destruct (IH (write x w)) as (b2 & s2 & B2 & S2 & K2 & O2 & R2).
  change (w_each write (x :: l) w) with (w_each write l (write x w)). rewrite zlen_cons.
  exists (b1 ++ b2), (s1 ++ s2). rewrite B2, B1, S2, S1, <- !app_assoc, zlen_app. split_and!; [done..|lia| |].
  - intros [Ho|?]%O2; [|by right]. destruct (O1 Ho) as [?|Hv]; [by left|]. right. unfold oversized in *.
    rewrite B2, S2, !zlen_app. pose proof (zlen_nonneg b2). pose proof (zlen_nonneg s2). lia.
  - intros pre post rest Hb Hs. cbn zeta. cbn [length r_times]. unfold mbind, parse_bind.
    specialize (R1 pre (b2 ++ post) (s2 ++ rest)). rewrite <- !app_assoc in *. specialize (R1 Hb Hs). cbn zeta in R1. rewrite R1.
    specialize (R2 (pre ++ b1) post rest). rewrite S1, <- !app_assoc, (zlen_app pre b1) in R2. specialize (R2 Hb Hs). cbn zeta in R2.
    rewrite R2. unfold mret, parse_ret. do 3 f_equal. lia.
Qed.

Definition w_list {A : Type} (write : A → Writer → Writer) (l : list A) : Writer → Writer := w_count (zlen l) ▷ w_each write l.
Definition r_list {A : Type} (read : Parse A) : Parse (list A) := n ← r_count; r_times (Z.to_nat n) read.

Lemma count_at pre n b post blob :
  zlen (pre ++ le_bytes 4 n ++ b ++ post) < 2 ^ 32 → 0 ≤ n → 4 * n ≤ zlen b →
  r_count (mkReader (pre ++ le_bytes 4 n ++ b ++ post) blob (zlen pre)) =
  Ok (n, mkReader (pre ++ le_bytes 4 n ++ b ++ post) blob (zlen pre + 4)).
Proof.
  intros Hl Hn Hb. unfold r_count. unfold mbind at 1, parse_bind at 1.
  pose proof (zlen_nonneg pre). pose proof (zlen_nonneg post).
  assert (zlen pre + (4 + (zlen b + zlen post)) < 2 ^ 32) as Hl' by (rewrite !zlen_app, zlen_le_bytes in Hl; lia).
  rewrite u32_at by (done || split; lia). unfold r_remaining, mbind, parse_bind. cbn [r_body r_pos].
  rewrite !zlen_app, zlen_le_bytes. replace (zlen pre + (Z.of_nat 4 + (zlen b + zlen post)) - (zlen pre + 4)) with (zlen b + zlen post) by lia.
  unfold as_usize. rewrite wrapU_id by (split; lia).
  destruct (Z.ltb_spec ((zlen b + zlen post) / 4) n) as [Hc|]; [|done]. exfalso.
  assert (n ≤ (zlen b + zlen post) / 4); [apply Z.div_le_lower_bound; lia|lia].
Qed.

Lemma emits_list {A : Type} (write : A → Writer → Writer) (p : Parse A) l :
  Forall (λ x, emits 4 (write x) p x) l → emits 4 (w_list write l) (r_list p) l.
Proof.
  intros [H]%emits_times. split. intros w. unfold w_list, andthen, w_count. destruct (narrow (zlen l) w) as [c w1] eqn:E.
  destruct (narrow_ok _ _ _ _ E) as (B1 & S1 & V1 & V1' & O1). destruct (H (w_u32 c w1)) as (b & s & B2 & S2 & K2 & O2 & R2).
  exists (le_bytes 4 c ++ b), s. rewrite B2, S2. cbn [w_u32 w_body w_blob w_overflow] in *. rewrite B1, S1, <- app_assoc, zlen_app, zlen_le_bytes in *.
  pose proof (zlen_nonneg b). pose proof (zlen_nonneg l). split_and!; [done..|lia| |].
  - intros [[?|?]%O1|?]%O2; [by left| |by right]. right. left. rewrite B2, !zlen_app. pose proof (zlen_nonneg (w_body w)).
    pose proof (zlen_nonneg (le_bytes 4 c)). lia.
  - intros pre post rest Hb Hs. cbn zeta. rewrite <- !app_assoc in *.
    assert (c = zlen l) as ->. { apply V1. rewrite !zlen_app in Hb. pose proof (zlen_nonneg pre). pose proof (zlen_nonneg post).
      pose proof (zlen_nonneg (le_bytes 4 c)). lia. }
    unfold r_list. unfold mbind, parse_bind. rewrite count_at by (done || lia).
    replace (Z.to_nat (zlen l)) with (length l) by (unfold zlen; lia).
    specialize (R2 (pre ++ le_bytes 4 (zlen l)) post rest). rewrite <- !app_assoc, (zlen_app pre (le_bytes 4 (zlen l))), zlen_le_bytes in R2.
    specialize (R2 Hb Hs). cbn zeta in R2. change (Z.of_nat 4) with 4 in *. rewrite R2. do 3 f_equal. lia.
Qed.

(** *** Any buffer: values or errors *)

Lemma accepts_ret {A : Type} (P : A → Prop) x : P x → accepts (mret x) P.
Proof. by intros Hx r Hr. Qed.

Lemma accepts_refuse {A : Type} (P : A → Prop) msg : accepts (refuse msg) P.
Proof. by intros r Hr. Qed.

Lemma accepts_bind {A B : Type} (p : Parse A) (q : A → Parse B) P Q :
  accepts p P → (∀ x, P x → accepts (q x) Q) → accepts (p ≫= q) Q.
Proof.
  intros Hp Hq r Hr. specialize (Hp r Hr). unfold mbind, parse_bind. destruct (p r) as [[x r']|[]]; [|done..].
  destruct Hp as [Hx Hr']. apply (Hq x Hx r' Hr').
Qed.

Lemma accepts_if {A : Type} (b : bool) (p q : Parse A) P : accepts p P → accepts q P → accepts (if b then p else q) P.
Proof. by destruct b. Qed.

Lemma accepts_mono {A : Type} (p : Parse A) (P Q : A → Prop) : (∀ x, P x → Q x) → accepts p P → accepts p Q.
Proof. intros HPQ Hp r Hr. specialize (Hp r Hr). destruct (p r) as [[x r']|[]]; [|done..]. destruct Hp. eauto. Qed.

Lemma slice_within b off len : 0 ≤ off → 0 ≤ len → off + len ≤ zlen b → ∃ s, r_slice b off len = Ok s ∧ zlen s = len.
Proof.
  intros Ho Hl Hb. destruct (slice b off len) as [s|] eqn:E.
  - exists s. unfold r_slice. rewrite E. split; [done|]. by apply slice_length in E.
  - exfalso. assert (is_Some (slice b off len)) as [? ?] by (by apply slice_is_Some). congruence.
Qed.

Lemma accepts_take n : 0 ≤ n < 2 ^ 63 → accepts (r_take n) (λ b, zlen b = n).
Proof.
  intros Hn r (Hp & Hb & Hs). unfold r_take, checked_add. destruct (Z.ltb_spec (r_pos r + n) (2 ^ 64)); [|lia].
  cbn [ok_or mbind result_bind]. destruct (Z.ltb_spec (zlen (r_body r)) (r_pos r + n)); [done|].
  destruct (slice_within (r_body r) (r_pos r) (r_pos r + n - r_pos r)) as (s & -> & Hl); [lia..|]. cbn.
  split; [lia|]. split; cbn; [lia|done].
Qed.

Lemma accepts_u32 : accepts r_u32 (inU 32).
Proof.
  apply (accepts_bind _ _ (λ b, zlen b = 4)); [by apply accepts_take|]. intros b Hb. apply accepts_ret.
  pose proof (le_val_range b) as Hv. rewrite Hb in Hv. exact Hv.
Qed.

Lemma accepts_i32 : accepts r_i32 (inS 32).
Proof. apply (accepts_bind _ _ _ _ accepts_u32). intros v _. apply accepts_ret, wrapS_range. lia. Qed.

Lemma accepts_bool32 : accepts r_bool32 (λ _, True).
Proof. apply (accepts_bind _ _ _ _ accepts_u32). intros v _. by apply accepts_ret. Qed.

Lemma accepts_count : accepts r_count (λ n, 0 ≤ n).
Proof.
  apply (accepts_bind _ _ _ _ accepts_u32). intros n Hn. apply (accepts_bind _ _ (λ _, True)); [by intros r Hr|].
  intros remaining _. apply accepts_if; [apply accepts_refuse|apply accepts_ret, Hn].
Qed.

Lemma accepts_blob o l : inU 32 o → inU 32 l → accepts (blob_slice o l) (λ _, True).
Proof.
  intros Ho Hl r Hr. unfold blob_slice, checked_add, inU in *. destruct (Z.ltb_spec (o + l) (2 ^ 64)); [|lia].
  cbn [ok_or mbind result_bind]. destruct (Z.ltb_spec (zlen (r_blob r)) (o + l)); [done|].
  by destruct (slice_within (r_blob r) o (o + l - o)) as (s & -> & _); [lia..|].
Qed.

Lemma accepts_utf8 msg b : accepts (utf8_or msg b) wf_str.
Proof.
  unfold utf8_or. destruct (from_utf8 b) as [s|] eqn:E; [|apply accepts_refuse].
  apply accepts_ret. by apply from_utf8_sound in E as [? _].
Qed.

Create HintDb codec.
#[export] Hint Resolve accepts_u32 accepts_i32 accepts_bool32 accepts_utf8 accepts_blob accepts_count : codec.
#[export] Hint Resolve emits_u32 emits_i32 emits_bool32 emits_str emits_opt_str emits_opt_bytes emits_opt_i32 emits_opt_bool : codec.

(** One read after the other; what was read is at hand for the rest. *)
Ltac accepts_tac :=
  repeat first
    [ apply accepts_refuse
    | apply accepts_if
    | eapply accepts_bind; [solve [eauto with codec]|intros ? ?]
    | apply accepts_ret
    | solve [eauto with codec] ].

Lemma accepts_str : accepts r_str wf_str.
Proof. unfold r_str. accepts_tac. Qed.

Lemma accepts_opt_str : accepts r_opt_str (opt_fits wf_str).
Proof. unfold r_opt_str. accepts_tac; done. Qed.

Lemma accepts_opt_bytes : accepts r_opt_bytes (λ _, True).
Proof. unfold r_opt_bytes. accepts_tac; done. Qed.

Lemma accepts_opt_i32 : accepts r_opt_i32 (opt_fits (inS 32)).
Proof. unfold r_opt_i32. accepts_tac. by destruct (_ =? 0). Qed.

Lemma accepts_opt_bool : accepts r_opt_bool (λ _, True).
Proof. unfold r_opt_bool. accepts_tac; done. Qed.

Lemma accepts_times {A : Type} (p : Parse A) P n : accepts p P → accepts (r_times n p) (Forall P).
Proof.
  intros Hp. induction n as [|n IH]; cbn [r_times]; [by apply accepts_ret|].
  apply (accepts_bind _ _ _ _ Hp). intros x Hx. apply (accepts_bind _ _ _ _ IH). intros l Hl. apply accepts_ret. by constructor.
Qed.

Lemma accepts_list {A : Type} (p : Parse A) P : accepts p P → accepts (r_list p) (Forall P).
Proof. intros Hp. unfold r_list. eapply accepts_bind; [apply accepts_count|]. intros n _. by apply accepts_times. Qed.

#[export] Hint Resolve accepts_str accepts_opt_str accepts_opt_bytes accepts_opt_i32 accepts_opt_bool accepts_list : codec.

Lemma emits_piece {A : Type} (m : Writer → Writer) (p : Parse A) x k : k = 0 ∨ k = 4 → emits 4 m p x → emits k m p x.
Proof. intros [->| ->]; [|done]. by apply emits_weak. Qed.

(** ** Whole buffers *)

(** The buffer of a writer: the envelope, the body, the blob. *)
Definition envelope (kind : Z) (w : Writer) : bytes :=
  le_bytes 4 MAGIC ++ le_bytes 4 kind ++ le_bytes 4 (zlen (w_body w)) ++ le_bytes 4 (zlen (w_blob w)) ++ w_body w ++ w_blob w.

Definition sizes_fit (w : Writer) : Prop := zlen (w_body w) < 2 ^ 32 ∧ zlen (w_blob w) < 2 ^ 32.
#[export] Instance sizes_fit_dec w : Decision (sizes_fit w).
Proof. unfold sizes_fit. apply _. Defined.

Lemma envelope_reads kind expected w :
  sizes_fit w → inU 32 kind → 
  Reader_new (envelope kind w) expected =
    if kind =? expected then Ok (mkReader (w_body w) (w_blob w) 0)
    else Err (AbiError (lit "payload kind " ++ show_u kind ++ lit " != expected " ++ show_u expected)).
Proof.
  intros [Hb Hs] Hk. pose proof (zlen_nonneg (w_body w)). pose proof (zlen_nonneg (w_blob w)).
  assert (zlen (envelope kind w) = 16 + zlen (w_body w) + zlen (w_blob w)) as Hl.
  { unfold envelope. rewrite !zlen_app, !zlen_le_bytes. lia. }
  assert (∀ pre v post, envelope kind w = pre ++ le_bytes 4 v ++ post → inU 32 v → 
    ∃ s, r_slice (envelope kind w) (zlen pre) 4 = Ok s ∧ le_val s = v) as Hword.
  { intros pre v post E Hv. exists (le_bytes 4 v). unfold r_slice. rewrite E, slice_app_l by done. split; [done|].
    rewrite le_val_le_bytes. change (256 ^ Z.of_nat 4) with (2 ^ 32). by apply Z.mod_small. }
  unfold Reader_new. rewrite Hl. destruct (Z.ltb_spec (16 + zlen (w_body w) + zlen (w_blob w)) 16); [lia|].
  destruct (Hword [] MAGIC _ eq_refl ltac:(done)) as (s & E & Hv). change (zlen []) with 0 in E. rewrite E. cbn [mbind result_bind].
  rewrite Hv, Z.eqb_refl. cbn [negb]. clear s E Hv.
  destruct (Hword (le_bytes 4 MAGIC) kind _ eq_refl Hk) as (s & E & Hv). change (zlen (le_bytes 4 MAGIC)) with 4 in E. rewrite E. cbn [mbind result_bind].
  rewrite Hv. destruct (Z.eqb_spec kind expected) as [<-|]; [|done]. cbn [negb]. clear s E Hv.
  destruct (Hword (le_bytes 4 MAGIC ++ le_bytes 4 kind) (zlen (w_body w)) (le_bytes 4 (zlen (w_blob w)) ++ w_body w ++ w_blob w)) as (s & E & Hv).
  { unfold envelope. by rewrite <- !app_assoc. } { split; lia. }
  rewrite zlen_app, !zlen_le_bytes in E. change (Z.of_nat 4 + Z.of_nat 4) with 8 in E. rewrite E. cbn [fmap result_fmap mbind result_bind]. rewrite Hv. clear s E Hv.
  destruct (Hword (le_bytes 4 MAGIC ++ le_bytes 4 kind ++ le_bytes 4 (zlen (w_body w))) (zlen (w_blob w)) (w_body w ++ w_blob w)) as (s & E & Hv).
  { unfold envelope. by rewrite <- !app_assoc. } { split; lia. }
  rewrite !zlen_app, !zlen_le_bytes in E. change (Z.of_nat 4 + (Z.of_nat 4 + Z.of_nat 4)) with 12 in E. rewrite E. cbn [fmap result_fmap mbind result_bind]. rewrite Hv. clear s E Hv.
  unfold checked_add. destruct (Z.ltb_spec (16 + zlen (w_body w)) (2 ^ 64)); [|lia]. cbn [mbind option_bind].
  destruct (Z.ltb_spec (16 + zlen (w_body w) + zlen (w_blob w)) (2 ^ 64)); [|lia]. cbn [ok_or mbind result_bind].
  rewrite Z.eqb_refl. cbn [negb].
  assert (envelope kind w = (le_bytes 4 MAGIC ++ le_bytes 4 kind ++ le_bytes 4 (zlen (w_body w)) ++ le_bytes 4 (zlen (w_blob w))) ++ w_body w ++ w_blob w) as E
    by (unfold envelope; by rewrite <- !app_assoc).
  assert (envelope kind w = ((le_bytes 4 MAGIC ++ le_bytes 4 kind ++ le_bytes 4 (zlen (w_body w)) ++ le_bytes 4 (zlen (w_blob w))) ++ w_body w) ++ w_blob w ++ []) as E'
    by (unfold envelope; rewrite app_nil_r; by rewrite <- !app_assoc).
  unfold r_slice. rewrite E at 1. rewrite slice_app_l by (rewrite ?zlen_app, ?zlen_le_bytes; lia). cbn [ok_or mbind result_bind].
  rewrite E'. rewrite slice_app_l by (rewrite ?zlen_app, ?zlen_le_bytes; lia). done.
Qed.

Lemma emits_buffer {A : Type} kind (m : Writer → Writer) (p : Parse A) x k :
  inU 32 kind → emits k m p x →
  let w := m Writer_new in
  if bool_decide (sizes_fit w)
  then encode_with kind m = Ok (envelope kind w) ∧ decode_with kind p (envelope kind w) = Ok x
  else ∃ msg, encode_with kind m = Err (AbiError msg).
Proof.
  intros Hk [H] w. destruct (H Writer_new) as (b & s & B & S & _ & O & R). fold w in B, S, O. cbn [Writer_new w_body w_blob w_overflow app] in *.
  unfold encode_with, w_finish, abi_len. fold w. case_bool_decide as Hfit.
  - pose proof Hfit as [Hb Hs]. assert (w_overflow w = false) as ->.
    { destruct (w_overflow w); [|done]. exfalso. destruct (O eq_refl) as [?|Ho]; [done|]. unfold oversized in Ho. lia. }
    destruct (Z.ltb_spec (zlen (w_body w)) (2 ^ 32)); [|lia]. destruct (Z.ltb_spec (zlen (w_blob w)) (2 ^ 32)); [|lia].
    split; [done|]. unfold decode_with. rewrite envelope_reads by done. rewrite Z.eqb_refl. cbn [mbind result_bind].
    specialize (R [] [] []). rewrite !app_nil_l, !app_nil_r, <- B, <- S in R. specialize (R Hb Hs). cbn zeta in R.
    change (zlen []) with 0 in R. rewrite R. cbn [mbind result_bind]. unfold r_finish. cbn [r_pos r_body].
    by rewrite Z.eqb_refl.
  - destruct (w_overflow w); [by eexists|]. unfold sizes_fit in Hfit.
    destruct (Z.ltb_spec (zlen (w_body w)) (2 ^ 32)); [|by eexists]. destruct (Z.ltb_spec (zlen (w_blob w)) (2 ^ 32)); [tauto|by eexists].
Qed.

Lemma accepts_buffer {A : Type} kind (p : Parse A) P buf :
  accepts p P → zlen buf < 2 ^ 63 →
  match decode_with kind p buf with
  | Ok x => P x
  | Err AbiPanic => False
  | Err (AbiError _) => True
  end.
Proof.
  intros Hp Hl. unfold decode_with, Reader_new. destruct (Z.ltb_spec (zlen buf) 16); [done|].
  destruct (slice_within buf 0 4) as (m & -> & _); [lia..|]. cbn [mbind result_bind]. destruct (negb _); [done|].
  destruct (slice_within buf 4 4) as (k & -> & _); [lia..|]. cbn [mbind result_bind]. destruct (negb _); [done|].
  destruct (slice_within buf 8 4) as (b & -> & Hb); [lia..|]. destruct (slice_within buf 12 4) as (s & -> & Hs); [lia..|].
  cbn [fmap result_fmap mbind result_bind]. pose proof (le_val_range b) as Rb. pose proof (le_val_range s) as Rs. rewrite Hb in Rb. rewrite Hs in Rs.
  destruct (checked_add 16 _ ≫= _) as [total|] eqn:E; [|done]. cbn [ok_or mbind result_bind].
  unfold checked_add in E. destruct (Z.ltb_spec (16 + le_val b) (2 ^ 64)); [|done]. cbn [mbind option_bind] in E.
  destruct (Z.ltb_spec (16 + le_val b + le_val s) (2 ^ 64)); [|done]. injection E as <-.
  destruct (Z.eqb_spec (16 + le_val b + le_val s) (zlen buf)) as [E|]; [|done]. cbn [negb].
  destruct (slice_within buf 16 (le_val b)) as (body & -> & Hbody); [lia..|]. cbn [mbind result_bind].
  destruct (slice_within buf (16 + le_val b) (zlen buf - (16 + le_val b))) as (blob & -> & Hblob); [lia..|]. cbn [mbind result_bind].
  specialize (Hp (mkReader body blob 0)). destruct (p _) as [[x r']|e]; cbn [mbind result_bind].
  - unfold r_finish. destruct (negb _); [done|]. cbn. apply Hp. split; cbn; lia.
  - apply Hp. split; cbn; lia.
Qed.
