(* ===== verification/PcPayloads.v ===== *)
(** The payloads of the presentation-compiler boundary ([ls-pc-abi/src/payloads.rs]): every carrier
    with its writer and reader, and the buffers they are sent in.

    [T_write] and [T_read] are the methods of the carrier [T], [T_encode] and [T_decode] the buffers;
    [w_list] is a count and the elements, [w_some] a presence flag and the value. *)

From S2P Require Import Prelude RustStr PcCodec.

Open Scope Z_scope.
Open Scope writer_scope.

Definition KIND_TARGET_CONFIG : Z := 1.
Definition KIND_DID_OPEN : Z := 2.
Definition KIND_DID_CHANGE : Z := 3.
Definition KIND_POSITION : Z := 4.
Definition KIND_RESOLVE_PARAMS : Z := 5.
Definition KIND_COMPLETION_LIST : Z := 6.
Definition KIND_COMPLETION_ITEM : Z := 7.
Definition KIND_HOVER : Z := 8.
Definition KIND_SIGNATURE_HELP : Z := 9.
Definition KIND_DEFINITION : Z := 10.
Definition KIND_PREPARE_RENAME : Z := 11.
Definition KIND_PLUGIN_STATUS : Z := 12.
Definition KIND_LOCATIONS : Z := 13.
Definition KIND_METHOD_HITS : Z := 14.
Definition KIND_INLAY_HINT_PARAMS : Z := 15.
Definition KIND_INLAY_HINTS : Z := 16.
Definition KIND_URI_PARAMS : Z := 17.
Definition KIND_SEMANTIC_TOKENS : Z := 18.
Definition KIND_SELECTION_RANGE_PARAMS : Z := 19.
Definition KIND_SELECTION_RANGES : Z := 20.
Definition KIND_CODE_ACTION_PARAMS : Z := 21.
Definition KIND_CODE_ACTION_EDITS : Z := 22.
Definition KIND_AUTO_IMPORT_PARAMS : Z := 23.
Definition KIND_AUTO_IMPORTS : Z := 24.
Definition KIND_PC_DIAGNOSTICS : Z := 25.
Definition KIND_FOLDING_RANGES : Z := 26.
Definition KIND_TOPLEVELS : Z := 27.

Definition bad_tag {A : Type} (what : list Z) (tag : Z) : Parse A :=
  refuse (lit "invalid " ++ what ++ lit " variant tag " ++ show_u tag).

Definition write_str_list : list (list Z) → Writer → Writer := w_list w_str.
Definition read_str_list : Parse (list (list Z)) := r_list r_str.

(** [match x { Some(v) => { w.u32(1); write(v) } None => w.u32(0) }] *)
Definition w_some {A : Type} (write : A → Writer → Writer) (o : option A) : Writer → Writer :=
  match o with
  | Some v => w_u32 1 ▷ write v
  | None => w_u32 0
  end.
(** [if r.u32()? != 0 { Some(read(r)?) } else { None }] *)
Definition r_some {A : Type} (read : Parse A) : Parse (option A) :=
  present ← r_u32;
  if negb (present =? 0) then x ← read; mret (Some x) else mret None.

Definition write_opt_str_list : option (list (list Z)) → Writer → Writer := w_some write_str_list.
Definition read_opt_str_list : Parse (option (list (list Z))) :=
  present ← r_u32;
  if present =? 0 then mret None else l ← read_str_list; mret (Some l).

(** ** Shared values *)

Record Rng := mkRng { rg_start_line : Z; rg_start_character : Z; rg_end_line : Z; rg_end_character : Z }.
Definition Rng_write (x : Rng) : Writer → Writer :=
  w_range (rg_start_line x) (rg_start_character x) (rg_end_line x) (rg_end_character x).
Definition Rng_read : Parse Rng := '(a, b, c, d) ← r_range; mret (mkRng a b c d).
Definition Rng_write_opt (range : option Rng) : Writer → Writer :=
  match range with
  | Some rng => w_u32 1 ▷ Rng_write rng
  | None => w_u32 0 ▷ w_range 0 0 0 0
  end.
Definition Rng_read_opt : Parse (option Rng) :=
  present ← r_u32; rng ← Rng_read; mret (if present =? 0 then None else Some rng).

Record Pos := mkPos { ps_line : Z; ps_character : Z }.
Definition Pos_write (x : Pos) : Writer → Writer := w_u32 (ps_line x) ▷ w_u32 (ps_character x).
Definition Pos_read : Parse Pos := line ← r_u32; character ← r_u32; mret (mkPos line character).
Definition Pos_write_opt (pos : option Pos) : Writer → Writer :=
  match pos with
  | Some p => w_u32 1 ▷ Pos_write p
  | None => w_u32 0 ▷ w_u32 0 ▷ w_u32 0
  end.
Definition Pos_read_opt : Parse (option Pos) :=
  present ← r_u32; pos ← Pos_read; mret (if present =? 0 then None else Some pos).

Record TextEdit := mkTextEdit { te_range : Rng; te_new_text : list Z }.
Definition TextEdit_write (x : TextEdit) : Writer → Writer := Rng_write (te_range x) ▷ w_str (te_new_text x).
Definition TextEdit_read : Parse TextEdit := range ← Rng_read; new_text ← r_str; mret (mkTextEdit range new_text).

Record InsertReplaceEdit := mkInsertReplaceEdit { ir_new_text : list Z; ir_insert : Rng; ir_replace : Rng }.
Inductive CompletionEdit :=
| EditPlain (edit : TextEdit)
| EditInsertReplace (edit : InsertReplaceEdit).
Definition CompletionEdit_write (x : CompletionEdit) : Writer → Writer :=
  match x with
  | EditPlain edit => w_u32 0 ▷ TextEdit_write edit
  | EditInsertReplace edit =>
      w_u32 1 ▷ w_str (ir_new_text edit) ▷ Rng_write (ir_insert edit) ▷ Rng_write (ir_replace edit)
  end.
Definition CompletionEdit_read : Parse CompletionEdit :=
  tag ← r_u32;
  if tag =? 0 then edit ← TextEdit_read; mret (EditPlain edit)
  else if tag =? 1 then
    new_text ← r_str; insert ← Rng_read; replace ← Rng_read;
    mret (EditInsertReplace (mkInsertReplaceEdit new_text insert replace))
  else bad_tag (lit "completion edit") tag.

Record MarkupContent := mkMarkupContent { mc_kind : list Z; mc_value : list Z }.
Definition MarkupContent_write (x : MarkupContent) : Writer → Writer := w_str (mc_kind x) ▷ w_str (mc_value x).
Definition MarkupContent_read : Parse MarkupContent := kind ← r_str; value ← r_str; mret (mkMarkupContent kind value).

Inductive Documentation :=
| DocPlain (s : list Z)
| DocMarkup (m : MarkupContent).
Definition Documentation_write_opt (doc : option Documentation) : Writer → Writer :=
  match doc with
  | None => w_u32 0
  | Some (DocPlain s) => w_u32 1 ▷ w_str s
  | Some (DocMarkup m) => w_u32 2 ▷ MarkupContent_write m
  end.
Definition Documentation_read_opt : Parse (option Documentation) :=
  tag ← r_u32;
  if tag =? 0 then mret None
  else if tag =? 1 then s ← r_str; mret (Some (DocPlain s))
  else if tag =? 2 then m ← MarkupContent_read; mret (Some (DocMarkup m))
  else bad_tag (lit "documentation") tag.

Record Location := mkLocation { lc_uri : list Z; lc_range : Rng; lc_origin : Z }.
Definition Location_write (x : Location) : Writer → Writer := w_str (lc_uri x) ▷ Rng_write (lc_range x) ▷ w_u32 (lc_origin x).
Definition Location_read : Parse Location := uri ← r_str; range ← Rng_read; origin ← r_u32; mret (mkLocation uri range origin).

(** ** Requests *)

Record TargetConfig := mkTargetConfig { tc_bsp_id : list Z; tc_scala_version : list Z; tc_classpath : list (list Z);
  tc_scalac_options : list (list Z); tc_source_dirs : list (list Z) }.
Definition TargetConfig_encode (x : TargetConfig) : result AbiStop bytes := encode_with KIND_TARGET_CONFIG
  (w_str (tc_bsp_id x) ▷ w_str (tc_scala_version x) ▷ write_str_list (tc_classpath x) ▷
   write_str_list (tc_scalac_options x) ▷ write_str_list (tc_source_dirs x)).
Definition TargetConfig_decode : bytes → result AbiStop TargetConfig := decode_with KIND_TARGET_CONFIG
  (bsp_id ← r_str; scala_version ← r_str; classpath ← read_str_list; scalac_options ← read_str_list;
   source_dirs ← read_str_list; mret (mkTargetConfig bsp_id scala_version classpath scalac_options source_dirs)).

Record DidOpenParams := mkDidOpenParams { do_target_id : list Z; do_uri : list Z; do_text : list Z }.
Definition DidOpenParams_encode (x : DidOpenParams) : result AbiStop bytes := encode_with KIND_DID_OPEN
  (w_str (do_target_id x) ▷ w_str (do_uri x) ▷ w_str (do_text x)).
Definition DidOpenParams_decode : bytes → result AbiStop DidOpenParams := decode_with KIND_DID_OPEN
  (target_id ← r_str; uri ← r_str; text ← r_str; mret (mkDidOpenParams target_id uri text)).

Record DidChangeParams := mkDidChangeParams { dc_uri : list Z; dc_text : list Z }.
Definition DidChangeParams_encode (x : DidChangeParams) : result AbiStop bytes := encode_with KIND_DID_CHANGE
  (w_str (dc_uri x) ▷ w_str (dc_text x)).
Definition DidChangeParams_decode : bytes → result AbiStop DidChangeParams := decode_with KIND_DID_CHANGE
  (uri ← r_str; text ← r_str; mret (mkDidChangeParams uri text)).

Record PositionParams := mkPositionParams { pp_uri : list Z; pp_line : Z; pp_character : Z }.
Definition PositionParams_encode (x : PositionParams) : result AbiStop bytes := encode_with KIND_POSITION
  (w_str (pp_uri x) ▷ w_u32 (pp_line x) ▷ w_u32 (pp_character x)).
Definition PositionParams_decode : bytes → result AbiStop PositionParams := decode_with KIND_POSITION
  (uri ← r_str; line ← r_u32; character ← r_u32; mret (mkPositionParams uri line character)).

(** ** Completion *)

Record LabelDetails := mkLabelDetails { ld_detail : option (list Z); ld_description : option (list Z) }.
Record Command := mkCommand { cm_title : list Z; cm_tooltip : option (list Z); cm_command : list Z; cm_arguments : option bytes }.

Record CompletionItem := mkCompletionItem {
  ci_label : list Z; ci_label_details : option LabelDetails; ci_kind : option Z; ci_tags : option (list Z);
  ci_detail : option (list Z); ci_documentation : option Documentation; ci_deprecated : option bool;
  ci_preselect : option bool; ci_sort_text : option (list Z); ci_filter_text : option (list Z);
  ci_insert_text : option (list Z); ci_insert_text_format : option Z; ci_insert_text_mode : option Z;
  ci_text_edit : option CompletionEdit; ci_text_edit_text : option (list Z);
  ci_additional_text_edits : option (list TextEdit); ci_commit_characters : option (list (list Z));
  ci_command : option Command; ci_data : option bytes }.

(** The two nested records are written in place by the item's methods. *)
Definition LabelDetails_write (d : LabelDetails) : Writer → Writer := w_opt_str (ld_detail d) ▷ w_opt_str (ld_description d).
Definition LabelDetails_read : Parse LabelDetails :=
  detail ← r_opt_str; description ← r_opt_str; mret (mkLabelDetails detail description).
Definition Command_write (c : Command) : Writer → Writer :=
  w_str (cm_title c) ▷ w_opt_str (cm_tooltip c) ▷ w_str (cm_command c) ▷ w_opt_bytes (cm_arguments c).
Definition Command_read : Parse Command :=
  title ← r_str; tooltip ← r_opt_str; command ← r_str; arguments ← r_opt_bytes;
  mret (mkCommand title tooltip command arguments).

Definition CompletionItem_write (x : CompletionItem) : Writer → Writer :=
  w_str (ci_label x) ▷
  w_some LabelDetails_write (ci_label_details x) ▷
  w_opt_i32 (ci_kind x) ▷
  w_some (w_list w_i32) (ci_tags x) ▷
  w_opt_str (ci_detail x) ▷
  Documentation_write_opt (ci_documentation x) ▷
  w_opt_bool (ci_deprecated x) ▷
  w_opt_bool (ci_preselect x) ▷
  w_opt_str (ci_sort_text x) ▷
  w_opt_str (ci_filter_text x) ▷
  w_opt_str (ci_insert_text x) ▷
  w_opt_i32 (ci_insert_text_format x) ▷
  w_opt_i32 (ci_insert_text_mode x) ▷
  w_some CompletionEdit_write (ci_text_edit x) ▷
  w_opt_str (ci_text_edit_text x) ▷
  w_some (w_list TextEdit_write) (ci_additional_text_edits x) ▷
  write_opt_str_list (ci_commit_characters x) ▷
  w_some Command_write (ci_command x) ▷
  w_opt_bytes (ci_data x).
Definition CompletionItem_read : Parse CompletionItem :=
  label ← r_str;
  label_details ← r_some LabelDetails_read;
  kind ← r_opt_i32;
  tags ← r_some (r_list r_i32);
  detail ← r_opt_str;
  documentation ← Documentation_read_opt;
  deprecated ← r_opt_bool;
  preselect ← r_opt_bool;
  sort_text ← r_opt_str;
  filter_text ← r_opt_str;
  insert_text ← r_opt_str;
  insert_text_format ← r_opt_i32;
  insert_text_mode ← r_opt_i32;
  text_edit ← r_some CompletionEdit_read;
  text_edit_text ← r_opt_str;
  additional_text_edits ← r_some (r_list TextEdit_read);
  commit_characters ← read_opt_str_list;
  command ← r_some Command_read;
  data ← r_opt_bytes;
  mret (mkCompletionItem label label_details kind tags detail documentation deprecated preselect sort_text filter_text
    insert_text insert_text_format insert_text_mode text_edit text_edit_text additional_text_edits commit_characters
    command data).
Definition CompletionItem_encode (x : CompletionItem) : result AbiStop bytes :=
  encode_with KIND_COMPLETION_ITEM (CompletionItem_write x).
Definition CompletionItem_decode : bytes → result AbiStop CompletionItem := decode_with KIND_COMPLETION_ITEM CompletionItem_read.

Record ResolveParams := mkResolveParams { rp_target_id : list Z; rp_symbol : list Z; rp_item : CompletionItem }.
Definition ResolveParams_encode (x : ResolveParams) : result AbiStop bytes := encode_with KIND_RESOLVE_PARAMS
  (w_str (rp_target_id x) ▷ w_str (rp_symbol x) ▷ CompletionItem_write (rp_item x)).
Definition ResolveParams_decode : bytes → result AbiStop ResolveParams := decode_with KIND_RESOLVE_PARAMS
  (target_id ← r_str; symbol ← r_str; item ← CompletionItem_read; mret (mkResolveParams target_id symbol item)).

Inductive EditRange :=
| ERange (range : Rng)
| EInsertReplace (insert replace : Rng).
Definition EditRange_write_opt (edit_range : option EditRange) : Writer → Writer :=
  match edit_range with
  | None => w_u32 0
  | Some (ERange range) => w_u32 1 ▷ Rng_write range
  | Some (EInsertReplace insert replace) => w_u32 2 ▷ Rng_write insert ▷ Rng_write replace
  end.
Definition EditRange_read_opt : Parse (option EditRange) :=
  tag ← r_u32;
  if tag =? 0 then mret None
  else if tag =? 1 then range ← Rng_read; mret (Some (ERange range))
  else if tag =? 2 then insert ← Rng_read; replace ← Rng_read; mret (Some (EInsertReplace insert replace))
  else bad_tag (lit "edit range") tag.

Record CompletionItemDefaults := mkCompletionItemDefaults { cd_commit_characters : option (list (list Z));
  cd_edit_range : option EditRange; cd_insert_text_format : option Z; cd_insert_text_mode : option Z; cd_data : option bytes }.
Definition CompletionItemDefaults_write (x : CompletionItemDefaults) : Writer → Writer :=
  write_opt_str_list (cd_commit_characters x) ▷ EditRange_write_opt (cd_edit_range x) ▷
  w_opt_i32 (cd_insert_text_format x) ▷ w_opt_i32 (cd_insert_text_mode x) ▷ w_opt_bytes (cd_data x).
Definition CompletionItemDefaults_read : Parse CompletionItemDefaults :=
  commit_characters ← read_opt_str_list; edit_range ← EditRange_read_opt; insert_text_format ← r_opt_i32;
  insert_text_mode ← r_opt_i32; data ← r_opt_bytes;
  mret (mkCompletionItemDefaults commit_characters edit_range insert_text_format insert_text_mode data).

Record CompletionApplyKind := mkCompletionApplyKind { ak_commit_characters : option Z; ak_data : option Z }.
Definition CompletionApplyKind_write_opt (apply_kind : option CompletionApplyKind) : Writer → Writer :=
  match apply_kind with
  | Some kind => w_u32 1 ▷ w_opt_i32 (ak_commit_characters kind) ▷ w_opt_i32 (ak_data kind)
  | None => w_u32 0
  end.
Definition CompletionApplyKind_read_opt : Parse (option CompletionApplyKind) :=
  present ← r_u32;
  if present =? 0 then mret None
  else commit_characters ← r_opt_i32; data ← r_opt_i32; mret (Some (mkCompletionApplyKind commit_characters data)).

Record CompletionList := mkCompletionList { cl_is_incomplete : bool; cl_item_defaults : option CompletionItemDefaults;
  cl_apply_kind : option CompletionApplyKind; cl_items : list CompletionItem }.
Definition CompletionList_encode (x : CompletionList) : result AbiStop bytes := encode_with KIND_COMPLETION_LIST
  (w_bool32 (cl_is_incomplete x) ▷ w_some CompletionItemDefaults_write (cl_item_defaults x) ▷
   CompletionApplyKind_write_opt (cl_apply_kind x) ▷ w_list CompletionItem_write (cl_items x)).
Definition CompletionList_decode : bytes → result AbiStop CompletionList := decode_with KIND_COMPLETION_LIST
  (is_incomplete ← r_bool32; item_defaults ← r_some CompletionItemDefaults_read; apply_kind ← CompletionApplyKind_read_opt;
   items ← r_list CompletionItem_read; mret (mkCompletionList is_incomplete item_defaults apply_kind items)).

(** ** Hover *)

Inductive MarkedStringItem :=
| MarkedPlain (s : list Z)
| MarkedCode (language value : list Z).
Inductive HoverContents :=
| HoverMarkup (m : MarkupContent)
| HoverMarked (items : list MarkedStringItem).

Definition MarkedStringItem_write (item : MarkedStringItem) : Writer → Writer :=
  match item with
  | MarkedPlain s => w_u32 0 ▷ w_str s
  | MarkedCode language value => w_u32 1 ▷ w_str language ▷ w_str value
  end.
Definition MarkedStringItem_read : Parse MarkedStringItem :=
  tag ← r_u32;
  if tag =? 0 then s ← r_str; mret (MarkedPlain s)
  else if tag =? 1 then language ← r_str; value ← r_str; mret (MarkedCode language value)
  else bad_tag (lit "marked string") tag.

Definition HoverContents_write (x : HoverContents) : Writer → Writer :=
  match x with
  | HoverMarkup markup => w_u32 0 ▷ MarkupContent_write markup
  | HoverMarked items => w_u32 1 ▷ w_list MarkedStringItem_write items
  end.
Definition HoverContents_read : Parse HoverContents :=
  tag ← r_u32;
  if tag =? 0 then m ← MarkupContent_read; mret (HoverMarkup m)
  else if tag =? 1 then items ← r_list MarkedStringItem_read; mret (HoverMarked items)
  else bad_tag (lit "hover contents") tag.

Record Hover := mkHover { hv_contents : HoverContents; hv_range : option Rng }.
Record HoverResult := mkHoverResult { hr_hover : option Hover }.
Definition Hover_write (h : Hover) : Writer → Writer := HoverContents_write (hv_contents h) ▷ Rng_write_opt (hv_range h).
Definition Hover_read : Parse Hover := contents ← HoverContents_read; range ← Rng_read_opt; mret (mkHover contents range).
Definition HoverResult_encode (x : HoverResult) : result AbiStop bytes := encode_with KIND_HOVER (w_some Hover_write (hr_hover x)).
Definition HoverResult_decode : bytes → result AbiStop HoverResult := decode_with KIND_HOVER
  (hover ← r_some Hover_read; mret (mkHoverResult hover)).

(** ** Signature help *)

Inductive ParameterLabel :=
| LabelStr (s : list Z)
| LabelOffsets (start last : Z).
Definition ParameterLabel_write (x : ParameterLabel) : Writer → Writer :=
  match x with
  | LabelStr s => w_u32 0 ▷ w_str s
  | LabelOffsets start last => w_u32 1 ▷ w_u32 start ▷ w_u32 last
  end.
Definition ParameterLabel_read : Parse ParameterLabel :=
  tag ← r_u32;
  if tag =? 0 then s ← r_str; mret (LabelStr s)
  else if tag =? 1 then start ← r_u32; last ← r_u32; mret (LabelOffsets start last)
  else bad_tag (lit "parameter label") tag.

Record ParameterInfo := mkParameterInfo { pi_label : ParameterLabel; pi_documentation : option Documentation }.
Record SignatureInfo := mkSignatureInfo { si_label : list Z; si_documentation : option Documentation;
  si_parameters : option (list ParameterInfo); si_active_parameter : option Z }.
Record SignatureHelp := mkSignatureHelp { sh_signatures : list SignatureInfo; sh_active_signature : option Z;
  sh_active_parameter : option Z }.

Definition ParameterInfo_write (x : ParameterInfo) : Writer → Writer :=
  ParameterLabel_write (pi_label x) ▷ Documentation_write_opt (pi_documentation x).
Definition ParameterInfo_read : Parse ParameterInfo :=
  label ← ParameterLabel_read; documentation ← Documentation_read_opt; mret (mkParameterInfo label documentation).
Definition SignatureInfo_write (x : SignatureInfo) : Writer → Writer :=
  w_str (si_label x) ▷ Documentation_write_opt (si_documentation x) ▷ w_some (w_list ParameterInfo_write) (si_parameters x) ▷
  w_opt_i32 (si_active_parameter x).
Definition SignatureInfo_read : Parse SignatureInfo :=
  label ← r_str; documentation ← Documentation_read_opt; parameters ← r_some (r_list ParameterInfo_read);
  active_parameter ← r_opt_i32; mret (mkSignatureInfo label documentation parameters active_parameter).
Definition SignatureHelp_encode (x : SignatureHelp) : result AbiStop bytes := encode_with KIND_SIGNATURE_HELP
  (w_list SignatureInfo_write (sh_signatures x) ▷ w_opt_i32 (sh_active_signature x) ▷ w_opt_i32 (sh_active_parameter x)).
Definition SignatureHelp_decode : bytes → result AbiStop SignatureHelp := decode_with KIND_SIGNATURE_HELP
  (signatures ← r_list SignatureInfo_read; active_signature ← r_opt_i32; active_parameter ← r_opt_i32;
   mret (mkSignatureHelp signatures active_signature active_parameter)).

(** ** Definitions and callbacks *)

Record DefinitionResult := mkDefinitionResult { df_symbol : list Z; df_locations : list Location }.
Definition DefinitionResult_encode (x : DefinitionResult) : result AbiStop bytes := encode_with KIND_DEFINITION
  (w_str (df_symbol x) ▷ w_list Location_write (df_locations x)).
Definition DefinitionResult_decode : bytes → result AbiStop DefinitionResult := decode_with KIND_DEFINITION
  (symbol ← r_str; locations ← r_list Location_read; mret (mkDefinitionResult symbol locations)).

Record LocationsResult := mkLocationsResult { lr_locations : list Location }.
Definition LocationsResult_encode (x : LocationsResult) : result AbiStop bytes := encode_with KIND_LOCATIONS
  (w_list Location_write (lr_locations x)).
Definition LocationsResult_decode : bytes → result AbiStop LocationsResult := decode_with KIND_LOCATIONS
  (locations ← r_list Location_read; mret (mkLocationsResult locations)).

Record MethodHit := mkMethodHit { mh_uri : list Z; mh_symbol : list Z; mh_kind : Z; mh_range : Rng }.
Definition MethodHit_write (x : MethodHit) : Writer → Writer :=
  w_str (mh_uri x) ▷ w_str (mh_symbol x) ▷ w_i32 (mh_kind x) ▷ Rng_write (mh_range x).
Definition MethodHit_read : Parse MethodHit :=
  uri ← r_str; symbol ← r_str; kind ← r_i32; range ← Rng_read; mret (mkMethodHit uri symbol kind range).
Record MethodHitsResult := mkMethodHitsResult { mr_hits : list MethodHit }.
Definition MethodHitsResult_encode (x : MethodHitsResult) : result AbiStop bytes := encode_with KIND_METHOD_HITS
  (w_list MethodHit_write (mr_hits x)).
Definition MethodHitsResult_decode : bytes → result AbiStop MethodHitsResult := decode_with KIND_METHOD_HITS
  (hits ← r_list MethodHit_read; mret (mkMethodHitsResult hits)).

Record PrepareRenameResult := mkPrepareRenameResult { pr_range : option Rng }.
Definition PrepareRenameResult_encode (x : PrepareRenameResult) : result AbiStop bytes := encode_with KIND_PREPARE_RENAME
  (Rng_write_opt (pr_range x)).
Definition PrepareRenameResult_decode : bytes → result AbiStop PrepareRenameResult := decode_with KIND_PREPARE_RENAME
  (range ← Rng_read_opt; mret (mkPrepareRenameResult range)).

(** ** Plugin status *)

Record CompilerPlugin := mkCompilerPlugin { cp_jars : list (list Z); cp_options : list (list Z); cp_loaded : bool; cp_detail : list Z }.
Record ServicePlugin := mkServicePlugin { sp_id : list Z; sp_source : list Z; sp_enabled : bool; sp_self_test_ok : bool;
  sp_self_test_detail : list Z }.
Record DisabledPlugin := mkDisabledPlugin { dp_id : list Z; dp_reason : list Z }.
Record PluginStatus := mkPluginStatus { pl_compiler_plugins : list CompilerPlugin; pl_service_plugins : list ServicePlugin;
  pl_disabled : list DisabledPlugin }.

Definition CompilerPlugin_write (x : CompilerPlugin) : Writer → Writer :=
  write_str_list (cp_jars x) ▷ write_str_list (cp_options x) ▷ w_bool32 (cp_loaded x) ▷ w_str (cp_detail x).
Definition CompilerPlugin_read : Parse CompilerPlugin :=
  jars ← read_str_list; options ← read_str_list; loaded ← r_bool32; detail ← r_str; mret (mkCompilerPlugin jars options loaded detail).
Definition ServicePlugin_write (x : ServicePlugin) : Writer → Writer :=
  w_str (sp_id x) ▷ w_str (sp_source x) ▷ w_bool32 (sp_enabled x) ▷ w_bool32 (sp_self_test_ok x) ▷ w_str (sp_self_test_detail x).
Definition ServicePlugin_read : Parse ServicePlugin :=
  id ← r_str; source ← r_str; enabled ← r_bool32; self_test_ok ← r_bool32; self_test_detail ← r_str;
  mret (mkServicePlugin id source enabled self_test_ok self_test_detail).
Definition DisabledPlugin_write (x : DisabledPlugin) : Writer → Writer := w_str (dp_id x) ▷ w_str (dp_reason x).
Definition DisabledPlugin_read : Parse DisabledPlugin := id ← r_str; reason ← r_str; mret (mkDisabledPlugin id reason).
Definition PluginStatus_encode (x : PluginStatus) : result AbiStop bytes := encode_with KIND_PLUGIN_STATUS
  (w_list CompilerPlugin_write (pl_compiler_plugins x) ▷ w_list ServicePlugin_write (pl_service_plugins x) ▷
   w_list DisabledPlugin_write (pl_disabled x)).
Definition PluginStatus_decode : bytes → result AbiStop PluginStatus := decode_with KIND_PLUGIN_STATUS
  (compiler_plugins ← r_list CompilerPlugin_read; service_plugins ← r_list ServicePlugin_read; disabled ← r_list DisabledPlugin_read;
   mret (mkPluginStatus compiler_plugins service_plugins disabled)).

(** ** Payload queries *)

Definition write_text_edit_list : list TextEdit → Writer → Writer := w_list TextEdit_write.
Definition read_text_edit_list : Parse (list TextEdit) := r_list TextEdit_read.

Record InlayHintParams := mkInlayHintParams { ip_uri : list Z; ip_range : Rng; ip_flags : Z }.
Definition InlayHintParams_encode (x : InlayHintParams) : result AbiStop bytes := encode_with KIND_INLAY_HINT_PARAMS
  (w_str (ip_uri x) ▷ Rng_write (ip_range x) ▷ w_u32 (ip_flags x)).
Definition InlayHintParams_decode : bytes → result AbiStop InlayHintParams := decode_with KIND_INLAY_HINT_PARAMS
  (uri ← r_str; range ← Rng_read; flags ← r_u32; mret (mkInlayHintParams uri range flags)).

Record InlayLabelPart := mkInlayLabelPart { il_text : list Z; il_location : option (list Z * Rng); il_tooltip : option (list Z) }.
Definition place_write (l : list Z * Rng) : Writer → Writer := w_str l.1 ▷ Rng_write l.2.
Definition place_read : Parse (list Z * Rng) := uri ← r_str; range ← Rng_read; mret (uri, range).
Definition InlayLabelPart_write (x : InlayLabelPart) : Writer → Writer :=
  w_str (il_text x) ▷ w_some place_write (il_location x) ▷ w_opt_str (il_tooltip x).
Definition InlayLabelPart_read : Parse InlayLabelPart :=
  text ← r_str; location ← r_some place_read; tooltip ← r_opt_str; mret (mkInlayLabelPart text location tooltip).

Record InlayHint := mkInlayHint { ih_position : Pos; ih_label_parts : list InlayLabelPart; ih_kind : Z; ih_padding_left : bool;
  ih_padding_right : bool; ih_text_edits : option (list TextEdit); ih_data : option bytes }.
Definition InlayHint_write (x : InlayHint) : Writer → Writer :=
  Pos_write (ih_position x) ▷ w_list InlayLabelPart_write (ih_label_parts x) ▷ w_i32 (ih_kind x) ▷ w_bool32 (ih_padding_left x) ▷
  w_bool32 (ih_padding_right x) ▷ w_some write_text_edit_list (ih_text_edits x) ▷ w_opt_bytes (ih_data x).
Definition InlayHint_read : Parse InlayHint :=
  position ← Pos_read; label_parts ← r_list InlayLabelPart_read; kind ← r_i32; padding_left ← r_bool32; padding_right ← r_bool32;
  text_edits ← r_some read_text_edit_list; data ← r_opt_bytes;
  mret (mkInlayHint position label_parts kind padding_left padding_right text_edits data).

Record InlayHintsResult := mkInlayHintsResult { ih_hints : list InlayHint }.
Definition InlayHintsResult_encode (x : InlayHintsResult) : result AbiStop bytes := encode_with KIND_INLAY_HINTS
  (w_list InlayHint_write (ih_hints x)).
Definition InlayHintsResult_decode : bytes → result AbiStop InlayHintsResult := decode_with KIND_INLAY_HINTS
  (hints ← r_list InlayHint_read; mret (mkInlayHintsResult hints)).

Record UriParams := mkUriParams { up_uri : list Z }.
Definition UriParams_encode (x : UriParams) : result AbiStop bytes := encode_with KIND_URI_PARAMS (w_str (up_uri x)).
Definition UriParams_decode : bytes → result AbiStop UriParams := decode_with KIND_URI_PARAMS (uri ← r_str; mret (mkUriParams uri)).

Record SemanticNode := mkSemanticNode { sn_start : Z; sn_end : Z; sn_token_type : Z; sn_token_modifier : Z }.
Record SemanticTokensResult := mkSemanticTokensResult { st_nodes : list SemanticNode }.
Definition SemanticNode_write (x : SemanticNode) : Writer → Writer :=
  w_u32 (sn_start x) ▷ w_u32 (sn_end x) ▷ w_i32 (sn_token_type x) ▷ w_i32 (sn_token_modifier x).
Definition SemanticNode_read : Parse SemanticNode :=
  start ← r_u32; last ← r_u32; token_type ← r_i32; token_modifier ← r_i32; mret (mkSemanticNode start last token_type token_modifier).
Definition SemanticTokensResult_encode (x : SemanticTokensResult) : result AbiStop bytes := encode_with KIND_SEMANTIC_TOKENS
  (w_list SemanticNode_write (st_nodes x)).
Definition SemanticTokensResult_decode : bytes → result AbiStop SemanticTokensResult := decode_with KIND_SEMANTIC_TOKENS
  (nodes ← r_list SemanticNode_read; mret (mkSemanticTokensResult nodes)).

Record SelectionRangeParams := mkSelectionRangeParams { sr_uri : list Z; sr_positions : list Pos }.
Definition SelectionRangeParams_encode (x : SelectionRangeParams) : result AbiStop bytes := encode_with KIND_SELECTION_RANGE_PARAMS
  (w_str (sr_uri x) ▷ w_list Pos_write (sr_positions x)).
Definition SelectionRangeParams_decode : bytes → result AbiStop SelectionRangeParams := decode_with KIND_SELECTION_RANGE_PARAMS
  (uri ← r_str; positions ← r_list Pos_read; mret (mkSelectionRangeParams uri positions)).

Record SelectionRangesResult := mkSelectionRangesResult { sr_chains : list (list Rng) }.
Definition SelectionRangesResult_encode (x : SelectionRangesResult) : result AbiStop bytes := encode_with KIND_SELECTION_RANGES
  (w_list (w_list Rng_write) (sr_chains x)).
Definition SelectionRangesResult_decode : bytes → result AbiStop SelectionRangesResult := decode_with KIND_SELECTION_RANGES
  (chains ← r_list (r_list Rng_read); mret (mkSelectionRangesResult chains)).

Record CodeActionParams := mkCodeActionParams { ca_uri : list Z; ca_action : Z; ca_position : Pos; ca_extraction_end : option Pos;
  ca_arg_indices : option (list Z) }.
Definition CodeActionParams_encode (x : CodeActionParams) : result AbiStop bytes := encode_with KIND_CODE_ACTION_PARAMS
  (w_str (ca_uri x) ▷ w_i32 (ca_action x) ▷ Pos_write (ca_position x) ▷ Pos_write_opt (ca_extraction_end x) ▷
   w_some (w_list w_i32) (ca_arg_indices x)).
Definition CodeActionParams_decode : bytes → result AbiStop CodeActionParams := decode_with KIND_CODE_ACTION_PARAMS
  (uri ← r_str; action ← r_i32; position ← Pos_read; extraction_end ← Pos_read_opt; arg_indices ← r_some (r_list r_i32);
   mret (mkCodeActionParams uri action position extraction_end arg_indices)).

Record CodeActionResult := mkCodeActionResult { ca_edits : list TextEdit; ca_refusal : option (list Z) }.
Definition CodeActionResult_encode (x : CodeActionResult) : result AbiStop bytes := encode_with KIND_CODE_ACTION_EDITS
  (write_text_edit_list (ca_edits x) ▷ w_opt_str (ca_refusal x)).
Definition CodeActionResult_decode : bytes → result AbiStop CodeActionResult := decode_with KIND_CODE_ACTION_EDITS
  (edits ← read_text_edit_list; refusal ← r_opt_str; mret (mkCodeActionResult edits refusal)).

Record AutoImportParams := mkAutoImportParams { ai_uri : list Z; ai_position : Pos; ai_name : list Z; ai_is_extension : bool }.
Definition AutoImportParams_encode (x : AutoImportParams) : result AbiStop bytes := encode_with KIND_AUTO_IMPORT_PARAMS
  (w_str (ai_uri x) ▷ Pos_write (ai_position x) ▷ w_str (ai_name x) ▷ w_bool32 (ai_is_extension x)).
Definition AutoImportParams_decode : bytes → result AbiStop AutoImportParams := decode_with KIND_AUTO_IMPORT_PARAMS
  (uri ← r_str; position ← Pos_read; name ← r_str; is_extension ← r_bool32; mret (mkAutoImportParams uri position name is_extension)).

Record AutoImport := mkAutoImport { am_package_name : list Z; am_edits : list TextEdit; am_symbol : option (list Z) }.
Record AutoImportsResult := mkAutoImportsResult { am_imports : list AutoImport }.
Definition AutoImport_write (x : AutoImport) : Writer → Writer :=
  w_str (am_package_name x) ▷ write_text_edit_list (am_edits x) ▷ w_opt_str (am_symbol x).
Definition AutoImport_read : Parse AutoImport :=
  package_name ← r_str; edits ← read_text_edit_list; symbol ← r_opt_str; mret (mkAutoImport package_name edits symbol).
Definition AutoImportsResult_encode (x : AutoImportsResult) : result AbiStop bytes := encode_with KIND_AUTO_IMPORTS
  (w_list AutoImport_write (am_imports x)).
Definition AutoImportsResult_decode : bytes → result AbiStop AutoImportsResult := decode_with KIND_AUTO_IMPORTS
  (imports ← r_list AutoImport_read; mret (mkAutoImportsResult imports)).

Record PcDiagnostic := mkPcDiagnostic { pd_range : Rng; pd_severity : Z; pd_code : list Z; pd_message : list Z }.
Record PcDiagnosticsResult := mkPcDiagnosticsResult { pd_diagnostics : list PcDiagnostic }.
Definition PcDiagnostic_write (x : PcDiagnostic) : Writer → Writer :=
  Rng_write (pd_range x) ▷ w_i32 (pd_severity x) ▷ w_str (pd_code x) ▷ w_str (pd_message x).
Definition PcDiagnostic_read : Parse PcDiagnostic :=
  range ← Rng_read; severity ← r_i32; code ← r_str; message ← r_str; mret (mkPcDiagnostic range severity code message).
Definition PcDiagnosticsResult_encode (x : PcDiagnosticsResult) : result AbiStop bytes := encode_with KIND_PC_DIAGNOSTICS
  (w_list PcDiagnostic_write (pd_diagnostics x)).
Definition PcDiagnosticsResult_decode : bytes → result AbiStop PcDiagnosticsResult := decode_with KIND_PC_DIAGNOSTICS
  (diagnostics ← r_list PcDiagnostic_read; mret (mkPcDiagnosticsResult diagnostics)).

Record FoldingRange := mkFoldingRange { fr_range : Rng; fr_kind : Z }.
Record FoldingRangesResult := mkFoldingRangesResult { fr_ranges : list FoldingRange }.
Definition FoldingRange_write (x : FoldingRange) : Writer → Writer := Rng_write (fr_range x) ▷ w_i32 (fr_kind x).
Definition FoldingRange_read : Parse FoldingRange := range ← Rng_read; kind ← r_i32; mret (mkFoldingRange range kind).
Definition FoldingRangesResult_encode (x : FoldingRangesResult) : result AbiStop bytes := encode_with KIND_FOLDING_RANGES
  (w_list FoldingRange_write (fr_ranges x)).
Definition FoldingRangesResult_decode : bytes → result AbiStop FoldingRangesResult := decode_with KIND_FOLDING_RANGES
  (ranges ← r_list FoldingRange_read; mret (mkFoldingRangesResult ranges)).

Record ToplevelsResult := mkToplevelsResult { tl_symbols : list (list Z) }.
Definition ToplevelsResult_encode (x : ToplevelsResult) : result AbiStop bytes := encode_with KIND_TOPLEVELS
  (write_str_list (tl_symbols x)).
Definition ToplevelsResult_decode : bytes → result AbiStop ToplevelsResult := decode_with KIND_TOPLEVELS
  (symbols ← read_str_list; mret (mkToplevelsResult symbols)).
