(* ===== verification/PcPayloadsOk.v ===== *)
(** The payloads of the presentation-compiler boundary: every carrier is read back as it was
    written, the buffer of one payload is refused by the decoders of the others, and no buffer makes
    a decoder panic or answer a value outside the carrier's Rust types ([T_fits]). *)

From S2P Require Import Prelude RustStr PcCodec PcPayloads.

Open Scope Z_scope.
Open Scope writer_scope.

(** ** The Rust types of the carriers *)

Definition Rng_fits (x : Rng) : Prop :=
  inU 32 (rg_start_line x) ∧ inU 32 (rg_start_character x) ∧ inU 32 (rg_end_line x) ∧ inU 32 (rg_end_character x).
Definition Pos_fits (x : Pos) : Prop :=
  inU 32 (ps_line x) ∧ inU 32 (ps_character x).
Definition TextEdit_fits (x : TextEdit) : Prop :=
  Rng_fits (te_range x) ∧ wf_str (te_new_text x).
Definition InsertReplaceEdit_fits (x : InsertReplaceEdit) : Prop :=
  wf_str (ir_new_text x) ∧ Rng_fits (ir_insert x) ∧ Rng_fits (ir_replace x).
Definition CompletionEdit_fits (x : CompletionEdit) : Prop :=
  match x with
  | EditPlain v0 => TextEdit_fits v0
  | EditInsertReplace v0 => InsertReplaceEdit_fits v0
  end.
Definition MarkupContent_fits (x : MarkupContent) : Prop :=
  wf_str (mc_kind x) ∧ wf_str (mc_value x).
Definition Documentation_fits (x : Documentation) : Prop :=
  match x with
  | DocPlain v0 => wf_str v0
  | DocMarkup v0 => MarkupContent_fits v0
  end.
Definition Location_fits (x : Location) : Prop :=
  wf_str (lc_uri x) ∧ Rng_fits (lc_range x) ∧ inU 32 (lc_origin x).
Definition TargetConfig_fits (x : TargetConfig) : Prop :=
  wf_str (tc_bsp_id x) ∧ wf_str (tc_scala_version x) ∧ Forall wf_str (tc_classpath x) ∧
  Forall wf_str (tc_scalac_options x) ∧ Forall wf_str (tc_source_dirs x).
Definition DidOpenParams_fits (x : DidOpenParams) : Prop :=
  wf_str (do_target_id x) ∧ wf_str (do_uri x) ∧ wf_str (do_text x).
Definition DidChangeParams_fits (x : DidChangeParams) : Prop :=
  wf_str (dc_uri x) ∧ wf_str (dc_text x).
Definition PositionParams_fits (x : PositionParams) : Prop :=
  wf_str (pp_uri x) ∧ inU 32 (pp_line x) ∧ inU 32 (pp_character x).
Definition LabelDetails_fits (x : LabelDetails) : Prop :=
  opt_fits wf_str (ld_detail x) ∧ opt_fits wf_str (ld_description x).
Definition Command_fits (x : Command) : Prop :=
  wf_str (cm_title x) ∧ opt_fits wf_str (cm_tooltip x) ∧ wf_str (cm_command x).
Definition CompletionItem_fits (x : CompletionItem) : Prop :=
  wf_str (ci_label x) ∧ opt_fits LabelDetails_fits (ci_label_details x) ∧ opt_fits (inS 32) (ci_kind x) ∧
  opt_fits (Forall (inS 32)) (ci_tags x) ∧ opt_fits wf_str (ci_detail x) ∧
  opt_fits Documentation_fits (ci_documentation x) ∧ opt_fits wf_str (ci_sort_text x) ∧
  opt_fits wf_str (ci_filter_text x) ∧ opt_fits wf_str (ci_insert_text x) ∧
  opt_fits (inS 32) (ci_insert_text_format x) ∧ opt_fits (inS 32) (ci_insert_text_mode x) ∧
  opt_fits CompletionEdit_fits (ci_text_edit x) ∧ opt_fits wf_str (ci_text_edit_text x) ∧
  opt_fits (Forall TextEdit_fits) (ci_additional_text_edits x) ∧ opt_fits (Forall wf_str) (ci_commit_characters x) ∧
  opt_fits Command_fits (ci_command x).
Definition ResolveParams_fits (x : ResolveParams) : Prop :=
  wf_str (rp_target_id x) ∧ wf_str (rp_symbol x) ∧ CompletionItem_fits (rp_item x).
Definition EditRange_fits (x : EditRange) : Prop :=
  match x with
  | ERange v0 => Rng_fits v0
  | EInsertReplace v0 v1 => Rng_fits v0 ∧ Rng_fits v1
  end.
Definition CompletionItemDefaults_fits (x : CompletionItemDefaults) : Prop :=
  opt_fits (Forall wf_str) (cd_commit_characters x) ∧ opt_fits EditRange_fits (cd_edit_range x) ∧
  opt_fits (inS 32) (cd_insert_text_format x) ∧ opt_fits (inS 32) (cd_insert_text_mode x).
Definition CompletionApplyKind_fits (x : CompletionApplyKind) : Prop :=
  opt_fits (inS 32) (ak_commit_characters x) ∧ opt_fits (inS 32) (ak_data x).
Definition CompletionList_fits (x : CompletionList) : Prop :=
  opt_fits CompletionItemDefaults_fits (cl_item_defaults x) ∧ opt_fits CompletionApplyKind_fits (cl_apply_kind x) ∧
  Forall CompletionItem_fits (cl_items x).
Definition MarkedStringItem_fits (x : MarkedStringItem) : Prop :=
  match x with
  | MarkedPlain v0 => wf_str v0
  | MarkedCode v0 v1 => wf_str v0 ∧ wf_str v1
  end.
Definition HoverContents_fits (x : HoverContents) : Prop :=
  match x with
  | HoverMarkup v0 => MarkupContent_fits v0
  | HoverMarked v0 => Forall MarkedStringItem_fits v0
  end.
Definition Hover_fits (x : Hover) : Prop :=
  HoverContents_fits (hv_contents x) ∧ opt_fits Rng_fits (hv_range x).
Definition HoverResult_fits (x : HoverResult) : Prop :=
  opt_fits Hover_fits (hr_hover x).
Definition ParameterLabel_fits (x : ParameterLabel) : Prop :=
  match x with
  | LabelStr v0 => wf_str v0
  | LabelOffsets v0 v1 => inU 32 v0 ∧ inU 32 v1
  end.
Definition ParameterInfo_fits (x : ParameterInfo) : Prop :=
  ParameterLabel_fits (pi_label x) ∧ opt_fits Documentation_fits (pi_documentation x).
Definition SignatureInfo_fits (x : SignatureInfo) : Prop :=
  wf_str (si_label x) ∧ opt_fits Documentation_fits (si_documentation x) ∧
  opt_fits (Forall ParameterInfo_fits) (si_parameters x) ∧ opt_fits (inS 32) (si_active_parameter x).
Definition SignatureHelp_fits (x : SignatureHelp) : Prop :=
  Forall SignatureInfo_fits (sh_signatures x) ∧ opt_fits (inS 32) (sh_active_signature x) ∧
  opt_fits (inS 32) (sh_active_parameter x).
Definition DefinitionResult_fits (x : DefinitionResult) : Prop :=
  wf_str (df_symbol x) ∧ Forall Location_fits (df_locations x).
Definition LocationsResult_fits (x : LocationsResult) : Prop :=
  Forall Location_fits (lr_locations x).
Definition MethodHit_fits (x : MethodHit) : Prop :=
  wf_str (mh_uri x) ∧ wf_str (mh_symbol x) ∧ inS 32 (mh_kind x) ∧ Rng_fits (mh_range x).
Definition MethodHitsResult_fits (x : MethodHitsResult) : Prop :=
  Forall MethodHit_fits (mr_hits x).
Definition PrepareRenameResult_fits (x : PrepareRenameResult) : Prop :=
  opt_fits Rng_fits (pr_range x).
Definition CompilerPlugin_fits (x : CompilerPlugin) : Prop :=
  Forall wf_str (cp_jars x) ∧ Forall wf_str (cp_options x) ∧ wf_str (cp_detail x).
Definition ServicePlugin_fits (x : ServicePlugin) : Prop :=
  wf_str (sp_id x) ∧ wf_str (sp_source x) ∧ wf_str (sp_self_test_detail x).
Definition DisabledPlugin_fits (x : DisabledPlugin) : Prop :=
  wf_str (dp_id x) ∧ wf_str (dp_reason x).
Definition PluginStatus_fits (x : PluginStatus) : Prop :=
  Forall CompilerPlugin_fits (pl_compiler_plugins x) ∧ Forall ServicePlugin_fits (pl_service_plugins x) ∧
  Forall DisabledPlugin_fits (pl_disabled x).
Definition InlayHintParams_fits (x : InlayHintParams) : Prop :=
  wf_str (ip_uri x) ∧ Rng_fits (ip_range x) ∧ inU 32 (ip_flags x).
Definition place_fits (x : list Z * Rng) : Prop := wf_str x.1 ∧ Rng_fits x.2.
Definition InlayLabelPart_fits (x : InlayLabelPart) : Prop :=
  wf_str (il_text x) ∧ opt_fits place_fits (il_location x) ∧ opt_fits wf_str (il_tooltip x).
Definition InlayHint_fits (x : InlayHint) : Prop :=
  Pos_fits (ih_position x) ∧ Forall InlayLabelPart_fits (ih_label_parts x) ∧ inS 32 (ih_kind x) ∧
  opt_fits (Forall TextEdit_fits) (ih_text_edits x).
Definition InlayHintsResult_fits (x : InlayHintsResult) : Prop :=
  Forall InlayHint_fits (ih_hints x).
Definition UriParams_fits (x : UriParams) : Prop :=
  wf_str (up_uri x).
Definition SemanticNode_fits (x : SemanticNode) : Prop :=
  inU 32 (sn_start x) ∧ inU 32 (sn_end x) ∧ inS 32 (sn_token_type x) ∧ inS 32 (sn_token_modifier x).
Definition SemanticTokensResult_fits (x : SemanticTokensResult) : Prop :=
  Forall SemanticNode_fits (st_nodes x).
Definition SelectionRangeParams_fits (x : SelectionRangeParams) : Prop :=
  wf_str (sr_uri x) ∧ Forall Pos_fits (sr_positions x).
Definition SelectionRangesResult_fits (x : SelectionRangesResult) : Prop :=
  Forall (Forall Rng_fits) (sr_chains x).
Definition CodeActionParams_fits (x : CodeActionParams) : Prop :=
  wf_str (ca_uri x) ∧ inS 32 (ca_action x) ∧ Pos_fits (ca_position x) ∧ opt_fits Pos_fits (ca_extraction_end x) ∧
  opt_fits (Forall (inS 32)) (ca_arg_indices x).
Definition CodeActionResult_fits (x : CodeActionResult) : Prop :=
  Forall TextEdit_fits (ca_edits x) ∧ opt_fits wf_str (ca_refusal x).
Definition AutoImportParams_fits (x : AutoImportParams) : Prop :=
  wf_str (ai_uri x) ∧ Pos_fits (ai_position x) ∧ wf_str (ai_name x).
Definition AutoImport_fits (x : AutoImport) : Prop :=
  wf_str (am_package_name x) ∧ Forall TextEdit_fits (am_edits x) ∧ opt_fits wf_str (am_symbol x).
Definition AutoImportsResult_fits (x : AutoImportsResult) : Prop :=
  Forall AutoImport_fits (am_imports x).
Definition PcDiagnostic_fits (x : PcDiagnostic) : Prop :=
  Rng_fits (pd_range x) ∧ inS 32 (pd_severity x) ∧ wf_str (pd_code x) ∧ wf_str (pd_message x).
Definition PcDiagnosticsResult_fits (x : PcDiagnosticsResult) : Prop :=
  Forall PcDiagnostic_fits (pd_diagnostics x).
Definition FoldingRange_fits (x : FoldingRange) : Prop :=
  Rng_fits (fr_range x) ∧ inS 32 (fr_kind x).
Definition FoldingRangesResult_fits (x : FoldingRangesResult) : Prop :=
  Forall FoldingRange_fits (fr_ranges x).
Definition ToplevelsResult_fits (x : ToplevelsResult) : Prop :=
  Forall wf_str (tl_symbols x).

(** ** Optional values and lists *)

Lemma emits_some {A : Type} (write : A → Writer → Writer) (p : Parse A) (P : A → Prop) o :
  (∀ x, P x → emits 4 (write x) p x) → opt_fits P o → emits 4 (w_some write o) (r_some p) o.
Proof.
  intros Hp Ho. destruct o as [x|]; [|by apply emits_word]. eapply emits_bind; [by apply emits_u32|].
  cbn. apply (emits_last _ _ Some). eapply emits_weak, Hp; done.
Qed.

Lemma accepts_some {A : Type} (p : Parse A) P : accepts p P → accepts (r_some p) (opt_fits P).
Proof. intros Hp. unfold r_some. accepts_tac; done. Qed.

Lemma emits_all {A : Type} (write : A → Writer → Writer) (p : Parse A) (P : A → Prop) l :
  (∀ x, P x → emits 4 (write x) p x) → Forall P l → emits 4 (w_list write l) (r_list p) l.
Proof. intros Hp Hl. apply emits_list. eapply Forall_impl; eauto. Qed.

#[export] Hint Resolve accepts_some : codec.

(** A component of a carrier: a primitive, or a carrier, list or optional value of its own. *)
Ltac emits_hint :=
  first [ solve [eauto with codec]
        | eapply emits_some; [intros ? ?; emits_hint|eassumption]
        | eapply emits_all; [intros ? ?; emits_hint|eassumption] ].
Ltac emits_part := apply emits_piece; [lia|emits_hint].
Ltac emits_parts :=
  first
    [ emits_part
    | match goal with |- emits _ (_ ▷ _) _ _ => eapply emits_bind; [emits_part|cbn beta iota; emits_parts] end
    | eapply emits_end; [emits_part|reflexivity] ].
Ltac split_fits := cbn beta iota; repeat match goal with |- _ ∧ _ => split end; first [eassumption|exact I].
Ltac accepts_parts := accepts_tac; split_fits.

(** ** The carriers *)

Lemma str_list_emits l : Forall wf_str l → emits 4 (write_str_list l) read_str_list l.
Proof. apply emits_all. eauto with codec. Qed.
Lemma str_list_accepts : accepts read_str_list (Forall wf_str).
Proof. apply accepts_list. eauto with codec. Qed.
#[export] Hint Resolve str_list_emits str_list_accepts : codec.
Lemma opt_str_list_emits o : opt_fits (Forall wf_str) o → emits 4 (write_opt_str_list o) read_opt_str_list o.
Proof.
  intros Ho. destruct o as [l|]; [|by apply emits_word]. eapply (emits_bind _ _ r_u32 _ 1); [by apply emits_u32|cbn].
  eapply emits_end; [|reflexivity]. eapply emits_weak, str_list_emits; done.
Qed.
Lemma opt_str_list_accepts : accepts read_opt_str_list (opt_fits (Forall wf_str)).
Proof. unfold read_opt_str_list. accepts_tac; done. Qed.
#[export] Hint Resolve opt_str_list_emits opt_str_list_accepts : codec.


Lemma Rng_emits x : Rng_fits x → emits 4 (Rng_write x) Rng_read x.
Proof.
  destruct x as [a b c d]. intros (Ha & Hb & Hc & Hd). cbn in *. unfold Rng_write. cbn.
  eapply (emits_end _ _ _ _ (a, b, c, d)); [|done]. 
  unfold w_range, r_range. emits_parts.
Qed.
Lemma Rng_accepts : accepts Rng_read Rng_fits.
Proof.
  unfold Rng_read. eapply (accepts_bind _ _ (λ q : Z * Z * Z * Z, inU 32 q.1.1.1 ∧ inU 32 q.1.1.2 ∧ inU 32 q.1.2 ∧ inU 32 q.2)).
  - unfold r_range. accepts_parts.
  - intros [[[a b] c] d] H. by apply accepts_ret.
Qed.
#[export] Hint Resolve Rng_emits Rng_accepts : codec.
Lemma Rng_opt_emits o : opt_fits Rng_fits o → emits 4 (Rng_write_opt o) Rng_read_opt o.
Proof.
  intros Ho. destruct o as [x|]; (eapply (emits_bind _ _ r_u32); [by apply emits_u32|]); cbn [Z.eqb].
  - apply (emits_last _ _ Some x). eapply emits_weak, Rng_emits; done.
  - apply (emits_last _ _ (λ _, None) (mkRng 0 0 0 0)). eapply emits_weak, (Rng_emits (mkRng 0 0 0 0)); done.
Qed.
Lemma Rng_opt_accepts : accepts Rng_read_opt (opt_fits Rng_fits).
Proof. unfold Rng_read_opt. accepts_tac. by destruct (_ =? 0). Qed.
#[export] Hint Resolve Rng_opt_emits Rng_opt_accepts : codec.

Lemma Pos_emits x : Pos_fits x → emits 4 (Pos_write x) Pos_read x.
Proof. destruct x; unfold Pos_fits, Pos_write, Pos_read; cbn; intros; destruct_and?. emits_parts. Qed.
Lemma Pos_accepts : accepts Pos_read Pos_fits.
Proof. unfold Pos_read, Pos_fits. accepts_parts. Qed.
#[export] Hint Resolve Pos_emits Pos_accepts : codec.

Lemma Pos_opt_emits o : opt_fits Pos_fits o → emits 4 (Pos_write_opt o) Pos_read_opt o.
Proof.
  intros Ho. destruct o as [x|]; (eapply (emits_bind _ _ r_u32); [by apply emits_u32|]); cbn [Z.eqb].
  - apply (emits_last _ _ Some x). eapply emits_weak, Pos_emits; done.
  - apply (emits_last _ _ (λ _, None) (mkPos 0 0)). eapply emits_weak, (Pos_emits (mkPos 0 0)); done.
Qed.
Lemma Pos_opt_accepts : accepts Pos_read_opt (opt_fits Pos_fits).
Proof. unfold Pos_read_opt. accepts_tac. by destruct (_ =? 0). Qed.
#[export] Hint Resolve Pos_opt_emits Pos_opt_accepts : codec.

Lemma TextEdit_emits x : TextEdit_fits x → emits 4 (TextEdit_write x) TextEdit_read x.
Proof. destruct x; unfold TextEdit_fits, TextEdit_write, TextEdit_read; cbn; intros; destruct_and?. emits_parts. Qed.
Lemma TextEdit_accepts : accepts TextEdit_read TextEdit_fits.
Proof. unfold TextEdit_read, TextEdit_fits. accepts_parts. Qed.
#[export] Hint Resolve TextEdit_emits TextEdit_accepts : codec.

Lemma text_edits_emits l : Forall TextEdit_fits l → emits 4 (write_text_edit_list l) read_text_edit_list l.
Proof. apply emits_all. eauto with codec. Qed.
Lemma text_edits_accepts : accepts read_text_edit_list (Forall TextEdit_fits).
Proof. apply accepts_list. eauto with codec. Qed.
#[export] Hint Resolve text_edits_emits text_edits_accepts : codec.

Lemma CompletionEdit_emits x : CompletionEdit_fits x → emits 4 (CompletionEdit_write x) CompletionEdit_read x.
Proof.
  destruct x; [|destruct edit]; unfold CompletionEdit_fits, InsertReplaceEdit_fits, CompletionEdit_write, CompletionEdit_read; cbn; intros; destruct_and?;
    (eapply (emits_bind _ _ r_u32); [by apply emits_u32|cbn]); emits_parts.
Qed.
Lemma CompletionEdit_accepts : accepts CompletionEdit_read CompletionEdit_fits.
Proof. unfold CompletionEdit_read, CompletionEdit_fits, InsertReplaceEdit_fits, bad_tag. accepts_parts. Qed.
#[export] Hint Resolve CompletionEdit_emits CompletionEdit_accepts : codec.

Lemma MarkupContent_emits x : MarkupContent_fits x → emits 4 (MarkupContent_write x) MarkupContent_read x.
Proof. destruct x; unfold MarkupContent_fits, MarkupContent_write, MarkupContent_read; cbn; intros; destruct_and?. emits_parts. Qed.
Lemma MarkupContent_accepts : accepts MarkupContent_read MarkupContent_fits.
Proof. unfold MarkupContent_read, MarkupContent_fits. accepts_parts. Qed.
#[export] Hint Resolve MarkupContent_emits MarkupContent_accepts : codec.

Lemma Documentation_emits o : opt_fits Documentation_fits o → emits 4 (Documentation_write_opt o) Documentation_read_opt o.
Proof.
  destruct o as [[]|]; [..|intros _; by apply emits_word]; unfold Documentation_fits, Documentation_write_opt, Documentation_read_opt; cbn; intros; destruct_and?;
    (eapply (emits_bind _ _ r_u32); [by apply emits_u32|cbn]); emits_parts.
Qed.
Lemma Documentation_accepts : accepts Documentation_read_opt (opt_fits Documentation_fits).
Proof. unfold Documentation_read_opt, Documentation_fits, opt_fits, bad_tag. accepts_parts. Qed.
#[export] Hint Resolve Documentation_emits Documentation_accepts : codec.

Lemma Location_emits x : Location_fits x → emits 4 (Location_write x) Location_read x.
Proof. destruct x; unfold Location_fits, Location_write, Location_read; cbn; intros; destruct_and?. emits_parts. Qed.
Lemma Location_accepts : accepts Location_read Location_fits.
Proof. unfold Location_read, Location_fits. accepts_parts. Qed.
#[export] Hint Resolve Location_emits Location_accepts : codec.

Lemma LabelDetails_emits x : LabelDetails_fits x → emits 4 (LabelDetails_write x) LabelDetails_read x.
Proof. destruct x; unfold LabelDetails_fits, LabelDetails_write, LabelDetails_read; cbn; intros; destruct_and?. emits_parts. Qed.
Lemma LabelDetails_accepts : accepts LabelDetails_read LabelDetails_fits.
Proof. unfold LabelDetails_read, LabelDetails_fits. accepts_parts. Qed.
#[export] Hint Resolve LabelDetails_emits LabelDetails_accepts : codec.

Lemma Command_emits x : Command_fits x → emits 4 (Command_write x) Command_read x.
Proof. destruct x; unfold Command_fits, Command_write, Command_read; cbn; intros; destruct_and?. emits_parts. Qed.
Lemma Command_accepts : accepts Command_read Command_fits.
Proof. unfold Command_read, Command_fits. accepts_parts. Qed.
#[export] Hint Resolve Command_emits Command_accepts : codec.

Lemma CompletionItem_emits x : CompletionItem_fits x → emits 4 (CompletionItem_write x) CompletionItem_read x.
Proof. destruct x; unfold CompletionItem_fits, CompletionItem_write, CompletionItem_read; cbn; intros; destruct_and?. emits_parts. Qed.
Lemma CompletionItem_accepts : accepts CompletionItem_read CompletionItem_fits.
Proof. unfold CompletionItem_read, CompletionItem_fits. accepts_parts. Qed.
#[export] Hint Resolve CompletionItem_emits CompletionItem_accepts : codec.

Lemma EditRange_emits o : opt_fits EditRange_fits o → emits 4 (EditRange_write_opt o) EditRange_read_opt o.
Proof.
  destruct o as [[]|]; [..|intros _; by apply emits_word]; unfold EditRange_fits, EditRange_write_opt, EditRange_read_opt; cbn; intros; destruct_and?;
    (eapply (emits_bind _ _ r_u32); [by apply emits_u32|cbn]); emits_parts.
Qed.
Lemma EditRange_accepts : accepts EditRange_read_opt (opt_fits EditRange_fits).
Proof. unfold EditRange_read_opt, EditRange_fits, opt_fits, bad_tag. accepts_parts. Qed.
#[export] Hint Resolve EditRange_emits EditRange_accepts : codec.

Lemma CompletionItemDefaults_emits x : CompletionItemDefaults_fits x → emits 4 (CompletionItemDefaults_write x) CompletionItemDefaults_read x.
Proof. destruct x; unfold CompletionItemDefaults_fits, CompletionItemDefaults_write, CompletionItemDefaults_read; cbn; intros; destruct_and?. emits_parts. Qed.
Lemma CompletionItemDefaults_accepts : accepts CompletionItemDefaults_read CompletionItemDefaults_fits.
Proof. unfold CompletionItemDefaults_read, CompletionItemDefaults_fits. accepts_parts. Qed.
#[export] Hint Resolve CompletionItemDefaults_emits CompletionItemDefaults_accepts : codec.

Lemma CompletionApplyKind_emits o : opt_fits CompletionApplyKind_fits o → emits 4 (CompletionApplyKind_write_opt o) CompletionApplyKind_read_opt o.
Proof.
  destruct o as [[]|]; [..|intros _; by apply emits_word]; unfold CompletionApplyKind_fits, CompletionApplyKind_write_opt, CompletionApplyKind_read_opt; cbn; intros; destruct_and?;
    (eapply (emits_bind _ _ r_u32); [by apply emits_u32|cbn]); emits_parts.
Qed.
Lemma CompletionApplyKind_accepts : accepts CompletionApplyKind_read_opt (opt_fits CompletionApplyKind_fits).
Proof. unfold CompletionApplyKind_read_opt, CompletionApplyKind_fits, opt_fits, bad_tag. accepts_parts. Qed.
#[export] Hint Resolve CompletionApplyKind_emits CompletionApplyKind_accepts : codec.

Lemma MarkedStringItem_emits x : MarkedStringItem_fits x → emits 4 (MarkedStringItem_write x) MarkedStringItem_read x.
Proof.
  destruct x; unfold MarkedStringItem_fits, MarkedStringItem_write, MarkedStringItem_read; cbn; intros; destruct_and?;
    (eapply (emits_bind _ _ r_u32); [by apply emits_u32|cbn]); emits_parts.
Qed.
Lemma MarkedStringItem_accepts : accepts MarkedStringItem_read MarkedStringItem_fits.
Proof. unfold MarkedStringItem_read, MarkedStringItem_fits, bad_tag. accepts_parts. Qed.
#[export] Hint Resolve MarkedStringItem_emits MarkedStringItem_accepts : codec.

Lemma HoverContents_emits x : HoverContents_fits x → emits 4 (HoverContents_write x) HoverContents_read x.
Proof.
  destruct x; unfold HoverContents_fits, HoverContents_write, HoverContents_read; cbn; intros; destruct_and?;
    (eapply (emits_bind _ _ r_u32); [by apply emits_u32|cbn]); emits_parts.
Qed.
Lemma HoverContents_accepts : accepts HoverContents_read HoverContents_fits.
Proof. unfold HoverContents_read, HoverContents_fits, bad_tag. accepts_parts. Qed.
#[export] Hint Resolve HoverContents_emits HoverContents_accepts : codec.

Lemma Hover_emits x : Hover_fits x → emits 4 (Hover_write x) Hover_read x.
Proof. destruct x; unfold Hover_fits, Hover_write, Hover_read; cbn; intros; destruct_and?. emits_parts. Qed.
Lemma Hover_accepts : accepts Hover_read Hover_fits.
Proof. unfold Hover_read, Hover_fits. accepts_parts. Qed.
#[export] Hint Resolve Hover_emits Hover_accepts : codec.

Lemma ParameterLabel_emits x : ParameterLabel_fits x → emits 4 (ParameterLabel_write x) ParameterLabel_read x.
Proof.
  destruct x; unfold ParameterLabel_fits, ParameterLabel_write, ParameterLabel_read; cbn; intros; destruct_and?;
    (eapply (emits_bind _ _ r_u32); [by apply emits_u32|cbn]); emits_parts.
Qed.
Lemma ParameterLabel_accepts : accepts ParameterLabel_read ParameterLabel_fits.
Proof. unfold ParameterLabel_read, ParameterLabel_fits, bad_tag. accepts_parts. Qed.
#[export] Hint Resolve ParameterLabel_emits ParameterLabel_accepts : codec.

Lemma ParameterInfo_emits x : ParameterInfo_fits x → emits 4 (ParameterInfo_write x) ParameterInfo_read x.
Proof. destruct x; unfold ParameterInfo_fits, ParameterInfo_write, ParameterInfo_read; cbn; intros; destruct_and?. emits_parts. Qed.
Lemma ParameterInfo_accepts : accepts ParameterInfo_read ParameterInfo_fits.
Proof. unfold ParameterInfo_read, ParameterInfo_fits. accepts_parts. Qed.
#[export] Hint Resolve ParameterInfo_emits ParameterInfo_accepts : codec.

Lemma SignatureInfo_emits x : SignatureInfo_fits x → emits 4 (SignatureInfo_write x) SignatureInfo_read x.
Proof. destruct x; unfold SignatureInfo_fits, SignatureInfo_write, SignatureInfo_read; cbn; intros; destruct_and?. emits_parts. Qed.
Lemma SignatureInfo_accepts : accepts SignatureInfo_read SignatureInfo_fits.
Proof. unfold SignatureInfo_read, SignatureInfo_fits. accepts_parts. Qed.
#[export] Hint Resolve SignatureInfo_emits SignatureInfo_accepts : codec.

Lemma MethodHit_emits x : MethodHit_fits x → emits 4 (MethodHit_write x) MethodHit_read x.
Proof. destruct x; unfold MethodHit_fits, MethodHit_write, MethodHit_read; cbn; intros; destruct_and?. emits_parts. Qed.
Lemma MethodHit_accepts : accepts MethodHit_read MethodHit_fits.
Proof. unfold MethodHit_read, MethodHit_fits. accepts_parts. Qed.
#[export] Hint Resolve MethodHit_emits MethodHit_accepts : codec.

Lemma CompilerPlugin_emits x : CompilerPlugin_fits x → emits 4 (CompilerPlugin_write x) CompilerPlugin_read x.
Proof. destruct x; unfold CompilerPlugin_fits, CompilerPlugin_write, CompilerPlugin_read; cbn; intros; destruct_and?. emits_parts. Qed.
Lemma CompilerPlugin_accepts : accepts CompilerPlugin_read CompilerPlugin_fits.
Proof. unfold CompilerPlugin_read, CompilerPlugin_fits. accepts_parts. Qed.
#[export] Hint Resolve CompilerPlugin_emits CompilerPlugin_accepts : codec.

Lemma ServicePlugin_emits x : ServicePlugin_fits x → emits 4 (ServicePlugin_write x) ServicePlugin_read x.
Proof. destruct x; unfold ServicePlugin_fits, ServicePlugin_write, ServicePlugin_read; cbn; intros; destruct_and?. emits_parts. Qed.
Lemma ServicePlugin_accepts : accepts ServicePlugin_read ServicePlugin_fits.
Proof. unfold ServicePlugin_read, ServicePlugin_fits. accepts_parts. Qed.
#[export] Hint Resolve ServicePlugin_emits ServicePlugin_accepts : codec.

Lemma DisabledPlugin_emits x : DisabledPlugin_fits x → emits 4 (DisabledPlugin_write x) DisabledPlugin_read x.
Proof. destruct x; unfold DisabledPlugin_fits, DisabledPlugin_write, DisabledPlugin_read; cbn; intros; destruct_and?. emits_parts. Qed.
Lemma DisabledPlugin_accepts : accepts DisabledPlugin_read DisabledPlugin_fits.
Proof. unfold DisabledPlugin_read, DisabledPlugin_fits. accepts_parts. Qed.
#[export] Hint Resolve DisabledPlugin_emits DisabledPlugin_accepts : codec.

Lemma place_emits x : place_fits x → emits 4 (place_write x) place_read x.
Proof. destruct x; unfold place_fits, place_write, place_read; cbn; intros; destruct_and?. emits_parts. Qed.
Lemma place_accepts : accepts place_read place_fits.
Proof. unfold place_read, place_fits. accepts_parts. Qed.
#[export] Hint Resolve place_emits place_accepts : codec.

Lemma InlayLabelPart_emits x : InlayLabelPart_fits x → emits 4 (InlayLabelPart_write x) InlayLabelPart_read x.
Proof. destruct x; unfold InlayLabelPart_fits, InlayLabelPart_write, InlayLabelPart_read; cbn; intros; destruct_and?. emits_parts. Qed.
Lemma InlayLabelPart_accepts : accepts InlayLabelPart_read InlayLabelPart_fits.
Proof. unfold InlayLabelPart_read, InlayLabelPart_fits. accepts_parts. Qed.
#[export] Hint Resolve InlayLabelPart_emits InlayLabelPart_accepts : codec.

Lemma InlayHint_emits x : InlayHint_fits x → emits 4 (InlayHint_write x) InlayHint_read x.
Proof. destruct x; unfold InlayHint_fits, InlayHint_write, InlayHint_read; cbn; intros; destruct_and?. emits_parts. Qed.
Lemma InlayHint_accepts : accepts InlayHint_read InlayHint_fits.
Proof. unfold InlayHint_read, InlayHint_fits. accepts_parts. Qed.
#[export] Hint Resolve InlayHint_emits InlayHint_accepts : codec.

Lemma SemanticNode_emits x : SemanticNode_fits x → emits 4 (SemanticNode_write x) SemanticNode_read x.
Proof. destruct x; unfold SemanticNode_fits, SemanticNode_write, SemanticNode_read; cbn; intros; destruct_and?. emits_parts. Qed.
Lemma SemanticNode_accepts : accepts SemanticNode_read SemanticNode_fits.
Proof. unfold SemanticNode_read, SemanticNode_fits. accepts_parts. Qed.
#[export] Hint Resolve SemanticNode_emits SemanticNode_accepts : codec.

Lemma AutoImport_emits x : AutoImport_fits x → emits 4 (AutoImport_write x) AutoImport_read x.
Proof. destruct x; unfold AutoImport_fits, AutoImport_write, AutoImport_read; cbn; intros; destruct_and?. emits_parts. Qed.
Lemma AutoImport_accepts : accepts AutoImport_read AutoImport_fits.
Proof. unfold AutoImport_read, AutoImport_fits. accepts_parts. Qed.
#[export] Hint Resolve AutoImport_emits AutoImport_accepts : codec.

Lemma PcDiagnostic_emits x : PcDiagnostic_fits x → emits 4 (PcDiagnostic_write x) PcDiagnostic_read x.
Proof. destruct x; unfold PcDiagnostic_fits, PcDiagnostic_write, PcDiagnostic_read; cbn; intros; destruct_and?. emits_parts. Qed.
Lemma PcDiagnostic_accepts : accepts PcDiagnostic_read PcDiagnostic_fits.
Proof. unfold PcDiagnostic_read, PcDiagnostic_fits. accepts_parts. Qed.
#[export] Hint Resolve PcDiagnostic_emits PcDiagnostic_accepts : codec.

Lemma FoldingRange_emits x : FoldingRange_fits x → emits 4 (FoldingRange_write x) FoldingRange_read x.
Proof. destruct x; unfold FoldingRange_fits, FoldingRange_write, FoldingRange_read; cbn; intros; destruct_and?. emits_parts. Qed.
Lemma FoldingRange_accepts : accepts FoldingRange_read FoldingRange_fits.
Proof. unfold FoldingRange_read, FoldingRange_fits. accepts_parts. Qed.
#[export] Hint Resolve FoldingRange_emits FoldingRange_accepts : codec.

(** ** Every payload of the boundary *)

Inductive Payload :=
| PTargetConfig (x : TargetConfig)
| PDidOpenParams (x : DidOpenParams)
| PDidChangeParams (x : DidChangeParams)
| PPositionParams (x : PositionParams)
| PResolveParams (x : ResolveParams)
| PCompletionList (x : CompletionList)
| PCompletionItem (x : CompletionItem)
| PHoverResult (x : HoverResult)
| PSignatureHelp (x : SignatureHelp)
| PDefinitionResult (x : DefinitionResult)
| PPrepareRenameResult (x : PrepareRenameResult)
| PPluginStatus (x : PluginStatus)
| PLocationsResult (x : LocationsResult)
| PMethodHitsResult (x : MethodHitsResult)
| PInlayHintParams (x : InlayHintParams)
| PInlayHintsResult (x : InlayHintsResult)
| PUriParams (x : UriParams)
| PSemanticTokensResult (x : SemanticTokensResult)
| PSelectionRangeParams (x : SelectionRangeParams)
| PSelectionRangesResult (x : SelectionRangesResult)
| PCodeActionParams (x : CodeActionParams)
| PCodeActionResult (x : CodeActionResult)
| PAutoImportParams (x : AutoImportParams)
| PAutoImportsResult (x : AutoImportsResult)
| PPcDiagnosticsResult (x : PcDiagnosticsResult)
| PFoldingRangesResult (x : FoldingRangesResult)
| PToplevelsResult (x : ToplevelsResult).

Definition payload_kind (p : Payload) : Z :=
  match p with
  | PTargetConfig _ => KIND_TARGET_CONFIG
  | PDidOpenParams _ => KIND_DID_OPEN
  | PDidChangeParams _ => KIND_DID_CHANGE
  | PPositionParams _ => KIND_POSITION
  | PResolveParams _ => KIND_RESOLVE_PARAMS
  | PCompletionList _ => KIND_COMPLETION_LIST
  | PCompletionItem _ => KIND_COMPLETION_ITEM
  | PHoverResult _ => KIND_HOVER
  | PSignatureHelp _ => KIND_SIGNATURE_HELP
  | PDefinitionResult _ => KIND_DEFINITION
  | PPrepareRenameResult _ => KIND_PREPARE_RENAME
  | PPluginStatus _ => KIND_PLUGIN_STATUS
  | PLocationsResult _ => KIND_LOCATIONS
  | PMethodHitsResult _ => KIND_METHOD_HITS
  | PInlayHintParams _ => KIND_INLAY_HINT_PARAMS
  | PInlayHintsResult _ => KIND_INLAY_HINTS
  | PUriParams _ => KIND_URI_PARAMS
  | PSemanticTokensResult _ => KIND_SEMANTIC_TOKENS
  | PSelectionRangeParams _ => KIND_SELECTION_RANGE_PARAMS
  | PSelectionRangesResult _ => KIND_SELECTION_RANGES
  | PCodeActionParams _ => KIND_CODE_ACTION_PARAMS
  | PCodeActionResult _ => KIND_CODE_ACTION_EDITS
  | PAutoImportParams _ => KIND_AUTO_IMPORT_PARAMS
  | PAutoImportsResult _ => KIND_AUTO_IMPORTS
  | PPcDiagnosticsResult _ => KIND_PC_DIAGNOSTICS
  | PFoldingRangesResult _ => KIND_FOLDING_RANGES
  | PToplevelsResult _ => KIND_TOPLEVELS
  end.

Definition payload_fits (p : Payload) : Prop :=
  match p with
  | PTargetConfig x => TargetConfig_fits x
  | PDidOpenParams x => DidOpenParams_fits x
  | PDidChangeParams x => DidChangeParams_fits x
  | PPositionParams x => PositionParams_fits x
  | PResolveParams x => ResolveParams_fits x
  | PCompletionList x => CompletionList_fits x
  | PCompletionItem x => CompletionItem_fits x
  | PHoverResult x => HoverResult_fits x
  | PSignatureHelp x => SignatureHelp_fits x
  | PDefinitionResult x => DefinitionResult_fits x
  | PPrepareRenameResult x => PrepareRenameResult_fits x
  | PPluginStatus x => PluginStatus_fits x
  | PLocationsResult x => LocationsResult_fits x
  | PMethodHitsResult x => MethodHitsResult_fits x
  | PInlayHintParams x => InlayHintParams_fits x
  | PInlayHintsResult x => InlayHintsResult_fits x
  | PUriParams x => UriParams_fits x
  | PSemanticTokensResult x => SemanticTokensResult_fits x
  | PSelectionRangeParams x => SelectionRangeParams_fits x
  | PSelectionRangesResult x => SelectionRangesResult_fits x
  | PCodeActionParams x => CodeActionParams_fits x
  | PCodeActionResult x => CodeActionResult_fits x
  | PAutoImportParams x => AutoImportParams_fits x
  | PAutoImportsResult x => AutoImportsResult_fits x
  | PPcDiagnosticsResult x => PcDiagnosticsResult_fits x
  | PFoldingRangesResult x => FoldingRangesResult_fits x
  | PToplevelsResult x => ToplevelsResult_fits x
  end.

Definition encode_payload (p : Payload) : result AbiStop bytes :=
  match p with
  | PTargetConfig x => TargetConfig_encode x
  | PDidOpenParams x => DidOpenParams_encode x
  | PDidChangeParams x => DidChangeParams_encode x
  | PPositionParams x => PositionParams_encode x
  | PResolveParams x => ResolveParams_encode x
  | PCompletionList x => CompletionList_encode x
  | PCompletionItem x => CompletionItem_encode x
  | PHoverResult x => HoverResult_encode x
  | PSignatureHelp x => SignatureHelp_encode x
  | PDefinitionResult x => DefinitionResult_encode x
  | PPrepareRenameResult x => PrepareRenameResult_encode x
  | PPluginStatus x => PluginStatus_encode x
  | PLocationsResult x => LocationsResult_encode x
  | PMethodHitsResult x => MethodHitsResult_encode x
  | PInlayHintParams x => InlayHintParams_encode x
  | PInlayHintsResult x => InlayHintsResult_encode x
  | PUriParams x => UriParams_encode x
  | PSemanticTokensResult x => SemanticTokensResult_encode x
  | PSelectionRangeParams x => SelectionRangeParams_encode x
  | PSelectionRangesResult x => SelectionRangesResult_encode x
  | PCodeActionParams x => CodeActionParams_encode x
  | PCodeActionResult x => CodeActionResult_encode x
  | PAutoImportParams x => AutoImportParams_encode x
  | PAutoImportsResult x => AutoImportsResult_encode x
  | PPcDiagnosticsResult x => PcDiagnosticsResult_encode x
  | PFoldingRangesResult x => FoldingRangesResult_encode x
  | PToplevelsResult x => ToplevelsResult_encode x
  end.

(** The decoders, under the kind each expects. *)
Definition decoders : list (Z * (bytes → result AbiStop Payload)) :=
  [(KIND_TARGET_CONFIG, λ b, PTargetConfig <$> TargetConfig_decode b);
   (KIND_DID_OPEN, λ b, PDidOpenParams <$> DidOpenParams_decode b);
   (KIND_DID_CHANGE, λ b, PDidChangeParams <$> DidChangeParams_decode b);
   (KIND_POSITION, λ b, PPositionParams <$> PositionParams_decode b);
   (KIND_RESOLVE_PARAMS, λ b, PResolveParams <$> ResolveParams_decode b);
   (KIND_COMPLETION_LIST, λ b, PCompletionList <$> CompletionList_decode b);
   (KIND_COMPLETION_ITEM, λ b, PCompletionItem <$> CompletionItem_decode b);
   (KIND_HOVER, λ b, PHoverResult <$> HoverResult_decode b);
   (KIND_SIGNATURE_HELP, λ b, PSignatureHelp <$> SignatureHelp_decode b);
   (KIND_DEFINITION, λ b, PDefinitionResult <$> DefinitionResult_decode b);
   (KIND_PREPARE_RENAME, λ b, PPrepareRenameResult <$> PrepareRenameResult_decode b);
   (KIND_PLUGIN_STATUS, λ b, PPluginStatus <$> PluginStatus_decode b);
   (KIND_LOCATIONS, λ b, PLocationsResult <$> LocationsResult_decode b);
   (KIND_METHOD_HITS, λ b, PMethodHitsResult <$> MethodHitsResult_decode b);
   (KIND_INLAY_HINT_PARAMS, λ b, PInlayHintParams <$> InlayHintParams_decode b);
   (KIND_INLAY_HINTS, λ b, PInlayHintsResult <$> InlayHintsResult_decode b);
   (KIND_URI_PARAMS, λ b, PUriParams <$> UriParams_decode b);
   (KIND_SEMANTIC_TOKENS, λ b, PSemanticTokensResult <$> SemanticTokensResult_decode b);
   (KIND_SELECTION_RANGE_PARAMS, λ b, PSelectionRangeParams <$> SelectionRangeParams_decode b);
   (KIND_SELECTION_RANGES, λ b, PSelectionRangesResult <$> SelectionRangesResult_decode b);
   (KIND_CODE_ACTION_PARAMS, λ b, PCodeActionParams <$> CodeActionParams_decode b);
   (KIND_CODE_ACTION_EDITS, λ b, PCodeActionResult <$> CodeActionResult_decode b);
   (KIND_AUTO_IMPORT_PARAMS, λ b, PAutoImportParams <$> AutoImportParams_decode b);
   (KIND_AUTO_IMPORTS, λ b, PAutoImportsResult <$> AutoImportsResult_decode b);
   (KIND_PC_DIAGNOSTICS, λ b, PPcDiagnosticsResult <$> PcDiagnosticsResult_decode b);
   (KIND_FOLDING_RANGES, λ b, PFoldingRangesResult <$> FoldingRangesResult_decode b);
   (KIND_TOPLEVELS, λ b, PToplevelsResult <$> ToplevelsResult_decode b)].

(** Where a decoder starts: its kind is checked before anything is read. *)
Lemma decoders_check k d : (k, d) ∈ decoders → ∃ (A : Type) (f : A → Payload) (q : Parse A), ∀ b, d b = f <$> decode_with k q b.
Proof.
  intros H. unfold decoders in H. repeat (apply elem_of_cons in H as [[= -> ->]|H]; [by eexists _, _, _|]). by apply elem_of_nil in H.
Qed.

Lemma decoders_kinds : NoDup (decoders.*1).
Proof. refine (bool_decide_unpack _ _). vm_compute. exact I. Qed.

Lemma decoder_unique k d d' : (k, d) ∈ decoders → (k, d') ∈ decoders → d = d'.
Proof.
  intros [i Hi]%list_elem_of_lookup [j Hj]%list_elem_of_lookup.
  assert (i = j) as -> by (eapply NoDup_lookup; [apply decoders_kinds|by rewrite list_lookup_fmap, Hi|by rewrite list_lookup_fmap, Hj]).
  congruence.
Qed.

(** A carrier whose writer and reader agree, in a buffer of its own kind. *)
Lemma payload_buffer {A : Type} kind (m : Writer → Writer) (p : Parse A) (f : A → Payload) x d k :
  inU 32 kind → (kind, d) ∈ decoders → (∀ b, d b = f <$> decode_with kind p b) → emits k m p x →
  ∃ w, encode_with kind m = w_finish kind w ∧
    if bool_decide (sizes_fit w) then
      encode_with kind m = Ok (envelope kind w) ∧
      ∀ k' d', (k', d') ∈ decoders →
        d' (envelope kind w) =
          if kind =? k' then Ok (f x)
          else Err (AbiError (lit "payload kind " ++ show_u kind ++ lit " != expected " ++ show_u k'))
    else ∃ msg, encode_with kind m = Err (AbiError msg).
Proof.
  intros Hk Hd Hdb He. exists (m Writer_new). split; [done|]. pose proof (emits_buffer kind m p x k Hk He) as H. cbn zeta in H.
  case_bool_decide as Hfit; [|done]. destruct H as [Hok Hdec]. split; [done|]. intros k' d' Hd'.
  destruct (Z.eqb_spec kind k') as [<-|Hne].
  - rewrite (decoder_unique kind d' d Hd' Hd), Hdb, Hdec. done.
  - destruct (decoders_check k' d' Hd') as (B & g & q & E). rewrite E. unfold decode_with. rewrite envelope_reads by done.
    apply Z.eqb_neq in Hne. by rewrite Hne.
Qed.

(** The buffer of one payload, from the emitted pieces of its carrier. *)
Ltac payload_case H :=
  cbn [payload_fits] in H;
  eapply (payload_buffer _ _ _ _ _ _ 4);
  [ done
  | unfold decoders; repeat (apply elem_of_cons; first [left; reflexivity|right])
  | intros; reflexivity
  | first [emits_hint|hnf in H; cbn in *; destruct_and?; emits_parts] ].

(** A decoder on any buffer. *)
Ltac decoder_case Hb :=
  match goal with
  | |- context [?f <$> ?dec ?b] =>
      let E := fresh in
      assert (match dec b with Ok x => payload_fits (f x) | Err AbiPanic => False | Err (AbiError _) => True end) as E
        by (apply accepts_buffer; [|exact Hb]; first [solve [eauto with codec]|cbv beta; unfold payload_fits; accepts_tac; hnf; split_fits]);
      destruct (dec b) as [?|[]]; [by split|done..]
  end.


Definition example_item : CompletionItem :=
  mkCompletionItem (lit "map") (Some (mkLabelDetails None (Some []))) (Some 2) (Some [1]) None (Some (DocMarkup (mkMarkupContent (lit "markdown") [233])))
    (Some false) None (Some []) None None (Some (-1)) None (Some (EditPlain (mkTextEdit (mkRng 0 1 0 4) (lit "map")))) None (Some [])
    (Some [lit "."]) None (Some []).
Definition example_payload : Payload := PCompletionList (mkCompletionList true None (Some (mkCompletionApplyKind None (Some 0))) [example_item; example_item]).


(** C32. No buffer makes a decoder panic: each of the twenty-seven answers an error message, or a
    payload of its own kind whose integers and strings are of their Rust types. *)
Theorem pc_decoders_safe k d b :
  (k, d) ∈ decoders → zlen b < 2 ^ 63 →
  match d b with
  | Ok p => payload_kind p = k ∧ payload_fits p
  | Err AbiPanic => False
  | Err (AbiError _) => True
  end.
Proof.
  intros H Hb. unfold decoders in H.
  repeat (apply elem_of_cons in H as [[= -> ->]|H]; [decoder_case Hb|]). by apply elem_of_nil in H.
Qed.

Lemma pc_decoders_safe_witness :
  ∃ d msg, (KIND_TOPLEVELS, d) ∈ decoders ∧
    (match d (le_bytes 4 MAGIC ++ le_bytes 4 KIND_TOPLEVELS ++ le_bytes 4 12 ++ le_bytes 4 0 ++ le_bytes 4 1 ++ le_bytes 4 4294967295 ++ le_bytes 4 2) with
     | Ok p => payload_kind p = KIND_TOPLEVELS ∧ payload_fits p | Err AbiPanic => False | Err (AbiError _) => True end) ∧
    d (le_bytes 4 MAGIC ++ le_bytes 4 KIND_TOPLEVELS ++ le_bytes 4 12 ++ le_bytes 4 0 ++ le_bytes 4 1 ++ le_bytes 4 4294967295 ++ le_bytes 4 2) =
      Err (AbiError msg).
Proof.
  exists (λ b, PToplevelsResult <$> ToplevelsResult_decode b), (lit "blob slice out of range").
  assert ((KIND_TOPLEVELS, λ b, PToplevelsResult <$> ToplevelsResult_decode b) ∈ decoders) as Hin.
  { unfold decoders. repeat (apply elem_of_cons; first [left; reflexivity|right]). }
  split; [exact Hin|]. split; [|by vm_compute]. apply (pc_decoders_safe _ _ _ Hin). by vm_compute.
Defined.

