(* ===== verification/PcBoundary.v ===== *)
(** The binary contract of the presentation-compiler boundary: the [repr(C)] layout of the boundary
    structs ([ls-pc-abi/src/abi.rs]), the checksum over it that the two sides compare
    ([canary.rs]) and the single-sided ownership of buffers ([memory.rs]). *)

From S2P Require Import Prelude RustStr.

Open Scope Z_scope.

(** ** [repr(C)]: fields in order, each at the next multiple of its alignment *)

Inductive CType :=
| CU32
| CU64
| CPtr
| CStruct (fields : list CType).

Definition round_up (n a : Z) : Z := div_ceil n a * a.

(** Size and alignment. *)
Fixpoint c_layout (t : CType) : Z * Z :=
  match t with
  | CU32 => (4, 4)
  | CU64 => (8, 8)
  | CPtr => (8, 8)
  | CStruct fields =>
      let '(size, align) :=
        (fix go (fields : list CType) (off align : Z) : Z * Z :=
           match fields with
           | [] => (off, align)
           | f :: fields => let '(s, a) := c_layout f in go fields (round_up off a + s) (Z.max align a)
           end) fields 0 1 in
      (round_up size align, align)
  end.
Definition size_of (t : CType) : Z := (c_layout t).1.

(** [offset_of!] of every field. *)
Fixpoint offsets_from (fields : list CType) (off : Z) : list Z :=
  match fields with
  | [] => []
  | f :: fields => let '(s, a) := c_layout f in round_up off a :: offsets_from fields (round_up off a + s)
  end.
Definition offsets_of (t : CType) : list Z := match t with CStruct fields => offsets_from fields 0 | _ => [] end.

(** The structs of the boundary; a function pointer is a pointer. *)
Definition LsStr : CType := CStruct [CPtr; CU32].
Definition LsBytes : CType := CStruct [CPtr; CU32].
Definition LsBuf : CType := CStruct [CPtr; CU32].
Definition BlobStr : CType := CStruct [CU32; CU32].
Definition Position : CType := CStruct [CU32; CU32].
Definition AbiRange : CType := CStruct [CU32; CU32; CU32; CU32].
Definition LocationRecord : CType := CStruct [BlobStr; AbiRange; CU32].
(** [abi_version; layout_canary; alloc; free; log; register_pc_vtable; pc_dispatch_loop;
    symbol_definition; search_methods; definition_source_toplevels] *)
Definition RustVtable : CType := CStruct ([CU64; CU64] ++ replicate 8 CPtr).
(** [abi_version] and the 22 operations *)
Definition PcVtable : CType := CStruct (CU64 :: replicate 22 CPtr).

(** The [assert!]s over the layout, in the order of the file. *)
Definition layout_asserts : bool :=
  bool_decide (
    (size_of CPtr, []) = (8, @nil Z) ∧
    (size_of LsStr, offsets_of LsStr) = (16, [0; 8]) ∧
    (size_of LsBytes, offsets_of LsBytes) = (16, [0; 8]) ∧
    (size_of LsBuf, offsets_of LsBuf) = (16, [0; 8]) ∧
    (size_of BlobStr, offsets_of BlobStr) = (8, [0; 4]) ∧
    (size_of Position, offsets_of Position) = (8, [0; 4]) ∧
    (size_of AbiRange, offsets_of AbiRange) = (16, [0; 4; 8; 12]) ∧
    (size_of LocationRecord, offsets_of LocationRecord) = (28, [0; 8; 24]) ∧
    (size_of RustVtable, offsets_of RustVtable) = (80, [0; 8; 16; 24; 32; 40; 48; 56; 64; 72]) ∧
    (size_of PcVtable, offsets_of PcVtable) =
      (184, [0; 8; 16; 24; 32; 40; 48; 56; 64; 72; 80; 88; 96; 104; 112; 120; 128; 136; 144; 152; 160; 168; 176])).

(** ** The canary *)

Definition CANARY_OFFSET : Z := 14695981039346656037.
Definition CANARY_PRIME : Z := 1099511628211.

Definition struct_facts (t : CType) : list Z := size_of t :: offsets_of t.
Definition facts : list Z :=
  struct_facts LsStr ++ struct_facts LsBytes ++ struct_facts LsBuf ++ struct_facts BlobStr ++ struct_facts Position ++
  struct_facts AbiRange ++ struct_facts LocationRecord ++ struct_facts RustVtable ++ struct_facts PcVtable.

Definition absorb_byte (value : Z) (hash byte : Z) : Z :=
  as_u64 (Z.lxor hash (Z.land (Z.shiftr value (byte * 8)) 255) * CANARY_PRIME).
Definition absorb (hash value : Z) : Z := foldl (absorb_byte value) hash [0; 1; 2; 3; 4; 5; 6; 7].
Definition canary_of (facts : list Z) : Z := foldl absorb CANARY_OFFSET facts.
Definition compute_layout_canary : Z := canary_of facts.

(** ** Buffers

    The blocks of the system allocator by address, and the live counter. What the allocator answers
    is an argument: the address of a block it does not hold yet, or none (null). *)

Record Memory := mkMemory { m_blocks : gmap Z bytes; m_live : Z }.
Record LsBufV := mkLsBufV { lb_ptr : option Z; lb_len : Z }.

Section memory.
Variable sys_alloc : gmap Z bytes → Z → option Z.

(** [alloc(layout)]: uninitialized bytes, here zeros. *)
Definition abi_alloc (size : Z) (m : Memory) : option Z * Memory :=
  if 0 <? size then
    match sys_alloc (m_blocks m) size with
    | Some ptr => (Some ptr, mkMemory (<[ptr := replicate (Z.to_nat size) x00]> (m_blocks m)) (m_live m + 1))
    | None => (None, m)
    end
  else (None, m).

Definition abi_free (ptr : option Z) (size : Z) (m : Memory) : Memory :=
  match ptr with
  | None => m
  | Some ptr => if 0 <? size then mkMemory (delete ptr (m_blocks m)) (m_live m - 1) else m
  end.

(** [copy_nonoverlapping] over a whole fresh block. *)
Definition write_response (payload : bytes) (m : Memory) : bool * LsBufV * Memory :=
  let out := mkLsBufV None 0 in
  if zlen payload =? 0 then (true, out, m) else
  if negb (zlen payload <? 2 ^ 32) then (false, out, m) else
  match abi_alloc (zlen payload) m with
  | (Some buf, m) => (true, mkLsBufV (Some buf) (zlen payload), mkMemory (<[buf := payload]> (m_blocks m)) (m_live m))
  | (None, m) => (false, out, m)
  end.
End memory.

(** ** The canary distinguishes layouts *)

Lemma foldl_step {A B : Type} (f : A → B → A) a x l : foldl f a (x :: l) = foldl f (f a x) l.
Proof. reflexivity. Qed.

Lemma prime_injective a b : inU 64 a → inU 64 b → as_u64 (a * CANARY_PRIME) = as_u64 (b * CANARY_PRIME) → a = b.
Proof.
  intros Ha Hb E. change (wrapU 64 (a * CANARY_PRIME) = wrapU 64 (b * CANARY_PRIME)) in E. unfold wrapU in E.
  assert (∀ x, inU 64 x → ((x * CANARY_PRIME) mod 2 ^ 64 * 14886173955864302971) mod 2 ^ 64 = x) as Hinv.
  { intros x Hx. rewrite Z.mul_mod_idemp_l by done. rewrite <- Z.mul_assoc, <- (Z.mul_mod_idemp_r x) by done.
    change ((CANARY_PRIME * 14886173955864302971) mod 2 ^ 64) with 1. rewrite Z.mul_1_r. by apply Z.mod_small. }
  rewrite <- (Hinv a Ha), <- (Hinv b Hb). by rewrite E.
Qed.

Lemma lxor_byte_range h v : inU 64 h → inU 64 (Z.lxor h (Z.land v 255)).
Proof.
  intros Hh. assert (inU 64 (Z.land v 255)) as Hv.
  { change 255 with (Z.ones 8). rewrite Z.land_ones by done. pose proof (Z.mod_pos_bound v (2 ^ 8) ltac:(done)). split; [lia|].
    transitivity (2 ^ 8); [lia|done]. }
  apply inU_of_bits; [done|]. intros i Hi. rewrite Z.lxor_spec, (testbit_inU 64 h), (testbit_inU 64 (Z.land v 255)) by done. done.
Qed.

Lemma absorb_byte_range v h k : inU 64 (absorb_byte v h k).
Proof. apply wrapU_range. done. Qed.

Lemma absorb_byte_hash v h h' k : inU 64 h → inU 64 h' → absorb_byte v h k = absorb_byte v h' k → h = h'.
Proof.
  intros Hh Hh' E%prime_injective; [|by apply lxor_byte_range..].
  rewrite <- (Z.lxor_0_r h), <- (Z.lxor_nilpotent (Z.land (Z.shiftr v (k * 8)) 255)), <- Z.lxor_assoc, E, Z.lxor_assoc.
  by rewrite Z.lxor_nilpotent, Z.lxor_0_r.
Qed.

Lemma absorb_bytes_hash v ks h h' :
  inU 64 h → inU 64 h' → foldl (absorb_byte v) h ks = foldl (absorb_byte v) h' ks → h = h'.
Proof.
  revert h h'. induction ks as [|k ks IH]; intros h h' Hh Hh' E; [done|]. cbn in E.
  apply IH, absorb_byte_hash in E; try apply absorb_byte_range; done.
Qed.

Lemma absorb_range h v : inU 64 (absorb h v).
Proof. exact (absorb_byte_range v _ 7). Qed.

Lemma absorb_bytes h v : absorb h v = foldl (absorb_byte v) h [0; 1; 2; 3; 4; 5; 6; 7].
Proof. reflexivity. Qed.

Lemma absorb_hash v h h' : inU 64 h → inU 64 h' → absorb h v = absorb h' v → h = h'.
Proof. rewrite !absorb_bytes. apply absorb_bytes_hash. Qed.

Lemma absorb_all_hash l h h' : inU 64 h → inU 64 h' → foldl absorb h l = foldl absorb h' l → h = h'.
Proof.
  revert h h'. induction l as [|v l IH]; intros h h' Hh Hh' E; [exact E|].
  rewrite !foldl_step in E.
  exact (absorb_hash v h h' Hh Hh' (IH _ _ (absorb_range h v) (absorb_range h' v) E)).
Qed.

(** Two one-byte facts after the same hash. *)
Lemma absorb_low h v : absorb h v = foldl (absorb_byte v) (absorb_byte v h 0) [1; 2; 3; 4; 5; 6; 7].
Proof. rewrite absorb_bytes. apply foldl_step. Qed.

Lemma absorb_high x y h ks :
  0 ≤ x < 256 → 0 ≤ y < 256 → Forall (λ k, 1 ≤ k) ks → foldl (absorb_byte x) h ks = foldl (absorb_byte y) h ks.
Proof.
  intros Hx Hy Hks. revert h. induction Hks as [|k ks Hk _ IH]; intros h; [reflexivity|].
  assert (absorb_byte x h k = absorb_byte y h k) as E.
  { unfold absorb_byte. rewrite !Z.shiftr_div_pow2 by lia.
    assert (256 ≤ 2 ^ (k * 8)) by (change 256 with (2 ^ 8); apply Z.pow_le_mono_r; lia). by rewrite !Z.div_small by lia. }
  rewrite !foldl_step, E. apply IH.
Qed.

Lemma absorb_first h u v : inU 64 h → 0 ≤ u < 256 → 0 ≤ v < 256 → absorb_byte u h 0 = absorb_byte v h 0 → u = v.
Proof.
  intros Hh Hu Hv E. unfold absorb_byte in E. apply prime_injective in E; [|by apply lxor_byte_range..]. change (0 * 8) with 0 in E.
  rewrite !Z.shiftr_0_r in E. assert (∀ x, 0 ≤ x < 256 → Z.land x 255 = x) as Hsmall.
  { intros x Hx. change 255 with (Z.ones 8). rewrite Z.land_ones by done. by apply Z.mod_small. }
  rewrite !Hsmall in E by done. rewrite <- (Z.lxor_0_l u), <- (Z.lxor_0_l v), <- (Z.lxor_nilpotent h), !Z.lxor_assoc. by rewrite E.
Qed.

Lemma absorb_value h u v : inU 64 h → 0 ≤ u < 256 → 0 ≤ v < 256 → absorb h u = absorb h v → u = v.
Proof.
  intros Hh Hu Hv. rewrite !absorb_low. rewrite (absorb_high u v) by (done || (repeat constructor; done)).
  intros E%absorb_bytes_hash; [|apply absorb_byte_range..]. exact (absorb_first h u v Hh Hu Hv E).
Qed.

Lemma canary_split before u after :
  canary_of (before ++ u :: after) = foldl absorb (absorb (foldl absorb CANARY_OFFSET before) u) after.
Proof. unfold canary_of. rewrite foldl_app. apply foldl_step. Qed.

Lemma canary_one_fact before u v after :
  0 ≤ u < 256 → 0 ≤ v < 256 → canary_of (before ++ u :: after) = canary_of (before ++ v :: after) → u = v.
Proof.
  intros Hu Hv E. rewrite !canary_split in E.
  assert (inU 64 (foldl absorb CANARY_OFFSET before)) as Hh.
  { destruct before as [|x l] using rev_ind; [vm_compute; split; congruence|]. rewrite foldl_snoc. apply absorb_range. }
  exact (absorb_value _ u v Hh Hu Hv (absorb_all_hash after _ _ (absorb_range _ u) (absorb_range _ v) E)).
Qed.

Lemma canary_facts : compute_layout_canary = canary_of facts.
Proof. reflexivity. Qed.

Lemma facts_bytes : Forall (λ x, 0 ≤ x < 256) facts.
Proof. refine (bool_decide_unpack _ _). vm_compute. exact I. Qed.


(** ** Ownership of buffers *)

(** The documented behaviour of the system allocator: what it answers is not in use. *)
Definition fresh_blocks (sys_alloc : gmap Z bytes → Z → option Z) : Prop :=
  ∀ blocks size ptr, sys_alloc blocks size = Some ptr → blocks !! ptr = None.

(** A response that was written is the payload in a block of its own, counted once, and freeing what
    [out] reports restores the memory of before; an empty payload allocates nothing, and a payload
    too long for a [u32] or refused by the allocator leaves the memory alone and [out] empty. *)
Theorem response_memory_balanced sys_alloc payload m :
  fresh_blocks sys_alloc →
  let '(ok, out, m') := write_response sys_alloc payload m in
  (if ok
   then abi_free (lb_ptr out) (lb_len out) m' = m ∧
        match lb_ptr out with
        | Some ptr => m_blocks m' !! ptr = Some payload ∧ m_blocks m !! ptr = None ∧ lb_len out = zlen payload ∧
                      m_live m' = m_live m + 1
        | None => payload = [] ∧ m' = m
        end
   else m' = m ∧ lb_ptr out = None ∧ lb_len out = 0 ∧
        (2 ^ 32 ≤ zlen payload ∨ sys_alloc (m_blocks m) (zlen payload) = None)).
Proof.
  intros Hfresh. unfold write_response, abi_alloc. pose proof (zlen_nonneg payload) as Hp.
  destruct (Z.eqb_spec (zlen payload) 0) as [Hz|Hz].
  { destruct payload; [done|]. rewrite zlen_cons in Hz. pose proof (zlen_nonneg payload). lia. }
  destruct (Z.ltb_spec (zlen payload) (2 ^ 32)) as [Hl|Hl]; cbn [negb]; [|split_and!; auto].
  destruct (Z.ltb_spec 0 (zlen payload)); [|lia]. destruct (sys_alloc (m_blocks m) (zlen payload)) as [ptr|] eqn:E; cbn; [|split_and!; auto].
  pose proof (Hfresh _ _ _ E) as Hn. destruct (Z.ltb_spec 0 (zlen payload)); [|lia].
  rewrite insert_insert_eq, delete_insert_id by done. split; [destruct m; cbn; f_equal; lia|]. split_and!; [by apply lookup_insert_eq|done..].
Qed.

(** A bump allocator over the addresses. *)
Definition next_address (blocks : gmap Z bytes) (size : Z) : option Z := Some (fresh (dom blocks)).

Lemma response_memory_balanced_witness :
  fresh_blocks next_address ∧ ∃ out m', write_response next_address [x00; x01] (mkMemory ∅ 0) = (true, out, m') ∧
    abi_free (lb_ptr out) (lb_len out) m' = mkMemory ∅ 0.
Proof.
  assert (fresh_blocks next_address) as Hf.
  { intros blocks size ptr [= <-]. apply not_elem_of_dom. apply is_fresh. }
  split; [exact Hf|]. pose proof (response_memory_balanced next_address [x00; x01] (mkMemory ∅ 0) Hf) as H.
  destruct (write_response _ _ _) as [[[] out] m'] eqn:E; [by eexists _, _; split; [reflexivity|apply H]|].
  exfalso. destruct H as (_ & _ & _ & [H|H]); [by vm_compute in H|done].
Defined.
