(* ===== verification/LspDocuments.v ===== *)
(** The open-buffer store and the incremental text synchronization ([ls-server/src/documents.rs]).

    A text is the list of its chars; a byte offset is a [Z], and an operation of [str] that panics
    off a char boundary is [None] there. The [line-index] crate is the class [LineIndexOps], with its
    documented behaviour in [LineIndexOk]; reading a file is an argument. *)

From S2P Require Import Prelude RustStr Uri.

Open Scope Z_scope.

(** ** Strings by byte offset *)

Definition char_len (c : Z) : Z := zlen (utf8_units c).

(** The number of chars before a byte offset, when it is a char boundary. *)
Fixpoint boundary (s : list Z) (b : Z) : option nat :=
  if b =? 0 then Some O else
  match s with
  | [] => None
  | c :: s => if b <? char_len c then None else S <$> boundary s (b - char_len c)
  end.
Definition is_char_boundary (s : list Z) (b : Z) : bool := match boundary s b with Some _ => true | None => false end.

(** [&s[a..b]] *)
Definition str_slice (s : list Z) (a b : Z) : option (list Z) :=
  i ← boundary s a; j ← boundary s b;
  if (i <=? j)%nat then Some (take (j - i) (drop i s)) else None.

(** [s.replace_range(a..b, new)] *)
Definition replace_range (s : list Z) (a b : Z) (new : list Z) : option (list Z) :=
  i ← boundary s a; j ← boundary s b;
  if (i <=? j)%nat then Some (take i s ++ new ++ drop j s) else None.

(** ** Positions ([protocol.rs]) *)

Record LspPosition := mkLspPosition { lp_line : Z; lp_character : Z }.
Record LspRange := mkLspRange { lr_start : LspPosition; lr_end : LspPosition }.

(** ** The line index *)

Class LineIndexOps := {
  LineIndex : Type;
  line_index_new : list Z → LineIndex;
  line_range : LineIndex → Z → option (Z * Z);
  measure_utf16 : list Z → Z;
  to_utf8 : LineIndex → Z * Z → option (Z * Z);
  offset_at : LineIndex → Z * Z → option Z }.

Record ContentChange := mkContentChange { cc_range : option LspRange; cc_text : list Z }.

(** [while !text.is_char_boundary(offset) { offset -= 1 }] *)
Fixpoint round_down (fuel : nat) (text : list Z) (offset : Z) : Z :=
  match fuel with
  | O => offset
  | S fuel => if is_char_boundary text offset then offset else round_down fuel text (offset - 1)
  end.

(** The line without its terminator. *)
Definition line_content (raw : list Z) : list Z :=
  match strip_suffix [10] raw with
  | Some s => default s (strip_suffix [13] s)
  | None => raw
  end.

Record Buffer := mkBuffer { bf_text : list Z; bf_version : Z }.
Abbreviation DocumentStore := (gmap (list Z) Buffer).

Section documents.
Context `{LineIndexOps}.

Definition byte_offset (index : LineIndex) (text : list Z) (position : LspPosition) : option Z :=
  match line_range index (lp_line position) with
  | None => Some (str_len text)
  | Some (line_start, line_end) =>
      raw ← str_slice text line_start line_end;
      let content := line_content raw in
      let width := as_u32 (measure_utf16 content) in
      let col := Z.min (lp_character position) width in
      let offset := default line_end (lc ← to_utf8 index (lp_line position, col); offset_at index lc) in
      let offset := Z.min offset (str_len text) in
      Some (round_down (Z.to_nat offset) text offset)
  end.

Definition apply_content_change (text : list Z) (change : ContentChange) : option (list Z) :=
  match cc_range change with
  | None => Some (cc_text change)
  | Some range =>
      let index := line_index_new text in
      start ← byte_offset index text (lr_start range);
      last ← byte_offset index text (lr_end range);
      let '(start, last) := if start <=? last then (start, last) else (last, start) in
      replace_range text start last (cc_text change)
  end.

Definition apply_content_changes (base : list Z) (changes : list ContentChange) : option (list Z) :=
  foldl (λ text change, text ← text; apply_content_change text change) (Some base) changes.

(** ** The store *)

Definition DocumentStore_new : DocumentStore := ∅.

Definition open_versioned (uri text : list Z) (version : Z) (st : DocumentStore) : DocumentStore :=
  <[uri := mkBuffer text version]> st.
Definition open_document (uri text : list Z) (st : DocumentStore) : DocumentStore := open_versioned uri text 0 st.
Definition change_document (uri text : list Z) (st : DocumentStore) : DocumentStore :=
  match st !! uri with
  | Some buffer => <[uri := mkBuffer text (bf_version buffer)]> st
  | None => <[uri := mkBuffer text 0]> st
  end.

(** The outer [option] is a panic, the inner one the answer; a version that is not newer is logged. *)
Definition apply_changes (uri : list Z) (version : option Z) (changes : list ContentChange) (st : DocumentStore)
    : option (option (list Z) * DocumentStore) :=
  match st !! uri with
  | Some buffer =>
      text ← apply_content_changes (bf_text buffer) changes;
      Some (Some text, <[uri := mkBuffer text (default (bf_version buffer) version)]> st)
  | None =>
      if existsb (λ change, match cc_range change with Some _ => true | None => false end) changes then Some (None, st) else
      text ← apply_content_changes [] changes;
      Some (Some text, <[uri := mkBuffer text (default 0 version)]> st)
  end.

Definition close_document (uri : list Z) (st : DocumentStore) : DocumentStore := delete uri st.
Definition document_text (uri : list Z) (st : DocumentStore) : option (list Z) := bf_text <$> st !! uri.
Definition document_version (uri : list Z) (st : DocumentStore) : option Z := bf_version <$> st !! uri.
Definition is_open (uri : list Z) (st : DocumentStore) : bool := match st !! uri with Some _ => true | None => false end.
Definition open_uris (st : DocumentStore) : list (list Z) := sort_by str_leb (map_to_list st).*1.

(** The bytes of a readable regular file. *)
Variable read_file : list Z → option bytes.

Definition disk_text (uri : list Z) : option (list Z) :=
  match uri_to_path uri with
  | Ok path => from_utf8_lossy <$> read_file path
  | Err _ => None
  end.
Definition is_dirty (uri : list Z) (st : DocumentStore) : bool :=
  match document_text uri st with
  | None => false
  | Some text => negb (bool_decide (disk_text uri = Some text))
  end.
End documents.

(** ** The reference: lines, UTF-16 columns and edits by char index *)

(** The lines with their terminators; the last one has none. *)
Fixpoint lines_of (s : list Z) : list (list Z) :=
  match s with
  | [] => [[]]
  | c :: s => if c =? 10 then [c] :: lines_of s else
              match lines_of s with l :: ls => (c :: l) :: ls | [] => [[c]] end
  end.

Definition utf16_width (c : Z) : Z := if c <? 65536 then 1 else 2.
Definition utf16_len (s : list Z) : Z := foldr (λ c n, utf16_width c + n) 0 s.

Definition line_start (t : list Z) (n : nat) : nat := length (concat (take n (lines_of t))).

(** How many chars of [s] lie before a UTF-16 column. *)
Fixpoint fit (s : list Z) (col : Z) : nat :=
  match s with
  | [] => O
  | c :: s => if utf16_width c <=? col then S (fit s (col - utf16_width c)) else O
  end.

(** The char index an LSP position addresses: past the last line the end of the text, past the end
    of a line the end of its content, inside a surrogate pair the char. *)
Definition index_of (t : list Z) (p : LspPosition) : nat :=
  match lines_of t !! Z.to_nat (lp_line p) with
  | Some l => line_start t (Z.to_nat (lp_line p)) + fit (line_content l) (lp_character p)
  | None => length t
  end.

Definition edited (t : list Z) (change : ContentChange) : list Z :=
  match cc_range change with
  | None => cc_text change
  | Some r =>
      let i := index_of t (lr_start r) in
      let j := index_of t (lr_end r) in
      take (Nat.min i j) t ++ cc_text change ++ drop (Nat.max i j) t
  end.

(** The documented behaviour of the crate, for texts of the sizes it indexes. *)
Class LineIndexOk `{LineIndexOps} : Prop := {
  line_range_ok t n : wf_str t → str_len t < 2 ^ 32 → 0 ≤ n →
    line_range (line_index_new t) n =
      (λ l, (str_len (take (line_start t (Z.to_nat n)) t), str_len (take (line_start t (Z.to_nat n)) t) + str_len l)) <$> lines_of t !! Z.to_nat n;
  measure_ok s : wf_str s → measure_utf16 s = utf16_len s;
  to_utf8_ok t n p q : wf_str t → str_len t < 2 ^ 32 → 0 ≤ n → lines_of t !! Z.to_nat n = Some (p ++ q) →
    to_utf8 (line_index_new t) (n, utf16_len p) = Some (n, str_len p);
  to_utf8_half t n p c q col : wf_str t → str_len t < 2 ^ 32 → 0 ≤ n → lines_of t !! Z.to_nat n = Some (p ++ c :: q) →
    utf16_len p < col < utf16_len p + utf16_width c →
    ∃ o, to_utf8 (line_index_new t) (n, col) = Some (n, o) ∧ str_len p < o < str_len p + char_len c;
  offset_ok t n l o : wf_str t → str_len t < 2 ^ 32 → 0 ≤ n → lines_of t !! Z.to_nat n = Some l → 0 ≤ o ≤ str_len l →
    offset_at (line_index_new t) (n, o) = Some (str_len (take (line_start t (Z.to_nat n)) t) + o) }.

(** ** Lengths and boundaries *)

Lemma char_len_pos c : 0 < char_len c.
Proof. pose proof (utf8_units_length c). unfold char_len, zlen. lia. Qed.

Lemma str_len_cons c s : str_len (c :: s) = char_len c + str_len s.
Proof. unfold str_len, as_bytes, str_units. cbn [fmap list_fmap concat]. by rewrite fmap_app, zlen_app, zlen_fmap. Qed.

Lemma str_len_nil : str_len [] = 0.
Proof. done. Qed.

Lemma str_len_app s t : str_len (s ++ t) = str_len s + str_len t.
Proof. unfold str_len. by rewrite as_bytes_app, zlen_app. Qed.

Lemma str_len_nonneg s : 0 ≤ str_len s.
Proof. apply zlen_nonneg. Qed.

Lemma str_len_take_le s i j : (i ≤ j)%nat → str_len (take i s) ≤ str_len (take j s).
Proof.
  intros Hij. replace (take i s) with (take i (take j s)) by (rewrite take_take; f_equal; lia).
  rewrite <- (take_drop i (take j s)) at 2. rewrite str_len_app. pose proof (str_len_nonneg (drop i (take j s))). lia.
Qed.

Lemma str_len_take_lt s i j : (i < j)%nat → (i < length s)%nat → str_len (take i s) < str_len (take j s).
Proof.
  intros Hij Hi. destruct (lookup_lt_is_Some_2 s i Hi) as [c Hc].
  pose proof (str_len_take_le s (S i) j ltac:(lia)) as Hle. rewrite (take_S_r _ _ _ Hc), str_len_app, str_len_cons, str_len_nil in Hle.
  pose proof (char_len_pos c). lia.
Qed.

Lemma boundary_take s k : boundary s (str_len (take k s)) = Some (Nat.min k (length s)).
Proof.
  revert k. induction s as [|c s IH]; intros k.
  { rewrite take_nil, str_len_nil. cbn. f_equal. lia. }
  destruct k as [|k]; [done|]. cbn [take]. rewrite str_len_cons. pose proof (char_len_pos c). pose proof (str_len_nonneg (take k s)).
  cbn [boundary]. destruct (Z.eqb_spec (char_len c + str_len (take k s)) 0); [lia|].
  destruct (Z.ltb_spec (char_len c + str_len (take k s)) (char_len c)); [lia|].
  replace (char_len c + str_len (take k s) - char_len c) with (str_len (take k s)) by lia. rewrite IH. done.
Qed.

Lemma boundary_inside s k b : str_len (take k s) < b < str_len (take (S k) s) → boundary s b = None.
Proof.
  revert k b. induction s as [|c s IH]; intros k b Hb; [rewrite !take_nil in Hb; lia|].
  pose proof (char_len_pos c). cbn [boundary]. pose proof (str_len_nonneg (take k (c :: s))).
  destruct (Z.eqb_spec b 0); [lia|]. destruct k as [|k]; cbn [take] in Hb; rewrite !str_len_cons in Hb.
  - rewrite take_0, str_len_nil in Hb. destruct (Z.ltb_spec b (char_len c)); [done|lia].
  - pose proof (str_len_nonneg (take k s)). destruct (Z.ltb_spec b (char_len c)); [done|]. rewrite (IH k); [done|lia].
Qed.

Lemma round_down_to s k b fuel :
  (k ≤ length s)%nat → str_len (take k s) ≤ b → b - str_len (take k s) ≤ Z.of_nat fuel →
  (b = str_len (take k s) ∨ b < str_len (take (S k) s)) → round_down fuel s b = str_len (take k s).
Proof.
  revert b. induction fuel as [|fuel IH]; intros b Hk Hle Hf Hb; cbn [round_down]; [lia|]. unfold is_char_boundary.
  destruct (Z.eq_dec b (str_len (take k s))) as [->|Hne]; [by rewrite boundary_take|].
  destruct Hb as [?|Hb]; [done|]. rewrite (boundary_inside s k b) by lia. apply IH; lia.
Qed.

(** ** Lines *)

Lemma lines_of_nonempty s : lines_of s ≠ [].
Proof. destruct s as [|c s]; [done|]. cbn. destruct (c =? 10); [done|]. by destruct (lines_of s). Qed.

Lemma concat_lines_of s : concat (lines_of s) = s.
Proof.
  induction s as [|c s IH]; [done|]. cbn. destruct (c =? 10); cbn; [by rewrite IH|].
  destruct (lines_of s) as [|l ls]; cbn in *; by rewrite <- IH.
Qed.

Lemma line_at t n l : lines_of t !! n = Some l → t = take (line_start t n) t ++ l ++ drop (line_start t n + length l) t.
Proof.
  intros Hl. rewrite <- (take_drop (line_start t n) t) at 1. f_equal.
  rewrite <- (take_drop (length l) (drop (line_start t n) t)), drop_drop. f_equal. unfold line_start.
  rewrite <- (concat_lines_of t) at 2. rewrite <- (take_drop_middle _ _ _ Hl) at 2.
  rewrite concat_app, drop_app_length. cbn. by rewrite take_app_length.
Qed.

Lemma line_start_le t n : (line_start t n ≤ length t)%nat.
Proof. unfold line_start. rewrite <- (concat_lines_of t) at 2. rewrite <- (take_drop n (lines_of t)) at 2. rewrite concat_app, length_app. lia. Qed.

Lemma content_prefix raw : ∃ q, raw = line_content raw ++ q.
Proof.
  unfold line_content. destruct (strip_suffix [10] raw) as [s|] eqn:E; [|exists []; by rewrite app_nil_r].
  apply strip_suffix_Some in E as ->. destruct (strip_suffix [13] s) as [r|] eqn:E; cbn; [|by eexists].
  apply strip_suffix_Some in E as ->. rewrite <- app_assoc. by eexists.
Qed.

(** ** UTF-16 columns *)

Lemma utf16_width_pos c : 1 ≤ utf16_width c ≤ 2.
Proof. unfold utf16_width. case_match; lia. Qed.

Lemma utf16_len_app s t : utf16_len (s ++ t) = utf16_len s + utf16_len t.
Proof. induction s as [|c s IH]; cbn in *; [done|]. unfold utf16_len in *. lia. Qed.

Lemma utf16_len_cons c s : utf16_len (c :: s) = utf16_width c + utf16_len s.
Proof. done. Qed.

Lemma utf16_len_nonneg s : 0 ≤ utf16_len s.
Proof. induction s as [|c s IH]; cbn; [done|]. pose proof (utf16_width_pos c). unfold utf16_len in *. lia. Qed.

Lemma utf16_len_le s : utf16_len s ≤ str_len s.
Proof.
  induction s as [|c s IH]; [done|]. rewrite utf16_len_cons, str_len_cons.
  assert (utf16_width c ≤ char_len c); [|lia]. unfold utf16_width, char_len, utf8_units, zlen.
  destruct (Z.ltb_spec c 65536); repeat case_match; cbn; lia.
Qed.

Lemma fit_le s col : (fit s col ≤ length s)%nat.
Proof. revert col. induction s as [|c s IH]; intros col; cbn; [done|]. case_match; [|lia]. specialize (IH (col - utf16_width c)). lia. Qed.

Lemma fit_spec s col : 0 ≤ col →
  utf16_len (take (fit s col) s) ≤ col ∧
  ((fit s col < length s)%nat → col < utf16_len (take (S (fit s col)) s)).
Proof.
  revert col. induction s as [|c s IH]; intros col Hc; cbn [fit]; [cbn; split; [done|lia]|].
  destruct (Z.leb_spec (utf16_width c) col).
  - destruct (IH (col - utf16_width c) ltac:(lia)) as [H1 H2]. cbn [take]. rewrite !utf16_len_cons. split; [lia|].
    cbn [length]. intros Hl. specialize (H2 ltac:(lia)). lia.
  - cbn [take]. rewrite utf16_len_cons. cbn. split; [done|]. intros _. pose proof (utf16_width_pos c). rewrite take_0. cbn. lia.
Qed.

Lemma fit_clamp s col : fit s (Z.min col (utf16_len s)) = fit s col.
Proof.
  revert col. induction s as [|c s IH]; intros col; [done|]. cbn [fit]. rewrite utf16_len_cons. pose proof (utf16_len_nonneg s).
  pose proof (utf16_width_pos c). rewrite <- (IH (col - utf16_width c)).
  destruct (Z.leb_spec (utf16_width c) col), (Z.leb_spec (utf16_width c) (Z.min col (utf16_width c + utf16_len s))); try lia.
  f_equal. f_equal. lia.
Qed.

Lemma fit_prefix p q : fit (p ++ q) (utf16_len p) = length p.
Proof.
  induction p as [|c p IH]; cbn [app fit length].
  - destruct q as [|c q]; [done|]. cbn. pose proof (utf16_width_pos c). destruct (Z.leb_spec (utf16_width c) 0); [lia|done].
  - rewrite utf16_len_cons. pose proof (utf16_len_nonneg p). destruct (Z.leb_spec (utf16_width c) (utf16_width c + utf16_len p)); [|lia].
    f_equal. rewrite <- IH. f_equal. lia.
Qed.

(** ** Positions resolve to the chars the reference addresses *)

Section exact.
Context `{LineIndexOk}.

Lemma slice_between t i l rest : t = take i t ++ l ++ rest → (i ≤ length t)%nat →
  str_slice t (str_len (take i t)) (str_len (take i t) + str_len l) = Some l.
Proof.
  intros Et Hi. assert (take (i + length l) t = take i t ++ l) as Ej.
  { rewrite Et at 1. rewrite <- (length_take_le t i) at 1 by done. rewrite take_app_add', take_app_length; [done|done]. }
  unfold str_slice. rewrite boundary_take. cbn [mbind option_bind].
  rewrite <- str_len_app, <- Ej, boundary_take. cbn [mbind option_bind].
  assert (i + length l ≤ length t)%nat as Hj by (rewrite Et; rewrite !length_app, length_take_le by done; lia).
  rewrite !Nat.min_l by lia. destruct (Nat.leb_spec i (i + length l)); [|lia]. f_equal.
  replace (i + length l - i)%nat with (length l) by lia. rewrite Et at 1. rewrite drop_app_length' by (by rewrite length_take_le).
  apply take_app_length.
Qed.

Lemma byte_offset_exact t p :
  wf_str t → str_len t < 2 ^ 32 → 0 ≤ lp_line p → 0 ≤ lp_character p →
  byte_offset (line_index_new t) t p = Some (str_len (take (index_of t p) t)) ∧ (index_of t p ≤ length t)%nat.
Proof.
  intros Hw Ht Hl Hc. unfold byte_offset, index_of. rewrite line_range_ok by done.
  destruct (lines_of t !! Z.to_nat (lp_line p)) as [raw|] eqn:E; cbn [fmap option_fmap option_map];
    [|split; [by rewrite firstn_all|done]].
  set (i := line_start t (Z.to_nat (lp_line p))). pose proof (line_at _ _ _ E) as Et. fold i in Et.
  pose proof (line_start_le t (Z.to_nat (lp_line p))) as Hi. fold i in Hi.
  rewrite (slice_between t i raw _ Et Hi). cbn [mbind option_bind].
  destruct (content_prefix raw) as [q Eq]. set (content := line_content raw) in *.
  assert (wf_str content) as Hwc.
  { rewrite Et, Eq in Hw. apply Forall_app in Hw as [_ Hw]. apply Forall_app in Hw as [Hw _]. by apply Forall_app in Hw as [Hw _]. }
  assert (str_len raw ≤ str_len t) as Hraw.
  { rewrite Et at 1. rewrite !str_len_app. pose proof (str_len_nonneg (take i t)). pose proof (str_len_nonneg (drop (i + length raw) t)). lia. }
  assert (str_len content ≤ str_len raw) as Hcon by (rewrite Eq, str_len_app; pose proof (str_len_nonneg q); lia).
  rewrite measure_ok by done. pose proof (utf16_len_le content). pose proof (utf16_len_nonneg content).
  unfold as_u32. rewrite wrapU_id by (split; lia). set (col := Z.min (lp_character p) (utf16_len content)).
  assert (fit content (lp_character p) = fit content col) as -> by (symmetry; apply fit_clamp).
  set (k := fit content col). pose proof (fit_le content col) as Hk. fold k in Hk.
  destruct (fit_spec content col) as [Hk1 Hk2]; [lia|]. fold k in Hk1, Hk2.
  assert (i + k ≤ length t)%nat as Hik.
  { rewrite Et, Eq, !length_app, length_take_le by done. lia. }
  assert (∀ j, (j ≤ length content)%nat → take (i + j) t = take i t ++ take j content) as Htake.
  { intros j Hj. rewrite Et at 1. rewrite <- (length_take_le t i) at 1 by done. rewrite take_app_add'. f_equal.
    rewrite take_app_le by (rewrite Eq, length_app; lia). rewrite Eq. by rewrite take_app_le. done. }
  split; [|done]. f_equal.
  assert (∃ o, to_utf8 (line_index_new t) (lp_line p, col) = Some (lp_line p, o) ∧ str_len (take k content) ≤ o ≤ str_len raw ∧
    (o = str_len (take k content) ∨ (k < length content)%nat ∧ o < str_len (take (S k) content))) as (o & Eo & Ho & Hmid).
  { destruct (Z.eq_dec (utf16_len (take k content)) col) as [Ecol|Ncol].
    - exists (str_len (take k content)). rewrite <- Ecol. split; [|split; [|by left]].
      + eapply (to_utf8_ok _ _ _ (drop k content ++ q)); [done..|]. rewrite app_assoc, take_drop, <- Eq. done.
      + split; [done|]. transitivity (str_len content); [|done]. rewrite <- (firstn_all content) at 2. by apply str_len_take_le.
    - assert (k < length content)%nat as Hlt.
      { destruct (decide (k < length content)%nat); [done|]. exfalso. apply Ncol. rewrite take_ge in * by lia. lia. }
      destruct (lookup_lt_is_Some_2 content k Hlt) as [c Hc']. specialize (Hk2 Hlt).
      rewrite (take_S_r _ _ _ Hc'), utf16_len_app, utf16_len_cons in Hk2. change (utf16_len []) with 0 in Hk2.
      destruct (to_utf8_half t (lp_line p) (take k content) c (drop (S k) content ++ q) col) as (o & Eo & Ho); [done..| |lia|].
      { rewrite E. f_equal. rewrite Eq. rewrite <- (take_drop_middle content k c Hc') at 1. by rewrite <- app_assoc. }
      assert (str_len (take (S k) content) = str_len (take k content) + char_len c) as Es
        by (rewrite (take_S_r _ _ _ Hc'), str_len_app, str_len_cons, str_len_nil; lia).
      pose proof (str_len_take_le content (S k) (length content) ltac:(lia)) as Hle. rewrite firstn_all in Hle.
      exists o. split; [done|]. split; [lia|]. right. split; [done|]. lia. }
  rewrite Eo. cbn [mbind option_bind]. pose proof (str_len_nonneg (take k content)).
  rewrite (offset_ok t (lp_line p) raw o) by (done || lia). cbn [default from_option]. fold i.
  assert (str_len (take i t) + str_len raw ≤ str_len t) as Hend.
  { rewrite Et at 2. rewrite !str_len_app. pose proof (str_len_nonneg (drop (i + length raw) t)). lia. }
  unfold id. rewrite Z.min_l by lia. pose proof (str_len_nonneg (take i t)).
  rewrite (round_down_to t (i + k)); rewrite ?(Htake k Hk), ?str_len_app; try lia.
  destruct Hmid as [->|[Hlt Hmid]]; [by left|]. right. replace (S (i + k)) with (i + S k)%nat by lia.
  rewrite (Htake (S k)) by lia. rewrite str_len_app. lia.
Qed.

(** A change whose position fields are machine integers. *)
Definition change_typed (c : ContentChange) : Prop :=
  wf_str (cc_text c) ∧
  match cc_range c with
  | Some r => inU 32 (lp_line (lr_start r)) ∧ inU 32 (lp_character (lr_start r)) ∧ inU 32 (lp_line (lr_end r)) ∧ inU 32 (lp_character (lr_end r))
  | None => True
  end.

Lemma replace_at t i j new : (i ≤ j ≤ length t)%nat →
  replace_range t (str_len (take i t)) (str_len (take j t)) new = Some (take i t ++ new ++ drop j t).
Proof.
  intros Hij. unfold replace_range. rewrite !boundary_take. cbn [mbind option_bind]. rewrite !Nat.min_l by lia.
  destruct (Nat.leb_spec i j); [done|lia].
Qed.

Lemma content_change_exact t c :
  wf_str t → str_len t < 2 ^ 32 → change_typed c → apply_content_change t c = Some (edited t c) ∧ wf_str (edited t c).
Proof.
  intros Hw Ht [Hwc Hr]. unfold apply_content_change, edited. destruct (cc_range c) as [r|]; [|done]. destruct Hr as (H1 & H2 & H3 & H4).
  destruct (byte_offset_exact t (lr_start r)) as [-> Hi]; [done|done|apply H1|apply H2|].
  destruct (byte_offset_exact t (lr_end r)) as [-> Hj]; [done|done|apply H3|apply H4|].
  cbn [mbind option_bind]. set (i := index_of t (lr_start r)) in *. set (j := index_of t (lr_end r)) in *. split.
  - destruct (Nat.le_gt_cases i j) as [Hle|Hgt].
    + pose proof (str_len_take_le t i j Hle). destruct (Z.leb_spec (str_len (take i t)) (str_len (take j t))); [|lia].
      rewrite Nat.min_l, Nat.max_r by done. apply replace_at. lia.
    + pose proof (str_len_take_lt t j i Hgt ltac:(lia)). destruct (Z.leb_spec (str_len (take i t)) (str_len (take j t))); [lia|].
      rewrite Nat.min_r, Nat.max_l by lia. apply replace_at. lia.
  - apply Forall_app. split; [by apply Forall_take|]. apply Forall_app. split; [done|by apply Forall_drop].
Qed.

(** Every text on the way stays within what the crate indexes. *)
Fixpoint sizes_ok (t : list Z) (changes : list ContentChange) : Prop :=
  match changes with
  | [] => True
  | c :: changes => str_len t < 2 ^ 32 ∧ sizes_ok (edited t c) changes
  end.

Lemma content_changes_exact t changes :
  wf_str t → sizes_ok t changes → Forall change_typed changes →
  apply_content_changes t changes = Some (foldl edited t changes) ∧ wf_str (foldl edited t changes).
Proof.
  unfold apply_content_changes. revert t. induction changes as [|c changes IH]; intros t Hw Hs Hc; [done|].
  destruct Hs as [Ht Hs]. apply Forall_cons in Hc as [Hc Hcs]. cbn [foldl]. cbn [mbind option_bind].
  destruct (content_change_exact t c Hw Ht Hc) as [-> Hw']. by apply IH.
Qed.
End exact.

(** ** A client that edits by char index and reports LSP positions *)

(** The position of the char boundary [k] of [t]: its line and its UTF-16 column. *)
Definition position_of (t : list Z) (k : nat) : LspPosition :=
  let ls := lines_of (take k t) in
  mkLspPosition (Z.of_nat (pred (length ls))) (utf16_len (List.last ls [])).

(** Positions the protocol can denote: not between the two chars of a [\r\n]. *)
Definition denotable (t : list Z) (k : nat) : Prop :=
  (k ≤ length t)%nat ∧ ¬ (∃ p, take k t = p ++ [13] ∧ t !! k = Some 10).

Inductive ClientEdit :=
| ReplaceAll (s : list Z)
| Splice (i j : nat) (s : list Z).

Definition client_apply (t : list Z) (e : ClientEdit) : list Z :=
  match e with
  | ReplaceAll s => s
  | Splice i j s => take i t ++ s ++ drop j t
  end.
Definition change_of (t : list Z) (e : ClientEdit) : ContentChange :=
  match e with
  | ReplaceAll s => mkContentChange None s
  | Splice i j s => mkContentChange (Some (mkLspRange (position_of t i) (position_of t j))) s
  end.
Definition edit_ok (t : list Z) (e : ClientEdit) : Prop :=
  match e with
  | ReplaceAll s => wf_str s
  | Splice i j s => wf_str s ∧ (i ≤ j)%nat ∧ denotable t i ∧ denotable t j
  end.

(** The edits of one notification, each on the text the ones before it left. *)
Fixpoint changes_for (t : list Z) (es : list ClientEdit) : list ContentChange :=
  match es with
  | [] => []
  | e :: es => change_of t e :: changes_for (client_apply t e) es
  end.
Fixpoint edits_ok (t : list Z) (es : list ClientEdit) : Prop :=
  match es with
  | [] => True
  | e :: es => str_len t < 2 ^ 32 ∧ edit_ok t e ∧ edits_ok (client_apply t e) es
  end.

(** The notifications of a session, with their versions; the server's answers are dropped. *)
Fixpoint did_changes `{LineIndexOps} (uri t : list Z) (ns : list (Z * list ClientEdit)) (st : DocumentStore) : option DocumentStore :=
  match ns with
  | [] => Some st
  | (v, es) :: ns => '(_, st) ← apply_changes uri (Some v) (changes_for t es) st; did_changes uri (foldl client_apply t es) ns st
  end.
Fixpoint session_ok (t : list Z) (ns : list (Z * list ClientEdit)) : Prop :=
  match ns with
  | [] => True
  | (_, es) :: ns => edits_ok t es ∧ session_ok (foldl client_apply t es) ns
  end.
Definition session_text (t : list Z) (ns : list (Z * list ClientEdit)) : list Z := foldl (λ t n, foldl client_apply t n.2) t ns.

Lemma lines_of_cons s : ∃ h ls, lines_of s = h :: ls.
Proof. destruct (lines_of s) eqn:E; [by apply lines_of_nonempty in E|by eexists _, _]. Qed.

Lemma lines_of_app p q : ∃ ls l h hs, lines_of p = ls ++ [l] ∧ lines_of q = h :: hs ∧ lines_of (p ++ q) = ls ++ (l ++ h) :: hs ∧ 10 ∉ l.
Proof.
  destruct (lines_of_cons q) as (h & hs & Eq). induction p as [|c p (ls & l & h' & hs' & Ep & Eq' & Ea & Hl)].
  { exists [], [], h, hs. split_and!; [done..|]. by intros ?%elem_of_nil. }
  rewrite Eq in Eq'. injection Eq' as <- <-. cbn [app lines_of]. rewrite Ep, Ea. destruct (Z.eqb_spec c 10).
  - exists ([c] :: ls), l, h, hs. done.
  - destruct ls as [|l0 ls]; cbn [app].
    + exists [], (c :: l), h, hs. split_and!; [done..|]. intros [?|?]%elem_of_cons; done.
    + exists ((c :: l0) :: ls), l, h, hs. done.
Qed.

Lemma content_keeps l h : 10 ∉ l → ¬ ((∃ p, l = p ++ [13]) ∧ head h = Some 10) → ∃ h', line_content (l ++ h) = l ++ h'.
Proof.
  intros Hl Hcr. unfold line_content. destruct (strip_suffix [10] (l ++ h)) as [s|] eqn:E; [|by eexists].
  apply strip_suffix_Some in E. destruct h as [|x h _] using rev_ind.
  { exfalso. apply Hl. rewrite app_nil_r in E. rewrite E. apply elem_of_app. right. by apply list_elem_of_singleton. }
  rewrite app_assoc in E. apply app_inj_tail in E as [Es ->]. subst s.
  destruct (strip_suffix [13] (l ++ h)) as [r|] eqn:E; cbn; [|by eexists]. apply strip_suffix_Some in E.
  destruct h as [|y h _] using rev_ind.
  { exfalso. apply Hcr. rewrite app_nil_r in E. split; [by exists r|done]. }
  rewrite app_assoc in E. apply app_inj_tail in E as [Er _]. subst r. by eexists.
Qed.

Lemma index_of_position t k : denotable t k → index_of t (position_of t k) = k.
Proof.
  intros [Hk Hcr]. destruct (lines_of_app (take k t) (drop k t)) as (ls & l & h & hs & Ep & Eq & Ea & Hl). rewrite take_drop in Ea.
  unfold position_of. rewrite Ep, length_app, last_last. cbn [length]. unfold index_of. cbn [lp_line lp_character].
  replace (Z.to_nat (Z.of_nat (pred (length ls + 1)))) with (length ls) by lia. rewrite Ea, list_lookup_middle by done.
  assert (length (concat ls) + length l = k)%nat as Elen.
  { transitivity (length (take k t)); [|by apply length_take_le]. rewrite <- (concat_lines_of (take k t)), Ep, concat_app, length_app. cbn. by rewrite app_nil_r. }
  unfold line_start. rewrite Ea, take_app_length.
  destruct (content_keeps l h Hl) as [h' ->]; [|rewrite fit_prefix; lia].
  intros [[p Hp] Hh]. apply Hcr. exists (concat ls ++ p). split.
  - rewrite <- (concat_lines_of (take k t)), Ep, concat_app, Hp. cbn. by rewrite app_nil_r, app_assoc.
  - destruct h as [|x h]; [done|]. injection Hh as ->. rewrite <- (take_drop k t), <- (concat_lines_of (drop k t)), Eq.
    apply list_lookup_middle. by rewrite length_take_le.
Qed.

Lemma client_edit_change t e : edit_ok t e → edited t (change_of t e) = client_apply t e.
Proof.
  destruct e as [s|i j s]; [done|]. intros (_ & Hij & Hi & Hj). unfold edited. cbn [change_of cc_range lr_start lr_end cc_text].
  rewrite !index_of_position by done. by rewrite Nat.min_l, Nat.max_r.
Qed.

Lemma position_typed t k : str_len t < 2 ^ 32 → inU 32 (lp_line (position_of t k)) ∧ inU 32 (lp_character (position_of t k)).
Proof.
  intros Ht. pose proof (str_len_take_le t k (k `max` length t) ltac:(lia)) as Hle. rewrite (take_ge t (k `max` length t)) in Hle by lia.
  unfold position_of. set (p := take k t) in *. destruct (lines_of_app p []) as (ls & l & _ & _ & Ep & _). rewrite Ep, length_app, last_last. cbn.
  assert (∀ s, Z.of_nat (length (lines_of s)) ≤ str_len s + 1) as Hlines.
  { induction s as [|c s IH]; [done|]. rewrite str_len_cons. pose proof (char_len_pos c). cbn. destruct (c =? 10); cbn; [lia|].
    destruct (lines_of s); cbn in *; lia. }
  specialize (Hlines p). rewrite Ep, length_app in Hlines. cbn in Hlines.
  assert (str_len l ≤ str_len p) as Hl.
  { rewrite <- (concat_lines_of p), Ep, concat_app, str_len_app. cbn. rewrite app_nil_r. pose proof (str_len_nonneg (concat ls)). lia. }
  pose proof (utf16_len_le l). pose proof (utf16_len_nonneg l). unfold inU. lia.
Qed.

Lemma client_changes_ok t es : edits_ok t es →
  sizes_ok t (changes_for t es) ∧ Forall change_typed (changes_for t es) ∧ foldl edited t (changes_for t es) = foldl client_apply t es.
Proof.
  revert t. induction es as [|e es IH]; intros t H; [done|]. destruct H as (Ht & He & Hes). cbn [changes_for foldl sizes_ok].
  rewrite !(client_edit_change t e He). destruct (IH _ Hes) as (H1 & H2 & H3). split_and!; [done..| |done]. constructor; [|done].
  destruct e as [s|i j s]; [by split|]. destruct He as (Hs & _). split; [done|]. cbn [change_of cc_range lr_start lr_end].
  destruct (position_typed t i Ht), (position_typed t j Ht). done.
Qed.

Lemma last_cons {A : Type} (x d : A) l : List.last (x :: l) d = List.last l x.
Proof. revert x d. induction l as [|y l IH]; intros x d; [done|]. change (List.last (y :: l) d = List.last (y :: l) x). by rewrite !IH. Qed.

Lemma session_exact `{LineIndexOk} uri t v ns st :
  wf_str t → session_ok t ns → st !! uri = Some (mkBuffer t v) →
  did_changes uri t ns st = Some (<[uri := mkBuffer (session_text t ns) (List.last (ns.*1) v)]> st).
Proof.
  revert t v st. induction ns as [|[v' es] ns IH]; intros t v st Hw Hs Hst.
  { cbn. f_equal. symmetry. by apply insert_id. }
  destruct Hs as [He Hs]. destruct (client_changes_ok t es He) as (H1 & H2 & H3).
  destruct (content_changes_exact t _ Hw H1 H2) as [Ha Hw']. rewrite H3 in Ha, Hw'.
  cbn [did_changes]. unfold apply_changes at 1. rewrite Hst. cbn [bf_text]. rewrite Ha. cbn [mbind option_bind default from_option].
  unfold id. rewrite (IH _ v') by (done || apply lookup_insert_eq). rewrite insert_insert_eq. f_equal. f_equal. f_equal.
  symmetry. apply last_cons.
Qed.

(** C10. Text synchronization. A change list on a well-formed text is applied without a panic and yields
    what its positions address by the reference (lines, UTF-16 columns, out-of-range and
    half-surrogate positions clamped, reversed ranges swapped), whatever the client sent. And a client
    that opens a document and reports its edits, in any number of notifications, by the positions the
    protocol can denote finds the server holding exactly its own text and last version, with every
    other buffer as it was. *)
Theorem document_sync `{LineIndexOk} uri t v st :
  wf_str t →
  (∀ changes, sizes_ok t changes → Forall change_typed changes →
     apply_changes uri None changes (open_versioned uri t v st) =
       Some (Some (foldl edited t changes), <[uri := mkBuffer (foldl edited t changes) v]> st)) ∧
  (∀ ns, session_ok t ns →
     did_changes uri t ns (open_versioned uri t v st) =
       Some (<[uri := mkBuffer (session_text t ns) (List.last (ns.*1) v)]> st)).
Proof.
  intros Hw. split.
  - intros changes Hs Hc. unfold apply_changes, open_versioned. rewrite lookup_insert_eq. cbn [bf_text].
    destruct (content_changes_exact t changes Hw Hs Hc) as [-> _]. cbn. by rewrite insert_insert_eq.
  - intros ns Hs. unfold open_versioned. rewrite (session_exact uri t v) by (done || apply lookup_insert_eq). by rewrite insert_insert_eq.
Qed.

(** ** A line index that scans the text *)

Fixpoint utf8_column (l : list Z) (col : Z) : Z :=
  match l with
  | [] => col
  | c :: l => if col <? utf16_width c then col else char_len c + utf8_column l (col - utf16_width c)
  end.

#[local] Instance scan_index : LineIndexOps := {|
  LineIndex := list Z;
  line_index_new t := t;
  line_range t n :=
    (λ l, (str_len (take (line_start t (Z.to_nat n)) t), str_len (take (line_start t (Z.to_nat n)) t) + str_len l)) <$> lines_of t !! Z.to_nat n;
  measure_utf16 := utf16_len;
  to_utf8 t lc := l ← lines_of t !! Z.to_nat lc.1; Some (lc.1, utf8_column l lc.2);
  offset_at t lc := _ ← lines_of t !! Z.to_nat lc.1; Some (str_len (take (line_start t (Z.to_nat lc.1)) t) + lc.2) |}.

Lemma utf8_column_prefix p q : utf8_column (p ++ q) (utf16_len p) = str_len p.
Proof.
  induction p as [|c p IH]; cbn [app utf8_column].
  - change (utf16_len []) with 0. destruct q as [|c q]; [done|]. cbn. pose proof (utf16_width_pos c). destruct (Z.ltb_spec 0 (utf16_width c)); [done|lia].
  - rewrite utf16_len_cons, str_len_cons. pose proof (utf16_len_nonneg p). destruct (Z.ltb_spec (utf16_width c + utf16_len p) (utf16_width c)); [lia|].
    f_equal. rewrite <- IH. f_equal. lia.
Qed.

Lemma utf8_column_inside p c q col : wf_str (p ++ c :: q) →
  utf16_len p < col < utf16_len p + utf16_width c → str_len p < utf8_column (p ++ c :: q) col < str_len p + char_len c.
Proof.
  revert col. induction p as [|d p IH]; intros col Hw Hc; cbn [app utf8_column].
  - change (utf16_len []) with 0 in Hc. rewrite str_len_nil. destruct (Z.ltb_spec col (utf16_width c)); [|lia]. unfold utf16_width in *.
    destruct (Z.ltb_spec c 65536); [lia|]. unfold char_len, utf8_units. destruct (Z.ltb_spec c 128), (Z.ltb_spec c 2048), (Z.ltb_spec c 65536); unfold zlen; cbn; lia.
  - rewrite utf16_len_cons in Hc. rewrite str_len_cons. pose proof (utf16_len_nonneg p). destruct (Z.ltb_spec col (utf16_width d)); [lia|].
    apply Forall_cons in Hw as [_ Hw]. specialize (IH (col - utf16_width d) Hw ltac:(lia)). lia.
Qed.

#[local] Instance scan_index_ok : LineIndexOk.
Proof.
  split; [done|done|..].
  - intros t n p q Hw Ht Hn E. cbn. rewrite E. cbn. by rewrite utf8_column_prefix.
  - intros t n p c q col Hw Ht Hn E Hc. cbn. rewrite E. cbn. eexists. split; [done|]. apply utf8_column_inside; [|done].
    rewrite (line_at _ _ _ E) in Hw. apply Forall_app in Hw as [_ Hw]. by apply Forall_app in Hw as [Hw _].
  - intros t n l o Hw Ht Hn E Ho. cbn. by rewrite E.
Qed.

(** [a\r\n😀b]: the astral char becomes [x], then [!] follows it; then all is replaced. *)
Definition example_text : list Z := lit "a" ++ [13; 10; 128512] ++ lit "b".
Definition example_session : list (Z * list ClientEdit) :=
  [(2, [Splice 3 4 (lit "x"); Splice 4 4 (lit "!")]); (3, [ReplaceAll (lit "end")])].

Lemma document_sync_witness :
  document_text (lit "u") <$> did_changes (lit "u") example_text example_session (open_versioned (lit "u") example_text 1 ∅) =
    Some (Some (lit "end")) ∧
  session_text example_text (take 1 example_session) = lit "a" ++ [13; 10] ++ lit "x!b" ∧
  apply_changes (lit "u") None [mkContentChange (Some (mkLspRange (mkLspPosition 1 1) (mkLspPosition 9 0))) (lit "z")] (open_versioned (lit "u") example_text 1 ∅) =
    Some (Some (lit "a" ++ [13; 10] ++ lit "z"), <[lit "u" := mkBuffer (lit "a" ++ [13; 10] ++ lit "z") 1]> ∅).
Proof.
  assert (wf_str example_text) as Hw by (refine (bool_decide_unpack _ _); vm_compute; exact I).
  destruct (document_sync (lit "u") example_text 1 ∅ Hw) as [Hc Hs]. split; [|split; [reflexivity|]].
  - rewrite Hs; [reflexivity|]. assert (∀ t k, (k ≤ length t)%nat → (∀ c, t !! pred k = Some c → c ≠ 13) → denotable t k) as Hd.
    { intros u k Hk Hn. split; [done|]. intros (p & Ep & _). apply (Hn 13); [|done]. destruct k as [|k]; [by destruct p|].
      assert (length (take (S k) u) = S (length p)) as El by (rewrite Ep, length_app; cbn; lia). rewrite length_take_le in El by done. injection El as El.
      cbn [pred]. rewrite <- (lookup_take_lt u (S k) k) by lia. rewrite Ep, El. by apply list_lookup_middle. }
    cbn. split_and!; try (refine (bool_decide_unpack _ _); vm_compute; exact I); try lia; try done; apply Hd; cbn; try lia; by intros c [= <-].
  - rewrite Hc; [reflexivity|by vm_compute|]. constructor; [|done]. cbn. split; [refine (bool_decide_unpack _ _); vm_compute; exact I|by vm_compute].
Defined.
