(* ===== verification/BuildScheduler.v ===== *)
(** The debounced single-flight build scheduler ([ls-server/src/build_scheduler.rs]) as the
    interleaving of its threads: the message loop that schedules and finally drops it, the worker,
    the condition variable's wake-ups and the clock.

    Every step is what one thread does under one hold of the lock, or one call of the worker outside
    it. [step] is executable; what the compiler answers is part of the event. *)

From S2P Require Import Prelude RustStr.

Open Scope Z_scope.

(** [Instant] and [Duration] are integers. *)
Record Shared := mkShared {
  sd_scheduled : bool;
  sd_due_at : option Z;
  sd_shutting_down : bool;
  sd_pending_targets : gset (list Z);
  sd_pending_compile : bool;
  sd_pending_reindex : bool;
  sd_runs_completed : Z;
  sd_reingests_attempted : Z }.
Definition Shared_new : Shared := mkShared false None false ∅ false false 0 0.

(** Where the worker thread stands. *)
Inductive Worker :=
| Locking                                  (** about to take the lock at the head of the loop *)
| Sleeping                                 (** in [cvar.wait] *)
| Debouncing                               (** woken inside the debounce loop *)
| DebounceWait (until : Z)                 (** in [cvar.wait_timeout] *)
| Compiling (targets : list (list Z)) (reindex : bool)
| Reingesting
| Finishing (should_reingest : bool)
| Exited.

Record Scheduler := mkScheduler { sc_shared : Shared; sc_worker : Worker; sc_now : Z }.
Definition Scheduler_new (now : Z) : Scheduler := mkScheduler Shared_new Locking now.

(** What the worker does, for whoever observes it. *)
Inductive Effect :=
| Begun (targets : list (list Z)) (compile reindex : bool)
| CompileCalled (targets : list (list Z)) (ok : bool)
| ReingestCalled
| Completed (reingested : bool).

(** [schedule]: the state after it, and whether it notified. *)
Definition schedule (debounce now : Z) (targets : list (list Z)) (compile_first : bool) (sh : Shared) : Shared * bool :=
  if sd_shutting_down sh then (sh, false) else
  let sh :=
    if compile_first
    then mkShared (sd_scheduled sh) (sd_due_at sh) (sd_shutting_down sh) (sd_pending_targets sh ∪ list_to_set targets) true
           (sd_pending_reindex sh) (sd_runs_completed sh) (sd_reingests_attempted sh)
    else mkShared (sd_scheduled sh) (sd_due_at sh) (sd_shutting_down sh) (sd_pending_targets sh) (sd_pending_compile sh) true
           (sd_runs_completed sh) (sd_reingests_attempted sh) in
  if sd_scheduled sh then (sh, false)
  else (mkShared true (Some (now + debounce)) (sd_shutting_down sh) (sd_pending_targets sh) (sd_pending_compile sh)
          (sd_pending_reindex sh) (sd_runs_completed sh) (sd_reingests_attempted sh), true).

Definition schedule_reindex (debounce now : Z) (sh : Shared) : Shared * bool := schedule debounce now [] false sh.

(** [cvar.notify_all()], for a worker that waits. *)
Definition notify (w : Worker) : Worker :=
  match w with
  | Sleeping => Locking
  | DebounceWait _ => Debouncing
  | w => w
  end.

Definition shut_down (sh : Shared) : Shared :=
  mkShared (sd_scheduled sh) (sd_due_at sh) true (sd_pending_targets sh) (sd_pending_compile sh) (sd_pending_reindex sh)
    (sd_runs_completed sh) (sd_reingests_attempted sh).

(** The beginning of a run: every pending intent is taken. *)
Definition begin_run (sh : Shared) : Shared * Worker * list Effect :=
  let targets := sort_by str_leb (elements (sd_pending_targets sh)) in
  let compile := sd_pending_compile sh in
  let reindex := sd_pending_reindex sh in
  let sh := mkShared false None (sd_shutting_down sh) ∅ false false (sd_runs_completed sh) (sd_reingests_attempted sh) in
  (sh, if compile && negb (bool_decide (targets = [])) then Compiling targets reindex else Reingesting,
   [Begun targets compile reindex]).

(** One turn of the debounce loop; the [None] of [checked_duration_since] is a due time that has passed. *)
Definition debounce_turn (now : Z) (sh : Shared) : Shared * Worker * list Effect :=
  if sd_shutting_down sh then (sh, Exited, []) else
  let due := default now (sd_due_at sh) in
  if due <? now then begin_run sh else (sh, DebounceWait due, []).

(** One turn of the worker: from the head of the loop to where it waits, exits or begins a run; the
    compile; the reingest; the bookkeeping after them. *)
Definition worker_turn (now : Z) (ok : bool) (sh : Shared) (w : Worker) : option (Shared * Worker * list Effect) :=
  match w with
  | Locking =>
      if sd_shutting_down sh then Some (sh, Exited, [])
      else if sd_scheduled sh then Some (debounce_turn now sh)
      else Some (sh, Sleeping, [])
  | Debouncing => Some (debounce_turn now sh)
  | Compiling targets reindex =>
      Some (sh, if ok || reindex then Reingesting else Finishing false, [CompileCalled targets ok])
  | Reingesting => Some (sh, Finishing true, [ReingestCalled])
  | Finishing should_reingest =>
      Some (mkShared (sd_scheduled sh) (sd_due_at sh) (sd_shutting_down sh) (sd_pending_targets sh) (sd_pending_compile sh)
              (sd_pending_reindex sh) (as_u64 (sd_runs_completed sh + 1))
              (if should_reingest then as_u64 (sd_reingests_attempted sh + 1) else sd_reingests_attempted sh),
            Locking, [Completed should_reingest])
  | Sleeping | DebounceWait _ | Exited => None
  end.

Inductive Event :=
| Schedule (targets : list (list Z)) (compile_first : bool)
| DropScheduler
| Tick (elapsed : Z)
| Work (ok : bool)                         (** the worker runs; [ok] is what a compile answers *)
| Wake.                                    (** a wait ends: its timeout, or spuriously *)

(** [None] where the event cannot happen. *)
Definition step (debounce : Z) (s : Scheduler) (e : Event) : option (Scheduler * list Effect) :=
  let '(mkScheduler sh w now) := s in
  match e with
  | Schedule targets compile_first =>
      let '(sh, notified) := schedule debounce now targets compile_first sh in
      Some (mkScheduler sh (if notified then notify w else w) now, [])
  | DropScheduler => Some (mkScheduler (shut_down sh) (notify w) now, [])
  | Tick elapsed => if 0 <? elapsed then Some (mkScheduler sh w (now + elapsed), []) else None
  | Work ok => '(sh, w, out) ← worker_turn now ok sh w; Some (mkScheduler sh w now, out)
  | Wake => match w with Sleeping | DebounceWait _ => Some (mkScheduler sh (notify w) now, []) | _ => None end
  end.

(** ** The contract: no request is lost

    The abstract scheduler is the queue of requests accepted since the last run began. *)

Definition Request : Type := list (list Z) * bool.

Definition queued_targets (q : list Request) : gset (list Z) := list_to_set (concat (fst <$> List.filter snd q)).

Definition accept (down : bool) (q : list Request) (e : Event) : list Request :=
  match e with
  | Schedule targets compile_first => if down then q else q ++ [(targets, compile_first)]
  | _ => q
  end.

(** The queue after a step that showed these effects. *)
Definition queue_after (down : bool) (q : list Request) (e : Event) (out : list Effect) : list Request :=
  match out with Begun _ _ _ :: _ => [] | _ => accept down q e end.

(** The scheduler holds exactly the queue, and a sleeping worker has nothing to do. *)
Record holds_queue (s : Scheduler) (q : list Request) : Prop := mkHolds {
  hq_scheduled : sd_scheduled (sc_shared s) = negb (bool_decide (q = []));
  hq_due : sd_scheduled (sc_shared s) = true ↔ is_Some (sd_due_at (sc_shared s));
  hq_targets : sd_pending_targets (sc_shared s) = queued_targets q;
  hq_compile : sd_pending_compile (sc_shared s) = existsb snd q;
  hq_reindex : sd_pending_reindex (sc_shared s) = existsb (λ r, negb (snd r)) q;
  hq_worker : match sc_worker s with
              | Sleeping => q = [] ∧ sd_shutting_down (sc_shared s) = false
              | Debouncing => q ≠ []
              | DebounceWait t => q ≠ [] ∧ sd_shutting_down (sc_shared s) = false ∧ sd_due_at (sc_shared s) = Some t
              | Exited => sd_shutting_down (sc_shared s) = true
              | Compiling ts _ => ts ≠ []
              | _ => True
              end }.

(** What a step may show, given the queue it starts from. *)
Definition effect_ok (s : Scheduler) (q : list Request) (out : list Effect) : Prop :=
  match out with
  | [] => True
  | [Begun targets compile reindex] =>
      q ≠ [] ∧ targets = sort_by str_leb (elements (queued_targets q)) ∧ compile = existsb snd q ∧
      reindex = existsb (λ r, negb (snd r)) q
  | [CompileCalled targets _] => ∃ reindex, sc_worker s = Compiling targets reindex
  | [ReingestCalled] => sc_worker s = Reingesting
  | [Completed b] => sc_worker s = Finishing b
  | _ => False
  end.

Lemma holds_new now : holds_queue (Scheduler_new now) [].
Proof. split; try done. split; [done|]. by intros [? ?]. Qed.

Lemma queued_snoc q ts cf : queued_targets (q ++ [(ts, cf)]) = if (cf : bool) then queued_targets q ∪ list_to_set ts else queued_targets q.
Proof.
  unfold queued_targets. rewrite List.filter_app. cbn [List.filter snd]. destruct cf; cbn.
  - rewrite fmap_app, concat_app, list_to_set_app_L. cbn. by rewrite app_nil_r.
  - by rewrite app_nil_r.
Qed.

Lemma snoc_not_nil {A : Type} (l : list A) x : bool_decide (l ++ [x] = []) = false.
Proof. apply bool_decide_eq_false_2. by destruct l. Qed.

Lemma begin_run_holds sh now q :
  holds_queue (mkScheduler sh Locking now) q → q ≠ [] →
  let '(sh', w, out) := begin_run sh in holds_queue (mkScheduler sh' w now) [] ∧ effect_ok (mkScheduler sh w now) q out ∧ (∃ ts c r, out = [Begun ts c r]).
Proof.
  intros [H1 H2 H3 H4 H5 _] Hq. cbn in *. unfold begin_run. split; [|split].
  - split; cbn; try done. destruct (sd_pending_compile sh); cbn; [|done].
    by destruct (bool_decide_reflect (sort_by str_leb (elements (sd_pending_targets sh)) = [])).
  - cbn. by rewrite H3, H4, H5.
  - by eexists _, _, _.
Qed.

Lemma debounce_holds sh now q w :
  holds_queue (mkScheduler sh w now) q → q ≠ [] →
  let '(sh', w', out) := debounce_turn now sh in
  holds_queue (mkScheduler sh' w' now) (match out with [] => q | _ => [] end) ∧ effect_ok (mkScheduler sh w now) q out ∧
  (out = [] ∨ ∃ ts c r, out = [Begun ts c r]).
Proof.
  intros H Hq. unfold debounce_turn. destruct (sd_shutting_down sh) eqn:Ed.
  { split; [|split; [done|by left]]. destruct H as [H1 H2 H3 H4 H5 _]. by split. }
  destruct (Z.ltb_spec (default now (sd_due_at sh)) now).
  - destruct (begin_run sh) as [[sh' w'] out] eqn:E. pose proof (begin_run_holds sh now q) as Hb. rewrite E in Hb.
    destruct Hb as (Hh & He & ts & c & r & ->); [destruct H as [H1 H2 H3 H4 H5 _]; by split|done|].
    split; [exact Hh|]. split; [exact He|]. right. by eexists _, _, _.
  - split; [|split; [done|by left]]. destruct H as [H1 H2 H3 H4 H5 _]. cbn in *. split; cbn; try done. split_and!; [done..|].
    rewrite H1 in H2. destruct H2 as [[d Hd] _]; [by rewrite bool_decide_eq_false_2|]. by rewrite Hd.
Qed.

Ltac worker_cases w :=
  destruct w; cbn in *; destruct_and?; split_and?; try done; try congruence; try (by intros [? ?]%app_nil).

(** One step preserves the queue and shows what the queue says. *)
Lemma step_holds debounce s e s' out q :
  holds_queue s q → step debounce s e = Some (s', out) →
  holds_queue s' (queue_after (sd_shutting_down (sc_shared s)) q e out) ∧ effect_ok s q out.
Proof.
  intros H Hs. destruct s as [sh w now]. cbn [sc_shared]. destruct e as [ts cf| |d|ok|]; cbn [step] in Hs.
  - unfold schedule in Hs. destruct (sd_shutting_down sh) eqn:Ed; [injection Hs as <- <-; done|]. split; [|by destruct (sd_scheduled _), cf in Hs; injection Hs as <- <-].
    destruct H as [H1 H2 H3 H4 H5 H6]. cbn in *.
    assert (sd_scheduled sh = true ∨ q = []) as Hq.
    { rewrite H1. destruct (bool_decide_reflect (q = [])); [by right|by left]. }
    destruct (sd_scheduled sh) eqn:Es.
    + assert (q ≠ []) as Hne by (intros ->; by rewrite bool_decide_eq_true_2 in H1).
      destruct cf; cbn in Hs; injection Hs as <- <-; cbn; split; cbn;
        rewrite ?snoc_not_nil, ?queued_snoc, ?existsb_app, ?H3, ?H4, ?H5, ?Es, ?orb_false_r, ?orb_true_r; try done;
        worker_cases w.
    + destruct Hq as [?| ->]; [done|].
      destruct cf; cbn in Hs; injection Hs as <- <-; cbn; split; cbn; rewrite ?H3, ?H4, ?H5; try done;
        first [by rewrite app_nil_r; apply union_empty_l_L|worker_cases w].
  - injection Hs as <- <-. split; [|done]. destruct H as [H1 H2 H3 H4 H5 H6]. cbn in *. split; cbn; try done. worker_cases w.
  - destruct (0 <? d); [|done]. injection Hs as <- <-. split; [|done]. destruct H as [H1 H2 H3 H4 H5 H6]. by split.
  - destruct (worker_turn now ok sh w) as [[[sh1 w1] out1]|] eqn:E; [|done]. injection Hs as <- <-.
    assert (∀ b, Some (debounce_turn now sh) = Some (sh1, w1, out1) → (b = true → q ≠ []) → b = true →
      holds_queue (mkScheduler sh1 w1 now) (queue_after (sd_shutting_down sh) q (Work ok) out1) ∧ effect_ok (mkScheduler sh w now) q out1) as Hdeb.
    { intros b Et Hq Hb. injection Et as Et. pose proof (debounce_holds sh now q w H (Hq Hb)) as Hd. rewrite Et in Hd.
      destruct Hd as (Hh & He & [->|(ts & c & r & ->)]); done. }
    destruct w; cbn [worker_turn] in E; try done.
    + destruct (sd_shutting_down sh) eqn:Ed; [injection E as <- <- <-; destruct H as [H1 H2 H3 H4 H5 _]; by split; [split|]|].
      destruct (sd_scheduled sh) eqn:Es.
      * apply (Hdeb true E); [|done]. intros _ ->. destruct H as [H1 _ _ _ _ _]. cbn in H1. congruence.
      * injection E as <- <- <-. split; [|done]. destruct H as [H1 H2 H3 H4 H5 _]. cbn in *. split; cbn; try done. split; [|done].
        rewrite Es in H1. destruct (bool_decide_reflect (q = [])); done.
    + apply (Hdeb true E); [|done]. intros _. by destruct H as [_ _ _ _ _ H6].
    + injection E as <- <- <-. split; [|by exists reindex]. destruct H as [H1 H2 H3 H4 H5 H6]. split; cbn; try done. by destruct (ok || reindex).
    + injection E as <- <- <-. destruct H as [H1 H2 H3 H4 H5 H6]. by split; [split|].
    + injection E as <- <- <-. destruct H as [H1 H2 H3 H4 H5 H6]. by split; [split|].
  - destruct w; try done; injection Hs as <- <-; (split; [|done]); destruct H as [H1 H2 H3 H4 H5 H6]; cbn in *; split; cbn; naive_solver.
Qed.

(** ** Liveness

    An execution is an infinite sequence of steps. Fairness: a worker that can run does, a wait whose
    time has passed ends, and the clock passes every instant. *)

Section liveness.
Context (debounce : Z) (ex : nat → Scheduler) (ev : nat → Event) (out : nat → list Effect).

Definition execution : Prop :=
  (∃ now, ex 0%nat = Scheduler_new now) ∧ ∀ n, step debounce (ex n) (ev n) = Some (ex (S n), out n).

Definition idle (w : Worker) : Prop := match w with Sleeping | DebounceWait _ | Exited => True | _ => False end.
Definition works (e : Event) : Prop := match e with Work _ => True | _ => False end.
Definition overdue (s : Scheduler) : Prop := match sc_worker s with DebounceWait t => t < sc_now s | _ => False end.

Record fair : Prop := mkFair {
  fair_worker n : ∃ m, (n ≤ m)%nat ∧ (works (ev m) ∨ idle (sc_worker (ex m)));
  fair_timer n : ∃ m, (n ≤ m)%nat ∧ (ev m = Wake ∨ ¬ overdue (ex m));
  fair_clock n t : ∃ m, (n ≤ m)%nat ∧ t < sc_now (ex m) }.

Definition never_dropped : Prop := ∀ n, ev n ≠ DropScheduler.

Hypothesis (Hex : execution) (Hfair : fair) (Hdrop : never_dropped).

Fixpoint queue_at (n : nat) : list Request :=
  match n with
  | O => []
  | S n => queue_after (sd_shutting_down (sc_shared (ex n))) (queue_at n) (ev n) (out n)
  end.

Definition begun (n : nat) : Prop := match out n with Begun _ _ _ :: _ => True | _ => False end.
#[local] Instance begun_dec n : Decision (begun n).
Proof. unfold begun. destruct (out n) as [|[]]; apply _. Defined.

Lemma queue_holds n : holds_queue (ex n) (queue_at n).
Proof.
  destruct Hex as [[now H0] Hs]. induction n as [|n IH]; [rewrite H0; apply holds_new|].
  by destruct (step_holds _ _ _ _ _ _ IH (Hs n)).
Qed.

Lemma effects_ok n : effect_ok (ex n) (queue_at n) (out n).
Proof. destruct Hex as [_ Hs]. by destruct (step_holds _ _ _ _ _ _ (queue_holds n) (Hs n)). Qed.

(** What one step changes. *)
Lemma step_down n : sd_shutting_down (sc_shared (ex n)) = false.
Proof.
  destruct Hex as [[now H0] Hs]. induction n as [|n IH]; [by rewrite H0|]. pose proof (Hs n) as Hn. pose proof (Hdrop n) as Hd.
  destruct (ex n) as [sh w t], (ev n) as [ts cf| |d|ok|]; cbn in *; try done.
  - unfold schedule in Hn. rewrite IH in Hn. destruct cf, (sd_scheduled _) in Hn; by injection Hn as <- _.
  - destruct (0 <? d); [|done]. by injection Hn as <- _.
  - assert (∀ r, debounce_turn t sh = r → sd_shutting_down r.1.1 = false) as Hdt.
    { intros r <-. unfold debounce_turn. rewrite IH. by destruct (_ <? t). }
    destruct (worker_turn t ok sh w) as [[[sh1 w1] o]|] eqn:E; [|done]. injection Hn as <- _. cbn.
    destruct w; cbn in E; try done; try (injection E as E; by specialize (Hdt _ E)); [|by injection E as <- _ _..].
    rewrite IH in E. destruct (sd_scheduled sh); [injection E as E; by specialize (Hdt _ E)|by injection E as <- _ _].
  - destruct w; try done; by injection Hn as <- _.
Qed.

Lemma now_mono n m : (n ≤ m)%nat → sc_now (ex n) ≤ sc_now (ex m).
Proof.
  destruct Hex as [_ Hs]. induction 1 as [|m _ IH]; [done|]. etrans; [exact IH|]. pose proof (Hs m) as Hm.
  destruct (ex m) as [sh w t], (ev m) as [ts cf| |d|ok|]; cbn in *.
  - destruct (schedule _ _ _ _ _). by injection Hm as <- _.
  - by injection Hm as <- _.
  - destruct (Z.ltb_spec 0 d); [|done]. injection Hm as <- _. cbn. lia.
  - destruct (worker_turn t ok sh w) as [[[sh1 w1] o]|]; [|done]. by injection Hm as <- _.
  - destruct w; try done; by injection Hm as <- _.
Qed.

(** While a run is pending its due time stays. *)
Lemma pending_stays n : queue_at n ≠ [] → begun n ∨ (queue_at (S n) ≠ [] ∧ sd_due_at (sc_shared (ex (S n))) = sd_due_at (sc_shared (ex n))).
Proof.
  intros Hq. destruct (decide (begun n)) as [Hb|Hb]; [by left|right]. pose proof (step_down n) as Hd.
  pose proof (queue_holds n) as Hh. pose proof (hq_scheduled _ _ Hh) as Hsc. rewrite bool_decide_eq_false_2 in Hsc by done.
  split.
  - cbn [queue_at]. unfold queue_after. unfold begun in Hb. destruct (out n) as [|[]]; try done; unfold accept; destruct (ev n); rewrite ?Hd; try done;
      by intros [_ ?]%app_nil.
  - destruct Hex as [_ Hs]. specialize (Hs n). unfold begun in Hb. clear Hh.
    destruct (ex n) as [sh w t], (ev n) as [ts cf| |e|ok|]; cbn in *.
    + unfold schedule in Hs. rewrite Hd in Hs. destruct cf; cbn in Hs; rewrite Hsc in Hs; by injection Hs as <- _.
    + by injection Hs as <- _.
    + destruct (0 <? e); [|done]. by injection Hs as <- _.
    + assert (∀ r, debounce_turn t sh = r → r.1.1 = sh ∨ ∃ ts c r', r.2 = [Begun ts c r']) as Hdt.
      { intros r <-. unfold debounce_turn. rewrite Hd. destruct (_ <? t); [right; by eexists _, _, _|by left]. }
      destruct (worker_turn t ok sh w) as [[[sh1 w1] o]|] eqn:E; [|done]. injection Hs as Es Eo. rewrite <- Es. cbn. rewrite <- Eo in Hb.
      assert (Some (debounce_turn t sh) = Some (sh1, w1, o) → sd_due_at sh1 = sd_due_at sh) as Hdeb.
      { intros Et. injection Et as Et. destruct (Hdt _ Et) as [E1|(? & ? & ? & H)]; [cbn in E1; by subst|]. cbn in H. by rewrite H in Hb. }
      destruct w; cbn in E; try done; try (by apply Hdeb); [|by injection E as <- _ _..].
      rewrite Hd, Hsc in E. by apply Hdeb.
    + destruct w; try done; by injection Hs as <- _.
Qed.

Lemma pending_carries n m : queue_at n ≠ [] → (n ≤ m)%nat →
  (∃ k, (n ≤ k)%nat ∧ begun k) ∨ (queue_at m ≠ [] ∧ sd_due_at (sc_shared (ex m)) = sd_due_at (sc_shared (ex n))).
Proof.
  intros Hq. induction 1 as [|m Hm [IH|[IH1 IH2]]]; [by right|by left|].
  destruct (pending_stays m IH1) as [?|[H1 H2]]; [left; by exists m|]. right. split; [done|]. by rewrite H2.
Qed.

(** A worker that can run stays where it is until it does. *)
Lemma runs_next n : ¬ idle (sc_worker (ex n)) → ∃ m, (n ≤ m)%nat ∧ works (ev m) ∧ sc_worker (ex m) = sc_worker (ex n).
Proof.
  destruct Hex as [_ Hs]. intros Hi. destruct (fair_worker Hfair n) as (m & Hm & Hw). remember (m - n)%nat as d eqn:Ed. revert n Hi Hm Ed.
  induction d as [|d IH]; intros n Hi Hm Ed.
  { assert (m = n) as -> by lia. exists n. by destruct Hw. }
  assert (works (ev n) ∨ sc_worker (ex (S n)) = sc_worker (ex n)) as [?|Ew].
  { pose proof (Hs n) as Hn. destruct (ex n) as [sh w t], (ev n) as [ts cf| |e|ok|]; cbn in *; [right|right|right|by left|].
    - destruct (schedule _ _ _ _ _) as [sh' b]. injection Hn as <- _. by destruct b, w.
    - injection Hn as <- _. by destruct w.
    - destruct (0 <? e); [|done]. by injection Hn as <- _.
    - by destruct w. }
  { by exists n. }
  destruct (IH (S n)) as (k & Hk & Hwk & Ek); [by rewrite Ew|lia|lia|]. exists k. split; [lia|]. split; [done|]. by rewrite Ek.
Qed.

(** A run is pending and its debounce window is over. *)
Definition ready (n : nat) (d : Z) : Prop :=
  queue_at n ≠ [] ∧ sd_due_at (sc_shared (ex n)) = Some d ∧ d < sc_now (ex n).
Definition begins_from (n : nat) : Prop := ∃ m, (n ≤ m)%nat ∧ begun m.

Lemma ready_carries n m d : ready n d → (n ≤ m)%nat → begins_from n ∨ ready m d.
Proof.
  intros (Hq & Hd & Ht) Hm. destruct (pending_carries n m Hq Hm) as [?|[H1 H2]]; [by left|]. right. split; [done|].
  rewrite H2. split; [done|]. pose proof (now_mono n m Hm). lia.
Qed.

Lemma ready_works n d : ready n d → ¬ idle (sc_worker (ex n)) →
  begins_from n ∨ ∃ m, (n ≤ m)%nat ∧ works (ev m) ∧ sc_worker (ex m) = sc_worker (ex n) ∧ ready m d.
Proof.
  intros Hr Hi. destruct (runs_next n Hi) as (m & Hm & Hw & Ew). destruct (ready_carries n m d Hr Hm) as [?|?]; [by left|].
  right. by exists m.
Qed.

Lemma begins_later n m : (n ≤ m)%nat → begins_from m → begins_from n.
Proof. intros Hm (k & Hk & Hb). exists k. split; [lia|done]. Qed.

(** A turn in the debounce loop after the due time begins the run. *)
Lemma turn_begins n d : ready n d → works (ev n) → sc_worker (ex n) = Locking ∨ sc_worker (ex n) = Debouncing → begun n.
Proof.
  intros (Hq & Hd & Ht) Hw Ew. pose proof (step_down n) as Hdn. pose proof (hq_scheduled _ _ (queue_holds n)) as Hsc.
  rewrite bool_decide_eq_false_2 in Hsc by done. destruct Hex as [_ Hs]. specialize (Hs n). unfold begun.
  destruct (ev n) as [| | |ok|]; try done. destruct (ex n) as [sh w t]. cbn in *.
  assert (∀ r, debounce_turn t sh = r → ∃ ts c r', r.2 = [Begun ts c r']) as Hdt.
  { intros r <-. unfold debounce_turn. rewrite Hdn, Hd. cbn. destruct (Z.ltb_spec d t); [by eexists _, _, _|lia]. }
  assert (∃ r, worker_turn t ok sh w = Some r ∧ debounce_turn t sh = r) as (r & E & Er).
  { destruct Ew as [-> | ->]; cbn; [rewrite Hdn, Hsc|]; by eexists. }
  rewrite E in Hs. destruct (Hdt _ Er) as (ts & c & r' & E2). destruct r as [[sh1 w1] o]. cbn in *. injection Hs as _ <-. by rewrite E2.
Qed.

Lemma begins_from_loop n d : ready n d → sc_worker (ex n) = Locking ∨ sc_worker (ex n) = Debouncing → begins_from n.
Proof.
  intros Hr Ew. destruct (ready_works n d Hr) as [?|(m & Hm & Hw & Em & Hrm)]; [by destruct Ew as [-> | ->]; cbn; tauto|done|].
  exists m. split; [done|]. eapply turn_begins; [done|done|]. by rewrite Em.
Qed.

(** The worker after a turn outside the lock. *)
Lemma turn_next n : works (ev n) →
  match sc_worker (ex n) with
  | Compiling ts r => ∃ ok, out n = [CompileCalled ts ok] ∧ sc_worker (ex (S n)) = if ok || r then Reingesting else Finishing false
  | Reingesting => out n = [ReingestCalled] ∧ sc_worker (ex (S n)) = Finishing true
  | Finishing b => out n = [Completed b] ∧ sc_worker (ex (S n)) = Locking
  | _ => True
  end.
Proof.
  intros Hw. destruct Hex as [_ Hs]. specialize (Hs n). destruct (ev n) as [| | |ok|]; try done. destruct (ex n) as [sh w t]. cbn in *.
  destruct w; cbn in *; try done; injection Hs as <- <-; [by exists ok|done|done].
Qed.

Lemma begins_from_finish n d b : ready n d → sc_worker (ex n) = Finishing b → begins_from n.
Proof.
  intros Hr Ew. destruct (ready_works n d Hr) as [?|(m & Hm & Hw & Em & Hrm)]; [by rewrite Ew; cbn; tauto|done|].
  pose proof (turn_next m Hw) as Ht. rewrite Em, Ew in Ht. destruct Ht as [_ Hn].
  destruct (ready_carries m (S m) d Hrm ltac:(lia)) as [?|Hr']; [by eapply begins_later|].
  apply (begins_later n (S m)); [lia|]. eapply begins_from_loop; [done|by left].
Qed.

Lemma begins_from_reingest n d : ready n d → sc_worker (ex n) = Reingesting → begins_from n.
Proof.
  intros Hr Ew. destruct (ready_works n d Hr) as [?|(m & Hm & Hw & Em & Hrm)]; [by rewrite Ew; cbn; tauto|done|].
  pose proof (turn_next m Hw) as Ht. rewrite Em, Ew in Ht. destruct Ht as [_ Hn].
  destruct (ready_carries m (S m) d Hrm ltac:(lia)) as [?|Hr']; [by eapply begins_later|].
  apply (begins_later n (S m)); [lia|]. by eapply begins_from_finish.
Qed.

Lemma begins_from_compile n d ts r : ready n d → sc_worker (ex n) = Compiling ts r → begins_from n.
Proof.
  intros Hr Ew. destruct (ready_works n d Hr) as [?|(m & Hm & Hw & Em & Hrm)]; [by rewrite Ew; cbn; tauto|done|].
  pose proof (turn_next m Hw) as Ht. rewrite Em, Ew in Ht. destruct Ht as (ok & _ & Hn).
  destruct (ready_carries m (S m) d Hrm ltac:(lia)) as [?|Hr']; [by eapply begins_later|].
  apply (begins_later n (S m)); [lia|]. destruct (ok || r); [by eapply begins_from_reingest|by eapply begins_from_finish].
Qed.

(** A wait whose time has passed ends in the debounce loop. *)
Lemma begins_from_wait n d t : ready n d → sc_worker (ex n) = DebounceWait t → begins_from n.
Proof.
  destruct (fair_timer Hfair n) as (m & Hm & Hw). remember (m - n)%nat as e eqn:Ee. revert n Hm Ee.
  induction e as [|e IH]; intros n Hm Ee Hr Ew.
  - assert (m = n) as -> by lia. pose proof (hq_worker _ _ (queue_holds n)) as Hh. rewrite Ew in Hh. destruct Hh as (_ & _ & Hdt).
    pose proof Hr as (Hq & Hd & Ht). rewrite Hd in Hdt. injection Hdt as <-.
    destruct Hw as [Hwk|Hno]; [|exfalso; apply Hno; unfold overdue; by rewrite Ew].
    destruct (ready_carries n (S n) d Hr ltac:(lia)) as [?|Hr']; [done|]. apply (begins_later n (S n)); [lia|].
    eapply begins_from_loop; [done|]. right. destruct Hex as [_ Hs]. specialize (Hs n). rewrite Hwk in Hs.
    destruct (ex n) as [sh w u]. cbn in *. subst w. by injection Hs as <- _.
  - destruct (ready_carries n (S n) d Hr ltac:(lia)) as [?|Hr']; [done|]. apply (begins_later n (S n)); [lia|].
    assert (sc_worker (ex (S n)) = DebounceWait t ∨ sc_worker (ex (S n)) = Debouncing) as [E|E].
    { destruct Hr as (Hq & Hd & Ht). pose proof (step_down n) as Hdn. pose proof (hq_scheduled _ _ (queue_holds n)) as Hsc.
      rewrite bool_decide_eq_false_2 in Hsc by done. destruct Hex as [_ Hs]. specialize (Hs n). pose proof (Hdrop n).
      destruct (ex n) as [sh w u], (ev n) as [ts cf| |x|ok|]; cbn in *; subst; try done.
      - unfold schedule in Hs. rewrite Hdn in Hs. destruct cf; cbn in Hs; rewrite Hsc in Hs; injection Hs as <- _; by left.
      - destruct (0 <? x); [|done]. injection Hs as <- _. by left.
      - injection Hs as <- _. by right. }
    + apply IH; [lia|lia|done|done].
    + eapply begins_from_loop; [done|by right].
Qed.

Lemma pending_begins n : queue_at n ≠ [] → begins_from n.
Proof.
  intros Hq. pose proof (queue_holds n) as Hh. pose proof (hq_scheduled _ _ Hh) as Hsc. rewrite bool_decide_eq_false_2 in Hsc by done.
  destruct (proj1 (hq_due _ _ Hh) Hsc) as [d Hd]. destruct (fair_clock Hfair n d) as (N & HN & Ht).
  destruct (pending_carries n N Hq HN) as [?|[Hq' Hd']]; [done|]. apply (begins_later n N HN).
  assert (ready N d) as Hr by (split; [done|]; split; [by rewrite Hd'|done]).
  pose proof (hq_worker _ _ (queue_holds N)) as Hw. destruct (sc_worker (ex N)) eqn:Ew.
  - eapply begins_from_loop; [done|by left].
  - by destruct Hw as [? _].
  - eapply begins_from_loop; [done|by right].
  - by eapply begins_from_wait.
  - by eapply begins_from_compile.
  - by eapply begins_from_reingest.
  - by eapply begins_from_finish.
  - by rewrite step_down in Hw.
Qed.

(** The first run that begins. *)
Lemma first_begun n : begins_from n → ∃ m, (n ≤ m)%nat ∧ begun m ∧ ∀ k, (n ≤ k < m)%nat → ¬ begun k.
Proof.
  intros (m & Hm & Hb). remember (m - n)%nat as e eqn:Ee. revert n Hm Ee. induction e as [|e IH]; intros n Hm Ee.
  - assert (m = n) as -> by lia. exists n. split; [done|]. split; [done|]. intros k Hk. lia.
  - destruct (decide (begun n)) as [Hn|Hn]; [exists n; split; [done|]; split; [done|]; intros k Hk; lia|].
    destruct (IH (S n)) as (k & Hk & Hbk & Hno); [lia..|]. exists k. split; [lia|]. split; [done|]. intros j Hj.
    destruct (decide (j = n)) as [->|]; [done|]. apply Hno. lia.
Qed.

Lemma request_waits n m r : r ∈ queue_at n → (n ≤ m)%nat → (∀ k, (n ≤ k < m)%nat → ¬ begun k) → r ∈ queue_at m.
Proof.
  intros Hr. induction 1 as [|m Hm IH]; intros Hno; [done|]. specialize (IH ltac:(intros k Hk; apply Hno; lia)).
  pose proof (Hno m ltac:(lia)) as Hb. cbn [queue_at]. unfold queue_after. unfold begun in Hb.
  assert (r ∈ accept (sd_shutting_down (sc_shared (ex m))) (queue_at m) (ev m)) as Ha.
  { unfold accept. rewrite step_down. destruct (ev m); [|done..]. apply elem_of_app. by left. }
  by destruct (out m) as [|[]].
Qed.

(** A run that began completes. *)
Lemma run_completes n ts c r : out n = [Begun ts c r] →
  ∃ m b, (n < m)%nat ∧ out m = [Completed b] ∧
    (if c && negb (bool_decide (ts = [])) then ∃ k ok, (n < k < m)%nat ∧ out k = [CompileCalled ts ok] ∧ b = ok || r else b = true) ∧
    (b = true → ∃ k, (n < k < m)%nat ∧ out k = [ReingestCalled]).
Proof.
  intros Ho.
  assert (∀ k b, sc_worker (ex k) = Finishing b → ∃ m, (k ≤ m)%nat ∧ out m = [Completed b]) as Hfinish.
  { intros k b Ek. destruct (runs_next k) as (m & Hm & Hw & Em); [by rewrite Ek; cbn; tauto|]. pose proof (turn_next m Hw) as Ht.
    rewrite Em, Ek in Ht. exists m. split; [done|]. by destruct Ht. }
  assert (∀ k, sc_worker (ex k) = Reingesting → ∃ j m, (k ≤ j < m)%nat ∧ out j = [ReingestCalled] ∧ out m = [Completed true]) as Hreingest.
  { intros k Ek. destruct (runs_next k) as (j & Hj & Hw & Ej); [by rewrite Ek; cbn; tauto|]. pose proof (turn_next j Hw) as Ht.
    rewrite Ej, Ek in Ht. destruct Ht as [Hoj Hn]. destruct (Hfinish _ _ Hn) as (m & Hm & Hom). exists j, m. split; [lia|done]. }
  assert (sc_worker (ex (S n)) = if c && negb (bool_decide (ts = [])) then Compiling ts r else Reingesting) as Ew.
  { destruct Hex as [_ Hs]. specialize (Hs n). pose proof (step_down n) as Hdn. rewrite Ho in Hs.
    destruct (ex n) as [sh w t], (ev n) as [ts' cf| |e|ok|]; cbn in *; try done.
    - by destruct (schedule _ _ _ _ _).
    - by destruct (0 <? e).
    - assert (∀ sh1 w1, debounce_turn t sh = (sh1, w1, [Begun ts c r]) → w1 = if c && negb (bool_decide (ts = [])) then Compiling ts r else Reingesting) as Hdt.
      { intros sh1 w1. unfold debounce_turn. rewrite Hdn. destruct (_ <? t); [|done]. unfold begin_run. by intros [= <- <- <- <- <-]. }
      destruct (worker_turn t ok sh w) as [[[sh1 w1] o]|] eqn:E; [|done]. injection Hs as <- ->. cbn.
      destruct w; cbn in E; try done; [rewrite Hdn in E; destruct (sd_scheduled sh); [|done]|]; injection E as E; by eapply Hdt.
    - by destruct w. }
  destruct (c && negb (bool_decide (ts = []))).
  - destruct (runs_next (S n)) as (k & Hk & Hw & Ek); [by rewrite Ew; cbn; tauto|]. pose proof (turn_next k Hw) as Ht.
    rewrite Ek, Ew in Ht. destruct Ht as (ok & Hok & Hn). destruct (ok || r) eqn:Eb.
    + destruct (Hreingest _ Hn) as (j & m & Hj & Hoj & Hom). exists m, true. split; [lia|]. split; [done|]. split.
      * exists k, ok. by split; [lia|].
      * intros _. exists j. split; [lia|done].
    + destruct (Hfinish _ _ Hn) as (m & Hm & Hom). exists m, false. split; [lia|]. split; [done|]. split; [|done].
      exists k, ok. by split; [lia|].
  - destruct (Hreingest _ Ew) as (j & m & Hj & Hoj & Hom). exists m, true. split; [lia|]. split; [done|]. split; [done|].
    intros _. exists j. split; [lia|done].
Qed.
End liveness.


(** A fair execution: one request at the first step, then the clock ticks at every even step and the worker moves at every odd one. *)
Definition demo_event (n : nat) (s : Scheduler) : Event :=
  if (n =? 0)%nat then Schedule [lit "file:///ws#core"] true
  else if Nat.even n then Tick 1
  else match sc_worker s with
       | Sleeping | Exited => Tick 1
       | DebounceWait t => if t <? sc_now s then Wake else Tick 1
       | _ => Work true
       end.
Fixpoint demo (n : nat) : Scheduler :=
  match n with
  | O => Scheduler_new 0
  | S n => match step 2 (demo n) (demo_event n (demo n)) with Some (s, _) => s | None => demo n end
  end.
Definition demo_out (n : nat) : list Effect :=
  match step 2 (demo n) (demo_event n (demo n)) with Some (_, o) => o | None => [] end.

Lemma demo_enabled n s : is_Some (step 2 s (demo_event n s)).
Proof.
  unfold demo_event. destruct s as [sh w t]. destruct (n =? 0)%nat; [cbn; destruct (schedule _ _ _ _ _); by eexists|].
  destruct (Nat.even n); [by eexists|]. destruct w; cbn; try by eexists.
  - destruct (sd_shutting_down sh), (sd_scheduled sh); cbn; try by eexists. destruct (debounce_turn _ _) as [[? ?] ?]. by eexists.
  - destruct (debounce_turn _ _) as [[? ?] ?]. by eexists.
  - destruct (until <? t); by eexists.
Qed.

Lemma demo_execution : execution 2 demo (λ n, demo_event n (demo n)) demo_out.
Proof.
  split; [by exists 0|]. intros n. unfold demo_out. cbn [demo]. destruct (demo_enabled n (demo n)) as [[s o] E]. by rewrite E.
Qed.

Lemma tick_now s e s' o : step 2 s (Tick e) = Some (s', o) → sc_now s' = sc_now s + e.
Proof. destruct s as [sh w t]. cbn. destruct (0 <? e); [|done]. by intros [= <- _]. Qed.

Lemma demo_clock k : Z.of_nat k ≤ sc_now (demo (S (2 * k))).
Proof.
  induction k as [|k IH]; [done|]. pose proof (now_mono _ _ _ _ demo_execution (S (2 * k)) (2 * S k) ltac:(lia)) as Hm.
  pose proof (proj2 demo_execution (2 * S k)%nat) as Hs. cbn beta in Hs. set (n := (2 * S k)%nat) in *.
  assert (demo_event n (demo n) = Tick 1) as E.
  { unfold demo_event. destruct (Nat.eqb_spec n 0); [lia|]. by replace (Nat.even n) with true by (symmetry; apply Nat.even_spec; by exists (S k)). }
  rewrite E in Hs. apply tick_now in Hs. rewrite Hs. lia.
Qed.

Lemma demo_moves n : ∃ m, (n ≤ m)%nat ∧ Nat.even m = false ∧ (m =? 0)%nat = false.
Proof.
  exists (S (2 * n)). split; [lia|]. split; [|done]. rewrite Nat.even_succ. apply not_true_iff_false. intros [k Hk]%Nat.odd_spec. lia.
Qed.

Lemma demo_fair : fair demo (λ n, demo_event n (demo n)).
Proof.
  split; intros n.
  - destruct (demo_moves n) as (m & Hm & He & H0). exists m. split; [done|]. unfold demo_event. rewrite He, H0.
    destruct (sc_worker (demo m)); cbn; tauto.
  - destruct (demo_moves n) as (m & Hm & He & H0). exists m. split; [done|]. unfold demo_event, overdue. rewrite He, H0.
    destruct (sc_worker (demo m)) as [| | |t| | | |]; try (right; tauto). destruct (Z.ltb_spec t (sc_now (demo m))); [by left|right; lia].
  - intros t. exists (S (2 * (n + S (Z.to_nat t)))). split; [lia|]. pose proof (demo_clock (n + S (Z.to_nat t))). lia.
Qed.

Lemma demo_never_dropped : never_dropped (λ n, demo_event n (demo n)).
Proof.
  intros n. unfold demo_event. destruct (_ =? 0)%nat; [done|]. destruct (Nat.even n); [done|].
  destruct (sc_worker _); try done. by destruct (_ <? _).
Qed.

