(* ===== verification/LspTransport.v ===== *)
(** The JSON-RPC transport of the language server ([ls-server/src/jsonrpc.rs]): [Content-Length]
    framing over a byte stream and the message model.

    A stream is the bytes that arrive on it and how it ends. The text form of a JSON value is
    [serde_json]'s: the class [SerdeJson]. *)

From S2P Require Import Prelude RustStr.

Open Scope Z_scope.

(** ** JSON values: [serde_json::Value] *)

Inductive JsonNumber := PosInt (n : Z) | NegInt (n : Z) | Float (bits : Z).
#[warnings="-register-all"]
Inductive Value :=
| VNull
| VBool (b : bool)
| VNumber (n : JsonNumber)
| VString (s : list Z)
| VArray (l : list Value)
| VObject (m : list (list Z * Value)).

Definition map_get (m : list (list Z * Value)) (key : list Z) : option Value :=
  snd <$> List.find (λ kv, str_eqb kv.1 key) m.
Definition as_object (v : Value) : option (list (list Z * Value)) := match v with VObject m => Some m | _ => None end.
Definition value_get (v : Value) (key : list Z) : option Value := m ← as_object v; map_get m key.
Definition as_str (v : Value) : option (list Z) := match v with VString s => Some s | _ => None end.
Definition as_bool (v : Value) : option bool := match v with VBool b => Some b | _ => None end.
Definition as_array (v : Value) : option (list Value) := match v with VArray l => Some l | _ => None end.
Definition value_as_i64 (v : Value) : option Z :=
  match v with
  | VNumber (PosInt n) => if n <? 2 ^ 63 then Some n else None
  | VNumber (NegInt n) => Some n
  | _ => None
  end.
(** [json!] of an integer. *)
Definition json_int (n : Z) : Value := VNumber (if n <? 0 then NegInt n else PosInt n).

(** [serde_json::from_slice] and [serde_json::to_vec] of a [Value]; an error is its message. *)
Class SerdeJson := {
  from_slice : bytes → result (list Z) Value;
  to_vec : Value → bytes }.

(** ** Messages *)

Inductive RequestId := IdNumber (n : Z) | IdString (s : list Z).
#[export] Instance RequestId_eq_dec : EqDecision RequestId.
Proof. solve_decision. Defined.
#[export] Instance RequestId_countable : Countable RequestId.
Proof.
  refine (inj_countable' (λ i, match i with IdNumber n => inl n | IdString s => inr s end)
            (λ s, match s with inl n => IdNumber n | inr s => IdString s end) _).
  by intros [].
Defined.

(** The derived (untagged) [Deserialize] and [Serialize] of [RequestId]. *)
Definition request_id_from (v : Value) : option RequestId :=
  match value_as_i64 v with
  | Some n => Some (IdNumber n)
  | None => IdString <$> as_str v
  end.
Definition request_id_value (id : RequestId) : Value :=
  match id with IdNumber n => json_int n | IdString s => VString s end.

Definition PARSE_ERROR : Z := -32700.
Definition INVALID_REQUEST : Z := -32600.
Definition METHOD_NOT_FOUND : Z := -32601.
Definition INVALID_PARAMS : Z := -32602.
Definition INTERNAL_ERROR : Z := -32603.
Definition SERVER_NOT_INITIALIZED : Z := -32002.
Definition REQUEST_FAILED : Z := -32803.
Definition REQUEST_CANCELLED : Z := -32800.

Record ResponseError := mkResponseError { re_code : Z; re_message : list Z; re_data : option Value }.
Definition ResponseError_new (code : Z) (message : list Z) : ResponseError := mkResponseError code message None.

Record Request := mkRequest { rq_id : RequestId; rq_method : list Z; rq_params : Value }.
Record Notification := mkNotification { nt_method : list Z; nt_params : Value }.
Record ClientResponse := mkClientResponse { cr_id : option RequestId; cr_result : option Value; cr_error : option Value }.
Inductive Incoming :=
| InRequest (r : Request)
| InNotification (n : Notification)
| InResponse (r : ClientResponse).
Record Response := mkResponse { rs_id : RequestId; rs_result : option Value; rs_error : option ResponseError }.

Definition success (id : RequestId) (v : Value) : Response := mkResponse id (Some v) None.
Definition failure (id : RequestId) (e : ResponseError) : Response := mkResponse id None (Some e).

(** The derived [Serialize]: a [None] with [skip_serializing_if] leaves its field out. *)
Definition field {A : Type} (name : list Z) (f : A → Value) (o : option A) : list (list Z * Value) :=
  match o with Some a => [(name, f a)] | None => [] end.
Definition response_error_value (e : ResponseError) : Value :=
  VObject ([(lit "code", json_int (re_code e)); (lit "message", VString (re_message e))] ++ field (lit "data") id (re_data e)).
Definition response_value (r : Response) : Value :=
  VObject ([(lit "jsonrpc", VString (lit "2.0")); (lit "id", request_id_value (rs_id r))] ++
           field (lit "result") id (rs_result r) ++ field (lit "error") response_error_value (rs_error r)).
(** [null_id_error] of [server.rs], and the body [write_null_id_error] writes. *)
Definition null_id_error (e : ResponseError) : Value :=
  VObject [(lit "jsonrpc", VString (lit "2.0")); (lit "id", VNull); (lit "error", response_error_value e)].

(** ** Reading a stream *)

Inductive IoErrorKind := UnexpectedEof | InvalidData | OtherError.
Inductive ReadStop :=
| ReadIo (kind : IoErrorKind) (message : list Z)
| ReadPanics                              (** the allocation of a body over [isize::MAX] bytes *)
| ReadFuel.

(** The bytes still to arrive, then the end of the stream or an error of the descriptor. *)
Record Stream := mkStream { sm_data : bytes; sm_fail : option (list Z) }.

Fixpoint split_newline (b : bytes) : option (bytes * bytes) :=
  match b with
  | [] => None
  | x :: b => if bool_decide (x = x0a) then Some ([x], b) else '(line, rest) ← split_newline b; Some (x :: line, rest)
  end.

(** [BufRead::read_line] *)
Definition read_line (s : Stream) : result ReadStop (list Z * Stream) :=
  '(raw, rest) ← match split_newline (sm_data s), sm_fail s with
                 | Some (line, rest), _ => Ok (line, rest)
                 | None, None => Ok (sm_data s, [])
                 | None, Some e => Err (ReadIo OtherError e)
                 end;
  text ← ok_or (from_utf8 raw) (ReadIo InvalidData (lit "stream did not contain valid UTF-8"));
  Ok (text, mkStream rest (sm_fail s)).

(** [vec![0u8; len]] filled by [Read::read_exact]. *)
Definition read_body (len : Z) (s : Stream) : result ReadStop (bytes * Stream) :=
  if 2 ^ 63 <=? len then Err ReadPanics else
  if zlen (sm_data s) <? len then
    Err (match sm_fail s with Some e => ReadIo OtherError e | None => ReadIo UnexpectedEof (lit "failed to fill whole buffer") end)
  else Ok (take (Z.to_nat len) (sm_data s), mkStream (drop (Z.to_nat len) (sm_data s)) (sm_fail s)).

Definition is_line_end (c : Z) : bool := (c =? 13) || (c =? 10).

Definition header_value (line name : list Z) : option (list Z) :=
  '(key, value) ← split_once (ch ":") line;
  if eq_ignore_ascii_case (trim key) name then Some value else None.

(** The header loop of [read_frame]: [None] is a clean end of the stream. *)
Fixpoint read_headers (fuel : nat) (content_length : option Z) (saw_header : bool) (s : Stream)
    : result ReadStop (option (option Z * Stream)) :=
  match fuel with
  | O => Err ReadFuel
  | S fuel =>
      '(line, s) ← read_line s;
      match line with
      | [] =>
          if saw_header then Err (ReadIo UnexpectedEof (lit "stream ended in the middle of a message header"))
          else Ok None
      | _ =>
          let header := trim_end_matches is_line_end line in
          match header with
          | [] => Ok (Some (content_length, s))
          | _ =>
              match header_value header (lit "Content-Length") with
              | Some value =>
                  n ← ok_or (parse_u64 (trim value)) (ReadIo InvalidData (lit "invalid Content-Length header"));
                  read_headers fuel (Some n) true s
              | None => read_headers fuel content_length true s
              end
          end
      end
  end.

Definition read_frame (s : Stream) : result ReadStop (option (bytes * Stream)) :=
  headers ← read_headers (S (length (sm_data s))) None false s;
  match headers with
  | None => Ok None
  | Some (content_length, s) =>
      len ← ok_or content_length (ReadIo InvalidData (lit "missing Content-Length header"));
      '(body, s) ← read_body len s;
      Ok (Some (body, s))
  end.

Section serde.
Context `{SerdeJson}.

(** The bytes [write_frame] writes for a message. *)
Definition frame_of (body : bytes) : bytes :=
  as_bytes (lit "Content-Length: " ++ show_u (zlen body) ++ [13; 10; 13; 10]) ++ body.
Definition write_frame (message : Value) : bytes := frame_of (to_vec message).
Definition write_null_id_error (e : ResponseError) : bytes := write_frame (null_id_error e).

Definition invalid_request (message : list Z) : ResponseError := ResponseError_new INVALID_REQUEST message.

Definition parse_incoming (body : bytes) : result ResponseError Incoming :=
  match from_slice body with
  | Err e => Err (ResponseError_new PARSE_ERROR (lit "invalid json: " ++ e))
  | Ok value =>
      object ← ok_or (as_object value) (invalid_request (lit "message is not a json object"));
      let get := map_get object in
      match m ← get (lit "method"); as_str m with
      | None =>
          match get (lit "method"), get (lit "result"), get (lit "error") with
          | None, Some _, _ | None, _, Some _ =>
              id ← match get (lit "id") with
                   | None | Some VNull => Ok None
                   | Some id => id ← ok_or (request_id_from id) (invalid_request (lit "invalid response id")); Ok (Some id)
                   end;
              Ok (InResponse (mkClientResponse id (get (lit "result")) (get (lit "error"))))
          | _, _, _ => Err (invalid_request (lit "message has no method"))
          end
      | Some method =>
          let params := default VNull (get (lit "params")) in
          match get (lit "id") with
          | None | Some VNull => Ok (InNotification (mkNotification method params))
          | Some id =>
              id ← ok_or (request_id_from id) (invalid_request (lit "invalid request id"));
              Ok (InRequest (mkRequest id method params))
          end
      end
  end.

Definition cancel_request_id (params : Value) : option RequestId := id ← value_get params (lit "id"); request_id_from id.
End serde.

(** ** The framing reads back

    A client's message: header lines around the one that gives the length, a blank line, the body. *)

Record ClientMessage := mkMessage { cm_before : list (list Z); cm_after : list (list Z); cm_body : bytes }.

Definition length_header (n : Z) : list Z := lit "Content-Length: " ++ show_u n.
Definition message_headers (m : ClientMessage) : list (list Z) := cm_before m ++ length_header (zlen (cm_body m)) :: cm_after m.
Definition header_line (h : list Z) : bytes := as_bytes (h ++ [13; 10]).
Definition message_bytes (m : ClientMessage) : bytes := concat (header_line <$> message_headers m) ++ [x0d; x0a] ++ cm_body m.

(** A header line. *)
Definition header_wf (h : list Z) : Prop := wf_str h ∧ (h ≠ []) ∧ (10 ∉ h) ∧ (13 ∉ h).
(** A header the server ignores. *)
Definition other_header (h : list Z) : Prop := header_wf h ∧ header_value h (lit "Content-Length") = None.
Definition message_ok (m : ClientMessage) : Prop :=
  Forall other_header (cm_before m) ∧ Forall other_header (cm_after m) ∧ zlen (cm_body m) < 2 ^ 63.

(** Every frame of a stream, and how reading ended. *)
Fixpoint read_frames (fuel : nat) (s : Stream) : list bytes * result ReadStop unit :=
  match fuel with
  | O => ([], Err ReadFuel)
  | S fuel =>
      match read_frame s with
      | Ok (Some (body, s)) => let '(bodies, r) := read_frames fuel s in (body :: bodies, r)
      | Ok None => ([], Ok tt)
      | Err e => ([], Err e)
      end
  end.

Lemma split_newline_app line rest : x0a ∉ line → split_newline (line ++ x0a :: rest) = Some (line ++ [x0a], rest).
Proof.
  induction line as [|x line IH]; intros Hn; cbn [split_newline app]; [by rewrite bool_decide_eq_true_2|].
  apply not_elem_of_cons in Hn as [Hx Hn]. rewrite bool_decide_eq_false_2 by congruence. by rewrite IH.
Qed.

Lemma split_newline_none b : x0a ∉ b → split_newline b = None.
Proof.
  induction b as [|x b IH]; intros Hn; cbn [split_newline]; [done|]. apply not_elem_of_cons in Hn as [Hx Hn].
  rewrite bool_decide_eq_false_2 by congruence. by rewrite IH.
Qed.

Lemma newline_free s : wf_str s → 10 ∉ s → x0a ∉ as_bytes s.
Proof.
  intros Hs Hn Hin. assert (10 ∈ str_units s) as Hu.
  { rewrite <- byte_val_as_bytes by done. apply list_elem_of_fmap. by exists x0a. }
  unfold str_units in Hu. apply list_elem_of_In, in_concat in Hu as (us & Hus & Hu). apply list_elem_of_In, list_elem_of_fmap in Hus as (c & -> & Hc).
  assert (c ≠ 10) as Hc10 by (by intros ->). unfold wf_str in Hs. rewrite Forall_forall in Hs. specialize (Hs c Hc).
  apply list_elem_of_In in Hu. unfold utf8_units, is_scalar in *.
  repeat (case_match; rewrite ?elem_of_cons, ?elem_of_nil in Hu); destruct_or?; subst; try done; Z.to_euclidean_division_equations; lia.
Qed.

Lemma header_line_eq h : header_line h = (as_bytes h ++ [x0d]) ++ [x0a].
Proof. unfold header_line. by rewrite as_bytes_app, <- app_assoc. Qed.

Lemma read_header_line h rest e : header_wf h →
  read_line (mkStream (header_line h ++ rest) e) = Ok (h ++ [13; 10], mkStream rest e).
Proof.
  intros (Hw & _ & H10 & H13). unfold read_line. cbn [sm_data sm_fail]. rewrite header_line_eq.
  rewrite <- app_assoc. cbn [app]. rewrite split_newline_app; [|].
  - cbn. rewrite <- header_line_eq. unfold header_line. rewrite from_utf8_as_bytes; [done|]. apply Forall_app. split; [done|].
    repeat constructor; lia.
  - intros [Hin|Hin]%elem_of_app; [by eapply newline_free|]. by apply list_elem_of_singleton in Hin.
Qed.

Lemma drop_while_none f s c : f c = false → drop_while f (c :: s) = c :: s.
Proof. intros E. cbn. by rewrite E. Qed.

Lemma trim_crlf h : header_wf h → trim_end_matches is_line_end (h ++ [13; 10]) = h.
Proof.
  intros (_ & Hne & H10 & H13). unfold trim_end_matches. rewrite rev_app_distr. cbn.
  destruct h as [|c h _] using rev_ind; [done|]. rewrite rev_app_distr. cbn [rev app].
  rewrite drop_while_none; [cbn [rev]; by rewrite rev_involutive|].
  unfold is_line_end. apply orb_false_iff. split; apply Z.eqb_neq; intros ->; [apply H13|apply H10]; apply elem_of_app; right; by apply list_elem_of_singleton.
Qed.

(** What a header says of the length. *)
Definition header_length (h : list Z) (content_length : option Z) : option (option Z) :=
  match header_value h (lit "Content-Length") with
  | None => Some content_length
  | Some v => Some <$> parse_u64 (trim v)
  end.

Lemma read_headers_line fuel cl saw h rest cl' : header_wf h → header_length h cl = Some cl' →
  read_headers (S fuel) cl saw (mkStream (header_line h ++ rest) None) = read_headers fuel cl' true (mkStream rest None).
Proof.
  intros Hw He. cbn [read_headers]. rewrite read_header_line by done. cbn. destruct (h ++ [13; 10]) as [|c l] eqn:E; [by destruct h|].
  rewrite <- E, trim_crlf by done. destruct h as [|c' h]; [by destruct Hw as (_ & ? & _)|]. unfold header_length in He.
  destruct (header_value _ _) as [v|]; [|by injection He as ->].
  destruct (parse_u64 (trim v)) as [n|]; [|done]. by injection He as <-.
Qed.

Lemma trim_start_visible s : Forall (λ c, is_whitespace c = false) s → trim_start s = s.
Proof. intros [|c l E _]; cbn; [done|]. by rewrite E. Qed.
Lemma trim_visible s : Forall (λ c, is_whitespace c = false) s → trim s = s.
Proof.
  intros Hs. unfold trim. rewrite trim_start_visible by done. unfold trim_end.
  rewrite trim_start_visible; [apply rev_involutive|]. by apply List.Forall_rev.
Qed.
Lemma digit_visible c : digit c → is_whitespace c = false.
Proof. unfold digit, is_whitespace. intros Hc. repeat (apply orb_false_iff; split); first [apply Z.eqb_neq; lia|apply andb_false_iff; rewrite !Z.leb_gt; lia]. Qed.

Lemma length_header_value n : header_value (length_header n) (lit "Content-Length") = Some (32 :: show_u n).
Proof. done. Qed.

Lemma length_header_length n cl : inU 64 n → header_length (length_header n) cl = Some (Some n).
Proof.
  intros Hn. unfold header_length. rewrite length_header_value. cbn [trim trim_start]. change (trim (32 :: show_u n)) with (trim (show_u n)).
  rewrite trim_visible, parse_u64_show by (done || (eapply Forall_impl; [apply show_u_digits|apply digit_visible])). done.
Qed.

Lemma length_header_wf n : header_wf (length_header n).
Proof.
  assert (∀ c, c ∈ length_header n → c ≠ 10 ∧ c ≠ 13 ∧ 32 ≤ c < 128) as Hc.
  { intros c [Hc|Hc]%elem_of_app.
    - revert c Hc. apply Forall_forall. repeat constructor; vm_compute; intuition discriminate.
    - pose proof (show_u_digits n) as Hd. rewrite Forall_forall in Hd. specialize (Hd c Hc). unfold digit in Hd. lia. }
  split_and!.
  - apply Forall_forall. intros c H. apply Hc in H. left. lia.
  - done.
  - intros H. apply Hc in H. lia.
  - intros H. apply Hc in H. lia.
Qed.

Lemma other_length h cl : other_header h → header_length h cl = Some cl.
Proof. intros [_ E]. unfold header_length. by rewrite E. Qed.

Lemma read_others fuel cl saw hs rest : Forall other_header hs →
  read_headers (length hs + fuel) cl saw (mkStream (concat (header_line <$> hs) ++ rest) None) =
  read_headers fuel cl (if hs is [] then saw else true) (mkStream rest None).
Proof.
  intros Hhs. revert saw. induction Hhs as [|h hs Hh _ IH]; intros saw; [done|]. cbn [length Nat.add fmap list_fmap concat].
  rewrite <- app_assoc, (read_headers_line _ _ _ _ _ cl); [|by destruct Hh|by apply other_length]. rewrite IH. by destruct hs.
Qed.

Lemma read_message m rest fuel : message_ok m → (length (message_headers m) < fuel)%nat →
  read_headers fuel None false (mkStream (message_bytes m ++ rest) None) =
  Ok (Some (Some (zlen (cm_body m)), mkStream (cm_body m ++ rest) None)).
Proof.
  intros (Hb & Ha & Hl) Hf. unfold message_bytes, message_headers in *. rewrite length_app in Hf. cbn [length] in Hf.
  rewrite fmap_app, concat_app. cbn [fmap list_fmap concat]. rewrite <- !app_assoc.
  replace fuel with (length (cm_before m) + S (length (cm_after m) + S (fuel - length (cm_before m) - length (cm_after m) - 2)))%nat by lia.
  pose proof (zlen_nonneg (cm_body m)) as H0.
  rewrite read_others by done. rewrite (read_headers_line _ _ _ _ _ (Some (zlen (cm_body m))));
    [|apply length_header_wf|apply length_header_length; unfold inU; split; [done|lia]].
  rewrite read_others by done. cbn [read_headers]. unfold read_line. cbn [sm_data sm_fail app split_newline].
  rewrite bool_decide_eq_false_2 by done. rewrite bool_decide_eq_true_2 by done. cbn. done.
Qed.

Lemma message_bytes_length m : (length (message_headers m) < length (message_bytes m))%nat.
Proof.
  unfold message_bytes. rewrite length_app. cbn. assert (∀ hs, (length hs ≤ length (concat (header_line <$> hs)))%nat) as H.
  { induction hs as [|h hs IH]; cbn; [done|]. rewrite length_app, header_line_eq, !length_app. cbn. lia. }
  specialize (H (message_headers m)). lia.
Qed.

Lemma read_frame_message m rest : message_ok m →
  read_frame (mkStream (message_bytes m ++ rest) None) = Ok (Some (cm_body m, mkStream rest None)).
Proof.
  intros Hm. unfold read_frame. cbn [sm_data]. rewrite read_message; [|done|rewrite length_app; pose proof (message_bytes_length m); lia].
  cbn. destruct Hm as (_ & _ & Hl). unfold read_body. cbn [sm_data sm_fail]. destruct (Z.leb_spec (2 ^ 63) (zlen (cm_body m))); [lia|].
  rewrite zlen_app. pose proof (zlen_nonneg rest). destruct (Z.ltb_spec (zlen (cm_body m) + zlen rest) (zlen (cm_body m))); [lia|].
  assert (Z.to_nat (zlen (cm_body m)) = length (cm_body m)) as -> by (unfold zlen; lia).
  by rewrite take_app_length, drop_app_length.
Qed.

(** ** A cut inside a message *)

(** What the header loop says of a stream that ends: an error, or a body that is not all there. *)
Definition cut_short (r : result ReadStop (option (option Z * Stream))) : Prop :=
  match r with
  | Err e => ∃ kind message, e = ReadIo kind message
  | Ok (Some (Some n, s)) => sm_fail s = None ∧ zlen (sm_data s) < n < 2 ^ 63
  | Ok (Some (None, _)) => True
  | Ok None => False
  end.

Lemma cut_short_frame s : cut_short (read_headers (S (length (sm_data s))) None false s) →
  ∃ kind message, read_frame s = Err (ReadIo kind message).
Proof.
  unfold read_frame. destruct (read_headers _ _ _ _) as [[[[n|] s']|]|e]; cbn.
  - intros (Hf & Hn). unfold read_body. destruct (Z.leb_spec (2 ^ 63) n); [lia|].
    destruct (Z.ltb_spec (zlen (sm_data s')) n); [|lia]. rewrite Hf. by eexists _, _.
  - intros _. by eexists _, _.
  - done.
  - intros (k & msg & ->). by eexists _, _.
Qed.

Lemma read_headers_end fuel cl saw : (0 < fuel)%nat → saw = true → cut_short (read_headers fuel cl saw (mkStream [] None)).
Proof. intros Hf ->. destruct fuel; [lia|]. cbn. by eexists _, _. Qed.

(** A last line that no line feed ends. *)
Lemma read_headers_partial fuel cl saw p : p ≠ [] → x0a ∉ p → (∀ n, cl = Some n → 0 < n < 2 ^ 63) → (1 < fuel)%nat →
  cut_short (read_headers fuel cl saw (mkStream p None)).
Proof.
  intros Hp Hn Hcl Hf. destruct fuel as [|fuel]; [lia|]. cbn [read_headers]. unfold read_line. cbn [sm_data sm_fail].
  rewrite split_newline_none by done. cbn. destruct (from_utf8 p) as [t|] eqn:E; cbn; [|by eexists _, _].
  apply from_utf8_sound in E as [_ E]. destruct t as [|c t]; [by rewrite <- E in Hp|].
  destruct (trim_end_matches _ _) as [|c' h].
  - destruct cl as [n|]; cbn; [|done]. split; [done|]. by apply Hcl.
  - destruct (header_value _ _) as [v|]; [|apply read_headers_end; [lia|done]].
    destruct (parse_u64 (trim v)); cbn; [apply read_headers_end; [lia|done]|by eexists _, _].
Qed.

Definition good_length (cl : option Z) : Prop := ∀ n, cl = Some n → 0 < n < 2 ^ 63.

Lemma app_cut {A : Type} (p q a b : list A) : p ++ q = a ++ b →
  (∃ p', p = a ++ p' ∧ p' ++ q = b) ∨ (∃ x a', a = p ++ x :: a').
Proof.
  revert a. induction p as [|y p IH]; intros a E; cbn in E.
  - destruct a as [|x a]; [left; by exists []|right; by exists x, a].
  - destruct a as [|x a]; [left; by exists (y :: p)|]. injection E as -> E. destruct (IH a E) as [(p' & -> & E')|(x' & a' & ->)].
    + left. by exists p'.
    + right. by exists x', a'.
Qed.

Lemma header_cut h p x a : header_wf h → header_line h = p ++ x :: a → x0a ∉ p.
Proof.
  intros (Hw & _ & H10 & _). rewrite header_line_eq. destruct a as [|y a _] using rev_ind.
  - intros [E _]%app_inj_tail Hin. rewrite <- E in Hin. apply elem_of_app in Hin as [Hin|Hin]; [by eapply newline_free|].
    by apply list_elem_of_singleton in Hin.
  - rewrite app_comm_cons, app_assoc. intros [E _]%app_inj_tail Hin. eapply newline_free; [exact Hw|exact H10|].
    assert (x0a ∈ as_bytes h ++ [x0d]) as H by (rewrite E; apply elem_of_app; by left). apply elem_of_app in H as [H|H]; [done|].
    by apply list_elem_of_singleton in H.
Qed.

Definition headers_length (hs : list (list Z)) (cl : option (option Z)) : option (option Z) :=
  foldl (λ cl h, cl ← cl; header_length h cl) cl hs.
Lemma headers_length_none hs : headers_length hs None = None.
Proof. by induction hs. Qed.
Lemma headers_length_cons h hs cl : headers_length (h :: hs) (Some cl) = headers_length hs (header_length h cl).
Proof. done. Qed.

Lemma header_line_length h : (0 < length (header_line h))%nat.
Proof. rewrite header_line_eq, length_app. cbn. lia. Qed.

(** A cut inside the lines is an error; otherwise reading goes on behind them. *)
Lemma cut_lines (hs : list (list Z)) cl cl' p q tail saw :
  Forall header_wf hs → headers_length hs (Some cl) = Some cl' →
  (∀ a b c, hs = a ++ b → headers_length a (Some cl) = Some c → good_length c) →
  p ++ q = concat (header_line <$> hs) ++ tail → saw = true ∨ p ≠ [] →
  (∃ p', p = concat (header_line <$> hs) ++ p' ∧ p' ++ q = tail ∧
     ∀ fuel, (length p < fuel)%nat → ∃ fuel', (length p' < fuel')%nat ∧
       read_headers fuel cl saw (mkStream p None) = read_headers fuel' cl' (if hs is [] then saw else true) (mkStream p' None)) ∨
  (∀ fuel, (length p < fuel)%nat → cut_short (read_headers fuel cl saw (mkStream p None))).
Proof.
  intros Hhs. revert cl p saw. induction Hhs as [|h hs Hh _ IH]; intros cl p saw Hf Hg E Hs.
  { left. exists p. cbn in Hf. injection Hf as ->. split; [done|]. split; [done|]. intros fuel Hl. by exists fuel. }
  cbn [fmap list_fmap concat] in *. rewrite <- app_assoc in E. destruct (app_cut _ _ _ _ E) as [(p1 & -> & E1)|(x & a & Ha)].
  - rewrite headers_length_cons in Hf. destruct (header_length h cl) as [c1|] eqn:Ec; [|by rewrite headers_length_none in Hf].
    destruct (IH c1 p1 true Hf) as [(p' & -> & E' & Hr)|Hr]; [|done|by left| |].
    + intros a b c -> Hc. apply (Hg (h :: a) b c); [done|]. by rewrite headers_length_cons, Ec.
    + left. exists p'. rewrite app_assoc. split; [done|]. split; [done|]. intros fuel Hl. destruct fuel as [|fuel]; [lia|].
      rewrite <- app_assoc. rewrite (read_headers_line _ _ _ _ _ c1) by done.
      destruct (Hr fuel) as (fuel' & Hl' & Er); [pose proof (header_line_length h); rewrite !length_app in Hl; rewrite !length_app; lia|]. exists fuel'.
      split; [done|]. rewrite Er. by destruct hs.
    + right. intros fuel Hl. destruct fuel as [|fuel]; [lia|]. rewrite (read_headers_line _ _ _ _ _ c1) by done. apply Hr.
      pose proof (header_line_length h). rewrite length_app in Hl. lia.
  - right. intros fuel Hl. destruct (decide (p = [])) as [->|Hp]; [apply read_headers_end; [lia|by destruct Hs]|].
    apply read_headers_partial; [done|by eapply header_cut|by apply (Hg [] (h :: hs))|]. destruct p; [done|]. cbn in Hl. lia.
Qed.

Lemma others_length hs cl : Forall other_header hs → headers_length hs (Some cl) = Some cl.
Proof. induction 1 as [|h hs Hh _ IH]; [done|]. by rewrite headers_length_cons, other_length. Qed.

Lemma headers_good n hs cl c : Forall (λ h, other_header h ∨ h = length_header n) hs → 0 < n < 2 ^ 63 → good_length cl →
  headers_length hs (Some cl) = Some c → good_length c.
Proof.
  intros Hhs Hn. revert cl. induction Hhs as [|h hs Hh _ IH]; intros cl Hcl; [by intros [= <-]|]. rewrite headers_length_cons.
  destruct Hh as [Hh| ->]; [rewrite other_length by done; by apply IH|]. rewrite length_header_length by (unfold inU; lia).
  apply IH. intros k [= <-]. lia.
Qed.

(** A cut after the header lines. *)
Lemma cut_body fuel n p q body : p ++ q = [x0d; x0a] ++ body → q ≠ [] → n = zlen body → 0 < n < 2 ^ 63 → (length p < fuel)%nat →
  cut_short (read_headers fuel (Some n) true (mkStream p None)).
Proof.
  intros E Hq Hn Hpos Hf. destruct p as [|c1 [|c2 p]].
  - apply read_headers_end; [cbn in Hf; lia|done].
  - injection E as -> E. apply read_headers_partial; [done| |by intros k [= <-]|cbn in Hf; lia]. by rewrite list_elem_of_singleton.
  - injection E as -> -> E. destruct fuel; [cbn in Hf; lia|]. cbn [read_headers]. unfold read_line. cbn [sm_data sm_fail split_newline].
    rewrite bool_decide_eq_false_2 by done. rewrite bool_decide_eq_true_2 by done. cbn. split; [done|]. subst n body.
    rewrite zlen_app in *. destruct q; [done|]. rewrite zlen_cons in *. pose proof (zlen_nonneg q). lia.
Qed.

Lemma cut_message m p q : message_ok m → cm_body m ≠ [] → message_bytes m = p ++ q → q ≠ [] → p ≠ [] →
  cut_short (read_headers (S (length p)) None false (mkStream p None)).
Proof.
  intros (Hb & Ha & Hl) Hbody E Hq Hp. set (n := zlen (cm_body m)) in *.
  assert (0 < n) as Hn. { subst n. unfold zlen. destruct (cm_body m); [done|]. cbn. lia. }
  assert (Forall (λ h, other_header h ∨ h = length_header n) (message_headers m)) as Hhs.
  { apply Forall_app. split; [eapply Forall_impl; [exact Hb|by left]|]. constructor; [by right|]. eapply Forall_impl; [exact Ha|by left]. }
  destruct (cut_lines (message_headers m) None (Some n) p q ([x0d; x0a] ++ cm_body m) false) as [(p' & -> & E' & Hr)|Hr].
  - eapply Forall_impl; [exact Hhs|]. intros h [[Hh _]| ->]; [done|apply length_header_wf].
  - unfold message_headers. unfold headers_length. rewrite foldl_app. fold (headers_length (cm_before m) (Some None)). rewrite others_length by done.
    cbn [foldl mbind option_bind]. rewrite length_header_length by (unfold inU; lia). by apply (others_length (cm_after m) (Some n)).
  - intros a b c Eh Ec. apply (headers_good n a None c); [|lia|done|done]. rewrite Eh in Hhs. by apply Forall_app in Hhs as [? _].
  - by rewrite <- E.
  - by right.
  - destruct (Hr (S (length (concat (header_line <$> message_headers m) ++ p')))) as (fuel' & Hf' & ->); [lia|].
    assert (match message_headers m with [] => false | _ => true end = true) as -> by (unfold message_headers; by destruct (cm_before m)).
    eapply cut_body; [exact E'|done|done|lia|done].
  - apply Hr. lia.
Qed.


Definition example_message (body : string) : ClientMessage :=
  mkMessage [lit "Content-Type: application/vscode-jsonrpc; charset=utf-8"] [lit "X-Trace: é"] (as_bytes (lit body)).

Lemma example_message_ok body : zlen (as_bytes (lit body)) < 2 ^ 63 → message_ok (example_message body).
Proof.
  intros Hb. split; [|split; [|done]]; (constructor; [|done]); (split; [|done]); split_and!; try done;
    try (refine (bool_decide_unpack _ _); vm_compute; exact I).
Qed.

