(* ===== verification/LspSurface.v ===== *)
(** The advertised surface and the lifecycle of the language server: [ls-server/src/capabilities.rs],
    [ls-server/src/lifecycle.rs] and the method tables of [ls-server/src/server.rs].

    The structs of [capabilities.rs] and of [lsp_types] are only ever serialized; they are the JSON
    objects their derived [Serialize] gives. *)

From S2P Require Import Prelude RustStr LspTransport.

Open Scope Z_scope.

(** ** Capabilities *)

Definition SERVER_NAME : list Z := lit "scala3-bsp-semantic-ls".
Definition SERVER_VERSION : list Z := lit "0.1.0".

Definition DOCTOR : list Z := lit "scala3SemanticLs.doctor".
Definition REINDEX : list Z := lit "scala3SemanticLs.reindex".
Definition COMPILE : list Z := lit "scala3SemanticLs.compile".
Definition PC_PLUGIN_STATUS : list Z := lit "scala3SemanticLs.pcPluginStatus".
Definition all_commands : list (list Z) := [DOCTOR; REINDEX; COMPILE; PC_PLUGIN_STATUS].

Definition SEMANTICDB_GLOB : list Z := lit "**/*.semanticdb".
Definition CONFIG_GLOB : list Z := lit "**/.scala3-bsp-semantic-ls/config.json".
Definition BSP_GLOB : list Z := lit "**/.bsp/*.json".
Definition all_globs : list (list Z) := [SEMANTICDB_GLOB; CONFIG_GLOB; BSP_GLOB].

(** The legend of [pc_lsp.rs]. *)
Definition TOKEN_TYPES : list (list Z) :=
  [lit "namespace"; lit "type"; lit "class"; lit "enum"; lit "interface"; lit "struct"; lit "typeParameter"; lit "parameter";
   lit "variable"; lit "property"; lit "enumMember"; lit "event"; lit "function"; lit "method"; lit "macro"; lit "keyword";
   lit "modifier"; lit "comment"; lit "string"; lit "number"; lit "regexp"; lit "operator"; lit "decorator"].
Definition TOKEN_MODIFIERS : list (list Z) :=
  [lit "declaration"; lit "definition"; lit "readonly"; lit "static"; lit "deprecated"; lit "abstract"; lit "async";
   lit "modification"; lit "documentation"; lit "defaultLibrary"].

Definition strings (l : list (list Z)) : Value := VArray (VString <$> l).

Definition semantic_tokens_options : Value :=
  VObject [(lit "legend", VObject [(lit "tokenTypes", strings TOKEN_TYPES); (lit "tokenModifiers", strings TOKEN_MODIFIERS)]);
           (lit "range", VBool true);
           (lit "full", VObject [(lit "delta", VBool true)])].
Definition code_action_options : Value :=
  VObject [(lit "codeActionKinds", strings [lit "quickfix"; lit "refactor.rewrite"; lit "refactor.extract"; lit "refactor.inline"]);
           (lit "resolveProvider", VBool false)].
Definition server_capabilities : Value :=
  VObject
    [(lit "textDocumentSync", json_int 2);
     (lit "positionEncoding", VString (lit "utf-16"));
     (lit "completionProvider", VObject [(lit "resolveProvider", VBool true); (lit "triggerCharacters", strings [lit "."])]);
     (lit "hoverProvider", VBool true);
     (lit "signatureHelpProvider", VObject [(lit "triggerCharacters", strings [lit "("; lit ","])]);
     (lit "definitionProvider", VBool true);
     (lit "typeDefinitionProvider", VBool true);
     (lit "referencesProvider", VBool true);
     (lit "renameProvider", VObject [(lit "prepareProvider", VBool true)]);
     (lit "documentHighlightProvider", VBool true);
     (lit "workspaceSymbolProvider", VBool true);
     (lit "documentSymbolProvider", VBool true);
     (lit "implementationProvider", VBool true);
     (lit "callHierarchyProvider", VBool true);
     (lit "inlayHintProvider", VObject [(lit "resolveProvider", VBool false)]);
     (lit "codeActionProvider", code_action_options);
     (lit "selectionRangeProvider", VBool true);
     (lit "foldingRangeProvider", VBool true);
     (lit "semanticTokensProvider", semantic_tokens_options);
     (lit "documentFormattingProvider", VBool true);
     (lit "executeCommandProvider", VObject [(lit "commands", strings all_commands)])].
Definition initialize_result : Value :=
  VObject [(lit "capabilities", server_capabilities);
           (lit "serverInfo", VObject [(lit "name", VString SERVER_NAME); (lit "version", VString SERVER_VERSION)])].

(** ** The lifecycle *)

Inductive WorkspaceState (S : Type) := NotReady (detail : list Z) | Failed (detail : list Z) | Ready (services : S).
Arguments NotReady {S} _.
Arguments Failed {S} _.
Arguments Ready {S} _.

Definition status_line {S : Type} (st : WorkspaceState S) : list Z :=
  match st with
  | NotReady detail => lit "not ready: " ++ detail
  | Failed detail => lit "bootstrap failed: " ++ detail
  | Ready _ => lit "ready"
  end.
Definition ready {S : Type} (st : WorkspaceState S) : option S := match st with Ready s => Some s | _ => None end.
Definition is_ready {S : Type} (st : WorkspaceState S) : bool := match st with Ready _ => true | _ => false end.
(** The error is the message of a [NotReadyError]. *)
Definition require_ready {S : Type} (st : WorkspaceState S) : result (list Z) unit :=
  if is_ready st then Ok tt else Err (lit "workspace is " ++ status_line st).

Inductive Method :=
| References | Rename | DocumentHighlight | WorkspaceSymbol | DocumentSymbol | Implementation | PrepareCallHierarchy
| IncomingCalls | OutgoingCalls | Completion | Definition_ | TypeDefinition | Hover | SignatureHelp | PrepareRename | InlayHint
| CodeAction | SelectionRange | FoldingRange | SemanticTokensFull | SemanticTokensFullDelta | SemanticTokensRange | Formatting.

Inductive PreReadyOutcome := NotReadyErrorOutcome | EmptyOutcome | NullOutcome.

Definition pre_ready_outcome (m : Method) : PreReadyOutcome :=
  match m with
  | References | Rename => NotReadyErrorOutcome
  | DocumentHighlight | WorkspaceSymbol | DocumentSymbol | Implementation | IncomingCalls | OutgoingCalls | Completion
  | Definition_ | TypeDefinition | InlayHint | CodeAction | FoldingRange | Formatting => EmptyOutcome
  | Hover | SignatureHelp | PrepareRename | PrepareCallHierarchy | SelectionRange | SemanticTokensFull
  | SemanticTokensFullDelta | SemanticTokensRange => NullOutcome
  end.

(** A [match] on a string. *)
Definition str_match {A : Type} (table : list (list Z * A)) (s : list Z) : option A :=
  snd <$> List.find (λ kv, str_eqb kv.1 s) table.

Definition readiness_methods : list (list Z * Method) :=
  [(lit "textDocument/completion", Completion);
   (lit "textDocument/hover", Hover);
   (lit "textDocument/signatureHelp", SignatureHelp);
   (lit "textDocument/definition", Definition_);
   (lit "textDocument/typeDefinition", TypeDefinition);
   (lit "textDocument/references", References);
   (lit "textDocument/documentHighlight", DocumentHighlight);
   (lit "textDocument/documentSymbol", DocumentSymbol);
   (lit "textDocument/implementation", Implementation);
   (lit "textDocument/prepareCallHierarchy", PrepareCallHierarchy);
   (lit "callHierarchy/incomingCalls", IncomingCalls);
   (lit "callHierarchy/outgoingCalls", OutgoingCalls);
   (lit "textDocument/prepareRename", PrepareRename);
   (lit "textDocument/rename", Rename);
   (lit "textDocument/inlayHint", InlayHint);
   (lit "textDocument/codeAction", CodeAction);
   (lit "textDocument/selectionRange", SelectionRange);
   (lit "textDocument/foldingRange", FoldingRange);
   (lit "textDocument/semanticTokens/full", SemanticTokensFull);
   (lit "textDocument/semanticTokens/full/delta", SemanticTokensFullDelta);
   (lit "textDocument/semanticTokens/range", SemanticTokensRange);
   (lit "textDocument/formatting", Formatting);
   (lit "workspace/symbol", WorkspaceSymbol)].
Definition readiness_method (method : list Z) : option Method := str_match readiness_methods method.

Definition empty_result (m : Method) : Value :=
  match m with
  | Completion => VObject [(lit "isIncomplete", VBool false); (lit "items", VArray [])]
  | _ => VArray []
  end.

Definition pre_ready_response {S : Type} (id : RequestId) (m : Method) (st : WorkspaceState S) : option Response :=
  match pre_ready_outcome m with
  | NotReadyErrorOutcome =>
      match require_ready st with
      | Err message => Some (failure id (ResponseError_new REQUEST_FAILED message))
      | Ok _ => None
      end
  | NullOutcome => Some (success id VNull)
  | EmptyOutcome => Some (success id (empty_result m))
  end.
