(* ===== verification/LspServer.v ===== *)
(** The server loop ([ls-server/src/server.rs]): the reader thread, the dispatch loop, the bootstrap
    worker and the build server's reload flag, as the interleaving of their steps.

    The ready services [S] and what their handlers touch, the world [W], are those of the traits
    [Bootstrap] and [Handlers]; the doctor report is an interface too. An outer [None] is a panic of
    the loop. Parsing [contentChanges] is the derived [Deserialize] of [serde]. *)

From S2P Require Import Prelude RustStr Uri LspDocuments LspTransport LspSurface.

Open Scope Z_scope.

(** ** The traits *)

Record RequestContext (S : Type) := mkContext {
  cx_request : Request; cx_services : S; cx_root : option (list Z); cx_documents : DocumentStore; cx_shutting_down : bool }.
Arguments mkContext {S} _ _ _ _ _.
Arguments cx_request {S} _.

(** [Handlers], with the hooks' effect on the world. *)
Class Handlers (S W : Type) := {
  handle : RequestContext S → W → Response * W;
  on_did_open : S → list Z → list Z → W → W;
  on_did_change : S → list Z → list Z → W → W;
  on_did_close : S → list Z → W → W;
  on_did_save : S → list Z → W → W;
  on_did_change_configuration : S → W → W;
  on_watched_files : S → list (list Z) → W → W;
  DoctorReport : Type;
  doctor : S → option (list Z) → W → option DoctorReport;
  doctor_offline : list Z → W → DoctorReport;
  render_json : DoctorReport → Value;
  render_text : DoctorReport → list Z;
  content_changes_from : Value → option (list ContentChange) }.

(** A handler answers the request it was given. *)
Class HandlersOk (S W : Type) `{Handlers S W} : Prop := {
  handle_id cx w : rs_id (handle cx w).1 = rq_id (cx_request cx) }.

Class Bootstrap (S W : Type) := {
  replay : S → DocumentStore → W → W;
  reload : S → DocumentStore → W → WorkspaceState S * W }.

(** ** The core *)

(** The result channel of the worker: empty, holding the result, or disconnected. *)
Inductive BootstrapChannel (S : Type) := Building | Delivered (r : WorkspaceState S) | Dropped.
Arguments Building {S}.
Arguments Delivered {S} _.
Arguments Dropped {S}.

Record ServerCore (S : Type) := mkCore {
  co_state : WorkspaceState S;
  co_docs : DocumentStore;
  co_root : option (list Z);
  co_shutting_down : bool;
  co_initialized : bool;
  co_reload_requested : bool;
  co_cancelled : gset RequestId;
  co_watched_dynamic : bool;
  co_watched_registered : bool;
  co_next_request_id : Z;
  co_bootstrap : option (BootstrapChannel S);
  co_pre_ready : gmap (list Z) Z }.
Arguments mkCore {S} _ _ _ _ _ _ _ _ _ _ _ _.
Arguments co_state {S} _.
Arguments co_docs {S} _.
Arguments co_root {S} _.
Arguments co_shutting_down {S} _.
Arguments co_initialized {S} _.
Arguments co_reload_requested {S} _.
Arguments co_cancelled {S} _.
Arguments co_watched_dynamic {S} _.
Arguments co_watched_registered {S} _.
Arguments co_next_request_id {S} _.
Arguments co_bootstrap {S} _.
Arguments co_pre_ready {S} _.

Definition ServerCore_new {S : Type} : ServerCore S :=
  mkCore (NotReady (lit "initialize has not run")) ∅ None false false false ∅ false false 0 None ∅.

Section core.
Context {S : Type}.
Implicit Type c : ServerCore S.

Definition set_state (st : WorkspaceState S) c :=
  mkCore st (co_docs c) (co_root c) (co_shutting_down c) (co_initialized c) (co_reload_requested c) (co_cancelled c)
    (co_watched_dynamic c) (co_watched_registered c) (co_next_request_id c) (co_bootstrap c) (co_pre_ready c).
Definition set_docs (docs : DocumentStore) c :=
  mkCore (co_state c) docs (co_root c) (co_shutting_down c) (co_initialized c) (co_reload_requested c) (co_cancelled c)
    (co_watched_dynamic c) (co_watched_registered c) (co_next_request_id c) (co_bootstrap c) (co_pre_ready c).
Definition set_reload_requested (b : bool) c :=
  mkCore (co_state c) (co_docs c) (co_root c) (co_shutting_down c) (co_initialized c) b (co_cancelled c)
    (co_watched_dynamic c) (co_watched_registered c) (co_next_request_id c) (co_bootstrap c) (co_pre_ready c).
Definition set_cancelled (ids : gset RequestId) c :=
  mkCore (co_state c) (co_docs c) (co_root c) (co_shutting_down c) (co_initialized c) (co_reload_requested c) ids
    (co_watched_dynamic c) (co_watched_registered c) (co_next_request_id c) (co_bootstrap c) (co_pre_ready c).
Definition set_bootstrap (b : option (BootstrapChannel S)) c :=
  mkCore (co_state c) (co_docs c) (co_root c) (co_shutting_down c) (co_initialized c) (co_reload_requested c) (co_cancelled c)
    (co_watched_dynamic c) (co_watched_registered c) (co_next_request_id c) b (co_pre_ready c).
Definition set_pre_ready (m : gmap (list Z) Z) c :=
  mkCore (co_state c) (co_docs c) (co_root c) (co_shutting_down c) (co_initialized c) (co_reload_requested c) (co_cancelled c)
    (co_watched_dynamic c) (co_watched_registered c) (co_next_request_id c) (co_bootstrap c) m.
End core.

(** ** Reading parameters *)

Definition root_from_params (params : Value) : option (list Z) :=
  uri ← match u ← value_get params (lit "rootUri"); as_str u with
        | Some u => Some u
        | None => folders ← value_get params (lit "workspaceFolders"); folders ← as_array folders; folder ← head folders;
                  u ← value_get folder (lit "uri"); as_str u
        end;
  match uri_to_path uri with Ok path => Some (normalize path) | Err _ => None end.

Definition watched_files_dynamic_registration (params : Value) : bool :=
  default false (v ← value_get params (lit "capabilities"); v ← value_get v (lit "workspace");
                 v ← value_get v (lit "didChangeWatchedFiles"); v ← value_get v (lit "dynamicRegistration"); as_bool v).

Definition watched_file_events (params : Value) : list (list Z) :=
  match changes ← value_get params (lit "changes"); as_array changes with
  | Some changes => omap (λ change, uri ← value_get change (lit "uri"); as_str uri) changes
  | None => []
  end.

Definition text_document (params : Value) (key : string) : option Value :=
  doc ← value_get params (lit "textDocument"); value_get doc (lit key).
Definition document_uri (params : Value) : option (list Z) :=
  raw ← text_document params "uri"; raw ← as_str raw; Some (normalize_uri raw).
Definition params_text (params : Value) : option (list Z) := text ← text_document params "text"; as_str text.
Definition params_version (params : Value) : option Z := version ← text_document params "version"; value_as_i64 version.

(** ** Messages the server writes *)

Inductive Outgoing :=
| OutResponse (r : Response)
| OutNullError (e : ResponseError)
| OutRegister (id : RequestId).

Definition register_value (id : RequestId) : Value :=
  VObject [(lit "jsonrpc", VString (lit "2.0")); (lit "id", request_id_value id);
           (lit "method", VString (lit "client/registerCapability"));
           (lit "params", VObject [(lit "registrations", VArray [VObject
              [(lit "id", VString (lit "workspace/didChangeWatchedFiles"));
               (lit "method", VString (lit "workspace/didChangeWatchedFiles"));
               (lit "registerOptions", VObject [(lit "watchers",
                  VArray ((λ glob, VObject [(lit "globPattern", VString glob)]) <$> all_globs))])]])])].
Definition outgoing_value (o : Outgoing) : Value :=
  match o with
  | OutResponse r => response_value r
  | OutNullError e => null_id_error e
  | OutRegister id => register_value id
  end.

Section server.
Context {S W : Type} `{Handlers S W} `{Bootstrap S W} `{LineIndexOps}.
Implicit Type c : ServerCore S.

(** ** Lifecycle requests *)

Definition initialize (params : Value) c : ServerCore S * Value :=
  let st := if is_ready (co_state c) then co_state c else NotReady (lit "waiting for the initialized notification") in
  (mkCore st (co_docs c) (root_from_params params) (co_shutting_down c) true (co_reload_requested c) (co_cancelled c)
     (watched_files_dynamic_registration params) (co_watched_registered c) (co_next_request_id c) (co_bootstrap c) (co_pre_ready c),
   initialize_result).

Definition shutdown c : ServerCore S :=
  if co_shutting_down c then c else
  mkCore (NotReady (lit "server is shut down")) (co_docs c) (co_root c) true (co_initialized c) (co_reload_requested c)
    (co_cancelled c) (co_watched_dynamic c) (co_watched_registered c) (co_next_request_id c) (co_bootstrap c) (co_pre_ready c).

(** ** Document notifications *)

Definition when_ready c (f : S → W → W) (w : W) : W := match ready (co_state c) with Some s => f s w | None => w end.

Definition did_open (params : Value) c (w : W) : ServerCore S * W :=
  match document_uri params, params_text params with
  | Some uri, Some text =>
      let c := set_docs (open_versioned uri text (default 0 (params_version params)) (co_docs c)) c in
      (c, when_ready c (λ s, on_did_open s uri text) w)
  | _, _ => (c, w)
  end.

Definition did_change (params : Value) c (w : W) : option (ServerCore S * W) :=
  match document_uri params with
  | None => Some (c, w)
  | Some uri =>
      match v ← value_get params (lit "contentChanges"); content_changes_from v with
      | None | Some [] => Some (c, w)
      | Some changes =>
          '(text, docs) ← apply_changes uri (params_version params) changes (co_docs c);
          let c := set_docs docs c in
          Some (match text with
                | None => (c, w)
                | Some text => (c, when_ready c (λ s, on_did_change s uri text) w)
                end)
      end
  end.

Definition did_close (params : Value) c (w : W) : ServerCore S * W :=
  match document_uri params with
  | None => (c, w)
  | Some uri =>
      let c := set_docs (close_document uri (co_docs c)) c in
      (c, when_ready c (λ s, on_did_close s uri) w)
  end.

Definition did_save (params : Value) c (w : W) : ServerCore S * W :=
  match document_uri params with
  | None => (c, w)
  | Some uri =>
      let c := match text ← value_get params (lit "text"); as_str text with
               | Some text => if is_open uri (co_docs c) then set_docs (change_document uri text (co_docs c)) c else c
               | None => c
               end in
      (c, when_ready c (λ s, on_did_save s uri) w)
  end.

Definition did_change_watched_files (params : Value) c (w : W) : W :=
  match ready (co_state c) with
  | None => w
  | Some s => match watched_file_events params with [] => w | changes => on_watched_files s changes w end
  end.

(** ** The bootstrap worker and the reload *)

Definition spawn_bootstrap c : ServerCore S :=
  match co_bootstrap c with Some _ => c | None => set_bootstrap (Some Building) c end.
Definition detach_bootstrap c : ServerCore S := set_bootstrap None c.

Definition adopt_bootstrap (r : option (WorkspaceState S)) c (w : W) : ServerCore S * W :=
  if co_shutting_down c then (detach_bootstrap c, w) else
  let c := set_bootstrap None c in
  match r with
  | Some (Ready s) => (set_state (Ready s) c, replay s (co_docs c) w)
  | Some other => (set_state other c, w)
  | None => (set_state (Failed (lit "bootstrap worker terminated without a result")) c, w)
  end.

(** [rx.try_recv()]; [None] when it is empty or there is no worker. *)
Definition received c : option (option (WorkspaceState S)) :=
  match co_bootstrap c with
  | Some (Delivered r) => Some (Some r)
  | Some Dropped => Some None
  | Some Building | None => None
  end.
Definition poll_bootstrap c (w : W) : ServerCore S * W :=
  match received c with Some r => adopt_bootstrap r c w | None => (c, w) end.

Definition poll_reload c (w : W) : ServerCore S * W :=
  if co_shutting_down c then (c, w) else
  match ready (co_state c) with
  | None => (c, w)
  | Some old =>
      if co_reload_requested c then
        let c := set_reload_requested false c in
        let '(st, w) := reload old (co_docs c) w in
        (set_state st c, w)
      else (c, w)
  end.

(** ** Requests *)

Definition ready_handle c (w : W) (request : Request) : option (Response * W) :=
  s ← ready (co_state c);
  Some (handle (mkContext request s (co_root c) (co_docs c) (co_shutting_down c)) w).

Definition doctor_json_requested (request : Request) : bool :=
  default false (v ← value_get (rq_params request) (lit "arguments"); args ← as_array v; arg ← head args;
                 v ← value_get arg (lit "json"); as_bool v).

(** [map.insert] *)
Definition map_insert (m : list (list Z * Value)) (key : list Z) (v : Value) : list (list Z * Value) :=
  if existsb (λ kv, str_eqb kv.1 key) m then (λ kv, if str_eqb kv.1 key then (kv.1, v) else kv) <$> m else m ++ [(key, v)].

Definition doctor_result c (w : W) (request : Request) : Value :=
  let report := match s ← ready (co_state c); doctor s (co_root c) w with
                | Some report => report
                | None => doctor_offline (default (lit ".") (co_root c)) w
                end in
  let status := status_line (co_state c) in
  if doctor_json_requested request then
    match render_json report with
    | VObject m => VObject (map_insert m (lit "state") (VString status))
    | v => v
    end
  else VString (lit "state: " ++ status ++ [10; 10] ++ render_text report).

Definition execute_command c (w : W) (request : Request) : option (Response * W) :=
  let unavailable action :=
    Some (success (rq_id request) (VString (action ++ lit " unavailable: workspace is " ++ status_line (co_state c))), w) in
  let unknown name :=
    Some (failure (rq_id request) (ResponseError_new INVALID_PARAMS (lit "unknown command '" ++ name ++ lit "'")), w) in
  let when_up action := if is_ready (co_state c) then ready_handle c w request else unavailable action in
  match command ← value_get (rq_params request) (lit "command"); as_str command with
  | None => unknown (lit "null")
  | Some command =>
      if str_eqb command DOCTOR then Some (success (rq_id request) (doctor_result c w request), w)
      else if str_eqb command REINDEX then when_up (lit "reindex")
      else if str_eqb command COMPILE then when_up (lit "compile")
      else if str_eqb command PC_PLUGIN_STATUS then when_up (lit "pc plugin status")
      else unknown command
  end.

(** The count behind the log lines. *)
Definition note_pre_ready (method : list Z) c : ServerCore S :=
  set_pre_ready (<[method := default 0 (co_pre_ready c !! method) + 1]> (co_pre_ready c)) c.

Definition not_initialized (request : Request) : Response :=
  failure (rq_id request) (ResponseError_new SERVER_NOT_INITIALIZED (lit "received " ++ rq_method request ++ lit " before initialize")).
Definition unhandled (request : Request) : Response :=
  failure (rq_id request) (ResponseError_new METHOD_NOT_FOUND (lit "unhandled request: " ++ rq_method request)).

Definition dispatch_request (request : Request) c (w : W) : option (Response * ServerCore S * W) :=
  let method := rq_method request in
  let id := rq_id request in
  if str_eqb method (lit "initialize") then
    let '(c, v) := initialize (rq_params request) c in Some (success id v, c, w)
  else if str_eqb method (lit "shutdown") then Some (success id VNull, shutdown c, w)
  else if negb (co_initialized c) then Some (not_initialized request, c, w)
  else if str_eqb method (lit "completionItem/resolve") then
    if is_ready (co_state c) then '(r, w) ← ready_handle c w request; Some (r, c, w)
    else Some (success id (rq_params request), c, w)
  else if str_eqb method (lit "workspace/executeCommand") then '(r, w) ← execute_command c w request; Some (r, c, w)
  else
    match readiness_method method with
    | None => Some (unhandled request, c, w)
    | Some kind =>
        if is_ready (co_state c) then '(r, w) ← ready_handle c w request; Some (r, c, w)
        else let c := note_pre_ready method c in r ← pre_ready_response id kind (co_state c); Some (r, c, w)
    end.

(** ** Cancellation *)

Definition CANCEL_SET_CAP : Z := 1024.

Definition record_cancel (params : Value) c : ServerCore S :=
  match cancel_request_id params with
  | None => c
  | Some id =>
      let ids := if CANCEL_SET_CAP <=? Z.of_nat (size (co_cancelled c)) then ∅ else co_cancelled c in
      set_cancelled ({[id]} ∪ ids) c
  end.

Definition never_cancelled (method : list Z) : bool := str_eqb method (lit "initialize") || str_eqb method (lit "shutdown").

Definition cancelled_before_dispatch (request : Request) c : bool * ServerCore S :=
  (bool_decide (rq_id request ∈ co_cancelled c) && negb (never_cancelled (rq_method request)),
   set_cancelled (co_cancelled c ∖ {[rq_id request]}) c).

Definition cancelled_response (id : RequestId) : Response :=
  failure id (ResponseError_new REQUEST_CANCELLED (lit "request cancelled")).

(** A request's turn. *)
Definition answer_request (request : Request) c (w : W) : option (Response * ServerCore S * W) :=
  let '(cancelled, c) := cancelled_before_dispatch request c in
  if cancelled then Some (cancelled_response (rq_id request), c, w) else dispatch_request request c w.

(** ** Notifications: [None] is [Flow::Stop] *)

Definition dispatch_notification (note : Notification) c (w : W) : option (option (ServerCore S * W)) :=
  let named name := str_eqb (nt_method note) (lit name) in
  let params := nt_params note in
  if named "initialized"%string then Some (Some (spawn_bootstrap c, w))
  else if named "exit"%string then Some None
  else if named "textDocument/didOpen"%string then Some (Some (did_open params c w))
  else if named "textDocument/didChange"%string then Some <$> did_change params c w
  else if named "textDocument/didClose"%string then Some (Some (did_close params c w))
  else if named "textDocument/didSave"%string then Some (Some (did_save params c w))
  else if named "workspace/didChangeConfiguration"%string then Some (Some (c, when_ready c (λ s, on_did_change_configuration s) w))
  else if named "workspace/didChangeWatchedFiles"%string then Some (Some (c, did_change_watched_files params c w))
  else Some (Some (c, w)).

Definition register_watched_files c : ServerCore S * list Outgoing :=
  if negb (co_watched_dynamic c) || co_watched_registered c then (c, []) else
  let n := as_u64 (co_next_request_id c + 1) in
  (mkCore (co_state c) (co_docs c) (co_root c) (co_shutting_down c) (co_initialized c) (co_reload_requested c) (co_cancelled c)
     (co_watched_dynamic c) true n (co_bootstrap c) (co_pre_ready c),
   [OutRegister (IdString (lit "ls-server/" ++ show_u n))]).

(** ** The dispatch loop *)

Inductive Inbound :=
| Frame (r : result ResponseError Incoming)
| ReadError (e : ReadStop).

Inductive Flow :=
| Continue
| Exiting                              (** after [exit] *)
| StoppedOn (e : ReadStop).            (** a read error *)

(** One turn of the loop: what it leaves, writes and does next. *)
Definition loop_turn (inbound : Inbound) c (w : W) : option (ServerCore S * W * list Outgoing * Flow) :=
  let '(c, w) := poll_bootstrap c w in
  let '(c, w) := poll_reload c w in
  match inbound with
  | Frame (Ok (InRequest request)) =>
      '(r, c, w) ← answer_request request c w; Some (c, w, [OutResponse r], Continue)
  | Frame (Ok (InNotification note)) =>
      next ← dispatch_notification note c w;
      Some (match next with
            | None => (c, w, [], Exiting)
            | Some (c, w) =>
                if str_eqb (nt_method note) (lit "initialized")
                then let '(c, out) := register_watched_files c in (c, w, out, Continue)
                else (c, w, [], Continue)
            end)
  | Frame (Ok (InResponse _)) => Some (c, w, [], Continue)
  | Frame (Err e) => Some (c, w, [OutNullError e], Continue)
  | ReadError e => Some (c, w, [], StoppedOn e)
  end.

(** What [serve] does after the loop; a worker that still builds is waited for ([None]). *)
Definition serve_end (exiting : bool) c (w : W) : option (ServerCore S * W) :=
  if exiting || co_shutting_down c then Some (detach_bootstrap c, w) else
  match co_bootstrap c with
  | None => Some (c, w)
  | Some Building => None
  | Some (Delivered r) => Some (adopt_bootstrap (Some r) c w)
  | Some Dropped => Some (adopt_bootstrap None c w)
  end.

(** ** The threads

    A turn of the loop reads the cancel set once and nothing else the reader touches, so that a turn is
    one step: what the reader does during it is as if it came before or after. *)

Inductive ReaderState := Reading | ReaderDone | ReaderPanicked.
Inductive ServeStop := ServeRead (e : ReadStop) | ServeWrite.
Inductive Phase :=
| Looping
| Leaving (exiting : bool)             (** out of the loop, the reader is joined *)
| Failing (e : ServeStop)
| Served (r : result ServeStop unit)
| Crashed.                             (** a panic *)

Record System := mkSystem {
  sy_core : ServerCore S;
  sy_world : W;
  sy_unread : Stream;
  sy_reader : ReaderState;
  sy_queue : list Inbound;
  sy_out : list Outgoing;
  sy_phase : Phase }.

Definition start (stream : Stream) (w : W) : System := mkSystem ServerCore_new w stream Reading [] [] Looping.

Inductive Event :=
| EvRead                               (** the reader takes a frame *)
| EvTurn (write_ok : bool)             (** the loop takes a message *)
| EvJoin                               (** the scope ends *)
| EvWorker (r : option (WorkspaceState S))   (** the worker sends its result, or panics *)
| EvTargets.                           (** the build server reports changed targets *)

Context `{SerdeJson}.

Definition is_cancel (m : result ResponseError Incoming) : option Value :=
  match m with
  | Ok (InNotification note) => if str_eqb (nt_method note) (lit "$/cancelRequest") then Some (nt_params note) else None
  | _ => None
  end.
Definition is_exit (m : result ResponseError Incoming) : bool :=
  match m with Ok (InNotification note) => str_eqb (nt_method note) (lit "exit") | _ => false end.

(** One round of [read_loop]. *)
Definition read_loop (s : System) : option System :=
  let '(mkSystem c w unread reader queue out phase) := s in
  match reader with
  | Reading =>
      Some (match read_frame unread with
            | Ok None => mkSystem c w unread ReaderDone queue out phase
            | Err ReadPanics => mkSystem c w unread ReaderPanicked queue out phase
            | Err e => mkSystem c w unread ReaderDone (match phase with Looping => queue ++ [ReadError e] | _ => queue end) out phase
            | Ok (Some (body, unread)) =>
                let parsed := parse_incoming body in
                match is_cancel parsed with
                | Some params => mkSystem (record_cancel params c) w unread Reading queue out phase
                | None =>
                    match phase with
                    | Looping => mkSystem c w unread (if is_exit parsed then ReaderDone else Reading) (queue ++ [Frame parsed]) out phase
                    | _ => mkSystem c w unread ReaderDone queue out phase
                    end
                end
            end)
  | _ => None
  end.

Definition serve_turn (write_ok : bool) (s : System) : option System :=
  let '(mkSystem c w unread reader queue out phase) := s in
  match phase, queue with
  | Looping, m :: queue =>
      Some (match loop_turn m c w with
            | None => mkSystem c w unread reader queue out Crashed
            | Some (c, w, written, flow) =>
                if negb write_ok && negb (bool_decide (written = []))
                then mkSystem c w unread reader queue out (Failing ServeWrite)
                else mkSystem c w unread reader queue (out ++ written)
                       (match flow with Continue => Looping | Exiting => Leaving true | StoppedOn e => Failing (ServeRead e) end)
            end)
  | Looping, [] => match reader with Reading => None | _ => Some (mkSystem c w unread reader [] out (Leaving false)) end
  | _, _ => None
  end.

Definition serve_join (s : System) : option System :=
  let '(mkSystem c w unread reader queue out phase) := s in
  match reader, phase with
  | ReaderDone, Leaving exiting => '(c, w) ← serve_end exiting c w; Some (mkSystem c w unread reader queue out (Served (Ok tt)))
  | ReaderDone, Failing e => Some (mkSystem c w unread reader queue out (Served (Err e)))
  | ReaderPanicked, Leaving _ | ReaderPanicked, Failing _ => Some (mkSystem c w unread reader queue out Crashed)
  | _, _ => None
  end.

Definition step (e : Event) (s : System) : option System :=
  let '(mkSystem c w unread reader queue out phase) := s in
  match e with
  | EvRead => read_loop s
  | EvTurn write_ok => serve_turn write_ok s
  | EvJoin => serve_join s
  | EvWorker r =>
      match co_bootstrap c with
      | Some Building =>
          Some (mkSystem (set_bootstrap (Some (match r with Some r => Delivered r | None => Dropped end)) c) w unread reader queue out phase)
      | _ => None
      end
  | EvTargets => Some (mkSystem (set_reload_requested true c) w unread reader queue out phase)
  end.

Inductive reachable (stream : Stream) : System → Prop :=
| reach_start w : reachable stream (start stream w)
| reach_step s e s' : reachable stream s → step e s = Some s' → reachable stream s'.
End server.
