(* ===== verification/LspServeExact.v ===== *)
(** What the server loop of [LspServer] promises: every message is dealt with once and in order, and
    every request gets its one answer. *)

From S2P Require Import Prelude RustStr Uri LspDocuments LspTransport LspSurface LspServer.

Open Scope Z_scope.

Lemma snoc_split {A : Type} (l : list A) x a m b : l ++ [x] = a ++ m :: b →
  (b = [] ∧ m = x ∧ l = a) ∨ ∃ b', b = b' ++ [x] ∧ l = a ++ m :: b'.
Proof.
  destruct b as [|y b _] using rev_ind; intros E; [left; by apply app_inj_tail in E as [-> ->]|].
  right. exists b. rewrite app_comm_cons, app_assoc in E. by apply app_inj_tail in E as [-> ->].
Qed.

#[local] Arguments lit : simpl never.
#[local] Arguments read_frame : simpl never.
#[local] Arguments parse_incoming : simpl never.

Section serve_exact.
Context {S W : Type} `{HandlersOk S W} `{Bootstrap S W} `{LineIndexOps} `{SerdeJson}.
Abbreviation Sys := (System (S:=S) (W:=W)).

(** ** What the reader forwards

    [forwarded s0 s1 l ids]: reading from [s0] to [s1] forwards [l] and records cancels of [ids]. *)
Inductive forwarded (s0 : Stream) : Stream → list Inbound → list RequestId → Prop :=
| fw_none : forwarded s0 s0 [] []
| fw_frame s1 l ids body s2 : forwarded s0 s1 l ids → read_frame s1 = Ok (Some (body, s2)) →
    is_cancel (parse_incoming body) = None → forwarded s0 s2 (l ++ [Frame (parse_incoming body)]) ids
| fw_cancel s1 l ids body s2 params : forwarded s0 s1 l ids → read_frame s1 = Ok (Some (body, s2)) →
    is_cancel (parse_incoming body) = Some params → forwarded s0 s2 l (ids ++ option_list (cancel_request_id params))
| fw_error s1 l ids e : forwarded s0 s1 l ids → read_frame s1 = Err e → forwarded s0 s1 (l ++ [ReadError e]) ids.

(** ** What the log of the turns says *)

Definition Log : Type := list (Inbound * list Outgoing).

Definition request_named (name : list Z) (m : Inbound) : bool :=
  match m with Frame (Ok (InRequest r)) => str_eqb (rq_method r) name | _ => false end.
Definition seen (name : list Z) (log : Log) : bool := existsb (λ e, request_named name e.1) log.
#[local] Arguments seen : simpl never.
Definition registers (log : Log) : bool := existsb (λ e, existsb (λ o, match o with OutRegister _ => true | _ => false end) e.2) log.

(** The answer of a request that was dispatched after [log]. *)
Record dispatch_ok (log : Log) (r : Request) (resp : Response) : Prop := mkDispatchOk {
  do_initialize : rq_method r = lit "initialize" → resp = success (rq_id r) initialize_result;
  do_shutdown : rq_method r = lit "shutdown" → resp = success (rq_id r) VNull;
  do_uninitialized : never_cancelled (rq_method r) = false → seen (lit "initialize") log = false → resp = not_initialized r;
  do_shut : seen (lit "initialize") log = true → seen (lit "shutdown") log = true → ∀ kind, readiness_method (rq_method r) = Some kind →
    ∃ st : WorkspaceState S, ready st = None ∧ pre_ready_response (rq_id r) kind st = Some resp }.

(** What a turn may write. *)
Definition turn_ok (ids : list RequestId) (log : Log) (m : Inbound) (out : list Outgoing) : Prop :=
  match m with
  | Frame (Ok (InRequest r)) =>
      ∃ resp, out = [OutResponse resp] ∧ rs_id resp = rq_id r ∧
        (dispatch_ok log r resp ∨
         resp = cancelled_response (rq_id r) ∧ rq_id r ∈ ids ∧ never_cancelled (rq_method r) = false)
  | Frame (Ok (InNotification n)) =>
      out = [] ∨ ∃ id, out = [OutRegister id] ∧ nt_method n = lit "initialized" ∧ registers log = false
  | Frame (Ok (InResponse _)) => out = []
  | Frame (Err e) => out = [OutNullError e]
  | ReadError _ => out = []
  end.

Definition exits (m : Inbound) : bool := match m with Frame f => is_exit f | ReadError _ => false end.
Definition is_read_error (m : Inbound) : bool := match m with ReadError _ => true | Frame _ => false end.
Definition write_failed (s : Sys) : bool :=
  match sy_phase s with Failing ServeWrite | Served (Err ServeWrite) | Crashed => true | _ => false end.

(** ** The core through a turn *)

(** What every step of the core keeps: a server that was shut down is not ready. *)
Definition core_ok (c : ServerCore S) : Prop := co_shutting_down c = true → ready (co_state c) = None.

(** What the steps that are not about the lifecycle leave alone. *)
Definition same_flags (c c' : ServerCore S) : Prop :=
  co_shutting_down c' = co_shutting_down c ∧ co_initialized c' = co_initialized c ∧ co_cancelled c' = co_cancelled c ∧
  co_watched_registered c' = co_watched_registered c.

Lemma same_flags_refl c : same_flags c c.
Proof. by split_and!. Qed.
Lemma same_flags_trans c1 c2 c3 : same_flags c1 c2 → same_flags c2 c3 → same_flags c1 c3.
Proof. intros (F1 & F2 & F3 & F4) (G1 & G2 & G3 & G4). split_and!; congruence. Qed.

Lemma poll_bootstrap_ok c w : core_ok c → core_ok (poll_bootstrap c w).1 ∧ same_flags c (poll_bootstrap c w).1.
Proof.
  intros Hc. unfold poll_bootstrap, adopt_bootstrap, core_ok. destruct (received c) as [r|]; [|done].
  destruct (co_shutting_down c) eqn:Ed; [by split; [|split_and!]|].
  destruct r as [[| |]|]; cbn; (split; [by rewrite Ed|by split_and!]).
Qed.

Lemma poll_reload_ok c w : core_ok c → core_ok (poll_reload c w).1 ∧ same_flags c (poll_reload c w).1.
Proof.
  intros Hc. unfold poll_reload. destruct (co_shutting_down c) eqn:Ed; [by split; [|apply same_flags_refl]|].
  destruct (ready (co_state c)) as [old|] eqn:Er; [|by split; [|apply same_flags_refl]].
  destruct (co_reload_requested c); [|by split; [|apply same_flags_refl]]. destruct (reload _ _ _) as [st w'].
  split; [unfold core_ok; cbn; by rewrite Ed|by split_and!].
Qed.

Lemma handled_id c w r resp w' : ready_handle c w r = Some (resp, w') → rs_id resp = rq_id r.
Proof.
  unfold ready_handle. destruct (ready _) as [sv|]; [|done]. cbn. intros [= E]. pose proof (handle_id (mkContext r sv (co_root c) (co_docs c) (co_shutting_down c)) w) as Hi.
  rewrite E in Hi. exact Hi.
Qed.

Lemma executed_id c w r resp w' : execute_command c w r = Some (resp, w') → rs_id resp = rq_id r.
Proof.
  unfold execute_command. assert (∀ action, (if is_ready (co_state c) then ready_handle c w r else
    Some (success (rq_id r) (VString (action ++ lit " unavailable: workspace is " ++ status_line (co_state c))), w)) = Some (resp, w') → rs_id resp = rq_id r) as Hup.
  { intros action. destruct (is_ready _); [apply handled_id|]. by intros [= <- _]. }
  destruct (value_get _ _ ≫= _) as [command|]; [|by intros [= <- _]].
  repeat (destruct (str_eqb command _); [first [by intros [= <- _]|apply Hup]|]). by intros [= <- _].
Qed.

(** Dispatching a request: the answer, and the core after it. *)
Lemma dispatch_request_ok log r c w resp c' w' :
  core_ok c → co_initialized c = seen (lit "initialize") log → (seen (lit "shutdown") log = true → co_shutting_down c = true) →
  dispatch_request r c w = Some (resp, c', w') →
  rs_id resp = rq_id r ∧ dispatch_ok log r resp ∧ core_ok c' ∧
  co_initialized c' = co_initialized c || str_eqb (rq_method r) (lit "initialize") ∧
  co_shutting_down c' = co_shutting_down c || str_eqb (rq_method r) (lit "shutdown") ∧
  co_cancelled c' = co_cancelled c ∧ co_watched_registered c' = co_watched_registered c.
Proof.
  intros Hc Hi Hd. unfold dispatch_request. destruct (str_eqb (rq_method r) (lit "initialize")) eqn:E1.
  { apply str_eqb_true in E1. intros [= <- <- _]. split; [done|]. split; [split; rewrite ?E1; try done; by intros _ _ k [=]|]. cbn.
    rewrite E1, !orb_true_r. replace (str_eqb (lit "initialize") (lit "shutdown")) with false by done. rewrite orb_false_r. split_and!; try done.
    unfold core_ok. cbn. intros Hs. unfold is_ready. specialize (Hc Hs). by destruct (co_state c). }
  destruct (str_eqb (rq_method r) (lit "shutdown")) eqn:E2.
  { apply str_eqb_true in E2. intros [= <- <- _]. split; [done|]. split; [split; rewrite ?E2; try done; by intros _ _ k [=]|]. cbn.
    unfold core_ok, shutdown. destruct (co_shutting_down c) eqn:Es; cbn; rewrite ?orb_true_r, ?orb_false_r; split_and!; done. }
  rewrite !orb_false_r.
  assert (never_cancelled (rq_method r) = false) as Hn by (unfold never_cancelled; by rewrite E1, E2).
  assert (rq_method r ≠ lit "initialize") as N1 by (intros E; apply str_eqb_true in E; congruence).
  assert (rq_method r ≠ lit "shutdown") as N2 by (intros E; apply str_eqb_true in E; congruence).
  destruct (co_initialized c) eqn:Ei; cbn [negb].
  2: { intros [= <- <- _]. split; [done|]. split; [|done]. split; try done. intros Hs. congruence. }
  assert (seen (lit "shutdown") log = true → ready (co_state c) = None) as Hshut by (intros Hs; apply Hc, Hd, Hs).
  assert (rq_method r = lit "completionItem/resolve" ∨ rq_method r = lit "workspace/executeCommand" → rs_id resp = rq_id r → dispatch_ok log r resp) as Hplain.
  { intros Hm _. split; try done; [congruence|]. intros _ _ kind. by destruct Hm as [-> | ->]. }
  destruct (str_eqb (rq_method r) (lit "completionItem/resolve")) eqn:E3.
  { apply str_eqb_true in E3. destruct (is_ready (co_state c)).
    - destruct (ready_handle c w r) as [[resp' w1]|] eqn:Eh; [|done]. intros [= <- <- _]. apply handled_id in Eh. split; [done|]. split; [by apply Hplain; [left|]|done].
    - intros [= <- <- _]. split; [done|]. split; [by apply Hplain; [left|]|done]. }
  destruct (str_eqb (rq_method r) (lit "workspace/executeCommand")) eqn:E4.
  { apply str_eqb_true in E4. destruct (execute_command c w r) as [[resp' w1]|] eqn:Eh; [|done]. intros [= <- <- _]. apply executed_id in Eh.
    split; [done|]. split; [by apply Hplain; [right|]|done]. }
  destruct (readiness_method (rq_method r)) as [kind|] eqn:Ek.
  2: { intros [= <- <- _]. split; [done|]. split; [|done]. split; try done; [congruence|]. intros _ _ kind. by rewrite Ek. }
  destruct (is_ready (co_state c)) eqn:Er.
  - destruct (ready_handle c w r) as [[resp' w1]|] eqn:Eh; [|done]. intros [= <- <- _]. apply handled_id in Eh. split; [done|]. split; [|done].
    split; try done; [congruence|]. intros _ Hs k _. specialize (Hshut Hs). unfold is_ready in Er. by destruct (co_state c).
  - destruct (pre_ready_response _ _ _) as [resp'|] eqn:Ep; [|done]. intros [= <- <- _]. cbn [note_pre_ready set_pre_ready co_state] in Ep.
    split; [|split; [|done]].
    + unfold pre_ready_response, require_ready in Ep. destruct (pre_ready_outcome kind); [rewrite Er in Ep| |]; by injection Ep as <-.
    + split; try done; [congruence|]. intros _ Hs k Ek'. rewrite Ek in Ek'. injection Ek' as <-. exists (co_state c). split; [by apply Hshut|done].
Qed.

(** ** A turn *)

Record core_inv (ids : list RequestId) (log : Log) (c : ServerCore S) : Prop := mkCoreInv {
  ci_ok : core_ok c;
  ci_initialized : co_initialized c = seen (lit "initialize") log;
  ci_shutdown : co_shutting_down c = seen (lit "shutdown") log;
  ci_cancelled id : id ∈ co_cancelled c → id ∈ ids;
  ci_registered : registers log = true → co_watched_registered c = true }.

Lemma core_inv_flags ids log c c' : core_inv ids log c → core_ok c' → same_flags c c' → core_inv ids log c'.
Proof. intros [I1 I2 I3 I4 I5] Hc (F1 & F2 & F3 & F4). split; rewrite ?F1, ?F2, ?F3, ?F4; done. Qed.

Lemma same_state_ok c c' : co_state c' = co_state c → same_flags c c' → core_ok c → core_ok c'.
Proof. unfold core_ok. intros E (F & _) Hc. by rewrite E, F. Qed.

Lemma seen_snoc name log m out : seen name (log ++ [(m, out)]) = seen name log || request_named name m.
Proof. unfold seen. rewrite existsb_app. cbn. by rewrite orb_false_r. Qed.

(** A turn that is not a request's. *)
Lemma core_inv_quiet ids log m c : core_inv ids log c → (∀ name, request_named name m = false) → core_inv ids (log ++ [(m, [])]) c.
Proof.
  intros [I1 I2 I3 I4 I5] Hm. split; rewrite ?seen_snoc, ?Hm, ?orb_false_r; try done. unfold registers. rewrite existsb_app. cbn. by rewrite orb_false_r.
Qed.

Lemma core_inv_answered ids log r resp c c' : core_inv ids log c → core_ok c' →
  co_initialized c' = co_initialized c || str_eqb (rq_method r) (lit "initialize") →
  co_shutting_down c' = co_shutting_down c || str_eqb (rq_method r) (lit "shutdown") →
  (∀ id, id ∈ co_cancelled c' → id ∈ co_cancelled c) → co_watched_registered c' = co_watched_registered c →
  core_inv ids (log ++ [(Frame (Ok (InRequest r)), [OutResponse resp])]) c'.
Proof.
  intros [I1 I2 I3 I4 I5] Hc E1 E2 E3 E4. split; rewrite ?seen_snoc; cbn [request_named]; [done|by rewrite E1, I2|by rewrite E2, I3|by intros id Hid%E3%I4|].
  unfold registers. rewrite existsb_app. cbn. rewrite orb_false_r, E4. exact I5.
Qed.

Lemma notification_flags note c w c' w' : dispatch_notification note c w = Some (Some (c', w')) →
  co_state c' = co_state c ∧ same_flags c c'.
Proof.
  unfold dispatch_notification.
  repeat (destruct (str_eqb (nt_method note) _); [|]); try (intros [= <- <-]; by (split; [done|apply same_flags_refl])).
  - intros [= <- <-]. unfold spawn_bootstrap. by destruct (co_bootstrap c).
  - unfold did_open. destruct (document_uri (nt_params note)), (params_text (nt_params note)); intros [= <- <-]; done.
  - unfold did_change. destruct (document_uri (nt_params note)) as [uri|]; [|by intros [= <- <-]]. destruct (value_get _ _ ≫= _) as [[|ch changes]|]; try by intros [= <- <-].
    destruct (apply_changes _ _ _ _) as [[[text|] docs]|]; [| |done]; by intros [= <- <-].
  - unfold did_close. destruct (document_uri (nt_params note)); by intros [= <- <-].
  - unfold did_save. destruct (document_uri (nt_params note)) as [uri|]; [|by intros [= <- <-]]. intros [= <- _].
    destruct (value_get _ _ ≫= _); [|done]. by destruct (is_open _ _).
Qed.

Lemma loop_turn_ok ids log m c w c' w' out flow : core_inv ids log c → loop_turn m c w = Some (c', w', out, flow) →
  turn_ok ids log m out ∧ core_inv ids (log ++ [(m, out)]) c' ∧ match flow with
                                                                 | Continue => exits m = false ∧ is_read_error m = false
                                                                 | Exiting => exits m = true
                                                                 | StoppedOn e => m = ReadError e
                                                                 end.
Proof.
  intros Hinv. unfold loop_turn.
  destruct (poll_bootstrap c w) as [c1 w1] eqn:E1. pose proof (poll_bootstrap_ok c w (ci_ok _ _ _ Hinv)) as [K1 F1]. rewrite E1 in K1, F1.
  destruct (poll_reload c1 w1) as [c2 w2] eqn:E2. pose proof (poll_reload_ok c1 w1 K1) as [K2 F2]. rewrite E2 in K2, F2. cbn in K1, F1, K2, F2.
  pose proof (core_inv_flags _ _ _ _ Hinv K2 (same_flags_trans _ _ _ F1 F2)) as Hinv2. clear E1 E2 K1 F1 F2 Hinv c c1 w w1.
  destruct m as [[[r|n|r]|e]|e].
  - unfold answer_request, cancelled_before_dispatch. set (c3 := set_cancelled _ c2). cbn beta iota zeta.
    assert (∀ id, id ∈ co_cancelled c3 → id ∈ co_cancelled c2) as Hsub by (intros id; cbn; set_solver).
    destruct (bool_decide_reflect (rq_id r ∈ co_cancelled c2)) as [Hin|Hin], (never_cancelled (rq_method r)) eqn:En; cbn [andb negb].
    2: { intros [= <- <- <- <-]. assert (str_eqb (rq_method r) (lit "initialize") = false ∧ str_eqb (rq_method r) (lit "shutdown") = false) as [N1 N2].
         { unfold never_cancelled in En. by apply orb_false_iff in En. }
         split; [|split; [|done]].
         - exists (cancelled_response (rq_id r)). split; [done|]. split; [done|]. right. split; [done|]. split; [by apply (ci_cancelled _ _ _ Hinv2)|done].
         - eapply core_inv_answered; [exact Hinv2|exact K2|by rewrite N1, orb_false_r|by rewrite N2, orb_false_r|done|done]. }
    all: destruct (dispatch_request r c3 w2) as [[[resp c4] w4]|] eqn:Ed; [|done]; intros [= <- <- <- <-];
      destruct (dispatch_request_ok log r c3 w2 resp c4 w4) as (Hid & Hok & K4 & G1 & G2 & G3 & G4);
        [exact K2|apply Hinv2|by rewrite (ci_shutdown _ _ _ Hinv2 : co_shutting_down c3 = _)|done|];
      (split; [exists resp; split; [done|]; split; [done|by left]|]); (split; [|done]);
      (eapply core_inv_answered; [exact Hinv2|exact K4|exact G1|exact G2|rewrite G3; exact Hsub|exact G4]).
  - destruct (dispatch_notification n c2 w2) as [[[c3 w3]|]|] eqn:Ed; [| |done].
    + destruct (notification_flags _ _ _ _ _ Ed) as [Est Hfl]. pose proof (same_state_ok _ _ Est Hfl K2) as K3.
      pose proof (core_inv_flags _ _ _ _ Hinv2 K3 Hfl) as Hinv3.
      assert (exits (Frame (Ok (InNotification n))) = false) as Hex.
      { cbn. apply not_true_iff_false. intros E%str_eqb_true. unfold dispatch_notification in Ed. rewrite E in Ed. by vm_compute in Ed. }
      cbn [mbind option_bind]. destruct (str_eqb (nt_method n) (lit "initialized")) eqn:Ei.
      * unfold register_watched_files. destruct (negb (co_watched_dynamic c3)); cbn [orb].
        { intros [= <- <- <- <-]. split; [by left|]. split; [by apply core_inv_quiet|done]. }
        destruct (co_watched_registered c3) eqn:Er.
        { intros [= <- <- <- <-]. split; [by left|]. split; [by apply core_inv_quiet|done]. }
        intros [= <- <- <- <-]. split; [|split; [|done]].
        -- right. eexists. split; [done|]. split; [by apply str_eqb_true|]. apply not_true_iff_false. intros Hr%(ci_registered _ _ _ Hinv3). congruence.
        -- destruct Hinv3 as [I1 I2 I3 I4 I5]. by split; rewrite ?seen_snoc, ?orb_false_r.
      * intros [= <- <- <- <-]. split; [by left|]. split; [by apply core_inv_quiet|done].
    + cbn [mbind option_bind]. intros [= <- <- <- <-]. split; [by left|]. split; [by apply core_inv_quiet|].
      change (exits _) with (str_eqb (nt_method n) (lit "exit")). unfold dispatch_notification in Ed. destruct (str_eqb (nt_method n) (lit "initialized")); [done|].
      destruct (str_eqb (nt_method n) (lit "exit")); [done|]. repeat (destruct (str_eqb (nt_method n) _); [try done|]); try done.
      by destruct (did_change _ _ _).
  - intros [= <- <- <- <-]. split; [done|]. split; [by apply core_inv_quiet|done].
  - intros [= <- <- <- <-]. split; [done|]. split; [|done]. destruct Hinv2 as [I1 I2 I3 I4 I5].
    split; rewrite ?seen_snoc, ?orb_false_r; try done. unfold registers. rewrite existsb_app. cbn. by rewrite orb_false_r.
  - intros [= <- <- <- <-]. split; [done|]. split; [by apply core_inv_quiet|done].
Qed.

(** ** The threads together *)

Lemma turn_ok_more ids ids' log m out : (∀ id, id ∈ ids → id ∈ ids') → turn_ok ids log m out → turn_ok ids' log m out.
Proof.
  intros Hsub. destruct m as [[[r|n|r]|e]|e]; [|done..]. intros (resp & E & Hid & [Hd|(Hr & Hin & Hn)]); exists resp; split; [done| |done|]; (split; [done|]).
  - by left.
  - right. split; [done|]. split; [by apply Hsub|done].
Qed.

Record sys_inv (stream : Stream) (s : Sys) (log : Log) (lost : list Inbound) (ids : list RequestId) (upto : Stream) : Prop := mkSysInv {
  si_forwarded : forwarded stream upto (log.*1 ++ lost ++ sy_queue s) ids;
  si_upto : write_failed s = false → upto = sy_unread s ∧ lost = [];
  si_lost : lost = [] ∨ ∃ m, lost = [m];
  si_out : sy_out s = concat log.*2;
  si_turns a m o b : log = a ++ (m, o) :: b → turn_ok ids a m o;
  si_core : sy_phase s = Looping → core_inv ids log (sy_core s);
  si_ok : core_ok (sy_core s);
  si_shut : seen (lit "shutdown") log = true → co_shutting_down (sy_core s) = true;
  si_last a m b : log.*1 ++ lost ++ sy_queue s = a ++ m :: b → exits m || is_read_error m = true → b = [] ∧ sy_reader s ≠ Reading;
  si_looping : sy_phase s = Looping → Forall (λ m, exits m || is_read_error m = false) log.*1;
  si_done : sy_reader s = ReaderDone → write_failed s = false →
    read_frame (sy_unread s) = Ok None ∨ ∃ l m, log.*1 ++ lost ++ sy_queue s = l ++ [m] ∧ exits m || is_read_error m = true;
  si_leaving : match sy_phase s with
               | Leaving _ | Served (Ok _) => sy_queue s = [] ∧ sy_reader s ≠ Reading ∧ Forall (λ m, is_read_error m = false) log.*1 ∧
                                              (sy_phase s = Served (Ok tt) → sy_reader s = ReaderDone)
               | Failing (ServeRead _) | Served (Err (ServeRead _)) => sy_reader s ≠ Reading
               | _ => True
               end }.

Lemma start_inv stream w : sys_inv stream (start stream w) [] [] [] stream.
Proof.
  split; cbn; try done.
  - constructor.
  - by left.
  - intros a m o b E. by destruct a.
  - intros a m b E. by destruct a.
Qed.

(** The core of a step that is not a turn. *)
Lemma sys_inv_core stream c c' w w' unread reader queue out phase log lost ids upto :
  sys_inv stream (mkSystem c w unread reader queue out phase) log lost ids upto →
  core_ok c' → same_flags c c' → sys_inv stream (mkSystem c' w' unread reader queue out phase) log lost ids upto.
Proof.
  intros [I1 I2 I3 I4 I5 I6 I7 I8 I9 I10 I11 I12] Hc Hf. split; cbn in *; try done.
  - intros Hp. by eapply core_inv_flags; [apply I6| |].
  - destruct Hf as (F1 & _). by rewrite F1.
Qed.

Lemma record_cancel_flags params (c : ServerCore S) :
  co_state (record_cancel params c) = co_state c ∧ co_shutting_down (record_cancel params c) = co_shutting_down c ∧
  co_initialized (record_cancel params c) = co_initialized c ∧ co_watched_registered (record_cancel params c) = co_watched_registered c ∧
  ∀ id, id ∈ co_cancelled (record_cancel params c) → id ∈ co_cancelled c ∨ id ∈ option_list (cancel_request_id params).
Proof.
  unfold record_cancel. destruct (cancel_request_id params) as [id0|]; [|split_and!; try done; by left]. cbn. split_and!; try done.
  intros id. rewrite list_elem_of_singleton. destruct (_ <=? _); set_solver.
Qed.

(** After a failed write or a panic only the reader still runs. *)
Lemma sys_inv_failed stream c c' w unread unread' reader reader' queue out phase log lost ids upto :
  sys_inv stream (mkSystem c w unread reader queue out phase) log lost ids upto →
  write_failed (mkSystem c w unread reader queue out phase) = true →
  core_ok c' → co_shutting_down c' = co_shutting_down c → (reader' ≠ Reading ∨ reader' = reader) →
  sys_inv stream (mkSystem c' w unread' reader' queue out phase) log lost ids upto.
Proof.
  intros [I1 I2 I3 I4 I5 I6 I7 I8 I9 I10 I11 I12] Hw Hc Hs Hr. cbn in *. split; cbn; rewrite ?Hs; try done.
  - intros Hw'. unfold write_failed in *. cbn in *. congruence.
  - by intros ->.
  - intros a m b E Hm. destruct (I9 a m b E Hm) as [-> Hread]. split; [done|]. by destruct Hr as [?| ->].
  - intros _ Hw'. unfold write_failed in *. cbn in *. congruence.
  - by destruct phase as [| |[]|[|[]]|].
Qed.

Lemma read_inv stream s s' log lost ids upto : sys_inv stream s log lost ids upto → read_loop s = Some s' →
  ∃ ids' upto', sys_inv stream s' log lost ids' upto'.
Proof.
  intros Hinv. destruct s as [c w unread reader queue out phase]. unfold read_loop. destruct reader; [|done..]. intros [= <-].
  pose proof Hinv as [I1 I2 I3 I4 I5 I6 I7 I8 I9 I10 I11 I12]. cbn in *.
  assert (∀ m, log.*1 ++ lost ++ queue ++ [m] = (log.*1 ++ lost ++ queue) ++ [m]) as Hassoc by (intros m; by rewrite !app_assoc).
  assert (∀ a m b, log.*1 ++ lost ++ queue = a ++ m :: b → exits m || is_read_error m = true → False) as Hnone.
  { intros a m b E Hm. by destruct (I9 a m b E Hm). }
  assert (∀ x a m b, log.*1 ++ lost ++ queue ++ [x] = a ++ m :: b → exits m || is_read_error m = true → b = [] ∧ m = x) as Hlast.
  { intros x a m b E Hm. rewrite Hassoc in E. apply snoc_split in E as [(-> & -> & _)|(b' & -> & E)]; [done|]. by destruct (Hnone _ _ _ E Hm). }
  assert (phase = Looping ∨ write_failed (mkSystem c w unread Reading queue out phase) = true) as Hphase.
  { destruct phase as [| |[]|[|[]]|]; try (by left); try (by right); cbn in I12; tauto. }
  destruct (read_frame unread) as [[[body unread']|]|e] eqn:Er.
  - destruct (is_cancel (parse_incoming body)) as [params|] eqn:Ec.
    + destruct (record_cancel_flags params c) as (G1 & G2 & G3 & G4 & G5).
      assert (core_ok (record_cancel params c)) as Hc by (unfold core_ok; by rewrite G1, G2).
      destruct Hphase as [->|Hw]; [|exists ids, upto; apply (sys_inv_failed _ _ _ _ _ _ _ _ _ _ _ _ _ _ _ Hinv); [done..|by right]].
      destruct (I2 eq_refl) as [-> ->]. exists (ids ++ option_list (cancel_request_id params)), unread'. split; cbn; rewrite ?G2; try done.
      * by eapply fw_cancel.
      * intros a m o b E. eapply turn_ok_more; [|by eapply I5]. intros id Hid. apply elem_of_app. by left.
      * intros Hp. specialize (I6 Hp) as [J1 J2 J3 J4 J5]. split; rewrite ?G3, ?G2, ?G4; try done.
        intros id [Hid|Hid]%G5; apply elem_of_app; [left; by apply J4|by right].
    + destruct Hphase as [->|Hw].
      2: { exists ids, upto. assert (phase ≠ Looping) as Hp by (by intros ->).
           replace (match phase with Looping => _ | _ => _ end) with (mkSystem c w unread' ReaderDone queue out phase) by (by destruct phase).
           apply (sys_inv_failed _ _ _ _ _ _ _ _ _ _ _ _ _ _ _ Hinv); [done..|by left]. }
      destruct (I2 eq_refl) as [-> ->]. cbn [app] in *. exists ids, unread'. split; cbn; try done.
      * rewrite Hassoc. by eapply fw_frame.
      * intros a m b E Hm. destruct (Hlast _ a m b E Hm) as [-> ->]. split; [done|].
        replace (is_exit (parse_incoming body)) with true; [done|]. cbn in Hm. by rewrite orb_false_r in Hm.
      * destruct (is_exit (parse_incoming body)) eqn:Ex; [|done]. intros _ _. right. eexists _, (Frame (parse_incoming body)).
        split; [apply Hassoc|]. cbn. by rewrite Ex.
  - exists ids, upto. destruct Hphase as [->|Hw]; [|apply (sys_inv_failed _ _ _ _ _ _ _ _ _ _ _ _ _ _ _ Hinv); [done..|by left]].
    split; cbn; try done.
    + intros a m b E Hm. by destruct (Hnone a m b E Hm).
    + intros _ _. by left.
  - exists ids. destruct Hphase as [->|Hw].
    2: { exists upto. assert (phase ≠ Looping) as Hp by (by intros ->).
         destruct e; (replace (match phase with Looping => _ | _ => _ end) with queue by (by destruct phase)) || idtac;
           (apply (sys_inv_failed _ _ _ _ _ _ _ _ _ _ _ _ _ _ _ Hinv); [done..|by left]). }
    destruct (I2 eq_refl) as [-> ->]. cbn [app] in *.
    assert (∀ e', e = e' → sys_inv stream (mkSystem c w unread ReaderDone (queue ++ [ReadError e']) out Looping) log [] ids unread) as Herr.
    { intros e' <-. split; cbn; try done.
      - rewrite Hassoc. by apply fw_error.
      - intros a m b E Hm. by destruct (Hlast _ a m b E Hm) as [-> ->].
      - intros _ _. right. eexists _, (ReadError e). by split; [apply Hassoc|]. }
    exists unread. destruct e; [by apply Herr| |by apply Herr].
    split; cbn; try done. intros a m b E Hm. by destruct (Hnone a m b E Hm).
Qed.

Lemma turn_inv stream ok s s' log lost ids upto : sys_inv stream s log lost ids upto → serve_turn ok s = Some s' →
  ∃ log' lost', sys_inv stream s' log' lost' ids upto.
Proof.
  intros Hinv. destruct s as [c w unread reader queue out phase]. unfold serve_turn. destruct phase; try by destruct queue.
  pose proof Hinv as [I1 I2 I3 I4 I5 I6 I7 I8 I9 I10 I11 I12]. cbn in *. destruct (I2 eq_refl) as [-> ->]. clear I2 I12.
  specialize (I6 eq_refl). specialize (I10 eq_refl). destruct queue as [|m queue].
  { destruct reader eqn:Er; [done|..]; intros [= <-]; exists log, []; split; cbn; try done;
      (split_and!; [done|done|eapply Forall_impl; [exact I10|]|done]); intros m Hm; by apply orb_false_iff in Hm as [_ ?]. }
  assert (∀ o, (log ++ [(m, o)]).*1 ++ queue = log.*1 ++ m :: queue) as Hmove by (intros o; by rewrite fmap_app, <- app_assoc).
  destruct (loop_turn m c w) as [[[[c' w'] written] flow]|] eqn:Et.
  2: { intros [= <-]. exists log, [m]. split; cbn; try done. right. by exists m. }
  destruct (loop_turn_ok ids log m c w c' w' written flow I6 Et) as (Hturn & Hcore & Hflow).
  destruct (negb ok && negb (bool_decide (written = []))) eqn:Ew.
  { intros [= <-]. exists log, [m]. split; cbn; try done; [right; by exists m|apply Hcore|].
    intros Hs. rewrite (ci_shutdown _ _ _ Hcore), seen_snoc, Hs. done. }
  intros [= <-]. exists (log ++ [(m, written)]), [].
  assert (∀ a m' b, (log ++ [(m, written)]).*1 ++ queue = a ++ m' :: b → exits m' || is_read_error m' = true → b = [] ∧ reader ≠ Reading) as Hlast'.
  { intros a m' b E. rewrite Hmove in E. intros Hm'. by apply (I9 a m' b E). }
  assert (exits m || is_read_error m = true → queue = [] ∧ reader ≠ Reading) as Hm by (intros Hm; by apply (I9 log.*1 m queue)).
  assert (Forall (λ m, is_read_error m = false) log.*1) as Hnr.
  { eapply Forall_impl; [exact I10|]. intros x Hx. by apply orb_false_iff in Hx as [_ ?]. }
  split; cbn -[fmap]; rewrite ?Hmove; try done.
  - by rewrite fmap_app, concat_app, I4; cbn; rewrite app_nil_r.
  - intros a m' o b E. apply snoc_split in E as [(-> & E & ->)|(b' & -> & E)]; [by injection E as -> ->|by eapply I5].
  - apply Hcore.
  - intros Hs. by rewrite (ci_shutdown _ _ _ Hcore).
  - destruct flow; [|done..]. intros _. rewrite fmap_app. apply Forall_app. split; [done|]. constructor; [|done]. cbn. by destruct Hflow as [-> ->].
  - intros Hr _. destruct (I11 Hr eq_refl) as [?|(l & x & E & Hx)]; [by left|right]. exists l, x. by rewrite <- E.
  - destruct flow; [done|..].
    + destruct (Hm ltac:(by rewrite Hflow)) as [-> Hr]. split_and!; [done|done| |done]. rewrite fmap_app. apply Forall_app. split; [done|].
      constructor; [|done]. cbn. by destruct m.
    + rewrite Hflow in Hm. by apply Hm.
Qed.

Lemma serve_end_ok exiting (c : ServerCore S) w c' (w' : W) : core_ok c → serve_end exiting c w = Some (c', w') →
  core_ok c' ∧ co_shutting_down c' = co_shutting_down c.
Proof.
  intros Hc. unfold serve_end. destruct exiting; cbn [orb]; [by intros [= <- _]|]. destruct (co_shutting_down c) eqn:Ed; [by intros [= <- _]|].
  assert (∀ r, core_ok (adopt_bootstrap r c w).1 ∧ co_shutting_down (adopt_bootstrap r c w).1 = false) as Had.
  { intros r. unfold adopt_bootstrap, core_ok. rewrite Ed. by destruct r as [[]|]; cbn; rewrite Ed. }
  destruct (co_bootstrap c) as [[|r|]|]; try done.
  - intros [= E]. specialize (Had (Some r)). by rewrite E in Had.
  - intros [= E]. specialize (Had None). by rewrite E in Had.
  - intros [= <- _]. by split.
Qed.

Lemma join_inv stream s s' log lost ids upto : sys_inv stream s log lost ids upto → serve_join s = Some s' →
  sys_inv stream s' log lost ids upto.
Proof.
  intros Hinv. destruct s as [c w unread reader queue out phase]. unfold serve_join.
  pose proof Hinv as [I1 I2 I3 I4 I5 I6 I7 I8 I9 I10 I11 I12]. cbn in *.
  destruct reader; [done| |]; destruct phase as [|exiting|e| |]; try done.
  - destruct (serve_end exiting c w) as [[c' w']|] eqn:Ee; [|done]. intros [= <-]. destruct (serve_end_ok _ _ _ _ _ I7 Ee) as [Hc Hs].
    split; cbn; rewrite ?Hs; try done. by destruct I12 as (? & ? & ? & _).
  - intros [= <-]. split; cbn; try done; by destruct e.
  - intros [= <-]. split; cbn; done.
  - intros [= <-]. split; cbn; done.
Qed.

Lemma reachable_inv stream s : reachable stream s → ∃ log lost ids upto, sys_inv stream s log lost ids upto.
Proof.
  induction 1 as [w|s e s' _ (log & lost & ids & upto & IH) Hstep].
  { exists [], [], [], stream. apply start_inv. }
  destruct s as [c w unread reader queue out phase]. destruct e as [|ok| |r|]; cbn [step] in Hstep.
  - destruct (read_inv _ _ _ _ _ _ _ IH Hstep) as (ids' & upto' & Hi). by exists log, lost, ids', upto'.
  - destruct (turn_inv _ _ _ _ _ _ _ _ IH Hstep) as (log' & lost' & Hi). by exists log', lost', ids, upto.
  - exists log, lost, ids, upto. by eapply join_inv.
  - exists log, lost, ids, upto. destruct (co_bootstrap c) as [[| |]|]; try done. injection Hstep as <-.
    apply (sys_inv_core _ _ _ _ _ _ _ _ _ _ _ _ _ _ IH); [exact (si_ok _ _ _ _ _ _ IH)|by split_and!].
  - exists log, lost, ids, upto. injection Hstep as <-. apply (sys_inv_core _ _ _ _ _ _ _ _ _ _ _ _ _ _ IH); [exact (si_ok _ _ _ _ _ _ IH)|by split_and!].
Qed.

End serve_exact.

(** ** A session

    Services that answer null, and a text form of JSON with four messages. *)

#[local] Instance null_handlers : Handlers unit unit := {|
  handle cx w := (success (rq_id (cx_request cx)) VNull, w);
  on_did_open _ _ _ w := w; on_did_change _ _ _ w := w; on_did_close _ _ w := w; on_did_save _ _ w := w;
  on_did_change_configuration _ w := w; on_watched_files _ _ w := w;
  DoctorReport := unit; doctor _ _ _ := None; doctor_offline _ _ := tt; render_json _ := VNull; render_text _ := [];
  content_changes_from _ := None |}.
#[local] Instance null_handlers_ok : HandlersOk unit unit.
Proof. by split. Qed.
#[local] Instance null_bootstrap : Bootstrap unit unit := {| replay _ _ w := w; reload s _ w := (Ready s, w) |}.
#[local] Instance no_lines : LineIndexOps := {|
  LineIndex := unit; line_index_new _ := tt; line_range _ _ := None; measure_utf16 _ := 0; to_utf8 _ _ := None; offset_at _ _ := None |}.

Definition demo_request (id : Z) (method : string) : Value :=
  VObject [(lit "id", json_int id); (lit "method", VString (lit method))].
#[local] Instance demo_json : SerdeJson := {|
  from_slice b :=
    if bool_decide (b = as_bytes (lit "hover")) then Ok (demo_request 1 "textDocument/hover")
    else if bool_decide (b = as_bytes (lit "initialize")) then Ok (demo_request 2 "initialize")
    else if bool_decide (b = as_bytes (lit "shutdown")) then Ok (demo_request 3 "shutdown")
    else if bool_decide (b = as_bytes (lit "exit")) then Ok (VObject [(lit "method", VString (lit "exit"))])
    else Err (lit "expected value");
  to_vec _ := [] |}.

Fixpoint run (events : list (Event (S:=unit))) (s : System (S:=unit) (W:=unit)) : System :=
  match events with
  | [] => s
  | e :: events => run events (match step e s with Some s => s | None => s end)
  end.
Lemma run_reachable stream events s : reachable stream s → reachable stream (run events s).
Proof.
  revert s. induction events as [|e events IH]; intros s Hs; [done|]. cbn. apply IH.
  destruct (step e s) eqn:E; [by eapply reach_step|done].
Qed.

Definition demo_stream : Stream :=
  mkStream (concat (frame_of ∘ as_bytes ∘ lit <$> ["hover"; "initialize"; "{"; "hover"; "shutdown"; "hover"; "exit"]%string)) None.
Definition demo_events : list (Event (S:=unit)) :=
  [EvRead; EvRead; EvTurn true; EvRead; EvTurn true; EvTurn true; EvRead; EvRead; EvRead; EvTurn true; EvTurn true; EvTurn true;
   EvRead; EvTurn true; EvJoin].
Definition demo_end : System := run demo_events (start demo_stream tt).

