(* ===== verification/BspModel.v ===== *)
(** The project model of the BSP client ([ls-bsp]): errors ([errors.rs]), the SemanticDB flags
    ([semanticdb.rs]), the model and its dependency graph ([model.rs]), its loading from a session
    ([loader.rs]) and the discovery of connection files ([discovery.rs]).

    The session is three state-passing requests; the files are functions of paths. A path is its
    string; two [PathBuf]s are equal when their components are. *)

From stdpp Require Import relations.
From Stdlib Require Import Sorting.Sorted.
From S2P Require Import Prelude RustStr IndexModel Uri Locator Targets LspTransport.

Open Scope Z_scope.

(** ** Errors *)

Inductive BspError :=
| NoConnectionFile (workspace_root : list Z)
| InvalidConnectionFile (path detail : list Z)
| LaunchFailed (server detail : list Z)
| RequestTimeout (method : list Z) (timeout_millis : Z)
| RequestFailed (method detail : list Z)
| InvalidResponse (method detail : list Z)
| SessionClosed (method : list Z).

Definition bsp_message (e : BspError) : list Z :=
  match e with
  | NoConnectionFile root => lit "no usable .bsp/*.json connection file under " ++ root
  | InvalidConnectionFile path detail => lit "invalid BSP connection file " ++ path ++ lit ": " ++ detail
  | LaunchFailed server detail => lit "failed to launch BSP server '" ++ server ++ lit "': " ++ detail
  | RequestTimeout method ms => lit "BSP request " ++ method ++ lit " timed out after " ++ show_u ms ++ lit "ms"
  | RequestFailed method detail => lit "BSP request " ++ method ++ lit " failed: " ++ detail
  | InvalidResponse method detail => lit "BSP response for " ++ method ++ lit " is invalid: " ++ detail
  | SessionClosed method => lit "BSP session is closed; cannot send " ++ method
  end.

(** ** Protocol records the model is built from *)

Definition STATUS_OK : Z := 1.
Definition SOURCE_ITEM_DIRECTORY : Z := 2.

Record BuildTarget := mkBuildTarget {
  bt_id : list Z; bt_display_name : option (list Z); bt_language_ids : list (list Z); bt_dependencies : list (list Z);
  bt_data : option Value }.
Record SourceItem := mkSourceItem { src_uri : list Z; src_kind : Z }.
Record SourcesItem := mkSourcesItem { si_target : list Z; si_sources : list SourceItem }.
Record ScalacOptionsItem := mkScalacOptionsItem {
  so_target : list Z; so_options : list (list Z); so_classpath : list (list Z); so_class_directory : list Z }.

(** ** SemanticDB flags *)

Record SemanticdbConfig := mkSemanticdbConfig { sc_semanticdb_root : option (list Z); sc_sourceroot : list Z }.
Definition enabled (c : SemanticdbConfig) : bool := bool_decide (is_Some (sc_semanticdb_root c)).

Definition ENABLE_FLAGS : list (list Z) := [lit "-Xsemanticdb"; lit "-Ysemanticdb"].
Definition TARGET_FLAG : list Z := lit "-semanticdb-target".
Definition SOURCEROOT_FLAG : list Z := lit "-sourceroot".

(** The loop of [last_value], from the option at hand. *)
Fixpoint last_value_from (flag : list Z) (result : option (list Z)) (options : list (list Z)) : option (list Z) :=
  match options with
  | [] => result
  | opt :: rest =>
      match strip_prefix (flag ++ lit ":") opt with
      | Some [] => last_value_from flag result rest
      | Some value => last_value_from flag (Some value) rest
      | None =>
          match rest with
          | next :: rest' => if str_eqb opt flag then last_value_from flag (Some next) rest' else last_value_from flag result rest
          | [] => last_value_from flag result rest
          end
      end
  end.
Definition last_value (options : list (list Z)) (flag : list Z) : option (list Z) := last_value_from flag None options.

(** [lexical_normalize] of this crate: over a vector of components. *)
Definition normal_step (out : list Component) (comp : Component) : list Component :=
  match comp with
  | CurDir => out
  | ParentDir => match List.rev out with Normal _ :: up => List.rev up | _ => out ++ [ParentDir] end
  | other => out ++ [other]
  end.
Definition normalize_path (p : list Component) : list Z := path_str (foldl normal_step [] p).

Definition extract (options : list (list Z)) (class_directory workspace_root : list Z) : SemanticdbConfig :=
  let on := existsb (λ o, existsb (str_eqb o) ENABLE_FLAGS) options in
  let resolve value := normalize_path (path_join (path_components workspace_root) value) in
  mkSemanticdbConfig
    (if on then Some (default class_directory (resolve <$> last_value options TARGET_FLAG)) else None)
    (default workspace_root (resolve <$> last_value options SOURCEROOT_FLAG)).

(** ** The model *)

Record BspTarget := mkBspTarget {
  tg_bsp_id : list Z; tg_display_name : list Z; tg_scala_version : list Z; tg_scalac_options : list (list Z);
  tg_class_directory : list Z; tg_classpath : list (list Z); tg_semanticdb_root : option (list Z);
  tg_sourceroot : option (list Z); tg_sources : list (list Z); tg_direct_deps : list (list Z) }.
Definition indexable (t : BspTarget) : bool := bool_decide (is_Some (tg_semanticdb_root t)).

Record BspProjectModel := mkModel {
  pm_targets : list BspTarget;
  pm_uri_to_target : gmap (list Z) (list Z);
  pm_by_id : gmap (list Z) Z;
  pm_reverse_edges : gmap (list Z) (list (list Z)) }.

(** The ids by position, a later one over an earlier one. *)
Definition index_ids (targets : list BspTarget) : gmap (list Z) Z :=
  foldl (λ m e, <[tg_bsp_id e.2 := e.1]> m) ∅ (zip (seqZ 0 (zlen targets)) targets).

(** The edges to one target's dependencies, each dependency once ([Targets.add_dep]). *)
Definition add_edges (by_id : gmap (list Z) Z) (acc : gmap (list Z) (list (list Z))) (t : BspTarget) : gmap (list Z) (list (list Z)) :=
  (foldl (add_dep by_id (tg_bsp_id t)) (∅, acc) (tg_direct_deps t)).2.

Definition model_new (targets : list BspTarget) (uri_to_target : gmap (list Z) (list Z)) : BspProjectModel :=
  let by_id := index_ids targets in
  mkModel targets uri_to_target by_id (sort_by str_leb <$> foldl (add_edges by_id) ∅ targets).

Section model.
Context (m : BspProjectModel).

Definition target_for (id : list Z) : option BspTarget := i ← pm_by_id m !! id; zget (pm_targets m) i.
Definition target_of_uri (uri : list Z) : option BspTarget := id ← pm_uri_to_target m !! uri; target_for id.
Definition dependencies_of (id : list Z) : list (list Z) :=
  match target_for id with
  | Some t => dedup_by str_eqb (sort_by str_leb (List.filter (λ d, bool_decide (is_Some (pm_by_id m !! d))) (tg_direct_deps t)))
  | None => []
  end.
Definition model_dependents_of (id : list Z) : list (list Z) := default [] (pm_reverse_edges m !! id).

(** The loop is the one of [Targets.closure_loop]; each known target enters the queue once. *)
Definition model_reverse_closure (id : list Z) : option (gset (list Z)) :=
  if negb (bool_decide (is_Some (pm_by_id m !! id))) then Some ∅ else
  closure_loop model_dependents_of (S (length (pm_targets m))) {[id]} [id].

Definition indexable_targets : list BspTarget := List.filter indexable (pm_targets m).
Definition unavailable_targets : list BspTarget := List.filter (λ t, negb (indexable t)) (pm_targets m).
Definition unavailable_errors : list LsError := (λ t, IndexUnavailable (tg_bsp_id t)) <$> unavailable_targets.
End model.

(** ** Loading *)

Definition is_scala3 (version : list Z) : bool := str_eqb version (lit "3") || starts_with (lit "3.") version.
Definition parse_scala_version (data : option Value) : option (list Z) :=
  v ← data; v ← value_get v (lit "scalaVersion"); as_str v.

(** [Path::file_name] *)
Definition path_file_name (path : list Z) : option (list Z) :=
  match List.rev (path_components path) with Normal n :: _ => Some n | _ => None end.
Definition is_scala_file (path : list Z) : bool :=
  match path_file_name path with Some n => ends_with (lit ".scala") n | None => false end.

(** [Path::join] of a file name. *)
Definition join_name (dir name : list Z) : list Z := if str_eqb dir [] || ends_with (lit "/") dir then dir ++ name else dir ++ lit "/" ++ name.

(** [collect_scala_files] of a directory that is readable. *)
Fixpoint collect_scala_files (dir : list Z) (node : FsNode) : list (list Z) :=
  match node with
  | FsDir entries =>
      (fix collect (entries : list (list Z * FsNode)) : list (list Z) :=
         match entries with
         | [] => []
         | (name, n) :: entries =>
             let path := join_name dir name in
             match n with
             | FsDir _ => collect_scala_files path n
             | FsFile => if is_scala_file path then [path] else []
             | FsOther => []
             end ++ collect entries
         end) entries
  | _ => []
  end.

Definition path_eqb (a b : list Z) : bool := bool_decide (path_components a = path_components b).

Section loader.
(** The [Display] of the [FromUtf8Error] of a URI, the directories, and the requests of a session. *)
Context (utf8_error : list Z → list Z) (dir_tree : list Z → option FsNode).
Context {W : Type} (workspace_build_targets : W → result BspError (list BuildTarget) * W).
Context (build_target_sources : list (list Z) → W → result BspError (list SourcesItem) * W).
Context (build_target_scalac_options : list (list Z) → W → result BspError (list ScalacOptionsItem) * W).

(** The message of an error of [uri_to_path]. *)
Definition uri_message (uri : list Z) (e : UriError) : list Z :=
  let rest := default [] (strip_prefix (lit "file:") uri) in
  let path_part := default rest (strip_prefix (lit "//") rest) in
  match e with
  | NotFileUri => lit "not a file uri: " ++ uri
  | NonEmptyAuthority => lit "file uri has a non-empty authority: " ++ uri
  | NoPath => lit "file uri has no path: " ++ uri
  | TruncatedEscape => lit "truncated percent-escape in " ++ path_part
  | BadEscape => lit "bad percent-escape in " ++ path_part
  | BadUtf8 => lit "bad utf8 in uri " ++ uri ++ lit ": " ++ utf8_error uri
  end.

(** [uri_to_path] with the error of a response. *)
Definition response_path (method uri : list Z) : result BspError (list Z) :=
  match uri_to_path uri with
  | Ok path => Ok path
  | Err e => Err (InvalidResponse method (lit "bad file uri '" ++ uri ++ lit "': " ++ uri_message uri e))
  end.

Fixpoint expand_items (items : list SourceItem) : result BspError (list (list Z)) :=
  match items with
  | [] => Ok []
  | item :: items =>
      path ← response_path (lit "buildTarget/sources") (src_uri item);
      let found :=
        if src_kind item =? SOURCE_ITEM_DIRECTORY
        then match dir_tree path with Some node => collect_scala_files path node | None => [] end
        else if is_scala_file path then [path] else [] in
      more ← expand_items items;
      Ok (found ++ more)
  end.
Definition expand_sources (items : list SourceItem) : result BspError (list (list Z)) :=
  out ← expand_items items; Ok (dedup_by path_eqb (sort_by str_leb out)).

(** The Scala 3 targets with their versions, by id. *)
Definition scala3_target (t : BuildTarget) : option (BuildTarget * list Z) :=
  if existsb (str_eqb (lit "scala")) (bt_language_ids t) then
    v ← parse_scala_version (bt_data t); if is_scala3 v then Some (t, v) else None
  else None.
Definition scala3_targets (ts : list BuildTarget) : list (BuildTarget * list Z) :=
  sort_by (λ a b, str_leb (bt_id a.1) (bt_id b.1)) (omap scala3_target ts).

Definition by_target {A : Type} (key : A → list Z) (items : list A) : gmap (list Z) A :=
  foldl (λ m item, <[key item := item]> m) ∅ items.

Definition scalac_options : list Z := lit "buildTarget/scalacOptions".

Definition load_target (workspace_root : list Z) (sources : gmap (list Z) SourcesItem) (options : gmap (list Z) ScalacOptionsItem)
    (entry : BuildTarget * list Z) : result BspError BspTarget :=
  let '(build_target, scala_version) := entry in
  let bsp_id := bt_id build_target in
  item ← ok_or (options !! bsp_id) (InvalidResponse scalac_options (lit "missing item for target " ++ bsp_id));
  _ ← ensure (negb (str_eqb (so_class_directory item) []))
        (InvalidResponse scalac_options (lit "missing classDirectory for " ++ bsp_id));
  class_directory ← response_path scalac_options (so_class_directory item);
  let classpath := omap (λ entry, match uri_to_path entry with Ok path => Some path | Err _ => None end) (so_classpath item) in
  let semanticdb := extract (so_options item) class_directory workspace_root in
  sources ← expand_sources (match sources !! bsp_id with Some s => si_sources s | None => [] end);
  let deps := dedup_by str_eqb (sort_by str_leb (bt_dependencies build_target)) in
  let display_name := match bt_display_name build_target with Some (c :: name) => c :: name | _ => bsp_id end in
  Ok (mkBspTarget bsp_id display_name scala_version (so_options item) class_directory classpath (sc_semanticdb_root semanticdb)
        (Some (sc_sourceroot semanticdb)) sources deps).

Fixpoint load_targets (workspace_root : list Z) (sources : gmap (list Z) SourcesItem) (options : gmap (list Z) ScalacOptionsItem)
    (entries : list (BuildTarget * list Z)) : result BspError (list BspTarget) :=
  match entries with
  | [] => Ok []
  | e :: entries =>
      t ← load_target workspace_root sources options e;
      ts ← load_targets workspace_root sources options entries;
      Ok (t :: ts)
  end.

(** The first target in order wins a shared source. *)
Definition claim_source (id : list Z) (m : gmap (list Z) (list Z)) (source : list Z) : gmap (list Z) (list Z) :=
  match m !! path_to_uri source with Some _ => m | None => <[path_to_uri source := id]> m end.
Definition claim_sources (m : gmap (list Z) (list Z)) (t : BspTarget) : gmap (list Z) (list Z) :=
  foldl (claim_source (tg_bsp_id t)) m (tg_sources t).

(** [ProjectModelLoader::load] *)
Definition load_model (workspace_root : list Z) (w : W) : result BspError BspProjectModel * W :=
  match workspace_build_targets w with
  | (Err e, w) => (Err e, w)
  | (Ok ts, w) =>
      match scala3_targets ts with
      | [] => (Ok (model_new [] ∅), w)
      | scala3 =>
          let ids := (λ e, bt_id e.1) <$> scala3 in
          match build_target_sources ids w with
          | (Err e, w) => (Err e, w)
          | (Ok sources, w) =>
              match build_target_scalac_options ids w with
              | (Err e, w) => (Err e, w)
              | (Ok options, w) =>
                  (targets ← load_targets workspace_root (by_target si_target sources) (by_target so_target options) scala3;
                   Ok (model_new targets (foldl claim_sources ∅ targets)), w)
              end
          end
      end
  end.
End loader.

(** ** Connection files *)

Record BspConnectionDetails := mkDetails {
  cd_name : list Z; cd_argv : list (list Z); cd_version : list Z; cd_bsp_version : list Z; cd_languages : list (list Z) }.
Record BspConnectionFile := mkConnectionFile { cf_path : list Z; cf_details : BspConnectionDetails }.
Record BspDiscoveryResult := mkDiscovery { ds_candidates : list BspConnectionFile; ds_invalid : list BspError }.

Section discovery.
(** The regular files of a directory in directory order, reading one, and parsing its JSON; errors are messages. *)
Context (files_of : list Z → option (list (list Z))) (read_text : list Z → result (list Z) (list Z)).
Context (from_str : list Z → result (list Z) BspConnectionDetails).

Definition bsp_dir (workspace_root : list Z) : list Z := join_name workspace_root (lit ".bsp").
Definition file_name_of (path : list Z) : list Z := default [] (path_file_name path).

Definition parse_file (path : list Z) : result BspError BspConnectionDetails :=
  let bad detail := InvalidConnectionFile path detail in
  text ← match read_text path with Ok t => Ok t | Err e => Err (bad (lit "unreadable: " ++ e)) end;
  details ← match from_str text with Ok d => Ok d | Err e => Err (bad (lit "malformed JSON: " ++ e)) end;
  match cd_name details, cd_argv details with
  | [], _ => Err (bad (lit "missing required field 'name'"))
  | _, [] => Err (bad (lit "missing required field 'argv'"))
  | _, _ => Ok details
  end.

Definition candidate_leb (a b : BspConnectionFile) : bool :=
  match str_cmp (cd_name (cf_details a)) (cd_name (cf_details b)) with
  | Lt => true
  | Gt => false
  | Eq => str_leb (file_name_of (cf_path a)) (file_name_of (cf_path b))
  end.

Definition discover (workspace_root : list Z) : BspDiscoveryResult :=
  match files_of (bsp_dir workspace_root) with
  | None => mkDiscovery [] []
  | Some files =>
      let json := List.filter (λ p, match path_file_name p with Some n => ends_with (lit ".json") n | None => false end) files in
      let json := sort_by (λ a b, str_leb (file_name_of a) (file_name_of b)) json in
      let parsed := (λ p, (p, parse_file p)) <$> json in
      mkDiscovery
        (sort_by candidate_leb (omap (λ e, match e.2 with Ok d => Some (mkConnectionFile e.1 d) | Err _ => None end) parsed))
        (omap (λ e, match e.2 with Ok _ => None | Err err => Some err end) parsed)
  end.
Definition preferred (r : BspDiscoveryResult) : option BspConnectionFile := head (ds_candidates r).
Definition pick (workspace_root : list Z) : option BspConnectionFile := head (ds_candidates (discover workspace_root)).
Definition required (workspace_root : list Z) : result BspError BspConnectionFile :=
  ok_or (pick workspace_root) (NoConnectionFile workspace_root).
End discovery.

(** ** Lemmas: the graph *)

Definition depends_on (targets : list BspTarget) (a b : list Z) : Prop :=
  ∃ t, t ∈ targets ∧ tg_bsp_id t = a ∧ b ∈ tg_direct_deps t ∧ b ∈ tg_bsp_id <$> targets.

Lemma index_ids_known targets id : is_Some (index_ids targets !! id) ↔ id ∈ tg_bsp_id <$> targets.
Proof.
  unfold index_ids. induction targets as [|t l IH] using rev_ind.
  { change (zlen []) with 0. cbn. split; [by intros [? ?]|by intros ?%elem_of_nil]. }
  rewrite zlen_app. change (zlen [t]) with 1. pose proof (zlen_nonneg l). rewrite seqZ_snoc by lia.
  rewrite (zip_with_app pair) by (rewrite length_seqZ; unfold zlen; lia). rewrite foldl_app, fmap_app, elem_of_app. cbn [zip_with foldl fst snd fmap list_fmap].
  rewrite list_elem_of_singleton, <- IH. destruct (decide (id = tg_bsp_id t)) as [->|Hne].
  - rewrite lookup_insert_eq. split; [by right|by eexists].
  - rewrite lookup_insert_ne by done. tauto.
Qed.

Lemma add_edges_exact by_id targets acc x d :
  x ∈ default [] (foldl (add_edges by_id) acc targets !! d) ↔
  x ∈ default [] (acc !! d) ∨ ∃ t, t ∈ targets ∧ tg_bsp_id t = x ∧ d ∈ tg_direct_deps t ∧ is_Some (by_id !! d).
Proof.
  revert acc. induction targets as [|t l IH]; intros acc; cbn [foldl].
  { split; [by left|]. intros [?|(t & ?%elem_of_nil & _)]; done. }
  rewrite IH. unfold add_edges at 1. pose proof (add_dep_edges by_id (tg_bsp_id t) (tg_direct_deps t) ∅ acc x d) as H. cbv zeta in H. rewrite H.
  split.
  - intros [[?|(-> & ? & _ & ?)]|(t' & ? & ?)]; [by left|right; exists t; split; [left|done]|right; exists t'; split; [by right|done]].
  - intros [?|(t' & [->|?]%elem_of_cons & <- & ? & ?)]; [auto| |right; by exists t']. left. right. set_solver.
Qed.

Lemma model_dependents_exact targets uris x d : x ∈ model_dependents_of (model_new targets uris) d ↔ depends_on targets x d.
Proof.
  unfold model_dependents_of. cbn [model_new pm_reverse_edges]. rewrite lookup_fmap.
  pose proof (add_edges_exact (index_ids targets) targets ∅ x d) as H. rewrite lookup_empty in H. cbn [default from_option] in H.
  unfold depends_on. setoid_rewrite <- (index_ids_known targets d).
  destruct (foldl _ ∅ targets !! d) as [l|]; cbn [fmap option_fmap option_map default from_option id] in *; [rewrite elem_of_sort_by|]; rewrite H; set_solver.
Qed.

Lemma model_closure_exact targets uris id : id ∈ tg_bsp_id <$> targets →
  ∃ back, model_reverse_closure (model_new targets uris) id = Some back ∧ ∀ x, x ∈ back ↔ rtc (depends_on targets) x id.
Proof.
  intros Hid. unfold model_reverse_closure. cbn [model_new pm_by_id pm_targets]. rewrite bool_decide_true by (by apply index_ids_known). cbn [negb].
  set (next := model_dependents_of (model_new targets uris)).
  assert (∀ x y, y ∈ next x ↔ depends_on targets y x) as Hn by (intros; apply model_dependents_exact).
  assert (∀ x y, y ∈ next x → y ∈ list_to_set (C := gset (list Z)) (tg_bsp_id <$> targets)) as Hu.
  { intros x y (t & Ht & <- & _)%Hn. apply elem_of_list_to_set, list_elem_of_fmap. by exists t. }
  destruct (closure_loop_exact next _ Hu id (S (length targets)) {[id]} [id]) as (found & E & H).
  - split; [set_solver|set_solver| |set_solver| |apply NoDup_singleton].
    + intros x ->%elem_of_singleton. apply rtc_refl.
    + intros x ->%elem_of_singleton. by apply elem_of_list_to_set.
  - cbn [length]. pose proof (subseteq_size (list_to_set (tg_bsp_id <$> targets) ∖ {[id]}) (list_to_set (C := gset _) (tg_bsp_id <$> targets)) ltac:(set_solver)) as Hs.
    assert (size (list_to_set (C := gset (list Z)) (tg_bsp_id <$> targets)) ≤ length targets)%nat.
    { rewrite <- (length_fmap tg_bsp_id targets). generalize (tg_bsp_id <$> targets) as l. intros l. induction l as [|y l IH]; [done|].
      cbn. pose proof (size_union_alt {[y]} (list_to_set (C := gset (list Z)) l)) as Hsz. rewrite size_singleton in Hsz.
      pose proof (subseteq_size (list_to_set (C := gset _) l ∖ {[y]}) (list_to_set (C := gset _) l) ltac:(set_solver)). lia. }
    lia.
  - exists found. split; [done|]. intros x. rewrite H. rewrite <- (rtc_flip (depends_on targets) x id). split; apply rtc_subrel; intros y z; apply Hn.
Qed.

(** ** Lemmas: loading *)

Lemma claim_source_lookup id m source uri found :
  claim_source id m source !! uri = Some found ↔ m !! uri = Some found ∨ (m !! uri = None ∧ uri = path_to_uri source ∧ found = id).
Proof.
  unfold claim_source. destruct (m !! path_to_uri source) as [o|] eqn:E.
  - split; [by left|]. intros [?|(Hn & -> & _)]; [done|congruence].
  - destruct (decide (uri = path_to_uri source)) as [->|Hne].
    + rewrite lookup_insert_eq, E. naive_solver.
    + rewrite lookup_insert_ne by done. naive_solver.
Qed.

Lemma claim_sources_lookup t m uri found :
  claim_sources m t !! uri = Some found ↔
  m !! uri = Some found ∨ (m !! uri = None ∧ uri ∈ path_to_uri <$> tg_sources t ∧ found = tg_bsp_id t).
Proof.
  unfold claim_sources. generalize (tg_sources t) as l. intros l. revert m. induction l as [|x l IH]; intros m; cbn [foldl fmap list_fmap].
  { split; [by left|]. by intros [?|(_ & ?%elem_of_nil & _)]. }
  rewrite IH, claim_source_lookup, elem_of_cons.
  assert (claim_source (tg_bsp_id t) m x !! uri = None ↔ m !! uri = None ∧ uri ≠ path_to_uri x) as Hnone.
  { pose proof (claim_source_lookup (tg_bsp_id t) m x uri) as H. destruct (claim_source _ m x !! uri) as [f|] eqn:E.
    - split; [done|]. intros [H1 H2]. destruct (proj1 (H f) eq_refl) as [?|(_ & ? & _)]; [congruence|done].
    - split; [|done]. intros _. destruct (m !! uri) as [f|] eqn:Em; [discriminate (proj2 (H f) (or_introl eq_refl))|].
      split; [done|]. intros ->. discriminate (proj2 (H _) (or_intror (conj eq_refl (conj eq_refl eq_refl)))). }
  rewrite Hnone. destruct (decide (uri = path_to_uri x)); naive_solver.
Qed.

(** The target whose sources a uri is among first. *)
Definition first_owner (targets : list BspTarget) (uri id : list Z) : Prop :=
  ∃ before t after, targets = before ++ t :: after ∧ tg_bsp_id t = id ∧ uri ∈ path_to_uri <$> tg_sources t ∧
    ∀ t', t' ∈ before → uri ∉ path_to_uri <$> tg_sources t'.

Lemma claimed_exact targets uri id : foldl claim_sources ∅ targets !! uri = Some id ↔ first_owner targets uri id.
Proof.
  revert id. induction targets as [|t targets IH] using rev_ind; intros id.
  { cbn. rewrite lookup_empty. split; [done|]. intros (b & t & a & E & _). by destruct b. }
  rewrite foldl_snoc, claim_sources_lookup, IH.
  assert (foldl claim_sources ∅ targets !! uri = None ↔ ∀ t', t' ∈ targets → uri ∉ path_to_uri <$> tg_sources t') as Hnone.
  { split.
    - intros En t' Ht Hu. assert (∃ id', first_owner targets uri id') as [id' Ho%IH]; [|congruence].
      clear IH En. induction targets as [|x l IHl]; [by apply elem_of_nil in Ht|].
      destruct (decide (uri ∈ path_to_uri <$> tg_sources x)) as [Hx|Hx].
      + exists (tg_bsp_id x), [], x, l. split_and!; try done. by intros ? ?%elem_of_nil.
      + apply elem_of_cons in Ht as [->|Ht]; [done|]. destruct (IHl Ht) as (id' & b & y & a & -> & H1 & H2 & H3).
        exists id', (x :: b), y, a. split_and!; try done. intros t'' [->|?]%elem_of_cons; [done|by apply H3].
    - intros Hall. destruct (foldl claim_sources ∅ targets !! uri) as [f|] eqn:E; [|done]. destruct (proj1 (IH f) eq_refl) as (b & y & a & -> & _ & Hu & _).
      exfalso. apply (Hall y); [|done]. apply elem_of_app. right. left. }
  rewrite Hnone. split.
  - intros [(b & y & a & -> & H1 & H2 & H3)|(Hall & Hu & ->)].
    + exists b, y, (a ++ [t]). split; [by rewrite <- app_assoc|done].
    + exists targets, t, []. done.
  - intros (b & y & a & E & H1 & H2 & H3). destruct a as [|z a _] using rev_ind.
    + apply app_inj_tail in E as [-> ->]. right. done.
    + rewrite app_comm_cons, app_assoc in E. apply app_inj_tail in E as [-> ->]. left. by exists b, y, a.
Qed.

Lemma collect_cons dir name n es :
  collect_scala_files dir (FsDir ((name, n) :: es)) =
  match n with
  | FsDir _ => collect_scala_files (join_name dir name) n
  | FsFile => if is_scala_file (join_name dir name) then [join_name dir name] else []
  | FsOther => []
  end ++ collect_scala_files dir (FsDir es).
Proof. reflexivity. Qed.

Lemma collect_scala dir node : Forall (λ p, is_scala_file p = true) (collect_scala_files dir node).
Proof.
  revert dir. induction node as [| |es IH] using FsNode_rect'; intros dir; [constructor..|].
  induction IH as [|[name n] es Hn _ IH]; [constructor|]. rewrite collect_cons. apply Forall_app. split; [|done].
  destruct n as [| |es']; [|constructor|apply Hn]. destruct (is_scala_file (join_name dir name)) eqn:E; [by constructor|constructor].
Qed.

Lemma elem_of_dedup_after {A : Type} (same : A → A → bool) kept l x : x ∈ dedup_after same kept l → x ∈ l.
Proof.
  revert kept. induction l as [|y l IH]; intros kept; cbn; [done|]. destruct (same y kept); [intros H; right; by eapply IH|].
  intros [->|H]%elem_of_cons; [left|right; by eapply IH].
Qed.

Lemma dedup_after_sorted_by {A : Type} (leb same : A → A → bool) kept l :
  StronglySorted (λ x y, leb x y = true) l → StronglySorted (λ x y, leb x y = true) (dedup_after same kept l).
Proof.
  intros Hs. revert kept. induction Hs as [|y l Hs IH Hy]; intros kept; cbn; [constructor|]. destruct (same y kept); [done|].
  constructor; [done|]. rewrite Forall_forall in *. intros z Hz%elem_of_dedup_after. by apply Hy.
Qed.

Section loader_lemmas.
Context (utf8_error : list Z → list Z) (dir_tree : list Z → option FsNode).

Lemma expand_items_scala items out : expand_items utf8_error dir_tree items = Ok out → Forall (λ p, is_scala_file p = true) out.
Proof.
  revert out. induction items as [|item items IH]; intros out; cbn [expand_items]; [by intros [= <-]|].
  destruct (response_path _ _ _) as [path|]; [|done]. cbn. destruct (expand_items _ _ items) as [more|]; [|done]. cbn. intros [= <-].
  apply Forall_app. split; [|by apply IH]. destruct (src_kind item =? SOURCE_ITEM_DIRECTORY).
  - destruct (dir_tree path); [apply collect_scala|constructor].
  - destruct (is_scala_file path) eqn:E; [by constructor|constructor].
Qed.

Lemma expand_sources_ok items out : expand_sources utf8_error dir_tree items = Ok out →
  Forall (λ p, is_scala_file p = true) out ∧ StronglySorted (λ a b, str_leb a b = true) out.
Proof.
  unfold expand_sources. destruct (expand_items _ _ items) as [found|] eqn:E; [|done]. cbn. intros [= <-]. apply expand_items_scala in E.
  pose proof (sort_by_sorted str_leb str_leb_total str_leb_trans found) as Hs.
  assert (Forall (λ p, is_scala_file p = true) (sort_by str_leb found)) as Hf by (by rewrite sort_by_perm).
  destruct (sort_by str_leb found) as [|x l]; cbn [dedup_by]; [by split|]. apply StronglySorted_inv in Hs as [Hs Hx]. split.
  - apply Forall_cons in Hf as [Hfx Hf]. constructor; [done|]. rewrite Forall_forall in *. intros y Hy%elem_of_dedup_after. by apply Hf.
  - constructor; [by apply dedup_after_sorted_by|]. rewrite Forall_forall in *. intros y Hy%elem_of_dedup_after. by apply Hx.
Qed.

(** What a loaded target satisfies. *)
Definition target_ok (t : BspTarget) : Prop :=
  Forall (λ p, is_scala_file p = true) (tg_sources t) ∧ StronglySorted (λ a b, str_leb a b = true) (tg_sources t) ∧
  indexable t = existsb (λ o, existsb (str_eqb o) ENABLE_FLAGS) (tg_scalac_options t).

Lemma load_target_ok root sources options e t : load_target utf8_error dir_tree root sources options e = Ok t →
  tg_bsp_id t = bt_id e.1 ∧ target_ok t.
Proof.
  destruct e as [b v]. unfold load_target. destruct (options !! bt_id b) as [item|]; [|done]. cbn -[expand_sources].
  destruct (negb _); [|done]. cbn -[expand_sources]. destruct (response_path _ _ _) as [dir|]; [|done]. cbn -[expand_sources].
  destruct (expand_sources _ _ _) as [srcs|] eqn:E; [|done]. cbn. intros [= <-]. split; [done|]. apply expand_sources_ok in E as [E1 E2].
  split; [done|]. split; [done|]. unfold indexable, extract. cbn. by destruct (existsb _ _).
Qed.

Lemma load_targets_ok root sources options es ts : load_targets utf8_error dir_tree root sources options es = Ok ts →
  tg_bsp_id <$> ts = (λ e, bt_id e.1) <$> es ∧ Forall target_ok ts.
Proof.
  revert ts. induction es as [|e es IH]; intros ts; cbn [load_targets]; [by intros [= <-]|].
  destruct (load_target _ _ _ _ _ e) as [t|] eqn:Et; [|done]. cbn. destruct (load_targets _ _ _ _ _ es) as [l|]; [|done]. cbn. intros [= <-].
  apply load_target_ok in Et as [E1 E2]. destruct (IH l eq_refl) as [E3 E4]. split; [cbn; by rewrite E1, E3|by constructor].
Qed.
End loader_lemmas.

Lemma scala3_target_Some t e : scala3_target t = Some e ↔
  ∃ v, e = (t, v) ∧ lit "scala" ∈ bt_language_ids t ∧ parse_scala_version (bt_data t) = Some v ∧ is_scala3 v = true.
Proof.
  unfold scala3_target. destruct (existsb _ _) eqn:Ee.
  - apply existsb_exists in Ee as (l & Hl & ->%str_eqb_true). destruct (parse_scala_version _) as [v|]; cbn [mbind option_bind];
      [|split; [done|by intros (v & _ & _ & ? & _)]].
    destruct (is_scala3 v) eqn:Ev; [|split; [done|intros (v' & _ & _ & [= <-] & ?); congruence]].
    split; [|by intros (v' & -> & _ & [= <-] & _)]. intros [= <-]. exists v. split_and!; try done. by apply list_elem_of_In.
  - split; [done|]. intros (v & _ & Hl & _). apply not_true_iff_false in Ee. destruct Ee. apply existsb_exists. exists (lit "scala").
    split; [by apply list_elem_of_In|by apply str_eqb_true].
Qed.


(** ** A workspace with two Scala 3 targets that share a source, and a Java one *)

Definition demo_data : option Value := Some (VObject [(lit "scalaVersion", VString (lit "3.3.1"))]).
Definition demo_targets : list BuildTarget :=
  [mkBuildTarget (lit "ws#b") None [lit "scala"] [lit "ws#a"; lit "ws#java"] demo_data;
   mkBuildTarget (lit "ws#java") None [lit "java"] [] None;
   mkBuildTarget (lit "ws#a") (Some (lit "core")) [lit "java"; lit "scala"] [] demo_data].
Definition demo_sources (ids : list (list Z)) (w : unit) : result BspError (list SourcesItem) * unit :=
  (Ok [mkSourcesItem (lit "ws#a") [mkSourceItem (lit "file:///ws/a") 2];
       mkSourcesItem (lit "ws#b") [mkSourceItem (lit "file:///ws/B.scala") 1; mkSourceItem (lit "file:///ws/a/A.scala") 1]], w).
Definition demo_options (ids : list (list Z)) (w : unit) : result BspError (list ScalacOptionsItem) * unit :=
  (Ok [mkScalacOptionsItem (lit "ws#a") [lit "-Xsemanticdb"; lit "-semanticdb-target:out"] [] (lit "file:///ws/classes");
       mkScalacOptionsItem (lit "ws#b") [] [] (lit "file:///ws/classes")], w).
Definition demo_tree (path : list Z) : option FsNode :=
  if str_eqb path (lit "/ws/a") then Some (FsDir [(lit "A.scala", FsFile); (lit "notes.txt", FsFile)]) else None.
Definition demo_load : result BspError BspProjectModel * unit :=
  load_model (λ _, []) demo_tree (λ w, (Ok demo_targets, w)) demo_sources demo_options (lit "/ws") tt.
Definition demo_model : BspProjectModel := match demo_load with (Ok m, _) => m | _ => model_new [] ∅ end.

