(* ===== verification/BspClient.v ===== *)
(** The BSP connection ([ls-bsp]): framing ([wire.rs]) and the JSON-RPC client with its reader thread
    and blocking callers ([jsonrpc.rs]) as the interleaving of their steps.

    Request ids are not exhausted: a client makes fewer than 2^63 requests. [Instant] and
    [Duration] are integers of one unit. *)

From S2P Require Import Prelude RustStr Uri LspTransport BspModel.

Open Scope Z_scope.

(** ** Framing ([wire.rs]) *)

Fixpoint read_message_headers (fuel : nat) (content_length : option Z) (s : Stream) : result ReadStop (option (option Z * Stream)) :=
  match fuel with
  | O => Err ReadFuel
  | S fuel =>
      '(line, s) ← read_line s;
      match line with
      | [] => Ok None
      | _ =>
          match trim_end_matches is_line_end line with
          | [] => Ok (Some (content_length, s))
          | trimmed =>
              let content_length :=
                match split_once (ch ":") trimmed with
                | Some (key, value) =>
                    if eq_ignore_ascii_case (trim key) (lit "Content-Length") then parse_u64 (trim value) else content_length
                | None => content_length
                end in
              read_message_headers fuel content_length s
          end
      end
  end.

Section client.
Context `{SerdeJson}.

Definition read_message (s : Stream) : result ReadStop (option (Value * Stream)) :=
  headers ← read_message_headers (S (length (sm_data s))) None s;
  match headers with
  | None => Ok None
  | Some (content_length, s) =>
      len ← ok_or content_length (ReadIo InvalidData (lit "missing Content-Length"));
      '(body, s) ← read_body len s;
      match from_slice body with
      | Ok v => Ok (Some (v, s))
      | Err e => Err (ReadIo InvalidData e)
      end
  end.
(** The bytes of [write_message]. *)
Definition write_message (msg : Value) : bytes := frame_of (to_vec msg).

(** ** The client ([jsonrpc.rs]) *)

Inductive RpcCallError := CallTimeout | CallFailed (detail : list Z).
Inductive Outcome := OutcomeResult (v : Value) | OutcomeError (detail : list Z).

Definition describe_error (error : option Value) : list Z :=
  match error with
  | None => lit "unknown error"
  | Some e =>
      let message := default (lit "unknown error") (v ← value_get e (lit "message"); as_str v) in
      match v ← value_get e (lit "code"); value_as_i64 v with
      | Some code => lit "rpc error " ++ show_i code ++ lit ": " ++ message
      | None => message
      end
  end.

(** What [dispatch] makes of a message. *)
Inductive Dispatched :=
| Reply (id : Z) (outcome : Outcome)
| Notified (n : Notification)
| Ignored.
Definition dispatch (msg : Value) : Dispatched :=
  match v ← value_get msg (lit "id"); value_as_i64 v with
  | Some id =>
      match value_get msg (lit "error"), value_get msg (lit "result") with
      | Some e, _ => Reply id (OutcomeError (describe_error (Some e)))
      | None, Some v => Reply id (OutcomeResult v)
      | None, None => Ignored
      end
  | None =>
      match v ← value_get msg (lit "method"); as_str v with
      | Some method => Notified (mkNotification method (default VNull (value_get msg (lit "params"))))
      | None => Ignored
      end
  end.

Inductive CallState :=
| Allocated                            (** has its id *)
| Registered                           (** in the pending map *)
| Waiting (deadline : Z)               (** at the head of the loop *)
| Receiving (deadline until : Z)       (** in [recv_timeout] *)
| Returned (r : result RpcCallError Value).

Record Call := mkCall {
  ca_method : list Z; ca_params : Value; ca_timeout : Z; ca_heartbeat : option Z;
  ca_state : CallState;
  ca_mailbox : option Outcome }.
Definition in_state (st : CallState) (c : Call) : Call := mkCall (ca_method c) (ca_params c) (ca_timeout c) (ca_heartbeat c) st (ca_mailbox c).
Definition in_mailbox (o : Outcome) (c : Call) : Call := mkCall (ca_method c) (ca_params c) (ca_timeout c) (ca_heartbeat c) (ca_state c) (Some o).

Record JsonRpcClient := mkClient {
  jc_next_id : Z;
  jc_pending : gset Z;                 (** the ids whose sender is in the map *)
  jc_calls : gmap Z Call;
  jc_unread : Stream;
  jc_reading : bool;
  jc_written : list Value;
  jc_notified : list Notification;
  jc_now : Z }.
Definition client_start (input : Stream) (now : Z) : JsonRpcClient := mkClient 1 ∅ ∅ input true [] [] now.

Inductive RpcEvent :=
| StartCall (method : list Z) (params : Value) (timeout : Z) (heartbeat : option Z)
| RegisterCall (id : Z)
| WriteCall (id : Z) (error : option (list Z))
| LoopCall (id : Z)
| ReceiveCall (id : Z)
| SendNotification (method : list Z) (params : Value) (error : option (list Z))
| ReadMessage
| Elapse (d : Z).

Definition request_value (id : Z) (c : Call) : Value :=
  VObject [(lit "jsonrpc", VString (lit "2.0")); (lit "id", json_int id); (lit "method", VString (ca_method c)); (lit "params", ca_params c)].
Definition notification_value (method : list Z) (params : Value) : Value :=
  VObject [(lit "jsonrpc", VString (lit "2.0")); (lit "method", VString method); (lit "params", params)].

Definition closed_detail : list Z := lit "connection closed before response".

(** One step of a blocked caller: its next state and whether it takes its id out of the pending map;
    [None] while it waits. *)
Definition call_step (now : Z) (pending : bool) (c : Call) : option (CallState * bool) :=
  match ca_state c with
  | Waiting deadline =>
      if deadline <? now then Some (Returned (Err CallTimeout), true)
      else
        let remaining := deadline - now in
        let slice := match ca_heartbeat c with Some interval => Z.min interval remaining | None => remaining end in
        Some (Receiving deadline (now + slice), false)
  | Receiving deadline until =>
      match ca_mailbox c with
      | Some (OutcomeResult v) => Some (Returned (Ok v), false)
      | Some (OutcomeError detail) => Some (Returned (Err (CallFailed detail)), false)
      | None =>
          if negb pending then Some (Returned (Err (CallFailed closed_detail)), true)
          else if until <=? now then
            if now <? deadline then Some (Waiting deadline, false) else Some (Returned (Err CallTimeout), true)
          else None
      end
  | _ => None
  end.

(** [dispatch] on the state: a reply takes the sender of its id out of the map and sends on it. *)
Definition dispatch_message (msg : Value) (pending : gset Z) (calls : gmap Z Call) (notified : list Notification)
    : gset Z * gmap Z Call * list Notification :=
  match dispatch msg with
  | Reply id outcome =>
      if bool_decide (id ∈ pending) then (pending ∖ {[id]}, alter (in_mailbox outcome) id calls, notified) else (pending, calls, notified)
  | Notified n => (pending, calls, notified ++ [n])
  | Ignored => (pending, calls, notified)
  end.

Definition rpc_step (e : RpcEvent) (s : JsonRpcClient) : option JsonRpcClient :=
  let '(mkClient next pending calls unread reading written notified now) := s in
  match e with
  | StartCall method params timeout heartbeat =>
      if next <? 2 ^ 63 - 1 then
        Some (mkClient (next + 1) pending (<[next := mkCall method params timeout heartbeat Allocated None]> calls) unread reading written notified now)
      else None
  | RegisterCall id =>
      c ← calls !! id;
      match ca_state c with
      | Allocated => Some (mkClient next ({[id]} ∪ pending) (<[id := in_state Registered c]> calls) unread reading written notified now)
      | _ => None
      end
  | WriteCall id error =>
      c ← calls !! id;
      match ca_state c with
      | Registered =>
          Some (match error with
                | Some e => mkClient next (pending ∖ {[id]}) (<[id := in_state (Returned (Err (CallFailed (lit "write failed: " ++ e)))) c]> calls)
                              unread reading written notified now
                | None => mkClient next pending (<[id := in_state (Waiting (now + ca_timeout c)) c]> calls) unread reading
                            (written ++ [request_value id c]) notified now
                end)
      | _ => None
      end
  | LoopCall id | ReceiveCall id =>
      c ← calls !! id;
      '(st, remove) ← call_step now (bool_decide (id ∈ pending)) c;
      Some (mkClient next (if remove : bool then pending ∖ {[id]} else pending) (<[id := in_state st c]> calls) unread reading written notified now)
  | SendNotification method params error =>
      Some (mkClient next pending calls unread reading
              (match error with None => written ++ [notification_value method params] | Some _ => written end) notified now)
  | ReadMessage =>
      if negb reading then None else
      Some (match read_message unread with
            | Ok (Some (msg, unread)) =>
                let '(pending, calls, notified) := dispatch_message msg pending calls notified in
                mkClient next pending calls unread true written notified now
            | Err ReadPanics => mkClient next pending calls unread false written notified now
            | _ => mkClient next ∅ calls unread false written notified now
            end)
  | Elapse d => if 0 <? d then Some (mkClient next pending calls unread reading written notified (now + d)) else None
  end.

Inductive rpc_reachable (input : Stream) : JsonRpcClient → Prop :=
| rpc_start now : rpc_reachable input (client_start input now)
| rpc_next s e s' : rpc_reachable input s → rpc_step e s = Some s' → rpc_reachable input s'.

(** ** What a caller is answered *)

(** The messages read off a stream, in order. *)
Inductive messages : Stream → list Value → Stream → Prop :=
| messages_nil s : messages s [] s
| messages_snoc s msgs s1 m s2 : messages s msgs s1 → read_message s1 = Ok (Some (m, s2)) → messages s (msgs ++ [m]) s2.

Definition notification_of (m : Value) : option Notification := match dispatch m with Notified n => Some n | _ => None end.
Definition written_id (m : Value) : option Z := v ← value_get m (lit "id"); value_as_i64 v.
Definition answered_by (msgs : list Value) (id : Z) (o : Outcome) : Prop := ∃ m, m ∈ msgs ∧ dispatch m = Reply id o.

(** Why a call returned [r]. *)
Definition explained (msgs : list Value) (closed : bool) (id : Z) (r : result RpcCallError Value) : Prop :=
  match r with
  | Ok v => answered_by msgs id (OutcomeResult v)
  | Err (CallFailed d) => answered_by msgs id (OutcomeError d) ∨ (d = closed_detail ∧ closed = true) ∨ (∃ e, d = lit "write failed: " ++ e)
  | Err CallTimeout => True
  end.

Definition blocked (st : CallState) : option Z :=
  match st with Waiting deadline | Receiving deadline _ => Some deadline | _ => None end.
Definition returned (st : CallState) : bool := match st with Returned _ => true | _ => false end.

Definition call_ok (msgs : list Value) (s : JsonRpcClient) (id : Z) (c : Call) : Prop :=
  (0 < id < jc_next_id s) ∧
  (∀ o, ca_mailbox c = Some o → answered_by msgs id o) ∧
  match ca_state c with
  | Allocated => (id ∉ jc_pending s) ∧ ca_mailbox c = None
  | Registered | Waiting _ | Receiving _ _ =>
      match ca_mailbox c with Some _ => id ∉ jc_pending s | None => id ∈ jc_pending s ∨ jc_reading s = false end
  | Returned r => (id ∉ jc_pending s) ∧ explained msgs (negb (jc_reading s)) id r
  end ∧
  match ca_state c with Receiving deadline until => until ≤ deadline | _ => True end.

Record rpc_inv (input : Stream) (s : JsonRpcClient) : Prop := {
  ri_next : 0 < jc_next_id s < 2 ^ 63;
  ri_read : ∃ msgs, messages input msgs (jc_unread s) ∧ jc_notified s = omap notification_of msgs ∧
              ∀ id c, jc_calls s !! id = Some c → call_ok msgs s id c;
  ri_pending : ∀ id, id ∈ jc_pending s → is_Some (jc_calls s !! id);
  ri_written : NoDup (omap written_id (jc_written s));
  ri_sent : ∀ id, id ∈ omap written_id (jc_written s) →
              ∃ c, jc_calls s !! id = Some c ∧ (is_Some (blocked (ca_state c)) ∨ returned (ca_state c) = true) }.

Lemma call_ok_frame msgs s s' id c : jc_next_id s ≤ jc_next_id s' → (id ∈ jc_pending s ↔ id ∈ jc_pending s') →
  jc_reading s' = jc_reading s → call_ok msgs s id c → call_ok msgs s' id c.
Proof.
  intros Hn Hp Hr (? & ? & Hst & ?). split_and!; try done; try lia.
  rewrite Hr. destruct (ca_state c); [destruct Hst; tauto|..|destruct Hst; tauto]; (destruct (ca_mailbox c); tauto).
Qed.

Lemma answered_more msgs m id o : answered_by msgs id o → answered_by (msgs ++ [m]) id o.
Proof. intros (m' & ? & ?). exists m'. split; [apply elem_of_app; by left|done]. Qed.

Lemma explained_more msgs m closed id r : explained msgs closed id r → explained (msgs ++ [m]) closed id r.
Proof.
  destruct r as [v|[|d]]; [apply answered_more|done|]. cbn. intros [?|?]; [left; by apply answered_more|tauto].
Qed.

Lemma call_ok_more msgs m s id c : call_ok msgs s id c → call_ok (msgs ++ [m]) s id c.
Proof.
  intros (? & Hm & Hst & ?). split; [done|split; [|split; [|done]]].
  - intros o Ho. apply answered_more. eauto.
  - destruct (ca_state c); try done. destruct Hst. split; [done|by apply explained_more].
Qed.

Lemma written_request id c : 0 < id < 2 ^ 63 → written_id (request_value id c) = Some id.
Proof.
  intros Hid. unfold written_id, request_value, json_int. change (value_get _ _) with (Some (VNumber (if id <? 0 then NegInt id else PosInt id))). unfold mbind, option_bind, value_as_i64.
  rewrite (proj2 (Z.ltb_ge id 0)), (proj2 (Z.ltb_lt id (2 ^ 63))) by lia. reflexivity.
Qed.
Lemma written_notification method params : written_id (notification_value method params) = None.
Proof. reflexivity. Qed.

(** A caller's own step leaves every other call as it was. *)
Lemma inv_call input s id c c' pending written :
  rpc_inv input s → jc_calls s !! id = Some c → (∀ i, i ≠ id → i ∈ pending ↔ i ∈ jc_pending s) →
  (written = jc_written s ∨ (∃ m, written = jc_written s ++ [m] ∧ written_id m = Some id ∧ ca_state c = Registered)) →
  ((id ∈ omap written_id written) → is_Some (blocked (ca_state c')) ∨ returned (ca_state c') = true) →
  let s' := mkClient (jc_next_id s) pending (<[id := c']> (jc_calls s)) (jc_unread s) (jc_reading s) written (jc_notified s) (jc_now s) in
  (∀ msgs, call_ok msgs s id c → call_ok msgs s' id c') → rpc_inv input s'.
Proof.
  intros [Hn (msgs & Hr & Hno & Hc) Hp Hw Hs] Hid Hpend Hwr Hst s' Hok. split; cbn.
  - done.
  - exists msgs. split_and!; [done|done|]. intros i d. destruct (decide (i = id)) as [->|Hne].
    + rewrite lookup_insert_eq. intros [= <-]. by apply Hok, Hc.
    + rewrite lookup_insert_ne by done. intros Hd. eapply (call_ok_frame msgs s s'); [cbn; lia|symmetry; by apply Hpend|done|by apply Hc].
  - intros i Hi. destruct (decide (i = id)) as [->|Hne]; [by rewrite lookup_insert_eq|].
    rewrite lookup_insert_ne by done. by apply Hp, Hpend.
  - destruct Hwr as [->|(m & -> & Hm & Hreg)]; [done|]. rewrite omap_app. cbn. rewrite Hm. apply NoDup_app. split_and!; [done| |apply NoDup_singleton].
    intros x Hx ->%list_elem_of_singleton. destruct (Hs _ Hx) as (c0 & Hc0 & Hb). rewrite Hid in Hc0. injection Hc0 as <-. rewrite Hreg in Hb.
    destruct Hb as [[? ?]|?]; done.
  - intros i Hi. destruct (decide (i = id)) as [->|Hne]; [rewrite lookup_insert_eq; eauto|]. rewrite lookup_insert_ne by done. apply Hs.
    destruct Hwr as [->|(m & -> & Hm & _)]; [done|]. rewrite omap_app in Hi. cbn in Hi. rewrite Hm in Hi.
    apply elem_of_app in Hi as [?| ->%list_elem_of_singleton]; done.
Qed.

Lemma call_step_inv input s id c st remove :
  rpc_inv input s → jc_calls s !! id = Some c → call_step (jc_now s) (bool_decide (id ∈ jc_pending s)) c = Some (st, remove) →
  rpc_inv input (mkClient (jc_next_id s) (if remove : bool then jc_pending s ∖ {[id]} else jc_pending s) (<[id := in_state st c]> (jc_calls s))
                   (jc_unread s) (jc_reading s) (jc_written s) (jc_notified s) (jc_now s)).
Proof.
  intros Hinv Hid Hst. eapply inv_call; [done|done| |by left| |].
  - intros i Hi. destruct remove; set_solver.
  - intros _. unfold call_step in Hst. destruct (ca_state c); try done; repeat case_match; simplify_eq/=; eauto.
  - intros msgs (Hb & Hm & Hs & Hu). split; [done|split; [done|]]. revert Hst. unfold call_step.
    destruct (ca_state c) as [| |deadline|deadline until|] eqn:Ec; try done.
    + destruct (Z.ltb_spec deadline (jc_now s)); intros [= <- <-]; cbn; [split; [split; [set_solver|done]|done]|].
      split; [done|]. destruct (ca_heartbeat c); lia.
    + destruct (ca_mailbox c) as [[v|d]|] eqn:Eo.
      * intros [= <- <-]. cbn. split; [split; [done|by apply Hm]|done].
      * intros [= <- <-]. cbn. split; [split; [done|left; by apply Hm]|done].
      * case_bool_decide as Hp; cbn [negb].
        -- destruct (Z.leb_spec until (jc_now s)), (Z.ltb_spec (jc_now s) deadline); intros [= <- <-]; cbn; rewrite ?Eo; (split; [|done]);
             [done|split; [set_solver|done]].
        -- intros [= <- <-]. cbn. split; [|done]. split; [set_solver|]. right. left.
           destruct Hs as [?|Hr]; [done|]. by rewrite Hr.
Qed.

Lemma dispatch_call_ok msgs m s id c : (∀ i, i ∈ jc_pending s → is_Some (jc_calls s !! i)) →
  (∀ i d, jc_calls s !! i = Some d → call_ok msgs s i d) →
  let '(pending, calls, notified) := dispatch_message m (jc_pending s) (jc_calls s) (jc_notified s) in
  let s' := mkClient (jc_next_id s) pending calls (jc_unread s) (jc_reading s) (jc_written s) notified (jc_now s) in
  calls !! id = Some c → call_ok (msgs ++ [m]) s' id c.
Proof.
  intros Hp Hc. unfold dispatch_message. destruct (dispatch m) as [i o|n|] eqn:Ed; cbn.
  2,3: intros Hid; apply call_ok_more; eapply call_ok_frame; [| | |by apply Hc]; done || cbn; lia.
  case_bool_decide as Hi; cbn; [|intros Hid; apply call_ok_more; eapply call_ok_frame; [| | |by apply Hc]; done || cbn; lia].
  intros Hid. destruct (decide (id = i)) as [->|Hne].
  - rewrite lookup_alter_eq in Hid. destruct (jc_calls s !! i) as [d|] eqn:Hd; [|done]. injection Hid as <-.
    destruct (Hc _ _ Hd) as (Hb & Hm & Hs & Hu). split; [done|split; [|split; [|done]]]; cbn.
    + intros ? [= <-]. exists m. split; [apply elem_of_app; right; by apply list_elem_of_singleton|done].
    + destruct (ca_state d); [tauto|set_solver..|tauto].
  - rewrite lookup_alter_ne in Hid by done. apply call_ok_more. eapply call_ok_frame; [| | |by apply Hc]; cbn; [lia|set_solver|done].
Qed.

Lemma start_call_inv input s method params timeout heartbeat : rpc_inv input s → jc_next_id s < 2 ^ 63 - 1 →
  rpc_inv input (mkClient (jc_next_id s + 1) (jc_pending s) (<[jc_next_id s := mkCall method params timeout heartbeat Allocated None]> (jc_calls s))
                   (jc_unread s) (jc_reading s) (jc_written s) (jc_notified s) (jc_now s)).
Proof.
  intros [Hn (msgs & Hr & Hno & Hc) Hp Hw Hs] Hlt.
  assert (jc_calls s !! jc_next_id s = None) as Hfresh.
  { apply eq_None_not_Some. intros [c Hx]. destruct (Hc _ _ Hx) as [[? ?] _]. lia. }
  split; cbn -[Z.pow]; [lia| | |done|].
  - exists msgs. split_and!; [done|done|]. intros i c [[<- <-]|[Hne Hi]]%lookup_insert_Some.
    + split; [cbn; lia|split; [done|split; [|done]]]. cbn. split; [|done]. intros Hx. destruct (Hp _ Hx). congruence.
    + eapply call_ok_frame; [| | |by apply Hc]; done || cbn; lia.
  - intros i Hi. destruct (decide (i = jc_next_id s)) as [->|]; [by rewrite lookup_insert_eq|rewrite lookup_insert_ne by done; auto].
  - intros i Hi. destruct (Hs _ Hi) as (c & Hx & ?). exists c. split; [|done]. rewrite lookup_insert_ne; [done|congruence].
Qed.

Lemma dispatch_inv input s m unread : rpc_inv input s → jc_reading s = true → read_message (jc_unread s) = Ok (Some (m, unread)) →
  let '(pending, calls, notified) := dispatch_message m (jc_pending s) (jc_calls s) (jc_notified s) in
  rpc_inv input (mkClient (jc_next_id s) pending calls unread true (jc_written s) notified (jc_now s)).
Proof.
  intros [Hn (msgs & Hr & Hno & Hc) Hp Hw Hs] Hrd Hm. pose proof (λ id c, dispatch_call_ok msgs m s id c Hp Hc) as Hok.
  assert (snd (dispatch_message m (jc_pending s) (jc_calls s) (jc_notified s)) = omap notification_of (msgs ++ [m])) as Hnot.
  { rewrite omap_app, <- Hno. unfold dispatch_message, notification_of. cbn. destruct (dispatch m); cbn; [case_bool_decide; cbn|..]; by rewrite ?app_nil_r. }
  assert (∀ i c, jc_calls s !! i = Some c → ∃ c', (dispatch_message m (jc_pending s) (jc_calls s) (jc_notified s)).1.2 !! i = Some c' ∧ ca_state c' = ca_state c) as Hkeep.
  { intros i c Hi. unfold dispatch_message. destruct (dispatch m) as [j o| |]; cbn; [case_bool_decide; cbn|..]; eauto.
    destruct (decide (j = i)) as [->|]; [rewrite lookup_alter_eq, Hi; cbn; eauto|rewrite lookup_alter_ne by done; eauto]. }
  assert ((dispatch_message m (jc_pending s) (jc_calls s) (jc_notified s)).1.1 ⊆ jc_pending s) as Hsub.
  { unfold dispatch_message. destruct (dispatch m); cbn; [case_bool_decide; cbn|..]; set_solver. }
  destruct (dispatch_message _ _ _ _) as [[pending calls] notified]. cbn in *. split; cbn; [done| |intros i Hi|done|intros i Hi].
  - exists (msgs ++ [m]). split_and!; [by eapply messages_snoc|done|]. intros id c Hid. eapply call_ok_frame; [| | |by apply Hok]; cbn; done.
  - destruct (Hp i) as [c Hci]; [set_solver|]. destruct (Hkeep _ _ Hci) as (? & -> & _). eauto.
  - destruct (Hs _ Hi) as (c & Hci & ?). destruct (Hkeep _ _ Hci) as (c' & ? & Hst). exists c'. by rewrite Hst.
Qed.

Lemma closed_inv input s pending : rpc_inv input s → pending ⊆ jc_pending s →
  rpc_inv input (mkClient (jc_next_id s) pending (jc_calls s) (jc_unread s) false (jc_written s) (jc_notified s) (jc_now s)).
Proof.
  intros [Hn (msgs & Hr & Hno & Hc) Hp Hw Hs] Hsub. split; cbn; [done| |intros i Hi; apply Hp; set_solver|done|done].
  exists msgs. split_and!; [done|done|]. intros id c Hid. destruct (Hc _ _ Hid) as (? & ? & Hst & ?). split; [done|split; [done|split; [|done]]]. cbn.
  destruct (ca_state c) as [| | | |r]; [set_solver|destruct (ca_mailbox c); [set_solver|by right]..|].
  split; [set_solver|]. destruct Hst as [_ Hex]. destruct r as [v|[|d]]; [done|done|]. cbn in *. tauto.
Qed.

Lemma rpc_inv_step input s e s' : rpc_inv input s → rpc_step e s = Some s' → rpc_inv input s'.
Proof.
  intros Hinv He. pose proof Hinv as [Hn (msgs & Hr & Hno & Hc) Hp Hw Hs]. unfold rpc_step in He.
  destruct e as [method params timeout heartbeat|id|id error|id|id|method params error| |d]; destruct s as [next pending calls unread reading written notified now];
    cbn [jc_next_id jc_pending jc_calls jc_unread jc_reading jc_written jc_notified jc_now] in *.
  - destruct (Z.ltb_spec next (2 ^ 63 - 1)); [injection He as <-|done]. by eapply (start_call_inv _ (mkClient _ _ _ _ _ _ _ _)).
  - destruct (calls !! id) as [c|] eqn:Hid; [|done]. cbn in He. destruct (ca_state c) eqn:Ec; try done. injection He as <-.
    eapply (inv_call _ (mkClient _ _ _ _ _ _ _ _)); [done|done|set_solver|by left| |].
    + intros Hx. destruct (Hs _ Hx) as (c0 & Hx' & Hb). rewrite Hid in Hx'. injection Hx' as <-. rewrite Ec in Hb. destruct Hb as [[? ?]|?]; done.
    + intros ms (Hb & Hm & Hst & Hu). split; [done|split; [done|split; [|done]]]. cbn in *. rewrite Ec in Hst. destruct Hst as [? ->]. left. set_solver.
  - destruct (calls !! id) as [c|] eqn:Hid; [|done]. cbn in He. destruct (ca_state c) eqn:Ec; try done. injection He as <-.
    destruct error as [e|]; (eapply (inv_call _ (mkClient _ _ _ _ _ _ _ _)); [done|done| | | |]); cbn.
    + set_solver.
    + by left.
    + auto.
    + intros ms (Hb & Hm & Hst & Hu). split; [done|split; [done|split; [|done]]]. cbn. split; [set_solver|]. right. right. eauto.
    + done.
    + right. eexists. split; [done|]. split; [|done]. apply written_request. destruct (Hc _ _ Hid) as [? _]. cbn in *. lia.
    + eauto.
    + intros ms (Hb & Hm & Hst & Hu). split; [done|split; [done|split; [|done]]]. cbn in *. rewrite Ec in Hst. done.
  - destruct (calls !! id) as [c|] eqn:Hid; [|done]. cbn -[call_step] in He. destruct (call_step _ _ c) as [[st remove]|] eqn:Est; [|done].
    injection He as <-. by eapply (call_step_inv _ (mkClient _ _ _ _ _ _ _ _)).
  - destruct (calls !! id) as [c|] eqn:Hid; [|done]. cbn -[call_step] in He. destruct (call_step _ _ c) as [[st remove]|] eqn:Est; [|done].
    injection He as <-. by eapply (call_step_inv _ (mkClient _ _ _ _ _ _ _ _)).
  - injection He as <-. destruct error; [done|]. split; cbn -[written_id notification_value]; [done|eauto|done|..]; rewrite omap_app; cbn -[written_id notification_value];
      rewrite written_notification, app_nil_r; done.
  - destruct reading; [|done]. injection He as <-. destruct (read_message unread) as [[[m unread']|]|[]] eqn:Em.
    1: { pose proof (dispatch_inv input _ m unread' Hinv eq_refl Em) as Hd. cbn in Hd. by destruct (dispatch_message m pending calls notified) as [[? ?] ?]. }
    all: eapply (closed_inv _ (mkClient _ _ _ _ _ _ _ _)); [done|cbn; set_solver].
  - destruct (0 <? d); [|done]. injection He as <-. by split; cbn; eauto.
Qed.

Lemma rpc_reachable_inv input s : rpc_reachable input s → rpc_inv input s.
Proof.
  induction 1 as [now|s e s' _ IH He]; [|by eapply rpc_inv_step].
  split; cbn -[Z.pow]; [lia| |set_solver|constructor|set_solver].
  exists []. split_and!; [constructor|done|]. intros id c Hid. by rewrite lookup_empty in Hid.
Qed.

(** A blocked caller past its deadline returns at its next step. *)
Lemma late_returns input s id c deadline : rpc_inv input s → jc_calls s !! id = Some c → blocked (ca_state c) = Some deadline → deadline < jc_now s →
  ∃ r s', rpc_step (LoopCall id) s = Some s' ∧ jc_calls s' !! id = Some (in_state (Returned r) c) ∧ id ∉ jc_pending s'.
Proof.
  intros [_ (msgs & _ & _ & Hc) _ _ _] Hid Hb Hlt. destruct (Hc _ _ Hid) as (_ & _ & Hst & Hu).
  destruct s as [next pending calls unread reading written notified now]. unfold rpc_step. cbn [jc_calls jc_now jc_pending] in *. rewrite Hid. cbn [mbind option_bind].
  unfold call_step. destruct (ca_state c) as [| |d|d until|]; try done; injection Hb as ->.
  - rewrite (proj2 (Z.ltb_lt _ _)) by done. eexists _, _. split_and!; [done|apply lookup_insert_eq|set_solver].
  - destruct (ca_mailbox c) as [[v|e]|]; [eexists _, _; split_and!; [done|apply lookup_insert_eq|done]..|].
    destruct (negb _); [eexists _, _; split_and!; [done|apply lookup_insert_eq|set_solver]|].
    rewrite (proj2 (Z.leb_le _ _)), (proj2 (Z.ltb_ge _ _)) by lia. eexists _, _. split_and!; [done|apply lookup_insert_eq|set_solver].
Qed.

(** A step keeps every returned call returned with the same result. *)
Lemma returned_stays e s s' id c r : rpc_step e s = Some s' → jc_calls s !! id = Some c → ca_state c = Returned r → (id < jc_next_id s) →
  ∃ c', jc_calls s' !! id = Some c' ∧ ca_state c' = Returned r.
Proof.
  intros He Hid Hr Hlt. destruct s as [next pending calls unread reading written notified now]. unfold rpc_step in He. cbn [jc_calls jc_next_id] in *.
  assert (∀ i c0 c1, calls !! i = Some c0 → ca_state c0 ≠ Returned r → ∃ c', <[i := c1]> calls !! id = Some c' ∧ ca_state c' = Returned r) as Hother.
  { intros i c0 c1 Hi Hne. exists c. rewrite lookup_insert_ne; [done|]. intros ->. congruence. }
  destruct e as [method params timeout heartbeat|i|i error|i|i|method params error| |d].
  - destruct (next <? 2 ^ 63 - 1); [injection He as <-|done]. cbn. exists c. rewrite lookup_insert_ne by lia. done.
  - destruct (calls !! i) as [ci|] eqn:Hi; [|done]. cbn in He. destruct (ca_state ci) eqn:Ec; try done. injection He as <-. cbn. eapply Hother; [done|congruence].
  - destruct (calls !! i) as [ci|] eqn:Hi; [|done]. cbn in He. destruct (ca_state ci) eqn:Ec; try done. injection He as <-.
    destruct error; cbn; (eapply Hother; [done|congruence]).
  - destruct (calls !! i) as [ci|] eqn:Hi; [|done]. cbn -[call_step] in He. destruct (call_step _ _ ci) as [[st remove]|] eqn:Est; [|done].
    injection He as <-. eapply Hother; [done|]. intros Hret. unfold call_step in Est. by rewrite Hret in Est.
  - destruct (calls !! i) as [ci|] eqn:Hi; [|done]. cbn -[call_step] in He. destruct (call_step _ _ ci) as [[st remove]|] eqn:Est; [|done].
    injection He as <-. eapply Hother; [done|]. intros Hret. unfold call_step in Est. by rewrite Hret in Est.
  - injection He as <-. eauto.
  - destruct reading; [|done]. injection He as <-. destruct (read_message unread) as [[[m unread']|]|[]]; cbn; eauto.
    unfold dispatch_message. destruct (dispatch m) as [j o| |]; cbn; [case_bool_decide; cbn|..]; eauto.
    destruct (decide (j = id)) as [->|]; [rewrite lookup_alter_eq, Hid; cbn; eauto|rewrite lookup_alter_ne by done; eauto].
  - destruct (0 <? d); [|done]. injection He as <-. eauto.
Qed.

(** C17. Requests over the BSP connection, in every interleaving of the callers with the reader
    thread: the notifications handed over are those of the messages read, in their order; a call
    that returned a value was answered with it under its own id, one that failed was answered with
    that error, could not be written, or outlived the connection; and it left nothing in the
    pending map. No two requests written carry one id. No reply is lost: a blocked call has its
    outcome, or its sender in the map, or the reader has stopped. A caller holding an outcome
    returns it, one past its deadline returns at its next step, and what a call returned never
    changes. *)
Theorem rpc_exact input s : rpc_reachable input s →
  (∃ msgs, messages input msgs (jc_unread s) ∧ jc_notified s = omap notification_of msgs ∧
     ∀ id c r, jc_calls s !! id = Some c → ca_state c = Returned r → (id ∉ jc_pending s) ∧ explained msgs (negb (jc_reading s)) id r) ∧
  NoDup (omap written_id (jc_written s)) ∧
  (∀ id c deadline, jc_calls s !! id = Some c → blocked (ca_state c) = Some deadline →
     (is_Some (ca_mailbox c) ∨ id ∈ jc_pending s ∨ jc_reading s = false) ∧
     (deadline < jc_now s →
        ∃ r s', rpc_step (LoopCall id) s = Some s' ∧ jc_calls s' !! id = Some (in_state (Returned r) c) ∧ id ∉ jc_pending s')) ∧
  (∀ id c deadline until o, jc_calls s !! id = Some c → ca_state c = Receiving deadline until → ca_mailbox c = Some o →
     ∃ s', rpc_step (ReceiveCall id) s = Some s' ∧
       jc_calls s' !! id = Some (in_state (Returned (match o with OutcomeResult v => Ok v | OutcomeError d => Err (CallFailed d) end)) c)) ∧
  (∀ e s' id c r, rpc_step e s = Some s' → jc_calls s !! id = Some c → ca_state c = Returned r →
     ∃ c', jc_calls s' !! id = Some c' ∧ ca_state c' = Returned r).
Proof.
  intros Hreach%rpc_reachable_inv. pose proof Hreach as [Hn (msgs & Hr & Hno & Hc) Hp Hw Hs]. split_and!.
  - exists msgs. split_and!; [done|done|]. intros id c r Hid Hst. destruct (Hc _ _ Hid) as (_ & _ & Hcase & _). by rewrite Hst in Hcase.
  - done.
  - intros id c deadline Hid Hb. split; [|by eapply late_returns]. destruct (Hc _ _ Hid) as (_ & _ & Hcase & _).
    destruct (ca_mailbox c); [left; eauto|right]. by destruct (ca_state c).
  - intros id c deadline until o Hid Hst Hm. destruct s as [next pending calls unread reading written notified now]. unfold rpc_step. cbn [jc_calls] in *.
    rewrite Hid. cbn [mbind option_bind]. unfold call_step. rewrite Hst, Hm. destruct o; eexists; (split; [done|apply lookup_insert_eq]).
  - intros e s' id c r He Hid Hst. eapply returned_stays; [done..|]. destruct (Hc _ _ Hid) as [[_ ?] _]. done.
Qed.

Fixpoint rpc_run (es : list RpcEvent) (s : JsonRpcClient) : option JsonRpcClient :=
  match es with [] => Some s | e :: es => s ← rpc_step e s; rpc_run es s end.
Lemma rpc_run_reachable input es s s' : rpc_reachable input s → rpc_run es s = Some s' → rpc_reachable input s'.
Proof.
  revert s. induction es as [|e es IH]; intros s Hs; cbn -[rpc_step]; [by intros [= <-]|].
  destruct (rpc_step e s) as [s1|] eqn:He; cbn; [|done]. apply IH. by eapply rpc_next.
Qed.
End client.

Module RpcExample.
(** A decoder for the one reply of the example. *)
Definition reply_value : Value := VObject [(lit "id", json_int 1); (lit "result", VBool true)].
Definition example_json : SerdeJson :=
  {| from_slice := λ b, if bool_decide (b = as_bytes (lit "reply")) then Ok reply_value else Err (lit "expected value");
     to_vec := λ _, as_bytes (lit "request") |}.
Definition stream : Stream := mkStream (as_bytes (lit "Content-Length: 5") ++ [x0d; x0a; x0d; x0a] ++ as_bytes (lit "reply")) None.
(** Two calls; the reply to the first arrives before its caller waits, the stream then ends, and the second fails. *)
Definition events : list RpcEvent :=
  [StartCall (lit "build/initialize") VNull 30 (Some 10); RegisterCall 1; WriteCall 1 None; ReadMessage; LoopCall 1; ReceiveCall 1;
   StartCall (lit "workspace/buildTargets") VNull 30 (Some 10); RegisterCall 2; WriteCall 2 None; LoopCall 2; ReadMessage; ReceiveCall 2].
Definition final : option JsonRpcClient := rpc_run (H := example_json) events (client_start stream 0).
Definition results : option (list (option CallState)) := s ← final; Some [ca_state <$> (jc_calls s !! 1); ca_state <$> (jc_calls s !! 2)].
Lemma final_results : results = Some [Some (Returned (Ok (VBool true))); Some (Returned (Err (CallFailed closed_detail)))].
Proof. vm_compute. reflexivity. Qed.
End RpcExample.

Lemma rpc_exact_witness : ∃ s, RpcExample.final = Some s ∧ NoDup (omap written_id (jc_written s)) ∧
  length (omap written_id (jc_written s)) = 2%nat.
Proof.
  eexists. split; [vm_compute; reflexivity|]. split; [|vm_compute; reflexivity].
  refine (proj1 (proj2 (rpc_exact (H := RpcExample.example_json) RpcExample.stream _ _))).
  eapply (rpc_run_reachable _ RpcExample.events); [apply (rpc_start _ 0)|]. vm_compute. reflexivity.
Defined.
