(* ===== verification/BspSession.v ===== *)
(** A session with a build server ([ls-bsp/src/session.rs]) and the project model loaded
    through it, over the two operations of the JSON-RPC client ([BspClient]) as the interface [Rpc].

    What serde derives to decode a response is a parameter of each response type; the encodings of
    the requests are written out. Durations are milliseconds. Spawning and killing the child and
    pumping its stderr are the operating system's: [ss_terminated] counts the calls of [terminate]. *)

From S2P Require Import Prelude RustStr Uri Locator LspTransport BspModel BspClient.

Open Scope Z_scope.

(** ** What a session needs of its connection *)

(** [JsonRpcClient::request] and [notify], and the world they run in. *)
Class Rpc (W : Type) := {
  rpc_request : list Z → Value → Z → option Z → W → result RpcCallError Value * W;
  rpc_notify : list Z → Value → W → result RpcCallError unit * W }.

(** serde's [from_value] at a response type; the error is its message. *)
Class Deserialize (A : Type) := from_value : Value → result (list Z) A.

(** ** Data ([protocol.rs], [session.rs]) *)

Definition PROTOCOL_VERSION : list Z := lit "2.1.0".

Record BuildServerCapabilities := mkServerCapabilities {
  bc_inverse_sources_provider : option bool; bc_dependency_sources_provider : option bool; bc_output_paths_provider : option bool }.
Record InitializeBuildResult := mkInitializeResult {
  ib_display_name : list Z; ib_version : list Z; ib_bsp_version : list Z; ib_capabilities : BuildServerCapabilities }.
Record CompileResult := mkCompileResult { cp_status_code : option Z; cp_origin_id : option (list Z) }.
Record DependencySourcesItem := mkDependencySources { ds_target : list Z; ds_sources : list (list Z) }.
Record OutputPathItem := mkOutputPath { op_uri : list Z; op_kind : Z }.
Record OutputPathsItem := mkOutputPaths { op_target : list Z; op_output_paths : list OutputPathItem }.
Record InverseSourcesResult := mkInverseSources { is_targets : list (list Z) }.

Inductive BspCompileOutcome :=
| CompileOk (origin_id : option (list Z))
| CompileFailed (status_code : Z) (origin_id : option (list Z)).
Definition outcome_is_ok (o : BspCompileOutcome) : bool := match o with CompileOk _ => true | CompileFailed _ _ => false end.

Record BspSessionConfig := mkSessionConfig {
  cf_client_name : list Z; cf_client_version : list Z; cf_request_timeout : Z; cf_shutdown_timeout : Z; cf_handshake_heartbeat : Z }.
Definition default_config : BspSessionConfig := mkSessionConfig (lit "scala3-bsp-semantic-ls") (lit "0.1.0") 30000 5000 10000.

Definition HANDSHAKE_HEARTBEAT_METHODS : list (list Z) :=
  [lit "build/initialize"; lit "workspace/buildTargets"; lit "buildTarget/sources"; lit "buildTarget/scalacOptions"].

(** ** The encodings of the requests *)

Definition identifier_value (uri : list Z) : Value := VObject [(lit "uri", VString uri)].
Definition targets_value (bsp_ids : list (list Z)) : Value := VObject [(lit "targets", VArray (identifier_value <$> bsp_ids))].
Definition compile_value (bsp_ids : list (list Z)) (origin_id : option (list Z)) : Value :=
  VObject ((lit "targets", VArray (identifier_value <$> bsp_ids)) :: field (lit "originId") VString origin_id).
Definition inverse_sources_value (uri : list Z) : Value := VObject [(lit "textDocument", identifier_value uri)].
Definition initialize_value (c : BspSessionConfig) (workspace_root : list Z) : Value :=
  VObject [(lit "displayName", VString (cf_client_name c)); (lit "version", VString (cf_client_version c));
           (lit "bspVersion", VString PROTOCOL_VERSION); (lit "rootUri", VString (path_to_uri workspace_root));
           (lit "capabilities", VObject [(lit "languageIds", VArray [VString (lit "scala")])])].

(** ** The session *)

Section session.
Context {W : Type} `{!Rpc W}.
Context `{!Deserialize InitializeBuildResult, !Deserialize (list BuildTarget), !Deserialize (list SourcesItem),
          !Deserialize (list ScalacOptionsItem), !Deserialize CompileResult, !Deserialize InverseSourcesResult,
          !Deserialize (list DependencySourcesItem), !Deserialize (list OutputPathsItem)}.

Record BspSession := mkSession {
  ss_workspace_root : list Z;
  ss_has_process : bool;              (** a child is held *)
  ss_terminated : nat;                (** how often [terminate] ran on it *)
  ss_config : BspSessionConfig;
  ss_initialize_result : option InitializeBuildResult;
  ss_closed : bool;
  ss_rpc : W }.
Definition session_make (workspace_root : list Z) (process : bool) (config : BspSessionConfig) (rpc : W) : BspSession :=
  mkSession workspace_root process 0 config None false rpc.
Definition with_rpc (rpc : W) (s : BspSession) : BspSession :=
  mkSession (ss_workspace_root s) (ss_has_process s) (ss_terminated s) (ss_config s) (ss_initialize_result s) (ss_closed s) rpc.

Definition server_capabilities (s : BspSession) : option BuildServerCapabilities := ib_capabilities <$> ss_initialize_result s.

Definition call_error (method : list Z) (timeout : Z) (e : RpcCallError) : BspError :=
  match e with CallTimeout => RequestTimeout method (as_u64 timeout) | CallFailed detail => RequestFailed method detail end.
Definition map_error {E E' A : Type} (f : E → E') (r : result E A) : result E' A := match r with Ok a => Ok a | Err e => Err (f e) end.

Definition request_bounded (method : list Z) (params : Value) (timeout : Z) (s : BspSession) : result BspError Value * BspSession :=
  if ss_closed s then (Err (SessionClosed method), s)
  else
    let heartbeat := if bool_decide (method ∈ HANDSHAKE_HEARTBEAT_METHODS) then Some (cf_handshake_heartbeat (ss_config s)) else None in
    let '(r, w) := rpc_request method params timeout heartbeat (ss_rpc s) in
    (map_error (call_error method timeout) r, with_rpc w s).

Definition request {A : Type} `{!Deserialize A} (method : list Z) (params : Value) (s : BspSession) : result BspError A * BspSession :=
  match request_bounded method params (cf_request_timeout (ss_config s)) s with
  | (Ok v, s) => (map_error (InvalidResponse method) (from_value v), s)
  | (Err e, s) => (Err e, s)
  end.

Definition notify (method : list Z) (params : Value) (s : BspSession) : result BspError unit * BspSession :=
  if ss_closed s then (Err (SessionClosed method), s)
  else
    let '(r, w) := rpc_notify method params (ss_rpc s) in
    (map_error (call_error method 0) r, with_rpc w s).

Definition initialize (s : BspSession) : result BspError InitializeBuildResult * BspSession :=
  match request (lit "build/initialize") (initialize_value (ss_config s) (ss_workspace_root s)) s with
  | (Ok r, s) =>
      let s := mkSession (ss_workspace_root s) (ss_has_process s) (ss_terminated s) (ss_config s) (Some r) (ss_closed s) (ss_rpc s) in
      match notify (lit "build/initialized") VNull s with
      | (Ok _, s) => (Ok r, s)
      | (Err e, s) => (Err e, s)
      end
  | (Err e, s) => (Err e, s)
  end.

Definition workspace_build_targets : BspSession → result BspError (list BuildTarget) * BspSession :=
  request (lit "workspace/buildTargets") VNull.
Definition build_target_sources (bsp_ids : list (list Z)) : BspSession → result BspError (list SourcesItem) * BspSession :=
  request (lit "buildTarget/sources") (targets_value bsp_ids).
Definition build_target_scalac_options (bsp_ids : list (list Z)) : BspSession → result BspError (list ScalacOptionsItem) * BspSession :=
  request (lit "buildTarget/scalacOptions") (targets_value bsp_ids).

Definition compile (bsp_ids : list (list Z)) (origin_id : option (list Z)) (s : BspSession) : result BspError BspCompileOutcome * BspSession :=
  match request (A := CompileResult) (lit "buildTarget/compile") (compile_value bsp_ids origin_id) s with
  | (Err e, s) => (Err e, s)
  | (Ok r, s) =>
      (match cp_status_code r with
       | Some other => if other =? STATUS_OK then Ok (CompileOk (cp_origin_id r)) else Ok (CompileFailed other (cp_origin_id r))
       | None => Err (InvalidResponse (lit "buildTarget/compile") (lit "missing statusCode"))
       end, s)
  end.

Definition server_inverse_sources (uri : list Z) (s : BspSession) : result BspError (list (list Z)) * BspSession :=
  match request (A := InverseSourcesResult) (lit "buildTarget/inverseSources") (inverse_sources_value uri) s with
  | (Ok r, s) => (Ok (is_targets r), s)
  | (Err e, s) => (Err e, s)
  end.
Definition inverse_sources (uri : list Z) (model : BspProjectModel) (s : BspSession) : result BspError (list (list Z)) * BspSession :=
  let advertised := default false (caps ← server_capabilities s; bc_inverse_sources_provider caps) in
  if advertised then server_inverse_sources uri s else (Ok (option_list (pm_uri_to_target model !! uri)), s).

Definition capability_gated {T : Type} (bsp_ids : list (list Z)) (provider : BuildServerCapabilities → option bool)
    (call : BspSession → result BspError (list T) * BspSession) (s : BspSession) : option (list T) * BspSession :=
  let advertised := default false (caps ← server_capabilities s; provider caps) in
  match bsp_ids with
  | [] => (None, s)
  | _ =>
      if negb advertised then (None, s)
      else match call s with (Ok items, s) => (Some items, s) | (Err _, s) => (None, s) end
  end.
Definition dependency_sources (bsp_ids : list (list Z)) : BspSession → option (list DependencySourcesItem) * BspSession :=
  capability_gated bsp_ids bc_dependency_sources_provider (request (lit "buildTarget/dependencySources") (targets_value bsp_ids)).
Definition output_paths (bsp_ids : list (list Z)) : BspSession → option (list OutputPathsItem) * BspSession :=
  capability_gated bsp_ids bc_output_paths_provider (request (lit "buildTarget/outputPaths") (targets_value bsp_ids)).

Definition close (s : BspSession) : BspSession :=
  if ss_closed s then s
  else mkSession (ss_workspace_root s) (ss_has_process s) (if ss_has_process s then S (ss_terminated s) else ss_terminated s)
         (ss_config s) (ss_initialize_result s) true (ss_rpc s).
Definition shutdown (s : BspSession) : BspSession :=
  if ss_closed s then s
  else
    let '(_, s) := request_bounded (lit "build/shutdown") VNull (cf_shutdown_timeout (ss_config s)) s in
    let '(_, s) := notify (lit "build/exit") VNull s in
    close s.

(** [ProjectModelLoader::load] of this session. *)
Definition session_load (utf8_error : list Z → list Z) (dir_tree : list Z → option FsNode) (s : BspSession)
    : result BspError BspProjectModel * BspSession :=
  load_model utf8_error dir_tree workspace_build_targets build_target_sources build_target_scalac_options (ss_workspace_root s) s.

(** ** What every sequence of operations keeps *)

Inductive SessionOp :=
| OpInitialize | OpBuildTargets | OpSources (bsp_ids : list (list Z)) | OpScalacOptions (bsp_ids : list (list Z))
| OpCompile (bsp_ids : list (list Z)) (origin_id : option (list Z))
| OpInverseSources (uri : list Z) (model : BspProjectModel)
| OpDependencySources (bsp_ids : list (list Z)) | OpOutputPaths (bsp_ids : list (list Z))
| OpLoad (utf8_error : list Z → list Z) (dir_tree : list Z → option FsNode)
| OpShutdown | OpClose.

Definition error_of {A : Type} (r : result BspError A) : option BspError := match r with Ok _ => None | Err e => Some e end.
(** The error an operation reports, and the session after it. *)
Definition session_step (op : SessionOp) (s : BspSession) : option BspError * BspSession :=
  match op with
  | OpInitialize => let '(r, s) := initialize s in (error_of r, s)
  | OpBuildTargets => let '(r, s) := workspace_build_targets s in (error_of r, s)
  | OpSources ids => let '(r, s) := build_target_sources ids s in (error_of r, s)
  | OpScalacOptions ids => let '(r, s) := build_target_scalac_options ids s in (error_of r, s)
  | OpCompile ids origin_id => let '(r, s) := compile ids origin_id s in (error_of r, s)
  | OpInverseSources uri model => let '(r, s) := inverse_sources uri model s in (error_of r, s)
  | OpDependencySources ids => let '(_, s) := dependency_sources ids s in (None, s)
  | OpOutputPaths ids => let '(_, s) := output_paths ids s in (None, s)
  | OpLoad utf8_error dir_tree => let '(r, s) := session_load utf8_error dir_tree s in (error_of r, s)
  | OpShutdown => (None, shutdown s)
  | OpClose => (None, close s)
  end.
Definition session_run (ops : list SessionOp) (s : BspSession) : BspSession := foldl (λ s op, (session_step op s).2) s ops.

(** The method an operation cannot do without. *)
Definition needs (op : SessionOp) : option (list Z) :=
  match op with
  | OpInitialize => Some (lit "build/initialize")
  | OpBuildTargets | OpLoad _ _ => Some (lit "workspace/buildTargets")
  | OpSources _ => Some (lit "buildTarget/sources")
  | OpScalacOptions _ => Some (lit "buildTarget/scalacOptions")
  | OpCompile _ _ => Some (lit "buildTarget/compile")
  | _ => None
  end.

(** The server answered build/initialize with [r]. *)
Definition initialized_with (s : BspSession) (r : InitializeBuildResult) : Prop :=
  ∃ w v w', rpc_request (lit "build/initialize") (initialize_value (ss_config s) (ss_workspace_root s)) (cf_request_timeout (ss_config s))
              (Some (cf_handshake_heartbeat (ss_config s))) w = (Ok v, w') ∧ from_value v = Ok r.

(** What no operation but [initialize], [close] and [shutdown] changes. *)
Definition same_session (s s' : BspSession) : Prop := ∃ w, s' = with_rpc w s.

Record session_ok (s : BspSession) : Prop := {
  so_terminated : ss_terminated s = if ss_closed s && ss_has_process s then 1%nat else 0%nat;
  so_initialized : ∀ r, ss_initialize_result s = Some r → initialized_with s r }.

#[local] Instance same_session_refl : Reflexive same_session.
Proof. intros [root p t c i d w]. by exists w. Qed.
#[local] Instance same_session_trans : Transitive same_session.
Proof. intros s s1 s2 [w ->] [w' ->]. by exists w'. Qed.

Lemma same_ok s s' : same_session s s' → session_ok s → session_ok s'.
Proof. intros [w ->] [Ht Hi]. by split. Qed.

Lemma bounded_same method params timeout s : same_session s (request_bounded method params timeout s).2.
Proof.
  unfold request_bounded. destruct (ss_closed s); [reflexivity|]. destruct (rpc_request _ _ _ _ _) as [r w]. by exists w.
Qed.
Lemma request_same {A : Type} `{!Deserialize A} method params s : same_session s (request (A := A) method params s).2.
Proof.
  unfold request. pose proof (bounded_same method params (cf_request_timeout (ss_config s)) s) as Hb.
  by destruct (request_bounded _ _ _ s) as [[v|e] s'].
Qed.
Lemma notify_same method params s : same_session s (notify method params s).2.
Proof. unfold notify. destruct (ss_closed s); [reflexivity|]. destruct (rpc_notify _ _ _) as [r w]. by exists w. Qed.
Lemma gated_same {T : Type} `{!Deserialize (list T)} ids provider method params s :
  same_session s (capability_gated (T := T) ids provider (request method params) s).2.
Proof.
  unfold capability_gated. destruct ids; [reflexivity|]. destruct (negb _); [reflexivity|].
  pose proof (request_same (A := list T) method params s) as Hr. by destruct (request method params s) as [[items|e] s'].
Qed.

Lemma load_same utf8_error dir_tree s : same_session s (session_load utf8_error dir_tree s).2.
Proof.
  unfold session_load, load_model.
  pose proof (request_same (A := list BuildTarget) (lit "workspace/buildTargets") VNull s) as H1.
  unfold workspace_build_targets. destruct (request _ _ s) as [[ts|e] s1]; [|done].
  destruct (scala3_targets ts) as [|t l]; [done|]. set (ids := _ <$> _).
  pose proof (request_same (A := list SourcesItem) (lit "buildTarget/sources") (targets_value ids) s1) as H2.
  unfold build_target_sources. destruct (request _ _ s1) as [[ss|e] s2]; [|by etrans].
  pose proof (request_same (A := list ScalacOptionsItem) (lit "buildTarget/scalacOptions") (targets_value ids) s2) as H3.
  unfold build_target_scalac_options. destruct (request _ _ s2) as [[os|e] s3]; by do 2 (etrans; [eassumption|]).
Qed.

Lemma request_answer {A : Type} `{!Deserialize A} method params s s' (r : A) : request method params s = (Ok r, s') →
  ∃ v w', rpc_request method params (cf_request_timeout (ss_config s))
            (if bool_decide (method ∈ HANDSHAKE_HEARTBEAT_METHODS) then Some (cf_handshake_heartbeat (ss_config s)) else None) (ss_rpc s) = (Ok v, w') ∧
          from_value v = Ok r.
Proof.
  unfold request, request_bounded. destruct (ss_closed s); [done|]. destruct (rpc_request _ _ _ _ _) as [[v|e] w] eqn:E; [|done]. cbn.
  destruct (from_value v) as [r'|e] eqn:Ev; [|done]. intros [= <- <-]. by exists v, w.
Qed.

Lemma initialize_ok s : session_ok s → session_ok (initialize s).2 ∧ ss_closed (initialize s).2 = ss_closed s.
Proof.
  intros Hok. unfold initialize. pose proof (request_same (A := InitializeBuildResult) (lit "build/initialize")
    (initialize_value (ss_config s) (ss_workspace_root s)) s) as Hs.
  destruct (request _ _ s) as [[r|e] s1] eqn:Er; cbn [snd] in *; [|split; [by eapply same_ok|by destruct Hs as [w ->]]].
  apply request_answer in Er as (v & w' & Hrpc & Hv). destruct Hs as [w ->]. cbn [with_rpc ss_workspace_root ss_has_process ss_terminated ss_config ss_closed ss_rpc].
  set (s2 := mkSession _ _ _ _ _ _ _). pose proof (notify_same (lit "build/initialized") VNull s2) as Hn.
  assert (session_ok s2) as Hok2. { destruct Hok as [Ht Hi]. split; [done|]. intros ? [= <-]. by exists (ss_rpc s), v, w'. }
  destruct (notify _ _ s2) as [[|e] s3]; cbn [snd] in *; (split; [by eapply same_ok|by destruct Hn as [w3 ->]]).
Qed.

Definition ends (op : SessionOp) : bool := match op with OpShutdown | OpClose => true | _ => false end.

(** Every other operation changes at most the world of its connection, [initialize] apart. *)
Lemma step_same op s : ends op = false → op ≠ OpInitialize → same_session s (session_step op s).2.
Proof.
  destruct op as [| |ids|ids|ids origin|uri model|ids|ids|utf8_error dir_tree| |]; intros He Hi; cbn [ends] in He; try done; cbn [session_step].
  - pose proof (request_same (A := list BuildTarget) (lit "workspace/buildTargets") VNull s) as Hs.
    unfold workspace_build_targets. destruct (request _ _ s); exact Hs.
  - pose proof (request_same (A := list SourcesItem) (lit "buildTarget/sources") (targets_value ids) s) as Hs.
    unfold build_target_sources. destruct (request _ _ s); exact Hs.
  - pose proof (request_same (A := list ScalacOptionsItem) (lit "buildTarget/scalacOptions") (targets_value ids) s) as Hs.
    unfold build_target_scalac_options. destruct (request _ _ s); exact Hs.
  - pose proof (request_same (A := CompileResult) (lit "buildTarget/compile") (compile_value ids origin) s) as Hs.
    unfold compile. destruct (request _ _ s) as [[r|e] s1]; exact Hs.
  - unfold inverse_sources, server_inverse_sources. destruct (default false _); [|by exists (ss_rpc s); destruct s].
    pose proof (request_same (A := InverseSourcesResult) (lit "buildTarget/inverseSources") (inverse_sources_value uri) s) as Hs.
    destruct (request _ _ s) as [[r|e] s1]; exact Hs.
  - pose proof (gated_same (T := DependencySourcesItem) ids bc_dependency_sources_provider (lit "buildTarget/dependencySources") (targets_value ids) s) as Hs.
    unfold dependency_sources. destruct (capability_gated _ _ _ s); exact Hs.
  - pose proof (gated_same (T := OutputPathsItem) ids bc_output_paths_provider (lit "buildTarget/outputPaths") (targets_value ids) s) as Hs.
    unfold output_paths. destruct (capability_gated _ _ _ s); exact Hs.
  - pose proof (load_same utf8_error dir_tree s) as Hs. destruct (session_load utf8_error dir_tree s); exact Hs.
Qed.

Lemma close_ok s : session_ok s → session_ok (close s) ∧ ss_closed (close s) = true.
Proof.
  intros Hok. unfold close. destruct (ss_closed s) eqn:Ec; [done|]. destruct Hok as [Ht Hi]. split; [split; cbn|done].
  - rewrite Ht, Ec. by destruct (ss_has_process s).
  - exact Hi.
Qed.
(** [shutdown] of an open session asks, tells, and closes. *)
Lemma shutdown_open s : ss_closed s = false → ∃ s1, same_session s s1 ∧ shutdown s = close s1 ∧
  ss_rpc s1 = (rpc_notify (lit "build/exit") VNull (rpc_request (lit "build/shutdown") VNull (cf_shutdown_timeout (ss_config s)) None (ss_rpc s)).2).2.
Proof.
  intros Ho. unfold shutdown, request_bounded, notify. rewrite Ho. rewrite bool_decide_eq_false_2 by (vm_compute; intuition (set_solver || discriminate)).
  destruct (rpc_request _ _ _ _ _) as [r w] eqn:Er. cbn [with_rpc ss_closed ss_rpc]. rewrite Ho. destruct (rpc_notify _ _ _) as [r' w'] eqn:En.
  eexists. split; [|split; [reflexivity|]]; [by exists w'|]. done.
Qed.

Lemma step_ok op s : session_ok s → session_ok (session_step op s).2 ∧ ss_closed (session_step op s).2 = ss_closed s || ends op.
Proof.
  intros Hok. destruct (decide (ends op = true)) as [He|He%not_true_is_false].
  - rewrite He, orb_true_r. destruct op; try done; cbn; [|by apply close_ok]. destruct (ss_closed s) eqn:Ec.
    + unfold shutdown. by rewrite Ec.
    + destruct (shutdown_open s Ec) as (s1 & Hs & -> & _). apply close_ok. by eapply same_ok.
  - rewrite He, orb_false_r. destruct (match op with OpInitialize => true | _ => false end) eqn:Ei.
    + destruct op; try done. cbn [session_step]. pose proof (initialize_ok s Hok) as Hi. by destruct (initialize s).
    + pose proof (step_same op s He) as Hs. destruct Hs as [w Hs]; [by destruct op|]. rewrite Hs. split; [|done]. eapply same_ok; [by exists w|done].
Qed.

Lemma request_closed {A : Type} `{!Deserialize A} method params s : ss_closed s = true → request (A := A) method params s = (Err (SessionClosed method), s).
Proof. intros Hc. unfold request, request_bounded. by rewrite Hc. Qed.

(** A closed session refuses, and stays as it is. *)
Lemma step_closed op s : ss_closed s = true →
  (session_step op s).2 = s ∧ ∀ m, needs op = Some m → (session_step op s).1 = Some (SessionClosed m).
Proof.
  intros Hc. destruct op as [| |ids|ids|ids origin|uri model|ids|ids|utf8_error dir_tree| |]; cbn [session_step needs].
  - unfold initialize. rewrite request_closed by done. split; [done|]. by intros m [= <-].
  - unfold workspace_build_targets. rewrite request_closed by done. split; [done|]. by intros m [= <-].
  - unfold build_target_sources. rewrite request_closed by done. split; [done|]. by intros m [= <-].
  - unfold build_target_scalac_options. rewrite request_closed by done. split; [done|]. by intros m [= <-].
  - unfold compile. rewrite request_closed by done. split; [done|]. by intros m [= <-].
  - unfold inverse_sources, server_inverse_sources. rewrite request_closed by done. by destruct (default false _).
  - unfold dependency_sources, capability_gated. rewrite request_closed by done. destruct ids; [done|]. by destruct (negb _).
  - unfold output_paths, capability_gated. rewrite request_closed by done. destruct ids; [done|]. by destruct (negb _).
  - unfold session_load, load_model, workspace_build_targets. rewrite request_closed by done. split; [done|]. by intros m [= <-].
  - unfold shutdown. by rewrite Hc.
  - unfold close. by rewrite Hc.
Qed.

Lemma step_process op s : ss_has_process (session_step op s).2 = ss_has_process s.
Proof.
  destruct (ends op) eqn:He; [|destruct (match op with OpInitialize => true | _ => false end) eqn:Ei].
  - destruct op; try done; cbn; [|unfold close; by destruct (ss_closed s)].
    destruct (ss_closed s) eqn:Ec; [unfold shutdown; by rewrite Ec|]. destruct (shutdown_open s Ec) as (s1 & [w ->] & -> & _).
    unfold close. cbn. by rewrite Ec.
  - destruct op; try done. cbn [session_step]. unfold initialize.
    pose proof (request_same (A := InitializeBuildResult) (lit "build/initialize") (initialize_value (ss_config s) (ss_workspace_root s)) s) as Hs.
    destruct (request _ _ s) as [[r|e] s1]; cbn [snd] in Hs; destruct Hs as [w ->]; [|done]. set (s2 := mkSession _ _ _ _ _ _ _).
    pose proof (notify_same (lit "build/initialized") VNull s2) as Hn. by destruct (notify _ _ s2) as [[|e] s3]; cbn [snd] in Hn; destruct Hn as [w3 ->].
  - destruct (step_same op s He) as [w ->]; [by destruct op|done].
Qed.

Lemma run_ok ops s : session_ok s → session_ok (session_run ops s) ∧ ss_closed (session_run ops s) = ss_closed s || existsb ends ops ∧
  ss_has_process (session_run ops s) = ss_has_process s.
Proof.
  revert s. induction ops as [|op ops IH]; intros s Hok; cbn [existsb]; [by rewrite orb_false_r|].
  change (session_run (op :: ops) s) with (session_run ops (session_step op s).2).
  destruct (step_ok op s Hok) as [Hok' Hc]. destruct (IH _ Hok') as (? & Hc' & Hp). split; [done|]. split; [by rewrite Hc', Hc, orb_assoc|].
  rewrite Hp. apply step_process.
Qed.

(** C19. A session over any connection, after any sequence of its operations: it is closed exactly
    when one of them closed it or shut it down; the child of a launched session was terminated
    exactly once by then and never before; the capabilities it reports are those of an answer to
    build/initialize. Closed, it sends nothing, does not change, and refuses every operation that
    needs the server with the method's own error; open, a request is answered as the connection
    answers, a lost or late or undecodable answer being a typed error of that method; shutdown
    asks for build/shutdown, tells build/exit, in that order, and closes whatever the answers. *)
Theorem session_lifecycle root process config rpc ops :
  let s := session_run ops (session_make root process config rpc) in
  ss_closed s = existsb ends ops ∧
  ss_terminated s = (if existsb ends ops && process then 1%nat else 0%nat) ∧
  (∀ caps, server_capabilities s = Some caps → ∃ r, ib_capabilities r = caps ∧ initialized_with s r) ∧
  (ss_closed s = true → ∀ op, (session_step op s).2 = s ∧ ∀ m, needs op = Some m → (session_step op s).1 = Some (SessionClosed m)) ∧
  (ss_closed s = false →
     (∀ (A : Type) (d : Deserialize A) method params,
        (request (A := A) method params s).1 =
          match (rpc_request method params (cf_request_timeout (ss_config s))
                   (if bool_decide (method ∈ HANDSHAKE_HEARTBEAT_METHODS) then Some (cf_handshake_heartbeat (ss_config s)) else None) (ss_rpc s)).1 with
          | Ok v => match d v with Ok a => Ok a | Err detail => Err (InvalidResponse method detail) end
          | Err CallTimeout => Err (RequestTimeout method (as_u64 (cf_request_timeout (ss_config s))))
          | Err (CallFailed detail) => Err (RequestFailed method detail)
          end) ∧
     ss_closed (shutdown s) = true ∧
     ss_rpc (shutdown s) =
       (rpc_notify (lit "build/exit") VNull (rpc_request (lit "build/shutdown") VNull (cf_shutdown_timeout (ss_config s)) None (ss_rpc s)).2).2).
Proof.
  intros s. destruct (run_ok ops (session_make root process config rpc)) as ([Ht Hi] & Hc & Hp); [by split|]. fold s in Ht, Hi, Hc, Hp. cbn in Hc, Hp.
  rewrite Hc, Hp in Ht. split_and!.
  - done.
  - done.
  - unfold server_capabilities. destruct (ss_initialize_result s) as [r|] eqn:Er; [|done]. intros caps [= <-]. exists r. split; [done|by apply Hi].
  - intros Hcl op. by apply step_closed.
  - intros Ho. split; [|].
    + intros A d method params. unfold request, request_bounded. rewrite Ho. destruct (rpc_request _ _ _ _ _) as [[v|[|e]] w]; [|done..].
      cbn. unfold from_value. by destruct (d v).
    + destruct (shutdown_open s Ho) as (s1 & [w ->] & -> & Hw). unfold close. cbn in *. rewrite Ho. by split.
Qed.
End session.
Arguments BspSession W : clear implicits.
