(* ===== verification/LspDiagnostics.v ===== *)
(** Diagnostics ([ls-server]): the router of the build server's ([diagnostics.rs]) and the layer
    that merges them with those of the presentation compiler, with its debounced pulls
    ([pc_diagnostics.rs]), as the interleaving of the connection's reader thread, the message loop
    and the pull worker; and what the client shows after every prefix of it.

    An [Instant] is an integer. What the presentation compiler and the document store answer to the
    pull worker comes with its steps. The router's mapping of uris is the identity, as [main.rs]
    sets it. *)

From Stdlib Require Import Sorting.Permutation.
From S2P Require Import Prelude RustStr PcPayloads LspDocuments.

Open Scope Z_scope.

(** ** Data ([protocol.rs] of both crates) *)

Inductive DiagnosticCode := CodeInteger (n : Z) | CodeString (s : list Z).
Record Diagnostic := mkDiagnostic {
  dg_range : LspRange; dg_severity : option Z; dg_code : option DiagnosticCode; dg_source : option (list Z); dg_message : list Z }.
Record PublishDiagnosticsParams := mkPublish { pu_uri : list Z; pu_diagnostics : list Diagnostic }.

(** The build server's: signed positions, an optional range. *)
Record BspDiagnostic := mkBspDiagnostic {
  bd_range : option ((Z * Z) * (Z * Z)); bd_severity : option Z; bd_code : option DiagnosticCode; bd_source : option (list Z); bd_message : list Z }.
Record BspPublish := mkBspPublish {
  bp_uri : list Z; bp_build_target : option (list Z); bp_diagnostics : list BspDiagnostic; bp_reset : bool }.

(** ** Conversions *)

Definition to_lsp_severity (bsp : Z) : Z := if (1 <=? bsp) && (bsp <=? 4) then bsp else 3.
Definition ORIGIN_RANGE : LspRange := mkLspRange (mkLspPosition 0 0) (mkLspPosition 0 0).
(** [u32::try_from(n).unwrap_or(0)] of an [i32]. *)
Definition clamp_negative (n : Z) : Z := if 0 <=? n then n else 0.
Definition to_lsp_position (p : Z * Z) : LspPosition := mkLspPosition (clamp_negative p.1) (clamp_negative p.2).
Definition to_lsp_range (r : (Z * Z) * (Z * Z)) : LspRange := mkLspRange (to_lsp_position r.1) (to_lsp_position r.2).
Definition to_lsp_code (c : DiagnosticCode) : DiagnosticCode := match c with CodeInteger i => CodeInteger i | CodeString s => CodeString s end.
Definition to_lsp_diagnostic (d : BspDiagnostic) : Diagnostic :=
  mkDiagnostic (default ORIGIN_RANGE (to_lsp_range <$> bd_range d)) (to_lsp_severity <$> bd_severity d) (to_lsp_code <$> bd_code d)
    (bd_source d) (bd_message d).

Definition PC_DIAGNOSTICS_SOURCE : list Z := lit "scala3-pc (typing)".
Definition pc_to_lsp_diagnostic (d : PcDiagnostic) : Diagnostic :=
  let r := pd_range d in
  mkDiagnostic (mkLspRange (mkLspPosition (rg_start_line r) (rg_start_character r)) (mkLspPosition (rg_end_line r) (rg_end_character r)))
    (if (1 <=? pd_severity d) && (pd_severity d <=? 4) then Some (as_u32 (pd_severity d)) else None)
    (match pd_code d with [] => None | code => Some (CodeString code) end)
    (Some PC_DIAGNOSTICS_SOURCE) (pd_message d).

(** ** The router ([diagnostics.rs]) *)

Abbreviation PerTarget := (list (list Z * list Diagnostic)).
Record DiagnosticRouter := mkRouter {
  ro_by_uri : gmap (list Z) PerTarget;
  ro_published_non_empty : gset (list Z) }.
Definition DiagnosticRouter_new : DiagnosticRouter := mkRouter ∅ ∅.

Definition target_position (target : list Z) (per_target : PerTarget) : option nat := fst <$> list_find (λ e, e.1 = target) per_target.
Definition merge_target (reset : bool) (target : list Z) (incoming : list Diagnostic) (per_target : PerTarget) : PerTarget :=
  let pos := target_position target per_target in
  if reset then
    match pos, incoming with
    | Some i, [] => delete i per_target
    | Some i, _ => alter (λ e, (e.1, incoming)) i per_target
    | None, [] => per_target
    | None, _ => per_target ++ [(target, incoming)]
    end
  else
    match pos with
    | Some i => alter (λ e, (e.1, e.2 ++ incoming)) i per_target
    | None => per_target ++ [(target, incoming)]
    end.
Definition union_of (per_target : PerTarget) : list Diagnostic := concat (snd <$> per_target).

Definition accept (params : BspPublish) (r : DiagnosticRouter) : option PublishDiagnosticsParams * DiagnosticRouter :=
  let file_uri := bp_uri params in
  let target := default [] (bp_build_target params) in
  let incoming := to_lsp_diagnostic <$> bp_diagnostics params in
  let per_target := merge_target (bp_reset params) target incoming (default [] (ro_by_uri r !! file_uri)) in
  match union_of per_target with
  | [] =>
      let r' := mkRouter (delete file_uri (ro_by_uri r)) (ro_published_non_empty r ∖ {[file_uri]}) in
      (if bool_decide (file_uri ∈ ro_published_non_empty r) then Some (mkPublish file_uri []) else None, r')
  | union => (Some (mkPublish file_uri union), mkRouter (<[file_uri := per_target]> (ro_by_uri r)) ({[file_uri]} ∪ ro_published_non_empty r))
  end.

(** ** The layer ([pc_diagnostics.rs]) *)

Record LayerState := mkLayer {
  ly_bsp : gmap (list Z) (list Diagnostic);
  ly_pc : gmap (list Z) (list Diagnostic);
  ly_published_non_empty : gset (list Z) }.
Definition layer_new : LayerState := mkLayer ∅ ∅ ∅.

Definition emit (uri : list Z) (st : LayerState) : list PublishDiagnosticsParams * LayerState :=
  let union := default [] (ly_bsp st !! uri) ++ default [] (ly_pc st !! uri) in
  match union with
  | [] =>
      if bool_decide (uri ∈ ly_published_non_empty st)
      then ([mkPublish uri []], mkLayer (ly_bsp st) (ly_pc st) (ly_published_non_empty st ∖ {[uri]}))
      else ([], st)
  | _ => ([mkPublish uri union], mkLayer (ly_bsp st) (ly_pc st) ({[uri]} ∪ ly_published_non_empty st))
  end.
Definition bsp_published (p : PublishDiagnosticsParams) (st : LayerState) : list PublishDiagnosticsParams * LayerState :=
  let bsp := match pu_diagnostics p with [] => delete (pu_uri p) (ly_bsp st) | ds => <[pu_uri p := ds]> (ly_bsp st) end in
  emit (pu_uri p) (mkLayer bsp (delete (pu_uri p) (ly_pc st)) (ly_published_non_empty st)).
Definition set_pc (uri : list Z) (diagnostics : list Diagnostic) (st : LayerState) : list PublishDiagnosticsParams * LayerState :=
  match diagnostics with
  | [] =>
      match ly_pc st !! uri with
      | None => ([], st)
      | Some _ => emit uri (mkLayer (ly_bsp st) (delete uri (ly_pc st)) (ly_published_non_empty st))
      end
  | _ => emit uri (mkLayer (ly_bsp st) (<[uri := diagnostics]> (ly_pc st)) (ly_published_non_empty st))
  end.
Definition clear_pc (uri : list Z) : LayerState → list PublishDiagnosticsParams * LayerState := set_pc uri [].

(** ** The pull scheduler ([pc_diagnostics.rs]) *)

Definition PC_DIAGNOSTICS_DEBOUNCE : Z := 300.
Record PullShared := mkPullShared {
  pl_due : gmap (list Z) Z; pl_docs : bool; pl_shutting_down : bool; pl_pulls_completed : Z }.
Definition pull_shared_new : PullShared := mkPullShared ∅ false false 0.

Definition pull_schedule (uri : list Z) (now debounce : Z) (sh : PullShared) : PullShared :=
  if pl_shutting_down sh || bool_decide (is_Some (pl_due sh !! uri)) then sh
  else mkPullShared (<[uri := now + debounce]> (pl_due sh)) (pl_docs sh) (pl_shutting_down sh) (pl_pulls_completed sh).
Definition pull_cancel (uri : list Z) (sh : PullShared) : PullShared :=
  mkPullShared (delete uri (pl_due sh)) (pl_docs sh) (pl_shutting_down sh) (pl_pulls_completed sh).
Definition pull_install_docs (sh : PullShared) : PullShared :=
  mkPullShared (pl_due sh) true (pl_shutting_down sh) (pl_pulls_completed sh).
Definition pull_shut_down (sh : PullShared) : PullShared :=
  mkPullShared (pl_due sh) (pl_docs sh) true (pl_pulls_completed sh).

(** The first entry of the least due time, in the map's order. *)
Definition earlier (best : option (list Z * Z)) (e : list Z * Z) : option (list Z * Z) :=
  match best with Some b => if e.2 <? b.2 then Some e else best | None => Some e end.
Definition earliest (due : gmap (list Z) Z) : option (list Z * Z) :=
  foldl earlier None (sort_by (λ a b, str_leb a.1 b.1) (map_to_list due)).

(** What a turn of the worker does: sleep (with the time left, or until notified), return, or pull. *)
Inductive WorkerTurn := TurnSleeps (remaining : option Z) | TurnReturns | TurnPulls (uri : list Z) (docs : bool).
Definition pull_turn (now : Z) (sh : PullShared) : WorkerTurn * PullShared :=
  if pl_shutting_down sh then (TurnReturns, sh)
  else match earliest (pl_due sh) with
       | None => (TurnSleeps None, sh)
       | Some (uri, due) =>
           if now <=? due then (TurnSleeps (Some (due - now)), sh)
           else (TurnPulls uri (pl_docs sh), mkPullShared (delete uri (pl_due sh)) (pl_docs sh) (pl_shutting_down sh) (pl_pulls_completed sh))
       end.
(** One pull. [open1] and [open2] are the two checks that the buffer is open and dirty. *)
Definition pull (uri : list Z) (docs booted open1 : bool) (diagnostics : list PcDiagnostic) (open2 : bool) (st : LayerState)
    : list PublishDiagnosticsParams * LayerState :=
  if negb booted then ([], st)
  else if negb docs then ([], st)
  else if negb open1 then clear_pc uri st
  else if negb open2 then clear_pc uri st
  else set_pc uri (pc_to_lsp_diagnostic <$> diagnostics) st.

(** ** The three threads *)

Record System := mkSystem {
  sy_router : DiagnosticRouter;
  sy_in_flight : option PublishDiagnosticsParams;   (** accepted, not yet handed to the layer *)
  sy_layer : LayerState;
  sy_pulls : PullShared;
  sy_pulling : option (list Z * bool);              (** the pull the worker runs *)
  sy_published : list PublishDiagnosticsParams }.
Definition system_new : System := mkSystem DiagnosticRouter_new None layer_new pull_shared_new None [].

Inductive Event :=
| BuildPublishes (p : BspPublish)                   (** [on_diagnostics]: the router *)
| HandOver                                          (** the layer *)
| Edited (uri : list Z) (now : Z)                   (** [schedule_pc_diagnostics] *)
| Disarmed (uri : list Z)                           (** [clear_pc_diagnostics]: the scheduler *)
| Cleared (uri : list Z)                            (** the layer *)
| DocsInstalled
| Turn (now : Z)                                    (** of the worker *)
| Pulled (booted open1 : bool) (diagnostics : list PcDiagnostic) (open2 : bool)
| ShutDown.

Definition step (e : Event) (s : System) : option System :=
  let '(mkSystem router in_flight layer pulls pulling published) := s in
  match e with
  | BuildPublishes p =>
      match in_flight with
      | Some _ => None
      | None => let '(out, router) := accept p router in Some (mkSystem router out layer pulls pulling published)
      end
  | HandOver =>
      p ← in_flight;
      let '(out, layer) := bsp_published p layer in Some (mkSystem router None layer pulls pulling (published ++ out))
  | Edited uri now => Some (mkSystem router in_flight layer (pull_schedule uri now PC_DIAGNOSTICS_DEBOUNCE pulls) pulling published)
  | Disarmed uri => Some (mkSystem router in_flight layer (pull_cancel uri pulls) pulling published)
  | Cleared uri => let '(out, layer) := clear_pc uri layer in Some (mkSystem router in_flight layer pulls pulling (published ++ out))
  | DocsInstalled => Some (mkSystem router in_flight layer (pull_install_docs pulls) pulling published)
  | Turn now =>
      match pulling with
      | Some _ => None
      | None =>
          let '(turn, pulls) := pull_turn now pulls in
          Some (mkSystem router in_flight layer pulls (match turn with TurnPulls uri docs => Some (uri, docs) | _ => None end) published)
      end
  | Pulled booted open1 diagnostics open2 =>
      '(uri, docs) ← pulling;
      let '(out, layer) := pull uri docs booted open1 diagnostics open2 layer in
      let pulls := mkPullShared (pl_due pulls) (pl_docs pulls) (pl_shutting_down pulls) (pl_pulls_completed pulls + 1) in
      Some (mkSystem router in_flight layer pulls None (published ++ out))
  | ShutDown => Some (mkSystem router in_flight layer (pull_shut_down pulls) pulling published)
  end.

Fixpoint run (es : list Event) (s : System) : option System :=
  match es with [] => Some s | e :: es => s ← step e s; run es s end.

(** ** What the client should show *)

(** A publish replaces what is shown of its file. *)
Definition show (uri : list Z) (shown : list Diagnostic) (p : PublishDiagnosticsParams) : list Diagnostic :=
  if bool_decide (pu_uri p = uri) then pu_diagnostics p else shown.
Definition shown (published : list PublishDiagnosticsParams) (uri : list Z) : list Diagnostic := foldl (show uri) [] published.

(** The build's diagnostics of a file from a target: those since the last reset. *)
Definition since_reset (uri target : list Z) (acc : list Diagnostic) (e : Event) : list Diagnostic :=
  match e with
  | BuildPublishes p =>
      if bool_decide (bp_uri p = uri) && bool_decide (default [] (bp_build_target p) = target) then
        (if bp_reset p then [] else acc) ++ (to_lsp_diagnostic <$> bp_diagnostics p)
      else acc
  | _ => acc
  end.
Definition build_has (es : list Event) (uri target : list Z) : list Diagnostic := foldl (since_reset uri target) [] es.

(** The build's diagnostics of a file: those of each target that has some, in some order of the targets. *)
Definition build_shows (es : list Event) (uri : list Z) (ds : list Diagnostic) : Prop :=
  ∃ targets, NoDup targets ∧ (∀ t, build_has es uri t ≠ [] → t ∈ targets) ∧ ds = concat (build_has es uri <$> targets).

(** What a step makes of the overlay of a file. *)
Definition overlay_after (e : Event) (s : System) (uri : list Z) : option (list Diagnostic) :=
  let before := ly_pc (sy_layer s) !! uri in
  match e with
  | HandOver => if bool_decide (pu_uri <$> sy_in_flight s = Some uri) then None else before
  | Cleared u => if bool_decide (u = uri) then None else before
  | Pulled booted open1 diagnostics open2 =>
      if bool_decide (sy_pulling s = Some (uri, true)) && booted then
        if open1 && open2 && negb (bool_decide (diagnostics = [])) then Some (pc_to_lsp_diagnostic <$> diagnostics) else None
      else before
  | _ => before
  end.

(** ** The targets of a file *)

Fixpoint content (t : list Z) (l : PerTarget) : list Diagnostic :=
  match l with [] => [] | (t', ds) :: l => if decide (t' = t) then ds else content t l end.

Lemma content_app t l1 l2 : content t (l1 ++ l2) = if decide (t ∈ l1.*1) then content t l1 else content t l2.
Proof.
  induction l1 as [|[t' ds] l1 IH]; cbn; [by rewrite decide_False by set_solver|].
  destruct (decide (t' = t)) as [->|Hne]; [by rewrite decide_True by set_solver|]. rewrite IH.
  destruct (decide (t ∈ l1.*1)); [by rewrite decide_True by set_solver|by rewrite decide_False by set_solver].
Qed.
Lemma content_absent t l : t ∉ l.*1 → content t l = [].
Proof. induction l as [|[t' ds] l IH]; cbn; [done|]. intros Hn. rewrite decide_False by set_solver. apply IH. set_solver. Qed.

(** The entry of a target splits the list. *)
Lemma target_position_spec target l :
  match target_position target l with
  | Some i => ∃ l1 ds l2, l = l1 ++ (target, ds) :: l2 ∧ i = length l1 ∧ target ∉ l1.*1
  | None => target ∉ l.*1
  end.
Proof.
  unfold target_position. destruct (list_find _ l) as [[i [t ds]]|] eqn:E; cbn.
  - apply list_find_Some in E as (Hi & Ht & Hlt). cbn in Ht. subst t. exists (take i l), ds, (drop (S i) l). split_and!.
    + symmetry. by apply take_drop_middle.
    + rewrite length_take. apply lookup_lt_Some in Hi. lia.
    + intros [[t' ds'] [-> [j Hj]%list_elem_of_lookup]]%list_elem_of_fmap. apply lookup_take_Some in Hj as [Hj Hji]. by eapply Hlt.
  - apply list_find_None in E. intros [[t' ds'] [-> Hin]]%list_elem_of_fmap. rewrite Forall_forall in E. by apply (E _ Hin).
Qed.

Lemma merge_content reset target incoming l t : NoDup l.*1 →
  NoDup (merge_target reset target incoming l).*1 ∧
  content t (merge_target reset target incoming l) =
    if decide (t = target) then (if reset then [] else content target l) ++ incoming else content t l.
Proof.
  intros Hnd. unfold merge_target. pose proof (target_position_spec target l) as Hpos.
  destruct (target_position target l) as [i|].
  - destruct Hpos as (l1 & ds & l2 & -> & -> & Hn1). rewrite fmap_app in Hnd. cbn in Hnd.
    assert (target ∉ l2.*1) as Hn2. { apply NoDup_app in Hnd as (_ & _ & Hnd). apply NoDup_cons in Hnd. tauto. }
    assert (∀ ds', NoDup (l1 ++ (target, ds') :: l2).*1 ∧ content t (l1 ++ (target, ds') :: l2) = if decide (t = target) then ds' else content t (l1 ++ (target, ds) :: l2)) as Hput.
    { intros ds'. split; [by rewrite fmap_app|]. rewrite !content_app. cbn. destruct (decide (t = target)) as [->|Hne].
      - rewrite decide_False by done. by rewrite decide_True.
      - rewrite !(decide_False (P := target = t)) by congruence. done. }
    assert (content target (l1 ++ (target, ds) :: l2) = ds) as Hold.
    { rewrite content_app, decide_False by done. cbn. by rewrite decide_True. }
    assert (∀ f, alter f (length l1) (l1 ++ (target, ds) :: l2) = l1 ++ f (target, ds) :: l2) as Halter.
    { intros f. rewrite alter_app_r_alt by lia. by rewrite Nat.sub_diag. }
    rewrite Hold. destruct reset; [destruct incoming as [|d incoming]|]; rewrite ?Halter; [|apply Hput..].
    rewrite delete_middle. rewrite fmap_app. split.
    + apply NoDup_app in Hnd as (? & Hdis & Hnd). apply NoDup_cons in Hnd as [? ?]. apply NoDup_app. split_and!; [done| |done]. set_solver.
    + rewrite !content_app. cbn. destruct (decide (t = target)) as [->|Hne].
      * rewrite decide_False by done. by apply content_absent.
      * by rewrite (decide_False (P := target = t)) by congruence.
  - assert (∀ ds', NoDup (l ++ [(target, ds')]).*1 ∧ content t (l ++ [(target, ds')]) = if decide (t = target) then ds' else content t l) as Hput.
    { intros ds'. rewrite fmap_app. split; [apply NoDup_app; split_and!; [done|set_solver|apply NoDup_singleton]|]. rewrite content_app. cbn.
      destruct (decide (t = target)) as [->|Hne]; [by rewrite decide_False, decide_True by done|].
      rewrite (decide_False (P := target = t)) by congruence. destruct (decide (t ∈ l.*1)); [done|]. by rewrite content_absent. }
    rewrite (content_absent target) by done. destruct reset; [destruct incoming as [|d incoming]|]; [|apply Hput..].
    split; [done|]. destruct (decide (t = target)) as [->|]; [by apply content_absent|done].
Qed.

Lemma union_content l : NoDup l.*1 → union_of l = concat ((λ t, content t l) <$> l.*1).
Proof.
  unfold union_of. induction l as [|[t ds] l IH]; cbn; [done|]. intros [Hn Hnd]%NoDup_cons. rewrite decide_True by done. f_equal. rewrite IH by done.
  f_equal. apply list_fmap_ext. intros i t' Ht'. rewrite decide_False; [done|]. intros ->. apply Hn. by eapply list_elem_of_lookup_2.
Qed.

Lemma content_none t l : union_of l = [] → content t l = [].
Proof.
  unfold union_of. induction l as [|[t' ds] l IH]; cbn; [done|]. intros [Hds Hl]%app_eq_nil. destruct (decide (t' = t)); auto.
Qed.

(** ** The router keeps what the build said *)

Definition entries (r : DiagnosticRouter) (uri : list Z) : PerTarget := default [] (ro_by_uri r !! uri).
Record router_ok (es : list Event) (r : DiagnosticRouter) : Prop := {
  ro_nodup : ∀ uri, NoDup (entries r uri).*1;
  ro_content : ∀ uri t, content t (entries r uri) = build_has es uri t;
  ro_shown : ∀ uri, uri ∈ ro_published_non_empty r ↔ union_of (entries r uri) ≠ [] }.

Lemma build_has_snoc es e uri t : build_has (es ++ [e]) uri t = since_reset uri t (build_has es uri t) e.
Proof. unfold build_has. apply foldl_snoc. Qed.

Lemma router_ok_other es e r : (∀ p, e ≠ BuildPublishes p) → router_ok es r → router_ok (es ++ [e]) r.
Proof.
  intros He [Hn Hc Hs]. split; [done| |done]. intros uri t. rewrite build_has_snoc, Hc. destruct e; try done. by edestruct He.
Qed.

Lemma accept_ok es p r : router_ok es r →
  let '(out, r') := accept p r in
  router_ok (es ++ [BuildPublishes p]) r' ∧
  (∀ uri, uri ≠ bp_uri p → entries r' uri = entries r uri) ∧
  match out with
  | Some q => pu_uri q = bp_uri p ∧ pu_diagnostics q = union_of (entries r' (bp_uri p))
  | None => union_of (entries r (bp_uri p)) = union_of (entries r' (bp_uri p))
  end.
Proof.
  intros [Hn Hc Hs]. set (uri := bp_uri p). set (target := default [] (bp_build_target p)). set (incoming := to_lsp_diagnostic <$> bp_diagnostics p).
  set (after := merge_target (bp_reset p) target incoming (entries r uri)).
  assert (∀ t, content t after = since_reset uri t (build_has es uri t) (BuildPublishes p)) as Hafter.
  { intros t. unfold after. rewrite (proj2 (merge_content _ _ _ _ t (Hn uri))). cbn. fold uri target incoming. rewrite bool_decide_eq_true_2 by done. cbn.
    destruct (decide (t = target)) as [->|Hne]; [rewrite bool_decide_eq_true_2 by done|rewrite bool_decide_eq_false_2 by congruence; apply Hc].
    by rewrite Hc. }
  assert (NoDup after.*1) as Hnd. { apply (merge_content _ _ _ _ target (Hn uri)). }
  assert (∀ r' : DiagnosticRouter, entries r' uri = after ∨ (entries r' uri = [] ∧ union_of after = []) → (∀ u, u ≠ uri → entries r' u = entries r u) →
    (uri ∈ ro_published_non_empty r' ↔ union_of after ≠ []) →
    (∀ u, u ≠ uri → u ∈ ro_published_non_empty r' ↔ u ∈ ro_published_non_empty r) → router_ok (es ++ [BuildPublishes p]) r') as Hok.
  { intros r' Huri Hother Hin Hrest. split.
    - intros u. destruct (decide (u = uri)) as [->|]; [destruct Huri as [->|[-> _]]; [done|constructor]|by rewrite Hother].
    - intros u t. rewrite build_has_snoc. destruct (decide (u = uri)) as [->|Hne].
      + rewrite <- Hafter. destruct Huri as [->|[-> Hu]]; [done|]. symmetry. by apply content_none.
      + rewrite Hother by done. cbn. fold uri. rewrite (bool_decide_eq_false_2 (uri = u)) by congruence. apply Hc.
    - intros u. destruct (decide (u = uri)) as [->|Hne]; [|rewrite Hrest, Hother by done; apply Hs].
      rewrite Hin. destruct Huri as [->|[-> ->]]; done. }
  unfold accept. fold uri target incoming (entries r uri) after.
  destruct (union_of after) as [|d union] eqn:Eu.
  - assert (entries (mkRouter (delete uri (ro_by_uri r)) (ro_published_non_empty r ∖ {[uri]})) uri = []) as Hempty.
    { unfold entries. cbn. by rewrite lookup_delete_eq. }
    assert (∀ u, u ≠ uri → entries (mkRouter (delete uri (ro_by_uri r)) (ro_published_non_empty r ∖ {[uri]})) u = entries r u) as Hother.
    { intros u Hu. unfold entries. cbn. by rewrite lookup_delete_ne. }
    split; [apply Hok; [by right|done|cbn; split; [set_solver|done]|cbn; set_solver]|]. split; [done|]. rewrite Hempty. case_bool_decide as Hin; [by split|].
    destruct (union_of (entries r uri)) eqn:E; [done|]. destruct Hin. apply Hs. by rewrite E.
  - assert (entries (mkRouter (<[uri := after]> (ro_by_uri r)) ({[uri]} ∪ ro_published_non_empty r)) uri = after) as Heq.
    { unfold entries. cbn. by rewrite lookup_insert_eq. }
    assert (∀ u, u ≠ uri → entries (mkRouter (<[uri := after]> (ro_by_uri r)) ({[uri]} ∪ ro_published_non_empty r)) u = entries r u) as Hother.
    { intros u Hu. unfold entries. cbn. by rewrite lookup_insert_ne. }
    split; [apply Hok; [by left|done|cbn; split; [done|set_solver]|cbn; set_solver]|]. split; [done|]. rewrite Heq. by rewrite Eu.
Qed.

(** ** The layer publishes what changed *)

Definition merged (st : LayerState) (uri : list Z) : list Diagnostic := default [] (ly_bsp st !! uri) ++ default [] (ly_pc st !! uri).
(** An empty publish clears something. *)
Definition clears_once (published : list PublishDiagnosticsParams) : Prop :=
  ∀ pre p post, published = pre ++ p :: post → pu_diagnostics p = [] → shown pre (pu_uri p) ≠ [].

Record layer_ok (st : LayerState) (published : list PublishDiagnosticsParams) : Prop := {
  lk_merged : ∀ uri, shown published uri = merged st uri;
  lk_shown : ∀ uri, uri ∈ ly_published_non_empty st ↔ shown published uri ≠ [];
  lk_clears : clears_once published }.

Lemma shown_snoc published p uri : shown (published ++ [p]) uri = if bool_decide (pu_uri p = uri) then pu_diagnostics p else shown published uri.
Proof. unfold shown. by rewrite foldl_snoc. Qed.

Lemma clears_snoc published p : clears_once published → (pu_diagnostics p = [] → shown published (pu_uri p) ≠ []) → clears_once (published ++ [p]).
Proof.
  intros Hc Hp pre q post. destruct post as [|x post _] using rev_ind.
  - intros [-> ->]%app_inj_tail. done.
  - rewrite app_comm_cons, app_assoc. intros [-> _]%app_inj_tail. by apply (Hc pre q post).
Qed.

Lemma emit_ok uri st st' published : layer_ok st published → ly_published_non_empty st' = ly_published_non_empty st →
  (∀ u, u ≠ uri → merged st' u = merged st u) →
  let '(out, st'') := emit uri st' in
  layer_ok st'' (published ++ out) ∧ ly_bsp st'' = ly_bsp st' ∧ ly_pc st'' = ly_pc st'.
Proof.
  intros [Hm Hs Hc] Hpne Hother. unfold emit. fold (merged st' uri). destruct (merged st' uri) as [|d ds] eqn:Eu.
  - case_bool_decide as Hin; rewrite Hpne in Hin; (split; [|done]).
    + split.
      * intros u. rewrite shown_snoc. cbn. case_bool_decide as Hu; [by subst|]. by rewrite Hm, <- Hother by congruence.
      * intros u. rewrite shown_snoc. cbn. rewrite Hpne. case_bool_decide as Hu; [set_solver|]. rewrite <- Hs. set_solver.
      * apply clears_snoc; [done|]. intros _. by apply Hs.
    + rewrite app_nil_r. split; [|by rewrite Hpne|done]. intros u. destruct (decide (u = uri)) as [->|]; [|by rewrite Hm, <- Hother].
      rewrite Eu. destruct (shown published uri) eqn:E; [done|]. destruct Hin. apply Hs. by rewrite E.
  - split; [|done]. split.
    + intros u. rewrite shown_snoc. cbn. case_bool_decide as Hu; [by subst|]. by rewrite Hm, <- Hother by congruence.
    + intros u. rewrite shown_snoc. cbn. rewrite Hpne. case_bool_decide as Hu; [set_solver|]. rewrite <- Hs. set_solver.
    + by apply clears_snoc.
Qed.

Lemma bsp_published_ok p st published : layer_ok st published →
  let '(out, st') := bsp_published p st in
  layer_ok st' (published ++ out) ∧ (∀ uri, default [] (ly_bsp st' !! uri) = if bool_decide (pu_uri p = uri) then pu_diagnostics p else default [] (ly_bsp st !! uri)) ∧
  ly_pc st' = delete (pu_uri p) (ly_pc st).
Proof.
  intros Hok. unfold bsp_published. set (bsp := match pu_diagnostics p with [] => _ | _ => _ end).
  assert (∀ uri, default [] (bsp !! uri) = if bool_decide (pu_uri p = uri) then pu_diagnostics p else default [] (ly_bsp st !! uri)) as Hbsp.
  { intros uri. unfold bsp. destruct (pu_diagnostics p); case_bool_decide as Hu; subst; by rewrite ?lookup_delete_eq, ?lookup_delete_ne, ?lookup_insert_eq, ?lookup_insert_ne. }
  pose proof (emit_ok (pu_uri p) st (mkLayer bsp (delete (pu_uri p) (ly_pc st)) (ly_published_non_empty st)) published Hok eq_refl) as He.
  destruct (emit _ _) as [out st']. destruct He as (? & -> & ->); [|done].
  intros u Hu. unfold merged. cbn. rewrite Hbsp, bool_decide_eq_false_2 by congruence. by rewrite lookup_delete_ne.
Qed.

Lemma set_pc_ok uri diagnostics st published : layer_ok st published →
  let '(out, st') := set_pc uri diagnostics st in
  layer_ok st' (published ++ out) ∧ ly_bsp st' = ly_bsp st ∧
  ∀ u, ly_pc st' !! u = if bool_decide (uri = u) then (match diagnostics with [] => None | ds => Some ds end) else ly_pc st !! u.
Proof.
  intros Hok. unfold set_pc. destruct diagnostics as [|d ds].
  - destruct (ly_pc st !! uri) eqn:Eu.
    + pose proof (emit_ok uri st (mkLayer (ly_bsp st) (delete uri (ly_pc st)) (ly_published_non_empty st)) published Hok eq_refl) as He.
      destruct (emit _ _) as [out st']. destruct He as (? & -> & ->); [intros u Hu; unfold merged; cbn; by rewrite lookup_delete_ne|].
      split_and!; [done|done|]. intros u. cbn. case_bool_decide; subst; by rewrite ?lookup_delete_eq, ?lookup_delete_ne.
    + rewrite app_nil_r. split_and!; [done|done|]. intros u. case_bool_decide; by subst.
  - pose proof (emit_ok uri st (mkLayer (ly_bsp st) (<[uri := d :: ds]> (ly_pc st)) (ly_published_non_empty st)) published Hok eq_refl) as He.
    destruct (emit _ _) as [out st']. destruct He as (? & -> & ->); [intros u Hu; unfold merged; cbn; by rewrite lookup_insert_ne|].
    split_and!; [done|done|]. intros u. cbn. case_bool_decide; subst; by rewrite ?lookup_insert_eq, ?lookup_insert_ne.
Qed.

Lemma pull_ok uri docs booted open1 diagnostics open2 st published : layer_ok st published →
  let '(out, st') := pull uri docs booted open1 diagnostics open2 st in
  layer_ok st' (published ++ out) ∧ ly_bsp st' = ly_bsp st ∧
  ∀ u, ly_pc st' !! u =
    if bool_decide (uri = u) && docs && booted then
      if open1 && open2 && negb (bool_decide (diagnostics = [])) then Some (pc_to_lsp_diagnostic <$> diagnostics) else None
    else ly_pc st !! u.
Proof.
  intros Hok. unfold pull, clear_pc. pose proof (set_pc_ok uri [] st published Hok) as Hclear.
  pose proof (set_pc_ok uri (pc_to_lsp_diagnostic <$> diagnostics) st published Hok) as Hset.
  destruct booted; cbn [negb]; [|rewrite app_nil_r; split_and!; [done|done|]; intros u; by rewrite andb_false_r].
  destruct docs; cbn [negb]; [|rewrite app_nil_r; split_and!; [done|done|]; intros u; by rewrite andb_false_r].
  destruct open1; [destruct open2|].
  - cbn [negb]. destruct (set_pc uri (pc_to_lsp_diagnostic <$> diagnostics) st) as [out st']. destruct Hset as (? & ? & Hpc). split_and!; [done|done|].
    intros u. rewrite Hpc, !andb_true_r. case_bool_decide; [|done]. by destruct diagnostics.
  - cbn [negb]. destruct (set_pc uri [] st) as [out st']. destruct Hclear as (? & ? & Hpc). split_and!; [done|done|]. intros u. rewrite Hpc, !andb_true_r. done.
  - cbn [negb]. destruct (set_pc uri [] st) as [out st']. destruct Hclear as (? & ? & Hpc). split_and!; [done|done|]. intros u. rewrite Hpc, !andb_true_r. done.
Qed.

(** ** The pulls *)

Lemma earlier_least l best : match foldl earlier best l with
  | Some b => (best = Some b ∨ b ∈ l) ∧ (∀ e, best = Some e → b.2 ≤ e.2) ∧ (∀ e, e ∈ l → b.2 ≤ e.2)
  | None => best = None ∧ l = []
  end.
Proof.
  revert best. induction l as [|e l IH]; intros best; cbn; [destruct best as [b|]; [split_and!; [by left|by intros ? [= ->]|set_solver]|done]|].
  specialize (IH (earlier best e)). destruct (foldl earlier (earlier best e) l) as [b|]; [|destruct IH as [Hn _]; destruct best; cbn in Hn; [by destruct (_ <? _)|done]].
  destruct IH as (Hin & Hacc & Hl). unfold earlier in *. destruct best as [b0|].
  - destruct (Z.ltb_spec e.2 b0.2) as [Hlt|Hge]; specialize (Hacc _ eq_refl).
    + split_and!; [destruct Hin as [[= ->]|?]; [right; by left|right; by right]|intros ? [= <-]; lia|]. intros x [->|Hx]%elem_of_cons; [done|auto].
    + split_and!; [destruct Hin as [?|?]; [by left|right; by right]|by intros ? [= <-]|]. intros x [->|Hx]%elem_of_cons; [lia|auto].
  - specialize (Hacc _ eq_refl). split_and!; [destruct Hin as [[= ->]|?]; [right; by left|right; by right]|done|].
    intros x [->|Hx]%elem_of_cons; [done|auto].
Qed.

Lemma earliest_spec due : match earliest due with
  | Some (u, d) => due !! u = Some d ∧ ∀ u' d', due !! u' = Some d' → d ≤ d'
  | None => due = ∅
  end.
Proof.
  unfold earliest. set (l := sort_by _ _). assert (∀ e, e ∈ l ↔ due !! e.1 = Some e.2) as Hl.
  { intros [u d]. unfold l. rewrite elem_of_sort_by. apply elem_of_map_to_list. }
  pose proof (earlier_least l None) as He. destruct (foldl earlier None l) as [[u d]|].
  - destruct He as ([?|Hin] & _ & Hmin); [done|]. split; [by apply Hl in Hin|]. intros u' d' Hu. by apply (Hmin (u', d')), Hl.
  - destruct He as [_ ->]. apply map_empty. intros u. destruct (due !! u) as [d|] eqn:E; [|done]. apply (Hl (u, d)) in E. set_solver.
Qed.

(** ** Every interleaving *)

Record system_ok (es : list Event) (s : System) : Prop := {
  sk_router : router_ok es (sy_router s);
  sk_layer : layer_ok (sy_layer s) (sy_published s);
  sk_in_flight : ∀ p, sy_in_flight s = Some p → pu_diagnostics p = union_of (entries (sy_router s) (pu_uri p));
  sk_build : ∀ uri, (∀ p, sy_in_flight s = Some p → pu_uri p ≠ uri) →
    default [] (ly_bsp (sy_layer s) !! uri) = union_of (entries (sy_router s) uri) }.

Lemma system_step_ok es e s s' : system_ok es s → step e s = Some s' → system_ok (es ++ [e]) s'.
Proof.
  intros [Hr Hl Hf Hb] He. destruct s as [router in_flight layer pulls pulling published]. cbn in Hr, Hl, Hf, Hb.
  assert (∀ e, (∀ p, e ≠ BuildPublishes p) → router_ok (es ++ [e]) router) as Hr' by (intros; by apply router_ok_other).
  destruct e as [p| |uri now|uri|uri| |now|booted open1 diagnostics open2|]; cbn -[clear_pc set_pc] in He.
  - destruct in_flight; [done|]. pose proof (accept_ok es p router Hr) as Ha. destruct (accept p router) as [out r']. destruct Ha as (Hr0 & Hother & Hout).
    injection He as <-. clear Hr'. rename Hr0 into Hr'. split; cbn; [done|done| |].
    + intros q ->. destruct Hout as [-> ->]. done.
    + intros uri Huri. rewrite Hb by done. destruct (decide (uri = bp_uri p)) as [->|Hne]; [|by rewrite Hother].
      destruct out as [q|]; [|done]. destruct Hout as [Hq _]. by destruct (Huri q eq_refl).
  - destruct in_flight as [p|]; [|done]. cbn in He. pose proof (bsp_published_ok p layer published Hl) as Hp. destruct (bsp_published p layer) as [out layer'].
    injection He as <-. destruct Hp as (Hl' & Hbsp & _). split; cbn; [by apply Hr'|done|done|]. intros uri _. rewrite Hbsp.
    case_bool_decide as Hu; [subst; by apply Hf|]. apply Hb. by intros q [= <-].
  - injection He as <-. split; cbn; [by apply Hr'|done..].
  - injection He as <-. split; cbn; [by apply Hr'|done..].
  - pose proof (set_pc_ok uri [] layer published Hl) as Hp. unfold clear_pc in He. destruct (set_pc uri [] layer) as [out layer'].
    injection He as <-. destruct Hp as (Hl' & Hbsp & _). split; cbn; [by apply Hr'|done|done|]. by rewrite Hbsp.
  - injection He as <-. split; cbn; [by apply Hr'|done..].
  - destruct pulling; [done|]. destruct (pull_turn now pulls). injection He as <-. split; cbn; [by apply Hr'|done..].
  - destruct pulling as [[uri docs]|]; [|done]. cbn -[pull] in He. pose proof (pull_ok uri docs booted open1 diagnostics open2 layer published Hl) as Hp.
    destruct (pull _ _ _ _ _ _ layer) as [out layer']. injection He as <-. destruct Hp as (Hl' & Hbsp & _). split; cbn; [by apply Hr'|done|done|]. by rewrite Hbsp.
  - injection He as <-. split; cbn; [by apply Hr'|done..].
Qed.

Lemma system_run_ok es s : run es system_new = Some s → system_ok es s.
Proof.
  assert (∀ es done s0 s, system_ok done s0 → run es s0 = Some s → system_ok (done ++ es) s) as Hrun.
  { clear. induction es as [|e es IH]; intros pre s0 s Hok; cbn -[step]; [rewrite app_nil_r; by intros [= <-]|].
    destruct (step e s0) as [s1|] eqn:E; cbn -[step]; [|done]. intros Hs. rewrite cons_middle, app_assoc. eapply IH; [|done]. by eapply system_step_ok. }
  apply (Hrun es []). split; [split| | |]; cbn; try done.
  - intros uri. constructor.
  - split; [done|done|]. by intros [] ? ?.
Qed.

Lemma overlay_ok es s e s' uri : system_ok es s → step e s = Some s' → ly_pc (sy_layer s') !! uri = overlay_after e s uri.
Proof.
  intros [_ Hl _ _] He. destruct s as [router in_flight layer pulls pulling published]. cbn in Hl.
  destruct e as [p| |u now|u|u| |now|booted open1 diagnostics open2|]; cbn -[clear_pc set_pc] in He; unfold overlay_after; cbn [sy_layer sy_in_flight sy_pulling].
  - destruct in_flight; [done|]. destruct (accept p router). by injection He as <-.
  - destruct in_flight as [p|]; [|done]. cbn in He. pose proof (bsp_published_ok p layer published Hl) as Hp. destruct (bsp_published p layer).
    injection He as <-. destruct Hp as (_ & _ & Hpc). cbn. rewrite Hpc. case_bool_decide as Hu.
    + injection Hu as ->. by rewrite lookup_delete_eq.
    + rewrite lookup_delete_ne; [done|]. congruence.
  - by injection He as <-.
  - by injection He as <-.
  - pose proof (set_pc_ok u [] layer published Hl) as Hp. unfold clear_pc in He. destruct (set_pc u [] layer). injection He as <-. by destruct Hp as (_ & _ & ->).
  - by injection He as <-.
  - destruct pulling; [done|]. destruct (pull_turn now pulls). by injection He as <-.
  - destruct pulling as [[u docs]|]; [|done]. cbn -[pull] in He. pose proof (pull_ok u docs booted open1 diagnostics open2 layer published Hl) as Hp.
    destruct (pull _ _ _ _ _ _ layer). injection He as <-. destruct Hp as (_ & _ & ->). cbn.
    replace (bool_decide (Some (u, docs) = Some (uri, true))) with (bool_decide (u = uri) && docs); [done|].
    destruct docs; repeat case_bool_decide; cbn; congruence || done.
  - by injection He as <-.
Qed.

(** C11. What the client shows of a file after any interleaving of the build server's publishes, the
    edits, saves and closes, and the debounced pulls: the build's diagnostics, each target's since
    its last reset with no target missing, then the overlay of the presentation compiler, never one
    without the other; the build's part lags only while a publish of that file is being handed
    over. An empty publish clears something that was shown. The overlay changes only as it should:
    a pull sets it when the compiler was booted and the buffer open and dirty before and after the
    query, clears it when not, and a publish of the build, a save or a close drops it. A worker
    that finds every armed pull due starts the one that has waited longest, whose file is then no
    longer armed. *)
Theorem diagnostics_shown es s : run es system_new = Some s →
  (∀ uri, ∃ build, shown (sy_published s) uri = build ++ default [] (ly_pc (sy_layer s) !! uri) ∧
     ((∀ p, sy_in_flight s = Some p → pu_uri p ≠ uri) → build_shows es uri build)) ∧
  clears_once (sy_published s) ∧
  (∀ e s' uri, step e s = Some s' → ly_pc (sy_layer s') !! uri = overlay_after e s uri) ∧
  (∀ now, sy_pulling s = None → pl_shutting_down (sy_pulls s) = false → pl_due (sy_pulls s) ≠ ∅ →
     (∀ uri due, pl_due (sy_pulls s) !! uri = Some due → due < now) →
     ∃ uri due s', step (Turn now) s = Some s' ∧ pl_due (sy_pulls s) !! uri = Some due ∧
       (∀ uri' due', pl_due (sy_pulls s) !! uri' = Some due' → due ≤ due') ∧
       sy_pulling s' = Some (uri, pl_docs (sy_pulls s)) ∧ pl_due (sy_pulls s') = delete uri (pl_due (sy_pulls s))).
Proof.
  intros Hok%system_run_ok. pose proof Hok as [[Hn Hc _] [Hm _ Hcl] _ Hb]. split_and!.
  - intros uri. exists (default [] (ly_bsp (sy_layer s) !! uri)). split; [apply Hm|]. intros Huri. rewrite (Hb uri Huri).
    exists (entries (sy_router s) uri).*1. split_and!; [done| |].
    + intros t Ht. destruct (decide (t ∈ (entries (sy_router s) uri).*1)) as [|Hnot]; [done|]. destruct Ht. rewrite <- Hc. by apply content_absent.
    + rewrite union_content by done. f_equal. apply list_fmap_ext. intros i t _. apply Hc.
  - done.
  - intros e s' uri. by eapply overlay_ok.
  - intros now Hp Hd Hne Hdue. destruct s as [router in_flight layer pulls pulling published]. cbn in *. rewrite Hp. unfold pull_turn. rewrite Hd.
    pose proof (earliest_spec (pl_due pulls)) as He. destruct (earliest (pl_due pulls)) as [[uri due]|]; [|done]. destruct He as [Hu Hmin].
    rewrite (proj2 (Z.leb_gt now due)) by eauto. exists uri, due. eexists. split; [done|]. split_and!; done.
Qed.

Definition demo_uri : list Z := lit "a".
Definition demo_publish (target message : string) (reset : bool) : BspPublish :=
  mkBspPublish demo_uri (Some (lit target)) [mkBspDiagnostic (Some ((1, 2), (1, -7))) (Some 9) None None (lit message)] reset.
Definition demo_clear (target : string) : BspPublish := mkBspPublish demo_uri (Some (lit target)) [] true.
(** Two targets publish, the buffer is edited and its pull finds something, one target is cleared. *)
Definition demo_events : list Event :=
  [BuildPublishes (demo_publish "t/a" "from-a" true); HandOver; BuildPublishes (demo_publish "t/b" "from-b" false); HandOver;
   DocsInstalled; Edited demo_uri 10; Turn 200; Turn 311;
   Pulled true true [mkPcDiagnostic (mkRng 0 0 0 4) 1 [] (lit "typing")] true; BuildPublishes (demo_clear "t/a")].
Definition demo_messages (s : System) : list (list (list Z)) := (λ p, dg_message <$> pu_diagnostics p) <$> sy_published s.

Lemma diagnostics_shown_witness : ∃ s, run demo_events system_new = Some s ∧
  demo_messages s = [[lit "from-a"]; [lit "from-a"; lit "from-b"]; [lit "from-a"; lit "from-b"; lit "typing"]] ∧
  clears_once (sy_published s).
Proof.
  eexists. split; [vm_compute; reflexivity|]. split; [vm_compute; reflexivity|].
  refine (proj1 (proj2 (diagnostics_shown demo_events _ _))). vm_compute. reflexivity.
Defined.
