(* ===== verification/LspTokens.v ===== *)
(** Semantic tokens ([ls-server]): the line table, positioning and delta encoding of the
    presentation compiler's nodes, the splice between two streams and the conversions of
    [pc_lsp.rs]; the cache of delta bases and the handlers of [services.rs].

    The line index is the class of [LspDocuments]; the JSON that [lsp-types] makes of an answer and
    what it reads a range from are arguments of the handlers, as are the presentation compiler and
    the index gate. *)

From Stdlib Require Import Sorting.Sorted.
From S2P Require Import Prelude RustStr IndexModel Uri PcPayloads LspDocuments LspTransport.

Open Scope Z_scope.

(** ** Positions ([Utf16Lines]) *)

Section lines.
Context `{LineIndexOps}.

Fixpoint starts_loop (fuel : nat) (index : LineIndex) (text : list Z) (line total : Z) : option (list Z) :=
  match fuel with
  | O => None
  | S fuel =>
      match line_range index line with
      | None => Some []
      | Some (a, b) =>
          slice ← str_slice text a b;
          let total := as_u32 (total + as_u32 (measure_utf16 slice)) in
          rest ← starts_loop fuel index text (as_u32 (line + 1)) total;
          Some (total :: rest)
      end
  end.
(** [None] is a panic of the slice; the lines of a text are at most one more than its chars. *)
Definition Utf16Lines_new (text : list Z) : option (list Z) :=
  rest ← starts_loop (S (S (length text))) (line_index_new text) text 0 0;
  Some (0 :: rest).
End lines.

(** [slice::binary_search]: an index of the element, or where to insert it. *)
Definition binary_search (l : list Z) (x : Z) : nat + nat :=
  match list_find (λ y, y = x) l with
  | Some (i, _) => inl i
  | None => inr (length (List.filter (λ y, y <? x) l))
  end.

Definition lines_total (starts : list Z) : Z := List.last starts 0.
Definition lines_position (starts : list Z) (offset : Z) : Z * Z :=
  let offset := Z.min offset (lines_total starts) in
  let line := Nat.min (match binary_search starts offset with inl i => i | inr i => i - 1 end) (length starts - 2) in
  (as_u32 (Z.of_nat line), as_u32 (offset - default 0 (starts !! line))).

(** ** Tokens *)

Record PositionedToken := mkToken { tk_line : Z; tk_start : Z; tk_length : Z; tk_token_type : Z; tk_modifiers : Z }.
Record SemanticToken := mkSemanticToken {
  sk_delta_line : Z; sk_delta_start : Z; sk_length : Z; sk_token_type : Z; sk_token_modifiers_bitset : Z }.
#[export] Instance SemanticToken_eq_dec : EqDecision SemanticToken.
Proof. solve_decision. Defined.

Definition position_node (starts : list Z) (node : SemanticNode) : option PositionedToken :=
  if (0 <=? sn_token_type node) && (sn_start node <? sn_end node) then
    let '(line, start) := lines_position starts (sn_start node) in
    let '(end_line, end_col) := lines_position starts (sn_end node) in
    if negb (end_line =? line) then None
    else Some (mkToken line start (as_u32 (end_col - start)) (as_u32 (sn_token_type node))
                 (if 0 <=? sn_token_modifier node then sn_token_modifier node else 0))
  else None.
Definition token_key (t : PositionedToken) : list Z := [tk_line t; tk_start t; tk_length t].
Definition token_leb (a b : PositionedToken) : bool := lex_leb (token_key a) (token_key b).
Definition positioned (nodes : list SemanticNode) (starts : list Z) : list PositionedToken :=
  sort_by token_leb (omap (position_node starts) nodes).

Fixpoint delta_encode_from (prev_line prev_start : Z) (tokens : list PositionedToken) : list SemanticToken :=
  match tokens with
  | [] => []
  | t :: tokens =>
      let delta_line := as_u32 (tk_line t - prev_line) in
      let delta_start := if delta_line =? 0 then as_u32 (tk_start t - prev_start) else tk_start t in
      mkSemanticToken delta_line delta_start (tk_length t) (tk_token_type t) (tk_modifiers t) ::
      delta_encode_from (tk_line t) (tk_start t) tokens
  end.
Definition delta_encode (tokens : list PositionedToken) : list SemanticToken := delta_encode_from 0 0 tokens.

(** The order of [(u32, u32)]. *)
Definition pair_ltb (a b : Z * Z) : bool := lex_ltb [a.1; a.2] [b.1; b.2].

Section streams.
Context `{LineIndexOps}.

Definition semantic_tokens (nodes : list SemanticNode) (text : list Z) : option (list SemanticToken) :=
  starts ← Utf16Lines_new text;
  Some (delta_encode (positioned nodes starts)).
Definition overlaps (range : LspRange) (t : PositionedToken) : bool :=
  let from := (lp_line (lr_start range), lp_character (lr_start range)) in
  let to := (lp_line (lr_end range), lp_character (lr_end range)) in
  pair_ltb (tk_line t, tk_start t) to && pair_ltb from (tk_line t, as_u32 (tk_start t + tk_length t)).
Definition semantic_tokens_range (nodes : list SemanticNode) (text : list Z) (range : LspRange) : option (list SemanticToken) :=
  starts ← Utf16Lines_new text;
  Some (delta_encode (List.filter (overlaps range) (positioned nodes starts))).
End streams.

(** ** The splice between two streams *)

Record SemanticTokensEdit := mkTokensEdit { se_start : Z; se_delete_count : Z; se_data : list SemanticToken }.

Fixpoint common_prefix (a b : list SemanticToken) : nat :=
  match a, b with
  | x :: a, y :: b => if decide (x = y) then S (common_prefix a b) else O
  | _, _ => O
  end.
Definition semantic_tokens_edits (prev next : list SemanticToken) : list SemanticTokensEdit :=
  let prefix := common_prefix prev next in
  let prev_rest := drop prefix prev in
  let next_rest := drop prefix next in
  let suffix := common_prefix (reverse prev_rest) (reverse next_rest) in
  let deleted := (length prev_rest - suffix)%nat in
  let inserted := take (length next_rest - suffix) next_rest in
  match deleted, inserted with
  | O, [] => []
  | _, _ => [mkTokensEdit (as_u32 (5 * as_u32 (Z.of_nat prefix))) (as_u32 (5 * as_u32 (Z.of_nat deleted))) inserted]
  end.

(** ** The conversions *)

Definition lsp_position (p : Pos) : LspPosition := mkLspPosition (ps_line p) (ps_character p).
Definition lsp_range (r : Rng) : LspRange :=
  mkLspRange (mkLspPosition (rg_start_line r) (rg_start_character r)) (mkLspPosition (rg_end_line r) (rg_end_character r)).
Definition abi_rng (r : LspRange) : Rng :=
  mkRng (lp_line (lr_start r)) (lp_character (lr_start r)) (lp_line (lr_end r)) (lp_character (lr_end r)).
Definition abi_pos (p : LspPosition) : Pos := mkPos (lp_line p) (lp_character p).

#[warnings="-register-all"]
Inductive SelectionRange := mkSelectionRange (range : LspRange) (parent : option SelectionRange).
Definition selection_chain (chain : list Rng) (queried : LspPosition) : SelectionRange :=
  default (mkSelectionRange (mkLspRange queried queried) None)
    (foldl (λ node rng, Some (mkSelectionRange (lsp_range rng) node)) None (rev chain)).

Inductive FoldingRangeKind := FoldComment | FoldImports | FoldRegion.
Record LspFoldingRange := mkLspFolding {
  lf_start_line : Z; lf_start_character : option Z; lf_end_line : Z; lf_end_character : option Z; lf_kind : option FoldingRangeKind }.
Definition folding_range (f : FoldingRange) : LspFoldingRange :=
  let r := fr_range f in
  mkLspFolding (rg_start_line r) (Some (rg_start_character r)) (rg_end_line r) (Some (rg_end_character r))
    (if fr_kind f =? 1 then Some FoldComment else if fr_kind f =? 2 then Some FoldImports else if fr_kind f =? 3 then Some FoldRegion else None).

Inductive InlayHintKind := HintType | HintParameter.
Record LspTextEdit := mkLspTextEdit { le_range : LspRange; le_new_text : list Z }.
Definition text_edit (e : TextEdit) : LspTextEdit := mkLspTextEdit (lsp_range (te_range e)) (te_new_text e).
Definition edit_key (e : LspTextEdit) : list Z :=
  let r := le_range e in [lp_line (lr_start r); lp_character (lr_start r); lp_line (lr_end r); lp_character (lr_end r)].

Section conversions.
(** [parse] of an [lsp_types::Uri], and the JSON of a byte string. *)
Context {LspUri : Type} (parse_uri : list Z → option LspUri) `{SerdeJson}.

Record LspLabelPart := mkLspLabelPart { ll_value : list Z; ll_tooltip : option (list Z); ll_location : option (LspUri * LspRange) }.
Record LspInlayHint := mkLspInlayHint {
  li_position : LspPosition; li_label : list LspLabelPart; li_kind : option InlayHintKind; li_text_edits : option (list LspTextEdit);
  li_padding_left : option bool; li_padding_right : option bool; li_data : option Value }.
Record PcWorkspaceEdit := mkPcWorkspaceEdit { pw_changes : list (LspUri * list LspTextEdit) }.

Definition data_json (b : bytes) : Value := match from_slice b with Ok v => v | Err _ => VString (from_utf8_lossy b) end.
Definition label_part (part : InlayLabelPart) : LspLabelPart :=
  mkLspLabelPart (il_text part) (il_tooltip part)
    ('(uri, rng) ← il_location part; uri ← parse_uri uri; Some (uri, lsp_range rng)).
Definition inlay_hint (hint : InlayHint) : LspInlayHint :=
  mkLspInlayHint (lsp_position (ih_position hint)) (label_part <$> ih_label_parts hint)
    (if ih_kind hint =? 1 then Some HintType else if ih_kind hint =? 2 then Some HintParameter else None)
    ((λ edits : list TextEdit, text_edit <$> edits) <$> ih_text_edits hint)
    (Some (ih_padding_left hint)) (Some (ih_padding_right hint)) (data_json <$> ih_data hint).
Definition pc_workspace_edit (uri : list Z) (edits : list TextEdit) : option PcWorkspaceEdit :=
  uri ← parse_uri uri;
  Some (mkPcWorkspaceEdit [(uri, sort_by (λ a b, lex_leb (edit_key a) (edit_key b)) (text_edit <$> edits))]).
End conversions.

(** ** The delta bases ([SemanticTokensCache]) *)

Definition SEMANTIC_TOKENS_CACHE_CAP : nat := 32.
Record SemanticTokensCacheEntry := mkCacheEntry { ce_counter : Z; ce_data : list SemanticToken }.
Abbreviation SemanticTokensCache := (list (list Z * SemanticTokensCacheEntry)).

Definition cache_position (uri : list Z) (c : SemanticTokensCache) : option (nat * (list Z * SemanticTokensCacheEntry)) :=
  list_find (λ e, e.1 = uri) c.
Definition cache_store (uri : list Z) (data : list SemanticToken) (c : SemanticTokensCache) : list Z * SemanticTokensCache :=
  let '(counter, c) :=
    match cache_position uri c with
    | Some (i, e) => (ce_counter e.2 + 1, delete i c)
    | None => (1, c)
    end in
  let c := c ++ [(uri, mkCacheEntry counter data)] in
  (show_u counter, if (SEMANTIC_TOKENS_CACHE_CAP <? length c)%nat then delete O c else c).
Definition cache_previous (uri previous_result_id : list Z) (c : SemanticTokensCache) : option (list SemanticToken) :=
  match cache_position uri c with
  | Some (_, e) => if str_eqb (show_u (ce_counter e.2)) previous_result_id then Some (ce_data e.2) else None
  | None => None
  end.
Definition cache_drop_uri (uri : list Z) (c : SemanticTokensCache) : SemanticTokensCache :=
  List.filter (λ e, negb (str_eqb e.1 uri)) c.

(** ** The handlers ([services.rs]) *)

Definition text_document_uri (params : Value) : option (list Z) :=
  d ← value_get params (lit "textDocument"); u ← value_get d (lit "uri"); as_str u.
Definition request_failed (id : RequestId) (e : LsError) : Response := failure id (ResponseError_new REQUEST_FAILED (message e)).

Inductive TokensAnswer :=
| FullTokens (result_id : option (list Z)) (data : list SemanticToken)
| TokensDelta (result_id : option (list Z)) (edits : list SemanticTokensEdit).

Section handlers.
Context `{LineIndexOps}.
(** The index gate, the presentation compiler's mirror, the document store, the JSON of an answer
    and [from_value] of a range. *)
Context (require_semanticdb : list Z → result LsError unit) (pc_is_open : list Z → bool) (pc_semantic_tokens : list Z → list SemanticNode).
Context (documents : DocumentStore) (answer_value : TokensAnswer → Value) (range_from : Value → option LspRange).

Definition semantic_tokens_gate (id : RequestId) (params : Value) : result Response (list Z * list SemanticNode * list Z) :=
  match text_document_uri params with
  | None => Err (success id VNull)
  | Some raw =>
      match require_semanticdb raw with
      | Err e => Err (request_failed id e)
      | Ok _ =>
          let uri := normalize_uri raw in
          if negb (pc_is_open uri) then Err (success id VNull)
          else match document_text uri documents with
               | None => Err (success id VNull)
               | Some text => Ok (uri, pc_semantic_tokens uri, text)
               end
      end
  end.

(** What [/full] and [/full/delta] do to the cache. *)
Definition full_answer (uri : list Z) (data : list SemanticToken) (c : SemanticTokensCache) : TokensAnswer * SemanticTokensCache :=
  let '(result_id, c) := cache_store uri data c in (FullTokens (Some result_id) data, c).
Definition delta_answer (uri : list Z) (previous_id : option (list Z)) (data : list SemanticToken) (c : SemanticTokensCache)
    : TokensAnswer * SemanticTokensCache :=
  let previous := previous_id ← previous_id; cache_previous uri previous_id c in
  let '(result_id, c) := cache_store uri data c in
  (match previous with
   | Some previous => TokensDelta (Some result_id) (semantic_tokens_edits previous data)
   | None => FullTokens (Some result_id) data
   end, c).

(** [None] is a panic. *)
Definition semantic_tokens_full (id : RequestId) (params : Value) (c : SemanticTokensCache) : option (Response * SemanticTokensCache) :=
  match semantic_tokens_gate id params with
  | Err response => Some (response, c)
  | Ok (uri, nodes, text) =>
      data ← semantic_tokens nodes text;
      let '(answer, c) := full_answer uri data c in Some (success id (answer_value answer), c)
  end.
Definition semantic_tokens_full_delta (id : RequestId) (params : Value) (c : SemanticTokensCache) : option (Response * SemanticTokensCache) :=
  match semantic_tokens_gate id params with
  | Err response => Some (response, c)
  | Ok (uri, nodes, text) =>
      data ← semantic_tokens nodes text;
      let '(answer, c) := delta_answer uri (v ← value_get params (lit "previousResultId"); as_str v) data c in
      Some (success id (answer_value answer), c)
  end.
Definition semantic_tokens_range_request (id : RequestId) (params : Value) : option Response :=
  match v ← value_get params (lit "range"); range_from v with
  | None => Some (success id VNull)
  | Some range =>
      match semantic_tokens_gate id params with
      | Err response => Some response
      | Ok (_, nodes, text) =>
          data ← semantic_tokens_range nodes text range;
          Some (success id (answer_value (FullTokens None data)))
      end
  end.
End handlers.

(** ** The reference: where a UTF-16 offset of a text lies *)

Fixpoint place (ls : list (list Z)) (offset : Z) : Z * Z :=
  match ls with
  | [] | [_] => (0, offset)
  | l :: rest => if offset <? utf16_len l then (0, offset) else let '(n, c) := place rest (offset - utf16_len l) in (n + 1, c)
  end.
Definition utf16_place (t : list Z) (offset : Z) : Z * Z := place (lines_of t) (Z.min offset (utf16_len t)).

Definition token_of (t : list Z) (node : SemanticNode) : option PositionedToken :=
  if (0 <=? sn_token_type node) && (sn_start node <? sn_end node) then
    let '(line, start) := utf16_place t (sn_start node) in
    let '(end_line, end_col) := utf16_place t (sn_end node) in
    if negb (end_line =? line) then None
    else Some (mkToken line start (end_col - start) (sn_token_type node) (Z.max 0 (sn_token_modifier node)))
  else None.
Definition node_ok (node : SemanticNode) : Prop :=
  inU 32 (sn_start node) ∧ inU 32 (sn_end node) ∧ inS 32 (sn_token_type node) ∧ inS 32 (sn_token_modifier node).

(** How a client reads a stream. *)
Fixpoint absolute (line start : Z) (data : list SemanticToken) : list PositionedToken :=
  match data with
  | [] => []
  | d :: data =>
      let start := if sk_delta_line d =? 0 then start + sk_delta_start d else sk_delta_start d in
      let line := line + sk_delta_line d in
      mkToken line start (sk_length d) (sk_token_type d) (sk_token_modifiers_bitset d) :: absolute line start data
  end.

Fixpoint sums (total : Z) (ls : list (list Z)) : list Z :=
  match ls with [] => [] | l :: ls => (total + utf16_len l) :: sums (total + utf16_len l) ls end.

Section positions.
Context `{LineIndexOk}.

Lemma length_lines_of t : (0 < length (lines_of t) ≤ S (length t))%nat.
Proof.
  induction t as [|c t IH]; cbn; [lia|]. destruct (c =? 10); cbn; [lia|]. destruct (lines_of t); cbn in *; lia.
Qed.

Lemma starts_loop_exact t k fuel : wf_str t → str_len t < 2 ^ 32 - 1 → (k ≤ length (lines_of t))%nat → (length (lines_of t) - k < fuel)%nat →
  starts_loop fuel (line_index_new t) t (Z.of_nat k) (utf16_len (concat (take k (lines_of t)))) =
    Some (sums (utf16_len (concat (take k (lines_of t)))) (drop k (lines_of t))).
Proof.
  intros Hw Ht. revert k. induction fuel as [|fuel IH]; intros k Hk Hf; [lia|]. cbn [starts_loop]. rewrite line_range_ok by (done || lia). rewrite Nat2Z.id.
  destruct (lines_of t !! k) as [l|] eqn:El; cbn [fmap option_fmap option_map].
  - pose proof (line_at _ _ _ El) as Et. rewrite (slice_between t _ l _ Et (line_start_le t k)). cbn [mbind option_bind].
    assert (wf_str l) as Hwl. { rewrite Et in Hw. apply Forall_app in Hw as [_ Hw]. by apply Forall_app in Hw as [Hw _]. }
    rewrite measure_ok by done. assert (concat (take (S k) (lines_of t)) = concat (take k (lines_of t)) ++ l) as Ec.
    { rewrite (take_S_r _ _ _ El), concat_app. cbn. by rewrite app_nil_r. }
    assert (utf16_len (concat (take (S k) (lines_of t))) ≤ str_len t) as Hle.
    { rewrite <- (concat_lines_of t) at 2. rewrite <- (take_drop (S k) (lines_of t)) at 2. rewrite concat_app, str_len_app.
      pose proof (utf16_len_le (concat (take (S k) (lines_of t)))). pose proof (str_len_nonneg (concat (drop (S k) (lines_of t)))). lia. }
    rewrite Ec, utf16_len_app in Hle. pose proof (utf16_len_nonneg l). pose proof (utf16_len_nonneg (concat (take k (lines_of t)))).
    pose proof (length_lines_of t). pose proof (str_len_nonneg t).
    unfold as_u32. rewrite (wrapU_id 32 (utf16_len l)), (wrapU_id 32 (utf16_len (concat (take k (lines_of t))) + utf16_len l)) by (split; lia).
    rewrite <- utf16_len_app, <- Ec. apply lookup_lt_Some in El as Hlt.
    assert (Z.of_nat (length t) ≤ str_len t) as Hlen. { clear. induction t as [|c t IH]; [done|]. rewrite str_len_cons. pose proof (char_len_pos c). cbn [length]. lia. }
    rewrite wrapU_id by (split; lia). replace (Z.of_nat k + 1) with (Z.of_nat (S k)) by lia. rewrite IH by lia. cbn [mbind option_bind].
    rewrite (drop_S _ _ _ El). cbn [sums]. by rewrite <- utf16_len_app, <- Ec.
  - apply lookup_ge_None in El. by rewrite drop_ge.
Qed.

Lemma Utf16Lines_exact t : wf_str t → str_len t < 2 ^ 32 - 1 → Utf16Lines_new t = Some (0 :: sums 0 (lines_of t)).
Proof.
  intros Hw Ht. unfold Utf16Lines_new. pose proof (length_lines_of t).
  pose proof (starts_loop_exact t 0 (S (S (length t))) Hw Ht ltac:(lia) ltac:(lia)) as Hs. rewrite take_0, drop_0 in Hs. cbn [concat] in Hs.
  change (utf16_len []) with 0 in Hs. change (Z.of_nat 0) with 0 in Hs. by rewrite Hs.
Qed.
End positions.

(** Every line but the last has its terminator. *)
Fixpoint inner_lines (ls : list (list Z)) : Prop :=
  match ls with [] | [_] => True | l :: rest => 0 < utf16_len l ∧ inner_lines rest end.

Lemma inner_lines_of t : inner_lines (lines_of t).
Proof.
  induction t as [|c t IH]; cbn [lines_of]; [done|]. pose proof (utf16_width_pos c) as Hc. destruct (c =? 10) eqn:E.
  - pose proof (lines_of_nonempty t). destruct (lines_of t); [done|]. cbn [inner_lines]. split; [rewrite utf16_len_cons; cbn; lia|done].
  - destruct (lines_of t) as [|l [|l' ls]]; [done|done|]. cbn [inner_lines] in *. split; [rewrite utf16_len_cons; pose proof (utf16_len_nonneg l); lia|tauto].
Qed.

Lemma sums_ge b ls : Forall (λ x, b ≤ x) (sums b ls).
Proof.
  revert b. induction ls as [|l ls IH]; intros b; cbn; [constructor|]. pose proof (utf16_len_nonneg l). constructor; [lia|].
  eapply Forall_impl; [apply IH|]. cbn. lia.
Qed.

Lemma length_sums b ls : length (sums b ls) = length ls.
Proof. revert b. induction ls; intros b; cbn; [done|]. by f_equal. Qed.

Lemma last_sums b c ls : List.last (c :: sums b ls) 0 = match ls with [] => c | _ => b + utf16_len (concat ls) end.
Proof.
  revert b c. induction ls as [|l ls IH]; intros b c; [done|]. change (sums b (l :: ls)) with (b + utf16_len l :: sums (b + utf16_len l) ls).
  change (List.last (c :: ?l) 0) with (List.last l 0). rewrite IH. cbn [concat]. rewrite utf16_len_app. destruct ls; cbn; lia.
Qed.

Definition found_line (starts : list Z) (x : Z) : nat :=
  Nat.min (match binary_search starts x with inl i => i | inr i => i - 1 end) (length starts - 2).

Lemma search_above l x : Forall (λ y, x < y) l → list_find (λ y, y = x) l = None ∧ List.filter (λ y, y <? x) l = [].
Proof.
  induction 1 as [|y l Hy _ [IH1 IH2]]; [done|]. cbn [list_find List.filter]. rewrite decide_False by lia. rewrite IH1. split; [done|].
  by rewrite (proj2 (Z.ltb_ge y x)) by lia.
Qed.

Lemma found_line_exact ls b x : ls ≠ [] → inner_lines ls → b ≤ x →
  place ls (x - b) = (Z.of_nat (found_line (b :: sums b ls) x), x - default 0 ((b :: sums b ls) !! found_line (b :: sums b ls) x)).
Proof.
  revert b. induction ls as [|l [|l' rest] IH]; intros b Hne Hin Hb; [done| |].
  { unfold found_line. cbn [length sums]. rewrite Nat.min_0_r. done. }
  destruct Hin as [Hl Hin]. set (b' := b + utf16_len l). set (ls := l' :: rest) in *.
  change (sums b (l :: ls)) with (b' :: sums b' ls). set (starts' := b' :: sums b' ls).
  change (place (l :: ls) (x - b)) with (if x - b <? utf16_len l then (0, x - b) else let '(n, c) := place ls (x - b - utf16_len l) in (n + 1, c)).
  assert (length starts' - 2 = length rest)%nat as Hlen by (unfold starts', ls; cbn; rewrite length_sums; lia).
  destruct (Z.ltb_spec (x - b) (utf16_len l)) as [Hlt|Hge].
  - assert (found_line (b :: starts') x = O) as ->; [|done]. unfold found_line, binary_search. cbn [list_find List.filter].
    destruct (decide (b = x)) as [->|Hbx]; [done|]. destruct (search_above starts' x) as [-> ->]; [|rewrite (proj2 (Z.ltb_lt b x)) by lia; done].
    unfold starts'. constructor; [lia|]. eapply Forall_impl; [apply sums_ge|]. cbn. lia.
  - specialize (IH b' ltac:(done) Hin ltac:(lia)). fold starts' in IH. replace (x - b - utf16_len l) with (x - b') by lia. rewrite IH.
    assert (found_line (b :: starts') x = S (found_line starts' x)) as ->; [|f_equal; lia]. unfold found_line.
    replace (length (b :: starts') - 2)%nat with (S (length starts' - 2)) by (rewrite Hlen; unfold starts', ls; cbn; rewrite length_sums; lia).
    rewrite Nat.succ_min_distr. f_equal. unfold binary_search. cbn [list_find]. rewrite decide_False by lia.
    destruct (list_find (λ y, y = x) starts') as [[i y]|] eqn:Ef; cbn; [done|]. rewrite (proj2 (Z.ltb_lt b x)) by lia. cbn [length].
    assert (b' ≠ x) as Hne'. { intros ->. unfold starts' in Ef. cbn in Ef. by rewrite decide_True in Ef. }
    unfold starts'. cbn [List.filter]. rewrite (proj2 (Z.ltb_lt b' x)) by lia. cbn. lia.
Qed.

Lemma place_bounds ls x : 0 ≤ x → 0 ≤ (place ls x).1 ∧ 0 ≤ (place ls x).2 ≤ x.
Proof.
  revert x. induction ls as [|l [|l' rest] IH]; intros x Hx; [cbn; lia..|].
  change (place (l :: l' :: rest) x) with (if x <? utf16_len l then (0, x) else let '(n, c) := place (l' :: rest) (x - utf16_len l) in (n + 1, c)).
  destruct (Z.ltb_spec x (utf16_len l)); [cbn; lia|]. specialize (IH (x - utf16_len l) ltac:(lia)). pose proof (utf16_len_nonneg l).
  destruct (place (l' :: rest) (x - utf16_len l)). cbn in *. lia.
Qed.

(** On one line, columns are as far apart as offsets. *)
Lemma place_same ls x y : 0 ≤ x → 0 ≤ y → (place ls x).1 = (place ls y).1 → (place ls y).2 - (place ls x).2 = y - x.
Proof.
  revert x y. induction ls as [|l [|l' rest] IH]; intros x y Hx Hy; [done..|].
  assert (∀ z, place (l :: l' :: rest) z = if z <? utf16_len l then (0, z) else ((place (l' :: rest) (z - utf16_len l)).1 + 1, (place (l' :: rest) (z - utf16_len l)).2)) as Hp.
  { intros z. change (place (l :: l' :: rest) z) with (if z <? utf16_len l then (0, z) else let '(n, c) := place (l' :: rest) (z - utf16_len l) in (n + 1, c)).
    destruct (z <? utf16_len l); [done|]. by destruct (place (l' :: rest) (z - utf16_len l)). }
  rewrite !Hp. destruct (Z.ltb_spec x (utf16_len l)), (Z.ltb_spec y (utf16_len l)); cbn [fst snd]; intros Heq; [done|..].
  - pose proof (place_bounds (l' :: rest) (y - utf16_len l)). lia.
  - pose proof (place_bounds (l' :: rest) (x - utf16_len l)). lia.
  - specialize (IH (x - utf16_len l) (y - utf16_len l)). lia.
Qed.

Lemma str_len_length t : Z.of_nat (length t) ≤ str_len t.
Proof. induction t as [|c t IH]; [done|]. rewrite str_len_cons. pose proof (char_len_pos c). cbn [length]. lia. Qed.

Lemma lines_position_exact t offset : str_len t < 2 ^ 32 → 0 ≤ offset → lines_position (0 :: sums 0 (lines_of t)) offset = utf16_place t offset.
Proof.
  intros Ht Ho. unfold lines_position, lines_total, utf16_place. rewrite last_sums, concat_lines_of. pose proof (length_lines_of t) as Hlen.
  pose proof (lines_of_nonempty t) as Hne. assert (match lines_of t with [] => 0 | _ :: _ => 0 + utf16_len t end = utf16_len t) as -> by (by destruct (lines_of t)).
  set (x := Z.min offset (utf16_len t)). pose proof (utf16_len_nonneg t). pose proof (utf16_len_le t). pose proof (str_len_length t).
  pose proof (found_line_exact (lines_of t) 0 x Hne (inner_lines_of t) ltac:(lia)) as Hf. rewrite Z.sub_0_r in Hf.
  fold (found_line (0 :: sums 0 (lines_of t)) x). pose proof (place_bounds (lines_of t) x ltac:(lia)) as Hb. rewrite Hf in *. cbn [fst snd] in Hb.
  unfold as_u32. rewrite (wrapU_id 32 (x - _)) by (split; lia). rewrite wrapU_id; [done|]. split; [lia|].
  assert (found_line (0%Z :: sums 0 (lines_of t)) x ≤ length (lines_of t) - 1)%nat; [|lia].
  unfold found_line. cbn [length]. rewrite length_sums. lia.
Qed.

(** ** Tokens and streams *)

Lemma token_of_node t node : str_len t < 2 ^ 32 → node_ok node → position_node (0 :: sums 0 (lines_of t)) node = token_of t node.
Proof.
  intros Ht (Hs & He & Hty & Hm). unfold position_node, token_of. destruct (Z.leb_spec 0 (sn_token_type node)); [cbn [andb]|done].
  destruct (Z.ltb_spec (sn_start node) (sn_end node)) as [Hlt|]; [|done]. unfold inU, inS in *.
  rewrite !lines_position_exact by lia. unfold utf16_place. pose proof (utf16_len_nonneg t). pose proof (utf16_len_le t).
  set (x := Z.min (sn_start node) _). set (y := Z.min (sn_end node) _).
  pose proof (place_bounds (lines_of t) x ltac:(lia)) as Hx. pose proof (place_bounds (lines_of t) y ltac:(lia)) as Hy.
  assert ((place (lines_of t) y).1 = (place (lines_of t) x).1 → (place (lines_of t) x).2 ≤ (place (lines_of t) y).2) as Hmono.
  { intros Heq. pose proof (place_same (lines_of t) x y ltac:(lia) ltac:(lia) (eq_sym Heq)). lia. }
  destruct (place (lines_of t) x) as [line start], (place (lines_of t) y) as [line' last]. cbn [fst snd] in *.
  destruct (Z.eqb_spec line' line) as [->|]; [cbn [negb]|done]. specialize (Hmono eq_refl). unfold as_u32. rewrite !wrapU_id by (split; lia).
  do 2 f_equal. destruct (Z.leb_spec 0 (sn_token_modifier node)); lia.
Qed.

Lemma token_leb_order a b : token_leb a b = true → tk_line a < tk_line b ∨ (tk_line a = tk_line b ∧ tk_start a ≤ tk_start b).
Proof.
  unfold token_leb, token_key, lex_leb. cbn [lex_cmp]. destruct (Z.compare_spec (tk_line a) (tk_line b)); [|lia|done].
  destruct (Z.compare_spec (tk_start a) (tk_start b)); [lia|lia|done].
Qed.

Definition token_ok (t : PositionedToken) : Prop := inU 32 (tk_line t) ∧ inU 32 (tk_start t).

Lemma delta_encode_reads pl ps tokens : 0 ≤ pl → 0 ≤ ps → Forall token_ok tokens → StronglySorted (λ a b, token_leb a b = true) tokens →
  Forall (λ t, pl < tk_line t ∨ (pl = tk_line t ∧ ps ≤ tk_start t)) tokens →
  absolute pl ps (delta_encode_from pl ps tokens) = tokens.
Proof.
  intros Hpl Hps Hok Hs. revert pl ps Hpl Hps. induction Hs as [|t tokens Hs IH Ht]; intros pl ps Hpl Hps Hge; [done|].
  apply Forall_cons in Hok as [[Hl Hc] Hok]. apply Forall_cons in Hge as [Hge _]. unfold inU in *. cbn [delta_encode_from absolute].
  unfold as_u32. rewrite wrapU_id by (split; lia). cbn [sk_delta_line sk_delta_start sk_length sk_token_type sk_token_modifiers_bitset].
  assert ((if tk_line t - pl =? 0 then ps + (if tk_line t - pl =? 0 then wrapU 32 (tk_start t - ps) else tk_start t)
           else if tk_line t - pl =? 0 then wrapU 32 (tk_start t - ps) else tk_start t) = tk_start t) as ->.
  { destruct (Z.eqb_spec (tk_line t - pl) 0); [|done]. rewrite wrapU_id by (split; lia). lia. }
  replace (pl + (tk_line t - pl)) with (tk_line t) by lia. rewrite IH; [by destruct t|done|lia|lia|].
  eapply Forall_impl; [exact Ht|]. intros t' Hle%token_leb_order. lia.
Qed.

Lemma filter_sorted {A : Type} (R : A → A → Prop) (f : A → bool) l : StronglySorted R l → StronglySorted R (List.filter f l).
Proof.
  induction 1 as [|x l _ IH Hx]; cbn; [constructor|]. destruct (f x); [|done]. constructor; [done|]. rewrite Forall_forall in *.
  intros y [Hy _]%list_elem_of_In%filter_In. by apply Hx, list_elem_of_In.
Qed.

(** ** The splice *)

Definition words (d : SemanticToken) : list Z := [sk_delta_line d; sk_delta_start d; sk_length d; sk_token_type d; sk_token_modifiers_bitset d].
Definition flat (data : list SemanticToken) : list Z := concat (words <$> data).
(** How a client applies an edit. *)
Definition splice (data : list Z) (e : SemanticTokensEdit) : list Z :=
  take (Z.to_nat (se_start e)) data ++ flat (se_data e) ++ drop (Z.to_nat (se_start e + se_delete_count e)) data.

Lemma flat_app a b : flat (a ++ b) = flat a ++ flat b.
Proof. unfold flat. by rewrite fmap_app, concat_app. Qed.
Lemma length_flat a : length (flat a) = (5 * length a)%nat.
Proof. unfold flat. induction a; cbn in *; lia. Qed.

Lemma common_prefix_spec a b : let k := common_prefix a b in take k a = take k b ∧ (k ≤ length a)%nat ∧ (k ≤ length b)%nat.
Proof.
  revert b. induction a as [|x a IH]; intros [|y b]; cbn; try (split_and!; (done || lia)).
  destruct (decide (x = y)) as [->|]; [|split_and!; [done|lia|lia]]. destruct (IH b) as (Hk & ? & ?). cbn [take]. split_and!; [by f_equal|lia|lia].
Qed.
Lemma common_prefix_app p a b : (length p ≤ common_prefix (p ++ a) (p ++ b))%nat.
Proof. induction p as [|x p IH]; cbn; [lia|]. rewrite decide_True by done. lia. Qed.

(** What the two streams share, and the splice between. *)
Lemma edits_spec prev next : ∃ p deleted inserted q,
  prev = p ++ deleted ++ q ∧ next = p ++ inserted ++ q ∧
  semantic_tokens_edits prev next =
    match deleted, inserted with
    | [], [] => []
    | _, _ => [mkTokensEdit (as_u32 (5 * as_u32 (zlen p))) (as_u32 (5 * as_u32 (zlen deleted))) inserted]
    end ∧
  (∀ p' m n q', prev = p' ++ m ++ q' → next = p' ++ n ++ q' → (length deleted ≤ length m)%nat ∧ (length inserted ≤ length n)%nat).
Proof.
  unfold semantic_tokens_edits. pose proof (common_prefix_spec prev next) as (Hp & Hpa & Hpb). set (k := common_prefix prev next) in *.
  set (a := drop k prev). set (b := drop k next). pose proof (common_prefix_spec (reverse a) (reverse b)) as (Hs & Hsa & Hsb).
  set (s := common_prefix (reverse a) (reverse b)) in *. rewrite length_reverse in Hsa, Hsb.
  rewrite !take_reverse in Hs. apply (inj reverse) in Hs.
  exists (take k prev), (take (length a - s) a), (take (length b - s) b), (drop (length a - s) a). split_and!.
  - rewrite take_drop. unfold a. by rewrite take_drop.
  - rewrite Hs, Hp, take_drop. unfold b. by rewrite take_drop.
  - unfold zlen. rewrite !length_take, Nat.min_l, (Nat.min_l (length a - s)) by lia. fold a b.
    destruct (length a - s)%nat eqn:E; cbn [take]; [done|]. by destruct a.
  - intros p' m n q' Ea Eb.
    assert (length p' ≤ k)%nat as Hk. { unfold k. rewrite Ea, Eb. apply common_prefix_app. }
    assert (length a = length prev - k ∧ length b = length next - k)%nat as [Hla Hlb] by (unfold a, b; rewrite !length_drop; lia).
    assert (length prev = length p' + length m + length q' ∧ length next = length p' + length n + length q')%nat as [Hlp Hln] by (rewrite Ea, Eb, !length_app; lia).
    assert (Nat.min (length q') (Nat.min (length a) (length b)) ≤ s)%nat as Hq.
    { unfold s. set (j := Nat.min (length q') (Nat.min (length a) (length b))).
      set (z := drop (length q' - j) q'). assert (length z = j) as Hz by (unfold z; rewrite length_drop; lia).
      assert (∀ l r, l = p' ++ r ++ q' → (k + j ≤ length l)%nat → ∃ y, drop k l = y ++ z) as Hsuffix.
      { intros l r El Hl. exists (drop k (p' ++ r ++ take (length q' - j) q')). rewrite El, <- drop_app_le.
        - f_equal. rewrite <- !app_assoc. unfold z. by rewrite take_drop.
        - rewrite El in Hl. rewrite !length_app, length_take in *. lia. }
      destruct (Hsuffix prev m Ea ltac:(lia)) as [ya Eya], (Hsuffix next n Eb ltac:(lia)) as [yb Eyb]. unfold a, b. rewrite Eya, Eyb, !reverse_app.
      rewrite <- Hz, <- length_reverse. apply common_prefix_app. }
    rewrite !length_take. lia.
Qed.

Lemma edits_apply prev next : zlen prev * 5 < 2 ^ 32 → foldl splice (flat prev) (semantic_tokens_edits prev next) = flat next.
Proof.
  intros Hlen. destruct (edits_spec prev next) as (p & deleted & inserted & q & Ep & En & -> & _).
  assert (foldl splice (flat prev) [mkTokensEdit (as_u32 (5 * as_u32 (zlen p))) (as_u32 (5 * as_u32 (zlen deleted))) inserted] = flat next) as Hone.
  { cbn [foldl]. unfold splice. cbn [se_start se_delete_count se_data]. rewrite Ep in Hlen. rewrite !zlen_app in Hlen.
    pose proof (zlen_nonneg p). pose proof (zlen_nonneg deleted). pose proof (zlen_nonneg q). unfold as_u32. rewrite (wrapU_id 32 (zlen p)), (wrapU_id 32 (zlen deleted)), !wrapU_id by (split; lia).
    replace (Z.to_nat (5 * zlen p)) with (length (flat p)) by (rewrite length_flat; unfold zlen; lia).
    replace (Z.to_nat (5 * zlen p + 5 * zlen deleted)) with (length (flat (p ++ deleted))) by (rewrite length_flat, length_app; unfold zlen; lia).
    rewrite Ep, En, (flat_app p (inserted ++ q)), (flat_app inserted). f_equal; [rewrite flat_app; apply take_app_length|]. f_equal.
    rewrite app_assoc, (flat_app (p ++ deleted)). apply drop_app_length. }
  destruct deleted, inserted; [by subst|exact Hone..].
Qed.

(** ** The bases a client holds *)

Lemma cache_position_spec uri c : match cache_position uri c with
  | Some (i, e) => ∃ c1 c2, c = c1 ++ e :: c2 ∧ i = length c1 ∧ e.1 = uri
  | None => uri ∉ c.*1
  end.
Proof.
  unfold cache_position. destruct (list_find _ c) as [[i e]|] eqn:E.
  - apply list_find_Some in E as (Hi & He & _). exists (take i c), (drop (S i) c). split_and!; [symmetry; by apply take_drop_middle| |done].
    rewrite length_take. apply lookup_lt_Some in Hi. lia.
  - apply list_find_None in E. intros [e [-> He]]%list_elem_of_fmap. rewrite Forall_forall in E. by apply (E e).
Qed.

Definition cache_holds (c : SemanticTokensCache) (uri : list Z) (e : SemanticTokensCacheEntry) : Prop := (uri, e) ∈ c.

(** A store holds the new stream of its file, or nothing of it, and of the others no more than before. *)
Lemma cache_store_holds uri data c : NoDup c.*1 →
  let '(id, c') := cache_store uri data c in
  NoDup c'.*1 ∧ (∀ e, cache_holds c' uri e → show_u (ce_counter e) = id ∧ ce_data e = data) ∧
  (∀ u e, u ≠ uri → cache_holds c' u e → cache_holds c u e).
Proof.
  intros Hnd. unfold cache_store.
  assert (∀ counter c1, NoDup c1.*1 → uri ∉ c1.*1 → (∀ x, x ∈ c1 → x ∈ c) →
    let c' := if (SEMANTIC_TOKENS_CACHE_CAP <? length (c1 ++ [(uri, mkCacheEntry counter data)]))%nat then delete O (c1 ++ [(uri, mkCacheEntry counter data)]) else c1 ++ [(uri, mkCacheEntry counter data)] in
    NoDup c'.*1 ∧ (∀ e, cache_holds c' uri e → show_u (ce_counter e) = show_u counter ∧ ce_data e = data) ∧ (∀ u e, u ≠ uri → cache_holds c' u e → cache_holds c u e)) as Hput.
  { intros counter c1 Hnd1 Hun Hsub c'. assert (∀ x, x ∈ c' → x ∈ c1 ∨ x = (uri, mkCacheEntry counter data)) as Hc'.
    { intros x Hx. assert (x ∈ c1 ++ [(uri, mkCacheEntry counter data)]) as Hx'.
      { unfold c' in Hx. destruct (_ <? _)%nat; [|done]. destruct (c1 ++ _); cbn in Hx; [done|by right]. }
      apply elem_of_app in Hx' as [?|?%list_elem_of_singleton]; auto. }
    split_and!.
    - assert (NoDup (c1 ++ [(uri, mkCacheEntry counter data)]).*1) as Hall.
      { rewrite fmap_app. apply NoDup_app. split_and!; [done| |apply NoDup_singleton]. intros x Hx ->%list_elem_of_singleton. done. }
      unfold c'. destruct (_ <? _)%nat; [|done]. destruct (c1 ++ _); [constructor|]. by apply NoDup_cons in Hall as [_ Hall].
    - intros e [Hin|[= ->]]%Hc'; [|done]. destruct Hun. by apply (list_elem_of_fmap_2 fst c1 (uri, e)).
    - intros u e Hu [Hin|[= ? _]]%Hc'; [by apply Hsub|done]. }
  pose proof (cache_position_spec uri c) as Hpos. destruct (cache_position uri c) as [[i e]|].
  - destruct Hpos as (c1 & c2 & -> & -> & He). rewrite delete_middle. apply Hput.
    + rewrite fmap_app in *. apply NoDup_app in Hnd as (? & ? & [? ?]%NoDup_cons). apply NoDup_app. split_and!; [done|set_solver|done].
    + rewrite fmap_app in *. apply NoDup_app in Hnd as (? & Hdis & [? ?]%NoDup_cons). subst uri. set_solver.
    + set_solver.
  - by apply Hput.
Qed.

Lemma cache_previous_holds uri id c data : cache_previous uri id c = Some data → ∃ e, cache_holds c uri e ∧ ce_data e = data ∧ show_u (ce_counter e) = id.
Proof.
  unfold cache_previous. pose proof (cache_position_spec uri c) as Hpos. destruct (cache_position uri c) as [[i [u e]]|]; [|done].
  destruct Hpos as (c1 & c2 & -> & _ & Hu). cbn in *. destruct (str_eqb _ id) eqn:E; [|done]. intros [= <-]. exists e. subst u. split; [|split; [done|by apply str_eqb_true]].
  unfold cache_holds. set_solver.
Qed.

(** A client that holds the last answer of each file, over its requests and closes. *)
Inductive TokensEvent :=
| AskFull (uri : list Z) (data : list SemanticToken)
| AskDelta (uri : list Z) (data : list SemanticToken)
| CloseBuffer (uri : list Z).
Abbreviation Held := (gmap (list Z) (list Z * list Z)).
Definition receive (uri : list Z) (answer : TokensAnswer) (held : Held) : Held :=
  match answer with
  | FullTokens id data => <[uri := (default [] id, flat data)]> held
  | TokensDelta id edits => <[uri := (default [] id, foldl splice (default [] (snd <$> held !! uri)) edits)]> held
  end.
Definition tokens_step (s : SemanticTokensCache * Held) (e : TokensEvent) : SemanticTokensCache * Held :=
  let '(c, held) := s in
  match e with
  | AskFull uri data => let '(answer, c) := full_answer uri data c in (c, receive uri answer held)
  | AskDelta uri data => let '(answer, c) := delta_answer uri (fst <$> held !! uri) data c in (c, receive uri answer held)
  | CloseBuffer uri => (cache_drop_uri uri c, delete uri held)
  end.
Definition tokens_run (es : list TokensEvent) : SemanticTokensCache * Held := foldl tokens_step ([], ∅) es.
(** The streams of the buffers still open. *)
Definition latest_step (m : gmap (list Z) (list SemanticToken)) (e : TokensEvent) : gmap (list Z) (list SemanticToken) :=
  match e with AskFull uri data | AskDelta uri data => <[uri := data]> m | CloseBuffer uri => delete uri m end.
Definition latest (es : list TokensEvent) : gmap (list Z) (list SemanticToken) := foldl latest_step ∅ es.
Definition event_data (e : TokensEvent) : list SemanticToken := match e with AskFull _ data | AskDelta _ data => data | CloseBuffer _ => [] end.

Record held_ok (m : gmap (list Z) (list SemanticToken)) (s : SemanticTokensCache * Held) : Prop := {
  hd_nodup : NoDup s.1.*1;
  hd_cache : ∀ uri e, cache_holds s.1 uri e → s.2 !! uri = Some (show_u (ce_counter e), flat (ce_data e));
  hd_small : ∀ uri e, cache_holds s.1 uri e → zlen (ce_data e) * 5 < 2 ^ 32;
  hd_held : ∀ uri, snd <$> s.2 !! uri = flat <$> m !! uri }.

Lemma answered_ok m c held uri data answer id c' : held_ok m (c, held) → zlen data * 5 < 2 ^ 32 → cache_store uri data c = (id, c') →
  (∃ f, receive uri answer held = <[uri := (id, f)]> held ∧ f = flat data) → held_ok (<[uri := data]> m) (c', receive uri answer held).
Proof.
  intros [Hnd Hc Hsm Hh] Hlen Hst (f & -> & ->). pose proof (cache_store_holds uri data c Hnd) as Hs. rewrite Hst in Hs. destruct Hs as (Hnd' & Hown & Hoth).
  cbn in *. split; cbn; [done| | |].
  - intros u e He. destruct (decide (u = uri)) as [->|Hne]; [rewrite lookup_insert_eq; destruct (Hown e He) as [-> ->]; done|].
    rewrite lookup_insert_ne by done. auto.
  - intros u e He. destruct (decide (u = uri)) as [->|Hne]; [by destruct (Hown e He) as [_ ->]|]. by apply (Hsm u e), Hoth.
  - intros u. destruct (decide (u = uri)) as [->|Hne]; [by rewrite !lookup_insert_eq|]. rewrite !lookup_insert_ne by done. apply Hh.
Qed.

Lemma tokens_step_ok m s e : held_ok m s → zlen (event_data e) * 5 < 2 ^ 32 → held_ok (latest_step m e) (tokens_step s e).
Proof.
  destruct s as [c held]. intros Hok Hlen. destruct e as [uri data|uri data|uri]; cbn [tokens_step latest_step event_data] in *.
  - unfold full_answer. destruct (cache_store uri data c) as [id c'] eqn:Est. eapply answered_ok; [done..|]. eauto.
  - unfold delta_answer. destruct (cache_store uri data c) as [id c'] eqn:Est.
    destruct (previous_id ← fst <$> held !! uri; cache_previous uri previous_id c) as [prev|] eqn:Ep; (eapply answered_ok; [done..|]); cbn [receive]; eexists; (split; [done|]); [|done].
    destruct (held !! uri) as [[hid hflat]|] eqn:Eh; cbn in Ep; [|done]. apply cache_previous_holds in Ep as (e & He & <- & Hid).
    destruct Hok as [_ Hc Hsm _]. specialize (Hc uri e He). specialize (Hsm uri e He). cbn in Hc. rewrite Eh in Hc. injection Hc as _ ->. cbn. by apply edits_apply.
  - destruct Hok as [Hnd Hc Hsm Hh]. assert (∀ u e, cache_holds (cache_drop_uri uri c) u e → cache_holds c u e ∧ u ≠ uri) as Hdrop.
    { intros u e [Hin Hu]%list_elem_of_In%filter_In. cbn in Hu. split; [by apply list_elem_of_In|]. intros ->. by rewrite (proj2 (str_eqb_true uri uri) eq_refl) in Hu. }
    split; cbn in *.
    + unfold cache_drop_uri. clear -Hnd. induction c as [|x c IH]; cbn in *; [constructor|]. apply NoDup_cons in Hnd as [Hx Hnd].
      destruct (negb _); [|by apply IH]. cbn. apply NoDup_cons. split; [|by apply IH]. intros [y [Ey Hy]]%list_elem_of_fmap. apply Hx. rewrite Ey.
      apply list_elem_of_fmap_2. by apply list_elem_of_In, filter_In in Hy as [Hy%list_elem_of_In _].
    + intros u e [He Hne]%Hdrop. rewrite lookup_delete_ne by done. auto.
    + intros u e [He Hne]%Hdrop. eauto.
    + intros u. destruct (decide (u = uri)) as [->|Hne]; [by rewrite !lookup_delete_eq|]. rewrite !lookup_delete_ne by done. apply Hh.
Qed.

Lemma place_sums ls x : 0 ≤ x → utf16_len (concat (take (Z.to_nat (place ls x).1) ls)) + (place ls x).2 = x.
Proof.
  revert x. induction ls as [|l [|l' rest] IH]; intros x Hx; [done..|].
  change (place (l :: l' :: rest) x) with (if x <? utf16_len l then (0, x) else let '(n, c) := place (l' :: rest) (x - utf16_len l) in (n + 1, c)).
  destruct (Z.ltb_spec x (utf16_len l)); [done|]. specialize (IH (x - utf16_len l) ltac:(lia)).
  pose proof (place_bounds (l' :: rest) (x - utf16_len l) ltac:(lia)) as Hb. destruct (place (l' :: rest) (x - utf16_len l)) as [n c]. cbn [fst snd] in *.
  replace (Z.to_nat (n + 1)) with (S (Z.to_nat n)) by lia. change (take (S (Z.to_nat n)) (l :: l' :: rest)) with (l :: take (Z.to_nat n) (l' :: rest)).
  cbn [concat]. rewrite utf16_len_app. lia.
Qed.

(** Where a UTF-16 offset of a text lies: the units before its line and the column. *)
Lemma utf16_place_offset t x : 0 ≤ x → utf16_len (take (line_start t (Z.to_nat (utf16_place t x).1)) t) + (utf16_place t x).2 = Z.min x (utf16_len t).
Proof.
  intros Hx. unfold utf16_place. pose proof (utf16_len_nonneg t). set (y := Z.min x (utf16_len t)). set (n := Z.to_nat (place (lines_of t) y).1).
  assert (take (line_start t n) t = concat (take n (lines_of t))) as ->.
  { unfold line_start. rewrite <- (concat_lines_of t) at 2. rewrite <- (take_drop n (lines_of t)) at 2. rewrite concat_app. apply take_app_length. }
  apply place_sums. lia.
Qed.

Lemma token_covers t node tk : node_ok node → token_of t node = Some tk →
  let before := utf16_len (take (line_start t (Z.to_nat (tk_line tk))) t) in
  before + tk_start tk = Z.min (sn_start node) (utf16_len t) ∧ before + tk_start tk + tk_length tk = Z.min (sn_end node) (utf16_len t).
Proof.
  intros (Hs & He & _) Htk. unfold inU in *. pose proof (utf16_place_offset t (sn_start node) ltac:(lia)) as Hps. pose proof (utf16_place_offset t (sn_end node) ltac:(lia)) as Hpe.
  unfold token_of in Htk. destruct (_ && _); [|done]. destruct (utf16_place t (sn_start node)) as [line start], (utf16_place t (sn_end node)) as [line' last].
  destruct (Z.eqb_spec line' line) as [->|]; [|done]. injection Htk as <-. cbn in *. lia.
Qed.

Lemma positioned_exact t nodes : str_len t < 2 ^ 32 → Forall node_ok nodes →
  positioned nodes (0 :: sums 0 (lines_of t)) = sort_by token_leb (omap (token_of t) nodes).
Proof.
  intros Ht Hn. unfold positioned. f_equal. induction Hn as [|node nodes Hok _ IH]; cbn; [done|]. rewrite token_of_node by done. by rewrite IH.
Qed.

Lemma delta_encode_ok t l : str_len t < 2 ^ 32 → StronglySorted (λ a b, token_leb a b = true) l →
  (∀ tk, tk ∈ l → ∃ node, node_ok node ∧ token_of t node = Some tk) → absolute 0 0 (delta_encode l) = l.
Proof.
  intros Ht Hs Hl.
  assert (∀ tk, tk ∈ l → token_ok tk) as Hok.
  { intros tk (node & (Hs' & He & _) & Htk)%Hl. unfold inU, token_of in *. destruct (_ && _); [|done]. pose proof (utf16_len_nonneg t). pose proof (utf16_len_le t).
    unfold utf16_place in Htk. pose proof (place_bounds (lines_of t) (Z.min (sn_start node) (utf16_len t)) ltac:(lia)) as Hb.
    pose proof (lines_position_exact t (sn_start node) Ht ltac:(lia)) as Hpos. unfold lines_position, utf16_place in Hpos.
    destruct (place (lines_of t) (Z.min (sn_start node) (utf16_len t))) as [line start]. destruct (place (lines_of t) (Z.min (sn_end node) (utf16_len t))) as [line' last].
    destruct (Z.eqb_spec line' line); [|done]. injection Htk as <-. injection Hpos as Hline Hstart. split; cbn in *.
    - rewrite <- Hline. apply wrapU_range. lia.
    - unfold inU. lia. }
  apply delta_encode_reads; [lia|lia|by apply Forall_forall|done|]. apply Forall_forall. intros tk Htk. destruct (Hok _ Htk) as [[? ?] [? ?]]. lia.
Qed.

(** C12. Semantic tokens of a text: the stream a client decodes from the deltas is exactly the
    tokens of the compiler's nodes, in the order of their positions: those with a type, not empty
    and on one line; each covers the UTF-16 units of its node, cut at the end of the text; no
    delta underflows and no slice panics. The stream of a range is that of the tokens overlapping
    it. *)
Theorem semantic_tokens_exact `{LineIndexOk} t nodes : wf_str t → str_len t < 2 ^ 32 - 1 → Forall node_ok nodes →
  let tokens := sort_by token_leb (omap (token_of t) nodes) in
  (∃ data, semantic_tokens nodes t = Some data ∧ absolute 0 0 data = tokens) ∧
  (∀ range, ∃ data, semantic_tokens_range nodes t range = Some data ∧ absolute 0 0 data = List.filter (overlaps range) tokens) ∧
  (∀ node tk, node_ok node → token_of t node = Some tk →
     let before := utf16_len (take (line_start t (Z.to_nat (tk_line tk))) t) in
     before + tk_start tk = Z.min (sn_start node) (utf16_len t) ∧
     before + tk_start tk + tk_length tk = Z.min (sn_end node) (utf16_len t)).
Proof.
  intros Hw Ht Hn tokens.
  assert (StronglySorted (λ a b, token_leb a b = true) tokens) as Hsort.
  { apply (sort_by_sorted token_leb); intros; unfold token_leb in *; [apply lex_leb_total|by eapply lex_leb_trans]. }
  assert (∀ tk, tk ∈ tokens → ∃ node, node_ok node ∧ token_of t node = Some tk) as Hin.
  { intros tk. unfold tokens. rewrite elem_of_sort_by, list_elem_of_omap. intros (node & Hnode & Htk). exists node. split; [|done].
    rewrite Forall_forall in Hn. by apply Hn. }
  unfold semantic_tokens, semantic_tokens_range. rewrite Utf16Lines_exact by done. cbn [mbind option_bind]. rewrite positioned_exact by (done || lia). fold tokens.
  split_and!.
  - eexists. split; [done|]. apply (delta_encode_ok t); [lia|done|done].
  - intros range. eexists. split; [done|]. apply (delta_encode_ok t); [lia|by apply filter_sorted|].
    intros tk [Htk _]%list_elem_of_In%filter_In. by apply Hin, list_elem_of_In.
  - intros node tk. apply token_covers.
Qed.


(** ** A text with an astral char, and a client over an edit *)

(** [val 😀 = x\nx]: a node after the astral char, one on the second line, one with no type. *)
Definition demo_text : list Z := lit "val " ++ [128512] ++ lit " = x" ++ [10] ++ lit "x".
Definition demo_nodes : list SemanticNode := [mkSemanticNode 11 12 8 0; mkSemanticNode 9 10 13 (-1); mkSemanticNode 0 3 (-1) 0].

Lemma semantic_tokens_exact_witness :
  ∃ data, semantic_tokens (H := scan_index) demo_nodes demo_text = Some data ∧
    absolute 0 0 data = [mkToken 0 9 1 13 0; mkToken 1 0 1 8 0].
Proof.
  assert (sort_by token_leb (omap (token_of demo_text) demo_nodes) = [mkToken 0 9 1 13 0; mkToken 1 0 1 8 0]) as <- by (vm_compute; reflexivity).
  refine (proj1 (semantic_tokens_exact (H := scan_index) (H0 := scan_index_ok) demo_text demo_nodes _ _ _)).
  - refine (bool_decide_unpack _ _). vm_compute. exact I.
  - vm_compute. reflexivity.
  - unfold node_ok, inU, inS. repeat constructor; cbn; lia.
Defined.

Definition demo_stream (types : list Z) : list SemanticToken := (λ ty, mkSemanticToken 1 0 3 ty 0) <$> types.
Definition demo_requests : list TokensEvent :=
  [AskFull (lit "a") (demo_stream [1; 2; 3]); AskDelta (lit "a") (demo_stream [1; 4; 5; 3]); AskDelta (lit "b") (demo_stream [7]); CloseBuffer (lit "b")].


(** The counter of a file starts again once its base was evicted: one id then names two streams. *)
Lemma evicted_id_is_reused :
  let fill := (λ n, AskFull [Z.of_nat n] []) <$> seq 0 32 in
  let first := tokens_run [AskFull (lit "file") (demo_stream [1])] in
  let last := tokens_run ([AskFull (lit "file") (demo_stream [1])] ++ fill ++ [AskFull (lit "file") (demo_stream [2])]) in
  fst <$> first.2 !! lit "file" = fst <$> last.2 !! lit "file" ∧
  snd <$> first.2 !! lit "file" ≠ snd <$> last.2 !! lit "file".
Proof. vm_compute. split; [reflexivity|discriminate]. Qed.
